(* ===== verification/_CoqProject ===== *)
-Q . S2P
Prelude.v
StrEdit.v
Console.v
ConsoleSpec.v
ConsoleProps.v
ConsoleRender.v
Shell.v
ShellProps.v
Mpn.v
MpnSpec.v
MpnDiv.v
MpnBits.v
Mpz.v
MpzSpec.v
MpzConv.v
MpzProps.v
HashMap.v
HashTable.v
HashSpec.v
HashProps.v
ObjSet.v
SetProps.v
Lists.v
ListSpec.v
ListOps.v
ListSort.v
ListProps.v
IntObj.v
IntSpec.v
IntProps.v
Lexer.v
LexSpec.v
LexProps.v
LexText.v
LexCases.v
IntText.v
IntTextProps.v
Qstr.v
QstrProps.v
Grammar.v
Parse.v
ParseSpec.v
ParseRun.v
ParseNodes.v
ParseRule.v
ParseList.v
ParseParen.v
ParseRules.v
ParseFold.v
ParseProps.v
Bytecode.v
BytecodeProps.v
Scope.v
EmitBc.v
Compile.v
Vm.v
CodeAt.v
CodeLines.v
CallSem.v
VmRun.v
VmCalls.v
Eval.v
CompileShape.v
CompileRuns.v
CompileSound.v
Traceback.v
CompileEval.v
CompileProps.v
Gc.v
GcTable.v
GcHeap.v
GcMark.v
GcCollect.v
GcAlloc.v
GcFree.v
GcProps.v
