(* ===== verification/Prelude.v ===== *)
(** PythonExtra: a verification development.

    PythonExtra is MicroPython (the interpreter, [src/py]) with the port for Casio
    calculators ([src/ports/sh]).  Keys typed on the calculator go to a shell
    widget, which edits the last line of a console and hands complete lines to
    the interpreter; the interpreter splits the text into tokens, parses it,
    compiles and runs it over a heap with a garbage collector.  The development
    models, component by component, the parts of that path whose logic is the
    program's own, translated from the C source as the port compiles it (32-bit
    words, [MICROPY_CONFIG_ROM_LEVEL_CORE_FEATURES] and the options of
    [ports/sh/mpconfigport.h]).

    * Conventions

    A C function is a Rocq function of the same name.  Structures are records,
    enumerations inductive types, machine integers [Z] with their wrap-around
    written out ([wrapu], [wraps], [s32]).  State is passed explicitly.  Where a
    function returns [option], [None] is what the C code must never do: an access
    outside of a block, a failed assertion, an overflow of a signed integer, or
    the lack of the fuel of a loop; exceptions the code raises are values of a
    sum.  Code outside of the source (the graphics library, the allocator of
    the C library, comparison functions of user objects, the parser of floating
    point numbers) is a parameter.

    * Files

    - [Prelude]: machine integers, memory blocks as lists, tactics.
    - [StrEdit]: [ports/sh/stredit.c], the editable strings of the console, and
      the abstract editor they implement.
    - [Console], [ConsoleSpec], [ConsoleProps], [ConsoleRender]:
      [ports/sh/console.c]; the ring of lines and the terminal emulator, the
      abstract list of frozen lines and edited line it stands for, the safety
      of every sequence of writes, and the lazy layout and the drawing.
    - [Shell], [ShellProps]: [ports/sh/keymap.c], [ports/sh/widget_shell.c] and
      [path_to_module] of [ports/sh/main.c]: the keyboard over the console.
    - [Mpn], [MpnSpec], [MpnDiv], [MpnBits]: the digit arrays of [py/mpz.c];
      [Mpz], [MpzSpec], [MpzConv], [MpzProps]: arbitrary-precision integers.
    - [IntObj], [IntSpec], [IntProps]: integer objects, [py/smallint.c], the
      integer operators of [py/runtime.c] and [py/objint_mpz.c] over [Mpz].
    - [IntText], [IntTextProps]: parsing and printing integers,
      [py/parsenumbase.c], [py/parsenum.c], [py/objint.c].
    - [HashMap], [HashTable], [HashSpec], [HashProps]: the hash tables of
      [py/map.c] and dictionaries of [py/objdict.c]; [ObjSet], [SetProps]: the
      sets of [py/objset.c] on the same tables.  The class [KeyOps] is what the
      tables call of their keys, [KeyLaws] what they rely on; [IntProps] gives
      the instance of integer objects.
    - [Lists], [ListSpec], [ListOps], [ListSort], [ListProps]: the lists of
      [py/objlist.c], [py/sequence.c] and [py/objslice.c].
    - [Lexer], [LexSpec], [LexProps], [LexText], [LexCases]: the tokeniser of
      [py/lexer.c] over [py/reader.c] and [py/unicode.c].
    - [Qstr], [QstrProps]: interned strings, [py/qstr.c].
    - [Grammar], [Parse]: the tables of [py/grammar.h] and the parser of
      [py/parse.c]; [ParseSpec]: the language of the grammar and facts checked on
      every rule; [ParseRun]: the calculus of runs of its loop; [ParseNodes],
      [ParseFold]: the nodes of rules and the folding of constants; [ParseRule],
      [ParseList], [ParseParen], [ParseRules]: the rules by kind, and all of them
      by induction; [ParseProps]: the theorems, with the lexer.  The class
      [TokenSource] is what the parser calls of a lexer and [TokenLaws] what it
      relies on; [ParseProps] gives the instances of [Lexer] and of lists of
      tokens, and shows that the interned strings of the parser are those of
      [Qstr].
    - [Bytecode], [BytecodeProps]: the encodings of [py/bc.c], [py/bc.h] and
      [py/bc0.h] (numbers, labels, preludes, the table of line numbers) and their
      inverses.  [Scope]: [py/scope.c] and the numbering of local variables of
      [py/compile.c].  [EmitBc]: the emitter of bytecode, [py/emitbc.c] and
      [py/emitcommon.c], over its passes.  [Compile]: [py/compile.c].
    - [Vm]: the interpreter, [py/vm.c].  The class [Runtime] is what its
      instructions call of the objects and modules.
    - [CodeAt], [CallSem], [VmRun], [VmCalls]: the bytes a call of the emitter
      leaves in the block of the code, what the call means on a stack of values,
      and the execution of the bytes, call by call.
    - [Eval]: the evaluation of expressions from left to right, without code.
      [CompileShape]: what compiling keeps of the compiler's state.
      [CompileRuns], [CompileSound]: the judgement on executed code and its proof
      for every form of expression.  [CompileEval]: a whole input, from its passes
      to its result.  [CompileProps]: the theorems, with a runtime and a source
      text.
    - [Gc], [GcTable], [GcHeap], [GcMark], [GcCollect], [GcAlloc], [GcFree],
      [GcProps]: the collector of [py/gc.c] and its entry in
      [ports/sh/main.c].

    * What the theorems show

    Console and shell: no sequence of writes, cursor moves or keys leaves a
    buffer or uses a freed line; operations on lines refine the abstract list;
    the lazy layout agrees with the full one; the line given to the interpreter
    is the text typed after the prompt; the modifier keys implement a lock and a
    hold.  Integers: every operator computes the mathematical result or raises
    the exception of the language, through the digit loops and their machine
    accumulators; parsing and printing are inverse and stay in their buffers.
    Dictionaries and sets: the open-addressing tables are maps and sets up to the
    equality of the objects, across deletions and rehashing.  Lists: every
    operation is the one on the list of items, with its exceptions and failed
    allocations; sorting ends and sorts.  Tokeniser: it ends, its indents and
    dedents balance, its operator and keyword searches agree with their
    specification, printed bytes are read back.  Interned strings: a qstr stands for
    one text, in whatever pool it is.  Parser: on every source it comes to a tree or
    an exception without a failed assertion; a rule that is not matched leaves the
    state as it was; what is accepted derives from the grammar, and every node has
    the shape of its rule; folding keeps values and effects.
    Compiler and interpreter: the code made of an expression, executed from its
    bytes by the loop of [vm.c], returns the value of the left-to-right evaluation
    of the expression or leaves with its exception, short circuits, chained
    comparisons, conditional expressions, subscripts, attributes and calls
    included; it leaves the depth of the stack the emitter counted; the encodings
    of the instructions and of the prelude are read back; an instruction is given
    the line it was compiled at.
    Collector: the invariant of the allocation table is kept; a collection keeps
    exactly what is reachable from the roots with its contents, also when the
    mark stack overflows; allocation returns free cleared memory and fails only
    when there is none.

    * Fuel and bounds

    Loops that are not structural take a fuel, and a theorem of the component
    shows a fuel that is enough for every input: two turns of adding back in the
    division of digits ([ADD_BACK_FUEL]), two rounds of a table search (the whole
    table, then the one left after growing), two rounds of [gc_alloc] (before and
    after a collection), marking by the number of blocks, overflow rounds by one
    more, chains by the length of the table, quicksort by a depth whose power of
    two exceeds the length, powers of small integers by their 31 bits, texts of
    small integers by their 32, [console_write] by twice the text, the tokeniser
    by the length of the source plus four, the search of a pool by 31 halvings.  For
    the parser a fuel that is enough is shown to exist, by induction on the tokens
    left and the rank of the rule, and more changes nothing.  The compiler and the
    evaluation of expressions take a fuel beyond the depth of the tree; for the
    interpreter a number of steps is shown to exist.
    The correctness of the compiler supposes of the last pass that the labels are
    those of the pass before ([pass_placed]), of the runtime that a literal has the
    truth the compiler gives it ([LiteralTruth]) and that constants stand for their
    values ([Values]), of the frame that no exception waits to be injected.
    Lists of slots are bounded by [MAX_SLOTS], the number of slots whose bytes a
    32-bit size counts.

    * Not modelled

    Memory is modelled where a component owns it (blocks of lines, digits, slots,
    the heap of the collector); allocation elsewhere succeeds, its failure being
    an exception that leaves the operation.  Inside the parser a qstr is its text
    and nodes are values: their chunks of memory are left out.  The
    compiler is modelled for the expressions and statements of one scope; what
    makes a scope of its own (functions, lambdas, classes, comprehensions) and
    [async] are left out.  Types, instances and the modules reach user code through
    the runtime, which is a parameter of the interpreter; floating point is the machine's; native emitters, other ports,
    drivers and the libraries under [src/lib] are not part of the calculator's
    program or not its own code.  Each component below says what of its files it
    leaves out.

    * Findings

    The components [LexCases], [ParseProps], [IntProps], [MpzProps], [ConsoleRender] and others
    end with evaluated examples of inputs on which the code departs from the
    language or from its comments: the chunks of [console_write_raw], the NUL
    byte that stops the drawing, zero to the power of zero, [divmod] of the least
    small integer, the escape that looks like the end of the file, the separator
    in long numbers and the others listed with the development. *)

From Stdlib Require Import ZArith Lia.
From stdpp Require Import base option list numbers.

#[global] Open Scope Z_scope.

(** * Machine integers

    [wrapu n x] is the value stored when [x] is assigned to an unsigned
    [n]-bit object, [wraps n x] the value stored in a signed two's complement
    one. *)

Definition wrapu (n x : Z) : Z := x mod 2 ^ n.

Definition wraps (n x : Z) : Z :=
  (x + 2 ^ (n - 1)) mod 2 ^ n - 2 ^ (n - 1).

Lemma wrapu_small n x : 0 <= x < 2 ^ n -> wrapu n x = x.
Proof. apply Z.mod_small. Qed.

Lemma wrapu_range n x : 0 <= n -> 0 <= wrapu n x < 2 ^ n.
Proof. intros. apply Z.mod_pos_bound. lia. Qed.

Lemma wraps_small n x : 0 < n -> - 2 ^ (n - 1) <= x < 2 ^ (n - 1) -> wraps n x = x.
Proof.
  intros Hn Hx. unfold wraps.
  assert (2 ^ n = 2 * 2 ^ (n - 1)) as E.
  { rewrite <- Z.pow_succ_r by lia. f_equal; lia. }
  rewrite Z.mod_small; lia.
Qed.

Lemma wraps_range n x : 0 < n -> - 2 ^ (n - 1) <= wraps n x < 2 ^ (n - 1).
Proof.
  intros Hn. unfold wraps.
  assert (2 ^ n = 2 * 2 ^ (n - 1)) as E.
  { rewrite <- Z.pow_succ_r by lia. f_equal; lia. }
  pose proof (Z.mod_pos_bound (x + 2 ^ (n - 1)) (2 ^ n) ltac:(lia)). lia.
Qed.

Create Rewrite HintDb bits.
#[export] Hint Rewrite wrapu_small wraps_small using (cbn; lia) : bits.

(** * Memory blocks

    A block obtained from the allocator is a list of cells; [None] is a byte
    whose value is indeterminate.  The block operations return [None] when the
    access is outside the block, that is, when the C code has undefined
    behaviour. *)

Abbreviation cell := (option Z).
Abbreviation block := (list cell).

Definition blen (b : block) : Z := Z.of_nat (length b).

Definition in_block (b : block) (pos n : Z) : bool :=
  (0 <=? n) && (0 <=? pos) && (pos + n <=? blen b).

(** [n] cells starting at [pos]. *)
Definition slice (pos n : Z) (b : block) : block :=
  take (Z.to_nat n) (drop (Z.to_nat pos) b).

Definition mem_read (b : block) (pos n : Z) : option block :=
  if in_block b pos n then Some (slice pos n b) else None.

(** [memcpy(b + pos, s, length s)] with [s] in another block. *)
Definition mem_write (b : block) (pos : Z) (s : block) : option block :=
  if in_block b pos (blen s)
  then Some (take (Z.to_nat pos) b ++ s ++ drop (Z.to_nat (pos + blen s)) b)
  else None.

(** [memmove(b + dst, b + src, n)]. *)
Definition mem_move (b : block) (dst src n : Z) : option block :=
  s ← mem_read b src n; mem_write b dst s.

(** [memset(b + pos, c, n)]. *)
Definition mem_set (b : block) (pos n c : Z) : option block :=
  if in_block b pos n
  then mem_write b pos (replicate (Z.to_nat n) (Some c)) else None.

(** The allocator: [mok n] says whether a request for [n] bytes succeeds. *)
Definition malloc (mok : Z -> bool) (n : Z) : option block :=
  if mok (wrapu 32 n) then Some (replicate (Z.to_nat (wrapu 32 n)) None) else None.

(** A pointer that owns a block, or that did: using or freeing a freed block is
    undefined behaviour. *)
Inductive ptr := PNull | PBlock (b : block) | PFreed.

Definition deref (p : ptr) : option block :=
  match p with PBlock b => Some b | _ => None end.

Definition free (p : ptr) : option unit :=
  match p with PFreed => None | _ => Some tt end.

Definition ptr_of (b : option block) : ptr :=
  match b with Some b => PBlock b | None => PNull end.

(** [PNull] when the request fails; the old block is then still allocated. *)
Definition realloc (mok : Z -> bool) (p : ptr) (n : Z) : option ptr :=
  let m := wrapu 32 n in
  match p with
  | PFreed => None
  | PNull => Some (ptr_of (malloc mok n))
  | PBlock b =>
      Some (if mok m
            then PBlock (take (Z.to_nat m) b ++ replicate (Z.to_nat (m - blen b)) None)
            else PNull)
  end.

(** Reduces the binds whose first computation has been rewritten to [Some]. *)
Ltac sbind := cbn [mbind option_bind deref free].

(** ** Lemmas on blocks *)

Lemma blen_nil : blen [] = 0.
Proof. reflexivity. Qed.

Lemma blen_cons c b : blen (c :: b) = 1 + blen b.
Proof. unfold blen. simpl. lia. Qed.

Lemma blen_app a b : blen (a ++ b) = blen a + blen b.
Proof. unfold blen. rewrite length_app. lia. Qed.

Lemma blen_nonneg b : 0 <= blen b.
Proof. unfold blen. lia. Qed.

Lemma blen_fmap (t : list Z) : blen (Some <$> t) = Z.of_nat (length t).
Proof. unfold blen. by rewrite length_fmap. Qed.

Lemma blen_replicate n c : blen (replicate n c) = Z.of_nat n.
Proof. unfold blen. by rewrite length_replicate. Qed.

Lemma blen_drop n b : 0 <= n <= blen b -> blen (drop (Z.to_nat n) b) = blen b - n.
Proof. unfold blen. intros. rewrite length_drop. lia. Qed.

Lemma blen_take n b : 0 <= n <= blen b -> blen (take (Z.to_nat n) b) = n.
Proof. unfold blen. intros. rewrite length_take. lia. Qed.

Create Rewrite HintDb blk.
#[export] Hint Rewrite blen_nil blen_cons blen_app blen_fmap blen_replicate
  @length_app @length_take @length_drop @length_fmap @length_replicate : blk.
#[export] Hint Rewrite blen_drop blen_take using (autorewrite with blk; lia) : blk.

(** Side conditions on the extent of an access. *)
Ltac blk :=
  autorewrite with blk;
  repeat match goal with
  | _ : context [blen ?x] |- _ =>
      lazymatch goal with _ : 0 <= blen x |- _ => fail | _ => pose proof (blen_nonneg x) end
  | |- context [blen ?x] =>
      lazymatch goal with _ : 0 <= blen x |- _ => fail | _ => pose proof (blen_nonneg x) end
  end; try lia.

Lemma in_block_true b pos n :
  0 <= n -> 0 <= pos -> pos + n <= blen b -> in_block b pos n = true.
Proof. unfold in_block. lia. Qed.

Lemma mem_read_app a b c pos n :
  pos = blen a -> n = blen b -> mem_read (a ++ b ++ c) pos n = Some b.
Proof.
  intros -> ->. unfold mem_read. rewrite in_block_true by
    (autorewrite with blk; pose proof (blen_nonneg a); pose proof (blen_nonneg b);
     pose proof (blen_nonneg c); lia).
  f_equal. unfold slice, blen. rewrite !Nat2Z.id.
  rewrite drop_app_length. apply take_app_length.
Qed.

Lemma mem_read_prefix b c n : n = blen b -> mem_read (b ++ c) 0 n = Some b.
Proof. intros. by apply (mem_read_app [] b c). Qed.

Lemma mem_write_app a m pos s :
  pos = blen a -> blen s <= blen m ->
  mem_write (a ++ m) pos s = Some (a ++ s ++ drop (length s) m).
Proof.
  intros -> Hs. unfold mem_write. rewrite in_block_true by
    (autorewrite with blk; pose proof (blen_nonneg a); pose proof (blen_nonneg s);
     lia).
  unfold blen. rewrite <- Nat2Z.inj_add, !Nat2Z.id.
  rewrite take_app_length. rewrite drop_app_add. done.
Qed.

Lemma mem_write_prefix m s :
  blen s <= blen m -> mem_write m 0 s = Some (s ++ drop (length s) m).
Proof. intros. by apply (mem_write_app [] m 0 s). Qed.

Lemma mem_write_app_skip a m pos k s :
  pos = blen a + k -> 0 <= k -> k + blen s <= blen m ->
  mem_write (a ++ m) pos s =
    Some (a ++ take (Z.to_nat k) m ++ s ++ drop (Z.to_nat (k + blen s)) m).
Proof.
  intros -> Hk Hs. pose proof (blen_nonneg s).
  rewrite <- (take_drop (Z.to_nat k) m) at 1. rewrite app_assoc.
  rewrite mem_write_app by (autorewrite with blk; lia).
  rewrite <- app_assoc, drop_drop. do 5 f_equal. unfold blen. lia.
Qed.

Lemma mapM_id_Some {A} (t : list A) : mapM id (Some <$> t) = Some t.
Proof. apply mapM_Some. induction t; constructor; done. Qed.

(** ** More on wrap-around *)

Lemma wraps_mod n x : 0 < n -> (wraps n x) mod 2 ^ n = x mod 2 ^ n.
Proof.
  intros. unfold wraps. rewrite Zminus_mod_idemp_l. f_equal. lia.
Qed.

Lemma wraps_eq n x y : 0 < n -> x mod 2 ^ n = y mod 2 ^ n -> wraps n x = wraps n y.
Proof.
  intros Hn H. unfold wraps. f_equal.
  rewrite <- (Zplus_mod_idemp_l x), <- (Zplus_mod_idemp_l y), H. done.
Qed.

Lemma wraps_add_l n x y : 0 < n -> wraps n (wraps n x + y) = wraps n (x + y).
Proof.
  intros. apply wraps_eq; [done|].
  by rewrite <- Zplus_mod_idemp_l, wraps_mod, Zplus_mod_idemp_l.
Qed.

Lemma wraps_sub_l n x y : 0 < n -> wraps n (wraps n x - y) = wraps n (x - y).
Proof. intros. rewrite <- !Z.add_opp_r. by apply wraps_add_l. Qed.

Lemma wraps_wraps n x : 0 < n -> wraps n (wraps n x) = wraps n x.
Proof. intros H. pose proof (wraps_add_l n x 0 H) as E. by rewrite !Z.add_0_r in E. Qed.

(** ** Sums *)

Definition sumZ (l : list Z) : Z := foldr Z.add 0 l.

Lemma sumZ_cons x l : sumZ (x :: l) = x + sumZ l.
Proof. done. Qed.

Lemma sumZ_app a b : sumZ (a ++ b) = sumZ a + sumZ b.
Proof. induction a as [|x a IH]; simpl in *; [done|lia]. Qed.

Lemma sumZ_nonneg l : Forall (Z.le 0) l -> 0 <= sumZ l.
Proof. induction 1; simpl; lia. Qed.

Lemma sumZ_drop_S {A} (f : A -> Z) l k x :
  l !! k = Some x -> sumZ (f <$> drop k l) = f x + sumZ (f <$> drop (S k) l).
Proof. intros H. by rewrite (drop_S _ _ _ H). Qed.

(** ** Rotating indices *)

Definition rot (start cap k : Z) : nat := Z.to_nat ((start + k) mod cap).

Lemma rot_lt start cap k : 0 < cap -> (rot start cap k < Z.to_nat cap)%nat.
Proof. intros. unfold rot. pose proof (Z.mod_pos_bound (start + k) cap). lia. Qed.

Lemma rot_inj start cap j k :
  0 < cap -> 0 <= j < cap -> 0 <= k < cap -> rot start cap j = rot start cap k -> j = k.
Proof.
  intros Hc Hj Hk H. unfold rot in H.
  pose proof (Z.mod_pos_bound (start + j) cap Hc).
  pose proof (Z.mod_pos_bound (start + k) cap Hc).
  assert ((start + j) mod cap = (start + k) mod cap) as E by lia.
  assert ((j - k) mod cap = 0) as E2.
  { replace (j - k) with ((start + j) - (start + k)) by lia.
    rewrite Zminus_mod, E, Z.sub_diag. by apply Z.mod_0_l; lia. }
  apply Z.mod_divide in E2 as [q Hq]; [|lia].
  destruct (Z.lt_trichotomy q 0) as [?|[->|?]]; nia.
Qed.

Lemma rot_shift start cap d k :
  0 < cap -> rot ((start + d) mod cap) cap k = rot start cap (d + k).
Proof. intros. unfold rot. rewrite Zplus_mod_idemp_l. f_equal. f_equal. lia. Qed.

Lemma rem_rot start cap k :
  0 < cap -> 0 <= start -> 0 <= k -> Z.to_nat (Z.rem (start + k) cap) = rot start cap k.
Proof. intros. unfold rot. rewrite Z.rem_mod_nonneg by lia. done. Qed.

Lemma wrapu_add_l n x y : wrapu n (wrapu n x + y) = wrapu n (x + y).
Proof. unfold wrapu. apply Zplus_mod_idemp_l. Qed.

(** ** Bits *)

Lemma land_ones_mod x n : 0 <= n -> Z.land x (2 ^ n - 1) = x mod 2 ^ n.
Proof. intros. rewrite <- Z.land_ones by done. by rewrite Z.ones_equiv, Z.sub_1_r. Qed.

Lemma lor_pow2 p t x : 0 <= p -> 0 <= x < 2 ^ p -> Z.lor (t * 2 ^ p) x = t * 2 ^ p + x.
Proof.
  intros Hp Hx. rewrite Z.add_nocarry_lor; [done|]. apply Z.bits_inj'. intros n Hn.
  rewrite Z.land_spec, Z.bits_0, Z.mul_pow2_bits by lia.
  rewrite <- (Z.mod_small x (2 ^ p)), Z.testbit_mod_pow2 by lia.
  destruct (Z.ltb_spec n p); [|apply andb_false_r]. by rewrite Z.testbit_neg_r by lia.
Qed.

Lemma land_pow2 x n : 0 <= n -> (Z.land x (2 ^ n) =? 0) = negb (Z.testbit x n).
Proof.
  intros Hn. destruct (Z.testbit x n) eqn:E; cbn.
  - apply Z.eqb_neq. intros H. assert (Z.testbit (Z.land x (2 ^ n)) n = false) as C by (rewrite H; apply Z.bits_0).
    rewrite Z.land_spec, E, Z.pow2_bits_true in C by done. done.
  - apply Z.eqb_eq. apply Z.bits_inj'. intros k Hk. rewrite Z.land_spec, Z.bits_0.
    destruct (Z.eq_dec k n) as [->|]; [by rewrite E|]. rewrite Z.pow2_bits_false by lia. apply andb_false_r.
Qed.

(** The bounds of a quotient. *)
Lemma div_bounds n d : 0 < d -> d * (n / d) <= n < d * (n / d) + d.
Proof. intros. pose proof (Z.div_mod n d). pose proof (Z.mod_pos_bound n d). lia. Qed.
