(* ===== verification/StrEdit.v ===== *)
(** Editable strings of the console: [ports/sh/stredit.c].

    The buffer is a block of cells, so that bytes the allocator returns are
    indeterminate until the code writes them.  The second half gives the
    abstract editor (a text, a locked prefix, a maximum) and shows that the
    C routines implement it. *)

From Stdlib Require Import ZArith Lia.
From stdpp Require Import base option list numbers.
From S2P Require Import Prelude.

(** * The structure and its operations *)

Record stredit_t := {
  raw : ptr;               (* [char *raw] *)
  max_size : Z;            (* the five [uint16_t] members *)
  reserved : Z;
  size : Z;
  alloc_size : Z;
  prefix : Z
}.

Definition stredit_zero : stredit_t :=
  {| raw := PNull; max_size := 0; reserved := 0; size := 0; alloc_size := 0; prefix := 0 |}.

Definition set_raw (b : block) (ed : stredit_t) : stredit_t :=
  {| raw := PBlock b; max_size := max_size ed; reserved := reserved ed;
     size := size ed; alloc_size := alloc_size ed; prefix := prefix ed |}.

Definition set_size (n : Z) (ed : stredit_t) : stredit_t :=
  {| raw := raw ed; max_size := max_size ed; reserved := reserved ed;
     size := wrapu 16 n; alloc_size := alloc_size ed; prefix := prefix ed |}.

Definition stredit_capacity (ed : stredit_t) : Z := max_size ed - size ed.

Section ops.
Context (mok : Z -> bool).

Definition stredit_reset (ed : stredit_t) : option stredit_t :=
  _ ← free (raw ed); Some stredit_zero.

Definition stredit_init (ed : stredit_t) (prealloc_size reserved_bytes max_size' : Z)
    : option (bool * stredit_t) :=
  if max_size' =? 0 then Some (true, stredit_zero) else
  match malloc mok (reserved_bytes + prealloc_size + 1) with
  | None => Some (false, ed)
  | Some b =>
      b ← mem_set b 0 reserved_bytes 0;
      b ← mem_write b reserved_bytes [Some 0];
      Some (true,
        {| raw := PBlock b;
           reserved := wrapu 16 reserved_bytes;
           max_size := wrapu 16 max_size';
           size := 0;
           alloc_size := wrapu 16 (reserved_bytes + prealloc_size + 1);
           prefix := 0 |})
  end.

(** Returns the buffer, whose ownership goes to the caller. *)
Definition stredit_freeze_and_reset (ed : stredit_t) : option (ptr * stredit_t) :=
  let size_needed := reserved ed + size ed + 1 in
  b ← (if size_needed + 4 <=? alloc_size ed
       then realloc mok (raw ed) size_needed else Some (raw ed));
  let ed := {| raw := PNull; max_size := max_size ed; reserved := reserved ed;
               size := size ed; alloc_size := alloc_size ed; prefix := prefix ed |} in
  ed ← stredit_reset ed;
  Some (b, ed).

Definition stredit_alloc (ed : stredit_t) (n : Z) : option (bool * stredit_t) :=
  if reserved ed + n + 1 <=? alloc_size ed then Some (true, ed) else
  let newsize := Z.max (alloc_size ed + 16) (reserved ed + n + 1) in
  newraw ← realloc mok (raw ed) newsize;
  match newraw with
  | PBlock _ =>
      Some (true,
       {| raw := newraw; max_size := max_size ed; reserved := reserved ed;
          size := size ed; alloc_size := wrapu 16 newsize; prefix := prefix ed |})
  | _ => Some (false, ed)
  end.

Definition stredit_set_prefix (ed : stredit_t) (prefix_size : Z) : stredit_t :=
  {| raw := raw ed; max_size := max_size ed; reserved := reserved ed;
     size := size ed; alloc_size := alloc_size ed;
     prefix := wrapu 16 (Z.min (Z.max 0 prefix_size) (size ed)) |}.

(** [insert_str] is the memory the argument points to; [memcpy] takes its
    first [n] bytes. *)
Definition stredit_insert (ed : stredit_t) (p : Z) (insert_str : block) (n : Z)
    : option (bool * stredit_t) :=
  if (p <? 0) || (size ed <? p) || (max_size ed <? size ed + n)
  then Some (false, ed) else
  '(ok, ed) ← stredit_alloc ed (size ed + n);
  if negb ok then Some (false, ed) else
  b ← deref (raw ed);
  b ← mem_move b (reserved ed + p + n) (reserved ed + p) (size ed - p + 1);
  s ← mem_read insert_str 0 n;
  b ← mem_write b (reserved ed + p) s;
  Some (true, set_size (size ed + n) (set_raw b ed)).

Definition stredit_delete (ed : stredit_t) (p n : Z) : option (Z * stredit_t) :=
  let unremovable := if p <? prefix ed then prefix ed - p else 0 in
  let p := p + unremovable in
  let n := n - unremovable in
  let n := Z.min n (size ed - p) in
  if n <? 0 then Some (0, ed) else
  b ← deref (raw ed);
  b ← mem_move b (reserved ed + p) (reserved ed + p + n) (size ed - n - p + 1);
  Some (n, set_size (size ed - n) (set_raw b ed)).

End ops.

(** The text the structure holds, [size] bytes at [raw + reserved]; [None] if
    one of them is not initialised. *)
Definition stredit_text (ed : stredit_t) : option (list Z) :=
  b ← deref (raw ed); t ← mem_read b (reserved ed) (size ed); mapM id t.

(** * The abstract editor *)

Record line := {
  l_meta : block;         (* the reserved bytes *)
  l_text : list Z;
  l_prefix : Z;
  l_max : Z
}.

Definition llen (l : line) : Z := Z.of_nat (length (l_text l)).

Definition line_fresh (reserved_bytes max : Z) : line :=
  {| l_meta := replicate (Z.to_nat reserved_bytes) (Some 0); l_text := [];
     l_prefix := 0; l_max := max |}.

(** Insertion succeeds exactly when the position is in the text and the result
    fits. *)
Definition line_insert (l : line) (p : Z) (s : list Z) : option line :=
  if (0 <=? p) && (p <=? llen l) && (llen l + Z.of_nat (length s) <=? l_max l)
  then Some {| l_meta := l_meta l;
               l_text := take (Z.to_nat p) (l_text l) ++ s ++ drop (Z.to_nat p) (l_text l);
               l_prefix := l_prefix l; l_max := l_max l |}
  else None.

(** Deletion of the part of [p, p + n) that is inside the text and not in the
    locked prefix; returns the number of bytes removed. *)
Definition line_delete (l : line) (p n : Z) : Z * line :=
  let lo := Z.max p (l_prefix l) in
  let hi := Z.min (p + n) (llen l) in
  if hi <=? lo then (0, l) else
  (hi - lo,
   {| l_meta := l_meta l;
      l_text := take (Z.to_nat lo) (l_text l) ++ drop (Z.to_nat hi) (l_text l);
      l_prefix := l_prefix l; l_max := l_max l |}).

Definition line_set_prefix (l : line) (n : Z) : line :=
  {| l_meta := l_meta l; l_text := l_text l;
     l_prefix := Z.min (Z.max 0 n) (llen l); l_max := l_max l |}.

(** The structure stores the abstract line: the reserved bytes, the text, the
    NUL, and [J], the rest of the allocation.  The last conjunct keeps every
    16-bit member from wrapping. *)
Definition stores (ed : stredit_t) (l : line) : Prop :=
  (exists J, raw ed = PBlock (l_meta l ++ (Some <$> l_text l) ++ Some 0 :: J)
             /\ alloc_size ed = blen (l_meta l) + llen l + 1 + blen J)
  /\ reserved ed = blen (l_meta l)
  /\ size ed = llen l
  /\ max_size ed = l_max l
  /\ prefix ed = l_prefix l
  /\ 0 <= l_prefix l <= llen l
  /\ llen l <= l_max l
  /\ blen (l_meta l) + l_max l + 17 < 2 ^ 16
  /\ alloc_size ed <= blen (l_meta l) + l_max l + 17.

Lemma stores_text ed l : stores ed l -> stredit_text ed = Some (l_text l).
Proof.
  intros ((J & Hraw & _) & Hres & Hsz & _). unfold stredit_text. rewrite Hraw. simpl.
  erewrite mem_read_app with (b := Some <$> l_text l); blk; [|unfold llen in *; lia].
  simpl. apply mapM_id_Some.
Qed.

(** Replacing the text and the junk keeps [stores]. *)
Lemma stores_update ed l t J n :
  stores ed l ->
  n = Z.of_nat (length t) ->
  l_prefix l <= n <= l_max l ->
  alloc_size ed = blen (l_meta l) + n + 1 + blen J ->
  stores (set_size n (set_raw (l_meta l ++ (Some <$> t) ++ Some 0 :: J) ed))
    {| l_meta := l_meta l; l_text := t; l_prefix := l_prefix l; l_max := l_max l |}.
Proof.
  intros (_ & Hr & Hs & Hm & Hp & Hpb & Hl & Hb & Ha) -> Hn HJ.
  pose proof (blen_nonneg (l_meta l)).
  unfold stores, set_size, set_raw, llen in *; simpl.
  rewrite wrapu_small by (simpl; lia).
  repeat split; try done; try lia. exists J. split; [done|lia].
Qed.

Lemma stredit_alloc_stores mok ed l n :
  stores ed l -> 0 <= n <= l_max l ->
  exists ok ed', stredit_alloc mok ed n = Some (ok, ed') /\ stores ed' l /\
    (ok = true -> blen (l_meta l) + n + 1 <= alloc_size ed') /\
    (ok = false -> ed' = ed) /\
    ((forall k, mok k = true) -> ok = true).
Proof.
  intros Hst Hn. pose proof Hst as ((J & Hraw & HJ) & Hr & Hs & Hm & Hp & Hpb & Hl & Hb & Ha).
  pose proof (blen_nonneg (l_meta l)). pose proof (blen_nonneg J).
  unfold stredit_alloc.
  destruct (Z.leb_spec (reserved ed + n + 1) (alloc_size ed)).
  - eexists _, _. split; [done|]. split; [done|]. repeat split; try done; lia.
  - set (newsize := Z.max _ _). unfold realloc. rewrite Hraw.
    assert (alloc_size ed <= newsize <= blen (l_meta l) + l_max l + 17) by (subst newsize; lia).
    rewrite (wrapu_small 32) by (simpl in *; lia).
    destruct (mok newsize) eqn:Hok.
    + eexists _, _. split; [done|]. split; [|simpl; rewrite wrapu_small by lia;
        repeat split; try done; subst newsize; lia].
      unfold stores; simpl. rewrite wrapu_small by lia.
      repeat split; try done; try lia.
      eexists (J ++ replicate (Z.to_nat (newsize - alloc_size ed)) None).
      split; [|blk]. f_equal.
      rewrite take_ge by (unfold llen in *; blk; unfold blen in *; simpl length; lia).
      rewrite <- !app_assoc. simpl. do 4 f_equal.
      unfold llen in *. blk. f_equal; lia.
    + eexists _, _. split; [done|]. split_and!; try done.
      intros Hall. rewrite Hall in Hok. done.
Qed.

(** Moving the tail [T2 ++ NUL] up by [n] and writing [ins] in the gap. *)
Lemma block_insert (A ins T2 J : block) n :
  n = blen ins -> n <= blen J ->
  (b ← mem_move (A ++ T2 ++ Some 0 :: J) (blen A + n) (blen A) (blen T2 + 1);
   mem_write b (blen A) ins) =
  Some (A ++ ins ++ T2 ++ Some 0 :: drop (Z.to_nat n) J).
Proof.
  intros -> Hn. unfold mem_move. pose proof (blen_nonneg T2). pose proof (blen_nonneg ins).
  assert (A ++ T2 ++ Some 0 :: J = A ++ (T2 ++ [Some 0]) ++ J) as E
    by (simplify_list_eq; done).
  rewrite E. rewrite (mem_read_app _ (T2 ++ [Some 0])) by blk. simpl.
  rewrite (mem_write_app_skip A _ _ (blen ins)) by blk. simpl.
  rewrite mem_write_app by (blk; unfold blen in *; blk).
  f_equal. f_equal. f_equal. rewrite drop_app_ge by (unfold blen in *; blk).
  rewrite length_take_le by (unfold blen in *; blk).
  replace (length ins - Z.to_nat (blen ins))%nat with 0%nat by (unfold blen; lia).
  rewrite drop_0, <- app_assoc. simpl. do 2 f_equal.
  rewrite drop_app_ge by (unfold blen in *; blk). f_equal.
  unfold blen in *; blk.
Qed.

Lemma take_drop_fmap (t : list Z) k (X : block) :
  (Some <$> t) ++ X = (Some <$> take k t) ++ (Some <$> drop k t) ++ X.
Proof. by rewrite app_assoc, <- fmap_app, take_drop. Qed.

(** The tail [T2 ++ NUL] moves down over the deleted bytes [D]. *)
Lemma block_delete (A D T2 J : block) :
  exists J', mem_move (A ++ D ++ T2 ++ Some 0 :: J) (blen A) (blen A + blen D) (blen T2 + 1)
             = Some (A ++ T2 ++ Some 0 :: J') /\ blen J' = blen J + blen D.
Proof.
  pose proof (blen_nonneg T2). pose proof (blen_nonneg D). pose proof (blen_nonneg J).
  exists (drop (length (T2 ++ [Some 0])) (D ++ T2 ++ Some 0 :: J)).
  unfold mem_move.
  assert (A ++ D ++ T2 ++ Some 0 :: J = (A ++ D) ++ (T2 ++ [Some 0]) ++ J) as E
    by (simplify_list_eq; done).
  rewrite E at 1. rewrite (mem_read_app _ (T2 ++ [Some 0])) by blk. simpl.
  rewrite mem_write_app by blk. split; [by rewrite <- app_assoc|].
  unfold blen. blk. simpl length. lia.
Qed.

Lemma line_insert_text l p s :
  0 <= p <= llen l -> llen l + Z.of_nat (length s) <= l_max l ->
  line_insert l p s = Some {| l_meta := l_meta l;
       l_text := take (Z.to_nat p) (l_text l) ++ s ++ drop (Z.to_nat p) (l_text l);
       l_prefix := l_prefix l; l_max := l_max l |}.
Proof. intros. unfold line_insert. by rewrite !(proj2 (Z.leb_le _ _)) by lia. Qed.

(** The two copies of [stredit_insert], once the buffer has the room. *)
Lemma stredit_insert_copies ed l p (s : list Z) (X : block) :
  stores ed l -> 0 <= p <= llen l -> llen l + Z.of_nat (length s) <= l_max l ->
  blen (l_meta l) + (llen l + Z.of_nat (length s)) + 1 <= alloc_size ed ->
  exists ed' l',
    (b ← deref (raw ed);
     b ← mem_move b (reserved ed + p + Z.of_nat (length s)) (reserved ed + p)
           (size ed - p + 1);
     s' ← mem_read ((Some <$> s) ++ X) 0 (Z.of_nat (length s));
     b ← mem_write b (reserved ed + p) s';
     Some (true, set_size (size ed + Z.of_nat (length s)) (set_raw b ed))) = Some (true, ed')
    /\ line_insert l p s = Some l' /\ stores ed' l'.
Proof.
  intros Hst Hp Hmax Hroom. rewrite line_insert_text by lia.
  pose proof Hst as ((J & Hraw & HJ) & Hr & Hs & Hm & _ & Hpb & _).
  rewrite Hraw, Hs, Hr. simpl. rewrite mem_read_prefix by blk.
  set (T1 := take (Z.to_nat p) (l_text l)). set (T2 := drop (Z.to_nat p) (l_text l)).
  assert (blen (l_meta l ++ (Some <$> T1)) = blen (l_meta l) + p) as EA
    by (subst T1; unfold llen in *; blk).
  assert (blen (Some <$> T2) = llen l - p) as ET by (subst T2; unfold llen in *; blk).
  pose proof (block_insert (l_meta l ++ (Some <$> T1)) (Some <$> s) (Some <$> T2) J
                (Z.of_nat (length s))) as HI.
  specialize (HI ltac:(by blk) ltac:(by blk)).
  rewrite (take_drop_fmap (l_text l) (Z.to_nat p)), app_assoc. fold T1 T2.
  rewrite EA, ET in HI.
  destruct (mem_move _ _ _ _) as [b1|]; [|discriminate HI].
  simpl in HI |- *. rewrite HI. simpl.
  eexists _, _. split; [done|]. split; [done|].
  assert (forall Y, (l_meta l ++ (Some <$> T1)) ++ (Some <$> s) ++ (Some <$> T2) ++ Y =
          l_meta l ++ (Some <$> (T1 ++ s ++ T2)) ++ Y) as EE
    by (intros; rewrite !fmap_app, <- !app_assoc; done).
  rewrite EE. apply stores_update; [done|..]; subst T1 T2; unfold llen in *; blk.
Qed.

Lemma stredit_insert_refines' mok ed l p (s : list Z) n (X : block) :
  stores ed l ->
  n = Z.of_nat (length s) ->
  exists ok ed', stredit_insert mok ed p ((Some <$> s) ++ X) n = Some (ok, ed') /\
    (ok = false -> ed' = ed) /\
    (ok = true -> exists l', line_insert l p s = Some l' /\ stores ed' l') /\
    ((forall k, mok k = true) -> (ok = true <-> is_Some (line_insert l p s))).
Proof.
  intros Hst ->. pose proof Hst as (_ & Hr & Hs & Hm & _ & Hpb & Hl & _).
  unfold stredit_insert. rewrite Hs, Hm.
  destruct (_ || _) eqn:Hg.
  { eexists _, _. split; [done|]. unfold line_insert.
    replace (_ && _) with false by (clear -Hg; lia).
    clear Hpb Hl Hst. split_and!; naive_solver. }
  destruct (stredit_alloc_stores mok ed l (llen l + Z.of_nat (length s)) Hst ltac:(lia))
    as (ok & ed1 & -> & Hst1 & Hroom & Hfail & Hmok).
  destruct ok; simpl; [|eexists _, _; split; [done|]; clear Hst Hpb Hl; naive_solver].
  destruct (stredit_insert_copies ed1 l p s X Hst1 ltac:(lia) ltac:(lia) ltac:(auto))
    as (ed' & l' & Hrun & Hins & Hst').
  exists true, ed'. split; [done|]. rewrite Hins. naive_solver.
Qed.

(** C8: [stredit_insert] implements the abstract insertion.  For any allocator
    it either fails and leaves the structure unchanged, or stores the line with
    the bytes inserted; with memory available it fails exactly when the
    position or the resulting size is out of bounds.  No access leaves the
    buffer. *)
Theorem stredit_insert_refines mok ed l p (s : list Z) n (X : block) :
  stores ed l ->
  n = Z.of_nat (length s) ->
  exists ok ed', stredit_insert mok ed p ((Some <$> s) ++ X) n = Some (ok, ed') /\
    (ok = false -> ed' = ed) /\
    (ok = true -> exists l', line_insert l p s = Some l' /\ stores ed' l') /\
    ((forall k, mok k = true) -> (ok = true <-> is_Some (line_insert l p s))).
Proof. apply stredit_insert_refines'. Qed.

Lemma stredit_delete_refines' ed l p n :
  stores ed l ->
  exists ed', stredit_delete ed p n = Some (fst (line_delete l p n), ed') /\
    stores ed' (snd (line_delete l p n)).
Proof.
  intros Hst. pose proof Hst as ((J & Hraw & HJ) & Hr & Hs & Hm & Hpr & Hpb & Hl & _).
  unfold stredit_delete, line_delete. rewrite Hs, Hpr, Hr.
  set (u := if p <? l_prefix l then l_prefix l - p else 0).
  assert (u = Z.max p (l_prefix l) - p) as Hu
    by (subst u; destruct (Z.ltb_spec p (l_prefix l)); lia).
  clearbody u.
  set (lo := Z.max p (l_prefix l)). set (hi := Z.min (p + n) (llen l)).
  assert (p + u = lo) as -> by lia.
  assert (Z.min (n - u) (llen l - lo) = hi - lo) as -> by lia.
  destruct (Z.ltb_spec (hi - lo) 0).
  { rewrite (proj2 (Z.leb_le hi lo)) by lia. by exists ed. }
  rewrite Hraw. simpl.
  set (T1 := take (Z.to_nat lo) (l_text l)). set (T2 := drop (Z.to_nat hi) (l_text l)).
  set (D := take (Z.to_nat (hi - lo)) (drop (Z.to_nat lo) (l_text l))).
  assert (l_text l = T1 ++ D ++ T2) as ET.
  { subst T1 D T2. rewrite <- (take_drop (Z.to_nat lo) (l_text l)) at 1. f_equal.
    rewrite <- (take_drop (Z.to_nat (hi - lo)) (drop _ _)) at 1. f_equal.
    rewrite drop_drop. f_equal. lia. }
  assert (Z.of_nat (length T1) = lo /\ Z.of_nat (length D) = hi - lo) as [HT1 HD].
  { subst T1 D lo hi u. unfold llen in *. blk. }
  assert (llen l = Z.of_nat (length T1 + length D + length T2)%nat) as HL
    by (unfold llen; rewrite ET; blk).
  destruct (block_delete (l_meta l ++ (Some <$> T1)) (Some <$> D) (Some <$> T2) J)
    as (J' & Hmv & HJ').
  rewrite ET, !fmap_app, <- !app_assoc. rewrite <- !app_assoc in Hmv.
  rewrite !blen_app, !blen_fmap in Hmv. rewrite blen_fmap in HJ'.
  replace (blen (l_meta l) + lo + (hi - lo)) with
    (blen (l_meta l) + Z.of_nat (length T1) + Z.of_nat (length D)) by lia.
  replace (llen l - (hi - lo) - lo + 1) with (Z.of_nat (length T2) + 1) by lia.
  replace (blen (l_meta l) + lo) with (blen (l_meta l) + Z.of_nat (length T1)) by lia.
  rewrite Hmv. simpl.
  assert (stores (set_size (llen l - (hi - lo))
            (set_raw (l_meta l ++ (Some <$> (T1 ++ T2)) ++ Some 0 :: J') ed))
          {| l_meta := l_meta l; l_text := T1 ++ T2; l_prefix := l_prefix l;
             l_max := l_max l |}) as Hfin.
  { apply stores_update; [done|..]; blk. }
  rewrite fmap_app, <- app_assoc in Hfin.
  destruct (Z.leb_spec hi lo); simpl.
  - eexists. replace (hi - lo) with 0 in * by lia. split; [done|].
    assert (D = []) as HD0 by (destruct D; [done|simpl in *; lia]).
    rewrite HD0 in ET. simpl in ET. rewrite <- ET in Hfin.
    destruct l; exact Hfin.
  - eexists. split; done.
Qed.

(** C9: [stredit_delete] implements the abstract deletion: it removes exactly
    the part of the requested range that lies in the text and outside the
    locked prefix, and returns its length. *)
Theorem stredit_delete_refines ed l p n :
  stores ed l ->
  exists ed', stredit_delete ed p n = Some (fst (line_delete l p n), ed') /\
    stores ed' (snd (line_delete l p n)).
Proof. apply stredit_delete_refines'. Qed.

(** [stredit_init] stores the empty line whose reserved bytes are zero. *)
Lemma stredit_init_stores mok ed prealloc rsv max :
  0 <= prealloc <= 16 -> 0 <= rsv -> 0 < max -> rsv + max + 17 < 2 ^ 16 ->
  mok (rsv + prealloc + 1) = true ->
  exists ed', stredit_init mok ed prealloc rsv max = Some (true, ed') /\
    stores ed' (line_fresh rsv max) /\ prefix ed' = 0.
Proof.
  intros Hpre Hr Hm Hb Hok. unfold stredit_init.
  destruct (Z.eqb_spec max 0); [lia|].
  unfold malloc. rewrite (wrapu_small 32), Hok by (simpl in *; lia).
  set (z := replicate (Z.to_nat rsv) (Some 0)).
  set (J := replicate (Z.to_nat prealloc) (None : cell)).
  assert (replicate (Z.to_nat (rsv + prealloc + 1)) None =
          replicate (Z.to_nat rsv) None ++ (None : cell) :: J) as ->.
  { subst J. replace (Z.to_nat _) with (Z.to_nat rsv + S (Z.to_nat prealloc))%nat by lia.
    by rewrite replicate_add. }
  unfold mem_set. rewrite in_block_true by (subst J; blk).
  fold z. rewrite mem_write_prefix by (subst z J; blk). simpl.
  rewrite drop_app_ge by (subst z; by rewrite !length_replicate).
  replace (_ - _)%nat with 0%nat by (subst z; rewrite !length_replicate; lia). rewrite drop_0.
  rewrite mem_write_app by (subst z J; blk). simpl.
  eexists. split; [done|]. split; [|done].
  assert (blen z = rsv) as Hz by (subst z; blk).
  unfold stores, line_fresh, llen; simpl. rewrite !wrapu_small by (simpl in *; lia). fold z.
  split_and!; try done; try lia.
  exists J. split; [done|]. subst J. blk.
Qed.

(** Freezing returns a block that holds the reserved bytes, the text and a
    NUL, and leaves the editor empty. *)
Lemma stredit_freeze_stores mok ed l :
  stores ed l -> (forall k, mok k = true) ->
  exists J, stredit_freeze_and_reset mok ed =
    Some (PBlock (l_meta l ++ (Some <$> l_text l) ++ Some 0 :: J), stredit_zero).
Proof.
  intros ((J & Hraw & HJ) & Hr & Hs & _ & _ & Hpb & Hl & Hb & _) Hok.
  unfold stredit_freeze_and_reset, stredit_reset. rewrite Hr, Hs, Hraw. simpl raw. simpl free.
  destruct (Z.leb_spec (blen (l_meta l) + llen l + 1 + 4) (alloc_size ed)); [|by exists J].
  unfold realloc. rewrite (wrapu_small 32) by (unfold llen in *; blk; simpl in *; lia).
  rewrite Hok. simpl mbind. exists []. do 3 f_equal.
  replace (Z.to_nat (blen (l_meta l) + llen l + 1)) with
    (length (l_meta l ++ (Some <$> l_text l) ++ [Some 0]))
    by (unfold llen, blen; blk; simpl; lia).
  assert (l_meta l ++ (Some <$> l_text l) ++ Some 0 :: J =
    (l_meta l ++ (Some <$> l_text l) ++ [Some 0]) ++ J) as E by (simplify_list_eq; done).
  rewrite E, take_app_length.
  match goal with |- context [replicate (Z.to_nat ?x) _] =>
    replace (Z.to_nat x) with 0%nat by (unfold llen in *; blk) end.
  by rewrite app_nil_r.
Qed.

(** * Witnesses *)

Definition demo_line : line :=
  {| l_meta := [Some 0; Some 0; Some 0]; l_text := [104; 105]; l_prefix := 1; l_max := 1024 |}.

Definition demo_ed : stredit_t :=
  {| raw := PBlock [Some 0; Some 0; Some 0; Some 104; Some 105; Some 0; None];
     max_size := 1024; reserved := 3; size := 2; alloc_size := 7; prefix := 1 |}.

Lemma demo_stores : stores demo_ed demo_line.
Proof. split; [by exists [None]|]. split_and!; first [reflexivity|by vm_compute]. Defined.

Lemma stredit_insert_refines_witness :
  exists ok ed', stredit_insert (fun _ => true) demo_ed 1 [Some 33; None] 1 = Some (ok, ed').
Proof.
  destruct (stredit_insert_refines (fun _ => true) demo_ed demo_line 1 [33] 1 [None]
    demo_stores eq_refl) as (ok & ed' & H & _). exists ok, ed'. exact H.
Defined.

Lemma stredit_delete_refines_witness :
  exists ed', stredit_delete demo_ed 0 2 = Some (1, ed').
Proof.
  destruct (stredit_delete_refines demo_ed demo_line 0 2 demo_stores) as (ed' & H & _).
  exists ed'. exact H.
Defined.
