(* ===== verification/Console.v ===== *)
(** The console's line storage and terminal emulator: [ports/sh/console.c] and
    [ports/sh/console.h].

    Lines are kept as the raw blocks the C code keeps: a big-endian 16-bit
    size, a byte for the number of rendered lines and the NUL-terminated text.
    The text measuring and drawing functions of the graphics library are
    parameters. *)

From Stdlib Require Import ZArith Lia.
From stdpp Require Import base option list numbers.
From S2P Require Import Prelude StrEdit.

Definition PE_CONSOLE_LINE_MAX_LENGTH : Z := 1024.
Definition CONSOLE_FLINE_SIZE : Z := 3.

(** * Frozen lines *)

Definition byte_at (b : block) (i : nat) : option Z := c ← b !! i; c.

(** [FL->size], [FL->render_lines] and their assignments. *)
Definition fl_size (b : block) : option Z :=
  hi ← byte_at b 0; lo ← byte_at b 1; Some (256 * hi + lo).

Definition fl_render_lines (b : block) : option Z := byte_at b 2.

Definition fl_set_size (b : block) (n : Z) : option block :=
  mem_write b 0 [Some (wrapu 16 n / 256); Some (wrapu 16 n mod 256)].

Definition fl_set_render_lines (b : block) (n : Z) : option block :=
  mem_write b 2 [Some (wrapu 8 n)].

(** The C string at the head of a block: the bytes before the first NUL. *)
Fixpoint cstring (b : block) : option (list Z) :=
  match b with
  | Some c :: b => if c =? 0 then Some [] else s ← cstring b; Some (c :: s)
  | _ => None
  end.

(** The string at [FL->data + off]. *)
Definition fl_data (b : block) (off : nat) : option (list Z) :=
  cstring (drop (Z.to_nat CONSOLE_FLINE_SIZE + off) b).

#[global] Arguments fl_size : simpl never.
#[global] Arguments fl_render_lines : simpl never.
#[global] Arguments fl_set_size : simpl never.
#[global] Arguments fl_set_render_lines : simpl never.

(** An entry of [buf->lines]: a pointer to a frozen line. *)
Abbreviation slot := ptr.

Record linebuf_t := {
  lb_lines : list slot;
  lb_edit : stredit_t;
  lb_capacity : Z;  (* [int16_t] *)
  lb_start : Z;
  lb_size : Z;
  lb_total_rendered : Z;
  lb_absolute : Z;  (* [int] *)
  lb_backlog_size : Z;
  lb_total_size_except_last : Z;
  lb_absolute_rendered : Z
}.

Definition lb_set_line (i : nat) (s : slot) (buf : linebuf_t) : option linebuf_t :=
  match lb_lines buf !! i with
  | None => None
  | Some _ =>
    Some {| lb_lines := <[i := s]> (lb_lines buf); lb_edit := lb_edit buf;
       lb_capacity := lb_capacity buf; lb_start := lb_start buf; lb_size := lb_size buf;
       lb_total_rendered := lb_total_rendered buf; lb_absolute := lb_absolute buf;
       lb_backlog_size := lb_backlog_size buf;
       lb_total_size_except_last := lb_total_size_except_last buf;
       lb_absolute_rendered := lb_absolute_rendered buf |}
  end.

Definition lb_set_edit (ed : stredit_t) (buf : linebuf_t) : linebuf_t :=
  {| lb_lines := lb_lines buf; lb_edit := ed;
     lb_capacity := lb_capacity buf; lb_start := lb_start buf; lb_size := lb_size buf;
     lb_total_rendered := lb_total_rendered buf; lb_absolute := lb_absolute buf;
     lb_backlog_size := lb_backlog_size buf;
     lb_total_size_except_last := lb_total_size_except_last buf;
     lb_absolute_rendered := lb_absolute_rendered buf |}.

Definition lb_set_window (start size absolute : Z) (buf : linebuf_t) : linebuf_t :=
  {| lb_lines := lb_lines buf; lb_edit := lb_edit buf;
     lb_capacity := lb_capacity buf; lb_start := wraps 16 start; lb_size := wraps 16 size;
     lb_total_rendered := lb_total_rendered buf; lb_absolute := absolute;
     lb_backlog_size := lb_backlog_size buf;
     lb_total_size_except_last := lb_total_size_except_last buf;
     lb_absolute_rendered := lb_absolute_rendered buf |}.

Definition lb_set_totals (rendered except_last : Z) (buf : linebuf_t) : linebuf_t :=
  {| lb_lines := lb_lines buf; lb_edit := lb_edit buf;
     lb_capacity := lb_capacity buf; lb_start := lb_start buf; lb_size := lb_size buf;
     lb_total_rendered := wraps 16 rendered; lb_absolute := lb_absolute buf;
     lb_backlog_size := lb_backlog_size buf;
     lb_total_size_except_last := except_last;
     lb_absolute_rendered := lb_absolute_rendered buf |}.

Definition lb_set_absolute_rendered (n : Z) (buf : linebuf_t) : linebuf_t :=
  {| lb_lines := lb_lines buf; lb_edit := lb_edit buf;
     lb_capacity := lb_capacity buf; lb_start := lb_start buf; lb_size := lb_size buf;
     lb_total_rendered := lb_total_rendered buf; lb_absolute := lb_absolute buf;
     lb_backlog_size := lb_backlog_size buf;
     lb_total_size_except_last := lb_total_size_except_last buf;
     lb_absolute_rendered := n |}.

Definition linebuf_start (buf : linebuf_t) : Z := lb_absolute buf.
Definition linebuf_end (buf : linebuf_t) : Z := lb_absolute buf + lb_size buf.

Definition linebuf_nth_to_index (buf : linebuf_t) (nth : Z) : Z :=
  Z.rem (lb_start buf + nth) (lb_capacity buf).

Definition linebuf_index_add (buf : linebuf_t) (index diff : Z) : Z :=
  Z.rem (index + diff + lb_capacity buf) (lb_capacity buf).

(** The pointer to the [nth] line; for the last one it is the editor's. *)
Definition linebuf_get_nth_line (buf : linebuf_t) (nth : Z) : option slot :=
  if (nth <? 0) || (lb_size buf <=? nth) then Some PNull else
  if nth =? lb_size buf - 1 then Some (raw (lb_edit buf)) else
  lb_lines buf !! Z.to_nat (linebuf_nth_to_index buf nth).

(** Writing [b] through that pointer. *)
Definition linebuf_put_nth_line (buf : linebuf_t) (nth : Z) (b : block) : option linebuf_t :=
  if nth =? lb_size buf - 1 then Some (lb_set_edit (set_raw b (lb_edit buf)) buf) else
  lb_set_line (Z.to_nat (linebuf_nth_to_index buf nth)) (PBlock b) buf.

Definition linebuf_get_line (buf : linebuf_t) (abs : Z) : option slot :=
  linebuf_get_nth_line buf (abs - lb_absolute buf).

Definition linebuf_get_last_line (buf : linebuf_t) : option stredit_t :=
  if 0 <? lb_size buf then Some (lb_edit buf) else None.

(** A drawing call of the graphics library. *)
Inductive draw :=
| DLine (x1 y1 x2 y2 : Z)
| DText (x y : Z) (s : list Z)
| DRect (x1 y1 x2 y2 : Z) (grey : bool).

Section console.

(** The allocator; whether the target is the fx-9860G; and the text measuring
    functions: [drsize f s w] is the number of leading characters of [s] that
    fit in [w] pixels, [dnsize f s] the width and height of [s]. *)
Context (mok : Z -> bool) (fx9860g : bool) {font : Type}
  (drsize : font -> list Z -> Z -> nat) (dnsize : font -> list Z -> Z * Z).

Record view := { text_w : Z; scroll_spacing : Z; scroll_width : Z }.

Definition view_params (w : Z) : view :=
  if fx9860g
  then {| text_w := w - 2; scroll_spacing := 1; scroll_width := 1 |}
  else {| text_w := w - 4; scroll_spacing := 2; scroll_width := 2 |}.

(** ** Rendering a line *)

(** The do-while loop from offset [p] with [n] lines counted so
    far; every iteration but the last consumes a character. *)
Fixpoint render_lines_loop (fuel : nat) (f : font) (b : block) (p : nat) (width n : Z)
    : option Z :=
  match fuel with
  | O => None
  | S fuel =>
      let n := wrapu 8 (n + 1) in
      s ← fl_data b p;
      let p := (p + drsize f s width)%nat in
      c ← byte_at b (Z.to_nat CONSOLE_FLINE_SIZE + p);
      if c =? 0 then Some n else render_lines_loop fuel f b p width n
  end.

Definition console_fline_update_render_lines (f : font) (FL : block) (width : Z)
    : option block :=
  n ← render_lines_loop (length FL) f FL 0 width 0;
  fl_set_render_lines FL n.

Section fline_render.
Context (f : font) (x w dy : Z) (FL : block) (size show_from show_until cursor : Z).

(** The body of the [while(p < endline)] loop, from the height, the offset in the
    line and the number of the row to the next ones and what is drawn. *)
Definition fline_render_row (y p line_number : Z) : option (Z * Z * Z * list draw) :=
  s ← fl_data FL (Z.to_nat p);
  let len := Z.of_nat (drsize f s w) in
  let shown := take (Z.to_nat len) s in
  if (show_from <=? line_number) && (line_number <? show_until) then
    let caret :=
      if (p <=? cursor) && (cursor <=? p + len) then
        let '(cw, ch) := dnsize f (take (Z.to_nat (cursor - p)) s) in
        [DLine (x + cw) y (x + cw) (y + ch - 1)]
      else [] in
    Some (y + dy, p + len, line_number + 1, DText x y shown :: caret)
  else Some (y, p + len, line_number + 1, []).

Fixpoint fline_render_loop (fuel : nat) (y p line_number : Z) : option (Z * list draw) :=
  if size <=? p then Some (y, []) else
  match fuel with
  | O => None
  | S fuel =>
      '(y, p, line_number, ds) ← fline_render_row y p line_number;
      '(y', ds') ← fline_render_loop fuel y p line_number;
      Some (y', ds ++ ds')
  end.

(** [n] turns of the loop, all of them executed: [None] when a turn faults or the
    loop is over before. *)
Fixpoint fline_render_turns (n : nat) (y p line_number : Z) : option (Z * Z * Z) :=
  match n with
  | O => Some (y, p, line_number)
  | S n =>
      if size <=? p then None else
      '(y, p, line_number, _) ← fline_render_row y p line_number;
      fline_render_turns n y p line_number
  end.

Definition console_fline_render (y : Z) : option (Z * list draw) :=
  let first := if (size =? 0) && (cursor =? 0)
               then let '(_, h) := dnsize f [] in [DLine x y x (y + h - 1)] else [] in
  '(y', ds) ← fline_render_loop (Z.to_nat size) y 0 0;
  Some (y', first ++ ds).
End fline_render.

(** ** The rotating array of lines *)

Definition linebuf_init (capacity backlog_size : Z) : option (bool * option linebuf_t) :=
  if capacity <=? 0 then Some (false, None) else
  if negb (mok (wrapu 32 (capacity * 4))) then Some (false, None) else
  '(_, ed) ← stredit_init mok stredit_zero 0 0 0;
  Some (true, Some
    {| lb_lines := replicate (Z.to_nat capacity) PNull; lb_edit := ed;
       lb_capacity := wraps 16 capacity; lb_start := 0; lb_size := 0;
       lb_total_rendered := 0; lb_absolute := 1; lb_backlog_size := backlog_size;
       lb_total_size_except_last := 0; lb_absolute_rendered := 0 |}).

(** Every slot is freed; [None] when one of them has already been. *)
Definition linebuf_deinit (buf : linebuf_t) : option unit :=
  _ ← stredit_reset (lb_edit buf);
  _ ← mapM free (take (Z.to_nat (lb_capacity buf)) (lb_lines buf));
  Some tt.

(** The loop body of [linebuf_recycle_oldest_lines]. The line stays in its
    slot as a dangling pointer. *)
Definition recycle_line (nth : Z) (buf : linebuf_t) : option linebuf_t :=
  p ← linebuf_get_nth_line buf nth;
  FL ← deref p;
  rl ← fl_render_lines FL;
  except_last ← (if nth =? lb_size buf - 1 then Some (lb_total_size_except_last buf)
                 else sz ← fl_size FL; Some (lb_total_size_except_last buf - sz));
  let buf := lb_set_totals (lb_total_rendered buf - rl) except_last buf in
  if nth =? lb_size buf - 1
  then let ed := lb_edit buf in
       Some (lb_set_edit {| raw := PFreed; max_size := max_size ed;
               reserved := reserved ed; size := size ed; alloc_size := alloc_size ed;
               prefix := prefix ed |} buf)
  else lb_set_line (Z.to_nat (linebuf_nth_to_index buf nth)) PFreed buf.

Fixpoint recycle_loop (n : nat) (nth : Z) (buf : linebuf_t) : option linebuf_t :=
  match n with
  | O => Some buf
  | S n => buf ← recycle_line nth buf; recycle_loop n (nth + 1) buf
  end.

Definition linebuf_recycle_oldest_lines (buf : linebuf_t) (count : Z) : option linebuf_t :=
  let count := Z.min count (lb_size buf) in
  if count <=? 0 then Some buf else
  buf ← recycle_loop (Z.to_nat count) 0 buf;
  Some (lb_set_window (linebuf_index_add buf (lb_start buf) count)
          (lb_size buf - count) (lb_absolute buf + count) buf).

(** Freezing the line being edited into its slot. *)
Definition linebuf_freeze_last (buf : linebuf_t) : option linebuf_t :=
  let sz := size (lb_edit buf) in
  let buf := lb_set_totals (lb_total_rendered buf) (lb_total_size_except_last buf + sz) buf in
  '(p, ed) ← stredit_freeze_and_reset mok (lb_edit buf);
  frozen ← deref p;
  frozen ← fl_set_size frozen sz;
  let buf := lb_set_edit ed buf in
  let last_nth := Z.to_nat (linebuf_nth_to_index buf (lb_size buf - 1)) in
  old ← lb_lines buf !! last_nth;
  match old with  (* the assertion *)
  | PNull => lb_set_line last_nth (PBlock frozen) buf
  | _ => None
  end.

Definition linebuf_newline (buf : linebuf_t) : option linebuf_t :=
  buf ← linebuf_recycle_oldest_lines buf (lb_size buf - lb_capacity buf + 1);
  buf ← (if 0 <? lb_size buf then linebuf_freeze_last buf else Some buf);
  let buf := lb_set_window (lb_start buf) (lb_size buf + 1) (lb_absolute buf) buf in
  let last_nth := Z.to_nat (linebuf_nth_to_index buf (lb_size buf - 1)) in
  buf ← lb_set_line last_nth PNull buf;
  '(_, ed) ← stredit_init mok (lb_edit buf) 16 CONSOLE_FLINE_SIZE PE_CONSOLE_LINE_MAX_LENGTH;
  Some (lb_set_edit ed buf).

(** The loop of [linebuf_clean_backlog]: [n] bytes are left after removing
    [remove] lines. *)
Fixpoint clean_loop (fuel : nat) (buf : linebuf_t) (remove n : Z) : option Z :=
  if (remove <? lb_size buf - 1) && (lb_backlog_size buf <? n) then
    match fuel with
    | O => None
    | S fuel =>
        p ← linebuf_get_nth_line buf remove;
        FL ← deref p;
        sz ← fl_size FL;
        clean_loop fuel buf (remove + 1) (n - sz)
    end
  else Some remove.

Definition linebuf_clean_backlog (buf : linebuf_t) : option linebuf_t :=
  if lb_size buf <=? 0 then Some buf else
  ed ← linebuf_get_last_line buf;
  remove ← clean_loop (Z.to_nat (lb_size buf)) buf 0
             (lb_total_size_except_last buf + size ed);
  linebuf_recycle_oldest_lines buf remove.

(** One iteration of [linebuf_update_render], for the line [abs]. *)
Definition update_render_line (f : font) (text_w : Z) (abs : Z) (buf : linebuf_t)
    : option linebuf_t :=
  let nth := abs - lb_absolute buf in
  p ← linebuf_get_nth_line buf nth;
  FL ← deref p;
  old ← fl_render_lines FL;
  let buf := lb_set_totals (lb_total_rendered buf - old) (lb_total_size_except_last buf) buf in
  FL ← console_fline_update_render_lines f FL text_w;
  buf ← linebuf_put_nth_line buf nth FL;
  new ← fl_render_lines FL;
  Some (lb_set_totals (lb_total_rendered buf + new) (lb_total_size_except_last buf) buf).

Fixpoint update_render_loop (n : nat) (f : font) (text_w abs : Z) (buf : linebuf_t)
    : option linebuf_t :=
  match n with
  | O => Some buf
  | S n =>
      buf ← update_render_line f text_w abs buf;
      update_render_loop n f text_w (abs + 1) buf
  end.

Definition linebuf_update_render (f : font) (buf : linebuf_t) (width : Z) (lazy : bool)
    : option linebuf_t :=
  let start := linebuf_start buf in
  let end_ := linebuf_end buf in
  let start := if lazy then Z.max start (lb_absolute_rendered buf + 1) else start in
  let text_w := text_w (view_params width) in
  buf ← update_render_loop (Z.to_nat (end_ - start)) f text_w start buf;
  Some (lb_set_absolute_rendered (Z.max (lb_absolute_rendered buf) (end_ - 2)) buf).

(** ** The terminal emulator *)

Record console_t := {
  lines : linebuf_t;
  cursor : Z;              (* [int16_t] *)
  render_needed : bool;
  render_font : option font;
  render_width : Z;        (* [int16_t] *)
  render_lines : Z         (* [int16_t] *)
}.

Definition cons_set (buf : linebuf_t) (cur : Z) (needed : bool) (cons : console_t) : console_t :=
  {| lines := buf; cursor := wraps 16 cur; render_needed := needed;
     render_font := render_font cons; render_width := render_width cons;
     render_lines := render_lines cons |}.

Definition last_line (cons : console_t) : option stredit_t :=
  linebuf_get_last_line (lines cons).

Definition cons_set_edit (ed : stredit_t) (cons : console_t) : console_t :=
  cons_set (lb_set_edit ed (lines cons)) (cursor cons) (render_needed cons) cons.

Definition console_newline (cons : console_t) : option console_t :=
  buf ← linebuf_newline (lines cons);
  buf ← linebuf_clean_backlog buf;
  Some (cons_set buf 0 true cons).

Definition console_create (backlog_size maximum_line_count : Z) : option (option console_t) :=
  let backlog_size := Z.max backlog_size PE_CONSOLE_LINE_MAX_LENGTH in
  let maximum_line_count := Z.max maximum_line_count 1 in
  '(_, buf) ← linebuf_init maximum_line_count backlog_size;
  match buf with
  | None => Some None
  | Some buf =>
      cons ← console_newline {| lines := buf; cursor := -1; render_needed := true;
               render_font := None; render_width := 0; render_lines := 0 |};
      Some (Some cons)
  end.

Definition console_clear_render_flag (cons : console_t) : console_t :=
  cons_set (lines cons) (cursor cons) false cons.

Definition console_destroy (cons : console_t) : option unit :=
  linebuf_deinit (lines cons).

(** *** Rendering *)

Definition console_compute_view (cons : console_t) (f : font) (width nlines : Z)
    : option console_t :=
  let lazy := negb (width =? 0) && (render_width cons =? width) in
  buf ← linebuf_update_render f (lines cons) width lazy;
  Some {| lines := buf; cursor := cursor cons; render_needed := render_needed cons;
          render_font := Some f; render_width := wraps 16 width;
          render_lines := wraps 16 nlines |}.

Definition console_clamp_scrollpos (cons : console_t) (pos : Z) : Z :=
  if lb_total_rendered (lines cons) <? render_lines cons then 0 else
  Z.max 0 (Z.min pos (lb_total_rendered (lines cons) - render_lines cons)).

Definition line_render_lines (buf : linebuf_t) (abs : Z) : option Z :=
  p ← linebuf_get_line buf abs; FL ← deref p; fl_render_lines FL.

(** Walking up from the end until the view is filled. *)
Fixpoint render_up_loop (fuel : nat) (buf : linebuf_t) (i line_y : Z) : option (Z * Z) :=
  if (linebuf_start buf <? i) && (0 <? line_y) then
    match fuel with
    | O => None
    | S fuel =>
        n ← line_render_lines buf (i - 1);
        render_up_loop fuel buf (i - 1) (line_y - n)
    end
  else Some (i, line_y).

Fixpoint render_down_loop (fuel : nat) (cons : console_t) (f : font)
    (x tw dy visible y i line_y : Z) : option (list draw) :=
  let buf := lines cons in
  if (i <? linebuf_end buf) && (line_y <? visible) then
    match fuel with
    | O => None
    | S fuel =>
        p ← linebuf_get_line buf i;
        FL ← deref p;
        sz ← fl_size FL;
        let show_cursor := i =? linebuf_end buf - 1 in
        '(y, ds) ← console_fline_render f x tw dy FL sz (- line_y) (visible - line_y)
                     (if show_cursor then cursor cons else -1) y;
        n ← fl_render_lines FL;
        ds' ← render_down_loop fuel cons f x tw dy visible y (i + 1) (line_y + n);
        Some (ds ++ ds')
    end
  else Some [].

(** The drawing calls of a frame, with the console after the size of the last
    line has been stored. *)
Definition console_render (x y0 : Z) (cons : console_t) (dy pos : Z)
    : option (list draw * console_t) :=
  let total_lines := lb_total_rendered (lines cons) in
  let visible_lines := render_lines cons in
  let vp := view_params (render_width cons) in
  f ← render_font cons;
  ed ← last_line cons;
  FL ← deref (raw ed);
  FL ← fl_set_size FL (size ed);
  let cons := cons_set_edit (set_raw FL ed) cons in
  let buf := lines cons in
  let n := Z.to_nat (lb_size buf) in
  '(i, line_y) ← render_up_loop n buf (linebuf_end buf) (visible_lines + pos);
  let line_y := Z.min line_y pos in
  ds ← render_down_loop n cons f x (text_w vp) dy visible_lines y0 i line_y;
  let bar :=
    if visible_lines <? total_lines then
      let first_shown := total_lines - visible_lines - pos in
      let h := dy * visible_lines in
      let y1 := y0 + Z.quot (h * first_shown) total_lines in
      let y2 := y0 + Z.quot (h * (first_shown + visible_lines)) total_lines in
      let bx := x + text_w vp + scroll_spacing vp in
      [DRect bx y1 (bx + scroll_width vp - 1) y2 (negb fx9860g && (pos =? 0))]
    else [] in
  Some (ds ++ bar, cons).

(** *** Edition *)

Definition console_set_cursor (cons : console_t) (pos : Z) : option (bool * console_t) :=
  ed ← last_line cons;
  if (pos <? prefix ed) || (size ed <? pos) then Some (false, cons) else
  Some (true, cons_set (lines cons) pos (render_needed cons) cons).

Definition console_move_cursor (cons : console_t) (cursor_movement : Z) :=
  console_set_cursor cons (cursor cons + cursor_movement).

(** The string returned, a copy or not, is the text after the prefix. *)
Definition console_get_line (cons : console_t) : option (list Z) :=
  ed ← last_line cons;
  b ← deref (raw ed);
  cstring (drop (Z.to_nat (reserved ed + prefix ed)) b).

(** The chunk loop of [console_write_raw]. [str] is the memory the argument
    points to; the loop does not advance it. *)
Fixpoint write_raw_loop (fuel : nat) (cons : console_t) (str : block) (n : Z)
    : option (bool * console_t) :=
  if n <=? 0 then Some (true, cons) else
  match fuel with
  | O => None
  | S fuel =>
      ed ← last_line cons;
      let capacity := stredit_capacity ed in
      let round_size := Z.min n capacity in
      '(ok, ed) ← stredit_insert mok ed (cursor cons) str round_size;
      let cons := cons_set_edit ed cons in
      if negb ok then Some (false, cons) else
      let cons := cons_set (lines cons) (cursor cons + round_size) true cons in
      cons ← (if round_size <? n then console_newline cons else Some cons);
      write_raw_loop fuel cons str (n - round_size)
  end.

(** A full line takes one iteration that writes nothing, so [2 n + 2]
    iterations are enough. *)
Definition console_write_raw (cons : console_t) (str : block) (n : Z)
    : option (bool * console_t) :=
  cons ← (if lb_size (lines cons) =? 0 then console_newline cons else Some cons);
  write_raw_loop (Z.to_nat (2 * n + 2)) cons str n.

Definition console_lock_prefix (cons : console_t) : option console_t :=
  ed ← last_line cons;
  Some (cons_set_edit (stredit_set_prefix ed (cursor cons)) cons).

Definition console_delete_at_cursor (cons : console_t) (n : Z) : option console_t :=
  ed ← last_line cons;
  '(real_n, ed) ← stredit_delete ed (cursor cons - n) n;
  let cons := cons_set_edit ed cons in
  Some (cons_set (lines cons) (cursor cons - real_n) true cons).

Definition console_clear_current_line (cons : console_t) : option console_t :=
  ed ← last_line cons;
  '(_, ed) ← stredit_delete ed (prefix ed) (size ed - prefix ed);
  let cons := cons_set_edit ed cons in
  Some (cons_set (lines cons) (prefix ed) true cons).

Definition is_control (c : Z) : bool := (c =? 10) || (c =? 27) || (c =? 8).

(** Offset of the first control character at or after [off], or [n]. *)
Fixpoint find_control (fuel : nat) (buf : block) (off n : Z) : option Z :=
  if off <? n then
    match fuel with
    | O => None
    | S fuel =>
        c ← byte_at buf (Z.to_nat off);
        if is_control c then Some off else find_control fuel buf (off + 1) n
    end
  else Some off.

(** [offset + 2 <= n && buf[offset] == c1 && buf[offset + 1] == c2] *)
Definition at_seq (buf : block) (offset n c1 c2 : Z) : option bool :=
  if offset + 2 <=? n then
    a ← byte_at buf (Z.to_nat offset); b ← byte_at buf (Z.to_nat (offset + 1));
    Some ((a =? c1) && (b =? c2))
  else Some false.

(** A backspace character. *)
Definition write_backspace (cons : console_t) : option console_t :=
  ed ← last_line cons;
  if 0 <? cursor cons then
    '(_, ed) ← stredit_delete ed (cursor cons - 1) 1;
    let cons := cons_set_edit ed cons in
    Some (cons_set (lines cons) (cursor cons - 1) (render_needed cons) cons)
  else Some cons.

(** What follows an escape character at [offset - 1]: the new offset and
    console.  91, 75, 68 and 67 are the codes of ['[' 'K' 'D' 'C']. *)
Definition write_escape (buf : block) (offset n : Z) (cons : console_t)
    : option (Z * console_t) :=
  ed ← last_line cons;
  clear ← at_seq buf offset n 91 75;
  '(offset, ed, cons) ← (if clear : bool then
      '(_, ed) ← stredit_delete ed (cursor cons) (size ed - cursor cons);
      Some (offset + 2, ed, cons_set_edit ed cons)
    else Some (offset, ed, cons));
  left ← at_seq buf offset n 1 68;
  let cons := if left : bool
    then cons_set (lines cons) (cursor cons - (if 0 <? cursor cons then 1 else 0))
           (render_needed cons) cons else cons in
  right ← at_seq buf offset n 1 67;
  let cons := if right : bool
    then cons_set (lines cons) (cursor cons + (if cursor cons <? size ed then 1 else 0))
           (render_needed cons) cons else cons in
  Some (offset, cons).

Fixpoint write_loop (fuel : nat) (cons : console_t) (buf : block) (offset n : Z)
    : option (bool * console_t) :=
  if n <=? offset then Some (true, cons) else
  match fuel with
  | O => None
  | S fuel =>
      end_ ← find_control (Z.to_nat n) buf offset n;
      let line_size := end_ - offset in
      '(ok, cons) ← console_write_raw cons (drop (Z.to_nat offset) buf) line_size;
      if negb ok then Some (false, cons) else
      let offset := offset + line_size in
      if n <=? offset then Some (true, cons) else
      c ← byte_at buf (Z.to_nat offset);
      '(offset, cons) ← (if c =? 10 then
          cons ← console_newline cons; Some (offset + 1, cons)
        else if c =? 8 then
          cons ← write_backspace cons; Some (offset + 1, cons)
        else if c =? 27 then write_escape buf (offset + 1) n cons
        else Some (offset, cons));
      let cons := cons_set (lines cons) (cursor cons) true cons in
      write_loop fuel cons buf offset n
  end.

Definition console_write (cons : console_t) (buf : block) (n : Z)
    : option (bool * console_t) :=
  n ← (if n <? 0 then s ← cstring buf; Some (Z.of_nat (length s)) else Some n);
  write_loop (Z.to_nat n) cons buf 0 n.
End console.
