(* ===== verification/ConsoleSpec.v ===== *)
(** What the console's line storage promises: an abstract list of frozen lines
    followed by the line being edited, kept by every operation of
    [Console.v]. *)

From Stdlib Require Import ZArith Lia.
From stdpp Require Import base option list numbers.
From S2P Require Import Prelude StrEdit Console.

(** * Representation *)

(** A frozen line: the number of rendered lines it takes, and its text. *)
Record fline := { f_rl : Z; f_text : list Z }.

Definition flen (t : list Z) : Z := Z.of_nat (length t).

Definition fl_block (x : fline) (J : block) : block :=
  Some (flen (f_text x) / 256) :: Some (flen (f_text x) mod 256) :: Some (f_rl x)
  :: (Some <$> f_text x) ++ Some 0 :: J.

Definition lb_live (buf : linebuf_t) (k : Z) (x : fline) : Prop :=
  exists J, lb_lines buf !! rot (lb_start buf) (lb_capacity buf) k
            = Some (PBlock (fl_block x J)).

(** The line being edited: three reserved bytes, of which the third is the
    number of rendered lines [rl]. *)
Definition last_ok (l : line) (rl : Z) : Prop :=
  (exists c0 c1, l_meta l = [c0; c1; Some rl]) /\ l_max l = PE_CONSOLE_LINE_MAX_LENGTH.

(** The buffer holds the lines [fr] and then [l]; the first [d] of [fr] have
    been recycled already. *)
Record lb_core (buf : linebuf_t) (d : nat) (fr : list fline) (l : line) (rl : Z) : Prop := {
  lc_cap : 0 < lb_capacity buf < 2 ^ 15;
  lc_len : length (lb_lines buf) = Z.to_nat (lb_capacity buf);
  lc_start : 0 <= lb_start buf < lb_capacity buf;
  lc_size : lb_size buf = Z.of_nat (length fr) + 1;
  lc_fit : lb_size buf <= lb_capacity buf;
  lc_edit : stores (lb_edit buf) l;
  lc_last : last_ok l rl;
  lc_frozen : forall k x, (d <= k)%nat -> fr !! k = Some x -> lb_live buf (Z.of_nat k) x;
  lc_null : lb_lines buf !! rot (lb_start buf) (lb_capacity buf) (Z.of_nat (length fr))
            = Some PNull;
  lc_short : Forall (fun x => flen (f_text x) <= PE_CONSOLE_LINE_MAX_LENGTH) fr;
  lc_total : lb_total_size_except_last buf = sumZ ((fun x => flen (f_text x)) <$> drop d fr);
  lc_rendered : lb_total_rendered buf = wraps 16 (sumZ (f_rl <$> drop d fr) + rl)
}.

Definition lb_inv buf fr l rl : Prop := lb_core buf 0 fr l rl.

(** * Frozen lines as blocks *)

Lemma fl_size_block x J : 0 <= flen (f_text x) -> fl_size (fl_block x J) = Some (flen (f_text x)).
Proof.
  intros. unfold fl_size, fl_block. simpl. f_equal.
  rewrite (Z.div_mod (flen (f_text x)) 256) at 3; lia.
Qed.

Lemma fl_render_lines_block x J : fl_render_lines (fl_block x J) = Some (f_rl x).
Proof. done. Qed.

Lemma flen_nonneg t : 0 <= flen t.
Proof. unfold flen. lia. Qed.

Lemma fl_set_size_meta c0 c1 rl t J n :
  n = flen t -> n < 2 ^ 16 ->
  fl_set_size ([c0; c1; Some rl] ++ (Some <$> t) ++ Some 0 :: J) n =
  Some (fl_block {| f_rl := rl; f_text := t |} J).
Proof.
  intros -> Hn. unfold fl_set_size. rewrite wrapu_small by (pose proof (flen_nonneg t); lia).
  rewrite mem_write_prefix by blk. done.
Qed.

(** * Reading lines *)

Lemma nth_to_index buf d fr l rl k :
  lb_core buf d fr l rl -> 0 <= k ->
  Z.to_nat (linebuf_nth_to_index buf k) = rot (lb_start buf) (lb_capacity buf) k.
Proof. intros [] ?. unfold linebuf_nth_to_index. apply rem_rot; lia. Qed.

Lemma core_size buf d fr l rl :
  lb_core buf d fr l rl -> lb_size buf = Z.of_nat (length fr) + 1.
Proof. by intros []. Qed.

Lemma get_frozen buf d fr l rl k x :
  lb_core buf d fr l rl -> (d <= k)%nat -> fr !! k = Some x ->
  exists J, linebuf_get_nth_line buf (Z.of_nat k) = Some (PBlock (fl_block x J)).
Proof.
  intros Hc Hd Hk. pose proof (core_size _ _ _ _ _ Hc) as Hs.
  pose proof (lookup_lt_Some _ _ _ Hk) as Hlt.
  destruct (lc_frozen _ _ _ _ _ Hc k x Hd Hk) as [J HJ]. exists J.
  unfold linebuf_get_nth_line. rewrite Hs.
  rewrite (proj2 (Z.ltb_ge _ _)), (proj2 (Z.leb_gt _ _)), (proj2 (Z.eqb_neq _ _)) by lia.
  simpl. by erewrite nth_to_index by (done || lia).
Qed.

Lemma get_last buf d fr l rl :
  lb_core buf d fr l rl ->
  exists J, linebuf_get_nth_line buf (Z.of_nat (length fr)) =
    Some (PBlock (l_meta l ++ (Some <$> l_text l) ++ Some 0 :: J)).
Proof.
  intros Hc. pose proof (core_size _ _ _ _ _ Hc) as Hs.
  destruct (lc_edit _ _ _ _ _ Hc) as ((J & Hraw & _) & _). exists J.
  unfold linebuf_get_nth_line. rewrite Hs.
  rewrite (proj2 (Z.ltb_ge _ _)), (proj2 (Z.leb_gt _ _)), (proj2 (Z.eqb_eq _ _)) by lia.
  simpl. by rewrite Hraw.
Qed.

(** * Recycling *)

(** Fields that neither the recycling of single lines nor layout changes. *)
Definition same_window (a b : linebuf_t) : Prop :=
  lb_capacity a = lb_capacity b /\ lb_start a = lb_start b /\ lb_size a = lb_size b /\
  lb_absolute a = lb_absolute b /\ lb_backlog_size a = lb_backlog_size b /\
  lb_absolute_rendered a = lb_absolute_rendered b.

#[export] Instance same_window_equiv : Equivalence same_window.
Proof. split; red; unfold same_window; intros; intuition congruence. Qed.

Lemma live_other lines start cap i k s :
  0 < cap -> 0 <= i < cap -> 0 <= k < cap -> i <> k ->
  (<[rot start cap i := s]> lines : list slot) !! rot start cap k = lines !! rot start cap k.
Proof.
  intros. apply list_lookup_insert_ne. intros E. by apply rot_inj in E.
Qed.

Lemma live_same lines start cap k s :
  0 < cap -> length lines = Z.to_nat cap ->
  (<[rot start cap k := s]> lines : list slot) !! rot start cap k = Some s.
Proof.
  intros ? E. apply list_lookup_insert_eq. rewrite E. by apply rot_lt.
Qed.

Lemma lb_set_line_ok buf start k s :
  0 < lb_capacity buf -> length (lb_lines buf) = Z.to_nat (lb_capacity buf) ->
  exists buf', lb_set_line (rot start (lb_capacity buf) k) s buf = Some buf' /\
    lb_lines buf' = <[rot start (lb_capacity buf) k := s]> (lb_lines buf) /\
    lb_edit buf' = lb_edit buf /\ same_window buf buf' /\
    lb_total_rendered buf' = lb_total_rendered buf /\
    lb_total_size_except_last buf' = lb_total_size_except_last buf.
Proof.
  intros Hc Hl. unfold lb_set_line.
  destruct (lookup_lt_is_Some_2 (lb_lines buf) (rot start (lb_capacity buf) k)) as [x ->].
  { rewrite Hl. by apply rot_lt. }
  by eexists.
Qed.

Lemma recycle_line_frozen buf d fr l rl x :
  lb_core buf d fr l rl -> fr !! d = Some x ->
  exists buf', recycle_line (Z.of_nat d) buf = Some buf' /\
    lb_core buf' (S d) fr l rl /\ same_window buf buf'.
Proof.
  intros Hc Hx. pose proof (core_size _ _ _ _ _ Hc) as Hs.
  pose proof (lookup_lt_Some _ _ _ Hx) as Hlt.
  destruct (get_frozen _ _ _ _ _ d x Hc ltac:(done) Hx) as [J HJ].
  unfold recycle_line. rewrite HJ. sbind. rewrite fl_render_lines_block. sbind.
  rewrite (proj2 (Z.eqb_neq _ _)) by lia.
  rewrite fl_size_block by apply flen_nonneg. sbind.
  change (lb_size (lb_set_totals _ _ _)) with (lb_size buf).
  rewrite (proj2 (Z.eqb_neq _ _)) by lia.
  change (linebuf_nth_to_index (lb_set_totals _ _ _)) with (linebuf_nth_to_index buf).
  erewrite nth_to_index by (done || lia).
  set (buf1 := lb_set_totals _ _ _).
  destruct Hc.
  destruct (lb_set_line_ok buf1 (lb_start buf) (Z.of_nat d) PFreed) as
    (buf' & Hrun & Hlines & Hedit & Hwin & Hrend & Htot); [subst buf1; simpl; lia..|].
  change (lb_capacity buf1) with (lb_capacity buf) in *.
  change (lb_lines buf1) with (lb_lines buf) in *.
  exists buf'. rewrite Hrun. split; [done|].
  assert (same_window buf buf') as Hwin' by (etransitivity; [|exact Hwin]; done).
  split; [|done]. destruct Hwin' as (Hwc & Hws & Hwz & _).
  split; rewrite <- ?Hwc, <- ?Hws, <- ?Hwz, ?Hedit, ?Hlines; try done.
  - by rewrite length_insert.
  - intros k y Hk Hy. destruct (lc_frozen0 k y ltac:(lia) Hy) as [J' HJ'].
    pose proof (lookup_lt_Some _ _ _ Hy).
    exists J'. rewrite Hlines, <- Hwc, <- Hws, live_other; [done|lia..].
  - rewrite live_other; [done|lia..].
  - rewrite Htot. simpl. rewrite lc_total0.
    rewrite (sumZ_drop_S (fun x => flen (f_text x)) _ _ _ Hx). lia.
  - rewrite Hrend. simpl. rewrite lc_rendered0, wraps_sub_l by lia.
    rewrite (sumZ_drop_S f_rl _ _ _ Hx). f_equal. lia.
Qed.

Lemma recycle_loop_frozen n buf d fr l rl :
  lb_core buf d fr l rl -> (d + n <= length fr)%nat ->
  exists buf', recycle_loop n (Z.of_nat d) buf = Some buf' /\
    lb_core buf' (d + n) fr l rl /\ same_window buf buf'.
Proof.
  revert buf d. induction n as [|n IH]; intros buf d Hc Hn.
  { exists buf. rewrite Nat.add_0_r. done. }
  destruct (lookup_lt_is_Some_2 fr d ltac:(lia)) as [x Hx].
  destruct (recycle_line_frozen _ _ _ _ _ x Hc Hx) as (b1 & H1 & Hc1 & Hw1).
  destruct (IH b1 (S d) Hc1 ltac:(lia)) as (b2 & H2 & Hc2 & Hw2).
  exists b2. simpl. rewrite H1. sbind.
  replace (Z.of_nat d + 1) with (Z.of_nat (S d)) by lia. rewrite H2.
  split; [done|]. split; [by rewrite <- Nat.add_succ_comm|]. by etransitivity.
Qed.

(** Advancing the window past the recycled lines. *)
Lemma lb_advance buf d fr l rl :
  lb_core buf d fr l rl -> (d <= length fr)%nat ->
  lb_inv (lb_set_window (linebuf_index_add buf (lb_start buf) (Z.of_nat d))
            (lb_size buf - Z.of_nat d) (lb_absolute buf + Z.of_nat d) buf)
         (drop d fr) l rl.
Proof.
  intros Hc Hd. destruct Hc.
  assert (linebuf_index_add buf (lb_start buf) (Z.of_nat d)
          = (lb_start buf + Z.of_nat d) mod lb_capacity buf) as Hidx.
  { unfold linebuf_index_add. rewrite Z.rem_mod_nonneg by lia.
    replace (lb_start buf + Z.of_nat d + lb_capacity buf) with
      (lb_start buf + Z.of_nat d + 1 * lb_capacity buf) by lia.
    by rewrite Z_mod_plus_full. }
  rewrite Hidx. pose proof (Z.mod_pos_bound (lb_start buf + Z.of_nat d) (lb_capacity buf)).
  assert (wraps 16 ((lb_start buf + Z.of_nat d) mod lb_capacity buf)
          = (lb_start buf + Z.of_nat d) mod lb_capacity buf) as Hw
    by (apply wraps_small; simpl; lia).
  assert (wraps 16 (lb_size buf - Z.of_nat d) = lb_size buf - Z.of_nat d) as Hw'
    by (apply wraps_small; simpl; lia).
  split; unfold lb_set_window; cbn -[wraps Z.pow]; rewrite ?Hw, ?Hw'; try done;
    rewrite ?length_drop, ?drop_0; try lia.
  - intros k x _ Hx. rewrite lookup_drop in Hx.
    destruct (lc_frozen0 (d + k)%nat x ltac:(lia) Hx) as [J HJ]. exists J. cbn -[wraps].
    rewrite ?Hw, rot_shift by lia. by rewrite <- Nat2Z.inj_add.
  - rewrite rot_shift by lia. rewrite <- Nat2Z.inj_add.
    by replace (d + (length fr - d))%nat with (length fr) by lia.
  - by apply Forall_drop.
Qed.

(** Recycling [count] of the frozen lines drops them. *)
Lemma recycle_frozen buf fr l rl count :
  lb_inv buf fr l rl -> 0 <= count <= Z.of_nat (length fr) ->
  exists buf', linebuf_recycle_oldest_lines buf count = Some buf' /\
    lb_inv buf' (drop (Z.to_nat count) fr) l rl /\
    lb_capacity buf' = lb_capacity buf /\ lb_backlog_size buf' = lb_backlog_size buf /\
    lb_absolute buf' = lb_absolute buf + count.
Proof.
  intros Hc Hn. pose proof (core_size _ _ _ _ _ Hc) as Hs.
  unfold linebuf_recycle_oldest_lines. rewrite Z.min_l by lia.
  destruct (Z.leb_spec count 0).
  { assert (count = 0) as -> by lia. exists buf. rewrite Z.add_0_r. done. }
  destruct (recycle_loop_frozen (Z.to_nat count) buf 0 fr l rl Hc ltac:(lia))
    as (b & Hrun & Hcb & Hw).
  change (Z.of_nat 0) with 0 in Hrun. rewrite Hrun. sbind.
  destruct Hw as (? & ? & Hz & ? & ? & _).
  eexists. split; [done|]. split; [|split_and!; cbn; congruence || lia].
  rewrite <- (Z2Nat.id count) at 1 2 3 by lia. apply lb_advance; [done|lia].
Qed.

(** * New lines *)

Definition fresh_line : line := line_fresh CONSOLE_FLINE_SIZE PE_CONSOLE_LINE_MAX_LENGTH.

Section newline.
Context (mok : Z -> bool) (Hmok : forall n, mok n = true).

Lemma init_fresh ed :
  exists ed', stredit_init mok ed 16 CONSOLE_FLINE_SIZE PE_CONSOLE_LINE_MAX_LENGTH
              = Some (true, ed') /\ stores ed' fresh_line.
Proof.
  destruct (stredit_init_stores mok ed 16 CONSOLE_FLINE_SIZE PE_CONSOLE_LINE_MAX_LENGTH)
    as (ed' & H1 & H2 & _); [done..|]. by exists ed'.
Qed.

Lemma fresh_last_ok : last_ok fresh_line 0.
Proof. split; [by exists (Some 0), (Some 0)|done]. Qed.

Lemma last_text_len buf d fr l rl :
  lb_core buf d fr l rl -> size (lb_edit buf) = flen (l_text l) /\
    flen (l_text l) <= PE_CONSOLE_LINE_MAX_LENGTH.
Proof.
  intros []. destruct lc_last0 as [_ Hmax], lc_edit0 as (_ & _ & Hsz & _ & _ & _ & Hl & _).
  unfold llen, flen in *. by rewrite <- Hmax.
Qed.

(** The edited line goes to its slot, and its bytes to the total. *)
Lemma freeze_last_ok buf fr l rl :
  lb_inv buf fr l rl ->
  exists buf' J, linebuf_freeze_last mok buf = Some buf' /\
    lb_lines buf' = <[rot (lb_start buf) (lb_capacity buf) (Z.of_nat (length fr)) :=
      PBlock (fl_block {| f_rl := rl; f_text := l_text l |} J)]> (lb_lines buf) /\
    same_window buf buf' /\
    lb_total_rendered buf' = lb_total_rendered buf /\
    lb_total_size_except_last buf' = lb_total_size_except_last buf + flen (l_text l).
Proof.
  intros Hc. pose proof (core_size _ _ _ _ _ Hc) as Hs.
  destruct (last_text_len _ _ _ _ _ Hc) as [Hsz Hmax].
  destruct (stredit_freeze_stores mok _ _ (lc_edit _ _ _ _ _ Hc) Hmok) as [J HJ].
  destruct (lc_last _ _ _ _ _ Hc) as [(c0 & c1 & Hmeta) _].
  unfold linebuf_freeze_last. cbn [lb_edit lb_set_totals]. rewrite HJ. sbind. rewrite Hmeta, Hsz.
  rewrite (fl_set_size_meta c0 c1 rl) by (done || (unfold PE_CONSOLE_LINE_MAX_LENGTH in *; lia)).
  sbind. cbn [lb_size lb_set_edit lb_set_totals lb_lines].
  change (linebuf_nth_to_index (lb_set_edit _ _)) with (linebuf_nth_to_index buf).
  erewrite nth_to_index by (done || lia).
  replace (lb_size buf - 1) with (Z.of_nat (length fr)) by lia.
  destruct Hc. rewrite lc_null0. sbind.
  destruct (lb_set_line_ok (lb_set_edit stredit_zero
      (lb_set_totals (lb_total_rendered buf)
         (lb_total_size_except_last buf + flen (l_text l)) buf)) (lb_start buf)
      (Z.of_nat (length fr)) (PBlock (fl_block {| f_rl := rl; f_text := l_text l |} J)))
    as (buf' & Hrun & Hlines & _ & Hw & Hr & Ht); [cbn; lia..|].
  exists buf', J. split; [exact Hrun|]. split; [exact Hlines|].
  split; [etransitivity; [|exact Hw]; done|]. split; [|exact Ht].
  rewrite Hr. cbn -[wraps]. rewrite lc_rendered0. by apply wraps_wraps.
Qed.

(** With room for one more line, the edited line is frozen and a fresh one
    takes its place. *)
Lemma newline_room buf fr l rl :
  lb_inv buf fr l rl -> lb_size buf < lb_capacity buf ->
  exists buf',
    (buf ← (if 0 <? lb_size buf then linebuf_freeze_last mok buf else Some buf);
     let buf := lb_set_window (lb_start buf) (lb_size buf + 1) (lb_absolute buf) buf in
     let last_nth := Z.to_nat (linebuf_nth_to_index buf (lb_size buf - 1)) in
     buf ← lb_set_line last_nth PNull buf;
     '(_, ed) ← stredit_init mok (lb_edit buf) 16 CONSOLE_FLINE_SIZE
                  PE_CONSOLE_LINE_MAX_LENGTH;
     Some (lb_set_edit ed buf)) = Some buf' /\
    lb_inv buf' (fr ++ [{| f_rl := rl; f_text := l_text l |}]) fresh_line 0 /\
    lb_capacity buf' = lb_capacity buf /\ lb_backlog_size buf' = lb_backlog_size buf /\
    lb_absolute buf' = lb_absolute buf.
Proof.
  intros Hc Hroom. pose proof (core_size _ _ _ _ _ Hc) as Hs.
  destruct (last_text_len _ _ _ _ _ Hc) as [_ Hshort].
  rewrite (proj2 (Z.ltb_lt _ _)) by lia.
  destruct (freeze_last_ok _ _ _ _ Hc) as (b & J & -> & Hl & Hw & Hr & Ht). sbind.
  destruct Hw as (Hwc & Hws & Hwz & Hwa & Hwb & _). destruct Hc.
  set (b1 := lb_set_window _ _ _ b). cbn zeta.
  assert (lb_start b1 = lb_start buf) as E1
    by (cbn -[wraps]; rewrite <- Hws; apply wraps_small; simpl; lia).
  assert (lb_size b1 = lb_size buf + 1) as E2
    by (cbn -[wraps]; rewrite <- Hwz; apply wraps_small; simpl; lia).
  assert (Z.to_nat (linebuf_nth_to_index b1 (lb_size b1 - 1)) =
          rot (lb_start buf) (lb_capacity b1) (Z.of_nat (length fr) + 1)) as ->.
  { unfold linebuf_nth_to_index. rewrite E1, E2. change (lb_capacity b1) with (lb_capacity b).
    rewrite rem_rot by lia. f_equal. lia. }
  destruct (lb_set_line_ok b1 (lb_start buf) (Z.of_nat (length fr) + 1) PNull)
    as (b2 & -> & Hl2 & _ & (W1 & W2 & W3 & W4 & W5 & W6) & Hr2 & Ht2).
  { cbn. lia. } { cbn. rewrite Hl, length_insert. lia. }
  sbind. destruct (init_fresh (lb_edit b2)) as (ed' & -> & Hed). sbind.
  change (lb_capacity b1) with (lb_capacity b) in *. rewrite <- Hwc in *.
  change (lb_lines b1) with (lb_lines b) in Hl2.
  eexists. split; [done|]. split; [|cbn; rewrite <- ?W4, <- ?W5; done].
  split; cbn -[wraps Z.pow sumZ fmap list_fmap drop]; rewrite <- ?W1, <- ?W2, <- ?W3, ?E1, ?E2, ?Hl2, ?Hl;
    rewrite ?length_insert, ?length_app; cbn [length]; try done; try lia.
  - apply fresh_last_ok.
  - intros k x _ Hx. unfold lb_live. cbn. rewrite Hl2, <- W1, <- W2, E1, Hl.
    pose proof (lookup_lt_Some _ _ _ Hx) as Hlt. rewrite length_app in Hlt; simpl in Hlt.
    rewrite live_other by lia.
    destruct (decide (k = length fr)) as [->|Hk].
    + rewrite lookup_app_r, Nat.sub_diag in Hx by lia. injection Hx as <-.
      exists J. apply live_same; lia.
    + rewrite lookup_app_l in Hx by lia.
      destruct (lc_frozen0 k x ltac:(lia) Hx) as [J' HJ']. exists J'.
      rewrite live_other; [done|lia..].
  - replace (Z.of_nat (length fr + 1)) with (Z.of_nat (length fr) + 1) by lia.
    apply live_same; [lia|]. rewrite length_insert. lia.
  - apply Forall_app. split; [done|]. by constructor.
  - rewrite Ht2. change (lb_total_size_except_last b1) with (lb_total_size_except_last b). rewrite Ht, lc_total0, !drop_0, fmap_app, sumZ_app. cbn. lia.
  - rewrite Hr2. change (lb_total_rendered b1) with (lb_total_rendered b). rewrite Hr, lc_rendered0, !drop_0, fmap_app, sumZ_app.
    f_equal. cbn. lia.
Qed.
(** The same from an empty buffer. *)
Record lb_empty (buf : linebuf_t) : Prop := {
  le_cap : 0 < lb_capacity buf < 2 ^ 15;
  le_len : length (lb_lines buf) = Z.to_nat (lb_capacity buf);
  le_start : 0 <= lb_start buf < lb_capacity buf;
  le_size : lb_size buf = 0;
  le_total : lb_total_size_except_last buf = 0;
  le_rendered : lb_total_rendered buf = 0
}.

Lemma newline_empty buf :
  lb_empty buf ->
  exists buf', linebuf_newline mok buf = Some buf' /\ lb_inv buf' [] fresh_line 0 /\
    lb_capacity buf' = lb_capacity buf /\ lb_backlog_size buf' = lb_backlog_size buf /\
    lb_absolute buf' = lb_absolute buf.
Proof.
  intros []. unfold linebuf_newline, linebuf_recycle_oldest_lines. rewrite le_size0.
  rewrite (proj2 (Z.leb_le _ _)) by lia. sbind. rewrite le_size0. cbn [Z.ltb Z.compare]. sbind.
  set (b1 := lb_set_window _ _ _ buf). cbn zeta.
  assert (lb_start b1 = lb_start buf) as E1 by (apply wraps_small; simpl; lia).
  assert (lb_size b1 = 1) as E2 by (cbn -[wraps]; by rewrite le_size0).
  rewrite E2. assert (Z.to_nat (linebuf_nth_to_index b1 (1 - 1)) =
          rot (lb_start buf) (lb_capacity b1) 0) as ->.
  { unfold linebuf_nth_to_index. rewrite E1. change (lb_capacity b1) with (lb_capacity buf).
    by rewrite rem_rot by lia. }
  destruct (lb_set_line_ok b1 (lb_start buf) 0 PNull)
    as (b2 & -> & Hl2 & _ & (W1 & W2 & W3 & W4 & W5 & W6) & Hr2 & Ht2); [cbn; lia..|].
  sbind. destruct (init_fresh (lb_edit b2)) as (ed' & -> & Hed). sbind.
  change (lb_capacity b1) with (lb_capacity buf) in *.
  change (lb_lines b1) with (lb_lines buf) in Hl2.
  eexists. split; [done|]. split; [|cbn; rewrite <- ?W4, <- ?W5; done].
  split; cbn -[wraps Z.pow sumZ fmap list_fmap drop];
    rewrite <- ?W1, <- ?W2, <- ?W3, ?E1, ?E2, ?Hl2, ?length_insert; try done; try lia.
  - apply fresh_last_ok.
  - by apply live_same; [lia|].
  - rewrite Ht2. done.
  - rewrite Hr2. cbn -[wraps]. rewrite le_rendered0. done.
Qed.

(** A single line in a buffer of capacity one is recycled while it is being
    edited. *)
Lemma recycle_single buf l rl :
  lb_inv buf [] l rl -> lb_capacity buf = 1 ->
  exists buf', linebuf_recycle_oldest_lines buf 1 = Some buf' /\ lb_empty buf' /\
    lb_capacity buf' = lb_capacity buf /\ lb_backlog_size buf' = lb_backlog_size buf.
Proof.
  intros Hc Hcap. assert (lb_size buf = 1) as Hs by (by rewrite (core_size _ _ _ _ _ Hc)).
  destruct (get_last _ _ _ _ _ Hc) as [J HJ]. change (Z.of_nat (length [])) with 0 in HJ.
  destruct (lc_last _ _ _ _ _ Hc) as [(c0 & c1 & Hmeta) _]. rewrite Hmeta in HJ.
  unfold linebuf_recycle_oldest_lines. rewrite Hs.
  change (Z.min 1 1) with 1. change (Z.to_nat 1) with 1%nat.
  cbn [Z.leb Z.compare Pos.compare Pos.compare_cont recycle_loop].
  unfold recycle_line. rewrite HJ. sbind.
  change (fl_render_lines _) with (Some rl). sbind. rewrite Hs. change (0 =? 1 - 1) with true. sbind.
  cbn [lb_size lb_set_totals]. rewrite Hs. change (0 =? 1 - 1) with true. sbind.
  eexists. split; [done|]. destruct Hc. split; [|done].
  assert (lb_start buf = 0) as Hst by lia.
  split; cbn -[wraps Z.pow Z.rem]; rewrite ?Hcap, ?Hst, ?Hs in *; try done; try lia.
  - unfold linebuf_index_add. cbn -[wraps Z.rem]. rewrite Hcap. done.
  - rewrite lc_rendered0. cbn -[wraps]. rewrite wraps_sub_l by lia.
    replace (0 + rl - rl) with 0 by lia. done.
Qed.

Lemma linebuf_newline_ok buf fr l rl :
  lb_inv buf fr l rl ->
  exists buf', linebuf_newline mok buf = Some buf' /\
    lb_inv buf' (drop (Z.to_nat (lb_size buf - lb_capacity buf + 1))
                   (fr ++ [{| f_rl := rl; f_text := l_text l |}])) fresh_line 0 /\
    lb_capacity buf' = lb_capacity buf /\ lb_backlog_size buf' = lb_backlog_size buf.
Proof.
  intros Hc. pose proof (core_size _ _ _ _ _ Hc) as Hs. pose proof (lc_fit _ _ _ _ _ Hc) as Hfit.
  destruct (decide (lb_size buf < lb_capacity buf)) as [Hlt|Hge].
  - destruct (newline_room _ _ _ _ Hc Hlt) as (b & Hrun & Hinv & ? & ? & _).
    exists b. unfold linebuf_newline, linebuf_recycle_oldest_lines.
    rewrite (proj2 (Z.leb_le (Z.min _ _) 0)) by lia. sbind. split; [exact Hrun|].
    replace (Z.to_nat _) with 0%nat by lia. by rewrite drop_0.
  - assert (lb_capacity buf = lb_size buf) as Hcap by lia. rewrite Hcap.
    replace (lb_size buf - lb_size buf + 1) with 1 by lia. destruct fr as [|x fr].
    + destruct (recycle_single _ _ _ Hc) as (b & Hrun & He & ? & ?); [simpl in Hs; lia|].
      destruct (newline_empty _ He) as (b' & Hrun' & Hinv & ? & ? & _).
      exists b'. split; [|split_and!; [exact Hinv|congruence..]].
      unfold linebuf_newline at 1. rewrite Hcap.
      replace (lb_size buf - lb_size buf + 1) with 1 by lia. rewrite Hrun. sbind.
      unfold linebuf_newline, linebuf_recycle_oldest_lines in Hrun'.
      rewrite (le_size _ He) in Hrun' at 1. rewrite (proj2 (Z.leb_le _ 0)) in Hrun'; [done|].
      destruct He; lia.
    + destruct (recycle_frozen _ _ _ _ 1 Hc) as (b & Hrun & Hinv & ? & ? & _); [simpl; lia|].
      pose proof (core_size _ _ _ _ _ Hinv) as Hsb. simpl in Hs, Hsb.
      change (Pos.to_nat 1) with 1%nat in *. simpl in Hsb. rewrite drop_0 in Hsb.
      destruct (newline_room _ _ _ _ Hinv) as (b' & Hrun' & Hinv' & ? & ? & _); [lia|].
      exists b'. unfold linebuf_newline. rewrite Hcap.
      replace (lb_size buf - lb_size buf + 1) with 1 by lia. rewrite Hrun. sbind.
      split; [exact Hrun'|]. split_and!; [exact Hinv'|congruence..].
Qed.
End newline.

(** * The backlog limit *)

(** Bytes of text left once the first [k] lines are gone. *)
Definition text_bytes (fr : list fline) (l : line) (k : nat) : Z :=
  sumZ ((fun x => flen (f_text x)) <$> drop k fr) + flen (l_text l).

Lemma clean_loop_spec fuel buf fr l rl k :
  lb_inv buf fr l rl -> (k <= length fr)%nat -> (length fr - k < fuel)%nat ->
  exists k', clean_loop fuel buf (Z.of_nat k) (text_bytes fr l k) = Some (Z.of_nat k') /\
    (k <= k' <= length fr)%nat /\
    (forall j, (k <= j < k')%nat -> lb_backlog_size buf < text_bytes fr l j) /\
    (k' = length fr \/ text_bytes fr l k' <= lb_backlog_size buf).
Proof.
  intros Hc. pose proof (core_size _ _ _ _ _ Hc) as Hs.
  revert k. induction fuel as [|fuel IH]; intros k Hk Hf; [lia|]. cbn [clean_loop].
  destruct (_ && _) eqn:Hg.
  - destruct (lookup_lt_is_Some_2 fr k ltac:(lia)) as [x Hx].
    destruct (get_frozen _ _ _ _ _ k x Hc ltac:(lia) Hx) as [J ->]. sbind.
    rewrite fl_size_block by apply flen_nonneg. sbind.
    replace (Z.of_nat k + 1) with (Z.of_nat (S k)) by lia.
    assert (text_bytes fr l k - flen (f_text x) = text_bytes fr l (S k)) as ->.
    { unfold text_bytes. rewrite (sumZ_drop_S (fun x => flen (f_text x)) _ _ _ Hx). lia. }
    destruct (IH (S k) ltac:(lia) ltac:(lia)) as (k' & Hrun & Hk' & Hbig & Hend).
    exists k'. split; [done|]. split; [lia|]. split; [|done].
    intros j Hj. destruct (decide (j = k)) as [->|]; [lia|apply Hbig; lia].
  - exists k. split; [done|]. split; [lia|]. split; [lia|]. lia.
Qed.

Lemma linebuf_clean_backlog_ok buf fr l rl :
  lb_inv buf fr l rl ->
  exists buf' k, linebuf_clean_backlog buf = Some buf' /\ lb_inv buf' (drop k fr) l rl /\
    (k <= length fr)%nat /\
    (forall j, (j < k)%nat -> lb_backlog_size buf < text_bytes fr l j) /\
    (k = length fr \/ text_bytes fr l k <= lb_backlog_size buf) /\
    lb_capacity buf' = lb_capacity buf /\ lb_backlog_size buf' = lb_backlog_size buf.
Proof.
  intros Hc. pose proof (core_size _ _ _ _ _ Hc) as Hs.
  unfold linebuf_clean_backlog, linebuf_get_last_line.
  rewrite (proj2 (Z.leb_gt _ _)), (proj2 (Z.ltb_lt _ _)) by lia. sbind.
  destruct (last_text_len _ _ _ _ _ Hc) as [-> _]. rewrite (lc_total _ _ _ _ _ Hc).
  destruct (clean_loop_spec (Z.to_nat (lb_size buf)) buf fr l rl 0 Hc)
    as (k & Hrun & Hk & Hbig & Hend); [lia..|].
  change (Z.of_nat 0) with 0 in Hrun. unfold text_bytes in Hrun. rewrite Hrun. sbind.
  destruct (recycle_frozen _ _ _ _ (Z.of_nat k) Hc) as (b & Hrec & Hinv & ? & ? & _); [lia|].
  rewrite Nat2Z.id in Hinv. exists b, k. split_and!; try done; [lia|].
  intros j Hj. apply Hbig. lia.
Qed.

(** * The two operations on lines *)


(** Cleaning the backlog removes the fewest oldest lines that bring the text
    under the limit, and never the line being edited. *)
Theorem linebuf_clean_backlog_spec buf fr l rl :
  lb_inv buf fr l rl ->
  exists buf' k, linebuf_clean_backlog buf = Some buf' /\ lb_inv buf' (drop k fr) l rl /\
    (k <= length fr)%nat /\
    (forall j, (j < k)%nat -> lb_backlog_size buf < text_bytes fr l j) /\
    (k = length fr \/ text_bytes fr l k <= lb_backlog_size buf) /\
    lb_capacity buf' = lb_capacity buf /\ lb_backlog_size buf' = lb_backlog_size buf.
Proof. apply linebuf_clean_backlog_ok. Qed.

(** * Witnesses *)

Definition demo_buf : linebuf_t :=
  {| lb_lines := [PBlock [Some 0; Some 1; Some 1; Some 65; Some 0]; PNull];
     lb_edit := demo_ed; lb_capacity := 2; lb_start := 0; lb_size := 2;
     lb_total_rendered := 1; lb_absolute := 1; lb_backlog_size := 2;
     lb_total_size_except_last := 1; lb_absolute_rendered := 1 |}.

Lemma demo_inv : lb_inv demo_buf [{| f_rl := 1; f_text := [65] |}] demo_line 0.
Proof.
  split; cbn; try done; try (split; done).
  - apply demo_stores.
  - split; [by exists (Some 0), (Some 0)|done].
  - intros [|k] x _ Hx; [|done]. injection Hx as <-. by exists [].
  - by constructor.
Defined.


Lemma linebuf_clean_backlog_spec_witness :
  exists buf' k, linebuf_clean_backlog demo_buf = Some buf' /\
    lb_inv buf' (drop k [{| f_rl := 1; f_text := [65] |}]) demo_line 0.
Proof.
  destruct (linebuf_clean_backlog_spec demo_buf _ _ _ demo_inv) as (buf' & k & H1 & H2 & _).
  exists buf', k. split; [exact H1|exact H2].
Defined.

(** When the block of the frozen line cannot be shrunk, [stredit_freeze_and_reset]
    returns the null pointer and [linebuf_newline] writes the size through it. *)
Example freeze_without_memory :
  (exists buf buf', linebuf_newline (fun _ => true) demo_buf = Some buf /\ linebuf_newline (fun _ => true) buf = Some buf') /\
  (buf ← linebuf_newline (fun _ => true) demo_buf; linebuf_newline (fun _ => false) buf) = None.
Proof.
  split; [|vm_compute; reflexivity]. destruct (linebuf_newline (fun _ => true) demo_buf) as [buf|] eqn:E; [|discriminate E].
  exists buf. destruct (linebuf_newline (fun _ => true) buf) as [buf'|] eqn:E'; [by exists buf'|].
  vm_compute in E. injection E as <-. discriminate E'.
Qed.
