(* ===== verification/ConsoleProps.v ===== *)
(** Properties of the terminal emulator of [Console.v]: every edition function
    keeps the representation of [ConsoleSpec.v], terminates and stays in
    bounds, whatever is written to the console. *)

From Stdlib Require Import ZArith Lia.
From stdpp Require Import base option list numbers.
From S2P Require Import Prelude StrEdit Console ConsoleSpec.

Section props.
Context (mok : Z -> bool) (Hmok : forall n, mok n = true) {font : Type}.
Implicit Types (cons : @console_t font).

(** The console represents the lines [fr] and the edited line [l], with its
    cursor in the text of [l]. *)
Definition cons_inv cons (fr : list fline) (l : line) (rl : Z) : Prop :=
  lb_inv (lines cons) fr l rl /\ 0 <= cursor cons <= llen l.

Lemma last_line_ok cons fr l rl :
  cons_inv cons fr l rl ->
  last_line cons = Some (lb_edit (lines cons)) /\ stores (lb_edit (lines cons)) l.
Proof.
  intros [Hl _]. pose proof (core_size _ _ _ _ _ Hl). split; [|by apply (lc_edit _ _ _ _ _ Hl)].
  unfold last_line, linebuf_get_last_line. by rewrite (proj2 (Z.ltb_lt _ _)) by lia.
Qed.

Lemma line_bound cons fr l rl :
  cons_inv cons fr l rl -> llen l <= l_max l /\ l_max l = 1024.
Proof.
  intros [Hl _]. destruct (lc_last _ _ _ _ _ Hl) as [_ Hm].
  by destruct (lc_edit _ _ _ _ _ Hl) as (_ & _ & _ & _ & _ & _ & ? & _).
Qed.

(** Replacing the editor by one that stores another text of the same line. *)
Lemma set_edit_inv cons fr l rl ed l' cur needed :
  cons_inv cons fr l rl -> stores ed l' ->
  l_meta l' = l_meta l -> l_max l' = l_max l -> 0 <= cur <= llen l' ->
  cons_inv (cons_set (lb_set_edit ed (lines cons)) cur needed cons) fr l' rl /\
  cursor (cons_set (lb_set_edit ed (lines cons)) cur needed cons) = cur.
Proof.
  intros Hc Hst Hmeta Hmax Hcur. destruct (line_bound _ _ _ _ Hc) as [_ H1024].
  assert (llen l' <= 1024) by (destruct Hst as (_ & _ & _ & _ & _ & _ & ? & _); lia).
  assert (wraps 16 cur = cur) as Hw by (apply wraps_small; simpl; lia).
  destruct Hc as [Hl _]. split; [|exact Hw]. split; [|cbn -[wraps]; lia].
  destruct (lc_last _ _ _ _ _ Hl) as [Hm ?].
  destruct Hl. split; try done. split; [by rewrite Hmeta|by rewrite Hmax].
Qed.

Lemma set_cursor_inv cons fr l rl cur needed :
  cons_inv cons fr l rl -> 0 <= cur <= llen l ->
  cons_inv (cons_set (lines cons) cur needed cons) fr l rl /\
  cursor (cons_set (lines cons) cur needed cons) = cur.
Proof.
  intros Hc Hcur. destruct (line_bound _ _ _ _ Hc) as [? H1024].
  assert (wraps 16 cur = cur) as Hw by (apply wraps_small; simpl; lia).
  destruct Hc as [Hl _]. split; [|exact Hw]. split; [done|]. cbn -[wraps]. lia.
Qed.

(** A new line keeps a suffix of the lines. *)
Lemma console_newline_ok cons fr l rl :
  cons_inv cons fr l rl ->
  exists cons' k, console_newline mok cons = Some cons' /\
    cons_inv cons' (drop k (fr ++ [{| f_rl := rl; f_text := l_text l |}])) fresh_line 0 /\
    cursor cons' = 0 /\ render_needed cons' = true.
Proof.
  intros [Hl _]. unfold console_newline.
  destruct (linebuf_newline_ok mok Hmok _ _ _ _ Hl) as (b & -> & Hb & _). sbind.
  destruct (linebuf_clean_backlog_ok _ _ _ _ Hb) as (b' & k & -> & Hb' & _). sbind.
  rewrite drop_drop in Hb'.
  eexists _, _. split; [done|]. split; [split; [exact Hb'|]|]; done.
Qed.

Lemma insert_bytes ed l p (s : list Z) n :
  stores ed l -> 0 <= n <= flen s -> 0 <= p <= llen l -> llen l + n <= l_max l ->
  exists ed' l', stredit_insert mok ed p (Some <$> s) n = Some (true, ed') /\
    line_insert l p (take (Z.to_nat n) s) = Some l' /\ stores ed' l' /\
    l_meta l' = l_meta l /\ l_max l' = l_max l /\ llen l' = llen l + n.
Proof.
  intros Hst Hn Hp Hmax.
  assert (Some <$> s = (Some <$> take (Z.to_nat n) s) ++ (Some <$> drop (Z.to_nat n) s)) as ->
    by (by rewrite <- fmap_app, take_drop).
  destruct (stredit_insert_refines' mok ed l p (take (Z.to_nat n) s) n
    (Some <$> drop (Z.to_nat n) s) Hst) as (ok & ed' & Hrun & _ & Hok & Hiff);
    [unfold flen in *; rewrite length_take; lia|].
  rewrite Hrun. specialize (Hiff Hmok).
  assert (line_insert l p (take (Z.to_nat n) s) = Some {| l_meta := l_meta l;
    l_text := take (Z.to_nat p) (l_text l) ++ take (Z.to_nat n) s ++ drop (Z.to_nat p) (l_text l);
    l_prefix := l_prefix l; l_max := l_max l |}) as Hins.
  { apply line_insert_text; unfold flen in *; rewrite ?length_take; lia. }
  rewrite Hins in *. assert (ok = true) as -> by (apply Hiff; eauto).
  destruct (Hok eq_refl) as (l' & [= <-] & Hst').
  eexists _, _. split_and!; try done.
  unfold llen, flen in *. simpl. rewrite !length_app, !length_take, length_drop. lia.
Qed.

(** * Writing raw text *)

Lemma write_raw_loop_ok fuel cons fr l rl (s : list Z) n :
  cons_inv cons fr l rl -> n <= flen s ->
  (if llen l =? l_max l then 2 * n + 1 else 2 * n) <= Z.of_nat fuel ->
  exists cons' fr' l' rl', write_raw_loop mok fuel cons (Some <$> s) n = Some (true, cons') /\
    cons_inv cons' fr' l' rl'.
Proof.
  revert cons fr l rl n. induction fuel as [|fuel IH]; intros cons fr l rl n Hc Hn Hf;
    cbn [write_raw_loop]; destruct (Z.leb_spec n 0);
    try (by eexists _, _, _, _; split); try (exfalso; destruct (_ =? _); lia).
  destruct (last_line_ok _ _ _ _ Hc) as [-> Hst]. sbind.
  destruct (line_bound _ _ _ _ Hc) as [Hb H1024]. destruct Hc as [Hl Hcur].
  pose proof Hst as (_ & _ & Hsz & Hm & _). unfold stredit_capacity. rewrite Hsz, Hm.
  set (r := Z.min n (l_max l - llen l)).
  destruct (insert_bytes _ _ (cursor cons) s r Hst) as
    (ed & l1 & -> & _ & Hst1 & Hm1 & Hx1 & Hlen1); [lia..|]. sbind. cbn [negb].
  unfold cons_set_edit. cbn [lines cons_set].
  destruct (set_edit_inv cons fr l rl ed l1 (cursor cons) (render_needed cons)
    (conj Hl Hcur) Hst1 Hm1 Hx1 ltac:(lia)) as [Hc1 Hcur1].
  set (c1 := cons_set _ (cursor cons) _ cons) in *.
  change (lb_set_edit ed (lines cons)) with (lines c1). rewrite Hcur1.
  destruct (set_cursor_inv c1 fr l1 rl (cursor cons + r) true Hc1 ltac:(lia)) as [Hc2 _].
  destruct (Z.ltb_spec r n) as [Hr|Hr].
  - destruct (console_newline_ok _ _ _ _ Hc2) as (c3 & k & -> & Hc3 & _). sbind.
    eapply IH; [exact Hc3|lia|].
    change (llen fresh_line) with 0. change (l_max fresh_line) with 1024.
    cbn [Z.eqb]. destruct (Z.eqb_spec (llen l) (l_max l)); lia.
  - sbind. eapply IH; [exact Hc2|lia|]. destruct (_ =? _), (_ =? _); lia.
Qed.

Lemma console_write_raw_ok cons fr l rl (s : list Z) n :
  cons_inv cons fr l rl -> 0 <= n <= flen s ->
  exists cons' fr' l' rl', console_write_raw mok cons (Some <$> s) n = Some (true, cons') /\
    cons_inv cons' fr' l' rl'.
Proof.
  intros Hc Hn. unfold console_write_raw.
  pose proof (core_size _ _ _ _ _ (proj1 Hc)).
  rewrite (proj2 (Z.eqb_neq _ _)) by lia. sbind.
  eapply write_raw_loop_ok; [exact Hc|lia|]. destruct (_ =? _); lia.
Qed.

(** * Deletions and control characters *)

Lemma delete_bytes ed l p n :
  stores ed l ->
  exists ed' l' k, stredit_delete ed p n = Some (k, ed') /\ stores ed' l' /\
    k = Z.max 0 (Z.min (p + n) (llen l) - Z.max p (l_prefix l)) /\
    l_meta l' = l_meta l /\ l_max l' = l_max l /\ llen l' = llen l - k /\
    l_prefix l' = l_prefix l.
Proof.
  intros Hst. destruct (stredit_delete_refines' ed l p n Hst) as (ed' & Hrun & Hst').
  pose proof Hst as (_ & _ & _ & _ & _ & Hp & _).
  rewrite Hrun. unfold line_delete in *. destruct (Z.leb_spec
    (Z.min (p + n) (llen l)) (Z.max p (l_prefix l))); cbn [fst snd] in *;
    eexists _, _, _; (split; [done|]); (split; [exact Hst'|]); split_and!; try done; try lia.
  unfold llen in *. cbn [l_text]. rewrite length_app, length_take, length_drop. lia.
Qed.

Lemma cursor_wraps cons fr l rl :
  cons_inv cons fr l rl -> wraps 16 (cursor cons) = cursor cons.
Proof.
  intros Hc. destruct (line_bound _ _ _ _ Hc). destruct Hc as [_ ?].
  apply wraps_small; simpl; lia.
Qed.

(** An update of the editor followed by one of the cursor. *)
Lemma set_edit_cursor_inv cons fr l rl ed l' (g : Z -> Z) needed :
  cons_inv cons fr l rl -> stores ed l' ->
  l_meta l' = l_meta l -> l_max l' = l_max l -> 0 <= g (cursor cons) <= llen l' ->
  let c1 := cons_set_edit ed cons in
  cons_inv (cons_set (lines c1) (g (cursor c1)) needed c1) fr l' rl.
Proof.
  intros Hc Hst Hm Hx Hg. cbn zeta.
  unfold cons_set_edit at 2. cbn [cursor cons_set]. rewrite (cursor_wraps _ _ _ _ Hc).
  exact (proj1 (set_edit_inv cons fr l rl ed l' (g (cursor cons)) needed Hc Hst Hm Hx Hg)).
Qed.

Lemma set_edit_same_cursor cons fr l rl ed l' :
  cons_inv cons fr l rl -> stores ed l' ->
  l_meta l' = l_meta l -> l_max l' = l_max l -> cursor cons <= llen l' ->
  cons_inv (cons_set_edit ed cons) fr l' rl /\ cursor (cons_set_edit ed cons) = cursor cons.
Proof.
  intros Hc Hst Hm Hx Hg. destruct Hc as [Hl Hcur].
  apply (set_edit_inv cons fr l rl ed l'); try done; lia.
Qed.

Lemma write_backspace_ok cons fr l rl :
  cons_inv cons fr l rl ->
  exists cons' l', write_backspace cons = Some cons' /\ cons_inv cons' fr l' rl.
Proof.
  intros Hc. unfold write_backspace.
  destruct (last_line_ok _ _ _ _ Hc) as [-> Hst]. sbind. pose proof (proj2 Hc) as Hcur.
  destruct (Z.ltb_spec 0 (cursor cons)); [|by eexists _, _].
  destruct (delete_bytes _ _ (cursor cons - 1) 1 Hst)
    as (ed & l' & k & -> & Hst' & Hk & Hm & Hx & Hlen & _). sbind.
  eexists _, l'. split; [done|].
  apply (set_edit_cursor_inv cons fr l rl ed l' (fun c => c - 1)); try done. lia.
Qed.

Lemma at_seq_ok (s : list Z) off n c1 c2 :
  0 <= off -> n <= flen s ->
  exists b, at_seq (Some <$> s) off n c1 c2 = Some b /\ (b = true -> off + 2 <= n).
Proof.
  intros Ho Hn. unfold at_seq. destruct (Z.leb_spec (off + 2) n); [|by exists false].
  assert (forall i, (i < length s)%nat -> exists c, byte_at (Some <$> s) i = Some c) as Hb.
  { intros i Hi. destruct (lookup_lt_is_Some_2 s i Hi) as [c Hc]. exists c.
    unfold byte_at. by rewrite list_lookup_fmap, Hc. }
  unfold flen in *.
  destruct (Hb (Z.to_nat off)) as [a ->]; [lia|].
  destruct (Hb (Z.to_nat (off + 1))) as [b ->]; [lia|]. sbind. by eexists.
Qed.

(** The cursor movements that may follow an escape character. *)
Lemma escape_moves_ok cons fr l rl ed (s : list Z) off n :
  cons_inv cons fr l rl -> size ed = llen l -> 0 <= off -> n <= flen s ->
  exists cons',
    (left ← at_seq (Some <$> s) off n 1 68;
     let cons := if left : bool
       then cons_set (lines cons) (cursor cons - (if 0 <? cursor cons then 1 else 0))
              (render_needed cons) cons else cons in
     right ← at_seq (Some <$> s) off n 1 67;
     let cons := if right : bool
       then cons_set (lines cons) (cursor cons + (if cursor cons <? size ed then 1 else 0))
              (render_needed cons) cons else cons in
     Some (off, cons)) = Some (off, cons') /\ cons_inv cons' fr l rl.
Proof.
  intros Hc Hsz Ho Hn.
  destruct (at_seq_ok s off n 1 68) as (left & -> & _); [lia..|]. sbind. cbn zeta.
  set (c1 := if left then _ else _).
  assert (cons_inv c1 fr l rl) as Hc1.
  { subst c1. destruct left; [|done]. apply set_cursor_inv; [done|].
    destruct Hc as [_ ?]. destruct (Z.ltb_spec 0 (cursor cons)); lia. }
  destruct (at_seq_ok s off n 1 67) as (right & -> & _); [lia..|]. sbind.
  eexists. split; [done|]. destruct right; [|done]. apply set_cursor_inv; [done|].
  destruct Hc1 as [_ ?]. rewrite Hsz. destruct (Z.ltb_spec (cursor c1) (llen l)); lia.
Qed.

Lemma write_escape_ok cons fr l rl (s : list Z) off n :
  cons_inv cons fr l rl -> 0 <= off <= n -> n <= flen s ->
  exists off' cons' l', write_escape (Some <$> s) off n cons = Some (off', cons') /\
    off <= off' <= n /\ cons_inv cons' fr l' rl.
Proof.
  intros Hc Ho Hn. unfold write_escape.
  destruct (last_line_ok _ _ _ _ Hc) as [-> Hst]. sbind. pose proof (proj2 Hc) as Hcur.
  pose proof Hst as (_ & _ & Hsz & _).
  destruct (at_seq_ok s off n 91 75) as ([] & -> & Hclear); [lia..| |]; sbind.
  - specialize (Hclear eq_refl).
    destruct (delete_bytes _ _ (cursor cons) (size (lb_edit (lines cons)) - cursor cons) Hst)
      as (ed & l' & k & -> & Hst' & Hk & Hm & Hx & Hlen & _). sbind. rewrite Hsz in Hk.
    pose proof Hst' as (_ & _ & Hsz' & _).
    destruct (set_edit_same_cursor cons fr l rl ed l' Hc Hst' Hm Hx ltac:(lia)) as [Hc1 _].
    destruct (escape_moves_ok _ fr l' rl ed s (off + 2) n Hc1 Hsz') as (c2 & Hrun & Hc2);
      [lia..|].
    eexists _, c2, l'. split; [exact Hrun|]. split; [lia|done].
  - destruct (escape_moves_ok _ fr l rl _ s off n Hc Hsz) as (c2 & Hrun & Hc2); [lia..|].
    eexists _, c2, l. split; [exact Hrun|]. split; [lia|done].
Qed.

Lemma byte_at_fmap (s : list Z) i c : s !! i = Some c -> byte_at (Some <$> s) i = Some c.
Proof. intros H. unfold byte_at. by rewrite list_lookup_fmap, H. Qed.

Lemma find_control_ok fuel (s : list Z) off n :
  0 <= off <= n -> n <= flen s -> n - off <= Z.of_nat fuel ->
  exists e, find_control fuel (Some <$> s) off n = Some e /\ off <= e <= n /\
    (e < n -> exists c, s !! Z.to_nat e = Some c /\ is_control c = true).
Proof.
  revert off. induction fuel as [|fuel IH]; intros off Ho Hn Hf; cbn [find_control];
    destruct (Z.ltb_spec off n); try lia.
  1, 3: exists off; (split; [done|]); split; lia.
  destruct (lookup_lt_is_Some_2 s (Z.to_nat off)) as [c Hc]; [unfold flen in *; lia|].
  rewrite (byte_at_fmap _ _ _ Hc). sbind. destruct (is_control c) eqn:Hctl.
  - exists off. split; [done|]. split; [lia|]. eauto.
  - destruct (IH (off + 1)) as (e & -> & ? & ?); [lia..|]. exists e.
    split; [done|]. split; [lia|done].
Qed.

(** * Writing to the console *)

Lemma write_loop_ok fuel cons fr l rl (s : list Z) off n :
  cons_inv cons fr l rl -> 0 <= off <= n -> n <= flen s -> n - off <= Z.of_nat fuel ->
  exists cons' fr' l' rl', write_loop mok fuel cons (Some <$> s) off n = Some (true, cons') /\
    cons_inv cons' fr' l' rl'.
Proof.
  revert cons fr l rl off. induction fuel as [|fuel IH]; intros cons fr l rl off Hc Ho Hn Hf;
    cbn [write_loop]; destruct (Z.leb_spec n off);
    try (by eexists _, _, _, _; split); try (exfalso; lia).
  destruct (find_control_ok (Z.to_nat n) s off n) as (e & -> & He & Hctl); [lia..|]. sbind.
  rewrite <- fmap_drop.
  destruct (console_write_raw_ok cons fr l rl (drop (Z.to_nat off) s) (e - off) Hc)
    as (c1 & fr1 & l1 & rl1 & -> & Hc1); [unfold flen in *; rewrite length_drop; lia|].
  sbind. cbn [negb]. replace (off + (e - off)) with e by lia.
  destruct (Z.leb_spec n e); [by eexists _, _, _, _|].
  destruct (Hctl ltac:(lia)) as (c & Hc_at & Hisctl).
  rewrite (byte_at_fmap _ _ _ Hc_at). sbind.
  assert (forall c2 fr2 l2 rl2 e2, cons_inv c2 fr2 l2 rl2 -> e < e2 <= n ->
    exists cons' fr' l' rl', write_loop mok fuel
      (cons_set (lines c2) (cursor c2) true c2) (Some <$> s) e2 n = Some (true, cons') /\
      cons_inv cons' fr' l' rl') as Hnext.
  { intros c2 fr2 l2 rl2 e2 Hc2 He2. eapply IH; [|lia..].
    apply set_cursor_inv; [exact Hc2|]. apply Hc2. }
  destruct (Z.eqb_spec c 10); [|destruct (Z.eqb_spec c 8); [|destruct (Z.eqb_spec c 27)]].
  - destruct (console_newline_ok _ _ _ _ Hc1) as (c2 & k & -> & Hc2 & _). sbind.
    eapply Hnext; [exact Hc2|lia].
  - destruct (write_backspace_ok _ _ _ _ Hc1) as (c2 & l2 & -> & Hc2). sbind.
    eapply Hnext; [exact Hc2|lia].
  - destruct (write_escape_ok c1 fr1 l1 rl1 s (e + 1) n Hc1) as (e2 & c2 & l2 & -> & He2 & Hc2);
      [lia..|]. sbind. eapply Hnext; [exact Hc2|lia].
  - unfold is_control in Hisctl. lia.
Qed.

(** * The other edition functions *)

Lemma console_set_cursor_ok cons fr l rl pos :
  cons_inv cons fr l rl ->
  exists ok cons', console_set_cursor cons pos = Some (ok, cons') /\ cons_inv cons' fr l rl.
Proof.
  intros Hc. unfold console_set_cursor.
  destruct (last_line_ok _ _ _ _ Hc) as [-> Hst]. sbind.
  pose proof Hst as (_ & _ & Hsz & _ & Hp & Hpb & _). rewrite Hsz, Hp.
  destruct (_ || _) eqn:Hg; [by eexists _, _|].
  eexists _, _. split; [done|]. apply set_cursor_inv; [done|lia].
Qed.

Lemma console_lock_prefix_ok cons fr l rl :
  cons_inv cons fr l rl ->
  exists cons', console_lock_prefix cons = Some cons' /\
    cons_inv cons' fr (line_set_prefix l (cursor cons)) rl.
Proof.
  intros Hc. unfold console_lock_prefix.
  destruct (last_line_ok _ _ _ _ Hc) as [-> Hst]. sbind. pose proof (proj2 Hc) as Hcur.
  destruct (line_bound _ _ _ _ Hc) as [? H1024].
  eexists. split; [done|].
  apply (set_edit_same_cursor cons fr l rl); [done| |done..|exact (proj2 Hcur)].
  destruct Hst as (HJ & Hr & Hsz & Hm & Hp & Hpb & Hl & Hb & Ha).
  unfold stores, line_set_prefix, stredit_set_prefix, llen in *. cbn -[wrapu Z.pow] in *.
  rewrite Hsz, wrapu_small by (simpl; lia). split_and!; try done; lia.
Qed.

Lemma console_delete_ok cons fr l rl n :
  cons_inv cons fr l rl ->
  exists cons' l', console_delete_at_cursor cons n = Some cons' /\ cons_inv cons' fr l' rl.
Proof.
  intros Hc. unfold console_delete_at_cursor.
  destruct (last_line_ok _ _ _ _ Hc) as [-> Hst]. sbind. pose proof (proj2 Hc) as Hcur.
  pose proof Hst as (_ & _ & _ & _ & _ & Hpb & _).
  destruct (delete_bytes _ _ (cursor cons - n) n Hst)
    as (ed & l' & k & -> & Hst' & Hk & Hm & Hx & Hlen & _). sbind.
  eexists _, l'. split; [done|].
  apply (set_edit_cursor_inv cons fr l rl ed l' (fun c => c - k)); try done. lia.
Qed.

Lemma console_clear_ok cons fr l rl :
  cons_inv cons fr l rl ->
  exists cons' l', console_clear_current_line cons = Some cons' /\ cons_inv cons' fr l' rl.
Proof.
  intros Hc. unfold console_clear_current_line.
  destruct (last_line_ok _ _ _ _ Hc) as [-> Hst]. sbind.
  pose proof Hst as (_ & _ & Hsz & _ & Hp & Hpb & _). rewrite Hsz, Hp.
  destruct (delete_bytes _ _ (l_prefix l) (llen l - l_prefix l) Hst)
    as (ed & l' & k & -> & Hst' & Hk & Hm & Hx & Hlen & Hpre). sbind.
  pose proof Hst' as (_ & _ & _ & _ & Hp' & Hpb' & _). rewrite Hp', Hpre.
  eexists _, l'. split; [done|].
  apply (set_edit_cursor_inv cons fr l rl ed l' (fun _ => l_prefix l)); try done.
  rewrite Hpre in Hpb'. exact Hpb'.
Qed.

Lemma console_write_ok cons fr l rl (s : list Z) n :
  cons_inv cons fr l rl -> 0 <= n <= flen s ->
  exists cons' fr' l' rl', console_write mok cons (Some <$> s) n = Some (true, cons') /\
    cons_inv cons' fr' l' rl'.
Proof.
  intros Hc Hn. unfold console_write. rewrite (proj2 (Z.ltb_ge _ _)) by lia. sbind.
  eapply write_loop_ok; [exact Hc|lia..].
Qed.

Lemma console_create_ok backlog count :
  count < 2 ^ 15 ->
  exists cons, console_create (font := font) mok backlog count = Some (Some cons) /\
    cons_inv cons [] fresh_line 0.
Proof.
  intros Hcount. unfold console_create, linebuf_init.
  rewrite (proj2 (Z.leb_gt _ _)) by lia. rewrite Hmok. cbn [negb].
  change (stredit_init mok stredit_zero 0 0 0) with (Some (true, stredit_zero)). sbind.
  set (buf := Build_linebuf_t _ _ _ _ _ _ _ _ _ _).
  assert (lb_capacity buf = Z.max count 1) as Hcap by (apply wraps_small; simpl in *; lia).
  unfold console_newline. cbn [lines].
  destruct (newline_empty mok Hmok buf) as (b & -> & Hb & _).
  { split; rewrite ?Hcap; try done; cbn -[Z.pow wraps]; rewrite ?length_replicate;
      simpl in *; lia. }
  sbind. destruct (linebuf_clean_backlog_ok _ _ _ _ Hb) as (b' & k & -> & Hb' & _). sbind.
  rewrite drop_nil in Hb'. eexists. split; [done|]. split; [exact Hb'|]. done.
Qed.

(** ** The line returned *)

Fixpoint until_nul (s : list Z) : list Z :=
  match s with [] => [] | c :: s => if c =? 0 then [] else c :: until_nul s end.

Lemma until_nul_all s : Forall (fun c => c <> 0) s -> until_nul s = s.
Proof. induction 1 as [|c s Hc Hs IH]; [done|]. cbn. by rewrite (proj2 (Z.eqb_neq _ _) Hc), IH. Qed.

Lemma cstring_until (t : list Z) J : cstring ((Some <$> t) ++ Some 0 :: J) = Some (until_nul t).
Proof. induction t as [|c t IH]; [done|]. cbn. destruct (c =? 0); [done|]. by rewrite IH. Qed.

(** The text after the prefix, up to a zero byte the program may have written. *)
Lemma console_get_line_ok cons fr l rl :
  cons_inv cons fr l rl ->
  console_get_line cons = Some (until_nul (drop (Z.to_nat (l_prefix l)) (l_text l))).
Proof.
  intros Hc. destruct (last_line_ok _ _ _ _ Hc) as [E Hst]. unfold console_get_line. rewrite E. sbind.
  pose proof Hst as ((J & Hraw & _) & Hr & _ & _ & Hp & Hpb & _). rewrite Hraw, Hr, Hp. sbind.
  rewrite Z2Nat.inj_add by (try apply blen_nonneg; lia).
  unfold blen. rewrite Nat2Z.id, <- drop_drop, drop_app_length.
  rewrite drop_app_le by (rewrite length_fmap; unfold llen in Hpb; lia).
  by rewrite <- fmap_drop, cstring_until.
Qed.

(** * Sessions *)

(** What the shell and the Python program can ask of the console. *)
Inductive action :=
| Write (s : list Z)        (* [console_write(cons, s, length s)] *)
| WriteRaw (s : list Z)
| NewLine
| SetCursor (pos : Z)
| MoveCursor (d : Z)
| LockPrefix
| DeleteAtCursor (n : Z)
| ClearCurrentLine
| ClearRenderFlag.

Definition run_action (a : action) cons : option console_t :=
  match a with
  | Write s => '(_, cons) ← console_write mok cons (Some <$> s) (flen s); Some cons
  | WriteRaw s => '(_, cons) ← console_write_raw mok cons (Some <$> s) (flen s); Some cons
  | NewLine => console_newline mok cons
  | SetCursor pos => '(_, cons) ← console_set_cursor cons pos; Some cons
  | MoveCursor d => '(_, cons) ← console_move_cursor cons d; Some cons
  | LockPrefix => console_lock_prefix cons
  | DeleteAtCursor n => console_delete_at_cursor cons n
  | ClearCurrentLine => console_clear_current_line cons
  | ClearRenderFlag => Some (console_clear_render_flag cons)
  end.

Fixpoint run_actions (acts : list action) cons : option console_t :=
  match acts with
  | [] => Some cons
  | a :: acts => cons ← run_action a cons; run_actions acts cons
  end.

Definition well_formed cons : Prop := exists fr l rl, cons_inv cons fr l rl.

Lemma run_action_ok a cons :
  well_formed cons -> exists cons', run_action a cons = Some cons' /\ well_formed cons'.
Proof.
  intros (fr & l & rl & Hc). destruct a as [s|s| |pos|d| |n| |]; cbn [run_action].
  - destruct (console_write_ok _ _ _ _ s (flen s) Hc) as (c & ? & ? & ? & -> & ?);
      [pose proof (flen_nonneg s); lia|]. sbind. by eexists; split; [|eexists _, _, _].
  - destruct (console_write_raw_ok _ _ _ _ s (flen s) Hc) as (c & ? & ? & ? & -> & ?);
      [pose proof (flen_nonneg s); lia|]. sbind. by eexists; split; [|eexists _, _, _].
  - destruct (console_newline_ok _ _ _ _ Hc) as (c & k & -> & ? & _).
    by eexists; split; [|eexists _, _, _].
  - destruct (console_set_cursor_ok _ _ _ _ pos Hc) as (ok & c & -> & ?). sbind.
    by eexists; split; [|eexists _, _, _].
  - unfold console_move_cursor.
    destruct (console_set_cursor_ok _ _ _ _ (cursor cons + d) Hc) as (ok & c & -> & ?). sbind.
    by eexists; split; [|eexists _, _, _].
  - destruct (console_lock_prefix_ok _ _ _ _ Hc) as (c & -> & ?).
    by eexists; split; [|eexists _, _, _].
  - destruct (console_delete_ok _ _ _ _ n Hc) as (c & l' & -> & ?).
    by eexists; split; [|eexists _, _, _].
  - destruct (console_clear_ok _ _ _ _ Hc) as (c & l' & -> & ?).
    by eexists; split; [|eexists _, _, _].
  - eexists. split; [done|]. exists fr, l, rl. apply set_cursor_inv; [done|]. apply Hc.
Qed.


(** Text that fits in the edited line. *)
Lemma write_raw_fits_line cons fr l rl (s : list Z) :
  cons_inv cons fr l rl -> s <> [] -> llen l + flen s <= l_max l ->
  exists cons' l', console_write_raw mok cons (Some <$> s) (flen s) = Some (true, cons') /\
    line_insert l (cursor cons) s = Some l' /\ cons_inv cons' fr l' rl /\
    cursor cons' = cursor cons + flen s /\ render_needed cons' = true.
Proof.
  intros Hc Hs Hfit. pose proof (core_size _ _ _ _ _ (proj1 Hc)).
  unfold console_write_raw. rewrite (proj2 (Z.eqb_neq _ _)) by lia. sbind.
  assert (0 < flen s) by (unfold flen; destruct s; simpl; [done|lia]).
  destruct (Z.to_nat (2 * flen s + 2)) as [|fuel] eqn:Hfuel; [lia|]. cbn [write_raw_loop].
  rewrite (proj2 (Z.leb_gt _ _)) by lia.
  destruct (last_line_ok _ _ _ _ Hc) as [-> Hst]. sbind. pose proof (proj2 Hc) as Hcur.
  destruct (line_bound _ _ _ _ Hc) as [Hb H1024].
  pose proof Hst as (_ & _ & Hsz & Hm & _). unfold stredit_capacity. rewrite Hsz, Hm.
  rewrite Z.min_l by lia.
  destruct (insert_bytes _ _ (cursor cons) s (flen s) Hst) as
    (ed & l1 & -> & Hins & Hst1 & Hm1 & Hx1 & Hlen1); [lia..|]. sbind. cbn [negb].
  rewrite take_ge in Hins by (unfold flen; lia).
  rewrite Z.ltb_irrefl. sbind. rewrite Z.sub_diag.
  eexists _, l1. split; [destruct fuel; done|]. split; [done|].
  split; [apply (set_edit_cursor_inv cons fr l rl ed l1 (fun c => c + flen s)); try done; lia|].
  split; [|done]. cbn -[wraps].
  rewrite (cursor_wraps _ _ _ _ Hc). apply wraps_small; simpl; lia.
Qed.

(** Text without control characters that fits in the edited line goes in
    at the cursor, which ends after it; no line is added or lost. *)
Theorem console_write_raw_fits cons fr l rl (s : list Z) :
  cons_inv cons fr l rl -> s <> [] -> llen l + flen s <= l_max l ->
  exists cons' l', console_write_raw mok cons (Some <$> s) (flen s) = Some (true, cons') /\
    line_insert l (cursor cons) s = Some l' /\ cons_inv cons' fr l' rl /\
    cursor cons' = cursor cons + flen s /\ render_needed cons' = true.
Proof. apply write_raw_fits_line. Qed.
End props.

(** * Where the console departs from its intent *)

Section examples.
Let mok (n : Z) := true.

Definition session (lines : Z) (acts : list action) : option (@console_t unit) :=
  cons ← console_create mok 0 lines; cons ← cons; run_actions mok acts cons.

Definition edited (cons : @console_t unit) : option (list Z) :=
  ed ← last_line cons; stredit_text ed.

(** Text that does not fit in a line is continued with its own beginning:
    after writing 1024 bytes [a] and then [b], [c], the new line holds [a], [a]. *)
Theorem write_raw_repeats_beginning :
  (cons ← session 4 [WriteRaw (repeat 97 1024 ++ [98; 99])]; edited cons) = Some [97; 97].
Proof. vm_compute. reflexivity. Qed.

(** A backspace character moves the cursor into the locked prefix, although
    the prefix itself is not erased. *)
Theorem backspace_enters_prefix :
  (cons ← session 4 [WriteRaw [62; 62; 62]; LockPrefix; Write [8]];
   ed ← last_line cons; Some (cursor cons, prefix ed)) = Some (2, 3).
Proof. vm_compute. reflexivity. Qed.

(** Once the backlog limit has recycled a line, destroying the console
    frees that line a second time. *)
Theorem destroy_frees_recycled_line :
  exists cons, session 8 [Write (repeat 97 600); NewLine; Write (repeat 98 600); NewLine]
               = Some cons /\
    console_destroy cons = None.
Proof. eexists. split; [vm_compute; reflexivity|vm_compute; reflexivity]. Qed.
End examples.

(** * Witnesses *)

Definition demo_cons : @console_t unit :=
  {| lines := demo_buf; cursor := 1; render_needed := false; render_font := None;
     render_width := 0; render_lines := 0 |}.


Lemma console_write_raw_fits_witness :
  exists cons' l', console_write_raw (fun _ => true) demo_cons [Some 33] 1
    = Some (true, cons') /\ line_insert demo_line 1 [33] = Some l' /\ cursor cons' = 2.
Proof.
  destruct (console_write_raw_fits (fun _ => true) (fun _ => eq_refl) demo_cons
      [{| f_rl := 1; f_text := [65] |}] demo_line 0 [33])
    as (c & l' & H1 & H2 & _ & H3 & _).
  - split; [exact demo_inv|]. vm_compute. split; discriminate.
  - discriminate.
  - vm_compute. discriminate.
  - exists c, l'. split; [exact H1|]. split; [exact H2|exact H3].
Defined.
