(* ===== verification/ConsoleRender.v ===== *)
(** Layout and rendering of the console: how many rows a line takes, what is
    drawn, and why the lazy layout is enough. *)

From Stdlib Require Import ZArith Lia.
From stdpp Require Import base option list numbers sets.
From S2P Require Import Prelude StrEdit Console ConsoleSpec.

(** * Reference layout *)

Section layout.
Context {font : Type} (drsize : font -> list Z -> Z -> nat).

(** A line cut into rows: each row takes what fits. *)
Fixpoint rows_fuel (fuel : nat) (f : font) (w : Z) (t : list Z) : list (list Z) :=
  match fuel, t with
  | S fuel, _ :: _ => take (drsize f t w) t :: rows_fuel fuel f w (drop (drsize f t w) t)
  | _, _ => []
  end.

Definition rows (f : font) (w : Z) (t : list Z) : list (list Z) :=
  rows_fuel (length t) f w t.

(** The number of rows a line is given: an empty line takes one. *)
Definition row_count (f : font) (w : Z) (t : list Z) : Z :=
  Z.max 1 (Z.of_nat (length (rows f w t))).

(** What the code relies on from the library: the empty string takes no
    character, and at least one character fits in the width [w]. *)
Context (f : font) (w : Z)
  (Hdr0 : drsize f [] w = 0%nat)
  (Hdr : forall t, t <> [] -> (1 <= drsize f t w <= length t)%nat).

Lemma rows_fuel_enough n m t :
  (length t <= n)%nat -> (length t <= m)%nat -> rows_fuel n f w t = rows_fuel m f w t.
Proof.
  revert m t. induction n as [|n IH]; intros m t Hn Hm.
  { destruct t; [by destruct m|simpl in Hn; lia]. }
  destruct t as [|c t]; [by destruct m|]. destruct m as [|m]; [simpl in Hm; lia|].
  cbn [rows_fuel]. f_equal. pose proof (Hdr (c :: t) ltac:(done)).
  apply IH; rewrite length_drop; simpl in *; lia.
Qed.

Lemma rows_cons t :
  t <> [] -> rows f w t = take (drsize f t w) t :: rows f w (drop (drsize f t w) t).
Proof.
  intros Ht. pose proof (Hdr t Ht). unfold rows at 1.
  destruct t as [|c t]; [done|]. cbn [rows_fuel length]. f_equal.
  apply rows_fuel_enough; rewrite length_drop; simpl in *; lia.
Qed.

(** The rows of a line, in order, are its text. *)
Lemma rows_concat t : concat (rows f w t) = t.
Proof.
  remember (length t) as n eqn:Hn. revert t Hn.
  induction n as [n IH] using lt_wf_ind. intros t ->.
  destruct (decide (t = [])) as [->|Ht]; [done|]. pose proof (Hdr t Ht).
  rewrite rows_cons by done. cbn [concat]. rewrite (IH (length (drop (drsize f t w) t))).
  - apply take_drop.
  - rewrite length_drop. lia.
  - done.
Qed.

(** * Lines as C strings *)

Lemma cstring_text (t : list Z) J : 0 ∉ t -> cstring ((Some <$> t) ++ Some 0 :: J) = Some t.
Proof.
  induction t as [|c t IH]; intros Hz; [done|]. cbn.
  apply not_elem_of_cons in Hz as [Hc Hz].
  rewrite (proj2 (Z.eqb_neq _ _)) by done. by rewrite IH.
Qed.

Definition raw_line (a b c : cell) (t : list Z) (J : block) : block :=
  a :: b :: c :: (Some <$> t) ++ Some 0 :: J.

Lemma fl_data_line a b c t J p :
  0 ∉ t -> (p <= length t)%nat -> fl_data (raw_line a b c t J) p = Some (drop p t).
Proof.
  intros Hz Hp. unfold fl_data, raw_line.
  change (Z.to_nat CONSOLE_FLINE_SIZE + p)%nat with (S (S (S p))). cbn [drop].
  rewrite drop_app_le by (by rewrite length_fmap). rewrite <- fmap_drop.
  apply cstring_text. intros Hin. apply Hz. by apply (subseteq_drop p t) in Hin.
Qed.

Lemma byte_at_line a b c t J p :
  0 ∉ t -> (p <= length t)%nat ->
  exists x, byte_at (raw_line a b c t J) (Z.to_nat CONSOLE_FLINE_SIZE + p) = Some x /\
    (x = 0 <-> p = length t).
Proof.
  intros Hz Hp. change (Z.to_nat CONSOLE_FLINE_SIZE + p)%nat with (S (S (S p))).
  unfold byte_at. change (raw_line a b c t J !! S (S (S p))) with
    (((Some <$> t) ++ Some 0 :: J) !! p).
  destruct (decide (p = length t)) as [->|Hne].
  - exists 0. rewrite lookup_app_r, length_fmap, Nat.sub_diag by (by rewrite length_fmap). done.
  - destruct (lookup_lt_is_Some_2 t p ltac:(lia)) as [x Hx]. exists x.
    rewrite lookup_app_l, list_lookup_fmap, Hx by (rewrite length_fmap; lia).
    split; [done|]. split; [|lia]. intros ->. by apply list_elem_of_lookup_2 in Hx.
Qed.

(** * Counting the rows *)

Lemma render_lines_loop_count a b c t J fuel p n :
  0 ∉ t -> (p <= length t)%nat -> (length t - p < fuel)%nat -> (p = length t -> p = 0)%nat ->
  render_lines_loop drsize fuel f (raw_line a b c t J) p w n
  = Some (wrapu 8 (n + row_count f w (drop p t))).
Proof.
  intros Hz. revert p n. induction fuel as [|fuel IH]; intros p n Hp Hf Hend; [lia|].
  cbn [render_lines_loop]. rewrite fl_data_line by done. sbind.
  set (r := drop p t). set (k := drsize f r w).
  assert (k <= length r)%nat as Hk.
  { subst k. destruct (decide (r = [])) as [->|Hr]; [by rewrite Hdr0|by apply Hdr]. }
  assert (length r = (length t - p)%nat) as Hr by (subst r; apply length_drop).
  destruct (byte_at_line a b c t J (p + k) Hz ltac:(lia)) as (x & -> & Hx). sbind.
  destruct (Z.eqb_spec x 0) as [E|E].
  - apply Hx in E. f_equal. f_equal. f_equal. unfold row_count.
    destruct (decide (r = [])) as [Er|Er]; [by rewrite Er|].
    rewrite rows_cons by done. fold k. replace (drop k r) with (@nil Z); [done|].
    symmetry. apply nil_length_inv. rewrite length_drop. lia.
  - assert (p + k <> length t)%nat by tauto.
    assert (r <> []) as Er.
    { intros Er. destruct p; [|rewrite Er in Hr; simpl in Hr; lia].
      rewrite Er in *. simpl in *. lia. }
    pose proof (Hdr r Er). fold k in H0.
    rewrite IH by lia. f_equal. rewrite wrapu_add_l. f_equal.
    replace (drop (p + k) t) with (drop k r) by (subst r; apply drop_drop).
    unfold row_count. rewrite (rows_cons r Er). fold k. cbn [length].
    assert (drop k r <> []) as Ed.
    { intros Ed. apply (f_equal length) in Ed. rewrite length_drop in Ed. simpl in Ed. lia. }
    rewrite (rows_cons (drop k r) Ed). cbn [length]. lia.
Qed.

(** * Drawing a line *)

Section drawing.
Context (dnsize : font -> list Z -> Z * Z).

(** The text calls of a frame. *)
Definition texts (ds : list draw) : list (Z * Z * list Z) :=
  omap (fun d => match d with DText x y s => Some (x, y, s) | _ => None end) ds.

(** Rows number [i] and following, each drawn if it is in the window, at
    increasing heights. *)
Fixpoint shown_rows (x y dy from until i : Z) (rs : list (list Z)) : list (Z * Z * list Z) :=
  match rs with
  | [] => []
  | r :: rs =>
      if (from <=? i) && (i <? until)
      then (x, y, r) :: shown_rows x (y + dy) dy from until (i + 1) rs
      else shown_rows x y dy from until (i + 1) rs
  end.

Lemma fline_render_loop_rows a b c t J x dy from until cur fuel y p i :
  0 ∉ t -> (p <= length t)%nat -> (length t - p <= fuel)%nat ->
  exists ds, fline_render_loop drsize dnsize f x w dy (raw_line a b c t J)
      (flen t) from until cur fuel y (Z.of_nat p) i
    = Some (y + dy * Z.of_nat (length (shown_rows x y dy from until i (rows f w (drop p t)))), ds)
    /\ texts ds = shown_rows x y dy from until i (rows f w (drop p t)).
Proof.
  intros Hz. revert y p i. induction fuel as [|fuel IH]; intros y p i Hp Hf;
    cbn [fline_render_loop]; destruct (Z.leb_spec (flen t) (Z.of_nat p)) as [Hle|Hgt];
    unfold flen in *; try lia.
  1, 2: rewrite drop_ge by lia; exists []; split; [f_equal; f_equal; cbn; lia|done].
  unfold fline_render_row. rewrite Nat2Z.id, fl_data_line by done. sbind. rewrite Nat2Z.id.
  set (r := drop p t). assert (r <> []) as Er.
  { intros E. apply (f_equal length) in E. subst r. rewrite length_drop in E. simpl in E. lia. }
  pose proof (Hdr r Er) as Hk. set (k := drsize f r w) in *.
  assert (length r = (length t - p)%nat) as Hr by (subst r; apply length_drop).
  rewrite (rows_cons r Er). fold k. cbn [shown_rows].
  replace (Z.of_nat p + Z.of_nat k) with (Z.of_nat (p + k)) by lia.
  replace (drop k r) with (drop (p + k) t) by (subst r; symmetry; apply drop_drop).
  destruct ((from <=? i) && (i <? until)); sbind.
  - destruct (IH (y + dy) (p + k)%nat (i + 1)) as (ds & -> & Hds); [lia..|]. sbind.
    eexists. split; [f_equal; f_equal; cbn [length]; lia|].
    destruct (_ && _); [destruct (dnsize _ _)|]; unfold texts in *; cbn [omap list_omap app]; by rewrite Hds.
  - destruct (IH y (p + k)%nat (i + 1)) as (ds & -> & Hds); [lia..|]. sbind.
    eexists. split; [done|exact Hds].
Qed.

(** A line is drawn row by row: the text calls are exactly the rows of the
    reference layout that fall in the window, in order and [dy] apart, and the
    loop ends. *)
Theorem console_fline_render_rows a b c t J x dy from until cur y :
  0 ∉ t ->
  exists ds, console_fline_render drsize dnsize f x w dy (raw_line a b c t J)
      (flen t) from until cur y
    = Some (y + dy * Z.of_nat (length (shown_rows x y dy from until 0 (rows f w t))), ds)
    /\ texts ds = shown_rows x y dy from until 0 (rows f w t).
Proof.
  intros Hz. unfold console_fline_render.
  destruct (fline_render_loop_rows a b c t J x dy from until cur
    (Z.to_nat (flen t)) y 0 0 Hz) as (ds & Hrun & Hds); [unfold flen; lia..|].
  change (Z.of_nat 0) with 0 in Hrun. rewrite Hrun. sbind. rewrite drop_0 in *.
  eexists. split; [done|]. destruct (_ && _); [destruct (dnsize f [])|]; exact Hds.
Qed.


Lemma fl_data_nul a b c u v J p :
  0 ∉ u -> (p <= length u)%nat ->
  fl_data (raw_line a b c (u ++ 0 :: v) J) p = Some (drop p u).
Proof.
  intros Hz Hp. rewrite <- (fl_data_line a b c u ((Some <$> v) ++ Some 0 :: J) p Hz Hp).
  unfold raw_line. do 2 f_equal. rewrite fmap_app, fmap_cons, <- app_assoc. done.
Qed.

(** A turn that starts before the NUL is executed and stays before it. *)
Lemma fline_render_row_nul a b c u v J x dy from until cur y p i :
  0 ∉ u -> (p <= length u)%nat ->
  exists y' p' ds, (p' <= length u)%nat /\
    fline_render_row drsize dnsize f x w dy (raw_line a b c (u ++ 0 :: v) J) from until cur y (Z.of_nat p) i =
      Some (y', Z.of_nat p', i + 1, ds).
Proof.
  intros Hz Hp. unfold fline_render_row. rewrite Nat2Z.id, fl_data_nul by done. sbind.
  set (k := drsize f (drop p u) w).
  assert (p + k <= length u)%nat as Hk.
  { subst k. destruct (decide (drop p u = [])) as [->|Hr]; [rewrite Hdr0; lia|].
    pose proof (Hdr _ Hr) as Hk. rewrite length_drop in Hk. lia. }
  replace (Z.of_nat p + Z.of_nat k) with (Z.of_nat (p + k)) by lia.
  destruct (_ && _); eexists _, (p + k)%nat, _; done.
Qed.

Lemma fline_render_turns_nul a b c u v J x dy from until cur n y p i :
  0 ∉ u -> (p <= length u)%nat ->
  exists y' p' i', fline_render_turns drsize dnsize f x w dy (raw_line a b c (u ++ 0 :: v) J)
    (flen (u ++ 0 :: v)) from until cur n y (Z.of_nat p) i = Some (y', Z.of_nat p', i') /\ (p' <= length u)%nat.
Proof.
  intros Hz. revert y p i. induction n as [|n IH]; intros y p i Hp; cbn [fline_render_turns]; [by exists y, p, i|].
  rewrite (proj2 (Z.leb_gt _ _)) by (unfold flen; rewrite length_app; simpl; lia).
  destruct (fline_render_row_nul a b c u v J x dy from until cur y p i Hz Hp) as (y' & p' & ds & Hp' & ->).
  sbind. by apply IH.
Qed.

(** C10: drawing a line whose text holds a NUL byte never ends: however many turns
    of the drawing loop are made, each of them is executed without a fault and
    the condition of the loop holds again after the last, the offset being
    still at most that of the NUL. *)
Theorem fline_render_nul_diverges a b c u v J x dy from until cur y n :
  0 ∉ u ->
  exists y' p' i', fline_render_turns drsize dnsize f x w dy (raw_line a b c (u ++ 0 :: v) J)
    (flen (u ++ 0 :: v)) from until cur n y 0 0 = Some (y', p', i') /\ p' <= flen u < flen (u ++ 0 :: v).
Proof.
  intros Hz. destruct (fline_render_turns_nul a b c u v J x dy from until cur n y 0 0 Hz) as (y' & p' & i' & E & Hp); [lia|].
  exists y', (Z.of_nat p'), i'. split; [exact E|]. unfold flen. rewrite length_app. cbn [length]. lia.
Qed.
End drawing.

(** * Laying out the buffer *)

Definition laid (t : list Z) : Z := wrapu 8 (row_count f w t).
Definition relay (x : fline) : fline := {| f_rl := laid (f_text x); f_text := f_text x |}.

Definition set_meta (l : line) (rl : Z) : line :=
  {| l_meta := match l_meta l with [a; b; _] => [a; b; Some rl] | m => m end;
     l_text := l_text l; l_prefix := l_prefix l; l_max := l_max l |}.

Lemma laid_wrap t : wrapu 8 (laid t) = laid t.
Proof. apply wrapu_small, wrapu_range. lia. Qed.

Lemma update_render_lines_line a b c t J :
  0 ∉ t ->
  console_fline_update_render_lines drsize f (raw_line a b c t J) w
  = Some (raw_line a b (Some (laid t)) t J).
Proof.
  intros Hz. unfold console_fline_update_render_lines.
  rewrite render_lines_loop_count; [|done|lia| |lia].
  - sbind. rewrite drop_0. rewrite Z.add_0_l. fold (laid t).
    unfold fl_set_render_lines. rewrite laid_wrap.
    change (raw_line a b c t J) with ([a; b] ++ c :: (Some <$> t) ++ Some 0 :: J).
    rewrite mem_write_app by (done || blk). done.
  - unfold raw_line. cbn [length]. rewrite length_app, length_fmap. cbn. lia.
Qed.

Lemma fl_render_lines_raw a b n t J : fl_render_lines (raw_line a b (Some n) t J) = Some n.
Proof. done. Qed.

Lemma linebuf_ext b b' :
  lb_lines b = lb_lines b' -> lb_edit b = lb_edit b' -> same_window b b' ->
  lb_total_rendered b = lb_total_rendered b' ->
  lb_total_size_except_last b = lb_total_size_except_last b' -> b = b'.
Proof.
  destruct b, b'; unfold same_window; cbn. intros -> -> (-> & -> & -> & -> & -> & ->) -> ->. done.
Qed.

Lemma sumZ_insert (fr : list fline) k x y :
  fr !! k = Some x -> sumZ (f_rl <$> <[k := y]> fr) = sumZ (f_rl <$> fr) - f_rl x + f_rl y.
Proof.
  revert k. induction fr as [|z fr IH]; intros [|k] H; try done.
  - injection H as ->. cbn. lia.
  - change (<[S k := y]> (z :: fr)) with (z :: <[k := y]> fr).
    rewrite !fmap_cons, !sumZ_cons, (IH k H). lia.
Qed.

(** Laying out a frozen line; nothing changes if it already was. *)
Lemma update_frozen buf fr l rl k x :
  lb_inv buf fr l rl -> fr !! k = Some x -> 0 ∉ f_text x ->
  exists buf', update_render_line drsize f w (lb_absolute buf + Z.of_nat k) buf = Some buf' /\
    lb_inv buf' (<[k := relay x]> fr) l rl /\ same_window buf buf' /\
    (f_rl x = laid (f_text x) -> buf' = buf).
Proof.
  intros Hc Hx Hz. pose proof (core_size _ _ _ _ _ Hc) as Hs.
  pose proof (lookup_lt_Some _ _ _ Hx) as Hlt.
  destruct (lc_frozen _ _ _ _ _ Hc k x ltac:(lia) Hx) as [J HJ].
  destruct (get_frozen _ _ _ _ _ k x Hc ltac:(lia) Hx) as [J' HJ'].
  assert (J' = J) as ->.
  { unfold linebuf_get_nth_line in HJ'. rewrite Hs in HJ'.
    rewrite (proj2 (Z.ltb_ge _ _)), (proj2 (Z.leb_gt _ _)), (proj2 (Z.eqb_neq _ _)) in HJ' by lia.
    cbn in HJ'. erewrite nth_to_index in HJ' by (done || lia). rewrite HJ in HJ'.
    injection HJ' as HJ'. by apply app_inv_head in HJ' as [= ?]. }
  unfold update_render_line. replace (lb_absolute buf + Z.of_nat k - lb_absolute buf)
    with (Z.of_nat k) by lia.
  rewrite HJ'. sbind. rewrite fl_render_lines_block. sbind.
  change (fl_block x J) with (raw_line (Some (flen (f_text x) / 256))
    (Some (flen (f_text x) mod 256)) (Some (f_rl x)) (f_text x) J) in *.
  rewrite update_render_lines_line by done. sbind.
  set (b1 := lb_set_totals _ _ buf). unfold linebuf_put_nth_line.
  change (lb_size b1) with (lb_size buf). rewrite (proj2 (Z.eqb_neq _ _)) by lia.
  change (linebuf_nth_to_index b1) with (linebuf_nth_to_index buf).
  erewrite nth_to_index by (done || lia).
  destruct (lb_set_line_ok b1 (lb_start buf) (Z.of_nat k)
    (PBlock (fl_block (relay x) J))) as (b2 & Hrun & Hl & He & Hw & Hr & Ht);
    [destruct Hc; cbn; lia..|].
  change (lb_capacity b1) with (lb_capacity buf) in *.
  change (lb_lines b1) with (lb_lines buf) in *.
  change (lb_edit b1) with (lb_edit buf) in He.
  unfold fl_block, relay in Hrun. cbn [f_text f_rl] in Hrun.
  unfold raw_line. rewrite Hrun. sbind.
  change (fl_render_lines _) with (Some (laid (f_text x))). sbind.
  set (b3 := lb_set_totals _ _ b2). exists b3.
  assert (same_window buf b3) as Hw3 by (etransitivity; [|exact Hw]; done).
  assert (lb_total_rendered b3 = wraps 16 (lb_total_rendered buf - f_rl x + laid (f_text x))) as Hr3.
  { cbn -[wraps]. rewrite Hr. cbn -[wraps]. by rewrite wraps_add_l by lia. }
  assert (lb_total_size_except_last b3 = lb_total_size_except_last buf) as Ht3 by (cbn; by rewrite Ht).
  split; [done|]. split; [|split; [done|]].
  - destruct Hw3 as (Hwc & Hws & Hwz & _). destruct Hc.
    split; change (lb_lines b3) with (lb_lines b2); change (lb_edit b3) with (lb_edit b2);
      rewrite <- ?Hwc, <- ?Hws, <- ?Hwz, ?He, ?Hl, ?Hr3, ?Ht3, ?length_insert, ?drop_0; try done.
    + intros i y _ Hy. unfold lb_live. change (lb_lines b3) with (lb_lines b2).
      rewrite Hl, <- Hwc, <- Hws. destruct (decide (i = k)) as [->|Hik].
      * rewrite list_lookup_insert_eq in Hy by done. injection Hy as <-.
        exists J. apply live_same; [lia|done].
      * rewrite list_lookup_insert_ne in Hy by done.
        destruct (lc_frozen i y ltac:(lia) Hy) as [J2 HJ2]. exists J2.
        pose proof (lookup_lt_Some _ _ _ Hy). rewrite live_other; [done|lia..].
    + rewrite live_other; [done|lia..].
    + apply Forall_insert; [done|]. by apply (Forall_lookup_1 _ _ _ _ lc_short Hx).
    + rewrite lc_total, drop_0, list_fmap_insert, list_insert_id; [done|].
      by rewrite list_lookup_fmap, Hx.
    + rewrite lc_rendered, drop_0, (sumZ_insert _ _ _ _ Hx). cbn [f_rl relay].
      replace (wraps 16 (sumZ (f_rl <$> fr) + rl) - f_rl x + laid (f_text x))
        with (wraps 16 (sumZ (f_rl <$> fr) + rl) + (laid (f_text x) - f_rl x)) by lia.
      rewrite wraps_add_l by lia. f_equal. lia.
  - intros E. apply linebuf_ext; [|done|by symmetry|..].
    + change (lb_lines b3) with (lb_lines b2). rewrite Hl. apply list_insert_id.
      rewrite HJ. unfold fl_block, relay. cbn. by rewrite E.
    + rewrite Hr3, (lc_rendered _ _ _ _ _ Hc), E.
      rewrite Z.sub_add. by apply wraps_wraps.
    + done.
Qed.

(** Laying out the line being edited. *)
Lemma update_last buf fr l rl :
  lb_inv buf fr l rl -> 0 ∉ l_text l ->
  exists buf', update_render_line drsize f w (lb_absolute buf + Z.of_nat (length fr)) buf
    = Some buf' /\
    lb_inv buf' fr (set_meta l (laid (l_text l))) (laid (l_text l)) /\ same_window buf buf'.
Proof.
  intros Hc Hz. pose proof (core_size _ _ _ _ _ Hc) as Hs.
  destruct (get_last _ _ _ _ _ Hc) as [J HJ].
  pose proof (lc_last _ _ _ _ _ Hc) as [(c0 & c1 & Hmeta) Hmax].
  unfold update_render_line. replace (lb_absolute buf + _ - lb_absolute buf)
    with (Z.of_nat (length fr)) by lia.
  rewrite HJ, Hmeta. sbind.
  change ([c0; c1; Some rl] ++ (Some <$> l_text l) ++ Some 0 :: J)
    with (raw_line c0 c1 (Some rl) (l_text l) J).
  rewrite fl_render_lines_raw. sbind. rewrite update_render_lines_line by done. sbind.
  unfold linebuf_put_nth_line. cbn [lb_size lb_set_totals].
  rewrite (proj2 (Z.eqb_eq _ _)) by lia. sbind. rewrite fl_render_lines_raw. sbind.
  eexists. split; [done|]. split; [|done].
  assert (exists J2, raw (lb_edit buf) = PBlock (l_meta l ++ (Some <$> l_text l) ++ Some 0 :: J2)
     /\ alloc_size (lb_edit buf) = blen (l_meta l) + llen l + 1 + blen J2) as (J2 & HJ2 & Ha2)
    by (destruct (lc_edit _ _ _ _ _ Hc) as ((J2 & ? & ?) & _); by exists J2).
  assert (J2 = J) as ->.
  { unfold linebuf_get_nth_line in HJ. rewrite Hs in HJ.
    rewrite (proj2 (Z.ltb_ge _ _)), (proj2 (Z.leb_gt _ _)), (proj2 (Z.eqb_eq _ _)) in HJ by lia.
    cbn in HJ. rewrite HJ2 in HJ. injection HJ as HJ. do 2 apply app_inv_head in HJ.
    by injection HJ. }
  destruct Hc. split; try done.
  - destruct lc_edit as (_ & Hr & Hsz & Hm & Hp & Hpb & Hl & Hb & Ha).
    unfold stores, set_meta, llen in *. rewrite Hmeta in *. cbn in *.
    split_and!; try done; try apply Hpb. exists J. split; [done|exact Ha2].
  - split; [|exact Hmax]. exists c0, c1. unfold set_meta. by rewrite Hmeta.
  - cbn -[wraps sumZ fmap list_fmap]. rewrite lc_rendered, wraps_sub_l, wraps_add_l by lia.
    f_equal. lia.
Qed.

(** The loop from line [k] on lays out the rest of the buffer. *)
Lemma update_loop n buf fr l rl k :
  lb_inv buf fr l rl -> 0 ∉ l_text l -> Forall (fun x => 0 ∉ f_text x) fr ->
  (k + n = S (length fr))%nat -> (0 < n)%nat ->
  exists buf', update_render_loop drsize n f w (lb_absolute buf + Z.of_nat k) buf = Some buf' /\
    lb_inv buf' (take k fr ++ (relay <$> drop k fr))
      (set_meta l (laid (l_text l))) (laid (l_text l)) /\ same_window buf buf'.
Proof.
  intros Hc Hz Hall. revert buf fr k Hc Hall.
  induction n as [|n IH]; intros buf fr k Hc Hall Hk Hn; [lia|]. cbn [update_render_loop].
  destruct n as [|n].
  { replace k with (length fr) by lia.
    destruct (update_last _ _ _ _ Hc Hz) as (b & -> & Hb & Hw). sbind. cbn.
    exists b. by rewrite take_ge, drop_ge, app_nil_r by lia. }
  destruct (lookup_lt_is_Some_2 fr k ltac:(lia)) as [x Hx].
  destruct (update_frozen _ _ _ _ k x Hc Hx) as (b & -> & Hb & Hw & _);
    [by apply (Forall_lookup_1 _ _ _ _ Hall Hx)|]. sbind.
  pose proof Hw as (_ & _ & _ & Habs & _).
  rewrite Habs. replace (lb_absolute b + Z.of_nat k + 1) with (lb_absolute b + Z.of_nat (S k)) by lia.
  destruct (IH b (<[k := relay x]> fr) (S k) Hb) as (b' & -> & Hb' & Hw').
  { apply Forall_insert; [done|]. by apply (Forall_lookup_1 _ _ _ _ Hall Hx). }
  { rewrite length_insert. lia. } { lia. }
  exists b'. split; [done|]. split; [|by etransitivity].
  rewrite drop_insert_lt in Hb' by lia.
  rewrite (take_S_r _ _ (relay x)) in Hb' by (apply list_lookup_insert_eq; lia).
  rewrite take_insert_ge in Hb' by lia.
  rewrite (drop_S _ _ _ Hx), fmap_cons. by rewrite <- app_assoc in Hb'.
Qed.

(** Laying out a line that already was changes nothing. *)
Lemma update_loop_skip buf fr l rl k n :
  lb_inv buf fr l rl -> Forall (fun x => 0 ∉ f_text x) fr ->
  (forall i x, (i < k)%nat -> fr !! i = Some x -> f_rl x = laid (f_text x)) ->
  (k <= length fr)%nat ->
  update_render_loop drsize (k + n) f w (lb_absolute buf) buf =
  update_render_loop drsize n f w (lb_absolute buf + Z.of_nat k) buf.
Proof.
  intros Hc Hall Hlaid Hk.
  assert (forall d, (d <= k)%nat ->
    update_render_loop drsize (k + n) f w (lb_absolute buf) buf =
    update_render_loop drsize (k - d + n) f w (lb_absolute buf + Z.of_nat d) buf) as Hd.
  { induction d as [|d IH]; intros Hd; [by rewrite Z.add_0_r, Nat.sub_0_r|].
    rewrite IH by lia. replace (k - d + n)%nat with (S (k - S d + n)) by lia.
    cbn [update_render_loop].
    destruct (lookup_lt_is_Some_2 fr d ltac:(lia)) as [x Hx].
    destruct (update_frozen _ _ _ _ d x Hc Hx) as (b & -> & _ & _ & Hid);
      [by apply (Forall_lookup_1 _ _ _ _ Hall Hx)|]. sbind.
    rewrite Hid by (apply (Hlaid d x); [lia|done]). f_equal. lia. }
  rewrite (Hd k) by lia. by rewrite Nat.sub_diag.
Qed.
End layout.

Section update.
Context (fx9860g : bool) {font : Type} (drsize : font -> list Z -> Z -> nat) (f : font) (width : Z).
Let tw := text_w (view_params fx9860g width).
Context (Hdr0 : drsize f [] tw = 0%nat)
  (Hdr : forall t, t <> [] -> (1 <= drsize f t tw <= length t)%nat).

(** A full layout gives every line the number of rows of the reference
    layout (in the byte it has for it), keeps the text, and leaves their sum as
    the total. *)
Theorem linebuf_update_render_full buf fr l rl :
  lb_inv buf fr l rl -> 0 ∉ l_text l -> Forall (fun x => 0 ∉ f_text x) fr ->
  exists buf', linebuf_update_render fx9860g drsize f buf width false = Some buf' /\
    lb_inv buf' (relay drsize f tw <$> fr)
      (set_meta l (laid drsize f tw (l_text l))) (laid drsize f tw (l_text l)) /\
    lb_total_rendered buf' =
      wraps 16 (sumZ ((fun x => laid drsize f tw (f_text x)) <$> fr) + laid drsize f tw (l_text l)).
Proof.
  intros Hc Hz Hall. pose proof (core_size _ _ _ _ _ Hc) as Hs.
  unfold linebuf_update_render, linebuf_start, linebuf_end. fold tw.
  destruct (update_loop drsize f tw Hdr0 Hdr (S (length fr)) buf fr l rl 0 Hc Hz Hall)
    as (b & Hrun & Hb & Hw); [lia..|]. cbn [take drop app] in Hb. rewrite drop_0 in Hb.
  replace (Z.to_nat (lb_absolute buf + lb_size buf - lb_absolute buf)) with (S (length fr)) by lia.
  rewrite Z.add_0_r in Hrun. rewrite Hrun. sbind.
  eexists. split; [done|]. assert (lb_inv (lb_set_absolute_rendered
    (Z.max (lb_absolute_rendered b) (lb_absolute buf + lb_size buf - 2)) b)
    (relay drsize f tw <$> fr) (set_meta l (laid drsize f tw (l_text l)))
    (laid drsize f tw (l_text l))) as Hfin by (destruct Hb; by split).
  split; [exact Hfin|]. rewrite (lc_rendered _ _ _ _ _ Hfin), drop_0, <- list_fmap_compose. done.
Qed.

(** C7: the lazy layout is equal to the full one when the lines up to
    [absolute_rendered] have been laid out for this width and font. *)
Theorem linebuf_update_render_lazy buf fr l rl :
  lb_inv buf fr l rl -> Forall (fun x => 0 ∉ f_text x) fr ->
  lb_absolute_rendered buf <= linebuf_end buf - 2 ->
  (forall i x, fr !! i = Some x -> lb_absolute buf + Z.of_nat i <= lb_absolute_rendered buf ->
    f_rl x = laid drsize f tw (f_text x)) ->
  linebuf_update_render fx9860g drsize f buf width true =
  linebuf_update_render fx9860g drsize f buf width false.
Proof.
  intros Hc Hall Habs Hlaid. pose proof (core_size _ _ _ _ _ Hc) as Hs.
  unfold linebuf_update_render, linebuf_start, linebuf_end in *. fold tw.
  set (k := Z.to_nat (Z.max (lb_absolute buf) (lb_absolute_rendered buf + 1) - lb_absolute buf)).
  pose proof (update_loop_skip drsize f tw Hdr0 Hdr buf fr l rl k (S (length fr) - k) Hc Hall)
    as Hskip.
  replace (Z.to_nat (lb_absolute buf + lb_size buf - lb_absolute buf))
    with (k + (S (length fr) - k))%nat by lia.
  rewrite Hskip; [|intros i x Hi Hx; apply (Hlaid i x Hx); lia|lia].
  do 2 f_equal; lia.
Qed.
End update.

(** * Witnesses: a font six pixels wide *)

Definition demo_drsize (f : unit) (s : list Z) (w : Z) : nat :=
  Nat.min (length s) (Z.to_nat (w / 6)).
Definition demo_dnsize (f : unit) (s : list Z) : Z * Z := (6 * flen s, 8).

Lemma demo_dr0 w : demo_drsize tt [] w = 0%nat.
Proof. reflexivity. Defined.

Lemma demo_dr t : t <> [] -> (1 <= demo_drsize tt t 12 <= length t)%nat.
Proof.
  intros Ht. unfold demo_drsize. change (Z.to_nat (12 / 6)) with 2%nat.
  destruct t; [done|simpl length; lia].
Defined.

Lemma demo_notin : 0 ∉ [65; 66; 67].
Proof. set_solver. Qed.

Lemma console_fline_render_rows_witness :
  exists ds, console_fline_render demo_drsize demo_dnsize tt 0 12 8
      (raw_line None None None [65; 66; 67] []) 3 1 5 (-1) 0 = Some (8, ds) /\
    texts ds = [(0, 0, [67])].
Proof.
  destruct (console_fline_render_rows demo_drsize tt 12 (demo_dr0 12) demo_dr demo_dnsize
    None None None [65; 66; 67] [] 0 8 1 5 (-1) 0 demo_notin) as (ds & H1 & H2).
  exists ds. split; [exact H1|exact H2].
Defined.

Lemma fline_render_nul_diverges_witness :
  exists y' p' i', fline_render_turns demo_drsize demo_dnsize tt 0 12 8
    (raw_line None None None [65; 66; 67; 0; 68] []) 5 0 5 (-1) 1000 0 0 0 = Some (y', p', i') /\ p' <= 3 < 5.
Proof.
  exact (fline_render_nul_diverges demo_drsize tt 12 (demo_dr0 12) demo_dr demo_dnsize
    None None None [65; 66; 67] [68] [] 0 8 0 5 (-1) 0 1000 demo_notin).
Defined.

Lemma demo_text :
  (0 ∉ l_text demo_line) /\ (Forall (fun x => 0 ∉ f_text x) [{| f_rl := 1; f_text := [65] |}]).
Proof. split; [cbn; set_solver|]. repeat constructor. cbn. set_solver. Qed.

Lemma linebuf_update_render_full_witness :
  exists buf', linebuf_update_render false demo_drsize tt demo_buf 16 false = Some buf' /\
    lb_total_rendered buf' = 2.
Proof.
  destruct (linebuf_update_render_full false demo_drsize tt 16 (demo_dr0 _) demo_dr
    demo_buf _ _ _ demo_inv (proj1 demo_text) (proj2 demo_text)) as (buf' & H1 & _ & H2).
  exists buf'. split; [exact H1|exact H2].
Defined.

Lemma linebuf_update_render_lazy_witness :
  linebuf_update_render false demo_drsize tt demo_buf 16 true =
  linebuf_update_render false demo_drsize tt demo_buf 16 false.
Proof.
  apply (linebuf_update_render_lazy false demo_drsize tt 16 (demo_dr0 _) demo_dr
    demo_buf _ _ _ demo_inv (proj2 demo_text)).
  - vm_compute. discriminate.
  - intros [|k] x Hx _; [|discriminate Hx]. injection Hx as <-. reflexivity.
Defined.
