(* ===== verification/Shell.v ===== *)
(** The keyboard side of the shell: [ports/sh/keymap.c], the modifier keys and the
    events of [ports/sh/widget_shell.c] over the console, and the file names of
    [ports/sh/main.c].

    The widget toolkit and the keyboard driver are libraries: the key codes they
    define are the parameters [K], the events the widget emits are collected in
    the order they are emitted. *)

From Stdlib Require Import ZArith Lia Ascii.
From stdpp Require Import base option list numbers.
From S2P Require Import Prelude StrEdit Console.

(** * Definitions *)

(** ** The key map *)

(** The key codes of the keyboard driver. *)
Record key_codes := {
  KEY_SHIFT : Z; KEY_ALPHA : Z; KEY_UP : Z; KEY_DOWN : Z; KEY_LEFT : Z; KEY_RIGHT : Z;
  KEY_ACON : Z; KEY_DEL : Z; KEY_EXE : Z;
  KEY_MUL : Z; KEY_DIV : Z; KEY_ADD : Z; KEY_SUB : Z; KEY_DOT : Z; KEY_0 : Z
}.

Definition ch (a : ascii) : Z := Z.of_nat (nat_of_ascii a).

Definition key_id (keycode : Z) : Z :=
  let col := wrapu 32 (Z.land keycode 0x0f - 1) in
  let row := wrapu 32 (9 - Z.shiftr (Z.land keycode 0xf0) 4) in
  if (col >? 5) || (row >? 8) then -1 else 6 * row + col.

Definition map_flat : list Z :=
  [0; 0; ch "("; ch ")"; ch ","; ch "=";
   ch "7"; ch "8"; ch "9"; 0; 0; 0;
   ch "4"; ch "5"; ch "6"; ch "*"; ch "/"; 0;
   ch "1"; ch "2"; ch "3"; ch "+"; ch "-"; 0;
   ch "0"; ch "."; ch "e"; ch "_"; 0; 0].

Definition map_alpha : list Z :=
  [ch "a"; ch "b"; ch "c"; ch "d"; ch "e"; ch "f";
   ch "g"; ch "h"; ch "i"; ch "j"; ch "k"; ch "l";
   ch "m"; ch "n"; ch "o"; 0; 0; 0;
   ch "p"; ch "q"; ch "r"; ch "s"; ch "t"; 0;
   ch "u"; ch "v"; ch "w"; ch "x"; ch "y"; 0;
   ch "z"; ch " "; 34; ch ":"; 0; 0].

(** The values of an [int]. *)
Definition fits_int (n : Z) : bool := (- 2 ^ 31 <=? n) && (n <? 2 ^ 31).

Section shell.
Context (K : key_codes).

(** [None] reads outside the tables. *)
Definition translate_alpha (id : Z) : option Z :=
  if id <? 18 then Some 0 else map_alpha !! Z.to_nat (id - 18).

Definition translate_shift (key : Z) : Z :=
  if key =? KEY_MUL K then ch "{" else if key =? KEY_DIV K then ch "}"
  else if key =? KEY_ADD K then ch "[" else if key =? KEY_SUB K then ch "]"
  else if key =? KEY_DOT K then ch "=" else if key =? KEY_0 K then ch ":" else 0.

Definition keymap_translate (key : Z) (shift alpha : bool) : option Z :=
  let id := key_id key in
  if id <? 0 then Some 0 else
  match shift, alpha with
  | false, false => if id <? 24 then Some 0 else map_flat !! Z.to_nat (id - 24)
  | true, false => Some (translate_shift key)
  | false, true => translate_alpha id
  | true, true =>
      c ← translate_alpha id;
      Some (if (c >=? ch "a") && (c <=? ch "z") then Z.land c (Z.lnot 0x20) else c)
  end.

(** ** Modifier states *)

Inductive mod_state :=
  | MOD_IDLE | MOD_INSTANT | MOD_INSTANT_USED | MOD_LOCKED | MOD_LOCKED_INSTANT | MOD_LOCKED_INSTANT_USED.

#[export] Instance mod_state_eq_dec : EqDecision mod_state.
Proof. solve_decision. Defined.

Definition mod_down (state : mod_state) : mod_state :=
  match state with MOD_IDLE => MOD_INSTANT | MOD_LOCKED => MOD_LOCKED_INSTANT | _ => state end.

Definition mod_up (state : mod_state) : mod_state :=
  match state with
  | MOD_INSTANT => MOD_LOCKED
  | MOD_INSTANT_USED => MOD_IDLE
  | MOD_LOCKED_INSTANT => MOD_IDLE
  | MOD_LOCKED_INSTANT_USED => MOD_LOCKED
  | _ => state
  end.

Definition mod_down_other (state : mod_state) : mod_state :=
  match state with MOD_INSTANT => MOD_INSTANT_USED | MOD_LOCKED_INSTANT => MOD_LOCKED_INSTANT_USED | _ => state end.

Definition mod_active (state : mod_state) : bool :=
  match state with MOD_LOCKED | MOD_INSTANT | MOD_INSTANT_USED => true | _ => false end.

Definition mod_instant (state : mod_state) : bool :=
  match state with MOD_IDLE | MOD_LOCKED => false | _ => true end.

Definition widget_shell_modifier_info (shift alpha : mod_state) : Z * bool :=
  (Z.b2z (mod_active shift) + 2 * Z.b2z (mod_active alpha), mod_instant shift || mod_instant alpha).

(** ** The widget *)

Inductive shell_event := WIDGET_SHELL_MOD_CHANGED | WIDGET_SHELL_INPUT (line : list Z).

Context (mok : Z -> bool) {font : Type}.

(** [update] is the redraw flag of the widget; [emitted] the events emitted,
    from the first. *)
Record widget_shell := {
  console : @console_t font;
  scroll : Z;
  shift : mod_state;
  alpha : mod_state;
  update : bool;
  emitted : list shell_event
}.

(** An event of the keyboard: the key, and whether it is released. *)
Record key_event_t := { key : Z; keyev_up : bool }.

(** An event of the scene, of the keyboard or of another kind. *)
Inductive jevent := JWIDGET_KEY (ev : key_event_t) | OTHER_EVENT.

Definition widget_shell_create (cons : console_t) : widget_shell :=
  {| console := cons; scroll := 0; shift := MOD_IDLE; alpha := MOD_IDLE; update := false; emitted := [] |}.

Definition set_console (s : widget_shell) (cons : console_t) (update : bool) : widget_shell :=
  {| console := cons; scroll := scroll s; shift := shift s; alpha := alpha s; update := update; emitted := emitted s |}.

(** New states of the modifiers, with the event when one of them changes. *)
Definition set_mods (s : widget_shell) (new_shift new_alpha : mod_state) : widget_shell :=
  {| console := console s; scroll := scroll s; shift := new_shift; alpha := new_alpha; update := update s;
     emitted := emitted s ++
       (if bool_decide (new_shift <> shift s) || bool_decide (new_alpha <> alpha s)
        then [WIDGET_SHELL_MOD_CHANGED] else []) |}.

Definition jwidget_emit (s : widget_shell) (e : shell_event) : widget_shell :=
  {| console := console s; scroll := scroll s; shift := shift s; alpha := alpha s; update := update s;
     emitted := emitted s ++ [e] |}.

Definition widget_shell_update_mod (s : widget_shell) (ev : key_event_t) : widget_shell :=
  let change := if keyev_up ev then mod_up else mod_down in
  if key ev =? KEY_SHIFT K then set_mods s (change (shift s)) (alpha s)
  else set_mods s (shift s) (change (alpha s)).

Definition widget_shell_use_mods (s : widget_shell) : widget_shell :=
  set_mods s (mod_down_other (shift s)) (mod_down_other (alpha s)).

(** [None] is the overflow of a signed integer. *)
Definition set_scroll (s : widget_shell) (d : Z) : option widget_shell :=
  let n := scroll s + d in
  if negb (fits_int n) then None else
  Some {| console := console s; scroll := n; shift := shift s; alpha := alpha s; update := true;
          emitted := emitted s |}.

(** The keys that edit the console, with the modifiers before they are used. *)
Definition edit_key (s : widget_shell) (key : Z) (ev_shift ev_alpha : bool) : option (bool * widget_shell) :=
  let cons := console s in
  if key =? KEY_LEFT K then
    '(moved, cons) ← console_move_cursor cons (-1); Some (true, set_console s cons (update s || moved))
  else if key =? KEY_RIGHT K then
    '(moved, cons) ← console_move_cursor cons 1; Some (true, set_console s cons (update s || moved))
  else if key =? KEY_ACON K then
    cons ← console_clear_current_line cons; Some (true, set_console s cons (update s))
  else if key =? KEY_DEL K then
    cons ← console_delete_at_cursor cons 1; Some (true, set_console s cons (update s))
  else if key =? KEY_EXE K then
    line ← console_get_line cons;
    cons ← console_newline mok cons;
    Some (true, jwidget_emit (set_console s cons (update s)) (WIDGET_SHELL_INPUT line))
  else
    c ← keymap_translate key ev_shift ev_alpha;
    if negb (wrapu 8 c =? 0) then
      '(_, cons) ← console_write_raw mok cons [Some (wrapu 8 c)] 1; Some (true, set_console s cons (update s))
    else Some (false, s).

(** Whether the event is accepted, and the widget after it. *)
Definition widget_shell_poly_event (s : widget_shell) (e : jevent) : option (bool * widget_shell) :=
  match e with
  | OTHER_EVENT => Some (false, s)
  | JWIDGET_KEY ev =>
      if (key ev =? KEY_SHIFT K) || (key ev =? KEY_ALPHA K) then Some (true, widget_shell_update_mod s ev)
      else if negb (keyev_up ev) && (key ev =? KEY_UP K) then s ← set_scroll s 1; Some (true, s)
      else if negb (keyev_up ev) && (key ev =? KEY_DOWN K) then s ← set_scroll s (-1); Some (true, s)
      else if keyev_up ev then Some (false, s)
      else
        let ev_shift := mod_active (shift s) in
        let ev_alpha := mod_active (alpha s) in
        edit_key (widget_shell_use_mods s) (key ev) ev_shift ev_alpha
  end.

(** The events of a session, one after the other. *)
Fixpoint run_events (s : widget_shell) (es : list jevent) : option widget_shell :=
  match es with
  | [] => Some s
  | e :: es => '(_, s) ← widget_shell_poly_event s e; run_events s es
  end.

(** The timer asks for a redraw when the console has changed. *)
Definition widget_shell_timer_handler (s : widget_shell) : widget_shell :=
  set_console s (console s) (update s || render_needed (console s)).
End shell.

Arguments widget_shell : clear implicits.

(** ** File names *)

(** C strings without their zero. *)
Definition suffix_py : list Z := [ch "."; ch "p"; ch "y"].

Definition strendswith (str suffix : list Z) : bool :=
  (length suffix <=? length str)%nat && bool_decide (drop (length str - length suffix) str = suffix).

(** The loop over the characters from the one at [i]; [n] is the length of the
    path. *)
Fixpoint module_loop (n i : nat) (path : list Z) : list Z :=
  match path with
  | [] => []
  | c :: rest =>
      if (n =? i + 3)%nat && bool_decide (path = suffix_py) then []
      else (if c =? ch "/" then ch "." else c) :: module_loop n (S i) rest
  end.

Definition path_to_module (path : list Z) : list Z :=
  let path := match path with c :: rest => if c =? ch "/" then rest else path | [] => path end in
  module_loop (length path) 0 path.
