(* ===== verification/ShellProps.v ===== *)
(** Properties of the keyboard side of the shell: the key map, the modifier keys as
    a lock and a hold, the safety of the console under any sequence of events, and
    the line the shell hands to the interpreter. *)

From Stdlib Require Import ZArith Lia Ascii.
From stdpp Require Import base option list numbers.
From S2P Require Import Prelude StrEdit Console ConsoleSpec ConsoleProps Shell.

(** * Definitions *)

(** A modifier is locked or not, and held or not; while it is held, it is known
    whether another key has been used with it. *)
Record modifier := { locked : bool; held : option bool }.

Inductive mod_input := Press | Release | Use.

#[export] Instance mod_input_eq_dec : EqDecision mod_input.
Proof. solve_decision. Defined.

Definition released : modifier := {| locked := false; held := None |}.

(** A press and a release without a use is a tap, which flips the lock. *)
Definition modifier_step (m : modifier) (i : mod_input) : modifier :=
  match i, held m with
  | Press, None => {| locked := locked m; held := Some false |}
  | Press, Some _ => m
  | Release, None => m
  | Release, Some used => {| locked := if used then locked m else negb (locked m); held := None |}
  | Use, None => m
  | Use, Some _ => {| locked := locked m; held := Some true |}
  end.

Definition modifier_run (l : list mod_input) : modifier := fold_left modifier_step l released.

(** Holding a modifier inverts its lock. *)
Definition active (m : modifier) : bool := xorb (locked m) (bool_decide (is_Some (held m))).

Definition abs_mod (st : mod_state) : modifier :=
  match st with
  | MOD_IDLE => {| locked := false; held := None |}
  | MOD_INSTANT => {| locked := false; held := Some false |}
  | MOD_INSTANT_USED => {| locked := false; held := Some true |}
  | MOD_LOCKED => {| locked := true; held := None |}
  | MOD_LOCKED_INSTANT => {| locked := true; held := Some false |}
  | MOD_LOCKED_INSTANT_USED => {| locked := true; held := Some true |}
  end.

Section inputs.
Context (K : key_codes).

(** What an event is to the modifier [KEY_SHIFT] or, with [shift] false, to
    [KEY_ALPHA]: the keys that scroll use no modifier. *)
Definition input_of (shift : bool) (e : jevent) : list mod_input :=
  match e with
  | OTHER_EVENT => []
  | JWIDGET_KEY ev =>
      if key ev =? KEY_SHIFT K then
        if shift then [if keyev_up ev then Release else Press] else []
      else if key ev =? KEY_ALPHA K then
        if shift then [] else [if keyev_up ev then Release else Press]
      else if keyev_up ev || (key ev =? KEY_UP K) || (key ev =? KEY_DOWN K) then [] else [Use]
  end.

Definition inputs_of (shift : bool) (es : list jevent) : list mod_input := mjoin (input_of shift <$> es).

Definition press (k : Z) : jevent := JWIDGET_KEY {| key := k; keyev_up := false |}.

(** A key that stands for a character. *)
Definition types_char (shift alpha : bool) (k c : Z) : Prop :=
  ~ In k [KEY_SHIFT K; KEY_ALPHA K; KEY_UP K; KEY_DOWN K; KEY_LEFT K; KEY_RIGHT K; KEY_ACON K; KEY_DEL K; KEY_EXE K] /\
  keymap_translate K k shift alpha = Some c /\ c <> 0.

Definition distinct_keys : Prop :=
  ~ In (KEY_EXE K) [KEY_SHIFT K; KEY_ALPHA K; KEY_UP K; KEY_DOWN K; KEY_LEFT K; KEY_RIGHT K; KEY_ACON K; KEY_DEL K].
End inputs.

(** A modifier that is not held. *)
Definition steady (st : mod_state) : Prop := st = MOD_IDLE \/ st = MOD_LOCKED.

(** * The key map *)

Lemma key_id_range k : key_id k = -1 \/ 0 <= key_id k < 54.
Proof.
  unfold key_id. pose proof (wrapu_range 32 (Z.land k 0x0f - 1)). pose proof (wrapu_range 32 (9 - Z.shiftr (Z.land k 0xf0) 4)).
  destruct (_ || _) eqn:E; [by left|right]. apply orb_false_iff in E as [E1 E2]. lia.
Qed.

Definition printable (c : Z) : bool := (c =? 0) || ((32 <=? c) && (c <=? 126)).

Lemma table_char (t : list Z) i : forallb printable t = true -> 0 <= i < Z.of_nat (length t) ->
  exists c, t !! Z.to_nat i = Some c /\ printable c = true.
Proof.
  intros H Hi. destruct (lookup_lt_is_Some_2 t (Z.to_nat i)) as [c Hc]; [lia|]. exists c. split; [done|].
  rewrite forallb_forall in H. apply H. rewrite <- list_elem_of_In. by apply list_elem_of_lookup_2 in Hc.
Qed.

Lemma translate_alpha_char id : 0 <= id < 54 -> exists c, translate_alpha id = Some c /\ printable c = true.
Proof.
  intros H. unfold translate_alpha. destruct (Z.ltb_spec id 18); [by exists 0|].
  apply table_char; [done|]. cbn [length map_alpha]. lia.
Qed.

Lemma translate_shift_char K k : printable (translate_shift K k) = true.
Proof. unfold translate_shift. repeat (destruct (_ =? _)); reflexivity. Qed.

Lemma upper_printable c : printable c = true ->
  printable (if (c >=? ch "a") && (c <=? ch "z") then Z.land c (Z.lnot 0x20) else c) = true.
Proof.
  intros H. destruct (_ && _) eqn:E; [|done]. apply andb_true_iff in E as [E1 E2].
  change (ch "a") with 97 in E1. change (ch "z") with 122 in E2.
  assert (Hall : forallb (fun c => printable (Z.land c (Z.lnot 0x20))) (seqZ 97 26) = true) by reflexivity.
  rewrite forallb_forall in Hall. apply Hall. rewrite <- list_elem_of_In. apply elem_of_seqZ. lia.
Qed.

Lemma keymap_char K k s a : exists c, keymap_translate K k s a = Some c /\ printable c = true.
Proof.
  unfold keymap_translate. destruct (key_id_range k) as [E | Hr]; [rewrite E; by exists 0|].
  rewrite (proj2 (Z.ltb_ge _ _)) by lia. destruct s, a.
  - destruct (translate_alpha_char _ Hr) as (c & -> & Hc). sbind. eexists. split; [done|]. by apply upper_printable.
  - eexists. split; [done|]. apply translate_shift_char.
  - by apply translate_alpha_char.
  - destruct (Z.ltb_spec (key_id k) 24); [by exists 0|]. apply table_char; [done|]. cbn [length map_flat]. lia.
Qed.

Lemma printable_byte c : printable c = true -> wrapu 8 c = c.
Proof. unfold printable. intros. apply wrapu_small. change (2 ^ 8) with 256. lia. Qed.

(** * Modifiers *)

Lemma abs_mod_down st : abs_mod (mod_down st) = modifier_step (abs_mod st) Press.
Proof. by destruct st. Qed.
Lemma abs_mod_up st : abs_mod (mod_up st) = modifier_step (abs_mod st) Release.
Proof. by destruct st. Qed.
Lemma abs_mod_other st : abs_mod (mod_down_other st) = modifier_step (abs_mod st) Use.
Proof. by destruct st. Qed.
Lemma mod_active_abs st : mod_active st = active (abs_mod st).
Proof. by destruct st. Qed.
Lemma mod_instant_abs st : mod_instant st = bool_decide (is_Some (held (abs_mod st))).
Proof. by destruct st. Qed.

Section mods.
Context (K : key_codes) (mok : Z -> bool) {font : Type}.
Implicit Types (s : widget_shell font).

(** The console and its keys leave the modifiers alone. *)
Lemma edit_key_mods s k a b r s' : edit_key K mok s k a b = Some (r, s') -> shift s' = shift s /\ alpha s' = alpha s.
Proof.
  unfold edit_key. intros H. repeat (case_match; simplify_option_eq); by repeat case_match; simplify_eq.
Qed.

Definition mods_match s (i : list mod_input * list mod_input) s' : Prop :=
  abs_mod (shift s') = fold_left modifier_step i.1 (abs_mod (shift s)) /\
  abs_mod (alpha s') = fold_left modifier_step i.2 (abs_mod (alpha s)).

Lemma event_mods s e r s' : KEY_SHIFT K <> KEY_ALPHA K ->
  widget_shell_poly_event K mok s e = Some (r, s') -> mods_match s (input_of K true e, input_of K false e) s'.
Proof.
  intros Hd. unfold widget_shell_poly_event, input_of, mods_match. destruct e as [ev|]; [|by intros [= <- <-]].
  destruct (Z.eqb_spec (key ev) (KEY_SHIFT K)) as [Es|Es]; cbn [orb].
  { intros [= <- <-]. unfold widget_shell_update_mod. rewrite Es, Z.eqb_refl. cbn.
    destruct (keyev_up ev); cbn; rewrite ?abs_mod_up, ?abs_mod_down; done. }
  destruct (Z.eqb_spec (key ev) (KEY_ALPHA K)) as [Ea|Ea].
  { intros [= <- <-]. unfold widget_shell_update_mod. rewrite (proj2 (Z.eqb_neq _ _) Es). cbn.
    destruct (keyev_up ev); cbn; rewrite ?abs_mod_up, ?abs_mod_down; done. }
  destruct (keyev_up ev); cbn [negb andb orb]; [by intros [= <- <-]|].
  destruct (key ev =? KEY_UP K); cbn [orb].
  { intros H. apply bind_Some in H as (s1 & H & [= <- <-]). unfold set_scroll in H. case_match; by simplify_eq. }
  destruct (key ev =? KEY_DOWN K); cbn [orb].
  { intros H. apply bind_Some in H as (s1 & H & [= <- <-]). unfold set_scroll in H. case_match; by simplify_eq. }
  intros [-> ->]%edit_key_mods. cbn. by rewrite !abs_mod_other.
Qed.

Lemma run_events_mods s es s' : KEY_SHIFT K <> KEY_ALPHA K -> run_events K mok s es = Some s' ->
  mods_match s (inputs_of K true es, inputs_of K false es) s'.
Proof.
  intros Hd. revert s. induction es as [|e es IH]; intros s H.
  - injection H as <-. done.
  - cbn [run_events] in H. apply bind_Some in H as ([r s1] & He & H).
    destruct (event_mods _ _ _ _ Hd He) as [H1 H2]. destruct (IH _ H) as [H3 H4]. unfold inputs_of.
    cbn [fst snd] in *. cbn [fmap list_fmap mjoin list_join]. unfold mods_match. cbn [fst snd]. rewrite !fold_left_app, <- H1, <- H2. done.
Qed.

(** A modifier is held when its last event is a press. *)
Lemma held_last (l : list mod_input) :
  is_Some (held (modifier_run l)) <-> list.last (base.filter (fun i => i <> Use) l) = Some Press.
Proof.
  induction l as [|i l IH] using rev_ind; [split; [intros [? [=]]|intros [=]]|].
  unfold modifier_run in *. rewrite fold_left_app, list.filter_app. cbn [fold_left].
  destruct (fold_left modifier_step l released) as [lk [u|]], i; cbn [modifier_step held] in *;
    rewrite ?list.filter_cons, ?list.filter_nil; case_decide; try done; rewrite ?last_snoc, ?app_nil_r, <- ?IH;
    split; intros Hh; try done; try (by destruct Hh as [? [=]]); by exists false || by (exists u).
Qed.
End mods.

(** * Safety *)

Section console.
Context (K : key_codes) (mok : Z -> bool) (Hmok : forall n, mok n = true) {font : Type}.
Implicit Types (s : widget_shell font).

Lemma event_console s e : well_formed (console s) -> fits_int (scroll s - 1) = true -> fits_int (scroll s + 1) = true ->
  exists r s', widget_shell_poly_event K mok s e = Some (r, s') /\ well_formed (console s') /\
    Z.abs (scroll s' - scroll s) <= 1.
Proof.
  intros Hw Hlo Hhi.
  assert (Hsame : forall s', console s' = console s -> scroll s' = scroll s ->
    well_formed (console s') /\ Z.abs (scroll s' - scroll s) <= 1).
  { intros s' -> ->. split; [done|]. lia. }
  unfold widget_shell_poly_event. destruct e as [ev|]; [|eexists _, s; split; [done|]; by apply Hsame].
  destruct (_ || _).
  { eexists _, _. split; [done|]. unfold widget_shell_update_mod. apply Hsame; by case_match. }
  destruct (_ && _); [unfold set_scroll; rewrite Hhi; eexists _, _; split; [done|]; split; [done|]; cbn; lia|].
  destruct (_ && _).
  { unfold set_scroll. replace (scroll s + -1) with (scroll s - 1) by lia. rewrite Hlo.
    eexists _, _; split; [done|]; split; [done|]; cbn; lia. }
  destruct (keyev_up ev); [eexists _, s; split; [done|]; by apply Hsame|].
  assert (Hrun : forall a, exists cons', run_action mok a (console s) = Some cons' /\ well_formed cons')
    by (intros a; by apply run_action_ok).
  unfold edit_key. cbn [widget_shell_use_mods set_mods console].
  destruct (key ev =? KEY_LEFT K).
  { destruct (Hrun (MoveCursor (-1))) as (c & E & Hc). cbn [run_action] in E.
    destruct (console_move_cursor _ _) as [[m c']|]; [|done]. injection E as ->. sbind.
    eexists _, _. split; [done|]. split; [done|]. cbn. lia. }
  destruct (key ev =? KEY_RIGHT K).
  { destruct (Hrun (MoveCursor 1)) as (c & E & Hc). cbn [run_action] in E.
    destruct (console_move_cursor _ _) as [[m c']|]; [|done]. injection E as ->. sbind.
    eexists _, _. split; [done|]. split; [done|]. cbn. lia. }
  destruct (key ev =? KEY_ACON K).
  { destruct (Hrun ClearCurrentLine) as (c & E & Hc). cbn [run_action] in E. rewrite E. sbind.
    eexists _, _. split; [done|]. split; [done|]. cbn. lia. }
  destruct (key ev =? KEY_DEL K).
  { destruct (Hrun (DeleteAtCursor 1)) as (c & E & Hc). cbn [run_action] in E. rewrite E. sbind.
    eexists _, _. split; [done|]. split; [done|]. cbn. lia. }
  destruct (key ev =? KEY_EXE K).
  { destruct Hw as (fr & l & rl & Hcons). rewrite (console_get_line_ok _ _ _ _ Hcons). sbind.
    destruct (Hrun NewLine) as (c & E & Hc). cbn [run_action] in E. rewrite E. sbind.
    eexists _, _. split; [done|]. split; [done|]. cbn. lia. }
  destruct (keymap_char K (key ev) (mod_active (shift s)) (mod_active (alpha s))) as (c & -> & Hp). sbind.
  destruct (negb _); [|eexists _, _; split; [done|]; by apply Hsame].
  destruct (Hrun (WriteRaw [wrapu 8 c])) as (c' & E & Hc). cbn [run_action] in E.
  change (Some <$> [wrapu 8 c]) with [Some (wrapu 8 c)] in E. change (flen [wrapu 8 c]) with 1 in E.
  destruct (console_write_raw _ _ _ _) as [[m c0]|]; [|done]. injection E as ->. sbind.
  eexists _, _. split; [done|]. split; [done|]. cbn. lia.
Qed.

Lemma run_events_console es : forall s, well_formed (console s) ->
  Z.abs (scroll s) + Z.of_nat (length es) < 2 ^ 31 ->
  exists s', run_events K mok s es = Some s' /\ well_formed (console s').
Proof.
  induction es as [|e es IH]; intros s Hw Hs; [by eexists|].
  cbn [run_events length] in *. unfold fits_int in *.
  destruct (event_console s e Hw) as (r & s1 & -> & Hw1 & Hd); [unfold fits_int; lia..|]. sbind.
  apply IH; [done|lia].
Qed.

(** * The line entered *)

(** One more character at the end of the line. *)
Lemma type_key s k c fr l rl : steady (shift s) -> steady (alpha s) ->
  types_char K (mod_active (shift s)) (mod_active (alpha s)) k c ->
  cons_inv (console s) fr l rl -> cursor (console s) = llen l -> llen l + 1 <= l_max l ->
  exists s' l', widget_shell_poly_event K mok s (press k) = Some (true, s') /\
    shift s' = shift s /\ alpha s' = alpha s /\ emitted s' = emitted s /\
    cons_inv (console s') fr l' rl /\ cursor (console s') = llen l' /\
    l_text l' = l_text l ++ [c] /\ l_prefix l' = l_prefix l /\ l_max l' = l_max l.
Proof.
  intros Hs Ha (Hk & Ht & Hc) Hcons Hcur Hmax.
  assert (Hneq : forall k', In k' [KEY_SHIFT K; KEY_ALPHA K; KEY_UP K; KEY_DOWN K; KEY_LEFT K; KEY_RIGHT K;
      KEY_ACON K; KEY_DEL K; KEY_EXE K] -> (k =? k') = false).
  { intros k' Hin. apply Z.eqb_neq. intros ->. done. }
  unfold widget_shell_poly_event, press. cbn [key keyev_up].
  rewrite !Hneq by (cbn; tauto). cbn [negb andb orb]. unfold edit_key. rewrite !Hneq by (cbn; tauto).
  rewrite Ht. sbind. destruct (keymap_char K k (mod_active (shift s)) (mod_active (alpha s))) as (c' & Ht' & Hp).
  rewrite Ht in Ht'. injection Ht' as <-. rewrite (printable_byte c Hp), (proj2 (Z.eqb_neq _ _) Hc). cbn [negb].
  assert (Hu : widget_shell_use_mods s = s).
  { unfold widget_shell_use_mods, set_mods. destruct s as [cn sc sh al up em]. cbn in *.
    destruct Hs as [-> | ->], Ha as [-> | ->]; cbn; by rewrite app_nil_r. }
  rewrite Hu. destruct (write_raw_fits_line mok Hmok (console s) fr l rl [c] Hcons) as (c1 & l1 & E & Hi & Hinv & Hcr & _);
    [done|unfold flen; cbn; lia|].
  change (Some <$> [c]) with [Some c] in E. change (flen [c]) with 1 in *. rewrite E. sbind.
  rewrite line_insert_text in Hi by (unfold llen in *; cbn; lia). injection Hi as <-.
  assert (Hl : take (Z.to_nat (cursor (console s))) (l_text l) ++ [c] ++ drop (Z.to_nat (cursor (console s))) (l_text l) =
               l_text l ++ [c]).
  { rewrite Hcur. unfold llen. rewrite Nat2Z.id, take_ge, drop_ge by lia. done. }
  cbn [app] in Hl. rewrite Hl in Hinv. eexists _, _. split; [done|]. split_and!; try exact Hinv; try done.
  cbn [console set_console]. rewrite Hcr, Hcur. unfold llen. cbn [l_text]. rewrite length_app. cbn. lia.
Qed.

Lemma type_keys ks cs : forall s fr l rl, steady (shift s) -> steady (alpha s) ->
  Forall2 (types_char K (mod_active (shift s)) (mod_active (alpha s))) ks cs ->
  cons_inv (console s) fr l rl -> cursor (console s) = llen l -> llen l + Z.of_nat (length cs) <= l_max l ->
  exists s' l', run_events K mok s (press <$> ks) = Some s' /\
    shift s' = shift s /\ alpha s' = alpha s /\ emitted s' = emitted s /\
    cons_inv (console s') fr l' rl /\ l_text l' = l_text l ++ cs /\ l_prefix l' = l_prefix l.
Proof.
  revert cs. induction ks as [|k ks IH]; intros cs s fr l rl Hs Ha Ht Hc Hcur Hmax.
  - apply Forall2_nil_inv_l in Ht as ->. exists s, l. rewrite app_nil_r. done.
  - apply Forall2_cons_inv_l in Ht as (c & cs' & H1 & H2 & ->). cbn [length] in Hmax.
    destruct (type_key s k c fr l rl) as (s1 & l1 & E & E1 & E2 & E3 & Hc1 & Hcur1 & Ht1 & Hp1 & Hm1); try done; [lia|].
    destruct (IH cs' s1 fr l1 rl) as (s2 & l2 & E' & F1 & F2 & F3 & Hc2 & Ht2 & Hp2); rewrite ?E1, ?E2; try done.
    { rewrite Hm1. unfold llen in *. rewrite Ht1, length_app. cbn. lia. }
    exists s2, l2. cbn [fmap list_fmap run_events]. rewrite E. sbind.
    split_and!; try congruence. rewrite Ht2, Ht1, <- app_assoc. done.
Qed.

Lemma run_events_app es es' s : run_events K mok s (es ++ es') = s ← run_events K mok s es; run_events K mok s es'.
Proof.
  revert s. induction es as [|e es IH]; intros s; [done|]. cbn [app run_events].
  destruct (widget_shell_poly_event K mok s e) as [[r s1]|]; sbind; [apply IH|done].
Qed.

Lemma enter_line s fr l rl : distinct_keys K -> steady (shift s) -> steady (alpha s) ->
  cons_inv (console s) fr l rl ->
  exists s' k, widget_shell_poly_event K mok s (press (KEY_EXE K)) = Some (true, s') /\
    emitted s' = emitted s ++ [WIDGET_SHELL_INPUT (until_nul (drop (Z.to_nat (l_prefix l)) (l_text l)))] /\
    cons_inv (console s') (drop k (fr ++ [{| f_rl := rl; f_text := l_text l |}])) fresh_line 0.
Proof.
  intros Hd Hs Ha Hc.
  assert (Hneq : forall k', In k' [KEY_SHIFT K; KEY_ALPHA K; KEY_UP K; KEY_DOWN K; KEY_LEFT K; KEY_RIGHT K;
      KEY_ACON K; KEY_DEL K] -> (KEY_EXE K =? k') = false).
  { intros k' Hin. apply Z.eqb_neq. intros <-. done. }
  unfold widget_shell_poly_event, press. cbn [key keyev_up].
  rewrite !Hneq by (cbn; tauto). cbn [negb andb orb]. unfold edit_key. rewrite !Hneq by (cbn; tauto).
  rewrite Z.eqb_refl. cbn [widget_shell_use_mods set_mods console].
  rewrite (console_get_line_ok _ _ _ _ Hc). sbind.
  destruct (console_newline_ok mok Hmok _ _ _ _ Hc) as (c & k & -> & Hc' & _). sbind.
  eexists _, k. split; [done|]. cbn. split; [|done].
  destruct Hs as [-> | ->], Ha as [-> | ->]; cbn; by rewrite app_nil_r.
Qed.
End console.

(** * File names *)

Lemma module_loop_length n i path : (length (module_loop n i path) <= length path)%nat.
Proof.
  revert i. induction path as [|c path IH]; intros i; [done|]. cbn [module_loop].
  destruct (_ && _); cbn [length]; [lia|]. specialize (IH (S i)). lia.
Qed.

Definition dotted (path : list Z) : list Z := (fun c => if c =? ch "/" then ch "." else c) <$> path.

Lemma module_loop_suffix path : forall i n, n = (i + length path + 3)%nat ->
  module_loop n i (path ++ suffix_py) = dotted path.
Proof.
  induction path as [|c path IH]; intros i n ->.
  - cbn [app module_loop suffix_py length]. rewrite Nat.add_0_r, Nat.eqb_refl. done.
  - cbn [app module_loop length]. rewrite (proj2 (Nat.eqb_neq _ _)) by lia. cbn [andb].
    rewrite IH by (cbn; lia). done.
Qed.

Lemma module_loop_plain path : forall i n, n = (i + length path)%nat -> strendswith path suffix_py = false ->
  module_loop n i path = dotted path.
Proof.
  induction path as [|c path IH]; intros i n -> He; [done|]. cbn [module_loop].
  assert (Hb : (i + length (c :: path) =? i + 3)%nat && bool_decide (c :: path = suffix_py) = false).
  { apply andb_false_iff. right. apply bool_decide_eq_false_2. intros E. rewrite E in He. done. }
  rewrite Hb. cbn [dotted fmap list_fmap]. f_equal. apply IH; [cbn; lia|].
  unfold strendswith in *. destruct (Nat.leb_spec 3 (length path)) as [Hle|]; [|by rewrite (proj2 (Nat.leb_gt (length suffix_py) (length path))) by (cbn; lia)].
  rewrite !(proj2 (Nat.leb_le _ _)) in * by (cbn in *; lia). cbn [andb] in *.
  replace (length (c :: path) - length suffix_py)%nat with (S (length path - length suffix_py)) in He by (cbn in *; lia).
  done.
Qed.

(** * Properties *)

(** C31: the modifier keys.  After any events the state of a modifier is that of a
    lock and a hold: a press and release with no other key between them flips the
    lock, holding the key inverts it, and the keys that scroll or release do not
    count as uses.  The layer shown is the active modifiers, and the instant mark
    says that the last event of one of them was a press. *)
Theorem shell_modifiers K mok {font} (cons : @console_t font) es s :
  KEY_SHIFT K <> KEY_ALPHA K -> run_events K mok (widget_shell_create cons) es = Some s ->
  let sh := modifier_run (inputs_of K true es) in
  let al := modifier_run (inputs_of K false es) in
  abs_mod (shift s) = sh /\ abs_mod (alpha s) = al /\
  exists instant, widget_shell_modifier_info (shift s) (alpha s) = (Z.b2z (active sh) + 2 * Z.b2z (active al), instant) /\
    (instant = true <->
     list.last (base.filter (fun i => i <> Use) (inputs_of K true es)) = Some Press \/
     list.last (base.filter (fun i => i <> Use) (inputs_of K false es)) = Some Press).
Proof.
  intros Hd H. destruct (run_events_mods K mok _ _ _ Hd H) as [Hs Ha]. cbn [fst snd shift alpha widget_shell_create] in Hs, Ha.
  change (abs_mod MOD_IDLE) with released in Hs, Ha. fold (modifier_run (inputs_of K true es)) in Hs.
  fold (modifier_run (inputs_of K false es)) in Ha. split; [done|]. split; [done|].
  unfold widget_shell_modifier_info. rewrite !mod_active_abs, !mod_instant_abs, Hs, Ha.
  eexists. split; [done|]. rewrite orb_true_iff, !bool_decide_eq_true. by rewrite !held_last.
Qed.


(** The line entered is the line typed: from the end of the prompt, keys that
    stand for characters in the layer that is locked, followed by EXE, hand these
    characters to the interpreter, keep the line with its prompt in the console
    and start a fresh one. *)
Theorem shell_input_line K mok {font} (s : widget_shell font) ks cs fr l rl :
  (forall n, mok n = true) -> distinct_keys K -> steady (shift s) -> steady (alpha s) ->
  cons_inv (console s) fr l rl -> cursor (console s) = llen l -> l_prefix l = llen l ->
  Forall2 (types_char K (mod_active (shift s)) (mod_active (alpha s))) ks cs ->
  llen l + Z.of_nat (length cs) <= l_max l ->
  exists s' k, run_events K mok s ((press <$> ks) ++ [press (KEY_EXE K)]) = Some s' /\
    emitted s' = emitted s ++ [WIDGET_SHELL_INPUT cs] /\
    cons_inv (console s') (drop k (fr ++ [{| f_rl := rl; f_text := l_text l ++ cs |}])) fresh_line 0.
Proof.
  intros Hm Hd Hs Ha Hc Hcur Hp Ht Hmax. rewrite run_events_app.
  destruct (type_keys K mok Hm ks cs s fr l rl) as (s1 & l1 & -> & E1 & E2 & E3 & Hc1 & Htext & Hp1); try done. sbind.
  destruct (enter_line K mok Hm s1 fr l1 rl) as (s2 & k & E & Hem & Hc2); rewrite ?E1, ?E2; try done.
  exists s2, k. cbn [run_events]. rewrite E. sbind. split; [done|]. rewrite Htext in *. split; [|done].
  rewrite Hem, E3, Hp1, Hp. unfold llen. rewrite Nat2Z.id, drop_app_length, until_nul_all; [done|].
  clear -Ht. induction Ht as [|? ? ? ? (_ & _ & Hne)]; by constructor.
Qed.

(** * Witnesses *)

(** The codes of a keyboard whose rows are the rows of the tables. *)
Definition keyboard : key_codes :=
  {| KEY_SHIFT := 0x81; KEY_ALPHA := 0x71; KEY_UP := 0x86; KEY_DOWN := 0x75; KEY_LEFT := 0x85; KEY_RIGHT := 0x76;
     KEY_ACON := 0x07; KEY_DEL := 0x44; KEY_EXE := 0x15;
     KEY_MUL := 0x34; KEY_DIV := 0x35; KEY_ADD := 0x24; KEY_SUB := 0x25; KEY_DOT := 0x12; KEY_0 := 0x11 |}.

Definition always (n : Z) : bool := true.
Definition release (k : Z) : jevent := JWIDGET_KEY {| key := k; keyev_up := true |}.

(** A shifted character, then a lock of the lower case layer. *)
Definition demo_events : list jevent :=
  [press (KEY_SHIFT keyboard); press (KEY_MUL keyboard); release (KEY_SHIFT keyboard);
   press (KEY_ALPHA keyboard); release (KEY_ALPHA keyboard)].

Lemma shell_modifiers_witness :
  match run_events keyboard always (widget_shell_create demo_cons) demo_events with
  | Some s => abs_mod (shift s) = released /\ abs_mod (alpha s) = {| locked := true; held := None |}
  | None => False
  end.
Proof.
  assert (H : is_Some (run_events keyboard always (widget_shell_create demo_cons) demo_events))
    by (vm_compute; eexists; reflexivity).
  destruct (run_events keyboard always (widget_shell_create demo_cons) demo_events) as [s|] eqn:E; [|by destruct H].
  destruct (shell_modifiers keyboard always demo_cons demo_events s) as (Hs & Ha & _); [discriminate|exact E|].
  split; [exact Hs|exact Ha].
Defined.


(** The prompt [hi] and the cursor after it, in the lower case layer. *)
Definition prompt_line : line := line_set_prefix demo_line 2.

Lemma prompt_stores : stores (stredit_set_prefix demo_ed 2) prompt_line.
Proof. split; [by exists [None]|]. split_and!; first [reflexivity|by vm_compute]. Defined.

Definition prompt_shell : widget_shell unit :=
  {| console := cons_set (lb_set_edit (stredit_set_prefix demo_ed 2) demo_buf) 2 false demo_cons;
     scroll := 0; shift := MOD_IDLE; alpha := MOD_LOCKED; update := false; emitted := [] |}.

Lemma prompt_inv : cons_inv (console prompt_shell) [{| f_rl := 1; f_text := [65] |}] prompt_line 0.
Proof.
  apply (set_edit_inv demo_cons _ demo_line); try reflexivity; [|exact prompt_stores|vm_compute; split; discriminate].
  split; [exact demo_inv|]. vm_compute. split; discriminate.
Defined.

Lemma shell_input_line_witness :
  exists s', run_events keyboard always prompt_shell ((press <$> [0x51; 0x52]) ++ [press 0x15]) = Some s' /\
    emitted s' = [WIDGET_SHELL_INPUT [103; 104]].
Proof.
  destruct (shell_input_line keyboard always prompt_shell [0x51; 0x52] [103; 104] [{| f_rl := 1; f_text := [65] |}]
    prompt_line 0 (fun _ => eq_refl)) as (s' & k & H1 & H2 & _).
  - cbn. intros H. repeat destruct H as [H|H]; discriminate || done.
  - by left.
  - by right.
  - exact prompt_inv.
  - reflexivity.
  - reflexivity.
  - repeat constructor; try discriminate; cbn; intros H; repeat destruct H as [H|H]; discriminate || done.
  - vm_compute. discriminate.
  - exists s'. split; [exact H1|exact H2].
Defined.

(** The module imported for a file of the selector: its path without the leading
    slash and the suffix, the other slashes as dots. *)
Lemma path_to_module_py path : head path <> Some (ch "/") ->
  path_to_module (path ++ suffix_py) = dotted path /\ path_to_module (ch "/" :: path ++ suffix_py) = dotted path.
Proof.
  intros Hs. unfold path_to_module. rewrite Z.eqb_refl, length_app. split; [|by apply module_loop_suffix].
  destruct path as [|c path]; [done|]. cbn [app head] in *.
  rewrite (proj2 (Z.eqb_neq c (ch "/"))) by congruence.
  rewrite app_comm_cons, length_app. by apply module_loop_suffix.
Qed.

Lemma path_to_module_other path : head path <> Some (ch "/") -> strendswith path suffix_py = false ->
  path_to_module path = dotted path.
Proof.
  intros Hs He. unfold path_to_module. destruct path as [|c path]; [done|]. cbn [head] in Hs.
  rewrite (proj2 (Z.eqb_neq c (ch "/"))) by congruence. by apply module_loop_plain.
Qed.
