(* ===== verification/Mpn.v ===== *)
(** Natural numbers as lists of digits: the [mpn] functions of [py/mpz.c].

    A number is the list of its digits, least significant first.  The loops read
    every digit before they overwrite the one of the same index (the shift to
    the left goes from the top), so an output array may be an input one.  A
    function that trims its result comes in two parts, so that the number of
    digits written is known to the callers. *)

From Stdlib Require Import ZArith Lia.
From stdpp Require Import base option list numbers.
From S2P Require Import Prelude.

(** * Digits *)

Definition DIG_SIZE : Z := 16.
Definition DIG_BASE : Z := Z.shiftl 1 DIG_SIZE.
Definition DIG_MASK : Z := DIG_BASE - 1.
Definition DIG_MSB : Z := Z.shiftl 1 (DIG_SIZE - 1).

(** [mpz_dig_t], [mpz_dbl_dig_t] and [mpz_dbl_dig_signed_t]. *)
Definition dig_t (x : Z) : Z := wrapu 16 x.
Definition dbl (x : Z) : Z := wrapu 32 x.
Definition sdbl (x : Z) : Z := wraps 32 x.

Abbreviation digits := (list Z).

Definition lo (x : Z) : Z := Z.land x DIG_MASK.
Definition hi (x : Z) : Z := Z.shiftr x DIG_SIZE.

(** * Definitions *)

(** Digits up to the last one that is not zero. *)
Fixpoint mpn_remove_trailing_zeros (i : digits) : digits :=
  match i with
  | [] => []
  | d :: i =>
      match mpn_remove_trailing_zeros i with
      | [] => if d =? 0 then [] else [d]
      | i => d :: i
      end
  end.

(** Digits compared from the top. *)
Fixpoint cmp_rev (i j : digits) : Z :=
  match i, j with
  | a :: i, b :: j =>
      let cmp := sdbl (dbl (a - b)) in
      if cmp <? 0 then -1 else if 0 <? cmp then 1 else cmp_rev i j
  | _, _ => 0
  end.

Definition mpn_cmp (i j : digits) : Z :=
  if (length i <? length j)%nat then -1 else
  if (length j <? length i)%nat then 1 else
  cmp_rev (rev i) (rev j).

(** The digits of [i] from the top, and the bits left in [d]. *)
Fixpoint shl_loop (n_part : Z) (j_rev : digits) (d : Z) (acc : digits) : digits * Z :=
  match j_rev with
  | [] => (acc, d)
  | x :: j_rev =>
      let d := Z.lor d x in
      shl_loop n_part j_rev (dbl (Z.shiftl d DIG_SIZE))
        (lo (Z.shiftr d (DIG_SIZE - n_part)) :: acc)
  end.

Definition mpn_shl_raw (j : digits) (n : Z) : digits :=
  let n_whole := (n + DIG_SIZE - 1) / DIG_SIZE in
  let n_part := n mod DIG_SIZE in
  let n_part := if n_part =? 0 then DIG_SIZE else n_part in
  let '(acc, d) := shl_loop n_part (rev j) 0 [] in
  replicate (Z.to_nat (n_whole - 1)) 0 ++ lo (Z.shiftr d (DIG_SIZE - n_part)) :: acc.

Definition mpn_shl (j : digits) (n : Z) : digits :=
  mpn_remove_trailing_zeros (mpn_shl_raw j n).

Fixpoint shr_loop (n_part : Z) (j : digits) : digits :=
  match j with
  | [] => []
  | x :: j =>
      let d := match j with [] => x | y :: _ => Z.lor x (Z.shiftl y DIG_SIZE) end in
      lo (Z.shiftr d n_part) :: shr_loop n_part j
  end.

(** At most one leading digit is dropped. *)
Definition drop_top_zero (i : digits) : digits :=
  match rev i with
  | 0 :: _ => take (length i - 1) i
  | _ => i
  end.

Definition mpn_shr (j : digits) (n : Z) : digits :=
  let n_whole := n / DIG_SIZE in
  let n_part := n mod DIG_SIZE in
  if Z.of_nat (length j) <=? n_whole then [] else
  drop_top_zero (shr_loop n_part (drop (Z.to_nat n_whole) j)).

(** The two loops of [mpn_add], the second when [k] is exhausted. *)
Fixpoint mpn_add_loop (j k : digits) (carry : Z) : digits :=
  match j, k with
  | x :: j, y :: k =>
      let carry := dbl (carry + dbl (x + y)) in
      lo carry :: mpn_add_loop j k (hi carry)
  | x :: j, [] =>
      let carry := dbl (carry + x) in
      lo carry :: mpn_add_loop j [] (hi carry)
  | [], _ => if carry =? 0 then [] else [dig_t carry]
  end.

Definition mpn_add (j k : digits) : digits := mpn_add_loop j k 0.

Fixpoint mpn_sub_loop (j k : digits) (borrow : Z) : digits :=
  match j, k with
  | x :: j, y :: k =>
      let borrow := sdbl (borrow + dbl (x - y)) in
      lo borrow :: mpn_sub_loop j k (hi borrow)
  | x :: j, [] =>
      let borrow := sdbl (borrow + x) in
      lo borrow :: mpn_sub_loop j [] (hi borrow)
  | [], _ => []
  end.

Definition mpn_sub (j k : digits) : digits :=
  mpn_remove_trailing_zeros (mpn_sub_loop j k 0).

(** [(--klen <= --jlen) ? kdig++ : none], on [size_t] counters: the next digit
    of [k], as long as there is one. *)
Definition next_k (jlen klen : Z) (k : digits) : option Z * digits * Z :=
  let klen := wrapu 32 (klen - 1) in
  if klen <=? jlen - 1 then (head k, tail k, klen) else (None, k, klen).

Definition mask_of (carry : Z) : Z := if carry =? 0 then 0 else DIG_MASK.

Section bitwise.
(** The digit of [j], and that of [k] if any, with the masks or the constant
    added to each. *)
Context (fj : Z -> Z) (fk : option Z -> Z) (op : Z -> Z -> Z).

Fixpoint neg_loop (j k : digits) (klen ci cj ck : Z) : digits :=
  match j with
  | [] => if ci =? 0 then [] else [dig_t ci]
  | x :: j' =>
      let cj := dbl (cj + fj x) in
      let '(y, k, klen) := next_k (Z.of_nat (length j)) klen k in
      let ck := dbl (ck + fk y) in
      let ci := dbl (ci + op cj ck) in
      lo ci :: neg_loop j' k klen (hi ci) (hi cj) (hi ck)
  end.
End bitwise.

Definition mpn_and_neg_raw (j k : digits) (carryi carryj carryk : Z) : digits :=
  let imask := mask_of carryi in
  let jmask := mask_of carryj in
  let kmask := mask_of carryk in
  neg_loop (fun x => Z.lxor x jmask)
    (fun y => match y with Some y => Z.lxor y kmask | None => kmask end)
    (fun a b => lo (Z.lxor (Z.land a b) imask))
    j k (Z.of_nat (length k)) carryi carryj carryk.

Definition mpn_and_neg (j k : digits) (carryi carryj carryk : Z) : digits :=
  mpn_remove_trailing_zeros (mpn_and_neg_raw j k carryi carryj carryk).

(** The variant of the port, with an initial [carryi]. *)
Definition mpn_or_neg_raw (j k : digits) (carryi carryj carryk : Z) : digits :=
  let imask := mask_of carryi in
  let jmask := mask_of carryj in
  let kmask := mask_of carryk in
  neg_loop (fun x => Z.lxor x jmask)
    (fun y => match y with Some y => Z.lxor y kmask | None => kmask end)
    (fun a b => lo (Z.lxor (Z.lor a b) imask))
    j k (Z.of_nat (length k)) carryi carryj carryk.

(** [assert(carryi == 0)]: the loop leaves no carry to store. *)
Definition mpn_or_neg (j k : digits) (carryi carryj carryk : Z) : option digits :=
  let i := mpn_or_neg_raw j k carryi carryj carryk in
  if (length i =? length j)%nat then Some (mpn_remove_trailing_zeros i) else None.

Definition mpn_xor_neg_raw (j k : digits) (carryi carryj carryk : Z) : digits :=
  neg_loop (fun x => x + DIG_MASK)
    (fun y => match y with Some y => y + DIG_MASK | None => DIG_MASK end)
    (fun a b => lo (Z.lxor a b))
    j k (Z.of_nat (length k)) carryi carryj carryk.

Definition mpn_xor_neg (j k : digits) (carryi carryj carryk : Z) : digits :=
  mpn_remove_trailing_zeros (mpn_xor_neg_raw j k carryi carryj carryk).

Fixpoint mpn_mul_dig_add_dig (i : digits) (dmul carry : Z) : digits :=
  match i with
  | [] => if carry =? 0 then [] else [dig_t carry]
  | x :: i =>
      let carry := dbl (carry + dbl (x * dmul)) in
      lo carry :: mpn_mul_dig_add_dig i dmul (hi carry)
  end.

(** One row of [mpn_mul]: the digits written, and the rest of the array; [None]
    when the array is too short. *)
Fixpoint mul_row (i j : digits) (kdig carry : Z) {struct j} : option (digits * digits) :=
  match j with
  | [] =>
      if carry =? 0 then Some ([], i)
      else match i with _ :: i => Some ([dig_t carry], i) | [] => None end
  | x :: j =>
      match i with
      | d :: i =>
          let carry := dbl (carry + dbl (d + dbl (x * kdig))) in
          '(w, i) ← mul_row i j kdig (hi carry);
          Some (lo carry :: w, i)
      | [] => None
      end
  end.

(** The array from [idig] on, and [ilen], when [off] is [idig - oidig]. *)
Fixpoint mul_loop (i j k : digits) (off ilen : nat) : option (digits * nat) :=
  match k with
  | [] => Some (i, ilen)
  | y :: k =>
      '(w, rest) ← mul_row i j y 0;
      let i := w ++ rest in
      '(i', ilen) ← mul_loop (tail i) j k (S off) (off + length w);
      Some (take 1 i ++ i', ilen)
  end.

Definition mpn_mul (i j k : digits) : option digits :=
  '(i, ilen) ← mul_loop i j k 0 0;
  Some (take ilen i).

(** ** Division *)

(** The number of leading zeros of [d]; a digit has at most [DIG_SIZE] - 1 of
    them unless it is zero. *)
Fixpoint norm_shift_loop (fuel : nat) (d norm_shift : Z) : option Z :=
  if Z.land d DIG_MSB =? 0 then
    match fuel with
    | O => None
    | S fuel => norm_shift_loop fuel (dig_t (Z.shiftl d 1)) (dig_t (norm_shift + 1))
    end
  else Some norm_shift.

Fixpoint normalise_num (norm_shift : Z) (num : digits) (carry : Z) : digits :=
  match num with
  | [] => []
  | n :: num =>
      Z.land (Z.lor (Z.shiftl n norm_shift) carry) DIG_MASK ::
      normalise_num norm_shift num (dig_t (Z.shiftr n (DIG_SIZE - norm_shift)))
  end.

(** From the top digit down. *)
Fixpoint unnormalise_num (norm_shift : Z) (num_rev : digits) (carry : Z) (acc : digits) : digits :=
  match num_rev with
  | [] => acc
  | n :: num_rev =>
      unnormalise_num norm_shift num_rev (dig_t (dbl (Z.shiftl n (DIG_SIZE - norm_shift))))
        (Z.land (Z.lor (Z.shiftr n norm_shift) carry) DIG_MASK :: acc)
  end.

Definition next_d_norm (norm_shift d d_norm : Z) : Z :=
  Z.lor (dbl (Z.shiftl d norm_shift)) (Z.shiftr d_norm DIG_SIZE).

(** [num - quo * den] on the digits below the top one. *)
Fixpoint div_sub_loop (norm_shift quo : Z) (n d : digits) (d_norm borrow : Z) : digits * Z :=
  match n, d with
  | n0 :: n, d0 :: d =>
      let d_norm := next_d_norm norm_shift d0 d_norm in
      let x := dbl (quo * lo d_norm) in
      let low_digs := sdbl (lo borrow + n0 - lo x) in
      let borrow := sdbl (hi borrow - hi x + hi low_digs) in
      let '(n, borrow) := div_sub_loop norm_shift quo n d d_norm borrow in
      (lo low_digs :: n, borrow)
  | _, _ => ([], borrow)
  end.

Fixpoint div_add_loop (norm_shift : Z) (n d : digits) (d_norm carry : Z) : digits * Z :=
  match n, d with
  | n0 :: n, d0 :: d =>
      let d_norm := next_d_norm norm_shift d0 d_norm in
      let carry := dbl (carry + (n0 + lo d_norm)) in
      let '(n, c) := div_add_loop norm_shift n d d_norm (hi carry) in
      (lo carry :: n, c)
  | _, _ => ([], carry)
  end.

(** [for (; borrow != 0; --quo)] *)
Fixpoint add_back_loop (fuel : nat) (norm_shift : Z) (n d : digits) (borrow quo : Z)
    : option (digits * Z) :=
  if borrow =? 0 then Some (n, quo) else
  match fuel with
  | O => None
  | S fuel =>
      let '(n, carry) := div_add_loop norm_shift n d 0 0 in
      add_back_loop fuel norm_shift n d (sdbl (borrow + carry)) (dbl (quo - 1))
  end.

(** The divisor is added back at most twice. *)
Definition ADD_BACK_FUEL : nat := 2.

(** One turn of the main loop: the digits of [num] below the top one, and the
    digit of the quotient. *)
Definition div_step (norm_shift lead_den_digit : Z) (num den : digits) : option (digits * Z) :=
  let num_len := length num in
  top ← num !! (num_len - 1)%nat;
  next ← num !! (num_len - 2)%nat;
  let quo := Z.lor (dbl (Z.shiftl top DIG_SIZE)) next / lead_den_digit in
  let low := take (num_len - 1 - length den) num in
  let n := take (length den) (drop (num_len - 1 - length den) num) in
  let '(n, borrow) := div_sub_loop norm_shift quo n den 0 0 in
  '(n, quo) ← add_back_loop ADD_BACK_FUEL norm_shift n den (sdbl (borrow + top)) quo;
  Some (low ++ n, lo quo).

(** [while ( *num_len > den_len)], which lowers [*num_len] by one each time. *)
Fixpoint div_loop (count : nat) (norm_shift lead_den_digit : Z) (num den quo : digits)
    : option (digits * digits) :=
  match count with
  | O => Some (num, quo)
  | S count =>
      '(num, q) ← div_step norm_shift lead_den_digit num den;
      div_loop count norm_shift lead_den_digit num den (q :: quo)
  end.

(** The remainder and the quotient. *)
Definition mpn_div (num den : digits) : option (digits * digits) :=
  let cmp := mpn_cmp num den in
  if cmp =? 0 then Some ([], [1]) else
  if cmp <? 0 then Some (num, []) else
  d ← den !! (length den - 1)%nat;
  norm_shift ← norm_shift_loop 15 d 0;
  let num := normalise_num norm_shift (num ++ [0]) 0 in
  let lead := dbl (Z.shiftl d norm_shift) in
  let lead_den_digit :=
    if (2 <=? length den)%nat then
      Z.lor lead (Z.shiftr (default 0 (den !! (length den - 2)%nat)) (DIG_SIZE - norm_shift))
    else lead in
  '(num, quo) ← div_loop (length num - length den) norm_shift lead_den_digit num den [];
  Some (mpn_remove_trailing_zeros (unnormalise_num norm_shift (rev num) 0 []),
        mpn_remove_trailing_zeros quo).
