(* ===== verification/MpnSpec.v ===== *)
(** The values of digit lists, and the arithmetic of [Mpn] on them: every
    routine computes the number its comment announces, with digits in range and
    no leading zero, and its 32-bit accumulators never overflow. *)

From Stdlib Require Import ZArith Lia.
From stdpp Require Import base option list numbers.
From S2P Require Import Prelude Mpn.

Abbreviation B := 65536.

(** * Digits and values *)

Definition digit (d : Z) : Prop := 0 <= d < B.
Definition digs (l : digits) : Prop := Forall digit l.

Fixpoint val (l : digits) : Z :=
  match l with [] => 0 | d :: l => d + B * val l end.

(** No leading zero. *)
Definition normal (l : digits) : Prop := list.last l <> Some 0.

(** The weight of digit [n]. *)
Definition Bn (n : nat) : Z := B ^ Z.of_nat n.

Lemma Bn_0 : Bn 0 = 1.
Proof. reflexivity. Qed.

Lemma Bn_S n : Bn (S n) = B * Bn n.
Proof. unfold Bn. rewrite Nat2Z.inj_succ, Z.pow_succ_r by lia. done. Qed.

Lemma Bn_add n m : Bn (n + m) = Bn n * Bn m.
Proof. unfold Bn. rewrite Nat2Z.inj_add, Z.pow_add_r by lia. done. Qed.

Lemma Bn_pos n : 0 < Bn n.
Proof. unfold Bn. apply Z.pow_pos_nonneg; lia. Qed.

Lemma Bn_pow2 n : Bn n = 2 ^ (16 * Z.of_nat n).
Proof. unfold Bn. rewrite Z.pow_mul_r by lia. done. Qed.

#[export] Hint Resolve Bn_pos : core.

Create Rewrite HintDb val.
#[export] Hint Rewrite Bn_0 Bn_S Bn_add @length_app @length_rev @length_replicate : val.

(** Arithmetic with quotients and remainders by a constant. *)
Ltac dlia := Z.to_euclidean_division_equations; lia.

Lemma lo_spec x : lo x = x mod B.
Proof. unfold lo. change DIG_MASK with (Z.ones 16). by rewrite Z.land_ones. Qed.

Lemma hi_spec x : hi x = x / B.
Proof. unfold hi. change DIG_SIZE with 16. by rewrite Z.shiftr_div_pow2. Qed.

Lemma lo_digit x : digit (lo x).
Proof. rewrite lo_spec. apply Z.mod_pos_bound. lia. Qed.

Lemma lo_hi x : lo x + B * hi x = x.
Proof. rewrite lo_spec, hi_spec. dlia. Qed.

Lemma hi_range x a b : B * a <= x < B * b -> a <= hi x < b.
Proof. rewrite hi_spec. dlia. Qed.

Lemma dbl_small x : 0 <= x < 4294967296 -> dbl x = x.
Proof. intros. by apply wrapu_small. Qed.

Lemma sdbl_small x : -2147483648 <= x < 2147483648 -> sdbl x = x.
Proof. intros. apply wraps_small; cbn; lia. Qed.

Lemma sdbl_dbl x : sdbl (dbl x) = sdbl x.
Proof. unfold sdbl, dbl, wraps, wrapu. by rewrite Zplus_mod_idemp_l. Qed.

Lemma dig_t_small x : digit x -> dig_t x = x.
Proof. intros. by apply wrapu_small. Qed.

#[export] Hint Rewrite dbl_small sdbl_small dig_t_small using (unfold digit in *; lia) : val.
#[export] Hint Resolve lo_digit : core.

Lemma digs_nil : digs [].
Proof. constructor. Qed.

Lemma digs_cons d l : digs (d :: l) <-> digit d /\ digs l.
Proof. unfold digs. by rewrite Forall_cons_iff. Qed.

Lemma digs_app k l : digs (k ++ l) <-> digs k /\ digs l.
Proof. apply Forall_app. Qed.

Lemma digs_zeros n : digs (replicate n 0).
Proof. apply Forall_replicate. unfold digit; lia. Qed.

Lemma digs_rev l : digs l -> digs (rev l).
Proof. apply List.Forall_rev. Qed.

Lemma digs_take n l : digs l -> digs (take n l).
Proof. apply Forall_take. Qed.

Lemma digs_drop n l : digs l -> digs (drop n l).
Proof. apply Forall_drop. Qed.

#[export] Hint Resolve digs_nil digs_zeros digs_rev digs_take digs_drop : core.

Lemma val_app k l : val (k ++ l) = val k + Bn (length k) * val l.
Proof.
  induction k as [|d k IH]; cbn [app val length]; rewrite ?Bn_S, ?Bn_0; [lia|].
  rewrite IH. ring.
Qed.

Lemma val_zeros n : val (replicate n 0) = 0.
Proof. induction n; cbn [replicate val]; lia. Qed.

Lemma val_bound l : digs l -> 0 <= val l < Bn (length l).
Proof.
  induction 1 as [|d l Hd Hl IH]; cbn [val length]; rewrite ?Bn_S, ?Bn_0; [lia|].
  unfold digit in Hd. lia.
Qed.

Lemma val_nonneg l : digs l -> 0 <= val l.
Proof. intros. by apply val_bound. Qed.

Lemma digs_val_inj k l : digs k -> digs l -> length k = length l -> val k = val l -> k = l.
Proof.
  intros Hk. revert l. induction Hk as [|d k Hd Hk IH]; intros [|e l] Hl Hlen E; try done.
  cbn [val] in E. apply digs_cons in Hl as [He Hl]. unfold digit in *.
  assert (d = e) by lia. subst. f_equal. apply IH; [done| |lia].
  cbn in Hlen. lia.
Qed.

(** * Leading zeros *)

Lemma normal_nil : normal [].
Proof. done. Qed.

Lemma normal_snoc l d : normal (l ++ [d]) <-> d <> 0.
Proof. unfold normal. rewrite last_snoc. split; congruence. Qed.

Lemma normal_cons d l : l <> [] -> normal (d :: l) <-> normal l.
Proof. destruct l; [done|]. intros. unfold normal. done. Qed.

(** A normal number with [n] digits is at least B^(n-1). *)
Lemma normal_bound l : digs l -> l <> [] -> normal l -> Bn (length l - 1) <= val l.
Proof.
  destruct l as [|d l _] using rev_ind; [done|]. intros Hl _ Hn.
  apply normal_snoc in Hn. apply digs_app in Hl as [Hl Hd].
  apply digs_cons in Hd as [Hd _]. unfold digit in Hd.
  rewrite val_app, length_app. cbn [length val].
  replace (length l + 1 - 1)%nat with (length l) by lia.
  pose proof (val_nonneg _ Hl). pose proof (Bn_pos (length l)). nia.
Qed.

Lemma normal_of_bound l : digs l -> (l <> [] -> Bn (length l - 1) <= val l) -> normal l.
Proof.
  destruct l as [|d l _] using rev_ind; [done|]. intros Hl Hb.
  specialize (Hb ltac:(by destruct l)). apply digs_app in Hl as [Hl _]. apply normal_snoc. intros ->.
  rewrite val_app, length_app in Hb. cbn [length val] in Hb.
  replace (length l + 1 - 1)%nat with (length l) in Hb by lia.
  pose proof (val_bound _ Hl). lia.
Qed.

Lemma normal_val_pos l : digs l -> normal l -> l <> [] -> 0 < val l.
Proof. intros. pose proof (normal_bound l). pose proof (Bn_pos (length l - 1)). naive_solver lia. Qed.

Lemma normal_val_0 l : digs l -> normal l -> val l = 0 <-> l = [].
Proof.
  intros Hd Hn. split; [|by intros ->]. intros E. destruct l; [done|].
  pose proof (normal_val_pos _ Hd Hn ltac:(done)). lia.
Qed.

Lemma Bn_le n m : (n <= m)%nat -> Bn n <= Bn m.
Proof. intros. unfold Bn. apply Z.pow_le_mono_r; lia. Qed.

(** More digits, larger number. *)
Lemma normal_length_lt k l :
  digs k -> digs l -> normal l -> (length k < length l)%nat -> val k < val l.
Proof.
  intros Hk Hl Hn Hlen. pose proof (val_bound _ Hk).
  assert (l <> []) by (intros ->; cbn in Hlen; lia).
  pose proof (normal_bound l Hl ltac:(done) Hn).
  pose proof (Bn_le (length k) (length l - 1) ltac:(lia)). lia.
Qed.

Lemma normal_val_inj k l : digs k -> normal k -> digs l -> normal l -> val k = val l -> k = l.
Proof.
  intros Hk Nk Hl Nl E. apply digs_val_inj; try done.
  destruct (Nat.lt_trichotomy (length k) (length l)) as [H|[H|H]]; [|done|].
  - pose proof (normal_length_lt k l Hk Hl Nl H). lia.
  - pose proof (normal_length_lt l k Hl Hk Nk H). lia.
Qed.

Lemma remove_trailing_zeros_spec l :
  digs l -> let r := mpn_remove_trailing_zeros l in
  digs r /\ normal r /\ val r = val l /\ (length r <= length l)%nat.
Proof.
  cbn zeta. induction 1 as [|d l Hd Hl (IH1 & IH2 & IH3 & IH4)]; [done|].
  cbn [mpn_remove_trailing_zeros val length]. rewrite <- IH3.
  destruct (mpn_remove_trailing_zeros l) as [|e r] eqn:E.
  - destruct (d =? 0) eqn:Ed; cbn [val length].
    + split_and!; try done; lia.
    + split_and!; [by apply digs_cons|unfold normal; cbn; intros [= ->]; done| |]; lia.
  - rewrite normal_cons by done. split_and!; [by apply digs_cons|done| |]; cbn [val length] in *; lia.
Qed.

(** ** The result of a routine: a normal number with a given value *)

Definition num (v : Z) (l : digits) : Prop := digs l /\ normal l /\ val l = v.

Lemma num_trim v l : digs l -> val l = v -> num v (mpn_remove_trailing_zeros l).
Proof. intros Hl E. destruct (remove_trailing_zeros_spec l Hl) as (?&?&?&?). split_and!; try done. lia. Qed.

Lemma num_nil : num 0 [].
Proof. done. Qed.

Lemma num_digit d : 0 < d < B -> num d [d].
Proof.
  intros. split_and!; [apply digs_cons; split; [unfold digit; lia|auto]| |cbn; lia].
  apply (normal_snoc []). lia.
Qed.

Lemma num_inj v k l : num v k -> num v l -> k = l.
Proof. intros (?&?&?) (?&?&?). apply normal_val_inj; congruence. Qed.

Lemma num_nonneg v l : num v l -> 0 <= v.
Proof. intros (? & _ & <-). by apply val_nonneg. Qed.

Lemma num_val l : digs l -> normal l -> num (val l) l.
Proof. done. Qed.

Lemma num_0 l : num 0 l <-> l = [].
Proof.
  split; [|intros ->; apply num_nil]. intros (Hd & Hn & E). by apply normal_val_0.
Qed.

(** * Comparison *)

Lemma cmp_rev_spec i j :
  digs i -> digs j -> length i = length j ->
  cmp_rev i j = match Z.compare (val (rev i)) (val (rev j)) with Lt => -1 | Gt => 1 | Eq => 0 end.
Proof.
  intros Hi. revert j. induction Hi as [|a i Ha Hi IH]; intros [|b j] Hj Hlen; try done.
  apply digs_cons in Hj as [Hb Hj]. cbn [cmp_rev rev length] in *.
  unfold digit in *. rewrite sdbl_dbl, sdbl_small by lia.
  rewrite !val_app, !length_rev. cbn [val].
  injection Hlen as Hlen. rewrite Hlen, IH by done.
  pose proof (val_bound (rev i) ltac:(auto)) as Bi.
  pose proof (val_bound (rev j) ltac:(auto)) as Bj.
  rewrite length_rev in Bi, Bj. rewrite Hlen in Bi. pose proof (Bn_pos (length j)).
  destruct (Z.ltb_spec (a - b) 0); [|destruct (Z.ltb_spec 0 (a - b))].
  - assert (val (rev i) + Bn (length j) * (a + B * 0) < val (rev j) + Bn (length j) * (b + B * 0)) as L by nia.
    by apply Z.compare_lt_iff in L as ->.
  - assert (val (rev j) + Bn (length j) * (b + B * 0) < val (rev i) + Bn (length j) * (a + B * 0)) as L by nia.
    by apply Z.compare_gt_iff in L as ->.
  - assert (a = b) as -> by lia. by rewrite !(Z.add_comm _ (Bn _ * _)), Z.add_compare_mono_l.
Qed.

Lemma mpn_cmp_spec i j :
  digs i -> digs j -> normal i -> normal j ->
  mpn_cmp i j = match Z.compare (val i) (val j) with Lt => -1 | Gt => 1 | Eq => 0 end.
Proof.
  intros Hi Hj Ni Nj. unfold mpn_cmp.
  destruct (Nat.ltb_spec (length i) (length j)) as [L|L].
  { pose proof (normal_length_lt i j Hi Hj Nj L) as C. by apply Z.compare_lt_iff in C as ->. }
  destruct (Nat.ltb_spec (length j) (length i)) as [L'|L'].
  { pose proof (normal_length_lt j i Hj Hi Ni L') as C. by apply Z.compare_gt_iff in C as ->. }
  rewrite cmp_rev_spec by (rewrite ?length_rev; auto; lia). by rewrite !rev_involutive.
Qed.

(** * Addition and subtraction *)

Lemma mpn_add_loop_spec j k c :
  digs j -> digs k -> (length k <= length j)%nat -> 0 <= c <= 1 ->
  let r := mpn_add_loop j k c in
  digs r /\ val r = val j + val k + c /\
  (length r = length j \/ length r = S (length j) /\ Bn (length j) <= val r).
Proof.
  cbn zeta. intros Hj. revert k c. induction Hj as [|x j Hx Hj IH]; intros k c Hk Hlen Hc.
  { destruct k; [|cbn in Hlen; lia]. cbn [mpn_add_loop val length].
    destruct (Z.eqb_spec c 0) as [->|Hn].
    - split_and!; [auto|cbn;lia|by left].
    - rewrite dig_t_small by (unfold digit; lia).
      split_and!; [apply digs_cons; split; [unfold digit; lia|auto]| |right; split; [done|]]; cbn [val length]; rewrite ?Bn_0; lia. }
  assert (exists y k', digs k' /\ digit y /\ (length k' <= length j)%nat /\
    val k = y + B * val k' /\
    mpn_add_loop (x :: j) k c = lo (c + (x + y)) :: mpn_add_loop j k' (hi (c + (x + y))))
    as (y & k' & Hk' & Hy & Hl & -> & ->).
  { unfold digit in Hx. destruct k as [|y k].
    - exists 0, []. cbn [mpn_add_loop val length].
      rewrite dbl_small, (Z.add_0_r x) by lia.
      split_and!; try done; unfold digit; cbn; lia.
    - apply digs_cons in Hk as [Hy Hk]. exists y, k. unfold digit in Hy. cbn [mpn_add_loop val length] in *.
      rewrite (dbl_small (x + y)) by lia. rewrite dbl_small by lia.
      split_and!; try done; unfold digit; cbn; lia. }
  unfold digit in *. pose proof (lo_hi (c + (x + y))).
  destruct (IH k' (hi (c + (x + y))) Hk' Hl) as (H1 & H2 & H3).
  { pose proof (hi_range (c + (x + y)) 0 2). lia. }
  split_and!; cbn [val length].
  - apply digs_cons. auto.
  - rewrite H2. lia.
  - destruct H3 as [->|[-> H3]]; [by left|right]. rewrite Bn_S. split; [done|].
    pose proof (lo_digit (c + (x + y))). unfold digit in *. lia.
Qed.

Lemma mpn_add_spec j k :
  digs j -> normal j -> digs k -> (length k <= length j)%nat ->
  num (val j + val k) (mpn_add j k) /\ (length (mpn_add j k) <= S (length j))%nat.
Proof.
  intros Hj Nj Hk Hlen. destruct (mpn_add_loop_spec j k 0 Hj Hk Hlen ltac:(lia)) as (H1 & H2 & H3).
  fold (mpn_add j k) in *. split_and!; [|destruct H3; lia]. split_and!; [done| |lia].
  apply normal_of_bound; [done|]. intros Hr. destruct H3 as [E|[E H3]]; rewrite E.
  - assert (j <> []) as Hn by (intros ->; by destruct (mpn_add [] k)).
    pose proof (normal_bound j Hj Hn Nj). pose proof (val_nonneg k Hk). lia.
  - by rewrite Nat.sub_succ, Nat.sub_0_r.
Qed.

Lemma sdbl_add_dbl b x : sdbl (b + dbl x) = sdbl (b + x).
Proof. unfold sdbl, dbl, wraps, wrapu. f_equal. rewrite <- !Z.add_assoc, !(Z.add_comm b), <- !Z.add_assoc.
  by rewrite Zplus_mod_idemp_l. Qed.

Lemma mpn_sub_loop_spec j k b :
  digs j -> digs k -> (length k <= length j)%nat -> -1 <= b <= 0 ->
  let r := mpn_sub_loop j k b in
  digs r /\ length r = length j /\
  exists c, -1 <= c <= 0 /\ val r + Bn (length j) * c = val j - val k + b.
Proof.
  cbn zeta. intros Hj. revert k b. induction Hj as [|x j Hx Hj IH]; intros k b Hk Hlen Hb.
  { destruct k; [|cbn in Hlen; lia]. cbn [mpn_sub_loop val length].
    split_and!; [auto..|]. exists b. rewrite Bn_0. lia. }
  assert (exists y k', digs k' /\ digit y /\ (length k' <= length j)%nat /\
    val k = y + B * val k' /\
    mpn_sub_loop (x :: j) k b = lo (b + (x - y)) :: mpn_sub_loop j k' (hi (b + (x - y))))
    as (y & k' & Hk' & Hy & Hl & -> & ->).
  { unfold digit in Hx. destruct k as [|y k].
    - exists 0, []. cbn [mpn_sub_loop val length].
      rewrite sdbl_small, (Z.sub_0_r x) by lia.
      split_and!; try done; unfold digit; cbn; lia.
    - apply digs_cons in Hk as [Hy Hk]. exists y, k. unfold digit in Hy. cbn [mpn_sub_loop val length] in *.
      rewrite sdbl_add_dbl, sdbl_small by lia.
      split_and!; try done; unfold digit; cbn; lia. }
  unfold digit in *. pose proof (lo_hi (b + (x - y))).
  destruct (IH k' (hi (b + (x - y))) Hk' Hl) as (H1 & H2 & c & H3 & H4).
  { pose proof (hi_range (b + (x - y)) (-1) 1). lia. }
  split_and!; cbn [val length].
  - apply digs_cons. auto.
  - lia.
  - exists c. rewrite Bn_S. lia.
Qed.

Lemma mpn_sub_spec j k :
  digs j -> digs k -> (length k <= length j)%nat -> val k <= val j ->
  num (val j - val k) (mpn_sub j k) /\ (length (mpn_sub j k) <= length j)%nat.
Proof.
  intros Hj Hk Hlen Hle.
  destruct (mpn_sub_loop_spec j k 0 Hj Hk Hlen ltac:(lia)) as (H1 & H2 & c & H3 & H4).
  pose proof (val_bound _ H1) as Hb. rewrite H2 in Hb. pose proof (Bn_pos (length j)).
  assert (c = 0) as -> by nia. unfold mpn_sub. split; [apply num_trim; [done|lia]|].
  pose proof (remove_trailing_zeros_spec _ H1). naive_solver lia.
Qed.

Lemma length_mpn_sub_loop j k b : length (mpn_sub_loop j k b) = length j.
Proof.
  revert k b. induction j as [|x j IH]; intros [|y k] b; cbn [mpn_sub_loop length]; auto.
Qed.

(** * Multiplication by a digit *)

Lemma mpn_mul_dig_add_dig_spec' i dmul c :
  digs i -> digit dmul -> digit c ->
  let r := mpn_mul_dig_add_dig i dmul c in
  digs r /\ val r = val i * dmul + c /\
  (length r = length i \/ length r = S (length i) /\ Bn (length i) <= val r).
Proof.
  cbn zeta. intros Hi Hm. revert c. induction Hi as [|x i Hx Hi IH]; intros c Hc; cbn [mpn_mul_dig_add_dig val length].
  { destruct (Z.eqb_spec c 0) as [->|Hn].
    - split_and!; [auto|done|by left].
    - rewrite dig_t_small by done. unfold digit in Hc.
      split_and!; [by apply digs_cons|cbn; lia|right; split; [done|]]. cbn [val length]. rewrite Bn_0. lia. }
  unfold digit in *.
  assert (0 <= x * dmul <= 65535 * 65535) by nia.
  rewrite (dbl_small (x * dmul)), dbl_small by lia.
  pose proof (lo_hi (c + x * dmul)).
  destruct (IH (hi (c + x * dmul))) as (H1 & H2 & H3).
  { pose proof (hi_range (c + x * dmul) 0 B). lia. }
  split_and!.
  - apply digs_cons. auto.
  - cbn [val]. rewrite H2. lia.
  - cbn [length val]. destruct H3 as [->|[-> H3]]; [by left|right]. rewrite Bn_S. split; [done|].
    pose proof (lo_digit (c + x * dmul)). unfold digit in *. lia.
Qed.

Lemma mpn_mul_dig_add_dig_spec i dmul c :
  digs i -> normal i -> digit dmul -> 0 < dmul -> digit c ->
  num (val i * dmul + c) (mpn_mul_dig_add_dig i dmul c).
Proof.
  intros Hi Ni Hm Hpos Hc.
  destruct (mpn_mul_dig_add_dig_spec' i dmul c Hi Hm Hc) as (H1 & H2 & H3).
  split_and!; [done| |done]. apply normal_of_bound; [done|]. intros Hr. unfold digit in *.
  destruct H3 as [E|[E H3]]; rewrite E; [|by rewrite Nat.sub_succ, Nat.sub_0_r].
  assert (i <> []) as Hn by (intros ->; by destruct (mpn_mul_dig_add_dig [] dmul c)).
  pose proof (normal_bound i Hi Hn Ni). pose proof (Bn_pos (length i - 1)). rewrite H2. nia.
Qed.

(** * Shifts *)

(** Division by a power of two inside a digit. *)
Lemma shiftr_part p : 0 <= p <= 16 -> 0 < 2 ^ p /\ 2 ^ (16 - p) * 2 ^ p = B.
Proof.
  intros. split; [apply Z.pow_pos_nonneg; lia|].
  rewrite <- Z.pow_add_r by lia. by replace (16 - p + p) with 16 by lia.
Qed.

Lemma lor_B t x : digit x -> Z.lor (B * t) x = B * t + x.
Proof. intros. rewrite (Z.mul_comm B). change B with (2 ^ 16) at 1 2. by apply lor_pow2. Qed.

(** The digit a shift to the left moves into place [Bn n]. *)
Lemma shl_digit p t x v N :
  1 <= p <= 16 -> 0 <= v < N ->
  ((t * (B * N) + (v + N * x)) * 2 ^ p) mod (B * N * B) =
  ((x * N + v) * 2 ^ p) mod (B * N) + B * N * (Z.shiftr (B * t + x) (16 - p) mod B).
Proof.
  intros Hp Hv. destruct (shiftr_part p ltac:(lia)) as [Hq HB].
  assert (0 < 2 ^ (16 - p)) as Hq' by nia.
  rewrite Z.rem_mul_r by lia. rewrite Z.shiftr_div_pow2 by lia. f_equal.
  - replace ((t * (B * N) + (v + N * x)) * 2 ^ p)
      with ((x * N + v) * 2 ^ p + t * 2 ^ p * (B * N)) by ring.
    by rewrite Z_mod_plus_full.
  - do 2 f_equal. rewrite <- HB at 2.
    replace (2 ^ (16 - p) * 2 ^ p * N) with (N * 2 ^ (16 - p) * 2 ^ p) by ring.
    rewrite Z.div_mul_cancel_r by nia. rewrite <- Z.div_div by lia. f_equal.
    replace (t * (B * N) + (v + N * x)) with (v + (B * t + x) * N) by ring.
    rewrite Z.div_add, Z.div_small by lia. done.
Qed.

Lemma shl_loop_spec p j_rev t acc :
  1 <= p <= 16 -> digs j_rev -> digit t ->
  exists r t', shl_loop p j_rev (B * t) acc = (r ++ acc, B * t') /\ digit t' /\
    digs r /\ length r = length j_rev /\
    val (lo (Z.shiftr (B * t') (DIG_SIZE - p)) :: r) =
      ((t * Bn (length j_rev) + val (rev j_rev)) * 2 ^ p) mod Bn (S (length j_rev)).
Proof.
  intros Hp. destruct (shiftr_part p ltac:(lia)) as [Hq HB].
  change DIG_SIZE with 16. revert t acc.
  induction j_rev as [|x j IH]; intros t acc Hj Ht; cbn [shl_loop].
  { exists [], t. split; [done|]. split; [done|]. split_and!; try done.
    cbn [val length rev]. rewrite Bn_S, Bn_0.
    rewrite lo_spec, Z.shiftr_div_pow2 by lia. rewrite <- HB at 1.
    replace (2 ^ (16 - p) * 2 ^ p * t) with (t * 2 ^ p * 2 ^ (16 - p)) by ring.
    rewrite Z.div_mul by nia. rewrite Z.mul_0_r, !Z.add_0_r, !Z.mul_1_r. done. }
  apply digs_cons in Hj as [Hx Hj]. rewrite lor_B by done.
  assert (dbl (Z.shiftl (B * t + x) DIG_SIZE) = B * x) as ->.
  { unfold digit in Hx. unfold dbl, wrapu. change DIG_SIZE with 16.
    rewrite Z.shiftl_mul_pow2 by lia. cbn. dlia. }
  destruct (IH x (lo (Z.shiftr (B * t + x) (16 - p)) :: acc) Hj Hx) as (r & t' & E & Ht' & Hr & Hl & Hv).
  change DIG_SIZE with 16. rewrite E.
  exists (r ++ [lo (Z.shiftr (B * t + x) (16 - p))]), t'. rewrite <- app_assoc.
  split; [done|]. split; [done|]. split_and!.
  - apply digs_app. split; [done|]. apply digs_cons. auto.
  - rewrite length_app. cbn. lia.
  - rewrite app_comm_cons, val_app, Hv. cbn [length rev]. rewrite Hl, val_app, length_rev.
    pose proof (val_bound (rev j) ltac:(auto)) as Hb. rewrite length_rev in Hb.
    cbn [val]. rewrite lo_spec. rewrite (Bn_S (S _)), !Bn_S, (Z.mul_comm B (B * _)).
    rewrite !Z.mul_0_r, !Z.add_0_r. by rewrite shl_digit.
Qed.

Lemma length_shl_loop p j_rev d acc :
  length (shl_loop p j_rev d acc).1 = (length j_rev + length acc)%nat.
Proof.
  revert d acc. induction j_rev as [|x j IH]; intros; cbn [shl_loop]; [done|].
  rewrite IH. cbn. lia.
Qed.

(** The whole and partial digits of a shift count. *)
Lemma shl_parts n :
  0 < n -> exists w p, (n + DIG_SIZE - 1) / DIG_SIZE = Z.of_nat (S w) /\
    (if n mod DIG_SIZE =? 0 then DIG_SIZE else n mod DIG_SIZE) = p /\
    1 <= p <= 16 /\ n = 16 * Z.of_nat w + p.
Proof.
  intros Hn. change DIG_SIZE with 16.
  exists (Z.to_nat ((n + 16 - 1) / 16 - 1)), (if n mod 16 =? 0 then 16 else n mod 16).
  destruct (Z.eqb_spec (n mod 16) 0); split_and!; try done; dlia.
Qed.

Lemma mpn_shl_raw_spec j n :
  digs j -> 0 < n ->
  digs (mpn_shl_raw j n) /\ val (mpn_shl_raw j n) = val j * 2 ^ n /\
  Z.of_nat (length (mpn_shl_raw j n)) = Z.of_nat (length j) + (n + DIG_SIZE - 1) / DIG_SIZE.
Proof.
  intros Hj Hn. unfold mpn_shl_raw. destruct (shl_parts n Hn) as (w & p & Ew & Ep & Hp & En).
  rewrite Ew, Ep. destruct (shl_loop_spec p (rev j) 0 [] Hp ltac:(auto) ltac:(unfold digit; lia))
    as (r & t' & E & Ht' & Hr & Hl & Hv).
  rewrite Z.mul_0_r in E. rewrite E, app_nil_r. replace (Z.to_nat (Z.of_nat (S w) - 1)) with w by lia.
  rewrite length_rev in Hl, Hv. rewrite Z.mul_0_l, Z.add_0_l, rev_involutive in Hv.
  split_and!.
  - apply digs_app. split; [auto|]. by apply digs_cons.
  - rewrite val_app, val_zeros, length_replicate, Hv. rewrite Z.mod_small.
    + rewrite En, Bn_pow2, Z.pow_add_r by lia. ring.
    + pose proof (val_bound j Hj). rewrite Bn_S. destruct (shiftr_part p ltac:(lia)). nia.
  - rewrite length_app, length_replicate. cbn [length]. lia.
Qed.

Lemma mpn_shl_spec j n : digs j -> 0 < n -> num (val j * 2 ^ n) (mpn_shl j n).
Proof. intros Hj Hn. destruct (mpn_shl_raw_spec j n Hj Hn) as (? & ? & _). by apply num_trim. Qed.

Lemma length_shr_loop p j : length (shr_loop p j) = length j.
Proof. induction j; cbn; auto. Qed.

Lemma shr_loop_spec p j :
  0 <= p < 16 -> digs j -> digs (shr_loop p j) /\ val (shr_loop p j) = val j / 2 ^ p.
Proof.
  intros Hp Hj. destruct (shiftr_part p ltac:(lia)) as [Hq HB].
  induction Hj as [|x j Hx Hj [IH1 IH2]]; cbn [shr_loop]; [split; [done|by rewrite Z.div_0_l by lia]|].
  split; [by apply digs_cons|]. cbn [val]. rewrite IH2, lo_spec, Z.shiftr_div_pow2 by lia.
  assert ((x + B * val j) / 2 ^ p / B = val j / 2 ^ p) as <-.
  { rewrite Z.div_div, (Z.mul_comm (2 ^ p)), <- Z.div_div by lia.
    by rewrite (Z.mul_comm B), Z.div_add, (Z.div_small x) by (unfold digit in Hx; lia). }
  rewrite (Z.div_mod ((x + B * val j) / 2 ^ p) B) at 2 by lia. rewrite Z.add_comm. f_equal.
  destruct j as [|y j]; [cbn [val]; by rewrite Z.mul_0_r, Z.add_0_r|].
  apply digs_cons in Hj as [Hy _].
  cbn [val]. change (Z.shiftl y DIG_SIZE) with (Z.shiftl y 16).
  rewrite Z.shiftl_mul_pow2, Z.lor_comm, (Z.mul_comm y) by lia. change (2 ^ 16) with B. rewrite lor_B by done.
  replace (x + B * (y + B * val j)) with (B * y + x + val j * 2 ^ (16 - p) * B * 2 ^ p).
  { by rewrite Z.div_add, Z_mod_plus_full by lia. }
  transitivity (B * y + x + val j * (2 ^ (16 - p) * 2 ^ p) * B); [|rewrite HB]; ring.
Qed.

Lemma drop_top_zero_spec l :
  digs l -> ((2 <= length l)%nat -> Bn (length l - 2) <= val l) -> num (val l) (drop_top_zero l).
Proof.
  intros Hl Hb. unfold drop_top_zero. destruct l as [|d l _] using rev_ind; [done|].
  rewrite rev_unit. pose proof Hl as Hl'. apply digs_app in Hl' as [Hl1 Hd].
  assert (d <> 0 -> num (val (l ++ [d])) (l ++ [d])) as Hok.
  { intros. split_and!; try done. by apply normal_snoc. }
  destruct d; [|by apply Hok..].
  rewrite length_app, Nat.add_sub, take_app_length in *.
  rewrite val_app in *. cbn [val] in *.
  replace (val l + Bn (length l) * (0 + B * 0)) with (val l) in * by lia.
  split_and!; try done. apply normal_of_bound; [done|]. intros Hn.
  destruct l; [done|]. cbn [length] in *.
  replace (S (length l) - 1)%nat with (S (length l) + 1 - 2)%nat by lia. apply Hb. lia.
Qed.

Lemma length_drop_top_zero l : (length (drop_top_zero l) <= length l)%nat.
Proof. unfold drop_top_zero. destruct (rev l) as [|[]]; rewrite ?length_take; lia. Qed.

Lemma val_drop n l : digs l -> (n <= length l)%nat -> val (drop n l) = val l / Bn n.
Proof.
  intros Hl Hn. rewrite <- (take_drop n l) at 2. rewrite val_app, length_take, Nat.min_l by done.
  pose proof (val_bound (take n l) ltac:(auto)) as Hb. rewrite length_take, Nat.min_l in Hb by done.
  rewrite Z.mul_comm, Z.div_add, Z.div_small by lia. done.
Qed.

Lemma normal_drop n l : normal l -> normal (drop n l).
Proof.
  unfold normal. intros Hl E. apply Hl. rewrite <- (take_drop n l), last_app, E. done.
Qed.

(** [mpn_shr] is the division by a power of two, rounded down. *)
Lemma mpn_shr_spec j n :
  digs j -> normal j -> 0 <= n ->
  num (val j / 2 ^ n) (mpn_shr j n) /\ (length (mpn_shr j n) <= length j)%nat.
Proof.
  intros Hj Nj Hn. unfold mpn_shr. change DIG_SIZE with 16. set (w := Z.to_nat (n / 16)).
  assert (n = 16 * Z.of_nat w + n mod 16 /\ 0 <= n mod 16 < 16) as [En Hp] by (unfold w; dlia).
  assert (0 < 2 ^ n) by (apply Z.pow_pos_nonneg; lia).
  destruct (Z.leb_spec (Z.of_nat (length j)) (n / 16)) as [L|L].
  { split; [|cbn; lia]. rewrite Z.div_small; [apply num_nil|].
    pose proof (val_bound j Hj) as Hb. rewrite Bn_pow2 in Hb.
    pose proof (Z.pow_le_mono_r 2 (16 * Z.of_nat (length j)) n ltac:(lia) ltac:(dlia)). lia. }
  assert (w < length j)%nat as Hw by (unfold w; dlia).
  destruct (shr_loop_spec (n mod 16) (drop w j) Hp ltac:(auto)) as [H1 H2].
  assert (val (shr_loop (n mod 16) (drop w j)) = val j / 2 ^ n) as E.
  { rewrite H2, val_drop, Bn_pow2 by (done || lia).
    rewrite Z.div_div, <- Z.pow_add_r, <- En by (try apply Z.pow_pos_nonneg; lia). done. }
  rewrite <- E. split.
  - apply drop_top_zero_spec; [done|]. rewrite length_shr_loop. intros L2. rewrite H2.
    pose proof (normal_bound (drop w j) ltac:(auto) ltac:(intros F; rewrite F in L2; cbn in L2; lia)
      (normal_drop w j Nj)) as Hb.
    apply Z.div_le_lower_bound; [lia|]. etrans; [|exact Hb].
    replace (length (drop w j) - 1)%nat with (S (length (drop w j) - 2)) by lia.
    rewrite Bn_S. apply Z.mul_le_mono_nonneg_r; [pose proof (Bn_pos (length (drop w j) - 2)); lia|].
    change B with (2 ^ 16). apply Z.pow_le_mono_r; lia.
  - etrans; [apply length_drop_top_zero|]. rewrite length_shr_loop, length_drop. lia.
Qed.

(** * Multiplication *)

Lemma mul_row_spec l m j kd c :
  digs l -> digs j -> length l = length j -> digit kd -> digit c -> (1 <= m)%nat ->
  exists w e, mul_row (l ++ replicate m 0) j kd c = Some (w, replicate (m - e) 0) /\
    (e <= 1)%nat /\ length w = (length j + e)%nat /\ digs w /\
    val w = val l + val j * kd + c /\ (e = 1%nat -> Bn (length j) <= val w).
Proof.
  intros Hl Hj Hlen Hk Hc Hm. revert l c Hl Hlen Hc.
  induction Hj as [|x j Hx Hj IH]; intros [|d l] c Hl Hlen Hc; try done; cbn [mul_row app].
  { destruct (Z.eqb_spec c 0) as [->|Hn].
    - exists [], 0%nat. rewrite Nat.sub_0_r. split_and!; try done. lia.
    - destruct m as [|m]; [lia|]. cbn [replicate]. rewrite dig_t_small by done.
      exists [c], 1%nat. rewrite Nat.sub_succ, Nat.sub_0_r. unfold digit in Hc.
      split; [done|]. split; [done|]. split; [done|].
      split; [by apply digs_cons|]. cbn [val length]. rewrite Bn_0. lia. }
  apply digs_cons in Hl as [Hd Hl]. unfold digit in *.
  assert (0 <= x * kd <= 65535 * 65535) by nia.
  rewrite (dbl_small (x * kd)), (dbl_small (d + _)), dbl_small by lia.
  pose proof (lo_hi (c + (d + x * kd))). pose proof (lo_digit (c + (d + x * kd))).
  destruct (IH l (hi (c + (d + x * kd)))) as (w & e & -> & He & Hw & Hdw & Hv & Hb); [done|cbn in *; lia| |].
  { pose proof (hi_range (c + (d + x * kd)) 0 B). lia. }
  exists (lo (c + (d + x * kd)) :: w), e. cbn [mbind option_bind length val].
  split; [done|]. split; [done|]. split; [lia|]. split; [by apply digs_cons|].
  rewrite Hv, Bn_S. split; [lia|]. intros ->. specialize (Hb eq_refl). unfold digit in *. lia.
Qed.

Lemma mul_loop_spec k : forall l m j off ilen,
  digs l -> digs j -> j <> [] -> normal j -> length l = length j -> digs k -> k <> [] -> normal k ->
  (length k <= m)%nat ->
  exists r z, mul_loop (l ++ replicate m 0) j k off ilen = Some (r ++ replicate z 0, (off + length r)%nat) /\
    digs r /\ val r = val l + val j * val k /\ r <> [] /\ normal r.
Proof.
  induction k as [|y k IH]; intros l m j off ilen Hl Hj Hjn Nj Hlen Hk Hkn Nk Hm; [done|].
  apply digs_cons in Hk as [Hy Hk]. cbn [mul_loop length] in *.
  destruct (mul_row_spec l m j y 0) as (w & e & -> & He & Hw & Hdw & Hv & Hb); try done; [lia|].
  cbn [mbind option_bind].
  assert (exists w0 w', w = w0 :: w') as (w0 & w' & ->).
  { destruct w; [destruct j; cbn in Hw; [done|lia]|eauto]. }
  cbn [app tail take]. apply digs_cons in Hdw as [Hw0 Hdw]. rewrite take_0.
  destruct (decide (k = [])) as [->|Hk'].
  - cbn [mul_loop mbind option_bind]. exists (w0 :: w'), (m - e)%nat.
    split; [done|]. split; [by apply digs_cons|]. split; [cbn [val] in *; lia|]. split; [done|].
    apply normal_of_bound; [by apply digs_cons|]. intros _. rewrite Hw.
    assert (y <> 0) as Hy0 by by apply (normal_snoc [] y).
    unfold digit in Hy. pose proof (normal_bound j Hj Hjn Nj). pose proof (val_nonneg l Hl).
    destruct e as [|[|e]]; [| |lia].
    + rewrite Nat.add_0_r, Hv. pose proof (Bn_pos (length j - 1)). nia.
    + rewrite Nat.add_sub. by apply Hb.
  - assert (exists l' m', w' ++ replicate (m - e) 0 = l' ++ replicate m' 0 /\ digs l' /\
      length l' = length j /\ val l' = val w' /\ (length k <= m')%nat)
      as (l' & m' & -> & Hl' & Hlen' & Hv' & Hm').
    { cbn [length] in Hw. destruct e as [|[|e]]; [| |lia].
      - exists (w' ++ [0]), (m - 1)%nat. split_and!.
        + rewrite <- app_assoc. f_equal. destruct m; [lia|]. cbn. by rewrite Nat.sub_0_r.
        + apply digs_app. split; [done|]. apply digs_cons. split; [unfold digit; lia|auto].
        + rewrite length_app. cbn. lia.
        + rewrite val_app. cbn [val]. lia.
        + lia.
      - exists w', (m - 1)%nat. split_and!; try done; lia. }
    destruct (IH l' m' j (S off) (off + length (w0 :: w'))%nat) as (r & z & -> & Hr & Hvr & Hrn & Nr); try done.
    { by rewrite normal_cons in Nk. }
    cbn [mbind option_bind]. exists (w0 :: r), z. cbn [app length val] in *.
    split; [do 2 f_equal; lia|]. split; [by apply digs_cons|]. split; [lia|].
    split; [done|]. by apply normal_cons.
Qed.

(** The product fits in the zeroed array of [jlen + klen] digits, or more. *)
Lemma mpn_mul_spec z j k :
  digs j -> j <> [] -> normal j -> digs k -> k <> [] -> normal k ->
  (length j + length k <= z)%nat ->
  exists r, mpn_mul (replicate z 0) j k = Some r /\ num (val j * val k) r /\ r <> [].
Proof.
  intros Hj Jn Nj Hk Kn Nk Hz. unfold mpn_mul.
  replace z with (length j + (z - length j))%nat by lia. rewrite replicate_add.
  destruct (mul_loop_spec k (replicate (length j) 0) (z - length j) j 0 0)
    as (r & n & -> & Hr & Hv & Rn & Nr); try done; try lia; [by rewrite length_replicate|].
  cbn [mbind option_bind]. rewrite Nat.add_0_l, take_app_length. exists r.
  rewrite val_zeros, Z.add_0_l in Hv. done.
Qed.
