(* ===== verification/MpnDiv.v ===== *)
(** [mpn_div] is the Euclidean division.

    The divisor is scaled by a power of two that puts its top bit in place, on
    the fly; each turn estimates a digit of the quotient from the two top digits
    of the numerator and the top digit of the scaled divisor, and adds the
    divisor back while the estimate was too large.  The estimate is at most two
    too large and fits a 17-bit number, so no 32-bit accumulator overflows. *)

From Stdlib Require Import ZArith Lia.
From stdpp Require Import base option list numbers.
From S2P Require Import Prelude Mpn MpnSpec.

(** * The estimate of a digit *)

Section estimate.
Context (D P N : Z) (HP : 0 < P) (HN : 0 <= N < D * B).
Context (lead : Z) (Hlead : lead = D / P) (Hnorm : B <= 2 * lead) (HleadB : lead < B).

Let quo := N / P / lead.

Lemma estimate_lead : lead * P <= D < (lead + 1) * P.
Proof. clear -HP Hlead. subst lead. pose proof (Z.div_mod D P). pose proof (Z.mod_pos_bound D P). lia. Qed.

Lemma estimate_pos : 0 < D.
Proof. pose proof estimate_lead. nia. Qed.

Lemma estimate_mul : quo * lead * P <= N.
Proof.
  clear -HP Hnorm. unfold quo. pose proof (Z.mul_div_le (N / P) lead). pose proof (Z.mul_div_le N P). nia.
Qed.

Lemma estimate_bound : 0 <= quo <= B + 1.
Proof.
  pose proof estimate_lead as [L1 L2]. unfold quo. split.
  { apply Z.div_pos; [apply Z.div_pos|]; lia. }
  assert (N / P < (lead + 1) * B) by (apply Z.div_lt_upper_bound; nia).
  apply Z.lt_succ_r, Z.div_lt_upper_bound; [lia|]. nia.
Qed.

(** Never too small. *)
Lemma estimate_upper : N - quo * D < D.
Proof.
  pose proof estimate_lead as [L1 L2]. pose proof estimate_pos.
  assert (N / D <= quo) as Hq.
  { unfold quo. apply Z.div_le_lower_bound; [lia|]. apply Z.div_le_lower_bound; [lia|].
    pose proof (Z.mul_div_le N D ltac:(lia)). pose proof (Z.div_pos N D). nia. }
  pose proof (Z.mul_succ_div_gt N D ltac:(lia)). nia.
Qed.

(** At most two too large. *)
Lemma estimate_lower : - (2 * D) <= N - quo * D.
Proof.
  pose proof estimate_lead as [L1 L2]. pose proof estimate_mul. pose proof estimate_bound.
  assert (quo * (D - lead * P) <= (B + 1) * (D - lead * P)) by nia.
  nia.
Qed.
End estimate.

(** * Scaling *)

Fixpoint scale (q : Z) (l : digits) (c : Z) : digits :=
  match l with
  | [] => []
  | d :: l => lo (d * q + c) :: scale q l (hi (d * q + c))
  end.

Lemma length_scale q l c : length (scale q l c) = length l.
Proof. revert c. induction l; intros; cbn; auto. Qed.

Lemma digs_scale q l c : digs (scale q l c).
Proof. revert c. induction l; intros; [auto|]. apply digs_cons. auto. Qed.

Lemma scale_carry q d c : digit d -> 0 <= c < q -> 0 <= hi (d * q + c) < q.
Proof. unfold digit. intros. apply hi_range. nia. Qed.

Lemma val_scale_eq q l c :
  digs l -> 0 <= c < q ->
  exists c', 0 <= c' < q /\ val (scale q l c) + Bn (length l) * c' = val l * q + c.
Proof.
  intros Hl. revert c. induction Hl as [|d l Hd Hl IH]; intros c Hc; cbn [scale val length].
  { exists c. rewrite Bn_0. lia. }
  destruct (IH (hi (d * q + c)) (scale_carry q d c Hd Hc)) as (c' & H1 & H2).
  exists c'. split; [done|]. rewrite Bn_S. pose proof (lo_hi (d * q + c)). lia.
Qed.

Lemma val_scale q l c :
  digs l -> 0 <= c < q -> val l * q + c < Bn (length l) -> val (scale q l c) = val l * q + c.
Proof.
  intros Hl Hc Hb. destruct (val_scale_eq q l c Hl Hc) as (c' & H1 & H2).
  pose proof (val_nonneg _ (digs_scale q l c)). pose proof (Bn_pos (length l)).
  assert (c' = 0) as -> by nia. lia.
Qed.

Section shift.
Context (s : Z) (Hs : 0 <= s < 16).

Lemma part : 0 < 2 ^ s /\ 0 < 2 ^ (16 - s) /\ 2 ^ (16 - s) * 2 ^ s = B.
Proof. clear -Hs. destruct (shiftr_part s ltac:(lia)). split_and!; [done| |done]. nia. Qed.

Lemma scale_digit d : digit d -> d * 2 ^ s < 4294967296.
Proof.
  clear -Hs. intros Hd. destruct part as (? & ? & ?). unfold digit in Hd. nia.
Qed.

Lemma next_d_norm_eq d dn :
  digit d -> 0 <= hi dn < 2 ^ s -> next_d_norm s d dn = d * 2 ^ s + hi dn.
Proof.
  clear -Hs. intros Hd Hn. unfold next_d_norm. fold (hi dn).
  pose proof (scale_digit d Hd). destruct part as (? & ? & ?).
  rewrite Z.shiftl_mul_pow2, dbl_small by (unfold digit in Hd; nia).
  apply lor_pow2; lia.
Qed.

Lemma normalise_num_eq l c : digs l -> 0 <= c < 2 ^ s -> normalise_num s l c = scale (2 ^ s) l c.
Proof.
  clear -Hs. intros Hl. revert c. induction Hl as [|d l Hd Hl IH]; intros c Hc; [done|].
  cbn [normalise_num scale]. destruct part as (? & ? & HB).
  rewrite Z.shiftl_mul_pow2, lor_pow2 by lia. fold (lo (d * 2 ^ s + c)). f_equal.
  assert (Z.shiftr d (DIG_SIZE - s) = hi (d * 2 ^ s + c)) as ->.
  { change DIG_SIZE with 16. rewrite Z.shiftr_div_pow2, hi_spec, <- HB by lia.
    rewrite (Z.mul_comm (2 ^ (16 - s))), <- Z.div_div by lia.
    by rewrite Z.div_add_l, (Z.div_small c), Z.add_0_r by lia. }
  pose proof (scale_carry _ d c Hd Hc). rewrite dig_t_small by (unfold digit; nia).
  by apply IH.
Qed.

Lemma unnormalise_num_eq l : forall r acc,
  digs l -> 0 <= r < 2 ^ s ->
  exists k, unnormalise_num s l (r * 2 ^ (16 - s)) acc = k ++ acc /\
    digs k /\ length k = length l /\
    val k = (r * Bn (length l) + val (rev l)) / 2 ^ s.
Proof.
  clear -Hs. destruct part as (Hq & Hq' & HB).
  induction l as [|x l IH]; intros r acc Hl Hr; cbn [unnormalise_num].
  { exists []. split_and!; try done. cbn [rev val length]. rewrite Bn_0, Z.div_small; lia. }
  apply digs_cons in Hl as [Hx Hl]. unfold digit in Hx. change DIG_SIZE with 16.
  assert (dig_t (dbl (Z.shiftl x (16 - s))) = x mod 2 ^ s * 2 ^ (16 - s)) as ->.
  { rewrite Z.shiftl_mul_pow2 by lia. unfold dig_t, dbl, wrapu. change (2 ^ 32) with (2 ^ 16 * 2 ^ 16).
    rewrite Z.rem_mul_r by done.
    rewrite (Z.mul_comm (2 ^ 16)), Z_mod_plus_full, Z.mod_mod by done. change (2 ^ 16) with B.
    rewrite <- HB, (Z.mul_comm (2 ^ (16 - s)) (2 ^ s)). by rewrite Z.mul_mod_distr_r by lia. }
  assert (Z.land (Z.lor (Z.shiftr x s) (r * 2 ^ (16 - s))) DIG_MASK = (r * B + x) / 2 ^ s) as ->.
  { assert (0 <= x / 2 ^ s < 2 ^ (16 - s)) as Hd.
    { split; [apply Z.div_pos|apply Z.div_lt_upper_bound]; lia. }
    rewrite Z.shiftr_div_pow2, Z.lor_comm, lor_pow2 by lia.
    fold (lo (r * 2 ^ (16 - s) + x / 2 ^ s)). rewrite lo_spec, Z.mod_small by nia.
    rewrite <- HB, Z.mul_assoc, Z.div_add_l by lia. done. }
  destruct (IH (x mod 2 ^ s) ((r * B + x) / 2 ^ s :: acc) Hl (Z.mod_pos_bound _ _ Hq))
    as (k & -> & Hk & Hlen & Hv).
  assert (digit ((r * B + x) / 2 ^ s)) as Ho.
  { split; [apply Z.div_pos; lia|apply Z.div_lt_upper_bound; nia]. }
  exists (k ++ [(r * B + x) / 2 ^ s]). split; [by rewrite <- app_assoc|].
  split; [apply digs_app; split; [done|by apply digs_cons]|].
  split; [rewrite length_app; cbn; lia|].
  rewrite val_app, Hlen, Hv. cbn [val rev length]. rewrite val_app, length_rev, Bn_S. cbn [val].
  assert (x mod 2 ^ s = (r * B + x) mod 2 ^ s) as ->.
  { rewrite <- HB, Z.mul_assoc, Z.add_comm. by rewrite Z_mod_plus_full. }
  rewrite <- Z.div_add by lia. f_equal.
  pose proof (Z.div_mod (r * B + x) (2 ^ s) ltac:(lia)). nia.
Qed.
End shift.

Lemma msb_zero d : digit d -> (Z.land d DIG_MSB =? 0) = (d <? 32768).
Proof.
  unfold digit. intros Hd. change DIG_MSB with (2 ^ 15).
  assert (Z.testbit d 15 = negb (d <? 32768)) as Hb.
  { rewrite Z.testbit_eqb by lia. change (2 ^ 15) with 32768.
    destruct (Z.ltb_spec d 32768); cbn; [apply Z.eqb_neq|apply Z.eqb_eq]; dlia. }
  destruct (Z.ltb_spec d 32768) as [L|L]; [change (negb true) with false in Hb|change (negb false) with true in Hb].
  - apply Z.eqb_eq, Z.bits_inj'. intros n Hn. rewrite Z.land_spec, Z.bits_0, Z.pow2_bits_eqb by lia.
    destruct (Z.eqb_spec 15 n) as [<-|]; [by rewrite Hb|apply andb_false_r].
  - apply Z.eqb_neq. intros E. apply (f_equal (fun z => Z.testbit z 15)) in E.
    rewrite Z.land_spec, Z.bits_0, Z.pow2_bits_true, Hb in E by lia. done.
Qed.

(** The shift that puts the top bit of [d] in place is found. *)
Lemma norm_shift_loop_spec fuel d k :
  digit d -> 2 ^ (15 - Z.of_nat fuel) <= d -> 0 <= k -> k + Z.of_nat fuel <= 15 ->
  exists s, norm_shift_loop fuel d k = Some (k + s) /\ 0 <= s <= Z.of_nat fuel /\
    32768 <= d * 2 ^ s < B.
Proof.
  revert d k. induction fuel as [|fuel IH]; intros d k Hd Hb Hf Hk; cbn [norm_shift_loop];
    rewrite msb_zero by done; unfold digit in Hd; destruct (Z.ltb_spec d 32768).
  - change (2 ^ _) with 32768 in Hb. lia.
  - exists 0. rewrite Z.add_0_r. split; [done|]. rewrite Z.pow_0_r. lia.
  - rewrite Z.shiftl_mul_pow2 by lia. rewrite (dig_t_small (d * 2 ^ 1)), dig_t_small by (split; lia).
    destruct (IH (d * 2 ^ 1) (k + 1)) as (s & -> & Hs & Hr); try (split; lia); [|lia|lia|].
    + replace (15 - Z.of_nat fuel) with (Z.succ (15 - Z.of_nat (S fuel))) by lia.
      rewrite Z.pow_succ_r; lia.
    + exists (1 + s). split; [f_equal; lia|]. split; [lia|]. rewrite Z.pow_add_r, Z.mul_assoc by lia. lia.
  - exists 0. rewrite Z.add_0_r. split; [done|]. rewrite Z.pow_0_r. lia.
Qed.

(** * One digit of the quotient *)

Lemma lookup_split {A} (l l1 : list A) x l2 n : l = l1 ++ x :: l2 -> n = length l1 -> l !! n = Some x.
Proof. intros -> ->. by apply list_lookup_middle. Qed.

Section step.
Context (s : Z) (Hs : 0 <= s < 16).

Lemma div_sub_loop_spec quo n : forall d dn borrow,
  digs n -> digs d -> length n = length d -> 0 <= quo <= B + 1 ->
  0 <= hi dn < 2 ^ s -> -(B + 1) <= borrow <= 0 ->
  exists n' b', div_sub_loop s quo n d dn borrow = (n', b') /\
    digs n' /\ length n' = length d /\ -(B + 1) <= b' <= 0 /\
    val n' + Bn (length d) * b' = val n - quo * val (scale (2 ^ s) d (hi dn)) + borrow.
Proof.
  induction n as [|n0 n IH]; intros [|d0 d] dn borrow Hn Hd Hlen Hq Hdn Hb; try done.
  { exists [], borrow. split_and!; try done; cbn [val length scale]; rewrite ?Bn_0; lia. }
  apply digs_cons in Hn as [Hn0 Hn], Hd as [Hd0 Hd]. cbn [div_sub_loop scale].
  rewrite (next_d_norm_eq s Hs) by done. set (D := d0 * 2 ^ s + hi dn).
  pose proof (scale_carry _ _ _ Hd0 Hdn) as HD. fold D in HD.
  pose proof (lo_digit D) as HloD. pose proof (lo_digit borrow) as Hlob. unfold digit in Hn0, HloD, Hlob.
  assert (0 <= quo * lo D <= (B + 1) * (B - 1)) as Hx by nia.
  rewrite (dbl_small (quo * lo D)) by lia. set (x := quo * lo D) in *.
  pose proof (lo_digit x) as Hlox. unfold digit in Hlox.
  pose proof (lo_hi x) as Ex. pose proof (lo_hi borrow) as Eb.
  rewrite (sdbl_small (lo borrow + n0 - lo x)) by lia. set (y := lo borrow + n0 - lo x) in *.
  pose proof (lo_hi y) as Ey. pose proof (lo_digit y) as Hloy. unfold digit in Hloy.
  rewrite sdbl_small by lia.
  destruct (IH d D (hi borrow - hi x + hi y) Hn Hd) as (n' & b' & -> & Hn' & Hl' & Hb' & E);
    [cbn in Hlen; lia|done|done|lia|].
  exists (lo y :: n'), b'. split; [done|]. split; [apply digs_cons; auto|].
  split; [cbn; lia|]. split; [done|]. cbn [val length]. rewrite Bn_S. nia.
Qed.

Lemma div_add_loop_spec n : forall d dn c,
  digs n -> digs d -> length n = length d ->
  0 <= hi dn < 2 ^ s -> 0 <= c <= 1 ->
  exists n' c', div_add_loop s n d dn c = (n', c') /\
    digs n' /\ length n' = length d /\ 0 <= c' <= 1 /\
    val n' + Bn (length d) * c' = val n + val (scale (2 ^ s) d (hi dn)) + c.
Proof.
  induction n as [|n0 n IH]; intros [|d0 d] dn c Hn Hd Hlen Hdn Hc; try done.
  { exists [], c. split_and!; try done; cbn [val length scale]; rewrite ?Bn_0; lia. }
  apply digs_cons in Hn as [Hn0 Hn], Hd as [Hd0 Hd]. cbn [div_add_loop scale].
  rewrite (next_d_norm_eq s Hs) by done. set (D := d0 * 2 ^ s + hi dn).
  pose proof (scale_carry _ _ _ Hd0 Hdn) as HD. fold D in HD.
  pose proof (lo_digit D) as HloD. unfold digit in Hn0, HloD.
  rewrite dbl_small by lia. set (y := c + (n0 + lo D)) in *.
  pose proof (lo_hi y) as Ey. pose proof (hi_range y 0 2 ltac:(lia)) as Hy.
  destruct (IH d D (hi y) Hn Hd) as (n' & c' & -> & Hn' & Hl' & Hc' & E);
    [cbn in Hlen; lia|done|lia|].
  exists (lo y :: n'), c'. split; [done|]. split; [apply digs_cons; auto|].
  split; [cbn; lia|]. split; [done|]. cbn [val length]. rewrite Bn_S. lia.
Qed.

(** The scaled divisor. *)
Context (den : digits) (Hden : digs den).
Let D := val (scale (2 ^ s) den 0).
Context (HD : 0 < D).

Lemma scaled_lt : D < Bn (length den).
Proof.
  pose proof (val_bound _ (digs_scale (2 ^ s) den 0)) as H. rewrite length_scale in H. unfold D. lia.
Qed.

(** While the remainder [borrow] makes is negative, the divisor is added back;
    this ends with the true remainder and quotient digit. *)
Lemma add_back_loop_spec fuel : forall n borrow quo,
  digs n -> length n = length den ->
  (fuel <= 2)%nat -> 0 <= quo <= B + 1 ->
  let R := val n + Bn (length den) * borrow in
  - (Z.of_nat fuel * D) <= R < D -> 0 <= R + quo * D ->
  exists n' quo', add_back_loop fuel s n den borrow quo = Some (n', quo') /\
    digs n' /\ length n' = length den /\ 0 <= quo' /\ val n' < D /\
    val n' + quo' * D = R + quo * D.
Proof.
  pose proof scaled_lt as HDB. cbn zeta.
  induction fuel as [|fuel IH]; intros n b quo Hn Hlen Hf Hq HR HN; cbn [add_back_loop];
    pose proof (val_bound n Hn) as Hvn; rewrite Hlen in Hvn;
    (destruct (Z.eqb_spec b 0) as [->|Hb]; [exists n, quo; split_and!; try done; lia|]).
  { exfalso. assert (b <= -1 \/ 1 <= b) as [?|?] by lia; nia. }
  destruct (div_add_loop_spec n den 0 0 Hn Hden Hlen) as (n' & c & -> & Hn' & Hlen' & Hc & E);
    [|lia|].
  { change (hi 0) with 0. destruct (part s Hs). lia. }
  change (hi 0) with 0 in E. fold D in E.
  assert (b <= -1) by (assert (b <= -1 \/ 1 <= b) as [?|?] by lia; nia).
  assert (-3 <= b) by nia. assert (1 <= quo) by nia.
  rewrite sdbl_small, dbl_small by lia.
  destruct (IH n' (b + c) (quo - 1)) as (n'' & q & -> & K1 & K2 & K3 & K4 & K5); try done; try lia.
  { nia. }
  exists n'', q. split_and!; try done. nia.
Qed.

Context (Hne : den <> []).
Let lead := D / Bn (length den - 1).
Context (Hlead : B <= 2 * lead) (HleadB : lead < B).

Lemma div_step_spec lowl n t :
  digs lowl -> digs n -> digit t -> length n = length den ->
  val n + Bn (length den) * t < D * B ->
  exists n' q, div_step s lead (lowl ++ n ++ [t]) den = Some (lowl ++ n', q) /\
    digs n' /\ length n' = length den /\ digit q /\ val n' < D /\
    val n + Bn (length den) * t = val n' + q * D.
Proof.
  intros Hlow Hn Ht Hlen HN. unfold div_step.
  assert (1 <= length den)%nat as Hl1 by (destruct den; cbn; [done|lia]).
  destruct n as [|u n _] using rev_ind; [cbn in Hlen; lia|].
  apply digs_app in Hn as [Hn Hu]. apply digs_cons in Hu as [Hu _].
  rewrite length_app in Hlen. cbn [length] in Hlen.
  assert (lowl ++ (n ++ [u]) ++ [t] = (lowl ++ n ++ [u]) ++ t :: []) as E1 by by rewrite <- !app_assoc.
  assert (lowl ++ (n ++ [u]) ++ [t] = (lowl ++ n) ++ u :: [t]) as E2 by by rewrite <- !app_assoc.
  assert ((lowl ++ (n ++ [u]) ++ [t]) !! (length (lowl ++ (n ++ [u]) ++ [t]) - 1)%nat = Some t) as ->.
  { apply (lookup_split _ _ _ _ _ E1). rewrite !length_app. cbn. lia. }
  assert ((lowl ++ (n ++ [u]) ++ [t]) !! (length (lowl ++ (n ++ [u]) ++ [t]) - 2)%nat = Some u) as L2.
  { apply (lookup_split _ _ _ _ _ E2). rewrite !length_app. cbn. lia. }
  cbn [mbind option_bind]. rewrite L2. cbn [mbind option_bind].
  replace (length (lowl ++ (n ++ [u]) ++ [t]) - 1 - length den)%nat with (length lowl)
    by (rewrite !length_app; cbn; lia).
  rewrite take_app_length, drop_app_length.
  rewrite take_app_le, take_ge by (rewrite length_app; cbn; lia).
  set (N := val (n ++ [u]) + Bn (length den) * t) in *.
  assert (N / Bn (length den - 1) = B * t + u) as EN.
  { unfold N. rewrite val_app. replace (length den) with (S (length n)) by lia.
    rewrite Nat.sub_succ, Nat.sub_0_r, Bn_S. cbn [val].
    replace (val n + Bn (length n) * (u + B * 0) + B * Bn (length n) * t)
      with (val n + (B * t + u) * Bn (length n)) by ring.
    pose proof (Bn_pos (length n)). rewrite Z.div_add, Z.div_small by (lia || by apply val_bound). done. }
  assert (dbl (Z.shiftl t DIG_SIZE) = B * t) as ->.
  { change DIG_SIZE with 16. rewrite Z.shiftl_mul_pow2 by lia. change (2 ^ 16) with B.
    unfold digit in Ht. rewrite dbl_small; lia. }
  rewrite lor_B, <- EN by done. set (quo := N / Bn (length den - 1) / lead).
  pose proof (Bn_pos (length den - 1)) as HP. pose proof (Bn_pos (length den)) as HP'.
  assert (digs (n ++ [u])) as Hnu by (apply digs_app; split; [done|by apply digs_cons]).
  assert (0 <= N) as HN0 by (unfold N; pose proof (val_nonneg _ Hnu); unfold digit in Ht; nia).
  pose proof (estimate_bound D _ N HP (conj HN0 HN) lead eq_refl Hlead HleadB) as Q1.
  pose proof (estimate_upper D _ N HP (conj HN0 HN) lead eq_refl Hlead) as Q2.
  pose proof (estimate_lower D _ N HP (conj HN0 HN) lead eq_refl Hlead HleadB) as Q3.
  fold quo in Q1, Q2, Q3.
  destruct (div_sub_loop_spec quo (n ++ [u]) den 0 0) as (n1 & b & -> & Hn1 & Hl' & Hb & E); try done.
  { rewrite length_app. cbn. lia. }
  { change (hi 0) with 0. destruct (part s Hs). lia. }
  change (hi 0) with 0 in E. fold D in E. unfold digit in Ht.
  rewrite sdbl_small by lia.
  change ADD_BACK_FUEL with 2%nat.
  destruct (add_back_loop_spec 2 n1 (b + t) quo) as (n2 & q & -> & K1 & K2 & K3 & K4 & K5); try done; try lia.
  cbn [mbind option_bind].
  assert (0 <= val n2) by (by apply val_nonneg).
  assert (N = val n2 + q * D) as EN' by lia.
  assert (q < B) by nia.
  exists n2, q. replace (lo q) with q by (rewrite lo_spec, Z.mod_small; lia).
  split_and!; try done.
Qed.

(** Every turn leaves a remainder below the scaled divisor in the top digits. *)
Lemma div_loop_spec count : forall num quo,
  digs num -> length num = (length den + count)%nat -> val (drop count num) < D ->
  exists num' quo', div_loop count s lead num den quo = Some (num', quo' ++ quo) /\
    digs num' /\ length num' = length den /\ digs quo' /\ length quo' = count /\
    val num = val num' + val quo' * D /\ val num' < D.
Proof.
  induction count as [|c IH]; intros num quo Hn Hlen HN; cbn [div_loop].
  { exists num, []. rewrite drop_0 in HN. split_and!; try done; cbn [val]; lia. }
  destruct num as [|t num _] using rev_ind; [cbn in Hlen; lia|].
  apply digs_app in Hn as [Hn Ht]. apply digs_cons in Ht as [Ht _].
  rewrite length_app in Hlen. cbn [length] in Hlen.
  rewrite <- (take_drop c num) in HN |- *. rewrite <- app_assoc in HN |- *.
  assert (length (take c num) = c) as Htk by (rewrite length_take; lia).
  destruct (drop c num) as [|u n] eqn:Ed.
  { apply (f_equal length) in Ed. rewrite length_drop in Ed. cbn in Ed.
    assert (1 <= length den)%nat by (destruct den; cbn; [done|lia]). lia. }
  assert (digs (u :: n)) as Hun by (rewrite <- Ed; auto).
  rewrite drop_app, drop_ge, Htk in HN by lia. replace (S c - c)%nat with 1%nat in HN by lia.
  cbn [drop app] in HN. rewrite drop_0 in HN.
  assert (length (u :: n) = length den) as Hlu by (rewrite <- Ed, length_drop; lia).
  destruct (div_step_spec (take c num) (u :: n) t) as (n' & q & -> & Hn' & Hl' & Hq & HlD & Ev);
    try done; [auto| |].
  { apply digs_cons in Hun as [Hu Hun]. unfold digit in Hu. rewrite val_app in HN. cbn [val] in *.
    rewrite <- Hlu. cbn [length]. rewrite Bn_S. nia. }
  cbn [mbind option_bind].
  destruct (IH (take c num ++ n') (q :: quo)) as (num' & quo' & -> & K1 & K2 & K3 & K4 & K5 & K6).
  { apply digs_app. auto. }
  { rewrite length_app, Htk. lia. }
  { rewrite drop_app, drop_ge, Htk by lia. by replace (c - c)%nat with 0%nat by lia. }
  exists num', (quo' ++ [q]). rewrite <- app_assoc. split; [done|]. split; [done|]. split; [done|].
  split; [apply digs_app; split; [done|by apply digs_cons]|].
  split; [rewrite length_app; cbn; lia|]. split; [|done].
  rewrite val_app, Htk in K5 |- *. rewrite (val_app (u :: n)), (val_app quo'), Hlu, K4.
  change (val [t]) with (t + B * 0). change (val [q]) with (q + B * 0).
  rewrite !Z.mul_0_r, !Z.add_0_r, Ev. lia.
Qed.
End step.

(** * The division *)

(** The two top digits give the top digit of the scaled divisor. *)
Lemma lead_digit s den d :
  0 <= s < 16 -> digs den -> den !! (length den - 1)%nat = Some d -> d * 2 ^ s < B ->
  (let lead := dbl (Z.shiftl d s) in
   if (2 <=? length den)%nat then
     Z.lor lead (Z.shiftr (default 0 (den !! (length den - 2)%nat)) (DIG_SIZE - s))
   else lead) = val den * 2 ^ s / Bn (length den - 1).
Proof.
  intros Hs Hden Hd Hds. destruct (part s Hs) as (Hq & Hq' & HB).
  destruct den as [|d' den _] using rev_ind; [done|].
  rewrite length_app, Nat.add_sub, list_lookup_middle in * by done. simplify_eq.
  apply digs_app in Hden as [Hden Hdd]. apply digs_cons in Hdd as [Hdd _]. unfold digit in Hdd.
  rewrite Z.shiftl_mul_pow2, dbl_small, val_app by nia. cbn [val length].
  pose proof (Bn_pos (length den)) as HP.
  replace ((val den + Bn (length den) * (d + B * 0)) * 2 ^ s)
    with (d * 2 ^ s * Bn (length den) + val den * 2 ^ s) by ring.
  rewrite Z.div_add_l by lia. destruct den as [|e den _] using rev_ind.
  { cbn. by rewrite Z.add_0_r. }
  apply digs_app in Hden as [Hden He]. apply digs_cons in He as [He _].
  rewrite length_app. cbn [length]. replace (length den + 1 + 1 - 2)%nat with (length den) by lia.
  replace (2 <=? length den + 1 + 1)%nat with true by (symmetry; apply Nat.leb_le; lia).
  rewrite (lookup_split _ den e [d]) by (done || by rewrite <- app_assoc). cbn [default].
  assert (val (den ++ [e]) * 2 ^ s / Bn (length den + 1) = Z.shiftr e (DIG_SIZE - s)) as ->.
  { rewrite val_app, Bn_add, Bn_S, Bn_0. cbn [val]. change DIG_SIZE with 16.
    rewrite Z.shiftr_div_pow2 by lia.
    replace (Bn (length den) * (B * 1)) with (Bn (length den) * 2 ^ (16 - s) * 2 ^ s)
      by (rewrite <- Z.mul_assoc, HB; ring).
    pose proof (Bn_pos (length den)) as HP'.
    rewrite Z.div_mul_cancel_r, <- Z.div_div by (first [lia | apply Z.neq_mul_0; lia]).
    replace (val den + Bn (length den) * (e + B * 0)) with (e * Bn (length den) + val den) by ring.
    rewrite Z.div_add_l, (Z.div_small (val den)), Z.add_0_r by (lia || by apply val_bound). done. }
  change DIG_SIZE with 16. unfold digit in He. unfold id. rewrite Z.shiftr_div_pow2 by lia.
  apply lor_pow2; [lia|]. split; [apply Z.div_pos; lia|apply Z.div_lt_upper_bound; lia].
Qed.

Section division.
Context (num0 den : digits) (Hn : digs num0) (Hd : digs den) (Nd : normal den) (Hne : den <> []).

Lemma div_prepare :
  exists d s, den !! (length den - 1)%nat = Some d /\ norm_shift_loop 15 d 0 = Some s /\
    0 <= s < 16 /\ 32768 <= d * 2 ^ s < B.
Proof.
  destruct den as [|d l _] using rev_ind; [done|]. exists d.
  apply normal_snoc in Nd. apply digs_app in Hd as [Hl Hdd]. apply digs_cons in Hdd as [Hdd _].
  destruct (norm_shift_loop_spec 15 d 0) as (s & E & Hs & Hr); try done.
  { unfold digit in Hdd. cbn. lia. }
  exists s. rewrite length_app, Nat.add_sub, list_lookup_middle by done. rewrite E.
  split_and!; try done; lia.
Qed.

(** The scaled divisor and numerator. *)
Lemma scaled_den s d :
  0 <= s < 16 -> den !! (length den - 1)%nat = Some d -> 32768 <= d * 2 ^ s < B ->
  val (scale (2 ^ s) den 0) = val den * 2 ^ s /\
  B <= 2 * (val den * 2 ^ s / Bn (length den - 1)) /\ val den * 2 ^ s / Bn (length den - 1) < B.
Proof.
  intros Hs E Hr. destruct (part s Hs) as (Hq & Hq' & HB).
  assert (exists v, 0 <= v < Bn (length den - 1) /\ val den = v + Bn (length den - 1) * d) as (v & Hv & Ev).
  { destruct den as [|d' l _] using rev_ind; [done|].
    rewrite length_app, Nat.add_sub, list_lookup_middle in * by done. simplify_eq.
    exists (val l). apply digs_app in Hd as [Hl _]. rewrite val_app. cbn [val].
    split; [by apply val_bound|lia]. }
  assert (length den = S (length den - 1)) as El by (destruct den; cbn; [done|lia]).
  set (P := Bn (length den - 1)) in *.
  assert (val den * 2 ^ s < Bn (length den)) as Hlt.
  { rewrite El, Bn_S. fold P. assert (d * 2 ^ s + 2 ^ s <= B); [|nia].
    assert (d + 1 <= 2 ^ (16 - s)) by (apply Z.le_succ_l, (Z.mul_lt_mono_pos_r (2 ^ s)); lia).
    rewrite <- HB. nia. }
  split; [rewrite val_scale; [lia|done|lia|lia]|]. split.
  - assert (32768 <= val den * 2 ^ s / P); [|lia]. apply Z.div_le_lower_bound; [lia|nia].
  - apply Z.div_lt_upper_bound; [lia|]. rewrite El, Bn_S in Hlt. fold P in Hlt. lia.
Qed.

Lemma mpn_div_spec :
  normal num0 -> exists r q, mpn_div num0 den = Some (r, q) /\
    num (val num0 mod val den) r /\ num (val num0 / val den) q /\
    (length q <= length num0 + 1)%nat.
Proof.
  intros Nn. unfold mpn_div. rewrite mpn_cmp_spec by done.
  pose proof (normal_val_pos den Hd Nd Hne) as Hpos.
  destruct (Z.compare_spec (val num0) (val den)) as [E|L|G]; cbn [Z.eqb Z.ltb Z.compare].
  { exists [], [1]. rewrite E, Z.mod_same, Z.div_same by lia. split_and!; try done; [apply num_digit; lia|cbn; lia]. }
  { pose proof (val_nonneg num0 Hn). exists num0, [].
    rewrite Z.mod_small, Z.div_small by lia. split_and!; try done. cbn. lia. }
  destruct div_prepare as (d & s & E1 & E2 & Hs & Hr). rewrite E1. cbn [mbind option_bind].
  rewrite E2. cbn [mbind option_bind].
  pose proof (lead_digit s den d Hs Hd E1 ltac:(lia)) as EL. cbv zeta in EL. rewrite EL. clear EL.
  destruct (part s Hs) as (Hq & Hq' & HB).
  destruct (scaled_den s d Hs E1 Hr) as (ED & HL & HLB).
  assert (digs (num0 ++ [0])) as Hn0.
  { apply digs_app. split; [done|]. apply digs_cons. split; [unfold digit; lia|auto]. }
  rewrite (normalise_num_eq s Hs) by (done || lia). set (n1 := scale (2 ^ s) (num0 ++ [0]) 0).
  pose proof (val_bound num0 Hn) as Hb.
  assert (length n1 = (length num0 + 1)%nat) as Hl1 by (unfold n1; rewrite length_scale, length_app; done).
  assert (val n1 = val num0 * 2 ^ s) as Ev1.
  { unfold n1. rewrite val_scale; [rewrite val_app; cbn [val]; lia|done|lia|].
    rewrite val_app, length_app. cbn [val length]. rewrite Nat.add_1_r, Bn_S. nia. }
  assert (length den <= length num0)%nat as Hlen.
  { destruct (Nat.le_gt_cases (length den) (length num0)) as [|L']; [done|].
    pose proof (normal_length_lt num0 den Hn Hd Nd L'). lia. }
  assert (length den = S (length den - 1)) as El by (destruct den; cbn; [done|lia]).
  set (count := (length n1 - length den)%nat).
  rewrite <- ED in HL, HLB |- *.
  destruct (div_loop_spec s Hs den Hd ltac:(nia) Hne HL HLB count n1 [])
    as (n2 & q & -> & Hn2 & Hl2 & Hqd & Hlq & Ev & Hlt).
  { apply digs_scale. }
  { unfold count. lia. }
  { rewrite val_drop, Ev1 by (apply digs_scale || unfold count; lia).
    apply Z.div_lt_upper_bound; [apply Bn_pos|]. rewrite ED.
    pose proof (normal_bound den Hd Hne Nd) as Hbd.
    replace (Bn (length num0)) with (Bn count * Bn (length den - 1)) in Hb
      by (rewrite <- Bn_add; f_equal; unfold count; lia).
    pose proof (Bn_pos count). assert (val num0 < Bn count * val den) by nia.
    rewrite Z.mul_assoc. by apply Z.mul_lt_mono_pos_r. }
  cbn [mbind option_bind]. rewrite app_nil_r.
  destruct (unnormalise_num_eq s Hs (rev n2) 0 []) as (k & Ek & Hk & Hlk & Hvk); [auto|lia|].
  rewrite Z.mul_0_l in Ek. rewrite Ek, app_nil_r. rewrite rev_involutive, Z.mul_0_l, Z.add_0_l in Hvk.
  rewrite ED, Ev1 in *. pose proof (val_nonneg n2 Hn2).
  assert (val n2 = (val num0 - val q * val den) * 2 ^ s) as En2 by lia.
  rewrite En2, Z.div_mul in Hvk by lia.
  assert (val q = val num0 / val den) as Eq.
  { apply (Z.div_unique _ _ _ (val k)); [left; nia|lia]. }
  assert (val k = val num0 mod val den) as Er.
  { rewrite Z.mod_eq, <- Eq by lia. lia. }
  eexists _, _. split; [done|]. split; [by apply num_trim|]. split; [by apply num_trim|].
  pose proof (remove_trailing_zeros_spec q Hqd) as (_ & _ & _ & Hle). unfold count in Hlq. lia.
Qed.
End division.
