(* ===== verification/MpnBits.v ===== *)
(** The bitwise routines compute with the two's complement of negative numbers
    on the fly: the result is the absolute value of [Z.land], [Z.lor] or
    [Z.lxor] of the signed numbers. *)

From Stdlib Require Import ZArith Lia.
From stdpp Require Import base option list numbers.
From S2P Require Import Prelude Mpn MpnSpec.

(** * The three accumulators of the loop *)

(** The low digits of an accumulator to which the elements of [l] are added. *)
Fixpoint stage (l : list Z) (c : Z) : digits :=
  match l with
  | [] => []
  | x :: l => lo (c + x) :: stage l (hi (c + x))
  end.

Definition summand (x : Z) : Prop := 0 <= x <= 2 * B - 2.

Lemma length_stage l c : length (stage l c) = length l.
Proof. revert c. induction l; intros; cbn; auto. Qed.

Lemma digs_stage l c : digs (stage l c).
Proof. revert c. induction l; intros; [auto|]. apply digs_cons. auto. Qed.

Lemma carry_range x c : summand x -> 0 <= c <= 1 -> 0 <= hi (c + x) <= 1.
Proof. unfold summand. intros. pose proof (hi_range (c + x) 0 2). lia. Qed.

Lemma val_stage l : forall c, val (stage l c) = (val l + c) mod Bn (length l).
Proof.
  induction l as [|x l IH]; intros c; cbn [stage val length].
  { by rewrite Bn_0, Z.mod_1_r. }
  rewrite IH, Bn_S, Z.rem_mul_r by (pose proof (Bn_pos (length l)); lia).
  pose proof (lo_hi (c + x)) as E. pose proof (lo_digit (c + x)) as Hlo. unfold digit in Hlo.
  replace (x + B * val l + c) with (lo (c + x) + (val l + hi (c + x)) * B) by lia.
  by rewrite Z_mod_plus_full, Z.div_add, (Z.mod_small (lo _)), (Z.div_small (lo _)) by lia.
Qed.

Fixpoint finish (l : list Z) (c : Z) : digits :=
  match l with
  | [] => if c =? 0 then [] else [dig_t c]
  | x :: l => lo (c + x) :: finish l (hi (c + x))
  end.

Lemma finish_spec l : forall c,
  digs l -> 0 <= c <= 1 ->
  digs (finish l c) /\ val (finish l c) = val l + c /\
  (length (finish l c) = length l \/ length (finish l c) = S (length l) /\ Bn (length l) <= val (finish l c)).
Proof.
  induction l as [|x l IH]; intros c Hl Hc; cbn [finish val length].
  { destruct (Z.eqb_spec c 0) as [->|Hn]; [split_and!; auto|].
    assert (digit c) by (unfold digit; lia). rewrite dig_t_small by done.
    split_and!; [by apply digs_cons|cbn; lia|right]. cbn [val length]. rewrite Bn_0. split; [done|lia]. }
  apply digs_cons in Hl as [Hx Hl]. unfold digit in Hx.
  destruct (IH (hi (c + x)) Hl) as (H1 & H2 & H3); [apply carry_range; unfold summand; lia|].
  pose proof (lo_hi (c + x)). pose proof (lo_digit (c + x)) as Hlo.
  split_and!; [by apply digs_cons|cbn [val]; lia|]. cbn [val length]. unfold digit in Hlo.
  destruct H3 as [->|[-> H3]]; [by left|right]. rewrite Bn_S. split; [done|lia].
Qed.

(** Digits of [k], and zeros up to [n] digits. *)
Definition pad (n : nat) (k : digits) : digits := k ++ replicate (n - length k) 0.

Section loop.
Context (fj : Z -> Z) (fk : option Z -> Z) (f : Z -> Z) (op : Z -> Z -> Z).
Context (Hfj : forall x, digit x -> summand (fj x)) (Hf : forall x, digit x -> summand (f x)).
Context (Hfk : forall y, fk y = f (default 0 y)).
Context (Hop : forall a b, op a b = op (lo a) (lo b)) (Hopd : forall a b, digit (op a b)).

(** The state of the counter of [k]: it goes below zero when [k] is exhausted. *)
Definition klen_ok (j k : digits) (klen : Z) : Prop :=
  match k with
  | [] => klen = 0 \/ Z.of_nat (length j) < klen < 2 ^ 32
  | _ => klen = Z.of_nat (length k) /\ (length k <= length j)%nat
  end.

Lemma next_k_ok x j k klen :
  Z.of_nat (length (x :: j)) < 2 ^ 32 -> klen_ok (x :: j) k klen ->
  exists y k' klen', next_k (Z.of_nat (length (x :: j))) klen k = (y, k', klen') /\
    klen_ok j k' klen' /\
    pad (length (x :: j)) k = default 0 y :: pad (length j) k'.
Proof.
  intros Hj Hk. unfold next_k, klen_ok, pad in *. destruct k as [|y k]; cbn [length] in *.
  - assert (exists z, wrapu 32 (klen - 1) = z /\ Z.of_nat (length j) < z < 2 ^ 32) as (z & -> & Hz).
    { destruct Hk as [->|Hk]; [exists (2 ^ 32 - 1); split; [done|lia]|].
      exists (klen - 1). split; [apply wrapu_small|]; lia. }
    destruct (Z.leb_spec z (Z.of_nat (S (length j)) - 1)); [lia|].
    eexists _, _, _. split; [done|]. split; [by right|]. cbn [default]. by rewrite !Nat.sub_0_r.
  - destruct Hk as [-> Hk]. rewrite wrapu_small by lia.
    destruct (Z.leb_spec (Z.of_nat (S (length k)) - 1) (Z.of_nat (S (length j)) - 1)); [|lia].
    eexists _, _, _. split; [done|]. cbn [head tail default app Nat.sub]. split; [|done].
    destruct k; [left|split]; cbn [length] in *; lia.
Qed.

Lemma neg_loop_eq j : forall k klen ci cj ck,
  digs j -> digs k -> Z.of_nat (length j) < 2 ^ 32 -> klen_ok j k klen ->
  0 <= ci <= 1 -> 0 <= cj <= 1 -> 0 <= ck <= 1 ->
  neg_loop fj fk op j k klen ci cj ck =
  finish (zip_with op (stage (fj <$> j) cj) (stage (f <$> pad (length j) k) ck)) ci.
Proof.
  induction j as [|x j IH]; intros k klen ci cj ck Hj Hk Hl Hkl Hi Hcj Hck; cbn [neg_loop].
  { done. }
  destruct (next_k_ok x j k klen Hl Hkl) as (y & k' & klen' & -> & Hkl' & Ep).
  rewrite Ep, !fmap_cons. cbn [stage zip_with finish]. rewrite Hfk.
  apply digs_cons in Hj as [Hx Hj].
  assert (digs (default 0 y :: pad (length j) k')) as Hp.
  { rewrite <- Ep. apply digs_app. auto. }
  apply digs_cons in Hp as [Hy Hp].
  pose proof (carry_range _ _ (Hfj x Hx) Hcj). pose proof (carry_range _ _ (Hf _ Hy) Hck).
  pose proof (Hfj x Hx) as Sx. pose proof (Hf _ Hy) as Sy. unfold summand in Sx, Sy.
  rewrite (dbl_small (cj + _)), (dbl_small (ck + _)), <- Hop by lia.
  pose proof (Hopd (cj + fj x) (ck + f (default 0 y))) as Ho. unfold digit in Ho.
  rewrite dbl_small by lia. f_equal.
  apply IH; try done; [apply digs_app in Hp; tauto|cbn in Hl; lia|].
  apply carry_range; [unfold summand|]; lia.
Qed.
End loop.

(** * Bits of digit lists *)

Lemma land_lo a b : lo (Z.land a b) = Z.land (lo a) (lo b).
Proof.
  unfold lo. apply Z.bits_inj'. intros. rewrite !Z.land_spec.
  destruct (Z.testbit a n), (Z.testbit b n), (Z.testbit DIG_MASK n); done.
Qed.

Lemma lor_lo a b : lo (Z.lor a b) = Z.lor (lo a) (lo b).
Proof. unfold lo. apply Z.land_lor_distr_l. Qed.

Lemma lxor_lo a b : lo (Z.lxor a b) = Z.lxor (lo a) (lo b).
Proof.
  unfold lo. apply Z.bits_inj'. intros. rewrite !Z.land_spec, !Z.lxor_spec, !Z.land_spec.
  destruct (Z.testbit a n), (Z.testbit b n), (Z.testbit DIG_MASK n); done.
Qed.

Lemma lo_small x : digit x -> lo x = x.
Proof. intros. rewrite lo_spec. by apply Z.mod_small. Qed.

Lemma lo_lo x : lo (lo x) = lo x.
Proof. apply lo_small. auto. Qed.

Lemma lxor_mask x : digit x -> Z.lxor x DIG_MASK = DIG_MASK - x.
Proof.
  intros Hx. rewrite <- (lo_small x Hx) at 1. unfold lo. change DIG_MASK with (Z.ones 16).
  assert (Z.lxor (Z.land x (Z.ones 16)) (Z.ones 16) = Z.ldiff (Z.ones 16) x) as ->.
  { apply Z.bits_inj'. intros. rewrite Z.lxor_spec, Z.land_spec, Z.ldiff_spec.
    destruct (Z.testbit x n), (Z.testbit (Z.ones 16) n); done. }
  rewrite <- Z.sub_nocarry_ldiff; [done|]. apply Z.bits_inj'. intros n Hn.
  rewrite Z.ldiff_spec, Z.bits_0. destruct (Z.testbit x n) eqn:E; [|done].
  rewrite Z.testbit_ones_nonneg by lia. destruct (Z.ltb_spec n 16); [done|].
  rewrite <- (lo_small x Hx), lo_spec in E. change B with (2 ^ 16) in E.
  by rewrite Z.mod_pow2_bits_high in E by lia.
Qed.

(** Bitwise operations split at any bit. *)
Class BitOp (op : Z -> Z -> Z) := {
  bitop_shiftr : forall a b n, Z.shiftr (op a b) n = op (Z.shiftr a n) (Z.shiftr b n);
  bitop_mod : forall a b n, 0 <= n -> op a b mod 2 ^ n = op (a mod 2 ^ n) (b mod 2 ^ n);
  bitop_0 : op 0 0 = 0;
}.

Ltac bitop_mod :=
  intros a b n Hn; apply Z.bits_inj'; intros i Hi;
  rewrite ?Z.testbit_mod_pow2, ?Z.land_spec, ?Z.lor_spec, ?Z.lxor_spec, ?Z.testbit_mod_pow2 by done;
  destruct (i <? n), (Z.testbit a i), (Z.testbit b i); done.

#[export] Instance bitop_land : BitOp Z.land.
Proof. split; [apply Z.shiftr_land|bitop_mod|done]. Qed.

#[export] Instance bitop_lor : BitOp Z.lor.
Proof. split; [apply Z.shiftr_lor|bitop_mod|done]. Qed.

#[export] Instance bitop_lxor : BitOp Z.lxor.
Proof. split; [apply Z.shiftr_lxor|bitop_mod|done]. Qed.

Section bitop.
Context (op : Z -> Z -> Z) `{!BitOp op}.

Lemma bitop_split n a b :
  0 <= n -> op a b = op (a mod 2 ^ n) (b mod 2 ^ n) + 2 ^ n * op (a / 2 ^ n) (b / 2 ^ n).
Proof using BitOp0.
  intros Hn. rewrite <- bitop_mod by done. rewrite <- !(Z.shiftr_div_pow2 _ _ Hn), <- bitop_shiftr.
  rewrite Z.shiftr_div_pow2 by done. pose proof (Z.div_mod (op a b) (2 ^ n)). lia.
Qed.

Lemma val_zip j : forall k,
  digs j -> digs k -> length j = length k ->
  val (zip_with op j k) = op (val j) (val k).
Proof using BitOp0.
  induction j as [|x j IH]; intros [|y k] Hj Hk Hl; try done; [by rewrite bitop_0|].
  apply digs_cons in Hj as [Hx Hj], Hk as [Hy Hk]. unfold digit in *. cbn [val zip_with].
  rewrite (bitop_split 16 (x + _)) by done. change (2 ^ 16) with B.
  rewrite !(Z.mul_comm B (val _)), !Z_mod_plus_full, !Z.div_add, !(Z.mod_small x), !(Z.mod_small y),
    !(Z.div_small x), !(Z.div_small y) by lia.
  rewrite !Z.add_0_l, IH; [lia|done..|]. cbn in Hl. lia.
Qed.

(** Numbers between -2^n and 2^n - 1 are their low bits and a sign. *)
Lemma bitop_signed n a b :
  0 <= n -> - 2 ^ n <= a < 2 ^ n -> - 2 ^ n <= b < 2 ^ n ->
  op a b = op (a mod 2 ^ n) (b mod 2 ^ n) +
    2 ^ n * op (if a <? 0 then -1 else 0) (if b <? 0 then -1 else 0).
Proof using BitOp0.
  intros Hn Ha Hb. rewrite (bitop_split n a b) at 1 by done.
  assert (forall x, - 2 ^ n <= x < 2 ^ n -> x / 2 ^ n = if x <? 0 then -1 else 0) as E.
  { intros x Hx. destruct (Z.ltb_spec x 0); [|apply Z.div_small; lia].
    symmetry. apply (Z.div_unique _ _ _ (x + 2 ^ n)); lia. }
  by rewrite !E by done.
Qed.
End bitop.

(** * Signed numbers *)

Definition signed (neg : bool) (v : Z) : Z := if neg then - v else v.

(** The masks and carries of the calls, for operands of sign [nj]. *)
Lemma val_masked (neg : bool) l :
  digs l -> val ((fun x => Z.lxor x (mask_of (Z.b2z neg))) <$> l) =
    if neg then Bn (length l) - 1 - val l else val l.
Proof.
  intros Hl. induction Hl as [|x l Hx Hl IH]; [by destruct neg|].
  rewrite fmap_cons. cbn [val length]. rewrite IH, Bn_S. destruct neg; cbn [mask_of Z.b2z Z.eqb].
  - rewrite lxor_mask by done. change DIG_MASK with (B - 1). lia.
  - rewrite Z.lxor_0_r. lia.
Qed.

Lemma val_stage_masked (neg : bool) l :
  digs l ->
  val (stage ((fun x => Z.lxor x (mask_of (Z.b2z neg))) <$> l) (Z.b2z neg)) =
  signed neg (val l) mod Bn (length l).
Proof.
  intros Hl. rewrite val_stage, length_fmap, val_masked by done. unfold signed.
  destruct neg; cbn [Z.b2z]; [|by rewrite Z.add_0_r].
  replace (Bn (length l) - 1 - val l + 1) with (- val l + 1 * Bn (length l)) by lia.
  apply Z_mod_plus_full.
Qed.

Lemma digit_masked (neg : bool) x : digit x -> digit (Z.lxor x (mask_of (Z.b2z neg))).
Proof.
  intros Hx. destruct neg; cbn [mask_of Z.b2z Z.eqb]; [|by rewrite Z.lxor_0_r].
  rewrite lxor_mask by done. unfold digit in *. change DIG_MASK with (B - 1). lia.
Qed.

Lemma digit_summand x : digit x -> summand x.
Proof. unfold digit, summand. lia. Qed.

Lemma pad_spec n k : digs k -> (length k <= n)%nat ->
  digs (pad n k) /\ length (pad n k) = n /\ val (pad n k) = val k.
Proof.
  intros Hk Hl. unfold pad. split_and!.
  - apply digs_app. auto.
  - rewrite length_app, length_replicate. lia.
  - rewrite val_app, val_zeros. lia.
Qed.

Section zip.
Context (op : Z -> Z -> Z) (Hlo : forall a b, lo (op a b) = op (lo a) (lo b)).

Lemma digit_op a b : digit a -> digit b -> digit (op a b).
Proof using Hlo. intros Ha Hb. rewrite <- (lo_small a Ha), <- (lo_small b Hb), <- Hlo. auto. Qed.

Lemma digs_zip j k : digs j -> digs k -> digs (zip_with op j k).
Proof using Hlo.
  intros Hj. revert k. induction Hj as [|x j Hx Hj IH]; intros [|y k] Hk; try apply digs_nil.
  apply digs_cons in Hk as [Hy Hk]. apply digs_cons. split; [by apply digit_op|auto].
Qed.

Lemma zip_masked (ni : bool) j k :
  digs j -> digs k ->
  zip_with (fun a b => lo (Z.lxor (op a b) (mask_of (Z.b2z ni)))) j k =
  (fun x => Z.lxor x (mask_of (Z.b2z ni))) <$> zip_with op j k.
Proof using Hlo.
  intros Hj. revert k. induction Hj as [|x j Hx Hj IH]; intros [|y k] Hk; try done.
  apply digs_cons in Hk as [Hy Hk]. cbn [zip_with]. rewrite fmap_cons. f_equal; [|by apply IH].
  by apply lo_small, digit_masked, digit_op.
Qed.
End zip.

(** The digits that leave the loops of [mpn_and_neg] and [mpn_or_neg]. *)
Lemma neg_raw_eq (op : Z -> Z -> Z) `{!BitOp op} (ni nj nk : bool) j k :
  (forall a b, lo (op a b) = op (lo a) (lo b)) ->
  digs j -> digs k -> (length k <= length j)%nat -> Z.of_nat (length j) < 2 ^ 32 ->
  let M := Bn (length j) in
  let r := neg_loop (fun x => Z.lxor x (mask_of (Z.b2z nj)))
    (fun y => match y with Some y => Z.lxor y (mask_of (Z.b2z nk)) | None => mask_of (Z.b2z nk) end)
    (fun a b => lo (Z.lxor (op a b) (mask_of (Z.b2z ni))))
    j k (Z.of_nat (length k)) (Z.b2z ni) (Z.b2z nj) (Z.b2z nk) in
  let L := op (signed nj (val j) mod M) (signed nk (val k) mod M) in
  digs r /\ val r = (if ni then M - L else L) /\
  (length r = length j \/ length r = S (length j) /\ M <= val r).
Proof.
  intros Hlo Hj Hk Hlen Hl. cbn zeta.
  assert (forall b, 0 <= Z.b2z b <= 1) as Hb2z by (intros []; cbn; lia).
  destruct (pad_spec (length j) k Hk Hlen) as (Pd & Pl & Pv).
  rewrite (neg_loop_eq _ _ (fun x => Z.lxor x (mask_of (Z.b2z nk)))); try done.
  2-3: intros; by apply digit_summand, digit_masked.
  2: { intros [y|]; [done|]. cbn [default]. by rewrite Z.lxor_0_l. }
  2: { intros a b. by rewrite !lxor_lo, !Hlo, !lo_lo. }
  2: { destruct k; [by left|split; [done|done]]. }
  set (sj := stage _ (Z.b2z nj)). set (sk := stage _ (Z.b2z nk)).
  assert (length sj = length j) as Lj by (unfold sj; rewrite length_stage, length_fmap; done).
  assert (length sk = length j) as Lk by (unfold sk; rewrite length_stage, length_fmap; done).
  assert (digs sj) as Dj by apply digs_stage. assert (digs sk) as Dk by apply digs_stage.
  rewrite (zip_masked op) by done. pose proof (digs_zip op Hlo sj sk Dj Dk) as Hz.
  assert (length (zip_with op sj sk) = length j) as Lz by (rewrite length_zip_with; lia).
  assert (val (zip_with op sj sk) =
    op (signed nj (val j) mod Bn (length j)) (signed nk (val k) mod Bn (length j))) as Ev.
  { rewrite val_zip by (try apply digs_stage; congruence). unfold sj, sk.
    by rewrite !val_stage_masked, Pl, Pv by done. }
  destruct (finish_spec ((fun x => Z.lxor x (mask_of (Z.b2z ni))) <$> zip_with op sj sk) (Z.b2z ni))
    as (H1 & H2 & H3); [|done|].
  { clear -Hz. induction Hz; [auto|]. rewrite fmap_cons. apply digs_cons. split; [by apply digit_masked|done]. }
  rewrite length_fmap, Lz in H3. split; [done|]. split; [|done].
  rewrite H2, val_masked, Lz, Ev by done. destruct ni; cbn [Z.b2z]; lia.
Qed.

(** * The three operations *)

Section signed.
Context (nj nk : bool) (j k : digits).
Context (Hj : digs j) (Hk : digs k) (Nj : normal j) (Nk : normal k).
Context (Zj : nj = true -> j <> []) (Zk : nk = true -> k <> []).
Context (Hlen : (length k <= length j)%nat) (Hl : Z.of_nat (length j) < 2 ^ 32).

Let X := signed nj (val j).
Let Y := signed nk (val k).
Let M := Bn (length j).

Lemma signed_bounds :
  (if nj then - M < X < 0 else 0 <= X < M) /\ (if nk then - M < Y < 0 else 0 <= Y < M) /\
  M = 2 ^ (16 * Z.of_nat (length j)).
Proof using Hj Hk Nj Nk Zj Zk Hlen.
  pose proof (val_bound j Hj). pose proof (val_bound k Hk). pose proof (Bn_le _ _ Hlen).
  unfold X, Y, M. rewrite <- Bn_pow2. split_and!; [| |done]; unfold signed.
  - destruct nj; [|done]. pose proof (normal_val_pos j Hj Nj (Zj eq_refl)). lia.
  - destruct nk; [|lia]. pose proof (normal_val_pos k Hk Nk (Zk eq_refl)). lia.
Qed.

Lemma signed_op (op : Z -> Z -> Z) `{!BitOp op} :
  op X Y = op (X mod M) (Y mod M) + M * op (if nj then -1 else 0) (if nk then -1 else 0).
Proof using Hj Hk Nj Nk Zj Zk Hlen.
  destruct signed_bounds as (BX & BY & EM). rewrite EM in *.
  rewrite (bitop_signed op (16 * Z.of_nat (length j))) at 1; [|lia| |].
  - do 2 f_equal. f_equal.
    + destruct nj, (Z.ltb_spec X 0); lia.
    + destruct nk, (Z.ltb_spec Y 0); lia.
  - destruct nj; lia.
  - destruct nk; lia.
Qed.

Lemma op_range (op : Z -> Z -> Z) `{!BitOp op} : 0 <= op (X mod M) (Y mod M) < M.
Proof using Hj Hk Nj Nk Zj Zk Hlen.
  destruct signed_bounds as (_ & _ & EM). rewrite EM, <- bitop_mod by lia.
  apply Z.mod_pos_bound. apply Z.pow_pos_nonneg; lia.
Qed.

Lemma mpn_and_neg_spec :
  num (Z.abs (Z.land X Y)) (mpn_and_neg j k (Z.b2z (nj && nk)) (Z.b2z nj) (Z.b2z nk)) /\
  (Z.land X Y <? 0) = nj && nk /\
  (length (mpn_and_neg_raw j k (Z.b2z (nj && nk)) (Z.b2z nj) (Z.b2z nk)) <=
    length j + (if nj && nk then 1 else 0))%nat.
Proof using All.
  destruct (neg_raw_eq Z.land (nj && nk) nj nk j k land_lo Hj Hk Hlen Hl) as (R1 & R2 & R3).
  fold (mpn_and_neg_raw j k (Z.b2z (nj && nk)) (Z.b2z nj) (Z.b2z nk)) in R1, R2, R3.
  fold X Y M in R2, R3. pose proof (op_range Z.land) as HL. pose proof (signed_op Z.land) as E.
  unfold mpn_and_neg. destruct nj, nk; cbn [andb] in *;
    (split; [apply num_trim; [done|]|split; [first [apply Z.ltb_lt|apply Z.ltb_ge]|]];
     change (Z.land (-1) (-1)) with (-1) in E; change (Z.land (-1) 0) with 0 in E;
     change (Z.land 0 (-1)) with 0 in E; change (Z.land 0 0) with 0 in E; lia).
Qed.

Lemma mpn_or_neg_spec :
  exists r, mpn_or_neg j k (Z.b2z (nj || nk)) (Z.b2z nj) (Z.b2z nk) = Some r /\
  num (Z.abs (Z.lor X Y)) r /\ (Z.lor X Y <? 0) = nj || nk /\
  length (mpn_or_neg_raw j k (Z.b2z (nj || nk)) (Z.b2z nj) (Z.b2z nk)) = length j.
Proof using All.
  destruct (neg_raw_eq Z.lor (nj || nk) nj nk j k lor_lo Hj Hk Hlen Hl) as (R1 & R2 & R3).
  fold (mpn_or_neg_raw j k (Z.b2z (nj || nk)) (Z.b2z nj) (Z.b2z nk)) in R1, R2, R3.
  fold X Y M in R2, R3. pose proof (op_range Z.lor) as HL. pose proof (signed_op Z.lor) as E.
  destruct signed_bounds as (BX & BY & EM).
  assert (nj || nk = true -> 0 < Z.lor (X mod M) (Y mod M)) as Hpos.
  { intros Ho. assert (Z.lor (X mod M) (Y mod M) <> 0); [|lia]. intros F. apply Z.lor_eq_0_iff in F as [F1 F2].
    destruct nj; [|destruct nk; [|done]].
    - assert (X mod M = X + M) by (symmetry; apply (Z.mod_unique _ _ (-1)); lia). lia.
    - assert (Y mod M = Y + M) by (symmetry; apply (Z.mod_unique _ _ (-1)); lia). lia. }
  assert (length (mpn_or_neg_raw j k (Z.b2z (nj || nk)) (Z.b2z nj) (Z.b2z nk)) = length j) as Hr.
  { destruct R3 as [|[_ R3]]; [done|exfalso]. rewrite R2 in R3.
    destruct (nj || nk); [specialize (Hpos eq_refl)|]; lia. }
  unfold mpn_or_neg. rewrite Hr, Nat.eqb_refl. eexists. split; [done|].
  destruct nj, nk; cbn [orb] in *;
    (split; [apply num_trim; [done|]|split; [first [apply Z.ltb_lt|apply Z.ltb_ge]|done]];
     change (Z.lor (-1) (-1)) with (-1) in E; change (Z.lor (-1) 0) with (-1) in E;
     change (Z.lor 0 (-1)) with (-1) in E; change (Z.lor 0 0) with 0 in E;
     first [specialize (Hpos eq_refl)|idtac]; lia).
Qed.
End signed.

(** The exclusive or works on [x - 1], the complement of [- x]. *)
Section xor.
Context (nj nk : bool) (j k : digits).
Context (Hj : digs j) (Hk : digs k) (Nj : normal j) (Nk : normal k).
Context (Zj : nj = true -> j <> []) (Zk : nk = true -> k <> []).
Context (Hlen : (length k <= length j)%nat) (Hl : Z.of_nat (length j) < 2 ^ 32).

Let X := signed nj (val j).
Let Y := signed nk (val k).

Definition dec (neg : bool) (v : Z) : Z := if neg then v - 1 else v.

Lemma signed_dec neg v : signed neg v = if neg then Z.lnot (dec neg v) else dec neg v.
Proof. destruct neg; cbn; [unfold Z.lnot; lia|done]. Qed.

Lemma val_stage_dec (neg : bool) l :
  digs l -> 0 <= dec neg (val l) ->
  val (stage ((fun x => x + DIG_MASK) <$> l) (Z.b2z (negb neg))) = dec neg (val l).
Proof.
  intros Hd Hp. assert (val ((fun x => x + DIG_MASK) <$> l) = val l + Bn (length l) - 1) as E.
  { clear. induction l as [|x l IH]; [done|]. rewrite fmap_cons. cbn [val length].
    rewrite IH, Bn_S. change DIG_MASK with (B - 1). lia. }
  rewrite val_stage, length_fmap, E. pose proof (val_bound l Hd).
  replace (val l + Bn (length l) - 1 + Z.b2z (negb neg)) with (dec neg (val l) + 1 * Bn (length l))
    by (destruct neg; cbn; lia).
  rewrite Z_mod_plus_full. apply Z.mod_small. destruct neg; unfold dec in *; lia.
Qed.

Lemma mpn_xor_neg_spec :
  num (Z.abs (Z.lxor X Y))
    (mpn_xor_neg j k (Z.b2z (xorb nj nk)) (Z.b2z (negb nj)) (Z.b2z (negb nk))) /\
  (Z.lxor X Y <? 0) = xorb nj nk /\
  (length (mpn_xor_neg_raw j k (Z.b2z (xorb nj nk)) (Z.b2z (negb nj)) (Z.b2z (negb nk))) <=
    length j + (if xorb nj nk then 1 else 0))%nat.
Proof using All.
  assert (0 <= dec nj (val j)) as Pj.
  { destruct nj; cbn; [pose proof (normal_val_pos j Hj Nj (Zj eq_refl)); lia|by apply val_nonneg]. }
  assert (0 <= dec nk (val k)) as Pk.
  { destruct nk; cbn; [pose proof (normal_val_pos k Hk Nk (Zk eq_refl)); lia|by apply val_nonneg]. }
  assert (forall b, 0 <= Z.b2z b <= 1) as Hb2z by (intros []; cbn; lia).
  destruct (pad_spec (length j) k Hk Hlen) as (Pd & Pl & Pv).
  assert (mpn_xor_neg_raw j k (Z.b2z (xorb nj nk)) (Z.b2z (negb nj)) (Z.b2z (negb nk)) =
    finish (zip_with Z.lxor (stage ((fun x => x + DIG_MASK) <$> j) (Z.b2z (negb nj)))
      (stage ((fun x => x + DIG_MASK) <$> pad (length j) k) (Z.b2z (negb nk)))) (Z.b2z (xorb nj nk))) as ER.
  { unfold mpn_xor_neg_raw. rewrite (neg_loop_eq _ _ (fun x => x + DIG_MASK)); try done.
    - f_equal. set (sj := stage _ _). set (sk := stage _ (Z.b2z (negb nk))).
      assert (digs sj) as Dj by apply digs_stage. assert (digs sk) as Dk by apply digs_stage.
      clearbody sj sk. revert sk Dk. induction Dj as [|x l Hx Hd IH]; intros [|y sk] Dk; try done.
      apply digs_cons in Dk as [Hy Dk]. cbn [zip_with]. f_equal; [|by apply IH].
      by rewrite lxor_lo, !lo_small.
    - unfold digit, summand. change DIG_MASK with (B - 1). lia.
    - unfold digit, summand. change DIG_MASK with (B - 1). lia.
    - intros [y|]; done.
    - intros a b. by rewrite !lxor_lo, !lo_lo.
    - destruct k; [by left|split; done]. }
  set (sj := stage (_ <$> j) _) in ER. set (sk := stage (_ <$> pad _ k) _) in ER.
  assert (digs (zip_with Z.lxor sj sk)) as Hz by (apply (digs_zip _ lxor_lo); apply digs_stage).
  assert (val (zip_with Z.lxor sj sk) = Z.lxor (dec nj (val j)) (dec nk (val k))) as Ez.
  { rewrite (val_zip Z.lxor) by (try apply digs_stage; unfold sj, sk; rewrite !length_stage, !length_fmap; done).
    unfold sj, sk. rewrite !val_stage_dec; try done; rewrite Pv; done. }
  assert (length (zip_with Z.lxor sj sk) = length j) as Lz.
  { rewrite length_zip_with. unfold sj, sk. rewrite !length_stage, !length_fmap. lia. }
  pose proof (val_bound _ Hz) as Hb. rewrite Lz, Ez in Hb.
  destruct (finish_spec _ (Z.b2z (xorb nj nk)) Hz (Hb2z _)) as (R1 & R2 & R3). rewrite Lz in R3.
  unfold mpn_xor_neg. rewrite ER.
  assert (Z.lxor X Y = (if xorb nj nk then Z.lnot else id) (Z.lxor (dec nj (val j)) (dec nk (val k)))) as E.
  { unfold X, Y. rewrite !signed_dec. destruct nj, nk; cbn [xorb]; unfold id;
      first [by rewrite Z.lxor_lnot_lnot|by rewrite Z.lnot_lxor_l|by rewrite Z.lnot_lxor_r|done]. }
  rewrite Ez in R2. unfold Z.lnot, id in E. split; [apply num_trim; [done|]|split].
  - rewrite R2, E. destruct (xorb nj nk); cbn [Z.b2z]; lia.
  - rewrite E. destruct (xorb nj nk); [apply Z.ltb_lt|apply Z.ltb_ge]; lia.
  - destruct (xorb nj nk); cbn [Z.b2z] in *; [lia|]. destruct R3; lia.
Qed.
End xor.
