(* ===== verification/Mpz.v ===== *)
(** Arbitrary-precision integers: the [mpz] functions of [py/mpz.c].

    An [mpz_t] is a sign, the capacity of its buffer and the digits in use; the
    length field is the length of [dig].  An operation returns [None] when an
    assertion fails or a digit is written outside the buffer.  An argument that
    the code allows to be the destination is given twice; where the code then
    behaves differently, a flag says that the two pointers are equal. *)

From Stdlib Require Import ZArith Lia.
From stdpp Require Import base option list numbers.
From S2P Require Import Prelude Mpn.

(** * Numbers and their buffers *)

Record mpz_t := {
  neg : bool;
  fixed_dig : bool;
  alloc : Z;
  dig : digits;
}.

Definition len (z : mpz_t) : Z := Z.of_nat (length (dig z)).

Definition MIN_ALLOC : Z := 2.
Definition MPZ_NUM_DIG_FOR_INT : Z := (4 * 8 + DIG_SIZE - 1) / DIG_SIZE.
Definition MPZ_NUM_DIG_FOR_LL : Z := (8 * 8 + DIG_SIZE - 1) / DIG_SIZE.

Definition mpz_is_zero (z : mpz_t) : bool := len z =? 0.

Definition mpz_init_zero : mpz_t :=
  {| neg := false; fixed_dig := false; alloc := 0; dig := [] |}.

(** A capacity of zero stands for the null [dig] pointer. *)
Definition mpz_need_dig (z : mpz_t) (need : Z) : option mpz_t :=
  let need := if need <? MIN_ALLOC then MIN_ALLOC else need in
  if alloc z <? need then
    if fixed_dig z then None
    else Some {| neg := neg z; fixed_dig := false; alloc := need; dig := dig z |}
  else Some z.

(** The sign and digits of [z] after [written] digits have been stored. *)
Definition put (z : mpz_t) (n : bool) (written : nat) (i : digits) : option mpz_t :=
  if Z.of_nat written <=? alloc z
  then Some {| neg := n; fixed_dig := fixed_dig z; alloc := alloc z; dig := i |}
  else None.

Definition mpz_clone (src : mpz_t) : option mpz_t :=
  if alloc src =? 0 then None
  else Some {| neg := neg src; fixed_dig := false; alloc := alloc src; dig := dig src |}.

Definition mpz_set (dest src : mpz_t) : option mpz_t :=
  dest ← mpz_need_dig dest (len src);
  put dest (neg src) (length (dig src)) (dig src).

Definition set_zero (z : mpz_t) : mpz_t :=
  {| neg := false; fixed_dig := fixed_dig z; alloc := alloc z; dig := [] |}.

(** [while (uval > 0)], with the digits that still fit in the buffer. *)
Fixpoint uval_digits (room : nat) (uval : Z) : option digits :=
  if 0 <? uval then
    match room with
    | O => None
    | S room => i ← uval_digits room (Z.shiftr uval DIG_SIZE); Some (lo uval :: i)
    end
  else Some [].

Definition mpz_set_from_int (z : mpz_t) (val : Z) : option mpz_t :=
  if val =? 0 then Some (set_zero z) else
  z ← mpz_need_dig z MPZ_NUM_DIG_FOR_INT;
  let n := val <? 0 in
  let uval := wrapu 32 (if n then - val else val) in
  i ← uval_digits (Z.to_nat (alloc z)) uval;
  put z n (length i) i.

Definition mpz_init_from_int (val : Z) : option mpz_t := mpz_set_from_int mpz_init_zero val.

Definition mpz_set_from_ll (z : mpz_t) (val : Z) (is_signed : bool) : option mpz_t :=
  z ← mpz_need_dig z MPZ_NUM_DIG_FOR_LL;
  let n := is_signed && (val <? 0) in
  let uval := wrapu 64 (if n then - wrapu 64 val else val) in
  i ← uval_digits (Z.to_nat (alloc z)) uval;
  put z n (length i) i.

(** * Conversions from text and bytes *)

(** The value of a character, if it is a digit or a letter. *)
Definition char_value (v : Z) : option Z :=
  if (48 <=? v) && (v <=? 57) then Some (v - 48) else
  if (65 <=? v) && (v <=? 90) then Some (v - (65 - 10)) else
  if (97 <=? v) && (v <=? 122) then Some (v - (97 - 10)) else None.

(** The digits, and the number of characters used. *)
Fixpoint from_str_loop (room : Z) (str : list Z) (base : Z) (i : digits) (n : Z) : option (digits * Z) :=
  match str with
  | [] => Some (i, n)
  | c :: str =>
      match char_value c with
      | None => Some (i, n)
      | Some v =>
          if base <=? v then Some (i, n) else
          let i := mpn_mul_dig_add_dig i (dig_t base) (dig_t v) in
          if Z.of_nat (length i) <=? room then from_str_loop room str base i (n + 1) else None
      end
  end.

Definition mpz_set_from_str (z : mpz_t) (str : list Z) (n : bool) (base : Z) : option (mpz_t * Z) :=
  if 36 <? base then None else
  z ← mpz_need_dig z (Z.of_nat (length str) * 8 / DIG_SIZE + 1);
  '(i, used) ← from_str_loop (alloc z) str base [] 0;
  z ← put z n (length i) i;
  Some (z, used).

(** The inner loop: bytes are added to [d] until a digit is full. *)
Fixpoint fill_digit (buf : list Z) (d num_bits : Z) : Z * Z * list Z :=
  match buf with
  | b :: buf' =>
      if num_bits <? DIG_SIZE
      then fill_digit buf' (dig_t (Z.lor d (Z.shiftl b num_bits))) (num_bits + 8)
      else (d, num_bits, buf)
  | [] => (d, num_bits, [])
  end.

Fixpoint from_bytes_loop (fuel : nat) (buf : list Z) (num_bits : Z) : option digits :=
  match buf with
  | [] => Some []
  | _ =>
      match fuel with
      | O => None
      | S fuel =>
          let '(d, num_bits, buf) := fill_digit buf 0 num_bits in
          i ← from_bytes_loop fuel buf (num_bits - DIG_SIZE);
          Some (lo d :: i)
      end
  end.

Definition mpz_set_from_bytes (z : mpz_t) (big_endian : bool) (buf : list Z) : option mpz_t :=
  let buf := if big_endian then rev buf else buf in
  z ← mpz_need_dig z ((Z.of_nat (length buf) * 8 + DIG_SIZE - 1) / DIG_SIZE);
  i ← from_bytes_loop (length buf) buf 0;
  put z false (length i) (mpn_remove_trailing_zeros i).

(** * Arithmetic *)

Definition mpz_cmp (z1 z2 : mpz_t) : Z :=
  let cmp := Z.b2z (neg z2) - Z.b2z (neg z1) in
  if negb (cmp =? 0) then cmp else
  let cmp := mpn_cmp (dig z1) (dig z2) in
  if neg z1 then - cmp else cmp.

Definition mpz_abs_inpl (same : bool) (dest z : mpz_t) : option mpz_t :=
  dest ← if same then Some z else mpz_set dest z;
  put dest false 0 (dig dest).

Definition mpz_neg_inpl (same : bool) (dest z : mpz_t) : option mpz_t :=
  dest ← if same then Some z else mpz_set dest z;
  if len dest =? 0 then Some dest else put dest (negb (neg dest)) 0 (dig dest).

Definition mpz_not_inpl (same : bool) (dest z : mpz_t) : option mpz_t :=
  dest ← if same then Some z else mpz_set dest z;
  if len dest =? 0 then
    dest ← mpz_need_dig dest 1;
    put dest true 1 [1]
  else if neg dest then
    put dest false (length (mpn_sub_loop (dig dest) [1] 0)) (mpn_sub (dig dest) [1])
  else
    dest ← mpz_need_dig dest (len dest + 1);
    let i := mpn_add (dig dest) [1] in
    put dest true (length i) i.

Definition mpz_shl_inpl (dest lhs : mpz_t) (rhs : Z) : option mpz_t :=
  if mpz_is_zero lhs || (rhs =? 0) then mpz_set dest lhs else
  dest ← mpz_need_dig dest (len lhs + (rhs + DIG_SIZE - 1) / DIG_SIZE);
  put dest (neg lhs) (length (mpn_shl_raw (dig lhs) rhs)) (mpn_shl (dig lhs) rhs).

(** Whether a bit that is not zero is shifted out of the digits. *)
Definition round_up (i : digits) (rhs : Z) : bool :=
  let n_whole := Z.to_nat (rhs / DIG_SIZE) in
  let n_part := rhs mod DIG_SIZE in
  existsb (fun d => negb (d =? 0)) (take n_whole i) ||
  match i !! n_whole with
  | Some d => negb (Z.land d (Z.shiftl 1 n_part - 1) =? 0)
  | None => false
  end.

(** [same] when [dest] is [lhs], whose digits [mpn_shr] has then replaced
    before they are read for the rounding. *)
Definition mpz_shr_inpl (same : bool) (dest lhs : mpz_t) (rhs : Z) : option mpz_t :=
  if mpz_is_zero lhs || (rhs =? 0) then mpz_set dest lhs else
  dest ← mpz_need_dig dest (len lhs);
  let i := mpn_shr (dig lhs) rhs in
  dest ← put dest (neg lhs) (length (dig lhs) - Z.to_nat (rhs / DIG_SIZE)) i;
  let lhs := if same then dest else lhs in
  if neg dest && round_up (dig lhs) rhs then
    match i with
    | [] => put dest (neg dest) 1 [1]
    | _ => let i := mpn_add i [1] in put dest (neg dest) (length i) i
    end
  else Some dest.

Definition mpz_add_inpl (dest lhs rhs : mpz_t) : option mpz_t :=
  let '(lhs, rhs) := if mpn_cmp (dig lhs) (dig rhs) <? 0 then (rhs, lhs) else (lhs, rhs) in
  if eqb (neg lhs) (neg rhs) then
    dest ← mpz_need_dig dest (len lhs + 1);
    let i := mpn_add (dig lhs) (dig rhs) in
    put dest (neg lhs && negb (Z.of_nat (length i) =? 0)) (length i) i
  else
    dest ← mpz_need_dig dest (len lhs);
    let i := mpn_sub (dig lhs) (dig rhs) in
    put dest (neg lhs && negb (Z.of_nat (length i) =? 0)) (length (mpn_sub_loop (dig lhs) (dig rhs) 0)) i.

Definition mpz_sub_inpl (dest lhs rhs : mpz_t) : option mpz_t :=
  let '(lhs, rhs, n) := if mpn_cmp (dig lhs) (dig rhs) <? 0 then (rhs, lhs, true) else (lhs, rhs, false) in
  let sign (i : digits) :=
    if Z.of_nat (length i) =? 0 then false else if n then negb (neg lhs) else neg lhs in
  if negb (eqb (neg lhs) (neg rhs)) then
    dest ← mpz_need_dig dest (len lhs + 1);
    let i := mpn_add (dig lhs) (dig rhs) in
    put dest (sign i) (length i) i
  else
    dest ← mpz_need_dig dest (len lhs);
    let i := mpn_sub (dig lhs) (dig rhs) in
    put dest (sign i) (length (mpn_sub_loop (dig lhs) (dig rhs) 0)) i.

(** The operand with the most digits first. *)
Definition longest_first (lhs rhs : mpz_t) : mpz_t * mpz_t :=
  if len lhs <? len rhs then (rhs, lhs) else (lhs, rhs).

Definition mpz_and_inpl (dest lhs rhs : mpz_t) : option mpz_t :=
  let '(lhs, rhs) := longest_first lhs rhs in
  dest ← mpz_need_dig dest (len lhs + Z.b2z (neg lhs || neg rhs));
  let carryi := if eqb (neg lhs) (neg rhs) then Z.b2z (neg lhs) else 0 in
  put dest (neg lhs && neg rhs)
    (length (mpn_and_neg_raw (dig lhs) (dig rhs) carryi (Z.b2z (neg lhs)) (Z.b2z (neg rhs))))
    (mpn_and_neg (dig lhs) (dig rhs) carryi (Z.b2z (neg lhs)) (Z.b2z (neg rhs))).

Definition mpz_or_inpl (dest lhs rhs : mpz_t) : option mpz_t :=
  let '(lhs, rhs) := longest_first lhs rhs in
  dest ← mpz_need_dig dest (len lhs + Z.b2z (neg lhs || neg rhs));
  let carryi := Z.b2z (neg lhs || neg rhs) in
  i ← mpn_or_neg (dig lhs) (dig rhs) carryi (Z.b2z (neg lhs)) (Z.b2z (neg rhs));
  put dest (neg lhs || neg rhs)
    (length (mpn_or_neg_raw (dig lhs) (dig rhs) carryi (Z.b2z (neg lhs)) (Z.b2z (neg rhs)))) i.

Definition mpz_xor_inpl (dest lhs rhs : mpz_t) : option mpz_t :=
  let '(lhs, rhs) := longest_first lhs rhs in
  dest ← mpz_need_dig dest (len lhs + Z.b2z (neg lhs || neg rhs));
  let carryi := Z.b2z (xorb (neg lhs) (neg rhs)) in
  put dest (xorb (neg lhs) (neg rhs))
    (length (mpn_xor_neg_raw (dig lhs) (dig rhs) carryi (Z.b2z (negb (neg lhs))) (Z.b2z (negb (neg rhs)))))
    (mpn_xor_neg (dig lhs) (dig rhs) carryi (Z.b2z (negb (neg lhs))) (Z.b2z (negb (neg rhs)))).

(** [l_same], [r_same]: the operand is the destination, and is copied first. *)
Definition mpz_mul_inpl (l_same r_same : bool) (dest lhs rhs : mpz_t) : option mpz_t :=
  if mpz_is_zero lhs || mpz_is_zero rhs then mpz_set_from_int dest 0 else
  lhs' ← if l_same then mpz_clone lhs else Some lhs;
  rhs' ← if r_same then if l_same then Some lhs' else mpz_clone rhs else Some rhs;
  dest ← mpz_need_dig dest (len lhs' + len rhs');
  i ← mpn_mul (replicate (Z.to_nat (alloc dest)) 0) (dig lhs') (dig rhs');
  put dest (negb (eqb (neg lhs') (neg rhs'))) (length i) i.

(** The loop of [mpz_pow_inpl]; [n] loses a bit each time. *)
Fixpoint pow_loop (fuel : nat) (dest x : mpz_t) (n : digits) : option mpz_t :=
  match n with
  | [] => Some dest
  | d :: _ =>
      match fuel with
      | O => None
      | S fuel =>
          dest ← if negb (Z.land d 1 =? 0) then mpz_mul_inpl true false dest dest x else Some dest;
          let n := mpn_shr n 1 in
          match n with
          | [] => Some dest
          | _ => x ← mpz_mul_inpl true true x x x; pow_loop fuel dest x n
          end
      end
  end.

(** The number of bits of the exponent is enough. *)
Definition pow_fuel (n : digits) : nat := 16 * length n.

Definition mpz_pow_inpl (dest lhs rhs : mpz_t) : option mpz_t :=
  if mpz_is_zero lhs || neg rhs then mpz_set_from_int dest 0 else
  if mpz_is_zero rhs then mpz_set_from_int dest 1 else
  x ← mpz_clone lhs;
  n ← mpz_clone rhs;
  dest ← mpz_set_from_int dest 1;
  pow_loop (pow_fuel (dig n)) dest x (dig n).

(** [rem_is_lhs]: the remainder replaces [lhs], whose sign is read after that
    of the remainder has been set. *)
Definition mpz_divmod_inpl (rem_is_lhs : bool) (dest_quo dest_rem lhs rhs : mpz_t)
    : option (mpz_t * mpz_t) :=
  if mpz_is_zero rhs then None else
  quo ← mpz_need_dig dest_quo (len lhs + 1);
  quo ← put quo false (length (dig lhs) + 1) [];
  rem ← mpz_need_dig dest_rem (len lhs + 1);
  rem ← mpz_set rem lhs;
  '(r, q) ← mpn_div (dig rem) (dig rhs);
  rem ← put rem (neg rem && negb (Z.of_nat (length r) =? 0)) (length (dig rem) + 1) r;
  quo ← put quo false (length q) q;
  let lhs_neg := if rem_is_lhs then neg rem else neg lhs in
  if negb (eqb lhs_neg (neg rhs)) then
    quo ← put quo (negb (len quo =? 0)) 0 (dig quo);
    if mpz_is_zero rem then Some (quo, rem) else
    mpzone ← mpz_init_from_int (-1);
    quo ← mpz_add_inpl quo quo mpzone;
    rem ← mpz_add_inpl rem rem rhs;
    Some (quo, rem)
  else Some (quo, rem).

Fixpoint pow3_loop (fuel : nat) (dest x quo : mpz_t) (n : digits) (m : mpz_t) : option mpz_t :=
  match n with
  | [] => Some dest
  | d :: _ =>
      match fuel with
      | O => None
      | S fuel =>
          '(quo, dest) ←
            if negb (Z.land d 1 =? 0) then
              dest ← mpz_mul_inpl true false dest dest x;
              mpz_divmod_inpl true quo dest dest m
            else Some (quo, dest);
          let n := mpn_shr n 1 in
          match n with
          | [] => Some dest
          | _ =>
              x ← mpz_mul_inpl true true x x x;
              '(quo, x) ← mpz_divmod_inpl true quo x x m;
              pow3_loop fuel dest x quo n m
          end
      end
  end.

(** [d_lhs], [d_rhs]: the operand is the destination, which is set to 1 before
    the operands are copied. *)
Definition mpz_pow3_inpl (d_lhs d_rhs : bool) (dest lhs rhs m : mpz_t) : option mpz_t :=
  if mpz_is_zero lhs || neg rhs || ((len m =? 1) && (default 0 (head (dig m)) =? 1))
  then mpz_set_from_int dest 0 else
  dest ← mpz_set_from_int dest 1;
  let lhs := if d_lhs then dest else lhs in
  let rhs := if d_rhs then dest else rhs in
  if mpz_is_zero rhs then Some dest else
  x ← mpz_clone lhs;
  n ← mpz_clone rhs;
  pow3_loop (pow_fuel (dig n)) dest x mpz_init_zero (dig n) m.

(** * Conversions to machine integers, bytes and text *)

(** From the top digit. *)
Fixpoint hash_loop (d_rev : digits) (val : Z) : Z :=
  match d_rev with
  | [] => val
  | d :: d_rev => hash_loop d_rev (wrapu 32 (Z.lor (wrapu 32 (Z.shiftl val DIG_SIZE)) d))
  end.

Definition mpz_hash (z : mpz_t) : Z :=
  let val := hash_loop (rev (dig z)) 0 in
  wraps 32 (if neg z then wrapu 32 (- val) else val).

(** [~(MP_OBJ_WORD_MSBIT_HIGH)] *)
Definition WORD_MAX : Z := wrapu 32 (Z.lnot (Z.shiftl 1 31)).

Fixpoint as_int_loop (max : Z) (d_rev : digits) (val : Z) : option Z :=
  match d_rev with
  | [] => Some val
  | d :: d_rev =>
      if max <? val then None
      else as_int_loop max d_rev (wrapu 32 (Z.lor (wrapu 32 (Z.shiftl val DIG_SIZE)) d))
  end.

(** The value when the function returns [true]. *)
Definition mpz_as_int_checked (i : mpz_t) : option Z :=
  val ← as_int_loop (Z.shiftr WORD_MAX DIG_SIZE) (rev (dig i)) 0;
  Some (wraps 32 (if neg i then wrapu 32 (- val) else val)).

Definition mpz_as_uint_checked (i : mpz_t) : option Z :=
  if neg i then None
  else as_int_loop (Z.shiftr WORD_MAX (DIG_SIZE - 1)) (rev (dig i)) 0.

(** The bytes of a digit, last written first; the buffer has room for [room]
    more.  [inl] when the buffer is full, [None] when a byte is written outside
    it. *)
Fixpoint digit_bytes (bits8 : nat) (n : bool) (d carry : Z) (room : nat) (acc : list Z)
    : option (list Z + Z * Z * nat * list Z) :=
  match bits8 with
  | O => Some (inr (d, carry, room, acc))
  | S bits8 =>
      match room with
      | O => None
      | S room =>
          let val := dig_t d in
          let val := if n then dig_t (Z.land (Z.lnot val) 255 + carry) else val in
          let carry := if n then Z.shiftr val 8 else carry in
          let acc := wrapu 8 val :: acc in
          match room with
          | O => Some (inl acc)
          | _ => digit_bytes bits8 n (Z.shiftr d 8) carry room acc
          end
      end
  end.

Fixpoint as_bytes_loop (n : bool) (zdig : digits) (d carry : Z) (bits : Z) (room : nat) (acc : list Z)
    : option (list Z) :=
  match zdig with
  | [] => Some (replicate room (if n then 255 else 0) ++ acc)
  | x :: zdig =>
      let bits := bits + DIG_SIZE in
      r ← digit_bytes (Z.to_nat (bits / 8)) n (Z.lor (dbl (Z.shiftl d DIG_SIZE)) x) carry room acc;
      match r with
      | inl acc => Some acc
      | inr (d, carry, room, acc) => as_bytes_loop n zdig d carry (bits mod 8) room acc
      end
  end.

(** The contents of [buf]; the loop fills it from its end when it is
    big-endian. *)
Definition mpz_as_bytes (z : mpz_t) (big_endian : bool) (len : nat) : option (list Z) :=
  acc ← as_bytes_loop (neg z) (dig z) 0 1 0 len [];
  Some (if big_endian then acc else rev acc).

(** One division of the copied digits, from the top one: the digits from the
    top, and the remainder. *)
Fixpoint div_base (d_rev : digits) (base a : Z) : digits * Z :=
  match d_rev with
  | [] => ([], a)
  | d :: d_rev =>
      let a := Z.lor (dbl (Z.shiftl a DIG_SIZE)) d in
      let '(q, r) := div_base d_rev base (a mod base) in
      (dig_t (a / base) :: q, r)
  end.

Definition digit_char (base_char a : Z) : Z :=
  let a := a + 48 in
  if 57 <? a then a + (base_char - 57 - 1) else a.

(** [comma] is 0 for none; [since] is [s - last_comma].  The characters are
    those of the string in its final order. *)
Fixpoint as_str_loop (fuel : nat) (dig_rev : digits) (base base_char comma since : Z) (s : list Z)
    : option (list Z) :=
  match fuel with
  | O => None
  | S fuel =>
      let '(dig_rev, a) := div_base dig_rev base 0 in
      let s := digit_char base_char a :: s in
      let done := forallb (Z.eqb 0) dig_rev in
      let '(s, since) :=
        if negb (comma =? 0) && (since + 1 =? 3) then (comma :: s, 0) else (s, since + 1) in
      if done then Some s else as_str_loop fuel dig_rev base base_char comma since s
  end.

Definition mpz_as_str_inpl (i : mpz_t) (base : Z) (prefix : list Z) (base_char comma : Z) : option (list Z) :=
  if (base <? 2) || (32 <? base) then None else
  if mpz_is_zero i then Some (prefix ++ [48]) else
  s ← as_str_loop (16 * length (dig i)) (rev (dig i)) base base_char comma 0 [];
  let s := prefix ++ s in
  Some (if neg i then 45 :: s else s).
