(* ===== verification/MpzSpec.v ===== *)
(** The operations of [Mpz] compute on the integers: for well-formed operands
    and a destination that may grow, each returns a well-formed number whose
    value is that of the mathematical operation (division and shifts round
    down, bitwise operations are those of the two's complement). *)

From Stdlib Require Import ZArith Lia.
From stdpp Require Import base option list numbers.
From S2P Require Import Prelude Mpn MpnSpec MpnDiv MpnBits Mpz.

(** * Values and well-formedness *)

Definition zval (z : mpz_t) : Z := signed (neg z) (val (dig z)).

(** The digits are in range and normalised, zero is not negative, and the
    buffer holds the digits. *)
Record mpz_ok (z : mpz_t) : Prop := {
  ok_digs : digs (dig z);
  ok_normal : normal (dig z);
  ok_neg : neg z = true -> dig z <> [];
  ok_alloc : len z <= alloc z;
}.

Definition growable (z : mpz_t) : Prop := fixed_dig z = false.

(** The operation succeeds with a well-formed number of value [v]. *)
Definition returns (v : Z) (o : option mpz_t) : Prop :=
  exists r, o = Some r /\ mpz_ok r /\ growable r /\ zval r = v.

(** The same, seen from the value. *)
Definition rep (v : Z) (z : mpz_t) : Prop :=
  num (Z.abs v) (dig z) /\ neg z = (v <? 0) /\ len z <= alloc z.

Lemma mpz_ok_rep z : mpz_ok z -> rep (zval z) z.
Proof.
  intros [Hd Hn Hneg Ha]. unfold rep, zval, signed. pose proof (val_nonneg _ Hd).
  destruct (neg z).
  - pose proof (normal_val_pos _ Hd Hn (Hneg eq_refl)).
    rewrite Z.abs_opp, Z.abs_eq by lia. split_and!; [done| |done]. symmetry. apply Z.ltb_lt. lia.
  - rewrite Z.abs_eq by lia. split_and!; [done| |done]. symmetry. by apply Z.ltb_ge.
Qed.

Lemma rep_mpz_ok v z : rep v z -> mpz_ok z /\ zval z = v.
Proof.
  intros ((Hd & Hn & Hv) & Hneg & Ha). unfold zval. split.
  - split; try done. rewrite Hneg. intros Hlt%Z.ltb_lt E. rewrite E in Hv. cbn in Hv. lia.
  - rewrite Hneg, Hv. unfold signed. destruct (Z.ltb_spec v 0); lia.
Qed.

Lemma returns_rep v o : returns v o <-> exists r, o = Some r /\ rep v r /\ growable r.
Proof.
  split.
  - intros (r & -> & Hr & Hg & <-). exists r. split_and!; [done|by apply mpz_ok_rep|done].
  - intros (r & -> & Hr & Hg). apply rep_mpz_ok in Hr as [Hr Hv]. by exists r.
Qed.

(** ** Sizes *)

Lemma num_len_0 v i : num v i -> (Z.of_nat (length i) =? 0) = (v =? 0).
Proof.
  intros Hi. destruct i as [|d i].
  - destruct Hi as (_ & _ & <-). done.
  - destruct (Z.eqb_spec v 0) as [->|]; [by apply num_0 in Hi|]. done.
Qed.

Lemma num_length_le a b j k : num a j -> num b k -> b <= a -> (length k <= length j)%nat.
Proof.
  intros (Hj & Nj & Ej) (Hk & Nk & Ek) Hab.
  destruct (Nat.le_gt_cases (length k) (length j)) as [|L]; [done|].
  pose proof (normal_length_lt j k Hj Hk Nk L). lia.
Qed.

Lemma num_length_bound v i n : num v i -> v < Bn n -> (length i <= n)%nat.
Proof.
  intros (Hi & Ni & Ev) Hv. destruct (Nat.le_gt_cases (length i) n) as [|L]; [done|].
  assert (i <> []) as Hne by (intros ->; cbn in L; lia).
  pose proof (normal_bound i Hi Hne Ni). pose proof (Bn_le n (length i - 1) ltac:(lia)). lia.
Qed.

Lemma length_trim l : (length (mpn_remove_trailing_zeros l) <= length l)%nat.
Proof.
  induction l as [|d l IH]; [done|]. cbn [mpn_remove_trailing_zeros].
  destruct (mpn_remove_trailing_zeros l); [case_match|]; cbn in *; lia.
Qed.

Lemma rep_zero v z : rep v z -> mpz_is_zero z = (v =? 0).
Proof.
  intros (Hn & _ & _). unfold mpz_is_zero, len. rewrite (num_len_0 _ _ Hn).
  destruct (Z.eqb_spec (Z.abs v) 0), (Z.eqb_spec v 0); lia.
Qed.

Lemma rep_digs v z : rep v z -> digs (dig z) /\ normal (dig z) /\ val (dig z) = Z.abs v.
Proof. intros (Hn & _ & _). exact Hn. Qed.

Lemma rep_signed v z : rep v z -> signed (neg z) (val (dig z)) = v.
Proof.
  intros ((_ & _ & ->) & -> & _). unfold signed. destruct (Z.ltb_spec v 0); lia.
Qed.

Lemma rep_neg_ne v z : rep v z -> neg z = true -> dig z <> [].
Proof. intros Hr. apply rep_mpz_ok in Hr as [[] _]. done. Qed.

(** * Buffers *)

Lemma need_dig_ok z n :
  growable z -> exists z', mpz_need_dig z n = Some z' /\ growable z' /\
    n <= alloc z' /\ 2 <= alloc z' /\ alloc z <= alloc z' /\ neg z' = neg z /\ dig z' = dig z.
Proof.
  intros Hg. unfold mpz_need_dig, MIN_ALLOC. rewrite Hg.
  destruct (Z.ltb_spec n 2); destruct (Z.ltb_spec (alloc z) (if true then 2 else n));
    try (destruct (Z.ltb_spec (alloc z) n)); eexists; (split; [done|]); cbn; split_and!; try done; lia.
Qed.

Lemma put_eq z s w i :
  Z.of_nat w <= alloc z ->
  put z s w i = Some {| neg := s; fixed_dig := fixed_dig z; alloc := alloc z; dig := i |}.
Proof. intros Hw. unfold put. by rewrite (proj2 (Z.leb_le _ _) Hw). Qed.

Lemma put_ok z s w i v :
  growable z -> Z.of_nat w <= alloc z -> Z.of_nat (length i) <= alloc z ->
  num (Z.abs v) i -> s = (v <? 0) -> returns v (put z s w i).
Proof.
  intros Hg Hw Hi Hn Hs. apply returns_rep. unfold put. rewrite (proj2 (Z.leb_le _ _) Hw).
  eexists. split; [done|]. by split.
Qed.

(** Booleans about integers, by cases. *)
Ltac zcases :=
  repeat match goal with
  | |- context [?a <? ?b] => destruct (Z.ltb_spec a b)
  | |- context [?a <=? ?b] => destruct (Z.leb_spec a b)
  | |- context [?a =? ?b] => destruct (Z.eqb_spec a b)
  | H : context [?a <? ?b] |- _ => destruct (Z.ltb_spec a b)
  end; cbn [andb orb negb eqb xorb Z.b2z] in *; try lia; try done.

(** A growable copy of a buffer of at least [n] digits. *)
Ltac need z :=
  let z' := fresh z in let E := fresh "E" in let G := fresh "G" in
  let A := fresh "A" in let A2 := fresh "A" in let A3 := fresh "A" in let N := fresh "N" in
  let D := fresh "D" in
  match goal with
  | |- context [mpz_need_dig z ?n] =>
      destruct (need_dig_ok z n ltac:(assumption)) as (z' & E & G & A & A2 & A3 & N & D);
      rewrite E; cbn [mbind option_bind]
  end.

Lemma mpz_set_ok dest src v : growable dest -> rep v src -> returns v (mpz_set dest src).
Proof.
  intros Hg (Hn & Hs & Ha). unfold mpz_set. need dest. by apply put_ok.
Qed.

(** A step that continues with a number of value [v]. *)
Lemma returns_bind {A} v o (k : mpz_t -> option A) (P : option A -> Prop) :
  returns v o -> (forall z, rep v z -> growable z -> P (k z)) -> P (z ← o; k z).
Proof. intros (z & -> & Hz & Hg & <-)%returns_rep || intros Hr HP. apply returns_rep in Hr as (z & -> & Hz & Hg). cbn. by apply HP. Qed.

Lemma uval_digits_ok room u :
  0 <= u < Bn room -> exists i, uval_digits room u = Some i /\ num u i /\ (length i <= room)%nat.
Proof.
  revert u. induction room as [|room IH]; intros u Hu; cbn [uval_digits].
  { rewrite Bn_0 in Hu. assert (u = 0) as -> by lia. by exists []. }
  rewrite Bn_S in Hu. destruct (Z.ltb_spec 0 u).
  - fold (hi u). destruct (IH (hi u)) as (i & -> & (Hd & Hn & Hv) & Hl); [rewrite hi_spec; dlia|].
    eexists. split; [done|]. pose proof (lo_hi u). split; [|cbn; lia].
    split_and!; [by apply digs_cons| |cbn [val]; lia].
    destruct i; [|by apply normal_cons]. apply (normal_snoc []). cbn in Hv. lia.
  - exists []. assert (u = 0) as -> by lia. split_and!; try done. cbn. lia.
Qed.

Lemma set_from_ok z v n u (s : bool) :
  growable z -> 0 <= n -> u = Z.abs v -> Z.abs v < B ^ n -> s = (v <? 0) ->
  returns v (z ← mpz_need_dig z n; i ← uval_digits (Z.to_nat (alloc z)) u; put z s (length i) i).
Proof.
  intros Hg Hn -> Hv ->. need z.
  destruct (uval_digits_ok (Z.to_nat (alloc z0)) (Z.abs v)) as (i & -> & Hi & Hl).
  { split; [lia|]. unfold Bn. rewrite Z2Nat.id by lia.
    eapply Z.lt_le_trans; [exact Hv|]. apply Z.pow_le_mono_r; lia. }
  cbn [mbind option_bind]. apply put_ok; try done; lia.
Qed.

Lemma mpz_set_from_int_ok z v :
  growable z -> 0 <= alloc z -> - 2 ^ 31 <= v < 2 ^ 31 -> returns v (mpz_set_from_int z v).
Proof.
  intros Hg Ha Hv. unfold mpz_set_from_int. destruct (Z.eqb_spec v 0) as [->|Hne].
  { apply returns_rep. eexists. split; [done|]. split; [|done]. split_and!; try done. }
  assert (wrapu 32 (if v <? 0 then - v else v) = Z.abs v) as ->.
  { rewrite wrapu_small; zcases. }
  apply set_from_ok; try done. change (B ^ MPZ_NUM_DIG_FOR_INT) with (2 ^ 32). lia.
Qed.

Lemma mpz_set_from_ll_ok z v (is_signed : bool) :
  growable z -> (if is_signed then - 2 ^ 63 <= v < 2 ^ 63 else 0 <= v < 2 ^ 64) ->
  returns v (mpz_set_from_ll z v is_signed).
Proof.
  intros Hg Hv. unfold mpz_set_from_ll. apply set_from_ok; try done.
  - destruct is_signed; cbn [andb].
    + destruct (Z.ltb_spec v 0); [|rewrite wrapu_small; lia].
      unfold wrapu. rewrite <- Z.sub_0_l, Zminus_mod_idemp_r, Z.mod_small; lia.
    + rewrite wrapu_small; lia.
  - change (B ^ MPZ_NUM_DIG_FOR_LL) with (2 ^ 64). destruct is_signed; lia.
  - destruct is_signed; zcases.
Qed.

(** * Sign operations and comparison *)

Lemma mpz_cmp_ok z1 z2 v1 v2 :
  rep v1 z1 -> rep v2 z2 ->
  Z.sgn (mpz_cmp z1 z2) = Z.sgn (v1 - v2).
Proof.
  intros ((D1 & N1 & V1) & S1 & _) ((D2 & N2 & V2) & S2 & _). unfold mpz_cmp.
  rewrite mpn_cmp_spec, V1, V2, S1, S2 by done.
  remember (Z.sgn (v1 - v2)) as t eqn:Et.
  destruct (Z.compare_spec (Z.abs v1) (Z.abs v2));
    destruct (Z.ltb_spec v1 0), (Z.ltb_spec v2 0);
    match goal with |- ?x = t => let y := eval compute in x in change (y = t) end; lia.
Qed.

Lemma same_dest (same : bool) dest z v :
  growable dest -> (same = true -> growable z) -> rep v z -> returns v (if same then Some z else mpz_set dest z).
Proof.
  intros Hd Hg Hz. destruct same; [|by apply mpz_set_ok]. apply returns_rep. exists z. auto.
Qed.

Lemma mpz_abs_ok same dest z v :
  growable dest -> (same = true -> growable z) -> rep v z -> returns (Z.abs v) (mpz_abs_inpl same dest z).
Proof.
  intros Hd Hg Hz. unfold mpz_abs_inpl. eapply returns_bind; [by apply same_dest|].
  intros d (Hn & _ & Ha) Hgd. unfold len in Ha. apply put_ok; try done; [lia| |zcases].
  by rewrite Z.abs_eq by lia.
Qed.

Lemma mpz_neg_ok same dest z v :
  growable dest -> (same = true -> growable z) -> rep v z -> returns (- v) (mpz_neg_inpl same dest z).
Proof.
  intros Hd Hg Hz. unfold mpz_neg_inpl. eapply returns_bind; [by apply same_dest|].
  intros d Hr Hgd. pose proof Hr as (Hn & Hs & Ha). unfold len in *.
  rewrite (num_len_0 _ _ Hn). destruct (Z.eqb_spec (Z.abs v) 0).
  - apply returns_rep. exists d. assert (v = 0) as -> by lia. done.
  - apply put_ok; try done; [lia|by rewrite Z.abs_opp|]. rewrite Hs. zcases.
Qed.

Lemma num_1 : num 1 [1].
Proof. by apply num_digit. Qed.

Lemma mpz_not_ok same dest z v :
  growable dest -> (same = true -> growable z) -> rep v z -> returns (Z.lnot v) (mpz_not_inpl same dest z).
Proof.
  intros Hd Hg Hz. unfold mpz_not_inpl. eapply returns_bind; [by apply same_dest|].
  clear dest z Hd Hg Hz. intros d (Hn & Hs & Ha) Hgd. unfold Z.lnot, len in *.
  rewrite (num_len_0 _ _ Hn). pose proof Hn as (Hdg & Hno & Hv).
  destruct (Z.eqb_spec (Z.abs v) 0).
  { assert (v = 0) as -> by lia. need d. apply put_ok; [done|lia|cbn [length]; lia|exact num_1|done]. }
  assert (digs [1]) as H1 by apply num_1.
  assert (1 <= length (dig d))%nat as Hl by (destruct (dig d); cbn in *; lia).
  rewrite Hs. destruct (Z.ltb_spec v 0).
  - destruct (mpn_sub_spec (dig d) [1] Hdg H1 Hl) as [Hnum Hle]; [rewrite Hv; cbn; lia|].
    rewrite Hv in Hnum. cbn [val] in Hnum.
    apply put_ok; try done; [rewrite length_mpn_sub_loop; lia|lia| |zcases].
    by replace (Z.abs (Z.pred (- v))) with (Z.abs v - (1 + B * 0)) by lia.
  - need d. rewrite D.
    destruct (mpn_add_spec (dig d) [1] Hdg Hno H1 Hl) as [Hnum Hle].
    apply put_ok; try done; [lia|lia| |zcases].
    rewrite Hv in Hnum. cbn [val] in Hnum. by replace (Z.abs (Z.pred (- v))) with (Z.abs v + (1 + B * 0)) by lia.
Qed.

(** * Addition and subtraction *)

Section binary.
Context (dest lhs rhs : mpz_t) (a b : Z).
Context (Hg : growable dest) (Ha : rep a lhs) (Hb : rep b rhs).

Lemma magnitude_le : (mpn_cmp (dig lhs) (dig rhs) <? 0) = (Z.abs a <? Z.abs b).
Proof using Ha Hb.
  destruct (rep_digs _ _ Ha) as (?&?&Ea), (rep_digs _ _ Hb) as (?&?&Eb).
  rewrite mpn_cmp_spec, Ea, Eb by done. destruct (Z.compare_spec (Z.abs a) (Z.abs b)); zcases.
Qed.

(** The larger magnitude first: the two branches shared by [mpz_add_inpl] and
    [mpz_sub_inpl]. *)
Lemma add_branch v (s : digits -> bool) :
  Z.abs b <= Z.abs a -> Z.abs v = Z.abs a + Z.abs b ->
  (forall i, num (Z.abs v) i -> s i = (v <? 0)) ->
  returns v (dest ← mpz_need_dig dest (len lhs + 1);
    let i := mpn_add (dig lhs) (dig rhs) in put dest (s i) (length i) i).
Proof using Hg Ha Hb.
  intros Hle Hv Hs. destruct Ha as ((Da & Na & Ea) & _), Hb as ((Db & Nb & Eb) & _).
  pose proof (num_length_le _ _ _ _ (conj Da (conj Na Ea)) (conj Db (conj Nb Eb)) Hle) as Hl.
  need dest. cbn zeta. destruct (mpn_add_spec _ _ Da Na Db Hl) as [Hn Hlen].
  rewrite Ea, Eb, <- Hv in Hn. unfold len in *. apply put_ok; try done; [lia..|]. by apply Hs.
Qed.

Lemma sub_branch v (s : digits -> bool) :
  Z.abs b <= Z.abs a -> Z.abs v = Z.abs a - Z.abs b ->
  (forall i, num (Z.abs v) i -> s i = (v <? 0)) ->
  returns v (dest ← mpz_need_dig dest (len lhs);
    let i := mpn_sub (dig lhs) (dig rhs) in
    put dest (s i) (length (mpn_sub_loop (dig lhs) (dig rhs) 0)) i).
Proof using Hg Ha Hb.
  intros Hle Hv Hs. destruct Ha as ((Da & Na & Ea) & _), Hb as ((Db & Nb & Eb) & _).
  pose proof (num_length_le _ _ _ _ (conj Da (conj Na Ea)) (conj Db (conj Nb Eb)) Hle) as Hl.
  need dest. cbn zeta. destruct (mpn_sub_spec _ _ Da Db Hl ltac:(lia)) as [Hn Hlen].
  rewrite Ea, Eb, <- Hv in Hn. unfold len in *. rewrite length_mpn_sub_loop.
  apply put_ok; try done; [lia..|]. by apply Hs.
Qed.
End binary.

Lemma mpz_add_ok dest lhs rhs a b :
  growable dest -> rep a lhs -> rep b rhs -> returns (a + b) (mpz_add_inpl dest lhs rhs).
Proof.
  intros Hg Ha Hb. unfold mpz_add_inpl. rewrite (magnitude_le lhs rhs a b) by done.
  pose proof Ha as (_ & Sa & _). pose proof Hb as (_ & Sb & _).
  destruct (Z.ltb_spec (Z.abs a) (Z.abs b)); rewrite Sa, Sb; destruct (eqb _ _) eqn:E.
  1: apply (add_branch dest rhs lhs b a Hg Hb Ha (a + b) (fun i => (b <? 0) && negb (Z.of_nat (length i) =? 0))).
  4: apply (sub_branch dest rhs lhs b a Hg Hb Ha (a + b) (fun i => (b <? 0) && negb (Z.of_nat (length i) =? 0))).
  7: apply (add_branch dest lhs rhs a b Hg Ha Hb (a + b) (fun i => (a <? 0) && negb (Z.of_nat (length i) =? 0))).
  10: apply (sub_branch dest lhs rhs a b Hg Ha Hb (a + b) (fun i => (a <? 0) && negb (Z.of_nat (length i) =? 0))).
  all: try (intros i Hi; rewrite (num_len_0 _ _ Hi)); revert E; zcases.
Qed.

Lemma mpz_sub_ok dest lhs rhs a b :
  growable dest -> rep a lhs -> rep b rhs -> returns (a - b) (mpz_sub_inpl dest lhs rhs).
Proof.
  intros Hg Ha Hb. unfold mpz_sub_inpl. rewrite (magnitude_le lhs rhs a b) by done.
  pose proof Ha as (_ & Sa & _). pose proof Hb as (_ & Sb & _).
  set (sign1 := fun i : digits => if Z.of_nat (length i) =? 0 then false else negb (b <? 0)).
  set (sign2 := fun i : digits => if Z.of_nat (length i) =? 0 then false else (a <? 0)).
  destruct (Z.ltb_spec (Z.abs a) (Z.abs b)); rewrite Sa, Sb; destruct (eqb _ _) eqn:E; cbn [negb].
  1: apply (sub_branch dest rhs lhs b a Hg Hb Ha (a - b) sign1).
  4: apply (add_branch dest rhs lhs b a Hg Hb Ha (a - b) sign1).
  7: apply (sub_branch dest lhs rhs a b Hg Ha Hb (a - b) sign2).
  10: apply (add_branch dest lhs rhs a b Hg Ha Hb (a - b) sign2).
  all: try (intros i Hi; unfold sign1, sign2; rewrite (num_len_0 _ _ Hi)); revert E; zcases.
Qed.

(** * Bitwise operations *)

(** Fewer digits than the address space holds. *)
Definition small (z : mpz_t) : Prop := len z < 2 ^ 32.

Lemma longest_first_ok lhs rhs a b (op : Z -> Z -> Z) :
  (forall x y, op x y = op y x) -> rep a lhs -> rep b rhs -> small lhs -> small rhs ->
  exists l r a' b', longest_first lhs rhs = (l, r) /\ rep a' l /\ rep b' r /\ op a' b' = op a b /\
    (length (dig r) <= length (dig l))%nat /\ small l.
Proof.
  intros Hc Ha Hb Hl Hr. unfold longest_first, len.
  destruct (Z.ltb_spec (Z.of_nat (length (dig lhs))) (Z.of_nat (length (dig rhs)))).
  - exists rhs, lhs, b, a. split_and!; try done. lia.
  - exists lhs, rhs, a, b. split_and!; try done. lia.
Qed.

Section bitwise.
Context (dest lhs rhs : mpz_t) (a b : Z).
Context (Hg : growable dest) (Ha : rep a lhs) (Hb : rep b rhs) (Hl : small lhs) (Hr : small rhs).

Lemma mpz_and_ok : returns (Z.land a b) (mpz_and_inpl dest lhs rhs).
Proof using All.
  unfold mpz_and_inpl.
  destruct (longest_first_ok lhs rhs a b Z.land Z.land_comm Ha Hb Hl Hr)
    as (l & r & x & y & -> & Hx & Hy & <- & Hlen & Hs).
  destruct (rep_digs _ _ Hx) as (Dx & Nx & _), (rep_digs _ _ Hy) as (Dy & Ny & _).
  destruct (mpn_and_neg_spec (neg l) (neg r) (dig l) (dig r) Dx Dy Nx Ny
    (rep_neg_ne _ _ Hx) (rep_neg_ne _ _ Hy) Hlen Hs) as (Hn & Hneg & Hlr).
  rewrite (rep_signed _ _ Hx), (rep_signed _ _ Hy) in *.
  need dest. unfold len in *. cbn zeta.
  replace (if eqb (neg l) (neg r) then Z.b2z (neg l) else 0) with (Z.b2z (neg l && neg r))
    by (destruct (neg l), (neg r); done).
  assert (length (mpn_and_neg (dig l) (dig r) (Z.b2z (neg l && neg r)) (Z.b2z (neg l)) (Z.b2z (neg r))) <=
    length (mpn_and_neg_raw (dig l) (dig r) (Z.b2z (neg l && neg r)) (Z.b2z (neg l)) (Z.b2z (neg r))))%nat.
  { apply length_trim. }
  apply put_ok; try done; destruct (neg l), (neg r); cbn [andb orb Z.b2z] in *; lia.
Qed.

Lemma mpz_or_ok : returns (Z.lor a b) (mpz_or_inpl dest lhs rhs).
Proof using All.
  unfold mpz_or_inpl.
  destruct (longest_first_ok lhs rhs a b Z.lor Z.lor_comm Ha Hb Hl Hr)
    as (l & r & x & y & -> & Hx & Hy & <- & Hlen & Hs).
  destruct (rep_digs _ _ Hx) as (Dx & Nx & _), (rep_digs _ _ Hy) as (Dy & Ny & _).
  destruct (mpn_or_neg_spec (neg l) (neg r) (dig l) (dig r) Dx Dy Nx Ny
    (rep_neg_ne _ _ Hx) (rep_neg_ne _ _ Hy) Hlen Hs) as (i & Hi & Hn & Hneg & Hlr).
  rewrite (rep_signed _ _ Hx), (rep_signed _ _ Hy) in *.
  need dest. unfold len in *. cbn zeta. rewrite Hi, Hlr. cbn [mbind option_bind].
  assert (length i <= length (dig l))%nat.
  { rewrite <- Hlr. unfold mpn_or_neg in Hi. case_match; [|done]. simplify_eq. apply length_trim. }
  apply put_ok; try done; destruct (neg l), (neg r); cbn [orb Z.b2z] in *; lia.
Qed.

Lemma mpz_xor_ok : returns (Z.lxor a b) (mpz_xor_inpl dest lhs rhs).
Proof using All.
  unfold mpz_xor_inpl.
  destruct (longest_first_ok lhs rhs a b Z.lxor Z.lxor_comm Ha Hb Hl Hr)
    as (l & r & x & y & -> & Hx & Hy & <- & Hlen & Hs).
  destruct (rep_digs _ _ Hx) as (Dx & Nx & _), (rep_digs _ _ Hy) as (Dy & Ny & _).
  destruct (mpn_xor_neg_spec (neg l) (neg r) (dig l) (dig r) Dx Dy Nx Ny
    (rep_neg_ne _ _ Hx) (rep_neg_ne _ _ Hy) Hlen Hs) as (Hn & Hneg & Hlr).
  rewrite (rep_signed _ _ Hx), (rep_signed _ _ Hy) in *.
  need dest. unfold len in *. cbn zeta.
  assert (length (mpn_xor_neg (dig l) (dig r) (Z.b2z (xorb (neg l) (neg r))) (Z.b2z (negb (neg l))) (Z.b2z (negb (neg r)))) <=
    length (mpn_xor_neg_raw (dig l) (dig r) (Z.b2z (xorb (neg l) (neg r))) (Z.b2z (negb (neg l))) (Z.b2z (negb (neg r)))))%nat.
  { apply length_trim. }
  apply put_ok; try done; destruct (neg l), (neg r); cbn [xorb orb Z.b2z negb] in *; lia.
Qed.
End bitwise.

(** * Shifts *)

Lemma mpz_shl_ok dest lhs a n :
  growable dest -> rep a lhs -> 0 <= n -> returns (Z.shiftl a n) (mpz_shl_inpl dest lhs n).
Proof.
  intros Hg Ha Hn. unfold mpz_shl_inpl. rewrite (rep_zero _ _ Ha), Z.shiftl_mul_pow2 by done.
  destruct (Z.eqb_spec a 0) as [->|Ha0]; [rewrite Z.mul_0_l; by apply mpz_set_ok|].
  destruct (Z.eqb_spec n 0) as [->|Hn0]; [rewrite Z.mul_1_r; by apply mpz_set_ok|]. cbn [orb].
  destruct (rep_digs _ _ Ha) as (D0 & N0 & V0). pose proof Ha as (_ & -> & _).
  need dest. destruct (mpn_shl_raw_spec (dig lhs) n D0 ltac:(lia)) as (_ & _ & Hl).
  pose proof (mpn_shl_spec (dig lhs) n D0 ltac:(lia)) as Hs. rewrite V0 in Hs.
  assert (length (mpn_shl (dig lhs) n) <= length (mpn_shl_raw (dig lhs) n))%nat by apply length_trim.
  assert (0 < 2 ^ n) by (apply Z.pow_pos_nonneg; lia). unfold len in *.
  apply put_ok; try done; [lia|lia| |].
  - by rewrite Z.abs_mul, (Z.abs_eq (2 ^ n)) by lia.
  - destruct (Z.ltb_spec a 0), (Z.ltb_spec (a * 2 ^ n) 0); nia || done.
Qed.

(** The bits shifted out. *)
Lemma round_up_spec j n :
  digs j -> 0 <= n -> round_up j n = negb (val j mod 2 ^ n =? 0).
Proof.
  intros Hj Hn. unfold round_up. change DIG_SIZE with 16. set (w := Z.to_nat (n / 16)).
  assert (n = 16 * Z.of_nat w + n mod 16 /\ 0 <= n mod 16 < 16) as [En Hp] by (unfold w; dlia).
  set (p := n mod 16) in *. assert (0 < 2 ^ p) by (apply Z.pow_pos_nonneg; lia).
  assert (existsb (fun d => negb (d =? 0)) (take w j) = negb (val (take w j) =? 0)) as ->.
  { generalize (digs_take w j Hj). generalize (take w j). intros l Hl.
    induction Hl as [|d l Hd Hl IH]; [done|]. cbn [existsb val]. rewrite IH.
    pose proof (val_nonneg l Hl). unfold digit in Hd. zcases. }
  assert (match j !! w with Some d => negb (Z.land d (Z.shiftl 1 p - 1) =? 0) | None => false end =
    negb (val (drop w j) mod 2 ^ p =? 0)) as ->.
  { destruct (j !! w) as [d|] eqn:E.
    - rewrite (drop_S j d w E). cbn [val].
      change (Z.shiftl 1 p - 1) with (Z.ones p). rewrite Z.land_ones by lia. do 2 f_equal.
      destruct (shiftr_part p ltac:(lia)) as [_ HB].
      rewrite <- HB. replace (2 ^ (16 - p) * 2 ^ p * val (drop (S w) j))
        with (2 ^ (16 - p) * val (drop (S w) j) * 2 ^ p) by ring.
      by rewrite Z_mod_plus_full.
    - apply lookup_ge_None in E. rewrite drop_ge by done. cbn. by rewrite Z.mod_0_l by lia. }
  rewrite <- (take_drop w j) at 3. rewrite val_app.
  assert (Bn (length (take w j)) * val (drop w j) = Bn w * val (drop w j)) as ->.
  { destruct (Nat.le_gt_cases w (length j)); [by rewrite length_take, Nat.min_l|].
    rewrite (drop_ge j) by lia. cbn. lia. }
  rewrite En at 1. rewrite Z.pow_add_r, <- Bn_pow2 by lia.
  pose proof (val_bound (take w j) ltac:(auto)) as Hb.
  pose proof (Bn_le (length (take w j)) w ltac:(rewrite length_take; lia)).
  pose proof (val_nonneg (drop w j) ltac:(auto)).
  rewrite Z.rem_mul_r by lia.
  rewrite (Z.mul_comm (Bn w) (val _)), Z_mod_plus_full, Z.div_add, (Z.mod_small (val (take w j))), (Z.div_small (val (take w j))) by lia.
  rewrite Z.add_0_l. pose proof (Z.mod_pos_bound (val (drop w j)) (2 ^ p) ltac:(lia)).
  destruct (Z.eqb_spec (val (take w j)) 0), (Z.eqb_spec (val (drop w j) mod 2 ^ p) 0),
    (Z.eqb_spec (val (take w j) + Bn w * (val (drop w j) mod 2 ^ p)) 0); try done; nia.
Qed.

(** Dividing a negative number rounds its magnitude up. *)
Lemma div_neg a q : a < 0 -> 0 < q ->
  Z.abs (a / q) = Z.abs a / q + (if Z.abs a mod q =? 0 then 0 else 1).
Proof.
  intros Ha Hq. assert (a / q < 0) by (apply Z.div_lt_upper_bound; lia).
  rewrite (Z.abs_neq a), (Z.abs_neq (a / q)) by lia.
  rewrite <- (Z.opp_involutive a) at 1. destruct (Z.eqb_spec (- a mod q) 0).
  - rewrite Z.div_opp_l_z by lia. lia.
  - rewrite Z.div_opp_l_nz by lia. lia.
Qed.

Lemma mpz_shr_ok dest lhs a n :
  growable dest -> rep a lhs -> 0 <= n -> returns (Z.shiftr a n) (mpz_shr_inpl false dest lhs n).
Proof.
  intros Hg Ha Hn. unfold mpz_shr_inpl. rewrite (rep_zero _ _ Ha), Z.shiftr_div_pow2 by done.
  destruct (Z.eqb_spec a 0) as [->|Ha0]; [rewrite Z.div_0_l by (apply Z.pow_nonzero; lia); by apply mpz_set_ok|].
  destruct (Z.eqb_spec n 0) as [->|Hn0]; [rewrite Z.div_1_r; by apply mpz_set_ok|]. cbn [orb].
  destruct (rep_digs _ _ Ha) as (D0 & N0 & V0). pose proof Ha as (_ & Sa & _).
  assert (2 <= 2 ^ n) as Hq.
  { change 2 with (2 ^ 1) at 1. apply Z.pow_le_mono_r; lia. }
  need dest. destruct (mpn_shr_spec (dig lhs) n D0 N0 ltac:(lia)) as [Hs Hl].
  rewrite V0 in Hs. unfold len in *. cbn zeta.
  rewrite (put_eq dest0) by lia. cbn [mbind option_bind neg dig alloc].
  set (dest1 := {| neg := _ |}). assert (growable dest1) as G1 by done.
  assert (alloc dest1 = alloc dest0) as A4 by done.
  rewrite round_up_spec, V0, Sa by (done || lia).
  assert (0 <= Z.abs a / 2 ^ n) by (apply Z.div_pos; lia).
  assert (forall v, Z.abs v = Z.abs a / 2 ^ n -> (v <? 0) = (a <? 0) -> returns v (Some dest1)) as Hdone.
  { intros v Ev Es. apply returns_rep. exists dest1. split; [done|]. split; [|done].
    unfold rep, len, dest1. cbn [dig neg alloc].
    split_and!; [by rewrite Ev|by rewrite Es|lia]. }
  destruct (Z.ltb_spec a 0) as [Hneg|Hpos]; cbn [andb].
  2: { assert (0 <= a / 2 ^ n) by (apply Z.div_pos; lia). apply Hdone; zcases. by rewrite !Z.abs_eq by lia. }
  assert (a / 2 ^ n < 0) as Hlt by (apply Z.div_lt_upper_bound; lia).
  pose proof (div_neg a (2 ^ n) Hneg ltac:(lia)) as Hdiv.
  destruct (Z.eqb_spec (Z.abs a mod 2 ^ n) 0) as [E0|E0]; cbn [negb].
  { apply Hdone; zcases. }
  assert (true = (a / 2 ^ n <? 0)) as Hs1 by (symmetry; by apply Z.ltb_lt).
  destruct (mpn_shr (dig lhs) n) as [|x i] eqn:Ei.
  - assert (Z.abs a / 2 ^ n = 0) as Hz by (destruct Hs as (_ & _ & <-); done).
    apply put_ok; [done|lia|cbn [length]; lia| |done]. rewrite Hdiv, Hz. exact num_1.
  - destruct Hs as (Ds & Ns & Vs).
    destruct (mpn_add_spec (x :: i) [1] Ds Ns) as [Hadd _]; [apply num_1|cbn; lia|].
    assert (num (Z.abs (a / 2 ^ n)) (mpn_add (x :: i) [1])) as Hr.
    { rewrite Hdiv, <- Vs. by replace (val (x :: i) + 1) with (val (x :: i) + val [1]) by (cbn [val]; lia). }
    assert (length (mpn_add (x :: i) [1%Z]) <= length (dig lhs))%nat.
    { apply (num_length_le (Z.abs a) (Z.abs (a / 2 ^ n))); [by rewrite <- V0|done|].
      rewrite Hdiv. pose proof (Z.div_mod (Z.abs a) (2 ^ n) ltac:(lia)).
      pose proof (Z.mod_pos_bound (Z.abs a) (2 ^ n) ltac:(lia)). nia. }
    apply put_ok; try done; lia.
Qed.

(** * Multiplication *)

Lemma clone_ok z v : rep v z -> v <> 0 ->
  exists z', mpz_clone z = Some z' /\ rep v z' /\ growable z' /\ neg z' = neg z /\ dig z' = dig z.
Proof.
  intros Hz Hv. unfold mpz_clone. pose proof Hz as (Hn & _ & Ha).
  pose proof (num_len_0 _ _ Hn) as E. unfold len in Ha.
  destruct (Z.eqb_spec (alloc z) 0); [|by eexists].
  destruct (Z.eqb_spec (Z.abs v) 0); [lia|]. apply Z.eqb_neq in E. lia.
Qed.

Lemma abs_zero_iff v z : rep v z -> v <> 0 -> dig z <> [].
Proof. intros (Hn & _) Hv E. rewrite E in Hn. destruct Hn as (_ & _ & E'). cbn in E'. lia. Qed.

(** The product of the (possibly copied) operands. *)
Lemma mul_digits dest lhs rhs a b :
  growable dest -> rep a lhs -> rep b rhs -> a <> 0 -> b <> 0 ->
  returns (a * b) (dest ← mpz_need_dig dest (len lhs + len rhs);
    i ← mpn_mul (replicate (Z.to_nat (alloc dest)) 0) (dig lhs) (dig rhs);
    put dest (negb (eqb (neg lhs) (neg rhs))) (length i) i).
Proof.
  intros Hg Ha Hb Ha0 Hb0. need dest. unfold len in *.
  destruct (rep_digs _ _ Ha) as (Da & Na & Va), (rep_digs _ _ Hb) as (Db & Nb & Vb).
  destruct (mpn_mul_spec (Z.to_nat (alloc dest0)) (dig lhs) (dig rhs)) as (i & -> & Hi & Hne); try done.
  { by apply (abs_zero_iff a). }
  { by apply (abs_zero_iff b). }
  { lia. }
  cbn [mbind option_bind]. rewrite Va, Vb, <- Z.abs_mul in Hi.
  assert (length i <= length (dig lhs) + length (dig rhs))%nat.
  { apply (num_length_bound _ _ _ Hi). rewrite Bn_add, Z.abs_mul.
    pose proof (val_bound _ Da). pose proof (val_bound _ Db). apply Z.mul_lt_mono_nonneg; lia. }
  destruct Ha as (_ & -> & _), Hb as (_ & -> & _).
  apply put_ok; try done; [lia..|].
  destruct (Z.ltb_spec a 0), (Z.ltb_spec b 0), (Z.ltb_spec (a * b) 0); cbn; nia || done.
Qed.

Lemma mpz_mul_ok (l_same r_same : bool) dest lhs rhs a b :
  growable dest -> 0 <= alloc dest -> rep a lhs -> rep b rhs ->
  (l_same = true -> r_same = true -> lhs = rhs) ->
  returns (a * b) (mpz_mul_inpl l_same r_same dest lhs rhs).
Proof.
  intros Hg H0 Ha Hb Hsame. unfold mpz_mul_inpl. rewrite (rep_zero _ _ Ha), (rep_zero _ _ Hb).
  destruct (Z.eqb_spec a 0) as [->|Ha0]; [by apply mpz_set_from_int_ok|].
  destruct (Z.eqb_spec b 0) as [->|Hb0]; [rewrite Z.mul_0_r; by apply mpz_set_from_int_ok|]. cbn [orb].
  assert (exists l, (if l_same then mpz_clone lhs else Some lhs) = Some l /\ rep a l) as (l & -> & Hl).
  { destruct l_same; [destruct (clone_ok lhs a Ha Ha0) as (z & ? & ? & _)|]; eauto. }
  cbn [mbind option_bind].
  assert (exists r, (if r_same then if l_same then Some l else mpz_clone rhs else Some rhs) = Some r /\ rep b r)
    as (r & -> & Hr).
  { destruct r_same; [|by eauto]. destruct l_same.
    - exists l. split; [done|]. specialize (Hsame eq_refl eq_refl) as ->.
      apply rep_mpz_ok in Ha as [_ <-], Hb as [_ <-]. done.
    - destruct (clone_ok rhs b Hb Hb0) as (z & ? & ? & _). eauto. }
  cbn [mbind option_bind]. by apply mul_digits.
Qed.

(** * Powers *)

Lemma shr1_ok n e : num e n -> num (e / 2) (mpn_shr n 1).
Proof.
  intros (D & N & <-). change 2 with (2 ^ 1). by apply mpn_shr_spec.
Qed.

Lemma land_1 n e d : num e (d :: n) -> (Z.land d 1 =? 0) = (e mod 2 =? 0).
Proof.
  intros (_ & _ & <-). change 1 with (Z.ones 1). rewrite Z.land_ones by done. cbn [val].
  change (2 ^ 1) with 2. f_equal. replace (B * val n) with (32768 * val n * 2) by lia.
  by rewrite Z_mod_plus_full.
Qed.

Lemma pow_half x e : 0 <= e -> x ^ e = (if e mod 2 =? 0 then 1 else x) * (x * x) ^ (e / 2).
Proof.
  intros He. rewrite <- Z.pow_2_r, <- Z.pow_mul_r by (try apply Z.div_pos; lia).
  rewrite (Z.div_mod e 2) at 1 by lia.
  pose proof (Z.mod_pos_bound e 2 ltac:(lia)). pose proof (Z.div_pos e 2 He).
  rewrite Z.pow_add_r by lia. destruct (Z.eqb_spec (e mod 2) 0) as [->|].
  - rewrite Z.pow_0_r. lia.
  - replace (e mod 2) with 1 by lia. rewrite Z.pow_1_r. lia.
Qed.

(** A number of at least one digit that can serve again as a destination. *)
Lemma rep_room v z : rep v z -> 0 <= alloc z.
Proof. intros (_ & _ & Ha). unfold len in Ha. lia. Qed.

Lemma pow_loop_ok fuel : forall dest x n d a e,
  growable dest -> growable x -> rep d dest -> rep a x -> num e n -> 0 <= e < 2 ^ Z.of_nat fuel ->
  returns (d * a ^ e) (pow_loop fuel dest x n).
Proof.
  induction fuel as [|fuel IH]; intros dest x n d a e Gd Gx Hd Hx Hn He.
  { assert (e = 0) as -> by (cbn in He; lia). apply num_0 in Hn as ->. cbn [pow_loop].
    rewrite Z.pow_0_r, Z.mul_1_r. apply returns_rep. by exists dest. }
  destruct n as [|d0 n]; cbn [pow_loop].
  { apply num_0 in Hn as ->  || (destruct Hn as (_ & _ & <-)). rewrite Z.pow_0_r, Z.mul_1_r. apply returns_rep. by exists dest. }
  rewrite (land_1 _ _ _ Hn), (pow_half a e) by lia.
  rewrite Nat2Z.inj_succ, Z.pow_succ_r in He by lia.
  eapply (returns_bind (if e mod 2 =? 0 then d else d * a)).
  { destruct (e mod 2 =? 0); cbn [negb]; [apply returns_rep; by exists dest|].
    apply mpz_mul_ok; try done. by eapply rep_room. }
  intros dest' Hd' Gd'. pose proof (shr1_ok _ _ Hn) as Hn'.
  replace (d * ((if e mod 2 =? 0 then 1 else a) * (a * a) ^ (e / 2)))
    with ((if e mod 2 =? 0 then d else d * a) * (a * a) ^ (e / 2)) by (destruct (e mod 2 =? 0); ring).
  cbn zeta. destruct (mpn_shr (d0 :: n) 1) as [|d1 n1] eqn:E.
  { destruct Hn' as (_ & _ & <-). rewrite Z.pow_0_r, Z.mul_1_r. apply returns_rep. by exists dest'. }
  eapply returns_bind.
  { apply (mpz_mul_ok true true x x x a a); try done. by eapply rep_room. }
  intros x' Hx' Gx'. apply IH; try done. split; [apply Z.div_pos; lia|apply Z.div_lt_upper_bound; lia].
Qed.

Lemma pow_fuel_enough e n : num e n -> 0 <= e < 2 ^ Z.of_nat (pow_fuel n).
Proof.
  intros (D & _ & <-). pose proof (val_bound n D) as Hb. rewrite Bn_pow2 in Hb.
  unfold pow_fuel. by rewrite Nat2Z.inj_mul.
Qed.

(** With a base that is not zero, or a positive exponent. *)
Lemma mpz_pow_ok dest lhs rhs a b :
  growable dest -> 0 <= alloc dest -> rep a lhs -> rep b rhs -> 0 <= b -> (a <> 0 \/ 0 < b) ->
  returns (a ^ b) (mpz_pow_inpl dest lhs rhs).
Proof.
  intros Hg H0 Ha Hb Hpos Hor. unfold mpz_pow_inpl. rewrite (rep_zero _ _ Ha), (rep_zero _ _ Hb).
  pose proof Hb as (Hn & -> & _). rewrite (proj2 (Z.ltb_ge _ _)) by lia.
  destruct (Z.eqb_spec a 0) as [->|Ha0]; cbn [orb].
  { rewrite Z.pow_0_l by lia. by apply mpz_set_from_int_ok. }
  destruct (Z.eqb_spec b 0) as [->|Hb0]; [by apply mpz_set_from_int_ok|].
  destruct (clone_ok lhs a Ha Ha0) as (x & -> & Hx & Gx & _). cbn [mbind option_bind].
  destruct (clone_ok rhs b Hb Hb0) as (n & -> & _ & _ & _ & En). cbn [mbind option_bind].
  eapply returns_bind; [by apply (mpz_set_from_int_ok dest 1)|].
  intros d Hd Gd. rewrite Z.abs_eq, <- En in Hn by lia.
  rewrite <- (Z.mul_1_l (a ^ b)). apply pow_loop_ok; try done. by apply pow_fuel_enough.
Qed.

(** * Division *)

(** Division rounding down, from that of the magnitudes. *)
Lemma divmod_sign a b q r :
  b <> 0 -> Z.abs a = Z.abs b * q + r -> 0 <= r < Z.abs b ->
  let r' := if a <? 0 then - r else r in
  let differ := negb (eqb (a <? 0) (b <? 0)) in
  a / b = (if differ then if r =? 0 then - q else - q - 1 else q) /\
  a mod b = (if differ && negb (r =? 0) then r' + b else r').
Proof.
  intros Hb E Hr. cbn zeta.
  assert (forall x y, a = b * x + y -> (0 <= y < b \/ b < y <= 0) -> a / b = x /\ a mod b = y) as U.
  { intros x y Hxy Hy. split; symmetry; [by apply (Z.div_unique _ _ _ y)|by apply (Z.mod_unique _ _ x)]. }
  destruct (Z.ltb_spec a 0), (Z.ltb_spec b 0), (Z.eqb_spec r 0); cbn [negb eqb andb]; apply U; nia.
Qed.

Lemma need_dig_id z n : n <= alloc z -> 2 <= alloc z -> mpz_need_dig z n = Some z.
Proof.
  intros H1 H2. unfold mpz_need_dig, MIN_ALLOC. destruct (Z.ltb_spec n 2);
    by rewrite (proj2 (Z.ltb_ge _ _)) by lia.
Qed.

Lemma rep_put v s w z i :
  Z.of_nat w <= alloc z -> Z.of_nat (length i) <= alloc z -> num (Z.abs v) i -> s = (v <? 0) ->
  exists r, put z s w i = Some r /\ rep v r /\ fixed_dig r = fixed_dig z /\ alloc r = alloc z /\ dig r = i.
Proof. intros Hw Hi Hn Hs. rewrite put_eq by done. by eexists. Qed.

(** A small number in the digits of the caller. *)
Lemma mpz_set_from_int_fixed z v :
  2 <= alloc z -> - 2 ^ 31 <= v < 2 ^ 31 -> exists r, mpz_set_from_int z v = Some r /\ rep v r.
Proof.
  intros Ha Hv. unfold mpz_set_from_int. destruct (Z.eqb_spec v 0) as [->|Hne].
  { eexists. split; [done|]. split_and!; try done. unfold len. cbn. lia. }
  assert (wrapu 32 (if v <? 0 then - v else v) = Z.abs v) as ->.
  { rewrite wrapu_small; zcases. }
  rewrite need_dig_id by done. cbn [mbind option_bind].
  destruct (uval_digits_ok (Z.to_nat (alloc z)) (Z.abs v)) as (i & -> & Hi & Hl).
  { split; [lia|]. pose proof (Bn_le 2 (Z.to_nat (alloc z)) ltac:(lia)). change (Bn 2) with (2 ^ 32) in *. lia. }
  destruct (rep_put v (v <? 0) (length i) z i) as (r' & Ep & Hr & _); [lia|lia|done|done|].
  by exists r'.
Qed.

Lemma mpz_divmod_ok (rem_is_lhs : bool) dest_quo dest_rem lhs rhs a b :
  growable dest_quo -> growable dest_rem -> rep a lhs -> rep b rhs -> b <> 0 ->
  exists quo rem, mpz_divmod_inpl rem_is_lhs dest_quo dest_rem lhs rhs = Some (quo, rem) /\
    rep (a mod b) rem /\ growable rem /\ growable quo /\
    (rem_is_lhs = false -> rep (a / b) quo).
Proof.
  intros Gq Gr Ha Hb Hb0. unfold mpz_divmod_inpl. rewrite (rep_zero _ _ Hb).
  destruct (Z.eqb_spec b 0) as [|_]; [done|].
  destruct (rep_digs _ _ Ha) as (Da & Na & Va), (rep_digs _ _ Hb) as (Db & Nb & Vb).
  pose proof (abs_zero_iff _ _ Hb Hb0) as Hbne.
  need dest_quo. unfold len in A |- *. rewrite put_eq by lia. cbn [mbind option_bind].
  need dest_rem. unfold mpz_set, len. rewrite need_dig_id by lia. cbn [mbind option_bind].
  rewrite put_eq by lia. cbn [mbind option_bind dig neg].
  destruct (mpn_div_spec (dig lhs) (dig rhs) Da Db Nb Hbne Na) as (r & q & -> & Hr & Hq & Hlq).
  cbn [mbind option_bind]. rewrite Va, Vb in *.
  set (R := Z.abs a mod Z.abs b) in *. set (Q := Z.abs a / Z.abs b) in *.
  assert (Z.abs a = Z.abs b * Q + R) as EQ by (apply Z.div_mod; lia).
  pose proof (Z.mod_pos_bound (Z.abs a) (Z.abs b) ltac:(lia)) as HR. fold R in HR.
  assert (0 <= Q) as HQ by (apply Z.div_pos; lia).
  destruct (divmod_sign a b Q R Hb0 EQ HR) as [Ediv Emod].
  rewrite (num_len_0 _ _ Hr). pose proof Ha as (_ & -> & _).
  assert (length r <= length (dig lhs))%nat as Hlr.
  { apply (num_length_le (Z.abs a) R); [by rewrite <- Va|done|].
    rewrite EQ. nia. }
  set (r' := if a <? 0 then - R else R) in *.
  match goal with |- context [put ?z _ _ r] =>
    destruct (rep_put r' ((a <? 0) && negb (R =? 0)) (length (dig lhs) + 1) z r)
      as (rem & -> & Hrem & Frem & Arem & Drem); cbn [alloc]; [lia|lia| |unfold r'; zcases|] end.
  { unfold r'. destruct (a <? 0); [rewrite Z.abs_opp|]; by rewrite Z.abs_eq by lia. }
  cbn [mbind option_bind].
  match goal with |- context [put ?z _ _ q] =>
    destruct (rep_put Q false (length q) z q) as (quo & -> & Hquo & Fquo & Aquo & Dquo);
      cbn [alloc]; [lia|lia|by rewrite Z.abs_eq by lia|symmetry; apply Z.ltb_ge; lia|] end.
  cbn [mbind option_bind]. pose proof Hb as (_ & -> & _).
  assert (neg rem = (a <? 0) && negb (R =? 0)) as ->.
  { destruct Hrem as (_ & -> & _). unfold r'. zcases. }
  assert (growable rem) as Grem by (unfold growable; rewrite Frem; done).
  assert (growable quo) as Gquo by (unfold growable; rewrite Fquo; done).
  set (differ := negb (eqb (a <? 0) (b <? 0))) in *.
  assert (negb (eqb (if rem_is_lhs then (a <? 0) && negb (R =? 0) else a <? 0) (b <? 0)) = differ \/
    R = 0 /\ rem_is_lhs = true) as Hcase.
  { destruct rem_is_lhs; [|by left]. destruct (Z.eqb_spec R 0); [by right|left].
    unfold differ. cbn [negb]. by rewrite andb_true_r. }
  destruct (negb (eqb (if rem_is_lhs then _ else _) _)) eqn:Ebr.
  - destruct (rep_put (- Q) (negb (len quo =? 0)) 0 quo q) as (quo' & E1 & Hquo' & Fquo' & _ & _).
    { rewrite Aquo. cbn. lia. }
    { rewrite Aquo. cbn [alloc]. lia. }
    { rewrite Z.abs_opp. by rewrite Z.abs_eq by lia. }
    { unfold len. rewrite Dquo, (num_len_0 _ _ Hq). zcases. }
    fold (len quo). rewrite Dquo, E1. cbn [mbind option_bind]. rewrite (rep_zero _ _ Hrem).
    assert ((r' =? 0) = (R =? 0)) as -> by (unfold r'; zcases).
    assert (growable quo') as Gquo' by (unfold growable; rewrite Fquo'; done).
    destruct (Z.eqb_spec R 0) as [ER|ER].
    + exists quo', rem. split; [done|]. rewrite Emod, Ediv, andb_false_r.
      split_and!; try done. intros Hal. destruct Hcase as [<-|[_ H]]; [done|congruence].
    + destruct Hcase as [Hd|[H _]]; [|done]. rewrite <- Hd in Emod, Ediv. cbn [negb andb] in Emod, Ediv.
      destruct (mpz_set_from_int_ok mpz_init_zero (-1)) as (one & Hone & Hok & _ & Hv); [done|cbn; lia|lia|].
      unfold mpz_init_from_int. rewrite Hone. cbn [mbind option_bind].
      apply mpz_ok_rep in Hok. rewrite Hv in Hok.
      pose proof (mpz_add_ok quo' quo' one (- Q) (-1) Gquo' Hquo' Hok) as (q2 & -> & Hq2 & Gq2)%returns_rep.
      cbn [mbind option_bind].
      pose proof (mpz_add_ok rem rem rhs r' b Grem Hrem Hb) as (r2 & -> & Hr2 & Gr2)%returns_rep.
      exists q2, r2. split; [done|]. rewrite Emod, Ediv. split_and!; try done.
  - exists quo, rem. split; [done|]. rewrite Emod, Ediv.
    destruct Hcase as [<-|[-> H]]; cbn [andb].
    + split_and!; try done.
    + cbn [Z.eqb negb]. rewrite andb_false_r. split_and!; try done. congruence.
Qed.

(** * Modular powers *)

Lemma pow3_loop_ok fuel : forall dest x quo n m d a e b,
  growable dest -> growable x -> growable quo -> rep d dest -> rep a x -> rep b m -> b <> 0 ->
  num e n -> 0 < e < 2 ^ Z.of_nat fuel ->
  returns ((d * a ^ e) mod b) (pow3_loop fuel dest x quo n m).
Proof.
  induction fuel as [|fuel IH]; intros dest x quo n m d a e b Gd Gx Gq Hd Hx Hm Hb Hn He; [cbn in He; lia|].
  destruct n as [|d0 n]; cbn [pow3_loop]; [destruct Hn as (_ & _ & Hn); cbn in Hn; lia|].
  rewrite (land_1 _ _ _ Hn), (pow_half a e) by lia.
  rewrite Nat2Z.inj_succ, Z.pow_succ_r in He by lia.
  set (d' := if e mod 2 =? 0 then d else (d * a) mod b).
  assert (exists quo' dest', (if negb (e mod 2 =? 0) then
      dest ← mpz_mul_inpl true false dest dest x; mpz_divmod_inpl true quo dest dest m
      else Some (quo, dest)) = Some (quo', dest') /\ rep d' dest' /\ growable dest' /\ growable quo')
    as (quo' & dest' & -> & Hd' & Gd' & Gq').
  { unfold d'. destruct (e mod 2 =? 0); cbn [negb]; [by exists quo, dest|].
    pose proof (rep_room _ _ Hd) as R0.
    assert (returns (d * a) (mpz_mul_inpl true false dest dest x)) as (p & -> & Hp & Gp)%returns_rep
      by by apply mpz_mul_ok. cbn [mbind option_bind].
    destruct (mpz_divmod_ok true quo p p m (d * a) b) as (q1 & r1 & -> & Hr1 & Gr1 & Gq1 & _); try done.
    eauto 10. }
  cbn [mbind option_bind]. pose proof (shr1_ok _ _ Hn) as Hn'. cbn zeta.
  assert ((d * ((if e mod 2 =? 0 then 1 else a) * (a * a) ^ (e / 2))) mod b =
    (d' * (a * a) ^ (e / 2)) mod b) as ->.
  { unfold d'. destruct (e mod 2 =? 0); [by rewrite Z.mul_1_l|].
    by rewrite Z.mul_assoc, Zmult_mod_idemp_l. }
  destruct (mpn_shr (d0 :: n) 1) as [|d1 n1] eqn:E.
  { assert (e / 2 = 0) as Ee by (destruct Hn' as (_ & _ & <-); done).
    assert (e mod 2 = 1) as Eo by dlia.
    unfold d' in *. rewrite Ee, Z.pow_0_r, Z.mul_1_r, Eo in *. cbn [Z.eqb] in *.
    rewrite Z.mod_mod by done. apply returns_rep. by exists dest'. }
  assert (0 < e / 2 < 2 ^ Z.of_nat fuel) as He'.
  { split; [|apply Z.div_lt_upper_bound; lia].
    destruct (Z.eq_dec (e / 2) 0) as [E0|]; [|pose proof (Z.div_pos e 2); lia].
    rewrite E0 in Hn'. apply num_0 in Hn'. done. }
  eapply returns_bind.
  { apply (mpz_mul_ok true true x x x a a); try done. by eapply rep_room. }
  intros x2 Hx2 Gx2.
  destruct (mpz_divmod_ok true quo' x2 x2 m (a * a) b) as (q1 & x3 & -> & Hx3 & Gx3 & Gq1 & _); try done.
  cbn [mbind option_bind].
  assert ((d' * (a * a) ^ (e / 2)) mod b = (d' * ((a * a) mod b) ^ (e / 2)) mod b) as ->.
  { rewrite <- (Zmult_mod_idemp_r ((a * a) ^ _)), <- (Zmult_mod_idemp_r (((a * a) mod b) ^ _)).
    by rewrite Z.mod_pow_l. }
  by apply IH.
Qed.

(** With operands that are not the destination. *)
Lemma mpz_pow3_ok dest lhs rhs m a b c :
  growable dest -> 0 <= alloc dest -> rep a lhs -> rep b rhs -> rep c m ->
  a <> 0 -> 0 < b -> c <> 0 ->
  returns (a ^ b mod c) (mpz_pow3_inpl false false dest lhs rhs m).
Proof.
  intros Hg H0 Ha Hb Hc Ha0 Hb0 Hc0. unfold mpz_pow3_inpl. rewrite (rep_zero _ _ Ha), (rep_zero _ _ Hb).
  pose proof Hb as (Hn & -> & _). rewrite (proj2 (Z.ltb_ge _ _)) by lia.
  rewrite (proj2 (Z.eqb_neq a 0)) by done. cbn [orb].
  destruct ((len m =? 1) && (default 0 (head (dig m)) =? 1)) eqn:E1.
  { apply andb_prop in E1 as [L1%Z.eqb_eq L2%Z.eqb_eq]. unfold len in L1.
    assert (Z.abs c = 1) as Hc1.
    { destruct Hc as ((_ & _ & <-) & _). destruct (dig m) as [|x [|y l]]; cbn [length] in L1; try lia.
      cbn in L2 |- *. lia. }
    assert (a ^ b mod c = 0) as ->.
    { assert (c = 1 \/ c = - 1) as [->| ->] by lia; [apply Z.mod_1_r|].
      pose proof (Z.mod_neg_bound (a ^ b) (-1) ltac:(lia)). lia. }
    by apply mpz_set_from_int_ok. }
  eapply returns_bind; [by apply (mpz_set_from_int_ok dest 1)|].
  intros d Hd Gd. cbn zeta. rewrite (proj2 (Z.eqb_neq b 0)) by lia.
  destruct (clone_ok lhs a Ha Ha0) as (x & -> & Hx & Gx & _). cbn [mbind option_bind].
  destruct (clone_ok rhs b Hb ltac:(lia)) as (n & -> & _ & _ & _ & En). cbn [mbind option_bind].
  rewrite Z.abs_eq, <- En in Hn by lia. pose proof (pow_fuel_enough _ _ Hn).
  rewrite <- (Z.mul_1_l (a ^ b)). apply pow3_loop_ok; try done. lia.
Qed.
