(* ===== verification/MpzConv.v ===== *)
(** Conversions of [Mpz]: machine integers, two's complement bytes and text. *)

From Stdlib Require Import ZArith Lia.
From stdpp Require Import base option list numbers.
From S2P Require Import Prelude Mpn MpnSpec MpnBits Mpz MpzSpec.

(** * Machine integers *)

(** The digits read from the top, as all these functions do. *)
Definition top_down (val : Z) (d_rev : digits) : Z := fold_left (fun v d => B * v + d) d_rev val.

Lemma top_down_spec d_rev : forall v, top_down v d_rev = v * Bn (length d_rev) + val (rev d_rev).
Proof.
  induction d_rev as [|d l IH]; intros v; cbn [top_down fold_left rev length val].
  { rewrite Bn_0. lia. }
  fold (top_down (B * v + d) l). rewrite IH, val_app, length_rev, Bn_S. cbn [val]. ring.
Qed.

Lemma top_down_rev i : top_down 0 (rev i) = val i.
Proof. rewrite top_down_spec, rev_involutive. lia. Qed.

(** One step of the loops of [mpz_hash] and its like, on a 32-bit word. *)
Lemma word_step v d : digit d ->
  wrapu 32 (Z.lor (wrapu 32 (Z.shiftl v DIG_SIZE)) d) = wrapu 32 (B * v + d).
Proof.
  intros Hd. change DIG_SIZE with 16. rewrite Z.shiftl_mul_pow2 by done.
  assert (wrapu 32 (v * 2 ^ 16) = B * (v mod B)) as ->.
  { unfold wrapu. change (2 ^ 32) with (2 ^ 16 * 2 ^ 16).
    rewrite Z.mul_mod_distr_r by done. change (2 ^ 16) with B. lia. }
  rewrite lor_B by done. unfold wrapu. change (2 ^ 32) with (B * B).
  rewrite (Z.div_mod v B) at 2 by done.
  replace (B * (B * (v / B) + v mod B) + d) with (B * (v mod B) + d + v / B * (B * B)) by ring.
  by rewrite Z_mod_plus_full.
Qed.

Lemma hash_loop_spec d_rev : forall v,
  digs d_rev -> hash_loop d_rev (wrapu 32 v) = wrapu 32 (top_down v d_rev).
Proof.
  induction d_rev as [|d l IH]; intros v Hl; [done|]. apply digs_cons in Hl as [Hd Hl].
  cbn [hash_loop top_down fold_left]. rewrite word_step by done. fold (top_down (B * v + d) l).
  rewrite <- IH by done. f_equal. unfold wrapu.
  by rewrite <- (Zplus_mod_idemp_l (B * (v mod _))), Zmult_mod_idemp_r, Zplus_mod_idemp_l.
Qed.

Lemma wraps_wrapu n x : 0 < n -> wraps n (wrapu n x) = wraps n x.
Proof. intros. apply wraps_eq; [done|]. unfold wrapu. apply Z.mod_mod. lia. Qed.

Lemma mpz_hash_ok z v : rep v z -> mpz_hash z = wraps 32 v.
Proof.
  intros Hr. destruct (rep_digs _ _ Hr) as (Hd & _ & Hv). pose proof Hr as (_ & Hs & _).
  unfold mpz_hash.
  assert (hash_loop (rev (dig z)) 0 = wrapu 32 (Z.abs v)) as ->.
  { change 0 with (wrapu 32 0). by rewrite hash_loop_spec, top_down_rev, Hv by auto. }
  rewrite Hs.
  destruct (Z.ltb_spec v 0); rewrite !wraps_wrapu by done.
  - apply wraps_eq; [done|]. unfold wrapu. rewrite <- Z.sub_0_l, Zminus_mod_idemp_r. f_equal. lia.
  - by rewrite Z.abs_eq by lia.
Qed.

(** The loop stops when the next digit would not fit. *)
Lemma as_int_loop_spec max d_rev : forall v,
  0 <= max < B -> digs d_rev -> 0 <= v ->
  v < B * (max + 1) ->
  as_int_loop max d_rev v =
  if top_down v d_rev <? B * (max + 1) then Some (top_down v d_rev) else None.
Proof.
  induction d_rev as [|d l IH]; intros v Hm Hl Hv Hlt; cbn [as_int_loop top_down fold_left].
  { by rewrite (proj2 (Z.ltb_lt _ _)). }
  apply digs_cons in Hl as [Hd Hl]. pose proof Hd as Hd'. unfold digit in Hd.
  fold (top_down (B * v + d) l). destruct (Z.ltb_spec max v).
  - rewrite (proj2 (Z.ltb_ge _ _)); [done|]. rewrite top_down_spec.
    pose proof (Bn_pos (length l)). pose proof (val_nonneg (rev l) ltac:(auto)). nia.
  - rewrite word_step by done. rewrite wrapu_small by (change (2 ^ 32) with (B * B); nia).
    apply IH; try done; nia.
Qed.

(** The value, when its magnitude is below 2^31. *)
Lemma mpz_as_int_checked_ok z v :
  rep v z -> mpz_as_int_checked z = if Z.abs v <? 2 ^ 31 then Some v else None.
Proof.
  intros Hr. destruct (rep_digs _ _ Hr) as (Hd & Hn & Hv). pose proof Hr as (_ & Hs & _).
  unfold mpz_as_int_checked. change (Z.shiftr WORD_MAX DIG_SIZE) with 32767.
  rewrite as_int_loop_spec, top_down_rev, Hv by (auto || lia).
  change (B * (32767 + 1)) with (2 ^ 31). destruct (Z.ltb_spec (Z.abs v) (2 ^ 31)); [|done].
  cbn [mbind option_bind]. f_equal. rewrite Hs. destruct (Z.ltb_spec v 0).
  - rewrite wraps_wrapu, wraps_small; cbn; lia.
  - rewrite wraps_small; cbn; lia.
Qed.

Lemma mpz_as_uint_checked_ok z v :
  rep v z -> mpz_as_uint_checked z = if (0 <=? v) && (v <? 2 ^ 32) then Some v else None.
Proof.
  intros Hr. destruct (rep_digs _ _ Hr) as (Hd & Hn & Hv). pose proof Hr as (_ & Hs & _).
  unfold mpz_as_uint_checked. change (Z.shiftr WORD_MAX (DIG_SIZE - 1)) with 65535.
  rewrite Hs. destruct (Z.ltb_spec v 0).
  { by rewrite (proj2 (Z.leb_gt _ _)) by lia. }
  rewrite as_int_loop_spec, top_down_rev, Hv, Z.abs_eq by (auto || lia).
  rewrite (proj2 (Z.leb_le _ _)) by lia. done.
Qed.

(** * Bytes *)

Definition is_byte (b : Z) : Prop := 0 <= b < 256.

(** The number whose bytes, least significant first, are [bs]. *)
Fixpoint le_value (bs : list Z) : Z :=
  match bs with [] => 0 | b :: bs => b + 256 * le_value bs end.

Lemma le_value_app a b : le_value (a ++ b) = le_value a + 256 ^ Z.of_nat (length a) * le_value b.
Proof.
  induction a as [|x a IH]; cbn [app le_value length]; [lia|].
  rewrite IH, Nat2Z.inj_succ, Z.pow_succ_r by lia. ring.
Qed.

Lemma le_value_bound bs : Forall is_byte bs -> 0 <= le_value bs < 256 ^ Z.of_nat (length bs).
Proof.
  induction 1 as [|b bs Hb _ IH]; cbn [le_value length]; [done|].
  rewrite Nat2Z.inj_succ, Z.pow_succ_r by lia. unfold is_byte in Hb. lia.
Qed.

Lemma le_value_take n bs :
  Forall is_byte bs -> (n <= length bs)%nat ->
  le_value (take n bs) = le_value bs mod 256 ^ Z.of_nat n.
Proof.
  intros Hb Hn. rewrite <- (take_drop n bs) at 2. rewrite le_value_app, length_take, Nat.min_l by done.
  rewrite Z.mul_comm, Z_mod_plus_full. symmetry. apply Z.mod_small.
  pose proof (le_value_bound (take n bs) ltac:(by apply Forall_take)) as H.
  by rewrite length_take, Nat.min_l in H by done.
Qed.

Lemma from_bytes_loop_spec fuel : forall buf,
  Forall is_byte buf -> (length buf <= fuel)%nat ->
  exists i, from_bytes_loop fuel buf 0 = Some i /\ digs i /\ val i = le_value buf /\
    length i = Nat.div2 (S (length buf)).
Proof.
  induction fuel as [|fuel IH]; intros buf Hb Hl.
  { destruct buf; [|cbn in Hl; lia]. by exists []. }
  destruct buf as [|b0 buf]; [by exists []|]. cbn [from_bytes_loop].
  apply Forall_cons_1 in Hb as [H0 Hb]. unfold is_byte in H0.
  destruct buf as [|b1 buf].
  - cbn [fill_digit]. change (0 <? DIG_SIZE) with true. cbn [fill_digit].
    rewrite Z.shiftl_0_r, Z.lor_0_l, dig_t_small by (unfold digit; lia).
    destruct (fuel); cbn [from_bytes_loop mbind option_bind].
    all: exists [lo b0]; assert (digit b0) by (unfold digit; lia); rewrite lo_small by done.
    all: split; [done|]; split; [by apply digs_cons|]; split; [cbn; lia|done].
  - apply Forall_cons_1 in Hb as [H1 Hb]. unfold is_byte in H1.
    assert (fill_digit (b0 :: b1 :: buf) 0 0 = (b0 + 256 * b1, 16, buf)) as ->.
    { cbn [fill_digit]. change (0 <? DIG_SIZE) with true. change (0 + 8 <? DIG_SIZE) with true. cbn [fill_digit].
      rewrite Z.shiftl_0_r, Z.lor_0_l, (dig_t_small b0) by (unfold digit; lia).
      change (0 + 8) with 8. rewrite Z.shiftl_mul_pow2, Z.lor_comm by done. rewrite (lor_pow2 8 b1 b0), dig_t_small by (unfold digit; lia).
      destruct buf; cbn [fill_digit]; change (8 + 8 <? DIG_SIZE) with false; do 2 f_equal; lia. }
    change (16 - DIG_SIZE) with 0. cbn [length] in Hl.
    destruct (IH buf Hb ltac:(lia)) as (i & -> & Hd & Hv & Hlen).
    cbn [mbind option_bind]. assert (digit (b0 + 256 * b1)) by (unfold digit; lia).
    rewrite lo_small by done. eexists. split; [done|]. split; [by apply digs_cons|].
    cbn [val le_value length]. split; [lia|]. rewrite Hlen. done.
Qed.

Lemma mpz_set_from_bytes_ok z (big_endian : bool) buf :
  growable z -> Forall is_byte buf ->
  returns (le_value (if big_endian then rev buf else buf)) (mpz_set_from_bytes z big_endian buf).
Proof.
  intros Hg Hb. unfold mpz_set_from_bytes. set (bs := if big_endian then rev buf else buf).
  assert (Forall is_byte bs) as Hbs by (unfold bs; destruct big_endian; [by apply List.Forall_rev|done]).
  cbn zeta. need z. destruct (from_bytes_loop_spec (length bs) bs Hbs ltac:(lia)) as (i & -> & Hd & Hv & Hl).
  cbn [mbind option_bind]. pose proof (le_value_bound bs Hbs).
  assert (Z.of_nat (length i) <= alloc z0).
  { etrans; [|exact A]. rewrite Hl, Nat.div2_div. change DIG_SIZE with 16.
    rewrite Nat2Z.inj_div. change (Z.of_nat 2) with 2. rewrite Nat2Z.inj_succ. dlia. }
  pose proof (length_trim i). apply put_ok; try done; [lia| |symmetry; apply Z.ltb_ge; lia].
  rewrite Z.abs_eq by lia. by apply num_trim.
Qed.

(** What [mpz_as_bytes] writes for the bytes of the digits: their two's
    complement when the number is negative. *)
Fixpoint emit (n : bool) (bs : list Z) (c : Z) : list Z :=
  match bs with
  | [] => []
  | b :: bs =>
      let t := if n then 255 - b + c else b in
      t mod 256 :: emit n bs (if n then t / 256 else c)
  end.

Fixpoint digit_bytes_of (i : digits) : list Z :=
  match i with [] => [] | d :: i => d mod 256 :: d / 256 :: digit_bytes_of i end.

Lemma digit_bytes_of_spec i :
  digs i -> Forall is_byte (digit_bytes_of i) /\ le_value (digit_bytes_of i) = val i.
Proof.
  induction 1 as [|d i Hd Hi [IH1 IH2]]; [done|]. unfold digit in Hd. cbn [digit_bytes_of le_value val].
  split; [|rewrite IH2; dlia]. repeat apply Forall_cons_2; try done; unfold is_byte; dlia.
Qed.

Lemma byte_step (n : bool) v c :
  0 <= v < B -> 0 <= c <= 1 ->
  let t := if n then 255 - v mod 256 + c else v mod 256 in
  wrapu 8 (if n then dig_t (Z.land (Z.lnot v) 255 + c) else v) = t mod 256 /\
  (if n then Z.shiftr (if n then dig_t (Z.land (Z.lnot v) 255 + c) else v) 8 else c) = (if n then t / 256 else c) /\
  0 <= (if n then t / 256 else c) <= 1.
Proof.
  intros Hv Hc. cbn zeta. destruct n; [|split_and!; try lia; unfold wrapu; change (2 ^ 8) with 256; symmetry; apply Z.mod_mod; lia].
  change 255 with (Z.ones 8) at 1 3. rewrite !Z.land_ones by done. change (2 ^ 8) with 256.
  assert (Z.lnot v mod 256 = 255 - v mod 256) as -> by (unfold Z.lnot; dlia).
  rewrite dig_t_small by (unfold digit; dlia). rewrite Z.shiftr_div_pow2 by done.
  unfold wrapu. change (2 ^ 8) with 256. split_and!; try done; dlia.
Qed.

Lemma rev_fill n (f : Z) : rev (replicate n f) = replicate n f.
Proof.
  induction n as [|n IH]; [done|]. cbn [replicate rev]. rewrite IH.
  by rewrite <- (replicate_cons_app n f).
Qed.

Lemma take_fill n (l : list Z) f m m' :
  (n <= m)%nat -> (n <= m')%nat -> take n (l ++ replicate m f) = take n (l ++ replicate m' f).
Proof. intros. rewrite !take_app, !take_replicate. do 2 f_equal. lia. Qed.

Lemma as_bytes_loop_spec n zdig : forall c room acc,
  digs zdig -> 0 <= c <= 1 -> (room <> 0%nat \/ zdig = []) ->
  as_bytes_loop n zdig 0 c 0 room acc =
  Some (rev (take room (emit n (digit_bytes_of zdig) c ++ replicate room (if n then 255 else 0))) ++ acc).
Proof.
  induction zdig as [|x l IH]; intros c room acc Hd Hc Hr; cbn [as_bytes_loop digit_bytes_of emit].
  { rewrite app_nil_l, take_ge, rev_fill by (rewrite length_replicate; lia). done. }
  destruct Hr as [Hr|]; [|done]. apply digs_cons in Hd as [Hx Hl].
  change (0 + DIG_SIZE) with 16. change (Z.to_nat (16 / 8)) with 2%nat. change (16 mod 8) with 0.
  change (dbl (Z.shiftl 0 DIG_SIZE)) with 0. rewrite Z.lor_0_l. unfold digit in Hx.
  destruct (byte_step n x c Hx Hc) as (E1 & E2 & Hc1). cbn zeta in E1, E2, Hc1.
  set (t1 := if n then 255 - x mod 256 + c else x mod 256) in *.
  destruct room as [|room]; [done|]. cbn [digit_bytes]. rewrite (dig_t_small x) by (unfold digit; lia).
  rewrite E1, E2. set (c1 := if n then t1 / 256 else c) in *.
  destruct room as [|room]; cbn [mbind option_bind take app rev]; [done|].
  cbn [digit_bytes]. rewrite Z.shiftr_div_pow2 by done. change (2 ^ 8) with 256.
  assert (0 <= x / 256 < 256) as Hx2 by dlia.
  destruct (byte_step n (x / 256) c1 ltac:(lia) Hc1) as (E3 & E4 & Hc2). cbn zeta in E3, E4, Hc2.
  rewrite (Z.mod_small (x / 256)) in E3, E4, Hc2 by done.
  set (t2 := if n then 255 - x / 256 + c1 else x / 256) in *.
  rewrite (dig_t_small (x / 256)) by (unfold digit; lia). rewrite E3, E4.
  destruct room as [|room]; cbn [mbind option_bind take app rev]; [done|].
  rewrite Z.shiftr_div_pow2 by done. change (2 ^ 8) with 256.
  replace (x / 256 / 256) with 0 by dlia.
  rewrite IH by (try done; by left). cbn [app take rev replicate].
  rewrite (take_fill (S room) _ (if n then 255 else 0) (S room) (S (S (S room)))) by lia.
  by rewrite <- !app_assoc.
Qed.

Lemma emit_spec (n : bool) bs : forall c,
  Forall is_byte bs -> 0 <= c <= 1 -> Forall is_byte (emit n bs c) /\ length (emit n bs c) = length bs /\
  if n then exists c', 0 <= c' <= 1 /\
      le_value (emit n bs c) + 256 ^ Z.of_nat (length bs) * c' =
      256 ^ Z.of_nat (length bs) - 1 - le_value bs + c
  else le_value (emit n bs c) = le_value bs.
Proof.
  induction bs as [|b bs IH]; intros c Hb Hc; cbn [emit length le_value].
  { split_and!; try done. destruct n; [|done]. exists c. lia. }
  apply Forall_cons_1 in Hb as [Hb0 Hb]. unfold is_byte in Hb0.
  rewrite Nat2Z.inj_succ, Z.pow_succ_r by lia.
  destruct n.
  - destruct (IH ((255 - b + c) / 256) Hb ltac:(dlia)) as (H1 & H2 & c' & Hc' & H3).
    split_and!; [apply Forall_cons_2; [unfold is_byte; dlia|done]|by rewrite H2|].
    exists c'. split; [done|]. pose proof (Z.div_mod (255 - b + c) 256 ltac:(done)). lia.
  - destruct (IH c Hb Hc) as (H1 & H2 & H3). rewrite Z.mod_small by lia.
    split_and!; [by apply Forall_cons_2|by rewrite H2|by rewrite H3].
Qed.

(** The low bytes of the two's complement of the number.  At least one byte is
    asked for, unless the number is zero. *)
Lemma mpz_as_bytes_ok z v (big_endian : bool) len :
  rep v z -> (len <> 0%nat \/ v = 0) ->
  exists buf, mpz_as_bytes z big_endian len = Some buf /\ length buf = len /\ Forall is_byte buf /\
    le_value (if big_endian then rev buf else buf) = v mod 256 ^ Z.of_nat len.
Proof.
  intros Hr Hlen. destruct (rep_digs _ _ Hr) as (Hd & _ & Hv). pose proof Hr as (_ & Hs & _).
  unfold mpz_as_bytes. rewrite as_bytes_loop_spec; [|done|lia|].
  2: { destruct Hlen as [| ->]; [by left|right]. destruct Hr as (Hn & _). by apply num_0. }
  cbn [mbind option_bind]. rewrite app_nil_r.
  destruct (digit_bytes_of_spec _ Hd) as [Hbs Ev]. set (bs := digit_bytes_of (dig z)) in *.
  destruct (emit_spec (neg z) bs 1 Hbs ltac:(lia)) as (Hb & Hl & He).
  set (fill := if neg z then 255 else 0). set (l := emit (neg z) bs 1 ++ replicate len fill).
  assert (Forall is_byte l) as Hbl.
  { apply Forall_app_2; [done|]. apply Forall_replicate. unfold fill, is_byte. destruct (neg z); lia. }
  assert (len <= length l)%nat as Hll by (unfold l; rewrite length_app, length_replicate; lia).
  assert (le_value (take len l) = v mod 256 ^ Z.of_nat len) as E.
  { rewrite le_value_take by done. unfold l, fill. rewrite le_value_app, Hl.
    set (P := 256 ^ Z.of_nat len). assert (0 < P) by (apply Z.pow_pos_nonneg; lia).
    destruct (Z.ltb_spec v 0) as [Hneg|Hpos]; rewrite Hs in He |- *.
    - destruct He as (c' & Hc' & He).
      assert (le_value (replicate len 255) = P - 1) as ->.
      { unfold P. clear. induction len as [|n IH]; [done|]. cbn [replicate le_value].
        rewrite IH, Nat2Z.inj_succ, Z.pow_succ_r by lia. lia. }
      set (K := 256 ^ Z.of_nat (length bs)) in *.
      pose proof (le_value_bound _ Hb) as Hbb. rewrite Hl, Hs in Hbb. fold K in Hbb.
      assert (c' = 0) as ->.
      { assert (c' = 0 \/ c' = 1) as [->| ->] by lia; lia. }
      replace (le_value (emit true bs 1) + K * (P - 1)) with (v + K * P) by lia.
      apply Z_mod_plus_full.
    - assert (le_value (replicate len 0) = 0) as ->.
      { clear. induction len as [|n IH]; [done|]. cbn [replicate le_value]. lia. }
      rewrite He. f_equal. lia. }
  assert (length (take len l) = len) as Elen by (rewrite length_take; lia).
  destruct big_endian; eexists; (split; [done|]); rewrite ?length_rev, ?rev_involutive;
    (split; [done|]); (split; [|done]); rewrite ?rev_involutive; [apply List.Forall_rev|]; by apply Forall_take.
Qed.

(** * Text *)

(** The number with digits [ds] in base [base], most significant first. *)
Definition numeral (base : Z) (v : Z) (ds : list Z) : Z := fold_left (fun v d => v * base + d) ds v.

Lemma numeral_app base v a b : numeral base v (a ++ b) = numeral base (numeral base v a) b.
Proof. apply fold_left_app. Qed.

(** The values of the longest prefix of [str] made of digits of the base. *)
Fixpoint digit_prefix (base : Z) (str : list Z) : list Z :=
  match str with
  | [] => []
  | c :: str =>
      match char_value c with
      | Some v => if base <=? v then [] else v :: digit_prefix base str
      | None => []
      end
  end.

Lemma length_digit_prefix base str : (length (digit_prefix base str) <= length str)%nat.
Proof.
  induction str as [|c str IH]; cbn [digit_prefix length]; [lia|].
  destruct (char_value c); [case_match|]; cbn [length]; lia.
Qed.

Lemma char_value_nonneg c v : char_value c = Some v -> 0 <= v.
Proof.
  unfold char_value.
  destruct (Z.leb_spec 48 c), (Z.leb_spec c 57), (Z.leb_spec 65 c), (Z.leb_spec c 90),
    (Z.leb_spec 97 c), (Z.leb_spec c 122); cbn; intros [= <-]; lia.
Qed.

(** [k] characters of a base up to 36 need no more than [k / 2 + 1] digits. *)
Lemma str_room v k n : 0 <= v < 36 ^ Z.of_nat k -> (k <= n)%nat ->
  v < Bn (Z.to_nat (Z.of_nat n * 8 / DIG_SIZE + 1)).
Proof.
  intros Hv Hk. rewrite Bn_pow2. change DIG_SIZE with 16. rewrite Z2Nat.id by dlia.
  apply (Z.lt_le_trans _ (36 ^ Z.of_nat k)); [lia|].
  etrans; [apply (Z.pow_le_mono_l 36 (2 ^ 6)); lia|].
  rewrite <- Z.pow_mul_r by lia. apply Z.pow_le_mono_r; dlia.
Qed.

Lemma from_str_loop_spec room base N : forall str i v k n,
  2 <= base <= 36 -> num v i -> 0 <= v < 36 ^ Z.of_nat k ->
  (k + length str <= N)%nat -> Z.of_nat N * 8 / DIG_SIZE + 1 <= room ->
  exists i', from_str_loop room str base i n = Some (i', n + Z.of_nat (length (digit_prefix base str))) /\
    num (numeral base v (digit_prefix base str)) i' /\ Z.of_nat (length i') <= Z.max room (Z.of_nat (length i)).
Proof.
  intros str. induction str as [|c str IH]; intros i v k n Hb Hi Hv HN Hroom; cbn [from_str_loop digit_prefix].
  { exists i. rewrite Z.add_0_r. split_and!; try done. lia. }
  destruct (char_value c) as [d|] eqn:Ec.
  2: { exists i. rewrite Z.add_0_r. split_and!; try done. lia. }
  destruct (Z.leb_spec base d).
  { exists i. rewrite Z.add_0_r. split_and!; try done. lia. }
  pose proof (char_value_nonneg _ _ Ec). rewrite !dig_t_small by (unfold digit; lia).
  pose proof Hi as (Di & Ni & Ei).
  pose proof (mpn_mul_dig_add_dig_spec i base d Di Ni ltac:(unfold digit; lia) ltac:(lia)
    ltac:(unfold digit; lia)) as Hn. rewrite Ei in Hn.
  assert (0 <= v * base + d < 36 ^ Z.of_nat (S k)) as Hv'.
  { rewrite Nat2Z.inj_succ, Z.pow_succ_r by lia. nia. }
  cbn [length] in HN.
  pose proof (num_length_bound _ _ _ Hn (str_room _ (S k) N Hv' ltac:(lia))) as Hl.
  change DIG_SIZE with 16 in *. rewrite (proj2 (Z.leb_le _ _)) by dlia.
  destruct (IH _ (v * base + d) (S k) (n + 1) Hb Hn Hv' ltac:(lia) Hroom) as (i' & -> & Hi' & Hl').
  exists i'. cbn [length numeral fold_left]. split; [do 2 f_equal; lia|]. split; [done|]. dlia.
Qed.

Lemma mpz_set_from_str_ok z str (n : bool) base :
  growable z -> 2 <= base <= 36 ->
  let ds := digit_prefix base str in
  exists r, mpz_set_from_str z str n base = Some (r, Z.of_nat (length ds)) /\
    num (numeral base 0 ds) (dig r) /\ neg r = n /\ growable r /\ len r <= alloc r.
Proof.
  intros Hg Hb. cbn zeta. unfold mpz_set_from_str. rewrite (proj2 (Z.ltb_ge _ _)) by lia. need z.
  destruct (from_str_loop_spec (alloc z0) base (length str) str [] 0 0%nat 0 Hb num_nil ltac:(cbn; lia) ltac:(lia) A)
    as (i & -> & Hi & Hl).
  cbn [mbind option_bind]. cbn [length] in Hl. rewrite put_eq by lia. cbn [mbind option_bind].
  eexists. split; [done|]. cbn [dig neg alloc]. unfold len; cbn [dig]. split_and!; try done. lia.
Qed.

Lemma div_base_spec base d_rev : forall a,
  1 <= base <= 36 -> digs d_rev -> 0 <= a < base ->
  exists q r, div_base d_rev base a = (q, r) /\ digs q /\ length q = length d_rev /\ 0 <= r < base /\
    a * Bn (length d_rev) + val (rev d_rev) = base * val (rev q) + r.
Proof.
  intros a Hb. revert a. induction d_rev as [|d l IH]; intros a Hl Ha; cbn [div_base].
  { exists [], a. cbn [length rev val]. rewrite Bn_0. split_and!; try done; lia. }
  apply digs_cons in Hl as [Hd Hl].
  assert (dbl (Z.shiftl a DIG_SIZE) = B * a) as ->.
  { change DIG_SIZE with 16. rewrite Z.shiftl_mul_pow2 by done. change (2 ^ 16) with B. rewrite dbl_small; lia. }
  rewrite lor_B by done. unfold digit in Hd. set (x := B * a + d).
  assert (0 <= x < base * B) as Hx by (unfold x; nia).
  destruct (IH (x mod base) Hl ltac:(apply Z.mod_pos_bound; lia)) as (q & r & -> & Hq & Hlq & Hr & E).
  assert (digit (x / base)) as Hxd.
  { split; [apply Z.div_pos; lia|apply Z.div_lt_upper_bound; lia]. }
  exists (dig_t (x / base) :: q), r. rewrite dig_t_small by done.
  split; [done|]. split; [by apply digs_cons|]. cbn [length rev]. rewrite Hlq. split; [done|]. split; [done|].
  rewrite !val_app, !length_rev, Hlq, Bn_S. cbn [val].
  pose proof (Z.div_mod x base ltac:(lia)) as Edm. unfold x in *.
  replace (a * (B * Bn (length l)) + (val (rev l) + Bn (length l) * (d + B * 0)))
    with ((B * a + d) * Bn (length l) + val (rev l)) by ring.
  rewrite Edm at 1. lia.
Qed.

Lemma all_zero d_rev : digs d_rev -> forallb (Z.eqb 0) d_rev = (val (rev d_rev) =? 0).
Proof.
  intros Hd. induction Hd as [|d l Hd Hl IH]; [done|]. cbn [forallb rev]. rewrite IH, val_app. cbn [val].
  pose proof (val_nonneg (rev l) ltac:(auto)). pose proof (Bn_pos (length (rev l))). unfold digit in Hd.
  destruct (Z.eqb_spec 0 d), (Z.eqb_spec (val (rev l)) 0),
    (Z.eqb_spec (val (rev l) + Bn (length (rev l)) * (d + B * 0)) 0); cbn; try done; nia.
Qed.

(** The characters are those of the numeral without leading zeros. *)
Lemma as_str_loop_spec fuel base bc : forall d_rev v since s,
  2 <= base <= 36 -> digs d_rev -> val (rev d_rev) = v -> v < 2 ^ Z.of_nat fuel -> (fuel <> 0)%nat ->
  exists ds, as_str_loop fuel d_rev base bc 0 since s = Some ((digit_char bc <$> ds) ++ s) /\
    Forall (fun d => 0 <= d < base) ds /\ numeral base 0 ds = v /\
    ds <> [] /\ (v <> 0 -> head ds <> Some 0).
Proof.
  induction fuel as [|fuel IH]; intros d_rev v since s Hb Hd Hv Hlt Hf; [done|]. cbn [as_str_loop].
  destruct (div_base_spec base d_rev 0 ltac:(lia) Hd ltac:(lia)) as (q & r & -> & Hq & Hlq & Hr & E).
  rewrite Z.mul_0_l, Z.add_0_l, Hv in E. rewrite all_zero by done.
  pose proof (val_nonneg (rev q) ltac:(auto)) as Hqn. change (negb (0 =? 0)) with false. cbn [andb].
  destruct (Z.eqb_spec (val (rev q)) 0) as [E0|E0].
  - exists [r]. split; [done|]. split; [by constructor|]. cbn. split_and!; try done; [lia|]. intros ? [= ->]. lia.
  - rewrite Nat2Z.inj_succ, Z.pow_succ_r in Hlt by lia.
    assert (fuel <> 0)%nat by (intros ->; cbn in Hlt; nia).
    destruct (IH q (val (rev q)) (since + 1) (digit_char bc r :: s) Hb Hq eq_refl ltac:(nia) ltac:(done))
      as (ds & -> & Hds & Hnum & Hne & Hhd).
    exists (ds ++ [r]). rewrite fmap_app, <- app_assoc. split; [done|].
    split; [apply Forall_app_2; [done|by constructor]|]. rewrite numeral_app, Hnum. cbn [numeral fold_left].
    split; [lia|]. split; [by destruct ds|]. intros _. destruct ds; [done|]. by apply Hhd.
Qed.

(** Without separators: the sign, the prefix and the canonical numeral. *)
Lemma mpz_as_str_ok z v base prefix bc :
  rep v z -> 2 <= base <= 32 ->
  exists ds, mpz_as_str_inpl z base prefix bc 0 =
      Some ((if v <? 0 then [45] else []) ++ prefix ++ (digit_char bc <$> ds)) /\
    Forall (fun d => 0 <= d < base) ds /\ numeral base 0 ds = Z.abs v /\
    ds <> [] /\ (v <> 0 -> head ds <> Some 0) /\ (v = 0 -> ds = [0]).
Proof.
  intros Hr Hb. destruct (rep_digs _ _ Hr) as (Hd & Hn & Hv). pose proof Hr as (_ & Hs & _).
  unfold mpz_as_str_inpl. rewrite (proj2 (Z.ltb_ge base 2)), (proj2 (Z.ltb_ge 32 base)) by lia. cbn [orb].
  rewrite (rep_zero _ _ Hr). destruct (Z.eqb_spec v 0) as [->|Hv0].
  { exists [0]. split; [done|]. split; [constructor; [lia|done]|]. done. }
  pose proof (abs_zero_iff _ _ Hr Hv0) as Hne. pose proof (val_bound _ Hd) as Hbd. rewrite Bn_pow2 in Hbd.
  destruct (as_str_loop_spec (16 * length (dig z)) base bc (rev (dig z)) (Z.abs v) 0 [])
    as (ds & -> & H1 & H2 & H3 & H4); [lia|auto|by rewrite rev_involutive| | |].
  { rewrite Nat2Z.inj_mul. change (Z.of_nat 16) with 16. lia. }
  { destruct (dig z); [done|cbn; lia]. }
  cbn [mbind option_bind]. exists ds. rewrite app_nil_r, Hs. split; [by destruct (v <? 0)|].
  split_and!; try done. intros _. apply H4. lia.
Qed.

(** Printed digits are read back. *)
Lemma char_value_digit_char bc d :
  (bc = 97 \/ bc = 65) -> 0 <= d < 36 -> char_value (digit_char bc d) = Some d.
Proof.
  intros Hbc Hd. unfold char_value, digit_char. destruct (Z.ltb_spec 57 (d + 48)).
  - destruct Hbc as [-> | ->].
    + rewrite (proj2 (Z.leb_gt (d + 48 + (97 - 57 - 1)) 57)), andb_false_r by lia.
      rewrite (proj2 (Z.leb_gt (d + 48 + (97 - 57 - 1)) 90)), andb_false_r by lia.
      rewrite !(proj2 (Z.leb_le _ _)) by lia. cbn. f_equal. lia.
    + rewrite (proj2 (Z.leb_gt (d + 48 + (65 - 57 - 1)) 57)), andb_false_r by lia.
      rewrite !(proj2 (Z.leb_le _ _)) by lia. cbn. f_equal. lia.
  - rewrite !(proj2 (Z.leb_le _ _)) by lia. cbn. f_equal. lia.
Qed.

Lemma digit_prefix_chars base bc ds :
  (bc = 97 \/ bc = 65) -> base <= 36 -> Forall (fun d => 0 <= d < base) ds ->
  digit_prefix base (digit_char bc <$> ds) = ds.
Proof.
  intros Hbc Hb. induction 1 as [|d ds Hd _ IH]; [done|]. rewrite fmap_cons. cbn [digit_prefix].
  rewrite char_value_digit_char by (done || lia). rewrite (proj2 (Z.leb_gt _ _)) by lia. by rewrite IH.
Qed.
