(* ===== verification/MpzProps.v ===== *)
(** The properties of arbitrary-precision integers, from the lemmas of
    [MpzSpec] and [MpzConv]. *)

From Stdlib Require Import ZArith Lia.
From stdpp Require Import base option list numbers.
From S2P Require Import Prelude Mpn MpnSpec MpnBits Mpz MpzSpec MpzConv.

(** * Operands of the witnesses *)

Definition demo (v : Z) : mpz_t :=
  {| neg := v <? 0; fixed_dig := false; alloc := 6;
     dig := mpn_remove_trailing_zeros [lo (Z.abs v); lo (hi (Z.abs v)); lo (hi (hi (Z.abs v)))] |}.

Lemma demo_rep v : Z.abs v < B ^ 3 -> rep v (demo v).
Proof.
  intros Hv. unfold rep, demo, len. cbn [dig neg alloc].
  set (l := [lo (Z.abs v); lo (hi (Z.abs v)); lo (hi (hi (Z.abs v)))]).
  split_and!; [|done|pose proof (length_trim l); cbn [l length] in *; lia].
  apply num_trim; [repeat apply Forall_cons_2; auto|].
  unfold l. cbn [val]. rewrite !lo_spec, !hi_spec. change (B ^ 3) with (B * (B * B)) in Hv. dlia.
Qed.

Lemma demo_ok v : Z.abs v < B ^ 3 -> mpz_ok (demo v) /\ zval (demo v) = v.
Proof. intros Hv. by apply rep_mpz_ok, demo_rep. Qed.

Lemma demo_growable v : growable (demo v).
Proof. done. Qed.

(** * Arithmetic *)

(** C11: [mpz_divmod_inpl] divides as Python does: the quotient is rounded down
    and the remainder has the sign of the divisor; both results are normalised
    numbers, and no access leaves a buffer. *)
Theorem mpz_divmod_spec dest_quo dest_rem lhs rhs :
  growable dest_quo -> growable dest_rem -> mpz_ok lhs -> mpz_ok rhs -> zval rhs <> 0 ->
  exists quo rem, mpz_divmod_inpl false dest_quo dest_rem lhs rhs = Some (quo, rem) /\
    mpz_ok quo /\ zval quo = zval lhs / zval rhs /\
    mpz_ok rem /\ zval rem = zval lhs mod zval rhs.
Proof.
  intros Gq Gr Hl%mpz_ok_rep Hr%mpz_ok_rep Hne.
  destruct (mpz_divmod_ok false dest_quo dest_rem lhs rhs _ _ Gq Gr Hl Hr Hne)
    as (quo & rem & -> & Hrem & _ & _ & Hquo).
  specialize (Hquo eq_refl). exists quo, rem. split; [done|].
  apply rep_mpz_ok in Hrem as [? ?], Hquo as [? ?]. done.
Qed.

Lemma mpz_divmod_spec_witness :
  exists quo rem, mpz_divmod_inpl false (demo 0) (demo 0) (demo (- 10 ^ 13)) (demo (2 ^ 33 + 1)) = Some (quo, rem) /\
    mpz_ok quo /\ zval quo = zval (demo (- 10 ^ 13)) / zval (demo (2 ^ 33 + 1)) /\
    mpz_ok rem /\ zval rem = zval (demo (- 10 ^ 13)) mod zval (demo (2 ^ 33 + 1)).
Proof.
  apply (mpz_divmod_spec (demo 0) (demo 0)); try reflexivity; try (apply demo_ok; vm_compute; reflexivity).
  vm_compute. discriminate.
Defined.

(** [mpz_add_inpl] and [mpz_sub_inpl] add and subtract, for all signs and
    magnitudes. *)
Theorem mpz_add_sub_spec dest lhs rhs :
  growable dest -> mpz_ok lhs -> mpz_ok rhs ->
  returns (zval lhs + zval rhs) (mpz_add_inpl dest lhs rhs) /\
  returns (zval lhs - zval rhs) (mpz_sub_inpl dest lhs rhs).
Proof.
  intros Hg Hl%mpz_ok_rep Hr%mpz_ok_rep. split; [by apply mpz_add_ok|by apply mpz_sub_ok].
Qed.

Lemma mpz_add_sub_spec_witness :
  returns (zval (demo (2 ^ 32)) + zval (demo (-1))) (mpz_add_inpl (demo 5) (demo (2 ^ 32)) (demo (-1))) /\
  returns (zval (demo (2 ^ 32)) - zval (demo (-1))) (mpz_sub_inpl (demo 5) (demo (2 ^ 32)) (demo (-1))).
Proof.
  apply mpz_add_sub_spec; [reflexivity|apply demo_ok; vm_compute; reflexivity..].
Defined.

(** [mpz_mul_inpl] multiplies, also when the destination is one or both of
    the operands. *)
Theorem mpz_mul_spec (l_same r_same : bool) dest lhs rhs :
  growable dest -> 0 <= alloc dest -> mpz_ok lhs -> mpz_ok rhs ->
  (l_same = true -> r_same = true -> lhs = rhs) ->
  returns (zval lhs * zval rhs) (mpz_mul_inpl l_same r_same dest lhs rhs).
Proof. intros Hg Ha Hl%mpz_ok_rep Hr%mpz_ok_rep Hs. by apply mpz_mul_ok. Qed.

Lemma mpz_mul_spec_witness :
  returns (zval (demo (-65537)) * zval (demo (2 ^ 40)))
    (mpz_mul_inpl true false (demo (-65537)) (demo (-65537)) (demo (2 ^ 40))).
Proof.
  apply mpz_mul_spec; [reflexivity|vm_compute; discriminate| | |discriminate];
    apply demo_ok; vm_compute; reflexivity.
Defined.

(** C12: [mpz_and_inpl], [mpz_or_inpl] and [mpz_xor_inpl] compute the bitwise
    operations of the infinite two's complement of their operands; the
    assertion of [mpn_or_neg] never fails. *)
Theorem mpz_bitwise_spec dest lhs rhs :
  growable dest -> mpz_ok lhs -> mpz_ok rhs -> small lhs -> small rhs ->
  returns (Z.land (zval lhs) (zval rhs)) (mpz_and_inpl dest lhs rhs) /\
  returns (Z.lor (zval lhs) (zval rhs)) (mpz_or_inpl dest lhs rhs) /\
  returns (Z.lxor (zval lhs) (zval rhs)) (mpz_xor_inpl dest lhs rhs).
Proof.
  intros Hg Hl%mpz_ok_rep Hr%mpz_ok_rep Sl Sr.
  split_and!; [by apply mpz_and_ok|by apply mpz_or_ok|by apply mpz_xor_ok].
Qed.

Lemma mpz_bitwise_spec_witness :
  returns (Z.land (zval (demo (-65536))) (zval (demo (3 ^ 25)))) (mpz_and_inpl (demo 0) (demo (-65536)) (demo (3 ^ 25))) /\
  returns (Z.lor (zval (demo (-65536))) (zval (demo (3 ^ 25)))) (mpz_or_inpl (demo 0) (demo (-65536)) (demo (3 ^ 25))) /\
  returns (Z.lxor (zval (demo (-65536))) (zval (demo (3 ^ 25)))) (mpz_xor_inpl (demo 0) (demo (-65536)) (demo (3 ^ 25))).
Proof.
  apply mpz_bitwise_spec; [reflexivity| | |reflexivity..]; apply demo_ok; vm_compute; reflexivity.
Defined.

(** [mpz_shl_inpl] and [mpz_shr_inpl] are the arithmetic shifts: to the
    right, the result is rounded towards minus infinity. *)
Theorem mpz_shift_spec dest lhs n :
  growable dest -> mpz_ok lhs -> 0 <= n ->
  returns (Z.shiftl (zval lhs) n) (mpz_shl_inpl dest lhs n) /\
  returns (Z.shiftr (zval lhs) n) (mpz_shr_inpl false dest lhs n).
Proof. intros Hg Hl%mpz_ok_rep Hn. split; [by apply mpz_shl_ok|by apply mpz_shr_ok]. Qed.

Lemma mpz_shift_spec_witness :
  returns (Z.shiftl (zval (demo (-98765))) 17) (mpz_shl_inpl (demo 0) (demo (-98765)) 17) /\
  returns (Z.shiftr (zval (demo (-98765))) 17) (mpz_shr_inpl false (demo 0) (demo (-98765)) 17).
Proof.
  apply mpz_shift_spec; [reflexivity|apply demo_ok; vm_compute; reflexivity|discriminate].
Defined.

(** [mpz_pow_inpl] raises to any power that is not negative, except zero
    to the power zero; its loop ends within the bits of the exponent. *)
Theorem mpz_pow_spec dest lhs rhs :
  growable dest -> 0 <= alloc dest -> mpz_ok lhs -> mpz_ok rhs ->
  0 <= zval rhs -> zval lhs <> 0 \/ 0 < zval rhs ->
  returns (zval lhs ^ zval rhs) (mpz_pow_inpl dest lhs rhs).
Proof. intros Hg Ha Hl%mpz_ok_rep Hr%mpz_ok_rep Hn Hor. by apply mpz_pow_ok. Qed.

Lemma mpz_pow_spec_witness :
  returns (zval (demo (-3)) ^ zval (demo 77)) (mpz_pow_inpl (demo 0) (demo (-3)) (demo 77)).
Proof.
  apply mpz_pow_spec; [reflexivity|discriminate|apply demo_ok; vm_compute; reflexivity..|discriminate|].
  left. discriminate.
Defined.

(** [mpz_pow3_inpl] computes modular powers, with Python's sign for the
    result, when the destination is not an operand. *)
Theorem mpz_pow3_spec dest lhs rhs m :
  growable dest -> 0 <= alloc dest -> mpz_ok lhs -> mpz_ok rhs -> mpz_ok m ->
  zval lhs <> 0 -> 0 < zval rhs -> zval m <> 0 ->
  returns ((zval lhs ^ zval rhs) mod zval m) (mpz_pow3_inpl false false dest lhs rhs m).
Proof. intros Hg Ha Hl%mpz_ok_rep Hr%mpz_ok_rep Hm%mpz_ok_rep ???. by apply mpz_pow3_ok. Qed.

Lemma mpz_pow3_spec_witness :
  returns ((zval (demo 12345678) ^ zval (demo 65537)) mod zval (demo (- 10 ^ 12)))
    (mpz_pow3_inpl false false (demo 0) (demo 12345678) (demo 65537) (demo (- 10 ^ 12))).
Proof.
  apply mpz_pow3_spec; [reflexivity|discriminate|apply demo_ok; vm_compute; reflexivity..|discriminate|reflexivity|].
  vm_compute. discriminate.
Defined.

(** [mpz_abs_inpl], [mpz_neg_inpl] and [mpz_not_inpl] compute the absolute
    value, the opposite and the complement, in place or not; zero stays without
    a sign. *)
Theorem mpz_sign_spec (same : bool) dest z :
  growable dest -> growable z -> mpz_ok z ->
  returns (Z.abs (zval z)) (mpz_abs_inpl same dest z) /\
  returns (- zval z) (mpz_neg_inpl same dest z) /\
  returns (- zval z - 1) (mpz_not_inpl same dest z).
Proof.
  intros Hd Hz Hr%mpz_ok_rep.
  replace (- zval z - 1) with (Z.lnot (zval z)) by (unfold Z.lnot; lia).
  split_and!; [by apply mpz_abs_ok|by apply mpz_neg_ok|by apply mpz_not_ok].
Qed.

Lemma mpz_sign_spec_witness :
  returns (Z.abs (zval (demo (-65536)))) (mpz_abs_inpl true (demo 0) (demo (-65536))) /\
  returns (- zval (demo (-65536))) (mpz_neg_inpl true (demo 0) (demo (-65536))) /\
  returns (- zval (demo (-65536)) - 1) (mpz_not_inpl true (demo 0) (demo (-65536))).
Proof. apply mpz_sign_spec; [reflexivity|reflexivity|apply demo_ok; vm_compute; reflexivity]. Defined.

(** The sign of [mpz_cmp] is the order of the values. *)
Theorem mpz_cmp_spec z1 z2 :
  mpz_ok z1 -> mpz_ok z2 -> Z.sgn (mpz_cmp z1 z2) = Z.sgn (zval z1 - zval z2).
Proof. intros H1%mpz_ok_rep H2%mpz_ok_rep. by apply mpz_cmp_ok. Qed.

Lemma mpz_cmp_spec_witness :
  Z.sgn (mpz_cmp (demo (-70000)) (demo (-5))) = Z.sgn (zval (demo (-70000)) - zval (demo (-5))).
Proof. apply mpz_cmp_spec; apply demo_ok; vm_compute; reflexivity. Defined.

(** * Conversions *)

(** The conversions to machine words: [mpz_as_int_checked] succeeds exactly
    below 2^31 in magnitude, [mpz_as_uint_checked] exactly from 0 to 2^32 - 1,
    and both then give the value; [mpz_hash] is the value reduced to a word, so
    the value itself when it fits. *)
Theorem mpz_word_spec z :
  mpz_ok z ->
  mpz_as_int_checked z = (if Z.abs (zval z) <? 2 ^ 31 then Some (zval z) else None) /\
  mpz_as_uint_checked z = (if (0 <=? zval z) && (zval z <? 2 ^ 32) then Some (zval z) else None) /\
  (- 2 ^ 31 <= zval z < 2 ^ 31 -> mpz_hash z = zval z).
Proof.
  intros Hz%mpz_ok_rep. split_and!; [by apply mpz_as_int_checked_ok|by apply mpz_as_uint_checked_ok|].
  intros Hv. rewrite (mpz_hash_ok _ _ Hz). apply wraps_small; cbn; lia.
Qed.

Lemma mpz_word_spec_witness :
  mpz_as_int_checked (demo (1 - 2 ^ 31)) = Some (1 - 2 ^ 31) /\
  mpz_as_uint_checked (demo (1 - 2 ^ 31)) = None /\
  mpz_hash (demo (1 - 2 ^ 31)) = 1 - 2 ^ 31.
Proof.
  destruct (mpz_word_spec (demo (1 - 2 ^ 31))) as (H1 & H2 & H3); [apply demo_ok; vm_compute; reflexivity|].
  split; [exact H1|split; [exact H2|]]. apply H3. split; [discriminate|reflexivity].
Defined.

(** A machine integer read into a number has its value: the 32-bit ones
    with [mpz_set_from_int], and the 64-bit ones, signed or not, with
    [mpz_set_from_ll]. *)
Theorem mpz_set_from_word_spec z v (is_signed : bool) :
  growable z -> 0 <= alloc z ->
  (- 2 ^ 31 <= v < 2 ^ 31 -> returns v (mpz_set_from_int z v)) /\
  ((if is_signed then - 2 ^ 63 <= v < 2 ^ 63 else 0 <= v < 2 ^ 64) -> returns v (mpz_set_from_ll z v is_signed)).
Proof. intros Hg Ha. split; intros Hv; [by apply mpz_set_from_int_ok|by apply mpz_set_from_ll_ok]. Qed.

Lemma mpz_set_from_word_spec_witness :
  returns (- 2 ^ 31) (mpz_set_from_int (demo 0) (- 2 ^ 31)) /\
  returns (- 2 ^ 31) (mpz_set_from_ll (demo 0) (- 2 ^ 31) true).
Proof.
  destruct (mpz_set_from_word_spec (demo 0) (- 2 ^ 31) true) as (H1 & H2); [reflexivity|discriminate|].
  split; [apply H1; split; [discriminate|reflexivity]|apply H2; split; [discriminate|reflexivity]].
Defined.

(** Writing a number to bytes and reading them back gives the number modulo
    the size of the buffer, in either byte order: [mpz_as_bytes] writes exactly
    the low bytes of the two's complement. *)
Theorem mpz_bytes_roundtrip z dest (big_endian : bool) len :
  mpz_ok z -> growable dest -> (0 < len)%nat ->
  exists buf, mpz_as_bytes z big_endian len = Some buf /\ length buf = len /\
    returns (zval z mod 256 ^ Z.of_nat len) (mpz_set_from_bytes dest big_endian buf).
Proof.
  intros Hz%mpz_ok_rep Hg Hlen.
  destruct (mpz_as_bytes_ok z _ big_endian len Hz ltac:(left; lia)) as (buf & E & Hl & Hb & Hv).
  exists buf. split_and!; [done..|]. rewrite <- Hv. by apply mpz_set_from_bytes_ok.
Qed.

Lemma mpz_bytes_roundtrip_witness :
  exists buf, mpz_as_bytes (demo (- 2 ^ 35 - 3)) true 3 = Some buf /\ length buf = 3%nat /\
    returns (zval (demo (- 2 ^ 35 - 3)) mod 256 ^ Z.of_nat 3) (mpz_set_from_bytes (demo 0) true buf).
Proof.
  apply mpz_bytes_roundtrip; [apply demo_ok; vm_compute; reflexivity|reflexivity|apply le_S, le_S, le_n].
Defined.

(** Printing a number and reading its digits back gives its magnitude, in
    every base from 2 to 32 and in both cases of letters; the sign is printed
    first. *)
Theorem mpz_text_roundtrip z dest base bc :
  mpz_ok z -> growable dest -> 2 <= base <= 32 -> bc = 97 \/ bc = 65 ->
  exists text r,
    mpz_as_str_inpl z base [] bc 0 = Some ((if zval z <? 0 then [45] else []) ++ text) /\
    mpz_set_from_str dest text false base = Some (r, Z.of_nat (length text)) /\
    mpz_ok r /\ zval r = Z.abs (zval z).
Proof.
  intros Hz%mpz_ok_rep Hg Hb Hbc.
  destruct (mpz_as_str_ok z _ base [] bc Hz Hb) as (ds & -> & Hds & Hn & _).
  destruct (mpz_set_from_str_ok dest (digit_char bc <$> ds) false base Hg ltac:(lia)) as (r & E & Hr & Hs & _ & Ha).
  rewrite digit_prefix_chars in E, Hr by (done || lia). rewrite Hn in Hr.
  exists (digit_char bc <$> ds), r. split; [done|]. rewrite length_fmap. split; [done|].
  apply rep_mpz_ok. split_and!; try done; [by rewrite (Z.abs_eq (Z.abs _)) by lia|].
  rewrite Hs. symmetry. apply Z.ltb_ge. lia.
Qed.

Lemma mpz_text_roundtrip_witness :
  exists text r,
    mpz_as_str_inpl (demo (- 10 ^ 14)) 16 [] 97 0 = Some ((if zval (demo (- 10 ^ 14)) <? 0 then [45] else []) ++ text) /\
    mpz_set_from_str (demo 1) text false 16 = Some (r, Z.of_nat (length text)) /\
    mpz_ok r /\ zval r = Z.abs (zval (demo (- 10 ^ 14))).
Proof.
  apply mpz_text_roundtrip; [apply demo_ok; vm_compute; reflexivity|reflexivity|split; discriminate|left; reflexivity].
Defined.

(** * Divergences *)

(** Zero to the power zero is computed as 0, while the empty product, and
    Python, give 1: both powers test the base first. *)
Example mpz_pow_zero_zero :
  (zval <$> mpz_pow_inpl (demo 0) (demo 0) (demo 0)) = Some 0 /\
  (zval <$> mpz_pow3_inpl false false (demo 0) (demo 0) (demo 0) (demo 7)) = Some 0.
Proof. split; vm_compute; reflexivity. Qed.

(** With a separator, a number whose count of digits is a multiple of three
    is printed with a leading separator: 123456 becomes ",123,456". *)
Example mpz_as_str_leading_comma :
  mpz_as_str_inpl (demo 123456) 10 [] 97 44 = Some [44; 49; 50; 51; 44; 52; 53; 54].
Proof. vm_compute. reflexivity. Qed.

(** Although the comments allow the destination to be an operand,
    [mpz_shr_inpl] in place turns -1 >> 1 into a negative zero, and
    [mpz_pow3_inpl] in place computes 7^21 mod 1000 as 1. *)
Example mpz_in_place_wrong :
  mpz_shr_inpl true (demo (-1)) (demo (-1)) 1 =
    Some {| neg := true; fixed_dig := false; alloc := 6; dig := [] |} /\
  (zval <$> mpz_pow3_inpl true false (demo 7) (demo 7) (demo 21) (demo 1000)) = Some 1 /\
  7 ^ 21 mod 1000 = 7.
Proof. split_and!; vm_compute; reflexivity. Qed.
