(* ===== verification/HashMap.v ===== *)
(** Hash tables and ordered arrays: [py/map.c], and the dictionary operations of
    [py/objdict.c] on them.

    A table is a list of slots; the lookup functions return the position of a
    slot where the code returns its address.  A memory fault is [None].  The
    port has no ordered dictionary: an ordered array is only searched. *)

From Stdlib Require Import ZArith Lia.
From stdpp Require Import base option list numbers.
From S2P Require Import Prelude.

(** * What a table asks of its keys *)

(** [key_eqb] is the identity of two object words, [obj_equal] is
    [mp_obj_equal], [key_hash] the hash of a qstr or the small integer
    [mp_unary_op] returns. *)
Class KeyOps (K : Type) := {
  key_eqb : K -> K -> bool;
  is_qstr : K -> bool;
  is_exact_str : K -> bool;
  key_hash : K -> Z;
  obj_equal : K -> K -> bool;
}.

(** Equality is an equivalence that respects the hashes; interned strings are
    equal only to themselves and to strings. *)
Class KeyLaws (K : Type) `{KeyOps K} := {
  key_eqb_eq : forall a b : K, key_eqb a b = true <-> a = b;
  obj_equal_refl : forall a : K, obj_equal a a = true;
  obj_equal_sym : forall a b : K, obj_equal a b = true -> obj_equal b a = true;
  obj_equal_trans : forall a b c : K, obj_equal a b = true -> obj_equal b c = true -> obj_equal a c = true;
  obj_equal_hash : forall a b : K, obj_equal a b = true -> key_hash a = key_hash b;
  obj_equal_qstr : forall a b : K, is_qstr a = true -> is_qstr b = true -> obj_equal a b = true -> a = b;
  obj_equal_str : forall a b : K, is_qstr a = true -> is_qstr b = false -> is_exact_str b = false ->
    obj_equal a b = false;
}.

(** * Definitions *)

Inductive slot_key (K : Type) := NULL | SENTINEL | KEY (k : K).
Arguments NULL {K}.
Arguments SENTINEL {K}.
Arguments KEY {K} k.

Record mp_map_elem (K V : Type) := { key : slot_key K; value : option V }.
Arguments key {K V}.
Arguments value {K V}.

Record mp_map (K V : Type) := {
  all_keys_are_qstrs : bool;
  is_fixed : bool;
  is_ordered : bool;
  used : Z;
  table : list (mp_map_elem K V);
}.
Arguments all_keys_are_qstrs {K V}.
Arguments is_fixed {K V}.
Arguments is_ordered {K V}.
Arguments used {K V}.
Arguments table {K V}.

Inductive mp_map_lookup_kind :=
| MP_MAP_LOOKUP | MP_MAP_LOOKUP_ADD_IF_NOT_FOUND | MP_MAP_LOOKUP_REMOVE_IF_FOUND
| MP_MAP_LOOKUP_ADD_IF_NOT_FOUND_OR_REMOVE_IF_FOUND.

#[export] Instance lookup_kind_eq_dec : EqDecision mp_map_lookup_kind.
Proof. solve_decision. Defined.

(** The bits of [lookup_kind]. *)
Definition adds (kind : mp_map_lookup_kind) : bool :=
  match kind with
  | MP_MAP_LOOKUP_ADD_IF_NOT_FOUND | MP_MAP_LOOKUP_ADD_IF_NOT_FOUND_OR_REMOVE_IF_FOUND => true
  | _ => false
  end.

Definition removes (kind : mp_map_lookup_kind) : bool :=
  match kind with
  | MP_MAP_LOOKUP_REMOVE_IF_FOUND | MP_MAP_LOOKUP_ADD_IF_NOT_FOUND_OR_REMOVE_IF_FOUND => true
  | _ => false
  end.

Definition hash_allocation_sizes : list Z :=
  [0; 2; 4; 6; 8; 10; 12;
   17; 23; 29; 37; 47; 59; 73;
   97; 127; 167; 223; 293; 389; 521; 691; 919; 1223; 1627; 2161;
   3229; 4831; 7243; 10861; 16273; 24407; 36607; 54907].

Definition get_hash_alloc_greater_or_equal_to (x : Z) : Z :=
  match list_find (fun s => x <= s) hash_allocation_sizes with
  | Some (_, s) => s
  | None => Z.lor (x + x / 2) 1
  end.

(** ** The probing loop *)

(** How the search in a hash table stops. *)
Inductive probe_end :=
| Found (pos : nat)
| AtNull (pos : nat) (avail_slot : option nat)
| Wrapped (avail_slot : option nat).

(** From [pos], with [fuel] slots to visit at most; [None] outside the table. *)
Fixpoint probe {K} (fuel : nat) (tbl : list (slot_key K)) (same : K -> bool) (start_pos pos : nat)
    (avail_slot : option nat) : option probe_end :=
  match fuel with
  | O => None
  | S fuel =>
      slot ← tbl !! pos;
      let next avail_slot :=
        let pos := ((pos + 1) mod length tbl)%nat in
        if (pos =? start_pos)%nat then Some (Wrapped avail_slot)
        else probe fuel tbl same start_pos pos avail_slot in
      match slot with
      | NULL => Some (AtNull pos avail_slot)
      | SENTINEL => next (Some (default pos avail_slot))
      | KEY k => if same k then Some (Found pos) else next avail_slot
      end
  end.

(** What replaces a deleted key: [NULL] when the next slot is empty. *)
Definition deleted {K} (tbl : list (slot_key K)) (pos : nat) : slot_key K :=
  match tbl !! ((pos + 1) mod length tbl)%nat with
  | Some NULL => NULL
  | _ => SENTINEL
  end.

Definition is_filled {K} (s : slot_key K) : bool :=
  match s with KEY _ => true | _ => false end.

Section map.
Context {K V : Type} `{KeyOps K}.

Abbreviation elem := (mp_map_elem K V).
Abbreviation map := (mp_map K V).

Definition empty_elem : elem := {| key := NULL; value := None |}.

Definition alloc (m : map) : Z := Z.of_nat (length (table m)).

Definition keys (m : map) : list (slot_key K) := key <$> table m.

Definition mp_map_init (n : nat) : map :=
  {| all_keys_are_qstrs := true; is_fixed := false; is_ordered := false; used := 0;
     table := replicate n empty_elem |}.

Definition mp_map_init_fixed_table (t : list elem) : map :=
  {| all_keys_are_qstrs := true; is_fixed := true; is_ordered := true; used := Z.of_nat (length t);
     table := t |}.

(** [is_ordered] is kept. *)
Definition mp_map_clear (m : map) : map :=
  {| all_keys_are_qstrs := true; is_fixed := false; is_ordered := is_ordered m; used := 0; table := [] |}.

Definition with_table (m : map) (u : Z) (t : list elem) : map :=
  {| all_keys_are_qstrs := all_keys_are_qstrs m; is_fixed := is_fixed m; is_ordered := is_ordered m;
     used := u; table := t |}.

(** A new key with a null value. *)
Definition add_at (m : map) (pos : nat) (index : K) : map :=
  {| all_keys_are_qstrs := if is_qstr index then all_keys_are_qstrs m else false;
     is_fixed := is_fixed m; is_ordered := is_ordered m; used := used m + 1;
     table := <[pos := {| key := KEY index; value := None |}]> (table m) |}.

(** The value is kept for the caller. *)
Definition remove_at (m : map) (pos : nat) : map :=
  with_table m (used m - 1)
    (alter (fun e => {| key := deleted (keys m) pos; value := value e |}) pos (table m)).

(** The caller's assignment to the [value] of a slot. *)
Definition set_value (m : map) (pos : nat) (v : option V) : map :=
  with_table m (used m) (alter (fun e => {| key := key e; value := v |}) pos (table m)).

(** The comparison of the searches. *)
Definition same_key (compare_only_ptrs : bool) (index k : K) : bool :=
  key_eqb k index || (negb compare_only_ptrs && obj_equal k index).

Definition hash_of (index : K) : Z := wrapu 32 (key_hash index).

(** The hash table part of [mp_map_lookup]; [turns] bounds the number of times
    the search is started. *)
Fixpoint hash_search (turns : nat) (rehash : map -> option map) (m : map) (index : K)
    (kind : mp_map_lookup_kind) (same : K -> bool) : option (map * option nat) :=
  match turns with
  | O => None
  | S turns =>
      let start := Z.to_nat (hash_of index mod alloc m) in
      e ← probe (length (table m)) (keys m) same start start None;
      match e with
      | Found pos =>
          if removes kind then Some (remove_at m pos, Some pos) else Some (m, Some pos)
      | AtNull pos avail_slot =>
          if adds kind then
            let pos := default pos avail_slot in Some (add_at m pos index, Some pos)
          else Some (m, None)
      | Wrapped avail_slot =>
          if adds kind then
            match avail_slot with
            | Some pos => Some (add_at m pos index, Some pos)
            | None => m ← rehash m; hash_search turns rehash m index kind same
            end
          else Some (m, None)
      end
  end.

(** The search of an ordered array. *)
Fixpoint array_search (t : list elem) (n : nat) (same : K -> bool) (pos : nat) : option (option nat) :=
  match n with
  | O => Some None
  | S n =>
      match t with
      | e :: t =>
          match key e with
          | KEY k => if same k then Some (Some pos) else array_search t n same (S pos)
          | _ => array_search t n same (S pos)
          end
      | [] => None
      end
  end.

Definition mp_map_lookup_with (rehash : map -> option map) (m : map) (index : K) (kind : mp_map_lookup_kind)
    : option (map * option nat) :=
  if is_fixed m && negb (bool_decide (kind = MP_MAP_LOOKUP)) then None else
  let ptrs := all_keys_are_qstrs m in
  if ptrs && negb (is_qstr index) && negb (is_exact_str index) &&
     negb (bool_decide (kind = MP_MAP_LOOKUP_ADD_IF_NOT_FOUND))
  then Some (m, None) else
  let compare_only_ptrs := ptrs && (is_qstr index || negb (is_exact_str index)) in
  let same := same_key compare_only_ptrs index in
  if is_ordered m then
    p ← array_search (table m) (Z.to_nat (used m)) same 0;
    Some (m, p)
  else if alloc m =? 0 then
    if bool_decide (kind = MP_MAP_LOOKUP_ADD_IF_NOT_FOUND)
    then m ← rehash m; hash_search 2 rehash m index kind same
    else Some (m, None)
  else hash_search 2 rehash m index kind same.

(** The keys of the old table are added to the new one. *)
Fixpoint rehash_loop (lookup : map -> K -> mp_map_lookup_kind -> option (map * option nat))
    (old_table : list elem) (m : map) : option map :=
  match old_table with
  | [] => Some m
  | e :: old_table =>
      match key e with
      | KEY k =>
          '(m, slot) ← lookup m k MP_MAP_LOOKUP_ADD_IF_NOT_FOUND;
          pos ← slot;
          rehash_loop lookup old_table (set_value m pos (value e))
      | _ => rehash_loop lookup old_table m
      end
  end.

Definition mp_map_rehash_with (lookup : map -> K -> mp_map_lookup_kind -> option (map * option nat)) (m : map)
    : option map :=
  let new_alloc := get_hash_alloc_greater_or_equal_to (alloc m + 1) in
  let m' :=
    {| all_keys_are_qstrs := true; is_fixed := is_fixed m; is_ordered := is_ordered m; used := 0;
       table := replicate (Z.to_nat new_alloc) empty_elem |} in
  rehash_loop lookup (table m) m'.

(** The lookups of a rehash find room: they do not rehash again. *)
Definition mp_map_rehash : map -> option map :=
  mp_map_rehash_with (mp_map_lookup_with (fun _ => None)).

Definition mp_map_lookup : map -> K -> mp_map_lookup_kind -> option (map * option nat) :=
  mp_map_lookup_with mp_map_rehash.

(** ** Dictionaries *)

Inductive exn := TypeError | KeyError.

(** [dict_iter_next]: the filled slot from [cur] on. *)
Fixpoint dict_iter_next (t : list elem) (cur i : nat) : option nat :=
  match t with
  | [] => None
  | e :: t => if (cur <=? i)%nat && is_filled (key e) then Some i else dict_iter_next t cur (S i)
  end.

Definition mp_obj_dict_get (m : map) (index : K) : option (exn + option V) :=
  '(_, slot) ← mp_map_lookup m index MP_MAP_LOOKUP;
  match slot with
  | None => Some (inl KeyError)
  | Some pos => e ← table m !! pos; Some (inr (value e))
  end.

Definition mp_obj_dict_store (m : map) (k : K) (v : V) : option (exn + map) :=
  if is_fixed m then Some (inl TypeError) else
  '(m, slot) ← mp_map_lookup m k MP_MAP_LOOKUP_ADD_IF_NOT_FOUND;
  pos ← slot;
  Some (inr (set_value m pos (Some v))).

Definition dict_clear (m : map) : exn + map :=
  if is_fixed m then inl TypeError else inr (mp_map_clear m).

Definition mp_obj_dict_copy (m : map) : map :=
  {| all_keys_are_qstrs := all_keys_are_qstrs m; is_fixed := false; is_ordered := is_ordered m;
     used := used m; table := table m |}.

Section helper.
Context (mp_const_none : V).

(** [default] is [args[2]], if given. *)
Definition dict_get_helper (m : map) (k : K) (dflt : option V) (kind : mp_map_lookup_kind)
    : option (exn + map * V) :=
  if negb (bool_decide (kind = MP_MAP_LOOKUP)) && is_fixed m then Some (inl TypeError) else
  '(m, slot) ← mp_map_lookup m k kind;
  v ← match slot with None => Some None | Some pos => e ← table m !! pos; Some (value e) end;
  match v with
  | None =>
      match dflt, kind with
      | None, MP_MAP_LOOKUP_REMOVE_IF_FOUND => Some (inl KeyError)
      | _, _ =>
          let v := default mp_const_none dflt in
          if bool_decide (kind = MP_MAP_LOOKUP_ADD_IF_NOT_FOUND)
          then pos ← slot; Some (inr (set_value m pos (Some v), v))
          else Some (inr (m, v))
      end
  | Some v =>
      pos ← slot;
      Some (inr (if bool_decide (kind = MP_MAP_LOOKUP_REMOVE_IF_FOUND) then set_value m pos None else m, v))
  end.

Definition dict_get (m : map) (k : K) (dflt : option V) := dict_get_helper m k dflt MP_MAP_LOOKUP.
Definition dict_pop (m : map) (k : K) (dflt : option V) :=
  dict_get_helper m k dflt MP_MAP_LOOKUP_REMOVE_IF_FOUND.
Definition dict_setdefault (m : map) (k : K) (dflt : option V) :=
  dict_get_helper m k dflt MP_MAP_LOOKUP_ADD_IF_NOT_FOUND.

Definition mp_obj_dict_delete (m : map) (k : K) : option (exn + map) :=
  r ← dict_pop m k None;
  Some (match r with inl e => inl e | inr (m, _) => inr m end).
End helper.

(** The item removed, and the dictionary left; [None] where the assertion
    fails. *)
Definition dict_popitem (m : map) : option (exn + map * (K * option V)) :=
  if is_fixed m then Some (inl TypeError) else
  if used m =? 0 then Some (inl KeyError) else
  pos ← dict_iter_next (table m) 0 0;
  e ← table m !! pos;
  match key e with
  | KEY k =>
      Some (inr (with_table m (used m - 1) (<[pos := {| key := SENTINEL; value := None |}]> (table m)),
                 (k, value e)))
  | _ => None
  end.

(** [dict_update] from another dictionary or the keyword arguments. *)
Fixpoint dict_update_from (m : map) (other : list elem) : option map :=
  match other with
  | [] => Some m
  | e :: other =>
      match key e with
      | KEY k =>
          '(m, slot) ← mp_map_lookup m k MP_MAP_LOOKUP_ADD_IF_NOT_FOUND;
          pos ← slot;
          dict_update_from (set_value m pos (value e)) other
      | _ => dict_update_from m other
      end
  end.

Definition dict_update (m other kwargs : map) : option (exn + map) :=
  if is_fixed m then Some (inl TypeError) else
  m ← dict_update_from m (table other);
  m ← dict_update_from m (table kwargs);
  Some (inr m).
End map.

(** * Sets *)

Section set.
Context {K : Type} `{KeyOps K}.

Record mp_set := { set_used : Z; set_table : list (slot_key K) }.

Definition set_alloc (s : mp_set) : Z := Z.of_nat (length (set_table s)).

Definition mp_set_init (n : nat) : mp_set := {| set_used := 0; set_table := replicate n NULL |}.

Definition mp_set_clear (s : mp_set) : mp_set := {| set_used := 0; set_table := [] |}.

Definition set_add_at (s : mp_set) (pos : nat) (index : K) : mp_set :=
  {| set_used := set_used s + 1; set_table := <[pos := KEY index]> (set_table s) |}.

Definition set_remove_at (s : mp_set) (pos : nat) : mp_set :=
  {| set_used := set_used s - 1; set_table := <[pos := deleted (set_table s) pos]> (set_table s) |}.

(** The set and the object returned, if it is not null. *)
Fixpoint set_search (turns : nat) (rehash : mp_set -> option mp_set) (s : mp_set) (index : K)
    (kind : mp_map_lookup_kind) : option (mp_set * option K) :=
  match turns with
  | O => None
  | S turns =>
      let start := Z.to_nat (hash_of index mod set_alloc s) in
      e ← probe (length (set_table s)) (set_table s) (fun k => obj_equal k index) start start None;
      match e with
      | Found pos =>
          slot ← set_table s !! pos;
          match slot with
          | KEY k => Some (if removes kind then set_remove_at s pos else s, Some k)
          | _ => None
          end
      | AtNull pos avail_slot =>
          if adds kind then Some (set_add_at s (default pos avail_slot) index, Some index)
          else Some (s, None)
      | Wrapped avail_slot =>
          if adds kind then
            match avail_slot with
            | Some pos => Some (set_add_at s pos index, Some index)
            | None => s ← rehash s; set_search turns rehash s index kind
            end
          else Some (s, None)
      end
  end.

Definition mp_set_lookup_with (rehash : mp_set -> option mp_set) (s : mp_set) (index : K)
    (kind : mp_map_lookup_kind) : option (mp_set * option K) :=
  if set_alloc s =? 0 then
    if adds kind then s ← rehash s; set_search 2 rehash s index kind else Some (s, None)
  else set_search 2 rehash s index kind.

Fixpoint set_rehash_loop (lookup : mp_set -> K -> mp_map_lookup_kind -> option (mp_set * option K))
    (old_table : list (slot_key K)) (s : mp_set) : option mp_set :=
  match old_table with
  | [] => Some s
  | KEY k :: old_table =>
      '(s, _) ← lookup s k MP_MAP_LOOKUP_ADD_IF_NOT_FOUND;
      set_rehash_loop lookup old_table s
  | _ :: old_table => set_rehash_loop lookup old_table s
  end.

Definition mp_set_rehash (s : mp_set) : option mp_set :=
  let new_alloc := get_hash_alloc_greater_or_equal_to (set_alloc s + 1) in
  set_rehash_loop (mp_set_lookup_with (fun _ => None)) (set_table s)
    {| set_used := 0; set_table := replicate (Z.to_nat new_alloc) NULL |}.

Definition mp_set_lookup : mp_set -> K -> mp_map_lookup_kind -> option (mp_set * option K) :=
  mp_set_lookup_with mp_set_rehash.

Fixpoint set_first (t : list (slot_key K)) (pos : nat) : option (nat * K) :=
  match t with
  | [] => None
  | KEY k :: _ => Some (pos, k)
  | _ :: t => set_first t (S pos)
  end.

Definition mp_set_remove_first (s : mp_set) : mp_set * option K :=
  match set_first (set_table s) 0 with
  | Some (pos, k) => (set_remove_at s pos, Some k)
  | None => (s, None)
  end.
End set.
