(* ===== verification/HashTable.v ===== *)
(** The theory of the open-addressing tables of [HashMap]: the invariant of
    linear probing, what a search finds, and that adding and deleting a key keep
    the invariant. *)

From Stdlib Require Import ZArith Lia.
From stdpp Require Import base option list numbers.
From S2P Require Import Prelude HashMap.

(** * The probe sequence *)

(** Slot number [j] of the sequence that starts at [s]. *)
Definition step (n s j : nat) : nat := ((s + j) mod n)%nat.

Lemma step_cases n s j :
  (s < n -> j <= n -> (s + j < n /\ step n s j = s + j) \/ (n <= s + j /\ step n s j = s + j - n))%nat.
Proof.
  intros Hs Hj. unfold step. destruct (Nat.lt_ge_cases (s + j) n) as [L|L].
  - left. by rewrite Nat.mod_small.
  - right. split; [done|]. replace (s + j)%nat with (s + j - n + 1 * n)%nat at 1 by lia.
    rewrite Nat.Div0.mod_add. apply Nat.mod_small. lia.
Qed.

Lemma step_lt n s j : (0 < n -> step n s j < n)%nat.
Proof. intros. apply Nat.mod_upper_bound. lia. Qed.

Lemma step_next n s j : ((step n s j + 1) mod n)%nat = step n s (j + 1).
Proof. unfold step. rewrite Nat.Div0.add_mod_idemp_l. f_equal. lia. Qed.

Lemma step_0 n s : (s < n)%nat -> step n s 0 = s.
Proof. intros. destruct (step_cases n s 0); lia. Qed.

Lemma step_inj n s i j : (s < n -> i < n -> j < n -> step n s i = step n s j -> i = j)%nat.
Proof. intros. destruct (step_cases n s i), (step_cases n s j); lia. Qed.

(** Every slot is in the sequence. *)
Lemma step_surj n s p : (s < n -> p < n -> exists j, j < n /\ p = step n s j)%nat.
Proof.
  intros Hs Hp. exists ((if s <=? p then p - s else n - s + p)%nat).
  destruct (Nat.leb_spec s p); [destruct (step_cases n s (p - s))|destruct (step_cases n s (n - s + p))]; lia.
Qed.

(** * Counting *)

Fixpoint filled {K} (t : list (slot_key K)) : nat :=
  match t with
  | [] => 0
  | s :: t => (if is_filled s then 1 else 0) + filled t
  end.

Lemma filled_insert {K} (t : list (slot_key K)) p s s' :
  t !! p = Some s ->
  (filled (<[p := s']> t) + (if is_filled s then 1 else 0) = filled t + (if is_filled s' then 1 else 0))%nat.
Proof.
  revert p. induction t as [|x t IH]; intros [|p] E; try done; cbn in E.
  - injection E as ->. change (<[0%nat := s']> (s :: t)) with (s' :: t). cbn [filled]. destruct (is_filled s), (is_filled s'); lia.
  - specialize (IH p E). change (<[S p := s']> (x :: t)) with (x :: <[p := s']> t). cbn [filled]. lia.
Qed.

Lemma filled_le {K} (t : list (slot_key K)) : (filled t <= length t)%nat.
Proof. induction t as [|[] t IH]; cbn; lia. Qed.

Lemma filled_full {K} (t : list (slot_key K)) :
  (forall p s, t !! p = Some s -> is_filled s = true) -> filled t = length t.
Proof.
  induction t as [|x t IH]; intros Hf; [done|]. cbn.
  rewrite (Hf 0%nat x eq_refl), IH; [done|]. intros p s E. by apply (Hf (S p)).
Qed.

Lemma filled_empty {K} n : filled (replicate n (@NULL K)) = 0%nat.
Proof. induction n; done. Qed.

(** * The invariant *)

Section table.
Context {K : Type} `{KeyLaws K}.

Definition home (n : nat) (k : K) : nat := Z.to_nat (hash_of k mod Z.of_nat n).

Lemma home_lt n k : (0 < n)%nat -> (home n k < n)%nat.
Proof.
  intros Hn. unfold home. pose proof (Z.mod_pos_bound (hash_of k) (Z.of_nat n) ltac:(lia)). lia.
Qed.

Lemma home_equal n a b : obj_equal a b = true -> home n a = home n b.
Proof. intros E. unfold home, hash_of. by rewrite (obj_equal_hash a b E). Qed.

Implicit Types t : list (slot_key K).

(** Keys are pairwise different, and no empty slot lies between the place where
    the search for a key starts and the key. *)
Record tbl_ok t : Prop := {
  tbl_distinct : forall p q a b, t !! p = Some (KEY a) -> t !! q = Some (KEY b) -> obj_equal a b = true -> p = q;
  tbl_reach : forall p k, t !! p = Some (KEY k) ->
    exists d, (d < length t)%nat /\ p = step (length t) (home (length t) k) d /\
    forall j, (j < d)%nat -> t !! step (length t) (home (length t) k) j <> Some NULL;
}.

Definition absent t (k : K) : Prop := forall p a, t !! p = Some (KEY a) -> obj_equal a k = false.

Lemma tbl_ok_empty n : tbl_ok (replicate n NULL).
Proof.
  split.
  - intros p q a b E. apply lookup_replicate in E as [E _]. done.
  - intros p k E. apply lookup_replicate in E as [E _]. done.
Qed.

(** ** Searching *)

Section probe.
Context (t : list (slot_key K)) (same : K -> bool) (start : nat).
Let n := length t.
Context (Hstart : (start < n)%nat).

(** The first [i] slots hold neither nothing nor the key. *)
Definition clean (i : nat) : Prop :=
  forall j, (j < i)%nat -> t !! step n start j <> Some NULL /\
    forall k, t !! step n start j = Some (KEY k) -> same k = false.

Definition avail_ok (i : nat) (avail : option nat) : Prop :=
  match avail with
  | Some q => exists j, (j < i)%nat /\ q = step n start j /\ t !! q = Some SENTINEL
  | None => forall j, (j < i)%nat -> exists k, t !! step n start j = Some (KEY k)
  end.

Definition probe_ok (e : probe_end) : Prop :=
  match e with
  | Found p => exists k, t !! p = Some (KEY k) /\ same k = true
  | AtNull p avail => exists i, (i < n)%nat /\ p = step n start i /\ t !! p = Some NULL /\ clean i /\ avail_ok i avail
  | Wrapped avail => clean n /\ avail_ok n avail
  end.

Lemma probe_spec fuel : forall i avail,
  (i < n)%nat -> fuel = (n - i)%nat -> clean i -> avail_ok i avail ->
  exists e, probe fuel t same start (step n start i) avail = Some e /\ probe_ok e.
Proof.
  induction fuel as [|fuel IH]; intros i avail Hi Hf Hc Ha; [lia|]. cbn [probe].
  destruct (t !! step n start i) as [s|] eqn:Es.
  2: { apply lookup_ge_None in Es. pose proof (step_lt n start i ltac:(lia)). unfold n in *. lia. }
  cbn [mbind option_bind]. fold n. rewrite step_next.
  assert (forall avail', s <> NULL -> (forall k, s = KEY k -> same k = false) -> avail_ok (i + 1) avail' ->
    exists e, (if (step n start (i + 1) =? start)%nat then Some (Wrapped avail')
      else probe fuel t same start (step n start (i + 1)) avail') = Some e /\ probe_ok e) as Hnext.
  { intros avail' Hs Hk Ha'.
    assert (clean (i + 1)) as Hc'.
    { intros j Hj. destruct (Nat.eq_dec j i) as [->|]; [|apply Hc; lia].
      rewrite Es. split; [by intros [= ->]|]. intros k [= ->]. by apply Hk. }
    destruct (Nat.eqb_spec (step n start (i + 1)) start) as [E|E].
    - assert (i + 1 = n)%nat as En by (destruct (step_cases n start (i + 1)); lia).
      exists (Wrapped avail'). rewrite En in Hc', Ha'. done.
    - apply IH; try done; [|lia]. destruct (Nat.eq_dec (S i) n) as [En|]; [|lia].
      exfalso. apply E. rewrite Nat.add_1_r, En. destruct (step_cases n start n); lia. }
  destruct s as [| |k].
  - exists (AtNull (step n start i) avail). split; [done|]. exists i. by rewrite Es.
  - apply Hnext; [done|done|]. destruct avail as [q|]; cbn [default].
    + destruct Ha as (j & Hj & Hq). exists j. split; [lia|done].
    + exists i. rewrite Es. split_and!; [lia|done|done].
  - destruct (same k) eqn:Ek; [exists (Found (step n start i)); split; [done|by exists k]|].
    apply Hnext; [done|by intros ? [= <-]|]. destruct avail as [q|].
    + destruct Ha as (j & Hj & Hq). exists j. split; [lia|done].
    + intros j Hj. destruct (Nat.eq_dec j i) as [->|]; [by exists k|apply Ha; lia].
Qed.

Lemma probe_total : exists e, probe n t same start start None = Some e /\ probe_ok e.
Proof.
  destruct (probe_spec n 0 None) as (e & E & He); try lia.
  - intros j Hj. lia.
  - intros j Hj. lia.
  - rewrite step_0 in E by done. by exists e.
Qed.
End probe.

(** A search that starts at the home of [index] and compares as [obj_equal]
    does. *)
Section search.
Context (t : list (slot_key K)) (index : K) (same : K -> bool).
Context (Hok : tbl_ok t) (Hn : (0 < length t)%nat).
Context (Hsame : forall p k, t !! p = Some (KEY k) -> same k = obj_equal k index).

Let start := home (length t) index.

(** The key is not in the table when an empty slot, or no slot, ends the
    search. *)
Lemma clean_absent i :
  clean t same start i ->
  (i = length t \/ (i < length t)%nat /\ t !! step (length t) start i = Some NULL) -> absent t index.
Proof.
  intros Hc Hi p a Ep. destruct (obj_equal a index) eqn:E; [|done]. exfalso.
  destruct (tbl_reach t Hok p a Ep) as (d & Hd & -> & Hr).
  rewrite (home_equal _ _ _ E) in Ep, Hr. fold start in Ep, Hr.
  assert (d < i \/ i <= d)%nat as [L|L] by lia.
  - destruct (Hc d L) as [_ Hk]. specialize (Hk a Ep). rewrite (Hsame _ _ Ep), E in Hk. done.
  - destruct Hi as [->|[Hi En]]; [lia|]. destruct (Nat.eq_dec i d) as [->|]; [congruence|].
    by apply (Hr i); [lia|].
Qed.

(** A free slot that the search passed. *)
Definition free_slot (q : nat) : Prop :=
  exists j, (j < length t)%nat /\ q = step (length t) start j /\
    (exists s, t !! q = Some s /\ is_filled s = false) /\
    forall i, (i < j)%nat -> t !! step (length t) start i <> Some NULL.

(** The outcomes of a search, from the outside. *)
Lemma search_total :
  exists e, probe (length t) t same start start None = Some e /\
  match e with
  | Found p => exists k, t !! p = Some (KEY k) /\ obj_equal k index = true
  | AtNull p avail => absent t index /\ free_slot (default p avail)
  | Wrapped (Some p) => absent t index /\ free_slot p
  | Wrapped None => absent t index /\ filled t = length t
  end.
Proof.
  destruct (probe_total t same start (home_lt _ _ Hn)) as (e & -> & He). exists e. split; [done|].
  assert (forall i avail q, clean t same start i -> (i <= length t)%nat ->
    avail_ok t start i avail -> avail = Some q -> free_slot q) as Havail.
  { intros i avail q Hc Hi Ha ->. destruct Ha as (j & Hj & -> & Es). exists j. split; [lia|]. split; [done|].
    split; [by exists SENTINEL|]. intros i' Hi'. apply Hc. lia. }
  destruct e as [p|p avail|avail].
  - destruct He as (k & Ek & Hk). exists k. by rewrite <- (Hsame _ _ Ek).
  - destruct He as (i & Hi & -> & En & Hc & Ha). split; [by eapply clean_absent; [|right]|].
    destruct avail as [q|]; cbn [default]; [by apply (Havail i (Some q)); [|lia| |]|].
    exists i. split; [done|]. split; [done|]. split; [by exists NULL|]. intros i' Hi'. by apply Hc.
  - destruct He as [Hc Ha]. assert (absent t index) by (eapply clean_absent; [done|by left]).
    destruct avail as [q|]; (split; [done|]); [by apply (Havail (length t) (Some q))|].
    apply filled_full. intros p s Es.
    destruct (step_surj (length t) start p (home_lt _ _ Hn)) as (j & Hj & ->); [by eapply lookup_lt_Some|].
    destruct (Ha j Hj) as (k & Ek). rewrite Es in Ek. by simplify_eq.
Qed.
End search.

(** ** Adding and deleting *)

Lemma insert_lookup t p q s e :
  <[p := s]> t !! q = Some e -> (p = q /\ e = s) \/ (p <> q /\ t !! q = Some e).
Proof.
  destruct (Nat.eq_dec p q) as [<-|Hne].
  - intros E. left. split; [done|]. pose proof (lookup_lt_Some _ _ _ E) as L. rewrite length_insert in L.
    rewrite list_lookup_insert_eq in E by done. congruence.
  - intros E. rewrite list_lookup_insert_ne in E by done. by right.
Qed.

Lemma tbl_ok_insert t index q :
  tbl_ok t -> absent t index -> free_slot t index q -> tbl_ok (<[q := KEY index]> t).
Proof.
  intros Hok Hab (j & Hj & Hq & (s & Es & Hs) & Hcl). split.
  - intros p p' a b [[<- [= ->]]|[Hp Ea]]%insert_lookup [[<- [= ->]]|[Hp' Eb]]%insert_lookup E; [done| | |].
    + exfalso. apply obj_equal_sym in E. by rewrite (Hab _ _ Eb) in E.
    + exfalso. by rewrite (Hab _ _ Ea) in E.
    + by eapply (tbl_distinct t Hok).
  - intros p k Hk. rewrite length_insert. apply insert_lookup in Hk as [[<- [= ->]]|[Hp Ek]].
    + exists j. split; [done|]. split; [done|]. intros i Hi [[_ ?]|[_ E]]%insert_lookup; [done|].
      by apply (Hcl i Hi).
    + destruct (tbl_reach t Hok p k Ek) as (d & Hd & Ed & Hr). exists d. split; [done|]. split; [done|].
      intros i Hi [[_ ?]|[_ E]]%insert_lookup; [done|]. by apply (Hr i Hi).
Qed.

Lemma deleted_free t p : is_filled (deleted t p) = false.
Proof. unfold deleted. by destruct (t !! _) as [[]|]. Qed.

(** Emptying a slot, as long as no [NULL] appears in front of a slot in use. *)
Lemma tbl_ok_free t p s :
  tbl_ok t -> (0 < length t)%nat -> is_filled s = false ->
  (s = NULL -> t !! ((p + 1) mod length t)%nat = Some NULL) -> tbl_ok (<[p := s]> t).
Proof.
  intros Hok Hn Hs Hnull. assert (forall a, s <> KEY a) as Hd by (intros a ->; done).
  split.
  - intros q q' a b [[_ E]|[_ Ea]]%insert_lookup [[_ E']|[_ Eb]]%insert_lookup E2;
      [by destruct (Hd a)|by destruct (Hd a)|by destruct (Hd b)|]. by eapply (tbl_distinct t Hok).
  - intros q a Hq. rewrite length_insert. apply insert_lookup in Hq as [[_ E]|[Hpq Ea]]; [by destruct (Hd a)|].
    destruct (tbl_reach t Hok q a Ea) as (d & Hdl & Ed & Hr). exists d. split; [done|]. split; [done|].
    intros i Hi Hn'. apply insert_lookup in Hn' as [[Ei Edel]|[_ E]]; [|by apply (Hr i Hi)].
    symmetry in Edel. apply Hnull in Edel. subst p. rewrite step_next in Edel.
    destruct (Nat.eq_dec (i + 1)%nat d) as [E|]; [congruence|]. by apply (Hr (i + 1)%nat); [lia|].
Qed.

Lemma deleted_null t p : deleted t p = NULL -> t !! ((p + 1) mod length t)%nat = Some NULL.
Proof. unfold deleted. by destruct (t !! _) as [[]|]. Qed.

Lemma tbl_ok_delete t p : tbl_ok t -> (0 < length t)%nat -> tbl_ok (<[p := deleted t p]> t).
Proof.
  intros Hok Hn. apply tbl_ok_free; [done..|apply deleted_free|apply deleted_null].
Qed.
End table.
