(* ===== verification/HashSpec.v ===== *)
(** The hash table is a map up to [obj_equal]: from any well-formed table,
    storing, getting and deleting behave as on an association, and the table
    stays well-formed, across deletions, wrapped searches and rehashing. *)

From Stdlib Require Import ZArith Lia.
From stdpp Require Import base option list numbers.
From S2P Require Import Prelude HashMap HashTable.

(** * The allocation sizes *)

Lemma hash_alloc_ge x : 0 <= x -> x <= get_hash_alloc_greater_or_equal_to x.
Proof.
  intros Hx. unfold get_hash_alloc_greater_or_equal_to.
  destruct (list_find _ _) as [[i s]|] eqn:E.
  - apply list_find_Some in E as (_ & H & _). done.
  - pose proof (Z.add_lor_land (x + x / 2) 1) as E'. change 1 with (Z.ones 1) in E' at 2.
    rewrite Z.land_ones in E' by done. pose proof (Z.div_pos x 2 Hx ltac:(lia)).
    pose proof (Z.mod_pos_bound (x + x / 2) (2 ^ 1) ltac:(done)). change (2 ^ 1) with 2 in *. lia.
Qed.

Section map.
Context {K V : Type} `{KeyLaws K}.

Implicit Types m : mp_map K V.

(** A hash table that may be modified. *)
Record map_ok m : Prop := {
  ok_hash : is_ordered m = false;
  ok_free : is_fixed m = false;
  ok_tbl : tbl_ok (keys m);
  ok_used : used m = Z.of_nat (filled (keys m));
  ok_qstrs : all_keys_are_qstrs m = true -> forall p k, keys m !! p = Some (KEY k) -> is_qstr k = true;
}.

Lemma length_keys m : length (keys m) = length (table m).
Proof. apply length_fmap. Qed.

Lemma keys_lookup m p s : keys m !! p = Some s <-> exists v, table m !! p = Some {| key := s; value := v |}.
Proof.
  unfold keys. rewrite list_lookup_fmap. destruct (table m !! p) as [[k v]|]; cbn.
  - split; [intros [= ->]; eauto|intros (v' & [= -> ->]); done].
  - split; [done|intros (v' & ?); done].
Qed.

(** ** The comparison of a search *)

Lemma same_key_equal (ptrs : bool) index k :
  (ptrs = true -> is_qstr k = true /\ (is_qstr index = true \/ is_exact_str index = false)) ->
  same_key ptrs index k = obj_equal k index.
Proof.
  intros Hp. unfold same_key. destruct (key_eqb k index) eqn:E.
  - apply key_eqb_eq in E as ->. by rewrite obj_equal_refl.
  - assert (k <> index) as Hne by (intros ->; by rewrite (proj2 (key_eqb_eq index index)) in E).
    destruct ptrs; [|done]. destruct (Hp eq_refl) as [Hq Hi]. cbn [negb andb orb].
    symmetry. destruct (obj_equal k index) eqn:Ee; [|done]. exfalso.
    destruct (is_qstr index) eqn:Eq; [by apply Hne, obj_equal_qstr|].
    destruct Hi as [|Hi]; [done|]. by rewrite (obj_equal_str k index) in Ee.
Qed.

Lemma search_same m index :
  map_ok m -> forall p k, keys m !! p = Some (KEY k) ->
  same_key (all_keys_are_qstrs m && (is_qstr index || negb (is_exact_str index))) index k = obj_equal k index.
Proof.
  intros Hm p k Ek. apply same_key_equal. intros [Hq Ho]%andb_prop.
  split; [by eapply ok_qstrs|]. destruct (is_qstr index); [by left|right]. by destruct (is_exact_str index).
Qed.

(** ** Slots written *)

Lemma keys_add m pos index : keys (add_at m pos index) = <[pos := KEY index]> (keys m).
Proof. unfold keys, add_at. cbn [table]. by rewrite list_fmap_insert. Qed.

Lemma keys_set_value m pos v : keys (set_value m pos v) = keys m.
Proof.
  apply list_eq. intros i. unfold set_value, with_table, keys. cbn [table].
  rewrite !list_lookup_fmap, list_lookup_alter. destruct (decide (pos = i)) as [<-|Hne]; [|done].
  by destruct (table m !! pos).
Qed.

(** ** Well-formedness *)

Lemma map_ok_set_value m pos v : map_ok m -> map_ok (set_value m pos v).
Proof. intros []. split; rewrite ?keys_set_value; done. Qed.

Lemma map_ok_add m index q :
  map_ok m -> absent (keys m) index -> free_slot (keys m) index q -> map_ok (add_at m q index).
Proof.
  intros Hm Hab Hf. destruct Hm. split; try done; rewrite ?keys_add.
  - by apply tbl_ok_insert.
  - destruct Hf as (j & _ & _ & (s & Es & Hs) & _). cbn [used add_at].
    pose proof (filled_insert (keys m) q s (KEY index) Es) as E. rewrite Hs in E. cbn in E. lia.
  - cbn [all_keys_are_qstrs add_at]. intros Hq p k [[<- [= ->]]|[_ Ek]]%insert_lookup.
    + by destruct (is_qstr index).
    + destruct (is_qstr index); [by eapply ok_qstrs0|done].
Qed.

(** Emptying a slot in use. *)
Lemma map_ok_free m p e k :
  map_ok m -> keys m !! p = Some (KEY k) -> is_filled (key e) = false ->
  (key e = NULL -> deleted (keys m) p = NULL) ->
  map_ok (with_table m (used m - 1) (<[p := e]> (table m))).
Proof.
  intros Hm Ek Hf Hd. destruct Hm. assert (0 < length (keys m))%nat as Hn by (apply lookup_lt_Some in Ek; lia).
  assert (keys (with_table m (used m - 1) (<[p := e]> (table m))) = <[p := key e]> (keys m)) as E.
  { unfold keys, with_table. cbn [table]. by rewrite list_fmap_insert. }
  split; try done; rewrite ?E.
  - apply tbl_ok_free; try done. intros En. by apply deleted_null, Hd.
  - cbn [used with_table]. pose proof (filled_insert (keys m) p (KEY k) (key e) Ek) as E'.
    rewrite Hf in E'. cbn in E'. lia.
  - cbn [all_keys_are_qstrs with_table]. intros Hq q a [[_ Ea]|[_ Ea]]%insert_lookup; [|by eapply ok_qstrs0].
    by rewrite <- Ea in Hf.
Qed.

Lemma alter_insert {A} (f : A -> A) p (t : list A) x : t !! p = Some x -> alter f p t = <[p := f x]> t.
Proof. revert p. induction t as [|y t IH]; intros [|p] E; try done; cbn in E; [by simplify_eq|]. cbn. f_equal. by apply IH. Qed.

Lemma remove_insert m p e : table m !! p = Some e ->
  remove_at m p = with_table m (used m - 1) (<[p := {| key := deleted (keys m) p; value := value e |}]> (table m)).
Proof. intros E. unfold remove_at. f_equal. by rewrite (alter_insert _ p _ e). Qed.

Lemma map_ok_remove m p k : map_ok m -> keys m !! p = Some (KEY k) -> map_ok (remove_at m p).
Proof.
  intros Hm Ek. destruct (proj1 (keys_lookup _ _ _) Ek) as (v & E). rewrite (remove_insert m p _ E).
  eapply map_ok_free; [done..| |]; cbn [key]; [apply deleted_free|done].
Qed.

Lemma map_ok_init n : map_ok (mp_map_init n : mp_map K V).
Proof.
  assert (keys (mp_map_init n : mp_map K V) = replicate n NULL) as E.
  { unfold keys, mp_map_init. cbn [table]. by rewrite fmap_replicate. }
  split; try done; rewrite E; [apply tbl_ok_empty|by rewrite filled_empty|].
  intros _ p k Ep. by apply lookup_replicate in Ep as [? _].
Qed.

(** ** Contents *)

(** The table holds key [k] with value [v]. *)
Definition has m (k : K) (v : option V) : Prop :=
  exists p, table m !! p = Some {| key := KEY k; value := v |}.

Lemma has_key m k v : has m k v -> exists p, keys m !! p = Some (KEY k).
Proof. intros (p & E). exists p. apply keys_lookup. eauto. Qed.

Lemma has_unique m a b v w : map_ok m -> has m a v -> has m b w -> obj_equal a b = true -> a = b /\ v = w.
Proof.
  intros Hm (p & Ea) (q & Eb) E.
  assert (p = q) as <-.
  { eapply (tbl_distinct _ (ok_tbl m Hm)); [| |exact E]; apply keys_lookup; eauto. }
  rewrite Ea in Eb. by simplify_eq.
Qed.

Lemma table_set_value m p v q e :
  table (set_value m p v) !! q = Some e ->
  (p = q /\ exists e', table m !! q = Some e' /\ e = {| key := key e'; value := v |}) \/
  (p <> q /\ table m !! q = Some e).
Proof.
  unfold set_value, with_table. cbn [table]. rewrite list_lookup_alter.
  destruct (decide (p = q)) as [<-|Hne]; [left|by right]. split; [done|].
  destruct (table m !! p) as [e'|]; [|done]. exists e'. by simplify_option_eq.
Qed.

(** A new key given a value in a free slot. *)
Lemma has_add m q index v k w :
  free_slot (keys m) index q ->
  has (set_value (add_at m q index) q v) k w <-> (k = index /\ w = v) \/ has m k w.
Proof.
  intros (j & _ & _ & (s & Es & Hs) & _). apply keys_lookup in Es as (v0 & Es).
  pose proof (lookup_lt_Some _ _ _ Es) as Hlt. split.
  - intros (p & [(<- & e' & Ee' & Ee)|(Hne & E)]%table_set_value).
    + cbn [table add_at] in Ee'. rewrite list_lookup_insert_eq in Ee' by done. left. by simplify_eq.
    + cbn [table add_at] in E. rewrite list_lookup_insert_ne in E by done. right. by exists p.
  - intros [[-> ->]|(p & E)].
    + exists q. unfold set_value, with_table, add_at. cbn [table].
      rewrite list_lookup_alter_eq, list_lookup_insert_eq by done. done.
    + exists p. assert (q <> p) as Hne by (intros ->; rewrite Es in E; by simplify_eq).
      unfold set_value, with_table, add_at. cbn [table].
      by rewrite list_lookup_alter_ne, list_lookup_insert_ne by done.
Qed.

Lemma has_set m p k0 v0 v k w :
  map_ok m -> table m !! p = Some {| key := KEY k0; value := v0 |} ->
  has (set_value m p v) k w <-> (k = k0 /\ w = v) \/ (k <> k0 /\ has m k w).
Proof.
  intros Hm Ep. split.
  - intros (q & [(<- & e' & Ee' & Ee)|(Hne & E)]%table_set_value).
    + left. rewrite Ep in Ee'. by simplify_eq.
    + right. split; [|by exists q]. intros ->. apply Hne.
      eapply (tbl_distinct _ (ok_tbl m Hm)); [| |apply (obj_equal_refl k0)]; apply keys_lookup; eauto.
  - intros [[-> ->]|(Hne & q & E)].
    + exists p. unfold set_value, with_table. cbn [table]. by rewrite list_lookup_alter_eq, Ep.
    + exists q. unfold set_value, with_table. cbn [table].
      rewrite list_lookup_alter_ne; [done|]. intros ->. rewrite Ep in E. by simplify_eq.
Qed.

Lemma has_free m p k0 v0 e k w :
  map_ok m -> table m !! p = Some {| key := KEY k0; value := v0 |} -> is_filled (key e) = false ->
  has (with_table m (used m - 1) (<[p := e]> (table m))) k w <-> k <> k0 /\ has m k w.
Proof.
  intros Hm Ep Hf. unfold has, with_table. cbn [table]. split.
  - intros (q & E). destruct (decide (p = q)) as [<-|Hne].
    + rewrite list_lookup_insert_eq in E by (by eapply lookup_lt_Some). injection E as ->. done.
    + rewrite list_lookup_insert_ne in E by done. split; [|by exists q]. intros ->. apply Hne.
      eapply (tbl_distinct _ (ok_tbl m Hm)); [| |apply (obj_equal_refl k0)]; apply keys_lookup; eauto.
  - intros (Hne & q & E). exists q. rewrite list_lookup_insert_ne; [done|]. intros ->. rewrite Ep in E. by simplify_eq.
Qed.

(** ** The lookup *)

Lemma filled_lt_alloc m : (filled (keys m) < length (keys m))%nat -> (0 < length (keys m))%nat.
Proof. lia. Qed.

Section lookup.
Context (rehash : mp_map K V -> option (mp_map K V)).

(** The four ways a search in a hash table ends. *)
Lemma hash_search_spec turns m index kind same :
  map_ok m -> (0 < length (keys m))%nat ->
  (forall p k, keys m !! p = Some (KEY k) -> same k = obj_equal k index) ->
  let r := hash_search (S turns) rehash m index kind same in
  (exists p k, keys m !! p = Some (KEY k) /\ obj_equal k index = true /\
    r = Some (if removes kind then remove_at m p else m, Some p)) \/
  (absent (keys m) index /\
    (adds kind = false /\ r = Some (m, None) \/
     adds kind = true /\ (exists q, free_slot (keys m) index q /\ r = Some (add_at m q index, Some q)) \/
     adds kind = true /\ filled (keys m) = length (keys m) /\
       r = (m ← rehash m; hash_search turns rehash m index kind same))).
Proof.
  intros Hm Hn Hs. cbn zeta. cbn [hash_search].
  destruct (search_total (keys m) index same (ok_tbl m Hm) Hn Hs) as (e & He & Hout).
  unfold home in He. unfold alloc. rewrite <- length_keys, He. cbn [mbind option_bind].
  destruct e as [p|p avail|[q|]].
  - left. destruct Hout as (k & Ek & E). exists p, k. split; [done|]. split; [done|]. by destruct (removes kind).
  - right. destruct Hout as [Hab Hf]. split; [done|]. destruct (adds kind); [right; left|left]; eauto.
  - right. destruct Hout as [Hab Hf]. split; [done|]. destruct (adds kind); [right; left|left]; eauto.
  - right. destruct Hout as [Hab Hf]. split; [done|]. destruct (adds kind); [right; right|left]; eauto.
Qed.

Lemma absent_has m index : absent (keys m) index <-> forall k v, has m k v -> obj_equal k index = false.
Proof.
  split.
  - intros Hab k v (p & E)%has_key. by eapply Hab.
  - intros Hab p a (v & E)%keys_lookup. eapply Hab. by exists p.
Qed.

(** Keys that are neither interned nor strings are not looked for among
    interned strings. *)
Lemma quick_absent m index :
  map_ok m -> all_keys_are_qstrs m && negb (is_qstr index) && negb (is_exact_str index) = true ->
  absent (keys m) index.
Proof.
  intros Hm [[Hq Hi%negb_true_iff]%andb_prop Hx%negb_true_iff]%andb_prop p a Ea.
  apply obj_equal_str; try done. by eapply ok_qstrs.
Qed.

(** The map part of the kinds of lookup. *)
Definition map_kind (kind : mp_map_lookup_kind) : Prop :=
  kind <> MP_MAP_LOOKUP_ADD_IF_NOT_FOUND_OR_REMOVE_IF_FOUND.

Lemma adds_decide kind : map_kind kind ->
  bool_decide (kind = MP_MAP_LOOKUP_ADD_IF_NOT_FOUND) = adds kind.
Proof. unfold map_kind. by destruct kind. Qed.

(** A lookup, as a search. *)
Lemma lookup_search m index kind :
  map_ok m -> map_kind kind ->
  mp_map_lookup_with rehash m index kind =
    let same := same_key (all_keys_are_qstrs m && (is_qstr index || negb (is_exact_str index))) index in
    if all_keys_are_qstrs m && negb (is_qstr index) && negb (is_exact_str index) && negb (adds kind)
    then Some (m, None)
    else if (length (keys m) =? 0)%nat then
      if adds kind then m ← rehash m; hash_search 2 rehash m index kind same else Some (m, None)
    else hash_search 2 rehash m index kind same.
Proof.
  intros Hm Hk. unfold mp_map_lookup_with. rewrite (ok_free m Hm), (ok_hash m Hm), (adds_decide kind Hk).
  cbn [andb]. cbn zeta. unfold alloc. rewrite <- length_keys.
  destruct (Nat.eqb_spec (length (keys m)) 0) as [->|Hn]; [done|].
  by rewrite (proj2 (Z.eqb_neq (Z.of_nat (length (keys m))) 0)) by lia.
Qed.

Lemma lookup_present m index kind p k v :
  map_ok m -> map_kind kind -> table m !! p = Some {| key := KEY k; value := v |} -> obj_equal k index = true ->
  mp_map_lookup_with rehash m index kind = Some (if removes kind then remove_at m p else m, Some p).
Proof.
  intros Hm Hk Ep E. rewrite lookup_search by done. cbn zeta.
  assert (keys m !! p = Some (KEY k)) as Ek by (apply keys_lookup; eauto).
  assert (0 < length (keys m))%nat as Hn by (apply lookup_lt_Some in Ek; lia).
  destruct (_ && _ && _ && _) eqn:Eq.
  { apply andb_prop in Eq as [Eq _]. by rewrite (quick_absent m index Hm Eq _ _ Ek) in E. }
  rewrite (proj2 (Nat.eqb_neq _ _)) by lia.
  destruct (hash_search_spec 1 m index kind _ Hm Hn (search_same m index Hm)) as [(q & a & Ea & E' & ->)|(Hab & _)].
  - assert (p = q) as ->; [|done]. eapply (tbl_distinct _ (ok_tbl m Hm)); [done..|].
    eapply obj_equal_trans; [done|]. by apply obj_equal_sym.
  - by rewrite (Hab _ _ Ek) in E.
Qed.

Lemma lookup_absent m index kind :
  map_ok m -> map_kind kind -> absent (keys m) index -> adds kind = false ->
  mp_map_lookup_with rehash m index kind = Some (m, None).
Proof.
  intros Hm Hk Hab Ha. rewrite lookup_search, Ha by done. cbn zeta.
  destruct (_ && _ && _ && _); [done|]. destruct (Nat.eqb_spec (length (keys m)) 0); [done|].
  destruct (hash_search_spec 1 m index kind _ Hm ltac:(lia) (search_same m index Hm))
    as [(q & a & Ea & E' & _)|(_ & [[_ ->]|[[? _]|[? _]]])]; [by rewrite (Hab _ _ Ea) in E'|done|congruence..].
Qed.

Lemma lookup_add_room m index :
  map_ok m -> absent (keys m) index -> (filled (keys m) < length (keys m))%nat ->
  exists q, free_slot (keys m) index q /\
    mp_map_lookup_with rehash m index MP_MAP_LOOKUP_ADD_IF_NOT_FOUND = Some (add_at m q index, Some q).
Proof.
  intros Hm Hab Hf. rewrite lookup_search by done. cbn zeta. rewrite andb_false_r.
  rewrite (proj2 (Nat.eqb_neq _ _)) by lia.
  destruct (hash_search_spec 1 m index MP_MAP_LOOKUP_ADD_IF_NOT_FOUND _ Hm ltac:(lia) (search_same m index Hm))
    as [(q & a & Ea & E' & _)|(_ & [[? _]|[[_ (q & Hq & ->)]|(_ & Hfull & _)]])].
  - by rewrite (Hab _ _ Ea) in E'.
  - done.
  - eauto.
  - lia.
Qed.

(** A full table is rehashed. *)
Lemma lookup_add_full m m' index :
  map_ok m -> absent (keys m) index -> filled (keys m) = length (keys m) ->
  rehash m = Some m' -> map_ok m' -> (forall k v, has m' k v <-> has m k v) ->
  (filled (keys m') < length (keys m'))%nat ->
  exists q, free_slot (keys m') index q /\
    mp_map_lookup_with rehash m index MP_MAP_LOOKUP_ADD_IF_NOT_FOUND = Some (add_at m' q index, Some q).
Proof.
  intros Hm Hab Hf Hr Hm' Hsame Hroom. rewrite lookup_search by done. cbn zeta. rewrite andb_false_r.
  set (same := same_key _ index).
  assert (forall p k, keys m' !! p = Some (KEY k) -> same k = obj_equal k index) as Hs'.
  { intros p k (v & E)%keys_lookup. assert (has m k v) as (q & Eq)%has_key by (apply Hsame; by exists p).
    by apply (search_same m index Hm q). }
  assert (absent (keys m') index) as Hab'.
  { apply absent_has. intros k v Hh%Hsame. exact (proj1 (absent_has m index) Hab k v Hh). }
  assert (forall turns, exists q, free_slot (keys m') index q /\
    hash_search (S turns) rehash m' index MP_MAP_LOOKUP_ADD_IF_NOT_FOUND same = Some (add_at m' q index, Some q)) as Hsearch.
  { intros turns.
    destruct (hash_search_spec turns m' index MP_MAP_LOOKUP_ADD_IF_NOT_FOUND same Hm' ltac:(lia) Hs')
      as [(q & a & Ea & E' & _)|(_ & [[? _]|[[_ (q & Hq & ->)]|(_ & Hfull & _)]])].
    - by rewrite (Hab' _ _ Ea) in E'.
    - done.
    - eauto.
    - lia. }
  destruct (Nat.eqb_spec (length (keys m)) 0) as [E0|Hn].
  { cbn [adds]. rewrite Hr. cbn [mbind option_bind]. apply (Hsearch 1%nat). }
  destruct (hash_search_spec 1 m index MP_MAP_LOOKUP_ADD_IF_NOT_FOUND same Hm ltac:(lia) (search_same m index Hm))
    as [(q & a & Ea & E' & _)|(_ & [[? _]|[[_ (q & Hq & _)]|(_ & _ & ->)]])].
  - by rewrite (Hab _ _ Ea) in E'.
  - done.
  - destruct Hq as (j & _ & _ & (s & Es & Hs) & _).
    pose proof (filled_insert (keys m) q s (KEY index) Es) as E. rewrite Hs in E. cbn in E.
    pose proof (filled_le (<[q := KEY index]> (keys m))) as L. rewrite length_insert in L. lia.
  - rewrite Hr. cbn [mbind option_bind]. apply (Hsearch 0%nat).
Qed.
End lookup.

(** ** Rehashing *)

Lemma filled_add m q index : free_slot (keys m) index q ->
  filled (keys (add_at m q index)) = S (filled (keys m)).
Proof.
  intros (j & _ & _ & (s & Es & Hs) & _). rewrite keys_add.
  pose proof (filled_insert (keys m) q s (KEY index) Es) as E. rewrite Hs in E. cbn in E. lia.
Qed.

Lemma length_keys_add m q index v : length (keys (set_value (add_at m q index) q v)) = length (keys m).
Proof. by rewrite keys_set_value, keys_add, length_insert. Qed.

(** Keys of the old table, pairwise different and new to the table. *)
Lemma rehash_loop_spec (old : list (mp_map_elem K V)) : forall m,
  map_ok m -> (filled (keys m) + filled (key <$> old) < length (keys m))%nat ->
  (forall p q e1 e2 a b, old !! p = Some e1 -> old !! q = Some e2 -> key e1 = KEY a -> key e2 = KEY b ->
    obj_equal a b = true -> p = q) ->
  (forall p e a, old !! p = Some e -> key e = KEY a -> absent (keys m) a) ->
  exists m', rehash_loop (mp_map_lookup_with (fun _ => None)) old m = Some m' /\ map_ok m' /\
    (forall k v, has m' k v <-> has m k v \/ exists p, old !! p = Some {| key := KEY k; value := v |}) /\
    filled (keys m') = (filled (keys m) + filled (key <$> old))%nat /\ length (keys m') = length (keys m).
Proof.
  induction old as [|e old IH]; intros m Hm Hroom Hd Hab.
  { exists m. split; [done|]. split; [done|]. split; [|split; [cbn; lia|done]].
    intros k v. split; [by left|intros [|(p & E)]; done]. }
  assert (forall p q e1 e2 a b, old !! p = Some e1 -> old !! q = Some e2 -> key e1 = KEY a -> key e2 = KEY b ->
    obj_equal a b = true -> p = q) as Hd'.
  { intros p q e1 e2 a b E1 E2 K1 K2 E. assert (S p = S q) as [=]; [|done]. by eapply (Hd (S p) (S q)). }
  rewrite fmap_cons in *. cbn [filled rehash_loop] in *. destruct e as [[| |k0] v0]; cbn [key value is_filled] in *.
  1-2: destruct (IH m Hm ltac:(lia) Hd' (fun p => Hab (S p))) as (m' & -> & Hm' & Hh & Hf & Hl);
    exists m'; split_and!; try done; intros k v; rewrite Hh; (split; [intros [|(p & E)]; [by left|right; by exists (S p)]|
      intros [|([|p] & E)]; [by left|done|right; by exists p]]).
  assert (absent (keys m) k0) as Hab0 by (by eapply (Hab 0%nat)).
  destruct (lookup_add_room (fun _ => None) m k0 Hm Hab0 ltac:(lia)) as (q & Hq & ->).
  cbn [mbind option_bind].
  pose proof (map_ok_set_value _ q v0 (map_ok_add m k0 q Hm Hab0 Hq)) as Hm1.
  destruct (IH _ Hm1) as (m' & -> & Hm' & Hh & Hf & Hl).
  { rewrite length_keys_add, keys_set_value, filled_add by done. lia. }
  { done. }
  { intros p e a Ep Ea. apply absent_has. intros k v [[-> ->]|Hk]%has_add; [| |done].
    - destruct (obj_equal k0 a) eqn:E; [|done]. assert (0%nat = S p); [|done]. by eapply Hd.
    - exact (proj1 (absent_has m a) (Hab (S p) e a Ep Ea) k v Hk). }
  exists m'. split; [done|]. split; [done|]. split; [|rewrite Hf, Hl, length_keys_add, keys_set_value, filled_add by done; lia].
  intros k v. rewrite Hh, has_add by done. split.
  - intros [[[-> ->]|?]|(p & E)]; [right; by exists 0%nat|by left|right; by exists (S p)].
  - intros [?|([|p] & E)]; [by left; right|cbn in E; simplify_eq; by left; left|right; by exists p].
Qed.

(** Rehashing keeps the contents and leaves room. *)
Lemma mp_map_rehash_spec m :
  map_ok m -> exists m', mp_map_rehash m = Some m' /\ map_ok m' /\
    (forall k v, has m' k v <-> has m k v) /\ filled (keys m') = filled (keys m) /\
    (length (keys m) < length (keys m'))%nat.
Proof.
  intros Hm. unfold mp_map_rehash, mp_map_rehash_with. rewrite (ok_free m Hm), (ok_hash m Hm).
  set (n := Z.to_nat (get_hash_alloc_greater_or_equal_to (alloc m + 1))).
  assert (length (table m) < n)%nat as Hn.
  { pose proof (hash_alloc_ge (alloc m + 1) ltac:(unfold alloc; lia)). unfold n, alloc in *. lia. }
  pose proof (map_ok_init n) as Hi. unfold mp_map_init in Hi. set (m0 := {| used := 0 |}) in *.
  assert (keys m0 = replicate n NULL) as Ek0 by (unfold keys; cbn [table m0]; by rewrite fmap_replicate).
  assert (forall k v, ~ has m0 k v) as Hnone.
  { intros k v (p & E). cbn [table m0] in E. by apply lookup_replicate in E as [? _]. }
  destruct (rehash_loop_spec (table m) m0 Hi) as (m' & E & Hm' & Hh & Hf & Hl).
  - rewrite Ek0, filled_empty, length_replicate. pose proof (filled_le (key <$> table m)) as L.
    rewrite length_fmap in L. lia.
  - intros p q [? v1] [? v2] a b E1 E2 K1 K2 E. cbn in K1, K2. subst.
    eapply (tbl_distinct _ (ok_tbl m Hm)); [| |exact E]; apply keys_lookup; eauto.
  - intros p e a _ _ q b Eb. rewrite Ek0 in Eb. by apply lookup_replicate in Eb as [? _].
  - exists m'. split; [done|]. split; [done|]. rewrite Ek0, filled_empty in Hf. rewrite Ek0, length_replicate in Hl.
    split; [|split; [done|by rewrite length_keys, Hl]].
    intros k v. rewrite Hh. split; [intros [F|?]; [by destruct (Hnone k v)|done]|by right].
Qed.

End map.
