(* ===== verification/HashProps.v ===== *)
(** Dictionaries: the operations of [py/objdict.c] against an association up to
    [obj_equal]. *)

From Stdlib Require Import ZArith Lia.
From stdpp Require Import base option list numbers.
From S2P Require Import Prelude HashMap HashTable HashSpec.

Section map.
Context {K V : Type} `{KeyLaws K}.

Implicit Types m : mp_map K V.

(** * The contents of a table, as a function of the keys *)

Definition holds_key (k : K) (e : mp_map_elem K V) : bool :=
  match key e with KEY a => obj_equal a k | _ => false end.

Definition assoc_list (t : list (mp_map_elem K V)) (k : K) : option (option V) :=
  match list_find (fun e => holds_key k e) t with
  | Some (_, e) => Some (value e)
  | None => None
  end.

Definition assoc m (k : K) : option (option V) := assoc_list (table m) k.

Lemma assoc_has m k v : map_ok m -> assoc m k = Some v <-> exists a, has m a v /\ obj_equal a k = true.
Proof.
  intros Hm. unfold assoc, assoc_list. destruct (list_find _ _) as [[i [s w]]|] eqn:E.
  - apply list_find_Some in E as (E & Ha & _). apply Is_true_true in Ha. cbn in Ha. destruct s as [| |a]; try done.
    cbn [value]. split.
    + intros [= ->]. exists a. split; [by exists i|done].
    + intros (b & Hb & Eb). f_equal. assert (has m a w) as Hw by (by exists i).
      destruct (has_unique m a b w v Hm Hw Hb) as [_ E2]; [|exact E2].
      apply (obj_equal_trans a k b Ha). by apply obj_equal_sym.
  - split; [done|]. intros (a & (p & Ep) & Ea). apply list_find_None in E.
    exfalso. rewrite Forall_lookup in E. apply (E p _ Ep). apply Is_true_true. exact Ea.
Qed.

Lemma assoc_none m k : map_ok m -> assoc m k = None <-> absent (keys m) k.
Proof.
  intros Hm. rewrite absent_has. split.
  - intros E a v Ha. destruct (obj_equal a k) eqn:Ea; [|done]. exfalso.
    assert (assoc m k = Some v) as E' by (apply assoc_has; eauto). by rewrite E in E'.
  - intros Hab. destruct (assoc m k) as [v|] eqn:E; [|done]. apply assoc_has in E as (a & Ha & Ea); [|done].
    by rewrite (Hab a v Ha) in Ea.
Qed.

Lemma assoc_ext m m' k : map_ok m -> map_ok m' ->
  (forall a v, obj_equal a k = true -> has m a v <-> has m' a v) -> assoc m k = assoc m' k.
Proof.
  intros Hm Hm' He. apply option_eq. intros v. rewrite !assoc_has by done.
  split; intros (a & Ha & Ea); exists a; (split; [|done]); by apply He.
Qed.

(** ** Equal keys *)

Lemma obj_equal_l a b c : obj_equal a b = true -> obj_equal a c = obj_equal b c.
Proof.
  intros E. apply eq_true_iff_eq. split; intros; eapply obj_equal_trans; try done. by apply obj_equal_sym.
Qed.

Lemma obj_equal_comm a b : obj_equal a b = obj_equal b a.
Proof. apply eq_true_iff_eq. split; apply obj_equal_sym. Qed.

(** The contents do not tell equal keys apart. *)
#[export] Instance assoc_proper m : Proper ((fun a b => obj_equal a b = true) ==> eq) (assoc m).
Proof.
  intros a b E. unfold assoc, assoc_list.
  assert (list_find (fun e => holds_key a e) (table m) = list_find (fun e => holds_key b e) (table m)) as ->; [|done].
  apply list_find_ext. intros e. unfold holds_key.
  destruct (key e) as [| |c]; try done. by rewrite (obj_equal_comm c a), (obj_equal_comm c b), (obj_equal_l a b).
Qed.

(** ** One operation on the contents *)

Lemma has_in m p k v : table m !! p = Some {| key := KEY k; value := v |} -> has m k v.
Proof. by exists p. Qed.

Lemma assoc_found m k : map_ok m -> forall v, assoc m k = Some v ->
  exists p a, table m !! p = Some {| key := KEY a; value := v |} /\ obj_equal a k = true.
Proof. intros Hm v (a & (p & E) & Ea)%assoc_has; eauto. Qed.

(** Different keys, seen through a key equal to one of them. *)
Lemma ne_of_equal a b k : obj_equal a k = true -> obj_equal b k = false -> a <> b.
Proof. intros E E' ->. congruence. Qed.

(** Giving a value to a key of the table. *)
Lemma assoc_set m p a v0 v k :
  map_ok m -> table m !! p = Some {| key := KEY a; value := v0 |} ->
  assoc (set_value m p v) k = if obj_equal a k then Some v else assoc m k.
Proof.
  intros Hm Ep. pose proof (map_ok_set_value m p v Hm) as Hm'. destruct (obj_equal a k) eqn:Ea.
  - apply assoc_has; [done|]. exists a. split; [|done]. eapply has_set; eauto.
  - apply assoc_ext; [done..|]. intros b w Eb. rewrite has_set by done.
    assert (b <> a) by (by eapply ne_of_equal). tauto.
Qed.

(** Adding a key and giving it a value. *)
Lemma assoc_add m q index v k :
  map_ok m -> absent (keys m) index -> free_slot (keys m) index q ->
  assoc (set_value (add_at m q index) q v) k = if obj_equal index k then Some v else assoc m k.
Proof.
  intros Hm Hab Hf. pose proof (map_ok_set_value _ q v (map_ok_add m index q Hm Hab Hf)) as Hm'.
  destruct (obj_equal index k) eqn:Ea.
  - apply assoc_has; [done|]. exists index. split; [|done]. apply has_add; auto.
  - apply assoc_ext; [done..|]. intros b w Eb. rewrite has_add by done.
    assert (b <> index) by (by eapply ne_of_equal). tauto.
Qed.

Lemma assoc_free m p a v0 e k :
  map_ok m -> table m !! p = Some {| key := KEY a; value := v0 |} -> is_filled (key e) = false ->
  (key e = NULL -> deleted (keys m) p = NULL) ->
  let m' := with_table m (used m - 1) (<[p := e]> (table m)) in
  map_ok m' /\ assoc m' k = if obj_equal a k then None else assoc m k.
Proof.
  intros Hm Ep Hf Hd. cbn zeta. assert (keys m !! p = Some (KEY a)) as Ek by (apply keys_lookup; eauto).
  pose proof (map_ok_free m p e a Hm Ek Hf Hd) as Hm'. split; [done|]. destruct (obj_equal a k) eqn:Ea.
  - apply assoc_none; [done|]. apply absent_has. intros b w Hb. destruct (obj_equal b k) eqn:Eb; [|done].
    eapply has_free in Hb as [Hne Hb]; [|done..]. destruct Hne.
    destruct (has_unique m b a w v0 Hm Hb (has_in m p a v0 Ep)) as [E2 _]; [|exact E2].
    apply (obj_equal_trans b k a Eb). by apply obj_equal_sym.
  - apply assoc_ext; [done..|]. intros b w Eb. erewrite has_free by done.
    assert (b <> a) by (by eapply ne_of_equal). tauto.
Qed.

(** ** The lookup that adds *)

(** After it the table holds the key, under itself or an equal key, and giving
    its slot a value makes that the value of the key. *)
Definition added m index m' (p : nat) : Prop :=
  map_ok m' /\
  (exists a v, table m' !! p = Some {| key := KEY a; value := v |} /\ obj_equal a index = true /\
     v = default None (assoc m index)) /\
  used m' = used m + (if assoc m index is Some _ then 0 else 1) /\
  forall v k, assoc (set_value m' p v) k = if obj_equal index k then Some v else assoc m k.

Lemma lookup_add m index : map_ok m ->
  exists m' p, mp_map_lookup m index MP_MAP_LOOKUP_ADD_IF_NOT_FOUND = Some (m', Some p) /\ added m index m' p.
Proof.
  intros Hm. unfold mp_map_lookup. destruct (assoc m index) as [v|] eqn:E.
  - destruct (assoc_found m index Hm v E) as (p & a & Ep & Ea). exists m, p.
    erewrite lookup_present by done. split; [done|]. split; [done|]. split; [|split].
    + exists a, v. by rewrite E.
    + rewrite E. lia.
    + intros w k. erewrite assoc_set by done. by rewrite (obj_equal_l a index k Ea).
  - pose proof (proj1 (assoc_none m index Hm) E) as Hab.
    assert (forall m1 q, map_ok m1 -> (forall k v, has m1 k v <-> has m k v) -> used m1 = used m ->
      free_slot (keys m1) index q -> added m index (add_at m1 q index) q) as Hadd.
    { intros m1 q Hm1 Hh Hu Hf. assert (absent (keys m1) index) as Hab1.
      { apply absent_has. intros k v Hk%Hh. exact (proj1 (absent_has m index) Hab k v Hk). }
      split; [by apply map_ok_add|]. split; [|split].
      - exists index, None. rewrite E. split; [|by rewrite obj_equal_refl].
        destruct Hf as (j & _ & _ & (s & Es & _) & _). apply lookup_lt_Some in Es. rewrite length_keys in Es.
        cbn [table add_at]. by rewrite list_lookup_insert_eq.
      - rewrite E. cbn [used add_at]. lia.
      - intros v k. rewrite assoc_add by done. destruct (obj_equal index k); [done|].
        apply assoc_ext; [done..|]. auto. }
    destruct (Nat.lt_ge_cases (filled (keys m)) (length (keys m))) as [L|L].
    + destruct (lookup_add_room mp_map_rehash m index Hm Hab L) as (q & Hf & ->). eauto 10.
    + destruct (mp_map_rehash_spec m Hm) as (m1 & Er & Hm1 & Hh & Hfl & Hl). pose proof (filled_le (keys m)).
      destruct (lookup_add_full mp_map_rehash m m1 index Hm Hab ltac:(lia) Er Hm1 Hh ltac:(lia)) as (q & Hf & ->).
      exists (add_at m1 q index), q. split; [done|]. apply Hadd; try done.
      rewrite (ok_used m1 Hm1), (ok_used m Hm). lia.
Qed.

(** ** Dictionaries *)

(** A dictionary that may be modified: a hash table without null values. *)
Record dict_ok m : Prop := {
  dict_map : map_ok m;
  dict_values : forall k v, assoc m k = Some v -> v <> None;
}.

(** The value of [k]. *)
Definition item m (k : K) : option V := v ← assoc m k; v.

Lemma assoc_item m k : dict_ok m -> assoc m k = Some <$> item m k.
Proof.
  intros Hd. unfold item. destruct (assoc m k) as [[v|]|] eqn:E; try done. by destruct (dict_values m Hd k None E).
Qed.

(** An operation that gives each key a value or none. *)
Lemma dict_ok_intro m (f : K -> option V) :
  map_ok m -> (forall k, assoc m k = Some <$> f k) -> dict_ok m /\ forall k, item m k = f k.
Proof.
  intros Hm Hf. split.
  - split; [done|]. intros k v E. rewrite Hf in E. destruct (f k); cbn in E; by simplify_eq.
  - intros k. unfold item. rewrite Hf. by destruct (f k).
Qed.

Definition present (x : option V) : Z := if x is Some _ then 1 else 0.

(** What storing [v] under [k] does. *)
Definition stored m (k : K) (v : V) m' : Prop :=
  dict_ok m' /\ used m' = used m + (1 - present (item m k)) /\
  forall k', item m' k' = if obj_equal k k' then Some v else item m k'.

Lemma added_stored m k m' p v : dict_ok m -> added m k m' p -> stored m k v (set_value m' p (Some v)).
Proof.
  intros Hd (Hm' & _ & Hu & Ha).
  destruct (dict_ok_intro (set_value m' p (Some v)) (fun k' => if obj_equal k k' then Some v else item m k'))
    as [Hd' Hi].
  - by apply map_ok_set_value.
  - intros k'. rewrite Ha. destruct (obj_equal k k'); [done|]. by apply assoc_item.
  - split; [done|]. split; [|done]. unfold set_value, with_table. cbn [used]. rewrite Hu, (assoc_item m k Hd).
    destruct (item m k); cbn; lia.
Qed.

Lemma store_ok m k v : dict_ok m -> exists m', mp_obj_dict_store m k v = Some (inr m') /\ stored m k v m'.
Proof.
  intros Hd. unfold mp_obj_dict_store. rewrite (ok_free m (dict_map m Hd)).
  destruct (lookup_add m k (dict_map m Hd)) as (m' & p & -> & Ha). cbn [mbind option_bind].
  eexists. split; [done|]. by apply added_stored.
Qed.

Lemma dict_ok_init n : dict_ok (mp_map_init n : mp_map K V) /\ forall k, item (mp_map_init n) k = None.
Proof.
  apply dict_ok_intro; [apply map_ok_init|]. intros k. cbn. apply assoc_none; [apply map_ok_init|].
  intros p a E. unfold keys, mp_map_init in E. cbn [table] in E. rewrite list_lookup_fmap in E.
  destruct (replicate n empty_elem !! p) as [e|] eqn:Ee; [|done]. apply lookup_replicate in Ee as [-> _]. done.
Qed.

(** The slot of a key that is there. *)
Lemma item_found m k v : dict_ok m -> item m k = Some v ->
  exists p a, table m !! p = Some {| key := KEY a; value := Some v |} /\ obj_equal a k = true.
Proof.
  intros Hd E. apply (assoc_found m k (dict_map m Hd)). by rewrite assoc_item, E.
Qed.

Lemma item_absent m k : dict_ok m -> item m k = None -> absent (keys m) k.
Proof. intros Hd E. apply (assoc_none m k (dict_map m Hd)). by rewrite assoc_item, E. Qed.

(** A lookup that neither adds nor removes. *)
Lemma lookup_get m k : dict_ok m ->
  exists s, mp_map_lookup m k MP_MAP_LOOKUP = Some (m, s) /\
    match item m k with
    | Some v => exists p a, s = Some p /\ table m !! p = Some {| key := KEY a; value := Some v |}
    | None => s = None
    end.
Proof.
  intros Hd. unfold mp_map_lookup. destruct (item m k) as [v|] eqn:E.
  - destruct (item_found m k v Hd E) as (p & a & Ep & Ea). exists (Some p).
    erewrite lookup_present by (try done; apply Hd). split; [done|]. by exists p, a.
  - exists None. split; [|done]. apply lookup_absent; try done; [apply Hd|by apply item_absent].
Qed.

(** What deleting [k] does. *)
Definition erased m (k : K) m' : Prop :=
  dict_ok m' /\ used m' = used m - 1 /\
  forall k', item m' k' = if obj_equal k k' then None else item m k'.

Lemma erase_slot m p a v e :
  dict_ok m -> table m !! p = Some {| key := KEY a; value := v |} -> is_filled (key e) = false ->
  (key e = NULL -> deleted (keys m) p = NULL) ->
  erased m a (with_table m (used m - 1) (<[p := e]> (table m))).
Proof.
  intros Hd Ep Hf Hn. pose proof (dict_map m Hd) as Hm.
  destruct (dict_ok_intro (with_table m (used m - 1) (<[p := e]> (table m)))
    (fun k' => if obj_equal a k' then None else item m k')) as [Hd' Hi].
  - by eapply assoc_free.
  - intros k'. destruct (assoc_free m p a v e k' Hm Ep Hf Hn) as [_ ->].
    destruct (obj_equal a k'); [done|]. by apply assoc_item.
  - done.
Qed.

Lemma erased_equal m a k m' : obj_equal a k = true -> erased m a m' -> erased m k m'.
Proof. intros E (Hd & Hu & Hi). split; [done|]. split; [done|]. intros k'. by rewrite Hi, (obj_equal_l a k). Qed.

(** A removing lookup, and the value erased by the caller. *)
Lemma lookup_remove m k v : dict_ok m -> item m k = Some v ->
  exists m' p, mp_map_lookup m k MP_MAP_LOOKUP_REMOVE_IF_FOUND = Some (m', Some p) /\
    (exists s, table m' !! p = Some {| key := s; value := Some v |}) /\ erased m k (set_value m' p None).
Proof.
  intros Hd E. destruct (item_found m k v Hd E) as (p & a & Ep & Ea). unfold mp_map_lookup.
  erewrite lookup_present by (try done; apply Hd). cbn [removes]. rewrite (remove_insert m p _ Ep).
  set (e := {| key := deleted (keys m) p; value := Some v |}).
  assert (table (with_table m (used m - 1) (<[p := e]> (table m))) !! p = Some e) as Ee.
  { unfold with_table. cbn [table]. apply list_lookup_insert_eq. by eapply lookup_lt_Some. }
  eexists _, p. split; [done|]. split; [by exists (deleted (keys m) p)|].
  apply (erased_equal m a k _ Ea). unfold set_value. rewrite (alter_insert _ p _ e Ee).
  unfold with_table at 1 2. cbn [table used]. unfold with_table at 2. cbn [table]. rewrite list_insert_insert_eq.
  apply (erase_slot m p a (Some v) {| key := deleted (keys m) p; value := None |} Hd Ep); [apply deleted_free|done].
Qed.

(** ** The helper of [get], [pop] and [setdefault] *)

Section helper.
Context (mp_const_none : V).

Lemma dict_get_ok m k dflt : dict_ok m ->
  dict_get mp_const_none m k dflt =
    Some (inr (m, match item m k with Some v => v | None => default mp_const_none dflt end)).
Proof.
  intros Hd. unfold dict_get, dict_get_helper. cbn [negb bool_decide andb].
  destruct (lookup_get m k Hd) as (s & -> & Hs). cbn [mbind option_bind]. destruct (item m k) as [v|].
  - destruct Hs as (p & a & -> & ->). done.
  - subst s. by destruct dflt.
Qed.

Lemma dict_pop_ok m k dflt : dict_ok m ->
  match item m k with
  | Some v => exists m', dict_pop mp_const_none m k dflt = Some (inr (m', v)) /\ erased m k m'
  | None => dict_pop mp_const_none m k dflt = Some (match dflt with Some v => inr (m, v) | None => inl KeyError end)
  end.
Proof.
  intros Hd. unfold dict_pop, dict_get_helper. rewrite (ok_free m (dict_map m Hd)), andb_false_r.
  destruct (item m k) as [v|] eqn:E.
  - destruct (lookup_remove m k v Hd E) as (m' & p & -> & (s & Es) & He). cbn [mbind option_bind].
    rewrite Es. cbn [mbind option_bind value]. by eexists.
  - unfold mp_map_lookup. rewrite lookup_absent; [|apply Hd|done|by apply item_absent|done].
    by destruct dflt.
Qed.

Lemma dict_setdefault_ok m k dflt : dict_ok m ->
  exists m', dict_setdefault mp_const_none m k dflt =
      Some (inr (m', match item m k with Some v => v | None => default mp_const_none dflt end)) /\
    match item m k with
    | Some _ => m' = m
    | None => stored m k (default mp_const_none dflt) m'
    end.
Proof.
  intros Hd. unfold dict_setdefault, dict_get_helper. rewrite (ok_free m (dict_map m Hd)), andb_false_r.
  destruct (item m k) as [v|] eqn:E.
  - destruct (item_found m k v Hd E) as (p & a & Ep & Ea). unfold mp_map_lookup.
    erewrite lookup_present by (try done; apply Hd). cbn [mbind option_bind removes]. rewrite Ep. by eexists.
  - destruct (lookup_add m k (dict_map m Hd)) as (m' & p & -> & Ha). cbn [mbind option_bind].
    pose proof (added_stored m k m' p (default mp_const_none dflt) Hd Ha) as Hs.
    destruct Ha as (_ & (a & v & Ep & _ & Ev) & _). rewrite (assoc_item m k Hd), E in Ev. cbn in Ev. subst v.
    rewrite Ep. cbn [mbind option_bind value]. destruct dflt; eexists; (split; [done|exact Hs]).
Qed.

Lemma dict_delete_ok m k : dict_ok m ->
  match item m k with
  | Some _ => exists m', mp_obj_dict_delete mp_const_none m k = Some (inr m') /\ erased m k m'
  | None => mp_obj_dict_delete mp_const_none m k = Some (inl KeyError)
  end.
Proof.
  intros Hd. unfold mp_obj_dict_delete. pose proof (dict_pop_ok m k None Hd) as Hp.
  destruct (item m k); [destruct Hp as (m' & -> & He); by eexists|by rewrite Hp].
Qed.
End helper.

Lemma dict_subscr_ok m k : dict_ok m ->
  mp_obj_dict_get m k = Some (match item m k with Some v => inr (Some v) | None => inl KeyError end).
Proof.
  intros Hd. unfold mp_obj_dict_get. destruct (lookup_get m k Hd) as (s & -> & Hs). cbn [mbind option_bind].
  destruct (item m k) as [v|]; [destruct Hs as (p & a & -> & ->); done|by subst s].
Qed.

(** ** Taking items, clearing, updating *)

Lemma iter_next_found (t : list (mp_map_elem K V)) : forall cur i,
  match dict_iter_next t cur i with
  | Some p => exists e, (i <= p)%nat /\ (cur <= p)%nat /\ t !! (p - i)%nat = Some e /\ is_filled (key e) = true
  | None => forall j e, (cur <= i + j)%nat -> t !! j = Some e -> is_filled (key e) = false
  end.
Proof.
  induction t as [|e t IH]; intros cur i; [done|]. cbn [dict_iter_next].
  destruct ((cur <=? i)%nat && is_filled (key e)) eqn:E.
  - apply andb_prop in E as [L%Nat.leb_le F]. exists e. split_and!; [lia|lia|by rewrite Nat.sub_diag|done].
  - specialize (IH cur (S i)). destruct (dict_iter_next t cur (S i)) as [p|].
    + destruct IH as (e' & L & Lc & Ep & F). exists e'. split_and!; [lia|lia| |done].
      by replace (p - i)%nat with (S (p - S i)) by lia.
    + intros [|j] e' L Ej; cbn in Ej; [|by apply (IH j); [lia|]]. simplify_eq.
      apply andb_false_iff in E as [E%Nat.leb_gt|E]; [lia|done].
Qed.

Lemma filled_none (t : list (slot_key K)) : (forall j s, t !! j = Some s -> is_filled s = false) -> filled t = 0%nat.
Proof.
  induction t as [|s t IH]; intros Hf; [done|]. cbn [filled]. rewrite (Hf 0%nat s eq_refl), IH; [done|].
  intros j s' E. by apply (Hf (S j)).
Qed.

Lemma dict_popitem_ok m : dict_ok m -> 0 < used m ->
  exists m' k v, dict_popitem m = Some (inr (m', (k, Some v))) /\ item m k = Some v /\ erased m k m'.
Proof.
  intros Hd Hu. pose proof (dict_map m Hd) as Hm. unfold dict_popitem.
  rewrite (ok_free m Hm), (proj2 (Z.eqb_neq (used m) 0)) by lia.
  pose proof (iter_next_found (table m) 0 0) as Hi. destruct (dict_iter_next (table m) 0 0) as [p|].
  - destruct Hi as (e & _ & _ & Ep & F). rewrite Nat.sub_0_r in Ep. cbn [mbind option_bind]. rewrite Ep.
    cbn [mbind option_bind]. destruct e as [[| |a] v]; try done. cbn [key value].
    assert (assoc m a = Some v) as Ea.
    { apply assoc_has; [done|]. exists a. split; [by exists p|apply obj_equal_refl]. }
    destruct v as [v|]; [|by destruct (dict_values m Hd a None Ea)].
    eexists _, a, v. split; [done|]. split; [by unfold item; rewrite Ea|]. by eapply erase_slot.
  - exfalso. pose proof (ok_used m Hm) as E. rewrite filled_none in E; [lia|].
    intros j s (v & Es)%keys_lookup. by apply (Hi j _ ltac:(lia) Es).
Qed.

(** The values of [other], over those of [m]. *)
Lemma dict_update_from_ok other : forall m, dict_ok m ->
  (forall p q e1 e2 a b, other !! p = Some e1 -> other !! q = Some e2 -> key e1 = KEY a -> key e2 = KEY b ->
    obj_equal a b = true -> p = q) ->
  (forall p k v, other !! p = Some {| key := KEY k; value := v |} -> v <> None) ->
  exists m', dict_update_from m other = Some m' /\ dict_ok m' /\
    forall k, item m' k = match assoc_list other k with Some v => v | None => item m k end.
Proof.
  induction other as [|e other IH]; intros m Hd Hu Hv; [by exists m|].
  assert (forall k, holds_key k e = false -> assoc_list (e :: other) k = assoc_list other k) as Hskip.
  { intros k E. unfold assoc_list. cbn. rewrite E. case_decide; [done|]. by destruct (list_find _ other) as [[]|]. }
  assert (forall p q e1 e2 a b, other !! p = Some e1 -> other !! q = Some e2 -> key e1 = KEY a -> key e2 = KEY b ->
    obj_equal a b = true -> p = q) as Hu'.
  { intros p q e1 e2 a b E1 E2 K1 K2 E. assert (S p = S q) as [=]; [|done]. by eapply (Hu (S p) (S q)). }
  destruct e as [[| |a] v]; cbn [dict_update_from key value].
  1-2: destruct (IH m Hd Hu' (fun p => Hv (S p))) as (m' & -> & Hd' & Hi); exists m'; split; [done|]; split; [done|];
    intros k; by rewrite Hskip.
  destruct (lookup_add m a (dict_map m Hd)) as (m1 & p & -> & Ha). cbn [mbind option_bind].
  destruct v as [v|]; [|by destruct (Hv 0%nat a None)].
  destruct (added_stored m a m1 p v Hd Ha) as (Hd1 & _ & Hi1).
  destruct (IH _ Hd1 Hu' (fun p => Hv (S p))) as (m' & -> & Hd' & Hi).
  exists m'. split; [done|]. split; [done|]. intros k. rewrite Hi, Hi1.
  destruct (obj_equal a k) eqn:E; [|by rewrite Hskip].
  replace (assoc_list (_ :: _) k) with (Some (Some v)).
  2: { unfold assoc_list. cbn. rewrite E. by case_decide. }
  unfold assoc_list. destruct (list_find _ other) as [[q e]|] eqn:Ef; [|done]. exfalso.
  apply list_find_Some in Ef as (Eq & Hh & _). apply Is_true_true in Hh. unfold holds_key in Hh.
  destruct (key e) as [| |b] eqn:Ek; try done. assert (0%nat = S q); [|done].
  eapply (Hu 0%nat (S q)); try done. apply (obj_equal_trans a k b E). by apply obj_equal_sym.
Qed.

(** What [dict_update] reads: different keys, with values. *)
Record entries_ok (t : list (mp_map_elem K V)) : Prop := {
  entries_distinct : forall p q e1 e2 a b, t !! p = Some e1 -> t !! q = Some e2 -> key e1 = KEY a -> key e2 = KEY b ->
    obj_equal a b = true -> p = q;
  entries_values : forall p k v, t !! p = Some {| key := KEY k; value := v |} -> v <> None;
}.

Lemma dict_entries_ok m : dict_ok m -> entries_ok (table m).
Proof.
  intros Hd. pose proof (dict_map m Hd) as Hm. split.
  - intros p q [? v1] [? v2] a b E1 E2 K1 K2 E. cbn in K1, K2. subst.
    eapply (tbl_distinct _ (ok_tbl m Hm)); [| |exact E]; apply keys_lookup; eauto.
  - intros p k v E. apply (dict_values m Hd k). apply assoc_has; [done|]. exists k. split; [by exists p|apply obj_equal_refl].
Qed.

(** A dictionary that may not be modified. *)
Lemma fixed_errors dflt none m k v other kwargs : is_fixed m = true ->
  mp_obj_dict_store m k v = Some (inl TypeError) /\ dict_clear m = inl TypeError /\
  dict_pop none m k dflt = Some (inl TypeError) /\ dict_setdefault none m k dflt = Some (inl TypeError) /\
  mp_obj_dict_delete none m k = Some (inl TypeError) /\ dict_popitem m = Some (inl TypeError) /\
  dict_update m other kwargs = Some (inl TypeError).
Proof.
  intros Hf. unfold mp_obj_dict_store, dict_clear, dict_pop, dict_setdefault, mp_obj_dict_delete, dict_pop, dict_popitem,
    dict_update, dict_get_helper. by rewrite Hf.
Qed.
End map.

(** * A concrete kind of keys *)

(** Interned strings, other strings (with an address), and integers; the number
    of a string stands for its text. *)
Inductive word := Interned (text : Z) | Plain (text address : Z) | Int (n : Z).

Definition word_eqb (a b : word) : bool :=
  match a, b with
  | Interned s, Interned t => s =? t
  | Plain s i, Plain t j => (s =? t) && (i =? j)
  | Int x, Int y => x =? y
  | _, _ => false
  end.

Definition word_equal (a b : word) : bool :=
  match a, b with
  | Interned s, Interned t | Interned s, Plain t _ | Plain s _, Interned t | Plain s _, Plain t _ => s =? t
  | Int x, Int y => x =? y
  | _, _ => false
  end.

#[export] Instance word_ops : KeyOps word := {
  key_eqb := word_eqb;
  is_qstr a := match a with Interned _ => true | _ => false end;
  is_exact_str a := match a with Plain _ _ => true | _ => false end;
  key_hash a := match a with Interned t | Plain t _ => t | Int n => n end;
  obj_equal := word_equal;
}.

#[export] Instance word_laws : KeyLaws word.
Proof.
  split.
  - intros [] []; cbn; rewrite ?andb_true_iff, ?Z.eqb_eq; intuition congruence.
  - intros []; cbn; apply Z.eqb_refl.
  - intros [] []; cbn; rewrite ?Z.eqb_eq; naive_solver.
  - intros [] [] []; cbn; rewrite ?Z.eqb_eq; naive_solver congruence.
  - intros [] []; cbn; rewrite ?Z.eqb_eq; naive_solver.
  - intros [] []; cbn; rewrite ?Z.eqb_eq; naive_solver.
  - intros [] []; cbn; naive_solver.
Qed.


(** * Properties *)

Section properties.
Context {K V : Type} `{KeyLaws K} (mp_const_none : V).

Implicit Types m : mp_map K V.

(** C13: [mp_obj_dict_store], [mp_obj_dict_get]: a dictionary takes every key,
    growing when its table is full: afterwards the key, under itself or any
    equal key, has the new value, every other key the one it had, and the count
    grows by one exactly when the key is new. *)
Theorem dict_store_spec m k v : dict_ok m ->
  exists m', mp_obj_dict_store m k v = Some (inr m') /\ dict_ok m' /\
    (forall k', mp_obj_dict_get m' k' = if obj_equal k k' then Some (inr (Some v)) else mp_obj_dict_get m k') /\
    used m' = used m + (if item m k is Some _ then 0 else 1).
Proof.
  intros Hd. destruct (store_ok m k v Hd) as (m' & -> & Hd' & Hu & Hi). exists m'. split; [done|]. split; [done|]. split.
  - intros k'. rewrite !dict_subscr_ok, Hi by done. by destruct (obj_equal k k').
  - rewrite Hu. by destruct (item m k).
Qed.

(** C14: [dict.pop] and [del]: a key that is there is removed, its value
    returned and every other key kept; for a key that is not, the default is
    returned or [KeyError] raised, and the dictionary is as before. *)
Theorem dict_pop_spec m k dflt : dict_ok m ->
  match item m k with
  | Some v => exists m', dict_pop mp_const_none m k dflt = Some (inr (m', v)) /\
      mp_obj_dict_delete mp_const_none m k = Some (inr m') /\ dict_ok m' /\ used m' = used m - 1 /\
      forall k', mp_obj_dict_get m' k' = if obj_equal k k' then Some (inl KeyError) else mp_obj_dict_get m k'
  | None => dict_pop mp_const_none m k dflt = Some (match dflt with Some v => inr (m, v) | None => inl KeyError end) /\
      mp_obj_dict_delete mp_const_none m k = Some (inl KeyError)
  end.
Proof.
  intros Hd. pose proof (dict_pop_ok mp_const_none m k dflt Hd) as Hp.
  pose proof (dict_pop_ok mp_const_none m k None Hd) as Hn. unfold mp_obj_dict_delete.
  destruct (item m k) as [v|] eqn:E; [|by rewrite Hp, Hn].
  destruct Hp as (m' & Ep & Hd' & Hu & Hi). destruct Hn as (m'' & En & _). exists m'. split; [done|]. split; [|split_and!; try done].
  - unfold dict_pop, dict_get_helper in Ep, En |- *. rewrite (ok_free m (dict_map m Hd)), andb_false_r in *.
    destruct (lookup_remove m k v Hd E) as (m1 & p & El & (s & Es) & _). rewrite El in *. cbn [mbind option_bind] in *.
    rewrite Es in *. cbn [mbind option_bind value] in *. by simplify_eq.
  - intros k'. rewrite !dict_subscr_ok, Hi by done. by destruct (obj_equal k k').
Qed.

(** [dict.get] and [dict.setdefault]: both return the value of the key or
    the default; only [setdefault] on a new key changes the dictionary, which
    then has the default under it. *)
Theorem dict_setdefault_spec m k dflt : dict_ok m ->
  let v := match item m k with Some v => v | None => default mp_const_none dflt end in
  dict_get mp_const_none m k dflt = Some (inr (m, v)) /\
  exists m', dict_setdefault mp_const_none m k dflt = Some (inr (m', v)) /\ dict_ok m' /\
    forall k', item m' k' = if obj_equal k k' then Some v else item m k'.
Proof.
  intros Hd. cbn zeta. split; [by apply dict_get_ok|].
  destruct (dict_setdefault_ok mp_const_none m k dflt Hd) as (m' & -> & Hs). exists m'. split; [done|].
  destruct (item m k) as [v|] eqn:E; [subst m'|by destruct Hs as (? & _ & ?)]. split; [done|].
  intros k'. destruct (obj_equal k k') eqn:Ek; [|done]. rewrite <- E. unfold item. by rewrite (assoc_proper m k k' Ek).
Qed.

(** [dict.popitem]: from a dictionary that is not empty it takes some key
    with its value and keeps the others; an empty one raises [KeyError]. *)
Theorem dict_popitem_spec m : dict_ok m ->
  if used m =? 0 then dict_popitem m = Some (inl KeyError) /\ forall k, item m k = None else
  exists m' k v, dict_popitem m = Some (inr (m', (k, Some v))) /\ item m k = Some v /\ dict_ok m' /\
    used m' = used m - 1 /\ forall k', item m' k' = if obj_equal k k' then None else item m k'.
Proof.
  intros Hd. pose proof (dict_map m Hd) as Hm. destruct (Z.eqb_spec (used m) 0) as [E|E].
  - split; [unfold dict_popitem; by rewrite (ok_free m Hm), E|]. intros k. destruct (item m k) as [v|] eqn:Ei; [|done].
    destruct (item_found m k v Hd Ei) as (p & a & Ep & _). assert (keys m !! p = Some (KEY a)) as Ek by (apply keys_lookup; eauto).
    pose proof (filled_insert _ p _ NULL Ek) as F. cbn in F. pose proof (ok_used m Hm). lia.
  - destruct (dict_popitem_ok m Hd) as (m' & k & v & -> & Hi & He); [pose proof (ok_used m Hm); lia|].
    exists m', k, v. destruct He as (? & ? & ?). by split_and!.
Qed.

(** [dict.update]: the keyword arguments override the other dictionary,
    which overrides this one. *)
Theorem dict_update_spec m other kwargs : dict_ok m -> entries_ok (table other) -> entries_ok (table kwargs) ->
  exists m', dict_update m other kwargs = Some (inr m') /\ dict_ok m' /\
    forall k, item m' k =
      match assoc kwargs k with Some v => v | None => match assoc other k with Some v => v | None => item m k end end.
Proof.
  intros Hd [Ho1 Ho2] [Hk1 Hk2]. unfold dict_update. rewrite (ok_free m (dict_map m Hd)).
  destruct (dict_update_from_ok (table other) m Hd Ho1 Ho2) as (m1 & -> & Hd1 & Hi1). cbn [mbind option_bind].
  destruct (dict_update_from_ok (table kwargs) m1 Hd1 Hk1 Hk2) as (m2 & -> & Hd2 & Hi2). cbn [mbind option_bind].
  exists m2. split; [done|]. split; [done|]. intros k. by rewrite Hi2, Hi1.
Qed.
End properties.

(** Copies of constant dictionaries, such as [math.__dict__.copy()], are ordered
    arrays that are not fixed: storing a new key dereferences the null result of
    the lookup. *)
Lemma dict_copy_store_faults {K V} `{KeyLaws K} (t : list (mp_map_elem K V)) k v :
  (forall e a, e ∈ t -> key e = KEY a -> obj_equal a k = false) ->
  mp_obj_dict_store (mp_obj_dict_copy (mp_map_init_fixed_table t)) k v = None.
Proof.
  intros Hk. unfold mp_obj_dict_store, mp_map_lookup, mp_map_lookup_with. cbn [is_fixed mp_obj_dict_copy negb andb].
  rewrite bool_decide_eq_true_2, andb_false_r by done. cbn [is_ordered mp_obj_dict_copy mp_map_init_fixed_table].
  set (same := same_key _ k). cbn [table used mp_obj_dict_copy mp_map_init_fixed_table]. rewrite Nat2Z.id.
  assert (forall pos, array_search t (length t) same pos = Some None) as ->; [|done].
  assert (forall a, obj_equal a k = false -> same a = false) as Hsame.
  { intros a E. unfold same, same_key. rewrite E, andb_false_r, orb_false_r.
    apply not_true_iff_false. intros ->%key_eqb_eq. by rewrite obj_equal_refl in E. }
  clearbody same. induction t as [|e t IH]; intros pos; [done|]. cbn [length array_search].
  assert (forall pos, array_search t (length t) same pos = Some None) as IH'.
  { apply IH. intros e' a He. apply Hk. by apply list_elem_of_further. }
  destruct (key e) as [| |a] eqn:Ek; try apply IH'. rewrite (Hsame a); [apply IH'|].
  by apply (Hk e); [apply list_elem_of_here|].
Qed.

(** * Instances of the properties *)

(** Stores and deletions in order. *)
Fixpoint run_dict (m : mp_map word Z) (ops : list (word * option Z)) : option (mp_map word Z) :=
  match ops with
  | [] => Some m
  | (k, Some v) :: ops => match mp_obj_dict_store m k v with Some (inr m) => run_dict m ops | _ => None end
  | (k, None) :: ops => match mp_obj_dict_delete 0 m k with Some (inr m) => run_dict m ops | _ => None end
  end.

Lemma run_dict_ok ops : forall m m', dict_ok m -> run_dict m ops = Some m' -> dict_ok m'.
Proof.
  induction ops as [|[k [v|]] ops IH]; intros m m' Hd E; cbn [run_dict] in E.
  - by simplify_eq.
  - destruct (store_ok m k v Hd) as (m1 & E1 & Hd1 & _). rewrite E1 in E. by eapply IH.
  - pose proof (dict_delete_ok 0 m k Hd) as Hx. destruct (item m k).
    + destruct Hx as (m1 & E1 & Hd1 & _). rewrite E1 in E. by eapply IH.
    + by rewrite Hx in E.
Qed.

(** Interned and plain strings and integers with equal hashes, after two
    rehashes and a deletion. *)
Definition sample : mp_map word Z :=
  default (mp_map_init 0)
    (run_dict (mp_map_init 1)
      [(Interned 5, Some 1); (Int 5, Some 2); (Plain 7 1, Some 3); (Int 9, Some 4); (Int 13, Some 5); (Int 5, None)]).

Lemma sample_ok : dict_ok sample.
Proof.
  unfold sample. destruct (run_dict _ _) as [m|] eqn:E; [|by apply dict_ok_init].
  cbn [default]. eapply run_dict_ok; [|exact E]. apply dict_ok_init.
Qed.

Lemma dict_store_spec_witness :
  exists m', mp_obj_dict_store sample (Interned 7) 30 = Some (inr m') /\ dict_ok m' /\
    (forall k', mp_obj_dict_get m' k' =
      if obj_equal (Interned 7) k' then Some (inr (Some 30)) else mp_obj_dict_get sample k') /\
    used m' = used sample + (if item sample (Interned 7) is Some _ then 0 else 1).
Proof. apply (dict_store_spec sample (Interned 7) 30). exact sample_ok. Defined.

Lemma dict_pop_spec_witness :
  exists m', dict_pop 0 sample (Interned 7) None = Some (inr (m', 3)) /\
    mp_obj_dict_delete 0 sample (Interned 7) = Some (inr m') /\ dict_ok m' /\ used m' = used sample - 1 /\
    forall k', mp_obj_dict_get m' k' = if obj_equal (Interned 7) k' then Some (inl KeyError) else mp_obj_dict_get sample k'.
Proof. exact (dict_pop_spec 0 sample (Interned 7) None sample_ok). Defined.

Lemma dict_setdefault_spec_witness :
  dict_get 0 sample (Int 5) (Some 8) = Some (inr (sample, 8)) /\
  exists m', dict_setdefault 0 sample (Int 5) (Some 8) = Some (inr (m', 8)) /\ dict_ok m' /\
    forall k', item m' k' = if obj_equal (Int 5) k' then Some 8 else item sample k'.
Proof. exact (dict_setdefault_spec 0 sample (Int 5) (Some 8) sample_ok). Defined.

Lemma dict_popitem_spec_witness :
  exists m' k v, dict_popitem sample = Some (inr (m', (k, Some v))) /\ item sample k = Some v /\ dict_ok m' /\
    used m' = used sample - 1 /\ forall k', item m' k' = if obj_equal k k' then None else item sample k'.
Proof. exact (dict_popitem_spec sample sample_ok). Defined.

Lemma dict_update_spec_witness :
  let kwargs := mp_map_init_fixed_table [{| key := KEY (Interned 5); value := Some 6 |}] in
  exists m', dict_update sample sample kwargs = Some (inr m') /\ dict_ok m' /\
    forall k, item m' k =
      match assoc kwargs k with Some v => v | None => match assoc sample k with Some v => v | None => item sample k end end.
Proof.
  apply (dict_update_spec sample sample); [exact sample_ok|apply dict_entries_ok, sample_ok|]. split.
  - intros [|p] [|q] e1 e2 a b; try done.
  - intros [|p] k v; [by intros [= _ <-]|done].
Defined.
