(* ===== verification/ObjSet.v ===== *)
(** Set objects: the methods and operators of [py/objset.c], on the tables of
    [HashMap].

    An argument is the set itself, another set, or an iterable given by its
    items. *)

From Stdlib Require Import ZArith Lia.
From stdpp Require Import base option list numbers.
From S2P Require Import Prelude HashMap.

Section objset.
Context {K : Type} `{KeyOps K}.

Record mp_obj_set := { is_frozen : bool; set : mp_set (K := K) }.

Inductive set_arg := SameSet | OtherSet (o : mp_obj_set) | Iterable (items : list K).

Definition with_set (o : mp_obj_set) (s : mp_set) : mp_obj_set := {| is_frozen := is_frozen o; set := s |}.

(** [set_it_iternext]: the first filled slot from [cur] on, and the next
    [cur]. *)
Fixpoint set_it_scan (t : list (slot_key K)) (i : nat) : option (K * nat) :=
  match t with
  | [] => None
  | KEY k :: _ => Some (k, S i)
  | _ :: t => set_it_scan t (S i)
  end.

Definition set_it_iternext (s : mp_set) (cur : nat) : option (K * nat) :=
  set_it_scan (drop cur (set_table s)) cur.

(** What an iteration over an unchanged set yields. *)
Definition set_items (s : mp_set) : list K :=
  omap (fun slot => match slot with KEY k => Some k | _ => None end) (set_table s).

Definition arg_items (self : mp_obj_set) (arg : set_arg) : list K :=
  match arg with
  | SameSet => set_items (set self)
  | OtherSet o => set_items (set o)
  | Iterable items => items
  end.

Definition set_add_all (s : mp_set) (kind : mp_map_lookup_kind) (items : list K) : option mp_set :=
  foldl (fun s k => s ← s; '(s, _) ← mp_set_lookup s k kind; Some s) (Some s) items.

Definition mp_obj_new_set (items : list K) : option mp_set :=
  set_add_all (mp_set_init (length items)) MP_MAP_LOOKUP_ADD_IF_NOT_FOUND items.

Definition set_make_new (frozen : bool) (args : list (list K)) : option mp_obj_set :=
  match args with
  | [] => s ← mp_obj_new_set []; Some {| is_frozen := frozen; set := s |}
  | items :: _ =>
      s ← mp_obj_new_set [];
      s ← set_add_all s MP_MAP_LOOKUP_ADD_IF_NOT_FOUND items;
      Some {| is_frozen := frozen; set := s |}
  end.

Definition set_copy (self : mp_obj_set) : mp_obj_set :=
  with_set self {| set_used := set_used (set self); set_table := set_table (set self) |}.

Definition set_add (self : mp_obj_set) (item : K) : option (exn + mp_obj_set) :=
  if is_frozen self then Some (inl TypeError) else
  '(s, _) ← mp_set_lookup (set self) item MP_MAP_LOOKUP_ADD_IF_NOT_FOUND;
  Some (inr (with_set self s)).

Definition set_clear (self : mp_obj_set) : exn + mp_obj_set :=
  if is_frozen self then inl TypeError else inr (with_set self (mp_set_clear (set self))).

Definition set_discard (self : mp_obj_set) (item : K) : option (exn + mp_obj_set) :=
  if is_frozen self then Some (inl TypeError) else
  '(s, _) ← mp_set_lookup (set self) item MP_MAP_LOOKUP_REMOVE_IF_FOUND;
  Some (inr (with_set self s)).

(** The loop over the arguments; [self == other] only for an update. *)
Fixpoint set_diff_loop (orig : mp_obj_set) (update : bool) (s : mp_set) (args : list set_arg) : option mp_set :=
  match args with
  | [] => Some s
  | arg :: args =>
      s ← match arg, update with
          | SameSet, true => Some (mp_set_clear s)
          | _, _ => set_add_all s MP_MAP_LOOKUP_REMOVE_IF_FOUND (arg_items orig arg)
          end;
      set_diff_loop orig update s args
  end.

Definition set_diff_int (self : mp_obj_set) (args : list set_arg) (update : bool) : option (exn + mp_obj_set) :=
  if update && is_frozen self then Some (inl TypeError) else
  let start := if update then self else set_copy self in
  s ← set_diff_loop self update (set start) args;
  Some (inr (with_set start s)).

(** The result of [set_intersect_int] is a new set, or the table of the set
    updated. *)
Fixpoint set_intersect_loop (self out : mp_set) (items : list K) : option mp_set :=
  match items with
  | [] => Some out
  | next :: items =>
      '(self, found) ← mp_set_lookup self next MP_MAP_LOOKUP;
      out ← match found with
            | Some _ => '(out, _) ← mp_set_lookup out next MP_MAP_LOOKUP_ADD_IF_NOT_FOUND; Some out
            | None => Some out
            end;
      set_intersect_loop self out items
  end.

Definition set_intersect_int (self : mp_obj_set) (other : set_arg) (update : bool) : option (exn + mp_obj_set) :=
  if update && is_frozen self then Some (inl TypeError) else
  match other with
  | SameSet => Some (inr (if update then self else set_copy self))
  | _ =>
      out ← mp_obj_new_set [];
      out ← set_intersect_loop (set self) out (arg_items self other);
      Some (inr (if update then with_set self out else {| is_frozen := false; set := out |}))
  end.

Fixpoint set_isdisjoint_loop (self : mp_set) (items : list K) : option bool :=
  match items with
  | [] => Some true
  | next :: items =>
      '(self, found) ← mp_set_lookup self next MP_MAP_LOOKUP;
      if found is Some _ then Some false else set_isdisjoint_loop self items
  end.

Definition set_isdisjoint (self : mp_obj_set) (other : set_arg) : option bool :=
  set_isdisjoint_loop (set self) (arg_items self other).

Fixpoint set_issubset_loop (other : mp_set) (items : list K) : option bool :=
  match items with
  | [] => Some true
  | next :: items =>
      '(other, found) ← mp_set_lookup other next MP_MAP_LOOKUP;
      if found is Some _ then set_issubset_loop other items else Some false
  end.

Definition set_issubset_internal (self other : mp_set) (proper : bool) : option bool :=
  if proper && (set_used self =? set_used other) then Some false
  else set_issubset_loop other (set_items self).

(** An argument that is not a set is made one. *)
Definition arg_set (self : mp_obj_set) (arg : set_arg) : option mp_set :=
  match arg with
  | SameSet => Some (set self)
  | OtherSet o => Some (set o)
  | Iterable items => o ← set_make_new false [items]; Some (set o)
  end.

Definition set_issubset (self : mp_obj_set) (other : set_arg) : option bool :=
  o ← arg_set self other; set_issubset_internal (set self) o false.
Definition set_issubset_proper (self : mp_obj_set) (other : set_arg) : option bool :=
  o ← arg_set self other; set_issubset_internal (set self) o true.
Definition set_issuperset (self : mp_obj_set) (other : set_arg) : option bool :=
  o ← arg_set self other; set_issubset_internal o (set self) false.
Definition set_issuperset_proper (self : mp_obj_set) (other : set_arg) : option bool :=
  o ← arg_set self other; set_issubset_internal o (set self) true.

(** The right-hand side is a set. *)
Definition set_equal (self : mp_obj_set) (other : set_arg) : option bool :=
  o ← arg_set self other;
  if negb (set_used (set self) =? set_used o) then Some false else set_issubset self other.

Definition set_pop (self : mp_obj_set) : exn + mp_obj_set * K :=
  if is_frozen self then inl TypeError else
  match mp_set_remove_first (set self) with
  | (s, Some k) => inr (with_set self s, k)
  | (_, None) => inl KeyError
  end.

Definition set_remove (self : mp_obj_set) (item : K) : option (exn + mp_obj_set) :=
  if is_frozen self then Some (inl TypeError) else
  '(s, r) ← mp_set_lookup (set self) item MP_MAP_LOOKUP_REMOVE_IF_FOUND;
  match r with
  | None => Some (inl KeyError)
  | Some _ => Some (inr (with_set self s))
  end.

(** Toggling the elements of the set that is iterated over; [fuel] bounds the
    turns. *)
Fixpoint set_toggle_self (fuel : nat) (s : mp_set) (cur : nat) : option mp_set :=
  match fuel with
  | O => None
  | S fuel =>
      match set_it_iternext s cur with
      | None => Some s
      | Some (next, cur) =>
          '(s, _) ← mp_set_lookup s next MP_MAP_LOOKUP_ADD_IF_NOT_FOUND_OR_REMOVE_IF_FOUND;
          set_toggle_self fuel s cur
      end
  end.

Definition set_symmetric_difference_update (self : mp_obj_set) (other : set_arg) : option mp_obj_set :=
  s ← match other with
      | SameSet => set_toggle_self (S (length (set_table (set self)))) (set self) 0
      | _ => set_add_all (set self) MP_MAP_LOOKUP_ADD_IF_NOT_FOUND_OR_REMOVE_IF_FOUND (arg_items self other)
      end;
  Some (with_set self s).

(** The copy is not the argument. *)
Definition set_symmetric_difference (self : mp_obj_set) (other : set_arg) : option mp_obj_set :=
  set_symmetric_difference_update (set_copy self)
    (match other with SameSet => OtherSet self | _ => other end).

(** Adding the elements of the set itself changes nothing in it, so they are
    read once. *)
Definition set_update_int (self : mp_obj_set) (other : set_arg) : option mp_obj_set :=
  s ← set_add_all (set self) MP_MAP_LOOKUP_ADD_IF_NOT_FOUND (arg_items self other);
  Some (with_set self s).

Fixpoint set_update_loop (self : mp_obj_set) (args : list set_arg) : option mp_obj_set :=
  match args with
  | [] => Some self
  | arg :: args => self ← set_update_int self arg; set_update_loop self args
  end.

Definition set_update (self : mp_obj_set) (args : list set_arg) : option (exn + mp_obj_set) :=
  if is_frozen self then Some (inl TypeError) else
  self ← set_update_loop self args; Some (inr self).

Definition set_union (self : mp_obj_set) (other : set_arg) : option mp_obj_set :=
  set_update_int (set_copy self) (match other with SameSet => OtherSet self | _ => other end).

(** ** Operators *)

Inductive set_op :=
| MP_BINARY_OP_OR | MP_BINARY_OP_XOR | MP_BINARY_OP_AND | MP_BINARY_OP_SUBTRACT
| MP_BINARY_OP_INPLACE_OR | MP_BINARY_OP_INPLACE_XOR | MP_BINARY_OP_INPLACE_AND | MP_BINARY_OP_INPLACE_SUBTRACT
| MP_BINARY_OP_LESS | MP_BINARY_OP_MORE | MP_BINARY_OP_EQUAL | MP_BINARY_OP_LESS_EQUAL | MP_BINARY_OP_MORE_EQUAL.

(** The left-hand side, updated and returned; a new set; a truth value; no
    operation. *)
Inductive set_result := RLhs (o : mp_obj_set) | RNew (o : mp_obj_set) | RBool (b : bool) | RNull.

Definition ret_new (r : option (exn + mp_obj_set)) : option (exn + set_result) :=
  r ← r; Some (match r with inl e => inl e | inr o => inr (RNew o) end).

Definition ret_lhs (r : option (exn + mp_obj_set)) : option (exn + set_result) :=
  r ← r; Some (match r with inl e => inl e | inr o => inr (RLhs o) end).

Definition no_exn {A} (r : option A) : option (exn + A) := inr <$> r.

Definition set_binary_op (op : set_op) (lhs : mp_obj_set) (rhs : set_arg) : option (exn + set_result) :=
  match rhs with
  | Iterable _ => Some (inr RNull)
  | _ =>
      let update := negb (is_frozen lhs) in
      let bool r := b ← r; Some (inr (RBool b)) in
      match op with
      | MP_BINARY_OP_OR => ret_new (no_exn (set_union lhs rhs))
      | MP_BINARY_OP_XOR => ret_new (no_exn (set_symmetric_difference lhs rhs))
      | MP_BINARY_OP_AND => ret_new (set_intersect_int lhs rhs false)
      | MP_BINARY_OP_SUBTRACT => ret_new (set_diff_int lhs [rhs] false)
      | MP_BINARY_OP_INPLACE_OR =>
          if update then ret_lhs (set_update lhs [rhs]) else ret_new (no_exn (set_union lhs rhs))
      | MP_BINARY_OP_INPLACE_XOR =>
          if update then ret_lhs (no_exn (set_symmetric_difference_update lhs rhs))
          else ret_new (no_exn (set_symmetric_difference lhs rhs))
      | MP_BINARY_OP_INPLACE_AND =>
          if update then ret_lhs (set_intersect_int lhs rhs true) else ret_new (set_intersect_int lhs rhs false)
      | MP_BINARY_OP_INPLACE_SUBTRACT =>
          if update then ret_lhs (set_diff_int lhs [rhs] true) else ret_new (set_diff_int lhs [rhs] false)
      | MP_BINARY_OP_LESS => bool (set_issubset_proper lhs rhs)
      | MP_BINARY_OP_MORE => bool (set_issuperset_proper lhs rhs)
      | MP_BINARY_OP_EQUAL => bool (set_equal lhs rhs)
      | MP_BINARY_OP_LESS_EQUAL => bool (set_issubset lhs rhs)
      | MP_BINARY_OP_MORE_EQUAL => bool (set_issuperset lhs rhs)
      end
  end.

Definition set_contains (self : mp_obj_set) (k : K) : option bool :=
  '(_, elem) ← mp_set_lookup (set self) k MP_MAP_LOOKUP;
  Some (if elem is Some _ then true else false).

Definition set_len (self : mp_obj_set) : Z := set_used (set self).
Definition set_bool (self : mp_obj_set) : bool := negb (set_used (set self) =? 0).
End objset.
