(* ===== verification/SetProps.v ===== *)
(** Sets: the table of [mp_set_lookup] represents a set of keys up to
    [obj_equal], and the operations of [py/objset.c] are those of sets. *)

From Stdlib Require Import ZArith Lia.
From stdpp Require Import base option list numbers.
From S2P Require Import Prelude HashMap HashTable HashSpec HashProps ObjSet.

Section set.
Context {K : Type} `{KeyLaws K}.

Implicit Types s : mp_set (K := K).

Record set_ok s : Prop := {
  set_tbl : tbl_ok (set_table s);
  set_count : set_used s = Z.of_nat (filled (set_table s));
}.

Definition is_elem (k : K) (x : slot_key K) : bool := match x with KEY a => obj_equal a k | _ => false end.

Definition member s (k : K) : bool := existsb (is_elem k) (set_table s).

Lemma member_true s k : member s k = true <-> exists p a, set_table s !! p = Some (KEY a) /\ obj_equal a k = true.
Proof.
  unfold member. rewrite existsb_exists. split.
  - intros (x & Hx & E). apply list_elem_of_In, list_elem_of_lookup in Hx as (p & Ep). destruct x as [| |a]; try done. eauto.
  - intros (p & a & Ep & E). exists (KEY a). split; [|done]. apply list_elem_of_In, list_elem_of_lookup. eauto.
Qed.

Lemma member_false s k : member s k = false <-> absent (set_table s) k.
Proof.
  rewrite <- not_true_iff_false, member_true. unfold absent. split.
  - intros Hn p a Ep. destruct (obj_equal a k) eqn:E; [|done]. destruct Hn. eauto.
  - intros Hab (p & a & Ep & E). by rewrite (Hab p a Ep) in E.
Qed.

Lemma member_ext s s' k :
  (forall a, obj_equal a k = true -> (exists p, set_table s !! p = Some (KEY a)) <-> exists p, set_table s' !! p = Some (KEY a)) ->
  member s k = member s' k.
Proof.
  intros He. apply eq_true_iff_eq. rewrite !member_true.
  split; intros (p & a & Ep & E);
    [destruct (proj1 (He a E)) as (q & Eq)|destruct (proj2 (He a E)) as (q & Eq)]; eauto.
Qed.

#[export] Instance member_proper s : Proper ((fun a b => obj_equal a b = true) ==> eq) (member s).
Proof.
  intros a b E. unfold member. apply eq_true_iff_eq. rewrite !existsb_exists.
  assert (forall x, is_elem a x = is_elem b x) as Ex.
  { intros [| |c]; try done. cbn. by rewrite (obj_equal_comm c a), (obj_equal_comm c b), (obj_equal_l a b c E). }
  by setoid_rewrite Ex.
Qed.

(** ** Adding and removing a slot *)

Lemma set_ok_add s q k : set_ok s -> absent (set_table s) k -> free_slot (set_table s) k q ->
  set_ok (set_add_at s q k) /\ forall k', member (set_add_at s q k) k' = if obj_equal k k' then true else member s k'.
Proof.
  intros [Ht Hc] Hab Hf. pose proof Hf as (j & _ & _ & (x & Ex & Hx) & _). split.
  - split; [by apply tbl_ok_insert|]. cbn [set_add_at set_used set_table].
    pose proof (filled_insert _ q x (KEY k) Ex) as E. rewrite Hx in E. cbn in E. lia.
  - intros k'. destruct (obj_equal k k') eqn:E.
    + apply member_true. exists q, k. split; [|done]. cbn [set_add_at set_table].
      apply list_lookup_insert_eq. by eapply lookup_lt_Some.
    + apply member_ext. intros a Ea. cbn [set_add_at set_table]. split; intros (p & Ep).
      * apply insert_lookup in Ep as [[_ [= ->]]|[_ Ep]]; [congruence|eauto].
      * exists p. rewrite list_lookup_insert_ne; [done|]. intros ->. by simplify_eq.
Qed.

Lemma set_ok_remove s p k : set_ok s -> set_table s !! p = Some (KEY k) ->
  set_ok (set_remove_at s p) /\
  forall k', member (set_remove_at s p) k' = if obj_equal k k' then false else member s k'.
Proof.
  intros [Ht Hc] Ep. assert (0 < length (set_table s))%nat as Hn by (apply lookup_lt_Some in Ep; lia). split.
  - split; [by apply tbl_ok_delete|]. cbn [set_remove_at set_used set_table].
    pose proof (filled_insert _ p (KEY k) (deleted (set_table s) p) Ep) as E. rewrite deleted_free in E. cbn in E. lia.
  - intros k'. pose proof (deleted_free (set_table s) p) as Hd. destruct (obj_equal k k') eqn:E.
    + apply member_false. intros q a Ea. cbn [set_remove_at set_table] in Ea.
      apply insert_lookup in Ea as [[_ Ea]|[Hne Ea]]; [by rewrite <- Ea in Hd|].
      destruct (obj_equal a k') eqn:E'; [|done]. destruct Hne. symmetry. eapply (tbl_distinct _ Ht); [done..|].
      apply (obj_equal_trans a k' k E'). by apply obj_equal_sym.
    + apply member_ext. intros a Ea. cbn [set_remove_at set_table]. split; intros (q & Eq).
      * apply insert_lookup in Eq as [[_ Eq]|[_ Eq]]; [by rewrite <- Eq in Hd|eauto].
      * exists q. rewrite list_lookup_insert_ne; [done|]. intros ->. congruence.
Qed.

(** ** The lookup *)

(** What a lookup does to the membership of its key, and to the count. *)
Definition looked_up (kind : mp_map_lookup_kind) (there : bool) : bool :=
  if there then negb (removes kind) else adds kind.

Record set_result_ok s (k : K) (kind : mp_map_lookup_kind) s' (r : option K) : Prop := {
  res_ok : set_ok s';
  res_member : forall k', member s' k' = if obj_equal k k' then looked_up kind (member s k) else member s k';
  res_used : set_used s' = set_used s + Z.b2z (looked_up kind (member s k)) - Z.b2z (member s k);
  res_elem : match r with
             | Some a => obj_equal a k = true /\ (member s k || adds kind = true)
             | None => member s k || adds kind = false
             end;
}.

Lemma set_search_spec turns rehash s k kind :
  set_ok s -> (0 < length (set_table s))%nat ->
  let r := set_search (S turns) rehash s k kind in
  (exists s' x, r = Some (s', x) /\ set_result_ok s k kind s' x) \/
  (adds kind = true /\ member s k = false /\ filled (set_table s) = length (set_table s) /\
     r = (s ← rehash s; set_search turns rehash s k kind)).
Proof.
  intros Hs Hn. cbn zeta. cbn [set_search]. pose proof (set_tbl s Hs) as Ht.
  destruct (search_total (set_table s) k (fun a => obj_equal a k) Ht Hn ltac:(done)) as (e & He & Hout).
  unfold home in He. unfold set_alloc. rewrite He. cbn [mbind option_bind].
  assert (forall q, absent (set_table s) k -> free_slot (set_table s) k q -> adds kind = true ->
    set_result_ok s k kind (set_add_at s q k) (Some k)) as Hadd.
  { intros q Hab Hf Ha. destruct (set_ok_add s q k Hs Hab Hf) as [Hs' Hm]. apply member_false in Hab.
    split; [done| | |by rewrite obj_equal_refl, Ha, orb_true_r].
    - intros k'. rewrite Hm, Hab. unfold looked_up. by rewrite Ha.
    - rewrite Hab. unfold looked_up. rewrite Ha. cbn. lia. }
  assert (absent (set_table s) k -> adds kind = false -> set_result_ok s k kind s None) as Hnone.
  { intros Hab%member_false Ha. split; [done| | |by rewrite Hab, Ha].
    - intros k'. rewrite Hab. unfold looked_up. rewrite Ha. destruct (obj_equal k k') eqn:E; [|done].
      by rewrite <- (member_proper s k k' E).
    - rewrite Hab. unfold looked_up. rewrite Ha. cbn. lia. }
  destruct e as [p|p avail|[q|]].
  - destruct Hout as (a & Ea & E). left. rewrite Ea. cbn [mbind option_bind]. eexists _, (Some a). split; [done|].
    assert (member s k = true) as Hmem by (apply member_true; eauto).
    unfold set_remove_at in *. split; rewrite ?Hmem; cbn [looked_up]; [| | |by split].
    + destruct (removes kind); [|done]. by apply (set_ok_remove s p a).
    + intros k'. rewrite <- (obj_equal_l a k k' E). unfold looked_up. destruct (removes kind); cbn [negb].
      * by apply (set_ok_remove s p a).
      * destruct (obj_equal a k') eqn:E'; [|done]. apply member_true. eauto.
    + unfold looked_up. destruct (removes kind); cbn; lia.
  - left. destruct Hout as [Hab Hf]. destruct (adds kind) eqn:Ha; eexists _, _; (split; [done|]); auto.
  - left. destruct Hout as [Hab Hf]. destruct (adds kind) eqn:Ha; eexists _, _; (split; [done|]); auto.
  - destruct Hout as [Hab Hf]. destruct (adds kind) eqn:Ha; [right|left; eexists _, _; split; [done|]; auto].
    split_and!; try done. by apply member_false.
Qed.

Lemma set_ok_init n : set_ok (mp_set_init n) /\ forall k, member (mp_set_init n) k = false.
Proof.
  split; [split|].
  - apply tbl_ok_empty.
  - cbn [mp_set_init set_table set_used]. by rewrite filled_empty.
  - intros k. apply member_false. intros p a E. cbn [mp_set_init set_table] in E. by apply lookup_replicate in E as [? _].
Qed.

(** The members in the list of slots [old]. *)
Definition listed (old : list (slot_key K)) (k : K) : bool := existsb (is_elem k) old.

(** A lookup that finds room does not rehash. *)
Lemma set_lookup_room rehash s k kind :
  set_ok s -> (filled (set_table s) < length (set_table s))%nat ->
  exists s' r, mp_set_lookup_with rehash s k kind = Some (s', r) /\ set_result_ok s k kind s' r.
Proof.
  intros Hs Hl. unfold mp_set_lookup_with, set_alloc. rewrite (proj2 (Z.eqb_neq _ 0)) by lia.
  destruct (set_search_spec 1 rehash s k kind Hs ltac:(lia)) as [Hr|(_ & _ & E & _)]; [done|lia].
Qed.

Lemma set_search_length turns s k kind s' r :
  set_search turns (fun _ => None) s k kind = Some (s', r) -> length (set_table s') = length (set_table s).
Proof.
  destruct turns as [|turns]; [done|]. cbn [set_search]. destruct (probe _ _ _ _ _ _) as [e|]; [|done].
  cbn [mbind option_bind]. destruct e as [p|p avail|[q|]].
  - destruct (set_table s !! p) as [[| |a]|]; cbn [mbind option_bind]; try done.
    intros [= <- _]. destruct (removes kind); [|done]. cbn. by rewrite length_insert.
  - destruct (adds kind); intros [= <- _]; [|done]. cbn. by rewrite length_insert.
  - destruct (adds kind); intros [= <- _]; [|done]. cbn. by rewrite length_insert.
  - destruct (adds kind); [done|]. by intros [= <- _].
Qed.

Lemma set_lookup_length s k kind s' r :
  mp_set_lookup_with (fun _ => None) s k kind = Some (s', r) -> length (set_table s') = length (set_table s).
Proof.
  unfold mp_set_lookup_with. destruct (set_alloc s =? 0); [|apply set_search_length].
  destruct (adds kind); [done|]. by intros [= <- _].
Qed.

Lemma set_rehash_loop_spec old : forall s,
  set_ok s -> (filled (set_table s) + filled old < length (set_table s))%nat ->
  (forall p q a b, old !! p = Some (KEY a) -> old !! q = Some (KEY b) -> obj_equal a b = true -> p = q) ->
  (forall p a, old !! p = Some (KEY a) -> member s a = false) ->
  exists s', set_rehash_loop (mp_set_lookup_with (fun _ => None)) old s = Some s' /\ set_ok s' /\
    (forall k, member s' k = listed old k || member s k) /\
    filled (set_table s') = (filled (set_table s) + filled old)%nat /\ length (set_table s') = length (set_table s).
Proof.
  induction old as [|x old IH]; intros s Hs Hl Hd Hab.
  { exists s. split_and!; try done. }
  assert (forall p q a b, old !! p = Some (KEY a) -> old !! q = Some (KEY b) -> obj_equal a b = true -> p = q) as Hd'.
  { intros p q a b E1 E2 E. assert (S p = S q) as [=]; [|done]. by eapply (Hd (S p) (S q)). }
  unfold listed in *. cbn [existsb filled set_rehash_loop] in *. destruct x as [| |k0]; cbn [is_filled is_elem orb] in *.
  1-2: exact (IH s Hs ltac:(lia) Hd' (fun p => Hab (S p))).
  destruct (set_lookup_room (fun _ => None) s k0 MP_MAP_LOOKUP_ADD_IF_NOT_FOUND Hs ltac:(lia)) as (s1 & r & E & Hr).
  rewrite E. cbn [mbind option_bind]. apply set_lookup_length in E.
  pose proof (res_used _ _ _ _ _ Hr) as Hu. rewrite (Hab 0%nat k0 eq_refl) in Hu. cbn in Hu.
  rewrite (set_count _ Hs), (set_count _ (res_ok _ _ _ _ _ Hr)) in Hu.
  destruct (IH s1 (res_ok _ _ _ _ _ Hr) ltac:(lia) Hd') as (s' & -> & Hs' & Hm & Hf & Hlen).
  { intros p a Ep. rewrite (res_member _ _ _ _ _ Hr). destruct (obj_equal k0 a) eqn:E'; [|by apply (Hab (S p))].
    assert (0%nat = S p); [|done]. by eapply Hd. }
  exists s'. split; [done|]. split; [done|]. split; [|lia].
  intros k. rewrite Hm, (res_member _ _ _ _ _ Hr). unfold looked_up. rewrite (Hab 0%nat k0 eq_refl). cbn.
  destruct (obj_equal k0 k); [apply orb_true_r|done].
Qed.

Lemma mp_set_rehash_spec s : set_ok s ->
  exists s', mp_set_rehash s = Some s' /\ set_ok s' /\ (forall k, member s' k = member s k) /\
    set_used s' = set_used s /\ (filled (set_table s') < length (set_table s'))%nat.
Proof.
  intros Hs. unfold mp_set_rehash. set (n := Z.to_nat (get_hash_alloc_greater_or_equal_to (set_alloc s + 1))).
  assert (length (set_table s) < n)%nat as Hn.
  { pose proof (hash_alloc_ge (set_alloc s + 1) ltac:(unfold set_alloc; lia)). unfold n, set_alloc in *. lia. }
  destruct (set_ok_init n) as [Hi Hno]. unfold mp_set_init in Hi, Hno. pose proof (filled_le (set_table s)).
  destruct (set_rehash_loop_spec (set_table s) _ Hi) as (s' & E & Hs' & Hm & Hf & Hl).
  - cbn [set_table]. rewrite filled_empty, length_replicate. lia.
  - apply (tbl_distinct _ (set_tbl s Hs)).
  - done.
  - cbn [set_table] in Hf, Hl. rewrite filled_empty in Hf. rewrite length_replicate in Hl.
    exists s'. split; [exact E|]. split; [done|]. split; [|split].
    + intros k. rewrite Hm, Hno. apply orb_false_r.
    + rewrite (set_count s Hs), (set_count s' Hs'). lia.
    + lia.
Qed.

Lemma set_result_same s s1 k kind s' r :
  (forall k, member s1 k = member s k) -> set_used s1 = set_used s ->
  set_result_ok s1 k kind s' r -> set_result_ok s k kind s' r.
Proof. intros Hm Hu []. split; rewrite <- ?Hm, <- ?Hu; try done. intros k'. by rewrite <- !Hm. Qed.

(** Every lookup ends, and does to the set of members what its kind says. *)
Lemma set_lookup_ok s k kind : set_ok s ->
  exists s' r, mp_set_lookup s k kind = Some (s', r) /\ set_result_ok s k kind s' r.
Proof.
  intros Hs. destruct (Nat.lt_ge_cases (filled (set_table s)) (length (set_table s))) as [L|L].
  { by apply set_lookup_room. }
  pose proof (filled_le (set_table s)). unfold mp_set_lookup, mp_set_lookup_with, set_alloc.
  destruct (mp_set_rehash_spec s Hs) as (s1 & E1 & Hs1 & Hm1 & Hu1 & Hroom).
  assert (forall turns, exists s' r, set_search (S turns) mp_set_rehash s1 k kind = Some (s', r) /\
    set_result_ok s k kind s' r) as Hsearch.
  { intros turns. destruct (set_search_spec turns mp_set_rehash s1 k kind Hs1 ltac:(lia)) as [(s' & r & E & Hr)|(_ & _ & E & _)]; [|lia].
    exists s', r. split; [done|]. by eapply set_result_same. }
  destruct (Z.eqb_spec (Z.of_nat (length (set_table s))) 0) as [E0|E0].
  - destruct (adds kind) eqn:Ha; [rewrite E1; exact (Hsearch 1%nat)|]. exists s, None. split; [done|].
    assert (forall a, member s a = false) as Hno.
    { intros a. unfold member. by rewrite (nil_length_inv (set_table s)) by lia. }
    split; [done| | |by rewrite Hno].
    + intros k'. rewrite !Hno. unfold looked_up. by destruct (obj_equal k k').
    + rewrite Hno. unfold looked_up. rewrite Ha. cbn. lia.
  - destruct (set_search_spec 1 mp_set_rehash s k kind Hs ltac:(lia)) as [Hr|(_ & _ & _ & ->)]; [done|].
    rewrite E1. exact (Hsearch 0%nat).
Qed.

(** * Elements, as lists *)

Definition in_list (l : list K) (k : K) : bool := existsb (fun a => obj_equal a k) l.

Fixpoint distinct (l : list K) : Prop :=
  match l with
  | [] => True
  | a :: l => in_list l a = false /\ distinct l
  end.

Lemma in_list_equal l a b : obj_equal a b = true -> in_list l a = in_list l b.
Proof.
  intros E. induction l as [|c l IH]; [done|]. unfold in_list in *. cbn. rewrite IH. f_equal.
  by rewrite (obj_equal_comm c a), (obj_equal_comm c b), (obj_equal_l a b).
Qed.

Lemma in_list_app l l' k : in_list (l ++ l') k = in_list l k || in_list l' k.
Proof. apply existsb_app. Qed.

Lemma items_cons x t :
  omap (fun slot => match slot with KEY k => Some k | _ => None end) (x :: t : list (slot_key K)) =
  (if x is KEY k then [k] else []) ++ omap (fun slot => match slot with KEY k => Some k | _ => None end) t.
Proof. by destruct x. Qed.

Lemma in_items s k : in_list (set_items s) k = member s k.
Proof.
  unfold member, set_items, in_list. induction (set_table s) as [|x t IH]; [done|].
  rewrite items_cons. destruct x; cbn; by rewrite IH.
Qed.

Lemma items_length s : length (set_items s) = filled (set_table s).
Proof.
  unfold set_items. induction (set_table s) as [|x t IH]; [done|]. rewrite items_cons, length_app, IH. by destruct x.
Qed.

Lemma items_distinct s : set_ok s -> distinct (set_items s).
Proof.
  intros [[Hd _] _]. revert Hd. unfold set_items. induction (set_table s) as [|x t IH]; intros Hd; [done|].
  assert (distinct (omap (fun slot => match slot with KEY k => Some k | _ => None end) t)) as Ht.
  { apply IH. intros p q a b E1 E2 E. assert (S p = S q) as [=]; [|done]. by eapply (Hd (S p) (S q)). }
  rewrite items_cons. destruct x as [| |a]; try done. split; [|done].
  apply not_true_iff_false. intros E. unfold in_list in E. apply existsb_exists in E as (b & Hb & E).
  apply list_elem_of_In, list_elem_of_omap in Hb as ([| |c] & Hc & Eq); try done. injection Eq as ->.
  apply list_elem_of_lookup in Hc as (p & Ep). assert (S p = 0%nat); [|done]. by eapply Hd.
Qed.

(** Distinct keys in a list that is no longer are all its keys. *)
Lemma distinct_cover la : forall lb, distinct la -> (forall k, in_list la k = true -> in_list lb k = true) ->
  (length la <= length lb)%nat /\
  ((length lb <= length la)%nat -> forall k, in_list lb k = true -> in_list la k = true).
Proof.
  induction la as [|a la IH]; intros lb Hd Hsub.
  { split; [cbn; lia|]. destruct lb; [done|cbn; lia]. }
  destruct Hd as [Ha Hd]. assert (in_list lb a = true) as Hin.
  { apply Hsub. unfold in_list. cbn. by rewrite obj_equal_refl. }
  apply existsb_exists in Hin as (b & Hb & E). apply in_split in Hb as (l1 & l2 & ->).
  assert (forall k, in_list (l1 ++ b :: l2) k = in_list (l1 ++ l2) k || obj_equal a k) as Hmid.
  { intros k. rewrite !in_list_app. unfold in_list. cbn. rewrite (obj_equal_l b a k E).
    destruct (existsb _ l1), (obj_equal a k), (existsb _ l2); done. }
  destruct (IH (l1 ++ l2) Hd) as [Hlen Hcov].
  - intros k Hk. assert (in_list (l1 ++ b :: l2) k = true) as Hk'.
    { apply Hsub. unfold in_list in *. cbn. rewrite Hk. apply orb_true_r. }
    rewrite Hmid in Hk'. apply orb_prop in Hk' as [?|Eak]; [done|].
    by rewrite (in_list_equal la a k Eak), Hk in Ha.
  - rewrite length_app in *. cbn. split; [lia|]. intros L k Hk. rewrite Hmid in Hk. cbn.
    apply orb_prop in Hk as [Hk|Hk]; [|by rewrite Hk]. apply orb_true_iff. right. exact (Hcov ltac:(lia) k Hk).
Qed.

(** A set that is included in another and as large is equal to it. *)
Lemma subset_equal s t : set_ok s -> set_ok t ->
  (forall k, member s k = true -> member t k = true) ->
  set_used s <= set_used t /\ (set_used s = set_used t -> forall k, member s k = member t k).
Proof.
  intros Hs Ht Hsub.
  destruct (distinct_cover (set_items s) (set_items t) (items_distinct s Hs)) as [Hl Hc].
  { intros k. rewrite !in_items. apply Hsub. }
  rewrite !items_length in *. rewrite (set_count s Hs), (set_count t Ht). split; [lia|].
  intros E k. apply eq_true_iff_eq. split; [apply Hsub|]. rewrite <- !in_items. apply Hc. lia.
Qed.

Lemma used_equal s t : set_ok s -> set_ok t -> (forall k, member s k = member t k) -> set_used s = set_used t.
Proof.
  intros Hs Ht E. destruct (subset_equal s t Hs Ht); [intros k; by rewrite E|].
  destruct (subset_equal t s Ht Hs); [intros k; by rewrite E|]. lia.
Qed.

(** * Loops of lookups *)

Lemma add_all_cons s kind k items s' r : mp_set_lookup s k kind = Some (s', r) ->
  set_add_all s kind (k :: items) = set_add_all s' kind items.
Proof. intros E. unfold set_add_all. cbn. by rewrite E. Qed.

Definition fold_kind (kind : mp_map_lookup_kind) (k : K) (b : bool) (items : list K) : bool :=
  foldl (fun b a => if obj_equal a k then looked_up kind b else b) b items.

Lemma add_all_ok kind items : forall s, set_ok s ->
  exists s', set_add_all s kind items = Some s' /\ set_ok s' /\
    forall k, member s' k = fold_kind kind k (member s k) items.
Proof.
  induction items as [|a items IH]; intros s Hs; [by exists s|].
  destruct (set_lookup_ok s a kind Hs) as (s1 & r & E & Hr). rewrite (add_all_cons _ _ _ _ _ _ E).
  destruct (IH s1 (res_ok _ _ _ _ _ Hr)) as (s' & -> & Hs' & Hm). exists s'. split; [done|]. split; [done|].
  intros k. rewrite Hm, (res_member _ _ _ _ _ Hr). unfold fold_kind. cbn [foldl].
  destruct (obj_equal a k) eqn:E'; [|done]. by rewrite (member_proper s a k E').
Qed.

Lemma fold_add k b items : fold_kind MP_MAP_LOOKUP_ADD_IF_NOT_FOUND k b items = b || in_list items k.
Proof.
  revert b. unfold fold_kind, in_list. induction items as [|a items IH]; intros b; cbn; [by rewrite orb_false_r|].
  rewrite IH. by destruct (obj_equal a k), b.
Qed.

Lemma fold_remove k b items : fold_kind MP_MAP_LOOKUP_REMOVE_IF_FOUND k b items = b && negb (in_list items k).
Proof.
  revert b. unfold fold_kind, in_list. induction items as [|a items IH]; intros b; cbn; [by rewrite andb_true_r|].
  rewrite IH. by destruct (obj_equal a k), b, (existsb _ items).
Qed.

Lemma fold_skip kind k b items : in_list items k = false -> fold_kind kind k b items = b.
Proof.
  revert b. unfold fold_kind, in_list. induction items as [|a items IH]; intros b; cbn; [done|].
  intros [-> E]%orb_false_elim. by apply IH.
Qed.

Lemma fold_toggle k b items : distinct items ->
  fold_kind MP_MAP_LOOKUP_ADD_IF_NOT_FOUND_OR_REMOVE_IF_FOUND k b items = xorb b (in_list items k).
Proof.
  revert b. induction items as [|a items IH]; intros b; [by rewrite xorb_false_r|]. intros [Ha Hd].
  change (fold_kind _ k b (a :: items)) with
    (fold_kind MP_MAP_LOOKUP_ADD_IF_NOT_FOUND_OR_REMOVE_IF_FOUND k
      (if obj_equal a k then looked_up MP_MAP_LOOKUP_ADD_IF_NOT_FOUND_OR_REMOVE_IF_FOUND b else b) items).
  change (in_list (a :: items) k) with (obj_equal a k || in_list items k).
  destruct (obj_equal a k) eqn:E; [|by apply IH].
  rewrite (in_list_equal items a k E) in Ha. rewrite fold_skip by done. by destruct b.
Qed.

(** A member is found where it is. *)
Lemma set_lookup_present s p a k kind : set_ok s -> set_table s !! p = Some (KEY a) -> obj_equal a k = true ->
  mp_set_lookup s k kind = Some (if removes kind then set_remove_at s p else s, Some a).
Proof.
  intros Hs Ep E. assert (0 < length (set_table s))%nat as Hn by (apply lookup_lt_Some in Ep; lia).
  unfold mp_set_lookup, mp_set_lookup_with. unfold set_alloc at 1. rewrite (proj2 (Z.eqb_neq _ 0)) by lia.
  cbn [set_search]. pose proof (set_tbl s Hs) as Ht.
  destruct (search_total (set_table s) k (fun a => obj_equal a k) Ht Hn ltac:(done)) as (e & He & Hout).
  unfold home in He. unfold set_alloc. rewrite He. cbn [mbind option_bind].
  assert (forall Q : Prop, absent (set_table s) k -> Q) as Hno by (intros Q Hab; by rewrite (Hab p a Ep) in E).
  destruct e as [q|q avail|[q|]]; [|apply Hno, Hout..].
  destruct Hout as (b & Eq & Eb). assert (p = q) as <-.
  { eapply (tbl_distinct _ Ht); [done..|]. apply (obj_equal_trans a k b E). by apply obj_equal_sym. }
  rewrite Ep in Eq. injection Eq as <-. by rewrite Ep.
Qed.

(** Looking only changes nothing. *)
Lemma set_lookup_get s k : set_ok s ->
  exists r, mp_set_lookup s k MP_MAP_LOOKUP = Some (s, r) /\ (if r is Some _ then true else false) = member s k.
Proof.
  intros Hs. destruct (member s k) eqn:E.
  - apply member_true in E as (p & a & Ep & E). exists (Some a). split; [|done].
    by rewrite (set_lookup_present s p a k MP_MAP_LOOKUP Hs Ep E).
  - destruct (set_lookup_ok s k MP_MAP_LOOKUP Hs) as (s' & r & El & Hr). pose proof (res_elem _ _ _ _ _ Hr) as He.
    rewrite E in He. destruct r as [a|]; [by destruct He|]. exists None. split; [|done].
    unfold mp_set_lookup, mp_set_lookup_with in *. destruct (set_alloc s =? 0); [done|].
    cbn [set_search] in *. destruct (probe _ _ _ _ _ _) as [e|]; [|done]. cbn [mbind option_bind adds removes] in *.
    destruct e as [p|p av|av]; [|done..]. destruct (set_table s !! p) as [[]|]; done.
Qed.

Lemma issubset_loop_ok other items : set_ok other ->
  exists b, set_issubset_loop other items = Some b /\ (b = true <-> forall a, In a items -> member other a = true).
Proof.
  intros Ho. induction items as [|a items IH]; [by exists true|].
  destruct IH as (b & IH & Hb). cbn [set_issubset_loop].
  destruct (set_lookup_get other a Ho) as (r & -> & Er). cbn [mbind option_bind]. destruct r as [x|].
  - exists b. split; [done|]. rewrite Hb. split; [intros Hi c [<-|Hc]; [done|auto]|intros Hi c Hc; apply Hi; by right].
  - exists false. split; [done|]. split; [done|]. intros Hi. rewrite (Hi a) in Er by (by left). done.
Qed.

Lemma all_members s (P : K -> bool) : set_ok s -> (forall a b, obj_equal a b = true -> P a = P b) ->
  (forall a, In a (set_items s) -> P a = true) <-> (forall k, member s k = true -> P k = true).
Proof.
  intros Hs HP. split.
  - intros Hi k. rewrite <- in_items. unfold in_list. intros (a & Ha & E)%existsb_exists.
    rewrite <- (HP a k E). auto.
  - intros Hi a Ha. apply Hi. rewrite <- in_items. apply existsb_exists. exists a. split; [done|apply obj_equal_refl].
Qed.

Lemma issubset_ok s t : set_ok s -> set_ok t ->
  exists b, set_issubset_internal s t false = Some b /\
    (b = true <-> forall k, member s k = true -> member t k = true).
Proof.
  intros Hs Ht. unfold set_issubset_internal. cbn [andb].
  destruct (issubset_loop_ok t (set_items s) Ht) as (b & -> & Hb). exists b. split; [done|]. rewrite Hb.
  apply all_members; [done|]. intros; by apply member_proper.
Qed.

(** Inclusion, not equality. *)
Lemma issubset_proper_ok s t : set_ok s -> set_ok t ->
  exists b, set_issubset_internal s t true = Some b /\
    (b = true <-> (forall k, member s k = true -> member t k = true) /\ ~ forall k, member s k = member t k).
Proof.
  intros Hs Ht. destruct (issubset_ok s t Hs Ht) as (b & E & Hb). unfold set_issubset_internal in *. cbn [andb] in *.
  destruct (Z.eqb_spec (set_used s) (set_used t)) as [Eu|Eu].
  - exists false. split; [done|]. split; [done|]. intros [Hsub Hne]. destruct Hne.
    by apply (subset_equal s t Hs Ht Hsub).
  - exists b. split; [done|]. rewrite Hb. split; [|tauto]. intros Hsub. split; [done|]. intros Heq.
    by apply Eu, used_equal.
Qed.

Lemma equal_ok s t : set_ok s -> set_ok t ->
  exists b, (if negb (set_used s =? set_used t) then Some false else set_issubset_internal s t false) = Some b /\
    (b = true <-> forall k, member s k = member t k).
Proof.
  intros Hs Ht. destruct (issubset_ok s t Hs Ht) as (b & E & Hb).
  destruct (Z.eqb_spec (set_used s) (set_used t)) as [Eu|Eu]; cbn [negb].
  - exists b. split; [done|]. rewrite Hb. split; [intros Hsub; by apply (subset_equal s t Hs Ht Hsub)|].
    intros Heq k. by rewrite Heq.
  - exists false. split; [done|]. split; [done|]. intros Heq. by destruct Eu; apply used_equal.
Qed.

Lemma intersect_loop_ok self items : set_ok self -> forall out, set_ok out ->
  exists s', set_intersect_loop self out items = Some s' /\ set_ok s' /\
    forall k, member s' k = member out k || (member self k && in_list items k).
Proof.
  intros Hs. induction items as [|a items IH]; intros out Ho.
  { exists out. split_and!; try done. intros k. by rewrite andb_false_r, orb_false_r. }
  cbn [set_intersect_loop]. destruct (set_lookup_get self a Hs) as (r & -> & Er). cbn [mbind option_bind].
  assert (forall out1, set_ok out1 -> (forall k, member out1 k = member out k || (member self k && obj_equal a k)) ->
    exists s', set_intersect_loop self out1 items = Some s' /\ set_ok s' /\
      forall k, member s' k = member out k || (member self k && in_list (a :: items) k)) as Hnext.
  { intros out1 Ho1 Hm1. destruct (IH out1 Ho1) as (s' & -> & Hs' & Hm). exists s'. split_and!; try done.
    intros k. rewrite Hm, Hm1. change (in_list (a :: items) k) with (obj_equal a k || in_list items k).
    by destruct (member out k), (member self k), (obj_equal a k), (in_list items k). }
  destruct r as [x|].
  - destruct (set_lookup_ok out a MP_MAP_LOOKUP_ADD_IF_NOT_FOUND Ho) as (o1 & r & -> & Hr). cbn [mbind option_bind].
    apply Hnext; [by destruct Hr|]. intros k. rewrite (res_member _ _ _ _ _ Hr).
    destruct (obj_equal a k) eqn:E; [|by rewrite andb_false_r, orb_false_r].
    rewrite <- (member_proper self a k E), <- Er. unfold looked_up. cbn. rewrite orb_true_r. by destruct (member out a).
  - cbn [mbind option_bind]. apply Hnext; [done|]. intros k. destruct (obj_equal a k) eqn:E.
    + rewrite <- (member_proper self a k E), <- Er. cbn. by rewrite orb_false_r.
    + by rewrite andb_false_r, orb_false_r.
Qed.

(** ** Toggling a set with itself *)

Lemma it_scan_spec t i : match set_it_scan t i with
  | Some (k, i') => exists j, i' = S (i + j) /\ t !! j = Some (KEY k) /\
      forall j' a, (j' < j)%nat -> t !! j' <> Some (KEY a)
  | None => forall j a, t !! j <> Some (KEY (K := K) a)
  end.
Proof.
  revert i. induction t as [|x t IH]; intros i; [done|]. cbn [set_it_scan]. specialize (IH (S i)).
  assert (forall a, x <> KEY a -> match set_it_scan t (S i) with
    | Some (k, i') => exists j, i' = S (i + j) /\ (x :: t) !! j = Some (KEY k) /\
        ((forall a, x <> KEY a) -> forall j' a, (j' < j)%nat -> (x :: t) !! j' <> Some (KEY a))
    | None => (forall a, x <> KEY a) -> forall j a, (x :: t) !! j <> Some (KEY a)
    end) as Hskip.
  { intros _ _. destruct (set_it_scan t (S i)) as [[k i']|].
    - destruct IH as (j & -> & Ej & Hb). exists (S j). split; [lia|]. split; [done|].
      intros Hx [|j'] a L; [intros [= E]; by apply (Hx a)|]. apply Hb. lia.
    - intros Hx [|j] a; [intros [= E]; by apply (Hx a)|apply IH]. }
  destruct x as [| |a].
  3: { exists 0%nat. rewrite Nat.add_0_r. split_and!; try done. intros j' b L. lia. }
  all: clear IH; destruct (set_it_scan t (S i)) as [[k i']|].
  1,3: (destruct (Hskip k ltac:(done)) as (j & -> & Ej & Hb); exists j; split_and!; try done; by apply Hb).
  all: intros j a; by apply (Hskip a).
Qed.

Lemma toggle_self_ok fuel : forall s cur, set_ok s -> (length (set_table s) < fuel + cur)%nat ->
  (cur <= length (set_table s))%nat ->
  (forall p a, (p < cur)%nat -> set_table s !! p <> Some (KEY a)) ->
  exists s', set_toggle_self fuel s cur = Some s' /\ set_ok s' /\ forall k, member s' k = false.
Proof.
  induction fuel as [|fuel IH]; intros s cur Hs Hf Hc Hlow; [lia|]. cbn [set_toggle_self].
  unfold set_it_iternext. pose proof (it_scan_spec (drop cur (set_table s)) cur) as Hi.
  destruct (set_it_scan _ cur) as [[k i']|].
  - destruct Hi as (j & -> & Ej & Hb). rewrite lookup_drop in Ej.
    rewrite (set_lookup_present s _ k k _ Hs Ej (obj_equal_refl k)). cbn [mbind option_bind removes].
    pose proof (lookup_lt_Some _ _ _ Ej).
    assert (length (set_table (set_remove_at s (cur + j))) = length (set_table s)) as El by apply length_insert.
    apply IH; rewrite ?El; [by apply (set_ok_remove s _ k)|lia|lia|].
    intros p a L E. cbn [set_remove_at set_table] in E. apply insert_lookup in E as [[_ E]|[Hne E]].
    + pose proof (deleted_free (set_table s) (cur + j)) as Hd. by rewrite <- E in Hd.
    + destruct (Nat.lt_ge_cases p cur) as [Lp|Lp]; [by apply (Hlow p a)|].
      apply (Hb (p - cur)%nat a); [lia|]. rewrite lookup_drop. by replace (cur + (p - cur))%nat with p by lia.
  - exists s. split_and!; try done. intros k. apply member_false. intros p a E. exfalso.
    destruct (Nat.lt_ge_cases p cur) as [Lp|Lp]; [by apply (Hlow p a)|].
    apply (Hi (p - cur)%nat a). rewrite lookup_drop. by replace (cur + (p - cur))%nat with p by lia.
Qed.

(** * Set objects *)

Implicit Types o lhs self : mp_obj_set (K := K).

Definition rhs_set lhs (rhs : set_arg) : option mp_set :=
  match rhs with SameSet => Some (set lhs) | OtherSet o => Some (set o) | Iterable _ => None end.

(** The operation on sets an operator stands for. *)
Definition algebra (op : set_op) : option (bool -> bool -> bool) :=
  match op with
  | MP_BINARY_OP_OR | MP_BINARY_OP_INPLACE_OR => Some orb
  | MP_BINARY_OP_XOR | MP_BINARY_OP_INPLACE_XOR => Some xorb
  | MP_BINARY_OP_AND | MP_BINARY_OP_INPLACE_AND => Some andb
  | MP_BINARY_OP_SUBTRACT | MP_BINARY_OP_INPLACE_SUBTRACT => Some (fun a b => a && negb b)
  | _ => None
  end.

Definition in_place (op : set_op) : bool :=
  match op with
  | MP_BINARY_OP_INPLACE_OR | MP_BINARY_OP_INPLACE_XOR | MP_BINARY_OP_INPLACE_AND
  | MP_BINARY_OP_INPLACE_SUBTRACT => true
  | _ => false
  end.

(** The relation between sets an operator decides. *)
Definition relation_of (op : set_op) (f g : K -> bool) : option Prop :=
  let incl f g := forall k : K, f k = true -> g k = true in
  let same f g := forall k : K, f k = g k :> bool in
  match op with
  | MP_BINARY_OP_LESS => Some (incl f g /\ ~ same f g)
  | MP_BINARY_OP_MORE => Some (incl g f /\ ~ same g f)
  | MP_BINARY_OP_EQUAL => Some (same f g)
  | MP_BINARY_OP_LESS_EQUAL => Some (incl f g)
  | MP_BINARY_OP_MORE_EQUAL => Some (incl g f)
  | _ => None
  end.

Lemma rhs_items lhs rhs r : rhs_set lhs rhs = Some r ->
  arg_items lhs rhs = set_items r /\ (forall k, in_list (arg_items lhs rhs) k = member r k) /\
  arg_set lhs rhs = Some r.
Proof. destruct rhs as [|o|]; intros [= <-]; (split; [done|]; split; [apply in_items|done]). Qed.

Lemma rhs_detach lhs rhs r : rhs_set lhs rhs = Some r ->
  rhs_set (set_copy lhs) (match rhs with SameSet => OtherSet lhs | _ => rhs end) = Some r.
Proof. by destruct rhs. Qed.

Lemma set_of_copy lhs : set (set_copy lhs) = set lhs.
Proof. by destruct lhs as [f []]. Qed.

Lemma update_int_ok lhs rhs r : set_ok (set lhs) -> rhs_set lhs rhs = Some r ->
  exists o, set_update_int lhs rhs = Some o /\ set_ok (set o) /\ is_frozen o = is_frozen lhs /\
    forall k, member (set o) k = member (set lhs) k || member r k.
Proof.
  intros Hl Hr. unfold set_update_int.
  destruct (add_all_ok MP_MAP_LOOKUP_ADD_IF_NOT_FOUND (arg_items lhs rhs) (set lhs) Hl) as (s & -> & Hs & Hm).
  eexists. split; [done|]. split; [done|]. split; [done|]. intros k. cbn. rewrite Hm, fold_add.
  by destruct (rhs_items lhs rhs r Hr) as (_ & -> & _).
Qed.

Lemma diff_ok lhs rhs r upd : set_ok (set lhs) -> rhs_set lhs rhs = Some r -> upd && is_frozen lhs = false ->
  exists o, set_diff_int lhs [rhs] upd = Some (inr o) /\ set_ok (set o) /\ is_frozen o = is_frozen lhs /\
    forall k, member (set o) k = member (set lhs) k && negb (member r k).
Proof.
  intros Hl Hr Hu. unfold set_diff_int. rewrite Hu. cbn [set_diff_loop].
  assert (exists s, match rhs, upd with
      | SameSet, true => Some (mp_set_clear (set (if upd then lhs else set_copy lhs)))
      | _, _ => set_add_all (set (if upd then lhs else set_copy lhs)) MP_MAP_LOOKUP_REMOVE_IF_FOUND (arg_items lhs rhs)
      end = Some s /\ set_ok s /\ forall k, member s k = member (set lhs) k && negb (member r k)) as (s & E & Hs & Hm).
  { assert (set (if upd then lhs else set_copy lhs) = set lhs) as -> by (destruct upd; [done|apply set_of_copy]).
    destruct (add_all_ok MP_MAP_LOOKUP_REMOVE_IF_FOUND (arg_items lhs rhs) (set lhs) Hl) as (s & E & Hs & Hm).
    assert (forall k, member s k = member (set lhs) k && negb (member r k)) as Hm'.
    { intros k. rewrite Hm, fold_remove. by destruct (rhs_items lhs rhs r Hr) as (_ & -> & _). }
    destruct rhs as [|o|]; [|by exists s..]. destruct upd; [|by exists s].
    exists (mp_set_clear (set lhs)). split; [done|]. injection Hr as <-. split; [by apply (set_ok_init 0)|].
    intros k. by rewrite andb_negb_r. }
  rewrite E. eexists. split; [done|]. split; [done|]. split; [by destruct upd|done].
Qed.

Lemma intersect_ok lhs rhs r upd : set_ok (set lhs) -> rhs_set lhs rhs = Some r -> upd && is_frozen lhs = false ->
  exists o, set_intersect_int lhs rhs upd = Some (inr o) /\ set_ok (set o) /\
    forall k, member (set o) k = member (set lhs) k && member r k.
Proof.
  intros Hl Hr Hu. unfold set_intersect_int. rewrite Hu.
  destruct (set_ok_init 0) as [H0' Hno].
  destruct (intersect_loop_ok (set lhs) (arg_items lhs rhs) Hl (mp_set_init 0) H0') as (s & E & Hs & Hm).
  assert (forall k, member s k = member (set lhs) k && member r k) as Hm'.
  { intros k. rewrite Hm, Hno. by destruct (rhs_items lhs rhs r Hr) as (_ & -> & _). }
  destruct rhs as [|o|]; try done.
  - injection Hr as <-. eexists. split; [done|].
    assert (set (if upd then lhs else set_copy lhs) = set lhs) as -> by (destruct upd; [done|apply set_of_copy]).
    split; [done|]. intros k. by rewrite andb_diag.
  - unfold mp_obj_new_set, set_add_all. cbn [foldl length mbind option_bind]. rewrite E. eexists. split; [done|].
    by destruct upd.
Qed.

Lemma sym_diff_ok lhs rhs r : set_ok (set lhs) -> rhs_set lhs rhs = Some r -> set_ok r ->
  exists o, set_symmetric_difference_update lhs rhs = Some o /\ set_ok (set o) /\
    forall k, member (set o) k = xorb (member (set lhs) k) (member r k).
Proof.
  intros Hl Hr Hro. unfold set_symmetric_difference_update.
  destruct (add_all_ok MP_MAP_LOOKUP_ADD_IF_NOT_FOUND_OR_REMOVE_IF_FOUND (arg_items lhs rhs) (set lhs) Hl) as (s & E & Hs & Hm).
  assert (forall k, member s k = xorb (member (set lhs) k) (member r k)) as Hm'.
  { intros k. destruct (rhs_items lhs rhs r Hr) as (Ei & Em & _). rewrite Hm, fold_toggle, Em; [done|].
    rewrite Ei. by apply items_distinct. }
  destruct rhs as [|o|]; try done.
  - injection Hr as <-.
    destruct (toggle_self_ok (S (length (set_table (set lhs)))) (set lhs) 0 Hl ltac:(lia) ltac:(lia)) as (s' & -> & Hs' & Hno).
    { intros p a L. lia. }
    eexists. split; [done|]. split; [done|]. intros k. cbn. by rewrite Hno, xorb_nilpotent.
  - rewrite E. by eexists.
Qed.

(** C15: [set_binary_op]: the operators [|], [^], [&] and [-] on two sets, and
    their in-place forms, give a well-formed set whose members are the union,
    symmetric difference, intersection and difference, also when both operands
    are one object; only the in-place forms on a set that is not frozen return
    the left operand itself. *)
Theorem set_algebra_spec op f lhs rhs r :
  set_ok (set lhs) -> rhs_set lhs rhs = Some r -> set_ok r -> algebra op = Some f ->
  exists o, set_binary_op op lhs rhs = Some (inr (if in_place op && negb (is_frozen lhs) then RLhs o else RNew o)) /\
    set_ok (set o) /\ forall k, member (set o) k = f (member (set lhs) k) (member r k).
Proof.
  intros Hl Hr Hro Hf.
  assert (exists o, set_union lhs rhs = Some o /\ set_ok (set o) /\
    forall k, member (set o) k = member (set lhs) k || member r k) as (u & Eu & Hu).
  { destruct (update_int_ok (set_copy lhs) _ r ltac:(by rewrite set_of_copy) (rhs_detach lhs rhs r Hr)) as (u & E & Hu & _ & Hm).
    rewrite set_of_copy in Hm. by exists u. }
  assert (exists o, set_symmetric_difference lhs rhs = Some o /\ set_ok (set o) /\
    forall k, member (set o) k = xorb (member (set lhs) k) (member r k)) as (x & Ex & Hx).
  { destruct (sym_diff_ok (set_copy lhs) _ r ltac:(by rewrite set_of_copy) (rhs_detach lhs rhs r Hr) Hro) as (u' & E & Hu' & Hm).
    rewrite set_of_copy in Hm. by exists u'. }
  destruct (intersect_ok lhs rhs r false Hl Hr eq_refl) as (a & Ea & Ha).
  destruct (diff_ok lhs rhs r false Hl Hr eq_refl) as (d & Ed & Hd1 & _ & Hd2).
  unfold set_binary_op. destruct rhs as [|b|]; [| |done].
  all: destruct op; try done; injection Hf as <-; cbn [in_place andb].
  all: rewrite ?Eu, ?Ex, ?Ea, ?Ed; try by eexists.
  all: destruct (is_frozen lhs) eqn:Ef; cbn [negb]; rewrite ?Eu, ?Ex, ?Ea, ?Ed; try by eexists.
  all: try (destruct (intersect_ok lhs _ r true Hl Hr ltac:(by rewrite Ef)) as (a' & -> & ?); by eexists).
  all: try (destruct (diff_ok lhs _ r true Hl Hr ltac:(by rewrite Ef)) as (d' & -> & ? & _ & ?); by eexists).
  all: try (destruct (sym_diff_ok lhs _ r Hl Hr Hro) as (x' & -> & ?); by eexists).
  all: destruct (update_int_ok lhs _ r Hl Hr) as (u' & E' & Hu' & _ & Hm'); unfold set_update; rewrite Ef;
    cbn [set_update_loop]; rewrite E'; by eexists.
Qed.

(** [set_binary_op]: [==], [<=], [>=], [<] and [>] on two sets decide
    equality, inclusion and proper inclusion of their members. *)
Theorem set_compare_spec op lhs rhs r P :
  set_ok (set lhs) -> rhs_set lhs rhs = Some r -> set_ok r ->
  relation_of op (member (set lhs)) (member r) = Some P ->
  exists b, set_binary_op op lhs rhs = Some (inr (RBool b)) /\ (b = true <-> P).
Proof.
  intros Hl Hr Hro HP. destruct (rhs_items lhs rhs r Hr) as (_ & _ & Ea).
  assert (forall x y : option bool, (exists b, x = Some b /\ (b = true <-> P)) -> y = x ->
    exists b, (b ← y; Some (inr (RBool b))) = Some (inr (RBool b) : exn + set_result (K := K)) /\ (b = true <-> P)) as Hret.
  { intros x y (b & -> & Hb) ->. by exists b. }
  unfold set_binary_op. destruct rhs as [|o|]; [| |done].
  all: destruct op; try done; cbn in HP; injection HP as <-; eapply Hret.
  all: unfold set_issubset, set_issuperset, set_issubset_proper, set_issuperset_proper, set_equal; rewrite ?Ea.
  all: try (apply issubset_proper_ok; [exact Hl|exact Hro]); try (apply issubset_proper_ok; [exact Hro|exact Hl]).
  all: try (apply issubset_ok; [exact Hl|exact Hro]); try (apply issubset_ok; [exact Hro|exact Hl]).
  all: try done.
  all: cbn [mbind option_bind]; unfold set_issubset; rewrite Ea; cbn [mbind option_bind].
  all: by apply equal_ok.
Qed.
End set.

(** * Sets of words *)

Definition word_set (frozen : bool) (items : list word) : mp_obj_set :=
  {| is_frozen := frozen; set := default (mp_set_init 0) (mp_obj_new_set items) |}.

Lemma word_set_ok frozen items : set_ok (set (word_set frozen items)).
Proof.
  unfold word_set, mp_obj_new_set. cbn [set].
  destruct (add_all_ok MP_MAP_LOOKUP_ADD_IF_NOT_FOUND items (mp_set_init (length items))) as (s & -> & Hs & _);
    [apply set_ok_init|done].
Qed.

Definition left_set : mp_obj_set := word_set false [Interned 1; Int 5; Plain 9 1; Int 12].
Definition right_set : mp_obj_set := word_set true [Int 5; Interned 9; Int 30].

Lemma set_algebra_spec_witness :
  exists o, set_binary_op MP_BINARY_OP_INPLACE_XOR left_set (OtherSet right_set) = Some (inr (RLhs o)) /\
    set_ok (set o) /\ forall k, member (set o) k = xorb (member (set left_set) k) (member (set right_set) k).
Proof.
  apply (set_algebra_spec MP_BINARY_OP_INPLACE_XOR xorb left_set (OtherSet right_set) (set right_set));
    [apply word_set_ok|done|apply word_set_ok|done].
Defined.

Lemma set_compare_spec_witness :
  exists b, set_binary_op MP_BINARY_OP_EQUAL left_set (OtherSet right_set) = Some (inr (RBool b)) /\
    (b = true <-> forall k, member (set left_set) k = member (set right_set) k).
Proof.
  apply (set_compare_spec MP_BINARY_OP_EQUAL left_set (OtherSet right_set) (set right_set));
    [apply word_set_ok|done|apply word_set_ok|done].
Defined.

(** [set.symmetric_difference_update] of an iterable with a repeated item
    toggles the item twice: [{1}.symmetric_difference([2, 2])] is [{1}]. *)
Example sym_diff_repeated :
  match set_symmetric_difference (word_set false [Int 1]) (Iterable [Int 2; Int 2]) with
  | Some o => map (member (set o)) [Int 1; Int 2] = [true; false]
  | None => False
  end.
Proof. reflexivity. Qed.

(** The intersection of frozen sets is not frozen. *)
Example frozen_intersection :
  match set_binary_op MP_BINARY_OP_AND (word_set true [Int 1]) (OtherSet (word_set true [Int 1])) with
  | Some (inr (RNew o)) => is_frozen o = false
  | _ => False
  end.
Proof. reflexivity. Qed.
