(* ===== verification/Lists.v ===== *)
(** Lists: [py/objlist.c], with the helpers of sequences [py/sequence.c], the
    slices [py/objslice.c] and the index conversion of [py/obj.c].

    A list is the structure of [py/objlist.h]: the number of slots allocated,
    the number in use and the block of slots.  An operation returns [None] when
    the code reads or writes outside a block, reads a slot without an object or
    overflows a signed integer; otherwise the list it leaves, and an exception
    or a result.  [mok] says whether an allocation of so many bytes succeeds;
    objects are compared by functions given as parameters. *)

From Stdlib Require Import ZArith Lia.
From stdpp Require Import base option list numbers.
From S2P Require Import Prelude.

(** * Definitions *)

(** A slot of a block: indeterminate, [MP_OBJ_NULL] or an object. *)
Inductive slot (obj : Type) := JUNK | NULLP | OBJ (o : obj).
Arguments JUNK {obj}.
Arguments NULLP {obj}.
Arguments OBJ {obj} o.

Inductive exn := TypeError | IndexError | ValueError | OverflowError | NotImplementedError | MemoryError.

Record mp_obj_list_t (obj : Type) := {
  alloc : Z;
  len : Z;
  items : list (slot obj);
}.
Arguments alloc {obj}.
Arguments len {obj}.
Arguments items {obj}.
Arguments Build_mp_obj_list_t {obj}.

Definition LIST_MIN_ALLOC : Z := 4.

(** ** Integer arguments *)

(** An argument that is an integer (a boolean, a small or a big integer), or
    not. *)
Inductive int_arg := IntArg (i : Z) | NotInt.

Definition fits_mp_int (i : Z) : bool := (- 2 ^ 31 <=? i) && (i <? 2 ^ 31).

(** What [mp_obj_int_get_checked] converts: [mpz_as_int_checked] refuses
    [- 2 ^ 31]. *)
Definition int_checked (i : Z) : bool := Z.abs i <? 2 ^ 31.

(** The integer, if it is one. *)
Definition mp_obj_get_int_maybe (arg : int_arg) : exn + option Z :=
  match arg with
  | IntArg i => if int_checked i then inr (Some i) else inl OverflowError
  | NotInt => inr None
  end.

Definition mp_obj_get_int (arg : int_arg) : exn + Z :=
  match mp_obj_get_int_maybe arg with
  | inl e => inl e
  | inr None => inl TypeError
  | inr (Some i) => inr i
  end.

Definition mp_get_index (len : Z) (index : int_arg) (is_slice : bool) : exn + Z :=
  match mp_obj_get_int index with
  | inl e => inl e
  | inr i =>
      let i := if i <? 0 then i + len else i in
      if is_slice then inr (if i <? 0 then 0 else if len <? i then len else i)
      else if (i <? 0) || (len <=? i) then inl IndexError else inr i
  end.

(** ** Slices *)

(** [None] is Python's [None]. *)
Record mp_obj_slice_t := { slice_start : option int_arg; slice_stop : option int_arg; slice_step : option int_arg }.

Record mp_bound_slice_t := { start : Z; stop : Z; step : Z }.

(** A bound given by the program, clamped to [lo..hi]. *)
Definition slice_bound (o : option int_arg) (length dflt lo hi : Z) : exn + Z :=
  match o with
  | None => inr dflt
  | Some a =>
      match mp_obj_get_int a with
      | inl e => inl e
      | inr i => inr (Z.min hi (Z.max (if i <? 0 then i + length else i) lo))
      end
  end.

Definition mp_obj_slice_indices (self : mp_obj_slice_t) (length : Z) : exn + mp_bound_slice_t :=
  match match slice_step self with None => inr 1 | Some a => mp_obj_get_int a end with
  | inl e => inl e
  | inr step =>
      if step =? 0 then inl ValueError else
      let '(lo, hi) := if step >? 0 then (0, length) else (-1, length - 1) in
      match slice_bound (slice_start self) length (if step >? 0 then 0 else length - 1) lo hi with
      | inl e => inl e
      | inr start =>
          match slice_bound (slice_stop self) length (if step >? 0 then length else -1) lo hi with
          | inl e => inl e
          | inr stop => inr {| start := start; stop := stop; step := step |}
          end
      end
  end.

Definition mp_seq_get_fast_slice_indexes (len : Z) (slice : mp_obj_slice_t) : exn + bool * mp_bound_slice_t :=
  match mp_obj_slice_indices slice len with
  | inl e => inl e
  | inr ix =>
      let stop' := if step ix <? 0 then stop ix + 1 else stop ix in
      let stop' := if (step ix >? 0) && (start ix >? stop') then start ix
                   else if (step ix <? 0) && (start ix <? stop') then start ix + 1 else stop' in
      inr (step ix =? 1, {| start := start ix; stop := stop'; step := step ix |})
  end.

(** ** Blocks of slots *)

Definition zlen {A} (b : list A) : Z := Z.of_nat (length b).

Definition rd {A} (b : list A) (pos n : Z) : option (list A) :=
  if (0 <=? n) && (0 <=? pos) && (pos + n <=? zlen b)
  then Some (take (Z.to_nat n) (drop (Z.to_nat pos) b)) else None.

Definition wr {A} (b : list A) (pos : Z) (s : list A) : option (list A) :=
  if (0 <=? pos) && (pos + zlen s <=? zlen b)
  then Some (take (Z.to_nat pos) b ++ s ++ drop (Z.to_nat (pos + zlen s)) b) else None.

Definition mv {A} (b : list A) (dst src n : Z) : option (list A) := s ← rd b src n; wr b dst s.

Section list.
Context {obj : Type} (mok : Z -> bool).

Abbreviation slot := (slot obj).
Abbreviation mp_obj_list_t := (mp_obj_list_t obj).

(** A slot and the object in it. *)
Definition slot_at (b : list slot) (i : Z) : option slot := if i <? 0 then None else b !! Z.to_nat i.

Definition obj_of (s : slot) : option obj := match s with OBJ o => Some o | _ => None end.

Definition obj_at (b : list slot) (i : Z) : option obj := s ← slot_at b i; obj_of s.

Definition put (b : list slot) (i : Z) (s : slot) : option (list slot) := wr b i [s].

Definition mp_seq_clear (b : list slot) (len alloc_len : Z) : option (list slot) :=
  if alloc_len <? len then None else wr b len (replicate (Z.to_nat (alloc_len - len)) NULLP).

(** [m_new(mp_obj_t, n)], [m_renew(mp_obj_t, b, _, n)]: the size in bytes is
    computed in 32 bits; the collector has blocks of 16 bytes, and needs no
    other memory when their number does not grow. *)
Definition m_new (n : Z) : exn + list slot :=
  let sz := wrapu 32 (4 * n) in
  if (sz =? 0) || mok sz then inr (replicate (Z.to_nat (sz / 4)) JUNK) else inl MemoryError.

Definition m_renew (b : list slot) (n : Z) : exn + list slot :=
  let sz := wrapu 32 (4 * n) in
  if ((sz + 15) / 16 <=? (4 * zlen b + 15) / 16) || mok sz
  then inr (take (Z.to_nat (sz / 4)) b ++ replicate (Z.to_nat (sz / 4) - length b) JUNK) else inl MemoryError.

(** ** Making lists *)

Definition mp_obj_list_init (n : Z) : option (exn + mp_obj_list_t) :=
  let n' := if n <? LIST_MIN_ALLOC then LIST_MIN_ALLOC else n in
  match m_new n' with
  | inl e => Some (inl e)
  | inr b => b ← mp_seq_clear b n n'; Some (inr {| alloc := n'; len := n; items := b |})
  end.

Definition list_new (n : Z) : option (exn + mp_obj_list_t) := mp_obj_list_init n.

(** A new list whose slots in use are then written by [fill]. *)
Definition list_new_fill (n : Z) (fill : list slot -> option (list slot)) : option (exn + mp_obj_list_t) :=
  r ← list_new n;
  match r with
  | inl e => Some (inl e)
  | inr o => b ← fill (items o); Some (inr {| alloc := alloc o; len := len o; items := b |})
  end.

Definition mp_obj_new_list (src : list slot) : option (exn + mp_obj_list_t) :=
  list_new_fill (zlen src) (fun b => wr b 0 src).

(** ** Adding and removing *)

Definition mp_obj_list_append (self : mp_obj_list_t) (arg : obj) : option (mp_obj_list_t * (exn + unit)) :=
  if len self <? alloc self then
    b ← put (items self) (len self) (OBJ arg);
    Some ({| alloc := alloc self; len := len self + 1; items := b |}, inr tt)
  else
    match m_renew (items self) (wrapu 32 (alloc self * 2)) with
    | inl e => Some (self, inl e)
    | inr b =>
        let alloc := wrapu 32 (alloc self * 2) in
        b ← mp_seq_clear b (len self + 1) alloc;
        b ← put b (len self) (OBJ arg);
        Some ({| alloc := alloc; len := len self + 1; items := b |}, inr tt)
    end.

(** [arg] gives the items of the iterator. *)
Fixpoint list_extend_from_iter (self : mp_obj_list_t) (arg : list obj) : option (mp_obj_list_t * (exn + unit)) :=
  match arg with
  | [] => Some (self, inr tt)
  | item :: arg =>
      '(self, r) ← mp_obj_list_append self item;
      match r with
      | inl e => Some (self, inl e)
      | inr _ => list_extend_from_iter self arg
      end
  end.

(** The argument of [extend]: the list itself, another list, or an iterable. *)
Inductive extend_arg := SameList | OtherList (p : mp_obj_list_t) | Iterable (arg : list obj).

Definition list_extend (self : mp_obj_list_t) (arg : extend_arg) : option (mp_obj_list_t * (exn + unit)) :=
  let extend (arg_len : Z) (arg_items : list slot -> list slot) :=
    match
      if alloc self <? len self + arg_len then
        match m_renew (items self) (len self + arg_len + 4) with
        | inl e => Some (inl e)
        | inr b =>
            let alloc := len self + arg_len + 4 in
            b ← mp_seq_clear b (len self + arg_len) alloc; Some (inr (alloc, b))
        end
      else Some (inr (alloc self, items self))
    with
    | None => None
    | Some (inl e) => Some (self, inl e)
    | Some (inr (alloc, b)) =>
        s ← rd (arg_items b) 0 arg_len;
        b ← wr b (len self) s;
        Some ({| alloc := alloc; len := len self + arg_len; items := b |}, inr tt)
    end in
  match arg with
  | SameList => extend (len self) (fun b => b)
  | OtherList p => extend (len p) (fun _ => items p)
  | Iterable arg => list_extend_from_iter self arg
  end.

Definition list_pop (self : mp_obj_list_t) (index : option int_arg) : option (mp_obj_list_t * (exn + obj)) :=
  if len self =? 0 then Some (self, inl IndexError) else
  match mp_get_index (len self) (default (IntArg (-1)) index) false with
  | inl e => Some (self, inl e)
  | inr index =>
      ret ← obj_at (items self) index;
      let len := len self - 1 in
      b ← mv (items self) index (index + 1) (len - index);
      b ← put b len NULLP;
      if (alloc self >? LIST_MIN_ALLOC) && (alloc self >? 2 * len) then
        match m_renew b (alloc self / 2) with
        | inl e => Some ({| alloc := alloc self; len := len; items := b |}, inl e)
        | inr b => Some ({| alloc := alloc self / 2; len := len; items := b |}, inr ret)
        end
      else Some ({| alloc := alloc self; len := len; items := b |}, inr ret)
  end.

Definition list_clear (self : mp_obj_list_t) : option (mp_obj_list_t * (exn + unit)) :=
  match m_renew (items self) LIST_MIN_ALLOC with
  | inl e => Some ({| alloc := alloc self; len := 0; items := items self |}, inl e)
  | inr b => b ← mp_seq_clear b 0 LIST_MIN_ALLOC;
             Some ({| alloc := LIST_MIN_ALLOC; len := 0; items := b |}, inr tt)
  end.

Definition list_copy (self : mp_obj_list_t) : option (exn + mp_obj_list_t) :=
  src ← rd (items self) 0 (len self); mp_obj_new_list src.

(** The items from [i] down to above [index] move up. *)
Fixpoint shift_up (n : nat) (b : list slot) (i : Z) : option (list slot) :=
  match n with
  | O => Some b
  | S n => s ← slot_at b (i - 1); b ← put b i s; shift_up n b (i - 1)
  end.

(** [MP_OBJ_SMALL_INT_VALUE], of any object word. *)
Definition MP_OBJ_SMALL_INT_VALUE (word : Z) : Z := Z.shiftr (wraps 32 word) 1.

(** [idx] is the object word of the index, [none] is [mp_const_none]. *)
Definition list_insert (none : obj) (self : mp_obj_list_t) (idx : Z) (o : obj) : option (mp_obj_list_t * (exn + unit)) :=
  let index := MP_OBJ_SMALL_INT_VALUE idx in
  let index := if index <? 0 then index + len self else index in
  let index := if index <? 0 then 0 else index in
  let index := if len self <? index then len self else index in
  '(self, r) ← mp_obj_list_append self none;
  match r with
  | inl e => Some (self, inl e)
  | inr _ =>
      b ← shift_up (Z.to_nat (len self - 1 - index)) (items self) (len self - 1);
      b ← put b index (OBJ o);
      Some ({| alloc := alloc self; len := len self; items := b |}, inr tt)
  end.

Fixpoint reverse_loop (n : nat) (b : list slot) (len i : Z) : option (list slot) :=
  match n with
  | O => Some b
  | S n =>
      a ← slot_at b i;
      z ← slot_at b (len - i - 1);
      b ← put b i z;
      b ← put b (len - i - 1) a;
      reverse_loop n b len (i + 1)
  end.

Definition list_reverse (self : mp_obj_list_t) : option mp_obj_list_t :=
  b ← reverse_loop (Z.to_nat (len self / 2)) (items self) (len self) 0;
  Some {| alloc := alloc self; len := len self; items := b |}.

(** ** Searching and comparing *)

Section equal.
Context (mp_obj_equal : obj -> obj -> bool).

(** [n] items are left. *)
Fixpoint index_loop (n : nat) (b : list slot) (i : Z) (value : obj) : option (exn + Z) :=
  match n with
  | O => Some (inl ValueError)
  | S n => o ← obj_at b i; if mp_obj_equal o value then Some (inr i) else index_loop n b (i + 1) value
  end.

Definition mp_seq_index_obj (b : list slot) (len : Z) (value : obj) (start stop : option int_arg) : option (exn + Z) :=
  match match start with None => inr 0 | Some a => mp_get_index len a true end with
  | inl e => Some (inl e)
  | inr start =>
      match match stop with None => inr len | Some a => mp_get_index len a true end with
      | inl e => Some (inl e)
      | inr stop => index_loop (Z.to_nat (stop - start)) b start value
      end
  end.

Definition list_index (self : mp_obj_list_t) (value : obj) (start stop : option int_arg) : option (exn + Z) :=
  mp_seq_index_obj (items self) (len self) value start stop.

Definition mp_obj_list_remove (self : mp_obj_list_t) (value : obj) : option (mp_obj_list_t * (exn + unit)) :=
  r ← list_index self value None None;
  match r with
  | inl e => Some (self, inl e)
  | inr i =>
      '(self, r) ← list_pop self (Some (IntArg i));
      Some (self, match r with inl e => inl e | inr _ => inr tt end)
  end.

Fixpoint count_loop (n : nat) (b : list slot) (i : Z) (value : obj) (count : Z) : option Z :=
  match n with
  | O => Some count
  | S n => o ← obj_at b i; count_loop n b (i + 1) value (if mp_obj_equal o value then count + 1 else count)
  end.

Definition mp_seq_count_obj (b : list slot) (len : Z) (value : obj) : option Z :=
  count_loop (Z.to_nat len) b 0 value 0.

Definition list_count (self : mp_obj_list_t) (value : obj) : option Z :=
  mp_seq_count_obj (items self) (len self) value.

Inductive cmp_op := EQUAL | LESS | MORE | LESS_EQUAL | MORE_EQUAL.

(** [mp_binary_op(op, a, b) == mp_const_true]. *)
Context (mp_binary_op : cmp_op -> obj -> obj -> bool).

(** [None] when the items are equal so far. *)
Fixpoint cmp_loop (n : nat) (op : cmp_op) (items1 items2 : list slot) (i : Z) : option (option bool) :=
  match n with
  | O => Some None
  | S n =>
      a ← obj_at items1 i;
      b ← obj_at items2 i;
      if mp_obj_equal a b then cmp_loop n op items1 items2 (i + 1)
      else match op with
           | EQUAL => Some (Some false)
           | _ => Some (Some (mp_binary_op op a b))
           end
  end.

Definition mp_seq_cmp_objs (op : cmp_op) (items1 : list slot) (len1 : Z) (items2 : list slot) (len2 : Z) : option bool :=
  if (match op with EQUAL => true | _ => false end) && negb (len1 =? len2) then Some false else
  let '(op, items1, len1, items2, len2) :=
    match op with
    | LESS => (MORE, items2, len2, items1, len1)
    | LESS_EQUAL => (MORE_EQUAL, items2, len2, items1, len1)
    | _ => (op, items1, len1, items2, len2)
    end in
  r ← cmp_loop (Z.to_nat (Z.min len1 len2)) op items1 items2 0;
  match r with
  | Some b => Some b
  | None =>
      Some (if negb (len1 =? len2) then negb (len1 <? len2)
            else match op with MORE => false | _ => true end)
  end.
End equal.

(** ** Subscripts *)

(** The list made by [mp_seq_extract_slice]; the index is a signed 32-bit
    integer. *)
Fixpoint extract_loop (fuel : nat) (seq : list slot) (ix : mp_bound_slice_t) (res : mp_obj_list_t) (start : Z)
    : option (exn + mp_obj_list_t) :=
  if if step ix <? 0 then stop ix <=? start else start <? stop ix then
    match fuel with
    | O => None
    | S fuel =>
        o ← obj_at seq start;
        '(res, r) ← mp_obj_list_append res o;
        match r with
        | inl e => Some (inl e)
        | inr _ => if fits_mp_int (start + step ix) then extract_loop fuel seq ix res (start + step ix) else None
        end
    end
  else Some (inr res).

Definition mp_seq_extract_slice (seq : list slot) (ix : mp_bound_slice_t) : option (exn + mp_obj_list_t) :=
  r ← list_new 0;
  match r with
  | inl e => Some (inl e)
  | inr res => extract_loop (length seq) seq ix res (start ix)
  end.

Inductive subscript := Index (i : int_arg) | Slice (s : mp_obj_slice_t).

(** [self[index]]: an item or a new list. *)
Definition list_load (self : mp_obj_list_t) (index : subscript) : option (exn + (obj + mp_obj_list_t)) :=
  match index with
  | Slice index =>
      match mp_seq_get_fast_slice_indexes (len self) index with
      | inl e => Some (inl e)
      | inr (fast, slice) =>
          r ← (if fast : bool then
                 list_new_fill (stop slice - start slice)
                   (fun b => src ← rd (items self) (start slice) (stop slice - start slice); wr b 0 src)
               else mp_seq_extract_slice (items self) slice);
          Some (match r with inl e => inl e | inr l => inr (inr l) end)
      end
  | Index index =>
      match mp_get_index (len self) index false with
      | inl e => Some (inl e)
      | inr i => o ← obj_at (items self) i; Some (inr (inl o))
      end
  end.

(** The [memmove]s of the macros, with the items of another block. *)
Definition mp_seq_replace_slice_no_grow (dest : list slot) (dest_len beg end_ : Z) (slice : list slot)
    : option (list slot) :=
  b ← wr dest beg slice; mv b (beg + zlen slice) end_ (dest_len - end_).

Definition mp_seq_replace_slice_grow_inplace (dest : list slot) (dest_len beg end_ : Z) (slice : list slot) (len_adj : Z)
    : option (list slot) :=
  b ← mv dest (beg + zlen slice) end_ (dest_len + len_adj - (beg + zlen slice)); wr b beg slice.

(** [del self[index]]. *)
Definition list_delete (self : mp_obj_list_t) (index : subscript) : option (mp_obj_list_t * (exn + unit)) :=
  match index with
  | Slice index =>
      match mp_seq_get_fast_slice_indexes (len self) index with
      | inl e => Some (self, inl e)
      | inr (false, _) => Some (self, inl NotImplementedError)
      | inr (true, slice) =>
          let len_adj := start slice - stop slice in
          if len_adj >? 0 then None else
          b ← mp_seq_replace_slice_no_grow (items self) (len self) (start slice) (stop slice) [];
          b ← mp_seq_clear b (len self + len_adj) (len self);
          Some ({| alloc := alloc self; len := len self + len_adj; items := b |}, inr tt)
      end
  | Index index =>
      '(self, r) ← list_pop self (Some index);
      Some (self, match r with inl e => inl e | inr _ => inr tt end)
  end.

Definition mp_obj_list_store (self : mp_obj_list_t) (index : int_arg) (value : obj) : option (mp_obj_list_t * (exn + unit)) :=
  match mp_get_index (len self) index false with
  | inl e => Some (self, inl e)
  | inr i => b ← put (items self) i (OBJ value);
             Some ({| alloc := alloc self; len := len self; items := b |}, inr tt)
  end.

(** [self[index] = value]; the value of a slice is another list or a tuple,
    given by its items. *)
Definition list_store_slice (self : mp_obj_list_t) (index : mp_obj_slice_t) (value : list obj)
    : option (mp_obj_list_t * (exn + unit)) :=
  match mp_seq_get_fast_slice_indexes (len self) index with
  | inl e => Some (self, inl e)
  | inr (false, _) => Some (self, inl NotImplementedError)
  | inr (true, slice_out) =>
      let len_adj := zlen value - (stop slice_out - start slice_out) in
      if len_adj >? 0 then
        match
          if len self + len_adj >? alloc self
          then match m_renew (items self) (len self + len_adj) with
               | inl e => inl e
               | inr b => inr (len self + len_adj, b)
               end
          else inr (alloc self, items self)
        with
        | inl e => Some (self, inl e)
        | inr (alloc, b) =>
            b ← mp_seq_replace_slice_grow_inplace b (len self) (start slice_out) (stop slice_out) (OBJ <$> value) len_adj;
            Some ({| alloc := alloc; len := len self + len_adj; items := b |}, inr tt)
        end
      else
        b ← mp_seq_replace_slice_no_grow (items self) (len self) (start slice_out) (stop slice_out) (OBJ <$> value);
        b ← mp_seq_clear b (len self + len_adj) (len self);
        Some ({| alloc := alloc self; len := len self + len_adj; items := b |}, inr tt)
  end.

(** ** Operators *)

Definition list_add (o p : mp_obj_list_t) : option (exn + mp_obj_list_t) :=
  list_new_fill (len o + len p)
    (fun b => s1 ← rd (items o) 0 (len o); b ← wr b 0 s1; s2 ← rd (items p) 0 (len p); wr b (len o) s2).

Fixpoint mp_seq_multiply (times : nat) (src b : list slot) (dest : Z) : option (list slot) :=
  match times with
  | O => Some b
  | S times => b ← wr b dest src; mp_seq_multiply times src b (dest + zlen src)
  end.

(** [None] inside when the operation is not supported. *)
Definition list_multiply (o : mp_obj_list_t) (rhs : int_arg) : option (exn + option mp_obj_list_t) :=
  match mp_obj_get_int_maybe rhs with
  | inl e => Some (inl e)
  | inr None => Some (inr None)
  | inr (Some n) =>
      let n := if n <? 0 then 0 else n in
      src ← rd (items o) 0 (len o);
      r ← list_new_fill (wrapu 32 (len o * n)) (fun b => mp_seq_multiply (Z.to_nat n) src b 0);
      Some (match r with inl e => inl e | inr l => inr (Some l) end)
  end.

(** ** Iterating *)

Definition list_it_iternext (l : mp_obj_list_t) (cur : Z) : option (option (obj * Z)) :=
  if cur <? len l then o ← obj_at (items l) cur; Some (Some (o, cur + 1)) else Some None.
End list.
