(* ===== verification/ListSpec.v ===== *)
(** Blocks of slots, and what a list object stands for: the lemmas the
    properties of lists share. *)

From Stdlib Require Import ZArith Lia.
From stdpp Require Import base option list numbers.
From S2P Require Import Prelude Lists.

Lemma zlen_nonneg {A} (b : list A) : 0 <= zlen b.
Proof. unfold zlen. lia. Qed.

Lemma zlen_app {A} (a b : list A) : zlen (a ++ b) = zlen a + zlen b.
Proof. unfold zlen. rewrite length_app. lia. Qed.

Lemma zlen_fmap {A B} (f : A -> B) (b : list A) : zlen (f <$> b) = zlen b.
Proof. unfold zlen. by rewrite length_fmap. Qed.

Lemma zlen_replicate {A} n (x : A) : zlen (replicate n x) = Z.of_nat n.
Proof. unfold zlen. by rewrite length_replicate. Qed.

Lemma zlen_insert {A} (b : list A) i x : zlen (<[i:=x]> b) = zlen b.
Proof. unfold zlen. by rewrite length_insert. Qed.

Section slots.
Context {obj : Type}.
Implicit Types (b : list (slot obj)) (i j k : Z).

Lemma put_insert b i s : 0 <= i < zlen b -> put b i s = Some (<[Z.to_nat i := s]> b).
Proof.
  unfold put, wr. change (zlen [s]) with 1. intros Hi.
  rewrite (proj2 (andb_true_iff _ _)) by (split; lia). unfold zlen in Hi.
  rewrite insert_take_drop by lia. cbn [app]. do 4 f_equal. lia.
Qed.

Lemma slot_at_lookup b i : 0 <= i -> slot_at b i = b !! Z.to_nat i.
Proof. intros. unfold slot_at. by replace (i <? 0) with false by lia. Qed.

Lemma slot_at_is_Some b i : 0 <= i < zlen b -> is_Some (slot_at b i).
Proof. intros. rewrite slot_at_lookup by lia. apply lookup_lt_is_Some. unfold zlen in *. lia. Qed.

Lemma slot_at_range b i s : slot_at b i = Some s -> 0 <= i < zlen b.
Proof.
  unfold slot_at. destruct (Z.ltb_spec i 0); [done|]. intros Hs%lookup_lt_Some. unfold zlen. lia.
Qed.

Lemma slot_at_insert b i j s : 0 <= i < zlen b ->
  slot_at (<[Z.to_nat i := s]> b) j = if j =? i then Some s else slot_at b j.
Proof.
  intros Hi. unfold slot_at. destruct (Z.ltb_spec j 0).
  - by replace (j =? i) with false by lia.
  - destruct (Z.eqb_spec j i) as [->|].
    + apply list_lookup_insert_eq. unfold zlen in Hi. lia.
    + apply list_lookup_insert_ne. lia.
Qed.

Lemma obj_at_slot b i o : obj_at b i = Some o <-> slot_at b i = Some (OBJ o).
Proof.
  unfold obj_at. destruct (slot_at b i) as [[| |o']|]; cbn; split; intros [=]; by subst.
Qed.

Lemma obj_at_range b i o : obj_at b i = Some o -> 0 <= i < zlen b.
Proof. rewrite obj_at_slot. apply slot_at_range. Qed.
End slots.

(** * Blocks in parts *)

Section parts.
Context {A : Type}.
Implicit Types (a b c m s : list A).

Lemma take_zlen_app a b : take (Z.to_nat (zlen a)) (a ++ b) = a.
Proof. unfold zlen. rewrite Nat2Z.id. apply take_app_length. Qed.

Lemma drop_zlen_app a b : drop (Z.to_nat (zlen a)) (a ++ b) = b.
Proof. unfold zlen. rewrite Nat2Z.id. apply drop_app_length. Qed.

Lemma rd_parts a m c pos n : pos = zlen a -> n = zlen m -> rd (a ++ m ++ c) pos n = Some m.
Proof.
  intros -> ->. unfold rd. pose proof (zlen_nonneg a). pose proof (zlen_nonneg m). pose proof (zlen_nonneg c).
  rewrite !zlen_app. rewrite !(proj2 (andb_true_iff _ _)) by lia.
  by rewrite drop_zlen_app, take_zlen_app.
Qed.

Lemma rd_prefix m c n : n = zlen m -> rd (m ++ c) 0 n = Some m.
Proof. intros. by apply (rd_parts [] m c). Qed.

Lemma wr_parts a m c pos s : pos = zlen a -> zlen s = zlen m -> wr (a ++ m ++ c) pos s = Some (a ++ s ++ c).
Proof.
  intros -> Hs. unfold wr. pose proof (zlen_nonneg a). pose proof (zlen_nonneg m). pose proof (zlen_nonneg c).
  rewrite !zlen_app, Hs. rewrite (proj2 (andb_true_iff _ _)) by lia.
  rewrite take_zlen_app. do 3 f_equal. rewrite app_assoc, <- zlen_app. apply drop_zlen_app.
Qed.

Lemma wr_prefix m c s : zlen s = zlen m -> wr (m ++ c) 0 s = Some (s ++ c).
Proof. intros. by apply (wr_parts [] m c). Qed.

Lemma mv_parts a m c b dst src n s : rd b src n = Some s -> b = a ++ m ++ c -> dst = zlen a -> zlen s = zlen m ->
  mv b dst src n = Some (a ++ s ++ c).
Proof. intros Hr -> -> Hs. unfold mv. rewrite Hr. sbind. by apply wr_parts. Qed.

Lemma zlen_take n (b : list A) : 0 <= n <= zlen b -> zlen (take (Z.to_nat n) b) = n.
Proof. unfold zlen. intros. rewrite length_take. lia. Qed.

Lemma zlen_drop n (b : list A) : 0 <= n <= zlen b -> zlen (drop (Z.to_nat n) b) = zlen b - n.
Proof. unfold zlen. intros. rewrite length_drop. lia. Qed.

Lemma zlen_cons (x : A) b : zlen (x :: b) = 1 + zlen b.
Proof. unfold zlen. cbn [length]. lia. Qed.

Lemma zlen_nil : zlen ([] : list A) = 0.
Proof. done. Qed.
End parts.

Create Rewrite HintDb zlen.
#[export] Hint Rewrite @zlen_app @zlen_fmap @zlen_replicate @zlen_insert @zlen_cons @zlen_nil : zlen.
#[export] Hint Rewrite @zlen_take @zlen_drop using lia : zlen.

(** Lengths of blocks made of parts. *)
Ltac zl :=
  autorewrite with zlen;
  repeat match goal with
  | |- context [zlen ?x] => lazymatch goal with _ : 0 <= zlen x |- _ => fail | _ => pose proof (zlen_nonneg x) end
  end; try lia.

Section cells.
Context {obj : Type}.
Implicit Types (b c : list (slot obj)).

Lemma slot_at_parts b x c i : i = zlen b -> slot_at (b ++ x :: c) i = Some x.
Proof.
  intros ->. rewrite slot_at_lookup by apply zlen_nonneg. unfold zlen. rewrite Nat2Z.id. by apply list_lookup_middle.
Qed.

Lemma obj_at_items (l : list obj) c i : 0 <= i < zlen l -> obj_at ((OBJ <$> l) ++ c) i = l !! Z.to_nat i.
Proof.
  intros Hi. unfold obj_at. rewrite slot_at_lookup by lia. unfold zlen in Hi.
  rewrite lookup_app_l by (rewrite length_fmap; lia). rewrite list_lookup_fmap. by destruct (l !! Z.to_nat i).
Qed.

Lemma put_parts b x c i s : i = zlen b -> put (b ++ x :: c) i s = Some (b ++ s :: c).
Proof. intros ->. unfold put. rewrite (wr_parts b [x] c) by done. done. Qed.

Lemma mp_seq_clear_parts b m c len alloc : len = zlen b -> alloc = zlen b + zlen m ->
  mp_seq_clear (b ++ m ++ c) len alloc = Some (b ++ replicate (Z.to_nat (zlen m)) NULLP ++ c).
Proof.
  intros -> ->. unfold mp_seq_clear. pose proof (zlen_nonneg m). destruct (Z.ltb_spec (zlen b + zlen m) (zlen b)); [lia|].
  replace (zlen b + zlen m - zlen b) with (zlen m) by lia. apply wr_parts; [done|]. zl.
Qed.
End cells.

(** * What a list object stands for *)

(** No block of memory has more slots. *)
Definition MAX_SLOTS : Z := 2 ^ 27.

(** The slots in use hold the items, those left are cleared. *)
Record list_rep {obj} (self : mp_obj_list_t obj) (l : list obj) : Prop := {
  rep_len : len self = zlen l;
  rep_alloc : zlen l <= alloc self;
  rep_bounds : 1 <= alloc self <= MAX_SLOTS;
  rep_items : items self = (OBJ <$> l) ++ replicate (Z.to_nat (alloc self - zlen l)) NULLP;
}.

Section rep.
Context {obj : Type} (mok : Z -> bool) (mok_max : forall n, mok n = true -> n <= 4 * MAX_SLOTS).
Implicit Types (self : mp_obj_list_t obj) (l : list obj) (b : list (slot obj)).

Lemma rep_mk l n : 1 <= zlen l + n <= MAX_SLOTS -> 0 <= n ->
  list_rep {| alloc := zlen l + n; len := zlen l; items := (OBJ <$> l) ++ replicate (Z.to_nat n) NULLP |} l.
Proof. intros. split; cbn; try done; [lia|]. do 2 f_equal. lia. Qed.

Lemma rep_eq self l : list_rep self l -> exists n, 0 <= n /\ 1 <= zlen l + n <= MAX_SLOTS /\
  self = {| alloc := zlen l + n; len := zlen l; items := (OBJ <$> l) ++ replicate (Z.to_nat n) NULLP |}.
Proof.
  intros [El Ha Hb Ei]. exists (alloc self - zlen l). split; [lia|]. split; [lia|].
  destruct self as [al ln it]. cbn in *. subst. f_equal. lia.
Qed.

Lemma rep_mk' l n alloc len items : 1 <= zlen l + n <= MAX_SLOTS -> 0 <= n -> alloc = zlen l + n -> len = zlen l ->
  items = (OBJ <$> l) ++ replicate (Z.to_nat n) NULLP -> list_rep {| alloc := alloc; len := len; items := items |} l.
Proof. intros ?? -> -> ->. by apply rep_mk. Qed.

(** Growing a block: the new slots are indeterminate. *)
Lemma m_renew_grow b n : zlen b <= n -> n < 2 ^ 30 -> zlen b <= MAX_SLOTS ->
  (exists c, m_renew mok b n = inr (b ++ c) /\ zlen c = n - zlen b /\ n <= MAX_SLOTS) \/
  (m_renew mok b n = inl MemoryError /\ exists k, mok k = false).
Proof.
  intros Hb Hn Hmax. pose proof (zlen_nonneg b). unfold m_renew, MAX_SLOTS in *. rewrite wrapu_small by lia.
  replace (4 * n / 4) with n by (rewrite Z.mul_comm, Z.div_mul; lia).
  destruct (_ || _) eqn:E.
  - left. rewrite take_ge by (unfold zlen in *; lia). eexists. split; [done|]. split; [zl; unfold zlen in *; lia|].
    apply orb_true_iff in E as [E%Z.leb_le|E%mok_max]; [|lia].
    pose proof (Z.div_mod (4 * n + 15) 16). pose proof (Z.mod_pos_bound (4 * n + 15) 16).
    pose proof (Z.div_le_mono (4 * zlen b + 15) (2 ^ 29 + 15) 16). change ((2 ^ 29 + 15) / 16) with (2 ^ 25) in *. lia.
  - right. split; [done|]. apply orb_false_iff in E as [_ E]. eauto.
Qed.

Lemma m_renew_shrink b n : 0 <= n <= zlen b -> zlen b <= MAX_SLOTS -> m_renew mok b n = inr (take (Z.to_nat n) b).
Proof.
  intros Hn Hb. unfold m_renew, MAX_SLOTS in *. rewrite wrapu_small by lia.
  replace (4 * n / 4) with n by (rewrite Z.mul_comm, Z.div_mul; lia).
  rewrite (proj2 (orb_true_iff _ _)) by (left; apply Z.leb_le, Z.div_le_mono; lia).
  replace (Z.to_nat n - length b)%nat with 0%nat by (unfold zlen in Hn; lia). by rewrite app_nil_r.
Qed.
End rep.
