(* ===== verification/ListOps.v ===== *)
(** The operations that change a list, against the same operations on the list
    of its items. *)

From Stdlib Require Import ZArith Lia.
From stdpp Require Import base option list numbers.
From S2P Require Import Prelude Lists ListSpec.

(** * The abstract list *)

(** The position an index designates in a list of [n] items. *)
Definition py_index (n : Z) (a : int_arg) : exn + nat :=
  match a with
  | NotInt => inl TypeError
  | IntArg i =>
      if negb (int_checked i) then inl OverflowError else
      let j := if i <? 0 then n + i else i in
      if (0 <=? j) && (j <? n) then inr (Z.to_nat j) else inl IndexError
  end.

(** The part a slice without step designates; slices with a step cannot be
    assigned. *)
Definition py_range (n : Z) (s : mp_obj_slice_t) : exn + nat * nat :=
  match mp_obj_slice_indices s n with
  | inl e => inl e
  | inr ix => if step ix =? 1 then inr (Z.to_nat (start ix), Z.to_nat (Z.max (start ix) (stop ix)))
              else inl NotImplementedError
  end.

(** Where [insert] puts an item. *)
Definition py_insert_pos (n i : Z) : nat := Z.to_nat (Z.min n (if i <? 0 then Z.max 0 (n + i) else i)).

Section spec.
Context {obj : Type} (mp_obj_equal : obj -> obj -> bool).
Implicit Types (l : list obj).

Inductive list_op :=
  | Append (x : obj) | Extend (arg : list obj) | ExtendSelf | ExtendIter (arg : list obj)
  | Pop (i : option int_arg) | Clear | Insert (word : Z) (x : obj) | Remove (x : obj) | Reverse
  | Store (i : int_arg) (x : obj) | Delete (i : int_arg)
  | StoreSlice (s : mp_obj_slice_t) (v : list obj) | DeleteSlice (s : mp_obj_slice_t).

(** The list an operation leaves and what it returns, or its exception. *)
Definition spec_op (op : list_op) l : exn + list obj * option obj :=
  match op with
  | Append x => inr (l ++ [x], None)
  | Extend arg | ExtendIter arg => inr (l ++ arg, None)
  | ExtendSelf => inr (l ++ l, None)
  | Pop i =>
      match l with
      | [] => inl IndexError
      | _ => match py_index (zlen l) (default (IntArg (-1)) i) with
             | inl e => inl e
             | inr k => inr (delete k l, l !! k)
             end
      end
  | Clear => inr ([], None)
  | Insert word x =>
      let k := py_insert_pos (zlen l) (MP_OBJ_SMALL_INT_VALUE word) in inr (take k l ++ x :: drop k l, None)
  | Remove x =>
      match list_find (fun o => mp_obj_equal o x = true) l with
      | None => inl ValueError
      | Some (k, _) => inr (delete k l, None)
      end
  | Reverse => inr (reverse l, None)
  | Store i x =>
      match py_index (zlen l) i with inl e => inl e | inr k => inr (<[k := x]> l, None) end
  | Delete i =>
      match l with
      | [] => inl IndexError
      | _ => match py_index (zlen l) i with inl e => inl e | inr k => inr (delete k l, None) end
      end
  | StoreSlice s v =>
      match py_range (zlen l) s with inl e => inl e | inr (i, j) => inr (take i l ++ v ++ drop j l, None) end
  | DeleteSlice s =>
      match py_range (zlen l) s with inl e => inl e | inr (i, j) => inr (take i l ++ drop j l, None) end
  end.

(** The lists an operation may leave when memory runs out: that before it, or
    one with some of the items of the iterator. *)
Definition spec_fails (op : list_op) l (l' : list obj) : Prop :=
  match op with
  | Append _ | Extend _ | ExtendSelf | Insert _ _ | StoreSlice _ _ => l = l'
  | ExtendIter arg => exists k, (k < length arg)%nat /\ l' = l ++ take k arg
  | _ => False
  end.
End spec.

(** * The operations of the code *)

Section run.
Context {obj : Type} (mok : Z -> bool) (mp_obj_equal : obj -> obj -> bool) (none : obj).

Definition no_result {A} (r : option (mp_obj_list_t obj * (exn + A))) : option (mp_obj_list_t obj * (exn + option obj)) :=
  '(self, r) ← r; Some (self, match r with inl e => inl e | inr _ => inr None end).

(** [arg] of [extend] as an object of its own. *)
Definition run_op (op : list_op) (self : mp_obj_list_t obj) : option (mp_obj_list_t obj * (exn + option obj)) :=
  match op with
  | Append x => no_result (mp_obj_list_append mok self x)
  | Extend arg =>
      no_result (list_extend mok self (OtherList {| alloc := zlen arg; len := zlen arg; items := OBJ <$> arg |}))
  | ExtendSelf => no_result (list_extend mok self SameList)
  | ExtendIter arg => no_result (list_extend mok self (Iterable arg))
  | Pop i => '(self, r) ← list_pop mok self i; Some (self, match r with inl e => inl e | inr x => inr (Some x) end)
  | Clear => no_result (list_clear mok self)
  | Insert word x => no_result (list_insert mok none self word x)
  | Remove x => no_result (mp_obj_list_remove mok mp_obj_equal self x)
  | Reverse => self ← list_reverse self; Some (self, inr None)
  | Store i x => no_result (mp_obj_list_store self i x)
  | Delete i => no_result (list_delete mok self (Index i))
  | StoreSlice s v => no_result (list_store_slice mok self s v)
  | DeleteSlice s => no_result (list_delete mok self (Slice s))
  end.

(** [r] is the outcome [spec], or the memory ran out and left one of [fails]. *)
Definition outcome {A} (fails : list obj -> Prop) (l : list obj) (r : option (mp_obj_list_t obj * (exn + A)))
    (spec : exn + list obj * A) : Prop :=
  exists self' x, r = Some (self', x) /\
    ((x = inl MemoryError /\ (exists n, mok n = false) /\ exists l', fails l' /\ list_rep self' l') \/
     match spec with
     | inl e => x = inl e /\ list_rep self' l
     | inr (l', a) => x = inr a /\ list_rep self' l'
     end).
End run.

(** * Each operation *)

Section ops.
Context {obj : Type} (mok : Z -> bool) (mok_max : forall n, mok n = true -> n <= 4 * MAX_SLOTS).
Implicit Types (self : mp_obj_list_t obj) (l : list obj) (b c : list (slot obj)).

Lemma outcome_ok {A} fails l self' l' (a : A) r : r = Some (self', inr a) -> list_rep self' l' ->
  outcome mok fails l r (inr (l', a)).
Proof. intros -> Hr. exists self', (inr a). split; [done|]. by right. Qed.

Lemma outcome_exn {A} fails l self r (e : exn) : r = Some (self, inl e) -> list_rep self l ->
  outcome mok fails l r (inl e : exn + list obj * A).
Proof. intros -> Hr. exists self, (inl e). split; [done|]. by right. Qed.

Lemma outcome_nomem {A} (fails : list obj -> Prop) l l' self r (spec : exn + list obj * A) :
  r = Some (self, inl MemoryError) -> (exists k, mok k = false) -> fails l' -> list_rep self l' ->
  outcome mok fails l r spec.
Proof. intros -> Hk Hf Hr. exists self, (inl MemoryError). split; [done|]. left. eauto. Qed.

Lemma replicate_S_Z {A} n (x : A) : 0 < n -> replicate (Z.to_nat n) x = x :: replicate (Z.to_nat (n - 1)) x.
Proof. intros. by replace (Z.to_nat n) with (S (Z.to_nat (n - 1))) by lia. Qed.

Lemma fmap_OBJ_snoc l x c : (OBJ <$> l) ++ OBJ x :: c = (OBJ <$> (l ++ [x])) ++ c.
Proof. rewrite fmap_app, <- app_assoc. done. Qed.

Lemma zlen_length {A} (b : list A) n : zlen b = n -> length b = Z.to_nat n.
Proof. unfold zlen. lia. Qed.

Lemma append_spec self l x : list_rep self l ->
  outcome mok (eq l) l (mp_obj_list_append mok self x) (inr (l ++ [x], tt)).
Proof.
  intros Hr. destruct (rep_eq self l Hr) as (n & Hn & Hb & ->). unfold mp_obj_list_append. cbn [len alloc items].
  destruct (Z.ltb_spec (zlen l) (zlen l + n)) as [L|].
  - rewrite replicate_S_Z by lia. rewrite put_parts by zl. sbind. eapply outcome_ok; [done|].
    eapply rep_mk'; [| |zl|zl|apply fmap_OBJ_snoc]; zl.
  - replace n with 0 in * by lia. rewrite app_nil_r in *. unfold MAX_SLOTS in Hb.
    rewrite wrapu_small by lia.
    destruct (m_renew_grow mok mok_max (OBJ <$> l) ((zlen l + 0) * 2)) as [(c & -> & Hc & Hm)|[-> ?]]; [zl..|unfold MAX_SLOTS; zl| |].
    + autorewrite with zlen in Hc. destruct c as [|s c]; [rewrite zlen_nil in Hc; lia|]. autorewrite with zlen in Hc.
      replace ((OBJ <$> l) ++ s :: c) with (((OBJ <$> l) ++ [s]) ++ c ++ []) by (by rewrite app_nil_r, <- app_assoc).
      rewrite mp_seq_clear_parts by zl. sbind. rewrite app_nil_r, <- app_assoc. cbn [app].
      rewrite put_parts by zl. sbind. eapply outcome_ok; [done|].
      eapply (rep_mk' _ (zlen c)); [| |zl|zl|by apply fmap_OBJ_snoc]; zl.
    + eapply outcome_nomem; done.
Qed.

Lemma extend_from_iter_spec self l arg : list_rep self l ->
  outcome mok (fun l' => exists k, (k < length arg)%nat /\ l' = l ++ take k arg) l
    (list_extend_from_iter mok self arg) (inr (l ++ arg, tt)).
Proof.
  revert self l. induction arg as [|x arg IH]; intros self l Hr; cbn [list_extend_from_iter].
  { eapply outcome_ok; [done|]. by rewrite app_nil_r. }
  destruct (append_spec self l x Hr) as (self1 & r1 & -> & [(-> & Hm & l' & <- & Hl')|[-> Hr1]]); sbind.
  { eapply outcome_nomem; [done|done| |exact Hl']. exists 0%nat. rewrite app_nil_r. cbn. split; [lia|done]. }
  destruct (IH self1 (l ++ [x]) Hr1) as (self2 & r2 & -> & [(-> & Hm & l' & (k & Hk & ->) & Hl')|[-> Hr2]]).
  - eapply outcome_nomem; [done|done| |exact Hl']. exists (S k). cbn. split; [lia|]. by rewrite <- app_assoc.
  - eapply outcome_ok; [done|]. by rewrite <- app_assoc in Hr2.
Qed.

(** [extend] by the items [arg], read after the block has grown. *)
Lemma extend_spec self l arg (get : list (slot obj) -> list (slot obj)) a :
  list_rep self l -> zlen arg <= MAX_SLOTS ->
  (forall c, get ((OBJ <$> l) ++ c) = (OBJ <$> arg) ++ a c) ->
  outcome mok (eq l) l
    (match
      if alloc self <? len self + zlen arg then
        match m_renew mok (items self) (len self + zlen arg + 4) with
        | inl e => Some (inl e)
        | inr b =>
            let alloc := len self + zlen arg + 4 in
            b ← mp_seq_clear b (len self + zlen arg) alloc; Some (inr (alloc, b))
        end
      else Some (inr (alloc self, items self))
    with
    | None => None
    | Some (inl e) => Some (self, inl e)
    | Some (inr (alloc, b)) =>
        s ← rd (get b) 0 (zlen arg);
        b ← wr b (len self) s;
        Some ({| alloc := alloc; len := len self + zlen arg; items := b |}, inr tt)
    end) (inr (l ++ arg, tt)).
Proof.
  intros Hr Ha Hget. destruct (rep_eq self l Hr) as (n & Hn & Hb & ->). cbn [len alloc items].
  assert (forall c k, 0 <= k -> zlen c = zlen arg -> zlen l + zlen arg + k <= MAX_SLOTS -> 1 <= zlen l + zlen arg + k ->
    let b := (OBJ <$> l) ++ c ++ replicate (Z.to_nat k) NULLP in
    outcome mok (eq l) l (s ← rd (get b) 0 (zlen arg); b ← wr b (zlen l) s;
      Some ({| alloc := zlen l + zlen arg + k; len := zlen l + zlen arg; items := b |}, inr tt)) (inr (l ++ arg, tt))) as Hw.
  { intros c k Hk Hc Hmx H1. cbn zeta. rewrite Hget. rewrite rd_prefix by zl. sbind.
    rewrite wr_parts by zl. sbind. eapply outcome_ok; [done|].
    eapply (rep_mk' _ k); [zl..|]. by rewrite fmap_app, <- app_assoc. }
  pose proof (zlen_nonneg arg). pose proof (zlen_nonneg l). unfold MAX_SLOTS in *.
  destruct (Z.ltb_spec (zlen l + n) (zlen l + zlen arg)) as [L|G].
  - destruct (m_renew_grow mok mok_max ((OBJ <$> l) ++ replicate (Z.to_nat n) NULLP) (zlen l + zlen arg + 4))
      as [(c & -> & Hc & Hm)|[-> ?]]; [zl|zl|unfold MAX_SLOTS; zl| |].
    + autorewrite with zlen in Hc. unfold MAX_SLOTS in Hm. set (m := replicate (Z.to_nat n) NULLP ++ c).
      assert (zlen m = zlen arg + 4) as Hzm by (unfold m; zl).
      rewrite <- app_assoc. fold m.
      replace ((OBJ <$> l) ++ m) with (((OBJ <$> l) ++ take (Z.to_nat (zlen arg)) m) ++ drop (Z.to_nat (zlen arg)) m ++ [])
        by (by rewrite app_nil_r, <- app_assoc, take_drop).
      rewrite mp_seq_clear_parts by zl. sbind. rewrite app_nil_r, <- app_assoc, zlen_drop by lia.
      rewrite Hzm. replace (zlen arg + 4 - zlen arg) with 4 by lia. apply (Hw _ 4); zl.
    + eapply outcome_nomem; done.
  - replace (Z.to_nat n) with (Z.to_nat (zlen arg) + Z.to_nat (n - zlen arg))%nat by lia.
    rewrite replicate_add. replace (zlen l + n) with (zlen l + zlen arg + (n - zlen arg)) by lia. apply Hw; zl.
Qed.

Lemma index_eq n a : mp_get_index n a false = match py_index n a with inl e => inl e | inr k => inr (Z.of_nat k) end.
Proof.
  unfold mp_get_index, py_index, mp_obj_get_int, mp_obj_get_int_maybe. destruct a as [i|]; [|done].
  destruct (int_checked i); [|done]. cbn [negb]. cbn zeta.
  destruct (Z.ltb_spec i 0).
  - destruct (Z.ltb_spec (i + n) 0), (Z.leb_spec n (i + n)), (Z.leb_spec 0 (n + i)), (Z.ltb_spec (n + i) n);
      cbn [orb andb]; try lia; try done. f_equal. lia.
  - destruct (Z.ltb_spec i 0), (Z.leb_spec n i), (Z.leb_spec 0 i), (Z.ltb_spec i n); cbn [orb andb]; try lia; try done.
    f_equal. lia.
Qed.

Lemma py_index_lt n a k : py_index n a = inr k -> Z.of_nat k < n.
Proof.
  unfold py_index. destruct a as [i|]; [|done]. destruct (int_checked i); [|done]. cbn [negb]. cbn zeta.
  destruct (_ && _) eqn:E; [|done]. apply andb_true_iff in E as [?%Z.leb_le ?%Z.ltb_lt]. intros [= <-]. lia.
Qed.

Lemma py_index_of n k : Z.of_nat k < n -> n <= MAX_SLOTS -> py_index n (IntArg (Z.of_nat k)) = inr k.
Proof.
  unfold MAX_SLOTS, py_index, int_checked. intros. rewrite (proj2 (Z.ltb_lt _ _)) by lia. cbn [negb]. cbn zeta.
  destruct (Z.ltb_spec (Z.of_nat k) 0); [lia|]. rewrite (proj2 (andb_true_iff _ _)) by lia. f_equal. lia.
Qed.

Lemma split_at l k : Z.of_nat k < zlen l ->
  exists x, l !! k = Some x /\ l = take k l ++ x :: drop (S k) l /\ delete k l = take k l ++ drop (S k) l.
Proof.
  intros Hk. destruct (lookup_lt_is_Some_2 l k) as [x Ex]; [unfold zlen in Hk; lia|]. exists x.
  split; [done|]. split; [by rewrite take_drop_middle|apply delete_take_drop].
Qed.

(** Taking one item out of the block. *)
Lemma remove_slot (p q : list obj) x c : exists s,
  mv ((OBJ <$> (p ++ x :: q)) ++ c) (zlen p) (zlen p + 1) (zlen q) = Some ((OBJ <$> (p ++ q)) ++ s :: c).
Proof.
  destruct (OBJ <$> (x :: q)) as [|s m _] eqn:E using rev_ind; [done|]. exists s.
  assert (zlen m = zlen q) as Hm by (apply (f_equal zlen) in E; revert E; zl).
  rewrite (mv_parts (OBJ <$> p) m (s :: c) _ _ _ _ (OBJ <$> q)).
  - by rewrite fmap_app, <- app_assoc.
  - replace ((OBJ <$> (p ++ x :: q)) ++ c) with ((OBJ <$> (p ++ [x])) ++ (OBJ <$> q) ++ c)
      by (by rewrite !fmap_app, <- !app_assoc).
    apply rd_parts; zl.
  - by rewrite fmap_app, E, <- !app_assoc.
  - zl.
  - zl.
Qed.

Lemma pop_at self l (i : option int_arg) k x : list_rep self l ->
  py_index (zlen l) (default (IntArg (-1)) i) = inr k -> l !! k = Some x ->
  outcome mok (fun _ => False) l (list_pop mok self i) (inr (delete k l, x)).
Proof.
  intros Hr Hi Ex. destruct (rep_eq self l Hr) as (n & Hn & Hb & ->). pose proof (py_index_lt _ _ _ Hi) as Hk.
  destruct (split_at l k Hk) as (x' & Ex' & El & Ed). assert (x' = x) as -> by congruence.
  set (p := take k l) in *. set (q := drop (S k) l) in *. unfold list_pop. cbn [len alloc items].
  assert (zlen p = Z.of_nat k) as Hp by (unfold p, zlen in *; rewrite length_take; lia).
  assert (zlen l = zlen p + 1 + zlen q) as Hz by (rewrite El at 1; zl). pose proof (zlen_nonneg q).
  replace (zlen l =? 0) with false by lia. rewrite index_eq, Hi. cbn [sum_rect].
  rewrite obj_at_items by lia. rewrite Nat2Z.id, Ex. sbind.
  replace (zlen l - 1 - Z.of_nat k) with (zlen q) by lia. rewrite <- Hp.
  destruct (remove_slot p q x (replicate (Z.to_nat n) NULLP)) as [s Es]. rewrite <- El in Es. rewrite Es. sbind. rewrite put_parts by zl. sbind. rewrite Ed.
  destruct (_ && _) eqn:E.
  - apply andb_true_iff in E as [E1%Z.gtb_lt E2%Z.gtb_lt]. unfold LIST_MIN_ALLOC in E1.
    pose proof (Z.div_mod (zlen l + n) 2 ltac:(lia)). pose proof (Z.mod_pos_bound (zlen l + n) 2 ltac:(lia)).
    rewrite m_renew_shrink; [|zl|zl; unfold MAX_SLOTS in *; lia].
    eapply outcome_ok; [done|]. eapply (rep_mk' _ ((zlen l + n) / 2 - (zlen l - 1))); [|lia|zl..|].
    + unfold MAX_SLOTS in *. zl.
    + rewrite take_app, take_ge by (rewrite length_fmap, length_app; unfold zlen in *; lia).
      f_equal. change (NULLP :: replicate (Z.to_nat n) NULLP) with (replicate (S (Z.to_nat n)) (NULLP : slot obj)).
      rewrite take_replicate. f_equal. rewrite length_fmap, length_app. unfold zlen in *. lia.
  - eapply outcome_ok; [done|]. eapply (rep_mk' _ (n + 1)); [unfold MAX_SLOTS in *; zl|lia|zl|zl|].
    f_equal. by replace (Z.to_nat (n + 1)) with (S (Z.to_nat n)) by lia.
Qed.

Lemma clear_spec self l : list_rep self l -> outcome mok (fun _ => False) l (list_clear mok self) (inr ([], tt)).
Proof.
  intros Hr. destruct (rep_eq self l Hr) as (n & Hn & Hb & ->). unfold list_clear. cbn [alloc items].
  set (b := (OBJ <$> l) ++ _). assert (zlen b = zlen l + n) as Hz by (unfold b; zl).
  assert (exists b', m_renew mok b LIST_MIN_ALLOC = inr b' /\ zlen b' = 4) as (b' & -> & Hz').
  { unfold m_renew, LIST_MIN_ALLOC. rewrite wrapu_small by lia.
    rewrite (proj2 (orb_true_iff _ _)).
    - eexists. split; [done|]. zl. unfold zlen in *. rewrite length_take. change (Z.to_nat (4 * 4 / 4)) with 4%nat. lia.
    - left. apply Z.leb_le. change ((4 * 4 + 15) / 16) with 1. apply Z.div_le_lower_bound; lia. }
  unfold LIST_MIN_ALLOC. rewrite <- (app_nil_r b'). change (b' ++ []) with ([] ++ b' ++ []).
  rewrite (mp_seq_clear_parts [] b' []) by zl. sbind. eapply outcome_ok; [done|].
  eapply (rep_mk' _ 4); [unfold MAX_SLOTS; zl|lia|zl|zl|]. rewrite Hz', app_nil_r. done.
Qed.

Lemma py_insert_pos_le n i : 0 <= n -> Z.of_nat (py_insert_pos n i) <= n.
Proof. unfold py_insert_pos. destruct (Z.ltb_spec i 0); lia. Qed.

Lemma shift_up_spec b (m : list (slot obj)) z c i : i = zlen b + zlen m ->
  exists h, shift_up (length m) (b ++ m ++ z :: c) i = Some (b ++ h :: m ++ c).
Proof.
  revert z c i. induction m as [|y m IH] using rev_ind; intros z c i ->; [by exists z|].
  rewrite length_app, Nat.add_1_r. cbn [shift_up]. autorewrite with zlen.
  replace (b ++ (m ++ [y]) ++ z :: c) with ((b ++ m) ++ y :: z :: c) by (by rewrite <- !app_assoc).
  rewrite slot_at_parts by zl. sbind.
  replace ((b ++ m) ++ y :: z :: c) with ((b ++ m ++ [y]) ++ z :: c) by (by rewrite <- !app_assoc).
  rewrite put_parts by zl. sbind.
  replace ((b ++ m ++ [y]) ++ y :: c) with (b ++ m ++ y :: y :: c) by (by rewrite <- !app_assoc).
  destruct (IH y (y :: c) (zlen b + (zlen m + (1 + 0)) - 1)) as [h Eh]; [lia|]. exists h. rewrite Eh.
  by rewrite <- app_assoc.
Qed.

Lemma insert_spec none self l word x : list_rep self l ->
  let k := py_insert_pos (zlen l) (MP_OBJ_SMALL_INT_VALUE word) in
  outcome mok (eq l) l (list_insert mok none self word x) (inr (take k l ++ x :: drop k l, tt)).
Proof.
  intros Hr k. unfold list_insert. rewrite (rep_len self l Hr).
  assert (forall i, (let index := if i <? 0 then i + zlen l else i in
    let index := if index <? 0 then 0 else index in
    if zlen l <? index then zlen l else index) = Z.of_nat (py_insert_pos (zlen l) i)) as Hi.
  { intros i. cbn zeta. unfold py_insert_pos. pose proof (zlen_nonneg l).
    destruct (Z.ltb_spec i 0); [destruct (Z.ltb_spec (i + zlen l) 0)|destruct (Z.ltb_spec i 0)]; try lia;
      match goal with |- context [?a <? ?b] => destruct (Z.ltb_spec a b) end; lia. }
  cbn zeta in *. rewrite Hi. fold k.
  pose proof (py_insert_pos_le (zlen l) (MP_OBJ_SMALL_INT_VALUE word) (zlen_nonneg l)) as Hk. fold k in Hk.
  clearbody k. clear Hi.
  destruct (append_spec self l none Hr) as (self1 & r1 & -> & [(-> & Hm & l' & <- & Hl')|[-> Hr1]]); sbind.
  { by eapply outcome_nomem. }
  destruct (rep_eq _ _ Hr1) as (n & Hn & Hb & ->). cbn [len alloc items].
  assert (zlen (take k l) = Z.of_nat k) as Hp by (unfold zlen in *; rewrite length_take; lia).
  assert (zlen (drop k l) = zlen l - Z.of_nat k) as Hq by (unfold zlen in *; rewrite length_drop; lia).
  set (p := take k l) in *. set (q := drop k l) in *. assert (l = p ++ q) as El by (symmetry; apply take_drop).
  replace ((OBJ <$> l ++ [none]) ++ replicate (Z.to_nat n) NULLP)
    with ((OBJ <$> p) ++ (OBJ <$> q) ++ OBJ none :: replicate (Z.to_nat n) (NULLP : slot obj))
    by (rewrite El, !fmap_app, <- !app_assoc; done).
  replace (Z.to_nat (zlen (l ++ [none]) - 1 - Z.of_nat k)) with (length (OBJ <$> q))
    by (rewrite length_fmap; rewrite zlen_app, zlen_cons, zlen_nil; unfold zlen in *; lia).
  destruct (shift_up_spec (OBJ <$> p) (OBJ <$> q) (OBJ none) (replicate (Z.to_nat n) NULLP) (zlen (l ++ [none]) - 1))
    as [h ->]; [zl|]. sbind. rewrite put_parts by zl. sbind.
  eapply outcome_ok; [done|]. eapply (rep_mk' _ n); [autorewrite with zlen in *; lia|lia|autorewrite with zlen in *; lia..|].
  rewrite fmap_app, <- app_assoc. done.
Qed.

Lemma reverse_loop_spec (n : nat) : forall a m c rest len i, i = zlen a -> zlen c = zlen a -> len = zlen (a ++ m ++ c) ->
  n = (length m / 2)%nat -> reverse_loop n (a ++ m ++ c ++ rest) len i = Some (a ++ reverse m ++ c ++ rest : list (slot obj)).
Proof.
  induction n as [|n IH]; intros a m c rest len i Hi Hc Hl Hn; cbn [reverse_loop].
  - destruct m as [|x [|y m]]; [done..|]. cbn [length] in Hn.
    pose proof (Nat.div_le_lower_bound (S (S (length m))) 2 1). lia.
  - destruct m as [|x m]; [discriminate Hn|]. destruct m as [|y m _] using rev_ind; [discriminate Hn|].
    subst i. assert (len = 2 * zlen a + 2 + zlen m) as Hl' by (rewrite Hl; zl).
    replace (a ++ (x :: m ++ [y]) ++ c ++ rest) with (a ++ x :: (m ++ y :: c ++ rest)) by (cbn; by rewrite <- app_assoc).
    rewrite (slot_at_parts a x _ (zlen a)) by zl. sbind.
    replace (a ++ x :: m ++ y :: c ++ rest) with ((a ++ x :: m) ++ y :: c ++ rest) by (by rewrite <- app_assoc).
    rewrite slot_at_parts by zl. sbind.
    replace ((a ++ x :: m) ++ y :: c ++ rest) with (a ++ x :: (m ++ y :: c ++ rest)) by (by rewrite <- app_assoc).
    rewrite put_parts by zl. sbind.
    replace (a ++ y :: (m ++ y :: c ++ rest)) with ((a ++ y :: m) ++ y :: c ++ rest) by (by rewrite <- app_assoc).
    rewrite put_parts by zl. sbind.
    replace ((a ++ y :: m) ++ x :: c ++ rest) with ((a ++ [y]) ++ m ++ (x :: c) ++ rest) by (by rewrite <- !app_assoc).
    rewrite IH; [|zl|zl|zl|].
    + rewrite reverse_cons, reverse_snoc. by rewrite <- !app_assoc.
    + cbn [length] in Hn. rewrite length_app in Hn. cbn [length] in Hn.
      replace (S (length m + 1)) with (length m + 1 * 2)%nat in Hn by lia. rewrite Nat.div_add in Hn by done. lia.
Qed.

Lemma reverse_ok self l : list_rep self l -> exists self', list_reverse self = Some self' /\ list_rep self' (reverse l).
Proof.
  intros Hr. destruct (rep_eq self l Hr) as (n & Hn & Hb & ->). unfold list_reverse. cbn [len alloc items].
  pose proof (reverse_loop_spec (Z.to_nat (zlen l / 2)) [] (OBJ <$> l) [] (replicate (Z.to_nat n) NULLP) (zlen l) 0) as E.
  cbn [app] in E. rewrite E; [|done|done|by rewrite app_nil_r, zlen_fmap|].
  - sbind. eexists. split; [done|]. eapply (rep_mk' _ n); unfold zlen in *; rewrite ?length_reverse; try done.
    by rewrite fmap_reverse.
  - rewrite length_fmap. unfold zlen. rewrite <- (Nat2Z.inj_div _ 2), Nat2Z.id. done.
Qed.

Lemma store_spec self l i x : list_rep self l ->
  outcome mok (fun _ => False) l (mp_obj_list_store self i x)
    (match py_index (zlen l) i with inl e => inl e | inr k => inr (<[k := x]> l, tt) end).
Proof.
  intros Hr. unfold mp_obj_list_store. rewrite (rep_len self l Hr), index_eq.
  destruct (py_index (zlen l) i) as [e|k] eqn:Hi; [by eapply outcome_exn|].
  destruct (rep_eq self l Hr) as (n & Hn & Hb & ->). pose proof (py_index_lt _ _ _ Hi) as Hk. cbn [len alloc items].
  rewrite put_insert by zl. sbind. rewrite Nat2Z.id. eapply outcome_ok; [done|].
  eapply (rep_mk' _ n); [autorewrite with zlen; lia|lia|by autorewrite with zlen..|].
  rewrite list_fmap_insert. rewrite insert_app_l; [done|]. rewrite length_fmap. unfold zlen in Hk. lia.
Qed.

Lemma index_loop_spec (eq : obj -> obj -> bool) v c (n : nat) l i : zlen l = i + Z.of_nat n -> 0 <= i ->
  index_loop eq n ((OBJ <$> l) ++ c) i v =
    Some (match list_find (fun o => eq o v = true) (drop (Z.to_nat i) l) with
          | None => inl ValueError | Some (k, _) => inr (i + Z.of_nat k) end).
Proof.
  revert i. induction n as [|n IH]; intros i Hl Hi; cbn [index_loop].
  - rewrite drop_ge by (unfold zlen in Hl; lia). done.
  - rewrite obj_at_items by lia. destruct (lookup_lt_is_Some_2 l (Z.to_nat i)) as [o Eo]; [unfold zlen in Hl; lia|].
    rewrite Eo, (drop_S _ _ _ Eo). sbind. cbn [list_find]. destruct (eq o v) eqn:E.
    + rewrite decide_True by done. by rewrite Z.add_0_r.
    + rewrite decide_False by congruence. rewrite IH by lia. replace (Z.to_nat (i + 1)) with (S (Z.to_nat i)) by lia.
      destruct (list_find _ _) as [[k y]|]; [|done]. cbn. do 2 f_equal. lia.
Qed.

Lemma remove_spec (eq : obj -> obj -> bool) self l x : list_rep self l ->
  outcome mok (fun _ => False) l (mp_obj_list_remove mok eq self x)
    (match list_find (fun o => eq o x = true) l with
     | None => inl ValueError | Some (k, _) => inr (delete k l, tt) end).
Proof.
  intros Hr. unfold mp_obj_list_remove, list_index, mp_seq_index_obj. rewrite (rep_len self l Hr), (rep_items self l Hr).
  rewrite Z.sub_0_r. rewrite index_loop_spec by (pose proof (zlen_nonneg l); lia). cbn [Z.to_nat drop]. rewrite drop_0. sbind.
  destruct (list_find _ l) as [[k y]|] eqn:E; [|by eapply outcome_exn].
  apply list_find_Some in E as (Ek & _ & _). pose proof (lookup_lt_Some _ _ _ Ek) as Hk.
  destruct (pop_at self l (Some (IntArg (0 + Z.of_nat k))) k y Hr) as (self' & r & -> & Ho); [|done|].
  - rewrite Z.add_0_l. pose proof (rep_bounds self l Hr). pose proof (rep_alloc self l Hr).
    apply py_index_of; [unfold zlen|]; lia.
  - sbind. destruct Ho as [(-> & _ & l' & [] & _)|[-> Hr']]. by eapply outcome_ok.
Qed.

(** The bounds of a slice are inside the list. *)
Lemma slice_bound_range o n dflt lo hi i : slice_bound o n dflt lo hi = inr i -> lo <= hi -> lo <= dflt <= hi ->
  lo <= i <= hi.
Proof.
  unfold slice_bound. destruct o as [a|]; [|by intros [= <-]]. destruct (mp_obj_get_int a) as [|j]; [done|].
  intros [= <-]. lia.
Qed.

Lemma slice_indices_range s n ix : mp_obj_slice_indices s n = inr ix -> 0 <= n ->
  step ix <> 0 /\ (0 < step ix -> 0 <= start ix <= n /\ 0 <= stop ix <= n) /\
  (step ix < 0 -> -1 <= start ix < n /\ -1 <= stop ix < n).
Proof.
  unfold mp_obj_slice_indices. intros H Hn. destruct (match slice_step s with None => inr 1 | Some a => mp_obj_get_int a end) as [|st]; [done|].
  destruct (Z.eqb_spec st 0) as [|Hst]; [done|]. destruct (st >? 0) eqn:Es; [apply Z.gtb_lt in Es|rewrite Z.gtb_ltb in Es; apply Z.ltb_ge in Es].
  - destruct (slice_bound (slice_start s) _ _ _ _) as [|i] eqn:E1; [done|].
    destruct (slice_bound (slice_stop s) _ _ _ _) as [|j] eqn:E2; [done|]. injection H as <-. cbn [step start stop].
    apply slice_bound_range in E1, E2; lia.
  - destruct (slice_bound (slice_start s) _ _ _ _) as [|i] eqn:E1; [done|].
    destruct (slice_bound (slice_stop s) _ _ _ _) as [|j] eqn:E2; [done|]. injection H as <-. cbn [step start stop].
    apply slice_bound_range in E1, E2; lia.
Qed.

(** A slice without step: the code clamps the end to the start. *)
Lemma fast_slice s n : 0 <= n ->
  match mp_seq_get_fast_slice_indexes n s with
  | inl e => py_range n s = inl e
  | inr (false, _) => py_range n s = inl NotImplementedError
  | inr (true, ix) => py_range n s = inr (Z.to_nat (start ix), Z.to_nat (stop ix)) /\ 0 <= start ix <= stop ix /\ stop ix <= n
  end.
Proof.
  intros Hn. unfold mp_seq_get_fast_slice_indexes, py_range.
  destruct (mp_obj_slice_indices s n) as [e|ix] eqn:E; [done|].
  destruct (slice_indices_range s n ix E Hn) as (_ & Hp & _). destruct (Z.eqb_spec (step ix) 1) as [Es|]; [|done].
  rewrite Es. cbn [start stop Z.ltb Z.gtb Z.compare Pos.compare_cont andb].
  destruct Hp as [Hs He]; [lia|]. rewrite Z.gtb_ltb. destruct (Z.ltb_spec (stop ix) (start ix)).
  - rewrite Z.max_l by lia. split; [done|]. lia.
  - rewrite Z.max_r by lia. split; [done|]. lia.
Qed.

(** A list around the part [i..j] of it. *)
Lemma three_parts l i j : 0 <= i <= j -> j <= zlen l -> exists p m q,
  l = p ++ m ++ q /\ take (Z.to_nat i) l = p /\ drop (Z.to_nat j) l = q /\ zlen p = i /\ zlen m = j - i /\ zlen q = zlen l - j.
Proof.
  intros Hi Hj. exists (take (Z.to_nat i) l), (take (Z.to_nat (j - i)) (drop (Z.to_nat i) l)), (drop (Z.to_nat j) l).
  unfold zlen in *. rewrite !length_take, !length_drop. split; [|split; [done|]; split; [done|]; lia].
  rewrite <- (take_drop (Z.to_nat i) l) at 1. f_equal. rewrite <- (take_drop (Z.to_nat (j - i)) (drop _ l)) at 1.
  f_equal. rewrite drop_drop. f_equal. lia.
Qed.

(** Replacing a part by one that is not longer, then clearing what is left. *)
Lemma replace_no_grow l (p m q v : list obj) n fails : l = p ++ m ++ q -> zlen v <= zlen m -> 0 <= n ->
  1 <= zlen l + n <= MAX_SLOTS ->
  outcome mok fails l
    (b ← mp_seq_replace_slice_no_grow ((OBJ <$> l) ++ replicate (Z.to_nat n) NULLP) (zlen l) (zlen p) (zlen p + zlen m) (OBJ <$> v);
     b ← mp_seq_clear b (zlen l + (zlen v - zlen m)) (zlen l);
     Some ({| alloc := zlen l + n; len := zlen l + (zlen v - zlen m); items := b |}, inr tt)) (inr (p ++ v ++ q, tt)).
Proof.
  intros -> Hv Hn Hb. unfold mp_seq_replace_slice_no_grow. set (N := replicate (Z.to_nat n) (NULLP : slot obj)).
  set (m1 := take (Z.to_nat (zlen v)) m). set (m2 := drop (Z.to_nat (zlen v)) m).
  assert (m = m1 ++ m2) as Em by (symmetry; apply take_drop). pose proof (zlen_nonneg v).
  assert (zlen m1 = zlen v) as H1 by (apply zlen_take; lia).
  assert (zlen m2 = zlen m - zlen v) as H2 by (apply zlen_drop; lia).
  replace ((OBJ <$> (p ++ m ++ q)) ++ N) with ((OBJ <$> p) ++ (OBJ <$> m1) ++ (OBJ <$> m2) ++ (OBJ <$> q) ++ N)
    by (rewrite Em, !fmap_app, <- !app_assoc; done).
  rewrite wr_parts by zl. sbind.
  assert (exists s, zlen s = zlen m2 /\ (OBJ <$> m2) ++ (OBJ <$> q) = (take (length q) ((OBJ <$> m2) ++ (OBJ <$> q))) ++ s) as (s & Hs & Es).
  { exists (drop (length q) ((OBJ <$> m2) ++ (OBJ <$> q))). split; [|by rewrite take_drop].
    unfold zlen. rewrite length_drop, length_app, !length_fmap. lia. }
  set (t := take (length q) _) in Es.
  assert (zlen t = zlen q) as Ht by (unfold t, zlen; rewrite length_take, length_app, !length_fmap; lia).
  erewrite (mv_parts ((OBJ <$> p) ++ (OBJ <$> v)) t (s ++ N) _ _ _ _ (OBJ <$> q)).
  - sbind. replace (((OBJ <$> p) ++ (OBJ <$> v)) ++ (OBJ <$> q) ++ s ++ N) with ((OBJ <$> (p ++ v ++ q)) ++ s ++ N)
      by (rewrite !fmap_app, <- !app_assoc; done).
    rewrite mp_seq_clear_parts by zl. sbind. eapply outcome_ok; [done|].
    eapply (rep_mk' _ (n + zlen s)); [autorewrite with zlen in *; lia|zl|autorewrite with zlen in *; lia..|].
    unfold N. rewrite <- replicate_add. do 2 f_equal. pose proof (zlen_nonneg s). lia.
  - replace ((OBJ <$> p) ++ (OBJ <$> v) ++ (OBJ <$> m2) ++ (OBJ <$> q) ++ N)
      with (((OBJ <$> p) ++ (OBJ <$> v) ++ (OBJ <$> m2)) ++ (OBJ <$> q) ++ N) by (by rewrite <- !app_assoc).
    apply rd_parts; zl.
  - rewrite (app_assoc (OBJ <$> m2)), Es, <- !app_assoc. done.
  - zl.
  - zl.
Qed.

(** Replacing a part by a longer one, in a block with room for it. *)
Lemma replace_grow (p m q v : list obj) c k : zlen m < zlen v -> zlen c = zlen v - zlen m -> 0 <= k ->
  let b := (OBJ <$> (p ++ m ++ q)) ++ c ++ replicate (Z.to_nat k) NULLP in
  mp_seq_replace_slice_grow_inplace b (zlen (p ++ m ++ q)) (zlen p) (zlen p + zlen m) (OBJ <$> v) (zlen v - zlen m) =
    Some ((OBJ <$> (p ++ v ++ q)) ++ replicate (Z.to_nat k) NULLP).
Proof.
  intros Hv Hc Hk b. unfold mp_seq_replace_slice_grow_inplace. set (N := replicate (Z.to_nat k) (NULLP : slot obj)) in *.
  set (w := (OBJ <$> m) ++ (OBJ <$> q) ++ c).
  set (w1 := take (Z.to_nat (zlen v)) w). set (w2 := drop (Z.to_nat (zlen v)) w).
  assert (w = w1 ++ w2) as Ew by (symmetry; apply take_drop). pose proof (zlen_nonneg m). pose proof (zlen_nonneg q).
  assert (zlen w = zlen v + zlen q) as Hw by (unfold w; zl).
  assert (zlen w1 = zlen v) as H1 by (apply zlen_take; lia).
  assert (zlen w2 = zlen q) as H2 by (unfold w2; rewrite zlen_drop; lia).
  assert (b = (OBJ <$> p) ++ w ++ N) as Eb by (unfold b, w; rewrite !fmap_app, <- !app_assoc; done).
  erewrite (mv_parts ((OBJ <$> p) ++ w1) w2 N _ _ _ _ (OBJ <$> q)).
  - sbind. rewrite <- app_assoc. rewrite wr_parts by zl. rewrite !fmap_app, <- !app_assoc. done.
  - replace b with (((OBJ <$> p) ++ (OBJ <$> m)) ++ (OBJ <$> q) ++ c ++ N) by (unfold b; rewrite !fmap_app, <- !app_assoc; done).
    apply rd_parts; zl.
  - rewrite Eb, Ew, <- !app_assoc. done.
  - zl.
  - zl.
Qed.

Lemma delete_slice_spec self l s : list_rep self l ->
  outcome mok (fun _ => False) l (list_delete mok self (Slice s))
    (match py_range (zlen l) s with inl e => inl e | inr (i, j) => inr (take i l ++ drop j l, tt) end).
Proof.
  intros Hr. unfold list_delete. rewrite (rep_len self l Hr). pose proof (fast_slice s (zlen l) (zlen_nonneg l)) as Hf.
  destruct (mp_seq_get_fast_slice_indexes _ _) as [e|[[] ix]]; [rewrite Hf; by eapply outcome_exn| |rewrite Hf; by eapply outcome_exn].
  destruct Hf as (-> & Hi & Hj). destruct (rep_eq self l Hr) as (n & Hn & Hb & ->). cbn [alloc len items].
  rewrite Z.gtb_ltb. destruct (Z.ltb_spec 0 (start ix - stop ix)); [lia|].
  destruct (three_parts l (start ix) (stop ix) Hi Hj) as (p & m & q & El & -> & -> & Hp & Hm & Hq).
  pose proof (replace_no_grow l p m q [] n (fun _ => False) El) as H1. rewrite zlen_nil in H1. cbn [app fmap list_fmap] in H1.
  replace (stop ix) with (zlen p + zlen m) by lia. rewrite <- Hp.
  replace (zlen p - (zlen p + zlen m)) with (0 - zlen m) by lia. apply H1; try done. apply zlen_nonneg.
Qed.

Lemma store_slice_spec self l s v : list_rep self l -> zlen v <= MAX_SLOTS ->
  outcome mok (eq l) l (list_store_slice mok self s v)
    (match py_range (zlen l) s with inl e => inl e | inr (i, j) => inr (take i l ++ v ++ drop j l, tt) end).
Proof.
  intros Hr Hv. unfold list_store_slice. rewrite (rep_len self l Hr). pose proof (fast_slice s (zlen l) (zlen_nonneg l)) as Hf.
  destruct (mp_seq_get_fast_slice_indexes _ _) as [e|[[] ix]]; [rewrite Hf; by eapply outcome_exn| |rewrite Hf; by eapply outcome_exn].
  destruct Hf as (-> & Hi & Hj). destruct (rep_eq self l Hr) as (n & Hn & Hb & E). rewrite E. cbn [alloc len items].
  destruct (three_parts l (start ix) (stop ix) Hi Hj) as (p & m & q & El & -> & -> & Hp & Hm & Hq).
  replace (stop ix) with (zlen p + zlen m) by lia. rewrite <- Hp.
  replace (zlen v - (zlen p + zlen m - zlen p)) with (zlen v - zlen m) by lia. cbn zeta.
  rewrite Z.gtb_ltb. destruct (Z.ltb_spec 0 (zlen v - zlen m)) as [G|]; [|apply replace_no_grow; [done|lia..]].
  pose proof (zlen_nonneg m). pose proof (zlen_nonneg l). unfold MAX_SLOTS in *.
  rewrite Z.gtb_ltb. destruct (Z.ltb_spec (zlen l + n) (zlen l + (zlen v - zlen m))) as [L|].
  - destruct (m_renew_grow mok mok_max ((OBJ <$> l) ++ replicate (Z.to_nat n) NULLP) (zlen l + (zlen v - zlen m)))
      as [(c & -> & Hc & Hmx)|[-> ?]]; [zl|zl|unfold MAX_SLOTS; zl| |].
    2: { rewrite <- E. eapply outcome_nomem; [done|done|reflexivity|exact Hr]. }
    subst l. autorewrite with zlen in Hc.
    pose proof (replace_grow p m q v (replicate (Z.to_nat n) NULLP ++ c) 0) as Hg. cbn zeta in Hg.
    change (replicate (Z.to_nat 0) NULLP) with (@nil (slot obj)) in Hg. rewrite !app_nil_r in Hg.
    rewrite <- app_assoc. rewrite Hg by zl. sbind. eapply outcome_ok; [done|].
    unfold MAX_SLOTS in Hmx. autorewrite with zlen in *.
    eapply (rep_mk' _ 0); [..|by rewrite app_nil_r]; unfold MAX_SLOTS; zl.
  - replace (replicate (Z.to_nat n) NULLP) with
      (replicate (Z.to_nat (zlen v - zlen m)) NULLP ++ replicate (Z.to_nat (n - (zlen v - zlen m))) (NULLP : slot obj))
      by (rewrite <- replicate_add; f_equal; lia).
    pose proof (replace_grow p m q v (replicate (Z.to_nat (zlen v - zlen m)) NULLP) (n - (zlen v - zlen m))) as Hg.
    cbn zeta in Hg. rewrite <- El in Hg. rewrite Hg by zl. sbind. eapply outcome_ok; [done|].
    eapply (rep_mk' _ (n - (zlen v - zlen m))); [..|done]; unfold MAX_SLOTS; rewrite ?El in *; autorewrite with zlen in *; lia.
Qed.
End ops.

(** * All of them *)

(** The items given to an operation are those of another object in memory. *)
Definition op_fits {obj} (op : list_op (obj := obj)) : Prop :=
  match op with Extend arg | StoreSlice _ arg => zlen arg <= MAX_SLOTS | _ => True end.

Section run_spec.
Context {obj : Type} (mok : Z -> bool) (mok_max : forall n, mok n = true -> n <= 4 * MAX_SLOTS)
  (mp_obj_equal : obj -> obj -> bool) (none : obj).
Implicit Types (self : mp_obj_list_t obj) (l : list obj).

Lemma no_result_outcome {A} fails l r (spec : exn + list obj * A) : outcome mok fails l r spec ->
  outcome mok fails l (no_result r) (match spec with inl e => inl e | inr (l', _) => inr (l', None) end).
Proof.
  intros (self & x & -> & H). unfold no_result. sbind. eexists _, _. split; [done|].
  destruct H as [(-> & H)|H]; [by left|]. right. destruct spec as [e|[l' a]]; destruct H as [-> H]; done.
Qed.

Lemma outcome_weaken {A} (f f' : list obj -> Prop) l r (spec : exn + list obj * A) : (forall x, f x -> f' x) ->
  outcome mok f l r spec -> outcome mok f' l r spec.
Proof.
  intros Hf (self & x & -> & H). eexists _, _. split; [done|]. destruct H as [(-> & Hm & l' & Hl & Hr)|H]; [|by right].
  left. split; [done|]. split; [done|]. eauto.
Qed.

Lemma pop_spec self l i : list_rep self l ->
  outcome mok (fun _ => False) l (list_pop mok self i)
    (match l with
     | [] => inl IndexError
     | _ => match py_index (zlen l) (default (IntArg (-1)) i) with
            | inl e => inl e
            | inr k => match l !! k with Some x => inr (delete k l, x) | None => inl IndexError end
            end
     end).
Proof.
  intros Hr. destruct (decide (l = [])) as [->|Hne].
  { unfold list_pop. rewrite (rep_len self [] Hr). cbn. by eapply outcome_exn. }
  destruct (py_index (zlen l) (default (IntArg (-1)) i)) as [e|k] eqn:Hi.
  - destruct l as [|y l]; [done|]. unfold list_pop. rewrite (rep_len self _ Hr).
    pose proof (zlen_nonneg l). rewrite zlen_cons in *. destruct (Z.eqb_spec (1 + zlen l) 0); [lia|].
    rewrite index_eq, Hi. by eapply outcome_exn.
  - pose proof (py_index_lt _ _ _ Hi). destruct (lookup_lt_is_Some_2 l k) as [x Ex]; [unfold zlen in *; lia|].
    pose proof (pop_at mok self l i k x Hr Hi Ex) as Hp. destruct l; [done|]. by rewrite Ex.
Qed.

(** The operations of the code do what the abstract ones say. *)
Lemma run_op_spec op self l : list_rep self l -> op_fits op ->
  outcome mok (spec_fails op l) l (run_op mok mp_obj_equal none op self) (spec_op mp_obj_equal op l).
Proof.
  intros Hr Hf. destruct op as [x|arg| |arg|i| |word x|x| |i x|i|s v|s]; cbn [run_op spec_op spec_fails].
  - apply (no_result_outcome (eq l) l _ (inr (l ++ [x], tt))), append_spec; done.
  - apply (no_result_outcome (eq l) l _ (inr (l ++ arg, tt))). cbn [list_extend len items].
    apply (extend_spec mok mok_max self l arg (fun _ => OBJ <$> arg) (fun _ => [])); [done|exact Hf|].
    intros _. by rewrite app_nil_r.
  - apply (no_result_outcome (eq l) l _ (inr (l ++ l, tt))). cbn [list_extend]. rewrite (rep_len self l Hr).
    pose proof (rep_alloc self l Hr). pose proof (rep_bounds self l Hr).
    pose proof (extend_spec mok mok_max self l l (fun b => b) (fun c => c) Hr ltac:(lia) ltac:(done)) as He.
    by rewrite (rep_len self l Hr) in He.
  - apply (no_result_outcome _ l _ (inr (l ++ arg, tt))). cbn [list_extend]. by apply extend_from_iter_spec.
  - destruct (pop_spec self l i Hr) as (self' & r & -> & H). sbind. eexists _, _. split; [done|].
    destruct H as [(-> & _ & l' & [] & _)|H]. right. destruct l as [|y l]; [by destruct H as [-> H]|].
    destruct (py_index _ _) as [e|k] eqn:Hi; [by destruct H as [-> H]|].
    pose proof (py_index_lt _ _ _ Hi). destruct (lookup_lt_is_Some_2 (y :: l) k) as [x Ex]; [unfold zlen in *; lia|].
    rewrite Ex in *. by destruct H as [-> H].
  - apply (no_result_outcome _ l _ (inr ([], tt))). by apply clear_spec.
  - apply (no_result_outcome (eq l) l _ (inr (_, tt))). by apply insert_spec.
  - pose proof (no_result_outcome _ l _ _ (remove_spec mok mp_obj_equal self l x Hr)) as H.
    by destruct (list_find _ l) as [[k y]|].
  - destruct (reverse_ok self l Hr) as (self' & -> & Hr'). sbind. by eapply outcome_ok.
  - pose proof (no_result_outcome _ l _ _ (store_spec mok self l i x Hr)) as H. by destruct (py_index (zlen l) i).
  - cbn [list_delete]. destruct (pop_spec self l (Some i) Hr) as (self' & r & -> & H). sbind. unfold no_result. sbind.
    eexists _, _. split; [done|].
    destruct H as [(-> & _ & l' & [] & _)|H]. right. destruct l as [|y l]; [by destruct H as [-> H]|]. cbn [default] in H.
    change (id i) with i in H. destruct (py_index _ _) as [e|k] eqn:Hi; [by destruct H as [-> H]|].
    pose proof (py_index_lt _ _ _ Hi). destruct (lookup_lt_is_Some_2 (y :: l) k) as [x Ex]; [unfold zlen in *; lia|].
    rewrite Ex in *. by destruct H as [-> H].
  - pose proof (no_result_outcome _ l _ _ (store_slice_spec mok mok_max self l s v Hr Hf)) as H.
    by destruct (py_range (zlen l) s) as [e|[i j]].
  - pose proof (no_result_outcome _ l _ _ (delete_slice_spec mok self l s Hr)) as H.
    by destruct (py_range (zlen l) s) as [e|[i j]].
Qed.
End run_spec.
