(* ===== verification/ListSort.v ===== *)
(** Sorting lists: [mp_quicksort] and [mp_obj_list_sort] of [py/objlist.c].

    Whatever the comparison answers, sorting ends, stays inside the block,
    permutes the items and nests at most [log2] of their number calls; when the
    comparison is a strict weak order the items come out sorted. *)

From Stdlib Require Import ZArith Lia.
From stdpp Require Import base option list numbers.
From S2P Require Import Prelude Lists ListSpec.

(** * Definitions *)

Section sort.
Context {obj : Type} (mp_binary_op_less : obj -> obj -> bool).

Abbreviation slot := (slot obj).

(** [key_fn] is [None] for [MP_OBJ_NULL]. *)
Context (key_fn : option (obj -> obj)) (binop_less_result : bool).

Definition sort_key (o : obj) : obj := match key_fn with None => o | Some f => f o end.

(** [do { ++h; } while (h < t && h[0] < v)], and the same from above. *)
Fixpoint scan_up (fuel : nat) (b : list slot) (h t : Z) (v : obj) : option Z :=
  match fuel with
  | O => None
  | S fuel =>
      let h := h + 1 in
      if h <? t then
        o ← obj_at b h;
        if eqb (mp_binary_op_less (sort_key o) v) binop_less_result then scan_up fuel b h t v else Some h
      else Some h
  end.

Fixpoint scan_down (fuel : nat) (b : list slot) (h t : Z) (v : obj) : option Z :=
  match fuel with
  | O => None
  | S fuel =>
      let t := t - 1 in
      if h <? t then
        o ← obj_at b t;
        if eqb (mp_binary_op_less v (sort_key o)) binop_less_result then scan_down fuel b h t v else Some t
      else Some t
  end.

Definition swap (b : list slot) (i j : Z) : option (list slot) :=
  x ← slot_at b i;
  y ← slot_at b j;
  b ← put b i y;
  put b j x.

(** The inner loop: the block, [h] and [t] where it breaks. *)
Fixpoint partition (fuel : nat) (b : list slot) (h t : Z) (v : obj) : option (list slot * Z * Z) :=
  match fuel with
  | O => None
  | S fuel =>
      h ← scan_up (S (length b)) b h t v;
      t ← scan_down (S (length b)) b h t v;
      if t <=? h then Some (b, h, t) else
      b ← swap b h t; partition fuel b h t v
  end.

(** The loop over [head < tail]; [rec] is the recursive call. *)
Fixpoint quicksort_loop (rec : list slot -> Z -> Z -> option (list slot)) (fuel : nat) (b : list slot) (head tail : Z)
    : option (list slot) :=
  if head <? tail then
    match fuel with
    | O => None
    | S fuel =>
        o ← obj_at b tail;
        '(b, h, t) ← partition (S (length b)) b (head - 1) tail (sort_key o);
        b ← swap b h tail;
        if t - head <? tail - h - 1
        then b ← rec b head t; quicksort_loop rec fuel b (h + 1) tail
        else b ← rec b (h + 1) tail; quicksort_loop rec fuel b head t
    end
  else Some b.

(** At most [depth] calls nest. *)
Fixpoint mp_quicksort (depth : nat) (b : list slot) (head tail : Z) : option (list slot) :=
  match depth with
  | O => None
  | S depth => quicksort_loop (mp_quicksort depth) (length b) b head tail
  end.
End sort.

(** [depth] is what the stack allows. *)
Definition mp_obj_list_sort {obj} (less : obj -> obj -> bool) (depth : nat) (self : mp_obj_list_t obj)
    (key_fn : option (obj -> obj)) (reverse : bool) : option (mp_obj_list_t obj) :=
  if len self >? 1 then
    b ← mp_quicksort less key_fn (negb reverse) depth (items self) 0 (len self - 1);
    Some {| alloc := alloc self; len := len self; items := b |}
  else Some self.

(** * Swapping *)

Section swaps.
Context {obj : Type}.
Implicit Types (b : list (slot obj)) (i j k lo hi : Z).

Lemma swap_spec b i j x y : slot_at b i = Some x -> slot_at b j = Some y ->
  exists b', swap b i j = Some b' /\ zlen b' = zlen b /\ b' ≡ₚ b /\
    forall k, slot_at b' k = if k =? j then Some x else if k =? i then Some y else slot_at b k.
Proof.
  intros Hx Hy. pose proof (slot_at_range _ _ _ Hx) as Ri. pose proof (slot_at_range _ _ _ Hy) as Rj.
  unfold swap. rewrite Hx, Hy. sbind. rewrite put_insert by done. sbind.
  rewrite put_insert by (by rewrite zlen_insert). eexists. split; [done|].
  rewrite !zlen_insert. split; [done|]. split.
  - rewrite slot_at_lookup in Hx, Hy by lia. by apply Permutation_insert_swap.
  - intros k. rewrite !slot_at_insert by (rewrite ?zlen_insert; done). done.
Qed.

(** [b'] is [b] after exchanges of slots between [lo] and [hi]. *)
Inductive swaps lo hi : list (slot obj) -> list (slot obj) -> Prop :=
  | swaps_refl b : swaps lo hi b b
  | swaps_step b b1 b2 i j x y : lo <= i <= hi -> lo <= j <= hi ->
      slot_at b i = Some x -> slot_at b j = Some y -> swap b i j = Some b1 -> swaps lo hi b1 b2 -> swaps lo hi b b2.

Lemma swaps_trans lo hi b1 b2 b3 : swaps lo hi b1 b2 -> swaps lo hi b2 b3 -> swaps lo hi b1 b3.
Proof. induction 1 as [|b b1 b2 i j x y]; [done|]. intros. apply (swaps_step lo hi b b1 b3 i j x y); auto. Qed.

Lemma swaps_widen lo hi lo' hi' b b' : lo' <= lo -> hi <= hi' -> swaps lo hi b b' -> swaps lo' hi' b b'.
Proof.
  intros ??. induction 1 as [|b b1 b2 i j x y]; [constructor|].
  apply (swaps_step lo' hi' b b1 b2 i j x y); auto; lia.
Qed.

Lemma swaps_perm lo hi b b' : swaps lo hi b b' -> b' ≡ₚ b.
Proof.
  induction 1 as [|b b1 b2 i j x y _ _ Hx Hy E _ IH]; [done|].
  destruct (swap_spec b i j x y Hx Hy) as (b1' & E' & _ & P & _). rewrite IH. congruence.
Qed.

Lemma swaps_zlen lo hi b b' : swaps lo hi b b' -> zlen b' = zlen b.
Proof. intros H%swaps_perm. unfold zlen. by rewrite H. Qed.

Lemma swaps_outside lo hi b b' k : swaps lo hi b b' -> k < lo \/ hi < k -> slot_at b' k = slot_at b k.
Proof.
  induction 1 as [|b b1 b2 i j x y Hi Hj Hx Hy E _ IH]; [done|]. intros Hk.
  destruct (swap_spec b i j x y Hx Hy) as (b1' & E' & _ & _ & P). rewrite E in E'. injection E' as <-.
  rewrite IH, P by done.
  by replace (k =? j) with false by lia; replace (k =? i) with false by lia.
Qed.

(** Every slot of a part of the block satisfies [P]. *)
Definition all_in (P : slot obj -> Prop) lo hi b : Prop :=
  forall k, lo <= k <= hi -> exists s, slot_at b k = Some s /\ P s.

Lemma swaps_all_in P lo hi lo' hi' b b' : swaps lo hi b b' -> lo' <= lo -> hi <= hi' ->
  all_in P lo' hi' b -> all_in P lo' hi' b'.
Proof.
  intros H ??. induction H as [|b b1 b2 i j x y Hi Hj Hx Hy E _ IH]; [done|]. intros HP. apply IH.
  destruct (swap_spec b i j x y Hx Hy) as (b1' & E' & _ & _ & Hk). rewrite E in E'. injection E' as <-.
  intros k Rk. rewrite Hk.
  destruct (Z.eqb_spec k j); [|destruct (Z.eqb_spec k i); [|by apply HP]].
  - destruct (HP i) as (s & Hs & ?); [lia|]. exists s. split; congruence.
  - destruct (HP j) as (s & Hs & ?); [lia|]. exists s. split; congruence.
Qed.

Lemma all_in_weaken P Q lo hi lo' hi' b : (forall s, P s -> Q s) -> lo <= lo' -> hi' <= hi ->
  all_in P lo hi b -> all_in Q lo' hi' b.
Proof. intros HPQ ?? HP k Hk. destruct (HP k) as (s & ? & ?); [lia|]. eauto. Qed.

Lemma all_in_outside P lo hi lo' hi' b b' : swaps lo hi b b' -> hi' < lo \/ hi < lo' ->
  all_in P lo' hi' b -> all_in P lo' hi' b'.
Proof.
  intros Hs Hd HP k Hk. destruct (HP k Hk) as (s & E & ?). exists s. split; [|done].
  rewrite (swaps_outside _ _ _ _ _ Hs); [done|lia].
Qed.

Lemma all_in_empty P lo hi b : hi < lo -> all_in P lo hi b.
Proof. intros ? k ?. lia. Qed.

Lemma all_in_snoc P lo hi b s : all_in P lo (hi - 1) b -> slot_at b hi = Some s -> P s -> all_in P lo hi b.
Proof. intros HP E Hs k Hk. destruct (Z.eq_dec k hi) as [->|]; [eauto|]. apply HP. lia. Qed.

Lemma all_in_cons P lo hi b s : all_in P (lo + 1) hi b -> slot_at b lo = Some s -> P s -> all_in P lo hi b.
Proof. intros HP E Hs k Hk. destruct (Z.eq_dec k lo) as [->|]; [eauto|]. apply HP. lia. Qed.
End swaps.

(** * Partitioning *)

Section partition.
Context {obj : Type} (less : obj -> obj -> bool) (key_fn : option (obj -> obj)) (r : bool).
Implicit Types (b : list (slot obj)) (h t head tail : Z) (v : obj).

Abbreviation key := (sort_key key_fn).

(** What the scans pass, and what stops them, from below and from above. *)
Definition below v (s : slot obj) : Prop :=
  exists o, s = OBJ o /\ (eqb (less (key o) v) r = true \/ eqb (less v (key o)) r = false).
Definition above v (s : slot obj) : Prop :=
  exists o, s = OBJ o /\ (eqb (less (key o) v) r = false \/ eqb (less v (key o)) r = true).

Definition is_obj (s : slot obj) : Prop := exists o, s = OBJ o.

Lemma all_in_obj_at lo hi b k : all_in is_obj lo hi b -> lo <= k <= hi ->
  exists o, obj_at b k = Some o /\ slot_at b k = Some (OBJ o).
Proof. intros H Hk. destruct (H k Hk) as (s & E & o & ->). exists o. by rewrite obj_at_slot. Qed.

Lemma scan_up_spec fuel b h t v lo hi : all_in is_obj lo hi b -> lo - 1 <= h < t -> t <= hi + 1 ->
  t - h <= Z.of_nat fuel ->
  exists h', scan_up less key_fn r fuel b h t v = Some h' /\ h < h' <= t /\ all_in (below v) (h + 1) (h' - 1) b /\
    (h' < t -> exists s, slot_at b h' = Some s /\ above v s).
Proof.
  intros Hobj. revert h. induction fuel as [|fuel IH]; intros h Hh Ht Hf; [lia|]. cbn [scan_up].
  destruct (Z.ltb_spec (h + 1) t) as [L|].
  - destruct (all_in_obj_at lo hi b (h + 1) Hobj ltac:(lia)) as (o & -> & Es). sbind.
    destruct (eqb (less (key o) v) r) eqn:E.
    + destruct (IH (h + 1)) as (h' & -> & ? & Hb & Hs); [lia..|]. exists h'.
      split; [done|]. split; [lia|]. split; [|done].
      eapply all_in_cons; [exact Hb|exact Es|]. exists o. auto.
    + exists (h + 1). split; [done|]. split; [lia|]. split; [apply all_in_empty; lia|].
      intros _. exists (OBJ o). split; [done|]. exists o. auto.
  - exists (h + 1). split; [done|]. split; [lia|]. split; [apply all_in_empty; lia|lia].
Qed.

Lemma scan_down_spec fuel b h t v lo hi : all_in is_obj lo hi b -> lo <= h <= t -> t <= hi + 1 ->
  t - h < Z.of_nat fuel ->
  exists t', scan_down less key_fn r fuel b h t v = Some t' /\ t' < t /\ (h <= t' \/ t = h /\ t' = h - 1) /\
    all_in (above v) (t' + 1) (t - 1) b /\ (h < t' -> exists s, slot_at b t' = Some s /\ below v s).
Proof.
  intros Hobj. revert t. induction fuel as [|fuel IH]; intros t Hh Ht Hf; [lia|]. cbn [scan_down].
  destruct (Z.ltb_spec h (t - 1)) as [L|].
  - destruct (all_in_obj_at lo hi b (t - 1) Hobj ltac:(lia)) as (o & -> & Es). sbind.
    destruct (eqb (less v (key o)) r) eqn:E.
    + destruct (IH (t - 1)) as (t' & -> & ? & ? & Hb & Hs); [lia..|]. exists t'.
      split; [done|]. split; [lia|]. split; [lia|]. split; [|done].
      eapply all_in_snoc; [exact Hb|exact Es|]. exists o. auto.
    + exists (t - 1). split; [done|]. split; [lia|]. split; [lia|]. split; [apply all_in_empty; lia|].
      intros _. exists (OBJ o). split; [done|]. exists o. auto.
  - exists (t - 1). split; [done|]. split; [lia|]. split; [lia|]. split; [apply all_in_empty; lia|lia].
Qed.

(** The items below [h] belong below the pivot, those from [h] on above; [h] and
    [t] have met. *)
Lemma partition_spec fuel b h t v head tail : all_in is_obj head tail b ->
  head - 1 <= h < t -> t <= tail -> t - h <= Z.of_nat fuel -> tail - head < Z.of_nat (length b) ->
  all_in (below v) head h b -> all_in (above v) t (tail - 1) b ->
  exists b' h' t', partition less key_fn r fuel b h t v = Some (b', h', t') /\
    swaps head (tail - 1) b b' /\ head <= h' <= tail /\ (t' = h' - 1 \/ t' = h' /\ h' < tail) /\
    all_in (below v) head (h' - 1) b' /\ all_in (above v) h' (tail - 1) b'.
Proof.
  revert b h t. induction fuel as [|fuel IH]; intros b h t Hobj Hh Ht Hf Hlen Hlo Hhi; [lia|]. cbn [partition].
  destruct (scan_up_spec (S (length b)) b h t v head tail) as (h1 & -> & Hh1 & Hb & Hs); [done|lia..|]. sbind.
  destruct (scan_down_spec (S (length b)) b h1 t v head tail) as (t1 & -> & Ht1 & Hc & Hb' & Hs'); [done|lia..|]. sbind.
  assert (all_in (below v) head (h1 - 1) b) as Hlo1.
  { intros k Hk. destruct (Z.le_gt_cases k h); [apply Hlo; lia|apply Hb; lia]. }
  assert (all_in (above v) (t1 + 1) (tail - 1) b) as Hhi1.
  { intros k Hk. destruct (Z.lt_ge_cases k t); [apply Hb'; lia|apply Hhi; lia]. }
  destruct (Z.leb_spec t1 h1) as [Le|Gt].
  - exists b, h1, t1. split; [done|]. split; [constructor|]. split; [lia|]. split; [lia|]. split; [done|].
    destruct (Z.lt_ge_cases h1 t) as [Hlt|].
    + destruct (Hs Hlt) as (s & Es & Hs1). destruct Hc as [|]; [|lia].
      eapply all_in_cons; [|exact Es|done]. eapply all_in_weaken; [done| |reflexivity|exact Hhi1]. lia.
    + eapply all_in_weaken; [done| |reflexivity|exact Hhi]. lia.
  - destruct (Hs ltac:(lia)) as (x & Ex & Hx). destruct (Hs' Gt) as (y & Ey & Hy).
    destruct (swap_spec b h1 t1 x y Ex Ey) as (b1 & Eb & Hz & _ & Hk). rewrite Eb. sbind.
    assert (swaps head (tail - 1) b b1) as Hsw.
    { apply (swaps_step head (tail - 1) b b1 b1 h1 t1 x y); [lia|lia|done..|constructor]. }
    destruct (IH b1 h1 t1) as (b' & h' & t' & -> & Hsw' & ?); [..|].
    + eapply swaps_all_in; [exact Hsw|reflexivity| |done]. lia.
    + lia.
    + lia.
    + lia.
    + unfold zlen in Hz. lia.
    + intros k Rk. rewrite Hk. replace (k =? t1) with false by lia.
      destruct (Z.eqb_spec k h1); [by eauto|apply Hlo1; lia].
    + intros k Rk. rewrite Hk. destruct (Z.eqb_spec k t1); [by eauto|].
      replace (k =? h1) with false by lia. apply Hhi1. lia.
    + exists b', h', t'. split; [done|]. split; [by eapply swaps_trans|done].
Qed.
End partition.

(** * Sorting *)

(** Python's requirement on [<]: a strict weak order. *)
Class StrictWeakOrder {A} (less : A -> A -> bool) : Prop := {
  less_asym : forall a b, less a b = true -> less b a = false;
  less_neg_trans : forall a b c, less a b = false -> less b c = false -> less a c = false;
}.

Section quicksort.
Context {obj : Type} (less : obj -> obj -> bool) (key_fn : option (obj -> obj)) (r : bool).
Implicit Types (b : list (slot obj)) (h t head tail : Z) (v x y : obj).

Abbreviation key := (sort_key key_fn).

(** [x] may come before [y]: ascending keys, or descending ones. *)
Definition in_order x y : bool := if r then negb (less (key y) (key x)) else negb (less (key x) (key y)).

Definition sorted_in lo hi b : Prop :=
  forall i j x y, lo <= i < j -> j <= hi -> obj_at b i = Some x -> obj_at b j = Some y -> in_order x y = true.

Section order.
Context `{StrictWeakOrder obj less}.

Lemma in_order_trans x y z : in_order x y = true -> in_order y z = true -> in_order x z = true.
Proof.
  unfold in_order. destruct r; rewrite !negb_true_iff; intros; by eapply less_neg_trans.
Qed.

Lemma in_order_refl x : in_order x x = true.
Proof.
  unfold in_order. destruct r; rewrite negb_true_iff; destruct (less (key x) (key x)) eqn:E; try done;
    pose proof (less_asym _ _ E); congruence.
Qed.

Lemma below_in_order x y : below less key_fn r (key y) (OBJ x) -> in_order x y = true.
Proof.
  intros (o & [= <-] & [E|E]); unfold in_order; destruct r, (less _ _) eqn:L in E; try discriminate E;
    rewrite ?L; try done; by rewrite (less_asym _ _ L).
Qed.

Lemma above_in_order x y : above less key_fn r (key y) (OBJ x) -> in_order y x = true.
Proof.
  intros (o & [= <-] & [E|E]); unfold in_order; destruct r, (less _ _) eqn:L in E; try discriminate E;
    rewrite ?L; try done; by rewrite (less_asym _ _ L).
Qed.

(** Two sorted parts around a pivot. *)
Lemma sorted_join lo h t hi b v :
  all_in (fun s => exists o, s = OBJ o /\ in_order o v = true) lo h b ->
  all_in (fun s => exists o, s = OBJ o /\ in_order v o = true) (h + 1) hi b ->
  t = h \/ t = h - 1 /\ obj_at b h = Some v ->
  sorted_in lo t b -> sorted_in (h + 1) hi b -> sorted_in lo hi b.
Proof.
  intros Hl Hr Ht S1 S2 i j x y Hi Hj Ex Ey.
  assert (forall k z, lo <= k <= h -> obj_at b k = Some z -> in_order z v = true) as Hl'.
  { intros k z Hk Ez. apply obj_at_slot in Ez. destruct (Hl k Hk) as (s & Es & o & -> & ?). congruence. }
  destruct (Z.le_gt_cases j h) as [Jh|Jh].
  - destruct Ht as [->|[-> Ev]]; [by eapply S1; eauto; lia|].
    destruct (Z.eq_dec j h) as [->|]; [|eapply (S1 i j); eauto; lia].
    assert (y = v) as -> by congruence. apply (Hl' i); [lia|done].
  - destruct (Z.le_gt_cases i h) as [Ih|Ih]; [|eapply (S2 i j); eauto; lia].
    apply (in_order_trans x v y); [apply (Hl' i); [lia|done]|].
    destruct (Hr j) as (s & Es & o & -> & ?); [lia|]. apply obj_at_slot in Ey. congruence.
Qed.
End order.

(** What sorting [head..tail] does. *)
Definition sorts head tail b b' : Prop :=
  swaps head tail b b' /\ (StrictWeakOrder less -> sorted_in head tail b').

(** Sorts every part of at most [n] items. *)
Definition sorter (f : list (slot obj) -> Z -> Z -> option (list (slot obj))) (n : Z) : Prop :=
  forall b head tail, 0 <= head <= tail + 1 -> tail < zlen b -> all_in is_obj head tail b -> tail - head + 1 < n ->
    exists b', f b head tail = Some b' /\ sorts head tail b b'.

(** After the pivot is in place. *)
Lemma pivot_placed b b1 b2 head h tail o : head <= h <= tail -> swaps head (tail - 1) b b1 ->
  all_in (below less key_fn r (key o)) head (h - 1) b1 -> all_in (above less key_fn r (key o)) h (tail - 1) b1 ->
  slot_at b tail = Some (OBJ o) -> swap b1 h tail = Some b2 ->
  swaps head tail b b2 /\ slot_at b2 h = Some (OBJ o) /\
  (StrictWeakOrder less ->
   all_in (fun s => exists x, s = OBJ x /\ in_order x o = true) head h b2 /\
   all_in (fun s => exists x, s = OBJ x /\ in_order o x = true) (h + 1) tail b2).
Proof.
  intros Hh Hsw Hb Ha Eo E2.
  assert (slot_at b1 tail = Some (OBJ o)) as Et by (rewrite (swaps_outside _ _ _ _ _ Hsw); [done|lia]).
  assert (exists s, slot_at b1 h = Some s /\ (h < tail -> above less key_fn r (key o) s)) as (s & Es & Hs).
  { destruct (Z.eq_dec h tail) as [->|]; [exists (OBJ o); split; [done|lia]|].
    destruct (Ha h) as (s & ? & ?); [lia|]. eauto. }
  destruct (swap_spec b1 h tail s (OBJ o) Es Et) as (b2' & E2' & _ & _ & Hk). rewrite E2 in E2'. injection E2' as <-.
  assert (swaps head tail b1 b2) as Hs2.
  { apply (swaps_step head tail b1 b2 b2 h tail s (OBJ o)); [lia|lia|done..|constructor]. }
  split; [eapply swaps_trans; [|exact Hs2]; eapply swaps_widen; [| |exact Hsw]; lia|].
  assert (slot_at b2 h = Some (OBJ o)) as E2h.
  { rewrite Hk. destruct (Z.eqb_spec h tail) as [->|]; [congruence|]. by rewrite Z.eqb_refl. }
  split; [done|]. intros Hswo. split.
  - eapply all_in_snoc; [|exact E2h|by eexists; split; [done|apply in_order_refl]].
    intros k Rk. rewrite Hk. replace (k =? tail) with false by lia. replace (k =? h) with false by lia.
    destruct (Hb k Rk) as (s' & ? & Hx). exists s'. split; [done|]. pose proof Hx as (x & -> & _). exists x.
    split; [done|]. by apply below_in_order.
  - intros k Rk. rewrite Hk. replace (k =? h) with false by lia.
    assert (forall s', above less key_fn r (key o) s' -> exists x, s' = OBJ x /\ in_order o x = true) as Hab.
    { intros s' Hx. pose proof Hx as (x & -> & _). exists x. split; [done|]. by apply above_in_order. }
    destruct (Z.eqb_spec k tail); [exists s; split; [done|]; apply Hab, Hs; lia|].
    destruct (Ha k) as (s' & ? & ?); [lia|]. exists s'. split; [done|]. by apply Hab.
Qed.

(** Both parts sorted, the pivot between them. *)
Lemma sorts_join head h t tail b b2 b3 b4 o : head <= h <= tail -> (t = h - 1 \/ t = h /\ h < tail) ->
  swaps head tail b b2 -> slot_at b2 h = Some (OBJ o) ->
  (StrictWeakOrder less ->
   all_in (fun s => exists x, s = OBJ x /\ in_order x o = true) head h b2 /\
   all_in (fun s => exists x, s = OBJ x /\ in_order o x = true) (h + 1) tail b2) ->
  sorts head t b2 b3 /\ sorts (h + 1) tail b3 b4 \/ sorts (h + 1) tail b2 b3 /\ sorts head t b3 b4 ->
  sorts head tail b b4.
Proof.
  intros Hh Ht Hsw Eo Hp [[[W1 S1] [W2 S2]]|[[W2 S2] [W1 S1]]].
  - split.
    { eapply swaps_trans; [exact Hsw|]. eapply swaps_trans; eapply swaps_widen; [| |exact W1| | |exact W2]; lia. }
    intros Hswo. destruct (Hp Hswo) as [Hl Hr]. apply (sorted_join head h t tail b4 o); try done.
    + eapply all_in_outside; [exact W2|lia|]. eapply swaps_all_in; [exact W1|lia|lia|done].
    + eapply swaps_all_in; [exact W2|lia|lia|]. eapply all_in_outside; [exact W1|lia|done].
    + destruct Ht as [->|[-> ?]]; [right|by left]. split; [done|]. rewrite obj_at_slot.
      rewrite (swaps_outside _ _ _ _ _ W2), (swaps_outside _ _ _ _ _ W1) by lia. done.
    + intros i j x y Hi Hj. specialize (S1 Hswo i j x y Hi Hj). rewrite !obj_at_slot in *.
      rewrite !(swaps_outside _ _ _ _ _ W2) by lia. done.
    + by apply S2.
  - split.
    { eapply swaps_trans; [exact Hsw|]. eapply swaps_trans; eapply swaps_widen; [| |exact W2| | |exact W1]; lia. }
    intros Hswo. destruct (Hp Hswo) as [Hl Hr]. apply (sorted_join head h t tail b4 o); try done.
    + eapply swaps_all_in; [exact W1|lia|lia|]. eapply all_in_outside; [exact W2|lia|done].
    + eapply all_in_outside; [exact W1|lia|]. eapply swaps_all_in; [exact W2|lia|lia|done].
    + destruct Ht as [->|[-> ?]]; [right|by left]. split; [done|]. rewrite obj_at_slot.
      rewrite (swaps_outside _ _ _ _ _ W1), (swaps_outside _ _ _ _ _ W2) by lia. done.
    + by apply S1.
    + intros i j x y Hi Hj. specialize (S2 Hswo i j x y Hi Hj). rewrite !obj_at_slot in *.
      rewrite !(swaps_outside _ _ _ _ _ W1) by lia. done.
Qed.

Lemma sorts_le1 head tail b : tail <= head -> sorts head tail b b.
Proof. intros ?. split; [constructor|]. intros _ i j x y. lia. Qed.

Lemma quicksort_loop_spec rec n fuel : sorter rec n -> forall b head tail,
  0 <= head <= tail + 1 -> tail < zlen b -> all_in is_obj head tail b -> tail - head + 1 < 2 * n ->
  tail - head < Z.of_nat fuel ->
  exists b', quicksort_loop less key_fn r rec fuel b head tail = Some b' /\ sorts head tail b b'.
Proof.
  intros Hrec. induction fuel as [|fuel IH]; intros b head tail Hh Ht Hobj Hn Hf; cbn [quicksort_loop].
  - replace (head <? tail) with false by lia. exists b. split; [done|]. apply sorts_le1. lia.
  - destruct (Z.ltb_spec head tail) as [L|]; [|by exists b; split; [|apply sorts_le1; lia]].
    destruct (all_in_obj_at head tail b tail Hobj ltac:(lia)) as (o & -> & Eo). sbind. unfold zlen in Ht.
    destruct (partition_spec less key_fn r (S (length b)) b (head - 1) tail (key o) head tail)
      as (b1 & h & t & -> & Hsw & Hh1 & Hht & Hb & Ha); [done|lia..|by apply all_in_empty; lia|by apply all_in_empty; lia|].
    sbind. assert (Hz1 := swaps_zlen _ _ _ _ Hsw).
    destruct (slot_at_is_Some b1 h) as [s1 Es1]; [unfold zlen in *; lia|].
    destruct (swap_spec b1 h tail s1 (OBJ o)) as (b2 & Eb2 & Hz2 & _ & _);
      [done|by rewrite (swaps_outside _ _ _ _ _ Hsw) by lia|].
    rewrite Eb2. sbind.
    destruct (pivot_placed b b1 b2 head h tail o Hh1 Hsw Hb Ha Eo Eb2) as (Hs2 & Eh & Hp).
    assert (all_in is_obj head tail b2) as Hobj2 by (eapply swaps_all_in; [exact Hs2|lia|lia|done]).
    assert (forall lo hi b, head <= lo -> hi <= tail -> all_in is_obj head tail b -> all_in is_obj lo hi b) as Hsub.
    { intros lo hi b' ??. by apply all_in_weaken. }
    destruct (Z.ltb_spec (t - head) (tail - h - 1)).
    + destruct (Hrec b2 head t) as (b3 & -> & Hs3); [lia|unfold zlen in *; lia|apply Hsub; [lia|lia|done]|lia|]. sbind.
      pose proof (swaps_zlen _ _ _ _ (proj1 Hs3)).
      destruct (IH b3 (h + 1) tail) as (b4 & -> & Hs4); [lia|unfold zlen in *; lia| |lia|lia|].
      { apply Hsub; [lia|lia|]. eapply swaps_all_in; [exact (proj1 Hs3)|lia|lia|done]. }
      exists b4. split; [done|]. eapply sorts_join; eauto.
    + destruct (Hrec b2 (h + 1) tail) as (b3 & -> & Hs3); [lia|unfold zlen in *; lia|apply Hsub; [lia|lia|done]|lia|]. sbind.
      pose proof (swaps_zlen _ _ _ _ (proj1 Hs3)).
      destruct (IH b3 head t) as (b4 & -> & Hs4); [lia|unfold zlen in *; lia| |lia|lia|].
      { apply Hsub; [lia|lia|]. eapply swaps_all_in; [exact (proj1 Hs3)|lia|lia|done]. }
      exists b4. split; [done|]. eapply sorts_join; eauto.
Qed.

(** [depth] nested calls sort fewer than [2 ^ depth] items. *)
Lemma mp_quicksort_spec depth : (0 < depth)%nat -> sorter (mp_quicksort less key_fn r depth) (2 ^ Z.of_nat depth).
Proof.
  destruct depth as [|depth]; [lia|]. intros _. induction depth as [|depth IH];
    intros b head tail Hh Ht Hobj Hn; unfold zlen in Ht.
  - cbn [mp_quicksort]. destruct (length b) eqn:El; cbn [quicksort_loop];
      (replace (head <? tail) with false by lia); exists b; (split; [done|]); apply sorts_le1; lia.
  - apply (quicksort_loop_spec _ (2 ^ Z.of_nat (S depth)) (length b)); try done; unfold zlen; [|lia].
    rewrite <- Z.pow_succ_r by lia. by rewrite <- Nat2Z.inj_succ.
Qed.
End quicksort.
