(* ===== verification/ListProps.v ===== *)
(** Properties of lists: what reading, slicing, combining, comparing and
    sorting them give, and that changing them is changing the list of their
    items. *)

From Stdlib Require Import ZArith Lia.
From stdpp Require Import base option list numbers sorting.
From S2P Require Import Prelude Lists ListSpec ListOps ListSort.

(** * References *)

(** Python's items of a slice: those at [start + k * step], for
    [0 <= k < (stop - start) / step]. *)
Definition slice_count (ix : mp_bound_slice_t) : Z :=
  Z.max 0 ((stop ix - start ix + (step ix - Z.sgn (step ix))) / step ix).

Definition py_slice {A} (l : list A) (ix : mp_bound_slice_t) : list A :=
  omap (fun k => l !! Z.to_nat (start ix + k * step ix)) (seqZ 0 (slice_count ix)).

(** A bound of a slice, as an integer if it is one. *)
Definition py_bound (o : option int_arg) : exn + option Z :=
  match o with
  | None => inr None
  | Some NotInt => inl TypeError
  | Some (IntArg i) => if int_checked i then inr (Some i) else inl OverflowError
  end.

(** The positions of [start:stop:step] in [n] items, by the reference of the language:
    a negative bound counts from the end; the positions between the bounds, every
    [step] of them from the first one inside. *)
Definition py_positions (n : Z) (start stop : option Z) (step : Z) : list Z :=
  let from_end i := if i <? 0 then i + n else i in
  if 0 <? step then
    let s := default 0 (from_end <$> start) in
    let e := default n (from_end <$> stop) in
    filter (fun p => s <= p < e /\ (p - Z.max 0 s) mod step = 0) (seqZ 0 n)
  else
    let s := default (n - 1) (from_end <$> start) in
    let e := default (-1) (from_end <$> stop) in
    filter (fun p => e < p <= s /\ (Z.min (n - 1) s - p) mod (- step) = 0) (reverse (seqZ 0 n)).

Definition py_slice_items {A} (l : list A) (s : mp_obj_slice_t) : exn + list A :=
  match py_bound (slice_step s) with
  | inl e => inl e
  | inr step =>
      let step := default 1 step in
      if step =? 0 then inl ValueError else
      match py_bound (slice_start s) with
      | inl e => inl e
      | inr start =>
          match py_bound (slice_stop s) with
          | inl e => inl e
          | inr stop => inr (omap (fun p => l !! Z.to_nat p) (py_positions (zlen l) start stop step))
          end
      end
  end.

(** An arithmetic progression. *)
Definition progression (a k c : Z) : list Z := (fun j => a + j * k) <$> seqZ 0 c.

Fixpoint repeat_list {A} (n : nat) (l : list A) : list A :=
  match n with O => [] | S n => l ++ repeat_list n l end.

(** Lexicographic comparison: by the first items that differ, then by
    length. *)
Fixpoint lex_compare {A} (eq : A -> A -> bool) (lt : A -> A -> bool) (l1 l2 : list A) : comparison :=
  match l1, l2 with
  | [], [] => Eq
  | [], _ => Lt
  | _, [] => Gt
  | x :: l1, y :: l2 => if eq x y then lex_compare eq lt l1 l2 else if lt x y then Lt else Gt
  end.

Definition cmp_result (op : cmp_op) (c : comparison) : bool :=
  match op, c with
  | EQUAL, Eq | LESS, Lt | MORE, Gt | LESS_EQUAL, (Lt | Eq) | MORE_EQUAL, (Gt | Eq) => true
  | _, _ => false
  end.

(** A new list with the items [l], or an exception: memory may run out. *)
Definition new_list {obj} (mok : Z -> bool) (r : option (exn + mp_obj_list_t obj)) (l : list obj) : Prop :=
  (r = Some (inl MemoryError) /\ exists n, mok n = false) \/ (exists res, r = Some (inr res) /\ list_rep res l).

Section new.
Context {obj : Type} (mok : Z -> bool) (mok_max : forall n, mok n = true -> n <= 4 * MAX_SLOTS).
Implicit Types (self : mp_obj_list_t obj) (l : list obj).

Lemma list_new_spec n : 0 <= n < 2 ^ 30 ->
  (exists c k, list_new mok n = Some (inr {| alloc := n + k; len := n; items := c ++ replicate (Z.to_nat k) (NULLP : slot obj) |}) /\
     zlen c = n /\ 0 <= k /\ 1 <= n + k <= MAX_SLOTS) \/
  (list_new (obj := obj) mok n = Some (inl MemoryError) /\ exists k, mok k = false).
Proof.
  intros Hn. unfold list_new, mp_obj_list_init, m_new, LIST_MIN_ALLOC.
  set (n' := if n <? 4 then 4 else n). assert (n <= n' /\ 4 <= n' < 2 ^ 30 /\ (n' = 4 \/ n' = n)) as (H1 & H2 & H3).
  { unfold n'. destruct (Z.ltb_spec n 4); lia. }
  rewrite wrapu_small by lia. replace (4 * n' / 4) with n' by (rewrite Z.mul_comm, Z.div_mul; lia).
  destruct (Z.eqb_spec (4 * n') 0); [lia|]. cbn [orb]. destruct (mok (4 * n')) eqn:E; [|right; eauto].
  apply mok_max in E. left. exists (replicate (Z.to_nat n) JUNK), (n' - n).
  replace (Z.to_nat n') with (Z.to_nat n + Z.to_nat (n' - n))%nat by lia. rewrite replicate_add.
  rewrite <- (app_nil_r (replicate (Z.to_nat (n' - n)) JUNK)). rewrite mp_seq_clear_parts by zl. sbind.
  rewrite app_nil_r, zlen_replicate. rewrite Nat2Z.id. replace (n + (n' - n)) with n' by lia. unfold MAX_SLOTS in *.
  split; [done|]. split; [zl|lia].
Qed.

Lemma list_new_fill_spec n (fill : list (slot obj) -> option (list (slot obj))) l : n = zlen l -> n < 2 ^ 30 ->
  (forall c k, zlen c = n -> fill (c ++ k) = Some ((OBJ <$> l) ++ k)) -> new_list mok (list_new_fill mok n fill) l.
Proof.
  intros -> Hn Hf. unfold list_new_fill. pose proof (zlen_nonneg l).
  destruct (list_new_spec (zlen l)) as [(c & k & -> & Hc & Hk & Hb)|[-> ?]]; [lia| |by left]. sbind. cbn [items alloc len].
  rewrite Hf by done. sbind. right. eexists. split; [done|]. by apply rep_mk.
Qed.

Lemma rd_items l c n : n = zlen l -> rd ((OBJ <$> l) ++ c) 0 n = Some (OBJ <$> l : list (slot obj)).
Proof. intros ->. apply rd_prefix. zl. Qed.

Lemma copy_spec self l : list_rep self l -> new_list mok (list_copy mok self) l.
Proof.
  intros Hr. destruct (rep_eq self l Hr) as (n & Hn & Hb & ->). unfold list_copy. cbn [items len].
  rewrite rd_items by done. sbind. unfold mp_obj_new_list, MAX_SLOTS in *. rewrite zlen_fmap. pose proof (zlen_nonneg l).
  apply list_new_fill_spec; [done|lia|]. intros c k Hc. apply wr_prefix. zl.
Qed.

Lemma add_spec o p l1 l2 : list_rep o l1 -> list_rep p l2 -> new_list mok (list_add mok o p) (l1 ++ l2).
Proof.
  intros Hr1 Hr2. destruct (rep_eq o l1 Hr1) as (n1 & Hn1 & Hb1 & ->). destruct (rep_eq p l2 Hr2) as (n2 & Hn2 & Hb2 & ->).
  unfold list_add. cbn [items len]. unfold MAX_SLOTS in *. pose proof (zlen_nonneg l1). pose proof (zlen_nonneg l2).
  apply list_new_fill_spec; [zl|lia|]. intros c k Hc. rewrite !rd_items by done. sbind.
  rewrite <- (take_drop (Z.to_nat (zlen l1)) c), <- app_assoc. rewrite wr_prefix by (rewrite zlen_take; zl). sbind.
  rewrite wr_parts by (rewrite ?zlen_drop; zl). by rewrite fmap_app, <- app_assoc.
Qed.

Lemma seq_multiply_spec times l : forall a c k, zlen c = Z.of_nat times * zlen l ->
  mp_seq_multiply times (OBJ <$> l) (a ++ c ++ k) (zlen a) = Some (a ++ (OBJ <$> repeat_list times l) ++ k : list (slot obj)).
Proof.
  induction times as [|times IH]; intros a c k Hc; cbn [mp_seq_multiply repeat_list].
  - destruct c; [done|]. rewrite zlen_cons in Hc. pose proof (zlen_nonneg c). lia.
  - pose proof (zlen_nonneg l). assert (zlen l <= zlen c) by nia.
    rewrite <- (take_drop (Z.to_nat (zlen l)) c), <- (app_assoc (take _ _)). rewrite wr_parts by (rewrite ?zlen_take by lia; zl). sbind.
    rewrite app_assoc, <- zlen_app, IH by (rewrite zlen_drop by lia; lia). by rewrite fmap_app, <- !app_assoc.
Qed.

Lemma zlen_repeat_list {A} n (l : list A) : zlen (repeat_list n l) = Z.of_nat n * zlen l.
Proof. induction n as [|n IH]; [done|]. cbn [repeat_list]. rewrite zlen_app, IH. lia. Qed.

Lemma multiply_spec o l n : list_rep o l -> int_checked n = true -> zlen l * n < 2 ^ 30 ->
  exists r, list_multiply mok o (IntArg n) = Some (match r with inl e => inl e | inr x => inr (Some x) end) /\
    new_list mok (Some r) (repeat_list (Z.to_nat n) l).
Proof.
  intros Hr Hf Hn. destruct (rep_eq o l Hr) as (k & Hk & Hb & ->). unfold list_multiply, mp_obj_get_int_maybe. rewrite Hf.
  cbn [items len]. rewrite rd_items by done. sbind. pose proof (zlen_nonneg l).
  set (n' := if n <? 0 then 0 else n). assert (Z.to_nat n' = Z.to_nat n /\ 0 <= n' /\ zlen l * n' < 2 ^ 30) as (E1 & E2 & E3).
  { unfold n'. destruct (Z.ltb_spec n 0); lia. }
  rewrite wrapu_small by nia. rewrite E1.
  pose proof (list_new_fill_spec (zlen l * n') (fun b => mp_seq_multiply (Z.to_nat n) (OBJ <$> l) b 0) (repeat_list (Z.to_nat n) l)) as H1.
  assert (new_list mok (list_new_fill mok (zlen l * n') (fun b => mp_seq_multiply (Z.to_nat n) (OBJ <$> l) b 0)) (repeat_list (Z.to_nat n) l)) as H2.
  { apply H1; [rewrite zlen_repeat_list; nia|lia|]. intros c q Hc. apply (seq_multiply_spec _ _ [] c q). nia. }
  destruct H2 as [[-> ?]|(res & -> & ?)]; sbind.
  - exists (inl MemoryError). split; [done|]. by left.
  - exists (inr res). split; [done|]. right. eauto.
Qed.
End new.

(** * Slices *)

Lemma slice_count_lt ix k : step ix <> 0 -> 0 <= k ->
  k < slice_count ix <-> (0 < step ix /\ start ix + k * step ix < stop ix \/ step ix < 0 /\ stop ix < start ix + k * step ix).
Proof.
  intros Hs Hk. unfold slice_count. destruct (Z.lt_trichotomy (step ix) 0) as [Hn|[?|Hp]]; [|done|].
  - rewrite Z.sgn_neg by lia. rewrite <- (Z.div_opp_opp _ (step ix)) by lia.
    set (d := - step ix). replace (step ix) with (- d) by lia. assert (0 < d) as Hd by lia.
    set (x := - (stop ix - start ix + (- d - -1))). pose proof (Z.div_mod x d ltac:(lia)). pose proof (Z.mod_pos_bound x d Hd).
    assert (x = start ix - stop ix + d - 1) by (unfold x; lia). split; [intros; right; nia|intros [?|?]; nia].
  - rewrite Z.sgn_pos by lia. set (d := step ix) in *. set (x := stop ix - start ix + (d - 1)).
    pose proof (Z.div_mod x d ltac:(lia)). pose proof (Z.mod_pos_bound x d Hp).
    assert (x = stop ix - start ix + d - 1) by (unfold x; lia). split; [intros; left; nia|intros [?|?]; nia].
Qed.

Lemma fast_slice_eq s n ix : mp_obj_slice_indices s n = inr ix ->
  exists stop', mp_seq_get_fast_slice_indexes n s = inr (step ix =? 1, {| start := start ix; stop := stop'; step := step ix |}) /\
    (0 < step ix -> stop' = Z.max (start ix) (stop ix)) /\ (step ix < 0 -> stop' = Z.min (start ix + 1) (stop ix + 1)).
Proof.
  intros E. unfold mp_seq_get_fast_slice_indexes. rewrite E. eexists. split; [done|].
  rewrite !Z.gtb_ltb. split; intros Hs;
    destruct (Z.ltb_spec (step ix) 0), (Z.ltb_spec 0 (step ix)); try lia; cbn [andb];
    match goal with |- context [?a <? ?b] => destruct (Z.ltb_spec a b) end; lia.
Qed.

Section slice.
Context {obj : Type} (mok : Z -> bool) (mok_max : forall n, mok n = true -> n <= 4 * MAX_SLOTS).
Implicit Types (self : mp_obj_list_t obj) (l : list obj).

Lemma seqZ_S k n : 0 < n -> seqZ k n = k :: seqZ (k + 1) (n - 1).
Proof. intros. rewrite seqZ_cons by done. unfold Z.succ, Z.pred. done. Qed.

(** The loop of [mp_seq_extract_slice] from the [k]th item on. *)
Lemma extract_loop_spec l c ix ix' : step ix <> 0 -> step ix' = step ix ->
  (forall k, 0 <= k < slice_count ix -> 0 <= start ix + k * step ix < zlen l /\ fits_mp_int (start ix + k * step ix + step ix) = true) ->
  (forall k, 0 <= k -> (if step ix' <? 0 then stop ix' <=? start ix + k * step ix else start ix + k * step ix <? stop ix') =
    (k <? slice_count ix)) ->
  forall n k res l0, Z.of_nat n >= slice_count ix - k -> 0 <= k -> list_rep res l0 ->
  new_list mok (extract_loop mok n ((OBJ <$> l) ++ c) ix' res (start ix + k * step ix))
    (l0 ++ omap (fun k => l !! Z.to_nat (start ix + k * step ix)) (seqZ k (slice_count ix - k))).
Proof.
  intros Hs Es Hin Hc. induction n as [|n IH]; intros k res l0 Hn Hk Hr; cbn [extract_loop]; rewrite (Hc k Hk).
  - destruct (Z.ltb_spec k (slice_count ix)); [lia|]. rewrite seqZ_nil by lia. cbn. rewrite app_nil_r. right. eauto.
  - destruct (Z.ltb_spec k (slice_count ix)) as [L|].
    + destruct (Hin k ltac:(lia)) as [Hp Hf]. rewrite obj_at_items by done.
      destruct (lookup_lt_is_Some_2 l (Z.to_nat (start ix + k * step ix))) as [o Eo]; [unfold zlen in Hp; lia|]. rewrite Eo. sbind.
      destruct (append_spec mok mok_max res l0 o Hr) as (res' & r & -> & [(-> & Hm & _)|[-> Hr']]); sbind; [by left|].
      rewrite Es, Hf. replace (start ix + k * step ix + step ix) with (start ix + (k + 1) * step ix) by lia.
      rewrite seqZ_S by lia. cbn [omap list_omap]. rewrite Eo. specialize (IH (k + 1) res' (l0 ++ [o])).
      rewrite <- app_assoc in IH. replace (slice_count ix - k - 1) with (slice_count ix - (k + 1)) by lia. apply IH; [lia|lia|done].
    + rewrite seqZ_nil by lia. cbn. rewrite app_nil_r. right. eauto.
Qed.

Lemma py_slice_step1 l ix : step ix = 1 -> 0 <= start ix -> stop ix <= zlen l ->
  py_slice l ix = take (Z.to_nat (stop ix - start ix)) (drop (Z.to_nat (start ix)) l).
Proof.
  intros Hs Hi Hj. unfold py_slice, slice_count. rewrite Hs. change (1 - Z.sgn 1) with 0. rewrite Z.add_0_r, Z.div_1_r.
  assert (forall n j, 0 <= j -> start ix + j + Z.of_nat n <= zlen l ->
    omap (fun k => l !! Z.to_nat (start ix + k * 1)) (seqZ j (Z.of_nat n)) = take n (drop (Z.to_nat (start ix + j)) l)) as H.
  { induction n as [|n IH]; intros j Hj' Hn; [done|]. rewrite seqZ_S by lia. cbn [omap list_omap]. rewrite Z.mul_1_r.
    destruct (lookup_lt_is_Some_2 l (Z.to_nat (start ix + j))) as [o Eo]; [unfold zlen in Hn; lia|].
    rewrite Eo, (drop_S _ _ _ Eo). cbn [take]. replace (Z.of_nat (S n) - 1) with (Z.of_nat n) by lia.
    rewrite IH by lia. do 3 f_equal. lia. }
  destruct (Z.le_gt_cases (start ix) (stop ix)).
  - specialize (H (Z.to_nat (stop ix - start ix)) 0). rewrite Z2Nat.id, Z.add_0_r in H by lia. rewrite Z.max_r by lia. apply H; lia.
  - rewrite Z.max_l by lia. by replace (Z.to_nat (stop ix - start ix)) with 0%nat by lia.
Qed.

Lemma load_slice_spec self l s : list_rep self l ->
  match mp_obj_slice_indices s (zlen l) with
  | inl e => list_load mok self (Slice s) = Some (inl e)
  | inr ix => zlen l + step ix <= 2 ^ 31 -> - 2 ^ 31 <= step ix ->
      exists r, list_load mok self (Slice s) = Some (match r with inl e => inl e | inr x => inr (inr x) end) /\
        new_list mok (Some r) (py_slice l ix)
  end.
Proof.
  intros Hr. destruct (rep_eq self l Hr) as (n & Hn & Hb & E). unfold list_load. rewrite (rep_len self l Hr).
  pose proof (zlen_nonneg l).
  destruct (mp_obj_slice_indices s (zlen l)) as [e|ix] eqn:Ei.
  { unfold mp_seq_get_fast_slice_indexes. by rewrite Ei. }
  intros Ho Ho'. destruct (slice_indices_range s (zlen l) ix Ei (zlen_nonneg l)) as (Hs & Hp & Hm).
  destruct (fast_slice_eq s (zlen l) ix Ei) as (stop' & -> & Hsp & Hsm). cbn [start stop step].
  assert (forall m, new_list mok m (py_slice l ix) -> exists r, (r ← m; Some (match r with inl e => inl e | inr l => inr (inr l) end)) =
     Some (match r with inl e => inl e | inr x => inr (inr x) end : exn + (obj + mp_obj_list_t obj)) /\ new_list mok (Some r) (py_slice l ix)) as Hfin.
  { intros m [[-> ?]|(res & -> & ?)]; sbind; [exists (inl MemoryError)|exists (inr res)]; (split; [done|]); [by left|right; eauto]. }
  apply Hfin. unfold MAX_SLOTS in *. rewrite E. cbn [items]. destruct (Z.eqb_spec (step ix) 1) as [E1|E1].
  - destruct Hp as [H1 H2]; [lia|]. rewrite Hsp by lia.
    destruct (three_parts l (start ix) (Z.max (start ix) (stop ix)) ltac:(lia) ltac:(lia)) as (p & m & q & El & _ & _ & Hzp & Hzm & Hzq).
    assert (py_slice l ix = m) as ->.
    { rewrite py_slice_step1 by lia. rewrite El, drop_app_length' by (unfold zlen in Hzp; lia).
      unfold zlen in Hzm. destruct (Z.le_gt_cases (start ix) (stop ix)).
      - apply take_app_length'. lia.
      - destruct m; [|cbn in Hzm; lia]. by replace (Z.to_nat (stop ix - start ix)) with 0%nat by lia. }
    apply list_new_fill_spec; [done|lia|lia|]. intros c k Hc.
    replace ((OBJ <$> l) ++ replicate (Z.to_nat n) NULLP) with ((OBJ <$> p) ++ (OBJ <$> m) ++ (OBJ <$> q) ++ replicate (Z.to_nat n) (NULLP : slot obj))
      by (rewrite El, !fmap_app, <- !app_assoc; done).
    rewrite rd_parts by zl. sbind. apply wr_prefix. zl.
  - unfold mp_seq_extract_slice. destruct (list_new_spec (obj := obj) mok mok_max 0) as [(c & k & -> & Hc & Hk & Hkb)|[-> ?]]; [lia| |by left]. sbind.
    destruct c; [|rewrite zlen_cons in Hc; pose proof (zlen_nonneg c); lia].
    assert (list_rep {| alloc := 0 + k; len := 0; items := [] ++ replicate (Z.to_nat k) (NULLP : slot obj) |} []) as Hr0
      by (apply (rep_mk [] k); [rewrite zlen_nil|]; lia).
    pose proof (slice_count_lt ix) as Hcount.
    pose proof (extract_loop_spec l (replicate (Z.to_nat n) NULLP) ix {| start := start ix; stop := stop'; step := step ix |} Hs eq_refl) as Hl.
    cbn [start step stop] in Hl.
    assert (slice_count ix <= zlen l) as Hcl.
    { destruct (Z.le_gt_cases (slice_count ix) (zlen l)) as [|G]; [done|]. apply Hcount in G; [|done|lia].
      destruct G as [[Hpos Hlt]|[Hneg Hlt]]; [destruct (Hp Hpos)|destruct (Hm Hneg)]; nia. }
    match type of Hl with ?A -> ?B -> _ => assert A as H1; [|assert B as H2] end.
    + intros i Hi. pose proof (proj1 (Hcount i Hs (proj1 Hi)) (proj2 Hi)) as Hi'. unfold fits_mp_int.
      destruct Hi' as [[Hpos Hlt]|[Hneg Hlt]]; [destruct (Hp Hpos)|destruct (Hm Hneg)]; (split; [nia|]); apply andb_true_iff; split; nia.
    + intros i Hi. destruct (Z.ltb_spec (step ix) 0).
      * rewrite Hsm by lia. apply eq_true_iff_eq. rewrite Z.leb_le, Z.ltb_lt, Hcount by lia. destruct (Hm ltac:(lia)). nia.
      * rewrite Hsp by lia. apply eq_true_iff_eq. rewrite !Z.ltb_lt, Hcount by lia. destruct (Hp ltac:(lia)). nia.
    + specialize (Hl H1 H2 (length ((OBJ <$> l) ++ replicate (Z.to_nat n) (NULLP : slot obj))) 0).
      rewrite Z.sub_0_r, Z.mul_0_l, Z.add_0_r in Hl. eapply (Hl _ []); [|lia|exact Hr0].
      rewrite length_app, length_fmap. unfold zlen in *. lia.
Qed.
End slice.

(** * Comparing and searching *)

(** The items are totally ordered by [lt], up to [mp_obj_equal]. *)
Class ItemOrder {obj} (eq lt : obj -> obj -> bool) (binop : cmp_op -> obj -> obj -> bool) : Prop := {
  item_eq_sym : forall a b, eq a b = eq b a;
  item_total : forall a b, eq a b = false -> lt b a = negb (lt a b);
  item_more : forall a b, eq a b = false -> binop MORE a b = lt b a;
  item_more_equal : forall a b, eq a b = false -> binop MORE_EQUAL a b = lt b a;
}.

Section compare.
Context {obj : Type} (eq lt : obj -> obj -> bool) (binop : cmp_op -> obj -> obj -> bool) `{!ItemOrder eq lt binop}.
Implicit Types (l : list obj).

Lemma lex_flip l1 l2 : lex_compare eq lt l2 l1 = CompOpp (lex_compare eq lt l1 l2).
Proof.
  revert l2. induction l1 as [|x l1 IH]; intros [|y l2]; try done. cbn [lex_compare].
  rewrite (item_eq_sym y x). destruct (eq x y) eqn:E; [apply IH|]. rewrite (item_total x y E). by destruct (lt x y).
Qed.

Definition cmp_finish (op : cmp_op) (len1 len2 : Z) (r : option bool) : bool :=
  match r with
  | Some b => b
  | None => if negb (len1 =? len2) then negb (len1 <? len2) else match op with MORE => false | _ => true end
  end.

Lemma cmp_loop_spec op (n : nat) l1 l2 c1 c2 i : op = EQUAL /\ zlen l1 = zlen l2 \/ op = MORE \/ op = MORE_EQUAL ->
  0 <= i -> i + Z.of_nat n = Z.min (zlen l1) (zlen l2) ->
  exists r, cmp_loop eq binop n op ((OBJ <$> l1) ++ c1) ((OBJ <$> l2) ++ c2) i = Some r /\
    cmp_finish op (zlen l1) (zlen l2) r = cmp_result op (lex_compare eq lt (drop (Z.to_nat i) l1) (drop (Z.to_nat i) l2)).
Proof.
  intros Hop. revert i. induction n as [|n IH]; intros i Hi Hn; cbn [cmp_loop].
  - exists None. split; [done|]. unfold cmp_finish. unfold zlen in *.
    destruct (Z.eqb_spec (Z.of_nat (length l1)) (Z.of_nat (length l2))); cbn [negb].
    + rewrite !drop_ge by lia. by destruct Hop as [[-> ?]|[->| ->]].
    + destruct (Z.ltb_spec (Z.of_nat (length l1)) (Z.of_nat (length l2))).
      * rewrite (drop_ge l1) by lia. destruct (drop (Z.to_nat i) l2) eqn:Ed; [apply (f_equal length) in Ed; rewrite length_drop in Ed; cbn in Ed; lia|].
        by destruct Hop as [[-> ?]|[->| ->]]; [lia|..].
      * rewrite (drop_ge l2) by lia. destruct (drop (Z.to_nat i) l1) eqn:Ed; [apply (f_equal length) in Ed; rewrite length_drop in Ed; cbn in Ed; lia|].
        by destruct Hop as [[-> ?]|[->| ->]]; [lia|..].
  - rewrite !obj_at_items by lia.
    destruct (lookup_lt_is_Some_2 l1 (Z.to_nat i)) as [x Ex]; [unfold zlen in Hn; lia|].
    destruct (lookup_lt_is_Some_2 l2 (Z.to_nat i)) as [y Ey]; [unfold zlen in Hn; lia|].
    rewrite Ex, Ey, (drop_S _ _ _ Ex), (drop_S _ _ _ Ey). sbind. cbn [lex_compare]. destruct (eq x y) eqn:E.
    + destruct (IH (i + 1)) as (r & -> & Hr); [lia|lia|]. exists r. split; [done|]. rewrite Hr.
      by replace (Z.to_nat (i + 1)) with (S (Z.to_nat i)) by lia.
    + destruct Hop as [[-> _]|[->| ->]]; eexists; (split; [done|]); cbn [cmp_finish cmp_result].
      * by destruct (lt x y).
      * rewrite (item_more x y E), (item_total x y E). by destruct (lt x y).
      * rewrite (item_more_equal x y E), (item_total x y E). by destruct (lt x y).
Qed.

Lemma cmp_objs_spec op o p l1 l2 : list_rep o l1 -> list_rep p l2 ->
  mp_seq_cmp_objs eq binop op (items o) (len o) (items p) (len p) = Some (cmp_result op (lex_compare eq lt l1 l2)).
Proof.
  intros Hr1 Hr2. rewrite (rep_items o l1 Hr1), (rep_items p l2 Hr2), (rep_len o l1 Hr1), (rep_len p l2 Hr2).
  assert (forall op l1 l2 c1 c2, op = EQUAL /\ zlen l1 = zlen l2 \/ op = MORE \/ op = MORE_EQUAL ->
    (r ← cmp_loop eq binop (Z.to_nat (Z.min (zlen l1) (zlen l2))) op ((OBJ <$> l1) ++ c1) ((OBJ <$> l2) ++ c2) 0;
     match r with Some b => Some b | None => Some (if negb (zlen l1 =? zlen l2) then negb (zlen l1 <? zlen l2)
       else match op with MORE => false | _ => true end) end) = Some (cmp_result op (lex_compare eq lt l1 l2))) as H.
  { intros op' a b c1 c2 Hop. pose proof (zlen_nonneg a). pose proof (zlen_nonneg b).
    destruct (cmp_loop_spec op' (Z.to_nat (Z.min (zlen a) (zlen b))) a b c1 c2 0 Hop) as (r & -> & Hr); [lia|lia|]. sbind.
    change (Z.to_nat 0) with 0%nat in Hr. rewrite !drop_0 in Hr. rewrite <- Hr. by destruct r. }
  unfold mp_seq_cmp_objs. destruct op; cbn [andb].
  - destruct (Z.eqb_spec (zlen l1) (zlen l2)) as [E|E]; cbn [negb].
    + etrans; [|apply (H EQUAL l1 l2); auto]. by rewrite (proj2 (Z.eqb_eq _ _) E).
    + assert (cmp_result EQUAL (lex_compare eq lt l1 l2) = false) as ->; [|done].
      clear -E. revert l2 E. induction l1 as [|x l1 IH]; intros [|y l2] E; try done. cbn [lex_compare].
      destruct (eq x y); [apply IH; rewrite !zlen_cons in E; lia|by destruct (lt x y)].
  - etrans; [apply (H MORE l2 l1); auto|]. rewrite lex_flip. by destruct (lex_compare eq lt l1 l2).
  - apply (H MORE l1 l2). auto.
  - etrans; [apply (H MORE_EQUAL l2 l1); auto|]. rewrite lex_flip. by destruct (lex_compare eq lt l1 l2).
  - apply (H MORE_EQUAL l1 l2). auto.
Qed.

Lemma count_loop_spec v c l (n : nat) i k : 0 <= i -> i + Z.of_nat n = zlen l ->
  count_loop eq n ((OBJ <$> l) ++ c) i v k = Some (k + zlen (filter (fun o => eq o v = true) (drop (Z.to_nat i) l))).
Proof.
  revert i k. induction n as [|n IH]; intros i k Hi Hn; cbn [count_loop].
  - rewrite drop_ge by (unfold zlen in Hn; lia). cbn. by rewrite Z.add_0_r.
  - rewrite obj_at_items by lia. destruct (lookup_lt_is_Some_2 l (Z.to_nat i)) as [o Eo]; [unfold zlen in Hn; lia|].
    rewrite Eo, (drop_S _ _ _ Eo). sbind. rewrite IH by lia. replace (Z.to_nat (i + 1)) with (S (Z.to_nat i)) by lia.
    rewrite filter_cons. destruct (eq o v).
    + rewrite decide_True by done. rewrite zlen_cons. f_equal. lia.
    + rewrite decide_False by done. done.
Qed.
End compare.

(** The items the iterator gives. *)
Fixpoint iterate {obj} (fuel : nat) (self : mp_obj_list_t obj) (cur : Z) : option (list obj) :=
  match fuel with
  | O => None
  | S fuel =>
      r ← list_it_iternext self cur;
      match r with
      | None => Some []
      | Some (o, cur) => l ← iterate fuel self cur; Some (o :: l)
      end
  end.

Lemma iterate_spec {obj} (self : mp_obj_list_t obj) l (n : nat) i : list_rep self l -> 0 <= i -> i + Z.of_nat n = zlen l ->
  iterate (S n) self i = Some (drop (Z.to_nat i) l).
Proof.
  intros Hr. revert i. induction n as [|n IH]; intros i Hi Hn.
  - cbn [iterate]. unfold list_it_iternext. rewrite (rep_len self l Hr). destruct (Z.ltb_spec i (zlen l)); [lia|]. sbind.
    by rewrite drop_ge by (unfold zlen in Hn; lia).
  - remember (S n) as m eqn:Em. cbn [iterate]. unfold list_it_iternext at 1. rewrite (rep_len self l Hr).
    destruct (Z.ltb_spec i (zlen l)); [|lia]. rewrite (rep_items self l Hr), obj_at_items by lia.
    destruct (lookup_lt_is_Some_2 l (Z.to_nat i)) as [o Eo]; [unfold zlen in Hn; lia|].
    rewrite Eo, (drop_S _ _ _ Eo). sbind. rewrite (IH (i + 1)) by lia. sbind.
    by replace (Z.to_nat (i + 1)) with (S (Z.to_nat i)) by lia.
Qed.

(** * Sorting *)

Section sorting.
Context {obj : Type} (less : obj -> obj -> bool).
Implicit Types (self : mp_obj_list_t obj) (l : list obj).

Lemma omap_obj_of l n : omap obj_of ((OBJ <$> l) ++ replicate n (NULLP : slot obj)) = l.
Proof.
  rewrite omap_app. assert (omap obj_of (replicate n (NULLP : slot obj)) = []) as -> by (by induction n).
  rewrite app_nil_r. induction l as [|x l IH]; [done|]. cbn. by rewrite IH.
Qed.

Lemma all_objs (s : list (slot obj)) : (forall i x, s !! i = Some x -> is_obj x) -> exists l, s = OBJ <$> l.
Proof.
  induction s as [|x s IH]; intros H; [by exists []|]. destruct (H 0%nat x eq_refl) as [o ->].
  destruct IH as [l ->]; [|by exists (o :: l)]. intros i y Hy. by apply (H (S i)).
Qed.

Lemma items_all_obj l n : all_in is_obj 0 (zlen l - 1) ((OBJ <$> l) ++ replicate n (NULLP : slot obj)).
Proof.
  intros k Hk. destruct (lookup_lt_is_Some_2 l (Z.to_nat k)) as [o Eo]; [unfold zlen in Hk; lia|].
  exists (OBJ o). split; [|by exists o]. apply obj_at_slot. rewrite obj_at_items by lia. done.
Qed.

(** Exchanging items in use is permuting the list. *)
Lemma swaps_rep l n b' : swaps 0 (zlen l - 1) ((OBJ <$> l) ++ replicate n (NULLP : slot obj)) b' ->
  exists l', b' = (OBJ <$> l') ++ replicate n NULLP /\ l' ≡ₚ l.
Proof.
  intros Hs. pose proof (swaps_zlen _ _ _ _ Hs) as Hz. rewrite zlen_app, zlen_fmap, zlen_replicate in Hz.
  pose proof (swaps_all_in _ _ _ _ _ _ _ Hs (Z.le_refl _) (Z.le_refl _) (items_all_obj l n)) as Ho.
  destruct (all_objs (take (length l) b')) as [l' El'].
  { intros i x Hx. pose proof (lookup_lt_Some _ _ _ Hx) as Hi. rewrite length_take in Hi.
    rewrite lookup_take_lt in Hx by lia. destruct (Ho (Z.of_nat i)) as (s & Es & Hobj); [unfold zlen; lia|].
    rewrite slot_at_lookup, Nat2Z.id in Es by lia. congruence. }
  assert (drop (length l) b' = replicate n NULLP) as Ed.
  { apply list_eq. intros i. rewrite lookup_drop. pose proof (swaps_outside _ _ _ _ (zlen l + Z.of_nat i) Hs ltac:(lia)) as E.
    rewrite !slot_at_lookup in E by (pose proof (zlen_nonneg l); lia). unfold zlen in E.
    replace (Z.to_nat (Z.of_nat (length l) + Z.of_nat i)) with (length l + i)%nat in E by lia. rewrite E.
    rewrite lookup_app_r by (rewrite length_fmap; lia). rewrite length_fmap. f_equal. lia. }
  exists l'. rewrite <- El', <- Ed. split; [by rewrite take_drop|].
  pose proof (swaps_perm _ _ _ _ Hs) as P. rewrite <- (take_drop (length l) b'), El', Ed in P.
  pose proof (omap_Permutation obj_of _ _ P) as Q. by rewrite !omap_obj_of in Q.
Qed.

Lemma sort_ok depth self l key_fn reverse : list_rep self l -> (0 < depth)%nat -> zlen l < 2 ^ Z.of_nat depth ->
  exists self' l', mp_obj_list_sort less depth self key_fn reverse = Some self' /\ list_rep self' l' /\ l' ≡ₚ l /\
    (StrictWeakOrder less -> forall i j x y, (i < j)%nat -> l' !! i = Some x -> l' !! j = Some y ->
      in_order less key_fn (negb reverse) x y = true).
Proof.
  intros Hr Hd Hl. unfold mp_obj_list_sort. rewrite (rep_len self l Hr), Z.gtb_ltb. destruct (Z.ltb_spec 1 (zlen l)) as [L|G].
  - destruct (rep_eq self l Hr) as (n & Hn & Hb & ->). cbn [items alloc len].
    destruct (mp_quicksort_spec less key_fn (negb reverse) depth Hd ((OBJ <$> l) ++ replicate (Z.to_nat n) NULLP) 0 (zlen l - 1))
      as (b' & -> & Hs & Hord); [lia|zl|apply items_all_obj|lia|]. sbind.
    destruct (swaps_rep l _ b' Hs) as (l' & -> & P). assert (zlen l' = zlen l) as Hz by (unfold zlen; by rewrite P).
    eexists _, l'. split; [done|]. split; [by apply (rep_mk' _ n); rewrite ?Hz|]. split; [done|].
    intros Hswo i j x y Hij Hx Hy. apply lookup_lt_Some in Hx as Hi. apply lookup_lt_Some in Hy as Hj.
    apply (Hord Hswo (Z.of_nat i) (Z.of_nat j)); [lia|rewrite <- Hz; unfold zlen; lia|..];
      rewrite obj_at_items by (unfold zlen; lia); by rewrite Nat2Z.id.
  - exists self, l. split; [done|]. split; [done|]. split; [done|].
    intros _ i j x y Hij Hx Hy. apply lookup_lt_Some in Hx, Hy. unfold zlen in G. lia.
Qed.
End sorting.

(** * Properties *)

(** ** Slices by the reference *)

(** Lists in strict order with the same elements. *)
Lemma sorted_same (R : Z -> Z -> Prop) `{!Transitive R} (l1 l2 : list Z) : (forall x, ~ R x x) ->
  StronglySorted R l1 -> StronglySorted R l2 -> (forall x, x ∈ l1 <-> x ∈ l2) -> l1 = l2.
Proof.
  intros Hirr H1 H2 He. assert (AntiSymm (=) R) by (intros x y ? ?; destruct (Hirr x); by etrans). apply (StronglySorted_unique R l1 l2 H1 H2).
  assert (forall l, StronglySorted R l -> NoDup l) as Hnd.
  { induction 1 as [|x l Hl IH Hx]; constructor; [|done]. intros Hin. rewrite Forall_forall in Hx.
    by apply (Hirr x), Hx. }
  apply NoDup_Permutation; auto.
Qed.

Lemma sorted_filter {A} (R : A -> A -> Prop) (P : A -> Prop) `{!forall x, Decision (P x)} l : StronglySorted R l -> StronglySorted R (filter P l).
Proof.
  induction 1 as [|x l Hl IH Hx]; [constructor|]. rewrite filter_cons. destruct (decide (P x)); [|done]. constructor; [done|].
  rewrite Forall_forall in *. intros y [_ Hy]%list_elem_of_filter. by apply Hx.
Qed.

Lemma seqZ_sorted m n : StronglySorted Z.lt (seqZ m n).
Proof.
  destruct (Z.le_gt_cases n 0) as [Hn|Hn]; [rewrite seqZ_nil by lia; constructor|].
  revert m. pattern n. apply natlike_ind with (x := n); [intros m; rewrite seqZ_nil by lia; constructor| |lia].
  intros k Hk IH m. rewrite seqZ_cons by lia. constructor.
  - replace (Z.pred (Z.succ k)) with k by lia. apply IH.
  - apply Forall_forall. intros x Hx%elem_of_seqZ. lia.
Qed.

Lemma sorted_fmap {A B} (R : A -> A -> Prop) (S : B -> B -> Prop) (f : A -> B) l : (forall x y, R x y -> S (f x) (f y)) ->
  StronglySorted R l -> StronglySorted S (f <$> l).
Proof.
  intros Hf. induction 1 as [|x l Hl IH Hx]; cbn; constructor; [done|]. apply Forall_fmap. eapply Forall_impl; [exact Hx|]. cbn. auto.
Qed.

Lemma sorted_reverse {A} (R : A -> A -> Prop) l : StronglySorted R l -> StronglySorted (flip R) (reverse l).
Proof.
  induction 1 as [|x l Hl IH Hx]; [constructor|]. rewrite reverse_cons. apply StronglySorted_app_2; [|done|repeat constructor].
  intros a b Ha ->%list_elem_of_singleton. rewrite elem_of_reverse in Ha. rewrite Forall_forall in Hx. exact (Hx a Ha).
Qed.

Lemma in_progression a k c x : x ∈ progression a k c <-> exists j, 0 <= j < c /\ x = a + j * k.
Proof.
  unfold progression. rewrite list_elem_of_fmap. split; intros (j & H).
  - exists j. rewrite elem_of_seqZ in H. lia.
  - exists j. rewrite elem_of_seqZ. lia.
Qed.

Lemma mod_0_quot x k : 0 < k -> x mod k = 0 -> x = k * (x / k).
Proof. intros Hk E. pose proof (Z.div_mod x k). lia. Qed.

Lemma positions_up n s e k : 0 < k -> 0 <= n ->
  filter (fun p => s <= p < e /\ (p - Z.max 0 s) mod k = 0) (seqZ 0 n) =
  progression (Z.min n (Z.max s 0)) k (Z.max 0 ((Z.min n (Z.max e 0) - Z.min n (Z.max s 0) + (k - 1)) / k)).
Proof.
  intros Hk Hn. apply (sorted_same Z.lt); [lia|apply sorted_filter, seqZ_sorted| |].
  { apply (sorted_fmap Z.lt); [intros x y; nia|apply seqZ_sorted]. }
  intros x. rewrite in_progression, list_elem_of_filter, elem_of_seqZ.
  set (a := Z.min n (Z.max s 0)). set (b := Z.min n (Z.max e 0)).
  pose proof (div_bounds (b - a + (k - 1)) k Hk) as Hd. set (c := (b - a + (k - 1)) / k) in *. split.
  - intros [[Hx Hm] Hr]. assert (a = Z.max 0 s) as Ea by lia. rewrite <- Ea in Hm. apply mod_0_quot in Hm; [|done].
    exists ((x - a) / k). split; [|lia]. pose proof (Z.div_pos (x - a) k ltac:(lia) Hk). split; [lia|]. nia.
  - intros (j & Hj & ->). assert (0 <= j < c) by lia. assert (j * k < b - a) by nia.
    assert (a = Z.max 0 s) as <- by nia. split; [|nia]. split; [nia|].
    replace (a + j * k - a) with (j * k) by lia. by apply Z.mod_mul; lia.
Qed.

Lemma positions_down n s e k : k < 0 -> 0 <= n ->
  filter (fun p => e < p <= s /\ (Z.min (n - 1) s - p) mod (- k) = 0) (reverse (seqZ 0 n)) =
  progression (Z.min (n - 1) (Z.max s (-1))) k (Z.max 0 ((Z.min (n - 1) (Z.max e (-1)) - Z.min (n - 1) (Z.max s (-1)) + (k + 1)) / k)).
Proof.
  intros Hk Hn. apply (sorted_same (flip Z.lt)); [unfold flip; lia|apply sorted_filter| |].
  { apply sorted_reverse, seqZ_sorted. }
  { apply (sorted_fmap Z.lt); [unfold flip; intros x y; nia|apply seqZ_sorted]. }
  intros x. rewrite in_progression, list_elem_of_filter, elem_of_reverse, elem_of_seqZ.
  set (a := Z.min (n - 1) (Z.max s (-1))). set (b := Z.min (n - 1) (Z.max e (-1))).
  replace ((b - a + (k + 1)) / k) with ((a - b + (- k - 1)) / (- k)) by (rewrite <- (Z.div_opp_opp _ k) by lia; f_equal; lia).
  assert (0 < - k) as Hk' by lia.
  pose proof (div_bounds (a - b + (- k - 1)) (- k) Hk') as Hd. set (c := (a - b + (- k - 1)) / (- k)) in *. split.
  - intros [[Hx Hm] Hr]. assert (a = Z.min (n - 1) s) as Ea by lia. rewrite <- Ea in Hm. apply mod_0_quot in Hm; [|done].
    exists ((a - x) / (- k)). split; [|lia]. pose proof (Z.div_pos (a - x) (- k) ltac:(lia) Hk'). split; [lia|]. nia.
  - intros (j & Hj & ->). assert (0 <= j < c) by lia. assert (j * (- k) < a - b) by nia.
    assert (a = Z.min (n - 1) s) as <- by nia. split; [|nia]. split; [nia|].
    replace (a - (a + j * k)) with (j * (- k)) by lia. by apply Z.mod_mul; lia.
Qed.

Lemma omap_fmap_progression {A} (l : list A) a k c : omap (fun p => l !! Z.to_nat p) (progression a k c) =
  omap (fun j => l !! Z.to_nat (a + j * k)) (seqZ 0 c).
Proof. unfold progression. induction (seqZ 0 c) as [|j js IH]; [done|]. cbn. by rewrite IH. Qed.

Lemma slice_bound_eq o n dflt lo hi : slice_bound o n dflt lo hi =
  match py_bound o with
  | inl e => inl e
  | inr i => inr (match i with Some i => Z.min hi (Z.max (if i <? 0 then i + n else i) lo) | None => dflt end)
  end.
Proof.
  unfold slice_bound, py_bound, mp_obj_get_int, mp_obj_get_int_maybe. destruct o as [[i|]|]; try done. by destruct (int_checked i).
Qed.

(** The indices of [mp_obj_slice_indices] designate the items of the reference. *)
Lemma slice_items_ok {A} (l : list A) s : py_slice_items l s =
  match mp_obj_slice_indices s (zlen l) with inl e => inl e | inr ix => inr (py_slice l ix) end.
Proof.
  pose proof (zlen_nonneg l) as Hn. unfold py_slice_items, mp_obj_slice_indices.
  assert (match slice_step s with None => inr 1 | Some a => mp_obj_get_int a end =
    match py_bound (slice_step s) with inl e => inl e | inr k => inr (default 1 k) end) as ->.
  { unfold py_bound, mp_obj_get_int, mp_obj_get_int_maybe. destruct (slice_step s) as [[i|]|]; try done. by destruct (int_checked i). }
  destruct (py_bound (slice_step s)) as [e|k]; [done|]. set (step := default 1 k). destruct (Z.eqb_spec step 0) as [|Hk]; [done|].
  rewrite Z.gtb_ltb. unfold py_positions. destruct (Z.ltb_spec 0 step) as [Hp|Hp];
    cbv beta iota zeta; rewrite slice_bound_eq; destruct (py_bound (slice_start s)) as [e|st]; try done; rewrite slice_bound_eq; destruct (py_bound (slice_stop s)) as [e|en]; try done;
    f_equal; unfold py_slice, slice_count; cbn [start stop Lists.step].
  - rewrite positions_up, omap_fmap_progression by lia. rewrite (Z.sgn_pos step) by lia.
    assert (Z.min (zlen l) (Z.max (zlen l) 0) = zlen l) as E1 by lia. assert (Z.min (zlen l) (Z.max 0 0) = 0) as E2 by lia.
    destruct st, en; cbn [default fmap option_fmap option_map id]; by rewrite ?E1, ?E2.
  - rewrite positions_down, omap_fmap_progression by lia. rewrite (Z.sgn_neg step) by lia.
    replace (step - -1) with (step + 1) by lia.
    assert (Z.min (zlen l - 1) (Z.max (zlen l - 1) (-1)) = zlen l - 1) as E1 by lia.
    assert (Z.min (zlen l - 1) (Z.max (-1) (-1)) = -1) as E2 by lia.
    destruct st, en; cbn [default fmap option_fmap option_map id]; by rewrite ?E1, ?E2.
Qed.

Lemma load_items_ok {obj} mok self (l : list obj) s :
  (forall n, mok n = true -> n <= 4 * MAX_SLOTS) -> list_rep self l ->
  (forall k, slice_step s = Some (IntArg k) -> zlen l + k <= 2 ^ 31) ->
  match py_slice_items l s with
  | inl e => list_load mok self (Slice s) = Some (inl e)
  | inr items =>
      exists r, list_load mok self (Slice s) = Some (match r with inl e => inl e | inr x => inr (inr x) end) /\
        new_list mok (Some r) items
  end.
Proof.
  intros Hm Hr Hk. pose proof (load_slice_spec mok Hm self l s Hr) as Hs. rewrite slice_items_ok.
  destruct (mp_obj_slice_indices s (zlen l)) as [e|ix] eqn:E; [done|].
  assert (zlen l + step ix <= 2 ^ 31 /\ - 2 ^ 31 <= step ix) as [H1 H2]; [|exact (Hs H1 H2)].
  assert (zlen l <= MAX_SLOTS) as Hmax by (destruct (rep_eq self l Hr) as (n & ? & ? & _); lia). unfold mp_obj_slice_indices in E. destruct (slice_step s) as [[k|]|] eqn:Es; [| |].
  - specialize (Hk k eq_refl). unfold mp_obj_get_int, mp_obj_get_int_maybe in E. destruct (int_checked k) eqn:Ec; [|done].
    assert (step ix = k) as -> by (repeat case_match; simplify_eq; done). apply Z.ltb_lt in Ec. lia.
  - done.
  - assert (step ix = 1) as -> by (repeat case_match; simplify_eq; done). unfold MAX_SLOTS in Hmax. lia.
Qed.

(** C20: every operation that changes a list does on its items what the abstract
    operation says: the same result or exception, the list unchanged when an
    exception is raised, the unused slots cleared, and no access outside the
    block; when memory runs out the list is the one before, or has some of the
    items of the iterator it was extended by. *)
Theorem list_ops_refine {obj} mok (mp_obj_equal : obj -> obj -> bool) none op self l :
  (forall n, mok n = true -> n <= 4 * MAX_SLOTS) -> list_rep self l -> op_fits op ->
  outcome mok (spec_fails op l) l (run_op mok mp_obj_equal none op self) (spec_op mp_obj_equal op l).
Proof. intros. by apply run_op_spec. Qed.


(** C21: [list.sort] ends for any comparison, permutes the items, nests fewer calls
    than [depth] when there are fewer than [2 ^ depth] items, and puts them in
    order when the comparison is a strict weak order of the keys. *)
Theorem list_sort_spec {obj} less depth self (l : list obj) key_fn reverse :
  list_rep self l -> (0 < depth)%nat -> zlen l < 2 ^ Z.of_nat depth ->
  exists self' l', mp_obj_list_sort less depth self key_fn reverse = Some self' /\ list_rep self' l' /\ l' ≡ₚ l /\
    (StrictWeakOrder less -> forall i j x y, (i < j)%nat -> l' !! i = Some x -> l' !! j = Some y ->
      in_order less key_fn (negb reverse) x y = true).
Proof. apply sort_ok. Qed.

(** The operators of lists: [+] and [*] build the lists they say (while the size
    of the product fits), comparisons are lexicographic, [copy], [count] and
    iteration give the items. *)
Theorem list_operators_spec {obj} mok (eq lt : obj -> obj -> bool) binop o p l1 l2 n :
  (forall n, mok n = true -> n <= 4 * MAX_SLOTS) -> ItemOrder eq lt binop -> list_rep o l1 -> list_rep p l2 ->
  int_checked n = true -> zlen l1 * n < 2 ^ 30 ->
  new_list mok (list_add mok o p) (l1 ++ l2) /\
  (exists r, list_multiply mok o (IntArg n) = Some (match r with inl e => inl e | inr x => inr (Some x) end) /\
     new_list mok (Some r) (repeat_list (Z.to_nat n) l1)) /\
  (forall op, mp_seq_cmp_objs eq binop op (items o) (len o) (items p) (len p) = Some (cmp_result op (lex_compare eq lt l1 l2))) /\
  new_list mok (list_copy mok o) l1 /\
  (forall v, list_count eq o v = Some (zlen (filter (fun x => eq x v = true) l1))) /\
  iterate (S (length l1)) o 0 = Some l1.
Proof.
  intros Hm Ho Hr1 Hr2 Hf Hn. split; [by apply add_spec|]. split; [by apply multiply_spec|].
  split; [intros; by apply cmp_objs_spec|]. split; [by apply copy_spec|]. split.
  - intros v. unfold list_count, mp_seq_count_obj. rewrite (rep_items o l1 Hr1), (rep_len o l1 Hr1).
    rewrite count_loop_spec by (pose proof (zlen_nonneg l1); lia). by rewrite drop_0.
  - by rewrite (iterate_spec o l1 (length l1) 0) by (unfold zlen; done || lia).
Qed.

(** * Witnesses and examples *)

Definition ex_mok (n : Z) : bool := n <=? 1024.

Lemma ex_mok_max n : ex_mok n = true -> n <= 4 * MAX_SLOTS.
Proof. unfold ex_mok, MAX_SLOTS. lia. Qed.

Definition ex_list (l : list Z) (room : nat) : mp_obj_list_t Z :=
  {| alloc := zlen l + Z.of_nat room; len := zlen l; items := (OBJ <$> l) ++ replicate room NULLP |}.

Lemma ex_list_rep l room : 1 <= zlen l + Z.of_nat room <= MAX_SLOTS -> list_rep (ex_list l room) l.
Proof. intros. apply (rep_mk' l (Z.of_nat room)); try done; [lia|]. by rewrite Nat2Z.id. Qed.

Instance Zltb_strict : StrictWeakOrder Z.ltb.
Proof. split; intros; lia. Qed.

Definition ex_binop (op : cmp_op) (a b : Z) : bool :=
  match op with EQUAL => a =? b | LESS => a <? b | MORE => b <? a | LESS_EQUAL => a <=? b | MORE_EQUAL => b <=? a end.

Instance Z_item_order : ItemOrder Z.eqb Z.ltb ex_binop.
Proof. split; intros a b; unfold ex_binop; lia. Qed.

Definition ex_store : list_op :=
  StoreSlice {| slice_start := Some (IntArg 1); slice_stop := Some (IntArg 2); slice_step := None |} [7; 8; 9].

Lemma list_ops_refine_witness :
  outcome ex_mok (spec_fails ex_store [1; 2; 3; 4]) [1; 2; 3; 4] (run_op ex_mok Z.eqb 0 ex_store (ex_list [1; 2; 3; 4] 0))
    (spec_op Z.eqb ex_store [1; 2; 3; 4]) /\ spec_op Z.eqb ex_store [1; 2; 3; 4] = inr ([1; 7; 8; 9; 3; 4], None).
Proof.
  split; [|reflexivity].
  apply (list_ops_refine ex_mok Z.eqb 0 ex_store (ex_list [1; 2; 3; 4] 0) [1; 2; 3; 4]);
    [exact ex_mok_max|by apply ex_list_rep|by unfold op_fits, MAX_SLOTS].
Defined.


Lemma list_sort_spec_witness :
  exists self' l', mp_obj_list_sort Z.ltb 3 (ex_list [3; 1; 2; 3; 0] 0) None false = Some self' /\ list_rep self' l' /\
    l' ≡ₚ [3; 1; 2; 3; 0] /\
    (StrictWeakOrder Z.ltb -> forall i j x y, (i < j)%nat -> l' !! i = Some x -> l' !! j = Some y -> in_order Z.ltb None true x y = true).
Proof.
  apply (list_sort_spec Z.ltb 3 (ex_list [3; 1; 2; 3; 0] 0) [3; 1; 2; 3; 0] None false); [by apply ex_list_rep|lia|done].
Defined.

Example sort_down : items <$> mp_obj_list_sort Z.ltb 3 (ex_list [3; 1; 2; 3; 0] 1) None true =
  Some ((OBJ <$> [3; 3; 2; 1; 0]) ++ [NULLP]).
Proof. vm_compute. reflexivity. Qed.

Lemma list_operators_spec_witness :
  new_list ex_mok (list_add ex_mok (ex_list [1; 2] 2) (ex_list [3] 3)) [1; 2; 3].
Proof.
  apply (list_operators_spec ex_mok Z.eqb Z.ltb ex_binop (ex_list [1; 2] 2) (ex_list [3] 3) [1; 2] [3] 2 ex_mok_max Z_item_order);
    [by apply ex_list_rep|by apply ex_list_rep|done|done].
Defined.

(** The index of [insert] is taken for a small integer whatever it is: with the
    string at address 0x8100000, the item is appended and no [TypeError]
    raised. *)
Example insert_unchecked :
  run_op ex_mok Z.eqb 0 (Insert 0x8100000 9) (ex_list [1; 2] 2) = Some (ex_list [1; 2; 9] 1, inr None).
Proof. vm_compute. reflexivity. Qed.

(** A step close to the largest machine integer overflows the index, where
    Python has the first item only. *)
Example slice_step_overflow :
  list_load ex_mok (ex_list [1; 2; 3] 1)
    (Slice {| slice_start := Some (IntArg 1); slice_stop := None; slice_step := Some (IntArg (2 ^ 31 - 1)) |}) = None /\
  py_slice [1; 2; 3] {| start := 1; stop := 3; step := 2 ^ 31 - 1 |} = [2].
Proof. split; vm_compute; reflexivity. Qed.

(** [o->len * n] is computed in 32 bits: four items repeated 2^30 times get a
    block of four slots, and the copy leaves it. *)
Example multiply_overflow : list_multiply ex_mok (ex_list [1; 2; 3; 4] 0) (IntArg (2 ^ 30)) = None.
Proof.
  unfold list_multiply. change (mp_obj_get_int_maybe (IntArg (2 ^ 30))) with (inr (Some (2 ^ 30)) : exn + option Z).
  cbv beta iota zeta. change (2 ^ 30 <? 0) with false. cbv iota.
  replace (Z.to_nat (2 ^ 30)) with (S (S (Z.to_nat (2 ^ 30) - 2))) by lia. generalize (Z.to_nat (2 ^ 30) - 2)%nat as n.
  intros n. reflexivity.
Qed.
