(* ===== verification/IntObj.v ===== *)
(** Integer objects: small integers in the object word and big ones, the
    arithmetic of [py/smallint.c], the integer cases of [mp_unary_op] and
    [mp_binary_op] of [py/runtime.c], and the operations of
    [py/objint_mpz.c].

    The port has 32-bit words, whose small integers have 31 bits.  [None] is an
    overflow of a signed machine integer, a failed assertion or an operator
    integers do not have; in place operators take the same cases as the others.
    The results in floating point are not computed. *)

From Stdlib Require Import ZArith Lia.
From stdpp Require Import base option list numbers.
From S2P Require Import Prelude Mpn Mpz.

(** * Definitions *)

Inductive int_obj := SMALL (v : Z) | BIG (z : mpz_t).

Definition MP_SMALL_INT_MIN : Z := - 2 ^ 30.
Definition MP_SMALL_INT_MAX : Z := 2 ^ 30 - 1.
Definition MP_OBJ_WORD_MSBIT_HIGH : Z := 2 ^ 31.

Definition MP_SMALL_INT_FITS (n : Z) : bool :=
  Z.land (Z.lxor (wrapu 32 n) (wrapu 32 (Z.shiftl (wrapu 32 n) 1))) MP_OBJ_WORD_MSBIT_HIGH =? 0.

(** The value is kept in 31 bits. *)
Definition MP_OBJ_NEW_SMALL_INT (n : Z) : int_obj := SMALL (wraps 31 n).

Inductive exn := ZeroDivisionError | ValueError | OverflowError.

Inductive int_result := R_INT (o : int_obj) | R_BOOL (b : bool) | R_PAIR (q r : int_obj) | R_FLOAT.

(** ** Machine arithmetic *)

(** The result of a signed 32-bit operation. *)
Definition s32 (v : Z) : option Z := if (- 2 ^ 31 <=? v) && (v <? 2 ^ 31) then Some v else None.

Definition mp_small_int_mul_overflow (x y : Z) : bool :=
  if x >? 0 then
    if y >? 0 then x >? Z.quot MP_SMALL_INT_MAX y
    else y <? Z.quot MP_SMALL_INT_MIN x
  else
    if y >? 0 then x <? Z.quot MP_SMALL_INT_MIN y
    else negb (x =? 0) && (y <? Z.quot MP_SMALL_INT_MAX x).

Definition mp_small_int_modulo (dividend divisor : Z) : Z :=
  let dividend := Z.rem dividend divisor in
  if ((dividend <? 0) && (divisor >? 0)) || ((dividend >? 0) && (divisor <? 0))
  then dividend + divisor else dividend.

Definition mp_small_int_floor_divide (num denom : Z) : option Z :=
  num ← (if num >=? 0 then (if denom <? 0 then s32 (num + (- denom - 1)) else Some num)
         else (if denom >=? 0 then s32 (num + (- denom + 1)) else Some num));
  s32 (Z.quot num denom).

(** ** Making integers *)

Definition mp_obj_new_int_from_ll (val : Z) : option int_obj :=
  z ← mpz_set_from_ll mpz_init_zero val true; Some (BIG z).

Definition mp_obj_new_int_from_ull (val : Z) : option int_obj :=
  z ← mpz_set_from_ll mpz_init_zero val false; Some (BIG z).

Definition mp_obj_new_int (value : Z) : option int_obj :=
  if MP_SMALL_INT_FITS value then Some (MP_OBJ_NEW_SMALL_INT value) else mp_obj_new_int_from_ll value.

Definition mp_obj_new_int_from_uint (value : Z) : option int_obj :=
  if Z.land value (wrapu 32 (Z.lor MP_OBJ_WORD_MSBIT_HIGH (Z.shiftr MP_OBJ_WORD_MSBIT_HIGH 1))) =? 0
  then Some (MP_OBJ_NEW_SMALL_INT value) else mp_obj_new_int_from_ull value.

(** ** Reading integers *)

Definition mp_obj_int_sign (self : int_obj) : Z :=
  match self with
  | SMALL val => if val <? 0 then -1 else if val >? 0 then 1 else 0
  | BIG z => if len z =? 0 then 0 else if negb (neg z) then 1 else -1
  end.

Definition mp_obj_int_get_truncated (self : int_obj) : Z :=
  match self with SMALL val => val | BIG z => mpz_hash z end.

Definition mp_obj_int_get_checked (self : int_obj) : exn + Z :=
  match self with
  | SMALL val => inr val
  | BIG z => match mpz_as_int_checked z with Some v => inr v | None => inl OverflowError end
  end.

Definition mp_obj_int_get_uint_checked (self : int_obj) : exn + Z :=
  match self with
  | SMALL val => if val >=? 0 then inr val else inl OverflowError
  | BIG z => match mpz_as_uint_checked z with Some v => inr v | None => inl OverflowError end
  end.

(** ** Operators of one operand *)

Inductive unary_op := OP_BOOL | OP_HASH | OP_POSITIVE | OP_NEGATIVE | OP_INVERT | OP_ABS.

Definition mp_obj_int_unary_op (op : unary_op) (o : mpz_t) : option int_result :=
  match op with
  | OP_BOOL => Some (R_BOOL (negb (mpz_is_zero o)))
  | OP_HASH => Some (R_INT (MP_OBJ_NEW_SMALL_INT (mpz_hash o)))
  | OP_POSITIVE => Some (R_INT (BIG o))
  | OP_NEGATIVE => o2 ← mpz_neg_inpl false mpz_init_zero o; Some (R_INT (BIG o2))
  | OP_INVERT => o2 ← mpz_not_inpl false mpz_init_zero o; Some (R_INT (BIG o2))
  | OP_ABS =>
      if negb (neg o) then Some (R_INT (BIG o))
      else self2 ← mpz_abs_inpl false mpz_init_zero o; Some (R_INT (BIG self2))
  end.

Definition mp_unary_op (op : unary_op) (arg : int_obj) : option int_result :=
  match arg with
  | BIG z => mp_obj_int_unary_op op z
  | SMALL val =>
      match op with
      | OP_BOOL => Some (R_BOOL (negb (val =? 0)))
      | OP_HASH | OP_POSITIVE => Some (R_INT arg)
      | OP_NEGATIVE =>
          if val =? MP_SMALL_INT_MIN then o ← mp_obj_new_int (- val); Some (R_INT o)
          else Some (R_INT (MP_OBJ_NEW_SMALL_INT (- val)))
      | OP_ABS =>
          if val >=? 0 then Some (R_INT arg)
          else if val =? MP_SMALL_INT_MIN then o ← mp_obj_new_int (- val); Some (R_INT o)
          else Some (R_INT (MP_OBJ_NEW_SMALL_INT (- val)))
      | OP_INVERT => Some (R_INT (MP_OBJ_NEW_SMALL_INT (Z.lnot val)))
      end
  end.

(** ** Operators of two operands *)

Inductive binary_op :=
  | OP_LESS | OP_MORE | OP_EQUAL | OP_LESS_EQUAL | OP_MORE_EQUAL
  | OP_OR | OP_XOR | OP_AND | OP_LSHIFT | OP_RSHIFT | OP_ADD | OP_SUBTRACT | OP_MULTIPLY
  | OP_FLOOR_DIVIDE | OP_TRUE_DIVIDE | OP_MODULO | OP_POWER | OP_DIVMOD.

#[export] Instance binary_op_eq_dec : EqDecision binary_op.
Proof. solve_decision. Defined.

(** [mpz_init_fixed_from_int] on an array of digits of the caller. *)
Definition mpz_init_fixed_from_int (alloc val : Z) : option mpz_t :=
  mpz_set_from_int {| neg := false; fixed_dig := true; Mpz.alloc := alloc; dig := [] |} val.

Definition operand (o : int_obj) : option mpz_t :=
  match o with SMALL v => mpz_init_fixed_from_int MPZ_NUM_DIG_FOR_INT v | BIG z => Some z end.

Definition is_small (o : int_obj) : bool := match o with SMALL _ => true | BIG _ => false end.

Definition new_big (z : option mpz_t) : option (exn + int_result) := z ← z; Some (inr (R_INT (BIG z))).

(** ** Numbers as floats

    A double: the integers of an [mpz] stay integers through its loop, rounded
    to 53 bits, until they are infinite. *)

Inductive mp_float := F_INT (v : Z) | F_INF (sign : bool).

(** The nearest number of 53 bits, the even one of two. *)
Definition round53 (n : Z) : Z :=
  let e := Z.log2 n - 52 in
  if e <=? 0 then n else
  let q := n / 2 ^ e in
  let r := n mod 2 ^ e in
  let half := 2 ^ (e - 1) in
  (if (half <? r) || (r =? half) && Z.odd q then q + 1 else q) * 2 ^ e.

(** [val * DIG_BASE + d]; [None] is the infinity. *)
Definition float_digit (d : Z) (val : option Z) : option Z :=
  val ← val;
  let val := round53 (val * 2 ^ DIG_SIZE + d) in
  if val <? 2 ^ 1024 then Some val else None.

Definition mpz_as_float (i : mpz_t) : mp_float :=
  match foldr float_digit (Some 0) (dig i) with
  | Some val => F_INT (if neg i then - val else val)
  | None => F_INF (neg i)
  end.

Definition mp_obj_get_float (arg : int_obj) : mp_float :=
  match arg with SMALL v => F_INT v | BIG z => mpz_as_float z end.

(** [mp_obj_float_binary_op] on a power of integers; the value that [pow]
    computes is left out. *)
Definition mp_obj_float_power (lhs_val : mp_float) (rhs : int_obj) : exn + int_result :=
  match lhs_val, mp_obj_get_float rhs with
  | F_INT l, F_INT r => if (l =? 0) && (r <? 0) then inl ZeroDivisionError else inr R_FLOAT
  | _, _ => inr R_FLOAT
  end.

(** The operands that are small integers are put in the same number. *)
Definition mp_obj_int_binary_op (op : binary_op) (lhs_in rhs_in : int_obj) : option (exn + int_result) :=
  zlhs ← operand lhs_in;
  zrhs ← operand rhs_in;
  let zlhs := if is_small lhs_in && is_small rhs_in then zrhs else zlhs in
  let res := mpz_init_zero in
  match op with
  | OP_TRUE_DIVIDE => Some (if mpz_is_zero zrhs then inl ZeroDivisionError else inr R_FLOAT)
  | OP_ADD => new_big (mpz_add_inpl res zlhs zrhs)
  | OP_SUBTRACT => new_big (mpz_sub_inpl res zlhs zrhs)
  | OP_MULTIPLY => new_big (mpz_mul_inpl false false res zlhs zrhs)
  | OP_FLOOR_DIVIDE =>
      if mpz_is_zero zrhs then Some (inl ZeroDivisionError) else
      new_big ('(quo, _) ← mpz_divmod_inpl false res mpz_init_zero zlhs zrhs; Some quo)
  | OP_MODULO =>
      if mpz_is_zero zrhs then Some (inl ZeroDivisionError) else
      new_big ('(_, rem) ← mpz_divmod_inpl false mpz_init_zero res zlhs zrhs; Some rem)
  | OP_AND => new_big (mpz_and_inpl res zlhs zrhs)
  | OP_OR => new_big (mpz_or_inpl res zlhs zrhs)
  | OP_XOR => new_big (mpz_xor_inpl res zlhs zrhs)
  | OP_LSHIFT | OP_RSHIFT =>
      match mp_obj_int_get_checked rhs_in with
      | inl e => Some (inl e)
      | inr irhs =>
          if irhs <? 0 then Some (inl ValueError) else
          match op with
          | OP_LSHIFT => new_big (mpz_shl_inpl res zlhs irhs)
          | _ => new_big (mpz_shr_inpl false res zlhs irhs)
          end
      end
  | OP_POWER =>
      if neg zrhs then Some (mp_obj_float_power (mpz_as_float zlhs) rhs_in) else new_big (mpz_pow_inpl res zlhs zrhs)
  | OP_DIVMOD =>
      if mpz_is_zero zrhs then Some (inl ZeroDivisionError) else
      '(quo, rem) ← mpz_divmod_inpl false mpz_init_zero res zlhs zrhs;
      Some (inr (R_PAIR (BIG quo) (BIG rem)))
  | OP_LESS => Some (inr (R_BOOL (mpz_cmp zlhs zrhs <? 0)))
  | OP_MORE => Some (inr (R_BOOL (mpz_cmp zlhs zrhs >? 0)))
  | OP_LESS_EQUAL => Some (inr (R_BOOL (mpz_cmp zlhs zrhs <=? 0)))
  | OP_MORE_EQUAL => Some (inr (R_BOOL (mpz_cmp zlhs zrhs >=? 0)))
  | OP_EQUAL => Some (inr (R_BOOL (mpz_cmp zlhs zrhs =? 0)))
  end.

(** The loop of the power of small integers: the answer, [inl] when it does not
    fit one. *)
Fixpoint small_pow_loop (fuel : nat) (ans lhs_val rhs_val : Z) : option (unit + Z) :=
  if rhs_val >? 0 then
    match fuel with
    | O => None
    | S fuel =>
        let bit := negb (Z.land rhs_val 1 =? 0) in
        if bit && mp_small_int_mul_overflow ans lhs_val then Some (inl tt) else
        ans ← (if bit then s32 (ans * lhs_val) else Some ans);
        if rhs_val =? 1 then Some (inr ans) else
        let rhs_val := Z.quot rhs_val 2 in
        if mp_small_int_mul_overflow lhs_val lhs_val then Some (inl tt) else
        lhs_val ← s32 (lhs_val * lhs_val);
        small_pow_loop fuel ans lhs_val rhs_val
    end
  else Some (inr ans).

(** The bits of a small integer. *)
Definition SMALL_POW_FUEL : nat := 31.

(** A value that may need a big integer. *)
Definition new_value (v : option Z) : option (exn + int_result) :=
  v ← v;
  o ← (if MP_SMALL_INT_FITS v then Some (MP_OBJ_NEW_SMALL_INT v) else mp_obj_new_int_from_ll v);
  Some (inr (R_INT o)).

(** The left operand as a big integer. *)
Definition generic_binary_op (op : binary_op) (lhs_val : Z) (rhs : int_obj) : option (exn + int_result) :=
  lhs ← mp_obj_new_int_from_ll lhs_val; mp_obj_int_binary_op op lhs rhs.

Definition small_binary_op (op : binary_op) (lhs_val rhs_val : Z) : option (exn + int_result) :=
  match op with
  | OP_OR => new_value (Some (Z.lor lhs_val rhs_val))
  | OP_XOR => new_value (Some (Z.lxor lhs_val rhs_val))
  | OP_AND => new_value (Some (Z.land lhs_val rhs_val))
  | OP_LSHIFT =>
      if rhs_val <? 0 then Some (inl ValueError)
      else if (rhs_val >=? 32) || (lhs_val >? Z.shiftr MP_SMALL_INT_MAX rhs_val) ||
              (lhs_val <? Z.shiftr MP_SMALL_INT_MIN rhs_val)
      then generic_binary_op op lhs_val (SMALL rhs_val)
      else new_value (Some (wraps 32 (Z.shiftl (wrapu 32 lhs_val) rhs_val)))
  | OP_RSHIFT =>
      if rhs_val <? 0 then Some (inl ValueError)
      else new_value (Some (Z.shiftr lhs_val (if rhs_val >=? 32 then 31 else rhs_val)))
  | OP_ADD => new_value (s32 (lhs_val + rhs_val))
  | OP_SUBTRACT => new_value (s32 (lhs_val - rhs_val))
  | OP_MULTIPLY =>
      if mp_small_int_mul_overflow lhs_val rhs_val
      then generic_binary_op op lhs_val (SMALL rhs_val)
      else v ← s32 (lhs_val * rhs_val); Some (inr (R_INT (MP_OBJ_NEW_SMALL_INT v)))
  | OP_FLOOR_DIVIDE =>
      if rhs_val =? 0 then Some (inl ZeroDivisionError)
      else new_value (mp_small_int_floor_divide lhs_val rhs_val)
  | OP_TRUE_DIVIDE => Some (if rhs_val =? 0 then inl ZeroDivisionError else inr R_FLOAT)
  | OP_MODULO =>
      if rhs_val =? 0 then Some (inl ZeroDivisionError)
      else new_value (Some (mp_small_int_modulo lhs_val rhs_val))
  | OP_POWER =>
      if rhs_val <? 0 then Some (mp_obj_float_power (F_INT lhs_val) (SMALL rhs_val)) else
      r ← small_pow_loop SMALL_POW_FUEL 1 lhs_val rhs_val;
      match r with
      | inl _ => generic_binary_op op lhs_val (SMALL rhs_val)
      | inr ans => new_value (Some ans)
      end
  | OP_DIVMOD =>
      if rhs_val =? 0 then Some (inl ZeroDivisionError) else
      q ← mp_small_int_floor_divide lhs_val rhs_val;
      Some (inr (R_PAIR (MP_OBJ_NEW_SMALL_INT q) (MP_OBJ_NEW_SMALL_INT (mp_small_int_modulo lhs_val rhs_val))))
  | OP_LESS => Some (inr (R_BOOL (lhs_val <? rhs_val)))
  | OP_MORE => Some (inr (R_BOOL (lhs_val >? rhs_val)))
  | OP_LESS_EQUAL => Some (inr (R_BOOL (lhs_val <=? rhs_val)))
  | OP_MORE_EQUAL => Some (inr (R_BOOL (lhs_val >=? rhs_val)))
  | OP_EQUAL => Some (inr (R_BOOL (lhs_val =? rhs_val)))
  end.

(** [mp_obj_equal] of two integers that are not the same object: the big one
    compares. *)
Definition mp_obj_equal (o1 o2 : int_obj) : option (exn + int_result) :=
  match o1, o2 with
  | SMALL a, SMALL b => Some (inr (R_BOOL (a =? b)))
  | SMALL _, BIG _ => mp_obj_int_binary_op OP_EQUAL o2 o1
  | BIG _, _ => mp_obj_int_binary_op OP_EQUAL o1 o2
  end.

Definition mp_binary_op (op : binary_op) (lhs rhs : int_obj) : option (exn + int_result) :=
  match op with
  | OP_EQUAL => mp_obj_equal lhs rhs
  | _ =>
      match lhs, rhs with
      | SMALL lhs_val, SMALL rhs_val => small_binary_op op lhs_val rhs_val
      | _, _ => mp_obj_int_binary_op op lhs rhs
      end
  end.

(** [pow] with a modulus. *)
Definition mp_mpz_for_int (arg : int_obj) : option mpz_t :=
  match arg with SMALL v => mpz_init_from_int v | BIG z => Some z end.

Definition mp_obj_int_pow3 (base exponent modulus : int_obj) : option int_obj :=
  res ← mpz_set_from_ll mpz_init_zero 0 false;
  lhs ← mp_mpz_for_int base;
  rhs ← mp_mpz_for_int exponent;
  m ← mp_mpz_for_int modulus;
  r ← mpz_pow3_inpl false false res lhs rhs m;
  Some (BIG r).
