(* ===== verification/IntSpec.v ===== *)
(** What the operators of integers compute: the values of integer objects, the
    reference semantics over the mathematical integers, and the lemmas on each
    operation of [IntObj]. *)

From Stdlib Require Import ZArith Lia.
From stdpp Require Import base option list numbers.
From S2P Require Import Prelude Mpn MpnSpec Mpz MpzSpec MpzConv IntObj.

(** * Definitions *)

Definition ival (o : int_obj) : Z := match o with SMALL v => v | BIG z => zval z end.

Definition int_ok (o : int_obj) : Prop :=
  match o with SMALL v => MP_SMALL_INT_MIN <= v <= MP_SMALL_INT_MAX | BIG z => mpz_ok z end.

(** The digits can be counted by a machine word. *)
Definition in_memory (o : int_obj) : Prop :=
  match o with SMALL _ => True | BIG z => small z end.

Inductive py_value := V_INT (v : Z) | V_BOOL (b : bool) | V_PAIR (q r : Z) | V_FLOAT.

Definition denotes (r : int_result) (v : py_value) : Prop :=
  match r, v with
  | R_INT o, V_INT v => int_ok o /\ ival o = v
  | R_BOOL b, V_BOOL b' => b = b'
  | R_PAIR q r, V_PAIR q' r' => (int_ok q /\ ival q = q') /\ (int_ok r /\ ival r = r')
  | R_FLOAT, V_FLOAT => True
  | _, _ => False
  end.

(** The outcome of an operator: the exception, or a result of that value. *)
Definition gives (o : option (exn + int_result)) (v : exn + py_value) : Prop :=
  match v with
  | inl e => o = Some (inl e)
  | inr v => exists r, o = Some (inr r) /\ denotes r v
  end.

Definition py_hash (a : Z) : Z := wraps 31 a.

Definition py_unary (op : unary_op) (a : Z) : py_value :=
  match op with
  | OP_BOOL => V_BOOL (negb (a =? 0))
  | OP_HASH => V_INT (py_hash a)
  | OP_POSITIVE => V_INT a
  | OP_NEGATIVE => V_INT (- a)
  | OP_INVERT => V_INT (- a - 1)
  | OP_ABS => V_INT (Z.abs a)
  end.

Definition py_shift (v b : Z) : exn + py_value :=
  if 2 ^ 31 <=? Z.abs b then inl OverflowError else
  if b <? 0 then inl ValueError else inr (V_INT v).

Definition nonzero (b : Z) (v : py_value) : exn + py_value :=
  if b =? 0 then inl ZeroDivisionError else inr v.

Definition py_binary (op : binary_op) (a b : Z) : exn + py_value :=
  match op with
  | OP_LESS => inr (V_BOOL (a <? b))
  | OP_MORE => inr (V_BOOL (b <? a))
  | OP_EQUAL => inr (V_BOOL (a =? b))
  | OP_LESS_EQUAL => inr (V_BOOL (a <=? b))
  | OP_MORE_EQUAL => inr (V_BOOL (b <=? a))
  | OP_OR => inr (V_INT (Z.lor a b))
  | OP_XOR => inr (V_INT (Z.lxor a b))
  | OP_AND => inr (V_INT (Z.land a b))
  | OP_LSHIFT => py_shift (a * 2 ^ b) b
  | OP_RSHIFT => py_shift (a / 2 ^ b) b
  | OP_ADD => inr (V_INT (a + b))
  | OP_SUBTRACT => inr (V_INT (a - b))
  | OP_MULTIPLY => inr (V_INT (a * b))
  | OP_FLOOR_DIVIDE => nonzero b (V_INT (a / b))
  | OP_TRUE_DIVIDE => nonzero b V_FLOAT
  | OP_MODULO => nonzero b (V_INT (a mod b))
  | OP_POWER => if b <? 0 then nonzero a V_FLOAT else inr (V_INT (a ^ b))
  | OP_DIVMOD => nonzero b (V_PAIR (a / b) (a mod b))
  end.

(** The cases where the code does what Python does: the bitwise operators on
    numbers that fit the memory, zero to the power of zero on small integers
    only, zero to a negative power that is not an infinite float (below 60
    digits it never is), and not [divmod] of the least small integer by minus one. *)
Definition regular (op : binary_op) (l r : int_obj) : Prop :=
  match op with
  | OP_AND | OP_OR | OP_XOR => in_memory l /\ in_memory r
  | OP_POWER => ival l = 0 -> - 2 ^ 960 < ival r /\ (ival r = 0 -> is_small l && is_small r = true)
  | OP_DIVMOD => l = SMALL MP_SMALL_INT_MIN -> r = SMALL (- 1) -> False
  | _ => True
  end.

(** The comparisons of the goal are decided. *)
Ltac order_cases :=
  repeat match goal with
  | |- context [?x <=? ?y] => destruct (Z.leb_spec x y)
  | |- context [?x <? ?y] => destruct (Z.ltb_spec x y)
  end; cbn [negb andb orb]; try done; try lia; exfalso.

(** * Bits and bounds of small integers *)

Lemma testbit_msb u : 0 <= u < 2 ^ 32 -> Z.testbit u 31 = (2 ^ 31 <=? u).
Proof.
  intros Hu. destruct (Z.leb_spec (2 ^ 31) u) as [H|H].
  - rewrite Z.testbit_true by lia. replace (u / 2 ^ 31) with 1; [done|].
    apply Z.div_unique_pos with (u - 2 ^ 31); lia.
  - rewrite Z.testbit_false by lia. by rewrite Z.div_small by lia.
Qed.

Lemma wraps_wraps_le n m x : 0 < n <= m -> wraps n (wraps m x) = wraps n x.
Proof.
  intros H. apply wraps_eq; [lia|].
  assert ((2 ^ n | 2 ^ m)) as Hd by (exists (2 ^ (m - n)); rewrite <- Z.pow_add_r by lia; f_equal; lia).
  rewrite <- (Z.mod_mod_divide (wraps m x) (2 ^ m) (2 ^ n)) by done.
  by rewrite wraps_mod, Z.mod_mod_divide by (done || lia).
Qed.

Lemma fits_spec n : - 2 ^ 31 <= n < 2 ^ 31 ->
  MP_SMALL_INT_FITS n = (MP_SMALL_INT_MIN <=? n) && (n <=? MP_SMALL_INT_MAX).
Proof.
  intros Hn. unfold MP_SMALL_INT_FITS, MP_OBJ_WORD_MSBIT_HIGH, MP_SMALL_INT_MIN, MP_SMALL_INT_MAX.
  rewrite land_pow2, Z.lxor_spec by done. pose proof (wrapu_range 32 n ltac:(done)).
  assert (wrapu 32 n = if n <? 0 then n + 2 ^ 32 else n) as E.
  { unfold wrapu. destruct (Z.ltb_spec n 0); [|apply Z.mod_small; lia].
    symmetry. apply Z.mod_unique_pos with (-1); lia. }
  rewrite Z.shiftl_mul_pow2 by done. change (2 ^ 1) with 2.
  rewrite !testbit_msb by (try apply wrapu_range; lia).
  set (u := wrapu 32 n) in *.
  assert (wrapu 32 (u * 2) = if 2 ^ 31 <=? u then u * 2 - 2 ^ 32 else u * 2) as ->.
  { unfold wrapu. destruct (Z.leb_spec (2 ^ 31) u); [|apply Z.mod_small; lia].
    symmetry. apply Z.mod_unique_pos with 1; lia. }
  destruct (Z.leb_spec (2 ^ 31) u), (Z.ltb_spec n 0); try lia; order_cases; lia.
Qed.

Lemma s32_some v : - 2 ^ 31 <= v < 2 ^ 31 -> s32 v = Some v.
Proof.
  intros Hv. unfold s32. rewrite (proj2 (Z.leb_le _ _)) by lia. by rewrite (proj2 (Z.ltb_lt _ _)) by lia.
Qed.

(** The test of the product of two small integers is exact, without computing
    it. *)
Lemma mul_overflow_ok x y :
  mp_small_int_mul_overflow x y = negb ((MP_SMALL_INT_MIN <=? x * y) && (x * y <=? MP_SMALL_INT_MAX)).
Proof.
  unfold mp_small_int_mul_overflow, MP_SMALL_INT_MIN, MP_SMALL_INT_MAX. rewrite !Z.gtb_ltb.
  destruct (Z.ltb_spec 0 x), (Z.ltb_spec 0 y).
  - rewrite Z.quot_div_nonneg by lia. pose proof (div_bounds (2 ^ 30 - 1) y). order_cases; nia.
  - rewrite Z.quot_opp_l, Z.quot_div_nonneg by lia. pose proof (div_bounds (2 ^ 30) x). order_cases; nia.
  - rewrite Z.quot_opp_l, Z.quot_div_nonneg by lia. pose proof (div_bounds (2 ^ 30) y). order_cases; nia.
  - destruct (Z.eqb_spec x 0) as [->|Hx]; [done|]. cbn [negb andb].
    replace x with (- - x) at 1 by lia. rewrite Z.quot_opp_r, Z.quot_div_nonneg by lia.
    pose proof (div_bounds (2 ^ 30 - 1) (- x)). order_cases; nia.
Qed.

Lemma modulo_ok a b : b <> 0 -> mp_small_int_modulo a b = a mod b.
Proof.
  intros Hb. unfold mp_small_int_modulo. rewrite !Z.gtb_ltb.
  pose proof (Z.quot_rem' a b). pose proof (Z.rem_bound_abs a b Hb).
  destruct (Z.ltb_spec (Z.rem a b) 0), (Z.ltb_spec 0 b), (Z.ltb_spec 0 (Z.rem a b)), (Z.ltb_spec b 0);
    cbn [andb orb]; try lia.
  all: first [apply Z.mod_unique with (Z.quot a b); lia | apply Z.mod_unique with (Z.quot a b - 1); lia].
Qed.

Lemma quot_abs n d : d <> 0 -> 0 <= n * d -> Z.quot n d = Z.abs n / Z.abs d.
Proof.
  intros Hd Hs. destruct (Z.eq_dec n 0) as [->|]; [by rewrite Z.quot_0_l, Z.div_0_l by lia|].
  destruct (Z.lt_ge_cases n 0), (Z.lt_ge_cases d 0); try nia.
  - rewrite <- (Z.quot_opp_opp n d), Z.quot_div_nonneg, !Z.abs_neq by lia. done.
  - rewrite Z.quot_div_nonneg, !Z.abs_eq by lia. done.
Qed.

Lemma quot_abs_opp n d : d <> 0 -> n * d <= 0 -> Z.quot n d = - (Z.abs n / Z.abs d).
Proof.
  intros Hd Hs. replace n with (- - n) at 1 by lia. rewrite Z.quot_opp_l, quot_abs, Z.abs_opp by nia. done.
Qed.

Lemma floor_divide_ok a b :
  MP_SMALL_INT_MIN <= a <= MP_SMALL_INT_MAX -> MP_SMALL_INT_MIN <= b <= MP_SMALL_INT_MAX -> b <> 0 ->
  mp_small_int_floor_divide a b = Some (a / b) /\ - 2 ^ 30 <= a / b <= 2 ^ 30.
Proof.
  unfold MP_SMALL_INT_MIN, MP_SMALL_INT_MAX. intros Ha Hb Hb0.
  assert (- 2 ^ 30 <= a / b <= 2 ^ 30) as Hq.
  { destruct (Z.lt_ge_cases b 0).
    - rewrite <- Z.div_opp_opp by lia. pose proof (div_bounds (- a) (- b)). nia.
    - pose proof (div_bounds a b). nia. }
  split; [|done]. unfold mp_small_int_floor_divide. rewrite !Z.geb_leb.
  destruct (Z.leb_spec 0 a), (Z.ltb_spec b 0), (Z.leb_spec 0 b); try lia.
  - rewrite s32_some by lia. cbn [mbind option_bind]. rewrite quot_abs_opp by nia.
    rewrite s32_some.
    + f_equal. rewrite <- (Z.div_opp_opp a b) by lia.
      pose proof (div_bounds (Z.abs (a + (- b - 1))) (Z.abs b)). pose proof (div_bounds (- a) (- b)). nia.
    + pose proof (div_bounds (Z.abs (a + (- b - 1))) (Z.abs b)). nia.
  - cbn [mbind option_bind]. rewrite quot_abs, !Z.abs_eq by nia. apply s32_some. lia.
  - cbn [mbind option_bind]. rewrite quot_abs, !Z.abs_neq, Z.div_opp_opp by nia. apply s32_some. lia.
  - rewrite s32_some by lia. cbn [mbind option_bind]. rewrite quot_abs_opp by nia.
    rewrite s32_some.
    + f_equal. pose proof (div_bounds (Z.abs (a + (- b + 1))) (Z.abs b)). pose proof (div_bounds a b). nia.
    + pose proof (div_bounds (Z.abs (a + (- b + 1))) (Z.abs b)). nia.
Qed.

(** * Objects *)

Lemma small_int_ok v : MP_SMALL_INT_MIN <= v <= MP_SMALL_INT_MAX ->
  int_ok (MP_OBJ_NEW_SMALL_INT v) /\ ival (MP_OBJ_NEW_SMALL_INT v) = v.
Proof.
  unfold MP_SMALL_INT_MIN, MP_SMALL_INT_MAX. intros Hv. unfold MP_OBJ_NEW_SMALL_INT. cbn [int_ok ival].
  rewrite wraps_small by (cbn; lia). done.
Qed.

Lemma operand_ok o : int_ok o -> exists z, operand o = Some z /\ rep (ival o) z.
Proof.
  destruct o as [v|z]; intros Ho.
  - apply mpz_set_from_int_fixed; [done|]. unfold int_ok, MP_SMALL_INT_MIN, MP_SMALL_INT_MAX in Ho. cbn. lia.
  - exists z. split; [done|]. by apply mpz_ok_rep.
Qed.

Lemma new_big_ok v o : returns v o -> gives (new_big o) (inr (V_INT v)).
Proof.
  intros (r & -> & Hr & _ & Hv). unfold new_big. cbn. eexists. split; [done|]. by split.
Qed.

Lemma from_ll_ok v : - 2 ^ 63 <= v < 2 ^ 63 ->
  exists o, mp_obj_new_int_from_ll v = Some o /\ int_ok o /\ ival o = v /\ is_small o = false.
Proof.
  intros Hv. destruct (mpz_set_from_ll_ok mpz_init_zero v true eq_refl Hv) as (r & E & Hr & _ & Hval).
  unfold mp_obj_new_int_from_ll. rewrite E. by eexists.
Qed.

(** A machine integer is a small integer when it fits one and a big one
    otherwise. *)
Lemma new_int_ok value : - 2 ^ 31 <= value < 2 ^ 31 ->
  exists o, mp_obj_new_int value = Some o /\ int_ok o /\ ival o = value.
Proof.
  intros Hv. unfold mp_obj_new_int. rewrite fits_spec by done.
  destruct (andb _ _) eqn:E.
  - apply andb_true_iff in E as [?%Z.leb_le ?%Z.leb_le]. eexists. split; [done|]. by apply small_int_ok.
  - destruct (from_ll_ok value) as (o & ? & ? & ? & _); [lia|]. by exists o.
Qed.

Lemma new_value_ok v : - 2 ^ 31 <= v < 2 ^ 31 -> gives (new_value (Some v)) (inr (V_INT v)).
Proof.
  intros Hv. destruct (new_int_ok v Hv) as (o & E & Ho). unfold new_value, mp_obj_new_int in *. cbn [mbind option_bind].
  rewrite E. cbn. eexists. by split.
Qed.

(** * The operators *)

Lemma get_checked_ok o : int_ok o ->
  mp_obj_int_get_checked o = if 2 ^ 31 <=? Z.abs (ival o) then inl OverflowError else inr (ival o).
Proof.
  destruct o as [v|z]; cbn [ival mp_obj_int_get_checked]; intros Ho.
  - unfold int_ok, MP_SMALL_INT_MIN, MP_SMALL_INT_MAX in Ho. order_cases.
  - apply mpz_ok_rep in Ho. rewrite (mpz_as_int_checked_ok _ _ Ho). order_cases.
Qed.

Lemma in_memory_operand o z : in_memory o -> operand o = Some z -> small z.
Proof.
  destruct o as [v|z']; cbn; [|by intros ? [= ->]].
  intros _. unfold mpz_init_fixed_from_int, mpz_set_from_int. destruct (v =? 0).
  { intros [= <-]. done. }
  rewrite need_dig_id by done. cbn [mbind option_bind]. change (Z.to_nat (Mpz.alloc _)) with 2%nat.
  destruct (uval_digits 2 _) as [i|]; [|done]. cbn [mbind option_bind]. unfold put. case_match eqn:El; [|done].
  intros [= <-]. apply Z.leb_le in El. unfold small, len. change MPZ_NUM_DIG_FOR_INT with 2 in *. cbn in *. lia.
Qed.

Lemma zero_first v k b r :
  rep b r -> (b <> 0 -> gives k (inr v)) ->
  gives (if mpz_is_zero r then Some (inl ZeroDivisionError) else k) (nonzero b v).
Proof.
  intros Hr Hk. rewrite (rep_zero _ _ Hr). unfold nonzero. destruct (Z.eqb_spec b 0); [done|]. by apply Hk.
Qed.

Lemma sign_iff c d : Z.sgn c = Z.sgn d ->
  (c <? 0) = (d <? 0) /\ (c >? 0) = (0 <? d) /\ (c <=? 0) = (d <=? 0) /\ (c >=? 0) = (0 <=? d) /\ (c =? 0) = (d =? 0).
Proof.
  intros E. rewrite Z.gtb_ltb, Z.geb_leb.
  assert ((c < 0 <-> d < 0) /\ (0 < c <-> 0 < d)) as [? ?] by lia.
  split_and!; try (order_cases; lia).
Qed.

(** ** Numbers as floats *)

Lemma round53_bounds n k : 0 <= n < 2 ^ k -> 0 <= round53 n <= 2 ^ k /\ (round53 n = 0 <-> n = 0).
Proof.
  intros Hn. unfold round53. set (e := Z.log2 n - 52). destruct (Z.leb_spec e 0) as [He|He]; [lia|].
  assert (0 < n) as Hp by (destruct (Z.eq_dec n 0) as [->|]; [cbn in e; lia|lia]).
  pose proof (Z.log2_spec n Hp) as [L1 L2]. pose proof (proj1 (Z.log2_lt_pow2 n k Hp) (proj2 Hn)).
  assert (2 ^ Z.log2 n = 2 ^ 52 * 2 ^ e) as E1 by (rewrite <- Z.pow_add_r by lia; f_equal; lia).
  assert (2 ^ Z.succ (Z.log2 n) <= 2 ^ k) as Ek by (apply Z.pow_le_mono_r; lia).
  rewrite Z.pow_succ_r in * by lia. rewrite E1 in *.
  pose proof (Z.pow_pos_nonneg 2 e ltac:(lia) ltac:(lia)) as Pe. pose proof (div_bounds n (2 ^ e) Pe) as D.
  set (q := n / 2 ^ e) in *. set (d := 2 ^ e) in *.
  assert (2 ^ 52 <= q) by nia. assert (q + 1 <= 2 * 2 ^ 52) by nia.
  destruct (_ || _); split; nia.
Qed.

Lemma float_digit_0 l w :
  digs l -> foldr float_digit (Some 0) l = Some w -> 0 <= w /\ (w = 0 <-> val l = 0).
Proof.
  intros Hd. revert w. induction Hd as [|d l Hd Hl IH]; intros w E; cbn [foldr val] in *; [simplify_eq; lia|].
  destruct (foldr float_digit (Some 0) l) as [v|]; [|done]. destruct (IH v eq_refl) as [Hv Hv0].
  unfold float_digit in E. cbn [mbind option_bind] in E. case_match; [|done]. injection E as <-.
  pose proof (val_bound l Hl) as [Hp _]. unfold digit in Hd. change DIG_SIZE with 16.
  set (n := v * 2 ^ 16 + d). assert (0 <= n) by (unfold n; lia).
  destruct (round53_bounds n (Z.succ (Z.log2 n))) as [? Hr].
  { destruct (Z.eq_dec n 0) as [->|]; [done|]. pose proof (Z.log2_spec n). lia. }
  split; [lia|]. rewrite Hr. subst n. lia.
Qed.

Lemma float_digit_finite l : digs l -> (length l <= 60)%nat ->
  exists w, foldr float_digit (Some 0) l = Some w /\ 0 <= w < 2 ^ (17 * Z.of_nat (length l) + 1).
Proof.
  induction 1 as [|d l Hd Hl IH]; intros Hn; [by exists 0|]. cbn [foldr length] in *.
  destruct IH as (v & -> & Hv); [lia|]. unfold float_digit. cbn [mbind option_bind]. change DIG_SIZE with 16.
  unfold digit in Hd. set (k := 17 * Z.of_nat (length l) + 1) in *.
  assert (2 ^ (k + 16) = 2 ^ k * 2 ^ 16) as Ek by (apply Z.pow_add_r; lia).
  destruct (round53_bounds (v * 2 ^ 16 + d) (k + 16)) as [[R1 R2] _]; [lia|].
  assert (2 ^ (k + 16) < 2 ^ (17 * Z.of_nat (S (length l)) + 1)) by (apply Z.pow_lt_mono_r; lia).
  assert (2 ^ (17 * Z.of_nat (S (length l)) + 1) <= 2 ^ 1024) by (apply Z.pow_le_mono_r; lia).
  rewrite (proj2 (Z.ltb_lt _ _)) by lia. eexists. split; [done|lia].
Qed.

Lemma mpz_as_float_zero z v : rep v z -> v <> 0 -> mpz_as_float z <> F_INT 0.
Proof.
  intros Hz Hv. destruct (rep_digs _ _ Hz) as (Hd & _ & E). unfold mpz_as_float.
  destruct (foldr _ _ _) as [w|] eqn:Ew; [|done]. apply float_digit_0 in Ew as [? ?]; [|done].
  destruct (neg z); intros [= ?]; lia.
Qed.

Lemma mpz_as_float_neg z v : rep v z -> - 2 ^ 960 < v < 0 -> exists w, mpz_as_float z = F_INT w /\ w < 0.
Proof.
  intros Hz Hv. pose proof Hz as (Hn & E & _). destruct (rep_digs _ _ Hz) as (Hd & _ & Ev).
  destruct (float_digit_finite (dig z)) as (w & Ew & Hw); [done| |].
  { apply (num_length_bound (Z.abs v)); [done|]. rewrite Bn_pow2. change (16 * Z.of_nat 60) with 960. lia. }
  unfold mpz_as_float. rewrite Ew, E, (proj2 (Z.ltb_lt _ _)) by lia.
  apply float_digit_0 in Ew as [? ?]; [|done]. eexists. split; [done|lia].
Qed.

Lemma float_power_ok z a r :
  rep a z -> int_ok r -> ival r < 0 -> (a = 0 -> - 2 ^ 960 < ival r) ->
  gives (Some (mp_obj_float_power (mpz_as_float z) r)) (nonzero a V_FLOAT).
Proof.
  intros Hz Hr Hneg Hreg. unfold nonzero, mp_obj_float_power. destruct (Z.eqb_spec a 0) as [->|Ha].
  - assert (exists w, mp_obj_get_float r = F_INT w /\ w < 0) as (w & -> & Hw).
    { destruct r as [v|y]; cbn in *; [by eexists|]. apply mpz_ok_rep in Hr. apply (mpz_as_float_neg y (zval y)); [done|auto]. }
    destruct (rep_digs _ _ Hz) as (Hd & Hn & E). apply (normal_val_0 _ Hd Hn) in E as E0.
    unfold mpz_as_float. rewrite E0. cbn [foldr]. by destruct (neg z); cbn; rewrite (proj2 (Z.ltb_lt _ _)).
  - pose proof (mpz_as_float_zero z a Hz Ha) as Hl. destruct (mpz_as_float z) as [w|]; [|by eexists].
    destruct (mp_obj_get_float r); [|by eexists]. destruct (Z.eqb_spec w 0) as [->|]; [done|by eexists].
Qed.

Lemma big_binary_ok op l r :
  int_ok l -> int_ok r -> is_small l && is_small r = false -> regular op l r ->
  gives (mp_obj_int_binary_op op l r) (py_binary op (ival l) (ival r)).
Proof.
  intros Hl Hr Hs Hreg. unfold mp_obj_int_binary_op. rewrite (get_checked_ok r) by done.
  destruct (operand_ok l Hl) as (zl & El & Rl), (operand_ok r Hr) as (zr & Er & Rr).
  rewrite El, Er, Hs. cbn [mbind option_bind].
  destruct (sign_iff _ _ (mpz_cmp_ok _ _ _ _ Rl Rr)) as (S1 & S2 & S3 & S4 & S5).
  set (a := ival l) in *. set (b := ival r) in *.
  destruct op; cbn [py_binary].
  1-5: eexists; (split; [done|]); cbn [denotes]; rewrite ?S1, ?S2, ?S3, ?S4, ?S5; try (order_cases; lia).
  - apply new_big_ok. destruct Hreg. apply mpz_or_ok; first [done | eauto using in_memory_operand].
  - apply new_big_ok. destruct Hreg. apply mpz_xor_ok; first [done | eauto using in_memory_operand].
  - apply new_big_ok. destruct Hreg. apply mpz_and_ok; first [done | eauto using in_memory_operand].
  - unfold py_shift. destruct (Z.leb_spec (2 ^ 31) (Z.abs b)); [done|]. destruct (Z.ltb_spec b 0); [done|].
    rewrite <- Z.shiftl_mul_pow2 by done. by apply new_big_ok, mpz_shl_ok.
  - unfold py_shift. destruct (Z.leb_spec (2 ^ 31) (Z.abs b)); [done|]. destruct (Z.ltb_spec b 0); [done|].
    rewrite <- Z.shiftr_div_pow2 by done. by apply new_big_ok, mpz_shr_ok.
  - by apply new_big_ok, mpz_add_ok.
  - by apply new_big_ok, mpz_sub_ok.
  - by apply new_big_ok, mpz_mul_ok.
  - apply zero_first; [done|]. intros Hb.
    destruct (mpz_divmod_ok false mpz_init_zero mpz_init_zero zl zr a b) as (q & m & -> & _ & _ & Gq & Hq); try done.
    apply new_big_ok, returns_rep. exists q. auto.
  - unfold nonzero. rewrite (rep_zero _ _ Rr). destruct (b =? 0); [done|]. by eexists.
  - apply zero_first; [done|]. intros Hb.
    destruct (mpz_divmod_ok false mpz_init_zero mpz_init_zero zl zr a b) as (q & m & -> & Hm & Gm & _); try done.
    apply new_big_ok, returns_rep. by exists m.
  - pose proof Rr as (_ & -> & _). destruct (Z.ltb_spec b 0).
    { apply float_power_ok; [done..|]. intros Ea. by apply Hreg. }
    apply new_big_ok, mpz_pow_ok; try done. destruct (Z.eq_dec a 0) as [Ea|]; [|by left]. right.
    destruct (Z.eq_dec b 0) as [Eb|]; [|lia]. destruct (Hreg Ea) as [_ Hz]. specialize (Hz Eb). congruence.
  - apply zero_first; [done|]. intros Hb.
    destruct (mpz_divmod_ok false mpz_init_zero mpz_init_zero zl zr a b) as (q & m & -> & Hm & Gm & Gq & Hq); try done.
    eexists. split; [done|]. cbn [denotes].
    apply rep_mpz_ok in Hm as [? ?]. destruct (rep_mpz_ok _ _ (Hq eq_refl)) as [? ?]. done.
Qed.

Definition is_small_value (v : Z) : Prop := MP_SMALL_INT_MIN <= v <= MP_SMALL_INT_MAX.

Lemma small_bounds v : is_small_value v -> - 2 ^ 30 <= v < 2 ^ 30.
Proof. unfold is_small_value, MP_SMALL_INT_MIN, MP_SMALL_INT_MAX. lia. Qed.

Lemma mul_overflow_false x y : mp_small_int_mul_overflow x y = false -> is_small_value (x * y).
Proof.
  rewrite mul_overflow_ok. intros [?%Z.leb_le ?%Z.leb_le]%negb_false_iff%andb_true_iff. done.
Qed.

Lemma small_pow_step ans x (bit : bool) :
  is_small_value ans -> bit && mp_small_int_mul_overflow ans x = false ->
  (if bit then s32 (ans * x) else Some ans) = Some (ans * (if bit then x else 1)) /\
  is_small_value (ans * (if bit then x else 1)).
Proof.
  intros Ha Hb. destruct bit; [|by rewrite Z.mul_1_r].
  apply mul_overflow_false in Hb. split; [|done]. apply small_bounds in Hb. apply s32_some. lia.
Qed.

Lemma small_pow_ok fuel : forall ans x e,
  is_small_value ans -> 0 <= e < 2 ^ Z.of_nat fuel ->
  exists r, small_pow_loop fuel ans x e = Some r /\
    (r = inl tt /\ 0 < e \/ r = inr (ans * x ^ e) /\ is_small_value (ans * x ^ e)).
Proof.
  induction fuel as [|fuel IH]; intros ans x e Ha He.
  { assert (e = 0) as -> by (cbn in He; lia). cbn. rewrite Z.pow_0_r, Z.mul_1_r. eauto. }
  cbn [small_pow_loop]. rewrite Z.gtb_ltb. destruct (Z.ltb_spec 0 e) as [He0|He0].
  2:{ assert (e = 0) as -> by lia. rewrite Z.pow_0_r, Z.mul_1_r. eauto. }
  change 1 with (Z.ones 1) at 1 2 3. rewrite Z.land_ones by done. change (Z.ones 1) with 1. change (2 ^ 1) with 2.
  set (bit := negb (e mod 2 =? 0)) in *.
  destruct (bit && mp_small_int_mul_overflow ans x) eqn:Eov; [eauto|].
  destruct (small_pow_step ans x bit Ha Eov) as [-> Ha']. cbn [mbind option_bind].
  set (ans' := ans * (if bit then x else 1)) in *.
  assert (ans * x ^ e = ans' * (x * x) ^ (e / 2)) as Epow.
  { rewrite (pow_half x e) by lia. unfold ans', bit. destruct (e mod 2 =? 0); cbn [negb]; lia. }
  rewrite Epow. destruct (Z.eqb_spec e 1) as [->|He1].
  { change (1 / 2) with 0. rewrite Z.pow_0_r, Z.mul_1_r. eauto. }
  destruct (mp_small_int_mul_overflow x x) eqn:Exx; [eauto|].
  apply mul_overflow_false in Exx. rewrite s32_some by (apply small_bounds in Exx; lia). cbn [mbind option_bind].
  rewrite Z.quot_div_nonneg by lia. rewrite Nat2Z.inj_succ, Z.pow_succ_r in He by lia.
  pose proof (div_bounds e 2). destruct (IH ans' (x * x) (e / 2)) as (r & -> & Hr); [done|lia|].
  exists r. split; [done|]. destruct Hr as [[-> ?]|?]; [left|by right]. split; [done|lia].
Qed.

(** The left operand as a big integer. *)
Lemma generic_ok op a b :
  is_small_value a -> is_small_value b -> op = OP_LSHIFT \/ op = OP_MULTIPLY \/ op = OP_POWER /\ 0 < b ->
  gives (generic_binary_op op a (SMALL b)) (py_binary op a b).
Proof.
  intros Ha Hb Hop. destruct (from_ll_ok a) as (o & E & Ho & Hv & Hs); [apply small_bounds in Ha; lia|].
  unfold generic_binary_op. rewrite E. cbn [mbind option_bind]. rewrite <- Hv.
  change b with (ival (SMALL b)) at 2. apply big_binary_ok; [done|done|by rewrite Hs|].
  destruct Hop as [->|[->|[-> ?]]]; cbn; [done|done|lia].
Qed.

(** The bitwise operators stay among the integers of [n] bits. *)
Lemma n_bits n v : 0 <= n -> - 2 ^ n <= v < 2 ^ n <-> Z.shiftr v n = 0 \/ Z.shiftr v n = -1.
Proof.
  intros Hn. rewrite Z.shiftr_div_pow2 by done. pose proof (Z.pow_pos_nonneg 2 n ltac:(lia) Hn).
  pose proof (div_bounds v (2 ^ n)). split; [intros|intros [E|E]; rewrite E in *; lia].
  assert (-1 <= v / 2 ^ n < 1) by nia. lia.
Qed.

Lemma bitwise_small (f : Z -> Z -> Z) a b :
  f = Z.lor \/ f = Z.lxor \/ f = Z.land -> is_small_value a -> is_small_value b -> - 2 ^ 30 <= f a b < 2 ^ 30.
Proof.
  intros Hf Ha%small_bounds Hb%small_bounds. rewrite n_bits in * by done.
  destruct Hf as [->|[->| ->]]; rewrite ?Z.shiftr_lor, ?Z.shiftr_lxor, ?Z.shiftr_land;
    destruct Ha as [->| ->], Hb as [->| ->]; cbn; tauto.
Qed.

Lemma lshift_small a b :
  is_small_value a -> 0 <= b ->
  (b >=? 32) || (a >? Z.shiftr MP_SMALL_INT_MAX b) || (a <? Z.shiftr MP_SMALL_INT_MIN b) = false ->
  wraps 32 (Z.shiftl (wrapu 32 a) b) = a * 2 ^ b /\ - 2 ^ 31 <= a * 2 ^ b < 2 ^ 31.
Proof.
  intros Ha%small_bounds Hb [[E1 E2]%orb_false_iff E3]%orb_false_iff.
  rewrite Z.geb_leb in E1. rewrite Z.gtb_ltb in E2. apply Z.leb_gt in E1. apply Z.ltb_ge in E2, E3.
  rewrite Z.shiftr_div_pow2 in E2, E3 by done. unfold MP_SMALL_INT_MIN, MP_SMALL_INT_MAX in *.
  pose proof (Z.pow_pos_nonneg 2 b ltac:(lia) Hb).
  assert (- 2 ^ 31 <= a * 2 ^ b < 2 ^ 31) as Hr.
  { split; [|pose proof (div_bounds (2 ^ 30 - 1) (2 ^ b)); nia].
    assert (2 ^ b <= 2 ^ 31) by (apply Z.pow_le_mono_r; lia).
    destruct (Z.le_gt_cases b 30).
    - assert (2 ^ 30 = 2 ^ b * 2 ^ (30 - b)) as Ep by (rewrite <- Z.pow_add_r by lia; f_equal; lia).
      rewrite Ep, Z.mul_comm, Z.div_opp_l_z, Z.div_mul in E3 by (try apply Z_mod_mult; lia). nia.
    - assert (b = 31) as -> by lia. change (- 2 ^ 30 / 2 ^ 31) with (-1) in E3. lia. }
  split; [|done]. rewrite Z.shiftl_mul_pow2 by done. rewrite <- (wraps_small 32 (a * 2 ^ b)) by (cbn in *; lia).
  apply wraps_eq; [done|]. unfold wrapu. by rewrite Zmult_mod_idemp_l.
Qed.

Lemma rshift_31 a b : is_small_value a -> 32 <= b -> Z.shiftr a 31 = a / 2 ^ b.
Proof.
  intros Ha%small_bounds Hb. rewrite Z.shiftr_div_pow2 by done.
  assert (2 ^ 31 <= 2 ^ b) by (apply Z.pow_le_mono_r; lia).
  destruct (Z.lt_ge_cases a 0).
  - transitivity (-1); [symmetry; apply Z.div_unique_pos with (a + 2 ^ 31); lia|].
    apply Z.div_unique_pos with (a + 2 ^ b); lia.
  - by rewrite !Z.div_small by lia.
Qed.

Lemma shift_small v b : is_small_value b ->
  py_shift v b = if b <? 0 then inl ValueError else inr (V_INT v).
Proof. intros Hb%small_bounds. unfold py_shift. by rewrite (proj2 (Z.leb_gt _ _)) by lia. Qed.

Lemma mod_small_value a b : is_small_value b -> b <> 0 -> is_small_value (a mod b).
Proof.
  unfold is_small_value, MP_SMALL_INT_MIN, MP_SMALL_INT_MAX. intros Hb Hb0.
  destruct (Z.lt_ge_cases b 0); [pose proof (Z.mod_neg_bound a b)|pose proof (Z.mod_pos_bound a b)]; lia.
Qed.

Lemma div_small_value a b : is_small_value a -> is_small_value b -> b <> 0 -> (a = MP_SMALL_INT_MIN -> b <> -1) ->
  is_small_value (a / b).
Proof.
  unfold is_small_value, MP_SMALL_INT_MIN, MP_SMALL_INT_MAX. intros Ha Hb Hb0 Hx.
  destruct (Z.lt_ge_cases b 0).
  - rewrite <- Z.div_opp_opp by lia. pose proof (div_bounds (- a) (- b)). nia.
  - pose proof (div_bounds a b). nia.
Qed.

Lemma small_binary_ok op a b :
  is_small_value a -> is_small_value b -> regular op (SMALL a) (SMALL b) ->
  gives (small_binary_op op a b) (py_binary op a b).
Proof.
  intros Ha Hb Hreg. pose proof (small_bounds a Ha) as Ba. pose proof (small_bounds b Hb) as Bb.
  destruct op; cbn [small_binary_op py_binary]; unfold nonzero; rewrite ?shift_small by done.
  1-5: eexists; (split; [done|]); cbn [denotes]; rewrite ?Z.gtb_ltb, ?Z.geb_leb; done.
  1-3: apply new_value_ok; match goal with |- _ <= ?f ?x ?y < _ => pose proof (bitwise_small f x y ltac:(auto)) end; lia || intuition lia.
  - destruct (Z.ltb_spec b 0); [done|]. case_match eqn:E.
    + pose proof (generic_ok OP_LSHIFT a b Ha Hb ltac:(tauto)) as G. cbn [py_binary] in G.
      rewrite shift_small in G by done. by rewrite (proj2 (Z.ltb_ge _ _)) in G by lia.
    + destruct (lshift_small a b Ha ltac:(lia) E) as [-> Hr]. by apply new_value_ok.
  - destruct (Z.ltb_spec b 0); [done|]. rewrite Z.geb_leb.
    assert (Z.shiftr a (if 32 <=? b then 31 else b) = a / 2 ^ b) as ->.
    { destruct (Z.leb_spec 32 b); [by apply rshift_31|by rewrite Z.shiftr_div_pow2]. }
    apply new_value_ok. pose proof (div_bounds a (2 ^ b)). pose proof (Z.pow_pos_nonneg 2 b). nia.
  - rewrite s32_some by lia. apply new_value_ok. lia.
  - rewrite s32_some by lia. apply new_value_ok. lia.
  - destruct (mp_small_int_mul_overflow a b) eqn:E.
    + apply (generic_ok OP_MULTIPLY); tauto.
    + apply mul_overflow_false in E. rewrite s32_some by (apply small_bounds in E; lia). cbn [mbind option_bind].
      eexists. split; [done|]. by apply small_int_ok.
  - destruct (Z.eqb_spec b 0); [done|]. destruct (floor_divide_ok a b) as [-> ?]; [done..|]. apply new_value_ok. lia.
  - destruct (Z.eqb_spec b 0); [done|]. by eexists.
  - destruct (Z.eqb_spec b 0); [done|]. rewrite modulo_ok by done. apply new_value_ok.
    pose proof (small_bounds _ (mod_small_value a b Hb ltac:(done))). lia.
  - destruct (Z.ltb_spec b 0) as [Hneg|].
    { unfold mp_obj_float_power, nonzero. cbn [mp_obj_get_float]. rewrite (proj2 (Z.ltb_lt _ _) Hneg), andb_true_r.
      destruct (a =? 0); [done|by eexists]. }
    destruct (small_pow_ok SMALL_POW_FUEL 1 a b) as (r & -> & Hr); [done|change (2 ^ Z.of_nat SMALL_POW_FUEL) with (2 ^ 31); lia|].
    cbn [mbind option_bind]. destruct Hr as [[-> ?]|[-> Hs]].
    + pose proof (generic_ok OP_POWER a b Ha Hb ltac:(tauto)) as G. cbn [py_binary] in G.
      by rewrite (proj2 (Z.ltb_ge _ _)) in G by lia.
    + rewrite Z.mul_1_l in *. apply new_value_ok. apply small_bounds in Hs. lia.
  - destruct (Z.eqb_spec b 0); [done|]. destruct (floor_divide_ok a b) as [-> ?]; [done..|]. cbn [mbind option_bind].
    rewrite modulo_ok by done. eexists. split; [done|]. cbn [denotes]. split; apply small_int_ok.
    + apply div_small_value; try done. intros -> ->. by apply Hreg.
    + by apply mod_small_value.
Qed.
