(* ===== verification/IntProps.v ===== *)
(** The properties of integer objects: the operators against the arithmetic of
    the integers, the conversions, and integers as the keys of dictionaries. *)

From Stdlib Require Import ZArith Lia Eqdep_dec.
From stdpp Require Import base option list numbers.
From S2P Require Import Prelude Mpn MpnSpec Mpz MpzSpec MpzConv MpzProps HashMap HashTable HashSpec HashProps IntObj IntSpec.

(** * Operators on any two integers *)

Lemma mp_binary_op_ok op l r : int_ok l -> int_ok r -> regular op l r ->
  gives (mp_binary_op op l r) (py_binary op (ival l) (ival r)).
Proof.
  intros Hl Hr Hreg. destruct (decide (op = OP_EQUAL)) as [->|Hop].
  - cbn [mp_binary_op]. destruct l as [a|zl], r as [b|zr]; cbn [mp_obj_equal].
    + by eexists.
    + pose proof (big_binary_ok OP_EQUAL (BIG zr) (SMALL a) Hr Hl eq_refl I) as G.
      cbn [py_binary] in *. by rewrite Z.eqb_sym.
    + by apply (big_binary_ok OP_EQUAL).
    + by apply (big_binary_ok OP_EQUAL).
  - destruct l as [a|zl], r as [b|zr].
    1: replace (mp_binary_op op (SMALL a) (SMALL b)) with (small_binary_op op a b) by (by destruct op);
       by apply small_binary_ok.
    all: match goal with |- gives (mp_binary_op _ ?l ?r) _ =>
           replace (mp_binary_op op l r) with (mp_obj_int_binary_op op l r) by (by destruct op) end;
         by apply big_binary_ok.
Qed.

Lemma mp_unary_op_ok op o : int_ok o ->
  exists r, mp_unary_op op o = Some r /\ denotes r (py_unary op (ival o)).
Proof.
  destruct o as [v|z]; intros Ho.
  - pose proof (small_bounds v Ho) as Hb.
    assert (forall w, w <> 2 ^ 30 -> - 2 ^ 30 <= w <= 2 ^ 30 ->
      int_ok (MP_OBJ_NEW_SMALL_INT w) /\ ival (MP_OBJ_NEW_SMALL_INT w) = w) as Hs.
    { intros w Hw Hw'. apply small_int_ok. unfold MP_SMALL_INT_MIN, MP_SMALL_INT_MAX. lia. }
    destruct (new_int_ok (- v)) as (o & Eo & Hoo); [lia|].
    destruct op; cbn [mp_unary_op py_unary ival].
    + by eexists.
    + eexists. split; [done|]. split; [done|]. unfold py_hash. by rewrite wraps_small by (cbn; lia).
    + by eexists.
    + destruct (Z.eqb_spec v MP_SMALL_INT_MIN) as [->|Hv]; [rewrite Eo; by eexists|].
      eexists. split; [done|]. apply Hs; unfold MP_SMALL_INT_MIN in Hv; lia.
    + eexists. split; [done|]. replace (- v - 1) with (Z.lnot v) by (unfold Z.lnot; lia).
      apply Hs; unfold Z.lnot; lia.
    + rewrite Z.geb_leb. destruct (Z.leb_spec 0 v); [eexists; split; [done|]; split; [done|cbn; lia]|].
      rewrite Z.abs_neq by lia.
      destruct (Z.eqb_spec v MP_SMALL_INT_MIN) as [->|Hv]; [rewrite Eo; by eexists|].
      eexists. split; [done|]. apply Hs; unfold MP_SMALL_INT_MIN in Hv; lia.
  - cbn [mp_unary_op ival]. pose proof (mpz_ok_rep z Ho) as Hr. pose proof Hr as (_ & Hneg & _).
    assert (forall v o, returns v o -> exists r, (z ← o; Some (R_INT (BIG z))) = Some r /\ denotes r (V_INT v)) as Hret.
    { intros v o (w & -> & Hw & _ & Ev). by eexists. }
    destruct op; cbn [mp_obj_int_unary_op py_unary].
    + eexists. split; [done|]. cbn. by rewrite (rep_zero _ _ Hr).
    + eexists. split; [done|]. rewrite (mpz_hash_ok _ _ Hr). unfold MP_OBJ_NEW_SMALL_INT, py_hash.
      rewrite wraps_wraps_le by done. split; [|done]. pose proof (wraps_range 31 (zval z) ltac:(done)). cbn. unfold MP_SMALL_INT_MIN, MP_SMALL_INT_MAX. cbn in *. lia.
    + by eexists.
    + apply Hret. by apply mpz_neg_ok.
    + apply Hret. replace (- zval z - 1) with (Z.lnot (zval z)) by (unfold Z.lnot; lia). by apply mpz_not_ok.
    + rewrite Hneg. destruct (Z.ltb_spec (zval z) 0); cbn [negb].
      * apply Hret. by apply mpz_abs_ok.
      * eexists. split; [done|]. split; [done|]. cbn. lia.
Qed.

(** * Conversions *)

Lemma new_uint_ok value : 0 <= value < 2 ^ 32 ->
  exists o, mp_obj_new_int_from_uint value = Some o /\ int_ok o /\ ival o = value.
Proof.
  intros Hv. unfold mp_obj_new_int_from_uint. change (wrapu 32 _) with (3 * 2 ^ 30).
  assert ((Z.land value (3 * 2 ^ 30) =? 0) = (value <? 2 ^ 30)) as ->.
  { replace (Z.land value (3 * 2 ^ 30)) with (Z.shiftl (Z.shiftr value 30) 30).
    - rewrite Z.shiftl_mul_pow2, Z.shiftr_div_pow2 by done. pose proof (div_bounds value (2 ^ 30)).
      destruct (Z.ltb_spec value (2 ^ 30)); [rewrite (Z.div_small value) by lia; done|]. apply Z.eqb_neq. lia.
    - change (3 * 2 ^ 30) with (Z.land (Z.ones 32) (Z.lnot (Z.ones 30))).
      rewrite Z.land_assoc, Z.land_ones, Z.mod_small by (done || lia).
      rewrite <- Z.ldiff_land. symmetry. by apply Z.ldiff_ones_r. }
  destruct (Z.ltb_spec value (2 ^ 30)).
  - eexists. split; [done|]. apply small_int_ok. unfold MP_SMALL_INT_MIN, MP_SMALL_INT_MAX. lia.
  - destruct (mpz_set_from_ll_ok mpz_init_zero value false eq_refl) as (r & E & Hr & _ & Hval); [lia|].
    unfold mp_obj_new_int_from_ull. rewrite E. by eexists.
Qed.

Lemma get_uint_checked_ok o : int_ok o ->
  mp_obj_int_get_uint_checked o =
    if (0 <=? ival o) && (ival o <? 2 ^ 32) then inr (ival o) else inl OverflowError.
Proof.
  destruct o as [v|z]; cbn [ival mp_obj_int_get_uint_checked]; intros Ho.
  - unfold int_ok, MP_SMALL_INT_MIN, MP_SMALL_INT_MAX in Ho. rewrite Z.geb_leb. order_cases; lia.
  - apply mpz_ok_rep in Ho. rewrite (mpz_as_uint_checked_ok _ _ Ho). by destruct (_ && _).
Qed.

Lemma get_truncated_ok o : int_ok o -> mp_obj_int_get_truncated o = wraps 32 (ival o).
Proof.
  destruct o as [v|z]; intros Ho; cbn [mp_obj_int_get_truncated ival].
  - pose proof (small_bounds v Ho). by rewrite wraps_small by (cbn; lia).
  - by apply mpz_hash_ok, mpz_ok_rep.
Qed.

Lemma int_sign_ok o : int_ok o -> mp_obj_int_sign o = Z.sgn (ival o).
Proof.
  destruct o as [v|z]; intros Ho; cbn [mp_obj_int_sign ival].
  - rewrite Z.gtb_ltb. destruct (Z.ltb_spec v 0), (Z.ltb_spec 0 v); lia.
  - pose proof (mpz_ok_rep z Ho) as Hr. change (len z =? 0) with (mpz_is_zero z). rewrite (rep_zero _ _ Hr).
    destruct Hr as (_ & -> & _). destruct (Z.eqb_spec (zval z) 0), (Z.ltb_spec (zval z) 0); cbn [negb]; lia.
Qed.

(** [pow] with a modulus, for the operands [mpz_pow3_inpl] is right on. *)
Lemma int_pow3_ok b e m :
  int_ok b -> int_ok e -> int_ok m -> ival b <> 0 -> 0 < ival e -> ival m <> 0 ->
  exists o, mp_obj_int_pow3 b e m = Some o /\ int_ok o /\ ival o = ival b ^ ival e mod ival m.
Proof.
  assert (forall o, int_ok o -> exists z, mp_mpz_for_int o = Some z /\ rep (ival o) z) as Hz.
  { intros [v|z] Ho; [|exists z; split; [done|by apply mpz_ok_rep]]. pose proof (small_bounds v Ho).
    destruct (proj1 (returns_rep v (mpz_init_from_int v))) as (z & E & Hr & _); [|by exists z].
    apply mpz_set_from_int_ok; [done|done|lia]. }
  intros Hb He Hm Hb0 He0 Hm0. unfold mp_obj_int_pow3.
  destruct (proj1 (returns_rep 0 _) (mpz_set_from_ll_ok mpz_init_zero 0 false eq_refl ltac:(done))) as (r0 & -> & R0 & G0).
  destruct (Hz b Hb) as (zb & -> & Rb), (Hz e He) as (ze & -> & Re), (Hz m Hm) as (zm & -> & Rm). cbn [mbind option_bind].
  destruct (mpz_pow3_ok r0 zb ze zm _ _ _ G0 (rep_room _ _ R0) Rb Re Rm Hb0 He0 Hm0) as (r & -> & Hr & _ & Hv).
  by eexists.
Qed.

(** * Integers as keys *)

Definition mpz_okb (z : mpz_t) : bool :=
  forallb (fun d => (0 <=? d) && (d <? B)) (dig z) &&
  match list.last (dig z) with Some d => negb (d =? 0) | None => negb (neg z) end &&
  (len z <=? Mpz.alloc z).

Definition int_okb (o : int_obj) : bool :=
  match o with SMALL v => (MP_SMALL_INT_MIN <=? v) && (v <=? MP_SMALL_INT_MAX) | BIG z => mpz_okb z end.

Lemma int_okb_ok o : int_okb o = true -> int_ok o.
Proof.
  destruct o as [v|z]; cbn.
  - rewrite andb_true_iff, !Z.leb_le. done.
  - unfold mpz_okb. rewrite !andb_true_iff, forallb_forall, Z.leb_le. intros [[Hd Hl] Ha]. split; [| | |done].
    + apply Forall_forall. intros d Hi. specialize (Hd d Hi).
      unfold digit. rewrite andb_true_iff, Z.leb_le, Z.ltb_lt in Hd. lia.
    + unfold normal. destruct (list.last (dig z)) as [d|]; [|done]. intros [= ->]. done.
    + intros Hn E. rewrite E, Hn in Hl. done.
Qed.

Record int_key := { address : Z; object : int_obj; well_formed : int_okb object = true }.

(** The value of a key. *)
Definition kval (k : int_key) : Z := ival (object k).

#[export] Instance mpz_eq_dec : EqDecision mpz_t.
Proof. solve_decision. Defined.

#[export] Instance int_obj_eq_dec : EqDecision int_obj.
Proof. solve_decision. Defined.

#[export] Instance int_key_eq_dec : EqDecision int_key.
Proof.
  intros [a o Ho] [b p Hp]. destruct (decide (a = b)) as [<-|]; [|right; congruence].
  destruct (decide (o = p)) as [<-|]; [|right; congruence]. left. f_equal. apply UIP_dec, bool_dec.
Defined.

(** Hashing and equality as the hash tables call them. *)
#[export] Instance int_key_ops : KeyOps int_key := {
  key_eqb a b := bool_decide (a = b);
  is_qstr _ := false;
  is_exact_str _ := false;
  key_hash a := match mp_unary_op OP_HASH (object a) with Some (R_INT o) => ival o | _ => 0 end;
  obj_equal a b := match mp_obj_equal (object a) (object b) with Some (inr (R_BOOL e)) => e | _ => false end;
}.

Lemma int_key_equal a b : obj_equal a b = (kval a =? kval b).
Proof.
  destruct (mp_binary_op_ok OP_EQUAL (object a) (object b)) as (r & E & Hr);
    [by apply int_okb_ok, well_formed..|done|].
  cbn [mp_binary_op] in E. cbn. rewrite E. by destruct r.
Qed.

Lemma int_key_hash a : key_hash a = py_hash (kval a).
Proof.
  destruct (mp_unary_op_ok OP_HASH (object a)) as (r & E & Hr); [apply int_okb_ok, well_formed|].
  cbn. rewrite E. destruct r; try done. by destruct Hr.
Qed.

#[export] Instance int_key_laws : KeyLaws int_key.
Proof.
  split; intros *; rewrite ?int_key_equal, ?int_key_hash, ?Z.eqb_eq; try done; try congruence.
  apply bool_decide_eq_true.
Qed.

(** * Properties *)



(** [mp_unary_op] on integers, small or big: [bool], [hash], [+], [-], [~] and
    [abs] of the value. *)
Theorem int_unary_op_spec op o :
  int_ok o -> exists r, mp_unary_op op o = Some r /\ denotes r (py_unary op (ival o)).
Proof. apply mp_unary_op_ok. Qed.

Lemma int_unary_op_spec_witness :
  exists r, mp_unary_op OP_NEGATIVE (SMALL (- 2 ^ 30)) = Some r /\ denotes r (V_INT (2 ^ 30)).
Proof. apply (int_unary_op_spec OP_NEGATIVE (SMALL (- 2 ^ 30))). cbn. split; discriminate. Defined.



(** C25: a dictionary whose keys are integers finds a key under any integer object
    of the same value, small or big: after a store the value is found under the
    equal keys and every other key is as before. *)
Theorem int_dict_spec {V} (m : mp_map int_key V) k v :
  dict_ok m ->
  exists m', mp_obj_dict_store m k v = Some (inr m') /\ dict_ok m' /\
    forall k', mp_obj_dict_get m' k' = if kval k =? kval k' then Some (inr (Some v)) else mp_obj_dict_get m k'.
Proof.
  intros Hd. destruct (store_ok m k v Hd) as (m' & -> & Hd' & _ & Hi). exists m'. split; [done|]. split; [done|].
  intros k'. rewrite !dict_subscr_ok, Hi, int_key_equal by done. by destruct (kval k =? kval k').
Qed.

Definition small_key (v : Z) (H : int_okb (SMALL v) = true) : int_key := {| address := 0; object := SMALL v; well_formed := H |}.
Definition big_key (a v : Z) (H : int_okb (BIG (demo v)) = true) : int_key := {| address := a; object := BIG (demo v); well_formed := H |}.

(** An entry stored under a small integer and found under a big one. *)
Lemma int_dict_spec_witness :
  exists m', mp_obj_dict_store (mp_map_init 0) (small_key (-7) eq_refl) 30 = Some (inr m') /\ dict_ok m' /\
    mp_obj_dict_get m' (big_key 64 (-7) eq_refl) = Some (inr (Some 30)).
Proof.
  destruct (int_dict_spec (mp_map_init 0) (small_key (-7) eq_refl) 30) as (m' & E & Hd & Hg); [apply dict_ok_init|].
  exists m'. split; [exact E|]. split; [exact Hd|]. rewrite Hg. reflexivity.
Defined.

(** * Where the operators differ *)

(** [divmod] of the least small integer by minus one: the quotient does not fit a
    small integer and is truncated to the wrong sign. *)
Example divmod_min :
  mp_binary_op OP_DIVMOD (SMALL (- 2 ^ 30)) (SMALL (-1)) = Some (inr (R_PAIR (SMALL (- 2 ^ 30)) (SMALL 0))).
Proof. reflexivity. Qed.

(** The least machine word becomes an integer that cannot be read back. *)
Example least_word_refused :
  (o ← mp_obj_new_int (- 2 ^ 31); Some (mp_obj_int_get_checked o)) = Some (inl OverflowError).
Proof. reflexivity. Qed.

(** A zero held by a big integer raised to the power of zero gives zero. *)
Example big_zero_power :
  mp_binary_op OP_POWER (BIG (demo 0)) (SMALL 0) = Some (inr (R_INT (BIG mpz_init_zero))) /\
  mp_binary_op OP_POWER (SMALL 0) (SMALL 0) = Some (inr (R_INT (SMALL 1))).
Proof. split; reflexivity. Qed.
