(* ===== verification/Lexer.v ===== *)
(** The tokeniser of [py/lexer.c], over the memory reader of [py/reader.c] and the
    character classes of [py/unicode.c].

    A source is a list of bytes.  The growing strings of [py/vstr.c] are the
    bytes they hold: a failed allocation raises [MemoryError] and leaves the
    lexer.  The loops take a fuel; [None] is the lack of it, [inl] the exception
    the lexer raises itself.  The indentation levels are listed from the top of
    the stack. *)

From Stdlib Require Import ZArith Lia Ascii String.
From stdpp Require Import base option list numbers.
From S2P Require Import Prelude.

(** * Definitions *)

(** ** Characters *)

Abbreviation byte := Z (only parsing).
Abbreviation unichar := Z (only parsing).

(** The bytes of an ASCII text. *)
Definition bytes (s : string) : list Z := (fun a => Z.of_nat (nat_of_ascii a)) <$> list_ascii_of_string s.

Definition chr (a : ascii) : Z := Z.of_nat (nat_of_ascii a).
Coercion chr : ascii >-> Z.

Definition MP_READER_EOF : Z := 2 ^ 32 - 1.
Definition MP_LEXER_EOF : Z := MP_READER_EOF.
Definition TAB_SIZE : Z := 8.
Definition NEWLINE : Z := 10.
Definition CR : Z := 13.
Definition DQUOTE : Z := 34.
Definition QUOTE : Z := 39.
Definition BACKSLASH : Z := 92.

(** Attribute flags. *)
Definition FL_PRINT : Z := 0x01.
Definition FL_SPACE : Z := 0x02.
Definition FL_DIGIT : Z := 0x04.
Definition FL_ALPHA : Z := 0x08.
Definition FL_UPPER : Z := 0x10.
Definition FL_LOWER : Z := 0x20.
Definition FL_XDIGIT : Z := 0x40.

Definition AT_PR := FL_PRINT.
Definition AT_SP := Z.lor FL_SPACE FL_PRINT.
Definition AT_DI := Z.lor (Z.lor FL_DIGIT FL_PRINT) FL_XDIGIT.
Definition AT_UP := Z.lor (Z.lor FL_UPPER FL_ALPHA) FL_PRINT.
Definition AT_LO := Z.lor (Z.lor FL_LOWER FL_ALPHA) FL_PRINT.
Definition AT_UX := Z.lor (Z.lor (Z.lor FL_UPPER FL_ALPHA) FL_PRINT) FL_XDIGIT.
Definition AT_LX := Z.lor (Z.lor (Z.lor FL_LOWER FL_ALPHA) FL_PRINT) FL_XDIGIT.

(** The attributes of the ASCII characters. *)
Definition attr : list Z :=
  [0; 0; 0; 0; 0; 0; 0; 0;
   0; AT_SP; AT_SP; AT_SP; AT_SP; AT_SP; 0; 0;
   0; 0; 0; 0; 0; 0; 0; 0;
   0; 0; 0; 0; 0; 0; 0; 0;
   AT_SP; AT_PR; AT_PR; AT_PR; AT_PR; AT_PR; AT_PR; AT_PR;
   AT_PR; AT_PR; AT_PR; AT_PR; AT_PR; AT_PR; AT_PR; AT_PR;
   AT_DI; AT_DI; AT_DI; AT_DI; AT_DI; AT_DI; AT_DI; AT_DI;
   AT_DI; AT_DI; AT_PR; AT_PR; AT_PR; AT_PR; AT_PR; AT_PR;
   AT_PR; AT_UX; AT_UX; AT_UX; AT_UX; AT_UX; AT_UX; AT_UP;
   AT_UP; AT_UP; AT_UP; AT_UP; AT_UP; AT_UP; AT_UP; AT_UP;
   AT_UP; AT_UP; AT_UP; AT_UP; AT_UP; AT_UP; AT_UP; AT_UP;
   AT_UP; AT_UP; AT_UP; AT_PR; AT_PR; AT_PR; AT_PR; AT_PR;
   AT_PR; AT_LX; AT_LX; AT_LX; AT_LX; AT_LX; AT_LX; AT_LO;
   AT_LO; AT_LO; AT_LO; AT_LO; AT_LO; AT_LO; AT_LO; AT_LO;
   AT_LO; AT_LO; AT_LO; AT_LO; AT_LO; AT_LO; AT_LO; AT_LO;
   AT_LO; AT_LO; AT_LO; AT_PR; AT_PR; AT_PR; AT_PR; 0].

Definition has_attr (c : unichar) (f : Z) : bool :=
  (c <? 128) && negb (Z.land (default 0 (attr !! Z.to_nat c)) f =? 0).

Definition unichar_isspace (c : unichar) : bool := has_attr c FL_SPACE.
Definition unichar_isalpha (c : unichar) : bool := has_attr c FL_ALPHA.
Definition unichar_isdigit (c : unichar) : bool := has_attr c FL_DIGIT.
Definition unichar_isxdigit (c : unichar) : bool := has_attr c FL_XDIGIT.

Definition unichar_xdigit_value (c : unichar) : Z :=
  let n := wrapu 32 (c - 48) in
  if n >? 9 then Z.land n (wrapu 32 (Z.lnot 32)) - 7 else n.

(** The bytes [vstr_add_char] adds; [None] is its failed assertion. *)
Definition vstr_add_char (c : unichar) : option (list Z) :=
  if c <? 0x80 then Some [c]
  else if c <? 0x800 then Some [Z.lor (Z.shiftr c 6) 0xC0; Z.lor (Z.land c 0x3F) 0x80]
  else if c <? 0x10000 then
    Some [Z.lor (Z.shiftr c 12) 0xE0; Z.lor (Z.land (Z.shiftr c 6) 0x3F) 0x80; Z.lor (Z.land c 0x3F) 0x80]
  else if c <? 0x110000 then
    Some [Z.lor (Z.shiftr c 18) 0xF0; Z.lor (Z.land (Z.shiftr c 12) 0x3F) 0x80;
          Z.lor (Z.land (Z.shiftr c 6) 0x3F) 0x80; Z.lor (Z.land c 0x3F) 0x80]
  else None.

(** ** The queue of characters *)

(** The part of the lexer the characters go through: the three next characters,
    those set aside while the arguments of a format string are read, the
    position, the reader, and the arguments. *)
Record input := {
  chr0 : unichar; chr1 : unichar; chr2 : unichar;
  chr0_saved : unichar; chr1_saved : unichar; chr2_saved : unichar;
  line : Z; column : Z;
  reader : list byte;
  fstring_args : list byte; fstring_args_idx : Z;
}.

Definition readbyte (r : list byte) : Z * list byte :=
  match r with [] => (MP_READER_EOF, []) | b :: r => (b, r) end.

Definition is_end (i : input) : bool := chr0 i =? MP_LEXER_EOF.
Definition is_physical_newline (i : input) : bool := chr0 i =? NEWLINE.
Definition is_char (i : input) (c : byte) : bool := chr0 i =? c.
Definition is_char_or (i : input) (c1 c2 : byte) : bool := is_char i c1 || is_char i c2.
Definition is_char_or3 (i : input) (c1 c2 c3 : byte) : bool := is_char i c1 || is_char i c2 || is_char i c3.
Definition is_char_or4 (i : input) (c1 c2 c3 c4 : byte) : bool :=
  is_char i c1 || is_char i c2 || is_char i c3 || is_char i c4.
Definition is_char_following (i : input) (c : byte) : bool := chr1 i =? c.
Definition is_char_following_or (i : input) (c1 c2 : byte) : bool := (chr1 i =? c1) || (chr1 i =? c2).
Definition is_char_following_following_or (i : input) (c1 c2 : byte) : bool := (chr2 i =? c1) || (chr2 i =? c2).
Definition is_char_and (i : input) (c1 c2 : byte) : bool := (chr0 i =? c1) && (chr1 i =? c2).
Definition is_whitespace (i : input) : bool := unichar_isspace (chr0 i).
Definition is_letter (i : input) : bool := unichar_isalpha (chr0 i).
Definition is_digit (i : input) : bool := unichar_isdigit (chr0 i).
Definition is_following_digit (i : input) : bool := unichar_isdigit (chr1 i).
Definition is_following_base_char (i : input) : bool :=
  let chr1 := Z.lor (chr1 i) 0x20 in (chr1 =? "b"%char) || (chr1 =? "o"%char) || (chr1 =? "x"%char).
Definition is_following_odigit (i : input) : bool := (chr1 i >=? "0"%char) && (chr1 i <=? "7"%char).

Definition is_string_or_bytes (i : input) : bool :=
  is_char_or i QUOTE DQUOTE
  || (is_char_or4 i "r"%char "u"%char "b"%char "f"%char && is_char_following_or i QUOTE DQUOTE)
  || ((is_char_and i "r"%char "f"%char || is_char_and i "f"%char "r"%char)
      && is_char_following_following_or i QUOTE DQUOTE)
  || ((is_char_and i "r"%char "b"%char || is_char_and i "b"%char "r"%char)
      && is_char_following_following_or i QUOTE DQUOTE).

Definition is_head_of_identifier (i : input) : bool := is_letter i || (chr0 i =? "_"%char) || (chr0 i >=? 0x80).
Definition is_tail_of_identifier (i : input) : bool := is_head_of_identifier i || is_digit i.

(** The position after the current character. *)
Definition next_position (i : input) : Z * Z :=
  if chr0 i =? NEWLINE then (wrapu 32 (line i + 1), 1)
  else if chr0 i =? 9 then (line i, wrapu 32 (wrapu 32 (column i - 1 + TAB_SIZE) / TAB_SIZE * TAB_SIZE + 1))
  else (line i, wrapu 32 (column i + 1)).

(** The queue moved forward: from the arguments of a format string, restoring
    the queue set aside after the last of them, or from the reader. *)
Definition shift (i : input) (line column : Z) : input :=
  let c0 := chr1 i in let c1 := chr2 i in
  if negb (fstring_args_idx i =? 0) then
    let more := fstring_args_idx i <? Z.of_nat (length (fstring_args i)) in
    let c2 := if more then default 0 (fstring_args i !! Z.to_nat (fstring_args_idx i)) else 0 in
    let idx := if more then fstring_args_idx i + 1 else fstring_args_idx i in
    if c0 =? 0 then
      {| chr0 := chr0_saved i; chr1 := chr1_saved i; chr2 := chr2_saved i;
         chr0_saved := chr0_saved i; chr1_saved := chr1_saved i; chr2_saved := chr2_saved i;
         line := line; column := column; reader := reader i; fstring_args := []; fstring_args_idx := 0 |}
    else
      {| chr0 := c0; chr1 := c1; chr2 := c2;
         chr0_saved := chr0_saved i; chr1_saved := chr1_saved i; chr2_saved := chr2_saved i;
         line := line; column := column; reader := reader i;
         fstring_args := fstring_args i; fstring_args_idx := idx |}
  else
    let '(c2, r) := readbyte (reader i) in
    {| chr0 := c0; chr1 := c1; chr2 := c2;
       chr0_saved := chr0_saved i; chr1_saved := chr1_saved i; chr2_saved := chr2_saved i;
       line := line; column := column; reader := r;
       fstring_args := fstring_args i; fstring_args_idx := fstring_args_idx i |}.

(** The queue with another second and third character. *)
Definition set_following (i : input) (c1 c2 : unichar) (r : list byte) : input :=
  {| chr0 := chr0 i; chr1 := c1; chr2 := c2;
     chr0_saved := chr0_saved i; chr1_saved := chr1_saved i; chr2_saved := chr2_saved i;
     line := line i; column := column i; reader := r;
     fstring_args := fstring_args i; fstring_args_idx := fstring_args_idx i |}.

(** CR and CR LF are a new line. *)
Definition convert_newline (i : input) : input :=
  if chr1 i =? CR then
    if chr2 i =? NEWLINE then let '(c2, r) := readbyte (reader i) in set_following i NEWLINE c2 r
    else set_following i NEWLINE (chr2 i) (reader i)
  else i.

(** The source ends with a new line. *)
Definition insert_newline (i : input) : input :=
  if (chr2 i =? MP_LEXER_EOF) && negb (chr1 i =? MP_LEXER_EOF) && negb (chr1 i =? NEWLINE)
  then set_following i (chr1 i) NEWLINE (reader i) else i.

Definition next_char (i : input) : input :=
  let '(line, column) := next_position i in
  insert_newline (convert_newline (shift i line column)).

(** Bytes added to the arguments of a format string. *)
Definition set_args (i : input) (args : list byte) : input :=
  {| chr0 := chr0 i; chr1 := chr1 i; chr2 := chr2 i;
     chr0_saved := chr0_saved i; chr1_saved := chr1_saved i; chr2_saved := chr2_saved i;
     line := line i; column := column i; reader := reader i;
     fstring_args := args; fstring_args_idx := fstring_args_idx i |}.

Definition add_args (i : input) (b : list byte) : input := set_args i (fstring_args i ++ b).

(** ** Tokens *)

Inductive mp_token_kind_t :=
  | MP_TOKEN_END | MP_TOKEN_INVALID | MP_TOKEN_DEDENT_MISMATCH | MP_TOKEN_LONELY_STRING_OPEN
  | MP_TOKEN_MALFORMED_FSTRING | MP_TOKEN_FSTRING_RAW | MP_TOKEN_NEWLINE | MP_TOKEN_INDENT
  | MP_TOKEN_DEDENT | MP_TOKEN_NAME | MP_TOKEN_INTEGER | MP_TOKEN_FLOAT_OR_IMAG | MP_TOKEN_STRING
  | MP_TOKEN_BYTES | MP_TOKEN_ELLIPSIS | MP_TOKEN_KW_FALSE | MP_TOKEN_KW_NONE | MP_TOKEN_KW_TRUE
  | MP_TOKEN_KW___DEBUG__ | MP_TOKEN_KW_AND | MP_TOKEN_KW_AS | MP_TOKEN_KW_ASSERT | MP_TOKEN_KW_ASYNC
  | MP_TOKEN_KW_AWAIT | MP_TOKEN_KW_BREAK | MP_TOKEN_KW_CLASS | MP_TOKEN_KW_CONTINUE | MP_TOKEN_KW_DEF
  | MP_TOKEN_KW_DEL | MP_TOKEN_KW_ELIF | MP_TOKEN_KW_ELSE | MP_TOKEN_KW_EXCEPT | MP_TOKEN_KW_FINALLY
  | MP_TOKEN_KW_FOR | MP_TOKEN_KW_FROM | MP_TOKEN_KW_GLOBAL | MP_TOKEN_KW_IF | MP_TOKEN_KW_IMPORT
  | MP_TOKEN_KW_IN | MP_TOKEN_KW_IS | MP_TOKEN_KW_LAMBDA | MP_TOKEN_KW_NONLOCAL | MP_TOKEN_KW_NOT
  | MP_TOKEN_KW_OR | MP_TOKEN_KW_PASS | MP_TOKEN_KW_RAISE | MP_TOKEN_KW_RETURN | MP_TOKEN_KW_TRY
  | MP_TOKEN_KW_WHILE | MP_TOKEN_KW_WITH | MP_TOKEN_KW_YIELD | MP_TOKEN_OP_ASSIGN | MP_TOKEN_OP_TILDE
  | MP_TOKEN_OP_LESS | MP_TOKEN_OP_MORE | MP_TOKEN_OP_DBL_EQUAL | MP_TOKEN_OP_LESS_EQUAL
  | MP_TOKEN_OP_MORE_EQUAL | MP_TOKEN_OP_NOT_EQUAL | MP_TOKEN_OP_PIPE | MP_TOKEN_OP_CARET
  | MP_TOKEN_OP_AMPERSAND | MP_TOKEN_OP_DBL_LESS | MP_TOKEN_OP_DBL_MORE | MP_TOKEN_OP_PLUS
  | MP_TOKEN_OP_MINUS | MP_TOKEN_OP_STAR | MP_TOKEN_OP_AT | MP_TOKEN_OP_DBL_SLASH | MP_TOKEN_OP_SLASH
  | MP_TOKEN_OP_PERCENT | MP_TOKEN_OP_DBL_STAR | MP_TOKEN_DEL_PIPE_EQUAL | MP_TOKEN_DEL_CARET_EQUAL
  | MP_TOKEN_DEL_AMPERSAND_EQUAL | MP_TOKEN_DEL_DBL_LESS_EQUAL | MP_TOKEN_DEL_DBL_MORE_EQUAL
  | MP_TOKEN_DEL_PLUS_EQUAL | MP_TOKEN_DEL_MINUS_EQUAL | MP_TOKEN_DEL_STAR_EQUAL | MP_TOKEN_DEL_AT_EQUAL
  | MP_TOKEN_DEL_DBL_SLASH_EQUAL | MP_TOKEN_DEL_SLASH_EQUAL | MP_TOKEN_DEL_PERCENT_EQUAL
  | MP_TOKEN_DEL_DBL_STAR_EQUAL | MP_TOKEN_DEL_PAREN_OPEN | MP_TOKEN_DEL_PAREN_CLOSE
  | MP_TOKEN_DEL_BRACKET_OPEN | MP_TOKEN_DEL_BRACKET_CLOSE | MP_TOKEN_DEL_BRACE_OPEN
  | MP_TOKEN_DEL_BRACE_CLOSE | MP_TOKEN_DEL_COMMA | MP_TOKEN_DEL_COLON | MP_TOKEN_DEL_PERIOD
  | MP_TOKEN_DEL_SEMICOLON | MP_TOKEN_DEL_EQUAL | MP_TOKEN_DEL_MINUS_MORE.

#[export] Instance token_kind_eq_dec : EqDecision mp_token_kind_t.
Proof. solve_decision. Defined.

Definition tok_enc : list byte := Eval vm_compute in bytes
  "()[]{},;~:e=<e=c<e=>e=c>e=*e=c*e=+e=-e=e>&e=|e=/e=c/e=%e=^e=@e==e=!.".

Definition tok_enc_kind : list mp_token_kind_t :=
  [MP_TOKEN_DEL_PAREN_OPEN; MP_TOKEN_DEL_PAREN_CLOSE; MP_TOKEN_DEL_BRACKET_OPEN; MP_TOKEN_DEL_BRACKET_CLOSE;
   MP_TOKEN_DEL_BRACE_OPEN; MP_TOKEN_DEL_BRACE_CLOSE; MP_TOKEN_DEL_COMMA; MP_TOKEN_DEL_SEMICOLON;
   MP_TOKEN_OP_TILDE; MP_TOKEN_DEL_COLON; MP_TOKEN_OP_ASSIGN; MP_TOKEN_OP_LESS; MP_TOKEN_OP_LESS_EQUAL;
   MP_TOKEN_OP_DBL_LESS; MP_TOKEN_DEL_DBL_LESS_EQUAL; MP_TOKEN_OP_MORE; MP_TOKEN_OP_MORE_EQUAL;
   MP_TOKEN_OP_DBL_MORE; MP_TOKEN_DEL_DBL_MORE_EQUAL; MP_TOKEN_OP_STAR; MP_TOKEN_DEL_STAR_EQUAL;
   MP_TOKEN_OP_DBL_STAR; MP_TOKEN_DEL_DBL_STAR_EQUAL; MP_TOKEN_OP_PLUS; MP_TOKEN_DEL_PLUS_EQUAL;
   MP_TOKEN_OP_MINUS; MP_TOKEN_DEL_MINUS_EQUAL; MP_TOKEN_DEL_MINUS_MORE; MP_TOKEN_OP_AMPERSAND;
   MP_TOKEN_DEL_AMPERSAND_EQUAL; MP_TOKEN_OP_PIPE; MP_TOKEN_DEL_PIPE_EQUAL; MP_TOKEN_OP_SLASH;
   MP_TOKEN_DEL_SLASH_EQUAL; MP_TOKEN_OP_DBL_SLASH; MP_TOKEN_DEL_DBL_SLASH_EQUAL; MP_TOKEN_OP_PERCENT;
   MP_TOKEN_DEL_PERCENT_EQUAL; MP_TOKEN_OP_CARET; MP_TOKEN_DEL_CARET_EQUAL; MP_TOKEN_OP_AT;
   MP_TOKEN_DEL_AT_EQUAL; MP_TOKEN_DEL_EQUAL; MP_TOKEN_OP_DBL_EQUAL].

Definition tok_kw : list (list byte) := bytes <$>
  ["False"; "None"; "True"; "__debug__"; "and"; "as"; "assert"; "async"; "await"; "break"; "class";
   "continue"; "def"; "del"; "elif"; "else"; "except"; "finally"; "for"; "from"; "global"; "if"; "import";
   "in"; "is"; "lambda"; "nonlocal"; "not"; "or"; "pass"; "raise"; "return"; "try"; "while"; "with"; "yield"]%string.

(** The kinds from [MP_TOKEN_KW_FALSE] in their order. *)
Definition keyword_kinds : list mp_token_kind_t :=
  [MP_TOKEN_KW_FALSE; MP_TOKEN_KW_NONE; MP_TOKEN_KW_TRUE; MP_TOKEN_KW___DEBUG__; MP_TOKEN_KW_AND;
   MP_TOKEN_KW_AS; MP_TOKEN_KW_ASSERT; MP_TOKEN_KW_ASYNC; MP_TOKEN_KW_AWAIT; MP_TOKEN_KW_BREAK;
   MP_TOKEN_KW_CLASS; MP_TOKEN_KW_CONTINUE; MP_TOKEN_KW_DEF; MP_TOKEN_KW_DEL; MP_TOKEN_KW_ELIF;
   MP_TOKEN_KW_ELSE; MP_TOKEN_KW_EXCEPT; MP_TOKEN_KW_FINALLY; MP_TOKEN_KW_FOR; MP_TOKEN_KW_FROM;
   MP_TOKEN_KW_GLOBAL; MP_TOKEN_KW_IF; MP_TOKEN_KW_IMPORT; MP_TOKEN_KW_IN; MP_TOKEN_KW_IS;
   MP_TOKEN_KW_LAMBDA; MP_TOKEN_KW_NONLOCAL; MP_TOKEN_KW_NOT; MP_TOKEN_KW_OR; MP_TOKEN_KW_PASS;
   MP_TOKEN_KW_RAISE; MP_TOKEN_KW_RETURN; MP_TOKEN_KW_TRY; MP_TOKEN_KW_WHILE; MP_TOKEN_KW_WITH;
   MP_TOKEN_KW_YIELD].

(** ** String literals *)

(** [FAULT] is an access outside a buffer or a failed assertion. *)
Inductive lex_error := NotImplementedError | FAULT.

Abbreviation result A := (option (lex_error + A)).

Definition rbind {A B} (k : A -> result B) (r : result A) : result B :=
  match r with Some (inr a) => k a | Some (inl e) => Some (inl e) | None => None end.

Notation "x ←r r ; k" := (rbind (fun x => k) r) (at level 20, r at level 100, k at level 200, only parsing).

(** A literal being read: the characters, the kind of the token and its text. *)
Record literal := { l_in : input; l_kind : mp_token_kind_t; l_vstr : list byte }.

Definition at_input (s : literal) (i : input) : literal := {| l_in := i; l_kind := l_kind s; l_vstr := l_vstr s |}.
Definition at_kind (s : literal) (k : mp_token_kind_t) : literal := {| l_in := l_in s; l_kind := k; l_vstr := l_vstr s |}.
Definition add_bytes (s : literal) (b : list byte) : literal :=
  {| l_in := l_in s; l_kind := l_kind s; l_vstr := l_vstr s ++ b |}.
Definition advance (s : literal) : literal := at_input s (next_char (l_in s)).

(** The digits of an escape, and the number when all of them are there. *)
Fixpoint get_hex (i : input) (num_digits : nat) (num : Z) : input * option Z :=
  match num_digits with
  | O => (i, Some num)
  | S n =>
      let i := next_char i in
      let c := chr0 i in
      if negb (unichar_isxdigit c) then (i, None)
      else get_hex i n (wrapu 32 (wrapu 32 (Z.shiftl num 4) + unichar_xdigit_value c))
  end.

Fixpoint octal_loop (digits : nat) (i : input) (num : Z) : input * Z :=
  match digits with
  | O => (i, num)
  | S digits =>
      if is_following_odigit i
      then let i := next_char i in octal_loop digits i (num * 8 + (chr0 i - 48))
      else (i, num)
  end.

Definition simple_escapes : list (Z * Z) :=
  [(NEWLINE, MP_LEXER_EOF); (BACKSLASH, BACKSLASH); (QUOTE, QUOTE); (DQUOTE, DQUOTE);
   (chr "a", 0x07); (chr "b", 0x08); (chr "t", 0x09); (chr "n", 0x0a); (chr "v", 0x0b); (chr "f", 0x0c);
   (chr "r", 0x0d)].

Definition hex_escape (s : literal) (c : unichar) : literal * unichar :=
  match get_hex (l_in s) (if c =? "x"%char then 2%nat else if c =? "u"%char then 4%nat else 8%nat) 0 with
  | (i, Some num) => (at_input s i, num)
  | (i, None) => (at_kind (at_input s i) MP_TOKEN_INVALID, 0)
  end.

(** The character an escape stands for; [MP_LEXER_EOF] for none. *)
Definition escape (s : literal) : result (literal * unichar) :=
  let c := chr0 (l_in s) in
  match list_find (fun e => c = fst e) simple_escapes with
  | Some (_, (_, c)) => Some (inr (s, c))
  | None =>
      if (c =? "u"%char) || (c =? "U"%char) then
        if decide (l_kind s = MP_TOKEN_BYTES) then Some (inr (add_bytes s [BACKSLASH], c))
        else Some (inr (hex_escape s c))
      else if c =? "x"%char then Some (inr (hex_escape s c))
      else if c =? "N"%char then Some (inl NotImplementedError)
      else if (c >=? "0"%char) && (c <=? "7"%char) then
        let '(i, num) := octal_loop 2 (l_in s) (c - 48) in Some (inr (at_input s i, num))
      else Some (inr (add_bytes s [BACKSLASH], c))
  end.

(** The character of an escape added to the text. *)
Definition add_escaped (s : literal) (c : unichar) : result literal :=
  if c =? MP_LEXER_EOF then Some (inr s)
  else if (c <? 0x110000) && bool_decide (l_kind s = MP_TOKEN_STRING) then
    match vstr_add_char c with Some b => Some (inr (add_bytes s b)) | None => Some (inl FAULT) end
  else if (c <? 0x100) && bool_decide (l_kind s = MP_TOKEN_BYTES) then Some (inr (add_bytes s [c]))
  else Some (inr (at_kind s MP_TOKEN_INVALID)).

Definition in_argument (i : input) (nested_bracket_level : Z) : bool :=
  negb (is_end i) &&
  (negb (nested_bracket_level =? 0) ||
   negb (is_char_or i ":"%char "}"%char
         || (is_char i "!"%char && is_char_following_or i "r"%char "s"%char
             && is_char_following_following_or i ":"%char "}"%char))).

(** The level is an unsigned integer. *)
Fixpoint argument_loop (fuel : nat) (i : input) (nested_bracket_level : Z) : option input :=
  if in_argument i nested_bracket_level then
    match fuel with
    | O => None
    | S fuel =>
        let c := chr0 i in
        let level :=
          if (c =? "["%char) || (c =? "{"%char) then wrapu 32 (nested_bracket_level + 1)
          else if (c =? "]"%char) || (c =? "}"%char) then wrapu 32 (nested_bracket_level - 1)
          else nested_bracket_level in
        argument_loop fuel (next_char (add_args i [wrapu 8 c])) level
    end
  else Some i.

(** The end of an argument whose text starts at [i0]: with a trailing [=], its
    text goes to the literal. *)
Definition close_argument (s : literal) (i0 : nat) : result literal :=
  let args := fstring_args (l_in s) in
  match list.last args with
  | None => Some (inl FAULT)
  | Some c =>
      let text := if c =? "="%char then drop i0 args else [] in
      let kept := if c =? "="%char then take (length args - 1) args else args in
      if (c =? "="%char) && (length args <? i0)%nat then Some (inl FAULT)
      else Some (inr (add_bytes (at_input s (set_args (l_in s) (kept ++ bytes "),"))) text))
  end.

(** The loop over the braces of a format string. *)
Fixpoint brace_loop (fuel : nat) (is_fstring : bool) (s : literal) : result literal :=
  if is_fstring && is_char (l_in s) "{"%char then
    match fuel with
    | O => None
    | S fuel =>
        let s := advance s in
        s ←r (if is_char (l_in s) "{"%char then Some (inr (advance (add_bytes s (bytes "{"))))
              else
                let i := add_args (l_in s) (bytes "(") in
                match argument_loop fuel i 0 with
                | None => None
                | Some j => close_argument (at_input s j) (length (fstring_args i))
                end);
        brace_loop fuel is_fstring (add_bytes s (bytes "{"))
    end
  else Some (inr s).

(** The character at the cursor, which may start an escape. *)
Definition literal_char (is_raw : bool) (s : literal) : result literal :=
  if is_char (l_in s) BACKSLASH then
    let s := advance s in
    let c := chr0 (l_in s) in
    e ←r (if is_raw then Some (inr (add_bytes s [BACKSLASH], c)) else escape s);
    add_escaped (fst e) (snd e)
  else Some (inr (add_bytes s [wrapu 8 (chr0 (l_in s))])).

Fixpoint literal_loop (fuel : nat) (is_raw is_fstring : bool) (quote_char num_quotes n_closing : Z)
    (s : literal) : result (literal * Z) :=
  if negb (is_end (l_in s)) && ((num_quotes >? 1) || negb (is_char (l_in s) NEWLINE)) && (n_closing <? num_quotes) then
    match fuel with
    | O => None
    | S fuel =>
        if is_char (l_in s) quote_char then
          literal_loop fuel is_raw is_fstring quote_char num_quotes (n_closing + 1)
            (advance (add_bytes s [quote_char]))
        else
          s ←r brace_loop fuel is_fstring s;
          s ←r literal_char is_raw s;
          literal_loop fuel is_raw is_fstring quote_char num_quotes 0 (advance s)
    end
  else Some (inr (s, n_closing)).

Definition vstr_cut_tail_bytes (v : list byte) (len : Z) : list byte :=
  if len >? Z.of_nat (length v) then [] else take (length v - Z.to_nat len) v.

Definition parse_string_literal (fuel : nat) (s : literal) (is_raw is_fstring : bool) : result literal :=
  let quote_char := if is_char (l_in s) DQUOTE then DQUOTE else QUOTE in
  let s := advance s in
  let triple := is_char_and (l_in s) quote_char quote_char in
  let s := if triple then advance (advance s) else s in
  let num_quotes := if triple then 3 else 1 in
  let s := if is_fstring then at_input s (add_args (l_in s) (bytes ".format(")) else s in
  r ←r literal_loop fuel is_raw is_fstring quote_char num_quotes 0 s;
  let '(s, n_closing) := r in
  let s := if n_closing <? num_quotes then at_kind s MP_TOKEN_LONELY_STRING_OPEN else s in
  Some (inr {| l_in := l_in s; l_kind := l_kind s; l_vstr := vstr_cut_tail_bytes (l_vstr s) n_closing |}).

(** ** White space and indentation *)

Fixpoint skip_comment (fuel : nat) (i : input) : option input :=
  if negb (is_end i) && negb (is_physical_newline i) then
    match fuel with O => None | S fuel => skip_comment fuel (next_char i) end
  else Some i.

(** Whether it stopped at a new line. *)
Fixpoint skip_whitespace (fuel : nat) (nested_bracket_level : Z) (stop_at_newline : bool) (i : input) :
    option (bool * input) :=
  if is_end i then Some (false, i)
  else if is_physical_newline i && stop_at_newline && (nested_bracket_level =? 0) then Some (true, i)
  else
    match fuel with
    | O => None
    | S fuel =>
        if is_physical_newline i then skip_whitespace fuel nested_bracket_level stop_at_newline (next_char i)
        else if is_whitespace i then skip_whitespace fuel nested_bracket_level stop_at_newline (next_char i)
        else if is_char i "#"%char then
          i ← skip_comment fuel (next_char i); skip_whitespace fuel nested_bracket_level stop_at_newline i
        else if is_char_and i BACKSLASH NEWLINE then
          skip_whitespace fuel nested_bracket_level stop_at_newline (next_char (next_char i))
        else Some (false, i)
    end.

Definition MICROPY_ALLOC_LEXER_INDENT_INIT : Z := 10.
Definition MICROPY_ALLOC_LEXEL_INDENT_INC : Z := 8.

(** The levels, from the top of the stack, in an array of 16-bit words. *)
Record indents := { alloc_indent_level : Z; indent_level : list Z }.

Definition num_indent_level (d : indents) : Z := Z.of_nat (length (indent_level d)).

Definition indent_push (d : indents) (indent : Z) : indents :=
  {| alloc_indent_level :=
       if num_indent_level d >=? alloc_indent_level d
       then alloc_indent_level d + MICROPY_ALLOC_LEXEL_INDENT_INC else alloc_indent_level d;
     indent_level := wrapu 16 indent :: indent_level d |}.

(** [None] reads before the array. *)
Definition indent_top (d : indents) : option Z := head (indent_level d).

Definition indent_pop (d : indents) : indents :=
  {| alloc_indent_level := alloc_indent_level d; indent_level := tail (indent_level d) |}.

(** The levels above [num_spaces] removed, and the number of them. *)
Fixpoint dedent_loop (levels : list Z) (num_spaces : Z) : option (list Z * Z) :=
  match levels with
  | [] => None
  | top :: below =>
      if num_spaces <? top then '(l, n) ← dedent_loop below num_spaces; Some (l, n + 1) else Some (levels, 0)
  end.

(** ** The lexer *)

Record mp_lexer_t := {
  lex_in : input;
  emit_dent : Z;
  nested_bracket_level : Z;
  indentation : indents;
  tok_line : Z; tok_column : Z;
  tok_kind : mp_token_kind_t;
  vstr : list byte;
}.

(** The lexer after a token. *)
Definition token (lex : mp_lexer_t) (i : input) (kind : mp_token_kind_t) (text : list byte) : mp_lexer_t :=
  {| lex_in := i; emit_dent := emit_dent lex; nested_bracket_level := nested_bracket_level lex;
     indentation := indentation lex; tok_line := tok_line lex; tok_column := tok_column lex;
     tok_kind := kind; vstr := text |}.

(** The arguments of a format string put before the rest of the source. *)
Definition start_injection (i : input) : option input :=
  if negb (Z.of_nat (length (fstring_args i)) =? 0) && (fstring_args_idx i =? 0) then
    match fstring_args i ++ bytes ")" with
    | c0 :: c1 :: c2 :: _ =>
        Some {| chr0 := c0; chr1 := c1; chr2 := c2;
                chr0_saved := chr0 i; chr1_saved := chr1 i; chr2_saved := chr2 i;
                line := line i; column := column i; reader := reader i;
                fstring_args := fstring_args i ++ bytes ")"; fstring_args_idx := 3 |}
    | _ => None
    end
  else Some i.

(** A new line: the indentation of the line that follows it. *)
Definition newline_token (lex : mp_lexer_t) (i : input) : option mp_lexer_t :=
  let num_spaces := wrapu 32 (column i - 1) in
  let d := indentation lex in
  top ← indent_top d;
  let new d dent kind :=
    {| lex_in := i; emit_dent := dent; nested_bracket_level := nested_bracket_level lex;
       indentation := d; tok_line := tok_line lex; tok_column := tok_column lex; tok_kind := kind; vstr := [] |} in
  if num_spaces =? top then Some (new d (emit_dent lex) MP_TOKEN_NEWLINE)
  else if num_spaces >? top then Some (new (indent_push d num_spaces) (emit_dent lex + 1) MP_TOKEN_NEWLINE)
  else
    '(levels, n) ← dedent_loop (indent_level d) num_spaces;
    let d := {| alloc_indent_level := alloc_indent_level d; indent_level := levels |} in
    top ← indent_top d;
    Some (new d (emit_dent lex - n) (if negb (num_spaces =? top) then MP_TOKEN_DEDENT_MISMATCH else MP_TOKEN_NEWLINE)).

(** The prefix of a literal: its kind, whether it is raw, whether it is a format
    string and its length; [None] for a raw format string. *)
Definition literal_prefix (i : input) : option (mp_token_kind_t * bool * bool * nat) :=
  if is_char i "u"%char then Some (MP_TOKEN_STRING, false, false, 1%nat)
  else if is_char i "b"%char then
    if is_char_following i "r"%char then Some (MP_TOKEN_BYTES, true, false, 2%nat)
    else Some (MP_TOKEN_BYTES, false, false, 1%nat)
  else if is_char i "r"%char then
    if is_char_following i "f"%char then None
    else if is_char_following i "b"%char then Some (MP_TOKEN_BYTES, true, false, 2%nat)
    else Some (MP_TOKEN_STRING, true, false, 1%nat)
  else if is_char i "f"%char then
    if is_char_following i "r"%char then None else Some (MP_TOKEN_STRING, false, true, 1%nat)
  else Some (MP_TOKEN_STRING, false, false, 0%nat).

(** Adjacent literals, which are one token; [MP_TOKEN_END] marks the first. *)
Fixpoint strings_loop (fuel : nat) (nested : Z) (s : literal) : result literal :=
  match fuel with
  | O => None
  | S fuel =>
      match literal_prefix (l_in s) with
      | None => Some (inr (at_kind s MP_TOKEN_FSTRING_RAW))
      | Some (kind, is_raw, is_fstring, n_char) =>
          if bool_decide (l_kind s <> MP_TOKEN_END) && bool_decide (l_kind s <> kind) then Some (inr s)
          else
            let s := if decide (l_kind s = MP_TOKEN_END) then at_kind s kind else s in
            let s := Nat.iter n_char advance s in
            s ←r parse_string_literal fuel s is_raw is_fstring;
            match skip_whitespace fuel nested true (l_in s) with
            | None => None
            | Some (_, i) =>
                let s := at_input s i in
                if is_string_or_bytes i then strings_loop fuel nested s else Some (inr s)
            end
      end
  end.

Fixpoint name_tail (fuel : nat) (i : input) (text : list byte) : option (input * list byte) :=
  if negb (is_end i) && is_tail_of_identifier i then
    match fuel with O => None | S fuel => name_tail fuel (next_char i) (text ++ [wrapu 8 (chr0 i)]) end
  else Some (i, text).

(** The sign of [strcmp] on texts that end with a zero byte. *)
Fixpoint strcmp (s t : list byte) : Z :=
  match s, t with
  | [], [] => 0
  | [], c :: _ => - c
  | c :: _, [] => c
  | c :: s, d :: t => if c =? d then (if c =? 0 then 0 else strcmp s t) else c - d
  end.

(** The search of the sorted table of keywords. *)
Fixpoint keyword_loop (table : list (list byte)) (kinds : list mp_token_kind_t) (s : list byte) : mp_token_kind_t :=
  match table, kinds with
  | kw :: table, kind :: kinds =>
      let cmp := strcmp s kw in
      if cmp =? 0 then kind else if cmp <? 0 then MP_TOKEN_NAME else keyword_loop table kinds s
  | _, _ => MP_TOKEN_NAME
  end.

Definition name_kind (mp_optimise_value : Z) (s : list byte) : mp_token_kind_t :=
  let kind := keyword_loop tok_kw keyword_kinds s in
  if decide (kind = MP_TOKEN_KW___DEBUG__)
  then if mp_optimise_value =? 0 then MP_TOKEN_KW_TRUE else MP_TOKEN_KW_FALSE else kind.

(** The tail of a number. *)
Fixpoint number_tail (fuel : nat) (forced_integer : bool) (i : input) (kind : mp_token_kind_t) (text : list byte) :
    option (input * mp_token_kind_t * list byte) :=
  if is_end i then Some (i, kind, text) else
  match fuel with
  | O => None
  | S fuel =>
      if negb forced_integer && is_char_or i "e"%char "E"%char then
        let i := next_char i in
        let text := text ++ bytes "e" in
        if is_char i "+"%char || is_char i "-"%char
        then number_tail fuel forced_integer (next_char i) MP_TOKEN_FLOAT_OR_IMAG (text ++ [chr0 i])
        else number_tail fuel forced_integer i MP_TOKEN_FLOAT_OR_IMAG text
      else if is_letter i || is_digit i || is_char i "."%char then
        let kind := if is_char_or3 i "."%char "j"%char "J"%char then MP_TOKEN_FLOAT_OR_IMAG else kind in
        number_tail fuel forced_integer (next_char i) kind (text ++ [chr0 i])
      else if is_char i "_"%char then number_tail fuel forced_integer (next_char i) kind text
      else Some (i, kind, text)
  end.

(** The search of the encoded operators for one that starts with [c]: the rest
    of the code from there, and its index. *)
Fixpoint find_operator (t : list byte) (c : unichar) (tok_enc_index : nat) : list byte * nat :=
  match t with
  | [] => ([], tok_enc_index)
  | x :: t' =>
      if c =? x then (t, tok_enc_index)
      else if (x =? "e"%char) || (x =? "c"%char) then
        match t' with [] => ([], S tok_enc_index) | _ :: t'' => find_operator t'' c (S tok_enc_index) end
      else find_operator t' c (S tok_enc_index)
  end.

(** The longest operator: the code after its first character. *)
Fixpoint operator_loop (t : list byte) (t_index : nat) (i : input) (tok_enc_index : nat) : input * nat :=
  match t with
  | x :: y :: t' =>
      if (x =? "c"%char) || (x =? "e"%char) then
        let t_index := S t_index in
        if is_char i y then
          let i := next_char i in
          if x =? "e"%char then (i, t_index) else operator_loop t' t_index i t_index
        else if x =? "c"%char then (i, tok_enc_index)
        else operator_loop t' t_index i tok_enc_index
      else (i, tok_enc_index)
  | _ => (i, tok_enc_index)
  end.

(** An operator or delimiter and the characters after it. *)
Definition operator (i : input) : input * mp_token_kind_t :=
  let '(t, tok_enc_index) := find_operator tok_enc (chr0 i) 0 in
  let i := next_char i in
  match t with
  | [] => (i, MP_TOKEN_INVALID)
  | x :: t =>
      if x =? "!"%char then
        if is_char i "="%char then (next_char i, MP_TOKEN_OP_NOT_EQUAL) else (i, MP_TOKEN_INVALID)
      else if x =? "."%char then
        if is_char_and i "."%char "."%char then (next_char (next_char i), MP_TOKEN_ELLIPSIS)
        else (i, MP_TOKEN_DEL_PERIOD)
      else
        let '(i, k) := operator_loop t tok_enc_index i tok_enc_index in
        (i, default MP_TOKEN_INVALID (tok_enc_kind !! k))
  end.

(** The change of the bracket level. *)
Definition bracket_change (kind : mp_token_kind_t) : Z :=
  match kind with
  | MP_TOKEN_DEL_PAREN_OPEN | MP_TOKEN_DEL_BRACKET_OPEN | MP_TOKEN_DEL_BRACE_OPEN => 1
  | MP_TOKEN_DEL_PAREN_CLOSE | MP_TOKEN_DEL_BRACKET_CLOSE | MP_TOKEN_DEL_BRACE_CLOSE => -1
  | _ => 0
  end.

Definition operator_token (lex : mp_lexer_t) (i : input) : mp_lexer_t :=
  let '(i, kind) := operator i in
  {| lex_in := i; emit_dent := emit_dent lex;
     nested_bracket_level := nested_bracket_level lex + bracket_change kind;
     indentation := indentation lex; tok_line := tok_line lex; tok_column := tok_column lex;
     tok_kind := kind; vstr := [] |}.

Definition number_token (fuel : nat) (lex : mp_lexer_t) (i : input) : option mp_lexer_t :=
  let kind := if is_char i "."%char then MP_TOKEN_FLOAT_OR_IMAG else MP_TOKEN_INTEGER in
  let forced_integer := negb (is_char i "."%char) && is_char i "0"%char && is_following_base_char i in
  '(j, kind, text) ← number_tail fuel forced_integer (next_char i) kind [chr0 i];
  Some (token lex j kind text).

Definition name_token (fuel : nat) (mp_optimise_value : Z) (lex : mp_lexer_t) (i : input) : option mp_lexer_t :=
  '(j, text) ← name_tail fuel (next_char i) [wrapu 8 (chr0 i)];
  Some (token lex j (name_kind mp_optimise_value text) text).

Definition set_dent (lex : mp_lexer_t) (i : input) (dent : Z) (kind : mp_token_kind_t) : mp_lexer_t :=
  {| lex_in := i; emit_dent := dent; nested_bracket_level := nested_bracket_level lex;
     indentation := indentation lex; tok_line := tok_line lex; tok_column := tok_column lex;
     tok_kind := kind; vstr := [] |}.

Definition at_position (lex : mp_lexer_t) (i : input) : mp_lexer_t :=
  {| lex_in := i; emit_dent := emit_dent lex; nested_bracket_level := nested_bracket_level lex;
     indentation := indentation lex; tok_line := line i; tok_column := column i;
     tok_kind := tok_kind lex; vstr := [] |}.

(** A part of the lexer that raises nothing. *)
Definition ok {A} (o : option A) : result A := a ← o; Some (inr a).

(** The same, where a missing value is an access outside a buffer. *)
Definition in_bounds {A} (o : option A) : result A :=
  match o with Some a => Some (inr a) | None => Some (inl FAULT) end.

Definition mp_lexer_to_next (fuel : nat) (mp_optimise_value : Z) (lex : mp_lexer_t) : result mp_lexer_t :=
  i ←r in_bounds (start_injection (lex_in lex));
  w ←r ok (skip_whitespace fuel (nested_bracket_level lex) true i);
  let '(had_physical_newline, i) := w in
  let lex := at_position lex i in
  if emit_dent lex <? 0 then Some (inr (set_dent lex i (emit_dent lex + 1) MP_TOKEN_DEDENT))
  else if emit_dent lex >? 0 then Some (inr (set_dent lex i (emit_dent lex - 1) MP_TOKEN_INDENT))
  else if (had_physical_newline : bool) then
    w ←r ok (skip_whitespace fuel (nested_bracket_level lex) false i);
    in_bounds (newline_token lex (snd w))
  else if is_end i then Some (inr (token lex i MP_TOKEN_END []))
  else if is_string_or_bytes i then
    s ←r strings_loop fuel (nested_bracket_level lex) {| l_in := i; l_kind := MP_TOKEN_END; l_vstr := [] |};
    Some (inr (token lex (l_in s) (l_kind s) (l_vstr s)))
  else if is_head_of_identifier i then ok (name_token fuel mp_optimise_value lex i)
  else if is_digit i || (is_char i "."%char && is_following_digit i) then ok (number_token fuel lex i)
  else Some (inr (operator_token lex i)).

Definition mp_reader_new_mem (buf : list byte) : input :=
  {| chr0 := 0; chr1 := 0; chr2 := 0; chr0_saved := 0; chr1_saved := 0; chr2_saved := 0;
     line := 1; column := wrapu 32 (-2); reader := buf; fstring_args := []; fstring_args_idx := 0 |}.

Definition mp_lexer_new (fuel : nat) (mp_optimise_value : Z) (buf : list byte) : result mp_lexer_t :=
  let lex := {|
    lex_in := next_char (next_char (next_char (mp_reader_new_mem buf)));
    emit_dent := 0; nested_bracket_level := 0;
    indentation := {| alloc_indent_level := MICROPY_ALLOC_LEXER_INDENT_INIT; indent_level := [0] |};
    tok_line := 0; tok_column := 0; tok_kind := MP_TOKEN_END; vstr := [] |} in
  lex ←r mp_lexer_to_next fuel mp_optimise_value lex;
  let kind :=
    if negb (tok_column lex =? 1) && bool_decide (tok_kind lex <> MP_TOKEN_NEWLINE)
    then MP_TOKEN_INDENT else tok_kind lex in
  Some (inr {| lex_in := lex_in lex; emit_dent := emit_dent lex; nested_bracket_level := nested_bracket_level lex;
     indentation := indentation lex; tok_line := tok_line lex; tok_column := tok_column lex;
     tok_kind := kind; vstr := vstr lex |}).
