(* ===== verification/LexSpec.v ===== *)
(** The queue of characters and the loops of the lexer: what remains of a source
    decreases with every character, so the loops end. *)

From Stdlib Require Import ZArith Lia Ascii String.
From stdpp Require Import base option list numbers.
From S2P Require Import Prelude Lexer.

(** * What remains of a source *)

Definition is_eof (c : Z) : bool := c =? MP_LEXER_EOF.

(** The end of the source comes once, after a new line. *)
Definition queue_ok (c0 c1 c2 : Z) (r : list Z) : Prop :=
  (c0 = MP_LEXER_EOF -> c1 = MP_LEXER_EOF) /\
  (c1 = MP_LEXER_EOF -> c2 = MP_LEXER_EOF /\ (c0 = MP_LEXER_EOF \/ c0 = NEWLINE)) /\
  (c2 = MP_LEXER_EOF -> length r = 0%nat /\ (c1 = MP_LEXER_EOF \/ c1 = NEWLINE)).

Definition is_byte (c : Z) : Prop := 0 <= c < 256.

(** The start of a format string. *)
Definition fquote (c d : Z) : Prop := c = chr "f" /\ (d = QUOTE \/ d = DQUOTE).

(** No [f] stands directly before a quote: no format string can start, nor does a
    text such as ["half"] occur. *)
Fixpoint calm (l : list Z) : Prop :=
  match l with
  | c :: ((d :: _) as l') => ~ fquote c d /\ calm l'
  | _ => True
  end.

Definition char_ok (c : Z) : Prop := is_byte c \/ c = MP_LEXER_EOF.

(** A queue of the source: carriage returns are converted but in the third place. *)
Record queue_well (c0 c1 c2 : Z) (r : list Z) : Prop := {
  well_end : queue_ok c0 c1 c2 r;
  well_bytes : Forall is_byte r;
  well_chars : char_ok c0 /\ char_ok c1 /\ char_ok c2;
  well_newlines : c0 <> CR /\ c1 <> CR;
}.

Definition arg_byte (c : Z) : Prop := is_byte c /\ c <> CR.

(** A queue that reads from the source; the arguments of the format strings of the
    literals being read start with [.format(]. *)
Record source_ok (i : input) : Prop := {
  source_idx : fstring_args_idx i = 0;
  source_queue : queue_well (chr0 i) (chr1 i) (chr2 i) (reader i);
  source_args : Forall arg_byte (fstring_args i);
  source_size : fstring_args i = [] \/ (8 <= length (fstring_args i))%nat;
}.

(** A queue that reads from the arguments of a format string, none of which is a
    format string; that of the source is set aside. *)
Record injection_ok (i : input) : Prop := {
  injection_idx : 0 < fstring_args_idx i <= Z.of_nat (length (fstring_args i));
  injection_queue : queue_well (chr0_saved i) (chr1_saved i) (chr2_saved i) (reader i);
  injection_chars : arg_byte (chr0 i) /\ arg_byte (chr1 i) /\ arg_byte (chr2 i);
  injection_args : Forall arg_byte (fstring_args i);
  injection_calm : calm (chr0 i :: chr1 i :: chr2 i :: drop (Z.to_nat (fstring_args_idx i)) (fstring_args i));
}.

Definition input_ok (i : input) : Prop := source_ok i \/ injection_ok i.

(** The source has no [f] before a quote, and no argument is pending. *)
Definition quiet (i : input) : Prop :=
  fstring_args_idx i = 0 /\ fstring_args i = [] /\ calm (chr0 i :: chr1 i :: chr2 i :: reader i).

Definition present (c : Z) : nat := if is_eof c then 0 else 1.

(** The characters left of a source, the new line that may be inserted at the end
    included. *)
Definition queue_rest (c0 c1 c2 : Z) (r : list Z) : nat :=
  present c0 + present c1 + present c2 + length r +
  (if is_eof c2 || ((c2 =? NEWLINE) && (length r =? 0)%nat) then 0 else 1).

(** The characters left of the arguments. *)
Definition unread (i : input) : nat :=
  if chr1 i =? 0 then 1 else if chr2 i =? 0 then 2
  else 3 + (length (fstring_args i) - Z.to_nat (fstring_args_idx i)).

Definition args_weight (args : list byte) : nat :=
  if (length args =? 0)%nat then 0 else length args + 5.

(** What is left to read: a character of the source may become an argument, which
    is read again, so it counts for more than all that it adds. *)
Definition rest (i : input) : nat :=
  if fstring_args_idx i =? 0
  then 16 * queue_rest (chr0 i) (chr1 i) (chr2 i) (reader i) + args_weight (fstring_args i)
  else 16 * queue_rest (chr0_saved i) (chr1_saved i) (chr2_saved i) (reader i) + unread i.

Lemma calm_tail c l : calm (c :: l) -> calm l.
Proof. destruct l; [done|]. by intros [_ ?]. Qed.

Lemma calm_cons c l : (forall d l', l = d :: l' -> ~ fquote c d) -> calm l -> calm (c :: l).
Proof. destruct l; [done|]. intros Hc Hl. split; [by eapply Hc|done]. Qed.

Lemma not_f_calm c l : c <> chr "f" -> calm l -> calm (c :: l).
Proof. intros Hc. apply calm_cons. intros d l' _ [? _]. done. Qed.

(** A character before a new line. *)
Lemma calm_newline c l : calm l -> (l = [] \/ exists l', l = NEWLINE :: l') -> calm (c :: l).
Proof.
  intros Hl H. apply calm_cons; [|done]. intros d l' -> [_ Hd].
  destruct H as [|[? [= -> _]]]; [done|]. by destruct Hd.
Qed.

Lemma byte_not_eof b : is_byte b -> is_eof b = false.
Proof. unfold is_byte, is_eof, MP_LEXER_EOF, MP_READER_EOF. intros. apply Z.eqb_neq. lia. Qed.

(** The queue of a source after a character, without its position. *)
Definition next_queue (c0 c1 c2 : Z) (r : list Z) : Z * Z * Z * list Z :=
  match r with
  | [] =>
      if c2 =? CR then (c1, NEWLINE, MP_LEXER_EOF, [])
      else if is_eof c2 || (c2 =? NEWLINE) then (c1, c2, MP_LEXER_EOF, []) else (c1, c2, NEWLINE, [])
  | b :: r =>
      if c2 =? CR then
        if b =? NEWLINE then (c1, NEWLINE, fst (readbyte r), snd (readbyte r)) else (c1, NEWLINE, b, r)
      else (c1, c2, b, r)
  end.

Lemma next_source_queue i : fstring_args_idx i = 0 -> Forall is_byte (reader i) ->
  (chr0 (next_char i), chr1 (next_char i), chr2 (next_char i), reader (next_char i)) =
    next_queue (chr0 i) (chr1 i) (chr2 i) (reader i) /\
  fstring_args (next_char i) = fstring_args i /\ fstring_args_idx (next_char i) = 0.
Proof.
  intros Hi Hr. destruct i as [c0 c1 c2 s0 s1 s2 ln col r args idx]. cbn in *. subst idx.
  unfold next_char. destruct (next_position _) as [ln' col']. unfold shift. cbn.
  destruct r as [|b r]; cbn [readbyte]; unfold convert_newline; cbn [chr1 chr2 reader next_queue].
  - destruct (c2 =? CR) eqn:Ec.
    + cbn. unfold insert_newline. cbn. done.
    + unfold insert_newline. cbn [chr1 chr2]. change (MP_LEXER_EOF =? MP_LEXER_EOF) with true.
      fold (is_eof c2). by destruct (is_eof c2), (c2 =? NEWLINE).
  - apply Forall_cons_1 in Hr as [Hb Hr]. pose proof (byte_not_eof b Hb) as Eb. unfold is_eof in Eb.
    destruct (c2 =? CR) eqn:Ec; [destruct (b =? NEWLINE) eqn:En|].
    + cbn. destruct (readbyte r) as [d r']. unfold insert_newline. cbn. by rewrite !andb_false_r.
    + unfold insert_newline. cbn. by rewrite Eb.
    + unfold insert_newline. cbn. by rewrite Eb.
Qed.

Lemma next_char_queue i : fstring_args i = [] -> fstring_args_idx i = 0 -> Forall is_byte (reader i) ->
  (chr0 (next_char i), chr1 (next_char i), chr2 (next_char i), reader (next_char i)) =
    next_queue (chr0 i) (chr1 i) (chr2 i) (reader i) /\
  fstring_args (next_char i) = [] /\ fstring_args_idx (next_char i) = 0.
Proof. intros Ha Hi Hr. destruct (next_source_queue i Hi Hr) as (E & -> & ?). done. Qed.

Definition queue_chars (q : Z * Z * Z * list Z) : list Z := let '(c0, c1, c2, r) := q in c0 :: c1 :: c2 :: r.

(** The comparisons of characters are decided. *)
Ltac char_cases :=
  repeat (cbn -[Z.pow Z.eqb Nat.eqb]; match goal with
    | |- context [?x =? ?y] => destruct (Z.eqb_spec x y)
    | |- context [(?x =? ?y)%nat] => destruct (Nat.eqb_spec x y)
    end); cbn -[Z.pow Z.eqb].

Ltac char_consts := unfold MP_LEXER_EOF, MP_READER_EOF, NEWLINE, CR, QUOTE, DQUOTE, BACKSLASH in *;
  repeat match goal with
  | H : context [chr ?a] |- _ => let v := eval vm_compute in (chr a) in change (chr a) with v in H
  | |- context [chr ?a] => let v := eval vm_compute in (chr a) in change (chr a) with v
  end.

(** The comparisons of characters in the hypotheses moved to the goal. *)
Ltac case_match_eqb := match goal with |- context [?x =? ?y] => destruct (Z.eqb_spec x y) end.

Ltac char_values := unfold is_eof, MP_LEXER_EOF, MP_READER_EOF, NEWLINE, CR in *.

Lemma readbyte_rest r : Forall is_byte r ->
  (fst (readbyte r) = MP_LEXER_EOF -> length (snd (readbyte r)) = 0)%nat /\
  (fst (readbyte r) <> MP_LEXER_EOF -> length (snd (readbyte r)) < length r)%nat /\
  (length (snd (readbyte r)) <= length r)%nat.
Proof.
  destruct r as [|b r]; cbn; [done|]. intros [Hb _]%Forall_cons_1. split_and!; [|lia..].
  intros ->. by apply byte_not_eof in Hb.
Qed.

Lemma next_queue_rest c0 c1 c2 r : queue_ok c0 c1 c2 r -> Forall is_byte r ->
  let '(d0, d1, d2, s) := next_queue c0 c1 c2 r in
  (queue_rest d0 d1 d2 s <= queue_rest c0 c1 c2 r)%nat /\
  (is_eof c0 = false -> (queue_rest d0 d1 d2 s < queue_rest c0 c1 c2 r)%nat).
Proof.
  intros (Q0 & Q1 & Q2) Hr. unfold queue_rest, next_queue, present.
  destruct r as [|b r].
  - char_values. cbn [length] in *. char_cases; lia.
  - apply Forall_cons_1 in Hr as [Hb Hr]. unfold is_byte in Hb.
    pose proof (readbyte_rest r Hr) as (R1 & R2 & R3). destruct (readbyte r) as [x r']. cbn [fst snd] in *.
    char_values. cbn [length] in *. char_cases; lia.
Qed.

Lemma next_queue_ok c0 c1 c2 r : queue_ok c0 c1 c2 r -> Forall is_byte r ->
  let '(d0, d1, d2, s) := next_queue c0 c1 c2 r in queue_ok d0 d1 d2 s /\ Forall is_byte s.
Proof.
  intros (Q0 & Q1 & Q2) Hr. unfold queue_ok, next_queue. destruct r as [|b r].
  - char_values. char_cases; (split; [lia|done]).
  - apply Forall_cons_1 in Hr as [Hb Hr]. pose proof (readbyte_rest r Hr) as (R1 & R2 & R3).
    assert (Forall is_byte (snd (readbyte r))) as Hr' by (destruct Hr; [done|by cbn]).
    destruct (readbyte r) as [x r']. cbn [fst snd] in *. unfold is_byte in Hb.
    char_values. cbn [length] in *. char_cases; (split; [lia|done]).
Qed.

Lemma next_queue_chars c0 c1 c2 r : char_ok c1 -> char_ok c2 -> Forall is_byte r ->
  let '(d0, d1, d2, s) := next_queue c0 c1 c2 r in char_ok d0 /\ char_ok d1 /\ char_ok d2.
Proof.
  intros H1 H2 Hr. assert (char_ok NEWLINE) by (by left). assert (char_ok MP_LEXER_EOF) by (by right).
  unfold next_queue. destruct r as [|b r].
  - by destruct (c2 =? CR), (is_eof c2 || (c2 =? NEWLINE)).
  - apply Forall_cons_1 in Hr as [Hb Hr]. assert (char_ok b) by (by left).
    destruct (c2 =? CR), (b =? NEWLINE); try done. destruct r as [|d r]; [done|]. apply Forall_cons_1 in Hr as [Hd _].
    split_and!; [done|done|by left].
Qed.

Lemma next_queue_calm c0 c1 c2 r : calm (c0 :: c1 :: c2 :: r) -> calm (queue_chars (next_queue c0 c1 c2 r)).
Proof.
  intros Hc%calm_tail. assert (forall a, calm [a; NEWLINE; MP_LEXER_EOF]) as Hnl.
  { intros a. repeat split; try done; intros [? [?|?]]; done. }
  assert (forall a b, calm (a :: NEWLINE :: b) <-> calm b) as Hmid.
  { intros a b. split; [by intros ?%calm_tail%calm_tail|]. intros Hb. split; [by intros [_ [?|?]]|]. by apply not_f_calm. }
  unfold next_queue. destruct r as [|b r].
  - destruct (c2 =? CR), (is_eof c2 || (c2 =? NEWLINE)); cbn [queue_chars]; [by apply Hmid..| |].
    + destruct Hc as [Hf _]. split; [done|]. split; [|done]. by intros [_ [?|?]].
    + destruct Hc as [Hf _]. split; [done|]. split; [|done]. by intros [_ [?|?]].
  - destruct (c2 =? CR), (b =? NEWLINE); cbn [queue_chars].
    + apply Hmid. do 3 apply calm_tail in Hc. destruct r as [|d r]; [done|exact Hc].
    + apply Hmid. by do 2 apply calm_tail in Hc.
    + done.
    + done.
Qed.

Lemma next_queue_newlines c0 c1 c2 r : c1 <> CR ->
  let '(d0, d1, d2, s) := next_queue c0 c1 c2 r in d0 <> CR /\ d1 <> CR.
Proof.
  intros H1. unfold next_queue. destruct r as [|b r].
  - destruct (Z.eqb_spec c2 CR); [done|]. by destruct (_ || _).
  - destruct (Z.eqb_spec c2 CR); [by destruct (b =? NEWLINE)|done].
Qed.

Lemma next_queue_well c0 c1 c2 r : queue_well c0 c1 c2 r ->
  let '(d0, d1, d2, s) := next_queue c0 c1 c2 r in queue_well d0 d1 d2 s.
Proof.
  intros [Hq Hr (_ & H1 & H2) [_ Hn]]. pose proof (next_queue_ok _ _ _ _ Hq Hr) as Hok.
  pose proof (next_queue_chars c0 _ _ _ H1 H2 Hr) as Hch. pose proof (next_queue_newlines c0 _ c2 r Hn) as Hnl.
  destruct (next_queue c0 c1 c2 r) as [[[d0 d1] d2] s]. destruct Hok. by split.
Qed.

Lemma next_source i : source_ok i ->
  source_ok (next_char i) /\ fstring_args (next_char i) = fstring_args i /\
  (rest (next_char i) + (if is_end i then 0 else 16) <= rest i)%nat /\ (quiet i -> quiet (next_char i)).
Proof.
  intros [Hi Hq Ha Hs]. pose proof Hq as [Hqo Hr _ _]. destruct (next_source_queue i Hi Hr) as (E & Ea & Ei).
  pose proof (next_queue_well _ _ _ _ Hq) as Hw. pose proof (next_queue_rest _ _ _ _ Hqo Hr) as Hrest.
  pose proof (next_queue_calm (chr0 i) (chr1 i) (chr2 i) (reader i)) as Hca.
  rewrite <- E in *. cbn [queue_chars] in Hca. split_and!; [by split; rewrite ?Ea|done| |].
  - unfold rest. rewrite Ei, Hi, Ea. cbn [Z.eqb]. unfold is_end. fold (is_eof (chr0 i)).
    destruct Hrest as [Hle Hlt]. destruct (is_eof (chr0 i)); [lia|]. specialize (Hlt eq_refl). lia.
  - intros (_ & Eargs & Hc). unfold quiet. rewrite Ei, Ea. auto.
Qed.

(** The queue of the arguments after a character. *)
Lemma next_injection_chars i : injection_ok i ->
  let idx := fstring_args_idx i in
  let more := idx <? Z.of_nat (length (fstring_args i)) in
  if chr1 i =? 0 then
    chr0 (next_char i) = chr0_saved i /\ chr1 (next_char i) = chr1_saved i /\ chr2 (next_char i) = chr2_saved i /\
    reader (next_char i) = reader i /\ fstring_args (next_char i) = [] /\ fstring_args_idx (next_char i) = 0
  else
    chr0 (next_char i) = chr1 i /\ chr1 (next_char i) = chr2 i /\
    chr2 (next_char i) = (if more then default 0 (fstring_args i !! Z.to_nat idx) else 0) /\
    reader (next_char i) = reader i /\ fstring_args (next_char i) = fstring_args i /\
    fstring_args_idx (next_char i) = (if more then idx + 1 else idx) /\
    (chr0_saved (next_char i), chr1_saved (next_char i), chr2_saved (next_char i)) = (chr0_saved i, chr1_saved i, chr2_saved i).
Proof.
  intros [Hi Hq (H0 & H1 & H2) Ha _]. pose proof Hq as [(_ & Q1 & Q2) _ _ [_ Hn]].
  destruct i as [c0 c1 c2 s0 s1 s2 ln col r args idx]. cbn in *.
  unfold next_char. destruct (next_position _) as [ln' col']. unfold shift. cbn.
  rewrite (proj2 (Z.eqb_neq idx 0)) by lia. cbn [negb]. destruct (Z.eqb_spec c1 0).
  - unfold convert_newline. cbn [chr1]. rewrite (proj2 (Z.eqb_neq s1 CR)) by done.
    unfold insert_newline. cbn [chr1 chr2]. destruct (Z.eqb_spec s2 MP_LEXER_EOF) as [E2|]; cbn [andb]; [|done].
    destruct (Q2 E2) as [_ [-> | ->]]; done.
  - unfold convert_newline. cbn [chr1]. rewrite (proj2 (Z.eqb_neq c2 CR)) by (apply H2).
    unfold insert_newline. cbn [chr1 chr2]. set (d := if _ <? _ then _ else 0).
    assert (is_byte d) as Hd.
    { unfold d. destruct (_ <? _); [|done]. destruct (args !! Z.to_nat idx) eqn:El; [|done].
      by apply (Forall_lookup_1 _ _ _ _ Ha El). }
    apply byte_not_eof in Hd. unfold is_eof in Hd. rewrite Hd. done.
Qed.

Lemma next_injection i : injection_ok i -> input_ok (next_char i) /\ (rest (next_char i) < rest i)%nat.
Proof.
  intros Hok. pose proof (next_injection_chars i Hok) as H. destruct Hok as [Hi Hq (H0 & H1 & H2) Ha Hc].
  unfold rest at 2. rewrite (proj2 (Z.eqb_neq (fstring_args_idx i) 0)) by lia. unfold unread. cbn zeta in H.
  destruct (Z.eqb_spec (chr1 i) 0) as [E1|E1].
  { destruct H as (E0 & E1' & E2 & Er & Ea & Ei). split.
    - left. split; [done|by rewrite E0, E1', E2, Er|by rewrite Ea|by left].
    - unfold rest. rewrite Ei, E0, E1', E2, Er, Ea. cbn. lia. }
  destruct H as (E0 & E1' & E2 & Er & Ea & Ei & Es). injection Es as S0 S1 S2.
  assert (fstring_args_idx (next_char i) <> 0) as Hne by (rewrite Ei; destruct (_ <? _); lia).
  split.
  - right. split; [rewrite Ei, Ea; destruct (Z.ltb_spec (fstring_args_idx i) (Z.of_nat (length (fstring_args i)))); lia
      |by rewrite S0, S1, S2, Er| |by rewrite Ea|].
    + rewrite E0, E1', E2. split_and!; try done. destruct (_ <? _); [|done].
      destruct (_ !! _) eqn:El; [|done]. by apply (Forall_lookup_1 _ _ _ _ Ha El).
    + rewrite E0, E1', E2, Ei, Ea. apply calm_tail in Hc.
      destruct (Z.ltb_spec (fstring_args_idx i) (Z.of_nat (length (fstring_args i)))) as [Hlt|Hge].
      * destruct (lookup_lt_is_Some_2 (fstring_args i) (Z.to_nat (fstring_args_idx i))) as [x Hx]; [lia|].
        rewrite Hx. rewrite (drop_S _ _ _ Hx) in Hc. replace (Z.to_nat (_ + 1)) with (S (Z.to_nat (fstring_args_idx i))) by lia. done.
      * rewrite drop_ge in * by lia. destruct Hc as [Hc _]. split; [done|]. split; [|done]. intros [_ [?|?]]; done.
  - unfold rest. rewrite (proj2 (Z.eqb_neq _ _) Hne), S0, S1, S2, Er. unfold unread. rewrite E1', E2, Ei, Ea.
    destruct (Z.eqb_spec (chr2 i) 0); [lia|].
    destruct (Z.ltb_spec (fstring_args_idx i) (Z.of_nat (length (fstring_args i)))); [|cbn; lia].
    destruct (_ =? 0); lia.
Qed.

(** * Progress *)

(** Reading goes on in the source once it does, and keeps the arguments. *)
Definition keeps (i j : input) : Prop :=
  (fstring_args_idx i = 0 -> fstring_args_idx j = 0 /\ (fstring_args i <> [] -> fstring_args j <> [])) /\ (quiet i -> quiet j).

(** A queue reached from another by reading. *)
Definition later (i j : input) : Prop := input_ok j /\ (rest j <= rest i)%nat /\ keeps i j.
Definition further (i j : input) : Prop := input_ok j /\ (rest j < rest i)%nat /\ keeps i j.

Lemma keeps_refl i : keeps i i.
Proof. by split. Qed.

Lemma keeps_trans i j k : keeps i j -> keeps j k -> keeps i k.
Proof.
  intros [Hij Qij] [Hjk Qjk]. split; [|by auto]. intros Hi. destruct (Hij Hi) as [Hj ?]. destruct (Hjk Hj). auto.
Qed.

Lemma later_refl i : input_ok i -> later i i.
Proof. split; [done|]. split; [done|apply keeps_refl]. Qed.

Lemma later_trans i j k : later i j -> later j k -> later i k.
Proof. intros (_ & ? & ?) (? & ? & ?). split; [done|]. split; [lia|by eapply keeps_trans]. Qed.

Lemma further_later i j : further i j -> later i j.
Proof. intros (? & ? & ?). split; [done|]. split; [lia|done]. Qed.

Lemma further_trans_l i j k : further i j -> later j k -> further i k.
Proof. intros (_ & ? & ?) (? & ? & ?). split; [done|]. split; [lia|by eapply keeps_trans]. Qed.

Lemma further_trans_r i j k : later i j -> further j k -> further i k.
Proof. intros (_ & ? & ?) (? & ? & ?). split; [done|]. split; [lia|by eapply keeps_trans]. Qed.

Lemma source_input i : input_ok i -> fstring_args_idx i = 0 -> source_ok i.
Proof. intros [?|[? _ _ _ _]]; [done|lia]. Qed.

Lemma next_keeps i : input_ok i -> keeps i (next_char i).
Proof.
  intros Hok. split.
  - intros Hi. destruct (next_source i (source_input i Hok Hi)) as ([? _ _ _] & -> & _). done.
  - intros Hq. destruct (next_source i) as (_ & _ & _ & H); [by apply source_input; [|apply Hq]|auto].
Qed.

Lemma next_later i : input_ok i -> later i (next_char i).
Proof.
  intros Hok. pose proof (next_keeps i Hok). destruct Hok as [Hs|Hj].
  - destruct (next_source i Hs) as (? & _ & ? & _). split; [by left|]. split; [lia|done].
  - destruct (next_injection i Hj) as [? ?]. split; [done|]. split; [lia|done].
Qed.

Lemma next_further i : input_ok i -> is_end i = false -> further i (next_char i).
Proof.
  intros Hok He. pose proof (next_keeps i Hok). destruct Hok as [Hs|Hj].
  - destruct (next_source i Hs) as (? & _ & Hr & _). rewrite He in Hr. split; [by left|]. split; [lia|done].
  - by destruct (next_injection i Hj).
Qed.

Lemma later_input_ok i j : later i j -> input_ok j.
Proof. by intros [? _]. Qed.

Lemma further_input_ok i j : further i j -> input_ok j.
Proof. by intros [? _]. Qed.

Create HintDb lex.
#[export] Hint Resolve later_refl further_later next_later next_further later_input_ok further_input_ok : lex.

(** Nothing remains at the end. *)
Lemma rest_0 i : input_ok i -> rest i = 0%nat -> is_end i = true.
Proof.
  intros [[Hi [(Q0 & Q1 & Q2) _ _ _] _ _]|[Hi _ _ _ _]] Hr; unfold rest in Hr.
  - rewrite Hi in Hr. cbn [Z.eqb] in Hr. unfold queue_rest, present, is_eof, is_end in *.
    destruct (Z.eqb_spec (chr0 i) MP_LEXER_EOF); [done|]. lia.
  - rewrite (proj2 (Z.eqb_neq _ _)) in Hr by lia. unfold unread in Hr. repeat case_match; lia.
Qed.

Lemma rest_positive i : input_ok i -> is_end i = false -> (0 < rest i)%nat.
Proof. intros Hp He. destruct (rest i) eqn:E; [|lia]. by rewrite (rest_0 i Hp E) in He. Qed.

Lemma char_not_end i c : is_char i c = true -> is_byte c -> is_end i = false.
Proof. unfold is_char, is_end. intros ->%Z.eqb_eq Hb. by apply byte_not_eof. Qed.

(** ** White space *)

Lemma skip_comment_ok fuel : forall i, input_ok i -> (rest i <= fuel)%nat ->
  exists j, skip_comment fuel i = Some j /\ later i j.
Proof.
  induction fuel as [|fuel IH]; intros i Hp Hf.
  - exists i. cbn [skip_comment]. rewrite (rest_0 i Hp) by lia. split; [done|auto with lex].
  - cbn [skip_comment]. destruct (is_end i) eqn:He; cbn [negb andb]; [exists i; split; [done|auto with lex]|].
    destruct (is_physical_newline i); cbn [negb]; [exists i; split; [done|auto with lex]|].
    destruct (next_further i Hp He) as [Hp' Hr].
    destruct (IH (next_char i) Hp' ltac:(lia)) as (j & -> & Hj). exists j. split; [done|].
    eapply later_trans; [by apply next_later|done].
Qed.

Lemma skip_whitespace_ok fuel nested stop : forall i, input_ok i -> (rest i <= fuel)%nat ->
  exists b j, skip_whitespace fuel nested stop i = Some (b, j) /\ later i j /\
    (b = true -> stop = true /\ nested = 0 /\ is_physical_newline j = true) /\
    (is_physical_newline i = true -> stop = false -> further i j).
Proof.
  induction fuel as [|fuel IH]; intros i Hp Hf.
  { exists false, i. cbn [skip_whitespace]. rewrite (rest_0 i Hp) by lia. split_and!; [done|auto with lex|done|].
    intros Hn _. unfold is_physical_newline in Hn. apply (char_not_end i) in Hn; [|done].
    by rewrite (rest_0 i Hp) in Hn by lia. }
  assert (forall i', further i i' -> exists b j, skip_whitespace fuel nested stop i' = Some (b, j) /\ later i j /\
    (b = true -> stop = true /\ nested = 0 /\ is_physical_newline j = true) /\
    (is_physical_newline i = true -> stop = false -> further i j)) as Hstep.
  { intros i' [Hp' Hr']. destruct (IH i' Hp' ltac:(lia)) as (b & j & -> & Hl & Hb & _). exists b, j.
    assert (further i j) by (eapply further_trans_l; [|done]; by split). split_and!; auto with lex. }
  cbn [skip_whitespace]. destruct (is_end i) eqn:He.
  { exists false, i. split_and!; [done|auto with lex|done|]. intros Hn _.
    unfold is_physical_newline in Hn. apply (char_not_end i) in Hn; [|done]. congruence. }
  destruct (is_physical_newline i) eqn:Hn; cbn [andb].
  - destruct stop; cbn [andb]; [destruct (Z.eqb_spec nested 0)|].
    + exists true, i. split_and!; auto with lex; done.
    + apply Hstep. auto with lex.
    + apply Hstep. auto with lex.
  - pose proof (next_further i Hp He) as Hfu.
    destruct (is_whitespace i); [by apply Hstep|]. destruct (is_char i "#"%char).
    + pose proof Hfu as [Hp' Hr']. destruct (skip_comment_ok fuel (next_char i) Hp' ltac:(lia)) as (j & -> & Hj).
      cbn [mbind option_bind]. apply Hstep. by eapply further_trans_l.
    + destruct (is_char_and i BACKSLASH NEWLINE).
      * apply Hstep. eapply further_trans_l; [done|]. eauto with lex.
      * exists false, i. split_and!; auto with lex; done.
Qed.

(** ** Literals *)

(** The lexer ends a step with a result of [P] or the exception of a name escape,
    not with a fault. *)
Definition fine {A} (P : A -> Prop) (r : result A) : Prop :=
  exists x, r = Some x /\ match x with inl e => e = NotImplementedError | inr a => P a end.

Lemma fine_ret {A} (P : A -> Prop) a : P a -> fine P (Some (inr a)).
Proof. intros Ha. by exists (inr a). Qed.

Lemma fine_bind {A B} (P : A -> Prop) (Q : B -> Prop) (k : A -> result B) r :
  fine P r -> (forall a, P a -> fine Q (k a)) -> fine Q (rbind k r).
Proof. intros ([e|a] & -> & Hx) Hk; cbn; [by exists (inl e)|by apply Hk]. Qed.

Lemma fine_mono {A} (P Q : A -> Prop) r : fine P r -> (forall a, P a -> Q a) -> fine Q r.
Proof. intros ([e|a] & -> & Hx) HPQ; [by exists (inl e)|exists (inr a); split; [done|by apply HPQ]]. Qed.

Lemma get_hex_later n : forall i num, input_ok i -> later i (fst (get_hex i n num)).
Proof.
  induction n as [|n IH]; intros i num Hp; cbn [get_hex]; [cbn; auto with lex|].
  destruct (negb _); cbn [fst]; [auto with lex|].
  eapply later_trans; [by apply next_later|]. apply IH. eauto with lex.
Qed.

Lemma octal_later n : forall i num, input_ok i -> later i (fst (octal_loop n i num)).
Proof.
  induction n as [|n IH]; intros i num Hp; cbn [octal_loop]; [cbn; auto with lex|].
  destruct (is_following_odigit i); cbn [fst]; [|auto with lex].
  eapply later_trans; [by apply next_later|]. apply IH. eauto with lex.
Qed.

Lemma hex_escape_later s c : input_ok (l_in s) -> later (l_in s) (l_in (fst (hex_escape s c))).
Proof.
  intros Hp. unfold hex_escape. set (n := if _ =? _ then _ else _). pose proof (get_hex_later n (l_in s) 0 Hp) as H.
  destruct (get_hex _ _ _) as [i [num|]]; exact H.
Qed.

Lemma escape_fine s : input_ok (l_in s) -> fine (fun r => later (l_in s) (l_in (fst r))) (escape s).
Proof.
  intros Hp. unfold escape. destruct (list_find _ _) as [[? [? ?]]|]; [apply fine_ret; auto with lex|].
  pose proof (hex_escape_later s (chr0 (l_in s)) Hp). pose proof (octal_later 2 (l_in s) (chr0 (l_in s) - 48) Hp) as Ho.
  repeat case_match; try (apply fine_ret; cbn; auto with lex; fail).
  by exists (inl NotImplementedError).
Qed.

Lemma vstr_add_char_some c : c < 0x110000 -> exists b, vstr_add_char c = Some b.
Proof.
  intros Hc%Z.ltb_lt. unfold vstr_add_char. rewrite Hc.
  destruct (c <? 0x80), (c <? 0x800), (c <? 0x10000); eexists; reflexivity.
Qed.

Lemma add_escaped_fine s c : fine (fun r => l_in r = l_in s) (add_escaped s c).
Proof.
  unfold add_escaped. destruct (c =? MP_LEXER_EOF); [by apply fine_ret|].
  destruct (c <? 0x110000) eqn:Hc; cbn [andb].
  - destruct (bool_decide _).
    + apply Z.ltb_lt in Hc. destruct (vstr_add_char_some c Hc) as [b ->]. by apply fine_ret.
    + destruct (_ && _); by apply fine_ret.
  - destruct (_ && _); by apply fine_ret.
Qed.

(** A character of a literal: with the next one, something is read. *)
Lemma literal_char_fine is_raw s : input_ok (l_in s) ->
  fine (fun r => later (l_in s) (l_in r) /\ (is_end (l_in s) = false -> further (l_in s) (next_char (l_in r))))
    (literal_char is_raw s).
Proof.
  intros Hp. unfold literal_char. destruct (is_char (l_in s) BACKSLASH) eqn:Hb.
  - apply (char_not_end _ BACKSLASH) in Hb; [|done]. pose proof (next_further _ Hp Hb) as Hf.
    eapply (fine_bind (fun r => later (next_char (l_in s)) (l_in (fst r)))).
    + destruct is_raw; [apply fine_ret; cbn; eauto with lex|]. apply (escape_fine (advance s)). eauto with lex.
    + intros [r c] Hr. eapply fine_mono; [apply add_escaped_fine|]. cbn [fst snd]. intros a ->. cbn in Hr.
      pose proof (further_trans_l _ _ _ Hf Hr) as Hf'. split; [auto with lex|]. intros _.
      eapply further_trans_l; [done|]. eauto with lex.
  - apply fine_ret. cbn. split; auto with lex.
Qed.

(** *** Format strings *)

(** The literal is read from the source, and its arguments have been started. *)
Definition formatting (i : input) : Prop := fstring_args_idx i = 0 /\ fstring_args i <> [].

Lemma formatting_source i : input_ok i -> formatting i -> source_ok i /\ (8 <= length (fstring_args i))%nat.
Proof. intros Hok [Hi Ha]. pose proof (source_input i Hok Hi) as Hs. split; [done|]. by destruct (source_size i Hs). Qed.

Lemma keeps_formatting i j : keeps i j -> formatting i -> formatting j.
Proof. intros [H _] [Hi Ha]. destruct (H Hi). split; auto. Qed.

Lemma later_formatting i j : later i j -> formatting i -> formatting j.
Proof. intros (_ & _ & H). by apply keeps_formatting. Qed.

(** Reading with arguments pending is not quiet. *)
Lemma formatting_keeps i j : formatting i -> formatting j -> keeps i j.
Proof. intros [? Ha] [? ?]. split; [done|]. by intros (_ & ? & _). Qed.

Lemma rest_formatting i : formatting i ->
  rest i = (16 * queue_rest (chr0 i) (chr1 i) (chr2 i) (reader i) + length (fstring_args i) + 5)%nat.
Proof.
  intros [Hi Ha]. unfold rest, args_weight. rewrite Hi. cbn [Z.eqb]. destruct (fstring_args i); [done|]. cbn. lia.
Qed.

Lemma set_args_ok i args : source_ok i -> Forall arg_byte args -> (8 <= length args)%nat ->
  input_ok (set_args i args) /\ formatting (set_args i args) /\
  rest (set_args i args) = (16 * queue_rest (chr0 i) (chr1 i) (chr2 i) (reader i) + length args + 5)%nat.
Proof.
  intros [Hi Hq _ _] Ha Hl. assert (formatting (set_args i args)) as Hf by (split; [done|]; cbn; by destruct args; [cbn in Hl; lia|]).
  split; [left; split; auto|]. split; [done|]. by rewrite rest_formatting.
Qed.

Lemma next_formatting i : input_ok i -> formatting i ->
  input_ok (next_char i) /\ formatting (next_char i) /\ fstring_args (next_char i) = fstring_args i /\
  (rest (next_char i) + (if is_end i then 0 else 16) <= rest i)%nat.
Proof.
  intros Hok Hf. destruct (formatting_source i Hok Hf) as [Hs _]. destruct (next_source i Hs) as (Hs' & Ea & Hr & _).
  split_and!; [by left| |done|done]. split; [apply Hs'|rewrite Ea; apply Hf].
Qed.

Lemma byte_wrapu c : is_byte c -> wrapu 8 c = c.
Proof. intros Hc. apply wrapu_small. exact Hc. Qed.

Lemma chr0_arg i : source_ok i -> is_end i = false -> arg_byte (wrapu 8 (chr0 i)).
Proof.
  intros [_ [_ _ ([Hb|He] & _) [Hn _]] _ _] Hend; [by rewrite byte_wrapu|]. unfold is_end in Hend. by rewrite He in Hend.
Qed.

Lemma argument_loop_ok fuel : forall i level, input_ok i -> formatting i -> (rest i <= fuel)%nat ->
  exists j, argument_loop fuel i level = Some j /\ input_ok j /\ formatting j /\ (rest j <= rest i)%nat /\
    (length (fstring_args i) <= length (fstring_args j))%nat.
Proof.
  induction fuel as [|fuel IH]; intros i level Hok Hf Hr.
  { rewrite rest_formatting in Hr by done. lia. }
  cbn [argument_loop]. destruct (in_argument i level) eqn:Ei; [|by exists i].
  assert (is_end i = false) as He by (unfold in_argument in Ei; by destruct (is_end i)).
  destruct (formatting_source i Hok Hf) as [Hs Hl]. set (c := wrapu 8 (chr0 i)). set (lv := if _ || _ then _ else _).
  destruct (set_args_ok i (fstring_args i ++ [c]) Hs) as (Hok1 & Hf1 & Hr1).
  { apply Forall_app. split; [apply Hs|]. by repeat constructor; apply chr0_arg. }
  { rewrite length_app. lia. }
  destruct (next_formatting _ Hok1 Hf1) as (Hok2 & Hf2 & Ea2 & Hr2). change (is_end (set_args i _)) with (is_end i) in Hr2.
  rewrite He in Hr2. rewrite length_app in Hr1. cbn [length] in Hr1. pose proof (rest_formatting i Hf) as Hri.
  destruct (IH (next_char (add_args i [c])) lv Hok2 Hf2) as (j & -> & Hokj & Hfj & Hrj & Hlj); [unfold add_args; lia|].
  exists j. split_and!; try done; unfold add_args in *; [lia|]. rewrite Ea2 in Hlj. cbn in Hlj. rewrite length_app in Hlj. lia.
Qed.

Lemma close_argument_fine s i0 : input_ok (l_in s) -> formatting (l_in s) -> (8 <= i0 <= length (fstring_args (l_in s)))%nat ->
  fine (fun r => input_ok (l_in r) /\ formatting (l_in r) /\ (rest (l_in r) <= rest (l_in s) + 2)%nat) (close_argument s i0).
Proof.
  intros Hok Hf Hl. destruct (formatting_source _ Hok Hf) as [Hs _]. unfold close_argument.
  set (args := fstring_args (l_in s)) in *. destruct (list.last args) as [c|] eqn:El.
  2:{ apply last_None in El. rewrite El in Hl. cbn in Hl. lia. }
  assert (forall kept, Forall arg_byte kept -> (length args - 1 <= length kept <= length args)%nat ->
    input_ok (set_args (l_in s) (kept ++ bytes "),")) /\ formatting (set_args (l_in s) (kept ++ bytes "),")) /\
    (rest (set_args (l_in s) (kept ++ bytes "),")) <= rest (l_in s) + 2)%nat) as Hset.
  { intros kept Hk Hlk. destruct (set_args_ok (l_in s) (kept ++ bytes "),") Hs) as (? & ? & Hr).
    - apply Forall_app. split; [done|]. by repeat constructor.
    - rewrite length_app. cbn. lia.
    - split_and!; [done..|]. rewrite Hr, rest_formatting, length_app by done. fold args. cbn. lia. }
  pose proof (source_args _ Hs) as Ha. fold args in Ha.
  destruct (c =? "="%char); cbn [andb].
  - rewrite (proj2 (Nat.ltb_ge _ _)) by lia. apply fine_ret, Hset; [by apply Forall_take|]. rewrite length_take. lia.
  - apply fine_ret, Hset; [done|lia].
Qed.

(** A brace of the text is read with its argument. *)
Lemma brace_loop_fine fuel : forall s, input_ok (l_in s) -> formatting (l_in s) -> (rest (l_in s) <= S fuel)%nat ->
  fine (fun r => l_in r = l_in s \/ further (l_in s) (l_in r)) (brace_loop fuel true s).
Proof.
  induction fuel as [|fuel IH]; intros s Hok Hf Hr.
  { rewrite rest_formatting in Hr by done. lia. }
  cbn [brace_loop andb]. destruct (is_char (l_in s) "{"%char) eqn:Hb; [|apply fine_ret; by left].
  apply (char_not_end _ (chr "{")) in Hb; [|done].
  destruct (next_formatting _ Hok Hf) as (Hok1 & Hf1 & Ea1 & Hr1). rewrite Hb in Hr1.
  change (l_in (advance s)) with (next_char (l_in s)). set (i1 := next_char (l_in s)) in *.
  destruct (formatting_source _ Hok1 Hf1) as [Hs1 Hl1].
  eapply (fine_bind (fun r => further (l_in s) (l_in r))).
  - destruct (is_char i1 "{"%char).
    { apply fine_ret. cbn. eapply (further_trans_l _ i1); [|by apply next_later].
      split; [done|]. split; [lia|by apply formatting_keeps]. }
    destruct (set_args_ok i1 (fstring_args i1 ++ bytes "(") Hs1) as (Hok2 & Hf2 & Hr2).
    { apply Forall_app. split; [apply Hs1|]. by repeat constructor. }
    { rewrite length_app. lia. }
    rewrite length_app in Hr2. rewrite (rest_formatting i1) in Hr1 by done. change (length (bytes "(")) with 1%nat in Hr2.
    destruct (argument_loop_ok fuel (add_args i1 (bytes "(")) 0 Hok2 Hf2) as (j & -> & Hokj & Hfj & Hrj & Hlj); [unfold add_args; lia|].
    eapply fine_mono; [apply close_argument_fine; cbn; [done|done|]|].
    + cbn in Hlj |- *. rewrite length_app in *. cbn in Hlj |- *. lia.
    + cbn. intros r (Hokr & Hfr & Hrr). unfold add_args in Hrj. split; [done|]. split; [lia|by apply formatting_keeps].
  - intros r Hfu. eapply fine_mono.
    + apply IH; cbn; [eauto with lex|by eapply later_formatting; [apply further_later|]|destruct Hfu; lia].
    + cbn. intros r' [->|Hfu']; right; [done|]. eapply further_trans_l; [done|]. by apply further_later.
Qed.

Lemma literal_loop_fine fuel is_raw is_fstring q nq : forall nc s, input_ok (l_in s) ->
  (is_fstring = true -> formatting (l_in s)) -> (rest (l_in s) <= fuel)%nat ->
  fine (fun r => later (l_in s) (l_in (fst r))) (literal_loop fuel is_raw is_fstring q nq nc s).
Proof.
  induction fuel as [|fuel IH]; intros nc s Hp Hfs Hf; cbn [literal_loop].
  { rewrite (rest_0 _ Hp) by lia. cbn. apply fine_ret. cbn. auto with lex. }
  destruct (is_end (l_in s)) eqn:He; cbn [negb andb]; [apply fine_ret; cbn; auto with lex|].
  destruct (_ && _); [|apply fine_ret; cbn; auto with lex].
  assert (forall nc (s' : literal), further (l_in s) (l_in s') ->
    fine (fun r => later (l_in s) (l_in (fst r))) (literal_loop fuel is_raw is_fstring q nq nc s')) as Hgo.
  { intros nc' s' Hfu. eapply fine_mono; [apply IH|].
    - eauto with lex.
    - intros Ht. eapply later_formatting; [by apply further_later|auto].
    - destruct Hfu; lia.
    - cbn. intros r Hl. eapply later_trans; [by apply further_later|done]. }
  destruct (is_char (l_in s) q); [apply Hgo; cbn; by apply next_further|].
  eapply (fine_bind (fun r => l_in r = l_in s \/ further (l_in s) (l_in r))).
  { destruct is_fstring; [by apply brace_loop_fine; auto|].
    assert (brace_loop fuel false s = Some (inr s)) as -> by (by destruct fuel). apply fine_ret. by left. }
  intros r Hr. eapply fine_bind; [apply literal_char_fine; destruct Hr as [-> | ?]; eauto with lex|].
  intros r' [Hl Hr']. apply Hgo. cbn. destruct Hr as [Er|Hfu]; [rewrite Er in *; auto|].
  eapply further_trans_l; [done|]. eapply later_trans; [done|]. eauto with lex.
Qed.

Lemma parse_string_literal_fine fuel i s is_raw is_fstring : later i (l_in s) -> is_end (l_in s) = false ->
  (is_fstring = true -> fstring_args_idx (l_in s) = 0 /\ ~ quiet i) -> (rest i <= fuel)%nat ->
  fine (fun r => further i (l_in r)) (parse_string_literal fuel s is_raw is_fstring).
Proof.
  intros Hi He Hfs Hf. pose proof (later_input_ok _ _ Hi) as Hp. unfold parse_string_literal. set (q := if is_char _ _ then _ else _).
  pose proof (next_further _ Hp He) as Hfu. set (s1 := advance s).
  set (s2 := if is_char_and (l_in s1) q q then advance (advance s1) else s1).
  assert (later (l_in s1) (l_in s2)) as L2.
  { unfold s2. destruct (is_char_and _ _ _); [|apply later_refl; cbn; eauto with lex]. cbn.
    eapply later_trans; [apply next_later; cbn; eauto with lex|]. apply next_later. eauto with lex. }
  set (s3 := if is_fstring then _ else s2).
  assert (further i (l_in s3) /\ (is_fstring = true -> formatting (l_in s3))) as [Hs3 Hf3].
  { pose proof (further_trans_l _ _ _ Hfu L2) as Hs2. unfold s3. destruct is_fstring; [|split; [|done]; by eapply further_trans_r].
    cbn [l_in at_input]. destruct (Hfs eq_refl) as [Hi0 Hnq]. destruct (next_source _ (source_input _ Hp Hi0)) as (_ & _ & Hr & _).
    rewrite He in Hr. cbn in Hr. destruct Hs2 as (Hok2 & Hr2 & [K2 _]). destruct (K2 Hi0) as [Hi2 Ha2].
    destruct L2 as (_ & Hr12 & _). change (l_in s1) with (next_char (l_in s)) in Hr12.
    pose proof (source_input _ Hok2 Hi2) as Hsrc. set (a := fstring_args (l_in s2)) in *.
    destruct (set_args_ok (l_in s2) (a ++ bytes ".format(") Hsrc) as (Hok3 & Hf3 & Hr3).
    { apply Forall_app. split; [apply Hsrc|]. by repeat constructor. }
    { rewrite length_app. cbn. lia. }
    split; [|done]. split; [done|]. split; [|split; [intros _; split; [apply Hf3|intros _; apply Hf3]|done]].
    destruct Hi as (_ & Hri & _). unfold add_args. fold a. rewrite Hr3, length_app. unfold rest in Hr12 at 1. rewrite Hi2 in Hr12. cbn [Z.eqb] in Hr12.
    fold a in Hr12. unfold args_weight in Hr12. change (length (bytes ".format(")) with 8%nat. destruct (_ =? _)%nat eqn:El; [apply Nat.eqb_eq in El|]; clear -El Hr12 Hr Hri; lia. }
  eapply fine_bind; [apply literal_loop_fine; [eauto with lex|done|destruct Hs3; lia]|].
  intros [r n] Hr. cbn in Hr. apply fine_ret. cbn. pose proof (further_trans_l _ _ _ Hs3 Hr). by destruct (_ <? _).
Qed.

(** The literals that are format strings start in the source, which is not quiet. *)
Lemma literal_prefix_fstring i kind raw n :
  input_ok i -> is_string_or_bytes i = true -> literal_prefix i = Some (kind, raw, true, n) ->
  fstring_args_idx i = 0 /\ ~ quiet i.
Proof.
  intros Hp Hs Hl. assert (fquote (chr0 i) (chr1 i)) as Hfq.
  { unfold literal_prefix, is_char, is_char_following in Hl.
    destruct (chr0 i =? "u"%char); [congruence|]. destruct (chr0 i =? "b"%char); [destruct (_ =? _); congruence|].
    destruct (Z.eqb_spec (chr0 i) "r"%char) as [E|Er]; [repeat case_match; congruence|].
    destruct (Z.eqb_spec (chr0 i) "f"%char) as [E|]; [|congruence].
    destruct (Z.eqb_spec (chr1 i) "r"%char) as [|Hr]; [congruence|]. split; [done|].
    unfold is_string_or_bytes, is_char_or, is_char_or4, is_char, is_char_and, is_char_following_or in Hs. rewrite E in Hs.
    destruct (Z.eqb_spec (chr1 i) QUOTE), (Z.eqb_spec (chr1 i) DQUOTE); try tauto.
    destruct (Z.eqb_spec (chr1 i) "r"%char); [done|]. by cbn in Hs. }
  split; [|intros (_ & _ & [Hc _]); auto]. destruct Hp as [[? _ _ _]|[_ _ _ _ [Hc _]]]; [done|]. tauto.
Qed.

Lemma iter_advance_later n s : input_ok (l_in s) -> later (l_in s) (l_in (Nat.iter n advance s)).
Proof.
  intros Hp. induction n as [|n IH]; cbn [Nat.iter nat_rect]; [auto with lex|].
  eapply later_trans; [exact IH|]. apply next_later. eauto with lex.
Qed.

Lemma chr0_next i : input_ok i -> fstring_args_idx i = 0 \/ chr1 i <> 0 -> chr0 (next_char i) = chr1 i.
Proof.
  intros Hok Hc. destruct (Z.eq_dec (fstring_args_idx i) 0) as [Hi|Hi].
  - destruct (source_input i Hok Hi) as [_ [_ Hr _ _] _ _].
    destruct (next_source_queue i Hi Hr) as [E _]. unfold next_queue in E. repeat case_match; congruence.
  - destruct Hok as [[? _ _ _]|Hok]; [done|]. pose proof (next_injection_chars i Hok) as H. cbn zeta in H.
    rewrite (proj2 (Z.eqb_neq (chr1 i) 0)) in H by tauto. by destruct H as [? _].
Qed.

Lemma chr1_next i : input_ok i -> fstring_args_idx i = 0 \/ chr1 i <> 0 -> chr2 i <> CR -> chr1 (next_char i) = chr2 i.
Proof.
  intros Hok Hc Hcr. destruct (Z.eq_dec (fstring_args_idx i) 0) as [Hi|Hi].
  - apply Z.eqb_neq in Hcr. destruct (source_input i Hok Hi) as [_ [_ Hr _ _] _ _].
    destruct (next_source_queue i Hi Hr) as [E _]. unfold next_queue in E. rewrite Hcr in E. repeat case_match; congruence.
  - destruct Hok as [[? _ _ _]|Hok]; [done|]. pose proof (next_injection_chars i Hok) as H. cbn zeta in H.
    rewrite (proj2 (Z.eqb_neq (chr1 i) 0)) in H by tauto. by destruct H as [_ [? _]].
Qed.

Lemma next_source_idx i : input_ok i -> fstring_args_idx i = 0 -> fstring_args_idx (next_char i) = 0.
Proof. intros Hok Hi. destruct (next_keeps i Hok) as [H _]. by destruct (H Hi). Qed.
#[export] Hint Resolve next_source_idx : lex.

(** The characters of a prefix and the quote after it. *)
Lemma prefix_quote i kind raw fstr n :
  input_ok i -> is_string_or_bytes i = true -> literal_prefix i = Some (kind, raw, fstr, n) ->
  forall m, (m <= n)%nat -> is_end (Nat.iter m next_char i) = false.
Proof.
  intros Hp Hs Hl. unfold is_string_or_bytes, is_char_or, is_char_or4, is_char_and, is_char_following_or,
    is_char_following_following_or, is_char in Hs. unfold literal_prefix, is_char, is_char_following in Hl.
  assert (forall m, (m <= n)%nat -> let c := match m with 0%nat => chr0 i | 1%nat => chr1 i | _ => chr2 i end in
    c <> MP_LEXER_EOF /\ c <> 0 /\ (n <= 2)%nat /\ (n = 2%nat -> chr2 i <> CR)) as H.
  { char_consts. revert Hs Hl. repeat (case_match_eqb; cbn [orb andb]); intros Hs Hl; try discriminate Hs; try discriminate Hl;
      injection Hl as <- <- <- <-; intros [|[|m]] Hm; cbn zeta; try lia. }
  intros m Hm. destruct (H m Hm) as (Hne & _ & Hn & Hcr). unfold is_end. apply Z.eqb_neq.
  destruct m as [|[|[|m]]]; cbn [Nat.iter nat_rect].
  - done.
  - destruct (H 1%nat Hm) as (_ & ? & _). by rewrite chr0_next by auto.
  - destruct (H 1%nat ltac:(lia)) as (_ & H1 & _). destruct (H 2%nat Hm) as (_ & H2 & _).
    rewrite chr0_next; rewrite ?chr1_next; eauto with lex. all: apply Hcr; lia.
  - lia.
Qed.

Lemma strings_loop_fine fuel nested : forall s, input_ok (l_in s) -> is_string_or_bytes (l_in s) = true ->
  (rest (l_in s) < fuel)%nat ->
  fine (fun r => later (l_in s) (l_in r) /\
    (l_kind s = MP_TOKEN_END -> l_kind r = MP_TOKEN_FSTRING_RAW \/ further (l_in s) (l_in r)))
    (strings_loop fuel nested s).
Proof.
  induction fuel as [|fuel IH]; intros s Hp Hs Hf; [lia|]. cbn [strings_loop].
  destruct (literal_prefix (l_in s)) as [[[[kind raw] fstr] n]|] eqn:El.
  2:{ apply fine_ret. cbn. split; [auto with lex|by left]. }
  case_match eqn:Ek.
  { apply fine_ret. split; [auto with lex|]. intros E. rewrite E in Ek. by rewrite bool_decide_false in Ek by tauto. }
  set (s1 := if decide (l_kind s = MP_TOKEN_END) then _ else s).
  assert (l_in s1 = l_in s) as E1 by (unfold s1; by case_match).
  set (s2 := Nat.iter n advance s1).
  assert (later (l_in s) (l_in s2)) as L2 by (rewrite <- E1; apply iter_advance_later; by rewrite E1).
  assert (fstr = true -> fstring_args_idx (l_in s2) = 0 /\ ~ quiet (l_in s)) as Hfs.
  { intros ->. destruct (literal_prefix_fstring _ _ _ _ Hp Hs El) as [Hi Hq]. split; [|done].
    destruct L2 as (_ & _ & [K _]). by destruct (K Hi). }
  assert (is_end (l_in s2) = false) as He2.
  { assert (forall m, l_in (Nat.iter m advance s1) = Nat.iter m next_char (l_in s)) as Ei.
    { induction m as [|m IHm]; [done|]. change (next_char (l_in (Nat.iter m advance s1)) = next_char (Nat.iter m next_char (l_in s))).
      by rewrite IHm. }
    unfold s2. rewrite Ei. by eapply prefix_quote. }
  eapply fine_bind; [apply (parse_string_literal_fine fuel (l_in s)); [done|done|done|lia]|].
  intros s3 Hfu. cbn beta in Hfu.
  destruct (skip_whitespace_ok fuel nested true (l_in s3)) as (b & j & -> & Hj & _); [eauto with lex|destruct Hfu; lia|].
  pose proof (further_trans_l _ _ _ Hfu Hj) as Hfj.
  destruct (is_string_or_bytes j) eqn:Hsj.
  - eapply fine_mono; [apply IH; cbn; [eauto with lex|done|destruct Hfj; lia]|]. cbn. intros r [Hr _].
    pose proof (further_trans_l _ _ _ Hfj Hr). split; auto with lex.
  - apply fine_ret. cbn. split; auto with lex.
Qed.

(** ** Names, numbers and operators *)

Lemma name_tail_ok fuel : forall i text, input_ok i -> (rest i <= fuel)%nat ->
  exists j t, name_tail fuel i text = Some (j, t) /\ later i j.
Proof.
  induction fuel as [|fuel IH]; intros i text Hp Hf; cbn [name_tail].
  { rewrite (rest_0 i Hp) by lia. cbn. exists i, text. auto with lex. }
  destruct (is_end i) eqn:He; cbn [negb andb]; [exists i, text; auto with lex|].
  destruct (is_tail_of_identifier i); [|exists i, text; auto with lex].
  pose proof (next_further i Hp He) as [Hp' Hr].
  destruct (IH (next_char i) (text ++ [wrapu 8 (chr0 i)]) Hp' ltac:(lia)) as (j & t & -> & Hj).
  exists j, t. split; [done|]. eapply later_trans; [by apply next_later|done].
Qed.

Lemma number_tail_ok fuel forced : forall i kind text, input_ok i -> (rest i <= fuel)%nat ->
  exists j k t, number_tail fuel forced i kind text = Some (j, k, t) /\ later i j.
Proof.
  induction fuel as [|fuel IH]; intros i kind text Hp Hf; cbn [number_tail].
  { rewrite (rest_0 i Hp) by lia. exists i, kind, text. auto with lex. }
  destruct (is_end i) eqn:He; [exists i, kind, text; auto with lex|].
  assert (forall i' k t, further i i' -> exists j k' t', number_tail fuel forced i' k t = Some (j, k', t') /\ later i j) as Hstep.
  { intros i' k t Hfu. pose proof Hfu as [Hp' Hr]. destruct (IH i' k t Hp' ltac:(lia)) as (j & k' & t' & -> & Hj). exists j, k', t'.
    split; [done|]. eapply later_trans; [by apply further_later|done]. }
  pose proof (next_further i Hp He) as Hfu.
  assert (further i (next_char (next_char i))) as Hfu2 by (eapply further_trans_l; [done|]; eauto with lex).
  repeat case_match; try (by apply Hstep). exists i, kind, text. auto with lex.
Qed.

Lemma operator_loop_later t : forall k i n, input_ok i -> later i (fst (operator_loop t k i n)).
Proof.
  induction t as [t IH] using (induction_ltof1 _ (@List.length Z)). unfold ltof in IH.
  intros k i n Hp. destruct t as [|x [|y t]]; cbn [operator_loop fst]; [auto with lex..|].
  assert (length t < length (x :: y :: t))%nat by (cbn; lia).
  repeat case_match; cbn [fst]; auto with lex.
  eapply later_trans; [by apply next_later|]. apply IH; eauto with lex.
Qed.

Lemma operator_further i : input_ok i -> is_end i = false -> further i (fst (operator i)).
Proof.
  intros Hp He. unfold operator. destruct (find_operator _ _ _) as [t k].
  pose proof (next_further i Hp He) as Hf. set (j := next_char i) in *.
  assert (further i (next_char j)) as Hf2 by (eapply further_trans_l; [done|]; eauto with lex).
  assert (further i (next_char (next_char j))) as Hf3 by (eapply further_trans_l; [done|]; eauto with lex).
  destruct t as [|x t]; [done|]. pose proof (operator_loop_later t k j k ltac:(eauto with lex)) as Hl.
  destruct (x =? "!"%char); [by destruct (is_char j "="%char)|].
  destruct (x =? "."%char); [by destruct (is_char_and j "."%char "."%char)|].
  destruct (operator_loop t k j k). cbn [fst] in *. by apply (further_trans_l i j).
Qed.

(** * Indentation *)

(** The stack of levels keeps its sentinel and fits its array. *)
Record indents_ok (d : indents) : Prop := {
  indents_sentinel : list.last (indent_level d) = Some 0;
  indents_room : num_indent_level d <= alloc_indent_level d;
  indents_words : Forall (fun l => 0 <= l < 2 ^ 16) (indent_level d);
}.

Lemma dedent_loop_ok levels s : list.last levels = Some 0 -> 0 <= s ->
  exists n, dedent_loop levels s = Some (drop n levels, Z.of_nat n) /\ (n < length levels)%nat /\
    list.last (drop n levels) = Some 0.
Proof.
  intros Hl Hs. induction levels as [|top below IH]; [done|]. cbn [dedent_loop].
  destruct (Z.ltb_spec s top) as [Hlt|Hge].
  - destruct below as [|b below]; [injection Hl as ->; lia|].
    destruct IH as (n & -> & Hn & Hd); [done|]. exists (S n). cbn [mbind option_bind]. split_and!; [|cbn in *; lia|done].
    do 2 f_equal. lia.
  - exists 0%nat. split_and!; [done|cbn; lia|done].
Qed.

Lemma indent_push_ok d s : indents_ok d -> 0 <= s -> indents_ok (indent_push d s).
Proof.
  intros [Hs Hr Hw] H0. split.
  - cbn. destruct (indent_level d) eqn:E; [done|exact Hs].
  - unfold indent_push, num_indent_level, MICROPY_ALLOC_LEXEL_INDENT_INC in *. cbn.
    rewrite Z.geb_leb. destruct (Z.leb_spec (alloc_indent_level d) (Z.of_nat (length (indent_level d)))); lia.
  - constructor; [apply wrapu_range; done|done].
Qed.

Lemma newline_token_ok lex i : indents_ok (indentation lex) -> emit_dent lex = 0 ->
  exists lex', newline_token lex i = Some lex' /\ lex_in lex' = i /\ indents_ok (indentation lex') /\
    num_indent_level (indentation lex') - num_indent_level (indentation lex) = emit_dent lex' /\ emit_dent lex' <= 1 /\
    tok_kind lex' <> MP_TOKEN_INDENT /\ tok_kind lex' <> MP_TOKEN_DEDENT.
Proof.
  intros Hd He. unfold newline_token, indent_top. set (s := wrapu 32 _).
  assert (0 <= s) by (apply wrapu_range; done). pose proof Hd as [Hs Hr Hw].
  destruct (indent_level (indentation lex)) as [|top below] eqn:El; [done|]. cbn [head mbind option_bind].
  rewrite He, Z.gtb_ltb. destruct (Z.eqb_spec s top) as [|Hne]; [|destruct (Z.ltb_spec top s)].
  - eexists. split; [done|]. cbn. split_and!; try done. lia.
  - eexists. split; [done|]. cbn [lex_in indentation emit_dent tok_kind]. split_and!; try done; [by apply indent_push_ok|].
    unfold num_indent_level. cbn. lia.
  - destruct (dedent_loop_ok (top :: below) s Hs) as (n & -> & Hn & Hl); [done|]. cbn [mbind option_bind indent_level].
    destruct (drop n (top :: below)) as [|t' b'] eqn:Ed; [done|]. cbn [head mbind option_bind].
    assert (length (t' :: b') = length (top :: below) - n)%nat as Elen by (rewrite <- Ed; by rewrite length_drop).
    eexists. split; [done|]. cbn [lex_in indentation emit_dent tok_kind]. split_and!.
    + done.
    + split; cbn [indent_level alloc_indent_level]; [done| |].
      * unfold num_indent_level in *. rewrite El in Hr. cbn [indent_level alloc_indent_level]. lia.
      * rewrite <- Ed. by apply Forall_drop.
    + unfold num_indent_level. cbn [indent_level]. rewrite El, Elen. lia.
    + lia.
    + by destruct (negb _).
    + by destruct (negb _).
Qed.

(** * A token *)

(** What decreases with every token: the characters left, the levels of
    indentation and the tokens still to emit for them. *)
Definition pending (lex : mp_lexer_t) : Z :=
  4 * Z.of_nat (rest (lex_in lex)) + 2 * num_indent_level (indentation lex) + Z.abs (emit_dent lex).

Record lexer_ok (lex : mp_lexer_t) : Prop := {
  lexer_input : input_ok (lex_in lex);
  lexer_indents : indents_ok (indentation lex);
}.

Lemma calm_snoc l c : c <> QUOTE -> c <> DQUOTE -> calm l -> calm (l ++ [c]).
Proof.
  intros H1 H2. induction l as [|x l IH]; [done|]. intros Hc. change (calm (x :: (l ++ [c]))). apply calm_cons.
  - intros d l' E. destruct l as [|y l]; cbn in E; injection E as <- <-; [by intros [_ [?|?]]|]. by destruct Hc.
  - apply IH. by eapply calm_tail.
Qed.

(** The arguments are read before the rest of the source. *)
Lemma start_injection_ok i : input_ok i -> calm (fstring_args i) ->
  exists j, start_injection i = Some j /\ input_ok j /\ (rest j <= rest i)%nat /\ (quiet i -> j = i).
Proof.
  intros Hok Hc. unfold start_injection. destruct (Z.eqb_spec (fstring_args_idx i) 0) as [Hi|Hi]; rewrite ?andb_true_r, ?andb_false_r.
  2:{ by exists i. }
  destruct (source_input i Hok Hi) as [_ Hq Ha Hs]. destruct (Z.eqb_spec (Z.of_nat (length (fstring_args i))) 0) as [|Hl]; cbn [negb].
  { by exists i. }
  pose proof (calm_snoc _ (chr ")") ltac:(done) ltac:(done) Hc) as Hc1.
  assert (Forall arg_byte (fstring_args i ++ bytes ")")) as Ha1 by (apply Forall_app; split; [done|by repeat constructor]).
  assert (length (fstring_args i ++ bytes ")") = S (length (fstring_args i))) as Hl1 by (rewrite length_app; cbn; lia).
  assert (rest i = (16 * queue_rest (chr0 i) (chr1 i) (chr2 i) (reader i) + length (fstring_args i) + 5)%nat) as Hri.
  { apply rest_formatting. split; [done|]. intros E. by rewrite E in Hl. }
  assert (8 <= length (fstring_args i))%nat as Hl8 by (destruct Hs as [E|?]; [by rewrite E in Hl|done]).
  change (bytes ")") with [chr ")"] in *. remember (fstring_args i ++ [chr ")"]) as args eqn:Eargs.
  destruct args as [|c0 [|c1 [|c2 args]]]; cbn [length] in Hl1; try lia.
  eexists. split; [done|]. split; [|split].
  - right. split; cbn [fstring_args fstring_args_idx chr0 chr1 chr2 chr0_saved chr1_saved chr2_saved reader]; [cbn [length]; lia|done| |done|exact Hc1].
    by inversion_clear Ha1 as [|? ? ? Ha2]; inversion_clear Ha2 as [|? ? ? Ha3]; inversion_clear Ha3.
  - rewrite Hri. unfold rest, unread. cbn [fstring_args fstring_args_idx chr0 chr1 chr2 chr0_saved chr1_saved chr2_saved reader length].
    change (3 =? 0) with false. cbv iota. change (Z.to_nat 3) with 3%nat. repeat case_match; lia.
  - intros (_ & E & _). by rewrite E in Hl.
Qed.

Lemma mp_lexer_to_next_fine fuel opt lex :
  lexer_ok lex -> calm (fstring_args (lex_in lex)) -> (rest (lex_in lex) < fuel)%nat ->
  fine (fun lex' => lexer_ok lex' /\ (rest (lex_in lex') <= rest (lex_in lex))%nat /\
    (quiet (lex_in lex) -> quiet (lex_in lex')) /\
    (tok_kind lex' = MP_TOKEN_END \/ tok_kind lex' = MP_TOKEN_FSTRING_RAW \/ pending lex' < pending lex))
    (mp_lexer_to_next fuel opt lex).
Proof.
  intros [Hp0 Hd] Hcalm Hf. unfold mp_lexer_to_next. destruct (start_injection_ok _ Hp0 Hcalm) as (i0 & -> & Hp & Hr0 & Hq0).
  cbn [in_bounds rbind].
  destruct (skip_whitespace_ok fuel (nested_bracket_level lex) true i0 Hp ltac:(lia)) as (b & i & -> & Hl & Hb & _).
  cbn [ok mbind option_bind rbind]. pose proof Hl as (Hpi & Hri & _).
  assert (forall j, later i j -> input_ok j /\ (rest j <= rest (lex_in lex))%nat /\ (quiet (lex_in lex) -> quiet j)) as Hlater.
  { intros j Hij. pose proof (later_trans _ _ _ Hl Hij) as (? & ? & _ & Hq). split; [done|]. split; [lia|].
    intros Hql. rewrite (Hq0 Hql) in Hq. by apply Hq. }
  assert (forall lex', indentation lex' = indentation lex -> emit_dent lex' = emit_dent lex -> further i (lex_in lex') ->
    lexer_ok lex' /\ (rest (lex_in lex') <= rest (lex_in lex))%nat /\ (quiet (lex_in lex) -> quiet (lex_in lex')) /\
    pending lex' < pending lex) as Htok.
  { intros lex' E1 E2 Hfu. destruct (Hlater _ (further_later _ _ Hfu)) as (? & ? & ?). destruct Hfu as (_ & ? & _).
    split_and!; [split; [done|by rewrite E1]|lia|done|unfold pending; rewrite E1, E2; lia]. }
  destruct (Hlater i (later_refl i Hpi)) as (_ & Hri' & Hqi).
  cbn [emit_dent at_position indentation nested_bracket_level]. rewrite Z.gtb_ltb.
  destruct (Z.ltb_spec (emit_dent lex) 0); [|destruct (Z.ltb_spec 0 (emit_dent lex))].
  1,2: apply fine_ret; cbn; split_and!; [by split|lia|done|]; right; right; unfold pending; cbn; lia.
  assert (emit_dent lex = 0) as He0 by lia. destruct b.
  { destruct (Hb eq_refl) as (_ & En & Hnl). rewrite En.
    destruct (skip_whitespace_ok fuel 0 false i Hpi ltac:(lia)) as (b & j & -> & Hlj & _ & Hfu).
    specialize (Hfu Hnl eq_refl) as (_ & Hrj & _). destruct (Hlater j Hlj) as (Hpj & Hrj' & Hqj). cbn [ok mbind option_bind rbind snd].
    destruct (newline_token_ok (at_position lex i) j Hd He0) as (lex' & -> & Ej & Hd' & Hn & He & _). cbn [in_bounds].
    apply fine_ret. cbn [indentation at_position] in Hn. rewrite Ej in *. split_and!; [split; [by rewrite Ej|done]|lia|done|].
    right; right. unfold pending. rewrite Ej. lia. }
  destruct (is_end i) eqn:Hei; [apply fine_ret; cbn; split_and!; [by split|lia|done|by left]|].
  destruct (is_string_or_bytes i) eqn:Hs.
  { eapply fine_bind; [apply strings_loop_fine; [done|done|cbn; lia]|]. cbn. intros s [Hls Hs2].
    destruct (Hlater _ Hls) as (? & ? & ?). apply fine_ret. cbn.
    split_and!; [by split|lia|done|]. destruct (Hs2 eq_refl) as [|(_ & Hr & _)]; [by auto|]. right; right. unfold pending. cbn. lia. }
  pose proof (next_further i Hpi Hei) as Hfn. pose proof Hfn as (Hpn & Hrn & _).
  destruct (is_head_of_identifier i).
  { unfold name_token. destruct (name_tail_ok fuel (next_char i) [wrapu 8 (chr0 i)] Hpn ltac:(lia)) as (j & t & -> & Hj).
    cbn [mbind option_bind ok]. apply fine_ret. destruct (Htok (token (at_position lex i) j (name_kind opt t) t)) as (? & ? & ? & ?);
      [done|done|by eapply further_trans_l|split_and!; auto]. }
  destruct (_ || _).
  { unfold number_token. set (forced := negb _ && _ && _). set (kd := if is_char i "."%char then _ else _).
    destruct (number_tail_ok fuel forced (next_char i) kd [chr0 i] Hpn ltac:(lia)) as (j & k & t & -> & Hj).
    cbn [mbind option_bind ok]. apply fine_ret. destruct (Htok (token (at_position lex i) j k t)) as (? & ? & ? & ?);
      [done|done|by eapply further_trans_l|split_and!; auto]. }
  apply fine_ret. unfold operator_token. pose proof (operator_further i Hpi Hei) as Ho.
  destruct (operator i) as [j k]. match goal with |- lexer_ok ?l /\ _ => destruct (Htok l) as (? & ? & ? & ?) end; auto; split_and!; auto.
Qed.
