(* ===== verification/LexProps.v ===== *)
(** The properties of the lexer: it reaches the end of a source, keeps its
    indentation, and recognises operators and keywords. *)

From Stdlib Require Import ZArith Lia Ascii String Sorting.Sorted.
From stdpp Require Import base option list numbers sets.
From S2P Require Import Prelude Lexer LexSpec.

(** * Runs *)

(** The lexer after [n] more tokens. *)
Fixpoint lex_run (n fuel : nat) (opt : Z) (lex : mp_lexer_t) : result mp_lexer_t :=
  match n with
  | O => Some (inr lex)
  | S n => lex ←r mp_lexer_to_next fuel opt lex; lex_run n fuel opt lex
  end.

(** No token follows these. *)
Definition is_last (kind : mp_token_kind_t) : Prop := kind = MP_TOKEN_END \/ kind = MP_TOKEN_FSTRING_RAW.

(** *** Sources without nested format strings *)

(** The lexers of a source, with the kinds of the tokens after the first one,
    the last first. *)
Inductive lexes (fuel : nat) (opt : Z) (src : list byte) : list mp_token_kind_t -> mp_lexer_t -> Prop :=
| lexes_new lex : mp_lexer_new fuel opt src = Some (inr lex) -> lexes fuel opt src [] lex
| lexes_next kinds lex lex' : lexes fuel opt src kinds lex -> mp_lexer_to_next fuel opt lex = Some (inr lex') ->
    lexes fuel opt src (tok_kind lex' :: kinds) lex'.

(** The arguments of every format string, which are read again once the literal is,
    hold no [f] directly before a quote: no format string is nested in another. *)
Definition unnested (fuel : nat) (opt : Z) (src : list byte) : Prop :=
  forall kinds lex, lexes fuel opt src kinds lex -> calm (fstring_args (lex_in lex)).

(** The fuel for a source: every character may be read a second time as part of an
    argument. *)
Definition fuel_for (src : list byte) : nat := 16 * (length src + 4).

Lemma pending_nonneg lex : 0 <= pending lex.
Proof. unfold pending, num_indent_level. lia. Qed.

(** ** The start of a source *)

Lemma mp_reader_new_mem_ok src : Forall is_byte src -> source_ok (mp_reader_new_mem src).
Proof. intros Hb. split; [done| |by constructor|by left]. split; try done. by split_and!; left. Qed.

Lemma calm_start src : calm src -> calm (0 :: 0 :: 0 :: src).
Proof. intros H. do 3 (apply not_f_calm; [done|]). done. Qed.

Lemma mp_lexer_new_fine fuel opt src : Forall is_byte src -> (fuel_for src < fuel)%nat ->
  fine (fun lex => lexer_ok lex /\ (rest (lex_in lex) < fuel)%nat /\ (calm src -> quiet (lex_in lex))) (mp_lexer_new fuel opt src).
Proof.
  intros Hb Hf. unfold mp_lexer_new. pose proof (mp_reader_new_mem_ok src Hb) as Hp.
  set (i0 := mp_reader_new_mem src) in *. assert (input_ok i0) as Hi0 by (by left).
  assert (later i0 (next_char (next_char (next_char i0)))) as (Hp3 & Hr3 & [_ Hq3]).
  { eapply later_trans; [by apply next_later|]. eapply later_trans; apply next_later; eauto with lex. }
  assert (rest i0 <= fuel_for src)%nat as Hr0.
  { unfold i0, rest, mp_reader_new_mem, fuel_for, queue_rest. cbn [chr0 chr1 chr2 reader fstring_args_idx fstring_args].
    change (present 0) with 1%nat. change (args_weight []) with 0%nat. cbn [Z.eqb]. case_match; lia. }
  assert (fstring_args (next_char (next_char (next_char i0))) = []) as Ha3.
  { destruct (next_source i0 Hp) as (H1 & E1 & _). destruct (next_source _ H1) as (H2 & E2 & _).
    destruct (next_source _ H2) as (_ & E3 & _). by rewrite E3, E2, E1. }
  eapply fine_bind.
  - apply mp_lexer_to_next_fine; [split; [exact Hp3|]|cbn [lex_in]; by rewrite Ha3|cbn [lex_in]; lia].
    split; [done|done|by repeat constructor].
  - cbn [lex_in]. intros lex ([Hpl Hd] & Hr & Hq & _). apply fine_ret. cbn [lex_in indentation]. split_and!; [by split|lia|].
    intros Hc. apply Hq, Hq3. split; [done|]. split; [done|]. by apply calm_start.
Qed.

Lemma lexes_ok fuel opt src kinds lex : Forall is_byte src -> (fuel_for src < fuel)%nat -> unnested fuel opt src ->
  lexes fuel opt src kinds lex -> lexer_ok lex /\ (rest (lex_in lex) < fuel)%nat.
Proof.
  intros Hb Hf Hu. induction 1 as [lex E|kinds lex lex' Hl [Hok Hr] E].
  - destruct (mp_lexer_new_fine fuel opt src Hb Hf) as (x & E' & Hx). rewrite E in E'. injection E' as <-. tauto.
  - destruct (mp_lexer_to_next_fine fuel opt lex Hok (Hu _ _ Hl) Hr) as (x & E' & Hx).
    rewrite E in E'. injection E' as <-. destruct Hx as (? & ? & _). split; [done|lia].
Qed.

(** A source without an [f] before a quote has no format string. *)
Lemma calm_unnested fuel opt src : Forall is_byte src -> (fuel_for src < fuel)%nat -> calm src -> unnested fuel opt src.
Proof.
  intros Hb Hf Hc kinds lex Hl.
  enough (lexer_ok lex /\ (rest (lex_in lex) < fuel)%nat /\ quiet (lex_in lex)) as (_ & _ & _ & -> & _) by done.
  induction Hl as [lex E|kinds lex lex' Hl (Hok & Hr & Hq) E].
  - destruct (mp_lexer_new_fine fuel opt src Hb Hf) as (x & E' & Hx). rewrite E in E'. injection E' as <-.
    destruct Hx as (? & ? & ?). auto.
  - destruct (mp_lexer_to_next_fine fuel opt lex Hok) as (x & E' & Hx); [by destruct Hq as (_ & -> & _)|done|].
    rewrite E in E'. injection E' as <-. destruct Hx as (? & ? & Hq' & _). split; [done|]. split; [lia|auto].
Qed.

(** *** A test *)

Definition calmb (l : list Z) : bool :=
  forallb (fun p => negb ((fst p =? "f"%char) && ((snd p =? QUOTE) || (snd p =? DQUOTE)))) (zip l (tail l)).

Lemma calmb_ok l : calmb l = true -> calm l.
Proof.
  unfold calmb. induction l as [|c [|d l] IH]; intros H; try done.
  cbn [tail zip zip_with forallb fst snd] in H. apply andb_true_iff in H as [H1 H2]. split; [|by apply IH].
  intros [-> Hd]. destruct Hd as [-> | ->]; discriminate H1.
Qed.

Definition at_end (i : input) : bool :=
  is_end i && (fstring_args_idx i =? 0) && (length (fstring_args i) =? 0)%nat.

(** The tokens up to the end of the source, or an exception. *)
Fixpoint unnested_from (n fuel : nat) (opt : Z) (lex : mp_lexer_t) : bool :=
  calmb (fstring_args (lex_in lex)) &&
  (at_end (lex_in lex) ||
   match n with
   | O => false
   | S n => match mp_lexer_to_next fuel opt lex with Some (inr lex) => unnested_from n fuel opt lex | _ => true end
   end).

Definition unnestedb (n fuel : nat) (opt : Z) (src : list byte) : bool :=
  match mp_lexer_new fuel opt src with Some (inr lex) => unnested_from n fuel opt lex | _ => true end.

Lemma at_end_next fuel opt lex lex' : at_end (lex_in lex) = true -> mp_lexer_to_next fuel opt lex = Some (inr lex') ->
  lex_in lex' = lex_in lex.
Proof.
  unfold at_end, mp_lexer_to_next. intros [[He _]%andb_true_iff Ha%Nat.eqb_eq]%andb_true_iff E.
  assert (start_injection (lex_in lex) = Some (lex_in lex)) as Ei by (unfold start_injection; by rewrite Ha).
  rewrite Ei in E. cbn [in_bounds rbind] in E.
  assert (skip_whitespace fuel (nested_bracket_level lex) true (lex_in lex) = Some (false, lex_in lex)) as Es.
  { destruct fuel; cbn [skip_whitespace]; by rewrite He. }
  rewrite Es in E. cbn [ok mbind option_bind rbind] in E. rewrite He in E.
  repeat case_match; by simplify_eq.
Qed.

Lemma unnestedb_ok n fuel opt src : unnestedb n fuel opt src = true -> unnested fuel opt src.
Proof.
  intros H kinds lex Hl. enough (exists n, unnested_from n fuel opt lex = true) as [m Hm].
  { destruct m; cbn [unnested_from] in Hm; apply andb_true_iff in Hm as [Hm _]; by apply calmb_ok. }
  induction Hl as [lex E|kinds lex lex' _ [m IH] E].
  - exists n. unfold unnestedb in H. by rewrite E in H.
  - destruct (at_end (lex_in lex)) eqn:Ee.
    + exists m. pose proof (at_end_next _ _ _ _ Ee E) as Ei. destruct m; cbn [unnested_from] in *; rewrite Ei, Ee in *; exact IH.
    + destruct m as [|m]; cbn [unnested_from] in IH; rewrite Ee in IH; cbn [orb] in IH; [by rewrite andb_false_r in IH|].
      exists m. apply andb_true_iff in IH as [_ IH]. by rewrite E in IH.
Qed.

Section ends.
Context (fuel : nat) (opt : Z) (src : list byte).
Context (Hb : Forall is_byte src) (Hu : unnested fuel opt src) (Hf : (fuel_for src < fuel)%nat).

Lemma lex_run_ends kinds lex : lexes fuel opt src kinds lex ->
  exists n, (0 < n)%nat /\ fine (fun lex' => is_last (tok_kind lex')) (lex_run n fuel opt lex).
Proof.
  remember (Z.to_nat (pending lex)) as p eqn:Ep. revert kinds lex Ep.
  induction p as [p IH] using lt_wf_ind. intros kinds lex Ep Hl. destruct (lexes_ok _ _ _ _ _ Hb Hf Hu Hl) as [Hok Hr].
  destruct (mp_lexer_to_next_fine fuel opt lex Hok (Hu _ _ Hl) Hr) as ([e|lex'] & E & H).
  - exists 1%nat. split; [lia|]. exists (inl e). cbn. by rewrite E.
  - destruct H as (_ & _ & _ & [?|[?|Hlt]]).
    1,2: exists 1%nat; split; [lia|]; exists (inr lex'); cbn; rewrite E; (split; [done|]); unfold is_last; auto.
    pose proof (pending_nonneg lex'). destruct (IH (Z.to_nat (pending lex')) ltac:(lia) (tok_kind lex' :: kinds) lex' eq_refl)
      as (n & Hn & Hrun); [by eapply lexes_next|]. exists (S n). split; [lia|]. cbn [lex_run]. by rewrite E.
Qed.
End ends.

(** * Indentation *)

(** The level of indentation the tokens so far have opened. *)
Definition depth (lex : mp_lexer_t) : Z := num_indent_level (indentation lex) - 1 - emit_dent lex.

Definition dent (kind : mp_token_kind_t) : Z :=
  match kind with MP_TOKEN_INDENT => 1 | MP_TOKEN_DEDENT => -1 | _ => 0 end.

(** The tokens of the text of a line. *)
Definition no_dent (kind : mp_token_kind_t) : Prop := dent kind = 0.

Lemma hex_escape_no_dent s c : no_dent (l_kind s) -> no_dent (l_kind (fst (hex_escape s c))).
Proof. intros H. unfold hex_escape. by destruct (get_hex _ _ _) as [? []]. Qed.

Lemma rbind_some {A B} (k : A -> result B) r b : rbind k r = Some (inr b) -> exists a, r = Some (inr a) /\ k a = Some (inr b).
Proof. destruct r as [[?|a]|]; try done. intros E. by exists a. Qed.

Lemma escape_no_dent s s' c : no_dent (l_kind s) -> escape s = Some (inr (s', c)) -> no_dent (l_kind s').
Proof.
  intros H. unfold escape. pose proof (hex_escape_no_dent s (chr0 (l_in s)) H).
  repeat case_match; intros E; simplify_eq; try done; by rewrite E in *.
Qed.

Lemma add_escaped_no_dent s s' c : no_dent (l_kind s) -> add_escaped s c = Some (inr s') -> no_dent (l_kind s').
Proof. intros H. unfold add_escaped. repeat case_match; intros E; by simplify_eq. Qed.

Lemma literal_char_no_dent is_raw s s' : no_dent (l_kind s) -> literal_char is_raw s = Some (inr s') -> no_dent (l_kind s').
Proof.
  intros H. unfold literal_char. destruct (is_char _ _); [|intros E; by simplify_eq].
  intros ([s1 c] & E1 & E2)%rbind_some. apply (add_escaped_no_dent s1 s' c); [|done].
  destruct is_raw; [by simplify_eq|]. by apply (escape_no_dent (advance s) s1 c).
Qed.

Lemma close_argument_no_dent s s' n : no_dent (l_kind s) -> close_argument s n = Some (inr s') -> no_dent (l_kind s').
Proof. intros H. unfold close_argument. repeat case_match; intros E; by simplify_eq. Qed.

Lemma brace_loop_no_dent fuel f : forall s s', no_dent (l_kind s) -> brace_loop fuel f s = Some (inr s') -> no_dent (l_kind s').
Proof.
  induction fuel as [|fuel IH]; intros s s' H; cbn [brace_loop]; destruct (_ && _); intros E; simplify_eq; try done.
  apply rbind_some in E as (s1 & E1 & E2). apply (IH _ _) in E2; [done|]. cbn.
  destruct (is_char _ _); [by simplify_eq|]. destruct (argument_loop _ _ _); [|done].
  by apply close_argument_no_dent in E1.
Qed.

Lemma literal_loop_no_dent fuel r f q nq : forall nc s s' n, no_dent (l_kind s) ->
  literal_loop fuel r f q nq nc s = Some (inr (s', n)) -> no_dent (l_kind s').
Proof.
  induction fuel as [|fuel IH]; intros nc s s' n H; cbn [literal_loop]; destruct (_ && _); intros E; simplify_eq; try done.
  destruct (is_char _ _); [by apply IH in E|].
  apply rbind_some in E as (s1 & E1 & E). apply rbind_some in E as (s2 & E2 & E).
  apply IH in E; [done|]. cbn. eapply literal_char_no_dent; [|done]. by eapply brace_loop_no_dent.
Qed.

Lemma parse_string_literal_no_dent fuel s s' r f :
  no_dent (l_kind s) -> parse_string_literal fuel s r f = Some (inr s') -> no_dent (l_kind s').
Proof.
  intros H. unfold parse_string_literal. set (q := if is_char _ _ then _ else _). intros E.
  apply rbind_some in E as ([s1 n] & E1 & E2). apply literal_loop_no_dent in E1; [|by repeat case_match].
  simplify_eq. cbn. by destruct (_ <? _).
Qed.

Lemma literal_prefix_kind i kind r f n : literal_prefix i = Some (kind, r, f, n) -> kind = MP_TOKEN_STRING \/ kind = MP_TOKEN_BYTES.
Proof. unfold literal_prefix. repeat case_match; intros E; simplify_eq; auto. Qed.

Lemma strings_loop_no_dent fuel nested : forall s s', no_dent (l_kind s) ->
  strings_loop fuel nested s = Some (inr s') -> no_dent (l_kind s').
Proof.
  induction fuel as [|fuel IH]; intros s s' H; cbn [strings_loop]; [done|].
  destruct (literal_prefix (l_in s)) as [[[[kind r] f] n]|] eqn:El; [|intros E; by simplify_eq].
  destruct (_ && _); [intros E; by simplify_eq|].
  set (s1 := if decide (l_kind s = MP_TOKEN_END) then _ else s). intros E.
  assert (no_dent (l_kind s1)) as H1.
  { unfold s1. destruct (decide _); [|done]. apply literal_prefix_kind in El. by destruct El as [->| ->]. }
  assert (forall m, l_kind (Nat.iter m advance s1) = l_kind s1) as Hk by (by induction m).
  apply rbind_some in E as (s2 & E1 & E2). apply parse_string_literal_no_dent in E1; [|by rewrite Hk].
  destruct (skip_whitespace _ _ _ _) as [[b j]|]; [|done]. destruct (is_string_or_bytes j); [by apply IH in E2|by simplify_eq].
Qed.

Lemma keyword_loop_no_dent table kinds s : Forall no_dent kinds -> no_dent (keyword_loop table kinds s).
Proof.
  revert kinds. induction table as [|kw table IH]; intros [|k kinds] Hk; try done. cbn [keyword_loop].
  apply Forall_cons_1 in Hk as [? Hk]. repeat case_match; try done. by apply IH.
Qed.

Lemma name_kind_no_dent opt s : no_dent (name_kind opt s).
Proof.
  unfold name_kind. assert (Forall no_dent keyword_kinds) as Hk by (by repeat constructor).
  pose proof (keyword_loop_no_dent tok_kw keyword_kinds s Hk). by repeat case_match.
Qed.

Lemma number_tail_no_dent fuel forced : forall i k t j k' t', no_dent k ->
  number_tail fuel forced i k t = Some (j, k', t') -> no_dent k'.
Proof.
  induction fuel as [|fuel IH]; intros i k t j k' t' H; cbn [number_tail]; destruct (is_end i); intros E; simplify_eq; try done.
  destruct (_ && _).
  - destruct (_ || _); by apply IH in E.
  - destruct (_ || _); [apply IH in E; [done|by case_match]|]. destruct (is_char _ _); [by apply IH in E|by simplify_eq].
Qed.

Lemma operator_no_dent i : no_dent (snd (operator i)).
Proof.
  assert (Forall no_dent tok_enc_kind) as Hk by (by repeat constructor).
  unfold operator. destruct (find_operator _ _ _) as [[|x t] k]; [done|].
  destruct (x =? _); [by case_match|]. destruct (x =? _); [by case_match|].
  destruct (operator_loop _ _ _ _) as [j n]. cbn [snd]. destruct (tok_enc_kind !! n) eqn:E; [|done].
  by eapply Forall_lookup_1 in Hk.
Qed.

(** The levels are kept, and an indentation to emit has opened a level. *)
Record indentation_ok (lex : mp_lexer_t) : Prop := {
  levels_ok : indents_ok (indentation lex);
  dents_ok : emit_dent lex <= 1;
  indent_opened : emit_dent lex = 1 -> 2 <= num_indent_level (indentation lex);
}.

Lemma num_indent_positive d : indents_ok d -> 1 <= num_indent_level d.
Proof. intros [Hs _ _]. unfold num_indent_level. destruct (indent_level d); [done|]. cbn [length]. lia. Qed.

Lemma depth_nonneg lex : indentation_ok lex -> 0 <= depth lex.
Proof.
  intros [Hd He Hi]. pose proof (num_indent_positive _ Hd). unfold depth.
  destruct (Z.eq_dec (emit_dent lex) 1) as [E|]; [|lia]. specialize (Hi E). lia.
Qed.

(** A token of the text of a line leaves the indentation. *)
Lemma same_indentation lex lex' : indentation_ok lex -> indentation lex' = indentation lex -> emit_dent lex' = emit_dent lex ->
  no_dent (tok_kind lex') ->
  indentation_ok lex' /\ depth lex' = depth lex + dent (tok_kind lex') /\ (emit_dent lex = 0 -> no_dent (tok_kind lex')).
Proof.
  intros [Hd He Hi] E1 E2 Hk. split; [split; by rewrite ?E1, ?E2|]. unfold depth, no_dent in *. rewrite E1, E2. split; [lia|done].
Qed.

Lemma mp_lexer_to_next_depth fuel opt lex lex' : indentation_ok lex -> mp_lexer_to_next fuel opt lex = Some (inr lex') ->
  indentation_ok lex' /\ depth lex' = depth lex + dent (tok_kind lex') /\ (emit_dent lex = 0 -> no_dent (tok_kind lex')).
Proof.
  intros Hok. unfold mp_lexer_to_next. intros (i & _ & E)%rbind_some. apply rbind_some in E as ([b j] & _ & E).
  pose proof Hok as [Hd He Hi]. cbn [at_position emit_dent] in E. rewrite Z.gtb_ltb in E.
  destruct (Z.ltb_spec (emit_dent lex) 0).
  { simplify_eq. cbn. split; [split; cbn; [done|lia|lia]|]. unfold depth. cbn. split; lia. }
  destruct (Z.ltb_spec 0 (emit_dent lex)).
  { simplify_eq. cbn. split; [split; cbn; [done|lia|lia]|]. unfold depth. cbn. split; lia. }
  assert (emit_dent lex = 0) as He0 by lia. destruct b.
  { apply rbind_some in E as (w & _ & E).
    destruct (newline_token_ok (at_position lex j) w.2 Hd He0) as (l & En & _ & Hd' & Hn & He1 & K1 & K2).
    rewrite En in E. cbn in E. simplify_eq. cbn [indentation at_position] in Hn. pose proof (num_indent_positive _ Hd).
    assert (dent (tok_kind lex') = 0) as E0 by (by destruct (tok_kind lex')). rewrite E0.
    split; [split; [done|lia|lia]|]. unfold depth. split; [lia|]. intros _. by destruct (tok_kind lex'). }
  destruct (is_end j); [simplify_eq; by apply same_indentation|].
  destruct (is_string_or_bytes j).
  { apply rbind_some in E as (s & Es & E). simplify_eq. apply same_indentation; try done. cbn.
    by apply strings_loop_no_dent in Es. }
  destruct (is_head_of_identifier j).
  { unfold ok, name_token in E. destruct (name_tail _ _ _) as [[k t]|]; [|done]. cbn in E. simplify_eq.
    apply same_indentation; try done. apply name_kind_no_dent. }
  destruct (_ || _).
  { unfold ok, number_token in E. set (f := negb _ && _ && _) in E.
    destruct (number_tail _ _ _ _ _) as [[[k kd] t]|] eqn:En; [|done]. cbn in E. simplify_eq.
    apply same_indentation; try done. cbn. apply number_tail_no_dent in En; [done|by case_match]. }
  simplify_eq. unfold operator_token. pose proof (operator_no_dent j) as Hop. destruct (operator j) as [k kd].
  by apply same_indentation.
Qed.

Lemma lexes_step fuel opt src kinds lex lex' kind : lexes fuel opt src kinds lex ->
  mp_lexer_to_next fuel opt lex = Some (inr lex') -> tok_kind lex' = kind -> lexes fuel opt src (kind :: kinds) lex'.
Proof. intros Hl Hn <-. by eapply lexes_next. Qed.

Definition total_dent (kinds : list mp_token_kind_t) : Z := foldr (fun k n => dent k + n) 0 kinds.

Lemma mp_lexer_new_depth fuel opt src lex : mp_lexer_new fuel opt src = Some (inr lex) -> indentation_ok lex /\ depth lex = 0.
Proof.
  unfold mp_lexer_new. intros (l & E & E')%rbind_some. simplify_eq.
  apply mp_lexer_to_next_depth in E as ([Hd He Hi] & Hdep & Hz).
  - unfold no_dent in Hz. rewrite Hz in Hdep by done. split; [by split|exact Hdep].
  - split; cbn; [|done|done]. split; [done|done|by repeat constructor].
Qed.

Lemma lexes_depth fuel opt src kinds lex : lexes fuel opt src kinds lex -> indentation_ok lex /\ depth lex = total_dent kinds.
Proof.
  induction 1 as [lex Hn|kinds lex lex' _ [Hok Hd] Hn]; [by apply mp_lexer_new_depth in Hn|].
  apply mp_lexer_to_next_depth in Hn as (Hok' & Hdep & _); [|done]. split; [done|].
  change (depth lex' = dent (tok_kind lex') + total_dent kinds). lia.
Qed.

(** * Operators *)

Definition operators : list (list byte * mp_token_kind_t) := Eval vm_compute in (fun p => (bytes (fst p), snd p)) <$>
  [("(", MP_TOKEN_DEL_PAREN_OPEN); (")", MP_TOKEN_DEL_PAREN_CLOSE); ("[", MP_TOKEN_DEL_BRACKET_OPEN);
   ("]", MP_TOKEN_DEL_BRACKET_CLOSE); ("{", MP_TOKEN_DEL_BRACE_OPEN); ("}", MP_TOKEN_DEL_BRACE_CLOSE);
   (",", MP_TOKEN_DEL_COMMA); (";", MP_TOKEN_DEL_SEMICOLON); ("~", MP_TOKEN_OP_TILDE);
   (":", MP_TOKEN_DEL_COLON); (":=", MP_TOKEN_OP_ASSIGN);
   ("<", MP_TOKEN_OP_LESS); ("<=", MP_TOKEN_OP_LESS_EQUAL); ("<<", MP_TOKEN_OP_DBL_LESS); ("<<=", MP_TOKEN_DEL_DBL_LESS_EQUAL);
   (">", MP_TOKEN_OP_MORE); (">=", MP_TOKEN_OP_MORE_EQUAL); (">>", MP_TOKEN_OP_DBL_MORE); (">>=", MP_TOKEN_DEL_DBL_MORE_EQUAL);
   ("*", MP_TOKEN_OP_STAR); ("*=", MP_TOKEN_DEL_STAR_EQUAL); ("**", MP_TOKEN_OP_DBL_STAR); ("**=", MP_TOKEN_DEL_DBL_STAR_EQUAL);
   ("+", MP_TOKEN_OP_PLUS); ("+=", MP_TOKEN_DEL_PLUS_EQUAL);
   ("-", MP_TOKEN_OP_MINUS); ("-=", MP_TOKEN_DEL_MINUS_EQUAL); ("->", MP_TOKEN_DEL_MINUS_MORE);
   ("&", MP_TOKEN_OP_AMPERSAND); ("&=", MP_TOKEN_DEL_AMPERSAND_EQUAL); ("|", MP_TOKEN_OP_PIPE); ("|=", MP_TOKEN_DEL_PIPE_EQUAL);
   ("/", MP_TOKEN_OP_SLASH); ("/=", MP_TOKEN_DEL_SLASH_EQUAL); ("//", MP_TOKEN_OP_DBL_SLASH); ("//=", MP_TOKEN_DEL_DBL_SLASH_EQUAL);
   ("%", MP_TOKEN_OP_PERCENT); ("%=", MP_TOKEN_DEL_PERCENT_EQUAL); ("^", MP_TOKEN_OP_CARET); ("^=", MP_TOKEN_DEL_CARET_EQUAL);
   ("@", MP_TOKEN_OP_AT); ("@=", MP_TOKEN_DEL_AT_EQUAL); ("=", MP_TOKEN_DEL_EQUAL); ("==", MP_TOKEN_OP_DBL_EQUAL);
   ("!=", MP_TOKEN_OP_NOT_EQUAL); (".", MP_TOKEN_DEL_PERIOD); ("...", MP_TOKEN_ELLIPSIS)]%string.

Fixpoint starts (op chars : list byte) : bool :=
  match op, chars with
  | [], _ => true
  | c :: op, d :: chars => (d =? c) && starts op chars
  | _, [] => false
  end.

(** The operators of [n] characters at the start of [chars]. *)
Definition operator_of_length (n : nat) (chars : list byte) : option mp_token_kind_t :=
  snd <$> List.find (fun p => (length (fst p) =? n)%nat && starts (fst p) chars) operators.

(** The longest operator, or one character that is not the start of any. *)
Definition longest_operator (chars : list byte) : nat * mp_token_kind_t :=
  match operator_of_length 3 chars with
  | Some k => (3%nat, k)
  | None =>
      match operator_of_length 2 chars with
      | Some k => (2%nat, k)
      | None => (1%nat, default MP_TOKEN_INVALID (operator_of_length 1 chars))
      end
  end.

Lemma chr_third i : input_ok i -> fstring_args_idx i = 0 ->
  chr0 (next_char (next_char i)) = chr2 i \/ (chr0 (next_char (next_char i)) = NEWLINE /\ chr2 i = CR).
Proof.
  intros Hp Hi. rewrite chr0_next by eauto with lex. destruct (source_input i Hp Hi) as [_ [_ Hr _ _] _ _].
  destruct (next_source_queue i Hi Hr) as [E _]. unfold next_queue in E.
  destruct (Z.eqb_spec (chr2 i) CR) as [Ec|]; repeat case_match; try (right; split; [congruence|done]); left; congruence.
Qed.

(** *** The search as a function of the next three characters *)

Fixpoint loop_code (t : list byte) (t_index : nat) (chars : list byte) (tok_enc_index : nat) : option (nat * nat) :=
  match t with
  | x :: y :: t' =>
      if (x =? "c"%char) || (x =? "e"%char) then
        match chars with
        | [] => None
        | c :: chars' =>
            if c =? y then
              if x =? "e"%char then Some (1%nat, S t_index)
              else '(n, k) ← loop_code t' (S t_index) chars' (S t_index); Some (S n, k)
            else if x =? "c"%char then Some (0%nat, tok_enc_index)
            else loop_code t' (S t_index) chars tok_enc_index
        end
      else Some (0%nat, tok_enc_index)
  | _ => Some (0%nat, tok_enc_index)
  end.

Definition op_code (c0 c1 c2 : byte) : option (nat * mp_token_kind_t) :=
  let '(t, k) := find_operator tok_enc c0 0 in
  match t with
  | [] => Some (1%nat, MP_TOKEN_INVALID)
  | x :: t =>
      if x =? "!"%char then
        Some (if c1 =? "="%char then (2%nat, MP_TOKEN_OP_NOT_EQUAL) else (1%nat, MP_TOKEN_INVALID))
      else if x =? "."%char then
        Some (if (c1 =? "."%char) && (c2 =? "."%char) then (3%nat, MP_TOKEN_ELLIPSIS) else (1%nat, MP_TOKEN_DEL_PERIOD))
      else '(n, k) ← loop_code t k [c1; c2] k; Some (S n, default MP_TOKEN_INVALID (tok_enc_kind !! k))
  end.

Lemma loop_code_ok t : forall k i chars n m r, loop_code t k chars n = Some (m, r) ->
  (forall j c, chars !! j = Some c -> chr0 (Nat.iter j next_char i) = c) ->
  operator_loop t k i n = (Nat.iter m next_char i, r).
Proof.
  induction t as [t IH] using (induction_ltof1 _ (@List.length Z)). unfold ltof in IH.
  intros k i chars n m r E Hc. destruct t as [|x [|y t]]; cbn [loop_code operator_loop] in *; [by simplify_eq..|].
  assert (length t < length (x :: y :: t))%nat as Hlt by (cbn; lia).
  destruct (_ || _); [|by simplify_eq]. destruct chars as [|c chars]; [done|]. pose proof (Hc 0%nat c eq_refl) as H0. cbn in H0.
  unfold is_char. rewrite H0. destruct (c =? y).
  - destruct (x =? "e"%char); [by simplify_eq|].
    destruct (loop_code t (S k) chars (S k)) as [[m' r']|] eqn:El; [|done]. cbn in E. simplify_eq.
    rewrite Nat.iter_succ_r. apply (IH t Hlt (S k) (next_char i) chars (S k) m' r El).
    intros j d Hj. rewrite <- Nat.iter_succ_r. by apply Hc.
  - destruct (x =? "c"%char); [by simplify_eq|]. by apply (IH t Hlt (S k) i (c :: chars) n m r E).
Qed.

Lemma op_code_ok i n k : input_ok i -> fstring_args_idx i = 0 ->
  op_code (chr0 i) (chr0 (next_char i)) (chr0 (next_char (next_char i))) = Some (n, k) ->
  operator i = (Nat.iter n next_char i, k).
Proof.
  intros Hp Hi. unfold op_code, operator, is_char_and, is_char.
  assert (chr1 (next_char i) = chr0 (next_char (next_char i))) as -> by (rewrite chr0_next; eauto with lex).
  destruct (find_operator _ _ _) as [[|x t] f]; [by intros [= <- <-]|].
  destruct (x =? "!"%char); [destruct (_ =? _); by intros [= <- <-]|].
  destruct (x =? "."%char); [destruct (_ && _); by intros [= <- <-]|].
  intros E. destruct (loop_code _ _ _ _) as [[m r]|] eqn:El; [|done]. cbn in E. injection E as <- <-.
  rewrite (loop_code_ok t f (next_char i) _ f m r El).
  - by rewrite <- Nat.iter_succ_r.
  - by intros [|[|j]] c [= <-].
Qed.

(** *** Characters that are not in any operator *)

(** The characters operators start with, and those they go on with. *)
Definition alphabet : list byte := Eval vm_compute in bytes "()[]{},;~:=<>*+-&|/%^@!.ec".
Definition alphabet2 : list byte := Eval vm_compute in bytes "=<>*/.".

(** Another character stands for all that are not in [al]. *)
Definition norm (al : list byte) (c : Z) : Z := if existsb (Z.eqb c) al then c else 0.

Lemma existsb_elem c al : existsb (Z.eqb c) al = true <-> c ∈ al.
Proof.
  split.
  - intros (y & Hy & ->%Z.eqb_eq)%existsb_exists. by apply list_elem_of_In.
  - intros Hc. apply existsb_exists. exists c. split; [by apply list_elem_of_In|apply Z.eqb_refl].
Qed.

Lemma norm_eqb al c x : 0 ∉ al -> x ∈ al -> (norm al c =? x) = (c =? x).
Proof.
  intros H0 Hx. unfold norm. destruct (existsb (Z.eqb c) al) eqn:Hc; [done|].
  destruct (Z.eqb_spec c x) as [->|_]; [by rewrite (proj2 (existsb_elem x al) Hx) in Hc|]. apply Z.eqb_neq. by intros <-.
Qed.

Lemma norm_all al c : norm al c ∈ 0 :: al.
Proof. unfold norm. destruct (existsb (Z.eqb c) al) eqn:Hc; [right; by apply existsb_elem|left]. Qed.

Lemma no_nul : (0 ∉ alphabet) /\ (0 ∉ alphabet2).
Proof. split; intros H; apply existsb_elem in H; discriminate H. Qed.

(** The characters that are looked for in the table, and those after a mark. *)
Definition in_alphabet (al l : list Z) : bool := forallb (fun x => existsb (Z.eqb x) al) l.

Lemma in_alphabet_ok al l : in_alphabet al l = true -> forall x, x ∈ l -> x ∈ al.
Proof. unfold in_alphabet. rewrite forallb_forall. intros H x Hx. apply existsb_elem, H. by apply list_elem_of_In. Qed.

Fixpoint marked (t : list byte) : list byte :=
  match t with
  | x :: rest =>
      (if (x =? "c"%char) || (x =? "e"%char) then match rest with y :: _ => [y] | [] => [] end else []) ++ marked rest
  | [] => []
  end.

Lemma find_operator_norm t c : (forall x, x ∈ t -> x ∈ alphabet) ->
  forall k, find_operator t (norm alphabet c) k = find_operator t c k.
Proof.
  induction t as [t IH] using (induction_ltof1 _ (@List.length Z)). unfold ltof in IH. intros Ht k.
  destruct t as [|x t]; [done|]. cbn [find_operator]. rewrite norm_eqb by first [apply no_nul|apply Ht; left].
  assert (forall y, y ∈ t -> y ∈ alphabet) as Ht' by (intros y Hy; apply Ht; by right).
  destruct (c =? x); [done|].
  destruct (_ || _).
  - destruct t as [|y t]; [done|]. apply IH; [cbn; lia|]. intros z Hz. apply Ht'. by right.
  - apply IH; [cbn; lia|done].
Qed.

Lemma loop_code_norm t : (forall x, x ∈ marked t -> x ∈ alphabet2) -> forall k chars n,
  loop_code t k (norm alphabet2 <$> chars) n = loop_code t k chars n.
Proof.
  induction t as [t IH] using (induction_ltof1 _ (@List.length Z)). unfold ltof in IH. intros Ht k chars n.
  destruct t as [|x [|y t]]; cbn [loop_code]; try done. destruct ((x =? "c"%char) || (x =? "e"%char)) eqn:Ex; [|done].
  destruct chars as [|c chars]; [done|]. cbn [fmap list_fmap].
  rewrite norm_eqb by first [apply no_nul|apply Ht; cbn; rewrite Ex; left].
  assert (forall k cs n, loop_code t k (norm alphabet2 <$> cs) n = loop_code t k cs n) as Et.
  { apply IH; [cbn; lia|]. intros z Hz. apply Ht. cbn. apply elem_of_app; right. apply elem_of_app. by right. }
  change (list_fmap Z Z (norm alphabet2) chars) with (norm alphabet2 <$> chars).
  pose proof (Et (S k) (c :: chars) n) as E2. cbn in E2. by rewrite E2, Et.
Qed.

Lemma starts_norm2 op chars : (forall x, x ∈ op -> x ∈ alphabet2) -> starts op (norm alphabet2 <$> chars) = starts op chars.
Proof.
  revert chars. induction op as [|x op IH]; intros [|c chars] Ho; try done.
  cbn [starts fmap list_fmap]. rewrite norm_eqb by first [apply no_nul|apply Ho; left]. f_equal. apply IH.
  intros y Hy. apply Ho. by right.
Qed.

Lemma operators_alphabet op k : (op, k) ∈ operators ->
  match op with x :: op => x ∈ alphabet /\ forall y, y ∈ op -> y ∈ alphabet2 | [] => True end.
Proof.
  assert ((forallb (fun p => match fst p with x :: op => existsb (Z.eqb x) alphabet && in_alphabet alphabet2 op | [] => true end) operators) = true)
    as H by (vm_compute; reflexivity).
  intros Ho. rewrite forallb_forall in H. specialize (H (op, k) (proj1 (list_elem_of_In _ _) Ho)). cbn [fst] in H.
  destruct op as [|x op]; [done|]. apply andb_true_iff in H as [H1 H2]. split; [by apply existsb_elem|by apply in_alphabet_ok].
Qed.

Lemma starts_norm op k c chars : (op, k) ∈ operators ->
  starts op (norm alphabet c :: (norm alphabet2 <$> chars)) = starts op (c :: chars).
Proof.
  intros Ho. pose proof (operators_alphabet op k Ho) as Ha. destruct op as [|x op]; [done|]. destruct Ha as [Hx Hop].
  cbn [starts]. rewrite norm_eqb by first [apply no_nul|done]. f_equal. by apply starts_norm2.
Qed.

Lemma find_ext_in {A} (f g : A -> bool) l : (forall x, x ∈ l -> f x = g x) -> List.find f l = List.find g l.
Proof.
  intros H. induction l as [|x l IH]; [done|]. cbn. rewrite (H x) by left. rewrite IH; [done|]. intros y Hy. apply H. by right.
Qed.

Lemma longest_operator_norm c chars :
  longest_operator (norm alphabet c :: (norm alphabet2 <$> chars)) = longest_operator (c :: chars).
Proof.
  assert (forall n, operator_of_length n (norm alphabet c :: (norm alphabet2 <$> chars)) = operator_of_length n (c :: chars)) as E.
  { intros n. unfold operator_of_length. erewrite find_ext_in; [reflexivity|]. intros [op k] Ho. cbn [fst].
    by rewrite (starts_norm op k). }
  unfold longest_operator. by rewrite !E.
Qed.

Lemma find_operator_tail (P : list byte -> Prop) t0 c : (forall x t, P (x :: t) -> P t) -> P t0 -> forall k0 t k,
  find_operator t0 c k0 = (t, k) -> P t.
Proof.
  intros HP. induction t0 as [t0 IH] using (induction_ltof1 _ (@List.length Z)). unfold ltof in IH. intros Ht k0 t k E.
  destruct t0 as [|x t0]; cbn [find_operator] in E; [by simplify_eq|]. destruct (c =? x); [by simplify_eq|].
  pose proof (HP _ _ Ht) as Ht1. destruct (_ || _); [destruct t0 as [|y t0]; [by simplify_eq|]|].
  - exact (IH t0 ltac:(cbn; lia) (HP _ _ Ht1) (S k0) t k E).
  - exact (IH t0 ltac:(cbn; lia) Ht1 (S k0) t k E).
Qed.

Lemma op_code_norm c0 c1 c2 : op_code (norm alphabet c0) (norm alphabet2 c1) (norm alphabet2 c2) = op_code c0 c1 c2.
Proof.
  unfold op_code. rewrite find_operator_norm by (apply in_alphabet_ok; vm_compute; reflexivity).
  destruct (find_operator tok_enc c0 0) as [t k] eqn:Ef.
  assert (forall x, x ∈ marked t -> x ∈ alphabet2) as Ht.
  { apply (find_operator_tail (fun t => forall x, x ∈ marked t -> x ∈ alphabet2) tok_enc c0) with (3 := Ef).
    - intros x t' Hm y Hy. apply Hm. cbn. apply elem_of_app. by right.
    - apply in_alphabet_ok. vm_compute. reflexivity. }
  destruct t as [|x t]; [done|].
  rewrite !norm_eqb by first [apply no_nul|apply existsb_elem; vm_compute; reflexivity].
  assert (forall y, y ∈ marked t -> y ∈ alphabet2) as Ht' by (intros y Hy; apply Ht; cbn; apply elem_of_app; by right).
  pose proof (loop_code_norm t Ht' k [c1; c2] k) as El. cbn [fmap list_fmap] in El. by rewrite El.
Qed.

Definition op_code_agrees (c0 c1 c2 : Z) : bool :=
  match op_code c0 c1 c2 with
  | Some (n, k) => let '(m, j) := longest_operator [c0; c1; c2] in (n =? m)%nat && bool_decide (k = j)
  | None => false
  end.

Lemma forallb3_spec (f : Z -> Z -> Z -> bool) (l1 l2 l3 : list Z) :
  forallb (fun c0 => forallb (fun c1 => forallb (f c0 c1) l3) l2) l1 = true ->
  forall c0 c1 c2, c0 ∈ l1 -> c1 ∈ l2 -> c2 ∈ l3 -> f c0 c1 c2 = true.
Proof.
  intros H c0 c1 c2 H0%list_elem_of_In H1%list_elem_of_In H2%list_elem_of_In. rewrite forallb_forall in H.
  specialize (H c0 H0). rewrite forallb_forall in H. specialize (H c1 H1). rewrite forallb_forall in H. exact (H c2 H2).
Qed.

(** The letters are marks of the table, not operators. *)
Lemma op_code_table : forall c0 c1 c2, c0 ∈ 0 :: alphabet -> c1 ∈ 0 :: alphabet2 -> c2 ∈ 0 :: alphabet2 ->
  (c0 =? chr "e") || (c0 =? chr "c") || op_code_agrees c0 c1 c2 = true.
Proof. apply forallb3_spec. vm_compute. reflexivity. Qed.

Lemma agrees_code c0 c1 c2 : op_code_agrees c0 c1 c2 = true -> op_code c0 c1 c2 = Some (longest_operator [c0; c1; c2]).
Proof.
  unfold op_code_agrees. destruct (op_code c0 c1 c2) as [[n k]|]; [|done]. destruct (longest_operator [c0; c1; c2]) as [m j].
  intros [Hn%Nat.eqb_eq Hk%bool_decide_eq_true]%andb_true_iff. congruence.
Qed.

Lemma op_code_longest c0 c1 c2 : c0 <> chr "e" -> c0 <> chr "c" -> op_code c0 c1 c2 = Some (longest_operator [c0; c1; c2]).
Proof.
  intros He Hc. rewrite <- op_code_norm, <- (longest_operator_norm c0 [c1; c2]). cbn [fmap list_fmap].
  pose proof (op_code_table (norm alphabet c0) (norm alphabet2 c1) (norm alphabet2 c2)) as H.
  rewrite !norm_eqb in H by first [apply no_nul|apply existsb_elem; vm_compute; reflexivity].
  apply Z.eqb_neq in He, Hc. apply agrees_code.
  specialize (H (norm_all _ _) (norm_all _ _) (norm_all _ _)). apply orb_true_iff in H as [H|H]; [|exact H].
  apply orb_true_iff in H as [H|H]; [by rewrite H in He|by rewrite H in Hc].
Qed.

Lemma operator_ok i : input_ok i -> fstring_args_idx i = 0 -> is_head_of_identifier i = false ->
  operator i = (Nat.iter (fst (longest_operator [chr0 i; chr1 i; chr2 i])) next_char i,
                snd (longest_operator [chr0 i; chr1 i; chr2 i])).
Proof.
  intros Hp Hi Hh. apply op_code_ok; [done|done|]. rewrite chr0_next by auto.
  assert (chr0 i <> chr "e" /\ chr0 i <> chr "c") as [He Hc].
  { unfold is_head_of_identifier, is_letter in Hh. split; intros E; by rewrite E in Hh. }
  rewrite op_code_longest by done. f_equal. rewrite <- surjective_pairing.
  rewrite <- (longest_operator_norm _ [_; _]), <- (longest_operator_norm _ [_; chr2 i]). cbn [fmap list_fmap].
  destruct (chr_third i Hp Hi) as [->|[-> ->]]; [done|]. done.
Qed.

(** * Keywords *)

Definition text_ok (s : list byte) : Prop := Forall (fun c => 0 < c) s.

Lemma strcmp_eq s t : text_ok s -> text_ok t -> strcmp s t = 0 <-> s = t.
Proof.
  revert t. induction s as [|c s IH]; intros [|d t]; unfold text_ok; rewrite ?Forall_cons; intros Hs Ht; cbn [strcmp];
    try (split; [lia|done]); [done|].
  destruct Hs as [Hc Hs], Ht as [Hd Ht]. destruct (Z.eqb_spec c d) as [->|]; [|split; [lia|congruence]].
  destruct (Z.eqb_spec d 0); [lia|]. rewrite IH by done. split; congruence.
Qed.

Lemma strcmp_trans s t u : text_ok s -> text_ok t -> text_ok u -> strcmp s t < 0 -> strcmp t u < 0 -> strcmp s u < 0.
Proof.
  revert t u. induction s as [|c s IH]; intros [|d t] [|e u]; unfold text_ok; rewrite ?Forall_cons; intros Hs Ht Hu;
    cbn [strcmp]; destruct_and?; try lia.
  destruct (Z.eqb_spec c d), (Z.eqb_spec d e), (Z.eqb_spec c e); try lia.
  all: repeat match goal with |- context [?x =? 0] => destruct (Z.eqb_spec x 0); [lia|] end; try lia.
  by apply IH.
Qed.

Lemma keyword_loop_ok table kinds s : text_ok s -> Forall text_ok table ->
  StronglySorted (fun a b => strcmp a b < 0) table ->
  keyword_loop table kinds s = default MP_TOKEN_NAME (snd <$> List.find (fun p => bool_decide (fst p = s)) (zip table kinds)).
Proof.
  intros Hs. revert kinds. induction table as [|kw table IH]; intros [|k kinds] Ht Hsort; try done.
  cbn [keyword_loop zip zip_with List.find fst]. apply Forall_cons_1 in Ht as [Hkw Ht].
  apply StronglySorted_inv in Hsort as [Hsort Hall]. destruct (Z.eqb_spec (strcmp s kw) 0) as [E|E].
  { apply strcmp_eq in E as ->; [|done..]. by rewrite bool_decide_true. }
  rewrite bool_decide_false by (intros ->; apply E; by apply strcmp_eq). fold (zip table kinds).
  destruct (Z.ltb_spec (strcmp s kw) 0) as [Hlt|_]; [|by apply IH].
  destruct (List.find _ _) as [[a b]|] eqn:Ef; [|done]. exfalso. apply List.find_some in Ef as [Hin Ha].
  apply bool_decide_eq_true in Ha. cbn in Ha. subst a. apply in_combine_l in Hin.
  rewrite Forall_forall in Hall, Ht. pose proof Hin as Hin'. apply list_elem_of_In in Hin'.
  assert (strcmp s s < 0) by (eapply (strcmp_trans s kw s); auto).
  assert (strcmp s s = 0) by (by apply strcmp_eq). lia.
Qed.

Lemma tok_kw_sorted : StronglySorted (fun a b => strcmp a b < 0) tok_kw.
Proof.
  repeat constructor.
Qed.

Lemma tok_kw_text : Forall text_ok tok_kw.
Proof. unfold text_ok. apply (bool_decide_unpack _). vm_compute. exact I. Qed.

(** * Properties *)


(** A source with format strings. *)
Definition format_source : list byte :=
  bytes "if x: " ++ [chr "f"; DQUOTE] ++ bytes "a{y + 1!r:>4}b{half}" ++ [DQUOTE; chr "f"; QUOTE] ++ bytes "{z=}" ++ [QUOTE].



(** A block is open after the second line. *)
Definition block_source : list byte := bytes "if x:" ++ [NEWLINE] ++ bytes " y".

Definition block_lexer (n : nat) : mp_lexer_t :=
  match (lex ←r mp_lexer_new 40 0 block_source; lex_run n 40 0 lex) with
  | Some (inr lex) => lex
  | _ => {| lex_in := mp_reader_new_mem []; emit_dent := 0; nested_bracket_level := 0;
            indentation := {| alloc_indent_level := 0; indent_level := [] |}; tok_line := 0; tok_column := 0;
            tok_kind := MP_TOKEN_END; vstr := [] |}
  end.




(** The kind of a keyword; [__debug__] is a constant. *)
Definition keyword (opt : Z) (s : list byte) : option mp_token_kind_t :=
  k ← snd <$> List.find (fun p => bool_decide (fst p = s)) (zip tok_kw keyword_kinds);
  Some (if decide (k = MP_TOKEN_KW___DEBUG__) then if opt =? 0 then MP_TOKEN_KW_TRUE else MP_TOKEN_KW_FALSE else k).

(** A name is a keyword exactly when the table of keywords holds it: the search
    that stops at the first greater entry misses none. *)
Theorem lexer_keyword_spec opt s : text_ok s -> name_kind opt s = default MP_TOKEN_NAME (keyword opt s).
Proof.
  intros Hs. unfold name_kind, keyword. rewrite (keyword_loop_ok _ _ s Hs tok_kw_text tok_kw_sorted).
  by destruct (List.find _ _) as [[a k]|]; cbn.
Qed.

Lemma lexer_keyword_spec_witness : name_kind 0 (bytes "lambda") = MP_TOKEN_KW_LAMBDA /\ name_kind 0 (bytes "lamb") = MP_TOKEN_NAME.
Proof.
  split; [apply (lexer_keyword_spec 0 (bytes "lambda"))|apply (lexer_keyword_spec 0 (bytes "lamb"))];
    repeat constructor.
Defined.
