(* ===== verification/LexText.v ===== *)
(** The text of bytes objects, as [py/objstr.c] prints it, read back by the lexer:
    the characters a lexer will read, and a literal character by character. *)

From Stdlib Require Import ZArith Lia Ascii String.
From stdpp Require Import base option list numbers.
From S2P Require Import Prelude Lexer LexSpec.

(** * Definitions *)

(** The scan that stops at the first double quote. *)
Fixpoint scan_quotes (s : list byte) (has_single_quote has_double_quote : bool) : bool * bool :=
  match s with
  | [] => (has_single_quote, has_double_quote)
  | c :: s =>
      if has_double_quote then (has_single_quote, has_double_quote)
      else if c =? QUOTE then scan_quotes s true has_double_quote
      else if c =? DQUOTE then scan_quotes s has_single_quote true
      else scan_quotes s has_single_quote has_double_quote
  end.

Definition quote_char (s : list byte) : byte :=
  let '(has_single_quote, has_double_quote) := scan_quotes s false false in
  if has_single_quote && negb has_double_quote then DQUOTE else QUOTE.

Definition hex_digit (d : Z) : byte := if d <? 10 then 48 + d else 87 + d.

Definition print_char (quote_char : byte) (is_bytes : bool) (c : byte) : list byte :=
  if c =? quote_char then [BACKSLASH; quote_char]
  else if c =? BACKSLASH then [BACKSLASH; BACKSLASH]
  else if (c >=? 0x20) && negb (c =? 0x7f) && (negb is_bytes || (c <? 0x80)) then [c]
  else if c =? 10 then [BACKSLASH; chr "n"]
  else if c =? 13 then [BACKSLASH; chr "r"]
  else if c =? 9 then [BACKSLASH; chr "t"]
  else [BACKSLASH; chr "x"; hex_digit (c / 16); hex_digit (c mod 16)].

Definition mp_str_print_quoted (str_data : list byte) (is_bytes : bool) : list byte :=
  let q := quote_char str_data in
  [q] ++ mjoin (print_char q is_bytes <$> str_data) ++ [q].

(** [repr] of a bytes object. *)
Definition str_print (str_data : list byte) : list byte := bytes "b" ++ mp_str_print_quoted str_data true.

(** * The characters to come *)

Definition nth_char (n : nat) (p : list byte) : Z := default MP_LEXER_EOF (p !! n).

Definition text_char (c : Z) : Prop := is_byte c /\ c <> CR.

(** The lexer will read [l], which ends with the new line of the source or the
    one the lexer adds. *)
Record feeds (i : input) (l : list byte) : Prop := {
  feeds_args : fstring_args i = [];
  feeds_idx : fstring_args_idx i = 0;
  feeds_chars : Forall text_char l;
  feeds_last : l = [] \/ list.last l = Some NEWLINE;
  feeds_queue : exists p, chr0 i = nth_char 0 p /\ chr1 i = nth_char 1 p /\ chr2 i = nth_char 2 p /\ reader i = drop 3 p /\
    (p = l \/ (p ++ [NEWLINE] = l /\ (3 <= length p)%nat /\ list.last p <> Some NEWLINE));
}.

Lemma feeds_cons i c l : feeds i (c :: l) -> chr0 i = c.
Proof.
  intros [_ _ _ _ (p & -> & _ & _ & _ & [->|(E & Hl & _)])]; [done|]. destruct p as [|d p]; [cbn in Hl; lia|].
  injection E as -> _. done.
Qed.

Lemma feeds_nil i : feeds i [] -> is_end i = true.
Proof.
  intros [_ _ _ _ (p & H0 & _ & _ & _ & [->|(E & _)])]; [|by destruct p]. unfold is_end. by rewrite H0.
Qed.

Lemma feeds_second i c d l : feeds i (c :: d :: l) -> chr1 i = d.
Proof.
  intros [_ _ _ _ (p & _ & -> & _ & _ & [->|(E & Hl & _)])]; [done|].
  destruct p as [|? [|? p]]; [cbn in Hl; lia..|]. by injection E as -> -> _.
Qed.

Lemma text_byte c : text_char c -> is_eof c = false /\ (c =? CR) = false.
Proof. intros [Hb Hc]. split; [by apply byte_not_eof|by apply Z.eqb_neq]. Qed.

Lemma feeds_next i c l : feeds i (c :: l) -> feeds (next_char i) l.
Proof.
  intros [Ha Hi Hc Hl (p & H0 & H1 & H2 & Hr & Hp)].
  assert (Forall text_char p) as Htp.
  { destruct Hp as [->|(E & _)]; [done|]. rewrite <- E in Hc. by apply Forall_app in Hc as [? _]. }
  assert (Forall is_byte (reader i)) as Hb.
  { rewrite Hr. apply Forall_drop. eapply Forall_impl; [|exact Htp]. by intros ? [? _]. }
  destruct (next_char_queue i Ha Hi Hb) as (E & Ea & Ei). rewrite H0, H1, H2, Hr in E.
  apply Forall_cons_1 in Hc as [Hc Hc'].
  assert (l = [] \/ list.last l = Some NEWLINE) as Hl'.
  { destruct Hl as [|Hl]; [done|]. destruct l; [by left|by right]. }
  split; try done. destruct Hp as [->|(Ep & H3 & Hlast)].
  - exists l. apply Forall_cons_1 in Htp as [_ Htp].
    destruct l as [|c1 [|c2 [|c3 l]]]; unfold next_queue in E; cbn [drop] in E.
    + change (nth_char 2 [c]) with MP_LEXER_EOF in E. cbn in E. injection E as -> -> -> ->. split_and!; auto.
    + change (nth_char 2 [c; c1]) with MP_LEXER_EOF in E. cbn in E. injection E as -> -> -> ->. split_and!; auto.
    + change (nth_char 2 [c; c1; c2]) with c2 in E.
      apply Forall_cons_1 in Htp as [_ [Hc2 _]%Forall_cons_1]. destruct (text_byte c2 Hc2) as [_ Ecr]. rewrite Ecr in E.
      destruct Hl' as [|Hl']; [done|]. injection Hl' as ->. injection E as -> -> -> ->. split_and!; auto.
    + change (nth_char 2 _) with c2 in E.
      apply Forall_cons_1 in Htp as [_ [Hc2 _]%Forall_cons_1]. destruct (text_byte c2 Hc2) as [_ Ecr]. rewrite Ecr in E.
      injection E as -> -> -> ->. split_and!; auto.
  - destruct p as [|? [|c1 [|c2 p]]]; [cbn in H3; lia..|]. injection Ep as -> Ep. exists (c1 :: c2 :: p ++ (if bool_decide (p = []) then [NEWLINE] else [])).
    change (nth_char 2 _) with c2 in E. unfold next_queue in E.
    apply Forall_cons_1 in Htp as [_ [_ [Hc2 _]%Forall_cons_1]%Forall_cons_1]. destruct (text_byte c2 Hc2) as [Ee Ecr].
    rewrite Ecr in E. destruct p as [|c3 p]; cbn [drop app] in E.
    + rewrite Ee in E. assert ((c2 =? NEWLINE) = false) as En by (apply Z.eqb_neq; intros ->; by apply Hlast).
      rewrite En in E. cbn in E. injection E as -> -> -> ->. split_and!; auto.
    + injection E as -> -> -> ->. rewrite bool_decide_false, app_nil_r by done. split_and!; auto. right.
      split_and!; [done|cbn; lia|exact Hlast].
Qed.

(** The text of a source with its last new line. *)
Definition complete (src : list byte) : list byte :=
  if bool_decide (list.last src = Some NEWLINE) then src else src ++ [NEWLINE].

Lemma feeds_reader src : Forall text_char src -> feeds (mp_reader_new_mem src) (0 :: 0 :: 0 :: complete src).
Proof.
  intros Hs. assert (text_char 0 /\ text_char NEWLINE) as [? ?] by done. split; try done.
  - repeat apply Forall_cons_2; try done. unfold complete. case_bool_decide; [done|]. apply Forall_app_2; auto.
  - right. unfold complete. case_bool_decide as E.
    + destruct src; [done|]. exact E.
    + change (0 :: 0 :: 0 :: src ++ [NEWLINE]) with ((0 :: 0 :: 0 :: src) ++ [NEWLINE]). apply last_snoc.
  - exists (0 :: 0 :: 0 :: src). split_and!; try done. unfold complete. case_bool_decide as E; [by left|right].
    split_and!; [done|cbn; lia|]. destruct src; [done|exact E].
Qed.

Lemma feeds_start src : Forall text_char src ->
  feeds (next_char (next_char (next_char (mp_reader_new_mem src)))) (complete src).
Proof. intros H0%feeds_reader. by do 3 apply feeds_next in H0. Qed.

(** * One character of a literal *)

(** The parts of a literal that a step changes. *)
Definition reads (s : literal) (kind : mp_token_kind_t) (text : list byte) (l : list byte) : Prop :=
  l_kind s = kind /\ l_vstr s = text /\ feeds (l_in s) l.

Lemma reads_advance s k t c l : reads s k t (c :: l) -> reads (advance s) k t l.
Proof. intros (? & ? & Hf). by split_and!; [..|eapply feeds_next]. Qed.

Lemma reads_add s k t b l : reads s k t l -> reads (add_bytes s b) k (t ++ b) l.
Proof. intros (? & <- & ?). by split_and!. Qed.

Lemma hex_digit_ok d : 0 <= d < 16 ->
  unichar_isxdigit (hex_digit d) = true /\ unichar_xdigit_value (hex_digit d) = d /\ text_char (hex_digit d).
Proof.
  intros Hd. assert (d ∈ seqZ 0 16) as Hin by (apply elem_of_seqZ; lia).
  assert (Forall (fun d => unichar_isxdigit (hex_digit d) = true /\ unichar_xdigit_value (hex_digit d) = d /\
    (0 <= hex_digit d < 256 /\ hex_digit d <> CR)) (seqZ 0 16)) as H by (apply (bool_decide_unpack _); vm_compute; exact I).
  rewrite Forall_forall in H. apply H. by apply list_elem_of_In.
Qed.

Lemma get_hex_two i c d1 d2 l : 0 <= d1 < 16 -> 0 <= d2 < 16 -> feeds i (c :: hex_digit d1 :: hex_digit d2 :: l) ->
  get_hex i 2 0 = (next_char (next_char i), Some (16 * d1 + d2)).
Proof.
  intros H1 H2 Hf. destruct (hex_digit_ok d1 H1) as (X1 & V1 & _), (hex_digit_ok d2 H2) as (X2 & V2 & _).
  pose proof (feeds_next _ _ _ Hf) as Hf1. pose proof (feeds_next _ _ _ Hf1) as Hf2.
  cbn [get_hex]. rewrite (feeds_cons _ _ _ Hf1), X1, V1, (feeds_cons _ _ _ Hf2), X2, V2. cbn [negb].
  do 2 f_equal. rewrite Z.shiftl_0_l. change (wrapu 32 0) with 0. rewrite (wrapu_small 32 (0 + d1)) by lia.
  rewrite Z.shiftl_mul_pow2 by done. change (2 ^ 4) with 16. rewrite (wrapu_small 32 ((0 + d1) * 16)) by lia. rewrite wrapu_small; lia.
Qed.

(** The character [b] added to a bytes literal. *)
Lemma add_escaped_reads s t b x l : is_byte b -> reads s MP_TOKEN_BYTES t (x :: l) ->
  add_escaped s b = Some (inr (add_bytes s [b])) /\ reads (advance (add_bytes s [b])) MP_TOKEN_BYTES (t ++ [b]) l.
Proof.
  intros Hb H. unfold is_byte in Hb. split; [|by apply (reads_advance _ _ _ x), reads_add].
  unfold add_escaped. destruct H as (-> & _ & _).
  rewrite (proj2 (Z.eqb_neq b MP_LEXER_EOF)) by (unfold MP_LEXER_EOF, MP_READER_EOF; lia).
  rewrite (bool_decide_false (MP_TOKEN_BYTES = MP_TOKEN_STRING)), andb_false_r by done.
  by rewrite (proj2 (Z.ltb_lt b 0x100)) by lia.
Qed.

Lemma reads_char s k t c l : reads s k t (c :: l) -> chr0 (l_in s) = c.
Proof. intros (_ & _ & H). by eapply feeds_cons. Qed.

Lemma literal_char_escape s t c b n x l : is_byte b -> reads s MP_TOKEN_BYTES t (BACKSLASH :: c :: l) ->
  list_find (fun e => c = fst e) simple_escapes = Some (n, (x, b)) ->
  exists s', literal_char false s = Some (inr s') /\ reads (advance s') MP_TOKEN_BYTES (t ++ [b]) l.
Proof.
  intros Hb H Hx. unfold literal_char, is_char. rewrite (reads_char _ _ _ _ _ H). change (BACKSLASH =? BACKSLASH) with true.
  apply reads_advance in H. cbn zeta. unfold escape. rewrite (reads_char _ _ _ _ _ H), Hx. cbn [rbind fst snd].
  destruct (add_escaped_reads _ _ _ _ _ Hb H) as [-> ?]. by eexists.
Qed.

Lemma literal_char_hex s t b l : is_byte b ->
  reads s MP_TOKEN_BYTES t (BACKSLASH :: chr "x" :: hex_digit (b / 16) :: hex_digit (b mod 16) :: l) ->
  exists s', literal_char false s = Some (inr s') /\ reads (advance s') MP_TOKEN_BYTES (t ++ [b]) l.
Proof.
  intros Hb H. unfold literal_char, is_char. rewrite (reads_char _ _ _ _ _ H). change (BACKSLASH =? BACKSLASH) with true.
  apply reads_advance in H. cbn zeta. unfold escape. rewrite (reads_char _ _ _ _ _ H).
  change (list_find _ simple_escapes) with (@None (nat * (Z * Z))). change ((chr "x" =? "u"%char) || _) with false.
  change (chr "x" =? "x"%char) with true. cbn [rbind fst snd]. unfold hex_escape. change (chr "x" =? "x"%char) with true.
  assert (0 <= b / 16 < 16) as H1.
  { unfold is_byte in Hb. split; [apply Z.div_pos; lia|apply Z.div_lt_upper_bound; lia]. }
  pose proof (Z.mod_pos_bound b 16 ltac:(done)) as H2.
  destruct H as (K & V & Hf). rewrite (get_hex_two _ _ _ _ _ H1 H2 Hf). cbn [rbind fst snd].
  assert (reads (at_input (advance s) (next_char (next_char (l_in (advance s))))) MP_TOKEN_BYTES t (hex_digit (b mod 16) :: l)) as H.
  { split_and!; [done|done|]. cbn. by do 2 apply feeds_next in Hf. }
  replace (16 * (b / 16) + b mod 16) with b by (apply Z.div_mod; done).
  destruct (add_escaped_reads _ _ _ _ _ Hb H) as [-> ?]. by eexists.
Qed.

(** The printed form of a byte, with the next character, adds the byte. *)
Lemma literal_char_print q s t b l : q = QUOTE \/ q = DQUOTE -> is_byte b ->
  reads s MP_TOKEN_BYTES t (print_char q true b ++ l) ->
  is_char (l_in s) q = false /\
  exists s', literal_char false s = Some (inr s') /\ reads (advance s') MP_TOKEN_BYTES (t ++ [b]) l.
Proof.
  intros Hq Hb. unfold print_char. intros Hs.
  assert (forall c l', reads s MP_TOKEN_BYTES t (c :: l') -> c <> q -> is_char (l_in s) q = false) as Hnq.
  { intros c l' H Hc. unfold is_char. rewrite (reads_char _ _ _ _ _ H). by apply Z.eqb_neq. }
  assert (BACKSLASH <> q) as Hbq by (by destruct Hq as [->| ->]).
  destruct (Z.eqb_spec b q) as [->|Hbq'].
  { split; [by eapply Hnq|]. destruct Hq as [->| ->]; eapply literal_char_escape; [done|exact Hs|done|done|exact Hs|done]. }
  destruct (Z.eqb_spec b BACKSLASH) as [->|Hbb].
  { split; [by eapply Hnq|]. by eapply literal_char_escape; [done|exact Hs|]. }
  destruct (_ && _) eqn:Epr.
  { split; [by eapply Hnq|]. unfold literal_char, is_char. rewrite (reads_char _ _ _ _ _ Hs).
    rewrite (proj2 (Z.eqb_neq b BACKSLASH) Hbb). eexists. split; [done|].
    unfold is_byte in Hb. rewrite wrapu_small by lia. by apply (reads_advance _ _ _ b), reads_add. }
  split; [repeat case_match; by eapply Hnq|].
  destruct (Z.eqb_spec b 10) as [->|]; [by eapply literal_char_escape; [done|exact Hs|]|].
  destruct (Z.eqb_spec b 13) as [->|]; [by eapply literal_char_escape; [done|exact Hs|]|].
  destruct (Z.eqb_spec b 9) as [->|]; [by eapply literal_char_escape; [done|exact Hs|]|].
  by apply literal_char_hex.
Qed.

(** * A literal *)

Lemma literal_loop_closed fuel q s : literal_loop fuel false false q 1 1 s = Some (inr (s, 1)).
Proof. destruct fuel; cbn [literal_loop]; by rewrite andb_false_r. Qed.

Lemma mjoin_cons {A} (x : list A) l : mjoin (x :: l) = x ++ mjoin l.
Proof. done. Qed.

Lemma print_char_head q b : is_byte b -> (q = QUOTE \/ q = DQUOTE) ->
  exists c l, print_char q true b = c :: l /\ c <> NEWLINE /\ c <> MP_LEXER_EOF /\ c <> q.
Proof.
  intros Hb Hq. unfold is_byte in Hb. unfold print_char. assert (BACKSLASH <> q) by (by destruct Hq as [->| ->]).
  destruct (Z.eqb_spec b q); [by do 2 eexists|]. destruct (Z.eqb_spec b BACKSLASH); [by do 2 eexists|].
  destruct (_ && _) eqn:E.
  - exists b, []. split_and!; try done; [|unfold MP_LEXER_EOF, MP_READER_EOF; lia]. intros ->. done.
  - repeat case_match; by do 2 eexists.
Qed.

Lemma literal_loop_print q data : q = QUOTE \/ q = DQUOTE -> Forall is_byte data -> forall fuel s t l,
  (length data < fuel)%nat ->
  reads s MP_TOKEN_BYTES t (mjoin (print_char q true <$> data) ++ q :: l) ->
  exists s', literal_loop fuel false false q 1 0 s = Some (inr (s', 1)) /\ reads s' MP_TOKEN_BYTES (t ++ data ++ [q]) l.
Proof.
  intros Hq. assert (q <> NEWLINE /\ q <> MP_LEXER_EOF) as [Hqn Hqe] by (by destruct Hq as [->| ->]).
  induction data as [|b data IH]; intros Hb [|fuel] s t l Hf Hs; try (cbn in Hf; lia).
  - cbn [fmap list_fmap mjoin list_join app] in Hs. cbn [literal_loop].
    unfold is_end, is_char. rewrite (reads_char _ _ _ _ _ Hs).
    rewrite (proj2 (Z.eqb_neq q MP_LEXER_EOF)), (proj2 (Z.eqb_neq q NEWLINE)), Z.eqb_refl by done.
    cbn [negb andb orb Z.gtb Z.ltb Z.compare]. rewrite literal_loop_closed. eexists. split; [done|].
    by apply (reads_advance _ _ _ q), reads_add.
  - apply Forall_cons_1 in Hb as [Hb Hd]. rewrite fmap_cons, mjoin_cons, <- app_assoc in Hs.
    destruct (print_char_head q b Hb Hq) as (c & l' & Ec & Hcn & Hce & _).
    destruct (literal_char_print q s t b _ Hq Hb Hs) as (Enq & s' & Elc & Hs').
    rewrite Ec in Hs. pose proof (reads_char _ _ _ _ _ Hs) as Eh. cbn [literal_loop]. rewrite Enq.
    unfold is_end. unfold is_char in Enq |- *. rewrite Eh.
    rewrite (proj2 (Z.eqb_neq c MP_LEXER_EOF)), (proj2 (Z.eqb_neq c NEWLINE)) by done.
    cbn [negb andb orb Z.gtb Z.ltb Z.compare].
    assert (brace_loop fuel false s = Some (inr s)) as -> by (by destruct fuel). cbn [rbind].
    rewrite Elc. cbn [rbind]. destruct (IH Hd fuel (advance s') (t ++ [b]) l) as (s2 & -> & H2); [cbn in Hf; lia|done|].
    exists s2. split; [done|]. by rewrite <- app_assoc in H2.
Qed.

Lemma quote_char_quote data : quote_char data = QUOTE \/ quote_char data = DQUOTE.
Proof. unfold quote_char. destruct (scan_quotes _ _ _). case_match; auto. Qed.

Lemma parse_print data fuel s l : Forall is_byte data -> (length data < fuel)%nat -> l <> [] ->
  hd_error l <> Some (quote_char data) ->
  reads s MP_TOKEN_BYTES [] (mp_str_print_quoted data true ++ l) ->
  exists s', parse_string_literal fuel s false false = Some (inr s') /\ reads s' MP_TOKEN_BYTES data l.
Proof.
  intros Hd Hf Hl Hhd Hs. unfold mp_str_print_quoted in Hs. set (q := quote_char data) in *.
  pose proof (quote_char_quote data) as Hq. fold q in Hq. rewrite <- !app_assoc in Hs. cbn [app] in Hs.
  unfold parse_string_literal.
  assert ((if is_char (l_in s) DQUOTE then DQUOTE else QUOTE) = q) as ->.
  { unfold is_char. rewrite (reads_char _ _ _ _ _ Hs). by destruct Hq as [->| ->]. }
  apply reads_advance in Hs. cbn zeta.
  assert (is_char_and (l_in (advance s)) q q = false) as ->.
  { unfold is_char_and. destruct data as [|b data].
    - cbn [fmap list_fmap mjoin list_join app] in Hs. destruct l as [|c l]; [done|].
      destruct Hs as (_ & _ & Hs). rewrite (feeds_second _ _ _ _ Hs). apply andb_false_iff. right. apply Z.eqb_neq.
      intros ->. by apply Hhd.
    - rewrite fmap_cons, mjoin_cons, <- app_assoc in Hs. apply Forall_cons_1 in Hd as [Hb _].
      destruct (print_char_head q b Hb Hq) as (c & l' & Ec & _ & _ & Hcq). rewrite Ec in Hs.
      rewrite (reads_char _ _ _ _ _ Hs). apply andb_false_iff. left. by apply Z.eqb_neq. }
  destruct (literal_loop_print q data Hq Hd fuel (advance s) [] l Hf Hs) as (s' & -> & (Hk & Hv & Hfe)). cbn [rbind].
  eexists. split; [done|]. split_and!; [done| |done]. cbn [l_vstr]. change (1 <? 1) with false. cbn iota.
  rewrite Hv. cbn [app]. unfold vstr_cut_tail_bytes. rewrite length_app, Z.gtb_ltb. cbn [length].
  rewrite (proj2 (Z.ltb_ge _ _)) by lia. rewrite Nat.add_sub. by rewrite take_app_length.
Qed.

(** * A source that is one literal *)

Lemma next_char_column i : fstring_args_idx i = 0 -> column (next_char i) = snd (next_position i).
Proof.
  intros Hi. unfold next_char. destruct (next_position i) as [ln col] eqn:E. unfold shift. rewrite Hi. cbn [negb Z.eqb].
  destruct (readbyte (reader i)) as [c r]. unfold insert_newline, convert_newline.
  repeat case_match; done.
Qed.

Lemma print_char_text q b : is_byte b -> (q = QUOTE \/ q = DQUOTE) -> Forall text_char (print_char q true b).
Proof.
  intros Hb Hq. assert (text_char BACKSLASH /\ text_char q) as [? ?] by (by destruct Hq as [->| ->]).
  unfold print_char. repeat (case_match; [repeat apply Forall_cons_2; done|]).
  destruct (_ && _) eqn:E; [apply Forall_cons_2; [split; [done|]|done]; intros ->; done|].
  repeat (case_match; [repeat apply Forall_cons_2; done|]).
  assert (0 <= b / 16 < 16).
  { unfold is_byte in Hb. split; [apply Z.div_pos; lia|apply Z.div_lt_upper_bound; lia]. }
  pose proof (Z.mod_pos_bound b 16 ltac:(done)).
  repeat apply Forall_cons_2; try done; by apply hex_digit_ok.
Qed.

Lemma str_print_text data : Forall is_byte data -> Forall text_char (str_print data).
Proof.
  intros Hd. unfold str_print, mp_str_print_quoted. pose proof (quote_char_quote data) as Hq. set (q := quote_char data) in *.
  assert (text_char q) by (by destruct Hq as [->| ->]). apply Forall_app_2; [by repeat apply Forall_cons_2|].
  apply Forall_app_2; [by apply Forall_cons_2|]. apply Forall_app_2; [|by apply Forall_cons_2].
  clearbody q. clear -Hd Hq. induction Hd as [|b data Hb Hd IH]; [done|]. rewrite fmap_cons, mjoin_cons. apply Forall_app_2; [|done].
  by apply print_char_text.
Qed.

Lemma str_print_complete data : complete (str_print data) = str_print data ++ [NEWLINE].
Proof.
  unfold complete. rewrite bool_decide_false; [done|]. unfold str_print, mp_str_print_quoted. rewrite !app_assoc, last_snoc.
  intros [= E]. by destruct (quote_char_quote data) as [Eq|Eq]; rewrite Eq in E.
Qed.

Lemma start_injection_feeds i l : feeds i l -> start_injection i = Some i.
Proof. intros [Ha _ _ _ _]. unfold start_injection. by rewrite Ha. Qed.

Lemma skip_at_b fuel nested stop i : chr0 i = chr "b" -> skip_whitespace (S fuel) nested stop i = Some (false, i).
Proof. intros H. cbn [skip_whitespace]. unfold is_end, is_physical_newline, is_whitespace, is_char_and, is_char. by rewrite H. Qed.

Lemma skip_at_newline fuel i : chr0 i = NEWLINE -> skip_whitespace fuel 0 true i = Some (true, i).
Proof. intros H. destruct fuel; cbn [skip_whitespace]; unfold is_end, is_physical_newline; by rewrite H. Qed.

(** The literal of a printed bytes object, up to the new line after it. *)
Lemma strings_loop_print data fuel i : Forall is_byte data -> (length data < fuel)%nat ->
  feeds i (str_print data ++ [NEWLINE]) ->
  exists s, strings_loop (S fuel) 0 {| l_in := i; l_kind := MP_TOKEN_END; l_vstr := [] |} = Some (inr s) /\
    reads s MP_TOKEN_BYTES data [NEWLINE].
Proof.
  intros Hd Hf Hfe. pose proof (quote_char_quote data) as Hq. unfold str_print in Hfe. rewrite <- app_assoc in Hfe.
  change (bytes "b" ++ ?l) with (chr "b" :: l) in Hfe.
  assert (exists l, mp_str_print_quoted data true ++ [NEWLINE] = quote_char data :: l) as [l Hl] by (by eexists).
  pose proof (feeds_cons _ _ _ Hfe) as H0. rewrite Hl in Hfe. pose proof (feeds_second _ _ _ _ Hfe) as H1. rewrite <- Hl in Hfe.
  cbn [strings_loop l_in].
  assert (literal_prefix i = Some (MP_TOKEN_BYTES, false, false, 1%nat)) as ->.
  { unfold literal_prefix, is_char, is_char_following. rewrite H0, H1. by destruct Hq as [->| ->]. }
  cbn [l_kind]. rewrite (bool_decide_false (MP_TOKEN_END <> MP_TOKEN_END)) by tauto. cbn [andb].
  rewrite decide_True by done. cbn [Nat.iter nat_rect].
  set (s0 := at_kind _ _).
  assert (reads s0 MP_TOKEN_BYTES [] (chr "b" :: mp_str_print_quoted data true ++ [NEWLINE])) as Hs by (by split_and!).
  apply reads_advance in Hs.
  destruct (parse_print data fuel (advance s0) [NEWLINE] Hd Hf) as (s & -> & Hs'); [done| |exact Hs|].
  { intros [= E]. by destruct Hq as [Hq|Hq]; rewrite Hq in E. }
  cbn [rbind]. pose proof (reads_char _ _ _ _ _ Hs') as Hc. rewrite skip_at_newline by done. cbn iota beta.
  assert (is_string_or_bytes (l_in s) = false) as ->.
  { unfold is_string_or_bytes, is_char_or, is_char_or4, is_char_and, is_char. by rewrite Hc. }
  exists (at_input s (l_in s)). split; [done|]. destruct Hs' as (? & ? & ?). by split_and!.
Qed.

(** The lexer at the start of a printed bytes object reads it as one token. *)
Lemma to_next_print data fuel opt lex : Forall is_byte data -> (length data + 1 < fuel)%nat ->
  emit_dent lex = 0 -> nested_bracket_level lex = 0 -> feeds (lex_in lex) (str_print data ++ [NEWLINE]) ->
  exists i, mp_lexer_to_next fuel opt lex = Some (inr (token (at_position lex (lex_in lex)) i MP_TOKEN_BYTES data)) /\
    feeds i [NEWLINE].
Proof.
  intros Hd Hf He Hn Hfe. unfold mp_lexer_to_next. rewrite (start_injection_feeds _ _ Hfe). cbn [in_bounds rbind].
  destruct fuel as [|fuel]; [lia|]. destruct (strings_loop_print data fuel _ Hd ltac:(lia) Hfe) as (s & Es & Hk & Hv & Hs).
  pose proof Hfe as Hfe'. change (str_print data ++ [NEWLINE]) with (chr "b" :: quote_char data :: (mjoin (print_char (quote_char data) true <$> data) ++ [quote_char data]) ++ [NEWLINE]) in Hfe'.
  pose proof (feeds_cons _ _ _ Hfe') as H0. pose proof (feeds_second _ _ _ _ Hfe') as H1.
  rewrite (skip_at_b fuel _ _ _ H0). cbn [ok mbind option_bind rbind].
  cbn [emit_dent at_position nested_bracket_level]. rewrite He, Hn. cbn [Z.ltb Z.gtb Z.compare].
  assert (is_end (lex_in lex) = false) as -> by (unfold is_end; by rewrite H0).
  assert (is_string_or_bytes (lex_in lex) = true) as ->.
  { unfold is_string_or_bytes, is_char_or, is_char_or4, is_char_and, is_char_following_or, is_char. rewrite H0, H1.
    by destruct (quote_char_quote data) as [->| ->]. }
  rewrite Es. cbn [rbind]. rewrite Hk, Hv. by eexists.
Qed.

(** The new line at the end of a source and its end. *)
Lemma to_next_newline fuel opt lex : (1 < fuel)%nat -> emit_dent lex = 0 -> nested_bracket_level lex = 0 ->
  indent_level (indentation lex) = [0] -> feeds (lex_in lex) [NEWLINE] ->
  exists l, mp_lexer_to_next fuel opt lex = Some (inr l) /\ tok_kind l = MP_TOKEN_NEWLINE /\ emit_dent l = 0 /\
    nested_bracket_level l = 0 /\ feeds (lex_in l) [].
Proof.
  intros Hf He Hn Hd Hfe. unfold mp_lexer_to_next. rewrite (start_injection_feeds _ _ Hfe). cbn [in_bounds rbind].
  pose proof (feeds_cons _ _ _ Hfe) as H0. rewrite Hn, skip_at_newline by done. cbn [ok mbind option_bind rbind].
  cbn [emit_dent at_position nested_bracket_level]. rewrite He, Hn. cbn [Z.ltb Z.gtb Z.compare].
  pose proof (feeds_next _ _ _ Hfe) as Hfe'.
  assert (skip_whitespace fuel 0 false (lex_in lex) = Some (false, next_char (lex_in lex))) as ->.
  { destruct fuel as [|[|fuel]]; [lia..|]. cbn [skip_whitespace]. unfold is_end at 1, is_physical_newline. rewrite H0.
    change (NEWLINE =? MP_LEXER_EOF) with false. change (NEWLINE =? NEWLINE) with true. cbn [andb].
    by rewrite (feeds_nil _ Hfe'). }
  cbn [ok mbind option_bind rbind snd]. unfold newline_token, indent_top. cbn [indentation at_position].
  rewrite Hd. cbn [head mbind option_bind].
  assert (wrapu 32 (column (next_char (lex_in lex)) - 1) = 0) as ->.
  { destruct Hfe as [_ Hi _ _ _]. rewrite next_char_column by done. unfold next_position. by rewrite H0. }
  cbn [Z.eqb in_bounds]. eexists. split; [done|]. by split_and!.
Qed.

Lemma to_next_end fuel opt lex : emit_dent lex = 0 -> feeds (lex_in lex) [] ->
  exists l, mp_lexer_to_next fuel opt lex = Some (inr l) /\ tok_kind l = MP_TOKEN_END.
Proof.
  intros He Hfe. unfold mp_lexer_to_next. rewrite (start_injection_feeds _ _ Hfe). cbn [in_bounds rbind].
  pose proof (feeds_nil _ Hfe) as H0.
  assert (skip_whitespace fuel (nested_bracket_level lex) true (lex_in lex) = Some (false, lex_in lex)) as ->
    by (destruct fuel; cbn [skip_whitespace]; by rewrite H0).
  cbn [ok mbind option_bind rbind]. cbn [emit_dent at_position]. rewrite He, H0. by eexists.
Qed.

Lemma zero_column i l : feeds i (0 :: l) -> column (next_char i) = wrapu 32 (column i + 1).
Proof.
  intros Hf. rewrite next_char_column by apply Hf. unfold next_position. by rewrite (feeds_cons _ _ _ Hf).
Qed.

(** The three characters the queue starts with bring the column to one. *)
Lemma start_column src : Forall text_char src -> column (next_char (next_char (next_char (mp_reader_new_mem src)))) = 1.
Proof.
  intros H0%feeds_reader. pose proof (feeds_next _ _ _ H0) as H1. pose proof (feeds_next _ _ _ H1) as H2.
  by rewrite (zero_column _ _ H2), (zero_column _ _ H1), (zero_column _ _ H0).
Qed.

(** * Properties *)

(** C29: [repr] of a bytes object is read back as that object: the source that is the
    text [str_print] prints for any bytes is one bytes token that holds them,
    followed by the new line and the end of the source. *)
Theorem bytes_repr_roundtrip data fuel opt :
  Forall is_byte data -> (length data + 1 < fuel)%nat ->
  exists l0 l1 l2,
    mp_lexer_new fuel opt (str_print data) = Some (inr l0) /\ tok_kind l0 = MP_TOKEN_BYTES /\ vstr l0 = data /\
    mp_lexer_to_next fuel opt l0 = Some (inr l1) /\ tok_kind l1 = MP_TOKEN_NEWLINE /\
    mp_lexer_to_next fuel opt l1 = Some (inr l2) /\ tok_kind l2 = MP_TOKEN_END.
Proof.
  intros Hd Hf. pose proof (feeds_start _ (str_print_text data Hd)) as Hfe. rewrite str_print_complete in Hfe.
  unfold mp_lexer_new. set (lex := {| lex_in := _ |}).
  destruct (to_next_print data fuel opt lex Hd Hf eq_refl eq_refl Hfe) as (i & -> & Hi). cbn [rbind].
  set (l0 := {| lex_in := _ |}) at 1.
  destruct (to_next_newline fuel opt l0) as (l1 & E1 & K1 & D1 & _ & F1); [lia|done..|].
  destruct (to_next_end fuel opt l1 D1 F1) as (l2 & E2 & K2).
  exists l0, l1, l2. split_and!; try done. unfold l0. cbn [tok_kind tok_column token at_position lex_in lex].
  by rewrite start_column by (by apply str_print_text).
Qed.

Lemma bytes_repr_roundtrip_witness :
  exists l0 l1 l2,
    mp_lexer_new 9 0 (str_print [0; 39; 34; 10; 92; 102; 255]) = Some (inr l0) /\ tok_kind l0 = MP_TOKEN_BYTES /\
    vstr l0 = [0; 39; 34; 10; 92; 102; 255] /\
    mp_lexer_to_next 9 0 l0 = Some (inr l1) /\ tok_kind l1 = MP_TOKEN_NEWLINE /\
    mp_lexer_to_next 9 0 l1 = Some (inr l2) /\ tok_kind l2 = MP_TOKEN_END.
Proof.
  apply (bytes_repr_roundtrip [0; 39; 34; 10; 92; 102; 255] 9 0).
  - apply (bool_decide_unpack _). vm_compute. exact I.
  - apply Nat.ltb_lt. reflexivity.
Defined.
