(* ===== verification/LexCases.v ===== *)
(** Sources the tokeniser of [py/lexer.c] does not read as the language (or the
    comments of the file) would have it, each evaluated on the definitions of
    [Lexer]: an escaped brace before the closing quote of a format string, the
    escape whose value is the end-of-file marker, a backslash before a character
    outside ASCII, an indentation that does not fit in sixteen bits, and a nested
    format string that feeds on its own arguments. *)

From Stdlib Require Import ZArith Lia Ascii String.
From stdpp Require Import base option list numbers.
From S2P Require Import Prelude Lexer LexSpec.

(** * Definitions *)

(** The kind and the text of the tokens of a source, from the first. *)
Fixpoint tokens (n fuel : nat) (r : result mp_lexer_t) : list (mp_token_kind_t * list Z) :=
  match n, r with
  | S n, Some (inr lex) => (tok_kind lex, vstr lex) :: tokens n fuel (mp_lexer_to_next fuel 0 lex)
  | _, _ => []
  end.

Definition first_tokens (n fuel : nat) (src : list Z) : list (mp_token_kind_t * list Z) :=
  tokens n fuel (mp_lexer_new fuel 0 src).

(** The lexer after [n] more tokens than the first. *)
Definition lexer_after (n fuel : nat) (src : list Z) : result mp_lexer_t :=
  Nat.iter n (rbind (mp_lexer_to_next fuel 0)) (mp_lexer_new fuel 0 src).

(** The characters a nested argument copies for ever. *)
Definition copied (c : Z) : bool :=
  bool_decide (is_byte c) && negb (existsb (Z.eqb c) [0; CR; chr ":"; chr "}"; chr "!"]).

(** A queue of copied characters that reads what was added to the arguments. *)
Definition copying (i : input) : bool :=
  copied (chr0 i) && copied (chr1 i) && copied (chr2 i) &&
  negb (fstring_args_idx i =? 0) && (0 <=? fstring_args_idx i) &&
  (fstring_args_idx i <=? Z.of_nat (length (fstring_args i))) &&
  forallb copied (drop (Z.to_nat (fstring_args_idx i)) (fstring_args i)).

(** A format string whose argument starts another one and does not end it. *)
Definition self_feeding : list Z := bytes "f" ++ [DQUOTE] ++ bytes "{f'{]}" ++ [DQUOTE].

(** * Cases *)

(** After an escaped brace the closing quote is taken as text: the literal,
    which is complete, is reported as one that lacks its quote. *)
Example fstring_escaped_brace_quote :
  first_tokens 1 40 (bytes "f" ++ [DQUOTE] ++ bytes "{{" ++ [DQUOTE]) =
    [(MP_TOKEN_LONELY_STRING_OPEN, bytes "{{" ++ [DQUOTE])] /\
  first_tokens 1 40 (bytes "f" ++ [DQUOTE] ++ bytes "{{ " ++ [DQUOTE]) = [(MP_TOKEN_STRING, bytes "{{ ")].
Proof. split; vm_compute; reflexivity. Qed.

(** A character out of range is an invalid token, but for the one that is the
    marker of the end of file, which is dropped. *)
Example escape_of_eof :
  first_tokens 1 40 (bytes "'\Ufffffffe'") = [(MP_TOKEN_INVALID, [])] /\
  first_tokens 1 40 (bytes "'\Uffffffff'") = [(MP_TOKEN_STRING, [])].
Proof. split; vm_compute; reflexivity. Qed.

(** Characters outside ASCII are copied as bytes, but after a backslash their
    first byte is taken as a character and encoded again. *)
Example backslash_before_utf8 :
  first_tokens 1 40 (bytes "'" ++ [195; 169] ++ bytes "'") = [(MP_TOKEN_STRING, [195; 169])] /\
  first_tokens 1 40 (bytes "'\" ++ [195; 169] ++ bytes "'") = [(MP_TOKEN_STRING, [BACKSLASH; 195; 131; 169])].
Proof. split; vm_compute; reflexivity. Qed.

(** A level of indentation is kept in sixteen bits: the level pushed for 65,537
    columns is 1, so the same indentation on the next line opens another block. *)
Lemma indentation_truncated d : indent_top (indent_push d 65537) = Some 1.
Proof. reflexivity. Qed.

(** * The format string that never ends *)

Lemma copying_ok i : copying i = true <->
  copied (chr0 i) = true /\ copied (chr1 i) = true /\ copied (chr2 i) = true /\ fstring_args_idx i <> 0 /\
  0 <= fstring_args_idx i <= Z.of_nat (length (fstring_args i)) /\
  forallb copied (drop (Z.to_nat (fstring_args_idx i)) (fstring_args i)) = true.
Proof. unfold copying. rewrite !andb_true_iff, negb_true_iff, Z.eqb_neq, !Z.leb_le. tauto. Qed.

Lemma copied_char c : copied c = true ->
  is_byte c /\ c <> 0 /\ c <> CR /\ c <> chr ":" /\ c <> chr "}" /\ c <> chr "!".
Proof.
  unfold copied. rewrite andb_true_iff, negb_true_iff, bool_decide_eq_true. intros [Hb He]. split; [done|].
  cbn [existsb] in He. rewrite !orb_false_iff, !Z.eqb_neq in He. tauto.
Qed.

Lemma copied_not_eof c : copied c = true -> (c =? MP_LEXER_EOF) = false.
Proof. intros [Hb _]%copied_char. apply Z.eqb_neq. unfold is_byte in Hb. cbv [MP_LEXER_EOF MP_READER_EOF]. lia. Qed.

Lemma copying_in_argument i level : copying i = true -> in_argument i level = true.
Proof.
  intros (H0 & _)%copying_ok. pose proof (copied_not_eof _ H0) as He. apply copied_char in H0 as (_ & _ & _ & Hc & Hb & Hx).
  unfold in_argument, is_end. rewrite He. unfold is_char_or, is_char. apply Z.eqb_neq in Hc, Hb, Hx.
  rewrite Hc, Hb, Hx. cbn. by rewrite orb_true_r.
Qed.

Lemma copying_step i : copying i = true -> copying (next_char (add_args i [wrapu 8 (chr0 i)])) = true.
Proof.
  intros (H0 & H1 & H2 & Hi & Hr & Hd)%copying_ok.
  pose proof (copied_char _ H0) as (Hb & _). pose proof (copied_char _ H1) as (_ & Hz & _).
  pose proof (copied_char _ H2) as (_ & _ & Hcr & _).
  assert (Hw : wrapu 8 (chr0 i) = chr0 i) by (unfold wrapu, is_byte in *; apply Z.mod_small; lia).
  assert (Hd' : forallb copied (drop (Z.to_nat (fstring_args_idx i)) (fstring_args i ++ [chr0 i])) = true).
  { rewrite drop_app_le by lia. rewrite forallb_app, Hd. cbn. by rewrite H0. }
  destruct (drop (Z.to_nat (fstring_args_idx i)) (fstring_args i ++ [chr0 i])) as [|c l] eqn:E.
  { apply (f_equal length) in E. rewrite length_drop, length_app in E. cbn in E. lia. }
  cbn in Hd'. apply andb_true_iff in Hd' as [Hc Hl].
  assert (Hlook : (fstring_args i ++ [chr0 i]) !! Z.to_nat (fstring_args_idx i) = Some c).
  { rewrite <- (Nat.add_0_r (Z.to_nat _)), <- lookup_drop, E. done. }
  assert (Hl' : drop (Z.to_nat (fstring_args_idx i + 1)) (fstring_args i ++ [chr0 i]) = l).
  { rewrite Z2Nat.inj_add, <- drop_drop, E by lia. done. }
  unfold next_char. destruct (next_position _) as [ln col]. unfold shift, add_args, set_args.
  cbn [chr0 chr1 chr2 fstring_args fstring_args_idx]. rewrite Hw, Hlook. cbn [default id].
  rewrite (proj2 (Z.eqb_neq _ _) Hi), (proj2 (Z.eqb_neq _ _) Hz).
  rewrite (proj2 (Z.ltb_lt _ _)) by (rewrite length_app; cbn; lia). cbn [negb].
  unfold convert_newline. cbn [chr1 chr2]. rewrite (proj2 (Z.eqb_neq _ _) Hcr).
  unfold insert_newline. cbn [chr1 chr2]. rewrite (copied_not_eof _ Hc). cbn [andb].
  apply copying_ok. cbn [chr0 chr1 chr2 fstring_args fstring_args_idx]. rewrite Hl', length_app. cbn.
  split_and!; try done; lia.
Qed.

Lemma copying_never_ends fuel : forall i level, copying i = true -> argument_loop fuel i level = None.
Proof.
  induction fuel as [|fuel IH]; intros i level H; cbn [argument_loop]; rewrite (copying_in_argument i level H); [done|].
  by apply IH, copying_step.
Qed.

(** A format string is stuck at its cursor when an argument starts there that is
    not an escaped brace and is copied for ever. *)
Definition stuck (i : input) : bool :=
  negb (is_end i) && negb (is_char i NEWLINE) && is_char i "{"%char && negb (is_char (next_char i) "{"%char) &&
  copying (add_args (next_char i) (bytes "(")).

Lemma stuck_brace_loop fuel s : stuck (l_in s) = true -> brace_loop fuel true s = None.
Proof.
  unfold stuck. rewrite !andb_true_iff, !negb_true_iff. intros ((((_ & _) & Hc) & Hn) & Hs).
  destruct fuel as [|fuel]; cbn [brace_loop]; rewrite Hc; [done|]. cbn [andb].
  change (l_in (advance s)) with (next_char (l_in s)). rewrite Hn. by rewrite copying_never_ends.
Qed.

Lemma stuck_literal_loop fuel q s : (q =? "{"%char) = false -> stuck (l_in s) = true ->
  literal_loop fuel false true q 1 0 s = None.
Proof.
  intros Hq H. pose proof H as H'. unfold stuck in H. rewrite !andb_true_iff, !negb_true_iff in H.
  destruct H as ((((He & Hl) & Hc) & _) & _).
  destruct fuel as [|fuel]; cbn [literal_loop]; rewrite He, Hl; [done|]. cbn [negb andb orb].
  assert (Hc' : is_char (l_in s) q = false).
  { unfold is_char in *. apply Z.eqb_eq in Hc. rewrite Hc, Z.eqb_sym. done. }
  rewrite Hc'. by rewrite stuck_brace_loop.
Qed.

(** The lexer is at a format string in single quotes that is stuck from its first
    character. *)
Definition stuck_token (lex : mp_lexer_t) : bool :=
  match start_injection (lex_in lex) with
  | None => false
  | Some i =>
      let j := next_char (next_char i) in
      (emit_dent lex =? 0) && is_char i "f"%char && is_string_or_bytes i && negb (is_char_following i "r"%char) &&
      negb (is_char (next_char i) DQUOTE) && negb (is_char_and j QUOTE QUOTE) &&
      stuck (add_args j (bytes ".format("))
  end.

Lemma stuck_token_never_ends fuel opt lex : stuck_token lex = true -> mp_lexer_to_next fuel opt lex = None.
Proof.
  unfold stuck_token, mp_lexer_to_next. destruct (start_injection _) as [i|]; [|done]. cbn [in_bounds rbind].
  rewrite !andb_true_iff, !negb_true_iff. intros ((((((Hd & Hf) & Hs) & Hr) & Hq) & Hqq) & Hst).
  apply Z.eqb_eq in Hf, Hd.
  assert (Hw : skip_whitespace fuel (nested_bracket_level lex) true i = None \/
               skip_whitespace fuel (nested_bracket_level lex) true i = Some (false, i)).
  { destruct fuel; cbn [skip_whitespace]; unfold is_end, is_physical_newline, is_whitespace, is_char, is_char_and;
      rewrite Hf; [left | right]; reflexivity. }
  destruct Hw as [-> | ->]; cbn [ok mbind option_bind rbind]; [done|]. cbn [at_position emit_dent]. rewrite Hd.
  change (0 <? 0) with false. change (0 >? 0) with false. cbn iota.
  replace (is_end i) with false by (unfold is_end; by rewrite Hf). rewrite Hs.
  destruct fuel as [|fuel]; [done|]. cbn [strings_loop l_in l_kind].
  assert (Hp : literal_prefix i = Some (MP_TOKEN_STRING, false, true, 1%nat)).
  { unfold literal_prefix. rewrite Hr. unfold is_char. by rewrite Hf. }
  rewrite Hp. cbn [bool_decide Nat.iter]. rewrite (bool_decide_eq_false_2 (_ <> _)) by tauto. cbn [andb].
  destruct (decide _) as [_|n]; [|by destruct n].
  unfold Nat.iter, nat_rect, parse_string_literal, advance, at_kind, at_input. cbn [l_in l_kind l_vstr]. rewrite Hq, Hqq.
  by rewrite stuck_literal_loop.
Qed.

(** The token of the nested format string of [self_feeding], which asks for the
    buffer it reads from to grow with every character read, is found with no
    fuel: the loop ends when the memory does. *)
Lemma self_feeding_never_ends fuel opt : exists lex,
  lexer_after 4 40 self_feeding = Some (inr lex) /\ mp_lexer_to_next fuel opt lex = None.
Proof.
  assert (H : match lexer_after 4 40 self_feeding with Some (inr lex) => stuck_token lex | _ => false end = true)
    by (vm_compute; reflexivity).
  destruct (lexer_after 4 40 self_feeding) as [[e|lex]|]; try discriminate.
  exists lex. split; [done|]. by apply stuck_token_never_ends.
Qed.
