(* ===== verification/IntText.v ===== *)
(** The text of integers: parsing ([py/parsenumbase.c] and the integers of
    [py/parsenum.c]) and formatting ([mp_obj_int_formatted] of [py/objint.c] and
    [mp_obj_int_formatted_impl] of [py/objint_mpz.c]).

    Texts are lists of bytes.  [None] is a failed assertion, an access outside a
    buffer or an overflow of a signed machine integer. *)

From Stdlib Require Import ZArith Lia Ascii String.
From stdpp Require Import base option list numbers.
From S2P Require Import Prelude Mpn Mpz IntObj Lexer.

(** * Definitions *)

(** ** Parsing *)

(** The radix and the length of the prefix that gives it. *)
Definition mp_parse_num_base (str : list Z) (base : Z) : Z * nat :=
  match str with
  | c :: d :: _ =>
      if ((base =? 0) || (base =? 16)) && (c =? "0"%char) then
        if Z.lor d 32 =? "x"%char then (16, 2%nat)
        else if (base =? 0) && (Z.lor d 32 =? "o"%char) then (8, 2%nat)
        else if (base =? 0) && (Z.lor d 32 =? "b"%char) then (2, 2%nat)
        else (if base =? 0 then 10 else base, 0%nat)
      else if (base =? 8) && (c =? "0"%char) then (base, if negb (Z.lor d 32 =? "o"%char) then 0%nat else 2%nat)
      else if (base =? 2) && (c =? "0"%char) then (base, if negb (Z.lor d 32 =? "b"%char) then 0%nat else 2%nat)
      else (if base =? 0 then 10 else base, 0%nat)
  | _ => (if base =? 0 then 10 else base, 0%nat)
  end.

Fixpoint skip_space (str : list Z) : list Z :=
  match str with
  | c :: rest => if unichar_isspace c then skip_space rest else str
  | [] => []
  end.

(** The value of a character as a digit of any base, underscores apart. *)
Definition digit_value (dig : Z) : option Z :=
  if ("0"%char <=? dig) && (dig <=? "9"%char) then Some (dig - 48)
  else
    let dig := Z.lor dig 0x20 in
    if ("a"%char <=? dig) && (dig <=? "z"%char) then Some (dig - (97 - 10)) else None.

(** The digits read while the value is a small integer: the value and the rest
    of the text; [inl] for the jump to [overflow]. *)
Fixpoint small_digits (base : Z) (str : list Z) (int_val : Z) : option (unit + Z * list Z) :=
  match str with
  | [] => Some (inr (int_val, []))
  | c :: rest =>
      if negb (("0"%char <=? c) && (c <=? "9"%char)) && (c =? "_"%char) then small_digits base rest int_val else
      match digit_value c with
      | None => Some (inr (int_val, str))
      | Some dig =>
          if dig >=? base then Some (inr (int_val, str))
          else if mp_small_int_mul_overflow int_val base then Some (inl tt)
          else
            int_val ← s32 (int_val * base + dig);
            if MP_SMALL_INT_FITS int_val then small_digits base rest int_val else Some (inl tt)
      end
  end.

(** The object and the rest of the text. *)
Definition mp_obj_new_int_from_str_len (str : list Z) (neg : bool) (base : Z) : option (int_obj * list Z) :=
  '(z, n) ← mpz_set_from_str mpz_init_zero str neg base;
  Some (BIG z, drop (Z.to_nat n) str).

(** [SyntaxError] when the lexer is given, [ValueError] otherwise. *)
Inductive parse_exn := PARSE_ERROR.

Definition mp_parse_num_integer (str : list Z) (base : Z) : option (parse_exn + int_obj) :=
  if (negb (base =? 0) && (base <? 2)) || (base >? 36) then Some (inl PARSE_ERROR) else
  let str := skip_space str in
  let '(neg, str) :=
    match str with
    | c :: rest => if c =? "+"%char then (false, rest) else if c =? "-"%char then (true, rest) else (false, str)
    | [] => (false, str)
    end in
  let '(base, skip) := mp_parse_num_base str base in
  let str := drop skip str in
  r ← small_digits base str 0;
  '(ret_val, rest) ←
    match r with
    | inr (int_val, rest) =>
        int_val ← (if neg : bool then s32 (- int_val) else Some int_val);
        Some (MP_OBJ_NEW_SMALL_INT int_val, rest)
    | inl tt => mp_obj_new_int_from_str_len str neg base
    end;
  if (length rest =? length str)%nat then Some (inl PARSE_ERROR)
  else if (length (skip_space rest) =? 0)%nat then Some (inr ret_val) else Some (inl PARSE_ERROR).

(** ** Formatting *)

Definition log_base2_floor : list Z := [0; 1; 1; 2; 2; 2; 2; 3; 3; 3; 3; 3; 3; 3; 3; 4].

Definition mp_int_format_size (num_bits base : Z) (prefix : list Z) (comma : Z) : option Z :=
  log ← (if (2 <=? base) && (base <=? 16) then log_base2_floor !! Z.to_nat (base - 1) else None);
  let num_digits := num_bits / log + 1 in
  let num_commas := if comma =? 0 then 0 else num_digits / 3 in
  Some (num_digits + num_commas + Z.of_nat (length prefix) + 2).

(** The loop over the digits: the text written so far, and the room left in the
    buffer; [since] is [last_comma - b]. *)
Fixpoint format_loop (fuel : nat) (num base base_char comma since room : Z) (s : list Z) : option (list Z * Z) :=
  match fuel with
  | O => None
  | S fuel =>
      let c := num mod base in
      let num := num / base in
      let c := if c >=? 10 then c + (base_char - 10) else c + 48 in
      let s := wrapu 8 c :: s in
      let room := room - 1 in
      let since := since + 1 in
      let put := negb (comma =? 0) && negb (num =? 0) && (room >? 0) && (since =? 3) in
      let '(s, room, since) := if put then (comma :: s, room - 1, 0) else (s, room, since) in
      if (room >? 0) && negb (num =? 0) then format_loop fuel num base base_char comma since room s
      else Some (s, room)
  end.

(** The text of a small integer: what does not fit in the buffer is left out. *)
Definition format_small (num base : Z) (prefix : list Z) (base_char comma : Z) : option (list Z) :=
  needed_size ← mp_int_format_size 32 base prefix comma;
  let sign := num <? 0 in
  num ← (if sign then s32 (- num) else Some num);
  let room := needed_size - 1 in
  '(s, room) ← (if num =? 0 then Some ([48], room - 1) else format_loop 32 num base base_char comma 0 room []);
  let fits := Z.of_nat (length prefix) <? room in
  let '(s, room) := if fits then (prefix ++ s, room - Z.of_nat (length prefix)) else (s, room) in
  Some (if sign && (room >? 0) then chr "-" :: s else s).

Definition mpz_max_num_bits (z : mpz_t) : Z := len z * DIG_SIZE.

(** The characters and the zero after them are written without a test. *)
Definition mp_obj_int_formatted_impl (self : mpz_t) (base : Z) (prefix : list Z) (base_char comma : Z) :
    option (list Z) :=
  needed_size ← mp_int_format_size (mpz_max_num_bits self) base prefix comma;
  s ← mpz_as_str_inpl self base prefix base_char comma;
  if Z.of_nat (length s) + 1 <=? needed_size then Some s else None.

Definition mp_obj_int_formatted (self : int_obj) (base : Z) (prefix : list Z) (base_char comma : Z) :
    option (list Z) :=
  match self with
  | SMALL num => format_small num base prefix base_char comma
  | BIG z => mp_obj_int_formatted_impl z base prefix base_char comma
  end.

(** [repr] of an integer. *)
Definition mp_obj_int_print (self : int_obj) : option (list Z) := mp_obj_int_formatted self 10 [] 0 0.
