(* ===== verification/IntTextProps.v ===== *)
(** Properties of the text of integers: parsing agrees with a reference parser
    that has no machine words, formatting gives the canonical numeral and never
    leaves its buffer, and what is formatted is parsed back, also through the
    tokeniser. *)

From Stdlib Require Import ZArith Lia Ascii String.
From stdpp Require Import base option list numbers.
From S2P Require Import Prelude Mpn MpnSpec Mpz MpzSpec MpzConv IntObj IntSpec Lexer LexSpec LexText IntText.

(** * Definitions *)

(** The sign of a text and the rest. *)
Definition split_sign (str : list Z) : bool * list Z :=
  match str with
  | c :: rest => if c =? "+"%char then (false, rest) else if c =? "-"%char then (true, rest) else (false, str)
  | [] => (false, str)
  end.

(** What [int] reads, by the reference of the language: spaces around the text do
    not count; then come a sign, the prefix [0x], [0o] or [0b] where the base is
    that of the prefix or not given, and one or more digits and letters whose
    values are below the base.  Leading zeros are allowed in any base, and
    underscores are left out. *)
Definition white (c : Z) : bool := bool_decide (c ∈ [9; 10; 11; 12; 13; 32]).

Fixpoint drop_white (s : list Z) : list Z :=
  match s with c :: s' => if white c then drop_white s' else s | [] => [] end.

Definition strip (s : list Z) : list Z := reverse (drop_white (reverse (drop_white s))).

Definition lower (c : Z) : Z := if (65 <=? c) && (c <=? 90) then c + 32 else c.

Definition digit_of (base c : Z) : option Z :=
  '(d, _) ← list_find (fun x => x = lower c) (bytes "0123456789abcdefghijklmnopqrstuvwxyz");
  if Z.of_nat d <? base then Some (Z.of_nat d) else None.

Definition radix_of (l : Z) : option Z :=
  if chr "x" =? lower l then Some 16 else if chr "o" =? lower l then Some 8 else if chr "b" =? lower l then Some 2 else None.

(** The base of the digits, and the text without the prefix. *)
Definition radix_prefix (base : Z) (s : list Z) : Z * list Z :=
  let plain := (if base =? 0 then 10 else base, s) in
  match s with
  | z :: l :: digits =>
      if z =? chr "0" then
        match radix_of l with
        | Some b => if (base =? 0) || (base =? b) then (b, digits) else plain
        | None => plain
        end
      else plain
  | _ => plain
  end.

Definition int_of_text (str : list Z) (base : Z) : option Z :=
  if bool_decide (base = 0 \/ 2 <= base <= 36) then
    let s := strip str in
    let '(neg, s) :=
      match s with
      | 43 :: s => (false, s)
      | 45 :: s => (true, s)
      | s => (false, s)
      end in
    let '(b, s) := radix_prefix base s in
    match mapM (digit_of b) s with
    | None | Some [] => None
    | Some ds => let v := foldl (fun v d => v * b + d) 0 ds in Some (if neg : bool then - v else v)
    end
  else None.

(** The same in the order the code goes: spaces, a sign, the prefix of the base, at
    least one digit, spaces. *)
Definition parse_steps (str : list Z) (base : Z) : option Z :=
  if (negb (base =? 0) && (base <? 2)) || (base >? 36) then None else
  let '(neg, str) := split_sign (skip_space str) in
  let '(base, skip) := mp_parse_num_base str base in
  let str := drop skip str in
  let ds := digit_prefix base str in
  if bool_decide (ds = []) then None
  else if bool_decide (skip_space (drop (length ds) str) = [])
  then Some (if neg : bool then - numeral base 0 ds else numeral base 0 ds) else None.

(** The numeral of a value in a base, with a prefix, as [repr] and [hex] write
    it: the sign, the prefix and digits without leading zeros. *)
Definition numeral_text (v base bc : Z) (prefix text : list Z) : Prop :=
  exists ds, text = (if v <? 0 then [45] else []) ++ prefix ++ (digit_char bc <$> ds) /\
    Forall (fun d => 0 <= d < base) ds /\ numeral base 0 ds = Z.abs v /\ ds <> [] /\ (head ds = Some 0 -> ds = [0]).

(** * Parsing *)

Lemma digit_value_char c : is_byte c -> c <> chr "_" -> digit_value c = char_value c.
Proof.
  intros Hb _. assert (Hall : forallb (fun c => bool_decide (digit_value c = char_value c)) (seqZ 0 256) = true)
    by (vm_compute; reflexivity).
  rewrite forallb_forall in Hall. specialize (Hall c). rewrite bool_decide_eq_true in Hall. apply Hall.
  rewrite <- list_elem_of_In. apply elem_of_seqZ. unfold is_byte in Hb. lia.
Qed.

Lemma digit_bound c d : digit_value c = Some d -> 0 <= d < 36.
Proof.
  unfold digit_value. change (chr "0") with 48. change (chr "9") with 57. change (chr "a") with 97. change (chr "z") with 122.
  destruct (Z.leb_spec 48 c), (Z.leb_spec c 57), (Z.leb_spec 97 (Z.lor c 32)), (Z.leb_spec (Z.lor c 32) 122); cbn; intros [= <-]; lia.
Qed.

Lemma numeral_cons base v d ds : numeral base v (d :: ds) = numeral base (v * base + d) ds.
Proof. done. Qed.

Lemma numeral_ge base v ds : 2 <= base -> 0 <= v -> Forall (Z.le 0) ds -> v <= numeral base v ds.
Proof.
  intros Hb Hv Hds. revert v Hv. induction Hds as [|d ds Hd _ IH]; intros v Hv; [done|].
  rewrite numeral_cons. specialize (IH (v * base + d)). nia.
Qed.

Lemma digit_prefix_nonneg base str : Forall (Z.le 0) (digit_prefix base str).
Proof.
  induction str as [|c str IH]; [done|]. cbn [digit_prefix]. destruct (char_value c) eqn:E; [|done].
  case_match; [done|]. constructor; [by eapply char_value_nonneg|done].
Qed.

Lemma small_digits_spec base str : 2 <= base <= 36 -> Forall is_byte str -> chr "_" ∉ str ->
  forall v, 0 <= v <= MP_SMALL_INT_MAX ->
  small_digits base str v = Some (inl tt) /\ 0 < numeral base v (digit_prefix base str) \/
  small_digits base str v = Some (inr (numeral base v (digit_prefix base str), drop (length (digit_prefix base str)) str)) /\
  0 <= numeral base v (digit_prefix base str) <= MP_SMALL_INT_MAX.
Proof.
  intros Hb. induction str as [|c str IH]; intros Hs Hu v Hv; [right; done|].
  apply Forall_cons_1 in Hs as [Hc Hs]. apply not_elem_of_cons in Hu as [Hcu Hu].
  cbn [small_digits digit_prefix]. rewrite (proj2 (Z.eqb_neq c _)) by congruence. rewrite andb_false_r.
  rewrite <- (digit_value_char c Hc) by congruence. destruct (digit_value c) as [d|] eqn:Ed; [|right; done].
  pose proof (digit_bound _ _ Ed) as Hd. rewrite Z.geb_leb. destruct (Z.leb_spec base d); [right; done|].
  cbn [length drop]. rewrite numeral_cons. pose proof (digit_prefix_nonneg base str) as Hn.
  assert (Hover : 0 < v * base + d -> 0 < numeral base (v * base + d) (digit_prefix base str)).
  { intros Hp. pose proof (numeral_ge base (v * base + d) _ ltac:(lia) ltac:(lia) Hn). lia. }
  pose proof (mul_overflow_ok v base) as Eo. unfold MP_SMALL_INT_MIN, MP_SMALL_INT_MAX in *.
  destruct (mp_small_int_mul_overflow v base); [left; split; [done|]; apply Hover; symmetry in Eo; nia|].
  symmetry in Eo. apply negb_false_iff, andb_true_iff in Eo as [_ Eo%Z.leb_le].
  unfold s32. rewrite (proj2 (Z.leb_le _ _)), (proj2 (Z.ltb_lt _ _)) by nia. sbind. cbn [andb]. sbind.
  pose proof (fits_spec (v * base + d) ltac:(nia)) as Ef. unfold MP_SMALL_INT_MIN, MP_SMALL_INT_MAX in Ef.
  destruct (MP_SMALL_INT_FITS _); [apply IH; [done..|nia]|].
  left. split; [done|]. apply Hover. nia.
Qed.

Lemma parse_num_base_ok str base : base = 0 \/ 2 <= base <= 36 -> 2 <= fst (mp_parse_num_base str base) <= 36.
Proof. intros H. unfold mp_parse_num_base. repeat case_match; cbn [fst]; lia. Qed.

Lemma skip_space_sub (P : Z -> Prop) str : Forall P str -> Forall P (skip_space str).
Proof. induction 1 as [|c str Hc Hs IH]; [done|]. cbn. destruct (unichar_isspace c); [done|]. by constructor. Qed.

Lemma split_sign_sub (P : Z -> Prop) str : Forall P str -> Forall P (snd (split_sign str)).
Proof. intros [|c s Hc Hs]; [done|]. cbn. repeat case_match; cbn; [done..|by constructor]. Qed.

Lemma zval_rep z v : num (Z.abs v) (dig z) -> neg z = (v <? 0) -> len z <= alloc z -> mpz_ok z /\ zval z = v.
Proof. intros. apply rep_mpz_ok. by split_and!. Qed.

Lemma digit_prefix_length base str : length (drop (length (digit_prefix base str)) str) =
  (length str - length (digit_prefix base str))%nat.
Proof. apply length_drop. Qed.

(** Whether the small integers were enough or not, the digits give the object and
    the rest. *)
Lemma parse_digits base str (neg : bool) : 2 <= base <= 36 -> Forall is_byte str -> chr "_" ∉ str ->
  exists o,
    (r ← small_digits base str 0;
     match r with
     | inr (int_val, rest) =>
         int_val ← (if neg : bool then s32 (- int_val) else Some int_val);
         Some (MP_OBJ_NEW_SMALL_INT int_val, rest)
     | inl tt => mp_obj_new_int_from_str_len str neg base
     end) = Some (o, drop (length (digit_prefix base str)) str) /\
    int_ok o /\
    ival o = if neg then - numeral base 0 (digit_prefix base str) else numeral base 0 (digit_prefix base str).
Proof.
  intros Hb Hs Hu. destruct (small_digits_spec base str Hb Hs Hu 0) as [(-> & Hp) | (-> & Hr)].
  { split; done. }
  - sbind. unfold mp_obj_new_int_from_str_len.
    destruct (mpz_set_from_str_ok mpz_init_zero str neg base ltac:(done) Hb) as (z & -> & Hn & Hs' & _ & Ha). sbind.
    eexists. split; [by rewrite Nat2Z.id|]. cbn [int_ok ival].
    apply zval_rep; [|rewrite Hs'|done].
    + destruct neg; [rewrite Z.abs_opp|]; by rewrite Z.abs_eq by lia.
    + destruct neg; symmetry; [apply Z.ltb_lt|apply Z.ltb_ge]; lia.
  - sbind. unfold MP_SMALL_INT_MAX in Hr. destruct neg.
    + unfold s32. rewrite (proj2 (Z.leb_le _ _)), (proj2 (Z.ltb_lt _ _)) by lia. cbn [andb]. sbind.
      eexists. split; [done|]. apply small_int_ok. unfold MP_SMALL_INT_MIN, MP_SMALL_INT_MAX. lia.
    + sbind. eexists. split; [done|]. apply small_int_ok. unfold MP_SMALL_INT_MIN, MP_SMALL_INT_MAX. lia.
Qed.

Lemma not_elem_sub (x : Z) (P : list Z -> list Z) str :
  (forall Q : Z -> Prop, Forall Q str -> Forall Q (P str)) -> x ∉ str -> x ∉ P str.
Proof.
  intros HP Hx Hin. assert (Hall : Forall (fun y => y ∈ str) (P str)) by (apply HP; apply list.Forall_forall; done).
  rewrite list.Forall_forall in Hall. by apply Hx, Hall.
Qed.

Lemma parse_integer_ok str base : Forall is_byte str -> chr "_" ∉ str ->
  match parse_steps str base with
  | Some v => exists o, mp_parse_num_integer str base = Some (inr o) /\ int_ok o /\ ival o = v
  | None => mp_parse_num_integer str base = Some (inl PARSE_ERROR)
  end.
Proof.
  intros Hs Hu. unfold parse_steps, mp_parse_num_integer.
  destruct ((negb (base =? 0) && (base <? 2)) || (base >? 36)) eqn:Eb; [done|].
  assert (Hbase : base = 0 \/ 2 <= base <= 36) by (destruct (Z.eqb_spec base 0); [by left|]; cbn in Eb; lia).
  assert (Hsub : forall Q : Z -> Prop, Forall Q str -> Forall Q (snd (split_sign (skip_space str))))
    by (intros; by apply split_sign_sub, skip_space_sub).
  pose proof (Hsub _ Hs) as Hs1. pose proof (not_elem_sub _ (fun s => snd (split_sign (skip_space s))) _ Hsub Hu) as Hu1.
  cbn beta in Hu1. fold (split_sign (skip_space str)). destruct (split_sign (skip_space str)) as [neg s1]. cbn [snd] in Hs1, Hu1.
  pose proof (parse_num_base_ok s1 base Hbase) as Hb2.
  destruct (mp_parse_num_base s1 base) as [base' skip]. cbn [fst] in Hb2.
  assert (Hs2 : Forall is_byte (drop skip s1)) by by apply Forall_drop.
  assert (Hu2 : chr "_" ∉ drop skip s1) by (intros Hin; apply Hu1; by apply (subseteq_drop skip s1 _ Hin)).
  destruct (parse_digits base' (drop skip s1) neg Hb2 Hs2 Hu2) as (o & E & Ho & Hv).
  destruct (small_digits base' (drop skip s1) 0) as [r|]; [|done]. sbind. cbn [mbind option_bind] in E. rewrite E. sbind.
  rewrite digit_prefix_length. pose proof (length_digit_prefix base' (drop skip s1)) as Hl.
  destruct (digit_prefix base' (drop skip s1)) as [|d ds] eqn:Ed.
  { rewrite bool_decide_true by done. cbn [length]. by rewrite Nat.sub_0_r, Nat.eqb_refl. }
  rewrite bool_decide_false by done. rewrite (proj2 (Nat.eqb_neq _ _)) by (cbn in *; lia).
  destruct (skip_space _) as [|c rest].
  - rewrite bool_decide_true by done. cbn [length Nat.eqb]. by exists o.
  - rewrite bool_decide_false by done. done.
Qed.

(** ** The steps of the code and the reference *)

Lemma white_ok c : is_byte c -> unichar_isspace c = white c.
Proof.
  intros Hb. assert (Hall : forallb (fun c => bool_decide (unichar_isspace c = white c)) (seqZ 0 256) = true) by (vm_compute; reflexivity).
  rewrite forallb_forall in Hall. specialize (Hall c). rewrite bool_decide_eq_true in Hall. apply Hall.
  rewrite <- list_elem_of_In. apply elem_of_seqZ. unfold is_byte in Hb. lia.
Qed.

Definition value_of (base c : Z) : option Z := d ← char_value c; if base <=? d then None else Some d.

(** A character: its value, and the letter of a prefix. *)
Lemma char_facts c : is_byte c ->
  (fst <$> list_find (fun x => x = lower c) (bytes "0123456789abcdefghijklmnopqrstuvwxyz")) = Z.to_nat <$> char_value c /\
  (white c = true -> char_value c = None) /\
  (Z.lor c 32 =? chr "x") = (chr "x" =? lower c) /\ (Z.lor c 32 =? chr "o") = (chr "o" =? lower c) /\
  (Z.lor c 32 =? chr "b") = (chr "b" =? lower c) /\ (white c = true -> lower c = c /\ c <> 43 /\ c <> 45 /\ c <> 48).
Proof.
  intros Hb. set (P c := bool_decide ((fst <$> list_find (fun x => x = lower c) (bytes "0123456789abcdefghijklmnopqrstuvwxyz")) = Z.to_nat <$> char_value c) &&
    (negb (white c) || bool_decide (char_value c = None)) && Bool.eqb (Z.lor c 32 =? chr "x") (chr "x" =? lower c) &&
    Bool.eqb (Z.lor c 32 =? chr "o") (chr "o" =? lower c) && Bool.eqb (Z.lor c 32 =? chr "b") (chr "b" =? lower c) &&
    (negb (white c) || ((lower c =? c) && negb (c =? 43) && negb (c =? 45) && negb (c =? 48)))).
  assert (Hall : forallb P (seqZ 0 256) = true) by (vm_compute; reflexivity).
  rewrite forallb_forall in Hall. specialize (Hall c). rewrite <- list_elem_of_In, elem_of_seqZ in Hall.
  specialize (Hall ltac:(unfold is_byte in Hb; lia)). unfold P in Hall.
  rewrite !andb_true_iff, !bool_decide_eq_true, !eqb_true_iff, !orb_true_iff, !bool_decide_eq_true, !andb_true_iff, !negb_true_iff,
    !Z.eqb_neq, Z.eqb_eq in Hall.
  destruct Hall as (((((H1 & H2) & H3) & H4) & H5) & H6). split; [done|]. split; [intros Hw; destruct H2; congruence|]. split_and!; try done.
  intros Hw. destruct H6 as [|(((? & ?) & ?) & ?)]; [congruence|done].
Qed.

Lemma digit_of_ok base c : is_byte c -> digit_of base c = value_of base c.
Proof.
  intros Hb. destruct (char_facts c Hb) as (H & _). unfold digit_of, value_of.
  destruct (list_find _ _) as [[d x]|], (char_value c) as [v|] eqn:Ev; cbn in H; try done. injection H as ->.
  pose proof (char_value_nonneg _ _ Ev). cbn [mbind option_bind]. rewrite Z2Nat.id by done.
  destruct (Z.ltb_spec v base), (Z.leb_spec base v); try done; lia.
Qed.

Lemma skip_space_ok s : Forall is_byte s -> skip_space s = drop_white s.
Proof. induction 1 as [|c s Hc _ IH]; [done|]. cbn. rewrite (white_ok c Hc). by destruct (white c). Qed.

Lemma drop_white_split s : exists t, s = t ++ drop_white s /\ Forall (fun c => white c = true) t /\
  match drop_white s with [] => True | c :: _ => white c = false end.
Proof.
  induction s as [|c s (t & E & Ht & Hd)]; [by exists []|]. cbn [drop_white]. destruct (white c) eqn:Ec; [|by exists []].
  exists (c :: t). cbn. rewrite <- E. split; [done|]. split; [by constructor|done].
Qed.

(** What follows the leading spaces is the text and the spaces after it. *)
Lemma strip_split s : exists t, drop_white s = strip s ++ t /\ Forall (fun c => white c = true) t /\
  (forall s' c, strip s = s' ++ [c] -> white c = false) /\ (strip s = [] -> t = []).
Proof.
  unfold strip. destruct (drop_white_split (reverse (drop_white s))) as (t & E & Ht & Hd).
  set (m := drop_white (reverse (drop_white s))) in *. exists (reverse t).
  assert (drop_white s = reverse m ++ reverse t) as Es by (rewrite <- reverse_app, <- E; by rewrite reverse_involutive).
  split; [done|]. split; [by apply Forall_reverse|]. split.
  - intros s' c Em. apply (f_equal reverse) in Em. rewrite reverse_involutive, reverse_app in Em. cbn in Em.
    rewrite Em in Hd. exact Hd.
  - intros Em. rewrite Em in Es. destruct (drop_white_split s) as (u & _ & _ & Hu). rewrite Es in Hu. cbn in Hu.
    destruct (reverse t) as [|c t'] eqn:Et; [done|]. apply Forall_reverse in Ht. rewrite Et in Ht.
    apply Forall_cons_1 in Ht as [Hc _]. congruence.
Qed.

Lemma skip_white t : Forall is_byte t -> skip_space t = [] <-> Forall (fun c => white c = true) t.
Proof.
  intros Hb. rewrite skip_space_ok by done. split.
  - intros E. destruct (drop_white_split t) as (u & Eu & Hu & _). rewrite E, app_nil_r in Eu. by rewrite Eu.
  - induction 1 as [|c t Hc Ht IH]; [done|]. cbn. rewrite Hc. apply IH. by apply Forall_cons_1 in Hb as [_ ?].
Qed.

(** The digits of a text that has spaces after it. *)
Lemma digit_prefix_text base s t : Forall is_byte s -> Forall (fun c => white c = true) t -> Forall is_byte t ->
  digit_prefix base (s ++ t) = digit_prefix base s.
Proof.
  intros Hs Ht Hbt. induction Hs as [|c s Hc Hs IH]; cbn [app digit_prefix].
  - destruct Ht as [|c t Hc _]; [done|]. cbn [digit_prefix]. apply Forall_cons_1 in Hbt as [Hb _].
    destruct (char_facts c Hb) as (_ & H & _). by rewrite (H Hc).
  - by rewrite IH.
Qed.

Lemma digits_all base s : Forall is_byte s ->
  match mapM (digit_of base) s with
  | Some ds => digit_prefix base s = ds /\ length ds = length s
  | None => (length (digit_prefix base s) < length s)%nat
  end.
Proof.
  induction 1 as [|c s Hc Hs IH]; [done|]. cbn [mapM digit_prefix length]. rewrite digit_of_ok by done. unfold value_of.
  destruct (char_value c) as [d|]; cbn [mbind option_bind]; [|cbn; lia].
  destruct (base <=? d); cbn [mbind option_bind]; [cbn; lia|].
  destruct (mapM (digit_of base) s) as [ds|]; cbn [mbind option_bind mret option_ret length]; [|lia].
  destruct IH as [-> ->]. done.
Qed.

Lemma split_sign_text m t : (m = [] -> t = []) ->
  split_sign (m ++ t) = (fst (split_sign m), snd (split_sign m) ++ t).
Proof. intros Hm. destruct m as [|c m]; [by rewrite Hm|]. cbn. by repeat case_match. Qed.

Lemma match_sign m : match m with 43 :: s => (false, s) | 45 :: s => (true, s) | s => (false, s) end = split_sign m.
Proof.
  destruct m as [|c m]; [done|]. cbn [split_sign]. change (chr "+") with 43. change (chr "-") with 45.
  destruct (Z.eqb_spec c 43) as [->|H1]; [done|]. destruct (Z.eqb_spec c 45) as [->|H2]; [done|].
  repeat case_match; simplify_eq; done.
Qed.

(** The prefix, which is not one with the spaces. *)
Lemma parse_num_base_two base z l r : is_byte l -> mp_parse_num_base (z :: l :: r) base =
  (let plain := (if base =? 0 then 10 else base, 0%nat) in
   if z =? 48 then
     match radix_of l with
     | Some b => if (base =? 0) || (base =? b) then (b, 2%nat) else plain
     | None => plain
     end
   else plain).
Proof.
  intros Hl. destruct (char_facts l Hl) as (_ & _ & Ex & Eo & Eb & _). cbn [mp_parse_num_base]. unfold radix_of.
  rewrite Ex, Eo, Eb. change (chr "0") with 48. destruct (z =? 48); rewrite ?andb_false_r, ?andb_true_r; [|done].
  assert (forall a b : Z, a = lower l -> a <> b -> (b =? lower l) = false) as Hne by (intros a b <- ?; apply Z.eqb_neq; congruence).
  destruct (Z.eqb_spec (chr "x") (lower l)) as [E|]; [rewrite (Hne _ (chr "o") E), (Hne _ (chr "b") E) by done|
    destruct (Z.eqb_spec (chr "o") (lower l)) as [E|]; [rewrite (Hne _ (chr "b") E) by done|
    destruct (Z.eqb_spec (chr "b") (lower l))]]; cbn -[Z.eqb].
  all: destruct (Z.eqb_spec base 0) as [->|]; [done|]; destruct (Z.eqb_spec base 16) as [->|]; [done|];
    destruct (Z.eqb_spec base 8) as [->|]; [done|]; destruct (Z.eqb_spec base 2) as [->|]; done.
Qed.

Lemma radix_prefix_ok base s t : Forall is_byte s -> Forall is_byte t -> Forall (fun c => white c = true) t ->
  exists skip, mp_parse_num_base (s ++ t) base = (fst (radix_prefix base s), skip) /\ (skip <= length s)%nat /\
    snd (radix_prefix base s) = drop skip s.
Proof.
  intros Hs Hbt Ht. destruct s as [|z [|l s]]; cbn [app radix_prefix].
  - exists 0%nat. split; [|done]. destruct t as [|c [|d t]]; [done..|].
    apply Forall_cons_1 in Ht as [Hc _]. apply Forall_cons_1 in Hbt as [Hb Hbt]. apply Forall_cons_1 in Hbt as [Hd _].
    destruct (char_facts c Hb) as (_ & _ & _ & _ & _ & H). rewrite parse_num_base_two by done. cbn zeta.
    rewrite (proj2 (Z.eqb_neq _ _)) by (by apply H). done.
  - exists 0%nat. split; [|split; [lia|done]]. destruct t as [|d t]; [done|].
    apply Forall_cons_1 in Ht as [Hc _]. apply Forall_cons_1 in Hbt as [Hb _]. rewrite parse_num_base_two by done. cbn zeta.
    assert (radix_of d = None) as ->; [|by destruct (z =? 48)].
    destruct (char_facts d Hb) as (_ & _ & _ & _ & _ & H). destruct (H Hc) as (El & _). unfold radix_of. rewrite El.
    unfold white in Hc. rewrite bool_decide_eq_true in Hc. repeat (apply elem_of_cons in Hc as [-> | Hc]; [done|]).
    by apply elem_of_nil in Hc.
  - apply Forall_cons_1 in Hs as [_ Hs]. apply Forall_cons_1 in Hs as [Hl _]. rewrite parse_num_base_two by done. cbn zeta.
    change (chr "0") with 48. destruct (z =? 48); [|by exists 0%nat; split; [done|split; [lia|done]]].
    destruct (radix_of l) as [b|]; [destruct (_ || _); [exists 2%nat|exists 0%nat]|exists 0%nat]; (split; [done|split; [cbn; lia|done]]).
Qed.

Lemma foldl_numeral base v ds : foldl (fun v d => v * base + d) v ds = numeral base v ds.
Proof. revert v. induction ds as [|d ds IH]; intros v; [done|]. cbn. by rewrite IH. Qed.

(** The digits reach the spaces exactly when all the text is digits. *)
Lemma digits_then_space base s t : Forall is_byte s -> Forall is_byte t -> Forall (fun c => white c = true) t ->
  (forall s' c, s = s' ++ [c] -> white c = false) ->
  let ds := digit_prefix base (s ++ t) in
  match mapM (digit_of base) s with
  | Some ds' => ds = ds' /\ skip_space (drop (length ds) (s ++ t)) = []
  | None => skip_space (drop (length ds) (s ++ t)) <> []
  end.
Proof.
  intros Hs Hb Ht Hlast ds. unfold ds. rewrite digit_prefix_text by done. pose proof (digits_all base s Hs) as H.
  destruct (mapM (digit_of base) s) as [ds'|].
  - destruct H as [-> ->]. split; [done|]. rewrite drop_app_length. by apply skip_white.
  - rewrite drop_app_le by lia. intros E. apply skip_white in E; [|apply Forall_app; split; [by apply Forall_drop|done]].
    apply Forall_app in E as [E _]. destruct s as [|x s0] using rev_ind; [cbn in H; lia|].
    rewrite length_app in H. cbn [length] in H. rewrite drop_app_le in E by lia. apply Forall_app in E as [_ E].
    apply Forall_cons_1 in E as [E _]. by rewrite (Hlast s0 x eq_refl) in E.
Qed.

Lemma suffix_last (s s1 : list Z) n : s1 = drop n s -> (forall s' c, s = s' ++ [c] -> white c = false) ->
  forall s' c, s1 = s' ++ [c] -> white c = false.
Proof.
  intros -> H s' c E. apply (H (take n s ++ s') c). by rewrite <- app_assoc, <- E, take_drop.
Qed.

Lemma split_sign_drop m : exists n, snd (split_sign m) = drop n m.
Proof. destruct m as [|c m]; [by exists 0%nat|]. cbn. repeat case_match; [by exists 1%nat|by exists 1%nat|by exists 0%nat]. Qed.

Lemma parse_steps_ok str base : Forall is_byte str -> parse_steps str base = int_of_text str base.
Proof.
  intros Hs. unfold parse_steps, int_of_text. rewrite match_sign.
  assert ((negb (base =? 0) && (base <? 2)) || (base >? 36) = negb (bool_decide (base = 0 \/ 2 <= base <= 36))) as ->.
  { case_bool_decide; destruct (Z.eqb_spec base 0); cbn; lia. }
  destruct (bool_decide _); [cbn [negb]|done].
  rewrite skip_space_ok by done. destruct (strip_split str) as (t & E & Ht & Hlast & Hne). rewrite E.
  assert (Forall is_byte (strip str) /\ Forall is_byte t) as [Hm Hbt].
  { apply Forall_app. rewrite <- E. destruct (drop_white_split str) as (u & Eu & _). rewrite Eu in Hs. by apply Forall_app in Hs as [_ ?]. }
  rewrite split_sign_text by done. destruct (split_sign_drop (strip str)) as [k Ek].
  pose proof (suffix_last _ _ _ Ek Hlast) as Hlast1. pose proof (split_sign_sub _ _ Hm) as Hm1.
  destruct (split_sign (strip str)) as [neg s1]. cbn [fst snd] in *.
  destruct (radix_prefix_ok base s1 t Hm1 Hbt Ht) as (skip & Eb & Hskip & Er). rewrite Eb.
  pose proof (suffix_last _ _ _ Er Hlast1) as Hlast2.
  destruct (radix_prefix base s1) as [b s2]. cbn [fst snd] in *. rewrite drop_app_le, <- Er by done.
  assert (Forall is_byte s2) as Hm2 by (rewrite Er; by apply Forall_drop).
  pose proof (digits_then_space b s2 t Hm2 Hbt Ht Hlast2) as Hd. cbn zeta in Hd.
  destruct (mapM (digit_of b) s2) as [ds|].
  - destruct Hd as [-> Hsp]. rewrite (bool_decide_true (skip_space _ = [])) by done.
    destruct ds as [|d ds]; [done|]. rewrite bool_decide_false by done. by rewrite foldl_numeral.
  - rewrite (bool_decide_false (skip_space _ = [])) by done. by destruct (bool_decide _).
Qed.

(** * Formatting *)

Lemma digit_char_eq bc d : 0 <= d < 16 -> (bc = 97 \/ bc = 65) ->
  wrapu 8 (if d >=? 10 then d + (bc - 10) else d + 48) = digit_char bc d.
Proof.
  intros Hd Hb. unfold digit_char. rewrite Z.geb_leb. destruct (Z.leb_spec 10 d), (Z.ltb_spec 57 (d + 48)); try lia;
    rewrite wrapu_small by (change (2 ^ 8) with 256; lia); lia.
Qed.

Lemma format_loop_spec fuel base bc : 2 <= base <= 16 -> (bc = 97 \/ bc = 65) -> forall num since room s,
  0 < num < 2 ^ Z.of_nat fuel ->
  exists ds, Forall (fun d => 0 <= d < base) ds /\ numeral base 0 ds = num /\ ds <> [] /\ head ds <> Some 0 /\
    (Z.of_nat (length ds) <= room ->
     format_loop fuel num base bc 0 since room s = Some ((digit_char bc <$> ds) ++ s, room - Z.of_nat (length ds))).
Proof.
  intros Hb Hbc. induction fuel as [|fuel IH]; intros num since room s Hn; [cbn in Hn; lia|].
  rewrite Nat2Z.inj_succ, Z.pow_succ_r in Hn by lia.
  pose proof (Z.mod_pos_bound num base ltac:(lia)) as Hm. pose proof (Z.div_mod num base ltac:(lia)) as Hdm.
  cbn [format_loop]. rewrite (digit_char_eq bc (num mod base)) by (done || lia). cbn [negb andb Z.eqb].
  destruct (Z.eqb_spec (num / base) 0) as [E|E].
  - exists [num]. rewrite E, Z.mul_0_r, Z.add_0_l in Hdm. split_and!; try done; [constructor; [lia|done]|intros [= ->]; lia|].
    intros Hr. rewrite andb_false_r, <- Hdm. done.
  - assert (0 < num / base < 2 ^ Z.of_nat fuel) as Hd.
    { pose proof (Z.div_pos num base ltac:(lia) ltac:(lia)). split; [lia|]. apply Z.div_lt_upper_bound; nia. }
    destruct (IH (num / base) (since + 1) (room - 1) (digit_char bc (num mod base) :: s) Hd) as (ds & H1 & H2 & H3 & H4 & H5).
    exists (ds ++ [num mod base]). split_and!.
    + apply Forall_app_2; [done|by constructor].
    + rewrite numeral_app, H2. cbn. lia.
    + by destruct ds.
    + by destruct ds.
    + rewrite length_app. cbn [length]. intros Hr. destruct ds as [|d0 ds]; [done|].
      rewrite (proj2 (Z.gtb_lt (room - 1) 0)) by (cbn in Hr; lia). cbn [negb andb].
      rewrite H5 by (cbn in *; lia). rewrite fmap_app, <- app_assoc. cbn [fmap list_fmap app].
      do 2 f_equal. cbn [length]. lia.
Qed.

(** [k] digits of a value below [2 ^ bits]. *)
Lemma digit_count base log bits ds : 0 < log -> 2 ^ log <= base -> 0 <= bits ->
  Forall (fun d => 0 <= d < base) ds -> ds <> [] -> head ds <> Some 0 -> numeral base 0 ds < 2 ^ bits ->
  Z.of_nat (length ds) <= bits / log + 1.
Proof.
  intros Hl Hlb Hbits Hds Hne Hh Hv. destruct ds as [|d ds]; [done|]. apply Forall_cons_1 in Hds as [Hd Hds].
  assert (0 < d) by (destruct (Z.eq_dec d 0) as [->|]; [done|lia]).
  assert (2 <= base) by (pose proof (Z.pow_le_mono_r 2 1 log ltac:(lia) ltac:(lia)); lia).
  assert (Hlow : forall ds v, 0 <= v -> Forall (fun d => 0 <= d < base) ds -> v * base ^ Z.of_nat (length ds) <= numeral base v ds).
  { clear -H0. intros ds. induction ds as [|d ds IH]; intros v Hv Hds; [cbn; lia|].
    apply Forall_cons_1 in Hds as [Hd Hds]. rewrite numeral_cons. cbn [length]. rewrite Nat2Z.inj_succ, Z.pow_succ_r by lia.
    specialize (IH (v * base + d) ltac:(nia) Hds). pose proof (Z.pow_pos_nonneg base (Z.of_nat (length ds)) ltac:(lia) ltac:(lia)).
    nia. }
  specialize (Hlow ds d ltac:(lia) Hds). rewrite numeral_cons in Hv. cbn [length]. rewrite Z.mul_0_l, Z.add_0_l in Hv.
  pose proof (Z.pow_pos_nonneg base (Z.of_nat (length ds)) ltac:(lia) ltac:(lia)) as Hp.
  assert (2 ^ (log * Z.of_nat (length ds)) <= base ^ Z.of_nat (length ds)) as Hpow.
  { rewrite Z.pow_mul_r by lia. apply Z.pow_le_mono_l. lia. }
  assert (log * Z.of_nat (length ds) < bits) as Hlt.
  { apply (Z.pow_lt_mono_r_iff 2); [lia|lia|]. nia. }
  rewrite Nat2Z.inj_succ. enough (Z.of_nat (length ds) <= bits / log) by lia.
  apply Z.div_le_lower_bound; lia.
Qed.

Lemma format_size_ok num_bits base prefix comma : 2 <= base <= 16 ->
  exists log, 0 < log /\ 2 ^ log <= base /\
    mp_int_format_size num_bits base prefix comma =
    Some (num_bits / log + 1 + (if comma =? 0 then 0 else (num_bits / log + 1) / 3) + Z.of_nat (length prefix) + 2).
Proof.
  intros Hb. unfold mp_int_format_size. rewrite (proj2 (Z.leb_le 2 _)), (proj2 (Z.leb_le _ 16)) by lia. cbn [andb].
  assert (Hall : forallb (fun b => match log_base2_floor !! Z.to_nat (b - 1) with
    Some l => (0 <? l) && (2 ^ l <=? b) | None => false end) (seqZ 2 15) = true) by reflexivity.
  rewrite forallb_forall in Hall. specialize (Hall base). rewrite <- list_elem_of_In, elem_of_seqZ in Hall.
  specialize (Hall ltac:(lia)). destruct (log_base2_floor !! _) as [l|]; [|done].
  apply andb_true_iff in Hall as [?%Z.ltb_lt ?%Z.leb_le]. exists l. by sbind.
Qed.

Lemma format_small_ok num base bc prefix : MP_SMALL_INT_MIN <= num <= MP_SMALL_INT_MAX -> 2 <= base <= 16 ->
  (bc = 97 \/ bc = 65) -> exists text, format_small num base prefix bc 0 = Some text /\ numeral_text num base bc prefix text.
Proof.
  unfold MP_SMALL_INT_MIN, MP_SMALL_INT_MAX. intros Hn Hb Hbc. unfold format_small.
  destruct (format_size_ok 32 base prefix 0 Hb) as (log & Hl & Hlb & ->). cbn [Z.eqb]. sbind.
  assert (Hs : (if num <? 0 then s32 (- num) else Some num) = Some (Z.abs num)).
  { destruct (Z.ltb_spec num 0); [|by rewrite Z.abs_eq by lia]. unfold s32.
    rewrite (proj2 (Z.leb_le _ _)), (proj2 (Z.ltb_lt _ _)) by lia. by rewrite Z.abs_neq by lia. }
  rewrite Hs. sbind. set (room := _ + 2 - 1).
  assert (Hdig : exists ds, (if Z.abs num =? 0 then Some ([48], room - 1) else format_loop 32 (Z.abs num) base bc 0 0 room []) =
      Some (digit_char bc <$> ds, room - Z.of_nat (length ds)) /\ Z.of_nat (length ds) <= 32 / log + 1 /\
      Forall (fun d => 0 <= d < base) ds /\ numeral base 0 ds = Z.abs num /\ ds <> [] /\ (head ds = Some 0 -> ds = [0])).
  { pose proof (Z.div_pos 32 log ltac:(lia) ltac:(lia)).
    destruct (Z.eqb_spec (Z.abs num) 0) as [E|E].
    - exists [0]. split_and!; try done; [cbn; lia|by apply Forall_singleton; lia].
    - destruct (format_loop_spec 32 base bc Hb Hbc (Z.abs num) 0 room []) as (ds & H1 & H2 & H3 & H4 & H5).
      { change (Z.of_nat 32) with 32. lia. }
      assert (Z.of_nat (length ds) <= 32 / log + 1) as Hc.
      { apply (digit_count base log 32 ds); try done; lia. }
      exists ds. rewrite H5, app_nil_r by (unfold room; lia). split_and!; done. }
  destruct Hdig as (ds & -> & Hc & H1 & H2 & H3 & H4). sbind.
  rewrite (proj2 (Z.ltb_lt _ _)) by (unfold room; lia).
  rewrite (proj2 (Z.gtb_lt _ 0)) by (unfold room; lia). rewrite andb_true_r.
  eexists. split; [done|]. exists ds. split; [|done]. by destruct (num <? 0).
Qed.

Lemma format_big_ok z v base bc prefix : rep v z -> 2 <= base <= 16 ->
  exists text, mp_obj_int_formatted_impl z base prefix bc 0 = Some text /\ numeral_text v base bc prefix text.
Proof.
  intros Hr Hb. unfold mp_obj_int_formatted_impl.
  destruct (format_size_ok (mpz_max_num_bits z) base prefix 0 Hb) as (log & Hl & Hlb & ->). cbn [Z.eqb]. sbind.
  destruct (mpz_as_str_ok z v base prefix bc Hr ltac:(lia)) as (ds & -> & H1 & H2 & H3 & H4 & H5). sbind.
  assert (Hbits : 0 <= mpz_max_num_bits z) by (unfold mpz_max_num_bits, len, DIG_SIZE; lia).
  pose proof (Z.div_pos (mpz_max_num_bits z) log ltac:(lia) ltac:(lia)).
  assert (Z.of_nat (length ds) <= mpz_max_num_bits z / log + 1) as Hc.
  { destruct (Z.eq_dec v 0) as [->|Hv].
    - rewrite H5 by done. cbn. lia.
    - apply (digit_count base log _ ds); try done; [by apply H4|]. rewrite H2.
      destruct (rep_digs _ _ Hr) as (Hd & _ & Hval). pose proof (val_bound _ Hd) as Hbd. rewrite Bn_pow2 in Hbd.
      unfold mpz_max_num_bits, len. change DIG_SIZE with 16. rewrite (Z.mul_comm _ 16). lia. }
  rewrite (proj2 (Z.leb_le _ _)).
  - eexists. split; [done|]. exists ds. split_and!; try done. intros E. destruct (Z.eq_dec v 0); [by apply H5|by destruct (H4 n)].
  - rewrite !length_app, length_fmap. destruct (v <? 0); cbn [length]; lia.
Qed.

Lemma formatted_ok o base bc prefix : int_ok o -> 2 <= base <= 16 -> (bc = 97 \/ bc = 65) ->
  exists text, mp_obj_int_formatted o base prefix bc 0 = Some text /\ numeral_text (ival o) base bc prefix text.
Proof.
  intros Ho Hb Hbc. destruct o as [num|z]; cbn [mp_obj_int_formatted ival]; [by apply format_small_ok|].
  apply format_big_ok; [by apply mpz_ok_rep|done].
Qed.

(** * What is formatted is parsed back *)

(** The base that reads a prefix. *)
Definition reads_prefix (read base : Z) (prefix : list Z) : Prop :=
  (prefix = [] /\ (read = base \/ read = 0 /\ base = 10)) \/
  ((read = 0 \/ read = base) /\
   (prefix = bytes "0x" /\ base = 16 \/ prefix = bytes "0o" /\ base = 8 \/ prefix = bytes "0b" /\ base = 2)).

Lemma digit_char_cases bc d : 0 <= d < 16 -> (bc = 97 \/ bc = 65) ->
  0 <= digit_char bc d < 256 /\ digit_char bc d <> chr "_" /\ unichar_isspace (digit_char bc d) = false /\
  digit_char bc d <> chr "+" /\ digit_char bc d <> chr "-" /\ (digit_char bc d = 48 -> d = 0).
Proof.
  intros Hd Hb. assert (Hall : forallb (fun d => forallb (fun bc =>
    (0 <=? digit_char bc d) && (digit_char bc d <? 256) && negb (digit_char bc d =? chr "_") &&
    negb (unichar_isspace (digit_char bc d)) && negb (digit_char bc d =? chr "+") && negb (digit_char bc d =? chr "-") &&
    (negb (digit_char bc d =? 48) || (d =? 0))) [97; 65]) (seqZ 0 16) = true) by reflexivity.
  rewrite forallb_forall in Hall. specialize (Hall d). rewrite <- list_elem_of_In, elem_of_seqZ in Hall.
  specialize (Hall ltac:(lia)). rewrite forallb_forall in Hall. specialize (Hall bc ltac:(destruct Hb; subst; cbn; tauto)).
  rewrite !andb_true_iff, !negb_true_iff, orb_true_iff, negb_true_iff in Hall. rewrite !Z.eqb_neq in Hall.
  destruct Hall as ((((((? & ?) & ?) & ?) & ?) & ?) & Hz). split_and!; try done; try lia.
Qed.

Section numerals.
Context (base bc : Z) (Hb : 2 <= base <= 16) (Hbc : bc = 97 \/ bc = 65).
Implicit Types (ds : list Z).

Lemma digits_text ds : Forall (fun d => 0 <= d < base) ds ->
  Forall (fun c => is_byte c /\ c <> chr "_" /\ unichar_isspace c = false /\ c <> chr "+" /\ c <> chr "-") (digit_char bc <$> ds).
Proof.
  intros Hds. apply Forall_fmap. eapply Forall_impl; [|exact Hds]. intros d Hd. cbn beta in *.
  destruct (digit_char_cases bc d ltac:(lia) Hbc) as (? & ? & ? & ? & ? & _). by split_and!.
Qed.

(** Canonical digits have no prefix. *)
Lemma no_prefix read ds : Forall (fun d => 0 <= d < base) ds -> ds <> [] -> (head ds = Some 0 -> ds = [0]) ->
  read = base \/ read = 0 /\ base = 10 -> mp_parse_num_base (digit_char bc <$> ds) read = (base, 0%nat).
Proof.
  intros Hds Hne Hz Hr. destruct ds as [|d [|d' ds]]; [done|cbn|].
  - destruct Hr as [-> | [-> ->]]; [|done]. by rewrite (proj2 (Z.eqb_neq _ _)) by lia.
  - assert (Hd0 : d <> 0) by (intros ->; by specialize (Hz eq_refl)).
    apply Forall_cons_1 in Hds as [Hd _]. destruct (digit_char_cases bc d ltac:(lia) Hbc) as (_ & _ & _ & _ & _ & Hzero).
    cbn [fmap list_fmap mp_parse_num_base]. change (chr "0") with 48.
    rewrite (proj2 (Z.eqb_neq (digit_char bc d) 48)) by auto. rewrite !andb_false_r.
    destruct Hr as [-> | [-> ->]]; [|done]. by rewrite (proj2 (Z.eqb_neq _ _)) by lia.
Qed.

Lemma prefix_base read prefix ds : Forall (fun d => 0 <= d < base) ds -> ds <> [] -> (head ds = Some 0 -> ds = [0]) ->
  reads_prefix read base prefix ->
  exists skip, mp_parse_num_base (prefix ++ (digit_char bc <$> ds)) read = (base, skip) /\
    drop skip (prefix ++ (digit_char bc <$> ds)) = digit_char bc <$> ds.
Proof.
  intros Hds Hne Hz [(-> & Hr) | (Hr & Hp)].
  - exists 0%nat. split; [by apply no_prefix|done].
  - exists 2%nat. destruct Hp as [(-> & Eb) | [(-> & Eb) | (-> & Eb)]]; destruct Hr as [-> | ->]; rewrite ?Eb; done.
Qed.

Lemma skip_space_none c s : unichar_isspace c = false -> skip_space (c :: s) = c :: s.
Proof. intros E. cbn. by rewrite E. Qed.

Lemma parse_numeral read prefix v text : read = 0 \/ 2 <= read <= 36 -> reads_prefix read base prefix ->
  numeral_text v base bc prefix text -> Forall is_byte text /\ (chr "_" ∉ text) /\ parse_steps text read = Some v.
Proof.
  intros Hread Hp (ds & -> & Hds & Hn & Hne & Hh). pose proof (digits_text ds Hds) as Ht.
  set (t := digit_char bc <$> ds) in *.
  assert (Hpre : Forall (fun c => is_byte c /\ c <> chr "_" /\ unichar_isspace c = false /\ c <> chr "+" /\ c <> chr "-") prefix).
  { destruct Hp as [(-> & _) | (_ & [(-> & _) | [(-> & _) | (-> & _)]])]; [done|..]; repeat constructor; discriminate. }
  assert (Hall := Forall_app_2 _ _ _ Hpre Ht). set (u := prefix ++ t) in *.
  assert (Hu : exists c rest, u = c :: rest).
  { unfold u, t. destruct prefix as [|c p]; [|by eexists _, _]. destruct ds as [|d ds']; [done|by eexists _, _]. }
  destruct Hu as (c & rest & Eu). pose proof Hall as Hc. rewrite Eu in Hc. apply Forall_cons_1 in Hc as [(_ & _ & Hsp & Hplus & Hminus) _].
  split; [|split].
  - apply Forall_app_2; [by destruct (v <? 0); repeat constructor|]. eapply list.Forall_impl; [exact Hall|]. by intros ? (? & _).
  - rewrite elem_of_app. intros [Hin | Hin].
    + destruct (v <? 0); [by apply list_elem_of_singleton in Hin|by apply elem_of_nil in Hin].
    + rewrite list.Forall_forall in Hall. by destruct (Hall _ Hin) as (_ & ? & _).
  - assert (Hsign : split_sign (skip_space ((if v <? 0 then [45] else []) ++ u)) = (v <? 0, u)).
    { destruct (v <? 0); cbn [app].
      - rewrite skip_space_none by reflexivity. reflexivity.
      - rewrite Eu, skip_space_none by done. unfold split_sign. by rewrite !(proj2 (Z.eqb_neq _ _)). }
    unfold parse_steps. replace ((negb (read =? 0) && (read <? 2)) || (read >? 36)) with false by lia.
    rewrite Hsign. destruct (prefix_base read prefix ds Hds Hne Hh Hp) as (skip & E1 & E2). unfold u, t. rewrite E1, E2. rewrite digit_prefix_chars by (done || lia). rewrite bool_decide_false by done.
    rewrite drop_ge by (by rewrite length_fmap). cbn [skip_space]. rewrite bool_decide_true by done.
    rewrite Hn. destruct (Z.ltb_spec v 0); f_equal; lia.
Qed.
End numerals.

(** * Integers in a source *)

(** The characters of the tail of a number. *)
Definition tail_char (forced : bool) (c : Z) : Prop :=
  text_char c /\ (unichar_isalpha c = true \/ unichar_isdigit c = true) /\ c <> chr "j" /\ c <> chr "J" /\ c <> chr "." /\
  (forced = false -> c <> chr "e" /\ c <> chr "E").

Lemma number_tail_text forced t : Forall (tail_char forced) t -> forall fuel i text l,
  (length t < fuel)%nat -> feeds i (t ++ NEWLINE :: l) ->
  exists j, number_tail fuel forced i MP_TOKEN_INTEGER text = Some (j, MP_TOKEN_INTEGER, text ++ t) /\ feeds j (NEWLINE :: l).
Proof.
  induction 1 as [|c t (Hc & Ha & Hj & HJ & Hdot & He) _ IH]; intros fuel i text l Hf Hfe; (destruct fuel as [|fuel]; [cbn in Hf; lia|]).
  - pose proof (feeds_cons _ _ _ Hfe) as H0. exists i. rewrite app_nil_r. split; [|done]. cbn [number_tail].
    unfold is_end, is_char_or, is_char, is_letter, is_digit. rewrite H0. cbn. by rewrite andb_false_r.
  - pose proof (feeds_cons _ _ _ Hfe) as H0. destruct (text_byte c Hc) as [Heof _].
    destruct (IH fuel (next_char i) (text ++ [c]) l) as (j & E & Hj'); [cbn in Hf; lia|by apply (feeds_next _ c)|].
    exists j. split; [|done]. cbn [number_tail]. unfold is_end, is_char_or, is_char_or3, is_char, is_letter, is_digit.
    rewrite H0. change (c =? MP_LEXER_EOF) with (is_eof c). rewrite Heof.
    assert (Hne : negb forced && ((c =? chr "e") || (c =? chr "E")) = false).
    { destruct forced; [done|]. destruct He as [He1 He2]; [done|]. by rewrite !(proj2 (Z.eqb_neq _ _)). }
    rewrite Hne. apply Z.eqb_neq in Hj, HJ, Hdot. rewrite Hj, HJ, Hdot. cbn [orb].
    replace (unichar_isalpha c || unichar_isdigit c || false) with true by (destruct Ha as [-> | ->]; by rewrite ?orb_true_r).
    rewrite E, <- app_assoc. done.
Qed.

(** A number at the start of a source is one token. *)
Lemma to_next_number c t fuel opt lex : let forced := (c =? chr "0") && match t with d :: _ =>
    let d := Z.lor d 0x20 in (d =? chr "b") || (d =? chr "o") || (d =? chr "x") | [] => false end in
  unichar_isdigit c = true -> text_char c -> Forall (tail_char forced) t -> (length t + 1 < fuel)%nat ->
  emit_dent lex = 0 -> nested_bracket_level lex = 0 -> feeds (lex_in lex) ((c :: t) ++ [NEWLINE]) ->
  exists i, mp_lexer_to_next fuel opt lex = Some (inr (token (at_position lex (lex_in lex)) i MP_TOKEN_INTEGER (c :: t))) /\
    feeds i [NEWLINE].
Proof.
  intros forced Hd Hc Ht Hf He Hn Hfe. unfold mp_lexer_to_next. rewrite (start_injection_feeds _ _ Hfe). cbn [in_bounds rbind].
  cbn [app] in Hfe. pose proof (feeds_cons _ _ _ Hfe) as H0. pose proof (feeds_next _ _ _ Hfe) as Hnext.
  assert (Hchar : c ∈ bytes "0123456789").
  { assert (Hall : forallb (fun c => negb (unichar_isdigit c) || bool_decide (c ∈ bytes "0123456789")) (seqZ 0 256) = true) by reflexivity.
    rewrite forallb_forall in Hall. specialize (Hall c). rewrite <- list_elem_of_In, elem_of_seqZ, Hd in Hall.
    cbn [negb orb] in Hall. rewrite bool_decide_eq_true in Hall. apply Hall. destruct Hc as [Hb _]. unfold is_byte in Hb. lia. }
  assert (Hskip : skip_whitespace fuel (nested_bracket_level lex) true (lex_in lex) = Some (false, lex_in lex)).
  { destruct fuel; [lia|]. cbn [skip_whitespace]. unfold is_end, is_physical_newline, is_whitespace, is_char_and, is_char. rewrite H0.
    unfold bytes in Hchar. cbn in Hchar. repeat (apply elem_of_cons in Hchar as [-> | Hchar]; [reflexivity|]). by apply elem_of_nil in Hchar. }
  rewrite Hskip. cbn [ok mbind option_bind rbind]. cbn [emit_dent at_position nested_bracket_level]. rewrite He, Hn. cbn [Z.ltb Z.gtb Z.compare].
  assert (Hnot : is_end (lex_in lex) = false /\ is_string_or_bytes (lex_in lex) = false /\ is_head_of_identifier (lex_in lex) = false /\
    is_char (lex_in lex) (chr ".") = false).
  { unfold is_end, is_string_or_bytes, is_char_or, is_char_or4, is_char_and, is_head_of_identifier, is_letter, is_char. rewrite H0.
    unfold bytes in Hchar. cbn in Hchar. repeat (apply elem_of_cons in Hchar as [-> | Hchar]; [by split_and!|]). by apply elem_of_nil in Hchar. }
  destruct Hnot as (-> & -> & -> & Hdot). unfold is_digit at 1. rewrite H0, Hd. cbn [orb].
  unfold number_token. rewrite Hdot. cbn [negb andb].
  assert (Hforced : is_char (lex_in lex) (chr "0") && is_following_base_char (lex_in lex) = forced).
  { unfold forced, is_char, is_following_base_char. rewrite H0. destruct t as [|d t].
    - cbn [app] in Hfe. rewrite (feeds_second _ _ _ _ Hfe). by f_equal.
    - cbn [app] in Hfe. by rewrite (feeds_second _ _ _ _ Hfe). }
  rewrite Hforced, H0. destruct (number_tail_text forced t Ht fuel (next_char (lex_in lex)) [c] []) as (j & -> & Hj); [lia|done|].
  cbn [mbind option_bind ok]. by eexists.
Qed.

Lemma digit_tail base bc forced d : 2 <= base <= 16 -> (bc = 97 \/ bc = 65) -> (forced = false -> base <= 10) -> 0 <= d < base ->
  tail_char forced (digit_char bc d).
Proof.
  intros Hb Hbc Hf Hd. assert (Hall : forallb (fun d => forallb (fun bc => let c := digit_char bc d in
    (0 <=? c) && (c <? 256) && negb (c =? CR) && (unichar_isalpha c || unichar_isdigit c) && negb (c =? chr "j") &&
    negb (c =? chr "J") && negb (c =? chr ".") && ((10 <=? d) || (negb (c =? chr "e") && negb (c =? chr "E")))) [97; 65])
    (seqZ 0 16) = true) by reflexivity.
  rewrite forallb_forall in Hall. specialize (Hall d). rewrite <- list_elem_of_In, elem_of_seqZ in Hall.
  specialize (Hall ltac:(lia)). rewrite forallb_forall in Hall. specialize (Hall bc ltac:(destruct Hbc; subst; cbn; tauto)).
  cbn zeta in Hall. rewrite !andb_true_iff, !orb_true_iff, !andb_true_iff, !negb_true_iff, !Z.eqb_neq in Hall.
  destruct Hall as (((((((? & ?) & ?) & ?) & ?) & ?) & ?) & He). unfold tail_char, text_char, is_byte.
  split_and!; try done; try lia; intros Ef; destruct He as [He | [He1 He2]]; try done; specialize (Hf Ef); lia.
Qed.

Lemma digit_first bc d : 0 <= d < 10 -> unichar_isdigit (digit_char bc d) = true /\ text_char (digit_char bc d).
Proof.
  intros Hd. unfold digit_char. rewrite (proj2 (Z.ltb_ge _ _)) by lia.
  assert (Hall : forallb (fun d => unichar_isdigit (d + 48)) (seqZ 0 10) = true) by reflexivity.
  rewrite forallb_forall in Hall. specialize (Hall d). rewrite <- list_elem_of_In, elem_of_seqZ in Hall.
  split; [apply Hall; lia|]. unfold text_char, is_byte, CR. lia.
Qed.

(** The first character of a literal, and what follows it. *)
Lemma literal_chars base bc prefix v text : 2 <= base <= 16 -> (bc = 97 \/ bc = 65) -> 0 <= v ->
  reads_prefix 0 base prefix -> numeral_text v base bc prefix text ->
  exists c t, text = c :: t /\ unichar_isdigit c = true /\ text_char c /\
    Forall (tail_char ((c =? chr "0") && match t with d :: _ =>
      let d := Z.lor d 0x20 in (d =? chr "b") || (d =? chr "o") || (d =? chr "x") | [] => false end)) t.
Proof.
  intros Hb Hbc Hv Hp (ds & -> & Hds & _ & Hne & _). rewrite (proj2 (Z.ltb_ge v 0)) by lia. cbn [app].
  destruct Hp as [(-> & [? | [_ ->]]) | (_ & Hp)]; [lia|..].
  - destruct ds as [|d ds]; [done|]. apply Forall_cons_1 in Hds as [Hd Hds].
    eexists _, _. split; [done|]. destruct (digit_first bc d Hd) as [H1 H2]. split; [done|]. split; [done|].
    set (forced := _ && _). apply Forall_fmap. eapply list.Forall_impl; [exact Hds|]. intros d' Hd'.
    by apply (digit_tail 10).
  - assert (Htail : forall x, tail_char true x -> Forall (tail_char true) (x :: (digit_char bc <$> ds))).
    { intros x Hx. constructor; [done|]. apply Forall_fmap. eapply list.Forall_impl; [exact Hds|]. intros d' Hd'.
      by apply (digit_tail base). }
    destruct Hp as [(-> & _) | [(-> & _) | (-> & _)]]; (eexists _, _; split; [reflexivity|]; split; [done|]; split; [done|]; apply Htail);
      repeat split; try done; by left.
Qed.

Lemma tail_text forced t : Forall (tail_char forced) t -> Forall text_char t.
Proof. intros H. eapply list.Forall_impl; [exact H|]. by intros ? (? & _). Qed.

Lemma complete_text c t : Forall text_char (c :: t) -> Forall (fun c => c <> NEWLINE) (c :: t) -> complete (c :: t) = (c :: t) ++ [NEWLINE].
Proof.
  intros _ Hn. unfold complete. rewrite bool_decide_false; [done|]. intros E. apply last_Some_elem_of in E.
  rewrite list.Forall_forall in Hn. by apply (Hn _ E).
Qed.

Lemma alnum_no_newline c : unichar_isalpha c = true \/ unichar_isdigit c = true -> c <> NEWLINE.
Proof. intros [H | H] ->; discriminate. Qed.

(** The lexer over a source that is one integer literal. *)
Lemma lex_literal base bc prefix v text fuel opt : 2 <= base <= 16 -> (bc = 97 \/ bc = 65) -> 0 <= v ->
  reads_prefix 0 base prefix -> numeral_text v base bc prefix text -> (length text < fuel)%nat -> (1 < fuel)%nat ->
  exists l0 l1 l2,
    mp_lexer_new fuel opt text = Some (inr l0) /\ tok_kind l0 = MP_TOKEN_INTEGER /\ vstr l0 = text /\
    mp_lexer_to_next fuel opt l0 = Some (inr l1) /\ tok_kind l1 = MP_TOKEN_NEWLINE /\
    mp_lexer_to_next fuel opt l1 = Some (inr l2) /\ tok_kind l2 = MP_TOKEN_END.
Proof.
  intros Hb Hbc Hv Hp Ht Hf Hf1. destruct (literal_chars base bc prefix v text Hb Hbc Hv Hp Ht) as (c & t & -> & Hd & Hc & Htail).
  assert (Htext : Forall text_char (c :: t)) by (constructor; [done|by apply tail_text in Htail]).
  assert (Hnl : Forall (fun c => c <> NEWLINE) (c :: t)).
  { constructor; [apply alnum_no_newline; by right|]. eapply list.Forall_impl; [exact Htail|].
    intros x (_ & Hx & _). by apply alnum_no_newline. }
  pose proof (feeds_start _ Htext) as Hfe. rewrite complete_text in Hfe by done.
  unfold mp_lexer_new. set (lex := {| lex_in := _ |}).
  destruct (to_next_number c t fuel opt lex Hd Hc Htail) as (i & -> & Hi); [cbn in Hf; lia|done..|]. cbn [rbind].
  set (l0 := {| lex_in := _ |}) at 1.
  destruct (to_next_newline fuel opt l0) as (l1 & E1 & K1 & D1 & _ & F1); [lia|done..|].
  destruct (to_next_end fuel opt l1 D1 F1) as (l2 & E2 & K2).
  exists l0, l1, l2. split_and!; try done. unfold l0. cbn [tok_kind tok_column token at_position lex_in lex].
  by rewrite start_column.
Qed.

(** The minus sign of a number is a token of its own. *)
(** The encoding of the operators is followed past a character that is not the next
    one, and ends at the next operator. *)
Lemma operator_loop_other y t n i m : is_char i y = false ->
  operator_loop (chr "e" :: y :: t) n i m = operator_loop t (S n) i m.
Proof. intros E. cbn [operator_loop]. rewrite E. reflexivity. Qed.

Lemma operator_loop_stop x t n i m : x <> chr "c" -> x <> chr "e" -> operator_loop (x :: t) n i m = (i, m).
Proof. intros Hc He. cbn [operator_loop]. destruct t; [done|]. by rewrite (proj2 (Z.eqb_neq _ _) Hc), (proj2 (Z.eqb_neq _ _) He). Qed.

Lemma to_next_minus c t fuel opt lex : unichar_isdigit c = true -> text_char c -> (0 < fuel)%nat ->
  emit_dent lex = 0 -> nested_bracket_level lex = 0 -> feeds (lex_in lex) (45 :: c :: t) ->
  exists l, mp_lexer_to_next fuel opt lex = Some (inr l) /\ tok_kind l = MP_TOKEN_OP_MINUS /\
    lex_in l = next_char (lex_in lex) /\ emit_dent l = 0 /\ nested_bracket_level l = 0 /\ indentation l = indentation lex /\
    tok_column l = column (lex_in lex).
Proof.
  intros Hd [Hc _] Hf He Hn Hfe. unfold mp_lexer_to_next. rewrite (start_injection_feeds _ _ Hfe). cbn [in_bounds rbind].
  pose proof (feeds_cons _ _ _ Hfe) as H0. pose proof (feeds_cons _ _ _ (feeds_next _ _ _ Hfe)) as H1.
  assert (Hskip : skip_whitespace fuel (nested_bracket_level lex) true (lex_in lex) = Some (false, lex_in lex)).
  { destruct fuel; [lia|]. cbn [skip_whitespace]. unfold is_end, is_physical_newline, is_whitespace, is_char_and, is_char. by rewrite H0. }
  rewrite Hskip. cbn [ok mbind option_bind rbind]. cbn [emit_dent at_position nested_bracket_level]. rewrite He, Hn. cbn [Z.ltb Z.gtb Z.compare].
  assert (Hnot : is_end (lex_in lex) = false /\ is_string_or_bytes (lex_in lex) = false /\ is_head_of_identifier (lex_in lex) = false /\
    is_digit (lex_in lex) = false /\ is_char (lex_in lex) (chr ".") = false).
  { unfold is_end, is_string_or_bytes, is_char_or, is_char_or4, is_char_and, is_head_of_identifier, is_letter, is_digit, is_char.
    rewrite H0. by split_and!. }
  destruct Hnot as (-> & -> & -> & -> & ->). cbn [orb andb].
  assert (c <> chr "=" /\ c <> chr ">") as [Heq Hgt].
  { split; intros ->; discriminate Hd. }
  assert (Hop : operator (lex_in lex) = (next_char (lex_in lex), MP_TOKEN_OP_MINUS)).
  { unfold operator. rewrite H0. let r := eval vm_compute in (find_operator tok_enc 45 0) in change (find_operator tok_enc 45 0) with r.
    cbv iota beta. change (45 =? chr "!") with false. change (45 =? chr ".") with false. cbv iota.
    apply Z.eqb_neq in Heq, Hgt. rewrite !operator_loop_other by (unfold is_char; by rewrite H1). by rewrite operator_loop_stop. }
  unfold operator_token. rewrite Hop. cbn -[next_char]. rewrite Hn. eexists. split; [done|]. cbn. by split_and!.
Qed.

Lemma lex_negative base bc prefix v text fuel opt : 2 <= base <= 16 -> (bc = 97 \/ bc = 65) -> 0 <= v ->
  reads_prefix 0 base prefix -> numeral_text v base bc prefix text -> (length text + 1 < fuel)%nat ->
  exists l0 l1 l2 l3,
    mp_lexer_new fuel opt (45 :: text) = Some (inr l0) /\ tok_kind l0 = MP_TOKEN_OP_MINUS /\
    mp_lexer_to_next fuel opt l0 = Some (inr l1) /\ tok_kind l1 = MP_TOKEN_INTEGER /\ vstr l1 = text /\
    mp_lexer_to_next fuel opt l1 = Some (inr l2) /\ tok_kind l2 = MP_TOKEN_NEWLINE /\
    mp_lexer_to_next fuel opt l2 = Some (inr l3) /\ tok_kind l3 = MP_TOKEN_END.
Proof.
  intros Hb Hbc Hv Hp Ht Hf. destruct (literal_chars base bc prefix v text Hb Hbc Hv Hp Ht) as (c & t & -> & Hd & Hc & Htail).
  assert (Htext : Forall text_char (45 :: c :: t)).
  { constructor; [done|]. constructor; [done|by apply tail_text in Htail]. }
  assert (Hnl : Forall (fun c => c <> NEWLINE) (45 :: c :: t)).
  { constructor; [done|]. constructor; [apply alnum_no_newline; by right|]. eapply list.Forall_impl; [exact Htail|].
    intros x (_ & Hx & _). by apply alnum_no_newline. }
  pose proof (feeds_start _ Htext) as Hfe. rewrite complete_text in Hfe by done.
  unfold mp_lexer_new. set (lex := {| lex_in := _ |}).
  destruct (to_next_minus c (t ++ [NEWLINE]) fuel opt lex Hd Hc) as (l & El & Kl & Il & Dl & Nl & Sl & Cl); [lia|done..|].
  rewrite El. cbn [rbind]. set (l0 := {| lex_in := _ |}) at 1.
  assert (feeds (lex_in l0) ((c :: t) ++ [NEWLINE])) as F0 by (cbn; rewrite Il; by apply (feeds_next _ 45)).
  destruct (to_next_number c t fuel opt l0 Hd Hc Htail) as (i & E1 & F1); [cbn in Hf; lia|done|done|done|].
  destruct (to_next_newline fuel opt (token (at_position l0 (lex_in l0)) i MP_TOKEN_INTEGER (c :: t))) as (l2 & E2 & K2 & D2 & _ & F2);
    [lia|done|done|cbn; by rewrite Sl|done|].
  destruct (to_next_end fuel opt l2 D2 F2) as (l3 & E3 & K3).
  exists l0, (token (at_position l0 (lex_in l0)) i MP_TOKEN_INTEGER (c :: t)), l2, l3. split_and!; try done.
  unfold l0. cbn [tok_kind]. rewrite Cl, Kl. cbn [lex_in lex]. by rewrite start_column.
Qed.

Lemma numeral_text_opp v base bc prefix text : v < 0 -> numeral_text v base bc prefix text ->
  exists digits, text = 45 :: digits /\ numeral_text (- v) base bc prefix digits.
Proof.
  intros Hv (ds & -> & H1 & H2 & H3 & H4). rewrite (proj2 (Z.ltb_lt v 0)) by done. cbn [app].
  eexists. split; [done|]. exists ds. rewrite (proj2 (Z.ltb_ge (- v) 0)) by lia. split; [done|]. by rewrite Z.abs_opp.
Qed.

(** * Properties *)





(** * Underscores *)

(** An underscore is skipped while the value is small, but ends a number that is
    parsed again with long arithmetic; underscores alone are zero. *)
Lemma underscore_digits :
  mp_parse_num_integer (bytes "1_000_000") 10 = Some (inr (SMALL 1000000)) /\
  mp_parse_num_integer (bytes "1_000_000_000_000") 10 = Some (inl PARSE_ERROR) /\
  mp_parse_num_integer (bytes "_") 10 = Some (inr (SMALL 0)).
Proof. split_and!; vm_compute; reflexivity. Qed.
