(* ===== verification/Qstr.v ===== *)
(** Interned strings, from [py/qstr.c]: the hash, the pools a qstr is an index of, the
    search through them, and the addition of a string; the texts of qstrs as keys of
    tables.

    The static pools, which the build generates, are part of the state.  The
    characters of the strings added are kept in chunks that grow in place; what the
    allocator answers is an argument. *)

From Stdlib Require Import ZArith Lia.
From stdpp Require Import base option list numbers.
From S2P Require Import Prelude HashMap.

(** * Definitions *)

Definition Q_HASH_MASK : Z := 0xffff.

Definition qstr_compute_hash (data : list Z) : Z :=
  let hash := foldl (fun hash c => Z.lxor (wrapu 32 (wrapu 32 (Z.shiftl hash 5) + hash)) c) 5381 data in
  let hash := Z.land hash Q_HASH_MASK in
  if hash =? 0 then hash + 1 else hash.

(** ** Pools *)

(** An entry of the arrays [hashes], [lengths] and [qstrs]; the terminator of the
    text is not written. *)
Record qstr_entry := { hash : Z; length_ : Z; qstr : list Z }.

(** [len] is the length of [entries]. *)
Record qstr_pool_t := { total_prev_len : Z; is_sorted : bool; alloc : Z; entries : list qstr_entry }.

(** The chunk that strings are added to. *)
Record qstr_chunk := { qstr_last_alloc : Z; qstr_last_used : Z }.

(** The last pool is first; [prev] is the tail. *)
Record qstr_state := { last_pool : list qstr_pool_t; qstr_last_chunk : option qstr_chunk }.

Definition MP_QSTRnull : Z := 0.
Definition MP_QSTR_ : Z := 1.
Definition MICROPY_ALLOC_QSTR_CHUNK_INIT : Z := 128.

Inductive qstr_exn := NAME_TOO_LONG | MEMORY_ERROR.

Definition len (pool : qstr_pool_t) : Z := Z.of_nat (length (entries pool)).

Definition entry_at (pool : qstr_pool_t) (at_ : Z) : option qstr_entry :=
  if 0 <=? at_ then entries pool !! Z.to_nat at_ else None.

Definition QSTR_TOTAL (s : qstr_state) : option Z :=
  pool ← head (last_pool s); Some (total_prev_len pool + len pool).

(** ** Search *)

(** [strncmp] of a text of [n] characters or more with one that is terminated. *)
Fixpoint strncmp (s t : list Z) (n : nat) : Z :=
  match n with
  | O => 0
  | S n =>
      let c := hd 0 s in
      let d := hd 0 t in
      if c =? d then if c =? 0 then 0 else strncmp (tl s) (tl t) n else c - d
  end.

(** The places a string can be at. *)
Fixpoint binary_search (fuel : nat) (pool : qstr_pool_t) (str : list Z) (low high : Z) : option (Z * Z) :=
  if wrapu 32 (high - low) >? 1 then
    match fuel with
    | O => None
    | S fuel =>
        let mid := wrapu 32 (low + high) / 2 in
        e ← entry_at pool mid;
        if strncmp str (qstr e) (length str) <=? 0 then binary_search fuel pool str low mid
        else binary_search fuel pool str mid high
    end
  else Some (low, high).

(** The entries from [at_] on, [n] of them. *)
Fixpoint scan (n : nat) (pool : qstr_pool_t) (str_hash : Z) (str : list Z) (at_ : Z) : option (option Z) :=
  match n with
  | O => Some None
  | S n =>
      e ← entry_at pool at_;
      if (hash e =? str_hash) && (length_ e =? Z.of_nat (length str)) && bool_decide (qstr e = str)
      then Some (Some (total_prev_len pool + at_))
      else scan n pool str_hash str (at_ + 1)
  end.

Fixpoint find_in_pools (fuel : nat) (pools : list qstr_pool_t) (str_hash : Z) (str : list Z) : option Z :=
  match pools with
  | [] => Some MP_QSTRnull
  | pool :: prev =>
      let low := 0 in
      let high := wrapu 32 (len pool - 1) in
      '(low, high) ← (if is_sorted pool then binary_search fuel pool str low high else Some (low, high));
      found ← scan (Z.to_nat (wrapu 32 (high + 1) - low)) pool str_hash str low;
      match found with Some q => Some q | None => find_in_pools fuel prev str_hash str end
  end.

Definition qstr_find_strn (fuel : nat) (s : qstr_state) (str : list Z) : option Z :=
  if (length str =? 0)%nat then Some MP_QSTR_ else find_in_pools fuel (last_pool s) (qstr_compute_hash str) str.

Fixpoint find_qstr (pools : list qstr_pool_t) (q : Z) : option (qstr_pool_t * Z) :=
  match pools with
  | [] => None
  | pool :: prev => if q <? total_prev_len pool then find_qstr prev q else Some (pool, q - total_prev_len pool)
  end.

Definition qstr_entry_of (s : qstr_state) (q : Z) : option qstr_entry :=
  '(pool, at_) ← find_qstr (last_pool s) q; entry_at pool at_.

Definition qstr_hash (s : qstr_state) (q : Z) : option Z := hash <$> qstr_entry_of s q.
Definition qstr_len (s : qstr_state) (q : Z) : option Z := length_ <$> qstr_entry_of s q.
Definition qstr_str (s : qstr_state) (q : Z) : option (list Z) := qstr <$> qstr_entry_of s q.

(** ** Addition *)

(** What the allocator answers: whether the chunk grows, whether a new chunk of the
    usual size or of the size needed is given, and whether a new pool is. *)
Record answers := { chunk_grows : bool; chunk_given : bool; exact_given : bool; pool_given : bool }.

Definition qstr_add (s : qstr_state) (a : answers) (hash : Z) (len_ : Z) (q_ptr : list Z) :
    option (qstr_state * (qstr_exn + Z)) :=
  pool ← head (last_pool s);
  let e := {| hash := hash; length_ := len_; qstr := q_ptr |} in
  if alloc pool <=? len pool then
    if pool_given a then
      let pool' := {| total_prev_len := total_prev_len pool + len pool; is_sorted := false; alloc := alloc pool * 2; entries := [e] |} in
      if 1 <=? alloc pool * 2
      then Some ({| last_pool := pool' :: last_pool s; qstr_last_chunk := qstr_last_chunk s |}, inr (total_prev_len pool'))
      else None
    else Some ({| last_pool := last_pool s; qstr_last_chunk := None |}, inl MEMORY_ERROR)
  else
    let pool' := {| total_prev_len := total_prev_len pool; is_sorted := is_sorted pool; alloc := alloc pool; entries := entries pool ++ [e] |} in
    Some ({| last_pool := pool' :: tail (last_pool s); qstr_last_chunk := qstr_last_chunk s |}, inr (total_prev_len pool + len pool)).

(** The chunk a string of [n_bytes] is put in: the last one, made longer if need be,
    or a new one. *)
Definition grown_chunk (c : option qstr_chunk) (a : answers) (n_bytes : Z) : option qstr_chunk :=
  match c with
  | Some c =>
      if qstr_last_used c + n_bytes >? qstr_last_alloc c then
        if chunk_grows a then Some {| qstr_last_alloc := qstr_last_alloc c + n_bytes; qstr_last_used := qstr_last_used c |}
        else None
      else Some c
  | None => None
  end.

Definition new_chunk (a : answers) (n_bytes : Z) : option qstr_chunk :=
  let al := if n_bytes <? MICROPY_ALLOC_QSTR_CHUNK_INIT then MICROPY_ALLOC_QSTR_CHUNK_INIT else n_bytes in
  if chunk_given a then Some {| qstr_last_alloc := al; qstr_last_used := 0 |}
  else if exact_given a then Some {| qstr_last_alloc := n_bytes; qstr_last_used := 0 |}
  else None.

Definition qstr_from_strn (fuel : nat) (s : qstr_state) (a : answers) (str : list Z) :
    option (qstr_state * (qstr_exn + Z)) :=
  q ← qstr_find_strn fuel s str;
  if negb (q =? MP_QSTRnull) then Some (s, inr q)
  else if Z.of_nat (length str) >=? Z.shiftl 1 8 then Some (s, inl NAME_TOO_LONG)
  else
    let n_bytes := Z.of_nat (length str) + 1 in
    let chunk := match grown_chunk (qstr_last_chunk s) a n_bytes with Some c => Some c | None => new_chunk a n_bytes end in
    match chunk with
    | None => Some ({| last_pool := last_pool s; qstr_last_chunk := None |}, inl MEMORY_ERROR)
    | Some c =>
        let used := qstr_last_used c + n_bytes in
        (* the characters and the terminator are written inside of the chunk *)
        if used <=? qstr_last_alloc c then
          qstr_add {| last_pool := last_pool s; qstr_last_chunk := Some {| qstr_last_alloc := qstr_last_alloc c; qstr_last_used := used |} |}
            a (qstr_compute_hash str) (Z.of_nat (length str)) str
        else None
    end.

(** [strlen] and [qstr_from_str]. *)
Fixpoint until_nul (str : list Z) : list Z :=
  match str with c :: str => if c =? 0 then [] else c :: until_nul str | [] => [] end.

Definition qstr_from_str (fuel : nat) (s : qstr_state) (a : answers) (str : list Z) : option (qstr_state * (qstr_exn + Z)) :=
  qstr_from_strn fuel s a (until_nul str).

(** [qstr_pool_info] over the pools that are not static: their number, the qstrs and
    the bytes of their texts. *)
Definition qstr_pool_info (s : qstr_state) (n_static : nat) : Z * Z * Z :=
  let pools := take (length (last_pool s) - n_static) (last_pool s) in
  (Z.of_nat (length pools), foldr (fun p n => len p + n) 0 pools,
   foldr (fun p n => foldr (fun e n => length_ e + 1 + n) 0 (entries p) + n) 0 pools).

(** ** Keys *)

(** A qstr as the key of a table, by the text it stands for. *)
Record qstr_key := { qstr_text : list Z }.

#[export] Instance qstr_key_ops : KeyOps qstr_key := {
  key_eqb a b := bool_decide (qstr_text a = qstr_text b);
  is_qstr _ := true;
  is_exact_str _ := false;
  key_hash a := qstr_compute_hash (qstr_text a);
  obj_equal a b := bool_decide (qstr_text a = qstr_text b);
}.

(** * Keys *)

#[export] Instance qstr_key_laws : KeyLaws qstr_key.
Proof.
  split; cbn; intros *; rewrite ?bool_decide_eq_true; try congruence.
  - destruct a, b. cbn. split; congruence.
  - intros _ _ E. destruct a, b; cbn in *; congruence.
Qed.
