(* ===== verification/QstrProps.v ===== *)
(** The theorems on interned strings: the pools are an append-only list of texts, each
    text there once, found by the search whatever the pool it is in. *)

From Stdlib Require Import ZArith Lia.
From stdpp Require Import base option list numbers.
From S2P Require Import Prelude HashMap Qstr.

(** * Definitions *)

Abbreviation text := (list Z).

(** The order of characters, as [strncmp] has it. *)
Fixpoint lex_lt (s t : text) : Prop :=
  match s, t with
  | [], _ :: _ => True
  | c :: s, d :: t => c < d \/ c = d /\ lex_lt s t
  | _, [] => False
  end.

Definition nul_free (s : text) : Prop := Forall (fun c => 0 < c) s.

Definition entry_ok (e : qstr_entry) : Prop :=
  length_ e = Z.of_nat (length (qstr e)) /\ (qstr e <> [] -> hash e = qstr_compute_hash (qstr e)).

Definition sorted_pool (p : qstr_pool_t) : Prop :=
  entries p <> [] /\ Forall (fun e => nul_free (qstr e)) (entries p) /\
  forall i j a b, (i < j)%nat -> entries p !! i = Some a -> entries p !! j = Some b -> lex_lt (qstr a) (qstr b).

Record pool_ok (p : qstr_pool_t) : Prop := {
  pool_entries : Forall entry_ok (entries p);
  pool_alloc : 1 <= alloc p;
  pool_sorted : is_sorted p = true -> sorted_pool p;
}.

(** The texts of all qstrs, in the order of their numbers. *)
Fixpoint texts_of (pools : list qstr_pool_t) : list text :=
  match pools with [] => [] | p :: prev => texts_of prev ++ (qstr <$> entries p) end.

Fixpoint pools_ok (pools : list qstr_pool_t) : Prop :=
  match pools with
  | [] => True
  | p :: prev => total_prev_len p = Z.of_nat (length (texts_of prev)) /\ pool_ok p /\ pools_ok prev
  end.

Definition texts (s : qstr_state) : list text := texts_of (last_pool s).

(** No text is there twice, but for the empty one. *)
Definition distinct (ts : list text) : Prop := forall i j t, ts !! i = Some t -> ts !! j = Some t -> t <> [] -> i = j.

(** New strings go to a pool that is not sorted. *)
Definition open_end (s : qstr_state) : Prop :=
  forall p, head (last_pool s) = Some p -> alloc p <= len p \/ is_sorted p = false.

Record qstr_ok (s : qstr_state) : Prop := {
  ok_pools : pools_ok (last_pool s);
  ok_some : last_pool s <> [];
  ok_open : open_end s;
  ok_distinct : distinct (texts s);
  ok_null : texts s !! 0%nat = Some [];
  ok_empty : texts s !! 1%nat = Some [];
  ok_count : Z.of_nat (length (texts s)) < 2 ^ 31;
  ok_chunk : forall c, qstr_last_chunk s = Some c -> 0 <= qstr_last_used c <= qstr_last_alloc c;
}.

(** The last pool is full and there is no new one. *)
Definition no_pool (s : qstr_state) (a : answers) : Prop :=
  (forall p, head (last_pool s) = Some p -> alloc p <= len p) /\ pool_given a = false.

(** The memory for a new text of [n] bytes is refused: there is no room in the last
    chunk, which cannot grow, and no new chunk; or there is no place in a pool. *)
Definition refused (s : qstr_state) (a : answers) (n : Z) : Prop :=
  ((forall c, qstr_last_chunk s = Some c -> qstr_last_alloc c < qstr_last_used c + n /\ chunk_grows a = false) /\
   chunk_given a = false /\ exact_given a = false) \/
  no_pool s a.

(** The place of a text. *)
Definition place (ts : list text) (str : text) : option nat := fst <$> list_find (fun t => t = str) ts.

(** * The order *)

Lemma strncmp_pos s t : nul_free s -> nul_free t -> lex_lt t s -> 0 < strncmp s t (length s).
Proof.
  revert t. induction s as [|c s IH]; intros [|d t] Hs Ht Hlt; try done.
  - cbn. inversion Hs as [|? ? Hc Hs']; subst. destruct (Z.eqb_spec c 0); lia.
  - inversion Hs as [|? ? Hc Hs']; subst. inversion Ht; subst. cbn. destruct (Z.eqb_spec c d) as [->|Hn].
    + destruct (Z.eqb_spec d 0); [lia|]. apply IH; try done. destruct Hlt as [?|[_ ?]]; [lia|done].
    + destruct Hlt as [?|[? _]]; lia.
Qed.

Lemma strncmp_neg n s t : nul_free s -> nul_free t -> lex_lt s t -> strncmp s t n <= 0.
Proof.
  revert s t. induction n as [|n IH]; intros s t Hs Ht Hlt; [done|]. cbn.
  destruct s as [|c s], t as [|d t]; try done.
  - inversion Ht; subst. by destruct d.
  - inversion Hs; subst. inversion Ht; subst. cbn. destruct (Z.eqb_spec c d) as [->|Hn].
    + destruct (Z.eqb_spec d 0); [lia|]. apply IH; try done. destruct Hlt as [?|[_ ?]]; [lia|done].
    + destruct Hlt as [?|[? _]]; lia.
Qed.

(** * Search *)

Lemma entry_at_ok p i : 0 <= i < len p -> exists e, entry_at p i = Some e /\ entries p !! Z.to_nat i = Some e.
Proof.
  intros Hi. unfold entry_at, len in *. destruct (Z.leb_spec 0 i); [|lia].
  destruct (lookup_lt_is_Some_2 (entries p) (Z.to_nat i)) as [e E]; [lia|]. by exists e.
Qed.

(** The places between the bounds where the string may be are kept. *)
Lemma binary_search_ok p str : pool_ok p -> is_sorted p = true -> len p < 2 ^ 31 -> forall fuel low high,
  0 <= low <= high -> high < len p -> high - low <= 2 ^ Z.of_nat fuel ->
  exists low' high', binary_search fuel p str low high = Some (low', high') /\ low <= low' <= high' /\ high' <= high /\
    forall k e, low <= k <= high -> entry_at p k = Some e -> qstr e = str -> low' <= k <= high'.
Proof.
  intros Hp Hsorted Hlen fuel. destruct (pool_sorted p Hp Hsorted) as (_ & Hfree & Hlt). rewrite list.Forall_forall in Hfree.
  induction fuel as [|fuel IH]; intros low high Hl Hh Hd; cbn [binary_search]; rewrite wrapu_small by lia;
    rewrite Z.gtb_ltb; destruct (Z.ltb_spec 1 (high - low)); try (exists low, high; split_and!; try done; lia).
  rewrite wrapu_small by lia. set (mid := (low + high) / 2).
  pose proof (Z.div_mod (low + high) 2 ltac:(lia)) as Hdm. pose proof (Z.mod_pos_bound (low + high) 2 ltac:(lia)) as Hmod.
  assert (low < mid < high) as Hm by (subst mid; lia).
  assert (mid - low <= 2 ^ Z.of_nat fuel /\ high - mid <= 2 ^ Z.of_nat fuel) as [Hd1 Hd2].
  { rewrite Nat2Z.inj_succ, Z.pow_succ_r in Hd by lia. subst mid. lia. }
  destruct (entry_at_ok p mid ltac:(lia)) as (em & -> & Em). cbn [mbind option_bind].
  assert (forall k e, 0 <= k < len p -> entry_at p k = Some e -> entries p !! Z.to_nat k = Some e) as Hat.
  { intros k e Hk. destruct (entry_at_ok p k Hk) as (e' & -> & ?). intros [= ->]. done. }
  destruct (Z.leb_spec (strncmp str (qstr em) (length str)) 0) as [Hc|Hc].
  - destruct (IH low mid ltac:(lia) ltac:(lia) Hd1) as (low' & high' & E & Hl' & Hh' & Hk). exists low', high'.
    split; [done|]. split; [lia|]. split; [lia|]. intros k e Hk' Ek Hq. apply (Hk k e); [|done|done].
    destruct (Z.le_gt_cases k mid); [lia|]. exfalso. apply Hat in Ek; [|lia]. subst str.
    pose proof (strncmp_pos (qstr e) (qstr em)) as Hpos.
    specialize (Hpos (Hfree _ (list_elem_of_lookup_2 _ _ _ Ek)) (Hfree _ (list_elem_of_lookup_2 _ _ _ Em))).
    assert (lex_lt (qstr em) (qstr e)) as Hx by (eapply Hlt; [|exact Em|exact Ek]; lia). specialize (Hpos Hx). lia.
  - destruct (IH mid high ltac:(lia) ltac:(lia) Hd2) as (low' & high' & E & Hl' & Hh' & Hk). exists low', high'.
    split; [done|]. split; [lia|]. split; [lia|]. intros k e Hk' Ek Hq. apply (Hk k e); [|done|done].
    destruct (Z.le_gt_cases mid k); [lia|]. exfalso. apply Hat in Ek; [|lia]. subst str.
    pose proof (strncmp_neg (length (qstr e)) (qstr e) (qstr em)) as Hneg.
    specialize (Hneg (Hfree _ (list_elem_of_lookup_2 _ _ _ Ek)) (Hfree _ (list_elem_of_lookup_2 _ _ _ Em))).
    assert (lex_lt (qstr e) (qstr em)) as Hx by (eapply Hlt; [|exact Ek|exact Em]; lia). specialize (Hneg Hx). lia.
Qed.

Lemma entry_matches e str : entry_ok e -> str <> [] ->
  (hash e =? qstr_compute_hash str) && (length_ e =? Z.of_nat (length str)) && bool_decide (qstr e = str) = bool_decide (qstr e = str).
Proof.
  intros [Hl Hh] Hs. case_bool_decide as E; [|by rewrite andb_false_r]. subst str.
  by rewrite Hh, Hl, !Z.eqb_refl.
Qed.

Lemma scan_ok p str : pool_ok p -> str <> [] -> forall n at_, 0 <= at_ -> at_ + Z.of_nat n <= len p ->
  exists r, scan n p (qstr_compute_hash str) str at_ = Some r /\
  match r with
  | Some q => exists i e, q = total_prev_len p + i /\ at_ <= i < at_ + Z.of_nat n /\ entry_at p i = Some e /\ qstr e = str
  | None => forall i e, at_ <= i < at_ + Z.of_nat n -> entry_at p i = Some e -> qstr e <> str
  end.
Proof.
  intros Hp Hs n. pose proof (pool_entries p Hp) as He. rewrite list.Forall_forall in He.
  induction n as [|n IH]; intros at_ H0 Hl; cbn [scan]; [exists None; split; [done|lia]|].
  destruct (entry_at_ok p at_ ltac:(lia)) as (e & Ee & El). rewrite Ee. cbn [mbind option_bind].
  rewrite entry_matches; [|by eapply He, list_elem_of_lookup_2|done]. case_bool_decide as E.
  - eexists. split; [done|]. exists at_, e. split_and!; [done|lia|lia|done|done].
  - destruct (IH (at_ + 1) ltac:(lia) ltac:(lia)) as (r & -> & Hr). exists r. split; [done|]. destruct r as [q|].
    + destruct Hr as (i & e' & ? & ? & ? & ?). exists i, e'. split_and!; try done; lia.
    + intros i e' Hi Ei. destruct (Z.eq_dec i at_) as [->|]; [by simplify_eq|]. apply (Hr i e'); [lia|done].
Qed.

(** ** All pools *)

Lemma pool_search_ok fuel p str : pool_ok p -> str <> [] -> len p < 2 ^ 31 -> (31 <= fuel)%nat ->
  exists r, ('(low, high) ← (if is_sorted p then binary_search fuel p str 0 (wrapu 32 (len p - 1)) else Some (0, wrapu 32 (len p - 1)));
    scan (Z.to_nat (wrapu 32 (high + 1) - low)) p (qstr_compute_hash str) str low) = Some r /\
  match r with
  | Some q => exists i e, q = total_prev_len p + Z.of_nat i /\ entries p !! i = Some e /\ qstr e = str
  | None => forall i e, entries p !! i = Some e -> qstr e <> str
  end.
Proof.
  intros Hp Hs Hlen Hf. assert (0 <= len p) as H0 by (unfold len; lia).
  assert (forall i e, entries p !! i = Some e -> entry_at p (Z.of_nat i) = Some e /\ Z.of_nat i < len p) as Hat.
  { intros i e Ei. unfold entry_at, len. destruct (Z.leb_spec 0 (Z.of_nat i)); [|lia]. rewrite Nat2Z.id.
    pose proof (lookup_lt_Some _ _ _ Ei). split; [done|lia]. }
  assert (forall i e, entry_at p i = Some e -> 0 <= i /\ entries p !! Z.to_nat i = Some e) as Hat'.
  { intros i e. unfold entry_at. by destruct (Z.leb_spec 0 i). }
  destruct (is_sorted p) eqn:Es.
  - destruct (pool_sorted p Hp Es) as (Hne & _ & _). assert (1 <= len p) as H1 by (unfold len; destruct (entries p); [done|cbn; lia]).
    rewrite wrapu_small by lia.
    destruct (binary_search_ok p str Hp Es Hlen fuel 0 (len p - 1)) as (low & high & -> & Hl & Hh & Hk); [lia|lia| |].
    { transitivity (2 ^ 31); [lia|]. apply Z.pow_le_mono_r; lia. }
    cbn [mbind option_bind]. rewrite wrapu_small by lia.
    destruct (scan_ok p str Hp Hs (Z.to_nat (high + 1 - low)) low ltac:(lia) ltac:(lia)) as (r & -> & Hr). exists r. split; [done|].
    destruct r as [q|].
    + destruct Hr as (i & e & -> & Hi & Ee & Eq). destruct (Hat' _ _ Ee) as [Hi0 Ei]. exists (Z.to_nat i), e.
      split; [by rewrite Z2Nat.id|done].
    + intros i e Ei Eq. destruct (Hat _ _ Ei) as [Ea Hi]. pose proof (Hk (Z.of_nat i) e ltac:(lia) Ea Eq) as Hin.
      by apply (Hr (Z.of_nat i) e ltac:(lia) Ea).
  - cbn [mbind option_bind]. assert (wrapu 32 (wrapu 32 (len p - 1) + 1) = len p) as ->.
    { rewrite wrapu_add_l. rewrite Z.sub_add. by apply wrapu_small; lia. }
    rewrite Z.sub_0_r. destruct (scan_ok p str Hp Hs (Z.to_nat (len p)) 0 ltac:(lia) ltac:(lia)) as (r & -> & Hr). exists r. split; [done|].
    destruct r as [q|].
    + destruct Hr as (i & e & -> & Hi & Ee & Eq). destruct (Hat' _ _ Ee) as [Hi0 Ei]. exists (Z.to_nat i), e.
      split; [by rewrite Z2Nat.id|done].
    + intros i e Ei Eq. destruct (Hat _ _ Ei) as [Ea Hi]. by apply (Hr (Z.of_nat i) e ltac:(lia) Ea).
Qed.

Lemma place_at ts str i : distinct ts -> str <> [] -> ts !! i = Some str -> place ts str = Some i.
Proof.
  intros Hd Hs Ei. unfold place. destruct (list_find (fun t => t = str) ts) as [[j t]|] eqn:E.
  - apply list_find_Some in E as (Ej & -> & _). cbn. f_equal. by apply (Hd j i str).
  - apply list_find_None in E. rewrite list.Forall_forall in E. by destruct (E str (list_elem_of_lookup_2 _ _ _ Ei)).
Qed.

Lemma place_none ts str : (forall i, ts !! i <> Some str) -> place ts str = None.
Proof.
  intros Hn. unfold place. destruct (list_find (fun t => t = str) ts) as [[j t]|] eqn:E; [|done].
  apply list_find_Some in E as (Ej & -> & _). by destruct (Hn j).
Qed.

Lemma place_lookup ts str i : place ts str = Some i -> ts !! i = Some str.
Proof.
  unfold place. destruct (list_find (fun t => t = str) ts) as [[j t]|] eqn:E; [|done].
  intros [= <-]. by apply list_find_Some in E as (? & -> & _).
Qed.

Lemma distinct_app ts us : distinct (ts ++ us) -> distinct ts.
Proof. intros Hd i j t Ei Ej. apply (Hd i j t); by apply lookup_app_l_Some. Qed.

Lemma texts_entry p prev i e : entries p !! i = Some e -> texts_of (p :: prev) !! (length (texts_of prev) + i)%nat = Some (qstr e).
Proof. intros Ei. cbn. rewrite lookup_app_r, Nat.add_comm, Nat.add_sub by lia. by rewrite list_lookup_fmap, Ei. Qed.

Lemma texts_split p prev i str : texts_of (p :: prev) !! i = Some str ->
  texts_of prev !! i = Some str \/ exists j e, entries p !! j = Some e /\ qstr e = str.
Proof.
  cbn. intros E. apply lookup_app_Some in E as [?|[_ E]]; [by left|right]. rewrite list_lookup_fmap in E.
  apply fmap_Some in E as (e & Ee & ->). by do 2 eexists.
Qed.

Lemma find_in_pools_ok fuel str pools : str <> [] -> (31 <= fuel)%nat -> pools_ok pools -> distinct (texts_of pools) ->
  Z.of_nat (length (texts_of pools)) < 2 ^ 31 ->
  find_in_pools fuel pools (qstr_compute_hash str) str =
    Some (match place (texts_of pools) str with Some i => Z.of_nat i | None => MP_QSTRnull end).
Proof.
  intros Hs Hf. induction pools as [|p prev IH]; intros Hok Hd Hc; [done|]. destruct Hok as (Ht & Hp & Hprev).
  cbn [find_in_pools]. assert (len p < 2 ^ 31) as Hlen by (cbn in Hc; rewrite length_app, length_fmap in Hc; unfold len; lia).
  destruct (pool_search_ok fuel p str Hp Hs Hlen Hf) as (r & E & Hr).
  destruct (if is_sorted p then _ else _) as [[low high]|]; cbn [mbind option_bind] in *; [|done]. rewrite E. cbn [mbind option_bind].
  destruct r as [q|].
  - destruct Hr as (i & e & -> & Ei & Eq). rewrite (place_at _ _ (length (texts_of prev) + i) Hd Hs).
    + do 2 f_equal. lia.
    + rewrite <- Eq. by apply texts_entry.
  - rewrite IH; [|done|by eapply distinct_app|cbn in Hc; rewrite length_app in Hc; lia]. do 2 f_equal.
    destruct (place (texts_of prev) str) as [i|] eqn:Ep.
    + symmetry. rewrite (place_at _ str i Hd Hs); [done|]. apply place_lookup in Ep. cbn. by apply lookup_app_l_Some.
    + symmetry. rewrite place_none; [done|]. intros i Ei. apply texts_split in Ei as [Ei|(j & e & Ej & Eq)]; [|by apply (Hr j e)].
      assert (distinct (texts_of prev)) as Hd' by (by eapply distinct_app). by rewrite (place_at _ str i Hd' Hs Ei) in Ep.
Qed.

Lemma qstr_find_ok fuel s str : qstr_ok s -> (31 <= fuel)%nat ->
  qstr_find_strn fuel s str =
    Some (if (length str =? 0)%nat then MP_QSTR_ else match place (texts s) str with Some i => Z.of_nat i | None => MP_QSTRnull end).
Proof.
  intros [Hp _ _ Hd _ _ Hc _] Hf. unfold qstr_find_strn. destruct (Nat.eqb_spec (length str) 0); [done|].
  apply find_in_pools_ok; try done. by intros ->.
Qed.

(** * Numbers *)

Lemma find_qstr_ok pools q : pools_ok pools -> 0 <= q < Z.of_nat (length (texts_of pools)) ->
  exists p at_ e, find_qstr pools q = Some (p, at_) /\ entry_at p at_ = Some e /\ entry_ok e /\ texts_of pools !! Z.to_nat q = Some (qstr e).
Proof.
  induction pools as [|p prev IH]; intros Hok Hq; [cbn in Hq; lia|]. destruct Hok as (Ht & Hp & Hprev). cbn [find_qstr].
  destruct (Z.ltb_spec q (total_prev_len p)) as [Hlt|Hge].
  - destruct (IH Hprev ltac:(lia)) as (p' & at_ & e & -> & Ee & He & Et). exists p', at_, e. split_and!; try done.
    cbn. by apply lookup_app_l_Some.
  - cbn in Hq. rewrite length_app, length_fmap in Hq. unfold len in *.
    destruct (entry_at_ok p (q - total_prev_len p)) as (e & Ee & Ei); [unfold len; lia|].
    exists p, (q - total_prev_len p), e. split; [done|]. split; [done|]. split.
    + pose proof (pool_entries p Hp) as Hf. rewrite list.Forall_forall in Hf. by eapply Hf, list_elem_of_lookup_2.
    + rewrite <- (texts_entry p prev _ e Ei). f_equal. lia.
Qed.

Lemma qstr_str_ok s q : qstr_ok s -> 0 <= q < Z.of_nat (length (texts s)) ->
  exists t, texts s !! Z.to_nat q = Some t /\ qstr_str s q = Some t /\ qstr_len s q = Some (Z.of_nat (length t)) /\
    (t <> [] -> qstr_hash s q = Some (qstr_compute_hash t)).
Proof.
  intros Hs Hq. destruct (find_qstr_ok _ q (ok_pools s Hs) Hq) as (p & at_ & e & Ef & Ee & [Hl Hh] & Et).
  exists (qstr e). unfold qstr_str, qstr_len, qstr_hash, qstr_entry_of. rewrite Ef. cbn [mbind option_bind]. rewrite Ee. cbn.
  split; [done|]. split; [done|]. split; [by rewrite Hl|]. intros Ht. by rewrite Hh.
Qed.

(** * Additions *)

Lemma distinct_snoc ts str : distinct ts -> str <> [] -> place ts str = None -> distinct (ts ++ [str]).
Proof.
  intros Hd Hs Hp i j t Ei Ej Ht.
  assert (forall k, ts !! k <> Some str) as Hn by (intros k Ek; by rewrite (place_at ts str k Hd Hs Ek) in Hp).
  apply lookup_app_Some in Ei as [Ei|[Hi Ei]], Ej as [Ej|[Hj Ej]].
  - by apply (Hd i j t).
  - apply list_lookup_singleton_Some in Ej as [_ <-]. by destruct (Hn i).
  - apply list_lookup_singleton_Some in Ei as [_ <-]. by destruct (Hn j).
  - apply list_lookup_singleton_Some in Ei as [Ei _], Ej as [Ej _]. lia.
Qed.

(** The pools after an entry is added. *)
Definition pools_added (pools : list qstr_pool_t) (e : qstr_entry) (pools' : list qstr_pool_t) : Prop :=
  pools_ok pools' /\ texts_of pools' = texts_of pools ++ [qstr e].

Lemma qstr_add_ok s a str : pools_ok (last_pool s) -> last_pool s <> [] ->
  open_end s ->
  exists s' r, qstr_add s a (qstr_compute_hash str) (Z.of_nat (length str)) str = Some (s', r) /\
  match r with
  | inr q => pools_added (last_pool s) {| hash := qstr_compute_hash str; length_ := Z.of_nat (length str); qstr := str |} (last_pool s') /\
      q = Z.of_nat (length (texts s)) /\ qstr_last_chunk s' = qstr_last_chunk s /\ open_end s' /\ ~ no_pool s a
  | inl e => e = MEMORY_ERROR /\ s' = {| last_pool := last_pool s; qstr_last_chunk := None |} /\ no_pool s a
  end.
Proof.
  intros Hok Hne Hs. unfold qstr_add, open_end in *. destruct (last_pool s) as [|p prev] eqn:El; [done|]. cbn [head mbind option_bind].
  destruct Hok as (Ht & Hp & Hprev).
  assert (total_prev_len p + len p = Z.of_nat (length (texts s))) as Htot.
  { unfold texts. rewrite El. cbn. rewrite length_app, length_fmap. unfold len. lia. }
  set (e := {| hash := _; length_ := _; qstr := _ |}). assert (entry_ok e) as He by done.
  destruct (Z.leb_spec (alloc p) (len p)) as [Hfull|Hroom].
  - pose proof (pool_alloc p Hp). destruct (pool_given a) eqn:Ea.
    2: { do 2 eexists. split; [done|]. split; [done|]. split; [done|]. split; [|done]. rewrite El. by intros q [= <-]. }
    destruct (Z.leb_spec 1 (alloc p * 2)); [|lia]. do 2 eexists. split; [done|]. cbn [last_pool total_prev_len qstr_last_chunk].
    split; [split; [|done]|split; [done|]].
    + split; [cbn; unfold texts in Htot; rewrite El in Htot; done|]. split; [|done]. split; [by constructor|cbn; lia|done].
    + split; [done|]. split; [intros q [= <-]; by right|]. intros [_ ?]. congruence.
  - do 2 eexists. split; [done|]. cbn [last_pool tail qstr_last_chunk].
    assert (is_sorted p = false) as Hus by (destruct (Hs p eq_refl); [lia|done]).
    split; [|split; [done|split; [done|split; [by intros q [= <-]; right|]]]].
    2: { intros [Hal _]. rewrite El in Hal. specialize (Hal p eq_refl). lia. }
    split.
    + split; [done|]. split; [|done]. destruct Hp as [Hpe Hpa Hps]. split; cbn.
      * apply Forall_app. by split; [|constructor].
      * done.
      * congruence.
    + cbn. rewrite fmap_app. by rewrite (assoc_L app).
Qed.

(** The chunk has room for the string. *)
Lemma chunk_ok c a n : 0 <= n -> (forall k, c = Some k -> 0 <= qstr_last_used k <= qstr_last_alloc k) ->
  let refused := (forall k, c = Some k -> qstr_last_alloc k < qstr_last_used k + n /\ chunk_grows a = false) /\
    chunk_given a = false /\ exact_given a = false in
  match match grown_chunk c a n with Some k => Some k | None => new_chunk a n end with
  | Some k => 0 <= qstr_last_used k /\ qstr_last_used k + n <= qstr_last_alloc k /\ ~ refused
  | None => refused
  end.
Proof.
  intros Hn Hc.
  cbn zeta.
  assert (match new_chunk a n with
          | Some k => 0 <= qstr_last_used k /\ qstr_last_used k + n <= qstr_last_alloc k /\ ~ (chunk_given a = false /\ exact_given a = false)
          | None => chunk_given a = false /\ exact_given a = false end) as Hnew.
  { unfold new_chunk, MICROPY_ALLOC_QSTR_CHUNK_INIT. destruct (chunk_given a); [|destruct (exact_given a)]; cbn; [| |done].
    - destruct (Z.ltb_spec n 128); (split; [lia|split; [lia|intuition congruence]]).
    - split; [lia|split; [lia|intuition congruence]]. }
  destruct c as [k|]; cbn [grown_chunk].
  2: { destruct (new_chunk a n); [destruct Hnew as (? & ? & ?); intuition|]. split; [by intros ? [=]|done]. }
  specialize (Hc k eq_refl).
  rewrite Z.gtb_ltb. destruct (Z.ltb_spec (qstr_last_alloc k) (qstr_last_used k + n)).
  2: { split; [lia|]. split; [lia|]. intros [Hr _]. specialize (Hr k eq_refl). lia. }
  destruct (chunk_grows a).
  { cbn. split; [lia|]. split; [lia|]. intros [Hr _]. by destruct (Hr k eq_refl). }
  destruct (new_chunk a n); [destruct Hnew as (? & ? & ?); intuition|]. split; [by intros ? [= <-]|done].
Qed.

Lemma intern_new fuel s a str : qstr_ok s -> (31 <= fuel)%nat -> str <> [] -> place (texts s) str = None ->
  Z.of_nat (length (texts s)) + 1 < 2 ^ 31 ->
  exists s' r, qstr_from_strn fuel s a str = Some (s', r) /\ qstr_ok s' /\
  match r with
  | inr q => texts s' = texts s ++ [str] /\ q = Z.of_nat (length (texts s)) /\ (length str < 256)%nat /\ ~ refused s a (Z.of_nat (length str) + 1)
  | inl NAME_TOO_LONG => s' = s /\ (256 <= length str)%nat
  | inl MEMORY_ERROR => refused s a (Z.of_nat (length str) + 1) /\ texts s' = texts s /\ qstr_last_chunk s' = None
  end.
Proof.
  intros Hs Hf Hne Hp Hc. unfold qstr_from_strn. rewrite (qstr_find_ok fuel s str Hs Hf), Hp. cbn [mbind option_bind].
  destruct (Nat.eqb_spec (length str) 0) as [E|_]; [by destruct str|]. change (negb (MP_QSTRnull =? MP_QSTRnull)) with false. cbn iota.
  change (Z.shiftl 1 8) with 256. rewrite Z.geb_leb. destruct (Z.leb_spec 256 (Z.of_nat (length str))); [exists s, (inl NAME_TOO_LONG); split_and!; [done|done|done|lia]|].
  pose proof Hs as [Hpo Hso Hopen Hd Hnull Hemp Hct Hch].
  pose proof (chunk_ok (qstr_last_chunk s) a (Z.of_nat (length str) + 1) ltac:(lia) Hch) as Hck.
  destruct (match grown_chunk _ _ _ with Some c => Some c | None => _ end) as [c|].
  2: { do 2 eexists. split; [done|]. split; [by split|]. split; [by left|done]. }
  destruct Hck as (Hu & Ha & Hnr). destruct (Z.leb_spec (qstr_last_used c + (Z.of_nat (length str) + 1)) (qstr_last_alloc c)); [|lia].
  set (s1 := {| last_pool := last_pool s; qstr_last_chunk := _ |}).
  destruct (qstr_add_ok s1 a str Hpo Hso Hopen) as (s' & r & -> & Hr). exists s', r. split; [done|].
  destruct r as [e|q].
  - destruct Hr as (-> & -> & Hnp). split; [by split|]. split; [by right|done].
  - destruct Hr as ([Hok Htx] & Eq & Ech & Hop' & Hnp). unfold texts in *. cbn [last_pool s1] in *. rewrite Htx.
    split; [|split; [done|split; [done|split; [lia|by intros [?|?]]]]].
    split; unfold texts; rewrite ?Htx; try done.
    + intros E. rewrite E in Htx. cbn in Htx. by destruct (texts_of (last_pool s)).
    + by apply distinct_snoc.
    + by apply lookup_app_l_Some.
    + by apply lookup_app_l_Some.
    + rewrite length_app. cbn. lia.
    + rewrite Ech. intros k [= <-]. cbn. lia.
Qed.

(** * Theorems *)

Lemma qstr_str_inv s q t : qstr_ok s -> 0 <= q < Z.of_nat (length (texts s)) -> qstr_str s q = Some t -> texts s !! Z.to_nat q = Some t.
Proof. intros Hs Hq E. destruct (qstr_str_ok s q Hs Hq) as (t' & Et & Es & _). congruence. Qed.

Lemma qstr_str_at s i t : qstr_ok s -> texts s !! i = Some t -> qstr_str s (Z.of_nat i) = Some t.
Proof.
  intros Hs Et. pose proof (lookup_lt_Some _ _ _ Et). destruct (qstr_str_ok s (Z.of_nat i) Hs ltac:(lia)) as (t' & Et' & Es & _).
  rewrite Nat2Z.id in Et'. congruence.
Qed.

(** A string that is there, or empty, keeps its number. *)
Lemma intern_old fuel s a str q : qstr_ok s -> qstr_find_strn fuel s str = Some q -> q <> 0 -> qstr_from_strn fuel s a str = Some (s, inr q).
Proof. intros _ E Hq. unfold qstr_from_strn. rewrite E. cbn [mbind option_bind]. by destruct (Z.eqb_spec q MP_QSTRnull). Qed.

(** The number of a text, or why there is none. *)
Definition interned_as (fuel : nat) (s : qstr_state) (a : answers) (str : text) (s' : qstr_state) (r : qstr_exn + Z) : Prop :=
  match r with
  | inr q => (exists i, q = Z.of_nat i /\ texts s' !! i = Some str) /\ qstr_find_strn fuel s' str = Some q /\
      (str ∈ texts s /\ s' = s \/
       (str ∉ texts s) /\ texts s' = texts s ++ [str] /\ (length str < 256)%nat /\ ~ refused s a (Z.of_nat (length str) + 1))
  | inl NAME_TOO_LONG => (str ∉ texts s) /\ s' = s /\ (256 <= length str)%nat
  | inl MEMORY_ERROR => (str ∉ texts s) /\ refused s a (Z.of_nat (length str) + 1) /\ texts s' = texts s /\ qstr_last_chunk s' = None
  end.

Lemma qstr_from_strn_ok fuel s a str : qstr_ok s -> (31 <= fuel)%nat -> Z.of_nat (length (texts s)) + 1 < 2 ^ 31 ->
  exists s' r, qstr_from_strn fuel s a str = Some (s', r) /\ qstr_ok s' /\ texts s `prefix_of` texts s' /\
    interned_as fuel s a str s' r.
Proof.
  intros Hs Hf Hc. pose proof (qstr_find_ok fuel s str Hs Hf) as Efind. unfold interned_as.
  destruct (Nat.eqb_spec (length str) 0) as [E0|E0].
  { assert (str = []) as -> by (by destruct str). exists s, (inr MP_QSTR_).
    split; [by apply intern_old|]. split; [done|]. split; [done|]. pose proof (ok_empty s Hs) as E1.
    split; [by exists 1%nat|]. split; [done|]. left. split; [by eapply list_elem_of_lookup_2|done]. }
  assert (str <> []) as Hne by (by intros ->). destruct (place (texts s) str) as [i|] eqn:Ep.
  - pose proof (place_lookup _ _ _ Ep) as Ei. assert (Z.of_nat i <> 0) as Hi.
    { intros E. assert (i = 0%nat) as -> by lia. rewrite (ok_null s Hs) in Ei. congruence. }
    exists s, (inr (Z.of_nat i)). split; [by apply intern_old|]. split; [done|]. split; [done|].
    split; [by exists i|]. split; [done|]. left. split; [by eapply list_elem_of_lookup_2|done].
  - assert (str ∉ texts s) as Hnew.
    { intros (k & Ek)%list_elem_of_lookup_1. by rewrite (place_at _ _ k (ok_distinct s Hs) Hne Ek) in Ep. }
    destruct (intern_new fuel s a str Hs Hf Hne Ep Hc) as (s' & r & E & Hs' & Hr). exists s', r. split; [done|]. split; [done|].
    destruct r as [[]|q].
    + destruct Hr as [-> ?]. done.
    + destruct Hr as (? & -> & ?). done.
    + destruct Hr as (Et & -> & Hnr). rewrite Et. split; [by apply prefix_app_r|].
      assert (texts s' !! length (texts s) = Some str) as El by (rewrite Et; by apply list_lookup_middle).
      split; [exists (length (texts s)); by rewrite <- Et|]. split; [|by right]. rewrite (qstr_find_ok fuel s' str Hs' Hf).
      destruct (Nat.eqb_spec (length str) 0); [done|]. by rewrite (place_at _ _ _ (ok_distinct s' Hs') Hne El).
Qed.

(** C34: a qstr stands for one text: interning a text gives the number of that text,
    which the search finds again, and no other number has it; the texts of the
    numbers already given do not change; the pools stay well formed, and every
    character is written inside of its chunk.  A text that is there changes
    nothing; one that is not is added as the last, but for two cases: of 256
    characters or more it raises and changes nothing, and when the allocator
    refuses the memory it needs, and only then, [MEMORY_ERROR] is raised, the texts are as
    they were and no chunk is kept. *)
Theorem qstr_intern_spec fuel s a str : qstr_ok s -> (31 <= fuel)%nat -> Z.of_nat (length (texts s)) + 1 < 2 ^ 31 ->
  exists s' r, qstr_from_strn fuel s a str = Some (s', r) /\ qstr_ok s' /\
  (forall q t, 0 <= q < Z.of_nat (length (texts s)) -> qstr_str s q = Some t -> qstr_str s' q = Some t) /\
  match r with
  | inr q => qstr_str s' q = Some str /\ qstr_find_strn fuel s' str = Some q /\
      (forall q', 0 <= q' < Z.of_nat (length (texts s')) -> qstr_str s' q' = Some str -> str <> [] -> q' = q) /\
      (str ∈ texts s /\ s' = s \/
       (str ∉ texts s) /\ texts s' = texts s ++ [str] /\ (length str < 256)%nat /\ ~ refused s a (Z.of_nat (length str) + 1))
  | inl NAME_TOO_LONG => (str ∉ texts s) /\ (256 <= length str)%nat /\ s' = s
  | inl MEMORY_ERROR => (str ∉ texts s) /\ refused s a (Z.of_nat (length str) + 1) /\
      texts s' = texts s /\ qstr_last_chunk s' = None
  end.
Proof.
  intros Hs Hf Hc. destruct (qstr_from_strn_ok fuel s a str Hs Hf Hc) as (s' & r & E & Hs' & Hpre & Hr). exists s', r.
  split; [done|]. split; [done|]. split.
  - intros q t Hq Et. apply (qstr_str_inv s) in Et; [|done|done]. rewrite <- (Z2Nat.id q) by lia.
    apply qstr_str_at; [done|]. by eapply prefix_lookup_Some.
  - destruct r as [[]|q]; cbn [interned_as] in Hr; [by destruct Hr as (? & ? & ?)|done|].
    destruct Hr as ((i & -> & Ei) & Ef & Hor). split; [by apply qstr_str_at|]. split; [done|]. split; [|done].
    intros q' Hq' Et Hne. apply (qstr_str_inv s') in Et; [|done|done]. pose proof (ok_distinct s' Hs' _ _ _ Et Ei Hne). lia.
Qed.

(** Two static pools, the second sorted, and a chunk with room for one character. *)
Definition entry_of (t : text) : qstr_entry :=
  {| hash := if (length t =? 0)%nat then 0 else qstr_compute_hash t; length_ := Z.of_nat (length t); qstr := t |}.

Definition demo_qstrs : qstr_state := {|
  last_pool := [
    {| total_prev_len := 3; is_sorted := true; alloc := 2; entries := entry_of <$> [[97]; [97; 98]; [98]] |};
    {| total_prev_len := 0; is_sorted := false; alloc := 10; entries := entry_of <$> [[]; []; [120]] |} ];
  qstr_last_chunk := Some {| qstr_last_alloc := 128; qstr_last_used := 126 |} |}.

Lemma demo_qstrs_ok : qstr_ok demo_qstrs.
Proof.
  assert (forall t, entry_ok (entry_of t)) as He by (intros [|c t]; (split; [done|done])).
  split; try done.
  - split; [done|]. split; [|split; [done|split; [|done]]]; (split; [repeat constructor; apply He|done|]); [|done].
    intros _. split; [done|]. split; [repeat constructor; done|].
    intros [|[|[|i]]] [|[|[|j]]] a b Hij Ea Eb; try lia; cbn in Ea, Eb; simplify_eq; cbn; lia.
  - intros p [= <-]. by left.
  - intros i j t Ei Ej Ht. assert (i < 6 /\ j < 6)%nat as [Hi Hj] by (by split; eapply (lookup_lt_Some (texts demo_qstrs))).
    do 6 (destruct i as [|i]; [do 6 (destruct j as [|j]; [cbn in Ei, Ej; try reflexivity; simplify_eq|]); lia|]). lia.
  - intros c [= <-]. done.
Qed.

Lemma qstr_intern_spec_witness :
  let a := {| chunk_grows := false; chunk_given := true; exact_given := true; pool_given := true |} in
  exists s' r, qstr_from_strn 31 demo_qstrs a [97; 99] = Some (s', r) /\ qstr_ok s' /\
  (forall q t, 0 <= q < Z.of_nat (length (texts demo_qstrs)) -> qstr_str demo_qstrs q = Some t -> qstr_str s' q = Some t) /\
  match r with
  | inr q => qstr_str s' q = Some [97; 99] /\ qstr_find_strn 31 s' [97; 99] = Some q /\
      (forall q', 0 <= q' < Z.of_nat (length (texts s')) -> qstr_str s' q' = Some [97; 99] -> [97; 99] <> [] -> q' = q) /\
      ([97; 99] ∈ texts demo_qstrs /\ s' = demo_qstrs \/
       ([97; 99] ∉ texts demo_qstrs) /\ texts s' = texts demo_qstrs ++ [[97; 99]] /\ (length [97; 99] < 256)%nat /\ ~ refused demo_qstrs a (Z.of_nat (length [97; 99]) + 1))
  | inl NAME_TOO_LONG => ([97; 99] ∉ texts demo_qstrs) /\ (256 <= length [97; 99])%nat /\ s' = demo_qstrs
  | inl MEMORY_ERROR => ([97; 99] ∉ texts demo_qstrs) /\ refused demo_qstrs a (Z.of_nat (length [97; 99]) + 1) /\
      texts s' = texts demo_qstrs /\ qstr_last_chunk s' = None
  end.
Proof. cbn zeta. apply qstr_intern_spec; [exact demo_qstrs_ok|lia|reflexivity]. Defined.
