(* ===== verification/Grammar.v ===== *)
(** The grammar: the rules of [py/grammar.h] and the tables the preprocessor makes
    of them in [py/parse.c], with the options of the port (asynchronous
    functions, assignment expressions, slices and sets). *)

From Stdlib Require Import ZArith Lia.
From stdpp Require Import base option list numbers.
From S2P Require Import Prelude Lexer.

(** * Definitions *)

(** The rules: those with a compile function, the node of constant objects, those
    without a compile function. *)
Inductive rule_id :=
  | RULE_file_input | RULE_file_input_2 | RULE_decorated | RULE_funcdef | RULE_simple_stmt_2 | RULE_expr_stmt
  | RULE_testlist_star_expr | RULE_del_stmt | RULE_pass_stmt | RULE_break_stmt | RULE_continue_stmt
  | RULE_return_stmt | RULE_yield_stmt | RULE_raise_stmt | RULE_import_name | RULE_import_from
  | RULE_global_stmt | RULE_nonlocal_stmt | RULE_assert_stmt | RULE_async_stmt | RULE_if_stmt | RULE_while_stmt
  | RULE_for_stmt | RULE_try_stmt | RULE_with_stmt | RULE_suite_block_stmts | RULE_namedexpr_test
  | RULE_test_if_expr | RULE_lambdef | RULE_lambdef_nocond | RULE_or_test | RULE_and_test | RULE_not_test_2
  | RULE_comparison | RULE_star_expr | RULE_expr | RULE_xor_expr | RULE_and_expr | RULE_shift_expr
  | RULE_arith_expr | RULE_term | RULE_factor_2 | RULE_power | RULE_atom_expr_await | RULE_atom_expr_normal
  | RULE_atom_paren | RULE_atom_bracket | RULE_atom_brace | RULE_trailer_paren | RULE_trailer_bracket
  | RULE_trailer_period | RULE_subscriptlist | RULE_subscript_2 | RULE_subscript_3 | RULE_testlist
  | RULE_dictorsetmaker_item | RULE_classdef | RULE_yield_expr | RULE_const_object | RULE_generic_colon_test
  | RULE_generic_equal_test | RULE_single_input | RULE_file_input_3 | RULE_eval_input | RULE_eval_input_2
  | RULE_decorator | RULE_decorators | RULE_decorated_body | RULE_async_funcdef | RULE_funcdefrettype
  | RULE_typedargslist | RULE_typedargslist_item | RULE_typedargslist_name | RULE_typedargslist_star
  | RULE_typedargslist_dbl_star | RULE_tfpdef | RULE_varargslist | RULE_varargslist_item | RULE_varargslist_name
  | RULE_varargslist_star | RULE_varargslist_dbl_star | RULE_vfpdef | RULE_stmt | RULE_simple_stmt
  | RULE_small_stmt | RULE_expr_stmt_2 | RULE_expr_stmt_augassign | RULE_expr_stmt_assign_list
  | RULE_expr_stmt_assign | RULE_expr_stmt_6 | RULE_testlist_star_expr_2 | RULE_annassign | RULE_augassign
  | RULE_flow_stmt | RULE_raise_stmt_arg | RULE_raise_stmt_from | RULE_import_stmt | RULE_import_from_2
  | RULE_import_from_2b | RULE_import_from_3 | RULE_import_as_names_paren | RULE_one_or_more_period_or_ellipsis
  | RULE_period_or_ellipsis | RULE_import_as_name | RULE_dotted_as_name | RULE_as_name | RULE_import_as_names
  | RULE_dotted_as_names | RULE_dotted_name | RULE_name_list | RULE_assert_stmt_extra | RULE_compound_stmt
  | RULE_async_stmt_2 | RULE_if_stmt_elif_list | RULE_if_stmt_elif | RULE_try_stmt_2
  | RULE_try_stmt_except_and_more | RULE_try_stmt_except | RULE_try_stmt_as_name | RULE_try_stmt_except_list
  | RULE_try_stmt_finally | RULE_else_stmt | RULE_with_stmt_list | RULE_with_item | RULE_with_item_as
  | RULE_suite | RULE_suite_block | RULE_namedexpr_test_2 | RULE_test | RULE_test_if_else | RULE_test_nocond
  | RULE_not_test | RULE_comp_op | RULE_comp_op_not_in | RULE_comp_op_is | RULE_comp_op_is_not | RULE_shift_op
  | RULE_arith_op | RULE_term_op | RULE_factor | RULE_factor_op | RULE_atom_expr | RULE_atom_expr_trailers
  | RULE_power_dbl_star | RULE_atom | RULE_atom_2b | RULE_testlist_comp | RULE_testlist_comp_2
  | RULE_testlist_comp_3 | RULE_testlist_comp_3b | RULE_testlist_comp_3c | RULE_trailer | RULE_subscript
  | RULE_subscript_3b | RULE_subscript_3c | RULE_subscript_3d | RULE_sliceop | RULE_exprlist | RULE_exprlist_2
  | RULE_dictorsetmaker | RULE_dictorsetmaker_tail | RULE_dictorsetmaker_list | RULE_dictorsetmaker_list2
  | RULE_classdef_2 | RULE_arglist | RULE_arglist_2 | RULE_arglist_star | RULE_arglist_dbl_star | RULE_argument
  | RULE_argument_2 | RULE_argument_3 | RULE_comp_iter | RULE_comp_for | RULE_comp_if | RULE_yield_arg
  | RULE_yield_arg_from.

(** The values of the enumeration. *)
Definition rule_number (r : rule_id) : Z :=
  match r with
  | RULE_file_input => 0 | RULE_file_input_2 => 1 | RULE_decorated => 2 | RULE_funcdef => 3
  | RULE_simple_stmt_2 => 4 | RULE_expr_stmt => 5 | RULE_testlist_star_expr => 6 | RULE_del_stmt => 7
  | RULE_pass_stmt => 8 | RULE_break_stmt => 9 | RULE_continue_stmt => 10 | RULE_return_stmt => 11
  | RULE_yield_stmt => 12 | RULE_raise_stmt => 13 | RULE_import_name => 14 | RULE_import_from => 15
  | RULE_global_stmt => 16 | RULE_nonlocal_stmt => 17 | RULE_assert_stmt => 18 | RULE_async_stmt => 19
  | RULE_if_stmt => 20 | RULE_while_stmt => 21 | RULE_for_stmt => 22 | RULE_try_stmt => 23
  | RULE_with_stmt => 24 | RULE_suite_block_stmts => 25 | RULE_namedexpr_test => 26 | RULE_test_if_expr => 27
  | RULE_lambdef => 28 | RULE_lambdef_nocond => 29 | RULE_or_test => 30 | RULE_and_test => 31
  | RULE_not_test_2 => 32 | RULE_comparison => 33 | RULE_star_expr => 34 | RULE_expr => 35 | RULE_xor_expr => 36
  | RULE_and_expr => 37 | RULE_shift_expr => 38 | RULE_arith_expr => 39 | RULE_term => 40 | RULE_factor_2 => 41
  | RULE_power => 42 | RULE_atom_expr_await => 43 | RULE_atom_expr_normal => 44 | RULE_atom_paren => 45
  | RULE_atom_bracket => 46 | RULE_atom_brace => 47 | RULE_trailer_paren => 48 | RULE_trailer_bracket => 49
  | RULE_trailer_period => 50 | RULE_subscriptlist => 51 | RULE_subscript_2 => 52 | RULE_subscript_3 => 53
  | RULE_testlist => 54 | RULE_dictorsetmaker_item => 55 | RULE_classdef => 56 | RULE_yield_expr => 57
  | RULE_const_object => 58 | RULE_generic_colon_test => 59 | RULE_generic_equal_test => 60
  | RULE_single_input => 61 | RULE_file_input_3 => 62 | RULE_eval_input => 63 | RULE_eval_input_2 => 64
  | RULE_decorator => 65 | RULE_decorators => 66 | RULE_decorated_body => 67 | RULE_async_funcdef => 68
  | RULE_funcdefrettype => 69 | RULE_typedargslist => 70 | RULE_typedargslist_item => 71
  | RULE_typedargslist_name => 72 | RULE_typedargslist_star => 73 | RULE_typedargslist_dbl_star => 74
  | RULE_tfpdef => 75 | RULE_varargslist => 76 | RULE_varargslist_item => 77 | RULE_varargslist_name => 78
  | RULE_varargslist_star => 79 | RULE_varargslist_dbl_star => 80 | RULE_vfpdef => 81 | RULE_stmt => 82
  | RULE_simple_stmt => 83 | RULE_small_stmt => 84 | RULE_expr_stmt_2 => 85 | RULE_expr_stmt_augassign => 86
  | RULE_expr_stmt_assign_list => 87 | RULE_expr_stmt_assign => 88 | RULE_expr_stmt_6 => 89
  | RULE_testlist_star_expr_2 => 90 | RULE_annassign => 91 | RULE_augassign => 92 | RULE_flow_stmt => 93
  | RULE_raise_stmt_arg => 94 | RULE_raise_stmt_from => 95 | RULE_import_stmt => 96 | RULE_import_from_2 => 97
  | RULE_import_from_2b => 98 | RULE_import_from_3 => 99 | RULE_import_as_names_paren => 100
  | RULE_one_or_more_period_or_ellipsis => 101 | RULE_period_or_ellipsis => 102 | RULE_import_as_name => 103
  | RULE_dotted_as_name => 104 | RULE_as_name => 105 | RULE_import_as_names => 106 | RULE_dotted_as_names => 107
  | RULE_dotted_name => 108 | RULE_name_list => 109 | RULE_assert_stmt_extra => 110 | RULE_compound_stmt => 111
  | RULE_async_stmt_2 => 112 | RULE_if_stmt_elif_list => 113 | RULE_if_stmt_elif => 114 | RULE_try_stmt_2 => 115
  | RULE_try_stmt_except_and_more => 116 | RULE_try_stmt_except => 117 | RULE_try_stmt_as_name => 118
  | RULE_try_stmt_except_list => 119 | RULE_try_stmt_finally => 120 | RULE_else_stmt => 121
  | RULE_with_stmt_list => 122 | RULE_with_item => 123 | RULE_with_item_as => 124 | RULE_suite => 125
  | RULE_suite_block => 126 | RULE_namedexpr_test_2 => 127 | RULE_test => 128 | RULE_test_if_else => 129
  | RULE_test_nocond => 130 | RULE_not_test => 131 | RULE_comp_op => 132 | RULE_comp_op_not_in => 133
  | RULE_comp_op_is => 134 | RULE_comp_op_is_not => 135 | RULE_shift_op => 136 | RULE_arith_op => 137
  | RULE_term_op => 138 | RULE_factor => 139 | RULE_factor_op => 140 | RULE_atom_expr => 141
  | RULE_atom_expr_trailers => 142 | RULE_power_dbl_star => 143 | RULE_atom => 144 | RULE_atom_2b => 145
  | RULE_testlist_comp => 146 | RULE_testlist_comp_2 => 147 | RULE_testlist_comp_3 => 148
  | RULE_testlist_comp_3b => 149 | RULE_testlist_comp_3c => 150 | RULE_trailer => 151 | RULE_subscript => 152
  | RULE_subscript_3b => 153 | RULE_subscript_3c => 154 | RULE_subscript_3d => 155 | RULE_sliceop => 156
  | RULE_exprlist => 157 | RULE_exprlist_2 => 158 | RULE_dictorsetmaker => 159 | RULE_dictorsetmaker_tail => 160
  | RULE_dictorsetmaker_list => 161 | RULE_dictorsetmaker_list2 => 162 | RULE_classdef_2 => 163
  | RULE_arglist => 164 | RULE_arglist_2 => 165 | RULE_arglist_star => 166 | RULE_arglist_dbl_star => 167
  | RULE_argument => 168 | RULE_argument_2 => 169 | RULE_argument_3 => 170 | RULE_comp_iter => 171
  | RULE_comp_for => 172 | RULE_comp_if => 173 | RULE_yield_arg => 174 | RULE_yield_arg_from => 175
  end.

(** The rules in the order of the tables. *)
Definition rule_ids : list rule_id :=
  [RULE_file_input; RULE_file_input_2; RULE_decorated; RULE_funcdef; RULE_simple_stmt_2; RULE_expr_stmt;
  RULE_testlist_star_expr; RULE_del_stmt; RULE_pass_stmt; RULE_break_stmt; RULE_continue_stmt; RULE_return_stmt;
  RULE_yield_stmt; RULE_raise_stmt; RULE_import_name; RULE_import_from; RULE_global_stmt; RULE_nonlocal_stmt;
  RULE_assert_stmt; RULE_async_stmt; RULE_if_stmt; RULE_while_stmt; RULE_for_stmt; RULE_try_stmt;
  RULE_with_stmt; RULE_suite_block_stmts; RULE_namedexpr_test; RULE_test_if_expr; RULE_lambdef;
  RULE_lambdef_nocond; RULE_or_test; RULE_and_test; RULE_not_test_2; RULE_comparison; RULE_star_expr; RULE_expr;
  RULE_xor_expr; RULE_and_expr; RULE_shift_expr; RULE_arith_expr; RULE_term; RULE_factor_2; RULE_power;
  RULE_atom_expr_await; RULE_atom_expr_normal; RULE_atom_paren; RULE_atom_bracket; RULE_atom_brace;
  RULE_trailer_paren; RULE_trailer_bracket; RULE_trailer_period; RULE_subscriptlist; RULE_subscript_2;
  RULE_subscript_3; RULE_testlist; RULE_dictorsetmaker_item; RULE_classdef; RULE_yield_expr; RULE_const_object;
  RULE_generic_colon_test; RULE_generic_equal_test; RULE_single_input; RULE_file_input_3; RULE_eval_input;
  RULE_eval_input_2; RULE_decorator; RULE_decorators; RULE_decorated_body; RULE_async_funcdef;
  RULE_funcdefrettype; RULE_typedargslist; RULE_typedargslist_item; RULE_typedargslist_name;
  RULE_typedargslist_star; RULE_typedargslist_dbl_star; RULE_tfpdef; RULE_varargslist; RULE_varargslist_item;
  RULE_varargslist_name; RULE_varargslist_star; RULE_varargslist_dbl_star; RULE_vfpdef; RULE_stmt;
  RULE_simple_stmt; RULE_small_stmt; RULE_expr_stmt_2; RULE_expr_stmt_augassign; RULE_expr_stmt_assign_list;
  RULE_expr_stmt_assign; RULE_expr_stmt_6; RULE_testlist_star_expr_2; RULE_annassign; RULE_augassign;
  RULE_flow_stmt; RULE_raise_stmt_arg; RULE_raise_stmt_from; RULE_import_stmt; RULE_import_from_2;
  RULE_import_from_2b; RULE_import_from_3; RULE_import_as_names_paren; RULE_one_or_more_period_or_ellipsis;
  RULE_period_or_ellipsis; RULE_import_as_name; RULE_dotted_as_name; RULE_as_name; RULE_import_as_names;
  RULE_dotted_as_names; RULE_dotted_name; RULE_name_list; RULE_assert_stmt_extra; RULE_compound_stmt;
  RULE_async_stmt_2; RULE_if_stmt_elif_list; RULE_if_stmt_elif; RULE_try_stmt_2; RULE_try_stmt_except_and_more;
  RULE_try_stmt_except; RULE_try_stmt_as_name; RULE_try_stmt_except_list; RULE_try_stmt_finally; RULE_else_stmt;
  RULE_with_stmt_list; RULE_with_item; RULE_with_item_as; RULE_suite; RULE_suite_block; RULE_namedexpr_test_2;
  RULE_test; RULE_test_if_else; RULE_test_nocond; RULE_not_test; RULE_comp_op; RULE_comp_op_not_in;
  RULE_comp_op_is; RULE_comp_op_is_not; RULE_shift_op; RULE_arith_op; RULE_term_op; RULE_factor; RULE_factor_op;
  RULE_atom_expr; RULE_atom_expr_trailers; RULE_power_dbl_star; RULE_atom; RULE_atom_2b; RULE_testlist_comp;
  RULE_testlist_comp_2; RULE_testlist_comp_3; RULE_testlist_comp_3b; RULE_testlist_comp_3c; RULE_trailer;
  RULE_subscript; RULE_subscript_3b; RULE_subscript_3c; RULE_subscript_3d; RULE_sliceop; RULE_exprlist;
  RULE_exprlist_2; RULE_dictorsetmaker; RULE_dictorsetmaker_tail; RULE_dictorsetmaker_list;
  RULE_dictorsetmaker_list2; RULE_classdef_2; RULE_arglist; RULE_arglist_2; RULE_arglist_star;
  RULE_arglist_dbl_star; RULE_argument; RULE_argument_2; RULE_argument_3; RULE_comp_iter; RULE_comp_for;
  RULE_comp_if; RULE_yield_arg; RULE_yield_arg_from].
Lemma rule_ids_number r : rule_ids !! Z.to_nat (rule_number r) = Some r.
Proof. by destruct r. Qed.

#[export] Instance rule_id_eq_dec : EqDecision rule_id.
Proof.
  intros r s. destruct (decide (rule_number r = rule_number s)) as [E|N]; [left|right; congruence].
  pose proof (rule_ids_number r) as Hr. rewrite E, rule_ids_number in Hr. congruence.
Defined.

Inductive rule_arg := tok (t : mp_token_kind_t) | rule (r : rule_id) | opt_rule (r : rule_id).

#[export] Instance rule_arg_eq_dec : EqDecision rule_arg.
Proof. solve_decision. Defined.

(** What a rule does: one of [n] arguments, all of them (where a node with one
    argument that is not empty may be left out, or a blank node is added), or a
    list. *)
Inductive rule_act :=
  | ACT_NONE | ACT_OR (n : nat) | ACT_AND (n : nat) (allow_ident add_blank : bool) | ACT_LIST (n : nat).

Definition or_ (n : nat) : rule_act := ACT_OR n.
Definition and_ (n : nat) : rule_act := ACT_AND n false false.
Definition and_ident (n : nat) : rule_act := ACT_AND n true false.
Definition and_blank (n : nat) : rule_act := ACT_AND n false true.
Definition one_or_more : rule_act := ACT_LIST 2.
Definition list_ : rule_act := ACT_LIST 1.
Definition list_with_end : rule_act := ACT_LIST 3.

Definition grammar (r : rule_id) : rule_act * list rule_arg :=
  match r with
  | RULE_generic_colon_test => (and_ident 2, [tok MP_TOKEN_DEL_COLON; rule RULE_test])
  | RULE_generic_equal_test => (and_ident 2, [tok MP_TOKEN_DEL_EQUAL; rule RULE_test])
  | RULE_single_input => (or_ 3, [tok MP_TOKEN_NEWLINE; rule RULE_simple_stmt; rule RULE_compound_stmt])
  | RULE_file_input => (and_ident 1, [opt_rule RULE_file_input_2])
  | RULE_file_input_2 => (one_or_more, [rule RULE_file_input_3])
  | RULE_file_input_3 => (or_ 2, [tok MP_TOKEN_NEWLINE; rule RULE_stmt])
  | RULE_eval_input => (and_ident 2, [rule RULE_testlist; opt_rule RULE_eval_input_2])
  | RULE_eval_input_2 => (and_ 1, [tok MP_TOKEN_NEWLINE])
  | RULE_decorator => (and_ 4,
      [tok MP_TOKEN_OP_AT; rule RULE_dotted_name; opt_rule RULE_trailer_paren; tok MP_TOKEN_NEWLINE])
  | RULE_decorators => (one_or_more, [rule RULE_decorator])
  | RULE_decorated => (and_ident 2, [rule RULE_decorators; rule RULE_decorated_body])
  | RULE_decorated_body => (or_ 3, [rule RULE_classdef; rule RULE_funcdef; rule RULE_async_funcdef])
  | RULE_async_funcdef => (and_ 2, [tok MP_TOKEN_KW_ASYNC; rule RULE_funcdef])
  | RULE_funcdef => (and_blank 8,
      [tok MP_TOKEN_KW_DEF; tok MP_TOKEN_NAME; tok MP_TOKEN_DEL_PAREN_OPEN; opt_rule RULE_typedargslist;
      tok MP_TOKEN_DEL_PAREN_CLOSE; opt_rule RULE_funcdefrettype; tok MP_TOKEN_DEL_COLON; rule RULE_suite])
  | RULE_funcdefrettype => (and_ident 2, [tok MP_TOKEN_DEL_MINUS_MORE; rule RULE_test])
  | RULE_typedargslist => (list_with_end, [rule RULE_typedargslist_item; tok MP_TOKEN_DEL_COMMA])
  | RULE_typedargslist_item => (or_ 3,
      [rule RULE_typedargslist_name; rule RULE_typedargslist_star; rule RULE_typedargslist_dbl_star])
  | RULE_typedargslist_name => (and_ident 3,
      [tok MP_TOKEN_NAME; opt_rule RULE_generic_colon_test; opt_rule RULE_generic_equal_test])
  | RULE_typedargslist_star => (and_ 2, [tok MP_TOKEN_OP_STAR; opt_rule RULE_tfpdef])
  | RULE_typedargslist_dbl_star => (and_ 3,
      [tok MP_TOKEN_OP_DBL_STAR; tok MP_TOKEN_NAME; opt_rule RULE_generic_colon_test])
  | RULE_tfpdef => (and_ 2, [tok MP_TOKEN_NAME; opt_rule RULE_generic_colon_test])
  | RULE_varargslist => (list_with_end, [rule RULE_varargslist_item; tok MP_TOKEN_DEL_COMMA])
  | RULE_varargslist_item => (or_ 3,
      [rule RULE_varargslist_name; rule RULE_varargslist_star; rule RULE_varargslist_dbl_star])
  | RULE_varargslist_name => (and_ident 2, [tok MP_TOKEN_NAME; opt_rule RULE_generic_equal_test])
  | RULE_varargslist_star => (and_ 2, [tok MP_TOKEN_OP_STAR; opt_rule RULE_vfpdef])
  | RULE_varargslist_dbl_star => (and_ 2, [tok MP_TOKEN_OP_DBL_STAR; tok MP_TOKEN_NAME])
  | RULE_vfpdef => (and_ident 1, [tok MP_TOKEN_NAME])
  | RULE_stmt => (or_ 2, [rule RULE_compound_stmt; rule RULE_simple_stmt])
  | RULE_simple_stmt => (and_ident 2, [rule RULE_simple_stmt_2; tok MP_TOKEN_NEWLINE])
  | RULE_simple_stmt_2 => (list_with_end, [rule RULE_small_stmt; tok MP_TOKEN_DEL_SEMICOLON])
  | RULE_small_stmt => (or_ 8,
      [rule RULE_del_stmt; rule RULE_pass_stmt; rule RULE_flow_stmt; rule RULE_import_stmt;
      rule RULE_global_stmt; rule RULE_nonlocal_stmt; rule RULE_assert_stmt; rule RULE_expr_stmt])
  | RULE_expr_stmt => (and_ 2, [rule RULE_testlist_star_expr; opt_rule RULE_expr_stmt_2])
  | RULE_expr_stmt_2 => (or_ 3, [rule RULE_annassign; rule RULE_expr_stmt_augassign; rule RULE_expr_stmt_assign_list])
  | RULE_expr_stmt_augassign => (and_ident 2, [rule RULE_augassign; rule RULE_expr_stmt_6])
  | RULE_expr_stmt_assign_list => (one_or_more, [rule RULE_expr_stmt_assign])
  | RULE_expr_stmt_assign => (and_ident 2, [tok MP_TOKEN_DEL_EQUAL; rule RULE_expr_stmt_6])
  | RULE_expr_stmt_6 => (or_ 2, [rule RULE_yield_expr; rule RULE_testlist_star_expr])
  | RULE_testlist_star_expr => (list_with_end, [rule RULE_testlist_star_expr_2; tok MP_TOKEN_DEL_COMMA])
  | RULE_testlist_star_expr_2 => (or_ 2, [rule RULE_star_expr; rule RULE_test])
  | RULE_annassign => (and_ 3, [tok MP_TOKEN_DEL_COLON; rule RULE_test; opt_rule RULE_expr_stmt_assign])
  | RULE_augassign => (or_ 13,
      [tok MP_TOKEN_DEL_PLUS_EQUAL; tok MP_TOKEN_DEL_MINUS_EQUAL; tok MP_TOKEN_DEL_STAR_EQUAL;
      tok MP_TOKEN_DEL_AT_EQUAL; tok MP_TOKEN_DEL_SLASH_EQUAL; tok MP_TOKEN_DEL_PERCENT_EQUAL;
      tok MP_TOKEN_DEL_AMPERSAND_EQUAL; tok MP_TOKEN_DEL_PIPE_EQUAL; tok MP_TOKEN_DEL_CARET_EQUAL;
      tok MP_TOKEN_DEL_DBL_LESS_EQUAL; tok MP_TOKEN_DEL_DBL_MORE_EQUAL; tok MP_TOKEN_DEL_DBL_STAR_EQUAL;
      tok MP_TOKEN_DEL_DBL_SLASH_EQUAL])
  | RULE_del_stmt => (and_ 2, [tok MP_TOKEN_KW_DEL; rule RULE_exprlist])
  | RULE_pass_stmt => (and_ 1, [tok MP_TOKEN_KW_PASS])
  | RULE_flow_stmt => (or_ 5,
      [rule RULE_break_stmt; rule RULE_continue_stmt; rule RULE_return_stmt; rule RULE_raise_stmt;
      rule RULE_yield_stmt])
  | RULE_break_stmt => (and_ 1, [tok MP_TOKEN_KW_BREAK])
  | RULE_continue_stmt => (and_ 1, [tok MP_TOKEN_KW_CONTINUE])
  | RULE_return_stmt => (and_ 2, [tok MP_TOKEN_KW_RETURN; opt_rule RULE_testlist])
  | RULE_yield_stmt => (and_ 1, [rule RULE_yield_expr])
  | RULE_raise_stmt => (and_ 2, [tok MP_TOKEN_KW_RAISE; opt_rule RULE_raise_stmt_arg])
  | RULE_raise_stmt_arg => (and_ident 2, [rule RULE_test; opt_rule RULE_raise_stmt_from])
  | RULE_raise_stmt_from => (and_ident 2, [tok MP_TOKEN_KW_FROM; rule RULE_test])
  | RULE_import_stmt => (or_ 2, [rule RULE_import_name; rule RULE_import_from])
  | RULE_import_name => (and_ 2, [tok MP_TOKEN_KW_IMPORT; rule RULE_dotted_as_names])
  | RULE_import_from => (and_ 4,
      [tok MP_TOKEN_KW_FROM; rule RULE_import_from_2; tok MP_TOKEN_KW_IMPORT; rule RULE_import_from_3])
  | RULE_import_from_2 => (or_ 2, [rule RULE_dotted_name; rule RULE_import_from_2b])
  | RULE_import_from_2b => (and_ident 2, [rule RULE_one_or_more_period_or_ellipsis; opt_rule RULE_dotted_name])
  | RULE_import_from_3 => (or_ 3, [tok MP_TOKEN_OP_STAR; rule RULE_import_as_names_paren; rule RULE_import_as_names])
  | RULE_import_as_names_paren => (and_ident 3,
      [tok MP_TOKEN_DEL_PAREN_OPEN; rule RULE_import_as_names; tok MP_TOKEN_DEL_PAREN_CLOSE])
  | RULE_one_or_more_period_or_ellipsis => (one_or_more, [rule RULE_period_or_ellipsis])
  | RULE_period_or_ellipsis => (or_ 2, [tok MP_TOKEN_DEL_PERIOD; tok MP_TOKEN_ELLIPSIS])
  | RULE_import_as_name => (and_ 2, [tok MP_TOKEN_NAME; opt_rule RULE_as_name])
  | RULE_dotted_as_name => (and_ident 2, [rule RULE_dotted_name; opt_rule RULE_as_name])
  | RULE_as_name => (and_ident 2, [tok MP_TOKEN_KW_AS; tok MP_TOKEN_NAME])
  | RULE_import_as_names => (list_with_end, [rule RULE_import_as_name; tok MP_TOKEN_DEL_COMMA])
  | RULE_dotted_as_names => (list_, [rule RULE_dotted_as_name; tok MP_TOKEN_DEL_COMMA])
  | RULE_dotted_name => (list_, [tok MP_TOKEN_NAME; tok MP_TOKEN_DEL_PERIOD])
  | RULE_global_stmt => (and_ 2, [tok MP_TOKEN_KW_GLOBAL; rule RULE_name_list])
  | RULE_nonlocal_stmt => (and_ 2, [tok MP_TOKEN_KW_NONLOCAL; rule RULE_name_list])
  | RULE_name_list => (list_, [tok MP_TOKEN_NAME; tok MP_TOKEN_DEL_COMMA])
  | RULE_assert_stmt => (and_ 3, [tok MP_TOKEN_KW_ASSERT; rule RULE_test; opt_rule RULE_assert_stmt_extra])
  | RULE_assert_stmt_extra => (and_ident 2, [tok MP_TOKEN_DEL_COMMA; rule RULE_test])
  | RULE_compound_stmt => (or_ 9,
      [rule RULE_if_stmt; rule RULE_while_stmt; rule RULE_for_stmt; rule RULE_try_stmt; rule RULE_with_stmt;
      rule RULE_funcdef; rule RULE_classdef; rule RULE_decorated; rule RULE_async_stmt])
  | RULE_async_stmt => (and_ 2, [tok MP_TOKEN_KW_ASYNC; rule RULE_async_stmt_2])
  | RULE_async_stmt_2 => (or_ 3, [rule RULE_funcdef; rule RULE_with_stmt; rule RULE_for_stmt])
  | RULE_if_stmt => (and_ 6,
      [tok MP_TOKEN_KW_IF; rule RULE_namedexpr_test; tok MP_TOKEN_DEL_COLON; rule RULE_suite;
      opt_rule RULE_if_stmt_elif_list; opt_rule RULE_else_stmt])
  | RULE_if_stmt_elif_list => (one_or_more, [rule RULE_if_stmt_elif])
  | RULE_if_stmt_elif => (and_ 4,
      [tok MP_TOKEN_KW_ELIF; rule RULE_namedexpr_test; tok MP_TOKEN_DEL_COLON; rule RULE_suite])
  | RULE_while_stmt => (and_ 5,
      [tok MP_TOKEN_KW_WHILE; rule RULE_namedexpr_test; tok MP_TOKEN_DEL_COLON; rule RULE_suite;
      opt_rule RULE_else_stmt])
  | RULE_for_stmt => (and_ 7,
      [tok MP_TOKEN_KW_FOR; rule RULE_exprlist; tok MP_TOKEN_KW_IN; rule RULE_testlist; tok MP_TOKEN_DEL_COLON;
      rule RULE_suite; opt_rule RULE_else_stmt])
  | RULE_try_stmt => (and_ 4, [tok MP_TOKEN_KW_TRY; tok MP_TOKEN_DEL_COLON; rule RULE_suite; rule RULE_try_stmt_2])
  | RULE_try_stmt_2 => (or_ 2, [rule RULE_try_stmt_except_and_more; rule RULE_try_stmt_finally])
  | RULE_try_stmt_except_and_more => (and_ident 3,
      [rule RULE_try_stmt_except_list; opt_rule RULE_else_stmt; opt_rule RULE_try_stmt_finally])
  | RULE_try_stmt_except => (and_ 4,
      [tok MP_TOKEN_KW_EXCEPT; opt_rule RULE_try_stmt_as_name; tok MP_TOKEN_DEL_COLON; rule RULE_suite])
  | RULE_try_stmt_as_name => (and_ident 2, [rule RULE_test; opt_rule RULE_as_name])
  | RULE_try_stmt_except_list => (one_or_more, [rule RULE_try_stmt_except])
  | RULE_try_stmt_finally => (and_ 3, [tok MP_TOKEN_KW_FINALLY; tok MP_TOKEN_DEL_COLON; rule RULE_suite])
  | RULE_else_stmt => (and_ident 3, [tok MP_TOKEN_KW_ELSE; tok MP_TOKEN_DEL_COLON; rule RULE_suite])
  | RULE_with_stmt => (and_ 4,
      [tok MP_TOKEN_KW_WITH; rule RULE_with_stmt_list; tok MP_TOKEN_DEL_COLON; rule RULE_suite])
  | RULE_with_stmt_list => (list_, [rule RULE_with_item; tok MP_TOKEN_DEL_COMMA])
  | RULE_with_item => (and_ident 2, [rule RULE_test; opt_rule RULE_with_item_as])
  | RULE_with_item_as => (and_ident 2, [tok MP_TOKEN_KW_AS; rule RULE_expr])
  | RULE_suite => (or_ 2, [rule RULE_suite_block; rule RULE_simple_stmt])
  | RULE_suite_block => (and_ident 4,
      [tok MP_TOKEN_NEWLINE; tok MP_TOKEN_INDENT; rule RULE_suite_block_stmts; tok MP_TOKEN_DEDENT])
  | RULE_suite_block_stmts => (one_or_more, [rule RULE_stmt])
  | RULE_namedexpr_test => (and_ident 2, [rule RULE_test; opt_rule RULE_namedexpr_test_2])
  | RULE_namedexpr_test_2 => (and_ident 2, [tok MP_TOKEN_OP_ASSIGN; rule RULE_test])
  | RULE_test => (or_ 2, [rule RULE_lambdef; rule RULE_test_if_expr])
  | RULE_test_if_expr => (and_ident 2, [rule RULE_or_test; opt_rule RULE_test_if_else])
  | RULE_test_if_else => (and_ 4, [tok MP_TOKEN_KW_IF; rule RULE_or_test; tok MP_TOKEN_KW_ELSE; rule RULE_test])
  | RULE_test_nocond => (or_ 2, [rule RULE_lambdef_nocond; rule RULE_or_test])
  | RULE_lambdef => (and_blank 4,
      [tok MP_TOKEN_KW_LAMBDA; opt_rule RULE_varargslist; tok MP_TOKEN_DEL_COLON; rule RULE_test])
  | RULE_lambdef_nocond => (and_blank 4,
      [tok MP_TOKEN_KW_LAMBDA; opt_rule RULE_varargslist; tok MP_TOKEN_DEL_COLON; rule RULE_test_nocond])
  | RULE_or_test => (list_, [rule RULE_and_test; tok MP_TOKEN_KW_OR])
  | RULE_and_test => (list_, [rule RULE_not_test; tok MP_TOKEN_KW_AND])
  | RULE_not_test => (or_ 2, [rule RULE_not_test_2; rule RULE_comparison])
  | RULE_not_test_2 => (and_ 2, [tok MP_TOKEN_KW_NOT; rule RULE_not_test])
  | RULE_comparison => (list_, [rule RULE_expr; rule RULE_comp_op])
  | RULE_comp_op => (or_ 9,
      [tok MP_TOKEN_OP_LESS; tok MP_TOKEN_OP_MORE; tok MP_TOKEN_OP_DBL_EQUAL; tok MP_TOKEN_OP_LESS_EQUAL;
      tok MP_TOKEN_OP_MORE_EQUAL; tok MP_TOKEN_OP_NOT_EQUAL; tok MP_TOKEN_KW_IN; rule RULE_comp_op_not_in;
      rule RULE_comp_op_is])
  | RULE_comp_op_not_in => (and_ 2, [tok MP_TOKEN_KW_NOT; tok MP_TOKEN_KW_IN])
  | RULE_comp_op_is => (and_ 2, [tok MP_TOKEN_KW_IS; opt_rule RULE_comp_op_is_not])
  | RULE_comp_op_is_not => (and_ 1, [tok MP_TOKEN_KW_NOT])
  | RULE_star_expr => (and_ 2, [tok MP_TOKEN_OP_STAR; rule RULE_expr])
  | RULE_expr => (list_, [rule RULE_xor_expr; tok MP_TOKEN_OP_PIPE])
  | RULE_xor_expr => (list_, [rule RULE_and_expr; tok MP_TOKEN_OP_CARET])
  | RULE_and_expr => (list_, [rule RULE_shift_expr; tok MP_TOKEN_OP_AMPERSAND])
  | RULE_shift_expr => (list_, [rule RULE_arith_expr; rule RULE_shift_op])
  | RULE_shift_op => (or_ 2, [tok MP_TOKEN_OP_DBL_LESS; tok MP_TOKEN_OP_DBL_MORE])
  | RULE_arith_expr => (list_, [rule RULE_term; rule RULE_arith_op])
  | RULE_arith_op => (or_ 2, [tok MP_TOKEN_OP_PLUS; tok MP_TOKEN_OP_MINUS])
  | RULE_term => (list_, [rule RULE_factor; rule RULE_term_op])
  | RULE_term_op => (or_ 5,
      [tok MP_TOKEN_OP_STAR; tok MP_TOKEN_OP_AT; tok MP_TOKEN_OP_SLASH; tok MP_TOKEN_OP_PERCENT;
      tok MP_TOKEN_OP_DBL_SLASH])
  | RULE_factor => (or_ 2, [rule RULE_factor_2; rule RULE_power])
  | RULE_factor_2 => (and_ident 2, [rule RULE_factor_op; rule RULE_factor])
  | RULE_factor_op => (or_ 3, [tok MP_TOKEN_OP_PLUS; tok MP_TOKEN_OP_MINUS; tok MP_TOKEN_OP_TILDE])
  | RULE_power => (and_ident 2, [rule RULE_atom_expr; opt_rule RULE_power_dbl_star])
  | RULE_atom_expr => (or_ 2, [rule RULE_atom_expr_await; rule RULE_atom_expr_normal])
  | RULE_atom_expr_await => (and_ 3, [tok MP_TOKEN_KW_AWAIT; rule RULE_atom; opt_rule RULE_atom_expr_trailers])
  | RULE_atom_expr_normal => (and_ident 2, [rule RULE_atom; opt_rule RULE_atom_expr_trailers])
  | RULE_atom_expr_trailers => (one_or_more, [rule RULE_trailer])
  | RULE_power_dbl_star => (and_ident 2, [tok MP_TOKEN_OP_DBL_STAR; rule RULE_factor])
  | RULE_atom => (or_ 12,
      [tok MP_TOKEN_NAME; tok MP_TOKEN_INTEGER; tok MP_TOKEN_FLOAT_OR_IMAG; tok MP_TOKEN_STRING;
      tok MP_TOKEN_BYTES; tok MP_TOKEN_ELLIPSIS; tok MP_TOKEN_KW_NONE; tok MP_TOKEN_KW_TRUE;
      tok MP_TOKEN_KW_FALSE; rule RULE_atom_paren; rule RULE_atom_bracket; rule RULE_atom_brace])
  | RULE_atom_paren => (and_ 3, [tok MP_TOKEN_DEL_PAREN_OPEN; opt_rule RULE_atom_2b; tok MP_TOKEN_DEL_PAREN_CLOSE])
  | RULE_atom_2b => (or_ 2, [rule RULE_yield_expr; rule RULE_testlist_comp])
  | RULE_atom_bracket => (and_ 3,
      [tok MP_TOKEN_DEL_BRACKET_OPEN; opt_rule RULE_testlist_comp; tok MP_TOKEN_DEL_BRACKET_CLOSE])
  | RULE_atom_brace => (and_ 3,
      [tok MP_TOKEN_DEL_BRACE_OPEN; opt_rule RULE_dictorsetmaker; tok MP_TOKEN_DEL_BRACE_CLOSE])
  | RULE_testlist_comp => (and_ident 2, [rule RULE_testlist_comp_2; opt_rule RULE_testlist_comp_3])
  | RULE_testlist_comp_2 => (or_ 2, [rule RULE_star_expr; rule RULE_namedexpr_test])
  | RULE_testlist_comp_3 => (or_ 2, [rule RULE_comp_for; rule RULE_testlist_comp_3b])
  | RULE_testlist_comp_3b => (and_ident 2, [tok MP_TOKEN_DEL_COMMA; opt_rule RULE_testlist_comp_3c])
  | RULE_testlist_comp_3c => (list_with_end, [rule RULE_testlist_comp_2; tok MP_TOKEN_DEL_COMMA])
  | RULE_trailer => (or_ 3, [rule RULE_trailer_paren; rule RULE_trailer_bracket; rule RULE_trailer_period])
  | RULE_trailer_paren => (and_ 3, [tok MP_TOKEN_DEL_PAREN_OPEN; opt_rule RULE_arglist; tok MP_TOKEN_DEL_PAREN_CLOSE])
  | RULE_trailer_bracket => (and_ 3,
      [tok MP_TOKEN_DEL_BRACKET_OPEN; rule RULE_subscriptlist; tok MP_TOKEN_DEL_BRACKET_CLOSE])
  | RULE_trailer_period => (and_ 2, [tok MP_TOKEN_DEL_PERIOD; tok MP_TOKEN_NAME])
  | RULE_subscriptlist => (list_with_end, [rule RULE_subscript; tok MP_TOKEN_DEL_COMMA])
  | RULE_subscript => (or_ 2, [rule RULE_subscript_3; rule RULE_subscript_2])
  | RULE_subscript_2 => (and_ident 2, [rule RULE_test; opt_rule RULE_subscript_3])
  | RULE_subscript_3 => (and_ 2, [tok MP_TOKEN_DEL_COLON; opt_rule RULE_subscript_3b])
  | RULE_subscript_3b => (or_ 2, [rule RULE_subscript_3c; rule RULE_subscript_3d])
  | RULE_subscript_3c => (and_ 2, [tok MP_TOKEN_DEL_COLON; opt_rule RULE_test])
  | RULE_subscript_3d => (and_ident 2, [rule RULE_test; opt_rule RULE_sliceop])
  | RULE_sliceop => (and_ 2, [tok MP_TOKEN_DEL_COLON; opt_rule RULE_test])
  | RULE_exprlist => (list_with_end, [rule RULE_exprlist_2; tok MP_TOKEN_DEL_COMMA])
  | RULE_exprlist_2 => (or_ 2, [rule RULE_star_expr; rule RULE_expr])
  | RULE_testlist => (list_with_end, [rule RULE_test; tok MP_TOKEN_DEL_COMMA])
  | RULE_dictorsetmaker => (and_ident 2, [rule RULE_dictorsetmaker_item; opt_rule RULE_dictorsetmaker_tail])
  | RULE_dictorsetmaker_item => (and_ident 2, [rule RULE_test; opt_rule RULE_generic_colon_test])
  | RULE_dictorsetmaker_tail => (or_ 2, [rule RULE_comp_for; rule RULE_dictorsetmaker_list])
  | RULE_dictorsetmaker_list => (and_ 2, [tok MP_TOKEN_DEL_COMMA; opt_rule RULE_dictorsetmaker_list2])
  | RULE_dictorsetmaker_list2 => (list_with_end, [rule RULE_dictorsetmaker_item; tok MP_TOKEN_DEL_COMMA])
  | RULE_classdef => (and_blank 5,
      [tok MP_TOKEN_KW_CLASS; tok MP_TOKEN_NAME; opt_rule RULE_classdef_2; tok MP_TOKEN_DEL_COLON;
      rule RULE_suite])
  | RULE_classdef_2 => (and_ident 3,
      [tok MP_TOKEN_DEL_PAREN_OPEN; opt_rule RULE_arglist; tok MP_TOKEN_DEL_PAREN_CLOSE])
  | RULE_arglist => (list_with_end, [rule RULE_arglist_2; tok MP_TOKEN_DEL_COMMA])
  | RULE_arglist_2 => (or_ 3, [rule RULE_arglist_star; rule RULE_arglist_dbl_star; rule RULE_argument])
  | RULE_arglist_star => (and_ 2, [tok MP_TOKEN_OP_STAR; rule RULE_test])
  | RULE_arglist_dbl_star => (and_ 2, [tok MP_TOKEN_OP_DBL_STAR; rule RULE_test])
  | RULE_argument => (and_ident 2, [rule RULE_test; opt_rule RULE_argument_2])
  | RULE_argument_2 => (or_ 3, [rule RULE_comp_for; rule RULE_generic_equal_test; rule RULE_argument_3])
  | RULE_argument_3 => (and_ 2, [tok MP_TOKEN_OP_ASSIGN; rule RULE_test])
  | RULE_comp_iter => (or_ 2, [rule RULE_comp_for; rule RULE_comp_if])
  | RULE_comp_for => (and_blank 5,
      [tok MP_TOKEN_KW_FOR; rule RULE_exprlist; tok MP_TOKEN_KW_IN; rule RULE_or_test; opt_rule RULE_comp_iter])
  | RULE_comp_if => (and_ 3, [tok MP_TOKEN_KW_IF; rule RULE_test_nocond; opt_rule RULE_comp_iter])
  | RULE_yield_expr => (and_ 2, [tok MP_TOKEN_KW_YIELD; opt_rule RULE_yield_arg])
  | RULE_yield_arg => (or_ 2, [rule RULE_yield_arg_from; rule RULE_testlist])
  | RULE_yield_arg_from => (and_ 2, [tok MP_TOKEN_KW_FROM; rule RULE_test])
  | RULE_const_object => (ACT_NONE, [])
  end.

Definition rule_act_table (r : rule_id) : rule_act := fst (grammar r).

(** The arguments of a rule. *)
Definition rule_args (r : rule_id) : list rule_arg := snd (grammar r).

(** ** The combined table of arguments *)

Definition rule_arg_combined_table : list rule_arg := Eval vm_compute in rule_ids ≫= rule_args.

(** Where the arguments of a rule start; the table keeps eight bits of it. *)
Definition rule_arg_offset (r : rule_id) : Z :=
  Z.of_nat (length (take (Z.to_nat (rule_number r)) rule_ids ≫= rule_args)).

Definition rule_arg_offset_table : list Z :=
  Eval vm_compute in (fun r => if decide (r = RULE_const_object) then 0 else Z.land (rule_arg_offset r) 0xff) <$> rule_ids.

(** The first rule, among those with a compile function and then the others,
    whose offset needs a ninth bit. *)
Definition FIRST_RULE_WITH_OFFSET_ABOVE_255 : Z := Eval vm_compute in
  default 0 (rule_number <$> List.find (fun r => negb (bool_decide (r = RULE_const_object)) && (rule_arg_offset r >=? 0x100)) rule_ids).

Definition get_rule_arg (r_id : rule_id) : option (list rule_arg) :=
  off ← rule_arg_offset_table !! Z.to_nat (rule_number r_id);
  let off := if rule_number r_id >=? FIRST_RULE_WITH_OFFSET_ABOVE_255 then Z.lor off 0x100 else off in
  Some (drop (Z.to_nat off) rule_arg_combined_table).

(** * The tables *)

(** The ninth bit is recovered: the arguments of every rule are read. *)
Lemma get_rule_arg_ok r : r <> RULE_const_object -> exists more, get_rule_arg r = Some (rule_args r ++ more).
Proof. intros Hr. destruct r; try done; eexists; vm_compute; reflexivity. Qed.
