(* ===== verification/Parse.v ===== *)
(** The parser of [py/parse.c]: a stack of rules driven by the tables of
    [Grammar], a stack of results, and the folding of constants.

    The lexer is whatever gives tokens ([TokenSource]); floating point literals
    are read by a function given as a parameter.  A qstr is the text it stands
    for and the interned strings are the list of their texts.  The memory of the
    nodes (the chunks of [parser_alloc]) is not modelled.  Exceptions are values
    of [parse_error]; [FAULT] is a failed assertion or an access outside of a
    stack or a node, [INT_FAULT] the same inside the integer routines the parser
    calls.  Loops over tokens take a fuel. *)

From Stdlib Require Import ZArith Lia Ascii String.
From stdpp Require Import base option list numbers.
From S2P Require Import Prelude Mpn Mpz IntObj Lexer IntText HashMap Qstr Grammar.

(** * Definitions *)

Abbreviation text := (list Z).

(** What the parser asks of a lexer. *)
Class TokenSource (L : Type) := {
  source_kind : L -> mp_token_kind_t;
  source_line : L -> Z;
  source_text : L -> text;
  source_next : L -> result L;
}.

#[export] Instance lexer_source (fuel : nat) (opt : Z) : TokenSource mp_lexer_t := {
  source_kind := Lexer.tok_kind;
  source_line := tok_line;
  source_text := Lexer.vstr;
  source_next := mp_lexer_to_next fuel opt;
}.

(** What the parser asks of floating point: reading a literal, which may be
    imaginary, and the truth of the value. *)
Class FloatLiterals (F : Type) := {
  mp_parse_num_float : text -> parse_exn + F;
  float_is_true : F -> bool;
}.

(** ** Nodes *)

(** The objects of constants. *)
Inductive obj (F : Type) :=
  | O_INT (o : int_obj) | O_FLOAT (f : F) | O_QSTR (s : text) | O_STR (s : text) | O_BYTES (s : text)
  | O_NONE | O_FALSE | O_TRUE | O_ELLIPSIS | O_TUPLE (items : list (obj F)).
Arguments O_INT {F}. Arguments O_FLOAT {F}. Arguments O_QSTR {F}. Arguments O_STR {F}. Arguments O_BYTES {F}.
Arguments O_NONE {F}. Arguments O_FALSE {F}. Arguments O_TRUE {F}. Arguments O_ELLIPSIS {F}. Arguments O_TUPLE {F}.

(** [mp_parse_node_t]: no node, the leaves, the node of a constant object, and
    the node of a rule with its line. *)
Inductive parse_node (F : Type) :=
  | PN_NULL | PN_SMALL_INT (v : Z) | PN_ID (s : text) | PN_STRING (s : text) | PN_TOKEN (k : mp_token_kind_t)
  | PN_CONST (line : Z) (o : obj F) | PN_STRUCT (line : Z) (kind : rule_id) (nodes : list (parse_node F)).
Arguments PN_NULL {F}. Arguments PN_SMALL_INT {F}. Arguments PN_ID {F}. Arguments PN_STRING {F}.
Arguments PN_TOKEN {F}. Arguments PN_CONST {F}. Arguments PN_STRUCT {F}.

Inductive message :=
  | M_UNEXPECTED_INDENT | M_UNINDENT_MISMATCH | M_MALFORMED_FSTRING | M_RAW_FSTRING | M_INVALID_SYNTAX
  | M_NOT_A_CONSTANT.

(** The exceptions: [SyntaxError] or [IndentationError] with a message and a line,
    the [SyntaxError] of a number, the [RuntimeError] of a name too long, the
    exceptions of integer operators and of the lexer. *)
Inductive parse_error :=
  | E_SYNTAX (m : message) (line : Z) | E_NUMBER (line : Z) | E_NAME_TOO_LONG | E_INT (e : IntObj.exn)
  | E_LEXER (e : lex_error) | INT_FAULT | FAULT.

Abbreviation perr A := (parse_error + A)%type.

Definition ebind {A B} (k : A -> perr B) (m : perr A) : perr B :=
  match m with inr a => k a | inl e => inl e end.

Notation "x '←e' m ; k" := (ebind (fun x => k) m) (at level 20, m at level 100, k at level 200).
Notation "' x '←e' m ; k" := (ebind (fun x => k) m) (at level 20, x pattern, m at level 100, k at level 200).

Definition or_fault {A} (o : option A) : perr A := match o with Some a => inr a | None => inl FAULT end.
Definition or_int_fault {A} (o : option A) : perr A := match o with Some a => inr a | None => inl INT_FAULT end.
Definition assert (b : bool) : perr unit := if b then inr tt else inl FAULT.

(** ** The state *)

Record rule_stack_t := { src_line : Z; rule_of : rule_id; arg_i : nat }.

(** Stacks have their top first. *)
Record parser_t (L F : Type) := {
  rule_stack : list rule_stack_t;
  result_stack : list (parse_node F);
  lexer : L;
  consts : mp_map qstr_key (obj F);
  interned : list text;
}.
Arguments rule_stack {L F}. Arguments result_stack {L F}. Arguments lexer {L F}. Arguments consts {L F}.
Arguments interned {L F}.

Inductive mp_parse_input_kind_t := MP_PARSE_SINGLE_INPUT | MP_PARSE_FILE_INPUT | MP_PARSE_EVAL_INPUT.

#[export] Instance input_kind_eq_dec : EqDecision mp_parse_input_kind_t.
Proof. solve_decision. Defined.

(** ** Tokens of operators *)

(** The tokens from [MP_TOKEN_OP_DBL_LESS] on, and the operators from
    [MP_BINARY_OP_LSHIFT] on, in the order of their enumerations; the matrix
    product is not an operator of integers. *)
Definition tokens_from_dbl_less : list mp_token_kind_t :=
  [MP_TOKEN_OP_DBL_LESS; MP_TOKEN_OP_DBL_MORE; MP_TOKEN_OP_PLUS; MP_TOKEN_OP_MINUS; MP_TOKEN_OP_STAR;
   MP_TOKEN_OP_AT; MP_TOKEN_OP_DBL_SLASH; MP_TOKEN_OP_SLASH; MP_TOKEN_OP_PERCENT; MP_TOKEN_OP_DBL_STAR].

Definition operators_from_lshift : list (option binary_op) :=
  [Some OP_LSHIFT; Some OP_RSHIFT; Some OP_ADD; Some OP_SUBTRACT; Some OP_MULTIPLY; None; Some OP_FLOOR_DIVIDE;
   Some OP_TRUE_DIVIDE; Some OP_MODULO; Some OP_POWER].

(** [tok - MP_TOKEN_OP_DBL_LESS]. *)
Definition token_offset (t : mp_token_kind_t) : option nat :=
  fst <$> list_find (fun k => k = t) tokens_from_dbl_less.

Section parse.
Context {L F : Type} `{TokenSource L} `{FloatLiterals F}.

Abbreviation parser := (parser_t L F).
Abbreviation node := (parse_node F).

Definition with_rules (p : parser) (rs : list rule_stack_t) : parser :=
  {| rule_stack := rs; result_stack := result_stack p; lexer := lexer p; consts := consts p; interned := interned p |}.
Definition with_results (p : parser) (rs : list node) : parser :=
  {| rule_stack := rule_stack p; result_stack := rs; lexer := lexer p; consts := consts p; interned := interned p |}.
Definition with_consts (p : parser) (m : mp_map qstr_key (obj F)) : parser :=
  {| rule_stack := rule_stack p; result_stack := result_stack p; lexer := lexer p; consts := m; interned := interned p |}.
Definition with_interned (p : parser) (i : list text) : parser :=
  {| rule_stack := rule_stack p; result_stack := result_stack p; lexer := lexer p; consts := consts p; interned := i |}.
Definition with_lexer (p : parser) (l : L) : parser :=
  {| rule_stack := rule_stack p; result_stack := result_stack p; lexer := l; consts := consts p; interned := interned p |}.

Definition tok_kind (p : parser) : mp_token_kind_t := source_kind (lexer p).

(** [mp_lexer_to_next]; a lack of fuel of the lexer is one of the parser. *)
Definition to_next (p : parser) : option (perr parser) :=
  r ← source_next (lexer p);
  Some (match r with inr l => inr (with_lexer p l) | inl e => inl (E_LEXER e) end).

(** ** The rule stack *)

Definition push_rule (p : parser) (src_line : Z) (rule : rule_id) (arg_i : nat) : parser :=
  with_rules p ({| src_line := wrapu 24 src_line; rule_of := rule; arg_i := arg_i |} :: rule_stack p).

Definition push_rule_from_arg (p : parser) (arg : rule_arg) : perr parser :=
  match arg with
  | rule r | opt_rule r => inr (push_rule p (source_line (lexer p)) r 0)
  | tok _ => inl FAULT
  end.

Definition peek_rule (p : parser) (n : nat) : perr rule_id := or_fault (rule_of <$> rule_stack p !! n).

(** ** The result stack *)

Definition pop_result (p : parser) : perr (node * parser) :=
  match result_stack p with pn :: rs => inr (pn, with_results p rs) | [] => inl FAULT end.

Definition peek_result (p : parser) (pos : nat) : perr node := or_fault (result_stack p !! pos).

Definition push_result_node (p : parser) (pn : node) : parser := with_results p (pn :: result_stack p).

(** [n] results popped, the last pushed at the end. *)
Definition pop_results (p : parser) (n : nat) : perr (list node * parser) :=
  if (n <=? length (result_stack p))%nat
  then inr (rev (take n (result_stack p)), with_results p (drop n (result_stack p))) else inl FAULT.

(** ** Constants *)

Definition is_null (pn : node) : bool := match pn with PN_NULL => true | _ => false end.

Definition is_struct_kind (pn : node) (k : rule_id) : bool :=
  match pn with PN_STRUCT _ r _ => bool_decide (r = k) | PN_CONST _ _ => bool_decide (k = RULE_const_object) | _ => false end.

(** [MP_PARSE_NODE_IS_LEAF]. *)
Definition is_leaf (pn : node) : bool :=
  match pn with PN_SMALL_INT _ | PN_ID _ | PN_STRING _ | PN_TOKEN _ => true | _ => false end.

Definition is_id (pn : node) : bool := match pn with PN_ID _ => true | _ => false end.

Definition mp_parse_node_get_int_maybe (pn : node) : option int_obj :=
  match pn with
  | PN_SMALL_INT v => Some (SMALL v)
  | PN_CONST _ (O_INT o) => Some o
  | _ => None
  end.

Definition mp_parse_node_is_const (pn : node) : perr bool :=
  match pn with
  | PN_SMALL_INT _ | PN_STRING _ | PN_CONST _ _ => inr true
  | PN_TOKEN k =>
      inr (bool_decide (k = MP_TOKEN_KW_NONE) || bool_decide (k = MP_TOKEN_KW_FALSE)
           || bool_decide (k = MP_TOKEN_KW_TRUE) || bool_decide (k = MP_TOKEN_ELLIPSIS))
  | PN_STRUCT _ RULE_atom_paren nodes => n0 ←e or_fault (nodes !! 0%nat); inr (is_null n0)
  | _ => inr false
  end.

Definition mp_parse_node_convert_to_obj (pn : node) : perr (obj F) :=
  match pn with
  | PN_SMALL_INT v => inr (O_INT (SMALL v))
  | PN_STRING s => inr (O_QSTR s)
  | PN_TOKEN MP_TOKEN_KW_NONE => inr O_NONE
  | PN_TOKEN MP_TOKEN_KW_FALSE => inr O_FALSE
  | PN_TOKEN MP_TOKEN_KW_TRUE => inr O_TRUE
  | PN_TOKEN MP_TOKEN_ELLIPSIS => inr O_ELLIPSIS
  | PN_CONST _ o => inr o
  | PN_STRUCT _ RULE_atom_paren (PN_NULL :: _) => inr (O_TUPLE [])
  | _ => inl FAULT
  end.

(** [mp_obj_is_true] on the objects of constants. *)
Definition mp_obj_is_true (o : obj F) : perr bool :=
  match o with
  | O_INT (SMALL v) => inr (negb (v =? 0))
  | O_INT (BIG z) =>
      match mp_unary_op OP_BOOL (BIG z) with Some (R_BOOL b) => inr b | _ => inl INT_FAULT end
  | O_FLOAT f => inr (float_is_true f)
  | O_QSTR s | O_STR s | O_BYTES s => inr (negb (length s =? 0)%nat)
  | O_NONE | O_FALSE => inr false
  | O_TRUE | O_ELLIPSIS => inr true
  | O_TUPLE items => inr (negb (length items =? 0)%nat)
  end.

Definition parse_node_is_const_bool (pn : node) (value : bool) : perr bool :=
  c ←e mp_parse_node_is_const pn;
  if (c : bool) then o ←e mp_parse_node_convert_to_obj pn; t ←e mp_obj_is_true o; inr (Bool.eqb t value) else inr false.

Definition mp_parse_node_is_const_false (pn : node) : perr bool := parse_node_is_const_bool pn false.
Definition mp_parse_node_is_const_true (pn : node) : perr bool := parse_node_is_const_bool pn true.

(** The nodes of a list of the rule [pn_kind]; that rule is never the one of
    constant objects. *)
Definition mp_parse_node_extract_list (pn : node) (pn_kind : rule_id) : list node :=
  match pn with
  | PN_NULL => []
  | PN_STRUCT _ kind nodes => if bool_decide (kind = pn_kind) then nodes else [pn]
  | _ => [pn]
  end.

Definition make_node_const_object_optimised (src_line : Z) (o : obj F) : node :=
  match o with O_INT (SMALL val) => PN_SMALL_INT val | _ => PN_CONST src_line o end.

(** ** Interned strings *)

(** The interned strings as [QstrProps] specifies them: the set of their texts, with
    the empty string always there.  [find_interned] is [qstr_find_strn] and [intern]
    is [qstr_from_strn] when the memory suffices. *)
Definition find_interned (i : list text) (s : text) : bool := (length s =? 0)%nat || bool_decide (s ∈ i).

Definition MICROPY_ALLOC_PARSE_INTERN_STRING_LEN : nat := 10.

Definition intern (p : parser) (s : text) : perr parser :=
  if find_interned (interned p) s then inr p
  else if Z.of_nat (length s) >=? Z.shiftl 1 8 then inl E_NAME_TOO_LONG
  else inr (with_interned p (s :: interned p)).

(** The value of a name in the table of constants. *)
Definition lookup_const (p : parser) (id : text) : perr (option (obj F)) :=
  '(_, slot) ←e or_fault (mp_map_lookup (consts p) {| qstr_text := id |} MP_MAP_LOOKUP);
  match slot with
  | None => inr None
  | Some pos => e ←e or_fault (table (consts p) !! pos); v ←e or_fault (HashMap.value e); inr (Some v)
  end.

Definition push_result_token (p : parser) (rule_id : rule_id) : perr parser :=
  let str := source_text (lexer p) in
  let line := source_line (lexer p) in
  match tok_kind p with
  | MP_TOKEN_NAME =>
      p ←e intern p str;
      elem ←e (if bool_decide (rule_id = RULE_atom) then lookup_const p str else inr None);
      inr (push_result_node p
        (match elem with Some v => make_node_const_object_optimised line v | None => PN_ID str end))
  | MP_TOKEN_INTEGER =>
      r ←e or_int_fault (mp_parse_num_integer str 0);
      match r with
      | inr o => inr (push_result_node p (make_node_const_object_optimised line (O_INT o)))
      | inl _ => inl (E_NUMBER line)
      end
  | MP_TOKEN_FLOAT_OR_IMAG =>
      match mp_parse_num_float str with
      | inr f => inr (push_result_node p (PN_CONST line (O_FLOAT f)))
      | inl _ => inl (E_NUMBER line)
      end
  | MP_TOKEN_STRING =>
      if (length str <=? MICROPY_ALLOC_PARSE_INTERN_STRING_LEN)%nat then
        p ←e intern p str; inr (push_result_node p (PN_STRING str))
      else if find_interned (interned p) str then inr (push_result_node p (PN_STRING str))
      else inr (push_result_node p (PN_CONST line (O_STR str)))
  | MP_TOKEN_BYTES => inr (push_result_node p (PN_CONST line (O_BYTES str)))
  | k => inr (push_result_node p (PN_TOKEN k))
  end.

(** ** Folding of logical operators *)

(** The loop over the operands, from the first: [i] are left, and those kept so
    far are below the position [copy_to] of the stack. *)
Fixpoint fold_logical_loop (is_or : bool) (i : nat) (rs : list node) (copy_to : nat) : perr (list node * nat) :=
  match i with
  | O => inr (rs, copy_to)
  | S i =>
      pn ←e or_fault (rs !! i);
      let rs := <[(copy_to - 1)%nat := pn]> rs in
      if (i =? 0)%nat then inr (rs, copy_to) else
      stop ←e (if is_or then mp_parse_node_is_const_true pn else mp_parse_node_is_const_false pn);
      if (stop : bool) then inr (rs, copy_to) else
      drop ←e (if is_or then mp_parse_node_is_const_false pn else mp_parse_node_is_const_true pn);
      fold_logical_loop is_or i rs (if (drop : bool) then copy_to else copy_to - 1)%nat
  end.

(** The parser, the number of arguments left, and whether the rule is folded. *)
Definition fold_logical_constants (p : parser) (rule_id : rule_id) (num_args : nat) : perr (parser * nat * bool) :=
  match rule_id with
  | RULE_or_test | RULE_and_test =>
      '(rs, copy_to) ←e fold_logical_loop (bool_decide (rule_id = RULE_or_test)) num_args (result_stack p) num_args;
      let copy_to := (copy_to - 1)%nat in
      '(_, p) ←e pop_results (with_results p rs) copy_to;
      let num_args := (num_args - copy_to)%nat in
      inr (p, num_args, (num_args =? 1)%nat)
  | RULE_not_test_2 =>
      pn ←e peek_result p 0;
      let replace k := '(_, p) ←e pop_result p; inr (push_result_node p (PN_TOKEN k), num_args, true) in
      f ←e mp_parse_node_is_const_false pn;
      if (f : bool) then replace MP_TOKEN_KW_TRUE else
      t ←e mp_parse_node_is_const_true pn;
      if (t : bool) then replace MP_TOKEN_KW_FALSE else inr (p, num_args, false)
  | _ => inr (p, num_args, false)
  end.

(** ** Folding of integer operators *)

(** An operator whose result has to be an integer. *)
Definition int_value (r : option (IntObj.exn + int_result)) : perr int_obj :=
  match r with
  | Some (inr (R_INT o)) => inr o
  | Some (inl e) => inl (E_INT e)
  | _ => inl INT_FAULT
  end.

(** [None] is the return of [false]. *)
Fixpoint fold_binary_loop (p : parser) (op : binary_op) (i : nat) (arg0 : int_obj) : perr (option int_obj) :=
  match i with
  | O => inr (Some arg0)
  | S i =>
      pn ←e peek_result p i;
      match mp_parse_node_get_int_maybe pn with
      | None => inr None
      | Some arg1 =>
          if bool_decide (op = OP_POWER) && (mp_obj_int_sign arg1 <? 0) then inr None else
          arg0 ←e int_value (mp_binary_op op arg0 arg1);
          fold_binary_loop p op i arg0
      end
  end.

Definition binary_rule_op (rule_id : rule_id) : option binary_op :=
  match rule_id with
  | RULE_expr => Some OP_OR
  | RULE_xor_expr => Some OP_XOR
  | RULE_and_expr => Some OP_AND
  | RULE_power => Some OP_POWER
  | _ => None
  end.

(** [MP_PARSE_NODE_LEAF_ARG] of a token. *)
Definition leaf_token (pn : node) : perr mp_token_kind_t :=
  match pn with PN_TOKEN k => inr k | _ => inl FAULT end.

Fixpoint fold_term_loop (p : parser) (i : nat) (arg0 : int_obj) : perr (option int_obj) :=
  match i with
  | O => inr (Some arg0)
  | S j =>
      pn ←e peek_result p j;
      match mp_parse_node_get_int_maybe pn with
      | None => inr None
      | Some arg1 =>
          pn ←e peek_result p i;
          tok ←e leaf_token pn;
          if bool_decide (tok = MP_TOKEN_OP_AT) || bool_decide (tok = MP_TOKEN_OP_SLASH) then inr None else
          off ←e or_fault (token_offset tok);
          op ←e or_fault (mjoin (operators_from_lshift !! off));
          let rhs_sign := mp_obj_int_sign arg1 in
          if (off <=? 1)%nat && (rhs_sign <? 0) then inr None
          else if (6 <=? off)%nat && (rhs_sign =? 0) then inr None else
          arg0 ←e int_value (mp_binary_op op arg0 arg1);
          match j with O => inr (Some arg0) | S i => fold_term_loop p i arg0 end
      end
  end.

(** [MP_UNARY_OP_POSITIVE + (tok - MP_TOKEN_OP_PLUS)], or the inversion. *)
Definition unary_token_op (tok : mp_token_kind_t) : option unary_op :=
  match tok with
  | MP_TOKEN_OP_TILDE => Some OP_INVERT
  | MP_TOKEN_OP_PLUS => Some OP_POSITIVE
  | MP_TOKEN_OP_MINUS => Some OP_NEGATIVE
  | _ => None
  end.

(** [const] and the underscore. *)
Definition MP_QSTR_const : text := bytes "const".
Definition UNDERSCORE : Z := 95.

(** The assignment [id = const(value)]: the name and the value. *)
Definition const_assignment (pn0 pn1 : node) : perr (option (text * Z * node)) :=
  match pn0, pn1 with
  | PN_ID id, PN_STRUCT line RULE_atom_expr_normal nodes =>
      n0 ←e or_fault (nodes !! 0%nat);
      match n0 with
      | PN_ID f =>
          if bool_decide (f = MP_QSTR_const) then
            n1 ←e or_fault (nodes !! 1%nat);
            match n1 with
            | PN_STRUCT _ RULE_trailer_paren args => v ←e or_fault (args !! 0%nat); inr (Some (id, line, v))
            | _ => inr None
            end
          else inr None
      | _ => inr None
      end
  | _, _ => inr None
  end.

(** The value of a new constant; the name must not have one. *)
Definition store_const (p : parser) (id : text) (value : obj F) : perr parser :=
  '(m, slot) ←e or_fault (mp_map_lookup (consts p) {| qstr_text := id |} MP_MAP_LOOKUP_ADD_IF_NOT_FOUND);
  pos ←e or_fault slot;
  e ←e or_fault (table m !! pos);
  _ ←e assert (match HashMap.value e with None => true | Some _ => false end);
  inr (with_consts p (set_value m pos (Some value))).

(** [push_pass] is [push_result_rule] of the statement [pass]. *)
Definition fold_expr_stmt (push_pass : parser -> perr parser) (p : parser) : perr (parser * bool) :=
  pn1 ←e peek_result p 0;
  if negb (is_null pn1)
     && negb (is_struct_kind pn1 RULE_expr_stmt_augassign || is_struct_kind pn1 RULE_expr_stmt_assign_list)
  then
    pn0 ←e peek_result p 1;
    a ←e const_assignment pn0 pn1;
    match a with
    | None => inr (p, false)
    | Some (id, line, pn_value) =>
        c ←e mp_parse_node_is_const pn_value;
        if negb c then inl (E_SYNTAX M_NOT_A_CONSTANT line) else
        value ←e mp_parse_node_convert_to_obj pn_value;
        p ←e store_const p id value;
        if bool_decide (head id = Some UNDERSCORE) then
          '(_, p) ←e pop_result p;
          '(_, p) ←e pop_result p;
          p ←e push_pass p;
          inr (p, true)
        else
          '(_, p) ←e pop_result p;
          inr (push_result_node p pn_value, false)
    end
  else inr (p, false).

(** The first operand, and the result of the rule on integers. *)
Definition fold_int (p : parser) (rule_id : rule_id) (num_args : nat) : perr (option int_obj) :=
  match rule_id with
  | RULE_expr | RULE_xor_expr | RULE_and_expr | RULE_power =>
      pn ←e peek_result p (num_args - 1);
      match mp_parse_node_get_int_maybe pn with
      | None => inr None
      | Some arg0 => op ←e or_fault (binary_rule_op rule_id); fold_binary_loop p op (num_args - 1) arg0
      end
  | RULE_shift_expr | RULE_arith_expr | RULE_term =>
      pn ←e peek_result p (num_args - 1);
      match mp_parse_node_get_int_maybe pn with
      | None => inr None
      | Some arg0 => fold_term_loop p (num_args - 2) arg0
      end
  | RULE_factor_2 =>
      pn ←e peek_result p 0;
      match mp_parse_node_get_int_maybe pn with
      | None => inr None
      | Some arg0 =>
          pn ←e peek_result p 1;
          tok ←e leaf_token pn;
          op ←e or_fault (unary_token_op tok);
          match mp_unary_op op arg0 with Some (R_INT o) => inr (Some o) | _ => inl INT_FAULT end
      end
  | _ => inr None
  end.

Definition fold_constants (push_pass : parser -> perr parser) (p : parser) (rule_id : rule_id) (num_args : nat) :
    perr (parser * bool) :=
  match rule_id with
  | RULE_expr_stmt => fold_expr_stmt push_pass p
  | _ =>
      r ←e fold_int p rule_id num_args;
      match r with
      | None => inr (p, false)
      | Some arg0 =>
          '(_, p) ←e pop_results p num_args;
          inr (push_result_node p (make_node_const_object_optimised 0 (O_INT arg0)), true)
      end
  end.

(** ** Tuples of constants *)

(** Whether every node is a constant, the first pushed first. *)
Fixpoint all_const (nodes : list node) : perr bool :=
  match nodes with
  | [] => inr true
  | pn :: nodes => c ←e mp_parse_node_is_const pn; if (c : bool) then all_const nodes else inr false
  end.

Fixpoint convert_all (nodes : list node) : perr (list (obj F)) :=
  match nodes with
  | [] => inr []
  | pn :: nodes => o ←e mp_parse_node_convert_to_obj pn; os ←e convert_all nodes; inr (o :: os)
  end.

Definition build_tuple_from_stack (p : parser) (src_line : Z) (num_args : nat) : perr (parser * bool) :=
  '(nodes, p') ←e pop_results p num_args;
  c ←e all_const nodes;
  if (c : bool) then
    items ←e convert_all nodes;
    inr (push_result_node p' (PN_CONST src_line (O_TUPLE items)), true)
  else inr (p, false).

Definition build_tuple (p : parser) (src_line : Z) (rule_id : rule_id) (num_args : nat) : perr (parser * bool) :=
  match rule_id with
  | RULE_testlist_comp =>
      r ←e peek_rule p 0;
      if bool_decide (r = RULE_atom_paren) then build_tuple_from_stack p src_line num_args else inr (p, false)
  | RULE_testlist_comp_3c =>
      r0 ←e peek_rule p 0;
      _ ←e assert (bool_decide (r0 = RULE_testlist_comp_3b));
      r1 ←e peek_rule p 1;
      _ ←e assert (bool_decide (r1 = RULE_testlist_comp));
      r2 ←e peek_rule p 2;
      if bool_decide (r2 = RULE_atom_paren) then
        '(p, built) ←e build_tuple_from_stack p src_line num_args;
        if (built : bool) then inr (with_rules p (drop 2 (rule_stack p)), true) else inr (p, false)
      else inr (p, false)
  | RULE_testlist_star_expr | RULE_testlist | RULE_subscriptlist => build_tuple_from_stack p src_line num_args
  | _ => inr (p, false)
  end.

(** ** Nodes of rules *)

(** What [push_result_rule] does first: the rule may need no node; the number of
    arguments otherwise. *)
Definition simplify_rule (p : parser) (rule_id : rule_id) (num_args : nat) : perr (parser * option nat) :=
  match rule_id with
  | RULE_atom_paren =>
      pn ←e peek_result p 0;
      if is_null pn || is_struct_kind pn RULE_testlist_comp then inr (p, Some num_args) else inr (p, None)
  | RULE_testlist_comp =>
      _ ←e assert (num_args =? 2)%nat;
      pn ←e peek_result p 0;
      match pn with
      | PN_STRUCT _ RULE_testlist_comp_3b _ => '(_, p) ←e pop_result p; inr (p, Some (num_args - 1)%nat)
      | PN_STRUCT _ RULE_testlist_comp_3c _ =>
          (* the same node was pushed twice: its kind is changed *)
          '(_, p) ←e pop_result p;
          '(pn, p) ←e pop_result p;
          match pn with
          | PN_STRUCT line RULE_testlist_comp_3c nodes => inr (push_result_node p (PN_STRUCT line rule_id nodes), None)
          | _ => inl FAULT
          end
      | _ => inr (p, Some num_args)
      end
  | RULE_testlist_comp_3c => inr (p, Some (num_args + 1)%nat)
  | _ => inr (p, Some num_args)
  end.

(** The rule is folded, or its node is made. *)
Definition fold_or_push (push_pass : parser -> perr parser) (p : parser) (src_line : Z) (rule_id : rule_id)
    (num_args : nat) : perr parser :=
  '(p, num_args, folded) ←e fold_logical_constants p rule_id num_args;
  if (folded : bool) then inr p else
  '(p, folded) ←e fold_constants push_pass p rule_id num_args;
  if (folded : bool) then inr p else
  '(p, built) ←e build_tuple p src_line rule_id num_args;
  if (built : bool) then inr p else
  '(nodes, p) ←e pop_results p num_args;
  let pn := PN_STRUCT src_line rule_id nodes in
  let p := if bool_decide (rule_id = RULE_testlist_comp_3c) then push_result_node p pn else p in
  inr (push_result_node p pn).

Definition push_result_rule_with (push_pass : parser -> perr parser) (p : parser) (src_line : Z) (rule_id : rule_id)
    (num_args : nat) : perr parser :=
  '(p, num_args) ←e simplify_rule p rule_id num_args;
  match num_args with
  | None => inr p
  | Some num_args => fold_or_push push_pass p src_line rule_id num_args
  end.

(** The recursive call is for the statement [pass], which folds nothing. *)
Definition push_result_rule : parser -> Z -> rule_id -> nat -> perr parser :=
  push_result_rule_with (fun p => push_result_rule_with (fun _ => inl FAULT) p 0 RULE_pass_stmt 0).

(** ** The loop *)

Definition syntax_error {A} (p : parser) : perr A :=
  inl (E_SYNTAX
    (match tok_kind p with
     | MP_TOKEN_INDENT => M_UNEXPECTED_INDENT
     | MP_TOKEN_DEDENT_MISMATCH => M_UNINDENT_MISMATCH
     | MP_TOKEN_MALFORMED_FSTRING => M_MALFORMED_FSTRING
     | MP_TOKEN_FSTRING_RAW => M_RAW_FSTRING
     | _ => M_INVALID_SYNTAX
     end) (source_line (lexer p))).

(** A step ends with the state and the flag [backtrack]; it fails to end when a
    loop lacks fuel. *)
Abbreviation outcome := (option (perr (parser * bool))).

Definition goto_next_rule (p : parser) (backtrack : bool) : outcome := Some (inr (p, backtrack)).

Definition obind {A B} (k : A -> option (perr B)) (m : perr A) : option (perr B) :=
  match m with inr a => k a | inl e => Some (inl e) end.

(** A token matched, pushed when [push] says so. *)
Definition eat_token (p : parser) (rule_id : rule_id) (push : bool) : option (perr parser) :=
  match (if push then push_result_token p rule_id else inr p) with
  | inr p => to_next p
  | inl e => Some (inl e)
  end.

(** The alternatives from [i] on; [k] are left. *)
Fixpoint act_or (p : parser) (src_line : Z) (rule_id : rule_id) (rule_arg : list rule_arg) (n k i : nat) : outcome :=
  match k with
  | O => goto_next_rule p true
  | S k =>
      match rule_arg !! i with
      | Some (tok t) =>
          if bool_decide (tok_kind p = t) then
            r ← eat_token p rule_id true;
            obind (fun p => goto_next_rule p false) r
          else act_or p src_line rule_id rule_arg n k (i + 1)
      | Some (rule r) =>
          let p := if (i + 1 <? n)%nat then push_rule p src_line rule_id (i + 1) else p in
          obind (fun p => goto_next_rule p false) (push_rule_from_arg p (rule r))
      | _ => Some (inl FAULT)
      end
  end.

(** The number of arguments on the stack and of those that are not null. *)
Fixpoint count_args (p : parser) (args : list rule_arg) (i num_not_nil : nat) : perr (nat * nat) :=
  match args with
  | [] => inr (i, num_not_nil)
  | tok t :: args =>
      if bool_decide (t = MP_TOKEN_NAME) then count_args p args (i + 1) (num_not_nil + 1)
      else count_args p args i num_not_nil
  | _ :: args =>
      pn ←e peek_result p i;
      count_args p args (i + 1) (if is_null pn then num_not_nil else num_not_nil + 1)
  end.

(** The last popped of the nodes that are not null. *)
Definition only_node (nodes : list node) : node := default PN_NULL (List.find (fun pn => negb (is_null pn)) nodes).

(** The rule is matched: its node is made. *)
Definition and_node (p : parser) (src_line : Z) (rule_id : rule_id) (args : list rule_arg)
    (allow_ident add_blank : bool) : perr parser :=
  '(i, num_not_nil) ←e count_args p (rev args) 0 0;
  if (num_not_nil =? 1)%nat && allow_ident then
    '(nodes, p) ←e pop_results p i;
    inr (push_result_node p (only_node nodes))
  else
    let '(p, i) := if add_blank then (push_result_node p PN_NULL, (i + 1)%nat) else (p, i) in
    push_result_rule p src_line rule_id i.

(** Whether the statement is an expression without effect, which is discarded. *)
Definition is_lonely (p : parser) (input_kind : mp_parse_input_kind_t) (rule_id : rule_id) : perr bool :=
  if negb (bool_decide (input_kind = MP_PARSE_SINGLE_INPUT)) && bool_decide (rule_id = RULE_expr_stmt) then
    pn ←e peek_result p 0;
    if is_null pn then
      pn ←e peek_result p 1;
      inr ((is_leaf pn && negb (is_id pn)) || is_struct_kind pn RULE_const_object)
    else inr false
  else inr false.

Definition and_done (input_kind : mp_parse_input_kind_t) (p : parser) (src_line : Z) (rule_id : rule_id)
    (args : list rule_arg) (allow_ident add_blank : bool) : perr parser :=
  lonely ←e is_lonely p input_kind rule_id;
  if (lonely : bool) then
    '(_, p) ←e pop_result p;
    '(_, p) ←e pop_result p;
    push_result_rule p src_line RULE_pass_stmt 0
  else and_node p src_line rule_id args allow_ident add_blank.

(** The arguments from [i] on; [k] are left. *)
Fixpoint and_loop (input_kind : mp_parse_input_kind_t) (p : parser) (src_line : Z) (rule_id : rule_id)
    (rule_arg : list rule_arg) (allow_ident add_blank : bool) (n k i : nat) : outcome :=
  match k with
  | O =>
      obind (fun p => goto_next_rule p false)
        (and_done input_kind p src_line rule_id (take n rule_arg) allow_ident add_blank)
  | S k =>
      match rule_arg !! i with
      | Some (tok tok_kind') =>
          if bool_decide (tok_kind p = tok_kind') then
            r ← eat_token p rule_id (bool_decide (tok_kind' = MP_TOKEN_NAME));
            obind (fun p => and_loop input_kind p src_line rule_id rule_arg allow_ident add_blank n k (i + 1)) r
          else if (0 <? i)%nat then Some (syntax_error p)
          else goto_next_rule p true
      | Some arg =>
          let p := push_rule p src_line rule_id (i + 1) in
          obind (fun p => goto_next_rule p false) (push_rule_from_arg p arg)
      | None => Some (inl FAULT)
      end
  end.

Definition act_and (input_kind : mp_parse_input_kind_t) (p : parser) (src_line : Z) (rule_id : rule_id)
    (rule_arg : list rule_arg) (allow_ident add_blank : bool) (n i : nat) (backtrack : bool) : outcome :=
  let continue p := and_loop input_kind p src_line rule_id rule_arg allow_ident add_blank n (n - i) i in
  if backtrack then
    match i with
    | O => Some (inl FAULT)
    | S j =>
        match rule_arg !! j with
        | Some (opt_rule _) => continue (push_result_node p PN_NULL)
        | Some _ => if (1 <? i)%nat then Some (syntax_error p) else goto_next_rule p true
        | None => Some (inl FAULT)
        end
    end
  else continue p.

(** [i] elements and separators are matched: the node of a list. *)
Definition list_done (p : parser) (src_line : Z) (rule_id : rule_id) (rule_arg : list rule_arg) (n i : nat)
    (had_trailing_sep : bool) : perr parser :=
  _ ←e assert (1 <=? i)%nat;
  let i := (i - 1)%nat in
  i ←e (if Nat.odd n then
          sep ←e or_fault (rule_arg !! 1%nat);
          inr (match sep with tok _ => Nat.div2 (i + 1) | _ => i end)
        else inr i);
  if (i =? 1)%nat && negb had_trailing_sep then inr p else push_result_rule p src_line rule_id i.

(** The label [list_backtrack]. *)
Definition list_backtrack (p : parser) (src_line : Z) (rule_id : rule_id) (rule_arg : list rule_arg) (n i : nat) :
    outcome :=
  let finish had_trailing_sep :=
    obind (fun p => goto_next_rule p false) (list_done p src_line rule_id rule_arg n i had_trailing_sep) in
  if (n =? 2)%nat then if (i =? 1)%nat then goto_next_rule p true else finish false
  else if (i =? 1)%nat then goto_next_rule p true
  else if Nat.odd i then if (n =? 3)%nat then finish true else Some (syntax_error p)
  else finish false.

(** The loop over the elements; it turns at each token it matches. *)
Fixpoint list_loop (fuel : nat) (p : parser) (src_line : Z) (rule_id : rule_id) (rule_arg : list rule_arg)
    (n i : nat) : outcome :=
  match fuel with
  | O => None
  | S fuel =>
      let is_sep := Nat.odd i && Nat.odd n in
      match rule_arg !! (if is_sep then 1 else 0)%nat with
      | Some (tok t) =>
          if bool_decide (tok_kind p = t) then
            r ← eat_token p rule_id (negb is_sep);
            obind (fun p => list_loop fuel p src_line rule_id rule_arg n (i + 1)) r
          else list_backtrack p src_line rule_id rule_arg n (i + 1)
      | Some (rule r) =>
          let p := push_rule p src_line rule_id (i + 1) in
          obind (fun p => goto_next_rule p false) (push_rule_from_arg p (rule r))
      | _ => Some (inl FAULT)
      end
  end.

Definition act_list (fuel : nat) (p : parser) (src_line : Z) (rule_id : rule_id) (rule_arg : list rule_arg) (n i : nat)
    (backtrack : bool) : outcome :=
  if backtrack then list_backtrack p src_line rule_id rule_arg n i
  else list_loop fuel p src_line rule_id rule_arg n i.

(** The rule popped is processed. *)
Definition process_rule (fuel : nat) (input_kind : mp_parse_input_kind_t) (p : parser) (r : rule_stack_t)
    (backtrack : bool) : outcome :=
  let i := arg_i r in
  match get_rule_arg (rule_of r) with
  | None => Some (inl FAULT)
  | Some rule_arg =>
      match rule_act_table (rule_of r) with
      | ACT_OR n =>
          if (0 <? i)%nat && negb backtrack then goto_next_rule p false
          else act_or p (src_line r) (rule_of r) rule_arg n (n - i) i
      | ACT_AND n allow_ident add_blank =>
          act_and input_kind p (src_line r) (rule_of r) rule_arg allow_ident add_blank n i backtrack
      | ACT_LIST n => act_list fuel p (src_line r) (rule_of r) rule_arg n i backtrack
      | ACT_NONE => Some (inl FAULT)
      end
  end.

Fixpoint parse_loop (fuel : nat) (input_kind : mp_parse_input_kind_t) (p : parser) (backtrack : bool) :
    option (perr parser) :=
  match rule_stack p with
  | [] => Some (inr p)
  | r :: rs =>
      match fuel with
      | O => None
      | S fuel =>
          s ← process_rule fuel input_kind (with_rules p rs) r backtrack;
          match s with
          | inr (p, backtrack) => parse_loop fuel input_kind p backtrack
          | inl e => Some (inl e)
          end
      end
  end.

Definition top_level_rule (input_kind : mp_parse_input_kind_t) : rule_id :=
  match input_kind with
  | MP_PARSE_SINGLE_INPUT => RULE_single_input
  | MP_PARSE_EVAL_INPUT => RULE_eval_input
  | MP_PARSE_FILE_INPUT => RULE_file_input
  end.

(** The end of the input, and a node, are needed. *)
Definition parse_end (p : parser) : perr (node * parser) :=
  if negb (bool_decide (tok_kind p = MP_TOKEN_END)) || (length (result_stack p) =? 0)%nat then syntax_error p else
  _ ←e assert (length (result_stack p) =? 1)%nat;
  pn ←e peek_result p 0;
  inr (pn, p).

Definition mp_parse (fuel : nat) (lex : L) (interned : list text) (input_kind : mp_parse_input_kind_t) :
    option (perr (node * parser)) :=
  let p := {| rule_stack := []; result_stack := []; lexer := lex; consts := mp_map_init 0; interned := interned |} in
  let p := push_rule p (source_line lex) (top_level_rule input_kind) 0 in
  r ← parse_loop fuel input_kind p false;
  Some (p ←e r; parse_end p).
End parse.
