(* ===== verification/ParseSpec.v ===== *)
(** What the parser promises: the language of the grammar, facts about its rules
    that are checked on the tables, and the calculus of runs of the loop of
    [Parse]. *)

From Stdlib Require Import ZArith Lia.
From stdpp Require Import base option list numbers.
From S2P Require Import Prelude IntObj Lexer IntText HashMap HashTable HashSpec HashProps Qstr Grammar Parse.

(** * Definitions *)

(** ** The language of a rule *)

(** The arguments a list matches: [m] elements and separators in turn. *)
Definition list_elem (n : nat) (args : list rule_arg) (j : nat) : list rule_arg :=
  option_list (args !! (if Nat.odd j && Nat.odd n then 1 else 0)%nat).

Definition list_elems (n : nat) (args : list rule_arg) (m : nat) : list rule_arg := seq 0 m ≫= list_elem n args.

(** A list without a trailing separator has an odd length. *)
Definition list_length (n m : nat) : Prop := (1 <= m)%nat /\ (n = 1%nat -> Nat.odd m = true).

Inductive derives : rule_id -> list mp_token_kind_t -> Prop :=
  | D_or r n a w : rule_act_table r = ACT_OR n -> a ∈ rule_args r -> derives_arg a w -> derives r w
  | D_and r n ident blank w :
      rule_act_table r = ACT_AND n ident blank -> derives_args (rule_args r) w -> derives r w
  | D_list r n m w :
      rule_act_table r = ACT_LIST n -> list_length n m -> derives_args (list_elems n (rule_args r) m) w -> derives r w
with derives_arg : rule_arg -> list mp_token_kind_t -> Prop :=
  | D_tok t : derives_arg (tok t) [t]
  | D_rule r w : derives r w -> derives_arg (rule r) w
  | D_absent r : derives_arg (opt_rule r) []
  | D_present r w : derives r w -> derives_arg (opt_rule r) w
with derives_args : list rule_arg -> list mp_token_kind_t -> Prop :=
  | D_nil : derives_args [] []
  | D_cons a args v w : derives_arg a v -> derives_args args w -> derives_args (a :: args) (v ++ w).

(** ** Facts about the rules *)

Definition is_rule (r s : rule_id) : bool := bool_decide (r = s).

(** Every rule, and every argument of a rule. *)
Definition all_rules (f : rule_id -> bool) : bool := forallb f rule_ids.

Definition arg_rule (a : rule_arg) : option rule_id :=
  match a with rule r | opt_rule r => Some r | tok _ => None end.

Definition all_args (f : rule_id -> bool) (r : rule_id) : bool :=
  forallb (fun a => match arg_rule a with Some r' => f r' | None => true end) (rule_args r).

(** The rules of [(a, b)], whose frames the parser may discard. *)
Definition special (r : rule_id) : bool :=
  match r with RULE_testlist_comp_3 | RULE_testlist_comp_3b | RULE_testlist_comp_3c => true | _ => false end.

(** The rules that look at the rule below them. *)
Definition needs_parent (r : rule_id) : bool :=
  match r with RULE_testlist_comp | RULE_atom_2b => true | _ => false end.

(** The rules without a statement that could define a constant. *)
Definition pure (r : rule_id) : bool :=
  match r with
  | RULE_single_input | RULE_file_input | RULE_file_input_2 | RULE_file_input_3 | RULE_decorated
  | RULE_decorated_body | RULE_async_funcdef | RULE_funcdef | RULE_stmt | RULE_simple_stmt | RULE_simple_stmt_2
  | RULE_small_stmt | RULE_expr_stmt | RULE_compound_stmt | RULE_async_stmt | RULE_async_stmt_2 | RULE_if_stmt
  | RULE_if_stmt_elif_list | RULE_if_stmt_elif | RULE_while_stmt | RULE_for_stmt | RULE_try_stmt
  | RULE_try_stmt_2 | RULE_try_stmt_except_and_more | RULE_try_stmt_except | RULE_try_stmt_except_list
  | RULE_try_stmt_finally | RULE_else_stmt | RULE_with_stmt | RULE_suite | RULE_suite_block
  | RULE_suite_block_stmts | RULE_classdef => false
  | _ => true
  end.

(** The rules whose node is the name of an atom when it is a name. *)
Definition id_safe (r : rule_id) : bool :=
  match r with
  | RULE_and_expr | RULE_and_test | RULE_arith_expr | RULE_atom | RULE_atom_2b | RULE_atom_brace
  | RULE_atom_bracket | RULE_atom_expr | RULE_atom_expr_await | RULE_atom_expr_normal | RULE_atom_expr_trailers
  | RULE_atom_paren | RULE_comp_for | RULE_comparison | RULE_expr | RULE_factor | RULE_factor_2 | RULE_factor_op
  | RULE_lambdef | RULE_namedexpr_test | RULE_namedexpr_test_2 | RULE_not_test | RULE_not_test_2 | RULE_or_test
  | RULE_power | RULE_power_dbl_star | RULE_shift_expr | RULE_star_expr | RULE_term | RULE_test
  | RULE_test_if_else | RULE_test_if_expr | RULE_testlist_comp | RULE_testlist_comp_2 | RULE_testlist_comp_3
  | RULE_testlist_comp_3b | RULE_testlist_comp_3c | RULE_testlist_star_expr | RULE_testlist_star_expr_2
  | RULE_trailer | RULE_trailer_bracket | RULE_trailer_paren | RULE_trailer_period | RULE_xor_expr
  | RULE_yield_expr => true
  | _ => false
  end.

(** The rules that match one operator. *)
Definition is_op_rule (r : rule_id) : bool :=
  match r with RULE_shift_op | RULE_arith_op | RULE_term_op | RULE_factor_op => true | _ => false end.

(** The longest chain of rules that start at the same token. *)
Definition rank (r : rule_id) : nat :=
  match r with
  | RULE_decorators | RULE_decorated_body | RULE_typedargslist_item | RULE_varargslist_item
  | RULE_expr_stmt_augassign | RULE_expr_stmt_assign_list | RULE_yield_stmt | RULE_import_stmt
  | RULE_one_or_more_period_or_ellipsis | RULE_dotted_as_name | RULE_import_as_names | RULE_async_stmt_2
  | RULE_if_stmt_elif_list | RULE_try_stmt_except_list | RULE_comp_op | RULE_factor_2 | RULE_atom
  | RULE_testlist_comp_3 | RULE_trailer | RULE_dictorsetmaker_tail | RULE_argument_2 | RULE_comp_iter => 1
  | RULE_decorated | RULE_typedargslist | RULE_varargslist | RULE_expr_stmt_2 | RULE_flow_stmt
  | RULE_import_from_2b | RULE_import_from_3 | RULE_dotted_as_names | RULE_try_stmt_except_and_more
  | RULE_atom_expr_normal | RULE_atom_expr_trailers => 2
  | RULE_import_from_2 | RULE_compound_stmt | RULE_try_stmt_2 | RULE_atom_expr => 3
  | RULE_power => 4
  | RULE_factor => 5
  | RULE_term => 6
  | RULE_arith_expr => 7
  | RULE_shift_expr => 8
  | RULE_and_expr => 9
  | RULE_xor_expr => 10
  | RULE_expr => 11
  | RULE_comparison | RULE_exprlist_2 => 12
  | RULE_not_test | RULE_exprlist => 13
  | RULE_and_test => 14
  | RULE_or_test => 15
  | RULE_test_if_expr | RULE_test_nocond => 16
  | RULE_test => 17
  | RULE_testlist_star_expr_2 | RULE_raise_stmt_arg | RULE_try_stmt_as_name | RULE_with_item
  | RULE_namedexpr_test | RULE_subscript_2 | RULE_subscript_3d | RULE_testlist | RULE_dictorsetmaker_item
  | RULE_argument => 18
  | RULE_eval_input | RULE_testlist_star_expr | RULE_with_stmt_list | RULE_testlist_comp_2 | RULE_subscript
  | RULE_subscript_3b | RULE_dictorsetmaker | RULE_dictorsetmaker_list2 | RULE_arglist_2 | RULE_yield_arg => 19
  | RULE_expr_stmt | RULE_expr_stmt_6 | RULE_testlist_comp | RULE_testlist_comp_3c | RULE_subscriptlist
  | RULE_arglist => 20
  | RULE_small_stmt | RULE_atom_2b => 21
  | RULE_simple_stmt_2 => 22
  | RULE_simple_stmt => 23
  | RULE_single_input | RULE_stmt | RULE_suite => 24
  | RULE_file_input_3 | RULE_suite_block_stmts => 25
  | RULE_file_input_2 => 26
  | RULE_file_input => 27
  | _ => 0
  end.

(** The arguments a rule may start with. *)
Fixpoint leading (args : list rule_arg) : list rule_id :=
  match args with
  | opt_rule r :: args => r :: leading args
  | rule r :: _ => [r]
  | _ => []
  end.

Definition first_args (r : rule_id) : list rule_id :=
  match rule_act_table r with
  | ACT_OR _ => omap arg_rule (rule_args r)
  | ACT_AND _ _ _ => leading (rule_args r)
  | ACT_LIST _ => omap arg_rule (take 1 (rule_args r))
  | ACT_NONE => []
  end.

(** The rule that may match nothing. *)
Definition is_empty (r : rule_id) : bool := bool_decide (r = RULE_file_input).

Definition is_end_kind (t : mp_token_kind_t) : bool :=
  bool_decide (t = MP_TOKEN_END) || bool_decide (t = MP_TOKEN_FSTRING_RAW).

(** * The tables *)

Lemma in_rule_ids r : In r rule_ids.
Proof. apply list_elem_of_In. eapply list_elem_of_lookup_2, rule_ids_number. Qed.

Lemma all_rules_spec f : all_rules f = true -> forall r, f r = true.
Proof. intros E r. eapply forallb_forall in E; [exact E|apply in_rule_ids]. Qed.

Lemma all_args_spec f r : all_args f r = true -> forall a r', a ∈ rule_args r -> arg_rule a = Some r' -> f r' = true.
Proof.
  intros E a r' Ha Er. unfold all_args in E. rewrite forallb_forall in E.
  specialize (E a (proj1 (list_elem_of_In _ _) Ha)). by rewrite Er in E.
Qed.

(** [E] is a fact checked on every rule, at the rule [r]. *)
Tactic Notation "check" "rules" constr(f) "at" constr(r) "as" ident(E) :=
  assert (E : f r = true) by (apply (all_rules_spec f); vm_compute; reflexivity); cbn beta in E.

Lemma args_special r a r' : special r = false -> r <> RULE_testlist_comp -> a ∈ rule_args r -> arg_rule a = Some r' ->
  special r' = false.
Proof.
  intros Hr Hc Ha Er. apply negb_true_iff. apply (all_args_spec (fun r' => negb (special r')) r) with a; [|done|done].
  check rules (fun r => special r || is_rule r RULE_testlist_comp || all_args (fun r' => negb (special r')) r) at r as E.
  unfold is_rule in E. by rewrite Hr, bool_decide_false in E.
Qed.

Lemma args_not_empty r a r' : a ∈ rule_args r -> arg_rule a = Some r' -> is_empty r' = false.
Proof.
  intros Ha Er. apply negb_true_iff. apply (all_args_spec (fun r' => negb (is_empty r')) r) with a; [|done|done].
  by check rules (all_args (fun r' => negb (is_empty r'))) at r as E.
Qed.

Lemma args_known r a r' : a ∈ rule_args r -> arg_rule a = Some r' -> r' <> RULE_const_object.
Proof.
  intros Ha Er. assert (negb (is_rule r' RULE_const_object) = true) as E; [|by intros ->].
  apply (all_args_spec (fun r' => negb (is_rule r' RULE_const_object)) r) with a; [|done|done].
  by check rules (all_args (fun r' => negb (is_rule r' RULE_const_object))) at r as E.
Qed.

Lemma args_pure r a r' : pure r = true -> a ∈ rule_args r -> arg_rule a = Some r' -> pure r' = true.
Proof.
  intros Hr Ha Er. apply (all_args_spec pure r) with a; [|done|done].
  check rules (fun r => implb (pure r) (all_args pure r)) at r as E. by rewrite Hr in E.
Qed.

Lemma safe_pure r : id_safe r = true -> pure r = true.
Proof. intros Hr. check rules (fun r => implb (id_safe r) (pure r)) at r as E. by rewrite Hr in E. Qed.

(** The shape of the entries of the table. *)
Definition is_opt (a : rule_arg) : bool := match a with opt_rule _ => true | _ => false end.

Definition shape (r : rule_id) : bool :=
  let args := rule_args r in
  match rule_act_table r with
  | ACT_NONE => is_rule r RULE_const_object
  | ACT_OR n => (n =? length args)%nat && forallb (negb ∘ is_opt) args
  | ACT_AND n _ _ => (n =? length args)%nat && (is_empty r || negb (forallb is_opt args))
  | ACT_LIST n =>
      ((n =? 2)%nat && (length args =? 1)%nat || ((n =? 1)%nat || (n =? 3)%nat) && (length args =? 2)%nat)
      && forallb (negb ∘ is_opt) args
  end.

Lemma shape_ok r : shape r = true.
Proof. by check rules shape at r as E. Qed.

Lemma first_args_rank r r' : r' ∈ first_args r -> (rank r' < rank r)%nat.
Proof.
  check rules (fun r => forallb (fun r' => (rank r' <? rank r)%nat) (first_args r)) at r as E.
  intros Hr. rewrite forallb_forall in E. apply Nat.ltb_lt, E. by apply list_elem_of_In.
Qed.

Lemma args_token r t : tok t ∈ rule_args r -> is_end_kind t = false.
Proof.
  check rules (fun r => forallb (fun a => match a with tok t => negb (is_end_kind t) | _ => true end) (rule_args r)) at r as E.
  intros Ht. rewrite forallb_forall in E. apply negb_true_iff. apply (E (tok t)). by apply list_elem_of_In.
Qed.

Lemma or_needs_parent r n a r' : rule_act_table r = ACT_OR n -> a ∈ rule_args r -> arg_rule a = Some r' ->
  needs_parent r' = true -> needs_parent r = true.
Proof.
  intros Er Ha Ea Hn.
  check rules (fun r => match rule_act_table r with
    | ACT_OR _ => needs_parent r || all_args (fun r' => negb (needs_parent r')) r | _ => true end) at r as E.
  rewrite Er in E. destruct (needs_parent r); [done|].
  pose proof (all_args_spec _ r E a r' Ha Ea) as E'. cbn in E'. by rewrite Hn in E'.
Qed.

(** Where the node of a rule that may be a name comes from. *)
Lemma safe_or r n a : rule_act_table r = ACT_OR n -> id_safe r = true -> a ∈ rule_args r ->
  match a with tok t => t = MP_TOKEN_NAME -> r = RULE_atom | rule r' | opt_rule r' => id_safe r' = true end.
Proof.
  intros Er Hr Ha.
  check rules (fun r => match rule_act_table r with
    | ACT_OR _ => implb (id_safe r) (forallb (fun a => match a with
        | tok t => negb (bool_decide (t = MP_TOKEN_NAME)) || is_rule r RULE_atom
        | rule r' | opt_rule r' => id_safe r' end) (rule_args r))
    | _ => true end) at r as E.
  rewrite Er, Hr in E. cbn [implb] in E. rewrite forallb_forall in E. specialize (E a (proj1 (list_elem_of_In _ _) Ha)).
  destruct a; [|done..]. intros ->. by apply (bool_decide_eq_true (r = RULE_atom)).
Qed.

(** The rules whose node may be the one of an argument. *)
Definition may_collapse (r : rule_id) : bool :=
  match rule_act_table r with ACT_AND _ ident _ => ident || is_rule r RULE_atom_paren | _ => false end.

Lemma safe_and r a : may_collapse r = true -> id_safe r = true -> a ∈ rule_args r ->
  a <> tok MP_TOKEN_NAME /\ forall r', arg_rule a = Some r' -> id_safe r' = true.
Proof.
  intros Hc Hr Ha.
  check rules (fun r => implb (may_collapse r && id_safe r) (forallb (fun a => negb (bool_decide (a = tok MP_TOKEN_NAME)) &&
    match arg_rule a with Some r' => id_safe r' | None => true end) (rule_args r))) at r as E.
  rewrite Hc, Hr in E. cbn [implb andb] in E. rewrite forallb_forall in E.
  specialize (E a (proj1 (list_elem_of_In _ _) Ha)). apply andb_true_iff in E as [E1 E2].
  split; [by intros ->|]. intros r' Er. by rewrite Er in E2.
Qed.

Lemma safe_list r n a : rule_act_table r = ACT_LIST n -> id_safe r = true -> rule_args r !! 0%nat = Some a ->
  exists r', a = rule r' /\ id_safe r' = true.
Proof.
  intros Er Hr Ha.
  check rules (fun r => match rule_act_table r with
    | ACT_LIST _ => implb (id_safe r) (match rule_args r !! 0%nat with Some (rule r') => id_safe r' | _ => false end)
    | _ => true end) at r as E.
  rewrite Er, Hr, Ha in E. destruct a; [done|by eexists|done].
Qed.

(** The rules of one operator, and the operators of folded lists. *)
Definition is_operator (t : mp_token_kind_t) : bool :=
  match token_offset t with
  | Some off => match operators_from_lshift !! off with Some (Some _) => true | _ => bool_decide (t = MP_TOKEN_OP_AT) end
  | None => bool_decide (t = MP_TOKEN_OP_TILDE)
  end.

Lemma op_rule_tokens r : is_op_rule r = true -> exists n, rule_act_table r = ACT_OR n /\
  forall a, a ∈ rule_args r -> exists t, a = tok t /\ is_operator t = true.
Proof.
  intros Hr. destruct r; try done; eexists; (split; [done|]); intros a Ha;
    repeat (apply elem_of_cons in Ha as [->|Ha]; [by eexists|]); by apply elem_of_nil in Ha.
Qed.
