(* ===== verification/ParseRun.v ===== *)
(** Runs of the loop of [Parse]: what a lexer promises to the parser, the states a
    run goes through, and what is pushed for a token. *)

From Stdlib Require Import ZArith Lia.
From stdpp Require Import base option list numbers.
From S2P Require Import Prelude IntObj Lexer IntText HashMap HashTable HashSpec HashProps Qstr Grammar Parse ParseSpec.

(** * Definitions *)

(** A failed assertion, or an access outside of a stack, a node or a buffer, in the
    parser or in the lexer. *)
Definition is_crash (e : parse_error) : bool :=
  match e with FAULT | E_LEXER Lexer.FAULT => true | _ => false end.

(** What the parser relies on: from a good lexer whose token is not the last there
    is a next token, and [left] decreases; or there is an exception. *)
Class TokenLaws (L : Type) `{TokenSource L} := {
  good : L -> Prop;
  left : L -> nat;
  next_law : forall l, good l -> is_end_kind (source_kind l) = false ->
    exists r, source_next l = Some r /\
      match r with inr l' => good l' /\ (left l' < left l)%nat | inl e => e <> Lexer.FAULT end;
}.

Section run.
Context {L F : Type} `{TokenLaws L} `{FloatLiterals F}.
Context (input_kind : mp_parse_input_kind_t).

Abbreviation parser := (parser_t L F).
Abbreviation node := (parse_node F).
Abbreviation outcome := (option (perr (parser * bool))).

Implicit Types p : parser.

(** The tokens read from a lexer to another. *)
Inductive reads : L -> list mp_token_kind_t -> L -> Prop :=
  | reads_nil l : reads l [] l
  | reads_cons l l' w l'' : source_next l = Some (inr l') -> reads l' w l'' -> reads l (source_kind l :: w) l''.

(** ** Runs *)

(** The rest of a run, as a function of the fuel. *)
Definition run_t := nat -> option (perr parser).

Definition loop (p : parser) (backtrack : bool) : run_t := fun f => parse_loop f input_kind p backtrack.

Definition then_loop (g : nat -> outcome) : run_t := fun f =>
  s ← g f; match s with inr (p, backtrack) => parse_loop f input_kind p backtrack | inl e => Some (inl e) end.

(** With enough fuel a run comes to a state, or ends with an exception that is not
    a fault. *)
Definition leads (c : run_t) (p : parser) (b : bool) : Prop :=
  exists N, forall f, (N <= f)%nat -> exists f', (f <= f' + N)%nat /\ c f = parse_loop f' input_kind p b.

Definition raises (c : run_t) (e : parse_error) : Prop := exists N, forall f, (N <= f)%nat -> c f = Some (inl e).

Definition comes_to (c : run_t) (P : parser -> bool -> Prop) : Prop :=
  (exists p b, leads c p b /\ P p b) \/ (exists e, is_crash e = false /\ raises c e).

(** * The calculus of runs *)

Lemma reads_app l w l' v l'' : reads l w l' -> reads l' v l'' -> reads l (w ++ v) l''.
Proof. induction 1; [done|]. intros Hv. econstructor; eauto. Qed.

Lemma reads_one l l' : source_next l = Some (inr l') -> reads l [source_kind l] l'.
Proof. intros E. by econstructor; [|constructor]. Qed.

Lemma comes_now p b (P : parser -> bool -> Prop) : P p b -> comes_to (loop p b) P.
Proof. intros HP. left. exists p, b. split; [|done]. exists O. intros f _. exists f. split; [lia|done]. Qed.

Lemma comes_error g e (P : parser -> bool -> Prop) : is_crash e = false -> (forall f, g f = Some (inl e)) -> comes_to (then_loop g) P.
Proof. intros He Hg. right. exists e. split; [done|]. exists O. intros f _. unfold then_loop. by rewrite Hg. Qed.

Lemma comes_syntax_error p (P : parser -> bool -> Prop) : comes_to (then_loop (fun _ => Some (syntax_error p))) P.
Proof. by apply (comes_error _ (E_SYNTAX (match tok_kind p with
  | MP_TOKEN_INDENT => M_UNEXPECTED_INDENT | MP_TOKEN_DEDENT_MISMATCH => M_UNINDENT_MISMATCH
  | MP_TOKEN_MALFORMED_FSTRING => M_MALFORMED_FSTRING | MP_TOKEN_FSTRING_RAW => M_RAW_FSTRING
  | _ => M_INVALID_SYNTAX end) (source_line (lexer p)))). Qed.

Lemma comes_same c c' P : (exists N, forall f, (N <= f)%nat -> c f = c' f) -> comes_to c' P -> comes_to c P.
Proof.
  intros (N & HN) [(p & b & (M & HM) & HP)|(e & He & M & HM)].
  - left. exists p, b. split; [|done]. exists (N + M)%nat. intros f Hf. destruct (HM f ltac:(lia)) as (f' & Hf' & E).
    exists f'. split; [lia|]. rewrite HN by lia. done.
  - right. exists e. split; [done|]. exists (N + M)%nat. intros f Hf. rewrite HN by lia. apply HM. lia.
Qed.

Lemma comes_goto g p b P : (forall f, g f = goto_next_rule p b) -> comes_to (loop p b) P -> comes_to (then_loop g) P.
Proof. intros Hg. apply comes_same. exists O. intros f _. unfold then_loop, loop. by rewrite Hg. Qed.

Lemma comes_bind c P Q : comes_to c P -> (forall p b, P p b -> comes_to (loop p b) Q) -> comes_to c Q.
Proof.
  intros [(p & b & (M & HM) & HP)|He] Hk; [|by right].
  destruct (Hk p b HP) as [(p' & b' & (N & HN) & HQ)|(e & He & N & HN)].
  - left. exists p', b'. split; [|done]. exists (M + N)%nat. intros f Hf.
    destruct (HM f ltac:(lia)) as (f' & Hf' & ->). destruct (HN f' ltac:(lia)) as (f'' & Hf'' & E).
    exists f''. split; [lia|]. exact E.
  - right. exists e. split; [done|]. exists (M + N)%nat. intros f Hf.
    destruct (HM f ltac:(lia)) as (f' & Hf' & ->). apply HN. lia.
Qed.

Lemma comes_mono c (P Q : parser -> bool -> Prop) : comes_to c P -> (forall p b, P p b -> Q p b) -> comes_to c Q.
Proof. intros Hc Hi. eapply comes_bind; [exact Hc|]. intros p b HP. by apply comes_now, Hi. Qed.

(** The rule on the top of the stack is processed. *)
Lemma comes_step p b r rs P : rule_stack p = r :: rs ->
  comes_to (then_loop (fun f => process_rule f input_kind (with_rules p rs) r b)) P -> comes_to (loop p b) P.
Proof.
  intros Er [(p' & b' & (M & HM) & HP)|(e & He & M & HM)].
  - left. exists p', b'. split; [|done]. exists (S M). intros [|f] Hf; [lia|].
    destruct (HM f ltac:(lia)) as (f' & Hf' & E). exists f'. split; [lia|].
    unfold loop. cbn [parse_loop]. by rewrite Er.
  - right. exists e. split; [done|]. exists (S M). intros [|f] Hf; [lia|].
    unfold loop. cbn [parse_loop]. rewrite Er. apply HM. lia.
Qed.

(** ** States *)

(** The lexer is good and the table of constants is one. *)
Definition state_ok (p : parser) : Prop := good (lexer p) /\ dict_ok (consts p).

(** The value of a name. *)
Definition const_of (p : parser) (s : text) : option (obj F) := item (consts p) {| qstr_text := s |}.

(** ** Nodes *)

(** The number of arguments a node of the rule may have. *)
Definition pushes (a : rule_arg) : bool := match a with tok t => bool_decide (t = MP_TOKEN_NAME) | _ => true end.

Definition arity (r : rule_id) (n : nat) : Prop :=
  match rule_act_table r with
  | ACT_AND _ _ blank =>
      n = (length (filter (fun a => pushes a = true) (rule_args r)) + (if blank then 1 else 0))%nat
      \/ r = RULE_testlist_comp /\ (1 <= n)%nat
  | ACT_LIST _ => (1 <= n)%nat
  | _ => False
  end.

(** Nodes as the tables make them. *)
Inductive node_wf : node -> Prop :=
  | wf_leaf n : is_leaf n = true -> node_wf n
  | wf_null : node_wf PN_NULL
  | wf_const line o : node_wf (PN_CONST line o)
  | wf_struct line r nodes : arity r (length nodes) -> Forall node_wf nodes -> node_wf (PN_STRUCT line r nodes).

(** A node that stands for something other than the parts of [(a, b)]. *)
Definition plain_node (n : node) : Prop :=
  is_null n = false /\ is_struct_kind n RULE_testlist_comp_3b = false /\ is_struct_kind n RULE_testlist_comp_3c = false.

(** What is known of the node of a rule. *)
Record node_ok (r : rule_id) (p : parser) (n : node) : Prop := {
  node_ok_wf : node_wf n;
  node_ok_plain : plain_node n;
  node_ok_op : is_op_rule r = true -> exists k, n = PN_TOKEN k /\ tok k ∈ rule_args r;
  node_ok_name : id_safe r = true -> forall s, n = PN_ID s -> const_of p s = None;
}.

(** ** Results of rules *)

(** What has happened from [p] to [p'] while the tokens [w] were read. *)
Record moved (p : parser) (w : list mp_token_kind_t) (p' : parser) : Prop := {
  moved_rules : rule_stack p' = rule_stack p;
  moved_ok : state_ok p';
  moved_reads : reads (lexer p) w (lexer p');
  moved_left : (left (lexer p') <= left (lexer p))%nat;
}.

(** The rule is matched: its node is on the stack. *)
Definition matched (r : rule_id) (p p' : parser) : Prop :=
  exists w n, moved p w p' /\ derives r w /\ result_stack p' = n :: result_stack p /\ node_ok r p' n /\
    (is_empty r = false -> (left (lexer p') < left (lexer p))%nat) /\
    (pure r = true -> consts p' = consts p).

(** The parser as it was when the rule is not matched. *)
Definition rule_outcome (r : rule_id) (p : parser) (p' : parser) (backtrack : bool) : Prop :=
  if backtrack then p' = p else matched r p p'.

(** The rule is tried. *)
Definition tries (r : rule_id) (p : parser) : run_t := fun f =>
  parse_loop f input_kind (push_rule p (source_line (lexer p)) r 0) false.

(** ** Tokens *)

(** The node of a token. *)
Record token_node (r : rule_id) (p : parser) (n : node) : Prop := {
  token_wf : node_wf n;
  token_plain : plain_node n;
  token_op : is_operator (tok_kind p) = true -> n = PN_TOKEN (tok_kind p);
  token_name : forall s, n = PN_ID s -> tok_kind p = MP_TOKEN_NAME /\ (r = RULE_atom -> const_of p s = None);
  token_id : tok_kind p = MP_TOKEN_NAME -> r <> RULE_atom -> exists s, n = PN_ID s;
}.

Lemma leaf_node (n : node) : is_leaf n = true -> node_wf n /\ plain_node n.
Proof. intros E. split; [by constructor|]. by destruct n. Qed.

Lemma const_node line (o : obj F) : node_wf (PN_CONST line o) /\ plain_node (PN_CONST line o).
Proof. split; [by constructor|]. done. Qed.

Lemma made_node line (o : obj F) : node_wf (make_node_const_object_optimised line o) /\
  plain_node (make_node_const_object_optimised line o) /\
  (forall s, make_node_const_object_optimised line o <> PN_ID s).
Proof. destruct o as [[v|z]| | | | | | | | |]; (split; [by constructor|]); done. Qed.

Lemma lookup_const_ok p s : state_ok p -> lookup_const p s = inr (const_of p s).
Proof.
  intros [_ Hd]. unfold lookup_const, const_of. destruct (lookup_get (consts p) {| qstr_text := s |} Hd) as (slot & -> & Hs).
  cbn [or_fault ebind]. destruct (item _ _) as [v|]; [|by subst slot].
  destruct Hs as (pos & a & -> & E). rewrite E. done.
Qed.

(** Only the results and the interned strings change. *)
Definition pushed (p : parser) (n : node) (p' : parser) : Prop :=
  result_stack p' = n :: result_stack p /\ rule_stack p' = rule_stack p /\ lexer p' = lexer p /\ consts p' = consts p.

Lemma intern_ok p s :
  match intern p s with
  | inr p' => result_stack p' = result_stack p /\ rule_stack p' = rule_stack p /\ lexer p' = lexer p /\ consts p' = consts p
  | inl e => is_crash e = false
  end.
Proof. unfold intern. destruct (find_interned _ _); [done|]. by destruct (_ >=? _). Qed.

Lemma push_token_ok p r : state_ok p ->
  match push_result_token p r with
  | inr p' => exists n, pushed p n p' /\ token_node r p n
  | inl e => is_crash e = false
  end.
Proof.
  intros Hp. unfold push_result_token.
  assert (forall p' (n : node), pushed p n p' -> node_wf n -> plain_node n -> (forall s, n <> PN_ID s) ->
    (is_operator (tok_kind p) = true -> n = PN_TOKEN (tok_kind p)) -> (tok_kind p = MP_TOKEN_NAME -> r = RULE_atom) ->
    exists n, pushed p n p' /\ token_node r p n) as Hn.
  { intros p' n Hps Hw Hpl Hid Hop Hat. exists n. split; [done|].
    split; [done..| |]; [intros s ->; by destruct (Hid s)|]. intros Ek Hr. by destruct Hr, (Hat Ek). }
  destruct (tok_kind p) eqn:Ek;
    try (eapply Hn; [done|by constructor|done|done|done|done]).
  - pose proof (intern_ok p (source_text (lexer p))) as Hq.
    destruct (intern p _) as [e|p1]; [done|]. cbn [ebind]. destruct Hq as (E1 & E2 & E3 & E4).
    assert (state_ok p1) as Hp1 by (unfold state_ok; rewrite E3, E4; exact Hp).
    assert (forall s, const_of p1 s = const_of p s) as Ec by (intros s; unfold const_of; by rewrite E4).
    assert (forall n, pushed p n (push_result_node p1 n)) as Hps by (intros n; unfold pushed; cbn; by rewrite E1, E2, E3, E4).
    case_bool_decide as Hr; [rewrite lookup_const_ok, Ec by done|]; cbn [ebind].
    + destruct (const_of p _) as [v|] eqn:Ev.
      * destruct (made_node (source_line (lexer p)) v) as (? & ? & ?). eapply Hn; [apply Hps|done..|done].
      * eexists. split; [apply Hps|]. split; [by constructor|done|by rewrite Ek| |by eexists]. intros s [= <-]. by rewrite Ek.
    + eexists. split; [apply Hps|]. split; [by constructor|done|by rewrite Ek| |by eexists]. intros s [= <-]. by rewrite Ek.
  - destruct (mp_parse_num_integer _ _) as [[e|o]|]; cbn [or_int_fault ebind]; [done| |done].
    destruct (made_node (source_line (lexer p)) (O_INT o)) as (? & ? & ?). eapply Hn; [done..|done].
  - destruct (mp_parse_num_float _) as [e|f]; [done|]. eapply Hn; [done|by constructor|done|done|done|done].
  - set (str := source_text _). pose proof (intern_ok p str) as Hq.
    destruct (_ <=? _)%nat.
    + destruct (intern p _) as [e|p1]; [done|]. cbn [ebind]. destruct Hq as (E1 & E2 & E3 & E4).
      apply (Hn _ (PN_STRING str)); [|by constructor|done|done|done|done]. unfold pushed. cbn. by rewrite E1, E2, E3, E4.
    + destruct (find_interned _ _); (eapply Hn; [done|by constructor|done|done|done|done]).
Qed.

(** A token is read. *)
Lemma eat_token_ok p r push : state_ok p -> is_end_kind (tok_kind p) = false ->
  exists x, eat_token p r push = Some x /\
  match x with
  | inr p' => moved p [tok_kind p] p' /\ (left (lexer p') < left (lexer p))%nat /\ consts p' = consts p /\
      if push then exists n, result_stack p' = n :: result_stack p /\ token_node r p n
      else result_stack p' = result_stack p
  | inl e => is_crash e = false
  end.
Proof.
  intros Hp Hk. unfold eat_token, to_next.
  destruct (next_law (lexer p) (proj1 Hp) Hk) as (x & Ex & Hx).
  assert (forall e, x = inl e -> is_crash (E_LEXER e) = false) as He by (intros [] ->; done).
  assert (forall p', lexer p' = lexer p -> rule_stack p' = rule_stack p -> consts p' = consts p ->
    forall l', x = inr l' -> moved p [tok_kind p] (with_lexer p' l') /\ (left l' < left (lexer p))%nat) as Hm.
  { intros p' El Er Ec l' ->. destruct Hx as [Hg Hl]. split; [|done]. split; cbn; [done| | |lia].
    - split; cbn; [done|]. rewrite Ec. apply Hp.
    - by apply reads_one. }
  destruct push.
  - pose proof (push_token_ok p r Hp) as Ht. destruct (push_result_token p r) as [e|p']; [by eexists|].
    destruct Ht as (n & (E1 & E2 & E3 & E4) & Hn). rewrite E3, Ex. cbn [mbind option_bind].
    destruct x as [e|l']; eexists; (split; [done|]); [by apply He|].
    destruct (Hm p' E3 E2 E4 l' eq_refl). cbn [lexer consts result_stack with_lexer]. eauto 10.
  - rewrite Ex. cbn [mbind option_bind]. destruct x as [e|l']; eexists; (split; [done|]); [by apply He|].
    destruct (Hm p eq_refl eq_refl eq_refl l' eq_refl). done.
Qed.

(** ** Moving on *)

Lemma moved_refl p : state_ok p -> moved p [] p.
Proof. intros Hp. split; [done|done|constructor|done]. Qed.

Lemma moved_trans p w p' v p'' : moved p w p' -> moved p' v p'' -> moved p (w ++ v) p''.
Proof.
  intros [E1 _ R1 L1] [E2 S2 R2 L2]. split; [congruence|done|by eapply reads_app|lia].
Qed.

(** Changing the results does not move the parser. *)
Lemma moved_results p w p' rs : moved p w p' -> moved p w (with_results p' rs).
Proof. by intros [E1 S1 R1 L1]. Qed.

End run.
