(* ===== verification/ParseNodes.v ===== *)
(** The nodes of rules in [Parse]: folding, tuples of constants and the node a
    matched rule leaves, for arguments that come from the grammar. *)

From Stdlib Require Import ZArith Lia.
From stdpp Require Import base option list numbers sets.
From S2P Require Import Prelude IntObj Lexer IntText HashMap HashTable HashSpec HashProps Qstr Grammar Parse ParseSpec ParseRun.

(** * Definitions *)

(** A computation that does not fault. *)
Definition no_fault {A} (m : perr A) : Prop := match m with inl e => is_crash e = false | inr _ => True end.

Section nodes.
Context {L F : Type} `{TokenLaws L} `{FloatLiterals F}.

Abbreviation parser := (parser_t L F).
Abbreviation node := (parse_node F).

Implicit Types p : parser.
Implicit Types ns rs base kept nodes : list node.
Implicit Types o : obj F.

(** What folding keeps of the operands of [or] and [and]: those before the first
    that decides the value, without the constants that decide nothing. *)
Fixpoint fold_spec (is_or : bool) (ns : list node) : perr (list node) :=
  match ns with
  | [] => inr []
  | pn :: rest =>
      if (length rest =? 0)%nat then inr [pn] else
      stop ←e (if is_or then mp_parse_node_is_const_true pn else mp_parse_node_is_const_false pn);
      if (stop : bool) then inr [pn] else
      drop ←e (if is_or then mp_parse_node_is_const_false pn else mp_parse_node_is_const_true pn);
      if (drop : bool) then fold_spec is_or rest else kept ←e fold_spec is_or rest; inr (pn :: kept)
  end.

(** The operands a rule folds. *)
Definition foldable (r : rule_id) ns : Prop :=
  match r with
  | RULE_expr | RULE_xor_expr | RULE_and_expr | RULE_power => (1 <= length ns)%nat
  | RULE_shift_expr | RULE_arith_expr | RULE_term =>
      Nat.odd (length ns) = true /\ forall j, Nat.odd j = true -> (j < length ns)%nat ->
        exists t, ns !! j = Some (PN_TOKEN t) /\ is_operator t = true /\ t <> MP_TOKEN_OP_TILDE
  | RULE_factor_2 => exists t n, ns = [PN_TOKEN t; n] /\ is_Some (unary_token_op t)
  | _ => True
  end.

(** * Bits of the monad *)

Lemma no_fault_ret {A} (a : A) : no_fault (inr a).
Proof. done. Qed.

Lemma no_fault_bind {A B} (m : perr A) (k : A -> perr B) :
  no_fault m -> (forall a, m = inr a -> no_fault (k a)) -> no_fault (ebind k m).
Proof. intros Hm Hk. destruct m as [e|a]; [done|by apply Hk]. Qed.

Lemma no_fault_some {A} (o : option A) a : o = Some a -> no_fault (or_fault o).
Proof. by intros ->. Qed.

(** ** The result stack *)

Lemma peek_rev p ns base pos : result_stack p = rev ns ++ base -> (pos < length ns)%nat ->
  exists n, ns !! (length ns - 1 - pos)%nat = Some n /\ peek_result p pos = inr n.
Proof.
  intros E Hp. assert (length ns - 1 - pos < length ns)%nat as Hl by lia.
  apply lookup_lt_is_Some_2 in Hl as [n Hn]. exists n. split; [done|]. unfold peek_result. rewrite E.
  rewrite lookup_app_l by (rewrite length_rev; lia).
  rewrite (rev_alt ns). change (rev_append ns []) with (reverse ns). rewrite reverse_lookup by done.
  replace (length ns - S pos)%nat with (length ns - 1 - pos)%nat by lia. by rewrite Hn.
Qed.

Lemma pop_rev p ns base : result_stack p = rev ns ++ base ->
  pop_results p (length ns) = inr (ns, with_results p base).
Proof.
  intros E. unfold pop_results. rewrite E, length_app, length_rev.
  destruct (Nat.leb_spec (length ns) (length ns + length base)); [|lia].
  rewrite <- (length_rev ns) at 1 2. by rewrite take_app_length, drop_app_length, rev_involutive.
Qed.

(** * Constants *)

Lemma arity_and r n i b k : rule_act_table r = ACT_AND n i b -> r <> RULE_testlist_comp -> arity r k ->
  k = (length (filter (fun a => pushes a = true) (rule_args r)) + (if b then 1 else 0))%nat.
Proof. intros E Hr. unfold arity. rewrite E. intros [?|[? _]]; done. Qed.

Lemma one_node nodes : length nodes = 1%nat -> exists n, nodes = [n].
Proof. destruct nodes as [|n [|]]; try done. intros _. by eexists. Qed.

Lemma two_nodes nodes : length nodes = 2%nat -> exists n m, nodes = [n; m].
Proof. destruct nodes as [|n [|m [|]]]; try done. intros _. by do 2 eexists. Qed.

Lemma paren_wf line nodes : node_wf (PN_STRUCT line RULE_atom_paren nodes) -> exists n, nodes = [n].
Proof.
  intros Hw. inversion Hw as [n E| | |l r ns Ha Hf]; [done|subst]. apply one_node.
  by rewrite (arity_and RULE_atom_paren _ _ _ _ eq_refl ltac:(done) Ha).
Qed.

Lemma is_const_ok (n : node) : node_wf n -> no_fault (mp_parse_node_is_const n).
Proof.
  destruct n as [| | | | | |line r nodes]; try done. destruct r; try done.
  intros Hw. destruct (paren_wf _ _ Hw) as [n ->]. done.
Qed.

Lemma convert_ok (n : node) : mp_parse_node_is_const n = inr true -> no_fault (mp_parse_node_convert_to_obj n).
Proof.
  destruct n as [| | | |k| |line r nodes]; try done.
  - cbn [mp_parse_node_is_const]. intros [= Ek].
    rewrite !orb_true_iff, !bool_decide_eq_true in Ek. by destruct Ek as [[[->| ->]| ->]| ->].
  - destruct r; try done. cbn. destruct nodes as [|[] nodes]; done.
Qed.

Lemma is_true_ok o : no_fault (mp_obj_is_true o).
Proof. by destruct o as [[v|z]| | | | | | | | |]. Qed.

Lemma is_const_bool_ok (n : node) v : node_wf n -> no_fault (parse_node_is_const_bool n v).
Proof.
  intros Hw. unfold parse_node_is_const_bool. apply no_fault_bind; [by apply is_const_ok|]. intros [] E; [|done].
  apply no_fault_bind; [by apply convert_ok|]. intros o _. apply no_fault_bind; [apply is_true_ok|done].
Qed.

(** ** Logical operators *)

Lemma fold_spec_ok b ns : Forall node_wf ns -> no_fault (fold_spec b ns).
Proof.
  induction 1 as [|n ns Hn _ IH]; [done|]. cbn [fold_spec]. destruct (_ =? _)%nat; [done|].
  apply no_fault_bind; [destruct b; by apply is_const_bool_ok|]. intros [] _; [done|].
  apply no_fault_bind; [destruct b; by apply is_const_bool_ok|]. intros [] _; [done|].
  by apply no_fault_bind.
Qed.

Lemma fold_spec_sub b ns : forall kept, fold_spec b ns = inr kept -> kept ⊆ ns /\ (ns <> [] -> kept <> []).
Proof.
  induction ns as [|n ns IH]; intros kept; cbn [fold_spec]; [by intros [= <-]|].
  assert ([n] ⊆ n :: ns /\ (n :: ns <> [] -> [n] <> [])) as Hone by (split; [set_solver|done]).
  destruct (Nat.eqb_spec (length ns) 0) as [E|E]; [by intros [= <-]|].
  assert (ns <> []) as Hne by (by intros ->).
  destruct (if b then mp_parse_node_is_const_true n else _) as [e|[]]; cbn [ebind]; [done|by intros [= <-]|].
  destruct (if b then mp_parse_node_is_const_false n else _) as [e|[]]; cbn [ebind]; [done| |].
  - intros Ek. destruct (IH kept Ek). split; [set_solver|auto].
  - destruct (fold_spec b ns) as [e|k]; [done|]. intros [= <-]. destruct (IH k eq_refl). split; [set_solver|done].
Qed.

(** The loop writes what is kept over the operands: with [copy_to] results above
    those already kept, the first [i] of them not yet read. *)
Lemma fold_loop_ok b (rest : list node) : forall (X Y : list node), rest <> [] -> (length rest <= length X)%nat ->
  take (length rest) X = rev rest ->
  match fold_spec b rest with
  | inl e => fold_logical_loop b (length rest) (X ++ Y) (length X) = inl e
  | inr kept => exists rs' c', fold_logical_loop b (length rest) (X ++ Y) (length X) = inr (rs', c') /\
      (1 <= c' <= length X)%nat /\ length rs' = length (X ++ Y) /\ drop (c' - 1) rs' = rev kept ++ Y
  end.
Proof.
  induction rest as [|pn rest IH]; [done|]. intros X Y _ Hl Ht. cbn [length fold_logical_loop fold_spec] in *.
  assert ((X ++ Y) !! length rest = Some pn) as ->.
  { rewrite lookup_app_l by lia. rewrite <- (lookup_take_lt X (S (length rest))) by lia. rewrite Ht. cbn [rev].
    rewrite lookup_app_r by (rewrite length_rev; lia). by rewrite length_rev, Nat.sub_diag. }
  cbn [or_fault ebind].
  assert (exists X1 x, X = X1 ++ [x]) as (X1 & x & ->).
  { destruct X as [|? ?] using rev_ind; [cbn in Hl; lia|eauto]. }
  rewrite length_app in *. cbn [length] in *.
  assert (<[(length X1 + 1 - 1)%nat := pn]> ((X1 ++ [x]) ++ Y) = (X1 ++ [pn]) ++ Y) as ->.
  { rewrite Nat.add_sub, <- !(assoc_L app), insert_app_r_alt, Nat.sub_diag by lia. done. }
  assert (drop (length X1 + 1 - 1) ((X1 ++ [pn]) ++ Y) = [pn] ++ Y) as Hd.
  { by rewrite Nat.add_sub, <- (assoc_L app), drop_app_length. }
  destruct (Nat.eqb_spec (length rest) 0) as [E|E].
  { exists ((X1 ++ [pn]) ++ Y), (length X1 + 1)%nat. rewrite !length_app. cbn. split_and!; [done|lia|lia|lia|done]. }
  assert (rest <> []) as Hne by (by intros ->).
  assert (take (length rest) X1 = rev rest) as Ht1.
  { cbn [rev] in Ht. apply (f_equal (take (length rest))) in Ht. rewrite take_take, Nat.min_l in Ht by lia.
    rewrite <- (length_rev rest) in Ht at 2. rewrite take_app_length in Ht. by rewrite take_app_le in Ht by lia. }
  assert (take (length rest) (X1 ++ [pn]) = rev rest) as Ht2 by (by rewrite take_app_le by lia).
  destruct (if b then mp_parse_node_is_const_true pn else _) as [e|[]]; cbn [ebind]; [done| |].
  { exists ((X1 ++ [pn]) ++ Y), (length X1 + 1)%nat. rewrite !length_app. cbn. split_and!; [done|lia|lia|lia|done]. }
  destruct (if b then mp_parse_node_is_const_false pn else _) as [e|[]]; cbn [ebind]; [done| |].
  - pose proof (IH (X1 ++ [pn]) Y Hne ltac:(rewrite length_app; cbn; lia) Ht2) as Hi. rewrite length_app in Hi. cbn [length] in Hi.
    destruct (fold_spec b rest); [done|]. by rewrite !length_app in *.
  - pose proof (IH X1 ([pn] ++ Y) Hne ltac:(lia) Ht1) as Hi. rewrite (assoc_L app) in Hi. rewrite Nat.add_sub.
    destruct (fold_spec b rest) as [e|kept]; cbn [ebind]; [done|]. destruct Hi as (rs' & c' & E1 & Hc & El & Ed).
    exists rs', c'. rewrite length_app. cbn [length]. rewrite El, !length_app, Ed in *. split_and!; [done|lia|lia|cbn; lia|]. cbn [rev]. by rewrite <- (assoc_L app).
Qed.

Definition is_logical (r : rule_id) : bool := match r with RULE_or_test | RULE_and_test => true | _ => false end.

Lemma fold_logical_ok p r ns base : result_stack p = rev ns ++ base -> is_logical r = true -> ns <> [] ->
  fold_logical_constants p r (length ns) =
    (kept ←e fold_spec (bool_decide (r = RULE_or_test)) ns;
     inr (with_results p (rev kept ++ base), length kept, (length kept =? 1)%nat)).
Proof.
  intros Ep Hr Hne. pose proof (fold_loop_ok (bool_decide (r = RULE_or_test)) ns (rev ns) base Hne) as Hl.
  rewrite length_rev in Hl. specialize (Hl ltac:(done)). rewrite <- (length_rev ns) in Hl at 1.
  specialize (Hl (firstn_all _)). rewrite <- Ep in Hl.
  assert (fold_logical_constants p r (length ns) =
    ('(rs, copy_to) ←e fold_logical_loop (bool_decide (r = RULE_or_test)) (length ns) (result_stack p) (length ns);
      let copy_to := (copy_to - 1)%nat in
      '(_, p) ←e pop_results (with_results p rs) copy_to;
      let num_args := (length ns - copy_to)%nat in
      inr (p, num_args, (num_args =? 1)%nat))) as -> by (by destruct r).
  destruct (fold_spec _ ns) as [e|kept]; cbn [ebind]; [by rewrite Hl|].
  destruct Hl as (rs' & c' & -> & Hc & El & Ed). cbn [ebind].
  pose proof (f_equal length Ed) as El2. rewrite length_drop, El, length_app, length_rev, Ep, length_app, length_rev in El2.
  unfold pop_results. cbn [result_stack with_results]. rewrite El, Ep, length_app, length_rev.
  destruct (Nat.leb_spec (c' - 1) (length ns + length base)); [|lia]. cbn [ebind]. rewrite Ed.
  replace (length ns - (c' - 1))%nat with (length kept) by lia. done.
Qed.

(** ** Integers *)

Lemma int_value_ok r : no_fault (int_value r).
Proof. by destruct r as [[e|[]]|]. Qed.

Lemma fold_binary_ok p ns base op i arg0 : result_stack p = rev ns ++ base -> (i <= length ns)%nat ->
  no_fault (fold_binary_loop p op i arg0).
Proof.
  intros Ep. revert arg0. induction i as [|i IH]; [done|]. intros arg0 Hi. cbn [fold_binary_loop].
  destruct (peek_rev p ns base i Ep ltac:(lia)) as (n & _ & ->). cbn [ebind].
  destruct (mp_parse_node_get_int_maybe n) as [arg1|]; [|done]. destruct (_ && _); [done|].
  apply no_fault_bind; [apply int_value_ok|]. intros a _. apply IH. lia.
Qed.

Lemma operator_offset t : is_operator t = true -> t <> MP_TOKEN_OP_TILDE -> t <> MP_TOKEN_OP_AT ->
  exists off op, token_offset t = Some off /\ operators_from_lshift !! off = Some (Some op).
Proof.
  unfold is_operator. intros E Ht Ha. destruct (token_offset t) as [off|]; [|by apply bool_decide_eq_true in E].
  exists off. destruct (operators_from_lshift !! off) as [[op|]|]; [by exists op|by apply bool_decide_eq_true in E..].
Qed.

Lemma fold_term_ok p ns base : result_stack p = rev ns ++ base -> foldable RULE_term ns ->
  forall i arg0, (i < length ns)%nat -> Nat.odd (length ns - 1 - i) = true -> no_fault (fold_term_loop p i arg0).
Proof.
  intros Ep [Hlen Hops] i. induction i as [i IH] using lt_wf_ind. intros arg0 Hi Ho.
  destruct i as [|j]; [done|]. cbn [fold_term_loop].
  destruct (peek_rev p ns base j Ep ltac:(lia)) as (n & _ & ->). cbn [ebind].
  destruct (mp_parse_node_get_int_maybe n) as [arg1|]; [|done].
  destruct (peek_rev p ns base (S j) Ep ltac:(lia)) as (m & Em & ->). cbn [ebind].
  destruct (Hops _ Ho ltac:(lia)) as (t & Et & Hop & Hnt). rewrite Et in Em. simplify_eq. cbn [leaf_token ebind].
  do 2 case_bool_decide; try done. cbn [orb].
  destruct (operator_offset t Hop Hnt) as (off & op & -> & Eop); [done|]. cbn [or_fault ebind]. rewrite Eop.
  cbn [or_fault ebind mjoin option_join].
  destruct (_ && _); [done|]. destruct (_ && _); [done|].
  apply no_fault_bind; [apply int_value_ok|]. intros a _. destruct j as [|i]; [done|]. apply IH; [lia|lia|].
  replace (length ns - 1 - i)%nat with (S (S (length ns - 1 - S (S i)))) by lia. by rewrite Nat.odd_succ_succ.
Qed.

Lemma fold_int_ok p r ns base : result_stack p = rev ns ++ base -> foldable r ns -> no_fault (fold_int p r (length ns)).
Proof.
  intros Ep Hf.
  assert ((1 <= length ns)%nat -> forall op, no_fault (
    pn ←e peek_result p (length ns - 1);
    match mp_parse_node_get_int_maybe pn with
    | None => inr None
    | Some arg0 => op ←e or_fault (Some op); fold_binary_loop p op (length ns - 1) arg0 end)) as Hb.
  { intros Hl op. destruct (peek_rev p ns base (length ns - 1) Ep ltac:(lia)) as (n & _ & ->). cbn [ebind].
    destruct (mp_parse_node_get_int_maybe n); [|done]. eapply fold_binary_ok; [done|lia]. }
  assert (foldable RULE_term ns -> no_fault (
    pn ←e peek_result p (length ns - 1);
    match mp_parse_node_get_int_maybe pn with
    | None => inr None
    | Some arg0 => fold_term_loop p (length ns - 2) arg0 end)) as Ht.
  { intros Hfo. pose proof Hfo as [Ho _]. assert (length ns <> O) as Hl by (by intros E; rewrite E in Ho).
    destruct (peek_rev p ns base (length ns - 1) Ep ltac:(lia)) as (n & _ & ->). cbn [ebind].
    destruct (mp_parse_node_get_int_maybe n) as [a|]; [|done]. destruct (length ns) as [|[|l]] eqn:El; [done|done|].
    cbn [Nat.sub]. rewrite Nat.sub_0_r. eapply fold_term_ok; [done|done|lia|].
    rewrite El. by replace (S (S l) - 1 - l)%nat with 1%nat by lia. }
  destruct r; try done; try (by apply Ht); try (by apply Hb).
  destruct Hf as (t & n & -> & [op Hop]). unfold fold_int.
  destruct (peek_rev p [PN_TOKEN t; n] base 0 Ep ltac:(cbn; lia)) as (n' & E1 & ->). cbn in E1. simplify_eq.
  destruct (peek_rev p [PN_TOKEN t; n'] base 1 Ep ltac:(cbn; lia)) as (t' & E2 & ->). cbn in E2. simplify_eq.
  cbn [ebind leaf_token]. destruct (mp_parse_node_get_int_maybe n'); [|done]. rewrite Hop. cbn [or_fault ebind].
  by destruct (mp_unary_op _ _) as [[]|].
Qed.

(** ** Tuples *)

Lemma all_const_ok ns : Forall node_wf ns -> no_fault (all_const ns).
Proof.
  induction 1 as [|n ns Hn _ IH]; [done|]. cbn [all_const]. apply no_fault_bind; [by apply is_const_ok|]. by intros [].
Qed.

Lemma convert_all_ok ns : all_const ns = inr true -> no_fault (convert_all ns).
Proof.
  induction ns as [|n ns IH]; [done|]. cbn [all_const convert_all].
  destruct (mp_parse_node_is_const n) as [|[]] eqn:E; cbn [ebind]; try done. intros Hc.
  apply no_fault_bind; [by apply convert_ok|]. intros o _. apply no_fault_bind; [by apply IH|done].
Qed.

(** A tuple takes the place of its items, or nothing changes. *)
Lemma tuple_ok p line ns base : result_stack p = rev ns ++ base -> Forall node_wf ns ->
  match build_tuple_from_stack p line (length ns) with
  | inl e => is_crash e = false
  | inr (p', true) => exists items, p' = with_results p (PN_CONST line (O_TUPLE items) :: base)
  | inr (p', false) => p' = p
  end.
Proof.
  intros Ep Hw. unfold build_tuple_from_stack. rewrite (pop_rev p ns base Ep). cbn [ebind].
  pose proof (all_const_ok ns Hw) as Hc. destruct (all_const ns) as [e|[]] eqn:E; cbn [ebind]; [done|..|done].
  pose proof (convert_all_ok ns E) as Hv. destruct (convert_all ns) as [e|items]; cbn [ebind]; [done|]. by exists items.
Qed.

(** ** Constants defined by a statement *)

Lemma store_const_ok p s v : dict_ok (consts p) -> const_of p s = None ->
  exists m, store_const p s v = inr (with_consts p m) /\ dict_ok m.
Proof.
  intros Hd Hc. unfold store_const. destruct (lookup_add (consts p) {| qstr_text := s |} (dict_map _ Hd)) as (m & pos & -> & Ha).
  cbn [or_fault ebind]. pose proof Ha as (_ & (a & w & -> & _ & Ew) & _). cbn [or_fault ebind].
  rewrite (assoc_item _ _ Hd) in Ew. unfold const_of in Hc. rewrite Hc in Ew. subst w. cbn [HashMap.value default assert ebind].
  eexists. split; [done|]. by apply (added_stored (consts p) {| qstr_text := s |} m pos v).
Qed.

(** The names an assignment of a constant reads. *)
Lemma const_assignment_ok (pn0 pn1 : node) : node_wf pn1 ->
  match const_assignment pn0 pn1 with
  | inl e => is_crash e = false
  | inr None => True
  | inr (Some (s, _, v)) => pn0 = PN_ID s /\ node_wf v
  end.
Proof.
  intros Hw. destruct pn0 as [| |s| | | |]; try done. destruct pn1 as [| | | | | |line r nodes]; try done.
  destruct r; try done. cbn [const_assignment]. inversion Hw as [| | |l r ns Ha Hf]; [done|subst].
  apply (arity_and RULE_atom_expr_normal _ _ _ _ eq_refl) in Ha; [|done]. apply two_nodes in Ha as (n & m & ->).
  cbn [or_fault ebind lookup list_lookup]. destruct n; try done. case_bool_decide; [|done].
  destruct m as [| | | | | |line' r args]; try done. destruct r; try done.
  inversion Hf as [|? ? _ Hf']; subst. inversion Hf' as [|? ? Hm _]; subst. inversion Hm as [| | |l r ns Ha Hf'']; [done|subst].
  apply (arity_and RULE_trailer_paren _ _ _ _ eq_refl) in Ha; [|done]. apply one_node in Ha as (v & ->).
  cbn [or_fault ebind lookup list_lookup]. split; [done|]. by inversion Hf''.
Qed.

Lemma push_pass_ok p line : push_result_rule p line RULE_pass_stmt 0 =
  inr (with_results p (PN_STRUCT line RULE_pass_stmt [] :: result_stack p)).
Proof. done. Qed.

(** The results, the rules and the lexer after a node is made. *)
Record made (p : parser) (base : list node) (p' : parser) (n : node) : Prop := {
  made_results : result_stack p' = n :: base;
  made_rules : rule_stack p' = rule_stack p;
  made_lexer : lexer p' = lexer p;
  made_consts : dict_ok (consts p');
}.

(** The statement [pass] as a node. *)
Definition pass_pushed (push_pass : parser -> perr parser) : Prop :=
  forall p, push_pass p = inr (with_results p (PN_STRUCT 0 RULE_pass_stmt [] :: result_stack p)).

Lemma fold_expr_ok push_pass p (n0 n1 : node) base :
  pass_pushed push_pass -> result_stack p = n1 :: n0 :: base -> node_wf n1 -> dict_ok (consts p) ->
  (forall s, n0 = PN_ID s -> const_of p s = None) ->
  match fold_expr_stmt push_pass p with
  | inl e => is_crash e = false
  | inr (p', true) => made p base p' (PN_STRUCT 0 RULE_pass_stmt [])
  | inr (p', false) => exists n, node_wf n /\ made p (n0 :: base) p' n
  end.
Proof.
  intros Hpass Ep Hw Hd Hn. unfold fold_expr_stmt, peek_result. rewrite Ep. cbn [lookup list_lookup or_fault ebind].
  assert (made p (n0 :: base) p n1) as Hm by (by split).
  destruct (_ && _); [|by exists n1].
  pose proof (const_assignment_ok n0 n1 Hw) as Ha.
  destruct (const_assignment n0 n1) as [e|[[[s line] v]|]]; cbn [ebind]; [done| |by exists n1]. destruct Ha as [E0 Hv].
  pose proof (is_const_ok v Hv) as Hc. destruct (mp_parse_node_is_const v) as [e|[]] eqn:Ec; cbn [ebind negb]; [done| |done].
  pose proof (convert_ok v Ec) as Hcv. destruct (mp_parse_node_convert_to_obj v) as [e|o]; cbn [ebind]; [done|].
  destruct (store_const_ok p s o Hd (Hn s E0)) as (m & -> & Hdm). cbn [ebind].
  unfold pop_result. cbn [result_stack with_consts]. rewrite Ep. cbn [ebind with_results result_stack].
  case_bool_decide; [rewrite Hpass; cbn [ebind]; by split|]. exists v. split; [done|]. by split.
Qed.

(** ** Nodes of rules *)

(** The node of a rule with these arguments. *)
Lemma struct_ok r p line ns : special r = false -> arity r (length ns) -> Forall node_wf ns ->
  node_ok r p (PN_STRUCT line r ns).
Proof. intros Hs Ha Hw. split; [by constructor|by destruct r|by destruct r|done]. Qed.

(** A rule that folds nothing of its own makes a node of its arguments. *)
Definition has_own_case (r : rule_id) : bool :=
  match r with
  | RULE_or_test | RULE_and_test | RULE_not_test_2 | RULE_expr_stmt | RULE_testlist_comp | RULE_testlist_star_expr
  | RULE_testlist | RULE_subscriptlist => true
  | _ => false
  end.

Lemma folded_int p r line base o : dict_ok (consts p) -> is_op_rule r = false ->
  made p base (push_result_node (with_results p base) (make_node_const_object_optimised line o)) (make_node_const_object_optimised line o) /\
  node_ok r (push_result_node (with_results p base) (make_node_const_object_optimised line o)) (make_node_const_object_optimised line o).
Proof.
  intros Hd Hr. destruct (made_node line o) as (Hw & Hp & Hi). split; [by split|]. split; [done|done|by rewrite Hr|].
  intros _ s E. by destruct (Hi s).
Qed.

Lemma arity_op r k : arity r k -> is_op_rule r = false.
Proof. by destruct r. Qed.

(** What making the node of [r] gives. *)
Definition makes (r : rule_id) p base (m : perr parser) : Prop :=
  match m with
  | inl e => is_crash e = false
  | inr p' => exists n, made p base p' n /\ node_ok r p' n /\ (r <> RULE_expr_stmt -> consts p' = consts p)
  end.

Lemma fold_default push_pass p line r ns base :
  state_ok p -> result_stack p = rev ns ++ base -> Forall node_wf ns -> special r = false -> has_own_case r = false ->
  arity r (length ns) -> foldable r ns ->
  makes r p base (fold_or_push push_pass p line r (length ns)).
Proof.
  intros Hp Ep Hw Hs Ho Ha Hf. pose proof (arity_op _ _ Ha) as Hop. unfold fold_or_push, makes.
  assert (fold_logical_constants p r (length ns) = inr (p, length ns, false)) as -> by (by destruct r).
  cbn [ebind].
  assert (fold_constants push_pass p r (length ns) =
    (x ←e fold_int p r (length ns);
     match x with
     | None => inr (p, false)
     | Some arg0 =>
         '(_, p) ←e pop_results p (length ns);
         inr (push_result_node p (make_node_const_object_optimised 0 (O_INT arg0)), true)
     end)) as -> by (by destruct r).
  pose proof (fold_int_ok p r ns base Ep Hf) as Hn. destruct (fold_int p r (length ns)) as [e|[o|]]; cbn [ebind].
  - done.
  - rewrite (pop_rev p ns base Ep). cbn [ebind]. eexists.
    destruct (folded_int p r 0 base (O_INT o) (proj2 Hp) Hop). eauto.
  - assert (build_tuple p line r (length ns) = inr (p, false)) as -> by (by destruct r). cbn [ebind].
    rewrite (pop_rev p ns base Ep). cbn [ebind]. rewrite bool_decide_false by (by intros ->). cbn [push_result_node].
    exists (PN_STRUCT line r ns). split; [split; try done; apply Hp|]. split; [|done]. by apply struct_ok.
Qed.

(** The end of the rule, after folding. *)
Lemma push_struct_ok p line r ns base :
  result_stack p = rev ns ++ base -> dict_ok (consts p) -> Forall node_wf ns -> special r = false -> arity r (length ns) ->
  makes r p base ('(nodes, p) ←e pop_results p (length ns);
    let pn := PN_STRUCT line r nodes in
    let p := if bool_decide (r = RULE_testlist_comp_3c) then push_result_node p pn else p in
    inr (push_result_node p pn)).
Proof.
  intros Ep Hd Hw Hs Ha. rewrite (pop_rev p ns base Ep). cbn [ebind]. rewrite bool_decide_false by (by intros ->).
  exists (PN_STRUCT line r ns). split; [by split|]. split; [|done]. by apply struct_ok.
Qed.

Lemma fold_logical_rule push_pass p line r ns base :
  state_ok p -> result_stack p = rev ns ++ base -> Forall node_wf ns -> is_logical r = true ->
  arity r (length ns) -> Forall plain_node ns -> (forall s, PN_ID s ∈ ns -> const_of p s = None) ->
  makes r p base (fold_or_push push_pass p line r (length ns)).
Proof.
  intros Hp Ep Hw Hl Ha Hpl Hn. unfold fold_or_push. assert (1 <= length ns)%nat as Hlen by (by destruct r).
  assert (ns <> []) as Hne by (intros ->; cbn in Hlen; lia).
  rewrite (fold_logical_ok p r ns base Ep Hl Hne). pose proof (fold_spec_ok (bool_decide (r = RULE_or_test)) ns Hw) as Hf.
  destruct (fold_spec _ ns) as [e|kept] eqn:Ek; cbn [ebind]; [done|].
  destruct (fold_spec_sub _ _ _ Ek) as [Hsub Hk]. specialize (Hk Hne).
  destruct (Nat.eqb_spec (length kept) 1) as [E|E].
  - destruct (one_node kept E) as [n ->]. assert (n ∈ ns) as Hi by (apply Hsub; left).
    rewrite list.Forall_forall in Hw, Hpl. exists n. split; [split; try done; apply Hp|]. split; [|done].
    split; [by apply Hw|by apply Hpl|by destruct r|]. intros _ s ->. by apply Hn.
  - assert (fold_constants push_pass (with_results p (rev kept ++ base)) r (length kept) =
      inr (with_results p (rev kept ++ base), false)) as -> by (by destruct r). cbn [ebind].
    assert (build_tuple (with_results p (rev kept ++ base)) line r (length kept) =
      inr (with_results p (rev kept ++ base), false)) as -> by (by destruct r). cbn [ebind].
    assert (makes r (with_results p (rev kept ++ base)) base ('(nodes, p) ←e pop_results (with_results p (rev kept ++ base)) (length kept);
      let pn := PN_STRUCT line r nodes in
      let p := if bool_decide (r = RULE_testlist_comp_3c) then push_result_node p pn else p in
      inr (push_result_node p pn))) as Hm.
    { apply push_struct_ok; [done|apply Hp| |by destruct r|].
      - rewrite list.Forall_forall in *. intros n Hi. by apply Hw, Hsub.
      - assert (1 <= length kept)%nat by (destruct kept; [done|cbn; lia]). by destruct r. }
    unfold makes in *. destruct (ebind _ _); [done|]. destruct Hm as (n & [Hm1 Hm2 Hm3 Hm4] & ? & ?). exists n. by split.
Qed.

Lemma fold_tuple_rule push_pass p line r ns base :
  state_ok p -> result_stack p = rev ns ++ base -> Forall node_wf ns -> arity r (length ns) ->
  r = RULE_testlist_star_expr \/ r = RULE_testlist \/ r = RULE_subscriptlist ->
  makes r p base (fold_or_push push_pass p line r (length ns)).
Proof.
  intros Hp Ep Hw Ha Hr. unfold fold_or_push.
  assert (fold_logical_constants p r (length ns) = inr (p, length ns, false)) as -> by (by destruct Hr as [->|[->| ->]]). cbn [ebind].
  assert (fold_constants push_pass p r (length ns) = inr (p, false)) as -> by (by destruct Hr as [->|[->| ->]]). cbn [ebind].
  assert (build_tuple p line r (length ns) = build_tuple_from_stack p line (length ns)) as -> by (by destruct Hr as [->|[->| ->]]).
  pose proof (tuple_ok p line ns base Ep Hw) as Ht.
  destruct (build_tuple_from_stack _ _ _) as [e|[p' []]]; cbn [ebind]; [done| |].
  - destruct Ht as [items ->]. destruct (const_node line (O_TUPLE items)) as [Hcw Hcp].
    exists (PN_CONST line (O_TUPLE items)). split; [split; try done; apply Hp|]. split; [|done].
    split; [done|done|by destruct Hr as [->|[->| ->]]|done].
  - subst p'. apply push_struct_ok; try done; [apply Hp|]. by destruct Hr as [->|[->| ->]].
Qed.

Lemma fold_not_rule push_pass p line (n : node) base :
  state_ok p -> result_stack p = n :: base -> node_wf n ->
  makes RULE_not_test_2 p base (fold_or_push push_pass p line RULE_not_test_2 1).
Proof.
  intros Hp Ep Hw. unfold fold_or_push, fold_logical_constants, peek_result, pop_result. rewrite Ep.
  cbn [lookup list_lookup or_fault ebind].
  assert (forall k, makes RULE_not_test_2 p base (inr (push_result_node (with_results p base) (PN_TOKEN k)))) as Hk.
  { intros k. exists (PN_TOKEN k). split; [split; try done; apply Hp|]. split; [|done]. split; [by constructor|done|done|done]. }
  pose proof (is_const_bool_ok n false Hw) as Hf. unfold mp_parse_node_is_const_false, mp_parse_node_is_const_true.
  destruct (parse_node_is_const_bool n false) as [e|[]]; cbn [ebind]; [done|apply Hk|].
  pose proof (is_const_bool_ok n true Hw) as Ht.
  destruct (parse_node_is_const_bool n true) as [e|[]]; cbn [ebind]; [done|apply Hk|].
  cbn [fold_constants fold_int ebind build_tuple].
  apply (push_struct_ok p line RULE_not_test_2 [n]); [done|apply Hp|by constructor|done|by left].
Qed.

Lemma fold_expr_rule push_pass p line (n0 n1 : node) base :
  pass_pushed push_pass -> state_ok p -> result_stack p = n1 :: n0 :: base -> node_wf n0 -> node_wf n1 ->
  (forall s, n0 = PN_ID s -> const_of p s = None) ->
  makes RULE_expr_stmt p base (fold_or_push push_pass p line RULE_expr_stmt 2).
Proof.
  intros Hpass Hp Ep Hw0 Hw1 Hn. unfold fold_or_push. cbn [fold_logical_constants ebind fold_constants].
  pose proof (fold_expr_ok push_pass p n0 n1 base Hpass Ep Hw1 (proj2 Hp) Hn) as He.
  destruct (fold_expr_stmt push_pass p) as [e|[p' []]]; cbn [ebind]; [done| |].
  - exists (PN_STRUCT 0 RULE_pass_stmt []). split; [done|]. split; [|done].
    split; [|done|done|done]. constructor; [by left|constructor].
  - destruct He as (n & Hw & [Hm1 Hm2 Hm3 Hm4]). cbn [build_tuple ebind].
    pose proof (push_struct_ok p' line RULE_expr_stmt [n0; n] base Hm1 Hm4) as Hs.
    assert (Forall node_wf [n0; n]) as Hw2 by (constructor; [done|by constructor]).
    specialize (Hs Hw2 eq_refl (or_introl eq_refl)). unfold makes in *. destruct (ebind _ _) as [e|p'']; [done|].
    destruct Hs as (m & [Hs1 Hs2 Hs3 Hs4] & Hok & _). exists m. split; [|done].
    split; congruence.
Qed.

(** The arguments of a rule, as the grammar gives them. *)
Record rule_nodes (r : rule_id) p ns : Prop := {
  nodes_wf : Forall node_wf ns;
  nodes_plain : Forall (fun n => is_null n = true \/ plain_node n) ns;
  nodes_logical : is_logical r = true -> Forall plain_node ns;
  nodes_names : is_logical r = true \/ r = RULE_atom_paren \/ r = RULE_expr_stmt ->
    forall s, head ns = Some (PN_ID s) \/ PN_ID s ∈ ns /\ r <> RULE_expr_stmt -> const_of p s = None;
  nodes_fold : foldable r ns;
}.

Lemma push_rule_ok p line r ns base :
  state_ok p -> result_stack p = rev ns ++ base -> special r = false -> r <> RULE_testlist_comp ->
  arity r (length ns) -> rule_nodes r p ns -> makes r p base (push_result_rule p line r (length ns)).
Proof.
  intros Hp Ep Hs Hc Ha [Hw Hpl Hl Hn Hf]. unfold push_result_rule, push_result_rule_with at 1.
  set (pass := fun p => _). assert (pass_pushed pass) as Hpass by done.
  assert (r <> RULE_atom_paren -> simplify_rule p r (length ns) = inr (p, Some (length ns))) as Hsimp by (by destruct r).
  destruct (is_logical r) eqn:Hlog.
  { rewrite Hsimp by (by intros ->). cbn [ebind]. apply fold_logical_rule; auto. intros s Hi. apply Hn; [by left|].
    right. split; [done|]. by intros ->. }
  destruct (decide (r = RULE_not_test_2)) as [->|].
  { rewrite (Hsimp ltac:(done)). cbn [ebind]. pose proof (arity_and RULE_not_test_2 _ _ _ _ eq_refl Hc Ha) as El.
    destruct (one_node ns El) as [n ->]. apply (fold_not_rule _ _ _ n); [done|done|]. by inversion Hw. }
  destruct (decide (r = RULE_expr_stmt)) as [->|].
  { rewrite (Hsimp ltac:(done)). cbn [ebind]. pose proof (arity_and RULE_expr_stmt _ _ _ _ eq_refl Hc Ha) as El.
    destruct (two_nodes ns El) as (n0 & n1 & ->). inversion Hw as [|? ? Hw0 Hw']; subst. inversion Hw'; subst.
    apply (fold_expr_rule _ _ _ n0 n1); try done. intros s ->. apply Hn; [by right; right|by left]. }
  destruct (decide (r = RULE_testlist_star_expr \/ r = RULE_testlist \/ r = RULE_subscriptlist)) as [Ht|Ht].
  { rewrite Hsimp by (by intros ->; destruct Ht as [?|[?|?]]). cbn [ebind]. by apply fold_tuple_rule. }
  assert (has_own_case r = false) as Ho by (destruct r; try done; tauto).
  destruct (decide (r = RULE_atom_paren)) as [->|]; [|rewrite Hsimp by done; cbn [ebind]; by apply fold_default].
  pose proof (arity_and RULE_atom_paren _ _ _ _ eq_refl Hc Ha) as El. destruct (one_node ns El) as [x ->].
  unfold simplify_rule, peek_result. rewrite Ep. cbn [rev app lookup list_lookup or_fault ebind].
  destruct (is_null x || is_struct_kind x RULE_testlist_comp) eqn:En; cbn [ebind]; [by apply (fold_default pass p line RULE_atom_paren [x])|].
  apply orb_false_iff in En as [En _]. exists x. split; [by split; try apply Hp|]. split; [|done].
  inversion Hw; inversion Hpl as [|? ? [E|Hpn]]; subst; [by rewrite E in En|].
  split; [done|done|done|]. intros _ s ->. apply Hn; [by right; left|by left].
Qed.

(** ** The parts of [(a, b)] *)

Lemma push_3b_ok p line base : result_stack p = PN_NULL :: base ->
  push_result_rule p line RULE_testlist_comp_3b 1 = inr (with_results p (PN_STRUCT line RULE_testlist_comp_3b [PN_NULL] :: base)).
Proof. intros Ep. unfold push_result_rule, push_result_rule_with, fold_or_push. cbn. unfold pop_results. by rewrite Ep. Qed.

Lemma push_3c_ok p line a ns base f0 f1 below :
  dict_ok (consts p) -> result_stack p = rev ns ++ a :: base -> rule_stack p = f0 :: f1 :: below -> below <> [] ->
  rule_of f0 = RULE_testlist_comp_3b -> rule_of f1 = RULE_testlist_comp -> Forall node_wf (a :: ns) ->
  match push_result_rule p line RULE_testlist_comp_3c (length ns) with
  | inl e => is_crash e = false
  | inr p' =>
      lexer p' = lexer p /\ consts p' = consts p /\
      ((exists items, rule_stack p' = below /\ result_stack p' = PN_CONST line (O_TUPLE items) :: base) \/
       (rule_stack p' = rule_stack p /\ exists n, n = PN_STRUCT line RULE_testlist_comp_3c (a :: ns) /\ result_stack p' = n :: n :: base))
  end.
Proof.
  intros Hd Ep Er Hb E0 E1 Hw. unfold push_result_rule, push_result_rule_with at 1. cbn [simplify_rule ebind].
  unfold fold_or_push. cbn [fold_logical_constants ebind fold_constants fold_int build_tuple].
  assert (result_stack p = rev (a :: ns) ++ base) as Ep' by (cbn [rev]; by rewrite <- (assoc_L app)).
  assert (length ns + 1 = length (a :: ns))%nat as -> by (cbn; lia).
  unfold peek_rule. rewrite Er. cbn [lookup list_lookup fmap option_fmap option_map or_fault ebind]. rewrite E0, E1.
  rewrite !bool_decide_true by done. cbn [assert ebind].
  destruct below as [|f2 below]; [done|]. cbn [lookup list_lookup fmap option_fmap option_map or_fault ebind].
  assert (match '(nodes, p0) ←e pop_results p (length (a :: ns));
     inr (push_result_node (push_result_node p0 (PN_STRUCT line RULE_testlist_comp_3c nodes)) (PN_STRUCT line RULE_testlist_comp_3c nodes)) with
    | inl e => is_crash e = false
    | inr p' => lexer p' = lexer p /\ consts p' = consts p /\
      ((exists items, rule_stack p' = f2 :: below /\ result_stack p' = PN_CONST line (O_TUPLE items) :: base) \/
       (rule_stack p' = f0 :: f1 :: f2 :: below /\ exists n, n = PN_STRUCT line RULE_testlist_comp_3c (a :: ns) /\ result_stack p' = n :: n :: base))
    end) as Hs.
  { rewrite (pop_rev p _ base Ep'). cbn. split_and!; [done|done|]. right. split; [done|]. by eexists. }
  case_bool_decide; [|exact Hs].
  pose proof (tuple_ok p line _ base Ep' Hw) as Ht. destruct (build_tuple_from_stack _ _ _) as [e|[p' []]]; cbn [ebind]; [done| |].
  - destruct Ht as [items ->]. cbn. rewrite Er. split_and!; [done|done|]. left. by eexists.
  - subst p'. exact Hs.
Qed.

(** The node of the second part of [testlist_comp]: an ordinary one, the mark of a
    trailing comma, or the items after the first, which are then twice on the
    stack. *)
Definition comp_tail (a n : node) : Prop :=
  plain_node n /\ plain_node a \/
  (exists line, n = PN_STRUCT line RULE_testlist_comp_3b [PN_NULL]) /\ plain_node a \/
  (exists line nodes, n = PN_STRUCT line RULE_testlist_comp_3c nodes) /\ a = n.

Lemma fold_comp_rule push_pass p line ns base :
  state_ok p -> result_stack p = rev ns ++ base -> Forall node_wf ns -> (1 <= length ns)%nat -> rule_stack p <> [] ->
  makes RULE_testlist_comp p base (fold_or_push push_pass p line RULE_testlist_comp (length ns)).
Proof.
  intros Hp Ep Hw Hl Hr. unfold fold_or_push. cbn [fold_logical_constants ebind fold_constants fold_int build_tuple].
  assert (makes RULE_testlist_comp p base ('(nodes, p) ←e pop_results p (length ns);
     inr (push_result_node p (PN_STRUCT line RULE_testlist_comp nodes)))) as Hs.
  { apply (push_struct_ok p line RULE_testlist_comp ns base Ep); [apply Hp|done|done|]. right. by split. }
  unfold peek_rule. destruct (rule_stack p) as [|f fs] eqn:Er; [done|]. cbn [lookup list_lookup fmap option_fmap option_map or_fault ebind].
  destruct (bool_decide (rule_of f = RULE_atom_paren)); [|exact Hs].
  pose proof (tuple_ok p line ns base Ep Hw) as Ht. destruct (build_tuple_from_stack _ _ _) as [e|[p' []]]; cbn [ebind]; [done| |].
  - destruct Ht as [items ->]. destruct (const_node line (O_TUPLE items)) as [Hcw Hcp].
    exists (PN_CONST line (O_TUPLE items)). split; [split; try done; apply Hp|]. split; [|done]. by split.
  - subst p'. exact Hs.
Qed.

Lemma push_comp_ok p line (a n : node) base :
  state_ok p -> result_stack p = n :: a :: base -> node_wf a -> node_wf n -> comp_tail a n -> rule_stack p <> [] ->
  makes RULE_testlist_comp p base (push_result_rule p line RULE_testlist_comp 2).
Proof.
  intros Hp Ep Ha Hn Ht Hr. unfold push_result_rule, push_result_rule_with at 1. set (pass := fun p => _).
  unfold simplify_rule, peek_result. rewrite Ep. cbn [Nat.eqb assert ebind lookup list_lookup or_fault].
  assert (Forall node_wf [a]) as Hw1 by (by constructor). assert (Forall node_wf [a; n]) as Hw2 by (constructor; [done|by constructor]).
  destruct Ht as [[Hpn Hpa]|[[[l ->] Hpa]|[(l & nodes & ->) ->]]].
  - assert (match n with
      | PN_STRUCT _ RULE_testlist_comp_3b _ => '(_, p) ←e pop_result p; inr (p, Some (2 - 1)%nat)
      | PN_STRUCT _ RULE_testlist_comp_3c _ =>
          '(_, p) ←e pop_result p; '(pn, p) ←e pop_result p;
          match pn with
          | PN_STRUCT line RULE_testlist_comp_3c nodes => inr (push_result_node p (PN_STRUCT line RULE_testlist_comp nodes), None)
          | _ => inl FAULT
          end
      | _ => inr (p, Some 2%nat) end = inr (p, Some 2%nat)) as ->.
    { destruct n as [| | | | | |l r ns]; try done. destruct Hpn as (_ & E1 & E2). destruct r; done. }
    cbn [ebind]. apply (fold_comp_rule pass p line [a; n]); try done. cbn. lia.
  - cbn [Nat.sub ebind]. unfold pop_result. rewrite Ep. cbn [ebind].
    assert (state_ok (with_results p (a :: base))) as Hp' by exact Hp.
    pose proof (fold_comp_rule pass (with_results p (a :: base)) line [a] base Hp' eq_refl Hw1 ltac:(cbn; lia) Hr) as Hm.
    unfold makes in *. destruct (fold_or_push _ _ _ _ _); [done|]. destruct Hm as (m & [Hm1 Hm2 Hm3 Hm4] & ? & ?). exists m. by split.
  - unfold pop_result. rewrite Ep. cbn [ebind result_stack with_results].
    exists (PN_STRUCT l RULE_testlist_comp nodes). split; [split; try done; apply Hp|]. split; [|done].
    inversion Hn as [| | |l' r' ns' Har Hf]; [done|subst]. apply struct_ok; [done|right; by split|done].
Qed.

End nodes.
