(* ===== verification/ParseRule.v ===== *)
(** Trying a rule in [Parse]: from any state the run comes back with the rule
    matched and its node on the stack, or with the state as it was, or ends with
    an exception. *)

From Stdlib Require Import ZArith Lia.
From stdpp Require Import base option list numbers sets.
From S2P Require Import Prelude IntObj Lexer IntText HashMap HashTable HashSpec HashProps Qstr Grammar Parse ParseSpec ParseRun ParseNodes.

(** * Derivations *)

Lemma derives_args_app args1 args2 v w : derives_args args1 v -> derives_args args2 w -> derives_args (args1 ++ args2) (v ++ w).
Proof.
  revert v. induction args1 as [|a args1 IH]; intros v Hv Hw; inversion Hv; subst; [done|].
  cbn [app]. rewrite <- (assoc_L app). constructor; [done|by apply IH].
Qed.

Lemma derives_args_snoc args a v w : derives_args args v -> derives_arg a w -> derives_args (args ++ [a]) (v ++ w).
Proof.
  intros Hv Hw. apply derives_args_app; [done|]. rewrite <- (app_nil_r w). constructor; [done|constructor].
Qed.

(** Before an argument the rule may start with, all are optional. *)
Lemma leading_lookup args i a r : forallb is_opt (take i args) = true -> args !! i = Some a -> arg_rule a = Some r ->
  r ∈ leading args.
Proof.
  revert i. induction args as [|b args IH]; intros [|i] Ho Ea Er; try done; cbn in *.
  - simplify_eq. destruct a; simplify_eq/=; by left.
  - apply andb_true_iff in Ho as [Hb Ho]. destruct b; try done. right. by eapply IH.
Qed.

Section rules.
Context {L F : Type} `{TokenLaws L} `{FloatLiterals F}.
Context (input_kind : mp_parse_input_kind_t).

Abbreviation parser := (parser_t L F).
Abbreviation node := (parse_node F).
Abbreviation comes_to := (comes_to input_kind).
Abbreviation then_loop := (then_loop input_kind).

Implicit Types p q : parser.
Implicit Types ns base : list node.

(** * Definitions *)

(** No argument of the rule defines a constant. *)
Definition stable (r : rule_id) : bool := all_args pure r.

(** What is kept of the node of an argument while the others are matched. *)
Definition fits (st : bool) (r : rule_id) p (n : node) : Prop :=
  node_wf n /\ plain_node n /\
  (is_op_rule r = true -> exists k, n = PN_TOKEN k /\ tok k ∈ rule_args r) /\
  (st = true -> id_safe r = true -> forall s, n = PN_ID s -> const_of p s = None).

(** The nodes of one argument. *)
Definition arg_node (st : bool) p (a : rule_arg) (l : list node) : Prop :=
  match a with
  | tok t => if bool_decide (t = MP_TOKEN_NAME) then exists s, l = [PN_ID s] else l = []
  | rule r => exists n, l = [n] /\ fits st r p n
  | opt_rule r => exists n, l = [n] /\ (n = PN_NULL \/ fits st r p n)
  end.

Definition arg_nodes (st : bool) p (args : list rule_arg) ns : Prop :=
  exists ls, Forall2 (arg_node st p) args ls /\ ns = concat ls.

(** The arguments [args] of [r] are matched since [p0]. *)
Record progress (r : rule_id) p0 (args : list rule_arg) (w : list mp_token_kind_t) ns p : Prop := {
  progress_moved : moved p0 w p;
  progress_results : result_stack p = rev ns ++ result_stack p0;
  progress_derives : derives_args args w;
  progress_nodes : arg_nodes (stable r) p args ns;
  progress_left : (left (lexer p) < left (lexer p0))%nat \/ left (lexer p) = left (lexer p0) /\ forallb is_opt args = true;
  progress_consts : stable r = true -> consts p = consts p0;
  progress_start : args = [] -> p = p0;
}.

(** The rule below is there when the rule looks at it. *)
Definition ctx_ok (r : rule_id) p : Prop := needs_parent r = true -> rule_stack p <> [].

(** The rules that are tried by the theorem: the parts of [(a, b)] are tried with
    the rule they belong to. *)
Definition ordinary (r : rule_id) : Prop := special r = false /\ r <> RULE_const_object.

(** The induction: rules are tried with fewer tokens left, or the same and a
    smaller rank. *)
Definition smaller_ok (r0 : rule_id) p0 : Prop := forall r p,
  ordinary r -> state_ok p -> ctx_ok r p ->
  (left (lexer p) < left (lexer p0))%nat \/ left (lexer p) = left (lexer p0) /\ (rank r < rank r0)%nat ->
  comes_to (tries input_kind r p) (rule_outcome r p).

(** * Progress *)

Lemma fits_consts st r p q n : (st = true -> consts q = consts p) -> fits st r p n -> fits st r q n.
Proof.
  intros E (Hw & Hp & Ho & Hn). split_and!; [done|done|done|]. intros Hst Hr s Es.
  unfold const_of. rewrite (E Hst). by apply Hn.
Qed.

Lemma arg_nodes_consts st p q args ns : (st = true -> consts q = consts p) -> arg_nodes st p args ns -> arg_nodes st q args ns.
Proof.
  intros E (ls & Hf & ->). exists ls. split; [|done]. eapply Forall2_impl; [exact Hf|]. intros a l. unfold arg_node.
  destruct a as [t|r|r]; [done|..].
  - intros (n & -> & Hn). exists n. split; [done|]. by eapply fits_consts.
  - intros (n & -> & Hn). exists n. split; [done|]. destruct Hn as [?|Hn]; [by left|right]. by eapply fits_consts.
Qed.

Lemma arg_nodes_snoc st p args ns a l : arg_nodes st p args ns -> arg_node st p a l -> arg_nodes st p (args ++ [a]) (ns ++ l).
Proof.
  intros (ls & Hf & ->) Ha. exists (ls ++ [l]). split; [by apply Forall2_app; [|constructor]|].
  by rewrite concat_app; cbn; rewrite app_nil_r.
Qed.

Lemma node_fits r st p n : node_ok r p n -> fits st r p n.
Proof. intros [? ? ? ?]. by split_and!. Qed.

Lemma progress_nil r p0 : state_ok p0 -> progress r p0 [] [] [] p0.
Proof.
  intros Hp. split; [by apply moved_refl|done|constructor| |by right|done|done]. exists []. split; [constructor|done].
Qed.

(** A token of the rule is read. *)
Lemma progress_tok r p0 args w ns p t p' ns' : progress r p0 args w ns p ->
  moved p [t] p' -> (left (lexer p') < left (lexer p))%nat -> consts p' = consts p ->
  result_stack p' = rev ns' ++ result_stack p -> arg_node (stable r) p (tok t) ns' ->
  progress r p0 (args ++ [tok t]) (w ++ [t]) (ns ++ ns') p'.
Proof.
  intros [Hm Hr Hd Hn Hl Hc Hs] Hm' Hl' Hc' Hr' Ha. split.
  - by eapply moved_trans.
  - by rewrite Hr', Hr, rev_app_distr, (assoc_L app).
  - apply derives_args_snoc; [done|constructor].
  - apply (arg_nodes_consts _ p); [done|]. by apply arg_nodes_snoc.
  - left. lia.
  - intros Hst. rewrite Hc'. auto.
  - by destruct args.
Qed.

(** A rule that is an argument is matched. *)
Lemma progress_rule r p0 args w ns p a r' q : progress r p0 args w ns p -> a ∈ rule_args r -> arg_rule a = Some r' ->
  matched r' p q -> exists v n, progress r p0 (args ++ [a]) (w ++ v) (ns ++ [n]) q.
Proof.
  intros [Hm Hr Hd Hn Hl Hc Hs] Hin Ha (v & n & Hm' & Hd' & Hr' & Hok & Hl' & Hp'). exists v, n.
  specialize (Hl' (args_not_empty r a r' Hin Ha)).
  assert (stable r = true -> consts q = consts p) as Hcq.
  { intros Hst. apply Hp'. by apply (all_args_spec pure r Hst a). }
  split.
  - by eapply moved_trans.
  - by rewrite Hr', Hr, rev_app_distr.
  - apply derives_args_snoc; [done|]. destruct a; simplify_eq/=; by constructor.
  - apply arg_nodes_snoc; [by eapply arg_nodes_consts|]. destruct a; simplify_eq/=; exists n; (split; [done|]).
    + by apply node_fits.
    + right. by apply node_fits.
  - left. lia.
  - intros Hst. rewrite Hcq; auto.
  - by destruct args.
Qed.

(** An optional rule is not matched. *)
Lemma progress_absent r p0 args w ns p r' : progress r p0 args w ns p ->
  progress r p0 (args ++ [opt_rule r']) w (ns ++ [PN_NULL]) (push_result_node p PN_NULL).
Proof.
  intros [Hm Hr Hd Hn Hl Hc Hs]. split.
  - by apply moved_results.
  - cbn. by rewrite Hr, rev_app_distr.
  - rewrite <- (app_nil_r w). apply derives_args_snoc; [done|constructor].
  - apply (arg_nodes_consts _ p); [done|]. apply arg_nodes_snoc; [done|]. exists PN_NULL. split; [done|]. by left.
  - cbn. destruct Hl as [Hl|[Hl Ho]]; [by left|right]. split; [done|]. by rewrite forallb_app, Ho.
  - done.
  - by destruct args.
Qed.

(** ** Frames *)

Lemma with_rules_push p line r i : with_rules (push_rule p line r i) (rule_stack p) = p.
Proof. by destruct p. Qed.

(** A rule is tried from the frame of another. *)
Lemma call_ok p line r i a r' Q : state_ok p -> arg_rule a = Some r' ->
  (forall p1, state_ok p1 -> rule_stack p1 <> [] -> lexer p1 = lexer p -> comes_to (tries input_kind r' p1) (rule_outcome r' p1)) ->
  (forall q, matched r' p q ->
    comes_to (then_loop (fun f => process_rule f input_kind q {| src_line := wrapu 24 line; rule_of := r; arg_i := i |} false)) Q) ->
  comes_to (then_loop (fun f => process_rule f input_kind p {| src_line := wrapu 24 line; rule_of := r; arg_i := i |} true)) Q ->
  comes_to (then_loop (fun _ => obind (fun p => goto_next_rule p false) (push_rule_from_arg (push_rule p line r i) a))) Q.
Proof.
  intros Hp Ha IH Hm Hf. set (p1 := push_rule p line r i).
  assert (push_rule_from_arg p1 a = inr (push_rule p1 (source_line (lexer p1)) r' 0)) as -> by (destruct a; by simplify_eq/=).
  cbn [obind]. eapply comes_goto; [done|]. eapply comes_bind; [apply (IH p1); try done; exact Hp|].
  intros p2 [] HP; cbn in HP.
  - subst p2. eapply comes_step; [done|]. unfold p1. rewrite with_rules_push. exact Hf.
  - destruct HP as (w & n & [Er Hs Hr Hl] & Hd & Hres & Hok & Hlt & Hpure).
    eapply comes_step; [by rewrite Er|]. apply Hm. exists w, n. split_and!; try done.
    + destruct Hok as [Hok1 Hok2 Hok3 Hok4]. by split.
Qed.

(** ** One of the arguments *)

Lemma or_matched r n r' p p' : rule_act_table r = ACT_OR n -> rule r' ∈ rule_args r -> matched r' p p' -> matched r p p'.
Proof.
  intros Er Hin (w & m & Hm & Hd & Hr & [Hw Hp Ho Hn] & Hl & Hpure). exists w, m. split_and!; try done.
  - econstructor; [done|done|by constructor].
  - split; [done|done| |].
    + intros Hop. destruct (op_rule_tokens r Hop) as (? & _ & Ht). by destruct (Ht _ Hin) as (t & [=] & _).
    + intros Hr'. apply Hn. exact (safe_or r n _ Er Hr' Hin).
  - intros _. apply Hl. by apply (args_not_empty r (rule r')).
  - intros Hr'. apply Hpure. by apply (args_pure r (rule r')).
Qed.

Lemma or_token_matched r n t p p' m : rule_act_table r = ACT_OR n -> tok t ∈ rule_args r -> tok_kind p = t ->
  moved p [t] p' -> (left (lexer p') < left (lexer p))%nat -> consts p' = consts p ->
  result_stack p' = m :: result_stack p -> token_node r p m -> matched r p p'.
Proof.
  intros Er Hin Et Hm Hl Hc Hr [Hw Hp Ho Hn]. exists [t], m. split_and!; try done.
  - econstructor; [done|done|constructor].
  - split; [done|done| |].
    + intros Hop. destruct (op_rule_tokens r Hop) as (? & _ & Ht). destruct (Ht _ Hin) as (t' & [= <-] & Hop').
      exists t. split; [|done]. rewrite <- Et. apply Ho. by rewrite Et.
    + intros Hr' s ->. destruct (Hn s eq_refl) as [Ek Ha]. unfold const_of. rewrite Hc. apply Ha.
      apply (safe_or r n _ Er Hr' Hin). congruence.
Qed.

Lemma or_ok r n p rule_arg : rule_act_table r = ACT_OR n -> ordinary r ->
  (forall i, (i < n)%nat -> rule_arg !! i = rule_args r !! i) -> get_rule_arg r = Some rule_arg ->
  state_ok p -> ctx_ok r p -> smaller_ok r p ->
  forall k line i, k = (n - i)%nat -> comes_to (then_loop (fun _ => act_or p line r rule_arg n k i)) (rule_outcome r p).
Proof.
  intros Er [Hord Hc] Harg Eget Hp Hctx IH k. pose proof (shape_ok r) as Hsh. unfold shape in Hsh. rewrite Er in Hsh.
  apply andb_true_iff in Hsh as [Hlen Hopt]. apply Nat.eqb_eq in Hlen. rewrite forallb_forall in Hopt.
  induction k as [|k IHk]; intros line i Ek; cbn [act_or].
  { eapply comes_goto; [done|]. by apply comes_now. }
  rewrite Harg by lia. destruct (rule_args r !! i) as [a|] eqn:Ea; [|apply lookup_ge_None in Ea; lia].
  assert (a ∈ rule_args r) as Hin by (by eapply list_elem_of_lookup_2).
  destruct a as [t|r'|r'].
  - case_bool_decide as Et; [|by apply IHk; lia].
    destruct (eat_token_ok p r true Hp) as (x & -> & Hx); [rewrite Et; by eapply args_token|]. cbn [mbind option_bind].
    destruct x as [e|p']; [by eapply comes_error|]. cbn [obind]. eapply comes_goto; [done|]. apply comes_now.
    destruct Hx as (Hm & Hl & Hcn & m & Hr & Hn). rewrite Et in Hm. by eapply or_token_matched.
  - assert (ordinary r') as Hord'.
    { split; [|by apply (args_known r (rule r'))]. apply (args_special r (rule r')); try done. by intros ->. }
    assert (r' ∈ first_args r) as Hfirst.
    { unfold first_args. rewrite Er. apply list_elem_of_omap. by exists (rule r'). }
    pose proof (first_args_rank r r' Hfirst) as Hrank.
    destruct (Nat.ltb_spec (i + 1) n) as [Hi|Hi].
    + apply (call_ok p line r (i + 1) (rule r') r'); [done|done| | |].
      * intros p1 Hp1 Hne El. apply IH; [done|done|by intros _|]. rewrite El. right. split; [done|lia].
      * intros q Hq. unfold process_rule. cbn [rule_of arg_i src_line]. rewrite Eget, Er.
        destruct (Nat.ltb_spec 0 (i + 1)); [|lia]. eapply comes_goto; [done|]. apply comes_now. by eapply or_matched.
      * unfold process_rule. cbn [rule_of arg_i src_line]. rewrite Eget, Er, andb_false_r.
        replace (n - (i + 1))%nat with k by lia. apply IHk. lia.
    + cbn [push_rule_from_arg obind]. eapply comes_goto; [done|].
      eapply comes_mono; [apply (IH r' p); [done|done| |]|].
      * intros Hn. apply Hctx. by apply (or_needs_parent r n (rule r') r').
      * right. split; [done|lia].
      * intros p' [] HP; cbn in *; [done|]. by eapply or_matched.
  - specialize (Hopt (opt_rule r') (proj1 (list_elem_of_In _ _) Hin)). done.
Qed.

(** ** The nodes of arguments *)

Lemma arg_nodes_length st p args ns : arg_nodes st p args ns -> length ns = length (filter (fun a => pushes a = true) args).
Proof.
  intros (ls & Hf & ->). induction Hf as [|a l args ls Ha _ IH]; [done|]. cbn [concat]. rewrite length_app, IH.
  destruct a as [t|r|r]; cbn in Ha.
  - rewrite list.filter_cons. cbn [pushes]. case_bool_decide; [destruct Ha as [s ->]|subst l]; by case_decide.
  - destruct Ha as (n & -> & _). by rewrite list.filter_cons_True.
  - destruct Ha as (n & -> & _). by rewrite list.filter_cons_True.
Qed.

(** Where a node comes from. *)
Lemma arg_nodes_elem st p args ns n : arg_nodes st p args ns -> n ∈ ns ->
  (exists s, n = PN_ID s /\ tok MP_TOKEN_NAME ∈ args) \/ (n = PN_NULL) \/
  (exists a r, a ∈ args /\ arg_rule a = Some r /\ fits st r p n).
Proof.
  intros (ls & Hf & ->) Hn. apply list_elem_of_In, in_concat in Hn as (l & Hl & Hn).
  apply list_elem_of_In, list_elem_of_lookup in Hl as [i Hl]. apply list_elem_of_In in Hn.
  destruct (Forall2_lookup_r _ _ _ _ _ Hf Hl) as (a & Ea & Ha). apply list_elem_of_lookup_2 in Ea.
  destruct a as [t|r|r]; cbn in Ha.
  - case_bool_decide; subst; [|by apply elem_of_nil in Hn]. destruct Ha as [s ->]. apply list_elem_of_singleton in Hn. eauto.
  - destruct Ha as (m & -> & Hm). apply list_elem_of_singleton in Hn as ->. right; right. by exists (rule r), r.
  - destruct Ha as (m & -> & Hm). apply list_elem_of_singleton in Hn as ->. destruct Hm as [?|Hm]; [auto|].
    right; right. by exists (opt_rule r), r.
Qed.

Lemma arg_nodes_wf st p args ns : arg_nodes st p args ns ->
  Forall node_wf ns /\ Forall (fun n => is_null n = true \/ plain_node n) ns.
Proof.
  intros Ha. rewrite !list.Forall_forall. split; intros n Hn;
    destruct (arg_nodes_elem _ _ _ _ _ Ha Hn) as [(s & -> & _)|[->|(a & r & _ & _ & Hw & Hp & _)]]; auto; constructor; done.
Qed.

Definition non_null ns : list node := filter (fun n => is_null n = false) ns.

Lemma non_null_app ns base : non_null (ns ++ base) = non_null ns ++ non_null base.
Proof. apply list.filter_app. Qed.

Lemma count_args_ok st p q base args : forall ns, arg_nodes st q args ns -> forall ns2 c,
  result_stack p = rev (ns ++ ns2) ++ base ->
  count_args p (rev args) (length ns2) c = inr ((length ns2 + length ns)%nat, (c + length (non_null ns))%nat).
Proof.
  induction args as [|a args IH] using rev_ind; intros ns (ls & Hf & ->) ns2 c Ep.
  { inversion Hf; subst. cbn. by rewrite !Nat.add_0_r. }
  apply Forall2_app_inv_l in Hf as (ls' & la & Hf & Hl & ->). apply Forall2_cons_inv_l in Hl as (l & ? & Ha & Hnil & ->).
  inversion Hnil; subst. rewrite concat_app in *. cbn [concat] in *. rewrite app_nil_r in *. rewrite rev_app_distr. cbn [rev app].
  assert (forall n, l = [n] -> peek_result p (length ns2) = inr n) as Hpeek.
  { intros n ->. destruct (peek_rev p _ base (length ns2) Ep) as (m & Em & ->); [rewrite !length_app; cbn; lia|].
    rewrite !length_app in Em. cbn [length] in Em.
    replace (length (concat ls') + 1 + length ns2 - 1 - length ns2)%nat with (length (concat ls')) in Em by lia.
    rewrite <- (assoc_L app), lookup_app_r, Nat.sub_diag in Em by lia. cbn in Em. by simplify_eq. }
  assert (forall n, l = [n] -> count_args p (rev args) (length ns2 + 1) (if is_null n then c else c + 1) =
    inr ((length ns2 + length (concat ls' ++ l))%nat, (c + length (non_null (concat ls' ++ l)))%nat)) as Hgo.
  { intros n ->. assert (length ns2 + 1 = length ([n] ++ ns2))%nat as -> by (cbn; lia).
    rewrite (IH (concat ls')); [|by exists ls'|by rewrite Ep, <- (assoc_L app)].
    rewrite non_null_app, !length_app. unfold non_null at 3. rewrite list.filter_cons. cbn [length].
    destruct (is_null n); [rewrite decide_False by done|rewrite decide_True by done]; cbn; do 2 f_equal; lia. }
  destruct a as [t|r|r]; cbn [count_args]; cbn in Ha.
  - case_bool_decide; [destruct Ha as [s ->]; by apply (Hgo (PN_ID s))|]. subst l. rewrite app_nil_r in *.
    apply IH; [by exists ls'|done].
  - destruct Ha as (n & -> & _). rewrite (Hpeek n eq_refl). by apply Hgo.
  - destruct Ha as (n & -> & _). rewrite (Hpeek n eq_refl). by apply Hgo.
Qed.

(** The only node that is not null. *)
Lemma only_node_ok ns : length (non_null ns) = 1%nat -> exists n, only_node ns = n /\ n ∈ ns /\ is_null n = false.
Proof.
  intros E. destruct (one_node _ E) as [n En]. assert (n ∈ non_null ns) as Hn by (rewrite En; left).
  apply list_elem_of_filter in Hn as [Hn Hi]. unfold only_node.
  destruct (List.find (fun pn => negb (is_null pn)) ns) as [m|] eqn:Ef.
  - apply find_some in Ef as [Hm Hm']. exists m. split; [done|]. split; [by apply list_elem_of_In|]. by apply negb_true_iff.
  - exfalso. apply find_none with (x := n) in Ef; [by rewrite Hn in Ef|by apply list_elem_of_In].
Qed.

(** ** All of the arguments *)

Lemma pure_stable r : pure r = true -> stable r = true.
Proof.
  intros Hr. apply forallb_forall. intros a Ha. apply list_elem_of_In in Ha.
  destruct (arg_rule a) as [r'|] eqn:E; [|done]. by eapply args_pure.
Qed.

(** The whole rule is matched, once its node is made. *)
Lemma progress_matched r p0 w ns args p p' n : progress r p0 args w ns p -> derives r w -> forallb is_opt args = false \/ is_empty r = true ->
  made p (result_stack p0) p' n -> node_ok r p' n -> (r <> RULE_expr_stmt -> consts p' = consts p) -> matched r p0 p'.
Proof.
  intros [[Er [Hg Hdc] Hrd Hle] Hr Hd Hn Hl Hc Hs] Hder Hopt [Hm1 Hm2 Hm3 Hm4] Hok Hcons.
  exists w, n. split_and!; try done.
  - split; rewrite ?Hm2, ?Hm3; try done. split; by rewrite ?Hm3.
  - intros He. rewrite Hm3. destruct Hl as [Hl|[_ Ho]]; [done|]. destruct Hopt as [Hopt|Hopt]; congruence.
  - intros Hp. rewrite Hcons by (by intros ->). apply Hc. by apply pure_stable.
Qed.

Lemma progress_state r p0 args w ns p : progress r p0 args w ns p -> state_ok p.
Proof. intros Hpr. apply (progress_moved _ _ _ _ _ _ Hpr). Qed.

Section and_rule.
Context (r : rule_id) (n : nat) (ident blank : bool).
Context (Hact : rule_act_table r = ACT_AND n ident blank) (Hord : ordinary r) (Hcomp : r <> RULE_testlist_comp).

Lemma and_args : length (rule_args r) = n /\ (forallb is_opt (rule_args r) = false \/ is_empty r = true).
Proof.
  pose proof (shape_ok r) as Hsh. unfold shape in Hsh. rewrite Hact in Hsh. apply andb_true_iff in Hsh as [Hl Ho].
  apply Nat.eqb_eq in Hl. split; [done|]. apply orb_true_iff in Ho as [Ho|Ho]; [by right|left]. by apply negb_true_iff.
Qed.

Lemma and_arity st p ns : arg_nodes st p (rule_args r) ns -> arity r (length (if blank then ns ++ [PN_NULL] else ns)).
Proof.
  intros Ha. unfold arity. rewrite Hact. left. rewrite <- (arg_nodes_length _ _ _ _ Ha). destruct blank.
  - rewrite length_app. cbn. lia.
  - lia.
Qed.

(** The nodes a rule of this kind is made of. *)
Lemma first_node st p r' args ns : arg_nodes st p (rule r' :: args) ns -> exists m ns', ns = m :: ns' /\ fits st r' p m.
Proof.
  intros (ls & Hf & ->). inversion Hf as [|? l ? ls' Ha _]; subst. destruct Ha as (m & -> & Hm). by exists m, (concat ls').
Qed.

Lemma and_foldable p ns : arg_nodes (stable r) p (rule_args r) ns -> foldable r (if blank then ns ++ [PN_NULL] else ns).
Proof.
  intros Ha. assert (r <> RULE_power -> r <> RULE_factor_2 -> forall l : list node, foldable r l) as Hother by (destruct r; try done).
  destruct (decide (r = RULE_power)) as [E|]; [|destruct (decide (r = RULE_factor_2)) as [E|]; [|by apply Hother]]; clear Hother.
  - rewrite E in Hact. injection Hact as <- <- <-. pose proof (arg_nodes_length _ _ _ _ Ha) as El. rewrite E in *.
    change (length ns = 2%nat) in El. cbn. lia.
  - rewrite E in Hact. injection Hact as <- <- <-. rewrite E in *. cbn in Ha.
    destruct (first_node _ _ _ _ _ Ha) as (m & ns' & -> & (_ & _ & Hop & _)). destruct (Hop eq_refl) as (k & -> & Hk).
    pose proof (arg_nodes_length _ _ _ _ Ha) as El. injection El as El.
    destruct (one_node ns' El) as [x ->].
    exists k, x. split; [done|]. cbn in Hk.
    repeat (apply elem_of_cons in Hk as [[= ->]|Hk]; [by eexists|]). by apply elem_of_nil in Hk.
Qed.

Lemma and_rule_nodes p ns : arg_nodes (stable r) p (rule_args r) ns -> rule_nodes r p (if blank then ns ++ [PN_NULL] else ns).
Proof.
  intros Ha. destruct (arg_nodes_wf _ _ _ _ Ha) as [Hw Hp]. split.
  - destruct blank; [|done]. apply Forall_app. split; [done|]. constructor; [apply wf_null|constructor].
  - destruct blank; [|done]. apply Forall_app. split; [done|]. constructor; [by left|constructor].
  - destruct r; try done.
  - intros Hr s Hin. destruct Hr as [Hr|[Hr|Hr]]; [by destruct r|..]; rewrite Hr in *; injection Hact as <- <- <-.
    + assert (PN_ID s ∈ ns) as Hi by (destruct Hin as [Hin|[? _]]; [by apply head_Some_elem_of|done]).
      destruct (arg_nodes_elem _ _ _ _ _ Ha Hi) as [(s' & _ & Ht)|[?|(a & r' & Hia & Er & _ & _ & _ & Hn)]]; [|done|].
      * by destruct (safe_and RULE_atom_paren _ eq_refl eq_refl Ht).
      * apply Hn; [done| |done]. by apply (safe_and RULE_atom_paren a).
    + destruct (first_node _ _ _ _ _ Ha) as (m & ns' & -> & (_ & _ & _ & Hn)).
      destruct Hin as [[= ->]|[_ ?]]; [|done]. by apply Hn.
  - by eapply and_foldable.
Qed.

Lemma and_derives p0 w ns p : progress r p0 (rule_args r) w ns p -> derives r w.
Proof. intros Hpr. eapply D_and; [done|]. apply (progress_derives _ _ _ _ _ _ Hpr). Qed.

(** The only argument takes the place of the rule. *)
Lemma and_collapse_ok p0 w ns p : progress r p0 (rule_args r) w ns p -> length (non_null ns) = 1%nat -> ident = true ->
  matched r p0 (push_result_node (with_results p (result_stack p0)) (only_node ns)).
Proof.
  intros Hpr E1 Hid. pose proof (progress_nodes _ _ _ _ _ _ Hpr) as Hn. pose proof (progress_state _ _ _ _ _ _ Hpr) as Hst.
  destruct (only_node_ok ns E1) as (m & -> & Hi & Hnn).
  eapply (progress_matched r p0 w ns _ p _ m Hpr (and_derives _ _ _ _ Hpr)); [apply and_args|split; try done; apply Hst| |done].
  destruct (arg_nodes_wf _ _ _ _ Hn) as [Hw Hp]. rewrite list.Forall_forall in Hw, Hp. split.
  - by apply Hw.
  - destruct (Hp m Hi) as [?|?]; [congruence|done].
  - intros Hop. by destruct r.
  - intros Hsafe s ->. assert (may_collapse r = true) as Hmc by (unfold may_collapse; by rewrite Hact, Hid).
    destruct (arg_nodes_elem _ _ _ _ _ Hn Hi) as [(s' & _ & Ht)|[?|(a & r' & Hia & Er & _ & _ & _ & Hna)]]; [|done|].
    + by destruct (safe_and r _ Hmc Hsafe Ht).
    + apply Hna; [by apply pure_stable, safe_pure| |done]. by apply (safe_and r a).
Qed.

(** The rule makes a node. *)
Lemma and_emit_ok p0 w ns p line : progress r p0 (rule_args r) w ns p ->
  match (let '(p, i) := if blank then (push_result_node p PN_NULL, (length ns + 1)%nat) else (p, length ns) in
    push_result_rule p line r i) with
  | inl e => is_crash e = false
  | inr p' => matched r p0 p'
  end.
Proof.
  intros Hpr. pose proof (progress_nodes _ _ _ _ _ _ Hpr) as Hn. pose proof (progress_state _ _ _ _ _ _ Hpr) as Hst.
  set (ns' := if blank then ns ++ [PN_NULL] else ns). set (p1 := if blank then push_result_node p PN_NULL else p).
  assert ((let '(p, i) := if blank then (push_result_node p PN_NULL, (length ns + 1)%nat) else (p, length ns) in
    push_result_rule p line r i) = push_result_rule p1 line r (length ns')) as ->.
  { subst ns' p1. destruct blank; [|done]. by rewrite length_app. }
  assert (result_stack p1 = rev ns' ++ result_stack p0) as Ep1.
  { subst ns' p1. destruct blank; cbn; [rewrite rev_app_distr; cbn; f_equal|]; apply (progress_results _ _ _ _ _ _ Hpr). }
  assert (consts p1 = consts p /\ lexer p1 = lexer p /\ rule_stack p1 = rule_stack p) as (Ec & El & Er) by (subst p1; by destruct blank).
  assert (state_ok p1) as Hp1 by (unfold state_ok; by rewrite Ec, El).
  assert (rule_nodes r p1 ns') as Hrn.
  { destruct (and_rule_nodes p ns Hn) as [? ? ? Hnames ?]. split; try done. intros Hr s Hi. unfold const_of. rewrite Ec. by apply Hnames. }
  pose proof (push_rule_ok p1 line r ns' _ Hp1 Ep1 (proj1 Hord) Hcomp (and_arity _ _ _ Hn) Hrn) as Hm. unfold makes in Hm.
  destruct (push_result_rule p1 line r (length ns')) as [e|p']; [done|]. destruct Hm as (m & [Hm1 Hm2 Hm3 Hm4] & Hok & Hcons).
  apply (progress_matched r p0 w ns _ p _ m Hpr (and_derives _ _ _ _ Hpr)); [apply and_args|split; congruence|done|].
  intros Hr. rewrite Hcons by done. done.
Qed.

Lemma and_done_ok p0 w ns p line : progress r p0 (rule_args r) w ns p ->
  match and_done input_kind p line r (rule_args r) ident blank with inl e => is_crash e = false | inr p' => matched r p0 p' end.
Proof.
  intros Hpr. pose proof Hpr as [Hm Hr Hd Hn Hl Hc Hs]. unfold and_done.
  assert (match and_node p line r (rule_args r) ident blank with inl e => is_crash e = false | inr p' => matched r p0 p' end) as Hnode.
  { unfold and_node. pose proof (count_args_ok _ p _ (result_stack p0) (rule_args r) ns Hn [] 0%nat) as Hcount.
    rewrite app_nil_r in Hcount. specialize (Hcount Hr). cbn [length] in Hcount. rewrite Hcount. cbn [ebind Nat.add].
    destruct (Nat.eqb_spec (length (non_null ns)) 1) as [E1|_]; [destruct (Bool.bool_dec ident true) as [Hid|Hid]|].
    - rewrite Hid. cbn [andb]. rewrite (pop_rev p ns _ Hr). cbn [ebind]. by eapply and_collapse_ok.
    - apply not_true_is_false in Hid. rewrite Hid. by apply (and_emit_ok p0 w).
    - by apply (and_emit_ok p0 w). }
  unfold is_lonely. destruct (negb _ && _) eqn:Elon; cbn [ebind]; [|exact Hnode].
  apply andb_true_iff in Elon as [_ Er]. apply bool_decide_eq_true in Er.
  assert (exists n0 n1, ns = [n0; n1]) as (n0 & n1 & ->).
  { apply two_nodes. pose proof (arg_nodes_length _ _ _ _ Hn) as El. by rewrite Er in El. }
  unfold peek_result. rewrite Hr. cbn [rev app lookup list_lookup or_fault ebind].
  destruct (is_null n1); cbn [ebind]; [|exact Hnode]. destruct (_ || _); [|exact Hnode].
  unfold pop_result. rewrite Hr. cbn [rev app ebind with_results result_stack]. rewrite push_pass_ok. cbn [result_stack].
  eapply (progress_matched r p0 w [n0; n1] _ p _ (PN_STRUCT line RULE_pass_stmt []) Hpr (and_derives _ _ _ _ Hpr));
    [apply and_args|split; try done; apply (progress_state _ _ _ _ _ _ Hpr)| |done].
  rewrite Er. split; [|done|done|done]. constructor; [by left|constructor].
Qed.

(** A rule that is an argument may be tried. *)
Lemma arg_tried p0 p p1 i a r' w ns : smaller_ok r p0 -> progress r p0 (take i (rule_args r)) w ns p ->
  rule_args r !! i = Some a -> arg_rule a = Some r' -> state_ok p1 -> rule_stack p1 <> [] -> lexer p1 = lexer p ->
  comes_to (tries input_kind r' p1) (rule_outcome r' p1).
Proof.
  intros IH Hpr Ea Er Hp1 Hne El. assert (a ∈ rule_args r) as Hin by (by eapply list_elem_of_lookup_2).
  apply IH; [|done|by intros _|].
  - split; [|by eapply args_known]. by apply (args_special r a r' (proj1 Hord)).
  - rewrite El. destruct (progress_left _ _ _ _ _ _ Hpr) as [?|[? Ho]]; [by left|right]. split; [done|].
    apply first_args_rank. unfold first_args. rewrite Hact. by eapply leading_lookup.
Qed.

(** The node a name of the rule leaves. *)
Lemma token_arg_node p p' t base : r <> RULE_atom -> tok_kind p = t ->
  (if bool_decide (t = MP_TOKEN_NAME) then exists m, result_stack p' = m :: base /\ token_node r p m else result_stack p' = base) ->
  exists ns', result_stack p' = rev ns' ++ base /\ arg_node (stable r) p (tok t) ns'.
Proof.
  intros Hr Et Hres. cbn. case_bool_decide as Hname; [|by exists []]. destruct Hres as (m & Hr' & Hn).
  destruct (token_id _ _ _ Hn) as [s ->]; [congruence|done|]. exists [PN_ID s]. split; [done|by exists s].
Qed.

Lemma and_loop_ok p0 rule_arg : smaller_ok r p0 -> get_rule_arg r = Some rule_arg ->
  (forall i, (i < n)%nat -> rule_arg !! i = rule_args r !! i) -> take n rule_arg = rule_args r ->
  forall k i line w ns p, k = (n - i)%nat -> (i <= n)%nat -> progress r p0 (take i (rule_args r)) w ns p ->
  comes_to (then_loop (fun _ => and_loop input_kind p line r rule_arg ident blank n k i)) (rule_outcome r p0).
Proof.
  intros IH Eget Harg Htake k. destruct and_args as [Hlen _].
  induction k as [|k IHk]; intros i line w ns p Ek Hi Hpr; cbn [and_loop].
  { rewrite Htake. assert (i = length (rule_args r)) as -> by lia. rewrite firstn_all in Hpr.
    pose proof (and_done_ok p0 w ns p line Hpr) as Hd. destruct (and_done _ _ _ _ _ _ _) as [e|p']; [by eapply comes_error|].
    eapply comes_goto; [done|]. by apply comes_now. }
  rewrite Harg by lia. destruct (rule_args r !! i) as [a|] eqn:Ea; [|apply lookup_ge_None in Ea; lia].
  assert (a ∈ rule_args r) as Hin by (by eapply list_elem_of_lookup_2).
  assert (take (i + 1) (rule_args r) = take i (rule_args r) ++ [a]) as Etake by (by rewrite Nat.add_1_r, (take_S_r _ _ a)).
  pose proof (progress_state _ _ _ _ _ _ Hpr) as Hp.
  assert (forall r', arg_rule a = Some r' ->
    comes_to (then_loop (fun _ => obind (fun p => goto_next_rule p false) (push_rule_from_arg (push_rule p line r (i + 1)) a)))
      (rule_outcome r p0)) as Hcall.
  { intros r' Er. apply (call_ok p line r (i + 1) a r'); [done|done| | |].
    - intros p1 Hp1 Hne El. exact (arg_tried p0 p p1 i a r' w ns IH Hpr Ea Er Hp1 Hne El).
    - intros q Hq. destruct (progress_rule _ _ _ _ _ _ a r' q Hpr Hin Er Hq) as (v & m & Hpr').
      unfold process_rule. cbn [rule_of arg_i src_line]. rewrite Eget, Hact. unfold act_and.
      replace (n - (i + 1))%nat with k by lia. eapply IHk; [lia|lia|]. by rewrite Etake.
    - unfold process_rule. cbn [rule_of arg_i src_line]. rewrite Eget, Hact. unfold act_and. rewrite Nat.add_1_r.
      rewrite Harg, Ea by lia. destruct a as [t|r1|r1]; [done| |].
      + destruct (Nat.ltb_spec 1 (S i)); [apply comes_syntax_error|]. eapply comes_goto; [done|]. apply comes_now.
        assert (i = 0%nat) as -> by lia. by apply (progress_start _ _ _ _ _ _ Hpr).
      + replace (n - S i)%nat with k by lia. eapply IHk; [lia|lia|]. rewrite <- Nat.add_1_r, Etake. by apply progress_absent. }
  destruct a as [t|r'|r']; [|by apply (Hcall r')..]. case_bool_decide as Et.
  - destruct (eat_token_ok p r (bool_decide (t = MP_TOKEN_NAME)) Hp) as (x & -> & Hx); [rewrite Et; by eapply args_token|].
    cbn [mbind option_bind]. destruct x as [e|p']; [by eapply comes_error|]. cbn [obind].
    destruct Hx as (Hm & Hl & Hcn & Hres). rewrite Et in Hm.
    destruct (token_arg_node p p' t (result_stack p)) as (ns' & Hr' & Ha'); [by intros E; rewrite E in Hact|done|done|].
    eapply (IHk (i + 1)%nat); [lia|lia|]. rewrite Etake. by eapply progress_tok.
  - destruct (Nat.ltb_spec 0 i); [apply comes_syntax_error|].
    eapply comes_goto; [done|]. apply comes_now. assert (i = 0%nat) as -> by lia. by apply (progress_start _ _ _ _ _ _ Hpr).
Qed.
End and_rule.
End rules.
