(* ===== verification/ParseList.v ===== *)
(** The rules of [Parse] that are lists: their loop over elements and separators,
    and the node they leave. *)

From Stdlib Require Import ZArith Lia.
From stdpp Require Import base option list numbers sets.
From S2P Require Import Prelude IntObj Lexer IntText HashMap HashTable HashSpec HashProps Qstr Grammar Parse ParseSpec ParseRun ParseNodes ParseRule.

Section rules.
Context {L F : Type} `{TokenLaws L} `{FloatLiterals F}.
Context (input_kind : mp_parse_input_kind_t).

Abbreviation parser := (parser_t L F).
Abbreviation node := (parse_node F).
Abbreviation comes_to := (comes_to input_kind).
Abbreviation then_loop := (then_loop input_kind).

Implicit Types p q : parser.
Implicit Types ns base : list node.

(** * Elements *)

Lemma list_elems_S n args m : list_elems n args (S m) = list_elems n args m ++ list_elem n args m.
Proof. unfold list_elems. rewrite seq_S, bind_app. cbn. by rewrite app_nil_r. Qed.

Lemma list_elems_lookup n args m : (forall j, is_Some (args !! (if Nat.odd j && Nat.odd n then 1 else 0)%nat)) ->
  length (list_elems n args m) = m /\
  forall j, (j < m)%nat -> list_elems n args m !! j = args !! (if Nat.odd j && Nat.odd n then 1 else 0)%nat.
Proof.
  intros Ha. induction m as [|m [IHl IH]]; [split; [done|lia]|]. rewrite list_elems_S.
  destruct (Ha m) as [a Ea]. unfold list_elem. rewrite Ea. cbn [option_list]. split; [rewrite length_app, IHl; cbn; lia|].
  intros j Hj. destruct (decide (j < m)%nat); [rewrite lookup_app_l by lia; by apply IH|].
  assert (j = m) as -> by lia. rewrite lookup_app_r, IHl, Nat.sub_diag by lia. by rewrite Ea.
Qed.

(** Without optional arguments no node is null. *)
Lemma arg_nodes_plain st p args ns : arg_nodes st p args ns -> forallb (negb ∘ is_opt) args = true -> Forall plain_node ns.
Proof.
  intros (ls & Hf & ->) Ho. rewrite forallb_forall in Ho. apply list.Forall_forall. intros n Hn.
  apply list_elem_of_In, in_concat in Hn as (l & Hl & Hn). apply list_elem_of_In, list_elem_of_lookup in Hl as [i Hl].
  apply list_elem_of_In in Hn. destruct (Forall2_lookup_r _ _ _ _ _ Hf Hl) as (a & Ea & Ha). apply list_elem_of_lookup_2 in Ea.
  destruct a as [t|r|r]; cbn in Ha.
  - case_bool_decide; subst; [|by apply elem_of_nil in Hn]. destruct Ha as [s ->]. by apply list_elem_of_singleton in Hn as ->.
  - destruct Ha as (m & -> & Hm). apply list_elem_of_singleton in Hn as ->. apply Hm.
  - apply list_elem_of_In in Ea. by specialize (Ho _ Ea).
Qed.

(** Every argument leaves its node. *)
Lemma arg_nodes_rules st p args ns : arg_nodes st p args ns -> (forall a, a ∈ args -> exists r, a = rule r) ->
  Forall2 (fun a n => exists r, a = rule r /\ fits st r p n) args ns.
Proof.
  intros (ls & Hf & ->). induction Hf as [|a l args ls Ha Hf IH]; intros Hr; [constructor|].
  destruct (Hr a ltac:(left)) as [r ->]. destruct Ha as (n & -> & Hn). cbn. constructor; [by exists r|].
  apply IH. intros b Hb. apply Hr. by right.
Qed.

Section list_rule.
Context (r : rule_id) (n : nat).
Context (Hact : rule_act_table r = ACT_LIST n).
Context (Hitems : forall a r', a ∈ rule_args r -> arg_rule a = Some r' -> ordinary r').

Lemma list_args :
  (n = 2%nat /\ length (rule_args r) = 1%nat \/ (n = 1%nat \/ n = 3%nat) /\ length (rule_args r) = 2%nat) /\
  forallb (negb ∘ is_opt) (rule_args r) = true.
Proof.
  pose proof (shape_ok r) as Hsh. unfold shape in Hsh. rewrite Hact in Hsh. apply andb_true_iff in Hsh as [Hl Ho]. split; [|done].
  rewrite !orb_true_iff, !andb_true_iff, !orb_true_iff, !Nat.eqb_eq in Hl. tauto.
Qed.

Definition elem_index (m : nat) : nat := if Nat.odd m && Nat.odd n then 1%nat else 0%nat.

Lemma elem_index_lt m : (elem_index m < length (rule_args r))%nat.
Proof.
  destruct list_args as [[[En ->]|[Hn ->]] _]; unfold elem_index.
  - rewrite En, andb_false_r. lia.
  - destruct (_ && _); lia.
Qed.

Lemma list_elems_at m : length (list_elems n (rule_args r) m) = m /\
  forall j, (j < m)%nat -> list_elems n (rule_args r) m !! j = rule_args r !! elem_index j.
Proof. apply list_elems_lookup. intros j. apply lookup_lt_is_Some_2, elem_index_lt. Qed.

Lemma list_elems_in m a : a ∈ list_elems n (rule_args r) m -> a ∈ rule_args r.
Proof.
  intros Ha. apply list_elem_of_lookup in Ha as [j Hj]. destruct (list_elems_at m) as [Hl Hat].
  pose proof (lookup_lt_Some _ _ _ Hj) as Hlt. rewrite Hat in Hj by lia. by eapply list_elem_of_lookup_2.
Qed.

Lemma list_elems_no_opt m : forallb (negb ∘ is_opt) (list_elems n (rule_args r) m) = true.
Proof.
  destruct list_args as [_ Ho]. rewrite forallb_forall in *. intros a Ha%list_elem_of_In. apply Ho, list_elem_of_In. by eapply list_elems_in.
Qed.

(** Items that are tokens are names, separators that are tokens are not. *)
Lemma list_tokens t j : rule_args r !! j = Some (tok t) -> (t = MP_TOKEN_NAME <-> j = 0%nat).
Proof.
  intros Ej.
  check rules (fun r => match rule_act_table r with
    | ACT_LIST _ => match rule_args r !! 0%nat with Some (tok t) => bool_decide (t = MP_TOKEN_NAME) | _ => true end &&
        match rule_args r !! 1%nat with Some (tok t) => negb (bool_decide (t = MP_TOKEN_NAME)) | _ => true end
    | _ => true end) at r as E.
  rewrite Hact in E. apply andb_true_iff in E as [E0 E1].
  pose proof (lookup_lt_Some _ _ _ Ej) as Hlt. assert (j = 0 \/ j = 1)%nat as Hj by (destruct list_args as [[[_ ?]|[_ ?]] _]; lia).
  destruct Hj as [-> | ->]; rewrite Ej in *.
  - apply bool_decide_eq_true in E0. done.
  - apply negb_true_iff, bool_decide_eq_false in E1. split; [done|lia].
Qed.

(** How many nodes [m] elements and separators leave. *)
Definition list_count (m : nat) : nat :=
  if Nat.odd n then match rule_args r !! 1%nat with Some (tok _) => Nat.div2 (m + 1) | _ => m end else m.

Lemma list_count_ok st p m ns : arg_nodes st p (list_elems n (rule_args r) m) ns -> length ns = list_count m.
Proof.
  intros Ha. rewrite (arg_nodes_length _ _ _ _ Ha). clear Ha ns. induction m as [|m IH].
  { unfold list_count. destruct (Nat.odd n); [|done]. by destruct (rule_args r !! 1%nat) as [[]|]. }
  rewrite list_elems_S, list.filter_app, length_app, IH. clear IH. unfold list_elem. fold (elem_index m).
  destruct (rule_args r !! elem_index m) as [a|] eqn:Ea; [|apply lookup_ge_None in Ea; pose proof (elem_index_lt m); lia].
  change (option_list (Some a)) with [a]. rewrite list.filter_cons, list.filter_nil.
  assert (pushes a = true \/ elem_index m = 1%nat /\ exists t, a = tok t /\ t <> MP_TOKEN_NAME) as Hpush.
  { destruct a as [t|r'|r']; [|by left..]. destruct (list_tokens t _ Ea) as [H1' H2']. cbn [pushes]. case_bool_decide as Et; [by left|right].
    split; [|by exists t]. unfold elem_index in *. destruct (_ && _); [done|]. by destruct Et, H2'. }
  unfold list_count, elem_index in *. destruct (Nat.odd n).
  - rewrite andb_true_r in *. destruct (Nat.odd m) eqn:Em.
    + rewrite Ea. apply Nat.odd_spec in Em as [k ->]. destruct Hpush as [Hpush|[_ (t & -> & Ht)]].
      * rewrite Hpush, decide_True by done. destruct a as [t| |]; [|cbn; lia..]. by apply bool_decide_eq_true, (list_tokens t _ Ea) in Hpush.
      * cbn [pushes]. rewrite bool_decide_false by done. cbn [length decide]. rewrite decide_False by done. cbn [length].
        rewrite !Nat.div2_div. replace (S (2 * k + 1) + 1)%nat with (1 + (k + 1) * 2)%nat by lia.
        replace (2 * k + 1 + 1)%nat with ((k + 1) * 2)%nat by lia. rewrite Nat.div_add, Nat.div_mul by lia. cbn. lia.
    + destruct Hpush as [->|[? _]]; [|done]. rewrite decide_True by done. cbn [length].
      rewrite <- Nat.negb_even in Em. apply negb_false_iff, Nat.even_spec in Em as [k ->].
      assert (Nat.div2 (2 * k + 1) + 1 = Nat.div2 (S (2 * k) + 1))%nat as Hd.
      { rewrite !Nat.div2_div. replace (S (2 * k) + 1)%nat with ((k + 1) * 2)%nat by lia.
        replace (2 * k + 1)%nat with (1 + k * 2)%nat by lia. rewrite Nat.div_add, Nat.div_mul by lia. cbn. lia. }
      destruct (rule_args r !! 1%nat) as [[t|r'|r']|]; lia.
  - rewrite andb_false_r in *. destruct Hpush as [->|[? _]]; [|done]. rewrite decide_True by done. cbn. lia.
Qed.

(** * The node of a list *)

Lemma list_op_tokens m p ns : Nat.odd n = true -> arg_nodes (stable r) p (list_elems n (rule_args r) m) ns ->
  (forall a, a ∈ rule_args r -> exists r', a = rule r') ->
  (exists r', rule_args r !! 1%nat = Some (rule r') /\ is_op_rule r' = true /\ tok MP_TOKEN_OP_TILDE ∉ rule_args r') ->
  forall j, Nat.odd j = true -> (j < length ns)%nat ->
    exists t, ns !! j = Some (PN_TOKEN t) /\ is_operator t = true /\ t <> MP_TOKEN_OP_TILDE.
Proof.
  intros En Ha Hr (r' & Er & Hop & Ht) j Ej Hj. destruct (list_elems_at m) as [Hl Hat].
  assert (forall a, a ∈ list_elems n (rule_args r) m -> exists r', a = rule r') as Hr'.
  { intros a Hi. by apply Hr, (list_elems_in m). }
  pose proof (arg_nodes_rules _ _ _ _ Ha Hr') as Hf. pose proof (Forall2_length _ _ _ Hf) as Hlen. rewrite Hl in Hlen.
  apply lookup_lt_is_Some_2 in Hj as [x Ex]. destruct (Forall2_lookup_r _ _ _ _ _ Hf Ex) as (a & Ea & r2 & -> & Hfit).
  rewrite Hat in Ea by (rewrite Hlen; by eapply lookup_lt_Some). unfold elem_index in Ea. rewrite Ej, En in Ea. cbn [andb] in Ea.
  rewrite Er in Ea. simplify_eq. destruct Hfit as (_ & _ & Hk & _). destruct (Hk Hop) as (k & -> & Hin).
  exists k. split; [done|]. split; [|by intros ->]. destruct (op_rule_tokens r2 Hop) as (? & _ & Hto).
  by destruct (Hto _ Hin) as (t & [= <-] & ?).
Qed.

Lemma list_foldable m p ns : (1 <= m)%nat -> (n = 1%nat -> Nat.odd m = true) ->
  arg_nodes (stable r) p (list_elems n (rule_args r) m) ns -> foldable r ns.
Proof.
  intros Hm Ho Ha. pose proof (list_count_ok _ _ _ _ Ha) as Hc. unfold list_count in Hc.
  assert (match r with RULE_shift_expr | RULE_arith_expr | RULE_term => True | _ => False end -> foldable RULE_term ns) as Hops.
  { intros Hr. assert (n = 1%nat) as En by (destruct r; try done; by injection Hact).
    assert (length ns = m) as Hl by (rewrite En in Hc; destruct r; done). split; [rewrite Hl; auto|].
    apply (list_op_tokens m p ns); [by rewrite En|done| |].
    - intros a Hi. destruct r; try done; repeat (apply elem_of_cons in Hi as [->|Hi]; [by eexists|]); by apply elem_of_nil in Hi.
    - destruct r; try done; eexists; (split; [done|]); (split; [done|]); intros Hi; vm_compute in Hi;
        repeat (apply elem_of_cons in Hi as [?|Hi]; [done|]); by apply elem_of_nil in Hi. }
  assert (match r with RULE_expr | RULE_xor_expr | RULE_and_expr => True | _ => False end -> (1 <= length ns)%nat) as Hbits.
  { intros Hr. rewrite Hc. assert (n = 1%nat) as En by (destruct r; try done; by injection Hact).
    rewrite En. assert (1 <= Nat.div2 (m + 1))%nat by (rewrite Nat.div2_div; apply Nat.div_le_lower_bound; lia).
    destruct r; done. }
  destruct r; first [exact (Hops I)|exact (Hbits I)|done].
Qed.

Lemma list_rule_nodes m p ns : (1 <= m)%nat -> (n = 1%nat -> Nat.odd m = true) ->
  arg_nodes (stable r) p (list_elems n (rule_args r) m) ns -> rule_nodes r p ns.
Proof.
  intros Hm Ho Ha. destruct (arg_nodes_wf _ _ _ _ Ha) as [Hw Hpl]. split; [done|done| | |by eapply list_foldable].
  - intros _. apply (arg_nodes_plain _ _ _ _ Ha), list_elems_no_opt.
  - intros Hr s Hin. assert (is_logical r = true) as Hl by (destruct Hr as [?|[E|E]]; [done|by rewrite E in Hact..]).
    assert (PN_ID s ∈ ns) as Hi by (destruct Hin as [Hin|[? _]]; [by apply head_Some_elem_of|done]).
    destruct (arg_nodes_elem _ _ _ _ _ Ha Hi) as [(s' & _ & Ht)|[?|(a & r' & Hia & Er & _ & _ & _ & Hn)]]; [|done|].
    + apply list_elems_in in Ht. exfalso. destruct r; try done; vm_compute in Ht;
        repeat (apply elem_of_cons in Ht as [?|Ht]; [done|]); by apply elem_of_nil in Ht.
    + apply Hn; [by apply pure_stable; destruct r| |done]. apply list_elems_in in Hia.
      destruct r; try done; repeat (apply elem_of_cons in Hia as [->|Hia]; [by simplify_eq/=|]); by apply elem_of_nil in Hia.
Qed.

Lemma list_derives m w p0 ns p : (1 <= m)%nat -> (n = 1%nat -> Nat.odd m = true) ->
  progress r p0 (list_elems n (rule_args r) m) w ns p -> derives r w.
Proof. intros Hm Ho Hpr. eapply D_list; [done|by split|]. apply (progress_derives _ _ _ _ _ _ Hpr). Qed.

Lemma list_not_opt m : (1 <= m)%nat -> forallb is_opt (list_elems n (rule_args r) m) = false.
Proof.
  intros Hm. apply not_true_is_false. intros Ho. rewrite forallb_forall in Ho. pose proof (list_elems_no_opt m) as Hn.
  rewrite forallb_forall in Hn. destruct (list_elems_at m) as [Hl _].
  destruct (list_elems n (rule_args r) m) as [|a l]; [cbn in Hl; lia|].
  specialize (Ho a ltac:(by left)). specialize (Hn a ltac:(by left)). cbn in Hn. by rewrite Ho in Hn.
Qed.

(** The only element takes the place of the list. *)
Lemma list_single_ok p0 w ns p : ordinary r -> progress r p0 (list_elems n (rule_args r) 1) w ns p -> matched r p0 p.
Proof.
  intros Hord Hpr. pose proof (progress_nodes _ _ _ _ _ _ Hpr) as Ha. pose proof (list_count_ok _ _ _ _ Ha) as Hc.
  assert (list_count 1 = 1%nat) as E1 by (unfold list_count; destruct (Nat.odd n); [destruct (_ !! _) as [[]|]|]; done).
  rewrite E1 in Hc. destruct (one_node ns Hc) as [x ->].
  assert (x ∈ [x]) as Hi by left. destruct (arg_nodes_wf _ _ _ _ Ha) as [Hw _].
  pose proof (arg_nodes_plain _ _ _ _ Ha (list_elems_no_opt 1)) as Hpl. rewrite list.Forall_forall in Hw, Hpl.
  eapply (progress_matched r p0 w [x] _ p p x Hpr); [by eapply (list_derives 1)|left; by apply list_not_opt| | |done].
  - split; [apply (progress_results _ _ _ _ _ _ Hpr)|done|done|apply (progress_state _ _ _ _ _ _ Hpr)].
  - split; [by apply Hw|by apply Hpl|by destruct r|]. intros Hsafe s ->.
    destruct (list_elems_at 1) as [_ Hat]. specialize (Hat 0%nat ltac:(lia)).
    destruct (arg_nodes_elem _ _ _ _ _ Ha Hi) as [(s' & _ & Ht)|[?|(a & r' & Hia & Er & _ & _ & _ & Hn)]]; [|done|].
    + apply list_elems_in, list_elem_of_lookup in Ht as [j Hj]. assert (j = 0%nat) as -> by by apply (list_tokens _ _ Hj).
      destruct (safe_list r n _ Hact Hsafe Hj) as (? & ? & _). done.
    + apply Hn; [by apply pure_stable, safe_pure| |done].
      destruct (list_elem_of_lookup_1 _ _ Hia) as [j Hj]. pose proof (lookup_lt_Some _ _ _ Hj) as Hlt.
      rewrite (proj1 (list_elems_at 1)) in Hlt. assert (j = 0%nat) as -> by lia. rewrite Hat in Hj.
      destruct (safe_list r n _ Hact Hsafe Hj) as (r2 & -> & ?). by simplify_eq/=.
Qed.

(** The list makes a node. *)
Lemma list_node_ok m p0 w ns p line : ordinary r -> (1 <= m)%nat -> (n = 1%nat -> Nat.odd m = true) ->
  progress r p0 (list_elems n (rule_args r) m) w ns p ->
  match push_result_rule p line r (length ns) with inl e => is_crash e = false | inr p' => matched r p0 p' end.
Proof.
  intros Hord Hm Ho Hpr. pose proof (progress_nodes _ _ _ _ _ _ Hpr) as Ha. pose proof (progress_state _ _ _ _ _ _ Hpr) as Hst.
  assert (arity r (length ns)) as Har.
  { unfold arity. rewrite Hact, (list_count_ok _ _ _ _ Ha). unfold list_count.
    assert (1 <= Nat.div2 (m + 1))%nat by (rewrite Nat.div2_div; apply Nat.div_le_lower_bound; lia).
    destruct (Nat.odd n); [destruct (_ !! _) as [[]|]|]; lia. }
  assert (r <> RULE_testlist_comp) as Hc by (by intros E; rewrite E in Hact).
  pose proof (push_rule_ok p line r ns _ Hst (progress_results _ _ _ _ _ _ Hpr) (proj1 Hord) Hc Har
    (list_rule_nodes m p ns Hm Ho Ha)) as Hmk. unfold makes in Hmk.
  destruct (push_result_rule p line r (length ns)) as [e|p']; [done|]. destruct Hmk as (x & Hmd & Hok & Hcons).
  eapply (progress_matched r p0 w ns _ p p' x Hpr); [by eapply list_derives|left; by apply list_not_opt|done..].
Qed.

(** How the number of arguments of the node is found. *)
Lemma list_number m (rule_arg : list Grammar.rule_arg) : rule_arg !! 1%nat = rule_args r !! 1%nat \/ Nat.odd n = false ->
  (if Nat.odd n then
     sep ←e or_fault (rule_arg !! 1%nat);
     inr (match sep with tok _ => Nat.div2 (m + 1) | _ => m end)
   else inr m) = inr (list_count m) :> perr nat.
Proof.
  intros Hr. unfold list_count. destruct (Nat.odd n) eqn:En; [|done]. destruct Hr as [->|?]; [|done].
  destruct (rule_args r !! 1%nat) as [a|] eqn:E; [by destruct a|].
  apply lookup_ge_None in E. destruct list_args as [[[E2 _]|[_ Hl]] _]. { by rewrite E2 in En. } lia.
Qed.

Lemma list_done_ok m p0 w ns p line (rule_arg : list Grammar.rule_arg) trail : ordinary r -> (1 <= m)%nat -> (n = 1%nat -> Nat.odd m = true) ->
  (rule_arg !! 1%nat = rule_args r !! 1%nat \/ Nat.odd n = false) -> (list_count m = 1%nat -> m = 1%nat \/ trail = true) ->
  progress r p0 (list_elems n (rule_args r) m) w ns p ->
  match list_done p line r rule_arg n (m + 1) trail with inl e => is_crash e = false | inr p' => matched r p0 p' end.
Proof.
  intros Hord Hm Ho Hr Ht Hpr. unfold list_done. destruct (Nat.leb_spec 1 (m + 1)); [|lia]. cbn [assert ebind].
  rewrite Nat.add_sub, list_number by done. cbn [ebind].
  pose proof (list_count_ok _ _ _ _ (progress_nodes _ _ _ _ _ _ Hpr)) as Hc. rewrite <- Hc in *.
  destruct (_ && _) eqn:E; [|by apply (list_node_ok m p0 w)].
  apply andb_true_iff in E as [E1 E2]. apply Nat.eqb_eq in E1. destruct (Ht E1) as [-> | ->]; [|done].
  by eapply list_single_ok.
Qed.

(** * The loop *)

Lemma list_arg_index m (rule_arg : list Grammar.rule_arg) : (forall j, (j < length (rule_args r))%nat -> rule_arg !! j = rule_args r !! j) ->
  rule_arg !! (if Nat.odd m && Nat.odd n then 1 else 0)%nat = rule_args r !! elem_index m.
Proof. intros Harg. apply Harg, elem_index_lt. Qed.

Lemma list_backtrack_ok m p0 w ns p line (rule_arg : list Grammar.rule_arg) : ordinary r ->
  (forall j, (j < length (rule_args r))%nat -> rule_arg !! j = rule_args r !! j) ->
  progress r p0 (list_elems n (rule_args r) m) w ns p ->
  comes_to (then_loop (fun _ => list_backtrack p line r rule_arg n (m + 1))) (rule_outcome r p0).
Proof.
  intros Hord Harg Hpr. unfold list_backtrack.
  assert (m = 0%nat -> comes_to (then_loop (fun _ => goto_next_rule p true)) (rule_outcome r p0)) as H0'.
  { intros ->. eapply comes_goto; [done|]. apply comes_now. by apply (progress_start _ _ _ _ _ _ Hpr). }
  assert (forall trail, (1 <= m)%nat -> (n = 1%nat -> Nat.odd m = true) -> (list_count m = 1%nat -> m = 1%nat \/ trail = true) ->
    comes_to (then_loop (fun _ => obind (fun p => goto_next_rule p false) (list_done p line r rule_arg n (m + 1) trail)))
      (rule_outcome r p0)) as Hfin.
  { intros trail Hm Ho Ht.
    assert (rule_arg !! 1%nat = rule_args r !! 1%nat \/ Nat.odd n = false) as Hr.
    { destruct list_args as [[[E _]|[_ E]] _]; [by right; rewrite E|left]. apply Harg. lia. }
    pose proof (list_done_ok m p0 w ns p line rule_arg trail Hord Hm Ho Hr Ht Hpr) as Hd.
    destruct (list_done _ _ _ _ _ _ _) as [e|p']; [by eapply comes_error|]. eapply comes_goto; [done|]. by apply comes_now. }
  destruct (Nat.eqb_spec (m + 1) 1) as [E1|E1].
  { destruct (n =? 2)%nat; apply H0'; lia. }
  assert (Nat.odd (m + 1) = negb (Nat.odd m)) as -> by (by rewrite Nat.add_1_r, Nat.odd_succ, <- Nat.negb_odd).
  destruct (Nat.eqb_spec n 2) as [E2|E2].
  { apply Hfin; [lia|lia|]. unfold list_count. rewrite E2. auto. }
  destruct (Nat.odd m) eqn:Em; cbn [negb].
  - apply Hfin; [lia|done|]. apply Nat.odd_spec in Em as [k ->]. unfold list_count.
    destruct (Nat.odd n); [destruct (_ !! _) as [[]|]|]; intros E; try (by left).
    left. rewrite Nat.div2_div in E. replace (2 * k + 1 + 1)%nat with ((k + 1) * 2)%nat in E by lia. rewrite Nat.div_mul in E by lia. lia.
  - destruct (Nat.eqb_spec n 3) as [E3|E3]; [|apply comes_syntax_error]. apply Hfin; [lia|lia|by right].
Qed.

Lemma list_elem_tried p0 p p1 m a r' w ns : smaller_ok input_kind r p0 -> progress r p0 (list_elems n (rule_args r) m) w ns p ->
  rule_args r !! elem_index m = Some a -> arg_rule a = Some r' -> state_ok p1 -> rule_stack p1 <> [] -> lexer p1 = lexer p ->
  comes_to (tries input_kind r' p1) (rule_outcome r' p1).
Proof.
  intros IH Hpr Ea Er Hp1 Hne El. apply IH; [by apply (Hitems a); [eapply list_elem_of_lookup_2|]|done|by intros _|].
  rewrite El. destruct (progress_left _ _ _ _ _ _ Hpr) as [?|[? Ho]]; [by left|right]. split; [done|].
  destruct m as [|m]; [|by rewrite list_not_opt in Ho by lia].
  apply first_args_rank. unfold first_args. rewrite Hact. apply list_elem_of_omap. exists a. split; [|done].
  change (elem_index 0) with 0%nat in Ea. destruct (rule_args r); [done|]. simplify_eq/=. left.
Qed.

(** The loop comes to [Q] if it does from each place where an element is missing. *)
Lemma list_loop_ok p0 rule_arg Q : smaller_ok input_kind r p0 -> get_rule_arg r = Some rule_arg ->
  (forall j, (j < length (rule_args r))%nat -> rule_arg !! j = rule_args r !! j) ->
  (forall m line w ns p, progress r p0 (list_elems n (rule_args r) m) w ns p ->
    comes_to (then_loop (fun _ => list_backtrack p line r rule_arg n (m + 1))) Q) ->
  forall k m line w ns p j, (left (lexer p) < k)%nat -> progress r p0 (list_elems n (rule_args r) m) w ns p ->
  comes_to (then_loop (fun f => list_loop (f - j) p line r rule_arg n m)) Q.
Proof.
  intros IH Eget Harg Hend k. induction k as [|k IHk]; intros m line w ns p j Hk Hpr; [lia|].
  pose proof (progress_state _ _ _ _ _ _ Hpr) as Hp. pose proof (elem_index_lt m) as Hlt.
  apply lookup_lt_is_Some_2 in Hlt as [a Ea]. assert (a ∈ rule_args r) as Hin by (by eapply list_elem_of_lookup_2).
  assert (list_elems n (rule_args r) (m + 1) = list_elems n (rule_args r) m ++ [a]) as Eapp.
  { rewrite Nat.add_1_r, list_elems_S. f_equal. unfold list_elem. fold (elem_index m). by rewrite Ea. }
  eapply (comes_same _ _ (then_loop (fun f => list_loop (S (f - S j)) p line r rule_arg n m))).
  { exists (S j). intros f Hf. unfold then_loop. by replace (f - j)%nat with (S (f - S j)) by lia. }
  cbn [list_loop]. rewrite (list_arg_index m rule_arg Harg), Ea. destruct a as [t|r'|r'].
  - case_bool_decide as Et; [|by eapply Hend].
    pose proof (list_tokens t _ Ea) as Ht.
    assert (negb (Nat.odd m && Nat.odd n) = bool_decide (t = MP_TOKEN_NAME)) as ->.
    { unfold elem_index in Ht. destruct (_ && _); symmetry; [apply bool_decide_false; by intros ?%Ht|apply bool_decide_true; by apply Ht]. }
    destruct (eat_token_ok p r (bool_decide (t = MP_TOKEN_NAME)) Hp) as (x & -> & Hx); [rewrite Et; by eapply args_token|].
    cbn [mbind option_bind]. destruct x as [e|p']; [by eapply comes_error|]. cbn [obind].
    destruct Hx as (Hm & Hl & Hcn & Hres). rewrite Et in Hm.
    destruct (token_arg_node r p p' t (result_stack p)) as (ns' & Hr' & Ha'); [by intros E; rewrite E in Hact|done|done|].
    eapply IHk; [lia|]. rewrite Eapp. by eapply progress_tok.
  - apply (call_ok input_kind p line r (m + 1) (rule r') r'); [done|done| | |].
    + intros p1 Hp1 Hne El. exact (list_elem_tried p0 p p1 m _ r' w ns IH Hpr Ea eq_refl Hp1 Hne El).
    + intros q Hq. destruct (progress_rule _ _ _ _ _ _ (rule r') r' q Hpr Hin eq_refl Hq) as (v & x & Hpr').
      unfold process_rule. cbn [rule_of arg_i src_line]. rewrite Eget, Hact. unfold act_list.
      eapply (comes_same _ _ (then_loop (fun f => list_loop (f - 0) q (wrapu 24 line) r rule_arg n (m + 1)))).
      { exists 0%nat. intros f _. unfold then_loop. by rewrite Nat.sub_0_r. }
      eapply IHk; [|by rewrite Eapp]. destruct Hq as (? & ? & _ & _ & _ & _ & Hq & _).
      specialize (Hq (args_not_empty r (rule r') r' Hin eq_refl)). lia.
    + unfold process_rule. cbn [rule_of arg_i src_line]. rewrite Eget, Hact. unfold act_list. by eapply Hend.
  - pose proof (proj2 list_args) as Ho. rewrite forallb_forall in Ho. by specialize (Ho _ (proj1 (list_elem_of_In _ _) Hin)).
Qed.
End list_rule.
End rules.
