(* ===== verification/ParseParen.v ===== *)
(** The items of [(a, b)] and [\[a, b\]] in [Parse]: the rule [testlist_comp] with the
    rules of its second part, whose frames the parser discards when the items are a
    tuple of constants. *)

From Stdlib Require Import ZArith Lia.
From stdpp Require Import base option list numbers sets.
From S2P Require Import Prelude IntObj Lexer IntText HashMap HashTable HashSpec HashProps Qstr Grammar Parse ParseSpec ParseRun ParseNodes ParseRule ParseList.

Section rules.
Context {L F : Type} `{TokenLaws L} `{FloatLiterals F}.
Context (input_kind : mp_parse_input_kind_t).

Abbreviation parser := (parser_t L F).
Abbreviation node := (parse_node F).
Abbreviation comes_to := (comes_to input_kind).
Abbreviation loop := (loop input_kind).
Abbreviation then_loop := (then_loop input_kind).

Implicit Types p q : parser.
Implicit Types ns base : list node.
Implicit Types a n : node.

(** * Definitions *)

Definition comp_frame (line : Z) : rule_stack_t := {| src_line := line; rule_of := RULE_testlist_comp; arg_i := 2 |}.
Definition tail_frame (line : Z) : rule_stack_t := {| src_line := line; rule_of := RULE_testlist_comp_3b; arg_i := 2 |}.

(** The tokens [w] of the rule are read since [p0], with these frames and results
    above those of [p0]. *)
Record inside p0 (frames : list rule_stack_t) (w : list mp_token_kind_t) (rs : list node) q : Prop := {
  inside_rules : rule_stack q = frames ++ rule_stack p0;
  inside_ok : state_ok q;
  inside_reads : reads (lexer p0) w (lexer q);
  inside_left : (left (lexer q) < left (lexer p0))%nat;
  inside_consts : consts q = consts p0;
  inside_results : result_stack q = rs ++ result_stack p0;
}.

(** * The ends of the rules *)

Lemma inside_pop p0 f fs w rs q : inside p0 (f :: fs) w rs q -> inside p0 fs w rs (with_rules q (fs ++ rule_stack p0)).
Proof. by intros [? ? ? ? ? ?]. Qed.

Lemma inside_results_set p0 fs w rs rs' q : inside p0 fs w rs q -> inside p0 fs w rs' (with_results q (rs' ++ result_stack p0)).
Proof. by intros [? ? ? ? ? ?]. Qed.

(** The rule is left with its node. *)
Lemma inside_matched p0 w n q : inside p0 [] w [n] q -> derives RULE_testlist_comp w -> node_ok RULE_testlist_comp q n ->
  matched RULE_testlist_comp p0 q.
Proof. intros [Er Hok Hrd Hl Hc Hr] Hd Hn. exists w, n. split_and!; try done. split; try done. lia. Qed.

Lemma tail_not_null a n : comp_tail a n -> is_null n = false /\ is_null a = false.
Proof.
  intros [[[? _] [? _]]|[[[l ->] [? _]]|[(l & ns & ->) ->]]]; done.
Qed.

Lemma comp_args : exists more, get_rule_arg RULE_testlist_comp = Some (rule_args RULE_testlist_comp ++ more).
Proof. by apply get_rule_arg_ok. Qed.

Lemma comp_end p0 line w a n q : rule_stack p0 <> [] -> inside p0 [comp_frame line] w [n; a] q ->
  node_wf a -> node_wf n -> comp_tail a n -> derives RULE_testlist_comp w ->
  comes_to (loop q false) (rule_outcome RULE_testlist_comp p0).
Proof.
  intros Hne Hq Ha Hn Ht Hd. destruct comp_args as [more Eget]. eapply comes_step; [apply (inside_rules _ _ _ _ _ Hq)|].
  apply inside_pop in Hq. set (q' := with_rules q _) in *. clearbody q'. cbn [app] in Hq.
  unfold process_rule. cbn [comp_frame rule_of arg_i src_line]. rewrite Eget. cbn [rule_act_table grammar fst and_ident].
  cbn [act_and Nat.sub and_loop]. unfold and_done, is_lonely. rewrite andb_false_r. cbn [ebind]. unfold and_node.
  cbn [rule_args grammar snd app firstn rev]. change (take 0 more) with (@nil rule_arg). cbn [rev app count_args]. unfold peek_result.
  rewrite (inside_results _ _ _ _ _ Hq). cbn [app lookup list_lookup or_fault ebind count_args Nat.add].
  destruct (tail_not_null _ _ Ht) as [-> ->]. cbn [Nat.add Nat.eqb andb ebind].
  pose proof (push_comp_ok q' line a n (result_stack p0) (inside_ok _ _ _ _ _ Hq) (inside_results _ _ _ _ _ Hq) Ha Hn Ht) as Hm.
  rewrite (inside_rules _ _ _ _ _ Hq) in Hm. specialize (Hm Hne). unfold makes in Hm.
  destruct (push_result_rule q' line RULE_testlist_comp 2) as [e|p']; [by eapply comes_error|].
  destruct Hm as (x & [Hm1 Hm2 Hm3 Hm4] & Hok & Hc). eapply comes_goto; [done|]. apply comes_now.
  destruct Hq as [Er [Hg _] Hrd Hl Hcq Hr]. apply (inside_matched p0 w x); [|done|done].
  split; [by rewrite Hm2|by split; rewrite ?Hm3|by rewrite Hm3|by rewrite Hm3|by rewrite Hc|done].
Qed.

(** The second part is left with the node of the items, or with that of the item. *)
Lemma tail_end p0 line line' w a n q Q : inside p0 [tail_frame line; comp_frame line'] w [n; a] q -> is_null n = false ->
  (forall q', inside p0 [comp_frame line'] w [n; a] q' -> comes_to (loop q' false) Q) -> comes_to (loop q false) Q.
Proof.
  intros Hq Hn Hk. destruct (get_rule_arg_ok RULE_testlist_comp_3b ltac:(done)) as [more Eget].
  eapply comes_step; [apply (inside_rules _ _ _ _ _ Hq)|].
  apply inside_pop in Hq. set (q' := with_rules q _) in *. clearbody q'.
  unfold process_rule. cbn [tail_frame rule_of arg_i src_line]. rewrite Eget. cbn [rule_act_table grammar fst and_ident].
  cbn [act_and Nat.sub and_loop]. unfold and_done, is_lonely. rewrite andb_false_r. cbn [ebind]. unfold and_node.
  cbn [rule_args grammar snd app firstn rev]. change (take 0 more) with (@nil rule_arg). cbn [rev app count_args]. unfold peek_result.
  rewrite (inside_results _ _ _ _ _ Hq). cbn [app lookup list_lookup or_fault ebind count_args Nat.add].
  rewrite Hn. rewrite bool_decide_false by done. cbn [Nat.add Nat.eqb andb ebind].
  unfold pop_results. rewrite (inside_results _ _ _ _ _ Hq). cbn [app length Nat.leb firstn rev skipn ebind].
  assert (only_node [n] = n) as -> by (unfold only_node; cbn [List.find]; by rewrite Hn). eapply comes_goto; [done|]. apply Hk. apply (inside_results_set _ _ _ _ [n; a]) in Hq. exact Hq.
Qed.

(** A comma without items after it. *)
Lemma tail_absent p0 line line' w a q Q : inside p0 [tail_frame line; comp_frame line'] w [a] q ->
  (forall q' l, inside p0 [comp_frame line'] w [PN_STRUCT l RULE_testlist_comp_3b [PN_NULL]; a] q' -> comes_to (loop q' false) Q) ->
  comes_to (loop q true) Q.
Proof.
  intros Hq Hk. destruct (get_rule_arg_ok RULE_testlist_comp_3b ltac:(done)) as [more Eget].
  eapply comes_step; [apply (inside_rules _ _ _ _ _ Hq)|].
  apply inside_pop in Hq. set (q' := with_rules q _) in *. clearbody q'.
  unfold process_rule. cbn [tail_frame rule_of arg_i src_line]. rewrite Eget. cbn [rule_act_table grammar fst and_ident].
  cbn [act_and Nat.sub and_loop]. change ((rule_args RULE_testlist_comp_3b ++ more) !! 1%nat) with (Some (opt_rule RULE_testlist_comp_3c)).
  cbn iota. unfold and_done, is_lonely. rewrite andb_false_r. cbn [ebind]. unfold and_node.
  cbn [rule_args grammar snd app firstn rev]. change (take 0 more) with (@nil rule_arg). cbn [rev app count_args].
  unfold peek_result. cbn [push_result_node result_stack with_results lookup list_lookup or_fault ebind is_null].
  rewrite bool_decide_false by done. cbn [Nat.add Nat.eqb andb ebind].
  erewrite push_3b_ok by done. eapply comes_goto; [done|].
  apply (Hk _ line). destruct Hq as [? ? ? ? ? Hr]. split; try done. cbn. by rewrite Hr.
Qed.

(** * The items after the first *)

Lemma items_inside p0 fs w rs p1 args v ns p : inside p0 fs w rs p1 -> progress RULE_testlist_comp_3c p1 args v ns p ->
  inside p0 fs (w ++ v) (rev ns ++ rs) p.
Proof.
  intros [Er Hok Hrd Hl Hc Hr] [[Er' Hok' Hrd' Hl'] Hr' _ _ _ Hc' _]. split.
  - congruence.
  - done.
  - by eapply reads_app.
  - lia.
  - by rewrite Hc'.
  - by rewrite Hr', Hr, (assoc_L app).
Qed.

Lemma items_plain p v ns m p1 : progress RULE_testlist_comp_3c p1 (list_elems 3 (rule_args RULE_testlist_comp_3c) m) v ns p ->
  Forall node_wf ns /\ Forall plain_node ns.
Proof.
  intros Hpr. pose proof (progress_nodes _ _ _ _ _ _ Hpr) as Ha. split; [apply (arg_nodes_wf _ _ _ _ Ha)|].
  apply (arg_nodes_plain _ _ _ _ Ha). by apply (list_elems_no_opt RULE_testlist_comp_3c 3).
Qed.

Lemma const_tuple_ok r p line items : is_op_rule r = false -> node_ok r p (PN_CONST line (O_TUPLE items)).
Proof. intros Hr. destruct (const_node line (O_TUPLE items)) as [? ?]. by split; rewrite ?Hr. Qed.

Section items.
Context (p0 : parser) (line0 line1 : Z) (w : list mp_token_kind_t) (a : node).
Context (Hne : rule_stack p0 <> []) (Ha : node_wf a) (Hpa : plain_node a).
Context (Hd : forall v, derives_arg (opt_rule RULE_testlist_comp_3c) v -> derives RULE_testlist_comp (w ++ v)).

(** The items are made a node, or are a tuple of constants. *)
Lemma items_node p1 m v ns p line : inside p0 [tail_frame line1; comp_frame line0] w [a] p1 -> (1 <= m)%nat ->
  progress RULE_testlist_comp_3c p1 (list_elems 3 (rule_args RULE_testlist_comp_3c) m) v ns p ->
  comes_to (then_loop (fun _ => obind (fun p => goto_next_rule p false) (push_result_rule p line RULE_testlist_comp_3c (length ns))))
    (rule_outcome RULE_testlist_comp p0).
Proof.
  intros Hin Hm Hpr. pose proof (items_inside _ _ _ _ _ _ _ _ _ Hin Hpr) as Hp. destruct (items_plain _ _ _ _ _ Hpr) as [Hw Hpl].
  assert (derives RULE_testlist_comp (w ++ v)) as Hder by (apply Hd, D_present; by eapply (list_derives RULE_testlist_comp_3c 3)).
  pose proof (inside_results _ _ _ _ _ Hp) as Hr. rewrite <- (assoc_L app) in Hr. cbn [app] in Hr.
  pose proof (push_3c_ok p line a ns (result_stack p0) _ _ (rule_stack p0) (proj2 (inside_ok _ _ _ _ _ Hp)) Hr
    (inside_rules _ _ _ _ _ Hp) Hne eq_refl eq_refl ltac:(by constructor)) as Hpush.
  destruct (push_result_rule _ _ _ _) as [e|p']; [by eapply comes_error|]. destruct Hpush as (El & Ec & Hres).
  destruct Hp as [Er Hok Hrd Hl Hc Hr']. eapply comes_goto; [done|].
  destruct Hres as [(items & Er' & Hres)|(Er' & n & En & Hres)].
  - apply comes_now. apply (inside_matched p0 (w ++ v) (PN_CONST line (O_TUPLE items))); [|done|by apply const_tuple_ok].
    split; rewrite ?Er', ?El, ?Ec; try done. by split; rewrite ?El, ?Ec; apply Hok.
  - assert (node_wf n) as Hn.
    { subst n. constructor; [cbn; lia|by constructor]. }
    apply (tail_end p0 line1 line0 (w ++ v) n n); [|by subst n|].
    + split; rewrite ?Er', ?El, ?Ec; try done. by split; rewrite ?El, ?Ec; apply Hok.
    + intros q' Hq'. eapply comp_end; [done|done|done|done| |done]. right; right. split; [|done]. by do 2 eexists.
Qed.

Lemma items_done p1 m v ns p line (rule_arg : list Grammar.rule_arg) trail :
  inside p0 [tail_frame line1; comp_frame line0] w [a] p1 -> (1 <= m)%nat ->
  rule_arg !! 1%nat = rule_args RULE_testlist_comp_3c !! 1%nat ->
  progress RULE_testlist_comp_3c p1 (list_elems 3 (rule_args RULE_testlist_comp_3c) m) v ns p ->
  comes_to (then_loop (fun _ => obind (fun p => goto_next_rule p false) (list_done p line RULE_testlist_comp_3c rule_arg 3 (m + 1) trail)))
    (rule_outcome RULE_testlist_comp p0).
Proof.
  intros Hin Hm Hr Hpr. unfold list_done. destruct (Nat.leb_spec 1 (m + 1)); [|lia]. cbn [assert ebind].
  pose proof (list_count_ok RULE_testlist_comp_3c 3 eq_refl _ _ _ _ (progress_nodes _ _ _ _ _ _ Hpr)) as Hc.
  rewrite Nat.add_sub. pose proof (list_number RULE_testlist_comp_3c 3 eq_refl m rule_arg (or_introl Hr)) as ->.
  cbn [ebind]. rewrite <- Hc. destruct (_ && _) eqn:E; [|by eapply (items_node p1 m)].
  apply andb_true_iff in E as [E _]. apply Nat.eqb_eq in E. destruct (one_node ns E) as [x ->].
  pose proof (items_inside _ _ _ _ _ _ _ _ _ Hin Hpr) as Hp. destruct (items_plain _ _ _ _ _ Hpr) as [Hw Hpl].
  inversion Hw; inversion Hpl as [|? ? Hpx]; subst. cbn [rev app] in Hp. eapply comes_goto; [done|].
  apply (tail_end p0 line1 line0 (w ++ v) a x); [done|apply Hpx|]. intros q' Hq'.
  eapply comp_end; [done|done|done|done|by left|]. apply Hd, D_present. by apply (list_derives RULE_testlist_comp_3c 3 eq_refl m v p1 [x] p).
Qed.

Lemma items_backtrack p1 m v ns p line (rule_arg : list Grammar.rule_arg) :
  inside p0 [tail_frame line1; comp_frame line0] w [a] p1 ->
  rule_arg !! 1%nat = rule_args RULE_testlist_comp_3c !! 1%nat ->
  progress RULE_testlist_comp_3c p1 (list_elems 3 (rule_args RULE_testlist_comp_3c) m) v ns p ->
  comes_to (then_loop (fun _ => list_backtrack p line RULE_testlist_comp_3c rule_arg 3 (m + 1))) (rule_outcome RULE_testlist_comp p0).
Proof.
  intros Hin Hr Hpr. unfold list_backtrack. cbn [Nat.eqb]. destruct (Nat.eqb_spec (m + 1) 1) as [E|E].
  - assert (m = 0%nat) as -> by lia. pose proof (progress_start _ _ _ _ _ _ Hpr eq_refl) as ->. eapply comes_goto; [done|].
    apply (tail_absent p0 line1 line0 w a); [done|]. intros q' l Hq'.
    eapply comp_end; [done|done|done| | |].
    + apply wf_struct; [by left|]. constructor; [apply wf_null|constructor].
    + right; left. split; [by eexists|done].
    + rewrite <- (app_nil_r w). apply Hd. constructor.
  - destruct (Nat.odd (m + 1)); eapply items_done; try done; lia.
Qed.
End items.

(** * The rule *)

(** An item alone takes the place of the rule. *)
Lemma comp_absent p0 line w a q : inside p0 [comp_frame line] w [a] q -> node_ok RULE_testlist_comp p0 a ->
  derives RULE_testlist_comp w -> comes_to (loop q true) (rule_outcome RULE_testlist_comp p0).
Proof.
  intros Hq [Hw Hpl Hop Hn] Hd. destruct comp_args as [more Eget]. eapply comes_step; [apply (inside_rules _ _ _ _ _ Hq)|].
  apply inside_pop in Hq. set (q' := with_rules q _) in *. clearbody q'. cbn [app] in Hq.
  unfold process_rule. cbn [comp_frame rule_of arg_i src_line]. rewrite Eget. cbn [rule_act_table grammar fst and_ident].
  cbn [act_and Nat.sub and_loop]. change ((rule_args RULE_testlist_comp ++ more) !! 1%nat) with (Some (opt_rule RULE_testlist_comp_3)).
  cbn iota. unfold and_done, is_lonely. rewrite andb_false_r. cbn [ebind]. unfold and_node.
  cbn [rule_args grammar snd app firstn rev]. change (take 0 more) with (@nil rule_arg). cbn [rev app count_args].
  unfold peek_result, pop_results. cbn [push_result_node result_stack with_results lookup list_lookup or_fault ebind is_null].
  rewrite (inside_results _ _ _ _ _ Hq). cbn [Nat.add app lookup list_lookup or_fault ebind]. rewrite (proj1 Hpl).
  cbn [Nat.add Nat.eqb andb ebind app length Nat.leb firstn rev skipn].
  rewrite take_0, drop_0. cbn [rev app].
  assert (only_node [a; PN_NULL] = a) as -> by (unfold only_node; cbn [List.find]; by rewrite (proj1 Hpl)).
  eapply comes_goto; [done|]. apply comes_now. destruct Hq as [? ? ? ? Hc ?]. apply (inside_matched p0 w a); [by split|done|].
  split; [done|done|done|]. intros Hs s ->. unfold const_of. cbn. rewrite Hc. by apply Hn.
Qed.

(** The items after a comma. *)
Lemma items_start p0 line0 line1 w a p1 : smaller_ok input_kind RULE_testlist_comp p0 -> rule_stack p0 <> [] ->
  inside p0 [tail_frame line1; comp_frame line0] w [a] p1 -> node_wf a -> plain_node a ->
  (forall v, derives_arg (opt_rule RULE_testlist_comp_3c) v -> derives RULE_testlist_comp (w ++ v)) ->
  comes_to (loop (push_rule p1 (source_line (lexer p1)) RULE_testlist_comp_3c 0) false) (rule_outcome RULE_testlist_comp p0).
Proof.
  intros IH Hne Hp1 Ha Hpa Hd. destruct (get_rule_arg_ok RULE_testlist_comp_3c ltac:(done)) as [more Eget].
  eapply comes_step; [done|]. rewrite with_rules_push. unfold process_rule. cbn [rule_of arg_i src_line]. rewrite Eget.
  cbn [rule_act_table grammar fst list_with_end act_list]. set (line := wrapu 24 _).
  set (rule_arg := rule_args RULE_testlist_comp_3c ++ more) in *.
  eapply (comes_same _ _ (then_loop (fun f => list_loop (f - 0) p1 line RULE_testlist_comp_3c rule_arg 3 0))).
  { exists 0%nat. intros f _. unfold ParseRun.then_loop. by rewrite Nat.sub_0_r. }
  eapply (list_loop_ok input_kind RULE_testlist_comp_3c 3 eq_refl) with (p0 := p1).
  - intros b r' Hb Er. split; [|by eapply args_known]. repeat (apply elem_of_cons in Hb as [->|Hb]; [by simplify_eq/=|]). by apply elem_of_nil in Hb.
  - intros r p Ho Hp Hc Hr. apply IH; [done..|]. left. pose proof (inside_left _ _ _ _ _ Hp1).
    destruct Hr as [?|[? _]]; lia.
  - done.
  - intros j Hj. by apply lookup_app_l.
  - intros m l v ns p Hpr. by eapply items_backtrack.
  - apply Nat.lt_succ_diag_r.
  - apply progress_nil, (inside_ok _ _ _ _ _ Hp1).
Qed.

(** The comma and the items after it, or nothing. *)
Lemma tail_ok p0 line w a q : smaller_ok input_kind RULE_testlist_comp p0 -> rule_stack p0 <> [] ->
  inside p0 [comp_frame line] w [a] q -> node_ok RULE_testlist_comp p0 a ->
  (forall v, derives_arg (opt_rule RULE_testlist_comp_3) v -> derives RULE_testlist_comp (w ++ v)) ->
  comes_to (loop (push_rule q (source_line (lexer q)) RULE_testlist_comp_3b 0) false) (rule_outcome RULE_testlist_comp p0).
Proof.
  intros IH Hne Hq Hok Hd. destruct (get_rule_arg_ok RULE_testlist_comp_3b ltac:(done)) as [more Eget].
  eapply comes_step; [done|]. rewrite with_rules_push.
  unfold process_rule. cbn [rule_of arg_i src_line]. rewrite Eget. cbn [rule_act_table grammar fst and_ident].
  set (line' := wrapu 24 _). cbn [act_and Nat.sub and_loop].
  change ((rule_args RULE_testlist_comp_3b ++ more) !! 0%nat) with (Some (tok MP_TOKEN_DEL_COMMA)). cbn iota.
  case_bool_decide as Et.
  2: { change (0 <? 0)%nat with false. cbn iota. eapply comes_goto; [done|]. eapply comp_absent; [done|done|].
       rewrite <- (app_nil_r w). apply Hd. constructor. }
  rewrite (bool_decide_false (MP_TOKEN_DEL_COMMA = MP_TOKEN_NAME)) by done.
  destruct (eat_token_ok q RULE_testlist_comp_3b false (inside_ok _ _ _ _ _ Hq)) as (x & -> & Hx); [by rewrite Et|].
  cbn [mbind option_bind]. destruct x as [e|q1]; [by eapply comes_error|]. cbn [obind].
  destruct Hx as ([Hm1 Hm2 Hm3 Hm4] & Hl & Hcn & Hres). rewrite Et in Hm3.
  change ((rule_args RULE_testlist_comp_3b ++ more) !! (0 + 1)%nat) with (Some (opt_rule RULE_testlist_comp_3c)).
  cbn [push_rule_from_arg obind]. eapply comes_goto; [done|]. set (p1 := push_rule q1 line' RULE_testlist_comp_3b (0 + 1 + 1)).
  assert (inside p0 [tail_frame line'; comp_frame line] (w ++ [MP_TOKEN_DEL_COMMA]) [a] p1) as Hp1.
  { destruct Hq as [? ? ? ? Hc ?]. subst p1. split; cbn.
    - rewrite Hm1. subst line'. unfold tail_frame, wrapu. rewrite Z.mod_mod by done. cbn. by f_equal.
    - done.
    - by eapply reads_app.
    - lia.
    - congruence.
    - by rewrite Hres. }
  eapply items_start; [done|done|done|apply Hok|apply Hok|].
  intros v Hv. rewrite <- (assoc_L app). apply Hd, D_present. eapply (D_or _ 2 (rule RULE_testlist_comp_3b)); [done|right; left|].
  apply D_rule. eapply D_and; [done|]. change (rule_args RULE_testlist_comp_3b) with ([tok MP_TOKEN_DEL_COMMA] ++ [opt_rule RULE_testlist_comp_3c]).
  constructor; [constructor|]. rewrite <- (app_nil_r v). constructor; [done|constructor].
Qed.

(** The second part. *)
Lemma second_ok p0 line w a q : smaller_ok input_kind RULE_testlist_comp p0 -> rule_stack p0 <> [] ->
  inside p0 [comp_frame line] w [a] q -> node_ok RULE_testlist_comp p0 a ->
  (forall v, derives_arg (opt_rule RULE_testlist_comp_3) v -> derives RULE_testlist_comp (w ++ v)) ->
  comes_to (loop (push_rule q (source_line (lexer q)) RULE_testlist_comp_3 0) false) (rule_outcome RULE_testlist_comp p0).
Proof.
  intros IH Hne Hq Hok Hd. destruct (get_rule_arg_ok RULE_testlist_comp_3 ltac:(done)) as [more Eget].
  eapply comes_step; [done|]. rewrite with_rules_push.
  unfold process_rule. cbn [rule_of arg_i src_line]. rewrite Eget. cbn [rule_act_table grammar fst or_].
  set (line' := wrapu 24 _). cbn [Nat.ltb Nat.leb andb Nat.sub act_or].
  change ((rule_args RULE_testlist_comp_3 ++ more) !! 0%nat) with (Some (rule RULE_comp_for)). cbn iota.
  change (0 + 1 <? 2)%nat with true. cbn iota.
  apply (call_ok input_kind q line' RULE_testlist_comp_3 (0 + 1) (rule RULE_comp_for) RULE_comp_for);
    [apply (inside_ok _ _ _ _ _ Hq)|done| | |].
  - intros p1 Hp1 _ El. apply IH; [done|done|by intros ?|]. left. rewrite El. apply (inside_left _ _ _ _ _ Hq).
  - intros q' (v & n & [Hm1 Hm2 Hm3 Hm4] & Hder & Hres & Hn & Hlt & Hcs). unfold process_rule. cbn [rule_of arg_i src_line].
    rewrite Eget. cbn [rule_act_table grammar fst or_ Nat.ltb Nat.leb Nat.add negb andb]. eapply comes_goto; [done|].
    destruct Hq as [? ? ? ? ? Hr]. apply (comp_end p0 line (w ++ v) a n); [done| |apply Hok|apply Hn| |].
    + split; [congruence|done|by eapply reads_app|lia|rewrite Hcs by done; done|by rewrite Hres, Hr].
    + left. split; [apply Hn|apply Hok].
    + apply Hd, D_present. eapply (D_or _ 2 (rule RULE_comp_for)); [done|left|by constructor].
  - unfold process_rule. cbn [rule_of arg_i src_line]. rewrite Eget. cbn [rule_act_table grammar fst or_].
    rewrite andb_false_r. cbn [Nat.add Nat.sub act_or].
    change ((rule_args RULE_testlist_comp_3 ++ more) !! 1%nat) with (Some (rule RULE_testlist_comp_3b)). cbn iota.
    change (1 + 1 <? 2)%nat with false. cbn [push_rule_from_arg obind]. eapply comes_goto; [done|]. by apply (tail_ok p0 line w a).
Qed.

Lemma comp_ok p0 : smaller_ok input_kind RULE_testlist_comp p0 -> state_ok p0 -> rule_stack p0 <> [] ->
  comes_to (tries input_kind RULE_testlist_comp p0) (rule_outcome RULE_testlist_comp p0).
Proof.
  intros IH Hp Hne. destruct comp_args as [more Eget]. eapply comes_step; [done|]. rewrite with_rules_push.
  unfold process_rule. cbn [rule_of arg_i src_line]. rewrite Eget. cbn [rule_act_table grammar fst and_ident].
  set (line := wrapu 24 _). cbn [act_and Nat.sub and_loop].
  change ((rule_args RULE_testlist_comp ++ more) !! 0%nat) with (Some (rule RULE_testlist_comp_2)). cbn iota.
  apply (call_ok input_kind p0 line RULE_testlist_comp (0 + 1) (rule RULE_testlist_comp_2) RULE_testlist_comp_2); [done|done| | |].
  - intros p1 Hp1 _ El. apply IH; [done|done|by intros ?|]. right. rewrite El. split; [done|cbn; lia].
  - intros q (w & a & [Hm1 Hm2 Hm3 Hm4] & Hder & Hres & Ha & Hlt & Hcs). unfold process_rule. cbn [rule_of arg_i src_line].
    rewrite Eget. cbn [rule_act_table grammar fst and_ident act_and Nat.add Nat.sub and_loop].
    change ((rule_args RULE_testlist_comp ++ more) !! 1%nat) with (Some (opt_rule RULE_testlist_comp_3)). cbn iota.
    cbn [push_rule_from_arg obind]. eapply comes_goto; [done|]. specialize (Hlt eq_refl). specialize (Hcs eq_refl).
    apply (second_ok p0 (wrapu 24 (wrapu 24 line)) w a); [done|done| | |].
    + split; cbn; [by rewrite Hm1|done|done|done|done|by rewrite Hres].
    + destruct Ha as [Hw Hpl Hop Hn]. split; [done|done|done|]. intros _ s ->. unfold const_of. rewrite <- Hcs. by apply Hn.
    + intros v Hv. eapply D_and; [done|]. change (rule_args RULE_testlist_comp) with ([rule RULE_testlist_comp_2] ++ [opt_rule RULE_testlist_comp_3]).
      constructor; [by constructor|]. rewrite <- (app_nil_r v). constructor; [done|constructor].
  - unfold process_rule. cbn [rule_of arg_i src_line]. rewrite Eget. cbn [rule_act_table grammar fst and_ident act_and Nat.add].
    change ((rule_args RULE_testlist_comp ++ more) !! 0%nat) with (Some (rule RULE_testlist_comp_2)). cbn iota.
    change (1 <? 1)%nat with false. cbn iota. eapply comes_goto; [done|]. by apply comes_now.
Qed.
End rules.
