(* ===== verification/ParseRules.v ===== *)
(** Every rule of the grammar in [Parse], by induction on the tokens left and on the
    rank of the rule; the whole parser. *)

From Stdlib Require Import ZArith Lia.
From stdpp Require Import base option list numbers sets.
From S2P Require Import Prelude IntObj Lexer IntText HashMap HashTable HashSpec HashProps Qstr Grammar Parse ParseSpec ParseRun ParseNodes ParseRule ParseList ParseParen.

Section rules.
Context {L F : Type} `{TokenLaws L} `{FloatLiterals F}.
Context (input_kind : mp_parse_input_kind_t).

Abbreviation parser := (parser_t L F).
Abbreviation node := (parse_node F).
Abbreviation comes_to := (comes_to input_kind).

Implicit Types p q : parser.

(** * One rule *)

Lemma args_ordinary r a r' : ordinary r -> r <> RULE_testlist_comp -> a ∈ rule_args r -> arg_rule a = Some r' -> ordinary r'.
Proof. intros [Hs _] Hc Ha Er. split; [by apply (args_special r a)|by apply (args_known r a)]. Qed.

Lemma rule_ok r p : ordinary r -> state_ok p -> ctx_ok r p -> smaller_ok input_kind r p ->
  comes_to (tries input_kind r p) (rule_outcome r p).
Proof.
  intros Hord Hp Hctx IH. destruct (decide (r = RULE_testlist_comp)) as [->|Hc]; [apply comp_ok; auto|].
  destruct (get_rule_arg_ok r (proj2 Hord)) as [more Eget].
  eapply comes_step; [done|]. rewrite with_rules_push. unfold process_rule. cbn [rule_of arg_i src_line]. rewrite Eget.
  assert (forall n, (n <= length (rule_args r))%nat -> forall i, (i < n)%nat -> (rule_args r ++ more) !! i = rule_args r !! i) as Harg.
  { intros n Hn i Hi. apply lookup_app_l. lia. }
  pose proof (shape_ok r) as Hsh. unfold shape in Hsh. destruct (rule_act_table r) as [|n|n ident blank|n] eqn:Eact.
  - apply bool_decide_eq_true in Hsh. by destruct Hord.
  - apply andb_true_iff in Hsh as [Hlen _]. apply Nat.eqb_eq in Hlen. change (0 <? 0)%nat with false. cbn [andb].
    rewrite Nat.sub_0_r. apply or_ok; auto; [apply Harg|]; lia.
  - unfold act_and. destruct (and_args r n ident blank Eact) as [Hlen _]. eapply (and_loop_ok input_kind r n ident blank Eact Hord Hc p); auto.
    + apply Harg. lia.
    + by rewrite <- Hlen, take_app_length.
    + lia.
    + by apply progress_nil.
  - unfold act_list.
    eapply (comes_same _ _ (then_loop input_kind (fun f => list_loop (f - 0) p _ r _ n 0))).
    { exists 0%nat. intros f _. unfold then_loop. by rewrite Nat.sub_0_r. }
    eapply (list_loop_ok input_kind r n Eact); [by intros a r'; apply args_ordinary|done|done|by apply Harg| |apply Nat.lt_succ_diag_r|by apply progress_nil].
    intros m line w ns q Hpr. eapply (list_backtrack_ok input_kind r n Eact) with (m := m);
      [by intros a r'; apply args_ordinary|done|by apply Harg|done].
Qed.

Lemma rules_ok : forall l k r p, (left (lexer p) < l)%nat -> (rank r < k)%nat ->
  ordinary r -> state_ok p -> ctx_ok r p -> comes_to (tries input_kind r p) (rule_outcome r p).
Proof.
  intros l. induction l as [|l IHl]; intros k r p Hl Hk; [lia|]. revert r p Hl Hk.
  induction k as [|k IHk]; intros r p Hl Hk Hord Hp Hctx; [lia|]. apply rule_ok; try done.
  intros r' p' Hord' Hp' Hctx' [Hs|[Hs Hr]].
  - by apply (IHl (S (rank r'))); [lia|lia|..].
  - by apply IHk; [lia|lia|..].
Qed.

(** Every rule is matched, leaves the state as it was, or ends with an exception. *)
Lemma tries_ok r p : ordinary r -> state_ok p -> ctx_ok r p -> comes_to (tries input_kind r p) (rule_outcome r p).
Proof. apply (rules_ok (S (left (lexer p))) (S (rank r))); lia. Qed.

(** * More fuel *)

Lemma list_loop_mono line r rule_arg n : forall f f' p i x, (f <= f')%nat ->
  list_loop f p line r rule_arg n i = Some x -> list_loop f' p line r rule_arg n i = Some x.
Proof.
  intros f. induction f as [|f IH]; [done|]. intros [|f'] p i x Hf E; [lia|]. cbn [list_loop] in *.
  destruct (rule_arg !! _) as [[t|r'|r']|]; try done. destruct (bool_decide _); [|done].
  destruct (eat_token p r _) as [[e|p']|]; [done| |done]. cbn [mbind option_bind obind] in *. apply IH; [lia|done].
Qed.

Lemma process_rule_mono f f' p r b x : (f <= f')%nat -> process_rule f input_kind p r b = Some x -> process_rule f' input_kind p r b = Some x.
Proof.
  intros Hf. unfold process_rule. destruct (get_rule_arg _) as [args|]; [|done]. destruct (rule_act_table _) as [| | |n]; try done.
  unfold act_list. destruct b; [done|]. by apply list_loop_mono.
Qed.

Lemma parse_loop_mono f : forall f' p b x, (f <= f')%nat -> parse_loop f input_kind p b = Some x -> parse_loop f' input_kind p b = Some x.
Proof.
  induction f as [|f IH]; intros [|f'] p b x Hf; [done| |lia|]; cbn [parse_loop]; [by destruct (rule_stack p)|].
  destruct (rule_stack p) as [|r rs]; [done|].
  destruct (process_rule f input_kind _ r b) as [s|] eqn:E; [|done]. rewrite (process_rule_mono f f' _ _ _ s) by (done || lia).
  cbn [mbind option_bind]. destruct s as [e|[p' b']]; [done|]. apply IH. lia.
Qed.

Lemma mp_parse_mono f f' lex i x : (f <= f')%nat -> mp_parse f lex i input_kind = Some x -> mp_parse f' lex i input_kind = Some x.
Proof.
  intros Hf. unfold mp_parse. set (p := push_rule _ _ _ _). destruct (parse_loop f input_kind p false) as [y|] eqn:E; [|done].
  by rewrite (parse_loop_mono f f' _ _ y).
Qed.

(** * The parser *)

(** What a tree that is returned stands for. *)
Record accepted (lex : L) (n : node) p : Prop := {
  accepted_tokens : exists w, reads lex w (lexer p) /\ derives (top_level_rule input_kind) w;
  accepted_end : source_kind (lexer p) = MP_TOKEN_END;
  accepted_wf : node_wf n;
  accepted_plain : plain_node n;
}.

Lemma top_level_ordinary : ordinary (top_level_rule input_kind) /\ needs_parent (top_level_rule input_kind) = false.
Proof. by destruct input_kind. Qed.

Lemma mp_parse_ok lex i : good lex -> exists fuel x, mp_parse fuel lex i input_kind = Some x /\
  match x with inl e => is_crash e = false | inr (n, p) => accepted lex n p end.
Proof.
  intros Hg. set (p0 := {| rule_stack := []; result_stack := []; lexer := lex; consts := mp_map_init 0; interned := i |} : parser).
  destruct top_level_ordinary as [Hord Hnp].
  assert (state_ok p0) as Hp by (split; [done|apply dict_ok_init]).
  destruct (tries_ok (top_level_rule input_kind) p0 Hord Hp) as [(p & b & (N & HN) & HP)|(e & He & N & HN)].
  { intros Hn. by rewrite Hnp in Hn. }
  - destruct (HN N ltac:(lia)) as (f' & _ & E). exists N.
    assert (mp_parse N lex i input_kind = (r ← parse_loop f' input_kind p b; Some (p ←e r; parse_end p))) as ->.
    { unfold mp_parse. fold p0. unfold tries in E. cbn [lexer p0] in E. by rewrite E. }
    assert (rule_stack p = []) as Er.
    { destruct b; cbn in HP; [by subst|]. destruct HP as (w & n & [Er _ _ _] & _). done. }
    assert (parse_loop f' input_kind p b = Some (inr p)) as -> by (destruct f'; cbn [parse_loop]; by rewrite Er).
    cbn [mbind option_bind ebind]. eexists. split; [done|]. unfold parse_end.
    destruct b; cbn in HP; [subst p; cbn [result_stack p0 length Nat.eqb]; rewrite orb_true_r; done|].
    destruct HP as (w & n & [_ _ Hrd _] & Hd & Hres & Hok & _). rewrite Hres. cbn [p0 result_stack length Nat.eqb]. rewrite orb_false_r.
    case_bool_decide as Ek; cbn [negb]; [|done]. cbn [assert ebind]. unfold peek_result. rewrite Hres. cbn.
    split; [by exists w|done|apply Hok|apply Hok].
  - exists N, (inl e). split; [|done]. unfold mp_parse. fold p0. pose proof (HN N ltac:(lia)) as E. unfold tries in E.
    cbn [lexer p0] in E. by rewrite E.
Qed.
End rules.
