(* ===== verification/ParseFold.v ===== *)
(** What the folding of constants of [Parse] means: the value and the effects of
    [or] and [and] are kept, and the operators of integers give the integers they
    stand for. *)

From Stdlib Require Import ZArith Lia.
From stdpp Require Import base option list numbers.
From S2P Require Import Prelude IntObj IntSpec IntProps Lexer IntText HashMap Qstr Grammar Parse ParseSpec ParseRun ParseNodes.

(** * Definitions *)

Section logical.
Context {F V : Type} `{FloatLiterals F}.
Context (val : parse_node F -> V) (truth : V -> bool).

Abbreviation node := (parse_node F).

Implicit Types n : node.
Implicit Types ns kept : list node.

Definition is_constant n : bool := match mp_parse_node_is_const n with inr b => b | inl _ => false end.

(** The value of a constant node is true when its object is. *)
Definition agrees : Prop := forall n o b,
  mp_parse_node_is_const n = inr true -> mp_parse_node_convert_to_obj n = inr o -> mp_obj_is_true o = inr b ->
  truth (val n) = b.

(** The value of [a or b or ...] ([a and b and ...]): that of the first operand that
    decides it, or of the last. *)
Fixpoint chain_value (is_or : bool) ns : option V :=
  match ns with
  | [] => None
  | n :: rest =>
      if (length rest =? 0)%nat || Bool.eqb (truth (val n)) is_or then Some (val n) else chain_value is_or rest
  end.

(** The operands that are evaluated, but for the constants. *)
Fixpoint effects (is_or : bool) ns : list node :=
  match ns with
  | [] => []
  | n :: rest =>
      (if is_constant n then [] else [n]) ++
      (if (length rest =? 0)%nat || Bool.eqb (truth (val n)) is_or then [] else effects is_or rest)
  end.

(** No constant is before the last operand. *)
Fixpoint last_only ns : Prop :=
  match ns with
  | [] => True
  | n :: rest => (rest <> [] -> is_constant n = false) /\ last_only rest
  end.

(** * Logical operators *)

Lemma const_bool_true n v : agrees -> parse_node_is_const_bool n v = inr true -> is_constant n = true /\ truth (val n) = v.
Proof.
  intros Ha. unfold parse_node_is_const_bool, is_constant. destruct (mp_parse_node_is_const n) as [e|[]] eqn:Ec; cbn [ebind]; try done.
  destruct (mp_parse_node_convert_to_obj n) as [e|o] eqn:Eo; cbn [ebind]; [done|].
  destruct (mp_obj_is_true o) as [e|b] eqn:Eb; cbn [ebind]; [done|]. intros [= Et]. split; [done|].
  rewrite (Ha n o b Ec Eo Eb). by apply eqb_true_iff.
Qed.

Lemma const_bool_false n v : agrees -> parse_node_is_const_bool n v = inr false -> is_constant n = true -> truth (val n) = negb v.
Proof.
  intros Ha. unfold parse_node_is_const_bool, is_constant. destruct (mp_parse_node_is_const n) as [e|[]] eqn:Ec; cbn [ebind]; try done.
  destruct (mp_parse_node_convert_to_obj n) as [e|o] eqn:Eo; cbn [ebind]; [done|].
  destruct (mp_obj_is_true o) as [e|b] eqn:Eb; cbn [ebind]; [done|]. intros [= Et] _.
  rewrite (Ha n o b Ec Eo Eb). by destruct b, v.
Qed.

Lemma fold_spec_cons_nonempty is_or n ns kept : fold_spec is_or (n :: ns) = inr kept -> kept <> [].
Proof. intros E. by destruct (fold_spec_sub _ _ _ E) as [_ Hk]; apply Hk. Qed.

Lemma fold_spec_value is_or ns : agrees -> forall kept, fold_spec is_or ns = inr kept ->
  chain_value is_or kept = chain_value is_or ns /\ effects is_or kept = effects is_or ns /\ last_only kept.
Proof.
  intros Ha. induction ns as [|n ns IH]; intros kept; cbn [fold_spec]; [by intros [= <-]|].
  destruct (Nat.eqb_spec (length ns) 0) as [E|E].
  { intros [= <-]. destruct ns; [|done]. by cbn. }
  assert ((if is_or then mp_parse_node_is_const_true n else mp_parse_node_is_const_false n) = parse_node_is_const_bool n is_or) as ->
    by (by destruct is_or).
  assert ((if is_or then mp_parse_node_is_const_false n else mp_parse_node_is_const_true n) = parse_node_is_const_bool n (negb is_or)) as ->
    by (by destruct is_or).
  destruct (parse_node_is_const_bool n is_or) as [e|[]] eqn:E1; cbn [ebind]; [done| |].
  { intros [= <-]. destruct (const_bool_true n is_or Ha E1) as [Hc Ht]. cbn. rewrite Ht, eqb_reflx, orb_true_r. done. }
  destruct (parse_node_is_const_bool n (negb is_or)) as [e|[]] eqn:E2; cbn [ebind]; [done| |].
  - intros Ek. destruct (const_bool_true n _ Ha E2) as [Hc Ht]. destruct (IH kept Ek) as (-> & -> & ?).
    cbn [chain_value effects]. rewrite Ht, Hc, eqb_negb1. destruct (Nat.eqb_spec (length ns) 0); [done|]. done.
  - destruct (fold_spec is_or ns) as [e|k] eqn:Ek; [done|]. intros [= <-]. destruct (IH k eq_refl) as (Hv & He & Hl).
    assert (is_constant n = false) as Hn.
    { apply not_true_is_false. intros Hn. pose proof (const_bool_false n _ Ha E1 Hn) as T1.
      pose proof (const_bool_false n _ Ha E2 Hn) as T2. rewrite T1 in T2. by destruct is_or. }
    assert (length k <> 0%nat) as Hk.
    { destruct ns as [|m ns]; [done|]. pose proof (fold_spec_cons_nonempty _ _ _ _ Ek). by destruct k. }
    cbn [chain_value effects last_only]. destruct (Nat.eqb_spec (length k) 0), (Nat.eqb_spec (length ns) 0); try done.
    cbn [orb]. rewrite Hv, He. split_and!; try done.
Qed.
End logical.

(** * Operators on integers *)

(** What is done with the integers of a chain of operators. *)
Inductive folding := FOLDED (v : Z) | NOT_FOLDED | RAISES (e : IntObj.exn).

Definition chain_op (t : mp_token_kind_t) : option binary_op :=
  match t with
  | MP_TOKEN_OP_DBL_LESS => Some OP_LSHIFT
  | MP_TOKEN_OP_DBL_MORE => Some OP_RSHIFT
  | MP_TOKEN_OP_PLUS => Some OP_ADD
  | MP_TOKEN_OP_MINUS => Some OP_SUBTRACT
  | MP_TOKEN_OP_STAR => Some OP_MULTIPLY
  | MP_TOKEN_OP_DBL_SLASH => Some OP_FLOOR_DIVIDE
  | MP_TOKEN_OP_PERCENT => Some OP_MODULO
  | _ => None
  end.

(** The operands that would raise are left to the run time. *)
Definition would_raise (op : binary_op) (b : Z) : bool :=
  match op with
  | OP_LSHIFT | OP_RSHIFT => b <? 0
  | OP_FLOOR_DIVIDE | OP_MODULO => b =? 0
  | _ => false
  end.

(** The operators from the left, in Python's semantics of integers. *)
Fixpoint fold_ref (v : Z) (rest : list (mp_token_kind_t * option Z)) : folding :=
  match rest with
  | [] => FOLDED v
  | (t, w) :: rest =>
      match chain_op t, w with
      | Some op, Some w =>
          if would_raise op w then NOT_FOLDED else
          match py_binary op v w with
          | inr (V_INT u) => fold_ref u rest
          | inl e => RAISES e
          | _ => NOT_FOLDED
          end
      | _, _ => NOT_FOLDED
      end
  end.

Section integers.
Context {L F : Type} `{TokenSource L} `{FloatLiterals F}.

Abbreviation parser := (parser_t L F).
Abbreviation node := (parse_node F).

Implicit Types p : parser.
Implicit Types n : node.
Implicit Types ns rest base : list node.

Definition int_of n : option Z := ival <$> mp_parse_node_get_int_maybe n.

(** The node is not an integer, or is a well formed one. *)
Definition int_node_ok n : Prop := forall o, mp_parse_node_get_int_maybe n = Some o -> int_ok o.

(** Operators and operands in turn. *)
Fixpoint operations rest : option (list (mp_token_kind_t * option Z)) :=
  match rest with
  | [] => Some []
  | PN_TOKEN t :: n :: rest => ops ← operations rest; Some ((t, int_of n) :: ops)
  | _ => None
  end.

Definition chain_tokens : list mp_token_kind_t :=
  [MP_TOKEN_OP_DBL_LESS; MP_TOKEN_OP_DBL_MORE; MP_TOKEN_OP_PLUS; MP_TOKEN_OP_MINUS; MP_TOKEN_OP_STAR;
   MP_TOKEN_OP_AT; MP_TOKEN_OP_DBL_SLASH; MP_TOKEN_OP_SLASH; MP_TOKEN_OP_PERCENT].

Definition chain_ref n (ops : list (mp_token_kind_t * option Z)) : folding :=
  match int_of n with Some v => fold_ref v ops | None => NOT_FOLDED end.

(** The outcome of folding that the reference asks for. *)
Definition folds (m : perr (option int_obj)) (f : folding) : Prop :=
  match f with
  | FOLDED v => exists o, m = inr (Some o) /\ int_ok o /\ ival o = v
  | NOT_FOLDED => m = inr None
  | RAISES e => m = inl (E_INT e)
  end.

Lemma chain_op_offset t : t ∈ chain_tokens ->
  match chain_op t with
  | Some op => exists off, token_offset t = Some off /\ operators_from_lshift !! off = Some (Some op) /\
      t <> MP_TOKEN_OP_AT /\ t <> MP_TOKEN_OP_SLASH /\
      (forall w, (off <=? 1)%nat && (Z.sgn w <? 0) || ((6 <=? off)%nat && (Z.sgn w =? 0)) = would_raise op w) /\
      (forall l r, regular op l r)
  | None => t = MP_TOKEN_OP_AT \/ t = MP_TOKEN_OP_SLASH
  end.
Proof.
  intros Ht. assert (forall w, (Z.sgn w <? 0) = (w <? 0)) as Hlt by (intros []; done).
  assert (forall w, (Z.sgn w =? 0) = (w =? 0)) as Heq by (intros []; done).
  unfold chain_tokens in Ht. repeat (apply elem_of_cons in Ht as [->|Ht]; cbn [chain_op]; [first [by left|by right|
    eexists; split_and!; [reflexivity|reflexivity|done|done|intros w; cbn; rewrite ?Hlt, ?Heq, ?orb_false_r; done|done]]|]).
  by apply elem_of_nil in Ht.
Qed.

(** One operator. *)
Lemma binary_gives op (a b : int_obj) : int_ok a -> int_ok b -> regular op a b ->
  match py_binary op (ival a) (ival b) with
  | inr (V_INT u) => exists o, int_value (mp_binary_op op a b) = inr o /\ int_ok o /\ ival o = u
  | inl e => int_value (mp_binary_op op a b) = inl (E_INT e)
  | _ => True
  end.
Proof.
  intros Ha Hb Hr. pose proof (mp_binary_op_ok op a b Ha Hb Hr) as G. unfold gives in G.
  destruct (py_binary op (ival a) (ival b)) as [e|[u|b'| |]]; try done; [by rewrite G|].
  destruct G as (r & -> & Hd). destruct r; try done. by eexists.
Qed.

Lemma py_binary_chain t op v w : chain_op t = Some op -> would_raise op w = false ->
  (exists u, py_binary op v w = inr (V_INT u)) \/ (exists e, py_binary op v w = inl e).
Proof.
  intros Ht Hw. destruct t; try done; injection Ht as <-; cbn in *; unfold py_shift, nonzero; rewrite ?Hw;
    repeat case_match; eauto.
Qed.

Lemma fold_term_ref p base : forall rest pre arg0 ops,
  result_stack p = rev (pre ++ rest) ++ base -> operations rest = Some ops ->
  Forall (fun tw => fst tw ∈ chain_tokens) ops -> Forall int_node_ok rest -> int_ok arg0 ->
  folds (fold_term_loop p (length rest - 1) arg0) (fold_ref (ival arg0) ops).
Proof.
  intros rest. induction rest as [rest IH] using (induction_ltof1 _ (@length node)).
  intros pre arg0 ops Ep Eops Ht Hok Ha.
  destruct rest as [|[| | | |t| |] [|n rest]]; try done; cbn [operations] in Eops; [by simplify_eq; exists arg0|].
  destruct (operations rest) as [ops'|] eqn:Er; [|done]. cbn in Eops. simplify_eq. inversion Ht as [|? ? Ht0 Ht']; subst.
  inversion Hok as [|? ? _ Hok']; inversion Hok' as [|? ? Hn Hrest]; subst. cbn [length fold_ref].
  replace (S (S (length rest)) - 1)%nat with (S (length rest)) by lia. cbn [fold_term_loop].
  destruct (peek_rev p _ base (length rest) Ep) as (m & Em & ->); [rewrite length_app; cbn; lia|].
  rewrite length_app in Em. cbn [length] in Em.
  replace (length pre + S (S (length rest)) - 1 - length rest)%nat with (S (length pre)) in Em by lia.
  rewrite lookup_app_r in Em by lia. replace (S (length pre) - length pre)%nat with 1%nat in Em by lia. cbn in Em. simplify_eq.
  cbn [ebind]. unfold int_of. destruct (mp_parse_node_get_int_maybe m) as [arg1|] eqn:E1; cbn [fmap option_fmap option_map];
    [|by destruct (chain_op t)].
  destruct (peek_rev p _ base (S (length rest)) Ep) as (x & Ex & ->); [rewrite length_app; cbn; lia|].
  rewrite length_app in Ex. cbn [length] in Ex.
  replace (length pre + S (S (length rest)) - 1 - S (length rest))%nat with (length pre) in Ex by lia.
  rewrite lookup_app_r, Nat.sub_diag in Ex by lia. cbn in Ex. simplify_eq. cbn [ebind leaf_token].
  pose proof (chain_op_offset t Ht0) as Hop. destruct (chain_op t) as [op|] eqn:Eop.
  2: { by destruct Hop as [->| ->]. }
  destruct Hop as (off & Eoff & Eo & Hat & Hsl & Hw & Hreg). rewrite (bool_decide_false _ Hat), (bool_decide_false _ Hsl). cbn [orb].
  rewrite Eoff. cbn [or_fault ebind]. rewrite Eo. cbn [mjoin option_join or_fault ebind].
  specialize (Hw (ival arg1)). rewrite (int_sign_ok _ (Hn _ E1)).
  destruct (would_raise op (ival arg1)) eqn:Ew.
  { apply orb_true_iff in Hw as [->| ->]; [done|]. by destruct (_ && _). }
  apply orb_false_iff in Hw as [-> ->].
  pose proof (binary_gives op arg0 arg1 Ha (Hn _ E1) (Hreg _ _)) as G.
  destruct (py_binary_chain t op (ival arg0) (ival arg1) Eop Ew) as [[u Eu]|[e Ee]]; [|by rewrite Ee in *; rewrite G].
  rewrite Eu in *. destruct G as (o & -> & Ho & <-). cbn [ebind].
  assert (folds (fold_term_loop p (length rest - 1) o) (fold_ref (ival o) ops')) as Hrec.
  { apply (IH rest ltac:(unfold ltof; cbn; lia) (pre ++ [PN_TOKEN t; m])); try done.
    by rewrite <- (assoc_L app). }
  destruct rest as [|y rest]; cbn [length] in *; [exact Hrec|]. by rewrite Nat.sub_1_r in Hrec.
Qed.

(** The rule is replaced by the node of its value, or nothing changes. *)
Lemma fold_chain_ok push_pass p r n rest base ops :
  result_stack p = rev (n :: rest) ++ base -> r ∈ [RULE_shift_expr; RULE_arith_expr; RULE_term] ->
  operations rest = Some ops -> Forall (fun tw => fst tw ∈ chain_tokens) ops -> Forall int_node_ok (n :: rest) ->
  match chain_ref n ops with
  | FOLDED v => exists o, int_ok o /\ ival o = v /\
      fold_constants push_pass p r (length (n :: rest)) =
        inr (with_results p (make_node_const_object_optimised 0 (O_INT o) :: base), true)
  | NOT_FOLDED => fold_constants push_pass p r (length (n :: rest)) = inr (p, false)
  | RAISES e => fold_constants push_pass p r (length (n :: rest)) = inl (E_INT e)
  end.
Proof.
  intros Ep Hr Eops Ht Hok. inversion Hok as [|? ? Hn Hrest]; subst.
  assert (fold_constants push_pass p r (length (n :: rest)) =
    (x ←e fold_int p RULE_term (length (n :: rest));
     match x with
     | None => inr (p, false)
     | Some arg0 =>
         '(_, p) ←e pop_results p (length (n :: rest));
         inr (push_result_node p (make_node_const_object_optimised 0 (O_INT arg0)), true)
     end)) as ->.
  { repeat (apply elem_of_cons in Hr as [->|Hr]; [done|]). by apply elem_of_nil in Hr. }
  unfold fold_int, chain_ref, int_of.
  destruct (peek_rev p _ base (length (n :: rest) - 1) Ep) as (m & Em & ->); [cbn; lia|].
  rewrite Nat.sub_diag in Em. cbn in Em. simplify_eq. cbn [ebind].
  destruct (mp_parse_node_get_int_maybe m) as [arg0|] eqn:E0; cbn [fmap option_fmap option_map]; [|done].
  pose proof (fold_term_ref p base rest [m] arg0 ops Ep Eops Ht Hrest (Hn _ E0)) as Hf. unfold folds in Hf.
  replace (length (m :: rest) - 2)%nat with (length rest - 1)%nat by (cbn; lia).
  destruct (fold_ref (ival arg0) ops) as [v| |e]; [|by rewrite Hf..].
  destruct Hf as (o & -> & Ho & Ev). exists o. split; [done|]. split; [done|]. cbn [ebind]. by rewrite (pop_rev p (m :: rest) base Ep).
Qed.
End integers.
