(* ===== verification/ParseProps.v ===== *)
(** The theorems on the parser: it ends on every source, what it accepts is in the
    language of the grammar, its trees have the shapes of the grammar, and folding
    constants keeps the meaning. *)

From Stdlib Require Import ZArith Lia Ascii String.
From stdpp Require Import base option list numbers.
From S2P Require Import Prelude IntObj IntSpec Lexer LexSpec LexProps IntText HashMap HashTable HashSpec HashProps Qstr QstrProps Grammar Parse ParseSpec ParseRun ParseNodes ParseRule ParseList ParseParen ParseRules ParseFold.

Open Scope string_scope.
Open Scope list_scope.
Open Scope Z_scope.

(** * Definitions *)

(** The lexer of [Lexer] on a source keeps the promises the parser relies on. *)
Section lexer_laws.
Context (fuel : nat) (opt : Z) (src : list Z).
Context (Hb : Forall is_byte src) (Hu : unnested fuel opt src) (Hf : (fuel_for src < fuel)%nat).

Definition lexer_laws : @TokenLaws mp_lexer_t (lexer_source fuel opt).
Proof.
  refine {|
    good := fun lex => exists kinds, lexes fuel opt src kinds lex;
    left := fun lex => if is_end_kind (Lexer.tok_kind lex) then 0%nat else S (Z.to_nat (pending lex));
  |}.
  intros lex [kinds Hl] Hk. cbn [source_kind source_next lexer_source] in *. rewrite Hk.
  destruct (lexes_ok fuel opt src kinds lex Hb Hf Hu Hl) as [Hok Hr].
  destruct (mp_lexer_to_next_fine fuel opt lex Hok (Hu _ _ Hl) Hr) as (x & E & Hx). exists x. split; [done|].
  destruct x as [e|l']; [by rewrite Hx|]. destruct Hx as (_ & _ & _ & Hend).
  split; [eexists; by eapply lexes_next|].
  destruct (is_end_kind (Lexer.tok_kind l')) eqn:Ek'; [lia|]. pose proof (pending_nonneg l').
  destruct Hend as [E'|[E'|Hp]]; [rewrite E' in Ek'; done..|lia].
Defined.
End lexer_laws.

(** A list of tokens, each with its text, is also a source of tokens. *)
#[export] Instance list_source : TokenSource (list (mp_token_kind_t * text)) := {
  source_kind l := match l with (k, _) :: _ => k | [] => MP_TOKEN_END end;
  source_line l := 1;
  source_text l := match l with (_, s) :: _ => s | [] => [] end;
  source_next l := Some (inr (tail l));
}.

#[export] Instance list_laws : TokenLaws (list (mp_token_kind_t * text)).
Proof.
  refine {| good := fun _ => True; left := @length _ |}. intros [|[k s] l] _ Hk; [done|].
  eexists. split; [done|]. cbn. split; [done|lia].
Defined.

(** A source is read by a lexer and parsed: the fuel of the parser and of the lexer. *)
Definition parse_source {F} `{FloatLiterals F} (pf lf : nat) (opt : Z) (src : list Z) (interned : list text)
    (input_kind : mp_parse_input_kind_t) : option (perr (parse_node F * parser_t mp_lexer_t F)) :=
  r ← mp_lexer_new lf opt src;
  match r with
  | inr lex => mp_parse (H := lexer_source lf opt) pf lex interned input_kind
  | inl e => Some (inl (E_LEXER e))
  end.

(** * The parser *)

Section source.
Context {F : Type} `{FloatLiterals F}.
Context (input_kind : mp_parse_input_kind_t) (lf : nat) (opt : Z) (src : list Z) (i : list text).
Context (Hb : Forall is_byte src) (Hu : unnested lf opt src) (Hf : (fuel_for src < lf)%nat).

Lemma parse_source_ok : exists N x, (forall pf, (N <= pf)%nat -> parse_source pf lf opt src i input_kind = Some x) /\
  match x with
  | inl e => is_crash e = false
  | inr (n, p) => exists lex, mp_lexer_new lf opt src = Some (inr lex) /\
      accepted (H := lexer_source lf opt) input_kind lex n p
  end.
Proof.
  unfold parse_source. destruct (mp_lexer_new_fine lf opt src Hb Hf) as ([e|lex] & El & Hl); rewrite El; cbn [mbind option_bind].
  { exists 0%nat, (inl (E_LEXER e)). by rewrite Hl. }
  destruct (mp_parse_ok (H := lexer_source lf opt) (H0 := lexer_laws lf opt src Hb Hu Hf) input_kind lex i) as (N & x & E & Hx); [exists []; by constructor|]. exists N, x. split.
  - intros pf Hpf. by apply (mp_parse_mono (H := lexer_source lf opt) input_kind N).
  - destruct x as [e|[n p]]; [done|]. by exists lex.
Qed.

(** Whatever the fuel, what is returned is the one outcome. *)
Lemma parse_source_accepted pf n p : parse_source pf lf opt src i input_kind = Some (inr (n, p)) ->
  exists lex, mp_lexer_new lf opt src = Some (inr lex) /\ accepted (H := lexer_source lf opt) input_kind lex n p.
Proof.
  intros E. destruct parse_source_ok as (N & x & HN & Hx). specialize (HN (Nat.max N pf) ltac:(lia)).
  assert (parse_source (Nat.max N pf) lf opt src i input_kind = Some (inr (n, p))) as E'.
  { unfold parse_source in *. destruct (mp_lexer_new lf opt src) as [[e|lex]|]; cbn [mbind option_bind] in *; try done.
    by apply (mp_parse_mono (H := lexer_source lf opt) input_kind pf); [lia|]. }
  rewrite HN in E'. by simplify_eq.
Qed.
End source.


(** Floating point literals that are all one value. *)
#[local] Instance unit_floats : FloatLiterals unit := { mp_parse_num_float _ := inr tt; float_is_true _ := true }.

Ltac is_unnested := apply (unnestedb_ok 60); vm_compute; reflexivity.

(** [f"{y}"] after a text. *)
Definition with_format (s : string) : list Z := bytes s ++ [chr "f"; DQUOTE] ++ bytes "{y}" ++ [DQUOTE].


(** C36: what the parser accepts of a source without nested format strings is in the
    language of the grammar: when it returns a tree, the tokens the lexer gave up
    to its end derive from the rule of the kind of input, by the tables of
    [grammar.h] read as a grammar.  A format string is the tokens of the string,
    [.format] and the arguments that its fields are replaced by. *)
Theorem parser_sound {F} `{FloatLiterals F} input_kind pf lf opt src i n p :
  Forall is_byte src -> unnested lf opt src -> (fuel_for src < lf)%nat ->
  parse_source pf lf opt src i input_kind = Some (inr (n, p)) ->
  exists lex w, mp_lexer_new lf opt src = Some (inr lex) /\ reads (H := lexer_source lf opt) lex w (lexer p) /\
    Lexer.tok_kind (lexer p) = MP_TOKEN_END /\ derives (top_level_rule input_kind) w.
Proof.
  intros Hb Hu Hf E. destruct (parse_source_accepted input_kind lf opt src i Hb Hu Hf pf n p E) as (lex & El & [(w & Hr & Hd) He _ _]).
  by exists lex, w.
Qed.

Lemma parser_sound_witness :
  match parse_source 1500 400 0 (with_format "x = 1 + ") [] MP_PARSE_FILE_INPUT with
  | Some (inr (n, p)) => exists lex w, mp_lexer_new 400 0 (with_format "x = 1 + ") = Some (inr lex) /\
      reads (H := lexer_source 400 0) lex w (lexer p) /\
      Lexer.tok_kind (lexer p) = MP_TOKEN_END /\ derives RULE_file_input w
  | _ => False
  end.
Proof.
  destruct (parse_source 1500 400 0 (with_format "x = 1 + ") [] MP_PARSE_FILE_INPUT) as [[e|[n p]]|] eqn:E;
    [vm_compute in E; discriminate E| |vm_compute in E; discriminate E].
  apply (parser_sound MP_PARSE_FILE_INPUT 1500 400 0 (with_format "x = 1 + ") [] n p); [| | |exact E].
  - apply (bool_decide_unpack _). vm_compute. exact I.
  - is_unnested.
  - apply Nat.ltb_lt. reflexivity.
Defined.

(** C38: trees are well formed: every node of a tree that is returned for a source
    without nested format strings is a leaf, a constant, or the node of a rule
    with as many children as the table of the rule says, empty where an optional
    part is absent; the root is neither empty nor one of the marks the parser uses
    for the items of [(a, b)]. *)
Theorem parser_tree_typed {F} `{FloatLiterals F} input_kind pf lf opt src i n p :
  Forall is_byte src -> unnested lf opt src -> (fuel_for src < lf)%nat ->
  parse_source pf lf opt src i input_kind = Some (inr (n, p)) -> node_wf n /\ plain_node n.
Proof.
  intros Hb Hu Hf E. destruct (parse_source_accepted input_kind lf opt src i Hb Hu Hf pf n p E) as (lex & El & [_ _ Hw Hp]).
  done.
Qed.

Lemma parser_tree_typed_witness :
  match parse_source 2000 600 0 (with_format "f(a, (1, b), *c) + ") [] MP_PARSE_EVAL_INPUT with
  | Some (inr (n, p)) => node_wf n /\ plain_node n
  | _ => False
  end.
Proof.
  destruct (parse_source 2000 600 0 (with_format "f(a, (1, b), *c) + ") [] MP_PARSE_EVAL_INPUT) as [[e|[n p]]|] eqn:E;
    [vm_compute in E; discriminate E| |vm_compute in E; discriminate E].
  apply (parser_tree_typed MP_PARSE_EVAL_INPUT 2000 600 0 (with_format "f(a, (1, b), *c) + ") [] n p); [| | |exact E].
  - apply (bool_decide_unpack _). vm_compute. exact I.
  - is_unnested.
  - apply Nat.ltb_lt. reflexivity.
Defined.

(** C37: a rule that is tried from any state of the parser, with any source of
    tokens, is matched or leaves the state as it was: when it is matched, the tokens
    read derive from it, the frames below are as they were, one node is on the
    results, well formed, and a token was read unless the rule may be empty; when it
    is not, no token was lost, nothing was left on a stack, and no constant was
    defined. *)
Theorem parser_rule_outcome {L F} `{TokenLaws L} `{FloatLiterals F} input_kind r (p : parser_t L F) :
  ordinary r -> state_ok p -> ctx_ok r p -> comes_to input_kind (tries input_kind r p) (rule_outcome r p).
Proof. apply tries_ok. Qed.

Definition demo_parser (tokens : list (mp_token_kind_t * text)) (rs : list (parse_node unit)) :
    parser_t (list (mp_token_kind_t * text)) unit :=
  {| rule_stack := [{| src_line := 1; rule_of := RULE_atom_paren; arg_i := 2 |}]; result_stack := rs; lexer := tokens;
     consts := mp_map_init 0; interned := [] |}.

Lemma parser_rule_outcome_witness :
  let p := demo_parser [(MP_TOKEN_NAME, bytes "a"); (MP_TOKEN_DEL_COMMA, []); (MP_TOKEN_INTEGER, bytes "7");
    (MP_TOKEN_DEL_PAREN_CLOSE, [])] [PN_NULL] in
  comes_to MP_PARSE_EVAL_INPUT (tries MP_PARSE_EVAL_INPUT RULE_testlist_comp p) (rule_outcome RULE_testlist_comp p).
Proof. cbn zeta. apply parser_rule_outcome; [by split|split; [done|apply dict_ok_init]|by intros _]. Defined.

(** C39: folding [or] and [and] keeps their meaning: the operands that are kept have
    the value of the whole, evaluate the same operands that are not constants, in
    the same order, and have no constant before the last; one operand alone takes
    the place of the operator. *)
Theorem parser_folds_logical {L F V} `{TokenSource L} `{FloatLiterals F} (val : parse_node F -> V) (truth : V -> bool)
    (p : parser_t L F) r ns base :
  agrees val truth -> result_stack p = rev ns ++ base -> is_logical r = true -> ns <> [] -> Forall node_wf ns ->
  match fold_logical_constants p r (length ns) with
  | inl e => is_crash e = false
  | inr (p', num_args, folded) => exists kept,
      p' = with_results p (rev kept ++ base) /\ num_args = length kept /\ folded = (length kept =? 1)%nat /\
      let is_or := bool_decide (r = RULE_or_test) in
      chain_value val truth is_or kept = chain_value val truth is_or ns /\
      effects val truth is_or kept = effects val truth is_or ns /\ last_only kept
  end.
Proof.
  intros Ha Ep Hr Hne Hw. rewrite (fold_logical_ok p r ns base Ep Hr Hne).
  pose proof (fold_spec_ok (bool_decide (r = RULE_or_test)) ns Hw) as Hf.
  destruct (fold_spec _ ns) as [e|kept] eqn:Ek; cbn [ebind]; [done|]. exists kept.
  split; [done|]. split; [done|]. split; [done|]. by apply fold_spec_value.
Qed.

(** Names are true, as are the constants that say so. *)
Definition demo_truth (n : parse_node unit) : bool :=
  match mp_parse_node_convert_to_obj n with
  | inr o => match mp_obj_is_true o with inr b => b | inl _ => true end
  | inl _ => true
  end.

Definition demo_operands : list (parse_node unit) :=
  [PN_SMALL_INT 0; PN_ID (bytes "x"); PN_TOKEN MP_TOKEN_KW_NONE; PN_STRING (bytes "y"); PN_ID (bytes "z")].

Lemma parser_folds_logical_witness :
  let p := demo_parser [] (rev demo_operands) in
  match fold_logical_constants p RULE_or_test (length demo_operands) with
  | inl e => is_crash e = false
  | inr (p', num_args, folded) => exists kept,
      p' = with_results p (rev kept ++ []) /\ num_args = length kept /\ folded = (length kept =? 1)%nat /\
      let is_or := bool_decide (RULE_or_test = RULE_or_test) in
      chain_value id demo_truth is_or kept = chain_value id demo_truth is_or demo_operands /\
      effects id demo_truth is_or kept = effects id demo_truth is_or demo_operands /\ last_only kept
  end.
Proof.
  refine (parser_folds_logical id demo_truth (demo_parser [] (rev demo_operands)) RULE_or_test demo_operands [] _ _ _ _ _).
  - intros n o b _ Eo Eb. unfold demo_truth. cbn. by rewrite Eo, Eb.
  - reflexivity.
  - reflexivity.
  - discriminate.
  - repeat constructor.
Defined.

(** C40: folding shifts, sums and products of integers gives the integer they stand
    for: the operators are applied from the left as Python does, the node of the
    value takes the place of the operands, and the rule is left alone when an
    operand is not an integer constant, for a negative shift, a division by zero, a
    true division or a matrix product; only a shift by 2^31 bits or more raises. *)
Theorem parser_folds_integers {L F} `{TokenSource L} `{FloatLiterals F} push_pass (p : parser_t L F) r n rest base ops :
  result_stack p = rev (n :: rest) ++ base -> r ∈ [RULE_shift_expr; RULE_arith_expr; RULE_term] ->
  operations rest = Some ops -> Forall (fun tw => fst tw ∈ chain_tokens) ops -> Forall int_node_ok (n :: rest) ->
  match chain_ref n ops with
  | FOLDED v => exists o, int_ok o /\ ival o = v /\
      fold_constants push_pass p r (length (n :: rest)) =
        inr (with_results p (make_node_const_object_optimised 0 (O_INT o) :: base), true)
  | NOT_FOLDED => fold_constants push_pass p r (length (n :: rest)) = inr (p, false)
  | RAISES e => fold_constants push_pass p r (length (n :: rest)) = inl (E_INT e)
  end.
Proof. apply fold_chain_ok. Qed.

Definition demo_product : list (parse_node unit) :=
  [PN_TOKEN MP_TOKEN_OP_STAR; PN_SMALL_INT (2 ^ 29); PN_TOKEN MP_TOKEN_OP_DBL_SLASH; PN_SMALL_INT (- 3)].

Lemma parser_folds_integers_witness :
  let p := demo_parser [] (rev (PN_SMALL_INT 7 :: demo_product)) in
  exists o, int_ok o /\ ival o = 7 * 2 ^ 29 / - 3 /\
    fold_constants (fun _ => inl FAULT) p RULE_term 5 =
      inr (with_results p [make_node_const_object_optimised 0 (O_INT o)], true).
Proof.
  refine (parser_folds_integers (fun _ => inl FAULT) (demo_parser [] (rev (PN_SMALL_INT 7 :: demo_product))) RULE_term
    (PN_SMALL_INT 7) demo_product [] [(MP_TOKEN_OP_STAR, Some (2 ^ 29)); (MP_TOKEN_OP_DBL_SLASH, Some (- 3))] _ _ _ _ _).
  - reflexivity.
  - right. right. left.
  - reflexivity.
  - repeat constructor; apply (bool_decide_unpack _); vm_compute; exact I.
  - repeat (apply Forall_cons_2; [intros o E; first [discriminate E|injection E as <-; cbn; split; discriminate]|]).
    apply Forall_nil_2.
Defined.

(** * Interned strings *)

(** The texts the parser takes for the interned strings are those of the pools. *)
Definition interns (i : list text) (s : qstr_state) : Prop := forall t, t ∈ i <-> t ∈ texts s.

(** The search of the parser is that of the pools. *)
Lemma find_interned_refines fuel i s str : qstr_ok s -> (31 <= fuel)%nat -> interns i s ->
  exists q, qstr_find_strn fuel s str = Some q /\ find_interned i str = negb (q =? MP_QSTRnull).
Proof.
  intros Hs Hf Hi. eexists. split; [by apply qstr_find_ok|]. unfold find_interned.
  destruct (Nat.eqb_spec (length str) 0); [done|]. cbn [orb]. destruct (place (texts s) str) as [k|] eqn:Ep.
  - apply place_lookup in Ep. rewrite bool_decide_true by (by apply Hi; eapply list_elem_of_lookup_2).
    destruct (Z.eqb_spec (Z.of_nat k) MP_QSTRnull) as [E|]; [|done]. assert (k = 0%nat) as -> by (unfold MP_QSTRnull in E; lia).
    rewrite (ok_null s Hs) in Ep. by simplify_eq.
  - rewrite bool_decide_false; [done|]. intros Ht%Hi. apply list_elem_of_lookup in Ht as [k Ek].
    rewrite (place_at _ str k (ok_distinct s Hs)) in Ep; [done| |done]. by intros ->.
Qed.

(** Interning is that of the pools, unless the memory ends. *)
Lemma intern_refines {L F} `{TokenSource L} fuel (p : parser_t L F) s a str : qstr_ok s -> (31 <= fuel)%nat ->
  Z.of_nat (length (texts s)) + 1 < 2 ^ 31 -> interns (interned p) s ->
  exists s' r, qstr_from_strn fuel s a str = Some (s', r) /\ qstr_ok s' /\
  match r with
  | inr q => exists p', intern p str = inr p' /\ interns (interned p') s'
  | inl NAME_TOO_LONG => intern p str = inl E_NAME_TOO_LONG
  | inl MEMORY_ERROR => interns (interned p) s'
  end.
Proof.
  intros Hs Hf Hc Hi. destruct (find_interned_refines fuel (interned p) s str Hs Hf Hi) as (q & Eq & Efind).
  destruct (decide (q = MP_QSTRnull)) as [->|Hq].
  - assert (place (texts s) str = None /\ str <> []) as [Ep Hne].
    { rewrite (qstr_find_ok fuel s str Hs Hf) in Eq. destruct (Nat.eqb_spec (length str) 0); [done|].
      split; [|by intros ->]. destruct (place (texts s) str) as [k|] eqn:Ep; [|done].
      assert (k = 0%nat) as -> by (injection Eq; unfold MP_QSTRnull; lia). apply place_lookup in Ep.
      rewrite (ok_null s Hs) in Ep. by simplify_eq. }
    destruct (intern_new fuel s a str Hs Hf Hne Ep Hc) as (s' & r & E & Hs' & Hr). exists s', r. split; [done|]. split; [done|].
    unfold intern. rewrite Efind. change (negb (MP_QSTRnull =? MP_QSTRnull)) with false. cbn iota. change (Z.shiftl 1 8) with 256.
    rewrite Z.geb_leb. destruct r as [[]|q].
    + destruct Hr as [_ Hl]. by destruct (Z.leb_spec 256 (Z.of_nat (length str))); [|lia].
    + destruct Hr as (_ & Et & _). intros t. by rewrite Et.
    + destruct Hr as (Et & _ & Hl & _). destruct (Z.leb_spec 256 (Z.of_nat (length str))); [lia|]. eexists. split; [done|].
      intros t. cbn. rewrite Et, elem_of_app, list_elem_of_singleton, elem_of_cons, (Hi t). tauto.
  - exists s, (inr q). split; [by apply intern_old|]. split; [done|]. exists p. unfold intern. rewrite Efind.
    by destruct (Z.eqb_spec q MP_QSTRnull).
Qed.

(** * What folding does that the program does not ask for *)

(** The outcome without the state of the parser. *)
Definition outcome_of (src : list Z) : option (perr (parse_node unit)) :=
  r ← parse_source 4000 60 0 src [] MP_PARSE_EVAL_INPUT; Some ('(n, _) ←e r; inr n).

(** A shift that is too long raises while the source is parsed, even if it would
    never be evaluated; a negative one does not. *)
Lemma long_shift_raises : outcome_of (bytes "x and 1 << (1 << 40)") = Some (inl (E_INT OverflowError)).
Proof. vm_compute. reflexivity. Qed.

Lemma negative_shift_left_alone : exists n, outcome_of (bytes "x and 1 << -1") = Some (inr n).
Proof. eexists. vm_compute. reflexivity. Qed.

(** Zero to the power of zero is zero when the first zero is a big integer. *)
Lemma folded_zero_power : exists o, ival o = 0 /\
  outcome_of (bytes "(2**100-2**100)**0") =
    Some (inr (PN_STRUCT 1 RULE_eval_input [PN_CONST 0 (O_INT o); PN_STRUCT 1 RULE_eval_input_2 []])).
Proof. eexists. split; [|vm_compute; reflexivity]. reflexivity. Qed.
