(* ===== verification/Bytecode.v ===== *)
(** The instructions of [py/bc0.h] and their encodings: variable-length
    integers ([py/bc.c], [py/vm.c], [py/emitbc.c]), offsets of jumps, and the
    prelude of a function ([py/bc.h]).  A byte is an integer below 256; a decoder
    takes the bytes from the instruction pointer on and returns the value with
    the number of bytes it read, [None] beyond the end of the code. *)

From Stdlib Require Import ZArith Lia.
From stdpp Require Import base option list numbers.
From S2P Require Import Prelude.

(** * Definitions *)

(** ** Operators, [py/runtime0.h] *)

Definition MP_UNARY_OP_POSITIVE : Z := 0.
Definition MP_UNARY_OP_NEGATIVE : Z := 1.
Definition MP_UNARY_OP_INVERT : Z := 2.
Definition MP_UNARY_OP_NOT : Z := 3.
Definition MP_UNARY_OP_NUM_BYTECODE : Z := MP_UNARY_OP_NOT + 1.

Definition MP_BINARY_OP_LESS : Z := 0.
Definition MP_BINARY_OP_MORE : Z := 1.
Definition MP_BINARY_OP_EQUAL : Z := 2.
Definition MP_BINARY_OP_LESS_EQUAL : Z := 3.
Definition MP_BINARY_OP_MORE_EQUAL : Z := 4.
Definition MP_BINARY_OP_NOT_EQUAL : Z := 5.
Definition MP_BINARY_OP_IN : Z := 6.
Definition MP_BINARY_OP_IS : Z := 7.
Definition MP_BINARY_OP_EXCEPTION_MATCH : Z := 8.
Definition MP_BINARY_OP_INPLACE_OR : Z := 9.
Definition MP_BINARY_OP_INPLACE_XOR : Z := 10.
Definition MP_BINARY_OP_INPLACE_AND : Z := 11.
Definition MP_BINARY_OP_INPLACE_LSHIFT : Z := 12.
Definition MP_BINARY_OP_INPLACE_RSHIFT : Z := 13.
Definition MP_BINARY_OP_INPLACE_ADD : Z := 14.
Definition MP_BINARY_OP_INPLACE_SUBTRACT : Z := 15.
Definition MP_BINARY_OP_INPLACE_MULTIPLY : Z := 16.
Definition MP_BINARY_OP_INPLACE_MAT_MULTIPLY : Z := 17.
Definition MP_BINARY_OP_INPLACE_FLOOR_DIVIDE : Z := 18.
Definition MP_BINARY_OP_INPLACE_TRUE_DIVIDE : Z := 19.
Definition MP_BINARY_OP_INPLACE_MODULO : Z := 20.
Definition MP_BINARY_OP_INPLACE_POWER : Z := 21.
Definition MP_BINARY_OP_OR : Z := 22.
Definition MP_BINARY_OP_XOR : Z := 23.
Definition MP_BINARY_OP_AND : Z := 24.
Definition MP_BINARY_OP_LSHIFT : Z := 25.
Definition MP_BINARY_OP_RSHIFT : Z := 26.
Definition MP_BINARY_OP_ADD : Z := 27.
Definition MP_BINARY_OP_SUBTRACT : Z := 28.
Definition MP_BINARY_OP_MULTIPLY : Z := 29.
Definition MP_BINARY_OP_MAT_MULTIPLY : Z := 30.
Definition MP_BINARY_OP_FLOOR_DIVIDE : Z := 31.
Definition MP_BINARY_OP_TRUE_DIVIDE : Z := 32.
Definition MP_BINARY_OP_MODULO : Z := 33.
Definition MP_BINARY_OP_POWER : Z := 34.
Definition MP_BINARY_OP_NUM_BYTECODE : Z := MP_BINARY_OP_POWER + 1.
Definition MP_BINARY_OP_NOT_IN : Z := 50.
Definition MP_BINARY_OP_IS_NOT : Z := 51.

(** ** Instructions *)

Definition MP_BC_BASE_QSTR_O : Z := 16.
Definition MP_BC_BASE_VINT_E : Z := 32.
Definition MP_BC_BASE_VINT_O : Z := 48.
Definition MP_BC_BASE_JUMP_E : Z := 64.
Definition MP_BC_BASE_BYTE_O : Z := 80.
Definition MP_BC_BASE_BYTE_E : Z := 96.
Definition MP_BC_LOAD_CONST_SMALL_INT_MULTI : Z := 112.
Definition MP_BC_LOAD_FAST_MULTI : Z := 176.
Definition MP_BC_STORE_FAST_MULTI : Z := 192.
Definition MP_BC_UNARY_OP_MULTI : Z := 208.
Definition MP_BC_BINARY_OP_MULTI : Z := 215.
Definition MP_BC_LOAD_CONST_SMALL_INT_MULTI_NUM : Z := 64.
Definition MP_BC_LOAD_CONST_SMALL_INT_MULTI_EXCESS : Z := 16.
Definition MP_BC_LOAD_FAST_MULTI_NUM : Z := 16.
Definition MP_BC_STORE_FAST_MULTI_NUM : Z := 16.
Definition MP_BC_UNARY_OP_MULTI_NUM : Z := MP_UNARY_OP_NUM_BYTECODE.
Definition MP_BC_BINARY_OP_MULTI_NUM : Z := MP_BINARY_OP_NUM_BYTECODE.
Definition MP_BC_LOAD_CONST_FALSE : Z := MP_BC_BASE_BYTE_O + 0.
Definition MP_BC_LOAD_CONST_NONE : Z := MP_BC_BASE_BYTE_O + 1.
Definition MP_BC_LOAD_CONST_TRUE : Z := MP_BC_BASE_BYTE_O + 2.
Definition MP_BC_LOAD_CONST_SMALL_INT : Z := MP_BC_BASE_VINT_E + 2.
Definition MP_BC_LOAD_CONST_STRING : Z := MP_BC_BASE_QSTR_O + 0.
Definition MP_BC_LOAD_CONST_OBJ : Z := MP_BC_BASE_VINT_E + 3.
Definition MP_BC_LOAD_NULL : Z := MP_BC_BASE_BYTE_O + 3.
Definition MP_BC_LOAD_FAST_N : Z := MP_BC_BASE_VINT_E + 4.
Definition MP_BC_LOAD_DEREF : Z := MP_BC_BASE_VINT_E + 5.
Definition MP_BC_LOAD_NAME : Z := MP_BC_BASE_QSTR_O + 1.
Definition MP_BC_LOAD_GLOBAL : Z := MP_BC_BASE_QSTR_O + 2.
Definition MP_BC_LOAD_ATTR : Z := MP_BC_BASE_QSTR_O + 3.
Definition MP_BC_LOAD_METHOD : Z := MP_BC_BASE_QSTR_O + 4.
Definition MP_BC_LOAD_SUPER_METHOD : Z := MP_BC_BASE_QSTR_O + 5.
Definition MP_BC_LOAD_BUILD_CLASS : Z := MP_BC_BASE_BYTE_O + 4.
Definition MP_BC_LOAD_SUBSCR : Z := MP_BC_BASE_BYTE_O + 5.
Definition MP_BC_STORE_FAST_N : Z := MP_BC_BASE_VINT_E + 6.
Definition MP_BC_STORE_DEREF : Z := MP_BC_BASE_VINT_E + 7.
Definition MP_BC_STORE_NAME : Z := MP_BC_BASE_QSTR_O + 6.
Definition MP_BC_STORE_GLOBAL : Z := MP_BC_BASE_QSTR_O + 7.
Definition MP_BC_STORE_ATTR : Z := MP_BC_BASE_QSTR_O + 8.
Definition MP_BC_STORE_SUBSCR : Z := MP_BC_BASE_BYTE_O + 6.
Definition MP_BC_DELETE_FAST : Z := MP_BC_BASE_VINT_E + 8.
Definition MP_BC_DELETE_DEREF : Z := MP_BC_BASE_VINT_E + 9.
Definition MP_BC_DELETE_NAME : Z := MP_BC_BASE_QSTR_O + 9.
Definition MP_BC_DELETE_GLOBAL : Z := MP_BC_BASE_QSTR_O + 10.
Definition MP_BC_DUP_TOP : Z := MP_BC_BASE_BYTE_O + 7.
Definition MP_BC_DUP_TOP_TWO : Z := MP_BC_BASE_BYTE_O + 8.
Definition MP_BC_POP_TOP : Z := MP_BC_BASE_BYTE_O + 9.
Definition MP_BC_ROT_TWO : Z := MP_BC_BASE_BYTE_O + 10.
Definition MP_BC_ROT_THREE : Z := MP_BC_BASE_BYTE_O + 11.
Definition MP_BC_UNWIND_JUMP : Z := MP_BC_BASE_JUMP_E + 0.
Definition MP_BC_JUMP : Z := MP_BC_BASE_JUMP_E + 2.
Definition MP_BC_POP_JUMP_IF_TRUE : Z := MP_BC_BASE_JUMP_E + 3.
Definition MP_BC_POP_JUMP_IF_FALSE : Z := MP_BC_BASE_JUMP_E + 4.
Definition MP_BC_JUMP_IF_TRUE_OR_POP : Z := MP_BC_BASE_JUMP_E + 5.
Definition MP_BC_JUMP_IF_FALSE_OR_POP : Z := MP_BC_BASE_JUMP_E + 6.
Definition MP_BC_SETUP_WITH : Z := MP_BC_BASE_JUMP_E + 7.
Definition MP_BC_SETUP_EXCEPT : Z := MP_BC_BASE_JUMP_E + 8.
Definition MP_BC_SETUP_FINALLY : Z := MP_BC_BASE_JUMP_E + 9.
Definition MP_BC_POP_EXCEPT_JUMP : Z := MP_BC_BASE_JUMP_E + 10.
Definition MP_BC_FOR_ITER : Z := MP_BC_BASE_JUMP_E + 11.
Definition MP_BC_WITH_CLEANUP : Z := MP_BC_BASE_BYTE_O + 12.
Definition MP_BC_END_FINALLY : Z := MP_BC_BASE_BYTE_O + 13.
Definition MP_BC_GET_ITER : Z := MP_BC_BASE_BYTE_O + 14.
Definition MP_BC_GET_ITER_STACK : Z := MP_BC_BASE_BYTE_O + 15.
Definition MP_BC_BUILD_TUPLE : Z := MP_BC_BASE_VINT_E + 10.
Definition MP_BC_BUILD_LIST : Z := MP_BC_BASE_VINT_E + 11.
Definition MP_BC_BUILD_MAP : Z := MP_BC_BASE_VINT_E + 12.
Definition MP_BC_STORE_MAP : Z := MP_BC_BASE_BYTE_E + 2.
Definition MP_BC_BUILD_SET : Z := MP_BC_BASE_VINT_E + 13.
Definition MP_BC_BUILD_SLICE : Z := MP_BC_BASE_VINT_E + 14.
Definition MP_BC_STORE_COMP : Z := MP_BC_BASE_VINT_E + 15.
Definition MP_BC_UNPACK_SEQUENCE : Z := MP_BC_BASE_VINT_O + 0.
Definition MP_BC_UNPACK_EX : Z := MP_BC_BASE_VINT_O + 1.
Definition MP_BC_RETURN_VALUE : Z := MP_BC_BASE_BYTE_E + 3.
Definition MP_BC_RAISE_LAST : Z := MP_BC_BASE_BYTE_E + 4.
Definition MP_BC_RAISE_OBJ : Z := MP_BC_BASE_BYTE_E + 5.
Definition MP_BC_RAISE_FROM : Z := MP_BC_BASE_BYTE_E + 6.
Definition MP_BC_YIELD_VALUE : Z := MP_BC_BASE_BYTE_E + 7.
Definition MP_BC_YIELD_FROM : Z := MP_BC_BASE_BYTE_E + 8.
Definition MP_BC_MAKE_FUNCTION : Z := MP_BC_BASE_VINT_O + 2.
Definition MP_BC_MAKE_FUNCTION_DEFARGS : Z := MP_BC_BASE_VINT_O + 3.
Definition MP_BC_MAKE_CLOSURE : Z := MP_BC_BASE_VINT_E + 0.
Definition MP_BC_MAKE_CLOSURE_DEFARGS : Z := MP_BC_BASE_VINT_E + 1.
Definition MP_BC_CALL_FUNCTION : Z := MP_BC_BASE_VINT_O + 4.
Definition MP_BC_CALL_FUNCTION_VAR_KW : Z := MP_BC_BASE_VINT_O + 5.
Definition MP_BC_CALL_METHOD : Z := MP_BC_BASE_VINT_O + 6.
Definition MP_BC_CALL_METHOD_VAR_KW : Z := MP_BC_BASE_VINT_O + 7.
Definition MP_BC_IMPORT_NAME : Z := MP_BC_BASE_QSTR_O + 11.
Definition MP_BC_IMPORT_FROM : Z := MP_BC_BASE_QSTR_O + 12.
Definition MP_BC_IMPORT_STAR : Z := MP_BC_BASE_BYTE_E + 9.

(** ** Variable-length integers *)

Definition MP_ENCODE_UINT_MAX_BYTES : nat := 5.

(** The bytes after [p] of the buffer of [mp_encode_uint]: [bs] are those already
    stored, the most significant first. *)
Fixpoint encode_uint_loop (fuel : nat) (val : Z) (bs : list Z) : option (list Z) :=
  match fuel with
  | O => None
  | S fuel =>
      let bs := Z.land val 127 :: bs in
      let val := Z.shiftr val 7 in
      if val =? 0 then Some bs else encode_uint_loop fuel val bs
  end.

(** [*c++ = *p++ | 0x80] but for the last byte. *)
Fixpoint with_continuation (bs : list Z) : list Z :=
  match bs with
  | [] => []
  | [b] => [b]
  | b :: bs => Z.lor b 128 :: with_continuation bs
  end.

(** The bytes [mp_encode_uint] writes. *)
Definition mp_encode_uint (val : Z) : option (list Z) :=
  with_continuation <$> encode_uint_loop MP_ENCODE_UINT_MAX_BYTES val [].

(** [mp_decode_uint], the same loop as the [DECODE_UINT] of [vm.c]. *)
Fixpoint mp_decode_uint (bs : list Z) (unum : Z) (n : nat) : option (Z * nat) :=
  match bs with
  | [] => None
  | val :: bs =>
      let unum := wrapu 32 (Z.lor (Z.shiftl unum 7) (Z.land val 127)) in
      if Z.land val 128 =? 0 then Some (unum, S n) else mp_decode_uint bs unum (S n)
  end.

Definition DECODE_UINT (bs : list Z) : option (Z * nat) := mp_decode_uint bs 0 0.

(** [mp_decode_uint_skip]. *)
Fixpoint mp_decode_uint_skip (bs : list Z) : option nat :=
  match bs with
  | [] => None
  | val :: bs => if Z.land val 128 =? 0 then Some 1%nat else S <$> mp_decode_uint_skip bs
  end.

(** The loop of [emit_write_bytecode_byte_int]; shifts of negative numbers keep
    the sign. *)
Fixpoint encode_int_loop (fuel : nat) (num : Z) (bs : list Z) : option (Z * list Z) :=
  match fuel with
  | O => None
  | S fuel =>
      let bs := Z.land num 127 :: bs in
      let num := Z.shiftr num 7 in
      if (num =? 0) || (num =? -1) then Some (num, bs) else encode_int_loop fuel num bs
  end.

Definition encode_int (num : Z) : option (list Z) :=
  '(num, bs) ← encode_int_loop MP_ENCODE_UINT_MAX_BYTES num [];
  p0 ← head bs;
  let bs :=
    if (num =? -1) && (Z.land p0 64 =? 0) then 127 :: bs
    else if (num =? 0) && negb (Z.land p0 64 =? 0) then 0 :: bs
    else bs in
  if (length bs <=? MP_ENCODE_UINT_MAX_BYTES)%nat then Some (with_continuation bs) else None.

(** [MP_BC_LOAD_CONST_SMALL_INT] of the interpreter: the number starts at minus
    one when it is negative. *)
Definition DECODE_INT (bs : list Z) : option (Z * nat) :=
  b0 ← head bs;
  '(num, n) ← mp_decode_uint bs (if Z.land b0 64 =? 0 then 0 else 2 ^ 32 - 1) 0;
  Some (wraps 32 num, n).

(** ** Offsets of jumps *)

Definition DECODE_ULABEL (bs : list Z) : option (Z * nat) :=
  b0 ← head bs;
  if Z.land b0 128 =? 0 then Some (b0, 1%nat)
  else b1 ← bs !! 1%nat; Some (Z.lor (Z.land b0 127) (Z.shiftl b1 7), 2%nat).

Definition DECODE_SLABEL (bs : list Z) : option (Z * nat) :=
  b0 ← head bs;
  if Z.land b0 128 =? 0 then Some (b0 - 64, 1%nat)
  else b1 ← bs !! 1%nat; Some (Z.lor (Z.land b0 127) (Z.shiftl b1 7) - 16384, 2%nat).

(** ** The prelude *)

Definition MP_SCOPE_FLAG_GENERATOR : Z := 1.
Definition MP_SCOPE_FLAG_VARKEYWORDS : Z := 2.
Definition MP_SCOPE_FLAG_VARARGS : Z := 4.
Definition MP_SCOPE_FLAG_DEFKWARGS : Z := 8.
Definition MP_SCOPE_FLAG_ALL_SIG : Z := 15.

(** What the prelude keeps of a function: the sizes of its stacks, its flags and
    the numbers of its arguments. *)
Record prelude_sig := {
  n_state : Z; n_exc_stack : Z; sig_flags : Z; n_pos_args : Z; n_kwonly_args : Z; n_def_pos_args : Z;
}.

Definition bit0 (x : Z) : Z := Z.land x 1.

(** The loop of [MP_BC_PRELUDE_SIG_ENCODE]; [z] is the byte not yet written. *)
Fixpoint sig_encode_loop (fuel : nat) (S E F A K D z : Z) : option (list Z) :=
  match fuel with
  | O => None
  | Datatypes.S fuel =>
      if Z.lor S (Z.lor E (Z.lor F (Z.lor A (Z.lor K D)))) =? 0 then Some [z]
      else
        cons (Z.lor 128 z) <$>
          sig_encode_loop fuel (Z.shiftr S 2) (Z.shiftr E 1) (Z.shiftr F 1) (Z.shiftr A 1) (Z.shiftr K 1)
            (Z.shiftr D 1)
            (Z.lor (Z.shiftl (bit0 F) 6) (Z.lor (Z.shiftl (Z.land S 3) 4) (Z.lor (Z.shiftl (bit0 K) 3)
               (Z.lor (Z.shiftl (bit0 A) 2) (Z.lor (Z.shiftl (bit0 E) 1) (bit0 D))))))
  end.

Definition SIG_FUEL : nat := 33.

Definition MP_BC_PRELUDE_SIG_ENCODE (s : prelude_sig) : option (list Z) :=
  let S := n_state s - 1 in
  let E := n_exc_stack s in
  let F := Z.land (sig_flags s) MP_SCOPE_FLAG_ALL_SIG in
  let A := n_pos_args s in
  let z := Z.lor (Z.shiftl (Z.land S 15) 3) (Z.lor (Z.shiftl (bit0 E) 2) (Z.land A 3)) in
  sig_encode_loop SIG_FUEL (Z.shiftr S 4) (Z.shiftr E 1) F (Z.shiftr A 2) (n_kwonly_args s) (n_def_pos_args s) z.

(** The loop of [MP_BC_PRELUDE_SIG_DECODE_INTO] after the byte [z]. *)
Fixpoint sig_decode_loop (bs : list Z) (z n : Z) (S E F A K D : Z) (k : nat) : option (prelude_sig * nat) :=
  if Z.land z 128 =? 0
  then Some ({| n_state := S + 1; n_exc_stack := E; sig_flags := F; n_pos_args := A; n_kwonly_args := K;
                n_def_pos_args := D |}, k)
  else
    match bs with
    | [] => None
    | z :: bs =>
        sig_decode_loop bs z (n + 1)
          (Z.lor S (Z.shiftl (Z.land z 48) (2 * n)))
          (Z.lor E (Z.shiftl (Z.land z 2) n))
          (Z.lor F (Z.shiftl (Z.shiftr (Z.land z 64) 6) n))
          (Z.lor A (Z.shiftl (Z.land z 4) n))
          (Z.lor K (Z.shiftl (Z.shiftr (Z.land z 8) 3) n))
          (Z.lor D (Z.shiftl (Z.land z 1) n)) (Datatypes.S k)
    end.

Definition MP_BC_PRELUDE_SIG_DECODE (bs : list Z) : option (prelude_sig * nat) :=
  match bs with
  | [] => None
  | z :: bs =>
      sig_decode_loop bs z 0 (Z.land (Z.shiftr z 3) 15) (Z.land (Z.shiftr z 2) 1) 0 (Z.land z 3) 0 0 1
  end.

(** [MP_BC_PRELUDE_SIZE_ENCODE], the sizes of the source information and of the
    closure section. *)
Fixpoint size_encode_loop (fuel : nat) (I C : Z) : option (list Z) :=
  match fuel with
  | O => None
  | S fuel =>
      let z := Z.lor (Z.shiftl (Z.land I 63) 1) (Z.land C 1) in
      let C := Z.shiftr C 1 in
      let I := Z.shiftr I 6 in
      if Z.lor C I =? 0 then Some [z] else cons (Z.lor z 128) <$> size_encode_loop fuel I C
  end.

Definition MP_BC_PRELUDE_SIZE_ENCODE (I C : Z) : option (list Z) := size_encode_loop SIG_FUEL I C.

Fixpoint size_decode_loop (bs : list Z) (n I C : Z) (k : nat) : option (Z * Z * nat) :=
  match bs with
  | [] => None
  | z :: bs =>
      let C := Z.lor C (Z.shiftl (Z.land z 1) n) in
      let I := Z.lor I (Z.shiftl (Z.shiftr (Z.land z 126) 1) (6 * n)) in
      if Z.land z 128 =? 0 then Some (I, C, S k) else size_decode_loop bs (n + 1) I C (S k)
  end.

Definition MP_BC_PRELUDE_SIZE_DECODE (bs : list Z) : option (Z * Z * nat) := size_decode_loop bs 0 0 0 0.

(** ** Lines *)

(** The loop of [emit_write_code_info_bytes_lines]. *)
Fixpoint bytes_lines_loop (fuel : nat) (bytes_to_skip lines_to_skip : Z) : option (list Z) :=
  match fuel with
  | O => None
  | S fuel =>
      if (bytes_to_skip <=? 0) && (lines_to_skip <=? 0) then Some []
      else if (lines_to_skip <=? 6) || (15 <? bytes_to_skip) then
        let b := Z.min bytes_to_skip 31 in
        let l := if b <? bytes_to_skip then 0 else Z.min lines_to_skip 3 in
        cons (Z.lor b (Z.shiftl l 5)) <$> bytes_lines_loop fuel (bytes_to_skip - b) (lines_to_skip - l)
      else
        let b := Z.min bytes_to_skip 15 in
        let l := Z.min lines_to_skip 2047 in
        (fun bs => Z.lor 128 (Z.lor b (Z.land (Z.shiftr l 4) 112)) :: wrapu 8 l :: bs) <$>
          bytes_lines_loop fuel (bytes_to_skip - b) (lines_to_skip - l)
  end.

Definition bytes_lines (bytes_to_skip lines_to_skip : Z) : option (list Z) :=
  bytes_lines_loop (S (Z.to_nat (bytes_to_skip + lines_to_skip))) bytes_to_skip lines_to_skip.

(** [mp_bytecode_get_source_line] on the bytes of the line information; [None] is
    a read after their end. *)
Fixpoint source_line_loop (line_info : list Z) (bc_offset source_line : Z) : option Z :=
  match line_info with
  | [] => Some source_line
  | c :: line_info =>
      if Z.land c 128 =? 0 then
        let b := Z.land c 31 in
        let l := Z.shiftr c 5 in
        if b <=? bc_offset then source_line_loop line_info (bc_offset - b) (source_line + l) else Some source_line
      else
        match line_info with
        | [] => None
        | c1 :: line_info =>
            let b := Z.land c 15 in
            let l := Z.lor (Z.land (Z.shiftl c 4) 1792) c1 in
            if b <=? bc_offset then source_line_loop line_info (bc_offset - b) (source_line + l) else Some source_line
        end
  end.

Definition mp_bytecode_get_source_line (line_info : list Z) (bc_offset : Z) : option Z :=
  source_line_loop line_info bc_offset 1.

(** Examples of the encodings. *)
Example encode_uint_300 : mp_encode_uint 300 = Some [130; 44] /\ DECODE_UINT [130; 44; 7] = Some (300, 2%nat).
Proof. split; vm_compute; reflexivity. Qed.

Example encode_int_examples :
  encode_int (-65) = Some [255; 63] /\ DECODE_INT [255; 63] = Some (-65, 2%nat) /\ encode_int 64 = Some [128; 64].
Proof. repeat split; vm_compute; reflexivity. Qed.
