(* ===== verification/BytecodeProps.v ===== *)
(** The encodings of [Bytecode] read back: integers, offsets of jumps, the
    prelude of a function and its table of lines. *)

From Stdlib Require Import ZArith Lia.
From stdpp Require Import base option list numbers.
From S2P Require Import Prelude Bytecode.

(** * Bits *)

Lemma land_127 x : Z.land x 127 = x mod 128.
Proof. exact (land_ones_mod x 7 ltac:(lia)). Qed.

Lemma lor_128 x : 0 <= x < 128 -> Z.lor x 128 = 128 + x.
Proof. intros. rewrite Z.lor_comm. exact (lor_pow2 7 1 x ltac:(lia) H). Qed.

(** A statement on the bits of a byte, checked on all of them. *)
Lemma on_bytes (P : Z -> bool) : forallb P (seqZ 0 256) = true -> forall b, 0 <= b < 256 -> P b = true.
Proof.
  intros H b Hb. rewrite forallb_forall in H. apply H. apply list_elem_of_In, elem_of_seqZ. lia.
Qed.

Ltac byte_fact P Hb := let E := fresh in pose proof (on_bytes P ltac:(vm_compute; reflexivity) _ Hb) as E; cbv beta in E.

Lemma continuation_bit b : 0 <= b < 256 -> (Z.land b 128 =? 0) = (b <? 128).
Proof.
  intros Hb. byte_fact (fun b => Bool.eqb (Z.land b 128 =? 0) (b <? 128)) Hb. by apply Bool.eqb_prop in H.
Qed.

(** * Variable-length integers *)

(** The number of base-128 digits, from the most significant one. *)
Definition num128 (u : Z) (ds : list Z) : Z := foldl (fun a d => a * 128 + d) u ds.

Definition digit7 (d : Z) : Prop := 0 <= d < 128.

Definition is_byte (b : Z) : Prop := 0 <= b < 256.

Lemma wrapu_shift u d : digit7 d -> wrapu 32 (Z.lor (Z.shiftl u 7) d) = wrapu 32 (u * 128 + d).
Proof. intros Hd. rewrite Z.shiftl_mul_pow2 by lia. by rewrite lor_pow2. Qed.

Lemma num128_cong u v ds : wrapu 32 u = wrapu 32 v -> wrapu 32 (num128 u ds) = wrapu 32 (num128 v ds).
Proof.
  revert u v. induction ds as [|d ds IH]; intros u v E; [done|]. cbn. apply IH.
  unfold wrapu in *. rewrite <- (Z.add_mod_idemp_l (u * 128)), <- (Z.add_mod_idemp_l (v * 128)) by lia.
  rewrite <- (Z.mul_mod_idemp_l u), <- (Z.mul_mod_idemp_l v) by lia. by rewrite E.
Qed.

Lemma decode_continuation ds rest u n :
  ds <> [] -> Forall digit7 ds ->
  mp_decode_uint (with_continuation ds ++ rest) u n = Some (wrapu 32 (num128 u ds), (n + length ds)%nat).
Proof.
  revert u n. induction ds as [|d ds IH]; intros u n Hne Hds; [done|]. inversion_clear Hds as [|? ? Hd Hds'].
  destruct ds as [|d' ds].
  - cbn. unfold digit7 in Hd. rewrite continuation_bit by lia. rewrite (proj2 (Z.ltb_lt d 128)) by lia.
    rewrite land_127, Z.mod_small by lia. rewrite wrapu_shift by done. do 2 f_equal. lia.
  - change (with_continuation (d :: d' :: ds)) with (Z.lor d 128 :: with_continuation (d' :: ds)).
    cbn [app mp_decode_uint]. unfold digit7 in Hd. rewrite lor_128 by lia.
    rewrite continuation_bit by lia. rewrite (proj2 (Z.ltb_ge (128 + d) 128)) by lia.
    rewrite land_127. replace ((128 + d) mod 128) with d
      by (rewrite Z.add_comm; rewrite <- (Z.mul_1_l 128) at 1; rewrite Z_mod_plus_full, Z.mod_small; lia).
    rewrite IH by done. rewrite wrapu_shift by done. f_equal. f_equal; [|cbn; lia].
    change (num128 u (d :: d' :: ds)) with (num128 (u * 128 + d) (d' :: ds)).
    apply num128_cong. apply Z.mod_mod. lia.
Qed.

Lemma with_continuation_bytes ds : Forall digit7 ds -> Forall is_byte (with_continuation ds).
Proof.
  induction 1 as [|d ds Hd Hds IH]; [constructor|]. unfold digit7, is_byte in *.
  destruct ds; cbn; [by repeat constructor; lia|]. constructor; [|done]. rewrite lor_128; lia.
Qed.

Lemma length_with_continuation ds : length (with_continuation ds) = length ds.
Proof. induction ds as [|d [|d' ds] IH]; cbn in *; lia. Qed.

Lemma num128_app u ds ds' : num128 u (ds ++ ds') = num128 (num128 u ds) ds'.
Proof. apply foldl_app. Qed.

Lemma shiftr_7 x : Z.shiftr x 7 = x / 128.
Proof. by rewrite Z.shiftr_div_pow2. Qed.

Lemma encode_uint_loop_ok fuel val bs : 0 <= val < 128 ^ Z.of_nat fuel -> (0 < fuel)%nat ->
  exists ds, encode_uint_loop fuel val bs = Some (ds ++ bs) /\ ds <> [] /\ Forall digit7 ds /\ num128 0 ds = val /\
    (length ds <= fuel)%nat.
Proof.
  revert val bs. induction fuel as [|fuel IH]; intros val bs Hv Hf; [lia|].
  cbn [encode_uint_loop]. rewrite land_127, shiftr_7.
  rewrite Nat2Z.inj_succ, Z.pow_succ_r in Hv by lia.
  assert (digit7 (val mod 128)) as Hm by (apply Z.mod_pos_bound; lia).
  destruct (Z.eqb_spec (val / 128) 0) as [E|E].
  - exists [val mod 128]. split; [done|]. split; [done|]. split; [by constructor|]. split; [|cbn; lia].
    cbn. pose proof (Z.div_mod val 128 ltac:(lia)). lia.
  - assert (fuel <> O) as Hne.
    { intros ->. cbn in Hv. apply E, Z.div_small. lia. }
    destruct (IH (val / 128) (val mod 128 :: bs)) as (ds & -> & Hds & Hall & Hnum & Hlen).
    { split; [apply Z.div_pos; lia|]. apply Z.div_lt_upper_bound; lia. }
    { lia. }
    exists (ds ++ [val mod 128]). split; [by rewrite <- app_assoc|]. split; [by destruct ds|].
    split; [by apply Forall_app; split; [|constructor]|]. split.
    + rewrite num128_app, Hnum. cbn. pose proof (Z.div_mod val 128 ltac:(lia)). lia.
    + rewrite length_app. cbn. lia.
Qed.

(** What is encoded is read back, whatever follows it. *)
Lemma encode_uint_ok val : 0 <= val < 2 ^ 32 ->
  exists bs, mp_encode_uint val = Some bs /\ Forall is_byte bs /\ (length bs <= MP_ENCODE_UINT_MAX_BYTES)%nat /\
    forall rest, DECODE_UINT (bs ++ rest) = Some (val, length bs).
Proof.
  intros Hv. destruct (encode_uint_loop_ok 5 val []) as (ds & E & Hne & Hall & Hnum & Hlen); [cbn; lia|lia|].
  rewrite app_nil_r in E. exists (with_continuation ds). unfold mp_encode_uint, MP_ENCODE_UINT_MAX_BYTES. rewrite E.
  split; [done|]. split; [by apply with_continuation_bytes|]. split; [by rewrite length_with_continuation|].
  intros rest. unfold DECODE_UINT. rewrite decode_continuation, Hnum, wrapu_small, length_with_continuation by done. done.
Qed.

Lemma decode_skip_ok bs rest v n : DECODE_UINT (bs ++ rest) = Some (v, n) -> mp_decode_uint_skip (bs ++ rest) = Some n.
Proof.
  unfold DECODE_UINT. intros E. generalize dependent (bs ++ rest). clear bs rest. intros l.
  assert (forall u k, mp_decode_uint l u k = Some (v, n) -> exists m, mp_decode_uint_skip l = Some m /\ n = (k + m)%nat) as H.
  { induction l as [|b l IH]; intros u k H; [done|]. cbn in H |- *. case_match.
    - injection H as <- <-. exists 1%nat. split; [done|lia].
    - destruct (IH _ _ H) as (m & -> & ->). exists (S m). split; [done|lia]. }
  intros E. destruct (H _ _ E) as (m & -> & ->). done.
Qed.

(** ** Signed integers *)

Lemma num128_bounds u ds : Forall digit7 ds ->
  u * 128 ^ Z.of_nat (length ds) <= num128 u ds < (u + 1) * 128 ^ Z.of_nat (length ds).
Proof.
  intros H. revert u. induction H as [|d ds Hd Hds IH]; intros u; [cbn; lia|].
  cbn [length num128 foldl]. rewrite Nat2Z.inj_succ, Z.pow_succ_r by lia. specialize (IH (u * 128 + d)).
  unfold digit7 in Hd. fold (num128 (u * 128 + d) ds). nia.
Qed.

Lemma encode_int_loop_ok fuel num bs : - 128 ^ Z.of_nat fuel <= num < 128 ^ Z.of_nat fuel -> (0 < fuel)%nat ->
  exists s d ds, encode_int_loop fuel num bs = Some (s, d :: ds ++ bs) /\ (s = 0 \/ s = -1) /\
    Forall digit7 (d :: ds) /\ num128 s (d :: ds) = num /\ (length ds < fuel)%nat.
Proof.
  revert num bs. induction fuel as [|fuel IH]; intros num bs Hv Hf; [lia|].
  cbn [encode_int_loop]. rewrite land_127, shiftr_7.
  rewrite Nat2Z.inj_succ, Z.pow_succ_r in Hv by lia.
  assert (digit7 (num mod 128)) as Hm by (apply Z.mod_pos_bound; lia).
  pose proof (Z.div_mod num 128 ltac:(lia)) as Hdm.
  destruct (_ || _) eqn:E.
  - exists (num / 128), (num mod 128), []. split; [done|]. split; [rewrite orb_true_iff, !Z.eqb_eq in E; lia|].
    split; [by constructor|]. cbn. split; lia.
  - rewrite orb_false_iff, !Z.eqb_neq in E. assert (fuel <> O) as Hne.
    { intros ->. cbn in Hv. pose proof (Z.div_le_lower_bound num 128 (-1)).
      pose proof (Z.div_lt_upper_bound num 128 1). lia. }
    destruct (IH (num / 128) (num mod 128 :: bs)) as (s & d & ds & -> & Hs & Hall & Hnum & Hlen).
    { split; [apply Z.div_le_lower_bound; lia|]. apply Z.div_lt_upper_bound; lia. }
    { lia. }
    exists s, d, (ds ++ [num mod 128]). split; [by rewrite <- app_assoc|]. split; [done|].
    rewrite app_comm_cons. split; [by apply Forall_app; split; [|constructor]|]. split.
    + rewrite num128_app, Hnum. cbn. lia.
    + rewrite length_app. cbn. lia.
Qed.

Lemma bit_64 d : digit7 d -> (Z.land d 64 =? 0) = (d <? 64).
Proof.
  intros Hd. assert (0 <= d < 256) as Hb by (unfold digit7 in Hd; lia).
  byte_fact (fun b => (128 <=? b) || Bool.eqb (Z.land b 64 =? 0) (b <? 64)) Hb.
  apply orb_true_iff in H as [H|H]; [apply Z.leb_le in H; unfold digit7 in Hd; lia|]. by apply Bool.eqb_prop in H.
Qed.

Lemma head_continuation d ds : exists b, head (with_continuation (d :: ds)) = Some b /\ Z.land b 64 = Z.land d 64.
Proof.
  destruct ds; cbn; [by eexists|]. eexists. split; [done|].
  by rewrite Z.land_lor_distr_l, (Z.land_comm 128), Z.lor_0_r.
Qed.

(** The first digit of an encoded number agrees with its sign. *)
Definition signed_digit (s d : Z) : Prop := s = 0 /\ d < 64 \/ s = -1 /\ 64 <= d.

Lemma decode_int_ok s d ds rest : Forall digit7 (d :: ds) -> signed_digit s d ->
  - 2 ^ 31 <= num128 s (d :: ds) < 2 ^ 31 ->
  DECODE_INT (with_continuation (d :: ds) ++ rest) = Some (num128 s (d :: ds), length (with_continuation (d :: ds))).
Proof.
  intros Hall Hs Hr. inversion Hall as [|? ? Hd Hds]; subst. unfold DECODE_INT.
  destruct (head_continuation d ds) as (b & Hb & E).
  assert (head (with_continuation (d :: ds) ++ rest) = Some b) as ->.
  { by destruct (with_continuation (d :: ds)); [|injection Hb as ->]. }
  cbn [mbind option_bind]. rewrite E, bit_64 by done. rewrite decode_continuation by done. cbn [mbind option_bind].
  do 2 f_equal; [|by rewrite length_with_continuation].
  rewrite <- (wraps_small 32 (num128 s (d :: ds))) by lia. apply wraps_eq; [lia|].
  transitivity (wrapu 32 (num128 s (d :: ds))); [|done].
  unfold wrapu at 1. rewrite Z.mod_mod by lia. apply num128_cong.
  destruct Hs as [[-> Hlt]|[-> Hge]]; [by rewrite (proj2 (Z.ltb_lt d 64)) by done|].
  by rewrite (proj2 (Z.ltb_ge d 64)) by done.
Qed.

(** With the byte added for the sign, when it is needed. *)
Lemma encode_int_digits num : - 2 ^ 31 <= num < 2 ^ 31 ->
  exists s d ds, encode_int num = Some (with_continuation (d :: ds)) /\ Forall digit7 (d :: ds) /\ signed_digit s d /\
    num128 s (d :: ds) = num /\ (length ds < MP_ENCODE_UINT_MAX_BYTES)%nat.
Proof.
  intros Hv. destruct (encode_int_loop_ok 5 num []) as (s & d & ds & E & Hs & Hall & Hnum & Hlen); [cbn; lia|lia|].
  rewrite app_nil_r in E. unfold encode_int, MP_ENCODE_UINT_MAX_BYTES. rewrite E. cbn [mbind option_bind head].
  inversion Hall as [|? ? Hd Hds]; subst. rewrite bit_64 by done. unfold digit7 in Hd.
  assert (length ds = 4%nat -> signed_digit s d) as Hfive.
  { intros L. pose proof (num128_bounds (s * 128 + d) ds Hds) as Hb. rewrite L in Hb.
    change (num128 (s * 128 + d) ds) with (num128 s (d :: ds)) in Hb. unfold signed_digit. lia. }
  destruct (Z.ltb_spec d 64) as [Hlt|Hge]; destruct Hs as [-> | ->]; cbn [negb andb Z.eqb].
  - exists 0, d, ds. rewrite (proj2 (Nat.leb_le _ _)) by (cbn; lia). repeat split; try done. by left.
  - assert (length ds <> 4%nat) as Hne by (intros L; destruct (Hfive L) as [[? ?]|[? ?]]; lia).
    exists (-1), 127, (d :: ds). rewrite (proj2 (Nat.leb_le _ _)) by (cbn; lia).
    repeat split; try done; [by constructor|by right|cbn; lia].
  - assert (length ds <> 4%nat) as Hne by (intros L; destruct (Hfive L) as [[? ?]|[? ?]]; lia).
    exists 0, 0, (d :: ds). rewrite (proj2 (Nat.leb_le _ _)) by (cbn; lia).
    repeat split; try done; [by constructor|by left|cbn; lia].
  - exists (-1), d, ds. rewrite (proj2 (Nat.leb_le _ _)) by (cbn; lia). repeat split; try done. by right.
Qed.

Lemma encode_int_ok num : - 2 ^ 31 <= num < 2 ^ 31 ->
  exists bs, encode_int num = Some bs /\ Forall is_byte bs /\ (length bs <= MP_ENCODE_UINT_MAX_BYTES)%nat /\
    forall rest, DECODE_INT (bs ++ rest) = Some (num, length bs).
Proof.
  intros Hv. destruct (encode_int_digits num Hv) as (s & d & ds & E & Hall & Hs & Hnum & Hlen).
  exists (with_continuation (d :: ds)). split; [done|]. split; [by apply with_continuation_bytes|].
  split; [rewrite length_with_continuation; cbn; lia|]. intros rest.
  by rewrite (decode_int_ok s d ds), Hnum by (rewrite ?Hnum; done).
Qed.

(** * The prelude *)

(** The byte of a round of the signature, from the low bits of each field. *)
Definition sig_byte (S E F A K D : Z) : Z :=
  Z.lor (Z.shiftl (bit0 F) 6) (Z.lor (Z.shiftl (Z.land S 3) 4) (Z.lor (Z.shiftl (bit0 K) 3)
    (Z.lor (Z.shiftl (bit0 A) 2) (Z.lor (Z.shiftl (bit0 E) 1) (bit0 D))))).

Lemma land_low x n : 0 <= n -> 0 <= Z.land x (2 ^ n - 1) < 2 ^ n.
Proof. intros. rewrite land_ones_mod by done. apply Z.mod_pos_bound. lia. Qed.

Lemma land_one x : Z.land x 1 = x mod 2.
Proof. exact (land_ones_mod x 1 ltac:(lia)). Qed.

Lemma land_3 x : Z.land x 3 = x mod 4.
Proof. exact (land_ones_mod x 2 ltac:(lia)). Qed.

(** The fields of a byte and of the same byte with its continuation bit. *)
Definition sig_fields (z : Z) (S E F A K D : Z) : Prop :=
  0 <= z < 128 /\
  forall b, b = z \/ b = Z.lor 128 z ->
    Z.land b 48 = (S mod 4) * 2 ^ 4 /\ Z.land b 2 = (E mod 2) * 2 ^ 1 /\ Z.shiftr (Z.land b 64) 6 = F mod 2 /\
    Z.land b 4 = (A mod 2) * 2 ^ 2 /\ Z.shiftr (Z.land b 8) 3 = K mod 2 /\ Z.land b 1 = D mod 2.

Lemma two_values x : 0 <= x < 2 -> x = 0 \/ x = 1.
Proof. lia. Qed.

Lemma sig_byte_fields S E F A K D : sig_fields (sig_byte S E F A K D) S E F A K D.
Proof.
  unfold sig_fields, sig_byte, bit0. rewrite !land_one, land_3.
  assert (S mod 4 = 0 \/ S mod 4 = 1 \/ S mod 4 = 2 \/ S mod 4 = 3) as HS
    by (pose proof (Z.mod_pos_bound S 4 ltac:(lia)); lia).
  pose proof (two_values _ (Z.mod_pos_bound E 2 ltac:(lia))) as HE.
  pose proof (two_values _ (Z.mod_pos_bound F 2 ltac:(lia))) as HF.
  pose proof (two_values _ (Z.mod_pos_bound A 2 ltac:(lia))) as HA.
  pose proof (two_values _ (Z.mod_pos_bound K 2 ltac:(lia))) as HK.
  pose proof (two_values _ (Z.mod_pos_bound D 2 ltac:(lia))) as HD.
  destruct HE as [-> | ->], HF as [-> | ->], HA as [-> | ->], HK as [-> | ->], HD as [-> | ->];
    destruct HS as [-> | [-> | [-> | ->]]]; (split; [vm_compute; split; [discriminate|reflexivity]|]);
    intros b [-> | ->]; vm_compute; repeat split.
Qed.

Lemma lor_shift acc n x p q : 0 <= n -> 0 <= p -> q = n + p -> 0 <= acc < 2 ^ q ->
  Z.lor acc (Z.shiftl (x * 2 ^ p) n) = acc + x * 2 ^ q.
Proof.
  intros Hn Hp -> Ha. rewrite Z.shiftl_mul_pow2 by done. rewrite <- Z.mul_assoc, <- Z.pow_add_r by done.
  rewrite (Z.add_comm p n), Z.lor_comm, lor_pow2 by lia. lia.
Qed.

Lemma lor_shift0 acc n x : 0 <= n -> 0 <= acc < 2 ^ n -> Z.lor acc (Z.shiftl x n) = acc + x * 2 ^ n.
Proof. intros Hn Ha. rewrite <- (Z.mul_1_r x) at 1. apply (lor_shift acc n x 0 n); lia. Qed.

Lemma lor_0_iff a b : 0 <= a -> 0 <= b -> (Z.lor a b =? 0) = (a =? 0) && (b =? 0).
Proof.
  intros. destruct (Z.eqb_spec (Z.lor a b) 0) as [E|E].
  - apply Z.lor_eq_0_iff in E as [-> ->]. done.
  - symmetry. apply andb_false_iff. rewrite !Z.eqb_neq. destruct (decide (a = 0)) as [->|]; [|by left].
    right. intros ->. done.
Qed.

(** The value of a field: what is accumulated, then the bits still to come. *)
Definition field_below (n x : Z) : Prop := 0 <= x < 2 ^ n.

Lemma shiftr_below x n p : 0 <= n -> 0 <= p -> field_below (n + p) x -> field_below n (Z.shiftr x p).
Proof.
  unfold field_below. intros Hn Hp [H0 H1]. rewrite Z.shiftr_div_pow2 by done. split; [apply Z.div_pos; lia|].
  apply Z.div_lt_upper_bound; [lia|]. by rewrite <- Z.pow_add_r, Z.add_comm by done.
Qed.

Lemma below_weaken m n x : m <= n -> field_below m x -> field_below n x.
Proof. unfold field_below. intros Hmn [H0 H1]. split; [done|]. pose proof (Z.pow_le_mono_r 2 m n). lia. Qed.

(** Adding the low bits of a field above its accumulated part. *)
Lemma field_step acc x n k : 0 <= n -> 0 <= k -> 0 <= acc < 2 ^ n ->
  0 <= acc + x mod 2 ^ k * 2 ^ n < 2 ^ (n + k) /\
  acc + x mod 2 ^ k * 2 ^ n + Z.shiftr x k * 2 ^ (n + k) = acc + x * 2 ^ n.
Proof.
  intros Hn Hk Ha. rewrite Z.pow_add_r, Z.shiftr_div_pow2 by done.
  pose proof (Z.mod_pos_bound x (2 ^ k) ltac:(lia)). pose proof (Z.div_mod x (2 ^ k) ltac:(lia)). split; nia.
Qed.

Lemma sig_encode_S fuel S E F A K D z :
  sig_encode_loop (Datatypes.S fuel) S E F A K D z =
  if Z.lor S (Z.lor E (Z.lor F (Z.lor A (Z.lor K D)))) =? 0 then Some [z]
  else cons (Z.lor 128 z) <$> sig_encode_loop fuel (Z.shiftr S 2) (Z.shiftr E 1) (Z.shiftr F 1) (Z.shiftr A 1)
         (Z.shiftr K 1) (Z.shiftr D 1) (sig_byte S E F A K D).
Proof. reflexivity. Qed.

Lemma sig_loop_ok fuel : forall S E F A K D z,
  Forall (field_below (Z.of_nat fuel)) [S; E; F; A; K; D] -> 0 <= z < 128 ->
  exists b bs, sig_encode_loop (Datatypes.S fuel) S E F A K D z = Some (b :: bs) /\ (b = z \/ b = Z.lor 128 z) /\
    Forall is_byte (b :: bs) /\
    forall rest n Sa Ea Fa Aa Ka Da k, 0 <= n ->
      field_below (4 + 2 * n) Sa -> field_below (1 + n) Ea -> field_below n Fa -> field_below (2 + n) Aa ->
      field_below n Ka -> field_below n Da ->
      sig_decode_loop (bs ++ rest) b n Sa Ea Fa Aa Ka Da k =
        Some ({| n_state := Sa + S * 2 ^ (4 + 2 * n) + 1; n_exc_stack := Ea + E * 2 ^ (1 + n);
                 sig_flags := Fa + F * 2 ^ n; n_pos_args := Aa + A * 2 ^ (2 + n);
                 n_kwonly_args := Ka + K * 2 ^ n; n_def_pos_args := Da + D * 2 ^ n |}, (k + length bs)%nat).
Proof.
  assert (forall S E F A K D z, Z.lor S (Z.lor E (Z.lor F (Z.lor A (Z.lor K D)))) = 0 -> 0 <= z < 128 ->
    forall rest n Sa Ea Fa Aa Ka Da k,
      sig_decode_loop rest z n Sa Ea Fa Aa Ka Da k =
        Some ({| n_state := Sa + S * 2 ^ (4 + 2 * n) + 1; n_exc_stack := Ea + E * 2 ^ (1 + n);
                 sig_flags := Fa + F * 2 ^ n; n_pos_args := Aa + A * 2 ^ (2 + n);
                 n_kwonly_args := Ka + K * 2 ^ n; n_def_pos_args := Da + D * 2 ^ n |}, k)) as Hbase.
  { intros S E F A K D z H0 Hz rest n Sa Ea Fa Aa Ka Da k.
    apply Z.lor_eq_0_iff in H0 as [-> H0]. apply Z.lor_eq_0_iff in H0 as [-> H0].
    apply Z.lor_eq_0_iff in H0 as [-> H0]. apply Z.lor_eq_0_iff in H0 as [-> H0].
    apply Z.lor_eq_0_iff in H0 as [-> ->]. rewrite !Z.mul_0_l, !Z.add_0_r.
    destruct rest; cbn [sig_decode_loop]; rewrite continuation_bit, (proj2 (Z.ltb_lt z 128)) by lia; done. }
  induction fuel as [|fuel IH]; intros S E F A K D z Hf Hz; rewrite sig_encode_S.
  - assert (Z.lor S (Z.lor E (Z.lor F (Z.lor A (Z.lor K D)))) = 0) as E0.
    { rewrite !list.Forall_cons in Hf. unfold field_below in Hf. cbn in Hf.
      replace S with 0 by lia. replace E with 0 by lia. replace F with 0 by lia. replace A with 0 by lia.
      replace K with 0 by lia. replace D with 0 by lia. done. }
    rewrite E0. cbn [Z.eqb]. exists z, []. split; [done|]. split; [by left|]. split.
    { repeat constructor; unfold is_byte; lia. }
    intros. rewrite app_nil_l, Nat.add_0_r. by apply Hbase.
  - destruct (Z.eqb_spec (Z.lor S (Z.lor E (Z.lor F (Z.lor A (Z.lor K D))))) 0) as [E0|E0].
    { exists z, []. split; [done|]. split; [by left|]. split; [repeat constructor; unfold is_byte; lia|].
      intros. rewrite app_nil_l, Nat.add_0_r. by apply Hbase. }
    pose proof (sig_byte_fields S E F A K D) as [Hz' Hfields].
    rewrite Nat2Z.inj_succ in Hf. unfold Z.succ in Hf. rewrite !list.Forall_cons in Hf.
    destruct Hf as (HS & HE & HF & HA & HK & HD & _).
    destruct (IH (Z.shiftr S 2) (Z.shiftr E 1) (Z.shiftr F 1) (Z.shiftr A 1) (Z.shiftr K 1) (Z.shiftr D 1)
      (sig_byte S E F A K D)) as (b & bs & Hbs & Hb & Hall & Hdec).
    { rewrite !list.Forall_cons. split_and!; try done; apply shiftr_below; try lia; try done.
      by eapply below_weaken; [|done]; lia. }
    { done. }
    rewrite Hbs. exists (Z.lor 128 z), (b :: bs). split; [done|]. split; [by right|].
    rewrite (Z.lor_comm 128 z), lor_128 by done. split; [constructor; [unfold is_byte; lia|done]|].
    intros rest n Sa Ea Fa Aa Ka Da k Hn HSa HEa HFa HAa HKa HDa. cbn [app sig_decode_loop].
    rewrite continuation_bit, (proj2 (Z.ltb_ge (128 + z) 128)) by lia.
    destruct (Hfields b Hb) as (FS & FE & FF & FA & FK & FD). rewrite FS, FE, FF, FA, FK, FD.
    rewrite (lor_shift Sa (2 * n) _ 4 (4 + 2 * n)), (lor_shift Ea n _ 1 (1 + n)), (lor_shift Aa n _ 2 (2 + n)),
      !lor_shift0 by (done || lia).
    destruct (field_step Sa S (4 + 2 * n) 2) as [BS VS]; [lia|lia|done|].
    destruct (field_step Ea E (1 + n) 1) as [BE VE]; [lia|lia|done|].
    destruct (field_step Fa F n 1) as [BF VF]; [lia|lia|done|].
    destruct (field_step Aa A (2 + n) 1) as [BA VA]; [lia|lia|done|].
    destruct (field_step Ka K n 1) as [BK VK]; [lia|lia|done|].
    destruct (field_step Da D n 1) as [BD VD]; [lia|lia|done|].
    change (2 ^ 2) with 4 in BS, VS. change (2 ^ 1) with 2 in BE, VE, BF, VF, BA, VA, BK, VK, BD, VD.
    replace (4 + 2 * n + 2) with (4 + 2 * (n + 1)) in BS, VS by lia.
    replace (1 + n + 1) with (1 + (n + 1)) in BE, VE by lia. replace (2 + n + 1) with (2 + (n + 1)) in BA, VA by lia.
    rewrite Hdec by (done || lia). rewrite VS, VE, VF, VA, VK, VD. cbn [length]. by rewrite Nat.add_succ_r.
Qed.

(** A signature the prelude can hold. *)
Definition sig_ok (s : prelude_sig) : Prop :=
  0 < n_state s <= 2 ^ 16 /\ 0 <= n_exc_stack s < 2 ^ 16 /\ 0 <= sig_flags s < 16 /\ 0 <= n_pos_args s < 2 ^ 16 /\
  0 <= n_kwonly_args s < 2 ^ 16 /\ 0 <= n_def_pos_args s < 2 ^ 16.

Lemma first_byte_fields S E A :
  let z := Z.lor (Z.shiftl (Z.land S 15) 3) (Z.lor (Z.shiftl (bit0 E) 2) (Z.land A 3)) in
  0 <= z < 128 /\
  forall b, b = z \/ b = Z.lor 128 z ->
    Z.land (Z.shiftr b 3) 15 = S mod 2 ^ 4 /\ Z.land (Z.shiftr b 2) 1 = E mod 2 ^ 1 /\ Z.land b 3 = A mod 2 ^ 2.
Proof.
  unfold bit0. rewrite land_one, land_3. change (Z.land S 15) with (Z.land S (2 ^ 4 - 1)). rewrite land_ones_mod by lia.
  change (2 ^ 1) with 2. change (2 ^ 2) with 4.
  pose proof (Z.mod_pos_bound S (2 ^ 4) ltac:(lia)) as HS. pose proof (Z.mod_pos_bound E 2 ltac:(lia)) as HE.
  pose proof (Z.mod_pos_bound A 4 ltac:(lia)) as HA. generalize dependent (S mod 2 ^ 4). intros s HS.
  generalize dependent (E mod 2). intros e HE. generalize dependent (A mod 4). intros a HA.
  set (P := fun b => let s := b / 8 in let e := b / 4 mod 2 in let a := b mod 4 in
    let z := Z.lor (Z.shiftl s 3) (Z.lor (Z.shiftl e 2) a) in
    (128 <=? b) || (z =? b) && forallb (fun b => (Z.land (Z.shiftr b 3) 15 =? s) && (Z.land (Z.shiftr b 2) 1 =? e) &&
      (Z.land b 3 =? a)) [z; Z.lor 128 z]).
  assert (0 <= s * 8 + e * 4 + a < 128) as Hb by lia.
  pose proof (on_bytes P ltac:(vm_compute; reflexivity) (s * 8 + e * 4 + a) ltac:(lia)) as H. subst P. cbv zeta beta in H.
  replace ((s * 8 + e * 4 + a) / 8) with s in H by (apply (Z.div_unique _ _ _ (e * 4 + a)); lia).
  replace ((s * 8 + e * 4 + a) / 4) with (s * 2 + e) in H by (apply (Z.div_unique _ _ _ a); lia).
  replace ((s * 2 + e) mod 2) with e in H by (apply (Z.mod_unique _ _ s); lia).
  replace ((s * 8 + e * 4 + a) mod 4) with a in H by (apply (Z.mod_unique _ _ (s * 2 + e)); lia).
  apply orb_true_iff in H as [H|H]; [apply Z.leb_le in H; lia|]. apply andb_true_iff in H as [Hz H].
  apply Z.eqb_eq in Hz. rewrite Hz in H |- *. split; [done|]. intros b Hbb. rewrite forallb_forall in H.
  specialize (H b). rewrite !andb_true_iff, !Z.eqb_eq in H.
  destruct H as [[? ?] ?]; [|done]. destruct Hbb as [->| ->]; cbn; auto.
Qed.

Lemma prelude_sig_ok s : sig_ok s ->
  exists bs, MP_BC_PRELUDE_SIG_ENCODE s = Some bs /\ Forall is_byte bs /\
    forall rest, MP_BC_PRELUDE_SIG_DECODE (bs ++ rest) = Some (s, length bs).
Proof.
  intros (HS & HE & HF & HA & HK & HD). unfold MP_BC_PRELUDE_SIG_ENCODE, SIG_FUEL, MP_SCOPE_FLAG_ALL_SIG.
  assert (Z.land (sig_flags s) 15 = sig_flags s) as EF.
  { change 15 with (2 ^ 4 - 1). rewrite land_ones_mod by lia. apply Z.mod_small. lia. }
  rewrite EF. destruct (first_byte_fields (n_state s - 1) (n_exc_stack s) (n_pos_args s)) as [Hz Hfields].
  set (z := Z.lor _ _) in *.
  destruct (sig_loop_ok 32 (Z.shiftr (n_state s - 1) 4) (Z.shiftr (n_exc_stack s) 1) (sig_flags s)
    (Z.shiftr (n_pos_args s) 2) (n_kwonly_args s) (n_def_pos_args s) z) as (b & bs & E & Hb & Hall & Hdec); [|done|].
  { rewrite !list.Forall_cons. split_and!; try done; try apply shiftr_below; try lia; unfold field_below;
      cbn; cbn in HS; lia. }
  rewrite E. eexists. split; [done|]. split; [done|]. intros rest. cbn [app MP_BC_PRELUDE_SIG_DECODE].
  destruct (Hfields b Hb) as (FS & FE & FA). rewrite FS, FE, FA.
  pose proof (field_step 0 (n_state s - 1) 0 4 ltac:(lia) ltac:(lia) ltac:(lia)) as [BS VS].
  pose proof (field_step 0 (n_exc_stack s) 0 1 ltac:(lia) ltac:(lia) ltac:(lia)) as [BE VE].
  pose proof (field_step 0 (n_pos_args s) 0 2 ltac:(lia) ltac:(lia) ltac:(lia)) as [BA VA].
  rewrite !Z.pow_0_r, !Z.mul_1_r, !Z.add_0_l in *.
  rewrite Hdec by (done || lia || (unfold field_below; lia)). rewrite !Z.add_0_l, !Z.mul_0_r, !Z.add_0_r, !Z.pow_0_r, !Z.mul_1_r.
  rewrite VS, VE, VA. do 2 f_equal. destruct s; cbn. f_equal. lia.
Qed.

Definition size_byte (I C : Z) : Z := Z.lor (Z.shiftl (Z.land I 63) 1) (Z.land C 1).

Lemma size_encode_S fuel I C :
  size_encode_loop (S fuel) I C =
  if Z.lor (Z.shiftr C 1) (Z.shiftr I 6) =? 0 then Some [size_byte I C]
  else cons (Z.lor (size_byte I C) 128) <$> size_encode_loop fuel (Z.shiftr I 6) (Z.shiftr C 1).
Proof. reflexivity. Qed.

Lemma size_byte_fields I C : 0 <= size_byte I C < 128 /\
  forall b, b = size_byte I C \/ b = Z.lor (size_byte I C) 128 ->
    Z.land b 1 = C mod 2 ^ 1 /\ Z.shiftr (Z.land b 126) 1 = I mod 2 ^ 6.
Proof.
  unfold size_byte. rewrite land_one. change 63 with (2 ^ 6 - 1). rewrite land_ones_mod by lia. change (2 ^ 1) with 2.
pose proof (Z.mod_pos_bound I (2 ^ 6) ltac:(lia)) as HI. pose proof (Z.mod_pos_bound C 2 ltac:(lia)) as HC.
generalize dependent (I mod 2 ^ 6). intros i HI. generalize dependent (C mod 2). intros c HC.
set (P := fun b => let i := b / 2 in let c := b mod 2 in let z := Z.lor (Z.shiftl i 1) c in
  (128 <=? b) || (z =? b) && forallb (fun b => (Z.land b 1 =? c) && (Z.shiftr (Z.land b 126) 1 =? i)) [z; Z.lor z 128]).
assert (0 <= i * 2 + c < 128) as Hb by lia.
pose proof (on_bytes P ltac:(vm_compute; reflexivity) (i * 2 + c) ltac:(lia)) as H. subst P. cbv zeta beta in H.
replace ((i * 2 + c) / 2) with i in H by (apply (Z.div_unique _ _ _ c); lia).
replace ((i * 2 + c) mod 2) with c in H by (apply (Z.mod_unique _ _ i); lia).
apply orb_true_iff in H as [H|H]; [apply Z.leb_le in H; lia|]. apply andb_true_iff in H as [Hz H].
apply Z.eqb_eq in Hz. cbv zeta. rewrite Hz in H |- *. split; [done|]. intros b Hbb. rewrite forallb_forall in H.
specialize (H b). rewrite !andb_true_iff, !Z.eqb_eq in H.
destruct H as [? ?]; [|done]. destruct Hbb as [->| ->]; cbn; auto.
Qed.

Lemma size_loop_ok fuel : forall I C, field_below (Z.of_nat fuel) I -> field_below (Z.of_nat fuel) C ->
  exists bs, size_encode_loop (S fuel) I C = Some bs /\ Forall is_byte bs /\
    forall rest n Ia Ca k, 0 <= n -> field_below (6 * n) Ia -> field_below n Ca ->
      size_decode_loop (bs ++ rest) n Ia Ca k = Some (Ia + I * 2 ^ (6 * n), Ca + C * 2 ^ n, (k + length bs)%nat).
Proof.
  assert (forall I C, field_below 0 I -> field_below 0 C -> Z.lor C I = 0) as H00.
  { unfold field_below. cbn. intros I C HI HC. replace I with 0 by lia. by replace C with 0 by lia. }
  induction fuel as [|fuel IH]; intros I C HI HC; rewrite size_encode_S;
    destruct (size_byte_fields I C) as [Hz Hf]; set (z := size_byte I C) in *;
    destruct (Z.eqb_spec (Z.lor (Z.shiftr C 1) (Z.shiftr I 6)) 0) as [E0|E0].
  2: { exfalso. apply E0, H00; apply shiftr_below; try lia; by eapply below_weaken; [|done]; cbn. }
  1,2: exists [z]; split; [done|]; split; [repeat constructor; unfold is_byte; lia|];
    intros rest n Ia Ca k Hn HIa HCa; cbn [app size_decode_loop];
    destruct (Hf z (or_introl eq_refl)) as [FC FI]; rewrite FC, FI, !lor_shift0 by (done || lia);
    rewrite continuation_bit, (proj2 (Z.ltb_lt z 128)) by lia;
    destruct (field_step Ia I (6 * n) 6) as [BI VI]; [lia|lia|done|];
    destruct (field_step Ca C n 1) as [BC VC]; [lia|lia|done|];
    apply Z.lor_eq_0_iff in E0 as [EC EI]; rewrite EI in VI; rewrite EC in VC;
    rewrite Z.mul_0_l, Z.add_0_r in VI, VC; rewrite VI, VC; do 2 f_equal; cbn; lia.
  rewrite Nat2Z.inj_succ in HI, HC. unfold Z.succ in HI, HC.
  destruct (IH (Z.shiftr I 6) (Z.shiftr C 1)) as (bs & Hbs & Hall & Hdec).
  { apply shiftr_below; try lia. by eapply below_weaken; [|done]; lia. }
  { by apply shiftr_below; try lia. }
  rewrite Hbs. exists (Z.lor z 128 :: bs). split; [done|]. rewrite lor_128 by done.
  split; [constructor; [unfold is_byte; lia|done]|]. intros rest n Ia Ca k Hn HIa HCa. cbn [app size_decode_loop].
  destruct (Hf (128 + z)) as [FC FI]; [right; by rewrite lor_128|].
  rewrite FC, FI, !lor_shift0 by (done || lia). rewrite continuation_bit, (proj2 (Z.ltb_ge (128 + z) 128)) by lia.
  destruct (field_step Ia I (6 * n) 6) as [BI VI]; [lia|lia|done|].
  destruct (field_step Ca C n 1) as [BC VC]; [lia|lia|done|].
  replace (6 * n + 6) with (6 * (n + 1)) in BI, VI by lia.
  rewrite Hdec by (done || lia). rewrite VI, VC. cbn [length]. by rewrite Nat.add_succ_r.
Qed.

Lemma prelude_size_ok I C : 0 <= I < 2 ^ 32 -> 0 <= C < 2 ^ 32 ->
  exists bs, MP_BC_PRELUDE_SIZE_ENCODE I C = Some bs /\ Forall is_byte bs /\
    forall rest, MP_BC_PRELUDE_SIZE_DECODE (bs ++ rest) = Some (I, C, length bs).
Proof.
  intros HI HC. destruct (size_loop_ok 32 I C HI HC) as (bs & E & Hall & Hdec). exists bs. split; [done|]. split; [done|].
  intros rest. unfold MP_BC_PRELUDE_SIZE_DECODE. rewrite Hdec by (done || unfold field_below; lia).
  by rewrite !Z.mul_0_r, !Z.pow_0_r, !Z.mul_1_r.
Qed.

(** * Lines *)

Lemma on_range n (P : Z -> bool) : forallb P (seqZ 0 n) = true -> forall b, 0 <= b < n -> P b = true.
Proof.
  intros H b Hb. rewrite forallb_forall in H. apply H. apply list_elem_of_In, elem_of_seqZ. lia.
Qed.

Definition short_entry (b l : Z) : bool :=
  let c := Z.lor b (Z.shiftl l 5) in
  (Z.land c 128 =? 0) && (Z.land c 31 =? b) && (Z.shiftr c 5 =? l) && (0 <=? c) && (c <? 256).

Definition long_entry (b l : Z) : bool :=
  let c := Z.lor 128 (Z.lor b (Z.land (Z.shiftr l 4) 112)) in
  negb (Z.land c 128 =? 0) && (Z.land c 15 =? b) && (Z.lor (Z.land (Z.shiftl c 4) 1792) (wrapu 8 l) =? l) &&
  (0 <=? c) && (c <? 256).

Lemma short_entry_ok b l : 0 <= b < 32 -> 0 <= l < 4 -> short_entry b l = true.
Proof.
  intros Hb Hl. assert (forallb (short_entry b) (seqZ 0 4) = true) as H.
  - by apply (on_range 32 (fun b => forallb (short_entry b) (seqZ 0 4))); [vm_compute|].
  - by apply (on_range 4).
Qed.

Lemma long_entry_ok b l : 0 <= b < 16 -> 0 <= l < 2048 -> long_entry b l = true.
Proof.
  intros Hb Hl. assert (forallb (long_entry b) (seqZ 0 2048) = true) as H.
  - by apply (on_range 16 (fun b => forallb (long_entry b) (seqZ 0 2048))); [vm_compute|].
  - by apply (on_range 2048).
Qed.

(** What the bytes of an entry do to a search: they skip [b] bytes and [l] lines. *)
Definition skips (bs : list Z) (b l : Z) : Prop :=
  forall rest off line, 0 <= off ->
    source_line_loop (bs ++ rest) off line =
    if b <=? off then source_line_loop rest (off - b) (line + l) else Some line.

Lemma skips_cons bs bs' b l b' l' : skips bs b l -> skips bs' b' l' -> 0 <= b' -> (l = 0 \/ b' = 0) ->
  skips (bs ++ bs') (b + b') (l + l').
Proof.
  intros H H' Hb' Hl rest off line Hoff. rewrite <- app_assoc, H by done.
  destruct (Z.leb_spec b off).
  - rewrite H' by lia. destruct (Z.leb_spec b' (off - b)), (Z.leb_spec (b + b') off); try lia.
    + by rewrite Z.sub_add_distr, Z.add_assoc.
    + f_equal. lia.
  - by rewrite (proj2 (Z.leb_gt (b + b') off)) by lia.
Qed.

Lemma skips_split bs bs' b1 l1 b l : skips bs b1 l1 -> skips bs' (b - b1) (l - l1) -> b1 <= b -> (l1 = 0 \/ b1 = b) ->
  skips (bs ++ bs') b l.
Proof.
  intros H H' Hb D. pose proof (skips_cons bs bs' b1 l1 (b - b1) (l - l1) H H' ltac:(lia) ltac:(lia)) as S.
  by replace (b1 + (b - b1)) with b in S by lia; replace (l1 + (l - l1)) with l in S by lia.
Qed.

Lemma short_skips b l : 0 <= b < 32 -> 0 <= l < 4 -> skips [Z.lor b (Z.shiftl l 5)] b l.
Proof.
  intros Hb Hl rest off line Hoff. pose proof (short_entry_ok b l Hb Hl) as H. unfold short_entry in H.
  rewrite !andb_true_iff, !Z.eqb_eq in H. destruct H as [[[[H0 H1] H2] _] _].
  cbn [app source_line_loop]. rewrite H0, H1, H2. done.
Qed.

Lemma long_skips b l : 0 <= b < 16 -> 0 <= l < 2048 ->
  skips [Z.lor 128 (Z.lor b (Z.land (Z.shiftr l 4) 112)); wrapu 8 l] b l.
Proof.
  intros Hb Hl rest off line Hoff. pose proof (long_entry_ok b l Hb Hl) as H. unfold long_entry in H.
  rewrite !andb_true_iff, negb_true_iff, !Z.eqb_eq, Z.eqb_neq in H. destruct H as [[[[H0 H1] H2] _] _].
  cbn [app source_line_loop]. rewrite (proj2 (Z.eqb_neq _ _) H0), H1, H2. done.
Qed.

Lemma entry_bytes b l : 0 <= b < 32 -> 0 <= l < 4 -> is_byte (Z.lor b (Z.shiftl l 5)).
Proof.
  intros Hb Hl. pose proof (short_entry_ok b l Hb Hl) as H. unfold short_entry in H.
  rewrite !andb_true_iff, Z.leb_le, Z.ltb_lt in H. unfold is_byte. lia.
Qed.

Lemma long_entry_bytes b l : 0 <= b < 16 -> 0 <= l < 2048 ->
  Forall is_byte [Z.lor 128 (Z.lor b (Z.land (Z.shiftr l 4) 112)); wrapu 8 l].
Proof.
  intros Hb Hl. pose proof (long_entry_ok b l Hb Hl) as H. unfold long_entry in H.
  rewrite !andb_true_iff, Z.leb_le, Z.ltb_lt in H. pose proof (wrapu_range 8 l ltac:(lia)).
  repeat constructor; unfold is_byte; lia.
Qed.

Lemma bytes_lines_loop_ok fuel : forall b l, 0 <= b -> 0 <= l -> b + l < Z.of_nat fuel ->
  exists bs, bytes_lines_loop fuel b l = Some bs /\ Forall is_byte bs /\ skips bs b l.
Proof.
  induction fuel as [|fuel IH]; intros b l Hb Hl Hf; [lia|]. cbn [bytes_lines_loop].
  destruct (Z.leb_spec b 0), (Z.leb_spec l 0); cbn [andb].
  { exists []. split; [done|]. split; [done|]. intros rest off line Hoff. cbn [app].
    replace b with 0 by lia. replace l with 0 by lia. by rewrite (proj2 (Z.leb_le 0 off)), Z.sub_0_r, Z.add_0_r. }
  all: destruct (_ || _) eqn:E.
  1,3,5: set (b1 := Z.min b 31); set (l1 := if b1 <? b then 0 else Z.min l 3);
    assert (0 <= b1 < 32 /\ 0 <= l1 < 4 /\ b1 <= b /\ l1 <= l /\ 0 < b1 + l1 /\ (l1 = 0 \/ b - b1 = 0)) as (B & L & ? & ? & ? & D)
      by (subst b1 l1; destruct (Z.ltb_spec (Z.min b 31) b); lia);
    destruct (IH (b - b1) (l - l1)) as (bs & -> & Hall & Hs); [lia|lia|lia|];
    eexists; split; [reflexivity|]; split; [by constructor; [apply entry_bytes|]|];
    apply (skips_split [_] _ b1 l1); [by apply short_skips|done|done|lia].
  all: rewrite orb_false_iff, Z.leb_gt, Z.ltb_ge in E;
    set (b1 := Z.min b 15); set (l1 := Z.min l 2047);
    assert (0 <= b1 < 16 /\ 0 <= l1 < 2048 /\ b1 = b /\ l1 <= l /\ 0 < l1) as (B & L & ? & ? & ?) by (subst b1 l1; lia);
    destruct (IH (b - b1) (l - l1)) as (bs & -> & Hall & Hs); [lia|lia|lia|];
    eexists; split; [reflexivity|]; split; [by apply (Forall_app_2 _ [_; _]); [apply long_entry_bytes|]|];
    apply (skips_split [_; _] _ b1 l1); [by apply long_skips|done|lia|lia].
Qed.

Lemma bytes_lines_ok b l : 0 <= b -> 0 <= l ->
  exists bs, bytes_lines b l = Some bs /\ Forall is_byte bs /\ skips bs b l.
Proof. intros. apply bytes_lines_loop_ok; lia. Qed.

(** The table of a list of (offset, line) pairs, as [mp_emit_bc_set_source_line]
    writes them one after the other. *)
Fixpoint line_table (last_offset last_line : Z) (entries : list (Z * Z)) : option (list Z) :=
  match entries with
  | [] => Some []
  | (o, l) :: entries =>
      bs ← bytes_lines (o - last_offset) (l - last_line); bs' ← line_table o l entries; Some (bs ++ bs')
  end.

(** The line of an offset: that of the last entry at or before it. *)
Definition line_at (entries : list (Z * Z)) (off line : Z) : Z :=
  foldl (fun line e => if e.1 <=? off then e.2 else line) line entries.

Fixpoint increasing (o l : Z) (entries : list (Z * Z)) : Prop :=
  match entries with [] => True | (o', l') :: es => o <= o' /\ l <= l' /\ increasing o' l' es end.

Lemma line_at_before entries o l off line : increasing o l entries -> off < o -> line_at entries off line = line.
Proof.
  revert o l. induction entries as [|[o' l'] es IH]; intros o l; [done|]. cbn. intros (Ho & Hl & Hi) Hoff.
  rewrite (proj2 (Z.leb_gt o' off)) by lia. apply (IH o' l'); [done|lia].
Qed.

Lemma line_table_ok entries : forall o l, increasing o l entries ->
  exists bs, line_table o l entries = Some bs /\ Forall is_byte bs /\
    forall off, o <= off -> source_line_loop bs (off - o) l = Some (line_at entries off l).
Proof.
  induction entries as [|[o' l'] es IH]; intros o l; cbn [line_table increasing]; [by exists []|].
  intros (Ho & Hl & Hi). destruct (bytes_lines_ok (o' - o) (l' - l)) as (b & -> & Hb & Hs); [lia|lia|].
  destruct (IH _ _ Hi) as (bs & E & Hbs & Hlook). cbn [mbind option_bind]. rewrite E. cbn [mbind option_bind].
  eexists. split; [done|]. split; [by apply Forall_app_2|]. intros off Hoff. rewrite Hs by lia. cbn [line_at foldl].
  cbn [fst snd]. destruct (Z.leb_spec (o' - o) (off - o)), (Z.leb_spec o' off); try lia.
  - replace (off - o - (o' - o)) with (off - o') by lia. replace (l + (l' - l)) with l' by lia. by apply Hlook.
  - f_equal. symmetry. by apply (line_at_before _ o' l').
Qed.

(** ** The offsets of jumps *)

(** The two bytes of a long offset. *)
Definition long_label (v : Z) : list Z := [Z.lor 128 (Z.land v 127); wrapu 8 (Z.shiftr v 7)].

Lemma long_label_bytes v : 0 <= v < 2 ^ 15 ->
  exists a b, long_label v = [a; b] /\ (Z.land a 128 =? 0) = false /\ Z.lor (Z.land a 127) (Z.shiftl b 7) = v.
Proof.
  intros Hv. pose proof (Z.mod_pos_bound v 128 ltac:(lia)).
  assert (0 <= v / 128 < 256) by (split; [apply Z.div_pos; lia|apply Z.div_lt_upper_bound; lia]).
  eexists _, _. split; [done|]. rewrite Z.lor_comm, land_127, lor_128, shiftr_7, wrapu_small by lia.
  split; [rewrite continuation_bit by lia; apply Z.ltb_ge; lia|].
  rewrite land_127, Z.shiftl_mul_pow2 by lia. replace (128 + v mod 128) with (v mod 128 + 1 * 128) by lia.
  rewrite Z.mod_add, Z.mod_mod, Z.lor_comm, (lor_pow2 7) by (change (2 ^ 7) with 128; lia).
  change (2 ^ 7) with 128. pose proof (Z.div_mod v 128 ltac:(lia)). lia.
Qed.

Lemma short_label v : 0 <= v < 128 -> (Z.land v 128 =? 0) = true.
Proof. intros. rewrite continuation_bit by lia. apply Z.ltb_lt. lia. Qed.

Lemma label_ok v rest : 0 <= v ->
  (v < 128 -> DECODE_ULABEL (v :: rest) = Some (v, 1%nat) /\ DECODE_SLABEL (v :: rest) = Some (v - 64, 1%nat)) /\
  (v < 2 ^ 15 -> DECODE_ULABEL (long_label v ++ rest) = Some (v, 2%nat) /\
                 DECODE_SLABEL (long_label v ++ rest) = Some (v - 16384, 2%nat)).
Proof.
  intros H0. split; intros Hv.
  - unfold DECODE_ULABEL, DECODE_SLABEL. cbn [head mbind option_bind]. by rewrite short_label.
  - destruct (long_label_bytes v ltac:(lia)) as (a & b & -> & Ha & E).
    unfold DECODE_ULABEL, DECODE_SLABEL. cbn [head mbind option_bind app lookup list_lookup]. by rewrite Ha, E.
Qed.
