(* ===== verification/Scope.v ===== *)
(** The scopes of the compiler, [py/scope.c], and the numbering of their
    variables, [scope_compute_things] of [py/compile.c].  A qstr is its number.
    A scope comes with the list of its enclosing scopes, the nearest first; the
    last one is the module. *)

From Stdlib Require Import ZArith Lia.
From stdpp Require Import base option list numbers.
From S2P Require Import Prelude Bytecode.

(** * Definitions *)

Inductive id_info_kind_t :=
  | ID_INFO_KIND_UNDECIDED | ID_INFO_KIND_GLOBAL_IMPLICIT | ID_INFO_KIND_GLOBAL_IMPLICIT_ASSIGNED
  | ID_INFO_KIND_GLOBAL_EXPLICIT | ID_INFO_KIND_LOCAL | ID_INFO_KIND_CELL | ID_INFO_KIND_FREE.

#[export] Instance id_info_kind_eq_dec : EqDecision id_info_kind_t.
Proof. solve_decision. Defined.

Inductive scope_kind_t :=
  | SCOPE_MODULE | SCOPE_CLASS | SCOPE_LAMBDA | SCOPE_LIST_COMP | SCOPE_DICT_COMP | SCOPE_SET_COMP
  | SCOPE_GEN_EXPR | SCOPE_FUNCTION.

#[export] Instance scope_kind_eq_dec : EqDecision scope_kind_t.
Proof. solve_decision. Defined.

(** [SCOPE_IS_FUNC_LIKE]. *)
Definition SCOPE_IS_FUNC_LIKE (k : scope_kind_t) : bool :=
  match k with SCOPE_MODULE | SCOPE_CLASS => false | _ => true end.

Definition SCOPE_IS_COMP_LIKE (k : scope_kind_t) : bool :=
  match k with SCOPE_LIST_COMP | SCOPE_DICT_COMP | SCOPE_SET_COMP | SCOPE_GEN_EXPR => true | _ => false end.

Definition ID_FLAG_IS_PARAM : Z := 1.
Definition ID_FLAG_IS_STAR_PARAM : Z := 2.
Definition ID_FLAG_IS_DBL_STAR_PARAM : Z := 4.

Record id_info_t := { id_kind : id_info_kind_t; id_flags : Z; local_num : Z; id_qst : Z }.

Record scope_t := {
  kind : scope_kind_t;
  simple_name : Z;
  scope_flags : Z;
  num_pos_args : Z;
  num_kwonly_args : Z;
  num_def_pos_args : Z;
  num_locals : Z;
  stack_size : Z;
  exc_stack_size : Z;
  id_info : list id_info_t;
}.

Definition with_id_info (s : scope_t) (ids : list id_info_t) : scope_t :=
  {| kind := kind s; simple_name := simple_name s; scope_flags := scope_flags s; num_pos_args := num_pos_args s;
     num_kwonly_args := num_kwonly_args s; num_def_pos_args := num_def_pos_args s; num_locals := num_locals s;
     stack_size := stack_size s; exc_stack_size := exc_stack_size s; id_info := ids |}.

Definition with_locals (s : scope_t) (pos_args locals : Z) : scope_t :=
  {| kind := kind s; simple_name := simple_name s; scope_flags := scope_flags s; num_pos_args := pos_args;
     num_kwonly_args := num_kwonly_args s; num_def_pos_args := num_def_pos_args s; num_locals := locals;
     stack_size := stack_size s; exc_stack_size := exc_stack_size s; id_info := id_info s |}.

Definition with_stack_sizes (s : scope_t) (size exc : Z) : scope_t :=
  {| kind := kind s; simple_name := simple_name s; scope_flags := scope_flags s; num_pos_args := num_pos_args s;
     num_kwonly_args := num_kwonly_args s; num_def_pos_args := num_def_pos_args s; num_locals := num_locals s;
     stack_size := size; exc_stack_size := exc; id_info := id_info s |}.

Definition with_flags (s : scope_t) (flags : Z) : scope_t :=
  {| kind := kind s; simple_name := simple_name s; scope_flags := flags; num_pos_args := num_pos_args s;
     num_kwonly_args := num_kwonly_args s; num_def_pos_args := num_def_pos_args s; num_locals := num_locals s;
     stack_size := stack_size s; exc_stack_size := exc_stack_size s; id_info := id_info s |}.

Definition with_id_kind (i : id_info_t) (k : id_info_kind_t) : id_info_t :=
  {| id_kind := k; id_flags := id_flags i; local_num := local_num i; id_qst := id_qst i |}.

Definition with_local_num (i : id_info_t) (n : Z) : id_info_t :=
  {| id_kind := id_kind i; id_flags := id_flags i; local_num := n; id_qst := id_qst i |}.

Definition is_param (i : id_info_t) : bool := negb (Z.land (id_flags i) ID_FLAG_IS_PARAM =? 0).

(** The index of the variable and its description. *)
Fixpoint find_id (ids : list id_info_t) (qst : Z) (n : nat) : option (nat * id_info_t) :=
  match ids with
  | [] => None
  | i :: ids => if id_qst i =? qst then Some (n, i) else find_id ids qst (S n)
  end.

Definition scope_find (s : scope_t) (qst : Z) : option (nat * id_info_t) := find_id (id_info s) qst 0.

Definition scope_find_or_add_id (s : scope_t) (qst : Z) (k : id_info_kind_t) : scope_t * (nat * id_info_t) :=
  match scope_find s qst with
  | Some r => (s, r)
  | None =>
      let i := {| id_kind := k; id_flags := 0; local_num := 0; id_qst := qst |} in
      (with_id_info s (id_info s ++ [i]), (length (id_info s), i))
  end.

Definition set_id_kind (s : scope_t) (n : nat) (k : id_info_kind_t) : scope_t :=
  with_id_info s (alter (fun i => with_id_kind i k) n (id_info s)).

Definition scope_find_global (s : scope_t) (parents : list scope_t) (qst : Z) : option (nat * id_info_t) :=
  scope_find (default s (list.last parents)) qst.

(** The enclosing scopes from the parent on; [None] when the search reaches the
    module or finds a global variable. *)
Fixpoint scope_close_over_in_parents (parents : list scope_t) (qst : Z) : option (list scope_t) :=
  match parents with
  | [] | [_] => None
  | s :: parents =>
      let '(s, (n, i)) := scope_find_or_add_id s qst ID_INFO_KIND_UNDECIDED in
      match id_kind i with
      | ID_INFO_KIND_UNDECIDED => cons (set_id_kind s n ID_INFO_KIND_FREE) <$> scope_close_over_in_parents parents qst
      | ID_INFO_KIND_LOCAL => Some (set_id_kind s n ID_INFO_KIND_CELL :: parents)
      | ID_INFO_KIND_FREE | ID_INFO_KIND_CELL => Some (s :: parents)
      | _ => None
      end
  end.

(** The nearest enclosing scope, other than the module, that knows the variable. *)
Fixpoint nearest_declaration (parents : list scope_t) (qst : Z) : option id_info_kind_t :=
  match parents with
  | [] | [_] => None
  | s :: parents =>
      match scope_find s qst with Some (_, i) => Some (id_kind i) | None => nearest_declaration parents qst end
  end.

(** [scope_check_to_close_over] for the variable at index [n] of [s]. *)
Definition scope_check_to_close_over (s : scope_t) (parents : list scope_t) (n : nat) :
    option (scope_t * list scope_t) :=
  i ← id_info s !! n;
  match nearest_declaration parents (id_qst i) with
  | Some (ID_INFO_KIND_LOCAL | ID_INFO_KIND_CELL | ID_INFO_KIND_FREE) =>
      parents ← scope_close_over_in_parents parents (id_qst i);
      Some (set_id_kind s n ID_INFO_KIND_FREE, parents)
  | _ => Some (s, parents)
  end.

(** ** The numbers of the variables *)

(** The star parameter goes after the others: from the last variable down, the
    first plain parameter seen is exchanged with it. *)
Fixpoint swap_star_param (i : nat) (id_param : option nat) (ids : list id_info_t) : list id_info_t :=
  match i with
  | O => ids
  | S i =>
      match ids !! i with
      | None => ids
      | Some id =>
          if negb (Z.land (id_flags id) ID_FLAG_IS_STAR_PARAM =? 0) then
            match id_param with
            | Some p => match ids !! p with Some last => <[p := id]> (<[i := last]> ids) | None => ids end
            | None => ids
            end
          else
            swap_star_param i
              (match id_param with
               | None => if id_flags id =? ID_FLAG_IS_PARAM then Some i else None
               | Some p => Some p
               end) ids
      end
  end.

(** The first loop of [scope_compute_things]: [cls] is the number of the qstr of
    [__class__], which a class does not count. *)
Definition number_local (cls : Z) (k : scope_kind_t) (i : id_info_t) (n : Z) : id_info_t * Z :=
  if bool_decide (k = SCOPE_CLASS) && (id_qst i =? cls) then (i, n)
  else
    let i :=
      if SCOPE_IS_FUNC_LIKE k && bool_decide (id_kind i = ID_INFO_KIND_GLOBAL_IMPLICIT)
      then with_id_kind i ID_INFO_KIND_GLOBAL_EXPLICIT else i in
    if bool_decide (id_kind i = ID_INFO_KIND_LOCAL) || is_param i then (with_local_num i n, n + 1) else (i, n).

Definition number_cell (i : id_info_t) (n : Z) : id_info_t * Z :=
  if bool_decide (id_kind i = ID_INFO_KIND_CELL) && negb (is_param i) then (with_local_num i n, n + 1) else (i, n).

Fixpoint number_ids (f : id_info_t -> Z -> id_info_t * Z) (ids : list id_info_t) (n : Z) : list id_info_t * Z :=
  match ids with
  | [] => ([], n)
  | i :: ids => let '(i, n) := f i n in let '(ids, n) := number_ids f ids n in (i :: ids, n)
  end.

(** The free variables take the order of the scope that encloses them. *)
Definition number_free (qst : Z) (i : id_info_t) (n : Z) : id_info_t * Z :=
  if bool_decide (id_kind i = ID_INFO_KIND_FREE) && (id_qst i =? qst) then (with_local_num i n, n + 1) else (i, n).

Fixpoint number_frees (parent_ids ids : list id_info_t) (n : Z) : list id_info_t * Z :=
  match parent_ids with
  | [] => (ids, n)
  | p :: parent_ids =>
      if bool_decide (id_kind p = ID_INFO_KIND_CELL) || bool_decide (id_kind p = ID_INFO_KIND_FREE) then
        let '(ids, n) := number_ids (number_free (id_qst p)) ids n in number_frees parent_ids ids n
      else number_frees parent_ids ids n
  end.

Definition shift_id (num_free : Z) (i : id_info_t) : id_info_t :=
  if negb (bool_decide (id_kind i = ID_INFO_KIND_FREE)) || is_param i then with_local_num i (local_num i + num_free) else i.

Definition scope_compute_things (cls : Z) (s : scope_t) (parent : option scope_t) : scope_t :=
  let ids :=
    if Z.land (scope_flags s) MP_SCOPE_FLAG_VARARGS =? 0 then id_info s
    else swap_star_param (length (id_info s)) None (id_info s) in
  let '(ids, n) := number_ids (number_local cls (kind s)) ids 0 in
  let '(ids, n) := number_ids number_cell ids n in
  match parent with
  | None => with_locals (with_id_info s ids) (num_pos_args s) n
  | Some p =>
      let '(ids, num_free) := number_frees (id_info p) ids 0 in
      if 0 <? num_free
      then with_locals (with_id_info s (shift_id num_free <$> ids)) (num_pos_args s + num_free) (n + num_free)
      else with_locals (with_id_info s ids) (num_pos_args s) n
  end.
