(* ===== verification/EmitBc.v ===== *)
(** The bytecode emitter, [py/emitbc.c] with [py/emitcommon.c].

    The compiler makes several passes over a scope and in each of them calls the
    emitter through the method table of [py/emit.h]: [emit_call] has one
    constructor per method and [emit_bc] is the table of the bytecode emitter.
    Only the last passes write bytes, in the block [code_base] that holds the
    source information and the code.  A function that returns [None] fails an
    assertion of the source or reads an offset no label has been given. *)

From Stdlib Require Import ZArith Lia.
From stdpp Require Import base option list numbers.
From S2P Require Import Prelude Mpn Mpz IntObj Lexer Grammar Parse Bytecode Scope.

(** * Definitions *)

(** What the emitter asks of floating point constants: being the same object or
    equal, as the comparison of [strictly_equal] has it. *)
Class ConstFloats (F : Type) := float_strictly_equal : F -> F -> bool.

Inductive pass_kind_t := MP_PASS_SCOPE | MP_PASS_STACK_SIZE | MP_PASS_CODE_SIZE | MP_PASS_EMIT.

#[export] Instance pass_kind_eq_dec : EqDecision pass_kind_t.
Proof. solve_decision. Defined.

Definition pass_number (p : pass_kind_t) : Z :=
  match p with MP_PASS_SCOPE => 1 | MP_PASS_STACK_SIZE => 2 | MP_PASS_CODE_SIZE => 3 | MP_PASS_EMIT => 4 end.

Inductive import_kind := MP_EMIT_IMPORT_NAME | MP_EMIT_IMPORT_FROM | MP_EMIT_IMPORT_STAR.
Inductive access_kind := ACCESS_LOAD | ACCESS_STORE | ACCESS_DELETE.
Inductive local_kind := MP_EMIT_IDOP_LOCAL_FAST | MP_EMIT_IDOP_LOCAL_DEREF.
Inductive global_kind := MP_EMIT_IDOP_GLOBAL_NAME | MP_EMIT_IDOP_GLOBAL_GLOBAL.
Inductive block_kind := MP_EMIT_SETUP_BLOCK_WITH | MP_EMIT_SETUP_BLOCK_EXCEPT | MP_EMIT_SETUP_BLOCK_FINALLY.
Inductive build_kind :=
  | MP_EMIT_BUILD_TUPLE | MP_EMIT_BUILD_LIST | MP_EMIT_BUILD_MAP | MP_EMIT_BUILD_SET | MP_EMIT_BUILD_SLICE.

Definition local_kind_number (k : local_kind) : Z :=
  match k with MP_EMIT_IDOP_LOCAL_FAST => 0 | MP_EMIT_IDOP_LOCAL_DEREF => 1 end.
Definition global_kind_number (k : global_kind) : Z :=
  match k with MP_EMIT_IDOP_GLOBAL_NAME => 0 | MP_EMIT_IDOP_GLOBAL_GLOBAL => 1 end.
Definition block_kind_number (k : block_kind) : Z :=
  match k with MP_EMIT_SETUP_BLOCK_WITH => 0 | MP_EMIT_SETUP_BLOCK_EXCEPT => 1 | MP_EMIT_SETUP_BLOCK_FINALLY => 2 end.
Definition build_kind_number (k : build_kind) : Z :=
  match k with
  | MP_EMIT_BUILD_TUPLE => 0 | MP_EMIT_BUILD_LIST => 1 | MP_EMIT_BUILD_MAP => 2 | MP_EMIT_BUILD_SET => 3
  | MP_EMIT_BUILD_SLICE => 4
  end.

#[export] Instance build_kind_eq_dec : EqDecision build_kind.
Proof. solve_decision. Defined.

(** A label of the compiler; the flag [MP_EMIT_BREAK_FROM_FOR] of a label to break
    to is kept apart. *)
Abbreviation label := nat.

(** The method table.  Names are numbers of qstrs; a function to make is the
    number of its scope. *)
Inductive emit_call (F : Type) :=
  | E_adjust_stack_size (delta : Z) | E_set_source_line (line : Z)
  | E_load_local (qst : Z) (n : Z) (k : local_kind) | E_load_global (qst : Z) (k : global_kind)
  | E_store_local (qst : Z) (n : Z) (k : local_kind) | E_store_global (qst : Z) (k : global_kind)
  | E_delete_local (qst : Z) (n : Z) (k : local_kind) | E_delete_global (qst : Z) (k : global_kind)
  | E_label_assign (l : label) | E_import (qst : Z) (k : import_kind)
  | E_load_const_tok (tok : mp_token_kind_t) | E_load_const_small_int (arg : Z) | E_load_const_str (qst : Z)
  | E_load_const_obj (o : obj F) | E_load_null | E_load_method (qst : Z) (is_super : bool) | E_load_build_class
  | E_subscr (k : access_kind) | E_attr (qst : Z) (k : access_kind)
  | E_dup_top | E_dup_top_two | E_pop_top | E_rot_two | E_rot_three
  | E_jump (l : label) | E_pop_jump_if (cond : bool) (l : label) | E_jump_if_or_pop (cond : bool) (l : label)
  | E_unwind_jump (l : label) (from_for : bool) (except_depth : Z) | E_setup_block (l : label) (k : block_kind)
  | E_with_cleanup (l : label) | E_end_finally | E_get_iter (use_stack : bool) | E_for_iter (l : label)
  | E_for_iter_end | E_pop_except_jump (l : label)
  | E_unary_op (op : Z) | E_binary_op (op : Z) | E_build (n_args : Z) (k : build_kind) | E_store_map
  | E_store_comp (k : scope_kind_t) (index : Z) | E_unpack_sequence (n_args : Z) | E_unpack_ex (n_left n_right : Z)
  | E_make_function (child : nat) (n_pos_defaults n_kw_defaults : Z)
  | E_make_closure (child : nat) (n_closed_over n_pos_defaults n_kw_defaults : Z)
  | E_call_function (n_positional n_keyword : Z) (star_flags : bool)
  | E_call_method (n_positional n_keyword : Z) (star_flags : bool)
  | E_return_value | E_raise_varargs (n_args : Z) | E_yield (from : bool)
  | E_start_except_handler | E_end_except_handler.
Arguments E_adjust_stack_size {F}. Arguments E_set_source_line {F}. Arguments E_load_local {F}.
Arguments E_load_global {F}. Arguments E_store_local {F}. Arguments E_store_global {F}. Arguments E_delete_local {F}.
Arguments E_delete_global {F}. Arguments E_label_assign {F}. Arguments E_import {F}. Arguments E_load_const_tok {F}.
Arguments E_load_const_small_int {F}. Arguments E_load_const_str {F}. Arguments E_load_const_obj {F}.
Arguments E_load_null {F}. Arguments E_load_method {F}. Arguments E_load_build_class {F}. Arguments E_subscr {F}.
Arguments E_attr {F}. Arguments E_dup_top {F}. Arguments E_dup_top_two {F}. Arguments E_pop_top {F}.
Arguments E_rot_two {F}. Arguments E_rot_three {F}. Arguments E_jump {F}. Arguments E_pop_jump_if {F}.
Arguments E_jump_if_or_pop {F}. Arguments E_unwind_jump {F}. Arguments E_setup_block {F}. Arguments E_with_cleanup {F}.
Arguments E_end_finally {F}. Arguments E_get_iter {F}. Arguments E_for_iter {F}. Arguments E_for_iter_end {F}.
Arguments E_pop_except_jump {F}. Arguments E_unary_op {F}. Arguments E_binary_op {F}. Arguments E_build {F}.
Arguments E_store_map {F}. Arguments E_store_comp {F}. Arguments E_unpack_sequence {F}. Arguments E_unpack_ex {F}.
Arguments E_make_function {F}. Arguments E_make_closure {F}. Arguments E_call_function {F}. Arguments E_call_method {F}.
Arguments E_return_value {F}. Arguments E_raise_varargs {F}. Arguments E_yield {F}. Arguments E_start_except_handler {F}.
Arguments E_end_except_handler {F}.

(** ** The state *)

(** [emit_t], with the list of constants and the children of [mp_emit_common_t];
    the offset of a label is unknown until it is assigned. *)
Record emit_t (F : Type) := {
  pass : pass_kind_t;
  suppress : bool;
  cur_stack : Z;
  scope : scope_t;
  last_source_line_offset : Z;
  last_source_line : Z;
  label_offsets : list (option Z);
  code_info_offset : Z;
  code_info_size : Z;
  bytecode_offset : Z;
  bytecode_size : Z;
  code_base : list Z;
  overflow : bool;
  n_info : Z;
  n_cell : Z;
  const_obj_list : list (obj F);
  children : list nat;
}.
Arguments pass {F}. Arguments suppress {F}. Arguments cur_stack {F}. Arguments scope {F}.
Arguments last_source_line_offset {F}. Arguments last_source_line {F}. Arguments label_offsets {F}.
Arguments code_info_offset {F}. Arguments code_info_size {F}. Arguments bytecode_offset {F}.
Arguments bytecode_size {F}. Arguments code_base {F}. Arguments overflow {F}. Arguments n_info {F}. Arguments n_cell {F}.
Arguments const_obj_list {F}. Arguments children {F}.

(** The parts of the state the primitives change. *)
Section updates.
Context {F : Type}.
Implicit Types e : emit_t F.

Definition with_stack e (d : Z) (s : scope_t) : emit_t F :=
  {| pass := pass e; suppress := suppress e; cur_stack := d; scope := s;
     last_source_line_offset := last_source_line_offset e; last_source_line := last_source_line e;
     label_offsets := label_offsets e; code_info_offset := code_info_offset e; code_info_size := code_info_size e;
     bytecode_offset := bytecode_offset e; bytecode_size := bytecode_size e; code_base := code_base e;
     overflow := overflow e; n_info := n_info e; n_cell := n_cell e; const_obj_list := const_obj_list e;
     children := children e |}.

Definition with_suppress e (b : bool) : emit_t F :=
  {| pass := pass e; suppress := b; cur_stack := cur_stack e; scope := scope e;
     last_source_line_offset := last_source_line_offset e; last_source_line := last_source_line e;
     label_offsets := label_offsets e; code_info_offset := code_info_offset e; code_info_size := code_info_size e;
     bytecode_offset := bytecode_offset e; bytecode_size := bytecode_size e; code_base := code_base e;
     overflow := overflow e; n_info := n_info e; n_cell := n_cell e; const_obj_list := const_obj_list e;
     children := children e |}.

Definition with_bytecode e (offset : Z) (base : list Z) (ov : bool) : emit_t F :=
  {| pass := pass e; suppress := suppress e; cur_stack := cur_stack e; scope := scope e;
     last_source_line_offset := last_source_line_offset e; last_source_line := last_source_line e;
     label_offsets := label_offsets e; code_info_offset := code_info_offset e; code_info_size := code_info_size e;
     bytecode_offset := offset; bytecode_size := bytecode_size e; code_base := base;
     overflow := ov; n_info := n_info e; n_cell := n_cell e; const_obj_list := const_obj_list e;
     children := children e |}.

Definition with_code_info e (offset : Z) (base : list Z) : emit_t F :=
  {| pass := pass e; suppress := suppress e; cur_stack := cur_stack e; scope := scope e;
     last_source_line_offset := last_source_line_offset e; last_source_line := last_source_line e;
     label_offsets := label_offsets e; code_info_offset := offset; code_info_size := code_info_size e;
     bytecode_offset := bytecode_offset e; bytecode_size := bytecode_size e; code_base := base;
     overflow := overflow e; n_info := n_info e; n_cell := n_cell e; const_obj_list := const_obj_list e;
     children := children e |}.

Definition with_source_line e (offset line : Z) : emit_t F :=
  {| pass := pass e; suppress := suppress e; cur_stack := cur_stack e; scope := scope e;
     last_source_line_offset := offset; last_source_line := line;
     label_offsets := label_offsets e; code_info_offset := code_info_offset e; code_info_size := code_info_size e;
     bytecode_offset := bytecode_offset e; bytecode_size := bytecode_size e; code_base := code_base e;
     overflow := overflow e; n_info := n_info e; n_cell := n_cell e; const_obj_list := const_obj_list e;
     children := children e |}.

Definition with_label_offsets e (ls : list (option Z)) : emit_t F :=
  {| pass := pass e; suppress := suppress e; cur_stack := cur_stack e; scope := scope e;
     last_source_line_offset := last_source_line_offset e; last_source_line := last_source_line e;
     label_offsets := ls; code_info_offset := code_info_offset e; code_info_size := code_info_size e;
     bytecode_offset := bytecode_offset e; bytecode_size := bytecode_size e; code_base := code_base e;
     overflow := overflow e; n_info := n_info e; n_cell := n_cell e; const_obj_list := const_obj_list e;
     children := children e |}.

Definition with_info_counts e (info cell : Z) : emit_t F :=
  {| pass := pass e; suppress := suppress e; cur_stack := cur_stack e; scope := scope e;
     last_source_line_offset := last_source_line_offset e; last_source_line := last_source_line e;
     label_offsets := label_offsets e; code_info_offset := code_info_offset e; code_info_size := code_info_size e;
     bytecode_offset := bytecode_offset e; bytecode_size := bytecode_size e; code_base := code_base e;
     overflow := overflow e; n_info := info; n_cell := cell; const_obj_list := const_obj_list e;
     children := children e |}.

Definition with_sizes e (info code : Z) (base : list Z) : emit_t F :=
  {| pass := pass e; suppress := suppress e; cur_stack := cur_stack e; scope := scope e;
     last_source_line_offset := last_source_line_offset e; last_source_line := last_source_line e;
     label_offsets := label_offsets e; code_info_offset := code_info_offset e; code_info_size := info;
     bytecode_offset := bytecode_offset e; bytecode_size := code; code_base := base;
     overflow := overflow e; n_info := n_info e; n_cell := n_cell e; const_obj_list := const_obj_list e;
     children := children e |}.

Definition with_common e (consts : list (obj F)) (cs : list nat) : emit_t F :=
  {| pass := pass e; suppress := suppress e; cur_stack := cur_stack e; scope := scope e;
     last_source_line_offset := last_source_line_offset e; last_source_line := last_source_line e;
     label_offsets := label_offsets e; code_info_offset := code_info_offset e; code_info_size := code_info_size e;
     bytecode_offset := bytecode_offset e; bytecode_size := bytecode_size e; code_base := code_base e;
     overflow := overflow e; n_info := n_info e; n_cell := n_cell e; const_obj_list := consts;
     children := cs |}.

End updates.

(** ** Writing *)

Section emitter.
Context {F : Type} `{ConstFloats F}.
Abbreviation emit_t := (emit_t F).
Abbreviation call := (emit_call F).
Implicit Types e : emit_t.

Definition assert_ok (b : bool) {A} (a : A) : option A := if b then Some a else None.

(** A write into the block [code_base]. *)
Definition block_write (base : list Z) (pos : Z) (bs : list Z) : option (list Z) :=
  if (0 <=? pos) && (pos + Z.of_nat (length bs) <=? Z.of_nat (length base))
  then Some (take (Z.to_nat pos) base ++ bs ++ drop (Z.to_nat pos + length bs) base) else None.

(** [emit_get_cur_to_write_code_info] and the bytes the caller stores there. *)
Definition emit_get_cur_to_write_code_info e (bs : list Z) : option emit_t :=
  let n := Z.of_nat (length bs) in
  if pass_number (pass e) <? pass_number MP_PASS_EMIT then
    Some (with_code_info e (code_info_offset e + n) (code_base e))
  else if code_info_offset e + n <=? code_info_size e then
    base ← block_write (code_base e) (code_info_offset e) bs;
    Some (with_code_info e (code_info_offset e + n) base)
  else None.

Definition emit_write_code_info_byte e (val : Z) : option emit_t := emit_get_cur_to_write_code_info e [val].

Fixpoint emit_write_code_info_bytes e (bs : list Z) : option emit_t :=
  match bs with
  | [] => Some e
  | b :: bs => e ← emit_write_code_info_byte e b; emit_write_code_info_bytes e bs
  end.

Definition emit_write_code_info_qstr e (qst : Z) : option emit_t :=
  bs ← mp_encode_uint qst; emit_get_cur_to_write_code_info e bs.

(** The entries of [bytes_lines] are written one by one. *)
Definition emit_write_code_info_bytes_lines e (bytes_to_skip lines_to_skip : Z) : option emit_t :=
  bs ← bytes_lines bytes_to_skip lines_to_skip; emit_write_code_info_bytes e bs.

Definition emit_get_cur_to_write_bytecode e (bs : list Z) : option emit_t :=
  let n := Z.of_nat (length bs) in
  if suppress e then Some e
  else if pass_number (pass e) <? pass_number MP_PASS_EMIT then
    Some (with_bytecode e (bytecode_offset e + n) (code_base e) (overflow e))
  else if bytecode_offset e + n <=? bytecode_size e then
    base ← block_write (code_base e) (code_info_size e + bytecode_offset e) bs;
    Some (with_bytecode e (bytecode_offset e + n) base (overflow e))
  else None.

Definition mp_emit_bc_adjust_stack_size e (delta : Z) : option emit_t :=
  if bool_decide (pass e = MP_PASS_SCOPE) then Some e
  else if 0 <=? cur_stack e + delta then
    let d := cur_stack e + delta in
    let s := scope e in
    Some (with_stack e d (if stack_size s <? d then with_stack_sizes s d (exc_stack_size s) else s))
  else None.

Definition emit_write_bytecode_raw_byte e (b1 : Z) : option emit_t := emit_get_cur_to_write_bytecode e [wrapu 8 b1].

Definition emit_write_bytecode_byte e (stack_adj b1 : Z) : option emit_t :=
  e ← mp_emit_bc_adjust_stack_size e stack_adj; emit_get_cur_to_write_bytecode e [wrapu 8 b1].

Definition emit_write_bytecode_byte_int e (stack_adj b1 num : Z) : option emit_t :=
  e ← emit_write_bytecode_byte e stack_adj b1; bs ← encode_int num; emit_get_cur_to_write_bytecode e bs.

Definition emit_write_bytecode_byte_uint e (stack_adj b val : Z) : option emit_t :=
  e ← emit_write_bytecode_byte e stack_adj b; bs ← mp_encode_uint val; emit_get_cur_to_write_bytecode e bs.

Definition emit_write_bytecode_byte_const e (stack_adj b n : Z) : option emit_t :=
  emit_write_bytecode_byte_uint e stack_adj b n.

Definition emit_write_bytecode_byte_qstr e (stack_adj b qst : Z) : option emit_t :=
  emit_write_bytecode_byte_uint e stack_adj b qst.

(** ** Constants and children *)

Fixpoint strictly_equal (a b : obj F) {struct a} : option bool :=
  match a, b with
  | O_INT o1, O_INT o2 =>
      match mp_obj_equal o1 o2 with Some (inr (R_BOOL b)) => Some b | _ => None end
  | O_FLOAT f1, O_FLOAT f2 => Some (float_strictly_equal f1 f2)
  | (O_QSTR s1 | O_STR s1), (O_QSTR s2 | O_STR s2) => Some (bool_decide (s1 = s2))
  | O_BYTES s1, O_BYTES s2 => Some (bool_decide (s1 = s2))
  | O_NONE, O_NONE | O_FALSE, O_FALSE | O_TRUE, O_TRUE | O_ELLIPSIS, O_ELLIPSIS => Some true
  | O_TUPLE a_items, O_TUPLE b_items =>
      if (length a_items =? length b_items)%nat then
        (fix all (l1 l2 : list (obj F)) : option bool :=
           match l1, l2 with
           | a :: l1, b :: l2 => r ← strictly_equal a b; if (r : bool) then all l1 l2 else Some false
           | _, _ => Some true
           end) a_items b_items
      else Some false
  | _, _ => Some false
  end.

(** The position of the constant among those known, from [i] on. *)
Fixpoint find_const (consts : list (obj F)) (o : obj F) (i : nat) : option (option nat) :=
  match consts with
  | [] => Some None
  | c :: consts => r ← strictly_equal c o; if (r : bool) then Some (Some i) else find_const consts o (S i)
  end.

Definition mp_emit_common_use_const_obj e (o : obj F) : option (emit_t * nat) :=
  r ← find_const (const_obj_list e) o 0;
  match r with
  | Some i => Some (e, i)
  | None => Some (with_common e (const_obj_list e ++ [o]) (children e), length (const_obj_list e))
  end.

Definition mp_emit_common_alloc_const_child e (child : nat) : emit_t * nat :=
  (with_common e (const_obj_list e) (children e ++ [child]), length (children e)).

Definition emit_write_bytecode_byte_obj e (stack_adj b : Z) (o : obj F) : option emit_t :=
  '(e, i) ← mp_emit_common_use_const_obj e o; emit_write_bytecode_byte_const e stack_adj b (Z.of_nat i).

Definition emit_write_bytecode_byte_child e (stack_adj b : Z) (child : nat) : option emit_t :=
  let '(e, i) := mp_emit_common_alloc_const_child e child in emit_write_bytecode_byte_const e stack_adj b (Z.of_nat i).

(** ** Jumps *)

(** The offset of a jump and whether it takes two bytes, from the offset of the
    label and that of the instruction. *)
Definition jump_offset (is_signed : bool) (target offset : Z) : Z * Z :=
  let o := target - offset - 2 in
  let size := if (is_signed && ((-64 <=? o) && (o <=? 63))) || (negb is_signed && ((0 <=? o) && (o <=? 127))) then 0 else 1 in
  (size, o - size).

Definition is_signed_jump (b1 : Z) : bool := b1 <=? MP_BC_POP_JUMP_IF_FALSE.

(** The bytes of a jump and whether its offset does not fit. *)
Definition jump_bytes (b1 size o : Z) : option (list Z * bool) :=
  let signed := is_signed_jump b1 in
  if size =? 0 then
    let o := if signed then o + 64 else o in
    if (0 <=? o) && (o <=? 127) then Some ([b1; o], false) else None
  else
    let o := if signed then o + 16384 else o in
    Some ([b1; Z.lor 128 (Z.land o 127); wrapu 8 (Z.shiftr o 7)], negb ((0 <=? o) && (o <=? 32767))).

Definition emit_write_bytecode_byte_label e (stack_adj b1 : Z) (l : label) : option emit_t :=
  e ← mp_emit_bc_adjust_stack_size e stack_adj;
  if suppress e then Some e
  else
    '(size, o) ←
      (if pass_number MP_PASS_CODE_SIZE <=? pass_number (pass e) then
         target ← label_offsets e !! l; target ← target;
         let '(size, o) := jump_offset (is_signed_jump b1) target (bytecode_offset e) in
         assert_ok (is_signed_jump b1 || (0 <=? o)) (size, o)
       else Some (1, 0));
    '(bs, ov) ← jump_bytes b1 size o;
    e ← emit_get_cur_to_write_bytecode e bs;
    Some (if bool_decide (pass e = MP_PASS_EMIT) && ov
          then with_bytecode e (bytecode_offset e) (code_base e) true else e).

Definition mp_emit_bc_label_assign e (l : label) : option emit_t :=
  let e := with_suppress e false in
  e ← mp_emit_bc_adjust_stack_size e 0;
  if bool_decide (pass e = MP_PASS_SCOPE) then Some e
  else
    old ← label_offsets e !! l;
    if bool_decide (pass e = MP_PASS_STACK_SIZE) || match old with Some o => bytecode_offset e <=? o | None => false end
    then Some (with_label_offsets e (<[l := Some (bytecode_offset e)]> (label_offsets e))) else None.

Definition mp_emit_bc_set_source_line e (opt_level source_line : Z) : option emit_t :=
  if 3 <=? opt_level then Some e
  else if last_source_line e <? source_line then
    e' ← emit_write_code_info_bytes_lines e (bytecode_offset e - last_source_line_offset e)
           (source_line - last_source_line e);
    Some (with_source_line e' (bytecode_offset e) source_line)
  else Some e.

(** ** The methods *)

Definition mp_emit_bc_import e (qst : Z) (k : import_kind) : option emit_t :=
  match k with
  | MP_EMIT_IMPORT_STAR => emit_write_bytecode_byte e (-1) MP_BC_IMPORT_STAR
  | MP_EMIT_IMPORT_NAME => emit_write_bytecode_byte_qstr e (-1) MP_BC_IMPORT_NAME qst
  | MP_EMIT_IMPORT_FROM => emit_write_bytecode_byte_qstr e 1 MP_BC_IMPORT_FROM qst
  end.

Definition mp_emit_bc_load_const_tok e (tok : mp_token_kind_t) : option emit_t :=
  if bool_decide (tok = MP_TOKEN_ELLIPSIS) then emit_write_bytecode_byte_obj e 1 MP_BC_LOAD_CONST_OBJ O_ELLIPSIS
  else
    k ← fst <$> list_find (fun t => t = tok) keyword_kinds;
    emit_write_bytecode_byte e 1 (MP_BC_LOAD_CONST_FALSE + Z.of_nat k).

Definition mp_emit_bc_load_const_small_int e (arg : Z) : option emit_t :=
  if negb (MP_SMALL_INT_FITS arg) then None
  else if (- MP_BC_LOAD_CONST_SMALL_INT_MULTI_EXCESS <=? arg) &&
     (arg <? MP_BC_LOAD_CONST_SMALL_INT_MULTI_NUM - MP_BC_LOAD_CONST_SMALL_INT_MULTI_EXCESS)
  then emit_write_bytecode_byte e 1 (MP_BC_LOAD_CONST_SMALL_INT_MULTI + MP_BC_LOAD_CONST_SMALL_INT_MULTI_EXCESS + arg)
  else emit_write_bytecode_byte_int e 1 MP_BC_LOAD_CONST_SMALL_INT arg.

Definition mp_emit_bc_load_const_str e (qst : Z) : option emit_t :=
  emit_write_bytecode_byte_qstr e 1 MP_BC_LOAD_CONST_STRING qst.

Definition mp_emit_bc_load_const_obj e (o : obj F) : option emit_t :=
  emit_write_bytecode_byte_obj e 1 MP_BC_LOAD_CONST_OBJ o.

Definition mp_emit_bc_load_null e : option emit_t := emit_write_bytecode_byte e 1 MP_BC_LOAD_NULL.

Definition fast_multi (k : local_kind) (n : Z) : bool :=
  match k with MP_EMIT_IDOP_LOCAL_FAST => n <=? 15 | MP_EMIT_IDOP_LOCAL_DEREF => false end.

Definition mp_emit_bc_load_local e (n : Z) (k : local_kind) : option emit_t :=
  if fast_multi k n then emit_write_bytecode_byte e 1 (MP_BC_LOAD_FAST_MULTI + n)
  else emit_write_bytecode_byte_uint e 1 (MP_BC_LOAD_FAST_N + local_kind_number k) n.

Definition mp_emit_bc_load_global e (qst : Z) (k : global_kind) : option emit_t :=
  emit_write_bytecode_byte_qstr e 1 (MP_BC_LOAD_NAME + global_kind_number k) qst.

Definition mp_emit_bc_load_method e (qst : Z) (is_super : bool) : option emit_t :=
  emit_write_bytecode_byte_qstr e (1 - 2 * (if is_super then 1 else 0))
    (if is_super then MP_BC_LOAD_SUPER_METHOD else MP_BC_LOAD_METHOD) qst.

Definition mp_emit_bc_load_build_class e : option emit_t := emit_write_bytecode_byte e 1 MP_BC_LOAD_BUILD_CLASS.

Definition mp_emit_bc_dup_top e : option emit_t := emit_write_bytecode_byte e 1 MP_BC_DUP_TOP.
Definition mp_emit_bc_dup_top_two e : option emit_t := emit_write_bytecode_byte e 2 MP_BC_DUP_TOP_TWO.
Definition mp_emit_bc_pop_top e : option emit_t := emit_write_bytecode_byte e (-1) MP_BC_POP_TOP.
Definition mp_emit_bc_rot_two e : option emit_t := emit_write_bytecode_byte e 0 MP_BC_ROT_TWO.
Definition mp_emit_bc_rot_three e : option emit_t := emit_write_bytecode_byte e 0 MP_BC_ROT_THREE.

Definition mp_emit_bc_subscr e (k : access_kind) : option emit_t :=
  match k with
  | ACCESS_LOAD => emit_write_bytecode_byte e (-1) MP_BC_LOAD_SUBSCR
  | ACCESS_DELETE =>
      e ← mp_emit_bc_load_null e; e ← mp_emit_bc_rot_three e; emit_write_bytecode_byte e (-3) MP_BC_STORE_SUBSCR
  | ACCESS_STORE => emit_write_bytecode_byte e (-3) MP_BC_STORE_SUBSCR
  end.

Definition mp_emit_bc_attr e (qst : Z) (k : access_kind) : option emit_t :=
  match k with
  | ACCESS_LOAD => emit_write_bytecode_byte_qstr e 0 MP_BC_LOAD_ATTR qst
  | ACCESS_DELETE =>
      e ← mp_emit_bc_load_null e; e ← mp_emit_bc_rot_two e; emit_write_bytecode_byte_qstr e (-2) MP_BC_STORE_ATTR qst
  | ACCESS_STORE => emit_write_bytecode_byte_qstr e (-2) MP_BC_STORE_ATTR qst
  end.

Definition mp_emit_bc_store_local e (n : Z) (k : local_kind) : option emit_t :=
  if fast_multi k n then emit_write_bytecode_byte e (-1) (MP_BC_STORE_FAST_MULTI + n)
  else emit_write_bytecode_byte_uint e (-1) (MP_BC_STORE_FAST_N + local_kind_number k) n.

Definition mp_emit_bc_store_global e (qst : Z) (k : global_kind) : option emit_t :=
  emit_write_bytecode_byte_qstr e (-1) (MP_BC_STORE_NAME + global_kind_number k) qst.

Definition mp_emit_bc_delete_local e (n : Z) (k : local_kind) : option emit_t :=
  emit_write_bytecode_byte_uint e 0 (MP_BC_DELETE_FAST + local_kind_number k) n.

Definition mp_emit_bc_delete_global e (qst : Z) (k : global_kind) : option emit_t :=
  emit_write_bytecode_byte_qstr e 0 (MP_BC_DELETE_NAME + global_kind_number k) qst.

Definition suppressing (r : option emit_t) : option emit_t := e ← r; Some (with_suppress e true).

Definition mp_emit_bc_jump e (l : label) : option emit_t :=
  suppressing (emit_write_bytecode_byte_label e 0 MP_BC_JUMP l).

Definition mp_emit_bc_pop_jump_if e (cond : bool) (l : label) : option emit_t :=
  if cond then emit_write_bytecode_byte_label e (-1) MP_BC_POP_JUMP_IF_TRUE l
  else emit_write_bytecode_byte_label e (-1) MP_BC_POP_JUMP_IF_FALSE l.

Definition mp_emit_bc_jump_if_or_pop e (cond : bool) (l : label) : option emit_t :=
  if cond then emit_write_bytecode_byte_label e (-1) MP_BC_JUMP_IF_TRUE_OR_POP l
  else emit_write_bytecode_byte_label e (-1) MP_BC_JUMP_IF_FALSE_OR_POP l.

Definition MP_OBJ_ITER_BUF_NSLOTS : Z := 4.

Definition mp_emit_bc_unwind_jump e (l : label) (from_for : bool) (except_depth : Z) : option emit_t :=
  suppressing
    (if except_depth =? 0 then
       e ← (if from_for then
              e ← emit_write_bytecode_raw_byte e MP_BC_POP_TOP; e ← emit_write_bytecode_raw_byte e MP_BC_POP_TOP;
              e ← emit_write_bytecode_raw_byte e MP_BC_POP_TOP; emit_write_bytecode_raw_byte e MP_BC_POP_TOP
            else Some e);
       emit_write_bytecode_byte_label e 0 MP_BC_JUMP l
     else
       e ← emit_write_bytecode_byte_label e 0 MP_BC_UNWIND_JUMP l;
       emit_write_bytecode_raw_byte e (Z.lor (if from_for then 128 else 0) except_depth)).

Definition mp_emit_bc_setup_block e (l : label) (k : block_kind) : option emit_t :=
  emit_write_bytecode_byte_label e (match k with MP_EMIT_SETUP_BLOCK_WITH => 2 | _ => 0 end)
    (MP_BC_SETUP_WITH + block_kind_number k) l.

Definition mp_emit_bc_with_cleanup e (l : label) : option emit_t :=
  e ← mp_emit_bc_load_const_tok e MP_TOKEN_KW_NONE; e ← mp_emit_bc_label_assign e l;
  e ← emit_write_bytecode_byte e 2 MP_BC_WITH_CLEANUP; mp_emit_bc_adjust_stack_size e (-4).

Definition mp_emit_bc_end_finally e : option emit_t := emit_write_bytecode_byte e (-1) MP_BC_END_FINALLY.

Definition mp_emit_bc_get_iter e (use_stack : bool) : option emit_t :=
  emit_write_bytecode_byte e (if use_stack then MP_OBJ_ITER_BUF_NSLOTS - 1 else 0)
    (if use_stack then MP_BC_GET_ITER_STACK else MP_BC_GET_ITER).

Definition mp_emit_bc_for_iter e (l : label) : option emit_t := emit_write_bytecode_byte_label e 1 MP_BC_FOR_ITER l.

Definition mp_emit_bc_for_iter_end e : option emit_t := mp_emit_bc_adjust_stack_size e (- MP_OBJ_ITER_BUF_NSLOTS).

Definition mp_emit_bc_pop_except_jump e (l : label) : option emit_t :=
  suppressing (emit_write_bytecode_byte_label e 0 MP_BC_POP_EXCEPT_JUMP l).

Definition mp_emit_bc_unary_op e (op : Z) : option emit_t := emit_write_bytecode_byte e 0 (MP_BC_UNARY_OP_MULTI + op).

Definition mp_emit_bc_binary_op e (op : Z) : option emit_t :=
  let invert := (op =? MP_BINARY_OP_NOT_IN) || (op =? MP_BINARY_OP_IS_NOT) in
  let op := if op =? MP_BINARY_OP_NOT_IN then MP_BINARY_OP_IN
            else if op =? MP_BINARY_OP_IS_NOT then MP_BINARY_OP_IS else op in
  e ← emit_write_bytecode_byte e (-1) (MP_BC_BINARY_OP_MULTI + op);
  if invert then emit_write_bytecode_byte e 0 (MP_BC_UNARY_OP_MULTI + MP_UNARY_OP_NOT) else Some e.

Definition mp_emit_bc_build e (n_args : Z) (k : build_kind) : option emit_t :=
  emit_write_bytecode_byte_uint e (if bool_decide (k = MP_EMIT_BUILD_MAP) then 1 else 1 - n_args)
    (MP_BC_BUILD_TUPLE + build_kind_number k) n_args.

Definition mp_emit_bc_store_map e : option emit_t := emit_write_bytecode_byte e (-2) MP_BC_STORE_MAP.

(** [t] and [n] of [mp_emit_bc_store_comp]. *)
Definition comp_type (k : scope_kind_t) : Z * Z :=
  match k with SCOPE_LIST_COMP => (0, 0) | SCOPE_DICT_COMP => (1, 1) | _ => (2, 0) end.

Definition mp_emit_bc_store_comp e (k : scope_kind_t) (index : Z) : option emit_t :=
  let '(t, n) := comp_type k in
  emit_write_bytecode_byte_uint e (-1 - n) MP_BC_STORE_COMP (Z.lor (Z.shiftl (index + n) 2) t).

Definition mp_emit_bc_unpack_sequence e (n_args : Z) : option emit_t :=
  emit_write_bytecode_byte_uint e (-1 + n_args) MP_BC_UNPACK_SEQUENCE n_args.

Definition mp_emit_bc_unpack_ex e (n_left n_right : Z) : option emit_t :=
  emit_write_bytecode_byte_uint e (-1 + n_left + n_right + 1) MP_BC_UNPACK_EX (Z.lor n_left (Z.shiftl n_right 8)).

Definition mp_emit_bc_make_function e (child : nat) (n_pos_defaults n_kw_defaults : Z) : option emit_t :=
  if (n_pos_defaults =? 0) && (n_kw_defaults =? 0) then emit_write_bytecode_byte_child e 1 MP_BC_MAKE_FUNCTION child
  else emit_write_bytecode_byte_child e (-1) MP_BC_MAKE_FUNCTION_DEFARGS child.

Definition mp_emit_bc_make_closure e (child : nat) (n_closed_over n_pos_defaults n_kw_defaults : Z) : option emit_t :=
  if (n_pos_defaults =? 0) && (n_kw_defaults =? 0) then
    e ← emit_write_bytecode_byte_child e (- n_closed_over + 1) MP_BC_MAKE_CLOSURE child;
    emit_write_bytecode_raw_byte e n_closed_over
  else if n_closed_over <=? 255 then
    e ← emit_write_bytecode_byte_child e (-2 - n_closed_over + 1) MP_BC_MAKE_CLOSURE_DEFARGS child;
    emit_write_bytecode_raw_byte e n_closed_over
  else None.

(** The numbers of the arguments are packed in one integer. *)
Definition emit_bc_call_function_method_helper e (stack_adj bytecode_base n_positional n_keyword : Z) (star_flags : bool) :
    option emit_t :=
  if star_flags then
    emit_write_bytecode_byte_uint e (stack_adj - (n_positional + 2 * n_keyword + 1)) (bytecode_base + 1)
      (Z.lor (Z.shiftl n_keyword 8) n_positional)
  else
    emit_write_bytecode_byte_uint e (stack_adj - (n_positional + 2 * n_keyword)) bytecode_base
      (Z.lor (Z.shiftl n_keyword 8) n_positional).

Definition mp_emit_bc_call_function e (n_positional n_keyword : Z) (star_flags : bool) : option emit_t :=
  emit_bc_call_function_method_helper e 0 MP_BC_CALL_FUNCTION n_positional n_keyword star_flags.

Definition mp_emit_bc_call_method e (n_positional n_keyword : Z) (star_flags : bool) : option emit_t :=
  emit_bc_call_function_method_helper e (-1) MP_BC_CALL_METHOD n_positional n_keyword star_flags.

Definition mp_emit_bc_return_value e : option emit_t :=
  suppressing (emit_write_bytecode_byte e (-1) MP_BC_RETURN_VALUE).

Definition mp_emit_bc_raise_varargs e (n_args : Z) : option emit_t :=
  if n_args <=? 2 then suppressing (emit_write_bytecode_byte e (- n_args) (MP_BC_RAISE_LAST + n_args)) else None.

Definition mp_emit_bc_yield e (from : bool) : option emit_t :=
  let k := if from then 1 else 0 in
  e ← emit_write_bytecode_byte e (- k) (MP_BC_YIELD_VALUE + k);
  Some (with_stack e (cur_stack e) (with_flags (scope e) (Z.lor (scope_flags (scope e)) MP_SCOPE_FLAG_GENERATOR))).

Definition mp_emit_bc_start_except_handler e : option emit_t := mp_emit_bc_adjust_stack_size e 4.

Definition mp_emit_bc_end_except_handler e : option emit_t := mp_emit_bc_adjust_stack_size e (-3).

(** [emit_bc_method_table]; [opt_level] is [mp_optimise_value]. *)
Definition emit_bc (opt_level : Z) e (c : call) : option emit_t :=
  match c with
  | E_adjust_stack_size d => mp_emit_bc_adjust_stack_size e d
  | E_set_source_line l => mp_emit_bc_set_source_line e opt_level l
  | E_load_local _ n k => mp_emit_bc_load_local e n k
  | E_load_global q k => mp_emit_bc_load_global e q k
  | E_store_local _ n k => mp_emit_bc_store_local e n k
  | E_store_global q k => mp_emit_bc_store_global e q k
  | E_delete_local _ n k => mp_emit_bc_delete_local e n k
  | E_delete_global q k => mp_emit_bc_delete_global e q k
  | E_label_assign l => mp_emit_bc_label_assign e l
  | E_import q k => mp_emit_bc_import e q k
  | E_load_const_tok t => mp_emit_bc_load_const_tok e t
  | E_load_const_small_int a => mp_emit_bc_load_const_small_int e a
  | E_load_const_str q => mp_emit_bc_load_const_str e q
  | E_load_const_obj o => mp_emit_bc_load_const_obj e o
  | E_load_null => mp_emit_bc_load_null e
  | E_load_method q s => mp_emit_bc_load_method e q s
  | E_load_build_class => mp_emit_bc_load_build_class e
  | E_subscr k => mp_emit_bc_subscr e k
  | E_attr q k => mp_emit_bc_attr e q k
  | E_dup_top => mp_emit_bc_dup_top e
  | E_dup_top_two => mp_emit_bc_dup_top_two e
  | E_pop_top => mp_emit_bc_pop_top e
  | E_rot_two => mp_emit_bc_rot_two e
  | E_rot_three => mp_emit_bc_rot_three e
  | E_jump l => mp_emit_bc_jump e l
  | E_pop_jump_if c l => mp_emit_bc_pop_jump_if e c l
  | E_jump_if_or_pop c l => mp_emit_bc_jump_if_or_pop e c l
  | E_unwind_jump l f d => mp_emit_bc_unwind_jump e l f d
  | E_setup_block l k => mp_emit_bc_setup_block e l k
  | E_with_cleanup l => mp_emit_bc_with_cleanup e l
  | E_end_finally => mp_emit_bc_end_finally e
  | E_get_iter s => mp_emit_bc_get_iter e s
  | E_for_iter l => mp_emit_bc_for_iter e l
  | E_for_iter_end => mp_emit_bc_for_iter_end e
  | E_pop_except_jump l => mp_emit_bc_pop_except_jump e l
  | E_unary_op op => mp_emit_bc_unary_op e op
  | E_binary_op op => mp_emit_bc_binary_op e op
  | E_build n k => mp_emit_bc_build e n k
  | E_store_map => mp_emit_bc_store_map e
  | E_store_comp k i => mp_emit_bc_store_comp e k i
  | E_unpack_sequence n => mp_emit_bc_unpack_sequence e n
  | E_unpack_ex l r => mp_emit_bc_unpack_ex e l r
  | E_make_function c p k => mp_emit_bc_make_function e c p k
  | E_make_closure c n p k => mp_emit_bc_make_closure e c n p k
  | E_call_function p k s => mp_emit_bc_call_function e p k s
  | E_call_method p k s => mp_emit_bc_call_method e p k s
  | E_return_value => mp_emit_bc_return_value e
  | E_raise_varargs n => mp_emit_bc_raise_varargs e n
  | E_yield f => mp_emit_bc_yield e f
  | E_start_except_handler => mp_emit_bc_start_except_handler e
  | E_end_except_handler => mp_emit_bc_end_except_handler e
  end.

Fixpoint emit_calls (opt_level : Z) e (cs : list call) : option emit_t :=
  match cs with [] => Some e | c :: cs => e ← emit_bc opt_level e c; emit_calls opt_level e cs end.

(** ** Passes *)

(** The name of the argument [i]: a parameter with that number, or [star], the
    number of the qstr of an asterisk. *)
Fixpoint argument_name (star : Z) (ids : list id_info_t) (i : Z) : Z :=
  match ids with
  | [] => star
  | id :: ids => if is_param id && (local_num id =? i) then id_qst id else argument_name star ids i
  end.

Fixpoint emit_argument_names e (star : Z) (n : nat) (i : Z) : option emit_t :=
  match n with
  | O => Some e
  | S n =>
      e ← emit_write_code_info_qstr e (argument_name star (id_info (scope e)) i); emit_argument_names e star n (i + 1)
  end.

Definition mp_emit_bc_start_pass e (star : Z) (p : pass_kind_t) (s : scope_t) : option emit_t :=
  let e :=
    {| pass := p; suppress := false; cur_stack := 0; scope := s; last_source_line_offset := 0; last_source_line := 1;
       label_offsets := label_offsets e; code_info_offset := 0; code_info_size := code_info_size e;
       bytecode_offset := 0; bytecode_size := bytecode_size e; code_base := code_base e; overflow := false;
       n_info := n_info e; n_cell := n_cell e; const_obj_list := const_obj_list e; children := [] |} in
  let n_state := num_locals s + stack_size s in
  sig ← MP_BC_PRELUDE_SIG_ENCODE
          {| n_state := if n_state =? 0 then 1 else n_state; n_exc_stack := exc_stack_size s; sig_flags := scope_flags s;
             n_pos_args := num_pos_args s; n_kwonly_args := num_kwonly_args s; n_def_pos_args := num_def_pos_args s |};
  e ← emit_write_code_info_bytes e sig;
  e ← (if pass_number MP_PASS_CODE_SIZE <=? pass_number p then
         bs ← MP_BC_PRELUDE_SIZE_ENCODE (n_info e) (n_cell e); emit_write_code_info_bytes e bs
       else Some e);
  let e := with_info_counts e (code_info_offset e) (n_cell e) in
  e ← emit_write_code_info_qstr e (simple_name s);
  emit_argument_names e star (Z.to_nat (num_pos_args s + num_kwonly_args s)) 0.

(** The closure section: the locals that become cells. *)
Fixpoint emit_cells e (ids : list id_info_t) : option emit_t :=
  match ids with
  | [] => Some e
  | id :: ids =>
      e ← (if bool_decide (id_kind id = ID_INFO_KIND_CELL) then
             if local_num id <=? 255 then
               e ← emit_write_code_info_byte e (wrapu 8 (local_num id)); Some (with_info_counts e (n_info e) (n_cell e + 1))
             else None
           else Some e);
      emit_cells e ids
  end.

(** The result of a pass: it is complete, another one is needed, or the code is
    too long for its jumps. *)
Inductive pass_result := PASS_COMPLETE | PASS_AGAIN | PASS_OVERFLOW.

Definition mp_emit_bc_end_pass e : option (emit_t * pass_result) :=
  if bool_decide (pass e = MP_PASS_SCOPE) then Some (e, PASS_COMPLETE)
  else if negb (cur_stack e =? 0) then None
  else
    e ← emit_cells (with_info_counts e (code_info_offset e - n_info e) 0) (id_info (scope e));
    match pass e with
    | MP_PASS_CODE_SIZE =>
        Some (with_sizes e (code_info_offset e) (bytecode_offset e)
                (replicate (Z.to_nat (code_info_offset e + bytecode_offset e)) 0), PASS_COMPLETE)
    | MP_PASS_EMIT =>
        if (code_info_offset e <=? code_info_size e) && (bytecode_offset e <=? bytecode_size e) then
          if negb ((code_info_offset e =? code_info_size e) && (bytecode_offset e =? bytecode_size e))
          then Some (with_sizes e (code_info_offset e) (bytecode_offset e) (code_base e), PASS_AGAIN)
          else if overflow e then Some (e, PASS_OVERFLOW)
          else Some (e, PASS_COMPLETE)
        else None
    | _ => Some (e, PASS_COMPLETE)
    end.

(** A pass of [compile_scope]: the calls of the compiler between the start and the
    end of the pass. *)
Definition emit_pass (opt_level star : Z) e (p : pass_kind_t) (s : scope_t) (cs : list call) :
    option (emit_t * pass_result) :=
  e ← mp_emit_bc_start_pass e star p s; e ← emit_calls opt_level e cs; mp_emit_bc_end_pass e.

(** [emit_bc_new] and [emit_bc_set_max_num_labels]. *)
Definition emit_bc_new (s : scope_t) (consts : list (obj F)) (max_num_labels : nat) : emit_t :=
  {| pass := MP_PASS_SCOPE; suppress := false; cur_stack := 0; scope := s; last_source_line_offset := 0;
     last_source_line := 0; label_offsets := replicate max_num_labels None; code_info_offset := 0; code_info_size := 0;
     bytecode_offset := 0; bytecode_size := 0; code_base := []; overflow := false; n_info := 0; n_cell := 0;
     const_obj_list := consts; children := [] |}.

(** The last passes of [mp_compile_to_raw_code] over a scope, until the emitter is
    satisfied. *)
Fixpoint emit_passes (fuel : nat) (opt_level star : Z) e (cs : list call) : option (emit_t * pass_result) :=
  match fuel with
  | O => None
  | S fuel =>
      '(e, r) ← emit_pass opt_level star e MP_PASS_EMIT (scope e) cs;
      match r with PASS_AGAIN => emit_passes fuel opt_level star e cs | _ => Some (e, r) end
  end.

Definition emit_scope (fuel : nat) (opt_level star : Z) e (s : scope_t) (cs : list call) :
    option (emit_t * pass_result) :=
  '(e, _) ← emit_pass opt_level star e MP_PASS_STACK_SIZE s cs;
  '(e, _) ← emit_pass opt_level star e MP_PASS_CODE_SIZE (scope e) cs;
  emit_passes fuel opt_level star e cs.

End emitter.
