(* ===== verification/Compile.v ===== *)
(** The compiler of [py/compile.c]: the walk over the parse tree of one scope that
    calls the emitter.

    A function of the source takes the compiler and calls the emitter; here it
    takes the state [compiler_t] and returns it with the list of those calls, in
    their order, so that what is compiled does not depend on the emitter.  A
    function that returns [None] reads outside of a node, fails an assertion, runs
    out of fuel (the depth of the tree), or meets a construct that makes another
    scope: functions, lambdas, classes, decorators, comprehensions, and the
    statements [import], [async] and [await], which are not modelled. *)

From Stdlib Require Import ZArith Lia Ascii String.
From stdpp Require Import base option list numbers.
From S2P Require Import Prelude Mpn Mpz IntObj Lexer HashMap Qstr Grammar Parse Bytecode Scope EmitBc.

(** * Definitions *)

(** The number of the qstr of a text. *)
Class QstrNumbers := qst_of : text -> Z.

Inductive assign_kind_t := ASSIGN_STORE | ASSIGN_AUG_LOAD | ASSIGN_AUG_STORE.

(** [compiler_t].  No label is [INVALID_LABEL]; the label to break to comes with
    the flag [MP_EMIT_BREAK_FROM_FOR].  An error is kept with its line, zero when
    it is not known. *)
Record compiler_t := {
  is_repl : bool;
  comp_pass : pass_kind_t;
  compile_error : option Z;
  next_label : nat;
  have_star : bool;
  break_label : option (label * bool);
  continue_label : option label;
  cur_except_level : Z;
  break_continue_except_level : Z;
  scope_cur : scope_t;
}.

Definition with_error (c : compiler_t) (e : option Z) : compiler_t :=
  {| is_repl := is_repl c; comp_pass := comp_pass c; compile_error := e; next_label := next_label c;
     have_star := have_star c; break_label := break_label c; continue_label := continue_label c; cur_except_level := cur_except_level c;
     break_continue_except_level := break_continue_except_level c; scope_cur := scope_cur c |}.

Definition with_next_label (c : compiler_t) (n : nat) : compiler_t :=
  {| is_repl := is_repl c; comp_pass := comp_pass c; compile_error := compile_error c; next_label := n;
     have_star := have_star c; break_label := break_label c; continue_label := continue_label c; cur_except_level := cur_except_level c;
     break_continue_except_level := break_continue_except_level c; scope_cur := scope_cur c |}.

Definition with_loop (c : compiler_t) (brk : option (label * bool)) (cont : option label) (level : Z) : compiler_t :=
  {| is_repl := is_repl c; comp_pass := comp_pass c; compile_error := compile_error c; next_label := next_label c;
     have_star := have_star c; break_label := brk; continue_label := cont; cur_except_level := cur_except_level c;
     break_continue_except_level := level; scope_cur := scope_cur c |}.

Definition with_scope (c : compiler_t) (level : Z) (s : scope_t) : compiler_t :=
  {| is_repl := is_repl c; comp_pass := comp_pass c; compile_error := compile_error c; next_label := next_label c;
     have_star := have_star c; break_label := break_label c; continue_label := continue_label c; cur_except_level := level;
     break_continue_except_level := break_continue_except_level c; scope_cur := s |}.

Definition with_have_star (c : compiler_t) (b : bool) : compiler_t :=
  {| is_repl := is_repl c; comp_pass := comp_pass c; compile_error := compile_error c; next_label := next_label c;
     have_star := b; break_label := break_label c; continue_label := continue_label c;
     cur_except_level := cur_except_level c; break_continue_except_level := break_continue_except_level c;
     scope_cur := scope_cur c |}.

Section compile.
Context {F : Type} `{FloatLiterals F} `{QstrNumbers} (opt_level : Z).
Abbreviation node := (parse_node F).
Abbreviation call := (emit_call F).
Implicit Types c : compiler_t.

(** ** Sequences of calls *)

Definition comp_m : Type := compiler_t -> option (compiler_t * list call).

Definition skip : comp_m := fun c => Some (c, []).

(** What the emitter changes of the scope that the compiler reads. *)
Definition emit_effect (c : compiler_t) (e : call) : compiler_t :=
  match e with
  | E_yield _ =>
      with_scope c (cur_except_level c)
        (with_flags (scope_cur c) (Z.lor (scope_flags (scope_cur c)) MP_SCOPE_FLAG_GENERATOR))
  | _ => c
  end.

(** [EMIT] and [EMIT_ARG]. *)
Definition emit (e : call) : comp_m := fun c => Some (emit_effect c e, [e]).

Definition fails : comp_m := fun _ => None.

Definition seq (m1 m2 : comp_m) : comp_m := fun c =>
  '(c, t1) ← m1 c; '(c, t2) ← m2 c; Some (c, t1 ++ t2).

Notation "m1 ;> m2" := (seq m1 m2) (at level 60, right associativity).

Definition with_comp (k : compiler_t -> comp_m) : comp_m := fun c => k c c.

Definition update (f : compiler_t -> compiler_t) : comp_m := fun c => Some (f c, []).

Definition comp_next_label (k : label -> comp_m) : comp_m := fun c =>
  k (next_label c) (with_next_label c (S (next_label c))).

Fixpoint each {A} (f : A -> comp_m) (l : list A) : comp_m :=
  match l with [] => skip | a :: l => f a ;> each f l end.

(** An element of a node. *)
Definition at_node (nodes : list node) (i : nat) (k : node -> comp_m) : comp_m :=
  match nodes !! i with Some pn => k pn | None => fails end.

(** A parse node of which the source reads the elements. *)
Definition as_struct (pn : node) (k : Z -> rule_id -> list node -> comp_m) : comp_m :=
  match pn with PN_STRUCT line kind nodes => k line kind nodes | _ => fails end.

(** ** Errors *)

(** The line of a struct node, where constants are nodes with a line too. *)
Definition node_line (pn : node) : option Z :=
  match pn with PN_STRUCT line _ _ | PN_CONST line _ => Some line | _ => None end.

Definition compile_error_set_line (pn : node) : comp_m := update (fun c =>
  match compile_error c, node_line pn with
  | Some 0, Some line => with_error c (Some line)
  | _, _ => c
  end).

Definition compile_syntax_error (pn : node) : comp_m := update (fun c =>
  match compile_error c with
  | None => with_error c (Some (default 0 (node_line pn)))
  | Some _ => c
  end).

(** ** Exception levels *)

Definition compile_increase_except_level (l : label) (k : block_kind) : comp_m :=
  emit (E_setup_block l k) ;>
  update (fun c =>
    let level := cur_except_level c + 1 in
    let s := scope_cur c in
    with_scope c level (if exc_stack_size s <? level then with_stack_sizes s (stack_size s) level else s)).

Definition compile_decrease_except_level : comp_m :=
  with_comp (fun c =>
    if 0 <? cur_except_level c then
      update (fun c => with_scope c (cur_except_level c - 1) (scope_cur c)) ;> emit E_end_finally
    else fails).

(** ** Names *)

(** [mp_emit_common_id_op] with the tables of loads, stores and deletions. *)
Definition id_op (qst : Z) (local : Z -> Z -> local_kind -> call) (global : Z -> global_kind -> call) (s : scope_t) :
    comp_m :=
  match scope_find s qst with
  | None => fails
  | Some (_, i) =>
      match id_kind i with
      | ID_INFO_KIND_GLOBAL_IMPLICIT | ID_INFO_KIND_GLOBAL_IMPLICIT_ASSIGNED => emit (global qst MP_EMIT_IDOP_GLOBAL_NAME)
      | ID_INFO_KIND_GLOBAL_EXPLICIT => emit (global qst MP_EMIT_IDOP_GLOBAL_GLOBAL)
      | ID_INFO_KIND_LOCAL => emit (local qst (local_num i) MP_EMIT_IDOP_LOCAL_FAST)
      | ID_INFO_KIND_CELL | ID_INFO_KIND_FREE => emit (local qst (local_num i) MP_EMIT_IDOP_LOCAL_DEREF)
      | ID_INFO_KIND_UNDECIDED => fails
      end
  end.

(** [mp_emit_common_get_id_for_load] and [mp_emit_common_get_id_for_modification]. *)
Definition get_id_for_load (s : scope_t) (qst : Z) : scope_t :=
  fst (scope_find_or_add_id s qst ID_INFO_KIND_GLOBAL_IMPLICIT).

Definition get_id_for_modification (s : scope_t) (qst : Z) : scope_t :=
  let '(s, (n, i)) := scope_find_or_add_id s qst ID_INFO_KIND_GLOBAL_IMPLICIT in
  if bool_decide (id_kind i = ID_INFO_KIND_GLOBAL_IMPLICIT)
  then set_id_kind s n
         (if SCOPE_IS_FUNC_LIKE (kind s) then ID_INFO_KIND_LOCAL else ID_INFO_KIND_GLOBAL_IMPLICIT_ASSIGNED)
  else s.

Definition in_scope_pass (get : scope_t -> Z -> scope_t) (qst : Z) (op : scope_t -> comp_m) : comp_m :=
  with_comp (fun c =>
    if bool_decide (comp_pass c = MP_PASS_SCOPE)
    then update (fun c => with_scope c (cur_except_level c) (get (scope_cur c) qst))
    else op (scope_cur c)).

Definition compile_load_id (qst : Z) : comp_m :=
  in_scope_pass get_id_for_load qst (id_op qst E_load_local E_load_global).

Definition compile_store_id (qst : Z) : comp_m :=
  in_scope_pass get_id_for_modification qst (id_op qst E_store_local E_store_global).

Definition compile_delete_id (qst : Z) : comp_m :=
  in_scope_pass get_id_for_modification qst (id_op qst E_delete_local E_delete_global).

(** [EMIT_LOAD_GLOBAL]. *)
Definition emit_load_global (s : text) : comp_m := emit (E_load_global (qst_of s) MP_EMIT_IDOP_GLOBAL_GLOBAL).

Definition MP_QSTR_range : text := bytes "range".
Definition MP_QSTR_super : text := bytes "super".
Definition MP_QSTR___class__ : text := bytes "__class__".
Definition MP_QSTR_AssertionError : text := bytes "AssertionError".
Definition MP_QSTR___repl_print__ : text := bytes "__repl_print__".

(** ** Operators of tokens *)

(** [MP_BINARY_OP_INPLACE_OR + (tok - MP_TOKEN_DEL_PIPE_EQUAL)], and so on: the
    tokens in the order of the operators. *)
Definition op_from (tokens : list mp_token_kind_t) (first : Z) (tok : mp_token_kind_t) : option Z :=
  '(i, _) ← list_find (fun t => t = tok) tokens; Some (first + Z.of_nat i).

Definition tokens_from_op_less : list mp_token_kind_t :=
  [MP_TOKEN_OP_LESS; MP_TOKEN_OP_MORE; MP_TOKEN_OP_DBL_EQUAL; MP_TOKEN_OP_LESS_EQUAL; MP_TOKEN_OP_MORE_EQUAL;
   MP_TOKEN_OP_NOT_EQUAL].

Definition tokens_from_pipe_equal : list mp_token_kind_t :=
  [MP_TOKEN_DEL_PIPE_EQUAL; MP_TOKEN_DEL_CARET_EQUAL; MP_TOKEN_DEL_AMPERSAND_EQUAL; MP_TOKEN_DEL_DBL_LESS_EQUAL;
   MP_TOKEN_DEL_DBL_MORE_EQUAL; MP_TOKEN_DEL_PLUS_EQUAL; MP_TOKEN_DEL_MINUS_EQUAL; MP_TOKEN_DEL_STAR_EQUAL;
   MP_TOKEN_DEL_AT_EQUAL; MP_TOKEN_DEL_DBL_SLASH_EQUAL; MP_TOKEN_DEL_SLASH_EQUAL; MP_TOKEN_DEL_PERCENT_EQUAL;
   MP_TOKEN_DEL_DBL_STAR_EQUAL].

Definition emit_op (op : option Z) (k : Z -> call) : comp_m :=
  match op with Some op => emit (k op) | None => fails end.

Definition as_token (pn : node) (k : mp_token_kind_t -> comp_m) : comp_m :=
  match pn with PN_TOKEN t => k t | _ => fails end.

Definition as_id (pn : node) (k : Z -> comp_m) : comp_m :=
  match pn with PN_ID s => k (qst_of s) | _ => fails end.

(** The answer of a test that may read outside of a node. *)
Definition test (r : perr bool) (k : bool -> comp_m) : comp_m :=
  match r with inr b => k b | inl _ => fails end.

Definition has_comp_for (nodes : list node) : bool :=
  match nodes with [_; PN_STRUCT _ RULE_comp_for _] => true | _ => false end.

Definition is_small_int (pn : node) : bool := match pn with PN_SMALL_INT _ => true | _ => false end.

(** ** Expressions

    The functions that call each other take as parameters the ones below them in
    the tree: [compile_node], [c_if_cond], [c_assign] and [c_del_stmt]. *)

Section compile_functions.
Variable compile_node : node -> comp_m.
Variable c_if_cond : node -> bool -> label -> comp_m.
Variable c_assign : node -> assign_kind_t -> comp_m.
Variable c_del_stmt : node -> comp_m.

Definition apply_to_single_or_list (pn : node) (pn_list_kind : rule_id) (f : node -> comp_m) : comp_m :=
  match pn with
  | PN_STRUCT _ kind nodes => if bool_decide (kind = pn_list_kind) then each f nodes else f pn
  | PN_NULL => skip
  | _ => f pn
  end.

Fixpoint compile_generic_all_nodes (nodes : list node) : comp_m :=
  match nodes with
  | [] => skip
  | pn :: nodes =>
      compile_node pn ;>
      with_comp (fun c =>
        match compile_error c with
        | Some _ => compile_error_set_line pn
        | None => compile_generic_all_nodes nodes
        end)
  end.

Definition compile_generic_tuple (nodes : list node) : comp_m :=
  each compile_node nodes ;> emit (E_build (Z.of_nat (length nodes)) MP_EMIT_BUILD_TUPLE).

(** The two loops of [c_if_cond]: jumping from each operand, and jumping around
    from all but the last. *)
Definition and_or_logic2 (nodes : list node) (jump_if : bool) (l : label) : comp_m :=
  each (fun pn => c_if_cond pn jump_if l) nodes.

Definition and_or_logic1 (nodes : list node) (jump_if : bool) (l : label) : comp_m :=
  comp_next_label (fun label2 =>
    match list.last nodes with
    | None => fails
    | Some pn =>
        each (fun pn => c_if_cond pn (negb jump_if) label2) (take (length nodes - 1) nodes) ;>
        c_if_cond pn jump_if l ;> emit (E_label_assign label2)
    end).

Definition c_if_cond_body (pn : node) (jump_if : bool) (l : label) : comp_m :=
  let default := compile_node pn ;> emit (E_pop_jump_if jump_if l) in
  test (mp_parse_node_is_const_false pn) (fun is_false =>
    if is_false then if jump_if then skip else emit (E_jump l)
    else
      test (mp_parse_node_is_const_true pn) (fun is_true =>
        if is_true then if jump_if then emit (E_jump l) else skip
        else
          match pn with
          | PN_STRUCT _ RULE_or_test nodes =>
              if jump_if then and_or_logic2 nodes jump_if l else and_or_logic1 nodes jump_if l
          | PN_STRUCT _ RULE_and_test nodes =>
              if jump_if then and_or_logic1 nodes jump_if l else and_or_logic2 nodes jump_if l
          | PN_STRUCT _ RULE_not_test_2 nodes => at_node nodes 0 (fun pn => c_if_cond pn (negb jump_if) l)
          | _ => default
          end)).

Definition compile_test_if_expr (nodes : list node) : comp_m :=
  at_node nodes 0 (fun success =>
  at_node nodes 1 (fun pn => as_struct pn (fun _ kind test_if_else =>
    if negb (bool_decide (kind = RULE_test_if_else)) then fails else
    at_node test_if_else 0 (fun cond => at_node test_if_else 1 (fun failure =>
      comp_next_label (fun l_fail => comp_next_label (fun l_end =>
        c_if_cond cond false l_fail ;>
        compile_node success ;>
        emit (E_jump l_end) ;>
        emit (E_label_assign l_fail) ;>
        emit (E_adjust_stack_size (-1)) ;>
        compile_node failure ;>
        emit (E_label_assign l_end)))))))).

(** The target of [:=]; the scope of a comprehension is not modelled. *)
Definition compile_namedexpr_helper (pn_name pn_expr : node) : comp_m :=
  (match pn_name with PN_ID _ => skip | _ => compile_syntax_error pn_name end) ;>
  compile_node pn_expr ;>
  emit E_dup_top ;>
  with_comp (fun c =>
    if bool_decide (comp_pass c = MP_PASS_SCOPE) && SCOPE_IS_COMP_LIKE (kind (scope_cur c)) then fails
    else as_id pn_name compile_store_id).

Fixpoint or_and_loop (cond : bool) (l_end : label) (nodes : list node) : comp_m :=
  match nodes with
  | [] => skip
  | [pn] => compile_node pn
  | pn :: nodes => compile_node pn ;> emit (E_jump_if_or_pop cond l_end) ;> or_and_loop cond l_end nodes
  end.

Definition compile_or_and_test (cond : bool) (nodes : list node) : comp_m :=
  comp_next_label (fun l_end => or_and_loop cond l_end nodes ;> emit (E_label_assign l_end)).

Definition compile_not_test_2 (nodes : list node) : comp_m :=
  at_node nodes 0 (fun pn => compile_node pn ;> emit (E_unary_op MP_UNARY_OP_NOT)).

(** The operator of a comparison, a token or a node. *)
Definition comparison_op (pn : node) : option Z :=
  match pn with
  | PN_TOKEN t =>
      if bool_decide (t = MP_TOKEN_KW_IN) then Some MP_BINARY_OP_IN
      else op_from tokens_from_op_less MP_BINARY_OP_LESS t
  | PN_STRUCT _ RULE_comp_op_not_in _ => Some MP_BINARY_OP_NOT_IN
  | PN_STRUCT _ RULE_comp_op_is nodes =>
      pn ← nodes !! 0%nat; Some (if is_null pn then MP_BINARY_OP_IS else MP_BINARY_OP_IS_NOT)
  | _ => None
  end.

(** The operators and operands after the first one; a last node on its own is not
    looked at. *)
Fixpoint comparison_loop (l_fail : label) (nodes : list node) : comp_m :=
  match nodes with
  | op :: pn :: [] => compile_node pn ;> emit_op (comparison_op op) E_binary_op
  | op :: pn :: nodes =>
      compile_node pn ;> emit E_dup_top ;> emit E_rot_three ;> emit_op (comparison_op op) E_binary_op ;>
      emit (E_jump_if_or_pop false l_fail) ;> comparison_loop l_fail nodes
  | _ => skip
  end.

Definition compile_comparison (nodes : list node) : comp_m :=
  match nodes with
  | [] => fails
  | pn :: rest =>
      compile_node pn ;>
      (if (3 <? length nodes)%nat then
         comp_next_label (fun l_fail =>
           comparison_loop l_fail rest ;>
           comp_next_label (fun l_end =>
             emit (E_jump l_end) ;>
             emit (E_label_assign l_fail) ;>
             emit (E_adjust_stack_size 1) ;>
             emit E_rot_two ;>
             emit E_pop_top ;>
             emit (E_label_assign l_end)))
       else comparison_loop 0 rest)
  end.

Definition compile_star_expr (pn : node) : comp_m := compile_syntax_error pn.

(** [MP_BINARY_OP_OR + kind - PN_expr]. *)
Definition binary_op_of_rule (kind : rule_id) : Z := MP_BINARY_OP_OR + (rule_number kind - rule_number RULE_expr).

Definition compile_binary_op (kind : rule_id) (nodes : list node) : comp_m :=
  match nodes with
  | [] => fails
  | pn :: rest =>
      compile_node pn ;> each (fun pn => compile_node pn ;> emit (E_binary_op (binary_op_of_rule kind))) rest
  end.

Fixpoint term_loop (nodes : list node) : comp_m :=
  match nodes with
  | op :: pn :: nodes =>
      compile_node pn ;>
      as_token op (fun tok => emit_op (op_from tokens_from_dbl_less MP_BINARY_OP_LSHIFT tok) E_binary_op) ;>
      term_loop nodes
  | _ => skip
  end.

Definition compile_term (nodes : list node) : comp_m :=
  match nodes with [] => fails | pn :: rest => compile_node pn ;> term_loop rest end.

Definition unary_op_of_token (tok : mp_token_kind_t) : option Z :=
  match tok with
  | MP_TOKEN_OP_TILDE => Some MP_UNARY_OP_INVERT
  | MP_TOKEN_OP_PLUS => Some MP_UNARY_OP_POSITIVE
  | MP_TOKEN_OP_MINUS => Some MP_UNARY_OP_NEGATIVE
  | _ => None
  end.

Definition compile_factor_2 (nodes : list node) : comp_m :=
  at_node nodes 0 (fun op => at_node nodes 1 (fun pn =>
    compile_node pn ;> as_token op (fun tok => emit_op (unary_op_of_token tok) E_unary_op))).

Definition compile_power (nodes : list node) : comp_m :=
  compile_generic_all_nodes nodes ;> emit (E_binary_op MP_BINARY_OP_POWER).

(** ** Calls *)

(** The state of the loop over the arguments: the numbers of positional and of
    keyword arguments, the flags of stars and the bitmap of starred arguments. *)
Record args_state := { n_positional : Z; n_keyword : Z; star_single : bool; star_double : bool; star_args : Z }.

Definition MP_SMALL_INT_BITS : nat := 31.

(** One argument: what it makes of the state, after its code. *)
Definition compile_argument (i : nat) (arg : node) (st : args_state) (k : args_state -> comp_m) : comp_m :=
  let normal_argument :=
    if star_double st then compile_syntax_error arg
    else if 0 <? n_keyword st then compile_syntax_error arg
    else
      compile_node arg ;>
      k {| n_positional := n_positional st + 1; n_keyword := n_keyword st; star_single := star_single st;
           star_double := star_double st; star_args := star_args st |} in
  match arg with
  | PN_STRUCT _ RULE_arglist_star nodes =>
      if star_double st then compile_syntax_error arg
      else if (MP_SMALL_INT_BITS - 1 <=? i)%nat then compile_syntax_error arg
      else at_node nodes 0 (fun pn =>
        compile_node pn ;>
        k {| n_positional := n_positional st + 1; n_keyword := n_keyword st; star_single := true;
             star_double := star_double st; star_args := Z.lor (star_args st) (2 ^ Z.of_nat i) |})
  | PN_STRUCT _ RULE_arglist_dbl_star nodes =>
      emit E_load_null ;>
      at_node nodes 0 (fun pn =>
        compile_node pn ;>
        k {| n_positional := n_positional st; n_keyword := n_keyword st + 1; star_single := star_single st;
             star_double := true; star_args := star_args st |})
  | PN_STRUCT _ RULE_argument nodes =>
      at_node nodes 0 (fun name => at_node nodes 1 (fun value =>
        match value with
        | PN_STRUCT _ RULE_argument_3 nodes =>
            at_node nodes 0 (fun pn =>
              compile_namedexpr_helper name pn ;>
              k {| n_positional := n_positional st + 1; n_keyword := n_keyword st; star_single := star_single st;
                   star_double := star_double st; star_args := star_args st |})
        | PN_STRUCT _ RULE_comp_for _ => fails
        | _ =>
            match name with
            | PN_ID s =>
                emit (E_load_const_str (qst_of s)) ;>
                compile_node value ;>
                k {| n_positional := n_positional st; n_keyword := n_keyword st + 1; star_single := star_single st;
                     star_double := star_double st; star_args := star_args st |}
            | _ => compile_syntax_error arg
            end
        end))
  | _ => normal_argument
  end.

Fixpoint compile_arguments (i : nat) (args : list node) (st : args_state) (k : args_state -> comp_m) : comp_m :=
  match args with
  | [] => k st
  | arg :: args => compile_argument i arg st (fun st => compile_arguments (S i) args st k)
  end.

Definition compile_trailer_paren_helper (pn_arglist : node) (is_method_call : bool) (n_positional_extra : Z) : comp_m :=
  compile_arguments 0 (mp_parse_node_extract_list pn_arglist RULE_arglist)
    {| n_positional := n_positional_extra; n_keyword := 0; star_single := false; star_double := false; star_args := 0 |}
    (fun st =>
      let star := star_single st || star_double st in
      (if star then emit (E_load_const_small_int (star_args st)) else skip) ;>
      emit (if is_method_call then E_call_method (n_positional st) (n_keyword st) star
            else E_call_function (n_positional st) (n_keyword st) star)).

Definition is_kind (pn : node) (k : rule_id) : bool := is_struct_kind pn k.

(** The trailers after the subject; a method call is a period and the parenthesis
    that follows it. *)
Fixpoint compile_trailers (trail : list node) : comp_m :=
  match trail with
  | [] => skip
  | PN_STRUCT l1 RULE_trailer_period nodes1 :: ((PN_STRUCT _ RULE_trailer_paren nodes2 :: trail') as rest) =>
      at_node nodes1 0 (fun pn => as_id pn (fun q => emit (E_load_method q false))) ;>
      at_node nodes2 0 (fun pn => compile_trailer_paren_helper pn true 0) ;>
      compile_trailers trail'
  | pn :: trail' => compile_node pn ;> compile_trailers trail'
  end.

(** The array of trailers of the second node. *)
Definition get_trailers (pn : node) : option (list node) :=
  match pn with
  | PN_STRUCT _ RULE_atom_expr_trailers nodes => Some nodes
  | PN_STRUCT _ _ _ => Some [pn]
  | _ => None
  end.

(** [super()] without arguments. *)
Definition is_super_call (s : scope_t) (subject : node) (trail : list node) : bool :=
  bool_decide (kind s = SCOPE_FUNCTION) &&
  match subject, trail with
  | PN_ID t, PN_STRUCT _ RULE_trailer_paren (PN_NULL :: _) :: _ => bool_decide (t = MP_QSTR_super)
  | _, _ => false
  end.

Definition first_param (s : scope_t) : option Z := id_qst <$> (snd <$> list_find (fun i => is_param i = true) (id_info s)).

Definition compile_super (trail : list node) : comp_m :=
  with_comp (fun c =>
    compile_load_id (qst_of MP_QSTR___class__) ;>
    with_comp (fun c =>
      match first_param (scope_cur c) with
      | None => match trail with pn :: _ => compile_syntax_error pn | [] => fails end
      | Some q =>
          compile_load_id q ;>
          match trail with
          | _ :: PN_STRUCT _ RULE_trailer_period nodes1 :: PN_STRUCT _ RULE_trailer_paren nodes2 :: trail =>
              at_node nodes1 0 (fun pn => as_id pn (fun q => emit (E_load_method q true))) ;>
              at_node nodes2 0 (fun pn => compile_trailer_paren_helper pn true 0) ;>
              compile_trailers trail
          | _ :: trail => emit (E_call_function 2 0 false) ;> compile_trailers trail
          | [] => fails
          end
      end)).

Definition compile_atom_expr_normal (nodes : list node) : comp_m :=
  at_node nodes 0 (fun subject =>
    compile_node subject ;>
    at_node nodes 1 (fun pn =>
      if is_null pn then skip
      else
        match get_trailers pn with
        | None => fails
        | Some trail =>
            with_comp (fun c =>
              if is_super_call (scope_cur c) subject trail then compile_super trail else compile_trailers trail)
        end)).

(** ** Atoms and subscripts *)

Definition compile_atom_paren (nodes : list node) : comp_m :=
  at_node nodes 0 (fun pn =>
    if is_null pn then emit (E_build 0 MP_EMIT_BUILD_TUPLE)
    else as_struct pn (fun _ kind items =>
      if negb (bool_decide (kind = RULE_testlist_comp)) then fails
      else if has_comp_for items then fails
      else compile_generic_tuple items)).

Definition compile_atom_bracket (nodes : list node) : comp_m :=
  at_node nodes 0 (fun pn =>
    if is_null pn then emit (E_build 0 MP_EMIT_BUILD_LIST)
    else
      match pn with
      | PN_STRUCT _ RULE_testlist_comp items =>
          if has_comp_for items then fails
          else compile_generic_all_nodes items ;> emit (E_build (Z.of_nat (length items)) MP_EMIT_BUILD_LIST)
      | _ => compile_node pn ;> emit (E_build 1 MP_EMIT_BUILD_LIST)
      end).

(** The elements after the first one; a dictionary holds pairs, a set does not. *)
Fixpoint brace_loop (self : node) (is_dict : bool) (nodes : list node) (k : comp_m) : comp_m :=
  match nodes with
  | [] => k
  | pn :: nodes =>
      compile_node pn ;>
      (if bool_decide (is_kind pn RULE_dictorsetmaker_item = is_dict)
       then (if is_dict then emit E_store_map else skip) ;> brace_loop self is_dict nodes k
       else compile_syntax_error self)
  end.

Definition compile_atom_brace_helper (nodes : list node) (create_map : bool) : comp_m :=
  at_node nodes 0 (fun pn =>
    let set_with_one_element := compile_node pn ;> emit (E_build 1 MP_EMIT_BUILD_SET) in
    let build_map n := if create_map then emit (E_build n MP_EMIT_BUILD_MAP) else skip in
    if is_null pn then build_map 0
    else
      match pn with
      | PN_STRUCT _ RULE_dictorsetmaker_item _ => build_map 1 ;> compile_node pn ;> emit E_store_map
      | PN_STRUCT _ RULE_dictorsetmaker items =>
          at_node items 0 (fun first => at_node items 1 (fun pn1 =>
            match pn1 with
            | PN_STRUCT _ RULE_dictorsetmaker_list tail =>
                at_node tail 0 (fun tail =>
                  let rest := mp_parse_node_extract_list tail RULE_dictorsetmaker_list2 in
                  let n := 1 + Z.of_nat (length rest) in
                  if is_kind first RULE_dictorsetmaker_item then
                    build_map n ;> compile_node first ;> emit E_store_map ;> brace_loop pn true rest skip
                  else
                    compile_node first ;> brace_loop pn false rest (emit (E_build n MP_EMIT_BUILD_SET)))
            | _ => fails
            end))
      | _ => set_with_one_element
      end).

Definition compile_trailer_bracket (nodes : list node) : comp_m :=
  at_node nodes 0 (fun pn => compile_node pn ;> emit (E_subscr ACCESS_LOAD)).

Definition compile_trailer_period (nodes : list node) : comp_m :=
  at_node nodes 0 (fun pn => as_id pn (fun q => emit (E_attr q ACCESS_LOAD))).

Definition load_none : comp_m := emit (E_load_const_tok MP_TOKEN_KW_NONE).

(** The part of a slice after its start. *)
Definition compile_subscript_3 (nodes : list node) : comp_m :=
  at_node nodes 0 (fun pn =>
    let build_slice n := emit (E_build n MP_EMIT_BUILD_SLICE) in
    match pn with
    | PN_NULL => load_none ;> build_slice 2
    | PN_STRUCT _ RULE_subscript_3c nodes =>
        load_none ;>
        at_node nodes 0 (fun pn => if is_null pn then build_slice 2 else compile_node pn ;> build_slice 3)
    | PN_STRUCT _ RULE_subscript_3d nodes =>
        at_node nodes 0 (fun pn => compile_node pn) ;>
        at_node nodes 1 (fun pn => as_struct pn (fun _ kind nodes =>
          if negb (bool_decide (kind = RULE_sliceop)) then fails
          else at_node nodes 0 (fun pn => if is_null pn then build_slice 2 else compile_node pn ;> build_slice 3)))
    | _ => compile_node pn ;> build_slice 2
    end).

Definition compile_subscript (kind : rule_id) (nodes : list node) : comp_m :=
  if bool_decide (kind = RULE_subscript_2) then
    at_node nodes 0 (fun pn => compile_node pn) ;>
    at_node nodes 1 (fun pn => as_struct pn (fun _ kind nodes =>
      if bool_decide (kind = RULE_subscript_3) then compile_subscript_3 nodes else fails))
  else if bool_decide (kind = RULE_subscript_3) then load_none ;> compile_subscript_3 nodes
  else fails.

Definition compile_dictorsetmaker_item (nodes : list node) : comp_m :=
  at_node nodes 1 (fun value => at_node nodes 0 (fun key => compile_node value ;> compile_node key)).

Definition compile_yield_from : comp_m := emit (E_get_iter false) ;> load_none ;> emit (E_yield true).

Definition compile_yield_expr (self : node) (nodes : list node) : comp_m :=
  with_comp (fun c =>
    if negb (bool_decide (kind (scope_cur c) = SCOPE_FUNCTION)) && negb (bool_decide (kind (scope_cur c) = SCOPE_LAMBDA))
    then compile_syntax_error self
    else at_node nodes 0 (fun pn =>
      match pn with
      | PN_NULL => load_none ;> emit (E_yield false)
      | PN_STRUCT _ RULE_yield_arg_from nodes => at_node nodes 0 (fun pn => compile_node pn ;> compile_yield_from)
      | _ => compile_node pn ;> emit (E_yield false)
      end)).

(** ** Assignments *)

Definition is_aug_store (k : assign_kind_t) : bool := match k with ASSIGN_AUG_STORE => true | _ => false end.
Definition is_store (k : assign_kind_t) : bool := match k with ASSIGN_STORE => true | _ => false end.

(** The last trailer of an index or an attribute; those before it are compiled,
    unless they were when the target was loaded. *)
Definition c_assign_trailer (self : node) (k : assign_kind_t) (pn : node) : comp_m :=
  match pn with
  | PN_STRUCT _ RULE_trailer_bracket nodes =>
      if is_aug_store k then emit E_rot_three ;> emit (E_subscr ACCESS_STORE)
      else at_node nodes 0 (fun pn =>
        compile_node pn ;>
        match k with
        | ASSIGN_AUG_LOAD => emit E_dup_top_two ;> emit (E_subscr ACCESS_LOAD)
        | _ => emit (E_subscr ACCESS_STORE)
        end)
  | PN_STRUCT _ RULE_trailer_period nodes =>
      at_node nodes 0 (fun pn => as_id pn (fun q =>
        match k with
        | ASSIGN_AUG_LOAD => emit E_dup_top ;> emit (E_attr q ACCESS_LOAD)
        | ASSIGN_AUG_STORE => emit E_rot_two ;> emit (E_attr q ACCESS_STORE)
        | ASSIGN_STORE => emit (E_attr q ACCESS_STORE)
        end))
  | PN_STRUCT _ _ _ => compile_syntax_error self
  | _ => fails
  end.

Definition c_assign_atom_expr (self : node) (nodes : list node) (k : assign_kind_t) : comp_m :=
  (if is_aug_store k then skip else at_node nodes 0 (fun pn => compile_node pn)) ;>
  at_node nodes 1 (fun pn =>
    match pn with
    | PN_STRUCT _ RULE_atom_expr_trailers trail =>
        (if is_aug_store k then skip else each compile_node (take (length trail - 1) trail)) ;>
        match list.last trail with Some pn => c_assign_trailer self k pn | None => fails end
    | PN_STRUCT _ _ _ => c_assign_trailer self k pn
    | _ => compile_syntax_error self
    end).

(** The position of the star expression, [None] twice when there is a second one;
    [unpack_ex] is emitted at the first. *)
Fixpoint find_star (i : nat) (num_tail : nat) (found : option nat) (nodes : list node) (k : option nat -> comp_m) : comp_m :=
  match nodes with
  | [] => k found
  | pn :: nodes =>
      if is_kind pn RULE_star_expr then
        match found with
        | None =>
            emit (E_unpack_ex (Z.of_nat i) (Z.of_nat (num_tail - i - 1))) ;> find_star (S i) num_tail (Some i) nodes k
        | Some _ => compile_syntax_error pn
        end
      else find_star (S i) num_tail found nodes k
  end.

Fixpoint assign_tail (i : nat) (star : option nat) (nodes : list node) : comp_m :=
  match nodes with
  | [] => skip
  | pn :: nodes =>
      (if bool_decide (star = Some i)
       then as_struct pn (fun _ _ nodes => at_node nodes 0 (fun pn => c_assign pn ASSIGN_STORE))
       else c_assign pn ASSIGN_STORE) ;>
      assign_tail (S i) star nodes
  end.

Definition c_assign_tuple (nodes_tail : list node) : comp_m :=
  find_star 0 (length nodes_tail) None nodes_tail (fun star =>
    (match star with None => emit (E_unpack_sequence (Z.of_nat (length nodes_tail))) | Some _ => skip end) ;>
    assign_tail 0 star nodes_tail).

Definition c_assign_body (pn : node) (k : assign_kind_t) : comp_m :=
  let cannot_assign := compile_syntax_error pn in
  let testlist_comp items := if has_comp_for items then cannot_assign else c_assign_tuple items in
  match pn with
  | PN_ID s => match k with ASSIGN_AUG_LOAD => compile_load_id (qst_of s) | _ => compile_store_id (qst_of s) end
  | PN_STRUCT _ RULE_atom_expr_normal nodes => c_assign_atom_expr pn nodes k
  | PN_STRUCT _ (RULE_testlist_star_expr | RULE_exprlist) nodes =>
      if is_store k then c_assign_tuple nodes else cannot_assign
  | PN_STRUCT _ RULE_atom_paren nodes =>
      at_node nodes 0 (fun pn0 =>
        if is_null pn0 then cannot_assign
        else as_struct pn0 (fun _ kind items =>
          if negb (bool_decide (kind = RULE_testlist_comp)) then fails
          else if is_store k then testlist_comp items else cannot_assign))
  | PN_STRUCT _ RULE_atom_bracket nodes =>
      if negb (is_store k) then cannot_assign
      else at_node nodes 0 (fun pn0 =>
        match pn0 with
        | PN_NULL => c_assign_tuple []
        | PN_STRUCT _ RULE_testlist_comp items => testlist_comp items
        | _ => c_assign_tuple [pn0]
        end)
  | PN_NULL => fails
  | _ => cannot_assign
  end.

(** [del]. *)
Definition c_del_stmt_body (pn : node) : comp_m :=
  let cannot_delete := compile_syntax_error pn in
  match pn with
  | PN_ID s => compile_delete_id (qst_of s)
  | PN_STRUCT _ RULE_atom_expr_normal nodes =>
      at_node nodes 0 (fun base => compile_node base) ;>
      at_node nodes 1 (fun pn1 =>
        let last_trailer t :=
          match t with
          | PN_STRUCT _ RULE_trailer_bracket nodes =>
              at_node nodes 0 (fun pn => compile_node pn ;> emit (E_subscr ACCESS_DELETE))
          | PN_STRUCT _ RULE_trailer_period nodes =>
              at_node nodes 0 (fun pn => as_id pn (fun q => emit (E_attr q ACCESS_DELETE)))
          | _ => cannot_delete
          end in
        match pn1 with
        | PN_STRUCT _ RULE_atom_expr_trailers trail =>
            each compile_node (take (length trail - 1) trail) ;>
            match list.last trail with Some t => last_trailer t | None => fails end
        | _ => last_trailer pn1
        end)
  | PN_STRUCT _ RULE_atom_paren nodes =>
      at_node nodes 0 (fun pn0 =>
        if is_null pn0 then compile_syntax_error pn0
        else as_struct pn0 (fun _ kind items =>
          if negb (bool_decide (kind = RULE_testlist_comp)) then fails
          else if has_comp_for items then compile_syntax_error pn0 else each c_del_stmt items))
  | _ => cannot_delete
  end.

(** ** Statements *)

Definition compile_del_stmt (nodes : list node) : comp_m :=
  at_node nodes 0 (fun pn => apply_to_single_or_list pn RULE_exprlist c_del_stmt).

Definition INVALID_LABEL : label := Z.to_nat 0xffff.

(** The bit [MP_EMIT_BREAK_FROM_FOR] is also one of [INVALID_LABEL]. *)
Definition invalid_break : label * bool := (Z.to_nat 0x7fff, true).

Definition compile_break_cont_stmt (self : node) (is_break : bool) : comp_m :=
  with_comp (fun c =>
    let target := if is_break then break_label c else (fun l => (l, false)) <$> continue_label c in
    let depth := cur_except_level c - break_continue_except_level c in
    let '(l, from_for) := default invalid_break target in
    (match target with None => compile_syntax_error self | Some _ => skip end) ;>
    if 0 <=? depth then emit (E_unwind_jump l from_for depth) else fails).

Definition compile_return_stmt (self : node) (nodes : list node) : comp_m :=
  with_comp (fun c =>
    if negb (bool_decide (kind (scope_cur c) = SCOPE_FUNCTION)) then compile_syntax_error self
    else at_node nodes 0 (fun pn => (if is_null pn then load_none else compile_node pn) ;> emit E_return_value)).

Definition compile_yield_stmt (nodes : list node) : comp_m :=
  at_node nodes 0 (fun pn => compile_node pn ;> emit E_pop_top).

Definition compile_raise_stmt (nodes : list node) : comp_m :=
  at_node nodes 0 (fun pn =>
    match pn with
    | PN_NULL => emit (E_raise_varargs 0)
    | PN_STRUCT _ RULE_raise_stmt_arg nodes =>
        at_node nodes 0 compile_node ;> at_node nodes 1 compile_node ;> emit (E_raise_varargs 2)
    | _ => compile_node pn ;> emit (E_raise_varargs 1)
    end).

Definition compile_assert_stmt (nodes : list node) : comp_m :=
  if negb (opt_level =? 0) then skip
  else
    comp_next_label (fun l_end =>
      at_node nodes 0 (fun cond => c_if_cond cond true l_end) ;>
      emit_load_global MP_QSTR_AssertionError ;>
      at_node nodes 1 (fun pn =>
        if is_null pn then skip else compile_node pn ;> emit (E_call_function 1 0 false)) ;>
      emit (E_raise_varargs 1) ;>
      emit (E_label_assign l_end)).

(** A condition with its block: [after] is what follows the block unless the
    condition is always true, [rest] what follows when it fails. *)
Definition compile_if_block (cond block : node) (after rest : comp_m) : comp_m :=
  test (mp_parse_node_is_const_false cond) (fun is_false =>
    if is_false then rest
    else
      comp_next_label (fun l_fail =>
        c_if_cond cond false l_fail ;>
        compile_node block ;>
        test (mp_parse_node_is_const_true cond) (fun is_true =>
          if is_true then skip else after ;> emit (E_label_assign l_fail) ;> rest))).

Fixpoint compile_elif (l_end : label) (elifs : list node) (pn_else : node) : comp_m :=
  match elifs with
  | [] => compile_node pn_else
  | pn :: elifs => as_struct pn (fun _ kind nodes =>
      if negb (bool_decide (kind = RULE_if_stmt_elif)) then fails
      else at_node nodes 0 (fun cond => at_node nodes 1 (fun block =>
        compile_if_block cond block (emit (E_jump l_end)) (compile_elif l_end elifs pn_else))))
  end.

Definition compile_if_stmt (nodes : list node) : comp_m :=
  at_node nodes 0 (fun cond => at_node nodes 1 (fun block => at_node nodes 2 (fun pn_elif => at_node nodes 3 (fun pn_else =>
    comp_next_label (fun l_end =>
      compile_if_block cond block
        (if is_null pn_elif && is_null pn_else then skip else emit (E_jump l_end))
        (compile_elif l_end (mp_parse_node_extract_list pn_elif RULE_if_stmt_elif_list) pn_else) ;>
      emit (E_label_assign l_end)))))).

(** [START_BREAK_CONTINUE_BLOCK] and [END_BREAK_CONTINUE_BLOCK] around [body]. *)
Definition break_continue_block (from_for : bool) (body : label -> label -> comp_m) (rest : label -> comp_m) : comp_m :=
  with_comp (fun old =>
    comp_next_label (fun break => comp_next_label (fun continue =>
      update (fun c => with_loop c (Some (break, from_for)) (Some continue) (cur_except_level c)) ;>
      body break continue ;>
      update (fun c => with_loop c (break_label old) (continue_label old) (break_continue_except_level old)) ;>
      rest break))).

Definition compile_while_stmt (nodes : list node) : comp_m :=
  at_node nodes 0 (fun cond => at_node nodes 1 (fun body => at_node nodes 2 (fun pn_else =>
    break_continue_block false
      (fun _ continue =>
        test (mp_parse_node_is_const_false cond) (fun is_false =>
          if is_false then skip
          else
            comp_next_label (fun top =>
              test (mp_parse_node_is_const_true cond) (fun is_true =>
                (if is_true then skip else emit (E_jump continue)) ;>
                emit (E_label_assign top) ;>
                compile_node body ;>
                emit (E_label_assign continue) ;>
                c_if_cond cond true top))))
      (fun break => compile_node pn_else ;> emit (E_label_assign break))))).

(** The step is a small integer. *)
Definition compile_for_stmt_optimised_range (pn_var pn_start pn_end : node) (step : Z) (pn_body pn_else : node) : comp_m :=
  let end_on_stack := negb (is_small_int pn_end) in
  let pop_end := emit E_pop_top ;> if end_on_stack then emit E_pop_top else skip in
  break_continue_block false
    (fun _ continue =>
      comp_next_label (fun top => comp_next_label (fun entry =>
        (if end_on_stack then compile_node pn_end else skip) ;>
        compile_node pn_start ;>
        emit (E_jump entry) ;>
        emit (E_label_assign top) ;>
        emit E_dup_top ;>
        c_assign pn_var ASSIGN_STORE ;>
        compile_node pn_body ;>
        emit (E_label_assign continue) ;>
        compile_node (PN_SMALL_INT step) ;>
        emit (E_binary_op MP_BINARY_OP_INPLACE_ADD) ;>
        emit (E_label_assign entry) ;>
        (if end_on_stack then emit E_dup_top_two ;> emit E_rot_two else emit E_dup_top ;> compile_node pn_end) ;>
        emit (E_binary_op (if 0 <=? step then MP_BINARY_OP_LESS else MP_BINARY_OP_MORE)) ;>
        emit (E_pop_jump_if true top))))
    (fun break =>
      if is_null pn_else then emit (E_label_assign break) ;> pop_end
      else
        pop_end ;>
        compile_node pn_else ;>
        comp_next_label (fun l_end =>
          emit (E_jump l_end) ;>
          emit (E_adjust_stack_size (if end_on_stack then 2 else 1)) ;>
          emit (E_label_assign break) ;>
          pop_end ;>
          emit (E_label_assign l_end))).

(** The start, the end and the step of a call of [range] the compiler can expand:
    the argument nodes that are not standard expressions are left to the call. *)
Definition is_standard_argument (pn : node) : bool :=
  negb (is_kind pn RULE_arglist_star || is_kind pn RULE_arglist_dbl_star || is_kind pn RULE_argument).

Definition range_arguments (pn_it : node) : option (node * node * Z) :=
  match pn_it with
  | PN_STRUCT _ RULE_atom_expr_normal (PN_ID name :: PN_STRUCT _ RULE_trailer_paren (pn_args :: _) :: _) =>
      if negb (bool_decide (name = MP_QSTR_range)) then None
      else
        '(first, last, step) ←
          match mp_parse_node_extract_list pn_args RULE_arglist with
          | [last] => Some (PN_SMALL_INT 0, last, 1)
          | [first; last] => Some (first, last, 1)
          | [first; last; PN_SMALL_INT step] => if step =? 0 then None else Some (first, last, step)
          | _ => None
          end;
        if is_standard_argument first && is_standard_argument last then Some (first, last, step) else None
  | _ => None
  end.

Definition compile_for_stmt (nodes : list node) : comp_m :=
  at_node nodes 0 (fun var => at_node nodes 1 (fun it => at_node nodes 2 (fun body => at_node nodes 3 (fun pn_else =>
    match (match var with PN_ID _ => range_arguments it | _ => None end) with
    | Some (first, last, step) => compile_for_stmt_optimised_range var first last step body pn_else
    | None =>
        break_continue_block true
          (fun _ continue =>
            comp_next_label (fun pop =>
              compile_node it ;>
              emit (E_get_iter true) ;>
              emit (E_label_assign continue) ;>
              emit (E_for_iter pop) ;>
              c_assign var ASSIGN_STORE ;>
              compile_node body ;>
              emit (E_jump continue) ;>
              emit (E_label_assign pop) ;>
              emit E_for_iter_end))
          (fun break => compile_node pn_else ;> emit (E_label_assign break))
    end)))).

(** The exception of a handler and the name it is bound to. *)
Definition handler_name (pn : node) (k : node -> option Z -> comp_m) : comp_m :=
  match pn with
  | PN_STRUCT _ RULE_try_stmt_as_name nodes =>
      at_node nodes 0 (fun pn => at_node nodes 1 (fun name => as_id name (fun q => k pn (Some q))))
  | _ => k pn None
  end.

(** The body of a handler; one that binds a name deletes it at its end. *)
Definition compile_handler_body (local : option Z) (body : node) : comp_m :=
  match local with
  | None => emit E_pop_top ;> compile_node body
  | Some q =>
      compile_store_id q ;>
      comp_next_label (fun l3 =>
        compile_increase_except_level l3 MP_EMIT_SETUP_BLOCK_FINALLY ;>
        compile_node body ;>
        load_none ;>
        emit (E_label_assign l3) ;>
        load_none ;>
        compile_store_id q ;>
        compile_delete_id q ;>
        compile_decrease_except_level)
  end.

(** The handlers; [rest] is what follows them, unless one that catches all is not
    the last. *)
Fixpoint compile_excepts (l2 : label) (excepts : list node) (rest : comp_m) : comp_m :=
  match excepts with
  | [] => rest
  | pn :: excepts => as_struct pn (fun _ kind nodes =>
      if negb (bool_decide (kind = RULE_try_stmt_except)) then fails
      else
        comp_next_label (fun end_finally =>
          let handler local :=
            at_node nodes 1 (fun body =>
              compile_handler_body local body ;>
              emit (E_pop_except_jump l2) ;>
              emit (E_label_assign end_finally) ;>
              emit (E_adjust_stack_size 1) ;>
              compile_excepts l2 excepts rest) in
          at_node nodes 0 (fun pn_exception =>
            if is_null pn_exception then
              match excepts with
              | [] => handler None
              | _ => compile_syntax_error pn ;> compile_decrease_except_level
              end
            else
              handler_name pn_exception (fun pn_exception local =>
                emit E_dup_top ;>
                compile_node pn_exception ;>
                emit (E_binary_op MP_BINARY_OP_EXCEPTION_MATCH) ;>
                emit (E_pop_jump_if false end_finally) ;>
                handler local))))
  end.

Definition compile_try_except (pn_body : node) (pn_excepts : list node) (pn_else : node) : comp_m :=
  comp_next_label (fun l1 => comp_next_label (fun success =>
    compile_increase_except_level l1 MP_EMIT_SETUP_BLOCK_EXCEPT ;>
    compile_node pn_body ;>
    emit (E_pop_except_jump success) ;>
    emit (E_label_assign l1) ;>
    emit E_start_except_handler ;>
    comp_next_label (fun l2 =>
      compile_excepts l2 pn_excepts
        (compile_decrease_except_level ;>
         emit E_end_except_handler ;>
         emit (E_label_assign success) ;>
         compile_node pn_else ;>
         emit (E_label_assign l2))))).

Definition compile_try_finally (pn_body : node) (pn_except : list node) (pn_else pn_finally : node) : comp_m :=
  comp_next_label (fun l_finally_block =>
    compile_increase_except_level l_finally_block MP_EMIT_SETUP_BLOCK_FINALLY ;>
    match pn_except with
    | [] =>
        if is_null pn_else
        then emit (E_adjust_stack_size 3) ;> compile_node pn_body ;> emit (E_adjust_stack_size (-3))
        else fails
    | _ => compile_try_except pn_body pn_except pn_else
    end ;>
    load_none ;>
    emit (E_label_assign l_finally_block) ;>
    compile_node pn_finally ;>
    compile_decrease_except_level).

Definition compile_try_stmt (nodes : list node) : comp_m :=
  at_node nodes 0 (fun body => at_node nodes 1 (fun pn =>
    match pn with
    | PN_STRUCT _ RULE_try_stmt_finally nodes2 => at_node nodes2 0 (fun fin => compile_try_finally body [] PN_NULL fin)
    | PN_STRUCT _ RULE_try_stmt_except_and_more nodes2 =>
        at_node nodes2 0 (fun excepts => at_node nodes2 1 (fun pn_else => at_node nodes2 2 (fun fin =>
          let excepts := mp_parse_node_extract_list excepts RULE_try_stmt_except_list in
          if is_null fin then compile_try_except body excepts pn_else
          else as_struct fin (fun _ _ nodes3 => at_node nodes3 0 (fun fin =>
            compile_try_finally body excepts pn_else fin)))))
    | PN_STRUCT _ _ _ => compile_try_except body (mp_parse_node_extract_list pn RULE_try_stmt_except_list) PN_NULL
    | _ => fails
    end)).

Fixpoint compile_with_stmt_helper (nodes : list node) (body : node) : comp_m :=
  match nodes with
  | [] => compile_node body
  | pn :: nodes =>
      comp_next_label (fun l_end =>
        match pn with
        | PN_STRUCT _ RULE_with_item items =>
            at_node items 0 compile_node ;>
            compile_increase_except_level l_end MP_EMIT_SETUP_BLOCK_WITH ;>
            at_node items 1 (fun pn => c_assign pn ASSIGN_STORE)
        | _ =>
            compile_node pn ;>
            compile_increase_except_level l_end MP_EMIT_SETUP_BLOCK_WITH ;>
            emit E_pop_top
        end ;>
        compile_with_stmt_helper nodes body ;>
        emit (E_with_cleanup l_end) ;>
        compile_decrease_except_level)
  end.

Definition compile_with_stmt (nodes : list node) : comp_m :=
  at_node nodes 0 (fun items => at_node nodes 1 (fun body =>
    match mp_parse_node_extract_list items RULE_with_stmt_list with
    | [] => fails
    | items => compile_with_stmt_helper items body
    end)).

(** ** Expression statements *)

(** A leaf other than a name, or a constant object. *)
Definition is_lonely_constant (pn : node) : bool :=
  match pn with PN_SMALL_INT _ | PN_STRING _ | PN_TOKEN _ | PN_CONST _ _ => true | _ => false end.

Definition compile_plain_assign (lhs rhs : node) : comp_m :=
  let store := compile_node rhs ;> c_assign lhs ASSIGN_STORE in
  match rhs, lhs with
  | PN_STRUCT _ RULE_testlist_star_expr [r0; r1], PN_STRUCT _ RULE_testlist_star_expr [l0; l1] =>
      if is_kind l0 RULE_star_expr || is_kind l1 RULE_star_expr then store
      else
        compile_node r0 ;> compile_node r1 ;> emit E_rot_two ;> c_assign l0 ASSIGN_STORE ;> c_assign l1 ASSIGN_STORE
  | _, _ => store
  end.

(** The targets after the first one. *)
Fixpoint assign_list_loop (lhs : list node) : comp_m :=
  match lhs with
  | [] => skip
  | [pn] => c_assign pn ASSIGN_STORE
  | pn :: lhs => emit E_dup_top ;> c_assign pn ASSIGN_STORE ;> assign_list_loop lhs
  end.

Definition compile_assign_list (lhs : node) (nodes : list node) : comp_m :=
  match list.last nodes with
  | None => fails
  | Some rhs =>
      let others := take (length nodes - 1) nodes in
      compile_node rhs ;>
      match others with [] => skip | _ => emit E_dup_top end ;>
      c_assign lhs ASSIGN_STORE ;>
      assign_list_loop others
  end.

(** [x: y], which in a function makes [x] a local. *)
Definition compile_annotation (lhs : node) : comp_m :=
  update (fun c =>
    match lhs with
    | PN_ID s =>
        if bool_decide (kind (scope_cur c) = SCOPE_FUNCTION)
        then with_scope c (cur_except_level c) (fst (scope_find_or_add_id (scope_cur c) (qst_of s) ID_INFO_KIND_LOCAL))
        else c
    | _ => c
    end).

Definition compile_expr_stmt (nodes : list node) : comp_m :=
  at_node nodes 0 (fun lhs => at_node nodes 1 (fun pn_rhs =>
    match pn_rhs with
    | PN_NULL =>
        with_comp (fun c =>
          if is_repl c && bool_decide (kind (scope_cur c) = SCOPE_MODULE) then
            compile_load_id (qst_of MP_QSTR___repl_print__) ;>
            compile_node lhs ;>
            emit (E_call_function 1 0 false) ;>
            emit E_pop_top
          else if is_lonely_constant lhs then skip
          else compile_node lhs ;> emit E_pop_top)
    | PN_STRUCT _ RULE_annassign nodes1 =>
        at_node nodes1 1 (fun rhs => if is_null rhs then compile_annotation lhs else compile_plain_assign lhs rhs)
    | PN_STRUCT _ RULE_expr_stmt_augassign nodes1 =>
        at_node nodes1 0 (fun op => at_node nodes1 1 (fun rhs =>
          c_assign lhs ASSIGN_AUG_LOAD ;>
          compile_node rhs ;>
          as_token op (fun tok => emit_op (op_from tokens_from_pipe_equal MP_BINARY_OP_INPLACE_OR tok) E_binary_op) ;>
          c_assign lhs ASSIGN_AUG_STORE))
    | PN_STRUCT _ RULE_expr_stmt_assign_list nodes1 => compile_assign_list lhs nodes1
    | _ => compile_plain_assign lhs pn_rhs
    end)).

Definition compile_namedexpr (nodes : list node) : comp_m :=
  at_node nodes 0 (fun pn_name => at_node nodes 1 (fun pn_expr => compile_namedexpr_helper pn_name pn_expr)).

(** ** The table of the rules *)

(** [compile_function]; the rules of the constructs that are not modelled, and the
    rules that have no function, fail. *)
Definition compile_function (pn : node) (kind : rule_id) (nodes : list node) : comp_m :=
  match kind with
  | RULE_file_input | RULE_file_input_2 | RULE_simple_stmt_2 | RULE_pass_stmt | RULE_suite_block_stmts =>
      compile_generic_all_nodes nodes
  | RULE_testlist_star_expr | RULE_subscriptlist | RULE_testlist => compile_generic_tuple nodes
  | RULE_expr_stmt => compile_expr_stmt nodes
  | RULE_del_stmt => compile_del_stmt nodes
  | RULE_break_stmt => compile_break_cont_stmt pn true
  | RULE_continue_stmt => compile_break_cont_stmt pn false
  | RULE_return_stmt => compile_return_stmt pn nodes
  | RULE_yield_stmt => compile_yield_stmt nodes
  | RULE_raise_stmt => compile_raise_stmt nodes
  | RULE_assert_stmt => compile_assert_stmt nodes
  | RULE_if_stmt => compile_if_stmt nodes
  | RULE_while_stmt => compile_while_stmt nodes
  | RULE_for_stmt => compile_for_stmt nodes
  | RULE_try_stmt => compile_try_stmt nodes
  | RULE_with_stmt => compile_with_stmt nodes
  | RULE_namedexpr_test => compile_namedexpr nodes
  | RULE_test_if_expr => compile_test_if_expr nodes
  | RULE_or_test => compile_or_and_test true nodes
  | RULE_and_test => compile_or_and_test false nodes
  | RULE_not_test_2 => compile_not_test_2 nodes
  | RULE_comparison => compile_comparison nodes
  | RULE_star_expr => compile_star_expr pn
  | RULE_expr | RULE_xor_expr | RULE_and_expr => compile_binary_op kind nodes
  | RULE_shift_expr | RULE_arith_expr | RULE_term => compile_term nodes
  | RULE_factor_2 => compile_factor_2 nodes
  | RULE_power => compile_power nodes
  | RULE_atom_expr_normal => compile_atom_expr_normal nodes
  | RULE_atom_paren => compile_atom_paren nodes
  | RULE_atom_bracket => compile_atom_bracket nodes
  | RULE_atom_brace => compile_atom_brace_helper nodes true
  | RULE_trailer_paren => at_node nodes 0 (fun pn => compile_trailer_paren_helper pn false 0)
  | RULE_trailer_bracket => compile_trailer_bracket nodes
  | RULE_trailer_period => compile_trailer_period nodes
  | RULE_subscript_2 | RULE_subscript_3 => compile_subscript kind nodes
  | RULE_dictorsetmaker_item => compile_dictorsetmaker_item nodes
  | RULE_yield_expr => compile_yield_expr pn nodes
  | _ => fails
  end.

Definition compile_node_body (pn : node) : comp_m :=
  match pn with
  | PN_NULL => skip
  | PN_SMALL_INT arg => emit (E_load_const_small_int arg)
  | PN_ID s => compile_load_id (qst_of s)
  | PN_STRING s => emit (E_load_const_str (qst_of s))
  | PN_TOKEN t => if bool_decide (t = MP_TOKEN_NEWLINE) then skip else emit (E_load_const_tok t)
  | PN_CONST line o => emit (E_set_source_line line) ;> emit (E_load_const_obj o)
  | PN_STRUCT line kind nodes => emit (E_set_source_line line) ;> compile_function pn kind nodes
  end.

End compile_functions.

(** ** The recursion

    The fuel is more than twice the depth of the tree: a condition that is not a
    logical operator is compiled as an expression, at the same node. *)

Fixpoint compile_node (fuel : nat) (pn : node) {struct fuel} : comp_m :=
  match fuel with
  | O => fails
  | S fuel => compile_node_body (compile_node fuel) (c_if_cond fuel) (c_assign fuel) (c_del_stmt fuel) pn
  end
with c_if_cond (fuel : nat) (pn : node) (jump_if : bool) (l : label) {struct fuel} : comp_m :=
  match fuel with O => fails | S fuel => c_if_cond_body (compile_node fuel) (c_if_cond fuel) pn jump_if l end
with c_assign (fuel : nat) (pn : node) (k : assign_kind_t) {struct fuel} : comp_m :=
  match fuel with O => fails | S fuel => c_assign_body (compile_node fuel) (c_assign fuel) pn k end
with c_del_stmt (fuel : nat) (pn : node) {struct fuel} : comp_m :=
  match fuel with O => fails | S fuel => c_del_stmt_body (compile_node fuel) (c_del_stmt fuel) pn end.

(** ** Parameters *)

Definition add_pos_arg (s : scope_t) (have_star : bool) : scope_t :=
  {| kind := kind s; simple_name := simple_name s; scope_flags := scope_flags s;
     num_pos_args := if have_star then num_pos_args s else num_pos_args s + 1;
     num_kwonly_args := if have_star then num_kwonly_args s + 1 else num_kwonly_args s;
     num_def_pos_args := num_def_pos_args s; num_locals := num_locals s; stack_size := stack_size s;
     exc_stack_size := exc_stack_size s; id_info := id_info s |}.

Definition update_scope (f : scope_t -> scope_t) : comp_m :=
  update (fun c => with_scope c (cur_except_level c) (f (scope_cur c))).

Definition add_flag (flag : Z) : comp_m := update_scope (fun s => with_flags s (Z.lor (scope_flags s) flag)).

(** The variable of a parameter. *)
Definition add_param (pn : node) (qst flags : Z) : comp_m :=
  with_comp (fun c =>
    let '(s, (n, i)) := scope_find_or_add_id (scope_cur c) qst ID_INFO_KIND_UNDECIDED in
    update_scope (fun _ => s) ;>
    if negb (bool_decide (id_kind i = ID_INFO_KIND_UNDECIDED)) then compile_syntax_error pn
    else update_scope (fun s => with_id_info s (alter (fun i =>
      {| id_kind := ID_INFO_KIND_LOCAL; id_flags := flags; local_num := local_num i; id_qst := id_qst i |}) n (id_info s)))).

Definition compile_scope_func_lambda_param (pn_name pn_star pn_dbl_star : rule_id) (pn : node) : comp_m :=
  let leaf_arg nodes k := at_node nodes 0 (fun name => as_id name k) in
  with_comp (fun c =>
    if negb (Z.land (scope_flags (scope_cur c)) MP_SCOPE_FLAG_VARKEYWORDS =? 0) then compile_syntax_error pn
    else
      let count := update_scope (fun s => add_pos_arg s (have_star c)) in
      match pn with
      | PN_ID s => count ;> add_param pn (qst_of s) ID_FLAG_IS_PARAM
      | PN_STRUCT _ kind nodes =>
          if bool_decide (kind = pn_name) then leaf_arg nodes (fun q => count ;> add_param pn q ID_FLAG_IS_PARAM)
          else if bool_decide (kind = pn_star) then
            if have_star c then compile_syntax_error pn
            else
              update (fun c => with_have_star c true) ;>
              at_node nodes 0 (fun pn0 =>
                let named q :=
                  add_flag MP_SCOPE_FLAG_VARARGS ;> add_param pn q (Z.lor ID_FLAG_IS_PARAM ID_FLAG_IS_STAR_PARAM) in
                match pn0 with
                | PN_NULL => skip
                | PN_ID s => named (qst_of s)
                | PN_STRUCT _ RULE_tfpdef nodes => leaf_arg nodes named
                | _ => fails
                end)
          else if bool_decide (kind = pn_dbl_star) then
            leaf_arg nodes (fun q =>
              add_flag MP_SCOPE_FLAG_VARKEYWORDS ;> add_param pn q (Z.lor ID_FLAG_IS_PARAM ID_FLAG_IS_DBL_STAR_PARAM))
          else fails
      | _ => fails
      end).

Definition compile_scope_func_param : node -> comp_m :=
  compile_scope_func_lambda_param RULE_typedargslist_name RULE_typedargslist_star RULE_typedargslist_dbl_star.

Definition compile_scope_lambda_param : node -> comp_m :=
  compile_scope_func_lambda_param RULE_varargslist_name RULE_varargslist_star RULE_varargslist_dbl_star.

(** ** Scopes *)

Definition in_scope_only (m : comp_m) : comp_m :=
  with_comp (fun c => if bool_decide (comp_pass c = MP_PASS_SCOPE) then m else skip).

(** The body of [compile_scope] for the tree [pn] of a module, a function or a
    lambda. *)
Definition compile_scope_body (fuel : nat) (pn : node) : comp_m :=
  let return_none := load_none ;> emit E_return_value in
  let params nodes i list param :=
    in_scope_only (update (fun c => with_have_star c false) ;>
                   at_node nodes i (fun pn => apply_to_single_or_list pn list param)) in
  with_comp (fun c =>
    match kind (scope_cur c), pn with
    | SCOPE_MODULE, PN_STRUCT _ RULE_eval_input nodes =>
        at_node nodes 0 (compile_node fuel) ;> emit E_return_value
    | SCOPE_MODULE, _ => compile_node fuel pn ;> return_none
    | SCOPE_FUNCTION, PN_STRUCT _ RULE_funcdef nodes =>
        params nodes 1%nat RULE_typedargslist compile_scope_func_param ;>
        at_node nodes 3 (compile_node fuel) ;>
        return_none
    | SCOPE_LAMBDA, PN_STRUCT line _ nodes =>
        emit (E_set_source_line line) ;>
        params nodes 0%nat RULE_varargslist compile_scope_lambda_param ;>
        at_node nodes 1 (compile_node fuel) ;>
        with_comp (fun c =>
          if Z.land (scope_flags (scope_cur c)) MP_SCOPE_FLAG_GENERATOR =? 0 then skip
          else emit E_pop_top ;> load_none) ;>
        emit E_return_value
    | _, _ => fails
    end).

(** The state at the start of a pass over a scope. *)
Definition start_pass (c : compiler_t) (p : pass_kind_t) (s : scope_t) : compiler_t :=
  {| is_repl := is_repl c; comp_pass := p; compile_error := compile_error c; next_label := 0;
     have_star := have_star c; break_label := break_label c; continue_label := continue_label c;
     cur_except_level := cur_except_level c; break_continue_except_level := break_continue_except_level c;
     scope_cur := if bool_decide (p = MP_PASS_SCOPE) then with_stack_sizes s 0 0 else s |}.

(** A pass, which ends with all its blocks closed. *)
Definition compile_scope (fuel : nat) (c : compiler_t) (s : scope_t) (pn : node) (p : pass_kind_t) :
    option (compiler_t * list call) :=
  '(c, calls) ← compile_scope_body fuel pn (start_pass c p s);
  if cur_except_level c =? 0 then Some (c, calls) else None.

(** ** A module

    The passes over a scope, by [mp_compile_to_raw_code]: the compiler and the
    emitter share the scope, the size of the stack being of the latter. *)
Context `{ConstFloats F}.

Definition compile_pass (fuel : nat) (c : compiler_t) (e : emit_t F) (s : scope_t) (pn : node) (p : pass_kind_t) :
    option (compiler_t * emit_t F * scope_t * pass_result) :=
  '(c, cs) ← compile_scope fuel c s pn p;
  '(e, r) ← emit_pass opt_level (qst_of (bytes "*")) e p (if bool_decide (p = MP_PASS_SCOPE) then with_stack_sizes s 0 0 else s) cs;
  Some (c, e, with_stack_sizes (scope_cur c) (stack_size (scope e)) (exc_stack_size (scope_cur c)), r).

Inductive compiled := COMPILE_ERROR (line : Z) | COMPILE_OVERFLOW | COMPILED (e : emit_t F) (s : scope_t).

(** The passes that write the code, until the emitter is satisfied. *)
Fixpoint emit_until (passes fuel : nat) (c : compiler_t) (e : emit_t F) (s : scope_t) (pn : node) :
    option (compiler_t * emit_t F * scope_t * pass_result) :=
  match passes with
  | O => None
  | S passes =>
      '(c, e, s, r) ← compile_pass fuel c e s pn MP_PASS_EMIT;
      match r with PASS_AGAIN => emit_until passes fuel c e s pn | _ => Some (c, e, s, r) end
  end.

(** The error is of the line of the tree when it has none of its own. *)
Definition error_line (line : Z) (pn : node) : Z := if line =? 0 then default 0 (node_line pn) else line.

Definition module_scope : scope_t :=
  {| kind := SCOPE_MODULE; simple_name := qst_of (bytes "<module>"); scope_flags := 0; num_pos_args := 0;
     num_kwonly_args := 0; num_def_pos_args := 0; num_locals := 0; stack_size := 0; exc_stack_size := 0; id_info := [] |}.

Definition compiler_new (repl : bool) (s : scope_t) : compiler_t :=
  {| is_repl := repl; comp_pass := MP_PASS_SCOPE; compile_error := None; next_label := 0; have_star := false;
     break_label := None; continue_label := None; cur_except_level := 0; break_continue_except_level := 0;
     scope_cur := s |}.

(** [mp_compile_to_raw_code] of a tree that makes no scope but that of the module. *)
Definition mp_compile_to_raw_code (passes fuel : nat) (repl : bool) (pn : node) : option compiled :=
  '(c, e, s, _) ← compile_pass fuel (compiler_new repl module_scope) (emit_bc_new module_scope [] 0) module_scope pn MP_PASS_SCOPE;
  match compile_error c with
  | Some line => Some (COMPILE_ERROR (error_line line pn))
  | None =>
      let s := scope_compute_things (qst_of MP_QSTR___class__) s None in
      let e := with_label_offsets e (replicate (next_label c) None) in
      '(c, e, s, _) ← compile_pass fuel c e s pn MP_PASS_STACK_SIZE;
      match compile_error c with
      | Some line => Some (COMPILE_ERROR (error_line line pn))
      | None =>
          '(c, e, s, _) ← compile_pass fuel c e s pn MP_PASS_CODE_SIZE;
          match compile_error c with
          | Some line => Some (COMPILE_ERROR (error_line line pn))
          | None =>
              '(c, e, s, r) ← emit_until passes fuel c e s pn;
              match compile_error c, r with
              | Some line, _ => Some (COMPILE_ERROR (error_line line pn))
              | None, PASS_OVERFLOW => Some COMPILE_OVERFLOW
              | None, _ => Some (COMPILED e s)
              end
          end
      end
  end.

End compile.
