(* ===== verification/Vm.v ===== *)
(** The interpreter of bytecode, [py/vm.c].

    A frame is what the loop keeps of one invocation of a function: its
    instruction pointer, as an offset into the bytecode, its value stack, its
    local variables and its stack of exception blocks.  [dispatch] executes one
    instruction, [exception_handler] deals with an exception, and
    [mp_execute_bytecode] is the loop.  The objects of the heap and the functions
    of the runtime the instructions call, [mp_load_name] and so on, are those of a
    class: each takes the state of the world and returns it with a value or with
    the exception it raises.

    The array [state] of the source holds the stack from its bottom and the local
    variables from its top; here they are two lists, and a push that would make
    them meet is undefined, as is reading outside of them: the answer is [None]. *)

From Stdlib Require Import ZArith Lia.
From stdpp Require Import base option list numbers.
From S2P Require Import Prelude Mpn Bytecode EmitBc.

(** * Definitions *)

(** An object as the interpreter sees it: the constants, the small integers and the
    qstrs are told from the pointers to the heap. *)
Inductive value (X : Type) :=
  | V_NONE | V_FALSE | V_TRUE | V_SMALL_INT (n : Z) | V_QSTR (q : Z) | V_PTR (x : X).
Arguments V_NONE {X}. Arguments V_FALSE {X}. Arguments V_TRUE {X}. Arguments V_SMALL_INT {X}. Arguments V_QSTR {X}.
Arguments V_PTR {X}.

(** A word of the stack: the null pointer, an object, the address a jump unwinds to,
    the iterator that lives in the four slots of a loop, or one of the slots that
    hold nothing of their own. *)
Inductive slot (X I : Type) := S_NULL | S_VAL (v : value X) | S_IP (ip : Z) | S_ITER (i : I) | S_ANY.
Arguments S_NULL {X I}. Arguments S_VAL {X I}. Arguments S_IP {X I}. Arguments S_ITER {X I}. Arguments S_ANY {X I}.

(** [mp_exc_stack_t]: the depth of the value stack stands for [val_sp]. *)
Record mp_exc_stack_t (X : Type) := {
  handler : Z;
  val_sp : nat;
  with_or_finally : bool;
  prev_exc : option (value X);
}.
Arguments handler {X}. Arguments val_sp {X}. Arguments with_or_finally {X}. Arguments prev_exc {X}.

(** The exceptions the interpreter makes. *)
Inductive vm_error := LOCAL_NAME_ERROR | NO_ACTIVE_EXCEPTION | OPCODE_NOT_IMPLEMENTED.

(** How a generator resumed by [yield from] stops. *)
Inductive mp_vm_return_kind_t := MP_VM_RETURN_NORMAL | MP_VM_RETURN_YIELD | MP_VM_RETURN_EXCEPTION.

(** [mp_code_state_t], the stack with its top first; [inject_exc] is the exception
    to raise in a generator. *)
Record frame (X I : Type) := {
  ip : Z;
  stack : list (slot X I);
  fastn : list (slot X I);
  exc_stack : list (mp_exc_stack_t X);
  inject_exc : option (value X);
}.
Arguments ip {X I}. Arguments stack {X I}. Arguments fastn {X I}. Arguments exc_stack {X I}. Arguments inject_exc {X I}.

(** The function: the bytes of its prelude and of its code, the table of constant
    objects, and the sizes of the stacks. *)
Record vm_code (X : Type) := {
  bytecode : list Z;
  obj_table : list (value X);
  stack_max : nat;
  exc_max : nat;
}.
Arguments bytecode {X}. Arguments obj_table {X}. Arguments stack_max {X}. Arguments exc_max {X}.

(** The functions of the runtime. *)
Class Runtime (X I W : Type) := {
  rt A := W -> (value X + A) * W;
  mp_load_name : Z -> rt (value X);
  mp_load_global : Z -> rt (value X);
  mp_store_name : Z -> value X -> rt unit;
  mp_store_global : Z -> value X -> rt unit;
  mp_delete_name : Z -> rt unit;
  mp_delete_global : Z -> rt unit;
  mp_obj_cell_get : value X -> rt (slot X I);
  mp_obj_cell_set : value X -> slot X I -> rt unit;
  mp_load_attr : value X -> Z -> rt (value X);
  mp_store_attr : value X -> Z -> slot X I -> rt unit;
  mp_load_method : value X -> Z -> rt (value X * slot X I);
  mp_load_super_method : Z -> value X -> value X -> rt (value X * slot X I);
  mp_load_build_class : rt (value X);
  mp_obj_subscr : value X -> value X -> rt (value X);
  mp_obj_subscr_store : value X -> value X -> slot X I -> rt unit;
  rt_is_true : value X -> rt bool;
  rt_unary_op : Z -> value X -> rt (value X);
  rt_binary_op : Z -> value X -> value X -> rt (value X);
  mp_getiter : value X -> rt (value X);
  mp_getiter_buf : value X -> rt (I + value X);
  mp_iternext_allow_raise : value X -> rt (option (value X));
  mp_iternext_buf : I -> rt (option (value X) * I);
  mp_obj_new_tuple : list (value X) -> rt (value X);
  mp_obj_new_list : list (value X) -> rt (value X);
  mp_obj_new_dict : Z -> rt (value X);
  mp_obj_new_set : list (value X) -> rt (value X);
  mp_obj_new_slice : value X -> value X -> value X -> rt (value X);
  mp_obj_dict_store : value X -> value X -> value X -> rt unit;
  mp_obj_list_append : value X -> value X -> rt unit;
  mp_obj_set_store : value X -> value X -> rt unit;
  mp_unpack_sequence : value X -> Z -> rt (list (value X));
  mp_unpack_ex : value X -> Z -> rt (list (value X));
  mp_make_function_from_raw_code : Z -> option (slot X I * slot X I) -> rt (value X);
  mp_make_closure_from_raw_code : Z -> Z -> list (slot X I) -> rt (value X);
  mp_call_function_n_kw : value X -> Z -> Z -> list (value X) -> rt (value X);
  mp_call_method_n_kw_var : bool -> Z -> list (slot X I) -> rt (value X);
  mp_make_raise_obj : value X -> rt (value X);
  mp_obj_new_exception_msg : vm_error -> rt (value X);
  mp_resume : value X -> slot X I -> option (value X) -> rt (mp_vm_return_kind_t * value X);
  mp_import_name : Z -> value X -> value X -> rt (value X);
  mp_import_from : value X -> Z -> rt (value X);
  mp_import_all : value X -> rt unit;
  mp_warning : rt unit;
  mp_handle_pending : rt unit;
  mp_obj_get_type : value X -> value X;
  is_stop_iteration : value X -> bool;
  is_generator_exit : value X -> bool;
  is_const_generator_exit : value X -> bool;
  is_exception_instance : value X -> bool;
  mp_obj_exception_get_value : value X -> value X;
  mp_obj_exception_add_traceback : value X -> Z -> Z -> W -> W;
  MP_QSTR___exit__ : Z;
  MP_QSTR___enter__ : Z;
}.

Section vm.
Context {X I W : Type} `{Runtime X I W} (code : vm_code X).
Abbreviation value := (value X).
Abbreviation slot := (slot X I).
Abbreviation frame := (frame X I).
Abbreviation mp_exc_stack_t := (mp_exc_stack_t X).
Implicit Types f : frame.

(** ** Effects *)

(** What runs in the world ends with an exception or an answer, or is undefined. *)
Definition vm (A : Type) : Type := W -> option ((value + A) * W).

Definition ret {A} (a : A) : vm A := fun w => Some (inr a, w).
Definition undefined {A} : vm A := fun _ => None.
Definition vm_raise {A} (e : value) : vm A := fun w => Some (inl e, w).
Definition call {A} (m : rt A) : vm A := fun w => Some (m w).

Definition bind {A B} (m : vm A) (k : A -> vm B) : vm B := fun w =>
  '(r, w) ← m w; match r with inl e => Some (inl e, w) | inr a => k a w end.

Notation "x ←v m ; k" := (bind m (fun x => k)) (at level 20, m at level 100, k at level 200, right associativity).
Notation "' x ←v m ; k" := (bind m (fun x => k)) (at level 20, x pattern, m at level 100, k at level 200, right associativity).

Definition of_option {A} (o : option A) : vm A := match o with Some a => ret a | None => undefined end.

(** ** Frames *)

Definition with_ip f (p : Z) : frame :=
  {| ip := p; stack := stack f; fastn := fastn f; exc_stack := exc_stack f; inject_exc := inject_exc f |}.
Definition with_stack f (s : list slot) : frame :=
  {| ip := ip f; stack := s; fastn := fastn f; exc_stack := exc_stack f; inject_exc := inject_exc f |}.
Definition with_fastn f (l : list slot) : frame :=
  {| ip := ip f; stack := stack f; fastn := l; exc_stack := exc_stack f; inject_exc := inject_exc f |}.
Definition with_exc_stack f (e : list mp_exc_stack_t) : frame :=
  {| ip := ip f; stack := stack f; fastn := fastn f; exc_stack := e; inject_exc := inject_exc f |}.
Definition with_inject_exc f (e : option value) : frame :=
  {| ip := ip f; stack := stack f; fastn := fastn f; exc_stack := exc_stack f; inject_exc := e |}.

(** How an instruction ends: the next one, a branch, after which pending events are
    looked at, an exception raised after the block on top has been popped, and the
    ends of the loop. *)
Inductive flow :=
  | NEXT (f : frame) | BRANCH (f : frame) | RERAISE (f : frame) (e : value)
  | RETURN (v : value) | YIELD (f : frame) (v : value) | EXIT_EXCEPTION (v : value).

(** The bytes from an offset on. *)
Definition bytes_at (p : Z) : list Z := if p <? 0 then [] else drop (Z.to_nat p) (bytecode code).

Definition byte_at (p : Z) : option Z := head (bytes_at p).

Definition decode {A} (d : list Z -> option (A * nat)) f : vm (A * frame) :=
  '(a, n) ←v of_option (d (bytes_at (ip f))); ret (a, with_ip f (ip f + Z.of_nat n)).

(** The instruction pointer after the byte of the opcode. *)
Definition decode_uint f : vm (Z * frame) := decode DECODE_UINT f.
Definition decode_ulabel f : vm (Z * frame) := decode DECODE_ULABEL f.
Definition decode_slabel f : vm (Z * frame) := decode DECODE_SLABEL f.

Definition PUSH f (s : slot) : vm frame :=
  if (length (stack f) <? stack_max code)%nat then ret (with_stack f (s :: stack f)) else undefined.

Definition PUSH_ALL f (vs : list value) : vm frame :=
  let s := (S_VAL <$> vs) ++ stack f in
  if (length s <=? stack_max code)%nat then ret (with_stack f s) else undefined.

Definition push_next f (v : value) : vm flow := f ←v PUSH f (S_VAL v); ret (NEXT f).

Definition POP f : vm (slot * frame) :=
  match stack f with s :: st => ret (s, with_stack f st) | [] => undefined end.

Definition as_value (s : slot) : vm value := match s with S_VAL v => ret v | _ => undefined end.

Definition POP_VALUE f : vm (value * frame) := '(s, f) ←v POP f; v ←v as_value s; ret (v, f).

(** The [n] slots on top, the deepest first. *)
Definition POP_N f (n : Z) : vm (list slot * frame) :=
  if (0 <=? n) && (n <=? Z.of_nat (length (stack f)))
  then ret (rev (take (Z.to_nat n) (stack f)), with_stack f (drop (Z.to_nat n) (stack f))) else undefined.

Definition as_values (l : list slot) : vm (list value) :=
  of_option (mapM (fun s => match s with S_VAL v => Some v | _ => None end) l).

Definition fast f (n : Z) : vm slot := if n <? 0 then undefined else of_option (fastn f !! Z.to_nat n).

Definition set_fast f (n : Z) (s : slot) : vm frame :=
  if (0 <=? n) && (n <? Z.of_nat (length (fastn f))) then ret (with_fastn f (<[Z.to_nat n := s]> (fastn f))) else undefined.

Definition raise_new {A} (k : vm_error) : vm A := e ←v call (mp_obj_new_exception_msg k); vm_raise e.

(** [load_check]. *)
Definition load_check f (s : slot) : vm flow :=
  match s with S_NULL => raise_new LOCAL_NAME_ERROR | _ => f ←v PUSH f s; ret (NEXT f) end.

Definition mp_call_method_n_kw (n_args n_kw : Z) (fn : value) (self : slot) (args : list value) : rt value :=
  match self with
  | S_VAL v => mp_call_function_n_kw fn (n_args + 1) n_kw (v :: args)
  | _ => mp_call_function_n_kw fn n_args n_kw args
  end.

(** ** Blocks *)

Definition PUSH_EXC_BLOCK f (finally : bool) : vm frame :=
  '(ulab, f) ←v decode_ulabel f;
  if (length (exc_stack f) <? exc_max code)%nat then
    ret (with_exc_stack f
      ({| handler := ip f + ulab; val_sp := length (stack f); with_or_finally := finally; prev_exc := None |} :: exc_stack f))
  else undefined.

Definition POP_EXC_BLOCK f : vm frame :=
  match exc_stack f with [] => undefined | _ :: es => ret (with_exc_stack f es) end.

(** The top is the value of a return or the address of a jump, above what the
    finally block that is cancelled left. *)
Definition CANCEL_ACTIVE_FINALLY (st : list slot) : option (list slot) :=
  match st with
  | top :: S_VAL (V_SMALL_INT _) :: _ :: st => Some (top :: st)
  | top :: S_VAL V_NONE :: st => Some (top :: st)
  | top :: S_VAL v :: st => if is_exception_instance v then Some (top :: st) else None
  | _ => None
  end.

(** The loop of [unwind_jump] over the blocks: a finally block that is not active is
    run, with the number of blocks left to unwind. *)
Fixpoint unwind_blocks (at_ip : Z) (n : nat) (unum : Z) (st : list slot) (es : list mp_exc_stack_t) :
    option ((list slot * list mp_exc_stack_t * Z) + (list slot * list mp_exc_stack_t * Z * Z)) :=
  match n with
  | O => Some (inl (st, es, unum))
  | S n =>
      let unum := unum - 1 in
      match es with
      | [] => None
      | e :: es' =>
          if with_or_finally e then
            if at_ip <=? handler e then
              if bool_decide (length st = S (val_sp e)) then Some (inr (st, es, unum, handler e)) else None
            else st ← CANCEL_ACTIVE_FINALLY st; unwind_blocks at_ip n unum st es'
          else unwind_blocks at_ip n unum st es'
      end
  end.

(** [unwind_jump]: the address is on top, [unum] the number of blocks to unwind, with
    a bit to pop an iterator. *)
Definition unwind_jump f (unum : Z) : vm flow :=
  r ←v of_option (unwind_blocks (ip f) (Z.to_nat (Z.land unum 127)) unum (stack f) (exc_stack f));
  match r with
  | inr (st, es, unum, h) =>
      f ←v PUSH (with_exc_stack (with_stack f st) es) (S_VAL (V_SMALL_INT unum)); ret (NEXT (with_ip f h))
  | inl (S_IP dest :: st, es, unum) =>
      let f := with_ip (with_exc_stack f es) dest in
      if unum =? 0 then ret (BRANCH (with_stack f st))
      else if (4 <=? length st)%nat then ret (BRANCH (with_stack f (drop 4 st))) else undefined
  | _ => undefined
  end.

(** The loop of [unwind_return]: the value to return is on top. *)
Fixpoint return_blocks (at_ip : Z) (st : list slot) (es : list mp_exc_stack_t) :
    option (list slot + (list slot * list mp_exc_stack_t * Z)) :=
  match es with
  | [] => Some (inl st)
  | e :: es' =>
      if with_or_finally e then
        if at_ip <=? handler e then
          match st with
          | v :: below =>
              if (val_sp e <=? length below)%nat
              then Some (inr (v :: drop (length below - val_sp e) below, es, handler e)) else None
          | [] => None
          end
        else st ← CANCEL_ACTIVE_FINALLY st; return_blocks at_ip st es'
      else return_blocks at_ip st es'
  end.

Definition unwind_return f : vm flow :=
  r ←v of_option (return_blocks (ip f) (stack f) (exc_stack f));
  match r with
  | inr (st, es, h) =>
      f ←v PUSH (with_exc_stack (with_stack f st) es) (S_VAL (V_SMALL_INT (-1))); ret (NEXT (with_ip f h))
  | inl (S_VAL v :: _) => ret (RETURN v)
  | inl _ => undefined
  end.

(** ** Instructions

    Each takes the frame with the instruction pointer after the opcode. *)

Definition op_load_const (v : value) f : vm flow := push_next f v.

Definition op_load_const_small_int f : vm flow := '(n, f) ←v decode DECODE_INT f; push_next f (V_SMALL_INT (wraps 31 n)).

Definition op_load_const_string f : vm flow := '(q, f) ←v decode_uint f; push_next f (V_QSTR q).

Definition op_load_const_obj f : vm flow :=
  '(n, f) ←v decode_uint f; v ←v of_option (obj_table code !! Z.to_nat n); push_next f v.

Definition op_load_null f : vm flow := f ←v PUSH f S_NULL; ret (NEXT f).

Definition op_load_fast_n f : vm flow := '(n, f) ←v decode_uint f; s ←v fast f n; load_check f s.

Definition fast_cell f (n : Z) : vm value := s ←v fast f n; as_value s.

Definition op_load_deref f : vm flow :=
  '(n, f) ←v decode_uint f; c ←v fast_cell f n; s ←v call (mp_obj_cell_get c); load_check f s.

(** [mp_load_name], [mp_load_global] and [mp_load_build_class]. *)
Definition op_load (load : Z -> rt value) f : vm flow :=
  '(q, f) ←v decode_uint f; v ←v call (load q); push_next f v.

Definition op_load_build_class f : vm flow := v ←v call mp_load_build_class; push_next f v.

Definition op_load_attr f : vm flow :=
  '(q, f) ←v decode_uint f; '(top, f) ←v POP_VALUE f; v ←v call (mp_load_attr top q); push_next f v.

Definition op_load_method f : vm flow :=
  '(q, f) ←v decode_uint f; '(top, f) ←v POP_VALUE f; '(m, self) ←v call (mp_load_method top q);
  f ←v PUSH f (S_VAL m); f ←v PUSH f self; ret (NEXT f).

(** The stack holds [super], the class and the instance. *)
Definition op_load_super_method f : vm flow :=
  '(q, f) ←v decode_uint f; '(self, f) ←v POP_VALUE f; '(cls, f) ←v POP_VALUE f; '(_, f) ←v POP f;
  '(m, self) ←v call (mp_load_super_method q cls self);
  f ←v PUSH f (S_VAL m); f ←v PUSH f self; ret (NEXT f).

Definition op_load_subscr f : vm flow :=
  '(index, f) ←v POP_VALUE f; '(base, f) ←v POP_VALUE f; v ←v call (mp_obj_subscr base index); push_next f v.

Definition op_store_fast_n f : vm flow := '(n, f) ←v decode_uint f; '(s, f) ←v POP f; f ←v set_fast f n s; ret (NEXT f).

Definition op_store_deref f : vm flow :=
  '(n, f) ←v decode_uint f; c ←v fast_cell f n; '(s, f) ←v POP f; _ ←v call (mp_obj_cell_set c s); ret (NEXT f).

(** [mp_store_name] and [mp_store_global]. *)
Definition op_store (store : Z -> value -> rt unit) f : vm flow :=
  '(q, f) ←v decode_uint f; '(v, f) ←v POP_VALUE f; _ ←v call (store q v); ret (NEXT f).

Definition op_store_attr f : vm flow :=
  '(q, f) ←v decode_uint f; '(base, f) ←v POP_VALUE f; '(s, f) ←v POP f; _ ←v call (mp_store_attr base q s);
  ret (NEXT f).

Definition op_store_subscr f : vm flow :=
  '(index, f) ←v POP_VALUE f; '(base, f) ←v POP_VALUE f; '(s, f) ←v POP f;
  _ ←v call (mp_obj_subscr_store base index s); ret (NEXT f).

Definition op_delete_fast f : vm flow :=
  '(n, f) ←v decode_uint f; s ←v fast f n;
  match s with S_NULL => raise_new LOCAL_NAME_ERROR | _ => f ←v set_fast f n S_NULL; ret (NEXT f) end.

Definition op_delete_deref f : vm flow :=
  '(n, f) ←v decode_uint f; c ←v fast_cell f n; s ←v call (mp_obj_cell_get c);
  match s with S_NULL => raise_new LOCAL_NAME_ERROR | _ => _ ←v call (mp_obj_cell_set c S_NULL); ret (NEXT f) end.

(** [mp_delete_name] and [mp_delete_global]. *)
Definition op_delete (del : Z -> rt unit) f : vm flow := '(q, f) ←v decode_uint f; _ ←v call (del q); ret (NEXT f).

(** [DUP_TOP], [DUP_TOP_TWO], [POP_TOP], [ROT_TWO] and [ROT_THREE]. *)
Definition op_stack (g : list slot -> option (list slot)) f : vm flow :=
  st ←v of_option (g (stack f));
  if (length st <=? stack_max code)%nat then ret (NEXT (with_stack f st)) else undefined.

Definition dup_top (st : list slot) := match st with a :: st => Some (a :: a :: st) | _ => None end.
Definition dup_top_two (st : list slot) := match st with a :: b :: st => Some (a :: b :: a :: b :: st) | _ => None end.
Definition pop_top (st : list slot) := match st with _ :: st => Some st | _ => None end.
Definition rot_two (st : list slot) := match st with a :: b :: st => Some (b :: a :: st) | _ => None end.
Definition rot_three (st : list slot) := match st with a :: b :: c :: st => Some (b :: c :: a :: st) | _ => None end.

(** ** Jumps *)

Definition op_jump f : vm flow := '(slab, f) ←v decode_slabel f; ret (BRANCH (with_ip f (ip f + slab))).

Definition op_pop_jump_if (cond : bool) f : vm flow :=
  '(slab, f) ←v decode_slabel f; '(v, f) ←v POP_VALUE f; b ←v call (rt_is_true v);
  ret (BRANCH (if Bool.eqb b cond then with_ip f (ip f + slab) else f)).

Definition op_jump_if_or_pop (cond : bool) f : vm flow :=
  '(ulab, f) ←v decode_ulabel f; '(v, popped) ←v POP_VALUE f; b ←v call (rt_is_true v);
  ret (BRANCH (if Bool.eqb b cond then with_ip f (ip f + ulab) else popped)).

Definition op_unwind_jump f : vm flow :=
  '(slab, f) ←v decode_slabel f; f' ←v PUSH f (S_IP (ip f + slab)); n ←v of_option (byte_at (ip f));
  if (length (stack f') <? stack_max code)%nat then unwind_jump f' n else undefined.

Definition op_pop_except_jump f : vm flow :=
  f ←v POP_EXC_BLOCK f; '(ulab, f) ←v decode_ulabel f; ret (BRANCH (with_ip f (ip f + ulab))).

(** ** Blocks *)

Definition op_setup_except (finally : bool) f : vm flow := f ←v PUSH_EXC_BLOCK f finally; ret (NEXT f).

(** The methods [__exit__], with its object, and [__enter__] are loaded above the
    context manager, and the block is set below the result of the second. *)
Definition op_setup_with f : vm flow :=
  '(obj, f) ←v POP_VALUE f;
  '(exit, exit_self) ←v call (mp_load_method obj MP_QSTR___exit__);
  '(enter, enter_self) ←v call (mp_load_method obj MP_QSTR___enter__);
  f ←v PUSH f (S_VAL exit); f ←v PUSH f exit_self;
  if (length (stack f) + 2 <=? stack_max code)%nat then
    v ←v call (mp_call_method_n_kw 0 0 enter enter_self []);
    f ←v PUSH_EXC_BLOCK f true; push_next f v
  else undefined.

(** The call of [__exit__], which needs slots above the stack. *)
Definition call_exit f (slots : nat) (exit : value) (self : slot) (a b : value) : vm value :=
  if (length (stack f) + slots <=? stack_max code)%nat
  then call (mp_call_method_n_kw 3 0 exit self [a; b; V_NONE]) else undefined.

Definition op_with_cleanup f : vm flow :=
  match stack f with
  | S_VAL V_NONE :: self :: S_VAL exit :: st =>
      _ ←v call_exit f 2 exit self V_NONE V_NONE; ret (NEXT (with_stack f (S_VAL V_NONE :: st)))
  | S_VAL (V_SMALL_INT n) :: data :: self :: S_VAL exit :: st =>
      _ ←v call_exit f 1 exit self V_NONE V_NONE; ret (NEXT (with_stack f (S_VAL (V_SMALL_INT n) :: data :: st)))
  | S_VAL exc :: self :: S_VAL exit :: st =>
      if is_exception_instance exc then
        v ←v call_exit f 2 exit self (mp_obj_get_type exc) exc;
        b ←v call (rt_is_true v);
        ret (NEXT (with_stack f ((if b then S_VAL V_NONE else S_VAL exc) :: st)))
      else undefined
  | _ => undefined
  end.

Definition op_end_finally f : vm flow :=
  f ←v POP_EXC_BLOCK f; '(top, f') ←v POP_VALUE f;
  match top with
  | V_NONE => ret (NEXT f')
  | V_SMALL_INT cause => if cause <? 0 then unwind_return f' else unwind_jump f' cause
  | exc => if is_exception_instance exc then ret (RERAISE f exc) else undefined
  end.

(** ** Iteration *)

Definition op_get_iter f : vm flow := '(v, f) ←v POP_VALUE f; it ←v call (mp_getiter v); push_next f it.

Definition op_get_iter_stack f : vm flow :=
  '(v, f) ←v POP_VALUE f;
  if (length (stack f) + 4 <=? stack_max code)%nat then
    it ←v call (mp_getiter_buf v);
    ret (NEXT (with_stack f
      (match it with
       | inl i => [S_ANY; S_ANY; S_ANY; S_ITER i]
       | inr it => [S_ANY; S_ANY; S_VAL it; S_NULL]
       end ++ stack f)))
  else undefined.

Definition op_for_iter f : vm flow :=
  '(ulab, f) ←v decode_ulabel f;
  match stack f with
  | a :: b :: c :: d :: st =>
      let stop := NEXT (with_ip (with_stack f st) (ip f + ulab)) in
      match d, c with
      | S_NULL, S_VAL it =>
          r ←v call (mp_iternext_allow_raise it);
          match r with None => ret stop | Some v => push_next f v end
      | S_ITER i, _ =>
          '(r, i) ←v call (mp_iternext_buf i);
          match r with None => ret stop | Some v => push_next (with_stack f (a :: b :: c :: S_ITER i :: st)) v end
      | _, _ => undefined
      end
  | _ => undefined
  end.

(** ** Building *)

(** [BUILD_TUPLE], [BUILD_LIST] and [BUILD_SET]. *)
Definition op_build (make : list value -> rt value) f : vm flow :=
  '(n, f) ←v decode_uint f; '(items, f) ←v POP_N f n; items ←v as_values items; v ←v call (make items); push_next f v.

Definition op_build_map f : vm flow := '(n, f) ←v decode_uint f; v ←v call (mp_obj_new_dict n); push_next f v.

Definition op_store_map f : vm flow :=
  '(key, f) ←v POP_VALUE f; '(val, f) ←v POP_VALUE f;
  match stack f with
  | S_VAL d :: _ => _ ←v call (mp_obj_dict_store d key val); ret (NEXT f)
  | _ => undefined
  end.

Definition op_build_slice f : vm flow :=
  n ←v of_option (byte_at (ip f)); let f := with_ip f (ip f + 1) in
  '(step, f) ←v (if n =? 3 then POP_VALUE f else ret (V_NONE, f));
  '(stop, f) ←v POP_VALUE f; '(start, f) ←v POP_VALUE f;
  v ←v call (mp_obj_new_slice start stop step); push_next f v.

Definition op_store_comp f : vm flow :=
  '(n, f) ←v decode_uint f;
  obj ←v of_option (stack f !! Z.to_nat (Z.shiftr n 2)); obj ←v as_value obj;
  '(top, f) ←v POP_VALUE f;
  if Z.land n 3 =? 0 then _ ←v call (mp_obj_list_append obj top); ret (NEXT f)
  else if Z.land n 3 =? 1 then '(val, f) ←v POP_VALUE f; _ ←v call (mp_obj_dict_store obj top val); ret (NEXT f)
  else _ ←v call (mp_obj_set_store obj top); ret (NEXT f).

(** The items are pushed the last first. *)
Definition op_unpack_sequence f : vm flow :=
  '(n, f) ←v decode_uint f; '(seq, f) ←v POP_VALUE f; items ←v call (mp_unpack_sequence seq n);
  if Z.of_nat (length items) =? n then f ←v PUSH_ALL f items; ret (NEXT f) else undefined.

Definition op_unpack_ex f : vm flow :=
  '(n, f) ←v decode_uint f; '(seq, f) ←v POP_VALUE f; items ←v call (mp_unpack_ex seq n);
  if Z.of_nat (length items) =? Z.land n 255 + Z.land (Z.shiftr n 8) 255 + 1
  then f ←v PUSH_ALL f items; ret (NEXT f) else undefined.

(** ** Functions *)

Definition op_make_function f : vm flow :=
  '(n, f) ←v decode_uint f; v ←v call (mp_make_function_from_raw_code n None); push_next f v.

Definition op_make_function_defargs f : vm flow :=
  '(n, f) ←v decode_uint f; '(def_dict, f) ←v POP f; '(def_tuple, f) ←v POP f;
  v ←v call (mp_make_function_from_raw_code n (Some (def_tuple, def_dict))); push_next f v.

(** [extra] is two with default arguments, and then a bit is set in the number of
    variables closed over. *)
Definition op_make_closure (extra : Z) f : vm flow :=
  '(n, f) ←v decode_uint f; k ←v of_option (byte_at (ip f)); let f := with_ip f (ip f + 1) in
  '(args, f) ←v POP_N f (extra + k);
  v ←v call (mp_make_closure_from_raw_code n (if extra =? 0 then k else Z.lor 0x100 k) args); push_next f v.

(** The number of slots of the arguments of a call. *)
Definition n_arg_slots (unum : Z) : Z := Z.land unum 0xff + Z.land (Z.shiftr unum 7) 0x1fe.

Definition op_call_function f : vm flow :=
  '(n, f) ←v decode_uint f; '(args, f) ←v POP_N f (n_arg_slots n); args ←v as_values args; '(fn, f) ←v POP_VALUE f;
  v ←v call (mp_call_function_n_kw fn (Z.land n 0xff) (Z.land (Z.shiftr n 8) 0xff) args); push_next f v.

Definition op_call_method f : vm flow :=
  '(n, f) ←v decode_uint f; '(args, f) ←v POP_N f (n_arg_slots n); args ←v as_values args;
  '(self, f) ←v POP f; '(fn, f) ←v POP_VALUE f;
  v ←v call (mp_call_method_n_kw (Z.land n 0xff) (Z.land (Z.shiftr n 8) 0xff) fn self args); push_next f v.

(** [CALL_FUNCTION_VAR_KW] and [CALL_METHOD_VAR_KW]: the function, its object for a
    method, the arguments and the bitmap of the starred ones. *)
Definition op_call_var_kw (have_self : bool) f : vm flow :=
  '(n, f) ←v decode_uint f; '(args, f) ←v POP_N f (n_arg_slots n + (if have_self then 3 else 2));
  v ←v call (mp_call_method_n_kw_var have_self n args); push_next f v.

(** ** Exceptions *)

(** The inner-most exception that a block has caught. *)
Fixpoint last_exception (es : list mp_exc_stack_t) : option value :=
  match es with
  | [] => None
  | e :: es => match prev_exc e with Some v => Some v | None => last_exception es end
  end.

Definition op_raise_last f : vm flow :=
  match last_exception (exc_stack f) with Some v => vm_raise v | None => raise_new NO_ACTIVE_EXCEPTION end.

Definition op_raise_obj f : vm flow := '(v, f) ←v POP_VALUE f; e ←v call (mp_make_raise_obj v); vm_raise e.

Definition op_raise_from f : vm flow :=
  '(from, f) ←v POP_VALUE f;
  _ ←v match from with V_NONE => ret tt | _ => call mp_warning end;
  op_raise_obj f.

(** ** Generators and imports *)

Definition op_yield_value f : vm flow :=
  match stack f with S_VAL v :: _ => ret (YIELD f v) | _ => undefined end.

(** The opcode is executed again when the generator that was resumed yields. *)
Definition op_yield_from f : vm flow :=
  '(send, f) ←v POP f; '(gen, below) ←v POP_VALUE f;
  let throw := inject_exc f in
  let f := with_inject_exc f None in
  '(kind, v) ←v call (mp_resume gen (match throw with Some _ => S_NULL | None => send end) throw);
  match kind with
  | MP_VM_RETURN_YIELD => f ←v PUSH f (S_VAL v); ret (YIELD (with_ip f (ip f - 1)) v)
  | MP_VM_RETURN_NORMAL =>
      let f := with_stack f (S_VAL v :: stack below) in
      match throw with
      | Some e => if is_generator_exit e then e ←v call (mp_make_raise_obj e); ret (RERAISE f e) else ret (NEXT f)
      | None => ret (NEXT f)
      end
  | MP_VM_RETURN_EXCEPTION => if is_stop_iteration v then undefined else ret (RERAISE f v)
  end.

Definition op_import_name f : vm flow :=
  '(q, f) ←v decode_uint f; '(fromlist, f) ←v POP_VALUE f; '(level, f) ←v POP_VALUE f;
  v ←v call (mp_import_name q fromlist level); push_next f v.

Definition op_import_from f : vm flow :=
  '(q, f) ←v decode_uint f;
  match stack f with S_VAL m :: _ => v ←v call (mp_import_from m q); push_next f v | _ => undefined end.

Definition op_import_star f : vm flow := '(m, f) ←v POP_VALUE f; _ ←v call (mp_import_all m); ret (NEXT f).

(** ** The ranges of opcodes that hold their argument *)

Definition op_unary (op : Z) f : vm flow := '(v, f) ←v POP_VALUE f; r ←v call (rt_unary_op op v); push_next f r.

Definition op_binary (op : Z) f : vm flow :=
  '(rhs, f) ←v POP_VALUE f; '(lhs, f) ←v POP_VALUE f; r ←v call (rt_binary_op op lhs rhs); push_next f r.

Definition op_default (op : Z) f : vm flow :=
  if op <? MP_BC_LOAD_CONST_SMALL_INT_MULTI + MP_BC_LOAD_CONST_SMALL_INT_MULTI_NUM then
    push_next f (V_SMALL_INT (op - MP_BC_LOAD_CONST_SMALL_INT_MULTI - MP_BC_LOAD_CONST_SMALL_INT_MULTI_EXCESS))
  else if op <? MP_BC_LOAD_FAST_MULTI + MP_BC_LOAD_FAST_MULTI_NUM then
    s ←v fast f (op - MP_BC_LOAD_FAST_MULTI); load_check f s
  else if op <? MP_BC_STORE_FAST_MULTI + MP_BC_STORE_FAST_MULTI_NUM then
    '(s, f) ←v POP f; f ←v set_fast f (op - MP_BC_STORE_FAST_MULTI) s; ret (NEXT f)
  else if op <? MP_BC_UNARY_OP_MULTI + MP_BC_UNARY_OP_MULTI_NUM then op_unary (op - MP_BC_UNARY_OP_MULTI) f
  else if op <? MP_BC_BINARY_OP_MULTI + MP_BC_BINARY_OP_MULTI_NUM then op_binary (op - MP_BC_BINARY_OP_MULTI) f
  else e ←v call (mp_obj_new_exception_msg OPCODE_NOT_IMPLEMENTED); ret (EXIT_EXCEPTION e).

(** ** The loop *)

(** The labels of the [switch]. *)
Definition entries : list (Z * (frame -> vm flow)) :=
  [(MP_BC_LOAD_CONST_FALSE, op_load_const V_FALSE); (MP_BC_LOAD_CONST_NONE, op_load_const V_NONE);
   (MP_BC_LOAD_CONST_TRUE, op_load_const V_TRUE); (MP_BC_LOAD_CONST_SMALL_INT, op_load_const_small_int);
   (MP_BC_LOAD_CONST_STRING, op_load_const_string); (MP_BC_LOAD_CONST_OBJ, op_load_const_obj);
   (MP_BC_LOAD_NULL, op_load_null); (MP_BC_LOAD_FAST_N, op_load_fast_n); (MP_BC_LOAD_DEREF, op_load_deref);
   (MP_BC_LOAD_NAME, op_load mp_load_name); (MP_BC_LOAD_GLOBAL, op_load mp_load_global);
   (MP_BC_LOAD_ATTR, op_load_attr); (MP_BC_LOAD_METHOD, op_load_method);
   (MP_BC_LOAD_SUPER_METHOD, op_load_super_method); (MP_BC_LOAD_BUILD_CLASS, op_load_build_class);
   (MP_BC_LOAD_SUBSCR, op_load_subscr); (MP_BC_STORE_FAST_N, op_store_fast_n); (MP_BC_STORE_DEREF, op_store_deref);
   (MP_BC_STORE_NAME, op_store mp_store_name); (MP_BC_STORE_GLOBAL, op_store mp_store_global);
   (MP_BC_STORE_ATTR, op_store_attr); (MP_BC_STORE_SUBSCR, op_store_subscr);
   (MP_BC_DELETE_FAST, op_delete_fast); (MP_BC_DELETE_DEREF, op_delete_deref);
   (MP_BC_DELETE_NAME, op_delete mp_delete_name); (MP_BC_DELETE_GLOBAL, op_delete mp_delete_global);
   (MP_BC_DUP_TOP, op_stack dup_top); (MP_BC_DUP_TOP_TWO, op_stack dup_top_two); (MP_BC_POP_TOP, op_stack pop_top);
   (MP_BC_ROT_TWO, op_stack rot_two); (MP_BC_ROT_THREE, op_stack rot_three);
   (MP_BC_JUMP, op_jump); (MP_BC_POP_JUMP_IF_TRUE, op_pop_jump_if true); (MP_BC_POP_JUMP_IF_FALSE, op_pop_jump_if false);
   (MP_BC_JUMP_IF_TRUE_OR_POP, op_jump_if_or_pop true); (MP_BC_JUMP_IF_FALSE_OR_POP, op_jump_if_or_pop false);
   (MP_BC_SETUP_WITH, op_setup_with); (MP_BC_WITH_CLEANUP, op_with_cleanup); (MP_BC_UNWIND_JUMP, op_unwind_jump);
   (MP_BC_SETUP_EXCEPT, op_setup_except false); (MP_BC_SETUP_FINALLY, op_setup_except true);
   (MP_BC_END_FINALLY, op_end_finally); (MP_BC_GET_ITER, op_get_iter); (MP_BC_GET_ITER_STACK, op_get_iter_stack);
   (MP_BC_FOR_ITER, op_for_iter); (MP_BC_POP_EXCEPT_JUMP, op_pop_except_jump);
   (MP_BC_BUILD_TUPLE, op_build mp_obj_new_tuple); (MP_BC_BUILD_LIST, op_build mp_obj_new_list);
   (MP_BC_BUILD_MAP, op_build_map); (MP_BC_STORE_MAP, op_store_map); (MP_BC_BUILD_SET, op_build mp_obj_new_set);
   (MP_BC_BUILD_SLICE, op_build_slice); (MP_BC_STORE_COMP, op_store_comp);
   (MP_BC_UNPACK_SEQUENCE, op_unpack_sequence); (MP_BC_UNPACK_EX, op_unpack_ex);
   (MP_BC_MAKE_FUNCTION, op_make_function); (MP_BC_MAKE_FUNCTION_DEFARGS, op_make_function_defargs);
   (MP_BC_MAKE_CLOSURE, op_make_closure 0); (MP_BC_MAKE_CLOSURE_DEFARGS, op_make_closure 2);
   (MP_BC_CALL_FUNCTION, op_call_function); (MP_BC_CALL_FUNCTION_VAR_KW, op_call_var_kw false);
   (MP_BC_CALL_METHOD, op_call_method); (MP_BC_CALL_METHOD_VAR_KW, op_call_var_kw true);
   (MP_BC_RETURN_VALUE, unwind_return); (MP_BC_RAISE_LAST, op_raise_last); (MP_BC_RAISE_OBJ, op_raise_obj);
   (MP_BC_RAISE_FROM, op_raise_from); (MP_BC_YIELD_VALUE, op_yield_value); (MP_BC_YIELD_FROM, op_yield_from);
   (MP_BC_IMPORT_NAME, op_import_name); (MP_BC_IMPORT_FROM, op_import_from); (MP_BC_IMPORT_STAR, op_import_star)].

Fixpoint entry (op : Z) (l : list (Z * (frame -> vm flow))) : frame -> vm flow :=
  match l with [] => op_default op | (k, h) :: l => if op =? k then h else entry op l end.

(** One instruction. *)
Definition dispatch f : vm flow :=
  op ←v of_option (byte_at (ip f)); entry op entries (with_ip f (ip f + 1)).

(** The line an instruction comes from and the name of its function. *)
Fixpoint skip_uints (n : nat) (bs : list Z) : option (list Z) :=
  match n with O => Some bs | S n => k ← mp_decode_uint_skip bs; skip_uints n (drop k bs) end.

Definition traceback_info (at_ip : Z) : option (Z * Z) :=
  '(sig, k1) ← MP_BC_PRELUDE_SIG_DECODE (bytecode code);
  '(n_info, n_cell, k2) ← MP_BC_PRELUDE_SIZE_DECODE (drop k1 (bytecode code));
  let info := take (Z.to_nat n_info) (drop (k1 + k2) (bytecode code)) in
  let start := Z.of_nat (k1 + k2) + n_info + n_cell in
  '(block_name, _) ← DECODE_UINT info;
  lines ← skip_uints (Z.to_nat (1 + n_pos_args sig + n_kwonly_args sig)) info;
  line ← mp_bytecode_get_source_line lines (at_ip - start);
  Some (line, block_name).

(** Blocks whose handler is running are left. *)
Fixpoint pop_nested (at_ip : Z) (es : list mp_exc_stack_t) : list mp_exc_stack_t :=
  match es with
  | [] => []
  | e :: es' => if handler e <=? at_ip then pop_nested at_ip es' else es
  end.

Inductive handled := RESUME (f : frame) (w : W) | UNCAUGHT (w : W).

(** The exception [e] raised by the instruction at [at_ip]: [f] has its stack of
    blocks, and the stack that was saved when it iterates.  It is given to the
    inner-most block that is not active, or leaves the function. *)
Definition exception_handler f (at_ip : Z) (e : value) (w : W) : option handled :=
  op ← byte_at at_ip;
  if is_stop_iteration e && (op =? MP_BC_FOR_ITER) then
    '(ulab, n) ← DECODE_ULABEL (bytes_at (at_ip + 1));
    Some (RESUME (with_ip (with_stack f (drop 4 (stack f))) (at_ip + 1 + Z.of_nat n + ulab)) w)
  else if is_stop_iteration e && (op =? MP_BC_YIELD_FROM) then
    match stack f with
    | _ :: st => Some (RESUME (with_ip (with_stack f (S_VAL (mp_obj_exception_get_value e) :: st)) (at_ip + 1)) w)
    | [] => None
    end
  else
    w ← (if is_const_generator_exit e || (op =? MP_BC_END_FINALLY) || (op =? MP_BC_RAISE_LAST) then Some w
         else '(line, block_name) ← traceback_info at_ip; Some (mp_obj_exception_add_traceback e line block_name w));
    match pop_nested at_ip (exc_stack f) with
    | [] => Some (UNCAUGHT w)
    | b :: es =>
        let b' := {| handler := handler b; val_sp := val_sp b; with_or_finally := with_or_finally b; prev_exc := Some e |} in
        let depth := length (stack f) in
        if (val_sp b <=? depth)%nat && (val_sp b <? stack_max code)%nat then
          Some (RESUME (with_ip (with_exc_stack (with_stack f (S_VAL e :: drop (depth - val_sp b) (stack f))) (b' :: es))
                          (handler b)) w)
        else None
    end.

Inductive vm_result :=
  | VM_NORMAL (v : value) (w : W) | VM_YIELD (f : frame) (v : value) (w : W) | VM_EXCEPTION (e : value) (w : W).

(** The stack saved in [code_state] when the instruction raises. *)
Definition saved_frame f : frame :=
  let f := with_inject_exc f None in
  if bool_decide (byte_at (ip f) = Some MP_BC_YIELD_FROM) then with_stack f (tail (stack f)) else f.

(** One turn of the loop: the frame and the world to go on with, or how the
    function ends. *)
Definition vm_step f (w : W) : option ((frame * W) + vm_result) :=
  let handle g e w :=
    r ← exception_handler g (ip f) e w;
    Some (match r with RESUME f w => inl (f, w) | UNCAUGHT w => inr (VM_EXCEPTION e w) end) in
  '(r, w) ← (if bool_decide (is_Some (inject_exc f)) && negb (bool_decide (byte_at (ip f) = Some MP_BC_YIELD_FROM))
             then (e ←v of_option (inject_exc f); e ←v call (mp_make_raise_obj e); vm_raise e) w
             else dispatch f w);
  match r with
  | inl e => handle (saved_frame f) e w
  | inr (NEXT f) => Some (inl (f, w))
  | inr (BRANCH g) =>
      match mp_handle_pending w with
      | (inr _, w) => Some (inl (g, w))
      | (inl e, w) => handle g e w
      end
  | inr (RERAISE g e) => handle g e w
  | inr (RETURN v) => Some (inr (VM_NORMAL v w))
  | inr (YIELD g v) => Some (inr (VM_YIELD g v w))
  | inr (EXIT_EXCEPTION e) => Some (inr (VM_EXCEPTION e w))
  end.

(** The loop: [None] is undefined behaviour, [Some None] that the fuel has run out. *)
Fixpoint mp_execute_bytecode (fuel : nat) f (w : W) : option (option vm_result) :=
  match fuel with
  | O => Some None
  | S fuel =>
      r ← vm_step f w;
      match r with inl (f, w) => mp_execute_bytecode fuel f w | inr r => Some (Some r) end
  end.

End vm.
