(* ===== verification/CodeAt.v ===== *)
(** What the last pass of the emitter leaves in memory: a call that comes later
    never changes the bytes, the labels or the constants of the earlier ones, so
    the block that is finally installed holds, at the offset of each call, the
    instruction the call has written. *)

From Stdlib Require Import ZArith Lia.
From stdpp Require Import base option list numbers.
From S2P Require Import Prelude Mpn IntObj Lexer Grammar Parse Bytecode BytecodeProps Scope EmitBc.

(** * Growing states *)

(** The offset of a label only decreases. *)
Definition offset_le (new old : option Z) : Prop :=
  match new, old with Some a, Some b => a <= b | None, None => True | _, _ => False end.

#[export] Instance offset_le_preorder : PreOrder offset_le.
Proof. split; [intros [a|]; cbn; [lia|done]|intros [a|] [b|] [c|]; cbn; try done; lia]. Qed.

Lemma offsets_antisym (a b : list (option Z)) : Forall2 offset_le a b -> Forall2 offset_le b a -> a = b.
Proof.
  induction 1 as [|x y a b Hxy H IH]; intros H'; [by inversion H'|]. inversion H' as [|? ? ? ? Hyx H'']; subst.
  rewrite IH by done. destruct x, y; cbn in *; try done. by replace z0 with z by lia.
Qed.

Section code.
Context {F : Type} `{ConstFloats F} (opt_level : Z).
Abbreviation emit_t := (emit_t F).
Abbreviation call := (emit_call F).
Implicit Types e : emit_t.

(** The offset, in the block, of the next instruction. *)
Definition pc e : Z := code_info_size e + bytecode_offset e.

(** The source information that is already written stays. *)
Definition told e e' : Prop := 0 <= code_info_offset e <= code_info_size e -> 0 <= bytecode_offset e ->
  code_info_offset e <= code_info_offset e' <= code_info_size e' /\
  forall i, 0 <= i < code_info_offset e -> code_base e' !! Z.to_nat i = code_base e !! Z.to_nat i.

Record grows e e' : Prop := {
  g_pass : pass e' = pass e;
  g_info : code_info_size e' = code_info_size e;
  g_offset : bytecode_offset e <= bytecode_offset e';
  g_base : forall i, 0 <= i -> code_info_size e <= i < pc e -> code_base e' !! Z.to_nat i = code_base e !! Z.to_nat i;
  g_overflow : overflow e = true -> overflow e' = true;
  g_stack : stack_size (scope e) <= stack_size (scope e');
  g_consts : const_obj_list e `prefix_of` const_obj_list e';
  g_labels : Forall2 offset_le (label_offsets e') (label_offsets e);
  g_told : told e e';
}.

#[export] Instance grows_preorder : PreOrder grows.
Proof.
  split.
  - intros e. split; try done; try lia. intros Hi _. by split; [lia|].
  - intros e1 e2 e3 [P1 I1 O1 B1 V1 S1 C1 L1 T1] [P2 I2 O2 B2 V2 S2 C2 L2 T2]. split; try (congruence || lia || by auto).
    + intros i H0 Hi. rewrite B2; [by apply B1|done|]. unfold pc in *. lia.
    + by etransitivity.
    + by etransitivity.
    + intros Hi Hb. destruct (T1 Hi Hb) as [H1 E1]. destruct (T2 ltac:(lia) ltac:(lia)) as [H2 E2]. split; [lia|].
      intros i Hj. rewrite E2 by lia. by apply E1.
Qed.

Lemma block_write_ok base pos bs base' : block_write base pos bs = Some base' ->
  0 <= pos /\ (forall i, (i < length bs)%nat -> base' !! Z.to_nat (pos + Z.of_nat i) = bs !! i) /\
  forall i, 0 <= i -> i < pos \/ pos + Z.of_nat (length bs) <= i -> base' !! Z.to_nat i = base !! Z.to_nat i.
Proof.
  unfold block_write. case_match eqn:E; [|done]. apply andb_true_iff in E as [E1%Z.leb_le E2%Z.leb_le].
  intros [= <-]. split; [done|]. assert (length (take (Z.to_nat pos) base) = Z.to_nat pos) as Hl by (rewrite length_take; lia).
  split.
  - intros i Hi. rewrite lookup_app_r, lookup_app_l by (rewrite Hl; lia). f_equal. rewrite Hl. lia.
  - intros i Hi [H0|H0].
    + rewrite lookup_app_l by lia. by rewrite lookup_take_lt by lia.
    + rewrite !lookup_app_r by lia. rewrite lookup_drop. f_equal. lia.
Qed.

(** ** The primitives *)

(** What a write of source information leaves alone. *)
Record same_code e e' : Prop := {
  s_suppress : suppress e' = suppress e;
  s_stack : cur_stack e' = cur_stack e;
  s_offset : bytecode_offset e' = bytecode_offset e;
  s_labels : label_offsets e' = label_offsets e;
}.

#[export] Instance same_code_preorder : PreOrder same_code.
Proof. split; [by intros e|]. intros e1 e2 e3 [] []. split; congruence. Qed.

Ltac same := split; cbn in *; unfold pc in *; cbn in *; try reflexivity; try lia; try done; try by intros;
  try (unfold told; cbn; intros; split; [lia|]; done).

Lemma code_info_grows e bs e' : pass e = MP_PASS_EMIT -> emit_get_cur_to_write_code_info e bs = Some e' ->
  grows e e' /\ same_code e e'.
Proof.
  intros Hp. unfold emit_get_cur_to_write_code_info. rewrite Hp. cbn -[Z.of_nat].
  case_match eqn:E; [|done]. apply Z.leb_le in E. intros (base & Hb & [= <-])%bind_Some.
  apply block_write_ok in Hb as (_ & _ & Hb). split; same.
  - intros i Hi ?. apply Hb; lia.
  - intros Hi _. cbn in *. split; [lia|]. intros i Hj. apply Hb; lia.
Qed.

Lemma code_info_bytes_grows e bs e' : pass e = MP_PASS_EMIT -> emit_write_code_info_bytes e bs = Some e' ->
  grows e e' /\ same_code e e'.
Proof.
  revert e. induction bs as [|b bs IH]; intros e Hp; cbn; [by intros [= <-]; split|].
  intros (e1 & [G1 S1]%code_info_grows & E2)%bind_Some; [|done].
  apply IH in E2 as [G2 S2]; [|by rewrite (g_pass _ _ G1)]. split; by etransitivity.
Qed.

Lemma source_line_grows e line e' : pass e = MP_PASS_EMIT -> mp_emit_bc_set_source_line e opt_level line = Some e' ->
  grows e e' /\ same_code e e'.
Proof.
  intros Hp. unfold mp_emit_bc_set_source_line, emit_write_code_info_bytes_lines.
  case_match; [by intros [= <-]|]. case_match; [|by intros [= <-]].
  intros (e1 & E & [= <-])%bind_Some. apply bind_Some in E as (bs & _ & [G S]%code_info_bytes_grows); [|done].
  split; [etransitivity; [exact G|]|etransitivity; [exact S|]]; same.
Qed.

(** The bytes of an instruction, unless it is never reached. *)
Lemma bytecode_grows e bs e' : pass e = MP_PASS_EMIT -> emit_get_cur_to_write_bytecode e bs = Some e' ->
  grows e e' /\ suppress e' = suppress e /\ cur_stack e' = cur_stack e /\ label_offsets e' = label_offsets e /\
  (if suppress e then e' = e
   else pc e' = pc e + Z.of_nat (length bs) /\ 0 <= pc e /\
        forall i, (i < length bs)%nat -> code_base e' !! Z.to_nat (pc e + Z.of_nat i) = bs !! i).
Proof.
  intros Hp. unfold emit_get_cur_to_write_bytecode. rewrite Hp. cbn -[Z.of_nat].
  destruct (suppress e) eqn:Es; [by intros [= <-]|]. case_match eqn:E; [|done]. apply Z.leb_le in E.
  intros (base & Hb & [= <-])%bind_Some. apply block_write_ok in Hb as (Hpos & Hin & Hout). split.
  - same; [intros i Hi ?; apply Hout; lia|].
    intros Hi ?. cbn in *. split; [lia|]. intros i Hj. apply Hout; lia.
  - repeat split; [done|unfold pc; cbn; lia|exact Hpos|exact Hin].
Qed.

Lemma adjust_grows e d e' : pass e = MP_PASS_EMIT -> mp_emit_bc_adjust_stack_size e d = Some e' ->
  grows e e' /\ suppress e' = suppress e /\ bytecode_offset e' = bytecode_offset e /\ label_offsets e' = label_offsets e /\
  cur_stack e' = cur_stack e + d /\ 0 <= cur_stack e' <= stack_size (scope e') /\ code_base e' = code_base e /\
  overflow e' = overflow e.
Proof.
  intros Hp. unfold mp_emit_bc_adjust_stack_size. rewrite Hp. cbn.
  destruct (0 <=? cur_stack e + d) eqn:E; [|done]. apply Z.leb_le in E.
  intros [= <-]. pose proof (Z.ltb_spec (stack_size (scope e)) (cur_stack e + d)) as Hs.
  destruct (stack_size (scope e) <? cur_stack e + d); inversion Hs; (split; [same|]); cbn; repeat split; try done; try lia.
Qed.

Lemma label_assign_grows e l e' : pass e = MP_PASS_EMIT -> mp_emit_bc_label_assign e l = Some e' ->
  grows e e' /\ suppress e' = false /\ bytecode_offset e' = bytecode_offset e /\ cur_stack e' = cur_stack e /\
  label_offsets e' !! l = Some (Some (bytecode_offset e)).
Proof.
  intros Hp. unfold mp_emit_bc_label_assign. intros (e1 & E1 & E2)%bind_Some.
  apply adjust_grows in E1 as (G & Hs & Hb & Hl & Hc & _); [|done]. rewrite (g_pass _ _ G) in E2. cbn in E2. rewrite Hp in E2.
  cbn in E2. apply bind_Some in E2 as (old & El & E2). case_match eqn:Eo; [|done]. injection E2 as <-. cbn in *.
  assert (l < length (label_offsets e1))%nat as Hlt by by eapply lookup_lt_Some.
  split.
  - etransitivity; [|same].
    + etransitivity; [|exact G]. same.
    + apply Forall2_same_length_lookup. split; [by rewrite length_insert|]. intros i x y.
      destruct (decide (i = l)) as [->|Hne].
      * rewrite list_lookup_insert_eq by done. rewrite El. intros [= <-] [= <-]. destruct old; [|done]. by apply Z.leb_le in Eo.
      * rewrite list_lookup_insert_ne by done. intros -> [= <-]. reflexivity.
  - repeat split; try done; cbn in *; try congruence; try lia. rewrite list_lookup_insert_eq by done. by rewrite Hb.
Qed.

(** ** Calls and the depth of the stack *)

Definition depth_ok e : Prop := 0 <= cur_stack e <= stack_size (scope e).

(** A call or a part of it that changes the depth by [d]. *)
Record emits (d : Z) e e' : Prop := {
  em_grows : grows e e';
  em_stack : cur_stack e' = cur_stack e + d;
  em_depth : depth_ok e -> depth_ok e';
}.

Lemma emits_refl e : emits 0 e e.
Proof. by split; [|lia|]. Qed.

Lemma emits_trans d1 d2 d e1 e2 e3 : emits d1 e1 e2 -> emits d2 e2 e3 -> d = d1 + d2 -> emits d e1 e3.
Proof. intros [] [] ->. split; [by etransitivity|lia|by auto]. Qed.

Lemma emits_pass d e e' : emits d e e' -> pass e = MP_PASS_EMIT -> pass e' = MP_PASS_EMIT.
Proof. intros [G _ _]. by rewrite (g_pass _ _ G). Qed.

Lemma emits_bytes e bs e' : pass e = MP_PASS_EMIT -> emit_get_cur_to_write_bytecode e bs = Some e' -> emits 0 e e'.
Proof.
  intros Hp Hw. pose proof (bytecode_grows e bs e' Hp Hw) as (G & _ & Hc & _). split; [done|lia|].
  unfold depth_ok. rewrite Hc. pose proof (g_stack _ _ G). lia.
Qed.

Lemma emits_adjust e d e' : pass e = MP_PASS_EMIT -> mp_emit_bc_adjust_stack_size e d = Some e' -> emits d e e'.
Proof. intros Hp Hw. pose proof (adjust_grows e d e' Hp Hw) as (G & _ & _ & _ & Hc & Hd & _). by split. Qed.

Lemma emits_suppress b e : emits 0 e (with_suppress e b).
Proof. split; [same|cbn; lia|done]. Qed.

Lemma emits_common e consts cs : const_obj_list e `prefix_of` consts -> emits 0 e (with_common e consts cs).
Proof. intros Hc. split; [|cbn; lia|done]. split; cbn; try done; try lia. intros Hi _. by split; [cbn in *; lia|]. Qed.

Lemma emits_label_assign e l e' : pass e = MP_PASS_EMIT -> mp_emit_bc_label_assign e l = Some e' -> emits 0 e e'.
Proof.
  intros Hp Hw. pose proof (label_assign_grows e l e' Hp Hw) as (G & _ & _ & Hc & _). split; [done|lia|].
  unfold depth_ok. rewrite Hc. pose proof (g_stack _ _ G). lia.
Qed.

Lemma emits_source_line e l e' : pass e = MP_PASS_EMIT -> mp_emit_bc_set_source_line e opt_level l = Some e' -> emits 0 e e'.
Proof.
  intros Hp Hw. pose proof (source_line_grows e l e' Hp Hw) as (G & [_ Hc _ _]). split; [done|lia|].
  unfold depth_ok. rewrite Hc. pose proof (g_stack _ _ G). lia.
Qed.

Lemma emits_bind {A} (m : option A) (k : A -> option emit_t) d e e' :
  (forall a, m = Some a -> k a = Some e' -> emits d e e') -> m ≫= k = Some e' -> emits d e e'.
Proof. intros Hk (a & Ha & E)%bind_Some. by apply (Hk a). Qed.

Lemma emits_byte e d b e' : pass e = MP_PASS_EMIT -> emit_write_bytecode_byte e d b = Some e' -> emits d e e'.
Proof.
  intros Hp (e1 & E1 & E2)%bind_Some. apply emits_adjust in E1; [|done].
  apply emits_bytes in E2; [|by eapply emits_pass]. eapply emits_trans; [done..|lia].
Qed.

Lemma emits_raw_byte e b e' : pass e = MP_PASS_EMIT -> emit_write_bytecode_raw_byte e b = Some e' -> emits 0 e e'.
Proof. intros Hp. by apply emits_bytes. Qed.

Lemma emits_uint e d b n e' : pass e = MP_PASS_EMIT -> emit_write_bytecode_byte_uint e d b n = Some e' -> emits d e e'.
Proof.
  intros Hp (e1 & E1 & E2)%bind_Some. apply emits_byte in E1; [|done]. apply bind_Some in E2 as (bs & _ & E2).
  apply emits_bytes in E2; [|by eapply emits_pass]. eapply emits_trans; [done..|lia].
Qed.

Lemma emits_int e d b n e' : pass e = MP_PASS_EMIT -> emit_write_bytecode_byte_int e d b n = Some e' -> emits d e e'.
Proof.
  intros Hp (e1 & E1 & E2)%bind_Some. apply emits_byte in E1; [|done]. apply bind_Some in E2 as (bs & _ & E2).
  apply emits_bytes in E2; [|by eapply emits_pass]. eapply emits_trans; [done..|lia].
Qed.

Lemma emits_obj e d b o e' : pass e = MP_PASS_EMIT -> emit_write_bytecode_byte_obj e d b o = Some e' -> emits d e e'.
Proof.
  intros Hp. unfold emit_write_bytecode_byte_obj, mp_emit_common_use_const_obj.
  intros ([e1 i] & E1 & E2)%bind_Some. apply bind_Some in E1 as ([j|] & _ & [= <- <-]).
  - by apply emits_uint in E2.
  - apply emits_uint in E2; [|done]. eapply emits_trans; [by apply emits_common, prefix_app_r|exact E2|lia].
Qed.

Lemma emits_child e d b c e' : pass e = MP_PASS_EMIT -> emit_write_bytecode_byte_child e d b c = Some e' -> emits d e e'.
Proof.
  intros Hp E. apply emits_uint in E; [|done]. eapply emits_trans; [by apply emits_common|exact E|lia].
Qed.

Lemma emits_overflow e b : emits 0 e (with_bytecode e (bytecode_offset e) (code_base e) (overflow e || b)).
Proof. split; [|cbn; lia|done]. split; cbn; try done; try lia; [by intros ->|]. intros Hi _. by split; [cbn in *; lia|]. Qed.

Lemma emits_label e d b l e' : pass e = MP_PASS_EMIT -> emit_write_bytecode_byte_label e d b l = Some e' -> emits d e e'.
Proof.
  intros Hp (e1 & E1 & E2)%bind_Some. pose proof (emits_adjust _ _ _ Hp E1) as Em1. pose proof (emits_pass _ _ _ Em1 Hp) as Hp1.
  destruct (suppress e1); [by injection E2 as <-|]. apply bind_Some in E2 as ([size o] & _ & E2).
  apply bind_Some in E2 as ([bs ov] & _ & E2). apply bind_Some in E2 as (e2 & Ew & E2).
  pose proof (emits_bytes _ _ _ Hp1 Ew) as Em2. rewrite (emits_pass _ _ _ Em2 Hp1), bool_decide_eq_true_2 in E2 by done.
  cbn in E2. eapply emits_trans; [exact Em1| |symmetry; apply Z.add_0_r].
  eapply emits_trans; [exact Em2| |done]. injection E2 as <-. destruct ov; [|apply emits_refl].
  pose proof (emits_overflow e2 true) as Ho. by rewrite orb_true_r in Ho.
Qed.

(** The change of the depth of the stack that each call keeps account of. *)
Definition stack_effect (c : call) : Z :=
  match c with
  | E_adjust_stack_size d => d
  | E_set_source_line _ | E_label_assign _ | E_jump _ | E_unwind_jump _ _ _ | E_pop_except_jump _ => 0
  | E_load_local _ _ _ | E_load_global _ _ | E_load_const_tok _ | E_load_const_small_int _ | E_load_const_str _
  | E_load_const_obj _ | E_load_null | E_load_build_class | E_dup_top | E_for_iter _ => 1
  | E_store_local _ _ _ | E_store_global _ _ | E_pop_top | E_pop_jump_if _ _ | E_jump_if_or_pop _ _ | E_end_finally
  | E_with_cleanup _ | E_binary_op _ | E_return_value => -1
  | E_delete_local _ _ _ | E_delete_global _ _ | E_rot_two | E_rot_three | E_unary_op _ => 0
  | E_import _ k => match k with MP_EMIT_IMPORT_FROM => 1 | _ => -1 end
  | E_load_method _ is_super => if is_super then -1 else 1
  | E_subscr k => match k with ACCESS_LOAD => -1 | ACCESS_STORE => -3 | ACCESS_DELETE => -2 end
  | E_attr _ k => match k with ACCESS_LOAD => 0 | ACCESS_STORE => -2 | ACCESS_DELETE => -1 end
  | E_dup_top_two => 2
  | E_setup_block _ k => match k with MP_EMIT_SETUP_BLOCK_WITH => 2 | _ => 0 end
  | E_get_iter use_stack => if use_stack then 3 else 0
  | E_for_iter_end => -4
  | E_build n k => if bool_decide (k = MP_EMIT_BUILD_MAP) then 1 else 1 - n
  | E_store_map => -2
  | E_store_comp k _ => match k with SCOPE_DICT_COMP => -2 | _ => -1 end
  | E_unpack_sequence n => n - 1
  | E_unpack_ex l r => l + r
  | E_make_function _ p k => if (p =? 0) && (k =? 0) then 1 else -1
  | E_make_closure _ n p k => if (p =? 0) && (k =? 0) then 1 - n else -1 - n
  | E_call_function p k star => - (p + 2 * k + (if star then 1 else 0))
  | E_call_method p k star => - (p + 2 * k + (if star then 1 else 0)) - 1
  | E_raise_varargs n => - n
  | E_yield from => if from then -1 else 0
  | E_start_except_handler => 4
  | E_end_except_handler => -3
  end.

Definition effect (cs : list call) : Z := foldr (fun c d => stack_effect c + d) 0 cs.

Lemma effect_app cs1 cs2 : effect (cs1 ++ cs2) = effect cs1 + effect cs2.
Proof. induction cs1 as [|c cs1 IH]; [done|]. cbn -[stack_effect Z.add] in *. unfold effect in *. lia. Qed.

Lemma suppressing_Some m e' : suppressing m = Some e' -> exists e1, m = Some e1 /\ e' = with_suppress e1 true.
Proof. intros (e1 & E & [= <-])%bind_Some. by exists e1. Qed.

Lemma emits_with_suppress d e e1 b : emits d e e1 -> emits d e (with_suppress e1 b).
Proof. intros Em. eapply emits_trans; [exact Em|apply emits_suppress|lia]. Qed.

Ltac emitted lem Hp E :=
  let Em := fresh "Em" in pose proof E as Em; apply lem in Em; [|exact Hp]; pose proof (emits_pass _ _ _ Em Hp); clear E.

Ltac emitted_parts := repeat
  match goal with
  | E : suppressing _ = Some _ |- _ => apply suppressing_Some in E as (? & E & ->)
  | E : _ ≫= _ = Some _ |- _ => apply bind_Some in E as (? & ? & E)
  | E : Some _ = Some _ |- _ => injection E as <-
  | E : None = Some _ |- _ => discriminate E
  | E : (if ?b then _ else _) = Some _ |- _ => destruct b eqn:?
  | Hp : pass ?e = MP_PASS_EMIT, E : emit_write_bytecode_byte ?e _ _ = Some _ |- _ => emitted emits_byte Hp E
  | Hp : pass ?e = MP_PASS_EMIT, E : emit_write_bytecode_byte_uint ?e _ _ _ = Some _ |- _ => emitted emits_uint Hp E
  | Hp : pass ?e = MP_PASS_EMIT, E : emit_write_bytecode_byte_qstr ?e _ _ _ = Some _ |- _ => emitted emits_uint Hp E
  | Hp : pass ?e = MP_PASS_EMIT, E : emit_write_bytecode_byte_int ?e _ _ _ = Some _ |- _ => emitted emits_int Hp E
  | Hp : pass ?e = MP_PASS_EMIT, E : emit_write_bytecode_byte_obj ?e _ _ _ = Some _ |- _ => emitted emits_obj Hp E
  | Hp : pass ?e = MP_PASS_EMIT, E : emit_write_bytecode_byte_child ?e _ _ _ = Some _ |- _ => emitted emits_child Hp E
  | Hp : pass ?e = MP_PASS_EMIT, E : emit_write_bytecode_byte_label ?e _ _ _ = Some _ |- _ => emitted emits_label Hp E
  | Hp : pass ?e = MP_PASS_EMIT, E : emit_write_bytecode_raw_byte ?e _ = Some _ |- _ => emitted emits_raw_byte Hp E
  | Hp : pass ?e = MP_PASS_EMIT, E : mp_emit_bc_adjust_stack_size ?e _ = Some _ |- _ => emitted emits_adjust Hp E
  | Hp : pass ?e = MP_PASS_EMIT, E : mp_emit_bc_label_assign ?e _ = Some _ |- _ => emitted emits_label_assign Hp E
  end.

Ltac emits_chain :=
  match goal with
  | |- emits _ _ (with_suppress _ _) => apply emits_with_suppress; emits_chain
  | |- emits _ ?e ?e => replace 0 with 0 by done; apply emits_refl
  | Em : emits ?d1 ?e ?e' |- emits ?d ?e ?e' => replace d with d1 by lia; exact Em
  | Em : emits ?d1 ?e _ |- emits ?d ?e _ => apply (emits_trans d1 (d - d1) d _ _ _ Em); [clear Em; emits_chain|lia]
  end.

Lemma emits_load_const_tok e t e' : pass e = MP_PASS_EMIT -> mp_emit_bc_load_const_tok e t = Some e' -> emits 1 e e'.
Proof. intros Hp E. unfold mp_emit_bc_load_const_tok in E. emitted_parts; emits_chain. Qed.

Lemma emits_with_cleanup e l e' : pass e = MP_PASS_EMIT -> mp_emit_bc_with_cleanup e l = Some e' -> emits (-1) e e'.
Proof.
  intros Hp (e1 & E1 & E)%bind_Some. apply emits_load_const_tok in E1; [|done]. pose proof (emits_pass _ _ _ E1 Hp).
  emitted_parts; emits_chain.
Qed.

Lemma emits_subscr e k e' : pass e = MP_PASS_EMIT -> mp_emit_bc_subscr e k = Some e' -> emits (stack_effect (E_subscr k)) e e'.
Proof.
  intros Hp E. destruct k; cbn [stack_effect mp_emit_bc_subscr] in *; unfold mp_emit_bc_load_null, mp_emit_bc_rot_three in *;
    emitted_parts; emits_chain.
Qed.

Lemma emits_attr e q k e' : pass e = MP_PASS_EMIT -> mp_emit_bc_attr e q k = Some e' -> emits (stack_effect (E_attr q k)) e e'.
Proof.
  intros Hp E. destruct k; cbn [stack_effect mp_emit_bc_attr] in *; unfold mp_emit_bc_load_null, mp_emit_bc_rot_two in *;
    emitted_parts; emits_chain.
Qed.

Lemma emits_yield e from e' : pass e = MP_PASS_EMIT -> mp_emit_bc_yield e from = Some e' -> emits (stack_effect (E_yield from)) e e'.
Proof.
  intros Hp (e1 & E & [= <-])%bind_Some. apply emits_byte in E; [|done].
  apply (emits_trans (- (if from then 1 else 0)) 0 _ _ e1); [exact E| |by destruct from].
  split; [same|cbn; lia|done].
Qed.

Ltac head_of t := lazymatch t with ?f _ => head_of f | _ => t end.

Lemma emit_bc_emits e c e' : pass e = MP_PASS_EMIT -> emit_bc opt_level e c = Some e' -> emits (stack_effect c) e e'.
Proof.
  intros Hp E. destruct c; cbn [emit_bc stack_effect] in *;
    try first
      [ exact (emits_adjust _ _ _ Hp E) | exact (emits_source_line _ _ _ Hp E) | exact (emits_label_assign _ _ _ Hp E)
      | exact (emits_load_const_tok _ _ _ Hp E) | exact (emits_subscr _ _ _ Hp E) | exact (emits_attr _ _ _ _ Hp E)
      | exact (emits_yield _ _ _ Hp E) | exact (emits_with_cleanup _ _ _ Hp E) ].
  all: match type of E with ?t = _ => let f := head_of t in unfold f in E end.
  all: unfold emit_bc_call_function_method_helper, comp_type in *.
  all: try solve [repeat match goal with k : ?T |- context [match ?k with _ => _ end] => destruct k end;
                  emitted_parts; emits_chain].
Qed.

Lemma emit_calls_app e cs1 cs2 :
  emit_calls opt_level e (cs1 ++ cs2) = e1 ← emit_calls opt_level e cs1; emit_calls opt_level e1 cs2.
Proof.
  revert e. induction cs1 as [|c cs1 IH]; intros e; [done|]. cbn. by destruct (emit_bc opt_level e c); cbn.
Qed.

Lemma emit_calls_emits e cs e' : pass e = MP_PASS_EMIT -> emit_calls opt_level e cs = Some e' -> emits (effect cs) e e'.
Proof.
  revert e. induction cs as [|c cs IH]; intros e Hp; cbn [emit_calls]; [intros [= <-]; apply emits_refl|].
  intros (e1 & E1 & E2)%bind_Some. apply emit_bc_emits in E1; [|done]. pose proof (emits_pass _ _ _ E1 Hp).
  apply IH in E2; [|done]. eapply emits_trans; [done..|]. done.
Qed.

(** ** The block that is installed *)

Section installed.
Context (block : list Z) (stack_max : Z) (consts : list (obj F)) (labels : list (option Z)).

(** The instructions written so far are those of the block. *)
Definition agrees e : Prop :=
  forall i, 0 <= i -> code_info_size e <= i < pc e -> block !! Z.to_nat i = code_base e !! Z.to_nat i.

(** A state of a pass that ends with this block, these constants and the labels it
    has started with. *)
Record installed e : Prop := {
  i_pass : pass e = MP_PASS_EMIT;
  i_overflow : overflow e = false;
  i_agrees : agrees e;
  i_stack : stack_size (scope e) <= stack_max;
  i_consts : const_obj_list e `prefix_of` consts;
  i_labels : label_offsets e = labels;
  i_depth : depth_ok e;
  i_nonneg : 0 <= code_info_size e /\ 0 <= bytecode_offset e;
}.

Lemma agrees_back e e' : grows e e' -> agrees e' -> agrees e.
Proof.
  intros G A i H0 Hi. rewrite (A i H0).
  - by apply (g_base _ _ G).
  - pose proof (g_info _ _ G). pose proof (g_offset _ _ G). unfold pc in *. lia.
Qed.

(** The calls [cs] lead from one state of the pass to another. *)
Record placed e (cs : list call) e' : Prop := {
  p_calls : emit_calls opt_level e cs = Some e';
  p_start : installed e;
  p_end : installed e';
}.

Lemma placed_nil e e' : placed e [] e' -> e' = e.
Proof. by intros [[= ->] _ _]. Qed.

Lemma placed_app e cs1 cs2 e' : placed e (cs1 ++ cs2) e' -> exists e1, placed e cs1 e1 /\ placed e1 cs2 e'.
Proof.
  intros [E I I']. rewrite emit_calls_app in E. apply bind_Some in E as (e1 & E1 & E2). exists e1.
  pose proof (emit_calls_emits _ _ _ (i_pass _ I) E1) as M1. pose proof (emits_pass _ _ _ M1 (i_pass _ I)) as Hp1.
  pose proof (emit_calls_emits _ _ _ Hp1 E2) as M2. destruct M1 as [G1 _ D1], M2 as [G2 _ _].
  assert (installed e1) as I1; [|by split; split].
  split; try done.
  - destruct (overflow e1) eqn:Eo; [|done]. by rewrite <- (i_overflow _ I'), (g_overflow _ _ G2 Eo).
  - exact (agrees_back _ _ G2 (i_agrees _ I')).
  - pose proof (g_stack _ _ G2). pose proof (i_stack _ I'). lia.
  - etransitivity; [exact (g_consts _ _ G2)|exact (i_consts _ I')].
  - apply offsets_antisym; [rewrite <- (i_labels _ I); exact (g_labels _ _ G1)|].
    rewrite <- (i_labels _ I'). exact (g_labels _ _ G2).
  - apply D1, (i_depth _ I).
  - pose proof (i_nonneg _ I). pose proof (g_info _ _ G1). pose proof (g_offset _ _ G1). lia.
Qed.

Lemma placed_cons e c cs e' : placed e (c :: cs) e' -> exists e1, placed e [c] e1 /\ placed e1 cs e'.
Proof. apply (placed_app e [c]). Qed.

Lemma placed_one e c e' : placed e [c] e' -> emit_bc opt_level e c = Some e' /\ installed e /\ installed e'.
Proof. intros [E I I']. cbn in E. by destruct (emit_bc opt_level e c) as [e1|]; [injection E as ->|]. Qed.

Lemma placed_effect e cs e' : placed e cs e' -> cur_stack e' = cur_stack e + effect cs.
Proof. intros [E I _]. apply (emit_calls_emits _ _ _ (i_pass _ I) E). Qed.

Lemma placed_base e cs e' : placed e cs e' -> code_info_size e' = code_info_size e.
Proof. intros [E I _]. apply emit_calls_emits in E as [G _ _]; [|exact (i_pass _ I)]. exact (g_info _ _ G). Qed.

(** The bytes of the block from an offset on. *)
Definition bytes_from (p : Z) : list Z := if p <? 0 then [] else drop (Z.to_nat p) block.

Lemma wrote e bs e' : pass e = MP_PASS_EMIT -> emit_get_cur_to_write_bytecode e bs = Some e' -> suppress e = false ->
  0 <= code_info_size e /\ 0 <= bytecode_offset e -> agrees e' ->
  pc e' = pc e + Z.of_nat (length bs) /\ suppress e' = false /\ exists rest, bytes_from (pc e) = bs ++ rest.
Proof.
  intros Hp E Hs [Hi Hb] A. pose proof (bytecode_grows e bs e' Hp E) as (G & Hs' & _ & _ & Hw). rewrite Hs in *.
  destruct Hw as (Hpc & H0 & Hbs). split; [done|]. split; [done|]. unfold bytes_from. destruct (Z.ltb_spec (pc e) 0); [lia|].
  exists (drop (length bs) (drop (Z.to_nat (pc e)) block)). apply list_eq. intros i.
  destruct (decide (i < length bs)%nat) as [Hlt|Hge].
  - rewrite lookup_app_l by done. rewrite <- Hbs by done. rewrite <- A.
    + rewrite lookup_drop. f_equal. lia.
    + lia.
    + rewrite (g_info _ _ G). unfold pc in *. lia.
  - rewrite lookup_app_r by lia. rewrite !lookup_drop. f_equal. lia.
Qed.

(** The instruction at the offset of a state that is not suppressed, and the offset
    of the next one. *)
Record instr e e' (bs : list Z) : Prop := {
  in_bytes : exists rest, bytes_from (pc e) = bs ++ rest;
  in_next : pc e' = pc e + Z.of_nat (length bs);
  in_live : suppress e' = false;
}.

Lemma grows_nonneg e e' : grows e e' -> 0 <= code_info_size e /\ 0 <= bytecode_offset e ->
  0 <= code_info_size e' /\ 0 <= bytecode_offset e'.
Proof. intros G. pose proof (g_info _ _ G). pose proof (g_offset _ _ G). lia. Qed.

Lemma bytes_instr e bs e' : installed e -> agrees e' -> suppress e = false ->
  emit_get_cur_to_write_bytecode e bs = Some e' -> instr e e' bs.
Proof.
  intros I A Hs E. destruct (wrote e bs e' (i_pass _ I) E Hs (i_nonneg _ I) A) as (Hn & Hs' & Hb). by split.
Qed.

(** The depth is adjusted before the bytes are written. *)
Lemma adjusted e d e1 : installed e -> mp_emit_bc_adjust_stack_size e d = Some e1 ->
  pass e1 = MP_PASS_EMIT /\ pc e1 = pc e /\ suppress e1 = suppress e /\ bytecode_offset e1 = bytecode_offset e /\
  code_info_size e1 = code_info_size e /\ label_offsets e1 = label_offsets e /\ const_obj_list e1 = const_obj_list e.
Proof.
  intros I E. pose proof (adjust_grows _ _ _ (i_pass _ I) E) as (G & Hs & Hb & Hl & _).
  pose proof (g_info _ _ G). pose proof (g_pass _ _ G) as Hp. rewrite (i_pass _ I) in Hp.
  unfold pc. repeat split; try done; [by rewrite Hb; lia|].
  unfold mp_emit_bc_adjust_stack_size in E. rewrite (i_pass _ I) in E. cbn in E.
  destruct (0 <=? cur_stack e + d); [|done]. by injection E as <-.
Qed.

Lemma byte_instr e d b e' : installed e -> agrees e' -> suppress e = false -> 0 <= b < 256 ->
  emit_write_bytecode_byte e d b = Some e' -> instr e e' [b].
Proof.
  intros I A Hs Hb (e1 & E1 & E2)%bind_Some. destruct (adjusted _ _ _ I E1) as (Hp & Hpc & Hs1 & Ho & Hi & _).
  rewrite wrapu_small in E2 by done.
  destruct (wrote e1 [b] e' Hp E2 ltac:(congruence) ltac:(rewrite Hi, Ho; apply (i_nonneg _ I)) A) as (Hn & Hs' & Hbs).
  rewrite Hpc in *. by split.
Qed.

(** An opcode followed by other bytes. *)
Lemma byte_bytes_instr e d b e1 bs e' : installed e -> agrees e' -> suppress e = false -> 0 <= b < 256 ->
  emit_write_bytecode_byte e d b = Some e1 -> emit_get_cur_to_write_bytecode e1 bs = Some e' -> instr e e' (b :: bs).
Proof.
  intros I A Hs Hb E1 E2. pose proof (emits_byte _ _ _ _ (i_pass _ I) E1) as M1.
  pose proof (emits_pass _ _ _ M1 (i_pass _ I)) as Hp1.
  pose proof (emits_bytes _ _ _ Hp1 E2) as [G2 _ _].
  destruct (byte_instr e d b e1 I (agrees_back _ _ G2 A) Hs Hb E1) as [[r1 H1] N1 L1].
  destruct (wrote e1 bs e' Hp1 E2 L1 (grows_nonneg _ _ (em_grows _ _ _ M1) (i_nonneg _ I)) A) as (N2 & L2 & r2 & H2).
  split; [|cbn [length] in *; lia|done]. exists r2.
  pose proof (i_nonneg _ I). unfold bytes_from in *. rewrite N1 in H2. unfold pc in *. cbn [length] in *.
  destruct (Z.ltb_spec (code_info_size e + bytecode_offset e) 0); [lia|].
  destruct (Z.ltb_spec (code_info_size e + bytecode_offset e + Z.of_nat 1) 0); [lia|].
  rewrite Z2Nat.inj_add, <- drop_drop in H2 by lia. change (Z.to_nat (Z.of_nat 1)) with 1%nat in H2.
  rewrite H1 in *. cbn [app drop] in *. rewrite drop_0 in H2. by rewrite H2.
Qed.

Lemma uint_instr e d b n e' : installed e -> agrees e' -> suppress e = false -> 0 <= b < 256 -> 0 <= n < 2 ^ 32 ->
  emit_write_bytecode_byte_uint e d b n = Some e' ->
  exists bs, instr e e' (b :: bs) /\ forall rest, DECODE_UINT (bs ++ rest) = Some (n, length bs).
Proof.
  intros I A Hs Hb Hn (e1 & E1 & E2)%bind_Some. apply bind_Some in E2 as (bs & Ebs & E2).
  destruct (encode_uint_ok n Hn) as (bs' & E' & _ & _ & Hd). rewrite Ebs in E'. injection E' as <-.
  exists bs. split; [|done]. by eapply byte_bytes_instr.
Qed.

Lemma int_instr e d b n e' : installed e -> agrees e' -> suppress e = false -> 0 <= b < 256 -> - 2 ^ 31 <= n < 2 ^ 31 ->
  emit_write_bytecode_byte_int e d b n = Some e' ->
  exists bs, instr e e' (b :: bs) /\ forall rest, DECODE_INT (bs ++ rest) = Some (n, length bs).
Proof.
  intros I A Hs Hb Hn (e1 & E1 & E2)%bind_Some. apply bind_Some in E2 as (bs & Ebs & E2).
  destruct (encode_int_ok n Hn) as (bs' & E' & _ & _ & Hd). rewrite Ebs in E'. injection E' as <-.
  exists bs. split; [|done]. by eapply byte_bytes_instr.
Qed.

(** The address of a label, in the block. *)
Definition target e (l : label) (p : Z) : Prop :=
  exists o, label_offsets e !! l = Some (Some o) /\ p = code_info_size e + o.

(** The offset of a jump is that of its label. *)
Definition decode_label (b : Z) : list Z -> option (Z * nat) := if is_signed_jump b then DECODE_SLABEL else DECODE_ULABEL.

Lemma jump_bytes_decode b t off size o bs : 0 <= b < 256 -> jump_offset (is_signed_jump b) t off = (size, o) ->
  jump_bytes b size o = Some (bs, false) ->
  exists lb, bs = b :: lb /\ (forall rest, decode_label b (lb ++ rest) = Some (t - off - 1 - Z.of_nat (length lb), length lb)).
Proof.
  intros Hb Hj. unfold jump_bytes, decode_label. unfold jump_offset in Hj. injection Hj as <- <-.
  set (o := t - off - 2). destruct (is_signed_jump b); cbn [andb negb orb]; rewrite ?orb_false_r;
    match goal with |- context [if ?c then 0 else 1] => destruct c eqn:Er end;
    try change (0 =? 0) with true; try change (1 =? 0) with false; cbv iota.
  1: destruct ((0 <=? o - 0 + 64) && (o - 0 + 64 <=? 127)) eqn:Ev; [|done].
  3: destruct ((0 <=? o - 0) && (o - 0 <=? 127)) eqn:Ev; [|done].
  1,3: intros [= <-]; apply andb_true_iff in Ev as [E1%Z.leb_le E2%Z.leb_le].
  3,4: intros [= <- Ev]; apply negb_false_iff, andb_true_iff in Ev as [E1%Z.leb_le E2%Z.leb_le].
  all: match goal with |- context [?b0 :: ?l] => exists l end; (split; [done|]); intros rest.
  - cbn [app]. destruct (proj1 (label_ok (o - 0 + 64) rest E1) ltac:(lia)) as [_ ->]. do 2 f_equal; cbn [length long_label]; lia.
  - cbn [app]. destruct (proj1 (label_ok (o - 0) rest E1) ltac:(lia)) as [-> _]. do 2 f_equal; cbn [length long_label]; lia.
  - fold (long_label (o - 1 + 16384)). destruct (proj2 (label_ok (o - 1 + 16384) rest E1) ltac:(lia)) as [_ ->]. do 2 f_equal; cbn [length long_label]; lia.
  - fold (long_label (o - 1)). destruct (proj2 (label_ok (o - 1) rest E1) ltac:(lia)) as [-> _]. do 2 f_equal; cbn [length long_label]; lia.
Qed.

Lemma label_instr e d b l e' : installed e -> agrees e' -> overflow e' = false -> suppress e = false -> 0 <= b < 256 ->
  emit_write_bytecode_byte_label e d b l = Some e' ->
  exists lb t, instr e e' (b :: lb) /\ target e l t /\
    forall rest, decode_label b (lb ++ rest) = Some (t - pc e', length lb).
Proof.
  intros I A Hov Hs Hb (e1 & E1 & E)%bind_Some. destruct (adjusted _ _ _ I E1) as (Hp & Hpc & Hs1 & Ho & Hi & Hl & _).
  rewrite Hs1, Hs, Hp in E. cbn [pass_number] in E. apply bind_Some in E as ([size o] & Ej & E).
  apply bind_Some in Ej as (t' & Et & Ej). apply bind_Some in Ej as (t & -> & Ej).
  destruct (jump_offset _ t _) as [size' o'] eqn:Ejo. unfold assert_ok in Ej. case_match; [|done]. injection Ej as <- <-.
  apply bind_Some in E as ([bs ov] & Ebs & E). apply bind_Some in E as (e2 & Ew & E).
  pose proof (bytecode_grows _ _ _ Hp Ew) as (G2 & _). rewrite (g_pass _ _ G2), Hp in E. cbn in E. injection E as <-.
  destruct ov; [by cbn in Hov|]. cbn [andb] in *.
  destruct (wrote e1 bs e2 Hp Ew ltac:(congruence) ltac:(rewrite Hi, Ho; apply (i_nonneg _ I)) A) as (Hn & Hs' & Hbs).
  destruct (jump_bytes_decode b t _ _ _ bs Hb Ejo Ebs) as (lb & -> & Hd).
  exists lb, (code_info_size e + t). rewrite Hpc in *. split; [by split|]. split; [exists t; by rewrite <- Hl|].
  intros rest. rewrite Hd, Hn. cbn [length]. do 2 f_equal. unfold pc. rewrite Ho. lia.
Qed.

Lemma label_placed e l e' : placed e [E_label_assign l] e' ->
  suppress e' = false /\ pc e' = pc e /\ cur_stack e' = cur_stack e /\ target e' l (pc e').
Proof.
  intros (E & I & I')%placed_one. cbn in E.
  destruct (label_assign_grows e l e' (i_pass _ I) E) as (G & Hs & Hb & Hc & Ht).
  pose proof (g_info _ _ G). unfold pc. rewrite Hb. repeat split; [done|lia|done|]. exists (bytecode_offset e). by rewrite H0.
Qed.

Lemma target_eq e e' l p : installed e -> installed e' -> code_info_size e' = code_info_size e -> target e l p -> target e' l p.
Proof. intros I I' Hi (o & Ho & ->). exists o. by rewrite Hi, (i_labels _ I'), <- (i_labels _ I). Qed.

Lemma target_placed e cs e' l p : placed e cs e' -> target e l p <-> target e' l p.
Proof.
  intros P. pose proof (placed_base _ _ _ P) as Hb. destruct P as [_ I I'].
  split; intros Ht; [by apply (target_eq e e')|by apply (target_eq e' e)].
Qed.

Lemma target_fun e l p q : target e l p -> target e l q -> p = q.
Proof. intros (o & Ho & ->) (o' & Ho' & ->). congruence. Qed.

End installed.

End code.
