(* ===== verification/CodeLines.v ===== *)
(** The lines of the code: the source information that the emitter writes while it
    makes the instructions, and the line that is found in it for each of them. *)

From Stdlib Require Import ZArith Lia.
From stdpp Require Import base option list numbers.
From S2P Require Import Prelude Mpn IntObj Lexer Grammar Parse Bytecode BytecodeProps Scope EmitBc CodeAt.

Section lines.
Context {F : Type} `{ConstFloats F} (opt_level : Z).
Abbreviation emit_t := (emit_t F).
Abbreviation call := (emit_call F).
Implicit Types (e : emit_t) (c : call).

(** * Calls without a line *)

(** What is known of the source information that is written. *)
Definition counts e : Z * Z := (n_info e, n_cell e).

Definition lines_told e : Z * Z * Z * (Z * Z) :=
  (code_info_offset e, last_source_line_offset e, last_source_line e, counts e).

Lemma told_bytes e bs e' : emit_get_cur_to_write_bytecode e bs = Some e' -> lines_told e' = lines_told e.
Proof.
  unfold emit_get_cur_to_write_bytecode. case_match; [by intros [= <-]|]. case_match; [by intros [= <-]|].
  case_match; [|done]. by intros (base & _ & [= <-])%bind_Some.
Qed.

Lemma told_adjust e d e' : mp_emit_bc_adjust_stack_size e d = Some e' -> lines_told e' = lines_told e.
Proof. unfold mp_emit_bc_adjust_stack_size. case_match; [by intros [= <-]|]. case_match; [|done]. by intros [= <-]. Qed.

Lemma told_byte e d b e' : emit_write_bytecode_byte e d b = Some e' -> lines_told e' = lines_told e.
Proof. intros (e1 & E1%told_adjust & E2%told_bytes)%bind_Some. congruence. Qed.

Lemma told_uint e d b n e' : emit_write_bytecode_byte_uint e d b n = Some e' -> lines_told e' = lines_told e.
Proof. intros (e1 & E1%told_byte & E)%bind_Some. apply bind_Some in E as (bs & _ & E2%told_bytes). congruence. Qed.

Lemma told_int e d b n e' : emit_write_bytecode_byte_int e d b n = Some e' -> lines_told e' = lines_told e.
Proof. intros (e1 & E1%told_byte & E)%bind_Some. apply bind_Some in E as (bs & _ & E2%told_bytes). congruence. Qed.

Lemma told_obj e d b o e' : emit_write_bytecode_byte_obj e d b o = Some e' -> lines_told e' = lines_told e.
Proof.
  intros ([e1 i] & E1 & E2%told_uint)%bind_Some. apply bind_Some in E1 as ([j|] & _ & [= <- <-]); exact E2.
Qed.

Lemma told_child e d b k e' : emit_write_bytecode_byte_child e d b k = Some e' -> lines_told e' = lines_told e.
Proof. intros E%told_uint. exact E. Qed.

Lemma told_label e d b l e' : emit_write_bytecode_byte_label e d b l = Some e' -> lines_told e' = lines_told e.
Proof.
  intros (e1 & E1%told_adjust & E)%bind_Some. case_match; [by injection E as <-|].
  apply bind_Some in E as ([size o] & _ & E). apply bind_Some in E as ([bs ov] & _ & E).
  apply bind_Some in E as (e2 & E2%told_bytes & E). transitivity (lines_told e2); [by case_match; injection E as <-|congruence].
Qed.

Lemma told_label_assign e l e' : mp_emit_bc_label_assign e l = Some e' -> lines_told e' = lines_told e.
Proof.
  intros (e1 & E1%told_adjust & E)%bind_Some. case_match; [by injection E as <-|].
  apply bind_Some in E as (old & _ & E). case_match; [|done]. injection E as <-. exact E1.
Qed.

Ltac told_parts := repeat
  match goal with
  | E : suppressing _ = Some _ |- _ => apply suppressing_Some in E as (? & E & ->)
  | E : emit_write_bytecode_byte _ _ _ = Some _ |- _ => apply told_byte in E
  | E : emit_write_bytecode_byte_uint _ _ _ _ = Some _ |- _ => apply told_uint in E
  | E : emit_write_bytecode_byte_qstr _ _ _ _ = Some _ |- _ => apply told_uint in E
  | E : emit_write_bytecode_byte_int _ _ _ _ = Some _ |- _ => apply told_int in E
  | E : emit_write_bytecode_byte_obj _ _ _ _ = Some _ |- _ => apply told_obj in E
  | E : emit_write_bytecode_byte_child _ _ _ _ = Some _ |- _ => apply told_child in E
  | E : emit_write_bytecode_byte_label _ _ _ _ = Some _ |- _ => apply told_label in E
  | E : emit_write_bytecode_raw_byte _ _ = Some _ |- _ => apply told_bytes in E
  | E : mp_emit_bc_adjust_stack_size _ _ = Some _ |- _ => apply told_adjust in E
  | E : mp_emit_bc_label_assign _ _ = Some _ |- _ => apply told_label_assign in E
  | E : _ ≫= _ = Some _ |- _ => apply bind_Some in E as (? & ? & E)
  | E : Some _ = Some _ |- _ => injection E as <-
  | E : None = Some _ |- _ => discriminate E
  | E : (if ?b then _ else _) = Some _ |- _ => destruct b
  end.

Ltac head_of t := lazymatch t with ?f _ => head_of f | _ => t end.

Lemma emit_bc_told e c e' : (forall l, c <> E_set_source_line l) -> emit_bc opt_level e c = Some e' -> lines_told e' = lines_told e.
Proof.
  intros Hc E. destruct c; cbn [emit_bc] in E;
    try first [exact (told_adjust _ _ _ E)|exact (told_label_assign _ _ _ E)|by destruct (Hc line)]; clear Hc.
  all: match type of E with ?t = _ => let f := head_of t in unfold f in E end.
  all: unfold emit_bc_call_function_method_helper, mp_emit_bc_load_const_tok, mp_emit_bc_load_null, mp_emit_bc_rot_two,
    mp_emit_bc_rot_three, comp_type in *.
  all: try solve [repeat match goal with k : ?T |- _ => match type of E with context [match k with _ => _ end] => destruct k end end;
                  told_parts; try match goal with |- lines_told (with_suppress ?x ?b) = _ => change (lines_told (with_suppress x b)) with (lines_told x) end;
                  first [congruence|etransitivity; [|eassumption]; done]].
Qed.

(** * Entries *)

(** The last entry of a table, from an offset and a line on. *)
Definition last_entry (o l : Z) (es : list (Z * Z)) : Z * Z := foldl (fun _ p => p) (o, l) es.

Lemma line_table_app es1 : forall o l es2 bs1 bs2, line_table o l es1 = Some bs1 ->
  line_table (last_entry o l es1).1 (last_entry o l es1).2 es2 = Some bs2 -> line_table o l (es1 ++ es2) = Some (bs1 ++ bs2).
Proof.
  induction es1 as [|[o1 l1] es1 IH]; intros o l es2 bs1 bs2; cbn [line_table app]; [by intros [= <-]|].
  intros (b & -> & E)%bind_Some E2. apply bind_Some in E as (bs & E & [= <-]). cbn [mbind option_bind].
  rewrite (IH o1 l1 es2 bs bs2 E E2). cbn. by rewrite app_assoc.
Qed.

Lemma increasing_app es1 : forall o l es2, increasing o l es1 ->
  increasing (last_entry o l es1).1 (last_entry o l es1).2 es2 -> increasing o l (es1 ++ es2).
Proof. induction es1 as [|[o1 l1] es1 IH]; intros o l es2; [done|]. cbn [increasing app]. intros (? & ? & Hi) H2. by auto. Qed.

(** At an offset after all the entries, the line is that of the last one. *)
Lemma line_at_last es off : forall o l, Forall (fun p => p.1 <= off) es -> line_at es off l = (last_entry o l es).2.
Proof.
  unfold line_at. induction es as [|[o1 l1] es IH]; intros o l; [done|]. inversion_clear 1 as [|? ? Ho Hes]. cbn [foldl last_entry fst snd] in *.
  rewrite (proj2 (Z.leb_le _ _)) by done. by apply (IH o1).
Qed.

Lemma line_at_later es off l : Forall (fun p => off < p.1) es -> line_at es off l = l.
Proof.
  unfold line_at. induction 1 as [|[o1 l1] es Ho Hes IH]; [done|]. cbn in *. by rewrite (proj2 (Z.leb_gt _ _)).
Qed.

(** ** The entries that calls write *)

(** A state in the middle of a pass. *)
Record mid_pass e : Prop := {
  mid_pass_is : pass e = MP_PASS_EMIT;
  mid_info : 0 <= code_info_offset e <= code_info_size e;
  mid_offset : 0 <= bytecode_offset e;
  mid_last : last_source_line_offset e <= bytecode_offset e;
}.

(** Between two states the entries [es] are written. *)
Record tells e (es : list (Z * Z)) e' : Prop := {
  tl_bytes : exists bs, line_table (last_source_line_offset e) (last_source_line e) es = Some bs /\
    code_info_offset e' = code_info_offset e + Z.of_nat (length bs) /\
    forall i, (i < length bs)%nat -> code_base e' !! Z.to_nat (code_info_offset e + Z.of_nat i) = bs !! i;
  tl_last : last_entry (last_source_line_offset e) (last_source_line e) es = (last_source_line_offset e', last_source_line e');
  tl_increasing : increasing (last_source_line_offset e) (last_source_line e) es;
  tl_range : Forall (fun p => bytecode_offset e <= p.1 <= bytecode_offset e') es;
  tl_counts : counts e' = counts e;
}.

Lemma mid_pass_grows e e' : grows e e' -> mid_pass e -> last_source_line_offset e' <= bytecode_offset e' -> mid_pass e'.
Proof.
  intros G [Hp Hi Ho Hl] Hl'. destruct (g_told _ _ G Hi Ho) as [Hi' _]. pose proof (g_offset _ _ G).
  split; [by rewrite (g_pass _ _ G)|lia|lia|done].
Qed.

Lemma tells_none e e' : lines_told e' = lines_told e -> tells e [] e'.
Proof.
  intros E. injection E as E1 E2 E3 E4 E5. split; [|cbn; congruence|done|done|by unfold counts; congruence].
  exists []. split; [done|]. split; [cbn; lia|]. intros i Hi. cbn in Hi. lia.
Qed.

Lemma tells_trans e1 es1 e2 es2 e3 : mid_pass e1 -> mid_pass e2 -> grows e1 e2 -> grows e2 e3 ->
  tells e1 es1 e2 -> tells e2 es2 e3 -> tells e1 (es1 ++ es2) e3.
Proof.
  intros M1 M2 G1 G2 [(b1 & T1 & I1 & B1) L1 C1 R1 N1] [(b2 & T2 & I2 & B2) L2 C2 R2 N2].
  pose proof (g_offset _ _ G1). pose proof (g_offset _ _ G2). split.
  - exists (b1 ++ b2). split; [apply line_table_app; [done|by rewrite L1]|]. rewrite length_app. split; [lia|]. intros i Hi.
    destruct (g_told _ _ G2 (mid_info _ M2) (mid_offset _ M2)) as [_ Hk]. pose proof (mid_info _ M1).
    destruct (decide (i < length b1)%nat) as [Hlt|Hge].
    + rewrite lookup_app_l by done. rewrite Hk by lia. by apply B1.
    + rewrite lookup_app_r by lia. rewrite <- B2 by lia. f_equal. lia.
  - unfold last_entry in *. rewrite foldl_app, L1. exact L2.
  - apply increasing_app; [done|]. by rewrite L1.
  - apply Forall_app. split; (eapply list.Forall_impl; [eassumption|]); cbn; lia.
  - congruence.
Qed.

(** Bytes of source information, written one by one. *)
Lemma info_bytes_written bs : forall e e', mid_pass e -> emit_write_code_info_bytes e bs = Some e' ->
  code_info_offset e' = code_info_offset e + Z.of_nat (length bs) /\
  (forall i, (i < length bs)%nat -> code_base e' !! Z.to_nat (code_info_offset e + Z.of_nat i) = bs !! i) /\
  last_source_line_offset e' = last_source_line_offset e /\ last_source_line e' = last_source_line e /\ counts e' = counts e.
Proof.
  induction bs as [|b bs IH]; intros e e' M; cbn [emit_write_code_info_bytes].
  { intros [= <-]. split; [cbn; lia|]. split; [|done]. intros i Hi. cbn in Hi. lia. }
  intros (e1 & E1 & E)%bind_Some. pose proof (code_info_grows _ _ _ (mid_pass_is _ M) E1) as [G1 S1].
  assert (code_info_offset e1 = code_info_offset e + 1 /\ code_base e1 !! Z.to_nat (code_info_offset e) = Some b /\
    last_source_line_offset e1 = last_source_line_offset e /\ last_source_line e1 = last_source_line e /\ counts e1 = counts e) as (O1 & B1 & L1 & L1' & N1).
  { unfold emit_write_code_info_byte, emit_get_cur_to_write_code_info in E1. rewrite (mid_pass_is _ M) in E1. cbn -[Z.of_nat] in E1.
    case_match; [|done]. apply bind_Some in E1 as (base & Eb & [= <-]). apply block_write_ok in Eb as (_ & Hb & _).
    split; [done|]. split; [|done]. specialize (Hb 0%nat ltac:(cbn; lia)). rewrite Z.add_0_r in Hb. exact Hb. }
  assert (mid_pass e1) as M1.
  { eapply mid_pass_grows; [exact G1|done|]. rewrite L1, (s_offset _ _ S1). apply (mid_last _ M). }
  destruct (IH e1 e' M1 E) as (O2 & B2 & L2 & L2' & N2). cbn [length]. split; [lia|]. split; [|split_and!; congruence].
  pose proof (code_info_bytes_grows _ _ _ (mid_pass_is _ M1) E) as [G2 _].
  destruct (g_told _ _ G2 (mid_info _ M1) (mid_offset _ M1)) as [_ Hk]. pose proof (mid_info _ M).
  intros [|i] Hi; [rewrite Hk by lia; by rewrite Z.add_0_r|]. cbn [lookup list_lookup]. rewrite <- B2 by lia. f_equal. lia.
Qed.

(** The line after a call: lines that do not increase are not written. *)
Definition line_told (line : Z) c : Z :=
  match c with E_set_source_line l => if 3 <=? opt_level then line else Z.max line l | _ => line end.

Definition line_after (line : Z) (cs : list call) : Z := foldl line_told line cs.

Lemma source_line_tells e l e' : mid_pass e -> mp_emit_bc_set_source_line e opt_level l = Some e' ->
  exists es, tells e es e' /\ last_source_line e' = line_told (last_source_line e) (E_set_source_line l) /\ mid_pass e'.
Proof.
  intros M E. pose proof (source_line_grows opt_level _ _ _ (mid_pass_is _ M) E) as [G S].
  unfold mp_emit_bc_set_source_line in E. cbn [line_told]. destruct (3 <=? opt_level).
  { injection E as <-. exists []. split; [by apply tells_none|done]. }
  destruct (Z.ltb_spec (last_source_line e) l) as [Hlt|Hge].
  2: { injection E as <-. exists []. split; [by apply tells_none|]. split; [lia|done]. }
  apply bind_Some in E as (e1 & E1 & [= <-]). apply bind_Some in E1 as (bs & Ebs & E1).
  destruct (info_bytes_written bs e e1 M E1) as (Ho & Hb & _ & _ & Hn). exists [(bytecode_offset e, l)].
  cbn [bytecode_offset with_source_line] in *. pose proof (s_offset _ _ S) as Hs. cbn in Hs. pose proof (mid_last _ M).
  split; [split|split].
  - exists bs. cbn [line_table]. rewrite Ebs. cbn. by rewrite app_nil_r.
  - done.
  - cbn. lia.
  - constructor; [cbn; lia|done].
  - exact Hn.
  - cbn. lia.
  - eapply mid_pass_grows; [exact G|done|cbn; lia].
Qed.

Lemma call_tells e c e' : mid_pass e -> emit_bc opt_level e c = Some e' ->
  exists es, tells e es e' /\ last_source_line e' = line_told (last_source_line e) c /\ mid_pass e' /\ grows e e' /\
    (es = [] \/ bytecode_offset e' = bytecode_offset e).
Proof.
  intros M E. pose proof (emit_bc_emits opt_level e c e' (mid_pass_is _ M) E) as [G _ _].
  assert ((exists l, c = E_set_source_line l) \/ forall l, c <> E_set_source_line l) as [[l ->]|Hc].
  { destruct c; try (by right). left. by eexists. }
  - cbn [emit_bc] in E. destruct (source_line_tells e l e' M E) as (es & T & L & M'). exists es. split_and!; try done.
    right. pose proof (source_line_grows opt_level _ _ _ (mid_pass_is _ M) E) as [_ S]. exact (s_offset _ _ S).
  - pose proof (emit_bc_told e c e' Hc E) as Et. exists []. split; [by apply tells_none|]. injection Et as _ Elo El _ _.
    split; [by destruct c; try (rewrite El; done); destruct (Hc line)|]. split; [|by auto].
    eapply mid_pass_grows; [done..|]. rewrite Elo. pose proof (mid_last _ M). pose proof (g_offset _ _ G). lia.
Qed.

(** The call [c], after the calls [cs1], writes the instruction at an offset. *)
Definition written_at e (cs : list call) (off : Z) (cs1 : list call) c (cs2 : list call) : Prop :=
  cs = cs1 ++ c :: cs2 /\ exists e1 e2, emit_calls opt_level e cs1 = Some e1 /\ emit_bc opt_level e1 c = Some e2 /\
    bytecode_offset e1 <= off < bytecode_offset e2.

Lemma tells_later e es e' off l : tells e es e' -> off < bytecode_offset e -> line_at es off l = l.
Proof.
  intros T Hoff. apply line_at_later. eapply list.Forall_impl; [exact (tl_range _ _ _ T)|]. cbn. lia.
Qed.

Lemma tells_earlier e es e' off : tells e es e' -> bytecode_offset e' <= off -> line_at es off (last_source_line e) = last_source_line e'.
Proof.
  intros T Hoff. rewrite (line_at_last es off (last_source_line_offset e)), (tl_last _ _ _ T); [done|].
  eapply list.Forall_impl; [exact (tl_range _ _ _ T)|]. cbn. lia.
Qed.

(** In the table that calls write, the line of an offset is the line after the calls
    before the one whose instruction is there. *)
Lemma calls_tell cs : forall e e', mid_pass e -> emit_calls opt_level e cs = Some e' ->
  exists es, tells e es e' /\ mid_pass e' /\ grows e e' /\ last_source_line e' = line_after (last_source_line e) cs /\
    forall off, bytecode_offset e <= off < bytecode_offset e' -> exists cs1 c cs2, written_at e cs off cs1 c cs2 /\
      line_at es off (last_source_line e) = line_after (last_source_line e) cs1.
Proof.
  induction cs as [|c cs IH]; intros e e' M; cbn [emit_calls].
  { intros [= <-]. exists []. split; [by apply tells_none|]. repeat split; try done; try apply M. intros off Hoff. lia. }
  intros (e1 & E1 & E2)%bind_Some. destruct (call_tells e c e1 M E1) as (es1 & T1 & L1 & M1 & G1 & Hes).
  destruct (IH e1 e' M1 E2) as (es2 & T2 & M2 & G2 & L2 & Hat). exists (es1 ++ es2).
  split; [by apply (tells_trans e es1 e1 es2 e')|]. split; [done|]. split; [by etransitivity|]. split; [by rewrite L2, L1|].
  intros off Hoff. unfold line_at. rewrite foldl_app. fold (line_at es1 off (last_source_line e)).
  change (foldl _ ?l es2) with (line_at es2 off l). destruct (Z.lt_ge_cases off (bytecode_offset e1)) as [Hlt|Hge].
  - exists [], c, cs. split; [split; [done|]; exists e, e1; split_and!; try done; lia|]. destruct Hes as [->|Heq]; [|lia].
    by rewrite (tells_later _ _ _ _ _ T2).
  - destruct (Hat off ltac:(lia)) as (cs1 & c' & cs2 & (-> & e3 & e4 & E3 & E4 & Ho) & Hline). exists (c :: cs1), c', cs2.
    split; [split; [done|]; exists e3, e4; cbn [emit_calls]; by rewrite E1|].
    rewrite (tells_earlier _ _ _ _ T1) by done. rewrite Hline, L1. done.
Qed.

End lines.
