(* ===== verification/CallSem.v ===== *)
(** What the calls of the compiler mean: the effect of each one on the value stack,
    the local variables and the world, whatever the bytes it becomes.  The jumps and
    the blocks are left to those who place them. *)

From Stdlib Require Import ZArith Lia.
From stdpp Require Import base option list numbers.
From S2P Require Import Prelude Mpn IntObj IntSpec Lexer Grammar Parse Bytecode Scope EmitBc Vm.

(** * Definitions *)

Section calls.
Context {F X I W : Type} `{Runtime X I W} (const_value : obj F -> value X).
Abbreviation value := (value X).
Abbreviation slot := (slot X I).

(** The local variables and the world. *)
Definition store : Type := list slot * W.

(** A computation changes the store and ends with an exception or an answer; [None]
    is undefined. *)
Definition ev (A : Type) : Type := store -> option ((value + A) * store).

Definition done {A} (a : A) : ev A := fun s => Some (inr a, s).
Definition stuck {A} : ev A := fun _ => None.
Definition throw {A} (e : value) : ev A := fun s => Some (inl e, s).
Definition run {A} (m : rt A) : ev A := fun '(l, w) => let '(r, w) := m w in Some (r, (l, w)).

Definition andthen {A B} (m : ev A) (k : A -> ev B) : ev B := fun s =>
  '(r, s) ← m s; match r with inl e => Some (inl e, s) | inr a => k a s end.

Definition get_local (n : Z) : ev slot := fun '(l, w) =>
  if n <? 0 then None else s ← l !! Z.to_nat n; Some (inr s, (l, w)).

Definition set_local (n : Z) (s : slot) : ev unit := fun '(l, w) =>
  if (0 <=? n) && (n <? Z.of_nat (length l)) then Some (inr tt, (<[Z.to_nat n := s]> l, w)) else None.

(** A variable that has a value. *)
Definition checked (s : slot) : ev slot :=
  match s with S_NULL => andthen (run (mp_obj_new_exception_msg LOCAL_NAME_ERROR)) throw | _ => done s end.

End calls.

Declare Scope ev_scope.
Notation "x ←e m ; k" := (andthen m (fun x => k)) (at level 20, m at level 100, k at level 200, right associativity) : ev_scope.
Notation "' x ←e m ; k" := (andthen m (fun x => k)) (at level 20, x pattern, m at level 100, k at level 200, right associativity) : ev_scope.

Section sem.
Context {F X I W : Type} `{Runtime X I W} (const_value : obj F -> value X).
Abbreviation value := (value X).
Abbreviation slot := (slot X I).
Local Open Scope ev_scope.
Implicit Types st : list slot.

Definition token_value (t : mp_token_kind_t) : option value :=
  match t with
  | MP_TOKEN_KW_FALSE => Some V_FALSE
  | MP_TOKEN_KW_NONE => Some V_NONE
  | MP_TOKEN_KW_TRUE => Some V_TRUE
  | MP_TOKEN_ELLIPSIS => Some (const_value O_ELLIPSIS)
  | _ => None
  end.

Definition load_local (n : Z) (k : local_kind) : ev slot :=
  s ←e get_local n;
  match k with
  | MP_EMIT_IDOP_LOCAL_FAST => checked s
  | MP_EMIT_IDOP_LOCAL_DEREF =>
      match s with S_VAL c => s ←e run (mp_obj_cell_get c); checked s | _ => stuck end
  end.

Definition load_global (q : Z) (k : global_kind) : ev value :=
  run (match k with MP_EMIT_IDOP_GLOBAL_NAME => mp_load_name q | MP_EMIT_IDOP_GLOBAL_GLOBAL => mp_load_global q end).

Definition store_local (n : Z) (k : local_kind) (s : slot) : ev unit :=
  match k with
  | MP_EMIT_IDOP_LOCAL_FAST => set_local n s
  | MP_EMIT_IDOP_LOCAL_DEREF =>
      c ←e get_local n; match c with S_VAL c => run (mp_obj_cell_set c s) | _ => stuck end
  end.

Definition store_global (q : Z) (k : global_kind) (v : value) : ev unit :=
  run (match k with MP_EMIT_IDOP_GLOBAL_NAME => mp_store_name q v | MP_EMIT_IDOP_GLOBAL_GLOBAL => mp_store_global q v end).

(** The operators [not in] and [is not] are those without the negation, negated. *)
Definition binary_op (op : Z) (lhs rhs : value) : ev value :=
  if op =? MP_BINARY_OP_NOT_IN then v ←e run (rt_binary_op MP_BINARY_OP_IN lhs rhs); run (rt_unary_op MP_UNARY_OP_NOT v)
  else if op =? MP_BINARY_OP_IS_NOT then v ←e run (rt_binary_op MP_BINARY_OP_IS lhs rhs); run (rt_unary_op MP_UNARY_OP_NOT v)
  else run (rt_binary_op op lhs rhs).

(** The [n] items on top, the deepest first, and the stack below them. *)
Definition items (n : Z) st : option (list value * list slot) :=
  if (0 <=? n) && (n <=? Z.of_nat (length st)) then
    vs ← mapM (fun s => match s with S_VAL v => Some v | _ => None end) (rev (take (Z.to_nat n) st));
    Some (vs, drop (Z.to_nat n) st)
  else None.

Definition build (k : build_kind) (vs : list value) : ev value :=
  match k with
  | MP_EMIT_BUILD_TUPLE => run (mp_obj_new_tuple vs)
  | MP_EMIT_BUILD_LIST => run (mp_obj_new_list vs)
  | MP_EMIT_BUILD_SET => run (mp_obj_new_set vs)
  | MP_EMIT_BUILD_SLICE =>
      match vs with
      | [start; stop] => run (mp_obj_new_slice start stop V_NONE)
      | [start; stop; step] => run (mp_obj_new_slice start stop step)
      | _ => stuck
      end
  | MP_EMIT_BUILD_MAP => stuck
  end.

Definition push (v : value) st : list slot := S_VAL v :: st.

(** The calls that make straight-line code. *)
Definition call_sem (c : emit_call F) st : ev (list slot) :=
  match c, st with
  | E_set_source_line _, _ => done st
  | E_load_const_tok t, _ => match token_value t with Some v => done (push v st) | None => stuck end
  | E_load_const_small_int n, _ => done (push (V_SMALL_INT n) st)
  | E_load_const_str q, _ => done (push (V_QSTR q) st)
  | E_load_const_obj o, _ => done (push (const_value o) st)
  | E_load_local _ n k, _ => s ←e load_local n k; done (s :: st)
  | E_load_global q k, _ => v ←e load_global q k; done (push v st)
  | E_load_method q false, S_VAL v :: st => '(m, self) ←e run (mp_load_method v q); done (self :: push m st)
  | E_store_local _ n k, s :: st => _ ←e store_local n k s; done st
  | E_store_global q k, S_VAL v :: st => _ ←e store_global q k v; done st
  | E_subscr ACCESS_LOAD, S_VAL index :: S_VAL base :: st => v ←e run (mp_obj_subscr base index); done (push v st)
  | E_subscr ACCESS_STORE, S_VAL index :: S_VAL base :: s :: st =>
      _ ←e run (mp_obj_subscr_store base index s); done st
  | E_attr q ACCESS_LOAD, S_VAL base :: st => v ←e run (mp_load_attr base q); done (push v st)
  | E_attr q ACCESS_STORE, S_VAL base :: s :: st => _ ←e run (mp_store_attr base q s); done st
  | E_dup_top, a :: st => done (a :: a :: st)
  | E_dup_top_two, a :: b :: st => done (a :: b :: a :: b :: st)
  | E_pop_top, _ :: st => done st
  | E_rot_two, a :: b :: st => done (b :: a :: st)
  | E_rot_three, a :: b :: c :: st => done (b :: c :: a :: st)
  | E_unary_op op, S_VAL v :: st => v ←e run (rt_unary_op op v); done (push v st)
  | E_binary_op op, S_VAL rhs :: S_VAL lhs :: st => v ←e binary_op op lhs rhs; done (push v st)
  | E_build n MP_EMIT_BUILD_MAP, _ => v ←e run (mp_obj_new_dict n); done (push v st)
  | E_build n k, _ => match items n st with Some (vs, st) => v ←e build k vs; done (push v st) | None => stuck end
  | E_store_map, S_VAL key :: S_VAL val :: S_VAL d :: st => _ ←e run (mp_obj_dict_store d key val); done (push d st)
  | E_call_function p k false, _ =>
      match items (p + 2 * k) st with
      | Some (args, S_VAL fn :: st) => v ←e run (mp_call_function_n_kw fn p k args); done (push v st)
      | _ => stuck
      end
  | E_call_method p k false, _ =>
      match items (p + 2 * k) st with
      | Some (args, self :: S_VAL fn :: st) => v ←e run (mp_call_method_n_kw p k fn self args); done (push v st)
      | _ => stuck
      end
  | E_get_iter false, S_VAL v :: st => v ←e run (mp_getiter v); done (push v st)
  | E_unpack_sequence n, S_VAL v :: st =>
      vs ←e run (mp_unpack_sequence v n);
      if Z.of_nat (length vs) =? n then done ((S_VAL <$> vs) ++ st) else stuck
  | _, _ => stuck
  end.

(** The operands a call takes from the stack. *)
Definition pops (c : emit_call F) : Z :=
  match c with
  | E_load_method _ _ | E_store_local _ _ _ | E_store_global _ _ | E_attr _ ACCESS_LOAD | E_unary_op _ | E_pop_top
  | E_dup_top | E_get_iter _ | E_unpack_sequence _ => 1
  | E_subscr ACCESS_LOAD | E_attr _ ACCESS_STORE | E_binary_op _ | E_dup_top_two | E_rot_two => 2
  | E_subscr ACCESS_STORE | E_rot_three | E_store_map => 3
  | E_build n k => match k with MP_EMIT_BUILD_MAP => 0 | _ => n end
  | E_call_function p k _ => p + 2 * k + 1
  | E_call_method p k _ => p + 2 * k + 2
  | _ => 0
  end.

(** The numbers of a call fit in the instruction. *)
Definition fits (n : Z) : Prop := 0 <= n < 2 ^ 32.

(** The integers of a constant are integers of the runtime. *)
Fixpoint const_ok (o : obj F) : Prop :=
  match o with
  | O_INT i => int_ok i
  | O_TUPLE items => (fix all (l : list (obj F)) := match l with [] => True | o :: l => const_ok o /\ all l end) items
  | _ => True
  end.

Definition call_fits (c : emit_call F) : Prop :=
  match c with
  | E_load_const_obj o => const_ok o
  | E_load_const_small_int n => - 2 ^ 31 <= n < 2 ^ 31
  | E_load_local _ n _ | E_store_local _ n _ => fits n
  | E_load_global q _ | E_store_global q _ | E_load_const_str q | E_load_method q _ | E_attr q _ => fits q
  | E_unary_op op => 0 <= op < MP_UNARY_OP_NUM_BYTECODE
  | E_binary_op op => 0 <= op < MP_BINARY_OP_NUM_BYTECODE \/ op = MP_BINARY_OP_NOT_IN \/ op = MP_BINARY_OP_IS_NOT
  | E_build n _ | E_unpack_sequence n => fits n
  | E_call_function p k _ | E_call_method p k _ => 0 <= p < 256 /\ 0 <= k < 256
  | _ => True
  end.

(** A list of them. *)
Fixpoint calls_sem (cs : list (emit_call F)) st : ev (list slot) :=
  match cs with [] => done st | c :: cs => st ←e call_sem c st; calls_sem cs st end.

End sem.
