(* ===== verification/VmRun.v ===== *)
(** The bytes of a call, executed by the interpreter, have the effect of the call:
    the simulation of the calls of the compiler by the loop of [vm.c]. *)

From Stdlib Require Import ZArith Lia.
From stdpp Require Import base option list numbers.
From S2P Require Import Prelude Mpn IntObj Lexer Grammar Parse Bytecode BytecodeProps Scope EmitBc Vm CodeAt CallSem.

(** The opcodes an exception is not treated in a particular way for. *)
Definition plain_opcode (op : Z) : bool :=
  negb ((op =? MP_BC_FOR_ITER) || (op =? MP_BC_YIELD_FROM) || (op =? MP_BC_END_FINALLY) || (op =? MP_BC_RAISE_LAST)).

Section run.
Context {X I W : Type} `{Runtime X I W} (code : vm_code X).
Abbreviation value := (value X).
Abbreviation frame := (frame X I).
Abbreviation slot := (slot X I).
Implicit Types f g : frame.

(** No event is pending when a branch is taken. *)
Class Quiet := quiet : forall w, mp_handle_pending w = (inr tt, w).
Context `{Quiet}.

(** ** Sequences of turns of the loop *)

Definition steps f w f' w' : Prop :=
  exists n, forall k, mp_execute_bytecode code (n + k) f w = mp_execute_bytecode code k f' w'.

Lemma steps_refl f w : steps f w f w.
Proof. by exists 0%nat. Qed.

Lemma steps_trans f1 w1 f2 w2 f3 w3 : steps f1 w1 f2 w2 -> steps f2 w2 f3 w3 -> steps f1 w1 f3 w3.
Proof. intros [n Hn] [m Hm]. exists (n + m)%nat. intros k. by rewrite <- Nat.add_assoc, Hn, Hm. Qed.

(** What the loop does with an exception. *)
Definition raised (k : nat) g (e : value) (w : W) : option (option (vm_result (X:=X) (I:=I) (W:=W))) :=
  r ← exception_handler code (saved_frame code g) (ip g) e w;
  match r with
  | RESUME f w => mp_execute_bytecode code k f w
  | UNCAUGHT w => Some (Some (VM_EXCEPTION e w))
  end.

(** An exception is raised by an instruction between two offsets, with the blocks of
    [f] and above the stack [base]. *)
Definition raises (base : list slot) f (p q : Z) w (e : value) (l : list slot) (w' : W) : Prop :=
  exists n g, (forall k, mp_execute_bytecode code (n + S k) f w = raised k g e w') /\
    exc_stack g = exc_stack f /\ inject_exc g = None /\ fastn g = l /\ base `suffix_of` stack g /\
    p <= ip g < q /\ exists op, byte_at code (ip g) = Some op /\ plain_opcode op = true.

Lemma raises_after base f1 w1 f2 w2 p q e l w' : steps f1 w1 f2 w2 -> exc_stack f2 = exc_stack f1 ->
  raises base f2 p q w2 e l w' -> raises base f1 p q w1 e l w'.
Proof.
  intros [n Hn] Hx (m & g & Hm & Hg & Hrest). exists (n + m)%nat, g. rewrite Hx in Hg. split; [|done].
  intros k. by rewrite <- Nat.add_assoc, Hn, Hm.
Qed.

Lemma raises_weaken base base' f p q p' q' w e l w' : base' `suffix_of` base -> p' <= p -> q <= q' ->
  raises base f p q w e l w' -> raises base' f p' q' w e l w'.
Proof.
  intros Hb Hp Hq (n & g & Hn & Hx & Hi & Hl & Hst & Hr & Hop). exists n, g. repeat split; try done; try lia.
  by etransitivity.
Qed.

(** ** One turn *)

Lemma vm_step_dispatch f w : inject_exc f = None ->
  vm_step code f w =
  '(r, w) ← dispatch code f w;
  let handle g e w :=
    r ← exception_handler code g (ip f) e w;
    Some (match r with RESUME f w => inl (f, w) | UNCAUGHT w => inr (VM_EXCEPTION e w) end) in
  match r with
  | inl e => handle (saved_frame code f) e w
  | inr (NEXT f) => Some (inl (f, w))
  | inr (BRANCH g) =>
      match mp_handle_pending w with
      | (inr _, w) => Some (inl (g, w))
      | (inl e, w) => handle g e w
      end
  | inr (RERAISE g e) => handle g e w
  | inr (RETURN v) => Some (inr (VM_NORMAL v w))
  | inr (YIELD g v) => Some (inr (VM_YIELD g v w))
  | inr (EXIT_EXCEPTION e) => Some (inr (VM_EXCEPTION e w))
  end.
Proof. intros Hi. unfold vm_step. by rewrite Hi. Qed.

Lemma dispatch_next f w f' w' : inject_exc f = None ->
  dispatch code f w = Some (inr (NEXT f'), w') \/ dispatch code f w = Some (inr (BRANCH f'), w') -> steps f w f' w'.
Proof.
  intros Hi Hd. exists 1%nat. intros k. cbn [Nat.add mp_execute_bytecode]. rewrite vm_step_dispatch by done.
  destruct Hd as [-> | ->]; cbn; [done|]. by rewrite quiet.
Qed.

Lemma step_raise base f w op e w' q : inject_exc f = None -> byte_at code (ip f) = Some op -> plain_opcode op = true ->
  ip f < q -> base `suffix_of` stack f -> dispatch code f w = Some (inl e, w') ->
  raises base f (ip f) q w e (fastn f) w'.
Proof.
  intros Hi Hb Hop Hq Hs Hd. exists 0%nat, f. repeat split; try done; [|by exists op].
  intros k. cbn [Nat.add mp_execute_bytecode]. rewrite vm_step_dispatch, Hd by done. cbn. unfold raised.
  destruct (exception_handler _ _ _ _ _) as [[g w1|w1]|]; done.
Qed.

(** ** The table of opcodes *)

Lemma entry_default_list l op : forallb (fun p => p.1 <? 112) l = true -> 112 <= op -> entry code op l = op_default code op.
Proof.
  intros Hl Hop. induction l as [|[k h] l IH]; [done|]. cbn in Hl |- *. apply andb_true_iff in Hl as [Hk%Z.ltb_lt Hl].
  rewrite (proj2 (Z.eqb_neq op k)) by lia. by apply IH.
Qed.

Lemma entry_default op : 112 <= op -> entry code op (entries code) = op_default code op.
Proof. by apply entry_default_list. Qed.

(** An instruction at the offset of a frame. *)
Lemma dispatch_at f op rest w : bytes_at code (ip f) = op :: rest ->
  dispatch code f w = entry code op (entries code) (with_ip f (ip f + 1)) w.
Proof. intros Hb. unfold dispatch, byte_at. by rewrite Hb. Qed.

Lemma byte_at_bytes p op rest : bytes_at code p = op :: rest -> byte_at code p = Some op.
Proof. unfold byte_at. by intros ->. Qed.

(** The bytes after the first one. *)
Lemma bytes_at_next p op rest : bytes_at code p = op :: rest -> bytes_at code (p + 1) = rest.
Proof.
  unfold bytes_at. destruct (Z.ltb_spec p 0); [done|]. destruct (Z.ltb_spec (p + 1) 0); [lia|].
  rewrite Z2Nat.inj_add, <- drop_drop by lia. change (Z.to_nat 1) with 1%nat. intros ->. cbn. apply drop_0.
Qed.

Lemma decode_at {A} (d : list Z -> option (A * nat)) f op bs rest a n w :
  bytes_at code (ip f) = op :: bs ++ rest -> d (bs ++ rest) = Some (a, n) ->
  decode (W:=W) code d (with_ip f (ip f + 1)) w = Some (inr (a, with_ip f (ip f + 1 + Z.of_nat n)), w).
Proof.
  intros Hb Hd. unfold decode. cbn [ip with_ip]. rewrite (bytes_at_next _ _ _ Hb), Hd. done.
Qed.

(** ** Placed calls *)

Context {F : Type} `{ConstFloats F} (opt_level : Z) (consts : list (obj F)) (labels : list (option Z)).
Context (const_value : obj F -> value).

(** The table of constants of the code holds the objects of the emitter, and objects
    that are taken for one another have one value. *)
Class Table := {
  table_values : obj_table code = const_value <$> consts;
  table_small : Z.of_nat (length consts) < 2 ^ 32;
  table_ok : Forall const_ok consts;
  equal_values : forall a b, const_ok a -> const_ok b -> strictly_equal a b = Some true -> const_value a = const_value b;
}.
Context `{Table}.

Abbreviation emit_t := (emit_t F).
Abbreviation installed := (installed (bytecode code) (Z.of_nat (stack_max code)) consts labels).
Abbreviation placed := (placed opt_level (bytecode code) (Z.of_nat (stack_max code)) consts labels).

(** The frame [f] is at the instruction of the state [e]. *)
Record at_state (e : emit_t) f : Prop := {
  at_ip : ip f = pc e;
  at_depth : Z.of_nat (length (stack f)) = cur_stack e;
  at_inject : inject_exc f = None;
}.

Definition moved f (p : Z) (st l : list slot) : frame :=
  {| ip := p; stack := st; fastn := l; exc_stack := exc_stack f; inject_exc := inject_exc f |}.

(** Where the code between two states leads: to the second one with the stack of the
    answer, or to an exception raised between them. *)
Definition outcome (base : list slot) (e e' : emit_t) f w (r : option ((value + list slot) * store (X:=X) (I:=I) (W:=W))) : Prop :=
  match r with
  | None => True
  | Some (inr st, (l, w')) =>
      suppress e' = false /\ steps f w (moved f (pc e') st l) w' /\ Z.of_nat (length st) = cur_stack e'
  | Some (inl ex, (l, w')) => raises base f (pc e) (pc e') w ex l w'
  end.

Lemma installed_room e n : installed e -> Z.of_nat n = cur_stack e -> (n <= stack_max code)%nat.
Proof. intros Hin Hn. pose proof (i_stack _ _ _ _ _ Hin). pose proof (i_depth _ _ _ _ _ Hin) as [? ?]. lia. Qed.

Lemma outcome_one e e' f w op bs h base r : installed e -> instr (bytecode code) e e' (op :: bs) -> at_state e f ->
  entry code op (entries code) = h -> plain_opcode op = true -> base `suffix_of` stack f ->
  (forall rest, bytes_at code (ip f) = op :: bs ++ rest ->
     match r with
     | None => True
     | Some (inr st, (l, w')) =>
         let g := moved f (ip f + 1 + Z.of_nat (length bs)) st l in
         (h (with_ip f (ip f + 1)) w = Some (inr (NEXT g), w') \/ h (with_ip f (ip f + 1)) w = Some (inr (BRANCH g), w')) /\
         Z.of_nat (length st) = cur_stack e'
     | Some (inl ex, (l, w')) => h (with_ip f (ip f + 1)) w = Some (inl ex, w') /\ l = fastn f
     end) ->
  outcome base e e' f w r.
Proof.
  intros Hin [[rest Hb] Hn Hl] [Hip _ Hi] He Hop Hbase Hr. rewrite <- Hip in Hb, Hn. specialize (Hr rest Hb).
  assert (dispatch code f w = h (with_ip f (ip f + 1)) w) as Hd by by erewrite dispatch_at, He.
  cbn [length] in Hn. destruct r as [[[ex|st] [l w']]|]; cbn in *; [| |done].
  - destruct Hr as [Hr ->]. rewrite <- Hip. apply (step_raise _ _ _ op); try done; [|lia|by rewrite Hd].
    by eapply byte_at_bytes.
  - destruct Hr as [Hr Hlen]. split; [done|]. split; [|done]. replace (pc e') with (ip f + 1 + Z.of_nat (length bs)) by lia.
    apply dispatch_next; [done|]. by rewrite Hd.
Qed.

End run.
