(* ===== verification/VmCalls.v ===== *)
(** Each straight-line call, executed by the interpreter from its bytes. *)

From Stdlib Require Import ZArith Lia.
From stdpp Require Import base option list numbers.
From S2P Require Import Prelude Mpn IntObj IntSpec Lexer Grammar Parse Bytecode BytecodeProps Scope EmitBc Vm CodeAt CallSem VmRun.

(** The numbers of the opcodes. *)
Ltac unfold_ops :=
  unfold MP_BC_LOAD_CONST_SMALL_INT_MULTI, MP_BC_LOAD_CONST_SMALL_INT_MULTI_NUM, MP_BC_LOAD_CONST_SMALL_INT_MULTI_EXCESS,
    MP_BC_LOAD_FAST_MULTI, MP_BC_LOAD_FAST_MULTI_NUM, MP_BC_STORE_FAST_MULTI, MP_BC_STORE_FAST_MULTI_NUM,
    MP_BC_UNARY_OP_MULTI, MP_BC_UNARY_OP_MULTI_NUM, MP_BC_BINARY_OP_MULTI, MP_BC_BINARY_OP_MULTI_NUM,
    MP_UNARY_OP_NUM_BYTECODE, MP_UNARY_OP_NOT, MP_BINARY_OP_NUM_BYTECODE, MP_BINARY_OP_POWER, MP_BINARY_OP_NOT_IN,
    MP_BINARY_OP_IS_NOT, MP_BINARY_OP_IN, MP_BINARY_OP_IS in *.

Section calls.
Context {F X I W : Type} `{ConstFloats F} `{Runtime X I W} (code : vm_code X).
Context (opt_level : Z) (consts : list (obj F)) (labels : list (option Z)) (const_value : obj F -> value X).
Context `{!Quiet (X:=X) (I:=I) (W:=W)} `{!Table code consts const_value}.
Abbreviation value := (value X).
Abbreviation frame := (frame X I).
Abbreviation slot := (slot X I).
Abbreviation emit_t := (emit_t F).
Abbreviation installed := (installed (bytecode code) (Z.of_nat (stack_max code)) consts labels).
Abbreviation placed := (placed opt_level (bytecode code) (Z.of_nat (stack_max code)) consts labels).
Abbreviation outcome := (outcome code (F:=F) (X:=X) (I:=I) (W:=W)).
Implicit Types (f g : frame) (e : emit_t).

Local Notation "x ←v m ; k" := (bind m (fun x => k)) (at level 20, m at level 100, k at level 200, right associativity).
Local Notation "' x ←v m ; k" := (bind m (fun x => k)) (at level 20, x pattern, m at level 100, k at level 200, right associativity).

(** ** The depth of the stack *)

Abbreviation slot_value := (fun s : slot => match s with S_VAL v => Some v | _ => None end).

Lemma stack_items_length n st vs st' : items (X:=X) (I:=I) n st = Some (vs, st') ->
  Z.of_nat (length st) = n + Z.of_nat (length st') /\ 0 <= n.
Proof.
  unfold items. case_match eqn:E; [|done]. apply andb_true_iff in E as [E1%Z.leb_le E2%Z.leb_le].
  intros (vs' & Hm & [= <- <-])%bind_Some. rewrite length_drop. lia.
Qed.

Lemma andthen_ok {A B} (m : ev A) (k : A -> ev B) s b s' : andthen (X:=X) (I:=I) (W:=W) m k s = Some (inr b, s') ->
  exists a s1, m s = Some (inr a, s1) /\ k a s1 = Some (inr b, s').
Proof. unfold andthen. intros ([[ex|a] s1] & Hm & Hk)%bind_Some; [done|]. by exists a, s1. Qed.

(** An answer's stack has a given depth. *)
Definition has_length {A} (n : Z) (m : ev (X:=X) (I:=I) (W:=W) A) (len : A -> nat) : Prop :=
  forall s a s', m s = Some (inr a, s') -> Z.of_nat (len a) = n.

Lemma has_length_done n (st : list slot) : Z.of_nat (length st) = n -> has_length n (done st) length.
Proof. by intros Hn s a s' [= <- <-]. Qed.

Lemma has_length_stuck {A} n (len : A -> nat) : has_length n stuck len.
Proof. done. Qed.

Lemma has_length_andthen {A} n (m : ev A) (k : A -> ev (list slot)) :
  (forall a, has_length n (k a) length) -> has_length n (andthen m k) length.
Proof. intros Hk s b s' (a & s1 & _ & E)%andthen_ok. exact (Hk _ _ _ _ E). Qed.

Ltac has_length_tac := repeat
  match goal with
  | |- has_length _ stuck _ => apply has_length_stuck
  | |- has_length _ (done _) _ => apply has_length_done
  | |- has_length _ (andthen _ _) _ => apply has_length_andthen; intros ?
  | |- has_length _ (match items ?n ?st with _ => _ end) _ =>
      let E := fresh in destruct (items n st) as [[? ?]|] eqn:E; [apply stack_items_length in E as [? ?]|]
  | |- has_length _ (match ?x with _ => _ end) _ => destruct x eqn:?
  | |- has_length _ (_ match ?x with _ => _ end) _ => destruct x eqn:?
  end.

(** A call changes the depth of the stack as the emitter reckons. *)
Lemma call_sem_length c st : has_length (Z.of_nat (length st) + stack_effect c) (call_sem const_value c st) length.
Proof.
  destruct c; cbn [call_sem stack_effect]; try solve [has_length_tac; unfold push in *; simplify_eq; cbn [length] in *; lia].
  - destruct k; first [rewrite bool_decide_eq_false_2 by done|rewrite bool_decide_eq_true_2 by done]; has_length_tac; unfold push; cbn [length]; lia.
  - has_length_tac. match goal with E : (_ =? _) = true |- _ => apply Z.eqb_eq in E end. simplify_eq.
    rewrite length_app, length_fmap. cbn [length]. lia.
Qed.

(** ** One instruction *)

(** What an instruction makes of its frame, with the next one at [p], against the
    answer of the call. *)
Definition executes f (p : Z) (h : vm (X:=X) (W:=W) (flow (X:=X) (I:=I))) w
    (r : option ((value + list slot) * store (X:=X) (I:=I) (W:=W))) : Prop :=
  match r with
  | None => True
  | Some (inr st, (l, w')) => (length st <= stack_max code)%nat -> h w = Some (inr (NEXT (moved f p st l)), w')
  | Some (inl ex, (l, w')) => h w = Some (inl ex, w') /\ l = fastn f
  end.

Lemma bind_inr {A B} (m : vm (X:=X) (W:=W) A) (k : A -> vm B) w a w' : m w = Some (inr a, w') -> bind m k w = k a w'.
Proof. unfold bind. by intros ->. Qed.

Lemma bind_push g s k w : (length (stack g) < stack_max code)%nat ->
  bind (PUSH code g s) k w = k (with_stack g (s :: stack g)) w :> option ((value + flow (X:=X) (I:=I)) * W).
Proof. intros Hg. unfold PUSH. by rewrite (proj2 (Nat.ltb_lt _ _)). Qed.

Lemma executes_ret {A} f p (a : A) k w r : executes f p (k a) w r -> executes f p (bind (ret a) k) w r.
Proof. done. Qed.

Lemma executes_call {A} f p (m : rt A) k (k' : A -> ev (list slot)) w :
  (forall a w', executes f p (k a) w' (k' a (fastn f, w'))) ->
  executes f p (bind (call m) k) w (andthen (run m) k' (fastn f, w)).
Proof. intros Hk. unfold executes, bind, call, andthen, run. cbn. destruct (m w) as [[ex|a] w']; cbn; [done|apply Hk]. Qed.

Lemma executes_next f g p st l w : g = moved f p st l -> executes f p (ret (NEXT g)) w (done st (l, w)).
Proof. by intros -> ?. Qed.

Lemma executes_push f g p st v w : g = moved f p st (fastn f) ->
  executes f p (push_next code g v) w (done (push v st) (fastn f, w)).
Proof.
  intros ->.   intros Hr. unfold push_next, PUSH, bind. cbn [length stack moved] in *. by rewrite (proj2 (Nat.ltb_lt _ _)) by exact Hr.
Qed.

Lemma executes_pop f g p s st k w r : stack g = s :: st -> executes f p (k (s, with_stack g st)) w r ->
  executes f p (bind (POP g) k) w r.
Proof. intros Hg. unfold POP. rewrite Hg. done. Qed.

Lemma executes_pop_value f g p v st k w r : stack g = S_VAL v :: st -> executes f p (k (v, with_stack g st)) w r ->
  executes f p (bind (POP_VALUE g) k) w r.
Proof. intros Hg. unfold POP_VALUE, POP. rewrite Hg. done. Qed.

Lemma executes_slot f g p st s w : g = moved f p st (fastn f) ->
  executes f p (f ←v PUSH code g s; ret (NEXT f)) w (done (s :: st) (fastn f, w)).
Proof. intros -> Hr. cbn [length] in Hr. by rewrite bind_push. Qed.

Lemma executes_fast f g p n k (k' : slot -> ev (list slot)) w : fastn g = fastn f ->
  (forall s, executes f p (k s) w (k' s (fastn f, w))) ->
  executes f p (bind (fast g n) k) w (andthen (get_local n) k' (fastn f, w)).
Proof.
  intros Hg Hk. unfold executes, bind, fast, andthen, get_local. rewrite Hg. destruct (n <? 0); [done|].
  destruct (fastn f !! Z.to_nat n) as [s|]; [|done]. apply Hk.
Qed.

Lemma executes_set_fast f g p n s k (k' : unit -> ev (list slot)) w : fastn g = fastn f ->
  (forall l, executes f p (k (with_fastn g l)) w (k' tt (l, w))) ->
  executes f p (bind (set_fast g n s) k) w (andthen (set_local n s) k' (fastn f, w)).
Proof.
  intros Hg Hk. unfold executes, bind, set_fast, andthen, set_local. rewrite Hg. destruct (_ && _); [|done]. apply Hk.
Qed.

Lemma executes_load_check f g p st s w : g = moved f p st (fastn f) ->
  executes f p (load_check code g s) w (andthen (checked s) (fun s => done (s :: st)) (fastn f, w)).
Proof.
  intros Hg. destruct s; [|exact (executes_slot f g p st _ w Hg)..]. unfold load_check, raise_new, checked, executes, bind, andthen, run.
  cbn. by destruct (mp_obj_new_exception_msg _ w) as [[ex|ex] w'].
Qed.

Lemma andthen_assoc {A B C} (m : ev A) (k1 : A -> ev B) (k2 : B -> ev C) s :
  andthen (X:=X) (I:=I) (W:=W) (andthen m k1) k2 s = andthen m (fun a => andthen (k1 a) k2) s.
Proof. unfold andthen. by destruct (m s) as [[[ex|a] s1]|]. Qed.

Lemma executes_items f g p n k (k' : list value -> list slot -> ev (list slot)) w :
  (forall vs st, items n (stack g) = Some (vs, st) -> executes f p (k vs (with_stack g st)) w (k' vs st (fastn f, w))) ->
  executes f p ('(l, g) ←v POP_N g n; vs ←v as_values l; k vs g) w
    (match items n (stack g) with Some (vs, st) => k' vs st | None => stuck end (fastn f, w)).
Proof.
  intros Hk. unfold items, POP_N in *. destruct (_ && _); [|done]. cbn in Hk |- *. unfold as_values, bind. cbn.
  destruct (mapM _ _) as [vs|]; [|done]. apply (Hk vs _ eq_refl).
Qed.

(** The steps of an instruction and of its call, side by side. *)
Ltac run_steps := repeat
  match goal with
  | |- executes _ _ _ _ (stuck _) => exact Logic.I
  | |- executes _ _ _ _ (done _ _) => first [apply executes_push; reflexivity | apply executes_next; reflexivity]
  | |- executes _ _ (bind (call _) _) _ _ => apply executes_call; intros ? ?
  | |- executes _ _ (bind (POP_VALUE _) _) _ _ => eapply executes_pop_value; [cbn [stack with_stack with_ip]; first [eassumption|reflexivity]|]
  | |- executes _ _ (bind (POP _) _) _ _ => eapply executes_pop; [cbn [stack with_stack with_ip]; first [eassumption|reflexivity]|]
  | |- executes _ _ _ _ (_ match ?x with _ => _ end _) => destruct x eqn:?
  | |- executes _ _ _ _ (match ?x with _ => _ end _) => destruct x eqn:?
  end.

(** The numbers of the arguments come back from the integer they are packed in. *)
Lemma packed_args p k : 0 <= p < 256 -> 0 <= k < 256 ->
  let n := Z.lor (Z.shiftl k 8) p in
  fits n /\ Z.land n 0xff = p /\ Z.land (Z.shiftr n 8) 0xff = k /\ n_arg_slots n = p + 2 * k.
Proof.
  intros Hp Hk n. assert (n = k * 2 ^ 8 + p) as ->.
  { subst n. rewrite Z.shiftl_mul_pow2 by lia. by apply lor_pow2. }
  assert (forall x, Z.land x 0xff = x mod 256) as Hl by (intros x; exact (land_ones_mod x 8 ltac:(lia))).
  assert (Z.land (k * 2 ^ 8 + p) 0xff = p) as E1 by (rewrite Hl; symmetry; apply Z.mod_unique_pos with k; lia).
  assert (Z.shiftr (k * 2 ^ 8 + p) 8 = k) as E2.
  { rewrite Z.shiftr_div_pow2 by lia. symmetry. apply Z.div_unique_pos with p; lia. }
  split; [unfold fits; lia|]. split; [done|]. split; [rewrite E2, Hl; apply Z.mod_small; lia|].
  unfold n_arg_slots. rewrite E1. f_equal. rewrite Z.shiftr_div_pow2 by lia.
  assert (Z.land (2 * k) 0x1fe = 2 * k) as Ek.
  { change 0x1fe with (Z.shiftl 0xff 1). rewrite (Z.mul_comm 2 k). change (k * 2) with (k * 2 ^ 1).
    rewrite <- Z.shiftl_mul_pow2, <- Z.shiftl_land, Hl, Z.mod_small by lia. done. }
  assert ((k * 2 ^ 8 + p) / 2 ^ 7 = 2 * k + p / 2 ^ 7) as -> by (rewrite <- Z.div_add_l by lia; f_equal; lia).
  assert (p / 2 ^ 7 = 0 \/ p / 2 ^ 7 = 1) as [-> | ->].
  { pose proof (Z.div_pos p (2 ^ 7)). pose proof (Z.div_lt_upper_bound p (2 ^ 7) 2). lia. }
  - by rewrite Z.add_0_r.
  - pose proof (lor_pow2 1 k 1 ltac:(lia) ltac:(lia)) as Hlor. rewrite (Z.mul_comm 2 k). change (k * 2) with (k * 2 ^ 1).
    rewrite <- Hlor, Z.land_lor_distr_l. change (Z.land 1 0x1fe) with 0. rewrite Z.lor_0_r.
    change (k * 2 ^ 1) with (k * 2). rewrite (Z.mul_comm k 2). exact Ek.
Qed.

Section one.
Context (e e' : emit_t) (f : frame) (base : list slot) (w : W) (r : option ((value + list slot) * store (X:=X) (I:=I) (W:=W))).
Context (Hin : installed e) (Hin' : installed e') (Hlive : suppress e = false) (Hat : at_state e f).
Context (Hbase : base `suffix_of` stack f).
Context (Hlen : forall st s', r = Some (inr st, s') -> Z.of_nat (length st) = cur_stack e').

Lemma runs_instr op bs : instr (bytecode code) e e' (op :: bs) -> plain_opcode op = true ->
  (forall rest, bytes_at code (ip f) = op :: bs ++ rest ->
     executes f (ip f + 1 + Z.of_nat (length bs)) (entry code op (entries code) (with_ip f (ip f + 1))) w r) ->
  outcome base e e' f w r.
Proof.
  intros Hi Hop Hr. apply (outcome_one code consts labels e e' f w op bs _ base r Hin Hi Hat eq_refl Hop Hbase).
  intros rest Hb. specialize (Hr rest Hb). unfold executes in Hr. destruct r as [[[ex|st] [l w']]|]; [done| |done].
  pose proof (Hlen _ _ eq_refl) as Hst. split; [|done]. left. apply Hr. by eapply installed_room.
Qed.

Lemma runs_byte d b h : emit_write_bytecode_byte e d b = Some e' -> 0 <= b < 256 -> plain_opcode b = true ->
  (forall g, entry code b (entries code) g = h g) -> executes f (ip f + 1) (h (with_ip f (ip f + 1))) w r -> outcome base e e' f w r.
Proof.
  intros E Hb Hop Hh Hr. rewrite <- Hh in Hr. apply (runs_instr b []); [|done|].
  - by eapply byte_instr; [..|exact E]; [exact Hin|exact (i_agrees _ _ _ _ _ Hin')| |].
  - intros rest _. by rewrite Z.add_0_r.
Qed.

Lemma runs_uint d b n (k : Z * frame -> vm (X:=X) (W:=W) (flow (X:=X) (I:=I))) :
  emit_write_bytecode_byte_uint e d b n = Some e' -> 0 <= b < 256 -> 0 <= n < 2 ^ 32 -> plain_opcode b = true ->
  entry code b (entries code) (with_ip f (ip f + 1)) = bind (decode_uint code (with_ip f (ip f + 1))) k ->
  (forall p, executes f p (k (n, with_ip f p)) w r) -> outcome base e e' f w r.
Proof.
  intros E Hb Hn Hop Hk Hr.
  destruct (uint_instr _ _ _ _ e d b n e' Hin (i_agrees _ _ _ _ _ Hin') Hlive Hb Hn E) as (bs & Hi & Hd).
  apply (runs_instr b bs Hi Hop). intros rest Hbytes. rewrite Hk. specialize (Hr (ip f + 1 + Z.of_nat (length bs))).
  unfold executes, decode_uint in *.
  pose proof (decode_at (W:=W) code DECODE_UINT f b bs rest n (length bs) w Hbytes (Hd rest)) as Hdec.
  destruct r as [[[ex|st] [l w']]|]; [| |done]; by rewrite (bind_inr _ _ _ _ _ Hdec).
Qed.

Lemma runs_int d b n (k : Z * frame -> vm (X:=X) (W:=W) (flow (X:=X) (I:=I))) :
  emit_write_bytecode_byte_int e d b n = Some e' -> 0 <= b < 256 -> - 2 ^ 31 <= n < 2 ^ 31 -> plain_opcode b = true ->
  entry code b (entries code) (with_ip f (ip f + 1)) = bind (decode code DECODE_INT (with_ip f (ip f + 1))) k ->
  (forall p, executes f p (k (n, with_ip f p)) w r) -> outcome base e e' f w r.
Proof.
  intros E Hb Hn Hop Hk Hr.
  destruct (int_instr _ _ _ _ e d b n e' Hin (i_agrees _ _ _ _ _ Hin') Hlive Hb Hn E) as (bs & Hi & Hd).
  apply (runs_instr b bs Hi Hop). intros rest Hbytes. rewrite Hk. specialize (Hr (ip f + 1 + Z.of_nat (length bs))).
  unfold executes in *.
  pose proof (decode_at (W:=W) code DECODE_INT f b bs rest n (length bs) w Hbytes (Hd rest)) as Hdec.
  destruct r as [[[ex|st] [l w']]|]; [| |done]; by rewrite (bind_inr _ _ _ _ _ Hdec).
Qed.

(** Each family of calls. *)
Abbreviation sem c := (call_sem const_value c (stack f) (fastn f, w)).

Lemma runs_load_global q k : mp_emit_bc_load_global e q k = Some e' -> fits q ->
  r = sem (E_load_global q k) -> outcome base e e' f w r.
Proof.
  intros E Hf Hr. destruct k; (eapply runs_uint; [exact E|done|exact Hf|done|reflexivity|]); intros p; rewrite Hr; cbn [call_sem].
  all: unfold load_global; run_steps.
Qed.

Lemma runs_store_global q k : mp_emit_bc_store_global e q k = Some e' -> fits q ->
  r = sem (E_store_global q k) -> outcome base e e' f w r.
Proof.
  intros E Hf Hr. destruct k; (eapply runs_uint; [exact E|done|exact Hf|done|reflexivity|]); intros p; rewrite Hr; cbn [call_sem].
  all: unfold store_global; run_steps.
Qed.

Lemma runs_load_method q : mp_emit_bc_load_method e q false = Some e' -> fits q ->
  r = sem (E_load_method q false) -> outcome base e e' f w r.
Proof.
  intros E Hf Hr. eapply runs_uint; [exact E|done|exact Hf|done|reflexivity|]; intros p; rewrite Hr; cbn [call_sem].
  run_steps. intros Hroom. unfold push in Hroom. cbn [length] in Hroom. rewrite !bind_push by (cbn [stack with_stack length]; lia). done.
Qed.

Lemma runs_attr_load q : mp_emit_bc_attr e q ACCESS_LOAD = Some e' -> fits q ->
  r = sem (E_attr q ACCESS_LOAD) -> outcome base e e' f w r.
Proof.
  intros E Hf Hr. eapply runs_uint; [exact E|done|exact Hf|done|reflexivity|]; intros p; rewrite Hr; cbn [call_sem]. run_steps.
Qed.

Lemma runs_attr_store q : mp_emit_bc_attr e q ACCESS_STORE = Some e' -> fits q ->
  r = sem (E_attr q ACCESS_STORE) -> outcome base e e' f w r.
Proof.
  intros E Hf Hr. eapply runs_uint; [exact E|done|exact Hf|done|reflexivity|]; intros p; rewrite Hr; cbn [call_sem]. run_steps.
Qed.

Ltac byte_call E h Hr := eapply (runs_byte _ _ h); [exact E|done|done|reflexivity|]; rewrite Hr; cbn [call_sem].

Lemma runs_subscr_load : mp_emit_bc_subscr e ACCESS_LOAD = Some e' -> r = sem (E_subscr ACCESS_LOAD) -> outcome base e e' f w r.
Proof. intros E Hr. byte_call E (op_load_subscr (X:=X) (I:=I) (W:=W) code) Hr. unfold op_load_subscr. run_steps. Qed.

Lemma runs_subscr_store : mp_emit_bc_subscr e ACCESS_STORE = Some e' -> r = sem (E_subscr ACCESS_STORE) ->
  outcome base e e' f w r.
Proof. intros E Hr. byte_call E (op_store_subscr (X:=X) (I:=I) (W:=W)) Hr. unfold op_store_subscr. run_steps. Qed.

Lemma executes_stack (g : frame) p (st' : list slot) h : h (stack g) = Some st' -> with_stack g st' = moved f p st' (fastn f) ->
  executes f p (op_stack code h g) w (done st' (fastn f, w)).
Proof. intros Hh Hg Hroom. unfold op_stack. rewrite Hh, <- Hg. cbn. by rewrite (proj2 (Nat.leb_le _ _)). Qed.

Lemma runs_stack d b h c : emit_write_bytecode_byte e d b = Some e' -> 0 <= b < 256 -> plain_opcode b = true ->
  (forall g, entry code b (entries code) g = op_stack code h g) ->
  r = sem c -> (forall s, call_sem const_value c (stack f) s = match h (stack f) with Some st => done st s | None => stuck s end) ->
  outcome base e e' f w r.
Proof.
  intros E Hb Hop Hh Hr Hc. eapply runs_byte; [exact E|done..|]. rewrite Hr, Hc. destruct (h (stack f)) eqn:Es; [|exact Logic.I].
  by apply executes_stack.
Qed.

Lemma runs_dup_top : mp_emit_bc_dup_top e = Some e' -> r = sem E_dup_top -> outcome base e e' f w r.
Proof.
  intros E Hr. eapply (runs_stack _ _ dup_top E_dup_top); [exact E|done|done|reflexivity|exact Hr|].
  intros s. by destruct (stack f).
Qed.

Lemma runs_dup_top_two : mp_emit_bc_dup_top_two e = Some e' -> r = sem E_dup_top_two -> outcome base e e' f w r.
Proof.
  intros E Hr. eapply (runs_stack _ _ dup_top_two E_dup_top_two); [exact E|done|done|reflexivity|exact Hr|].
  intros s. by destruct (stack f) as [|? [|? ?]].
Qed.

Lemma runs_pop_top : mp_emit_bc_pop_top e = Some e' -> r = sem E_pop_top -> outcome base e e' f w r.
Proof.
  intros E Hr. eapply (runs_stack _ _ pop_top E_pop_top); [exact E|done|done|reflexivity|exact Hr|].
  intros s. by destruct (stack f).
Qed.

Lemma runs_rot_two : mp_emit_bc_rot_two e = Some e' -> r = sem E_rot_two -> outcome base e e' f w r.
Proof.
  intros E Hr. eapply (runs_stack _ _ rot_two E_rot_two); [exact E|done|done|reflexivity|exact Hr|].
  intros s. by destruct (stack f) as [|? [|? ?]].
Qed.

Lemma runs_rot_three : mp_emit_bc_rot_three e = Some e' -> r = sem E_rot_three -> outcome base e e' f w r.
Proof.
  intros E Hr. eapply (runs_stack _ _ rot_three E_rot_three); [exact E|done|done|reflexivity|exact Hr|].
  intros s. by destruct (stack f) as [|? [|? [|? ?]]].
Qed.

(** The opcodes with their operand in them. *)
Ltac default_op := unfold op_default; repeat
  match goal with |- context [?a <? ?b] =>
    first [rewrite (proj2 (Z.ltb_lt a b)) by (unfold_ops; lia) | rewrite (proj2 (Z.ltb_ge a b)) by (unfold_ops; lia)] end.

Lemma entry_unary op g : 0 <= op < MP_UNARY_OP_NUM_BYTECODE ->
  entry code (MP_BC_UNARY_OP_MULTI + op) (entries code) g = op_unary (I:=I) (W:=W) code op g.
Proof.
  intros Hop. rewrite entry_default by (unfold_ops; lia). default_op. f_equal; lia.
Qed.

Lemma entry_binary op g : 0 <= op < MP_BINARY_OP_NUM_BYTECODE ->
  entry code (MP_BC_BINARY_OP_MULTI + op) (entries code) g = op_binary (I:=I) (W:=W) code op g.
Proof.
  intros Hop. rewrite entry_default by (unfold_ops; lia). default_op. f_equal; lia.
Qed.

Lemma plain_default op : 112 <= op -> plain_opcode op = true.
Proof.
  intros Hop. unfold plain_opcode. apply negb_true_iff. rewrite !orb_false_iff, !Z.eqb_neq.
  unfold MP_BC_FOR_ITER, MP_BC_YIELD_FROM, MP_BC_END_FINALLY, MP_BC_RAISE_LAST, MP_BC_BASE_JUMP_E, MP_BC_BASE_BYTE_E,
    MP_BC_BASE_BYTE_O. lia.
Qed.

Lemma runs_unary_op op : mp_emit_bc_unary_op e op = Some e' -> 0 <= op < MP_UNARY_OP_NUM_BYTECODE ->
  r = sem (E_unary_op op) -> outcome base e e' f w r.
Proof.
  intros E Hop Hr. eapply (runs_byte _ _ (op_unary (I:=I) (W:=W) code op)); [exact E|unfold_ops; lia|apply plain_default; unfold_ops; lia| |].
  - intros g. by apply entry_unary.
  - rewrite Hr. cbn [call_sem]. unfold op_unary. run_steps.
Qed.

Lemma vm_binary_op op : emit_write_bytecode_byte e (-1) (MP_BC_BINARY_OP_MULTI + op) = Some e' ->
  0 <= op < MP_BINARY_OP_NUM_BYTECODE -> r = sem (E_binary_op op) -> outcome base e e' f w r.
Proof.
  intros E Hop Hr. eapply (runs_byte _ _ (op_binary (I:=I) (W:=W) code op)); [exact E|unfold_ops; lia|apply plain_default; unfold_ops; lia| |].
  - intros g. by apply entry_binary.
  - rewrite Hr. cbn [call_sem]. unfold op_binary, binary_op.
    rewrite (proj2 (Z.eqb_neq op MP_BINARY_OP_NOT_IN)), (proj2 (Z.eqb_neq op MP_BINARY_OP_IS_NOT)) by (unfold_ops; lia).
    run_steps.
Qed.

Lemma runs_const d b v : emit_write_bytecode_byte e d b = Some e' -> 0 <= b < 256 -> plain_opcode b = true ->
  (forall g, entry code b (entries code) g = op_load_const (I:=I) (W:=W) code v g) ->
  r = Some (inr (push v (stack f)), (fastn f, w)) -> outcome base e e' f w r.
Proof.
  intros E Hb Hop Hh Hr. eapply runs_byte; [exact E|done..|]. rewrite Hr. by apply (executes_push f _ _ (stack f) v w).
Qed.

Lemma runs_load_const_tok t : t <> MP_TOKEN_ELLIPSIS -> mp_emit_bc_load_const_tok e t = Some e' ->
  r = sem (E_load_const_tok t) -> outcome base e e' f w r.
Proof.
  intros Ht E Hr. unfold mp_emit_bc_load_const_tok in E. rewrite bool_decide_eq_false_2 in E by done.
  apply bind_Some in E as (k & Ek & E). cbn [call_sem] in Hr.
  destruct t; cbn [token_value] in Hr; try (rewrite Hr; exact Logic.I); try done; cbn in Ek; injection Ek as <-.
  all: eapply runs_const; [exact E|done|done|reflexivity|exact Hr].
Qed.

Lemma runs_load_const_small_int n : mp_emit_bc_load_const_small_int e n = Some e' -> - 2 ^ 31 <= n < 2 ^ 31 ->
  r = sem (E_load_const_small_int n) -> outcome base e e' f w r.
Proof.
  intros E Hn Hr. unfold mp_emit_bc_load_const_small_int in E. destruct (MP_SMALL_INT_FITS n) eqn:Ef; [cbn [negb] in E|done].
  destruct (_ && _) eqn:Es.
  - apply andb_true_iff in Es as [E1%Z.leb_le E2%Z.ltb_lt]. eapply runs_const; [exact E|unfold_ops; lia| | |exact Hr].
    + apply plain_default; unfold_ops; lia.
    + intros g. rewrite entry_default by (unfold_ops; lia). default_op. unfold op_load_const. do 2 f_equal. unfold_ops; lia.
  - rewrite fits_spec in Ef by done. apply andb_true_iff in Ef as [E1%Z.leb_le E2%Z.leb_le].
    unfold MP_SMALL_INT_MIN, MP_SMALL_INT_MAX in *. eapply runs_int; [exact E|done|lia|done|reflexivity|].
    intros p. rewrite Hr. cbn [call_sem]. rewrite wraps_small by lia. run_steps.
Qed.

Lemma runs_load_const_str q : mp_emit_bc_load_const_str e q = Some e' -> fits q ->
  r = sem (E_load_const_str q) -> outcome base e e' f w r.
Proof.
  intros E Hf Hr. eapply runs_uint; [exact E|done|exact Hf|done|reflexivity|]; intros p; rewrite Hr; cbn [call_sem]. run_steps.
Qed.

Lemma executes_load_local g p n k st : g = moved f p st (fastn f) ->
  executes f p (match k with
     | MP_EMIT_IDOP_LOCAL_FAST => s ←v fast g n; load_check code g s
     | MP_EMIT_IDOP_LOCAL_DEREF => c ←v fast_cell g n; s ←v call (mp_obj_cell_get c); load_check code g s
     end) w (andthen (load_local n k) (fun s => done (s :: st)) (fastn f, w)).
Proof.
  intros Hg. unfold load_local. rewrite andthen_assoc. destruct k.
  - apply executes_fast; [by rewrite Hg|]. intros s. by apply executes_load_check.
  - unfold executes, fast_cell, bind, fast, as_value, andthen, get_local, run. rewrite Hg. cbn [fastn moved].
    destruct (n <? 0); [done|]. destruct (fastn f !! Z.to_nat n) as [[|c|p'|i|]|]; try done. cbn.
    destruct (mp_obj_cell_get c w) as [[ex|s] w']; [done|]. exact (executes_load_check f _ p st s w' eq_refl).
Qed.

Lemma runs_load_local q n k : mp_emit_bc_load_local e n k = Some e' -> fits n ->
  r = sem (E_load_local q n k) -> outcome base e e' f w r.
Proof.
  intros E Hf Hr. unfold mp_emit_bc_load_local in E. destruct (fast_multi k n) eqn:Em.
  - destruct k; [|done]. apply Z.leb_le in Em. unfold fits in Hf.
    eapply (runs_byte _ _ (fun g => s ←v fast g n; load_check code g s)); [exact E|unfold_ops; lia|apply plain_default; unfold_ops; lia| |].
    + intros g. rewrite entry_default by (unfold_ops; lia). default_op. do 2 f_equal. unfold_ops; lia.
    + rewrite Hr. cbn [call_sem]. by apply (executes_load_local _ _ n MP_EMIT_IDOP_LOCAL_FAST).
  - destruct k; (eapply runs_uint; [exact E|done|exact Hf|done|reflexivity|]); intros p; rewrite Hr; cbn [call_sem].
    + by apply (executes_load_local _ _ n MP_EMIT_IDOP_LOCAL_FAST).
    + by apply (executes_load_local _ _ n MP_EMIT_IDOP_LOCAL_DEREF).
Qed.

Lemma executes_store_local g p n k s st : g = moved f p (s :: st) (fastn f) ->
  executes f p (match k with
     | MP_EMIT_IDOP_LOCAL_FAST => '(s, g) ←v POP g; g ←v set_fast g n s; ret (NEXT g)
     | MP_EMIT_IDOP_LOCAL_DEREF =>
         c ←v fast_cell g n; '(s, g) ←v POP g; _ ←v call (mp_obj_cell_set c s); ret (NEXT g)
     end) w (andthen (store_local n k s) (fun _ => done st) (fastn f, w)).
Proof.
  intros ->. unfold store_local. destruct k.
  - eapply executes_pop; [reflexivity|]. apply executes_set_fast; [done|]. intros l. by apply executes_next.
  - unfold executes, fast_cell, bind, fast, as_value, andthen, get_local, run. cbn [fastn moved].
    destruct (n <? 0); [done|]. destruct (fastn f !! Z.to_nat n) as [[|c|p'|i|]|]; try done. cbn.
    by destruct (mp_obj_cell_set c s w) as [[ex|[]] w'].
Qed.

Lemma runs_store_local q n k : mp_emit_bc_store_local e n k = Some e' -> fits n ->
  r = sem (E_store_local q n k) -> outcome base e e' f w r.
Proof.
  intros E Hf Hr. unfold mp_emit_bc_store_local in E. cbn [call_sem] in Hr. unfold fits in Hf.
  assert (stack f = [] \/ exists s st, stack f = s :: st) as [Es | (s & st & Es)] by (destruct (stack f); eauto);
    rewrite Es in Hr; [by rewrite Hr|]. destruct (fast_multi k n) eqn:Em.
  - destruct k; [|done]. apply Z.leb_le in Em.
    eapply (runs_byte _ _ (fun g => '(s, g) ←v POP g; g ←v set_fast g n s; ret (NEXT g)));
      [exact E|unfold_ops; lia|apply plain_default; unfold_ops; lia| |].
    + intros g. rewrite entry_default by (unfold_ops; lia). default_op.
      by replace (MP_BC_STORE_FAST_MULTI + n - MP_BC_STORE_FAST_MULTI) with n by lia.
    + rewrite Hr. apply (executes_store_local _ _ n MP_EMIT_IDOP_LOCAL_FAST). unfold moved, with_ip. by rewrite Es.
  - destruct k; (eapply runs_uint; [exact E|done|exact Hf|done|reflexivity|]); intros p; rewrite Hr.
    + apply (executes_store_local _ _ n MP_EMIT_IDOP_LOCAL_FAST). unfold moved, with_ip. by rewrite Es.
    + apply (executes_store_local _ _ n MP_EMIT_IDOP_LOCAL_DEREF). unfold moved, with_ip. by rewrite Es.
Qed.

Lemma vm_build n k : mp_emit_bc_build e n k = Some e' -> fits n -> k <> MP_EMIT_BUILD_SLICE ->
  r = sem (E_build n k) -> outcome base e e' f w r.
Proof.
  intros E Hf Hk Hr. destruct k; [..|done]; (eapply runs_uint; [exact E|done|exact Hf|done|reflexivity|]); intros p; rewrite Hr;
    cbn [call_sem]; [| |run_steps|].
  all: apply (executes_items f (with_ip f p) p n); intros vs st Hi; unfold build; run_steps.
Qed.

Lemma items_app (l st : list slot) n : Z.of_nat (length l) = n ->
  items n (l ++ st) = vs ← mapM slot_value (rev l); Some (vs, st).
Proof.
  intros <-. unfold items. rewrite length_app, Nat2Z.id, (proj2 (Z.leb_le _ _)), (proj2 (Z.leb_le _ _)) by lia.
  cbn [andb]. by rewrite take_app_length, drop_app_length.
Qed.

Lemma items_short n (st : list slot) : Z.of_nat (length st) < n -> items n st = None.
Proof. intros Hn. unfold items. rewrite (proj2 (Z.leb_gt n _)), andb_false_r by lia. done. Qed.

(** The byte of a slice is read as it is. *)
Lemma runs_build_slice n : mp_emit_bc_build e n MP_EMIT_BUILD_SLICE = Some e' ->
  r = sem (E_build n MP_EMIT_BUILD_SLICE) -> outcome base e e' f w r.
Proof.
  intros E Hr. destruct (decide (n = 2 \/ n = 3)) as [Hn|Hn].
  2: { rewrite Hr. cbn [call_sem]. unfold items. destruct (_ && _) eqn:Eb; [|exact Logic.I].
       apply andb_true_iff in Eb as [E1%Z.leb_le E2%Z.leb_le].
       destruct (mapM _ _) as [vs|] eqn:Em; [|exact Logic.I]. cbn. apply mapM_Some, Forall2_length in Em.
       rewrite length_rev, length_take in Em. destruct vs as [|? [|? [|? [|? ?]]]]; try exact Logic.I; cbn in Em; lia. }
  apply bind_Some in E as (e1 & E1 & E2). assert (mp_encode_uint n = Some [n]) as Eb by by destruct Hn as [-> | ->].
  rewrite Eb in E2. cbn in E2. apply (runs_instr MP_BC_BUILD_SLICE [n]); [|done|].
  - eapply byte_bytes_instr; [exact Hin|exact (i_agrees _ _ _ _ _ Hin')|exact Hlive|done|exact E1|exact E2].
  - intros rest Hbytes. change (entry code _ _) with (op_build_slice (I:=I) (W:=W) code).
    assert (byte_at code (ip f + 1) = Some n) as Hb by (unfold byte_at; by rewrite (bytes_at_next _ _ _ _ Hbytes)).
    unfold op_build_slice. cbn [ip with_ip]. rewrite Hb, Hr. cbn [call_sem]. destruct Hn as [-> | ->].
    + destruct (stack f) as [|a [|b st]] eqn:Es; try by rewrite items_short by (cbn; lia).
      assert (items 2 (a :: b :: st) = vs ← mapM slot_value [b; a]; Some (vs, st)) as -> by exact (items_app [a; b] st 2 eq_refl).
      destruct b as [|start|x|i|]; try exact Logic.I. destruct a as [|stop|x|i|]; try exact Logic.I.
      change (vs ← mapM slot_value _; _) with (Some ([start; stop], st)). cbn [build].
      eapply executes_ret, executes_ret. run_steps.
    + destruct (stack f) as [|a [|b [|c st]]] eqn:Es; try by rewrite items_short by (cbn; lia).
      assert (items 3 (a :: b :: c :: st) = vs ← mapM slot_value [c; b; a]; Some (vs, st)) as ->
        by exact (items_app [a; b; c] st 3 eq_refl).
      destruct c as [|start|x|i|]; try exact Logic.I. destruct b as [|stop|x|i|]; try exact Logic.I.
      destruct a as [|step|x|i|]; try exact Logic.I.
      change (vs ← mapM slot_value _; _) with (Some ([start; stop; step], st)). cbn [build].
      eapply executes_ret. change (3 =? 3) with true. cbv iota. run_steps.
Qed.

Lemma runs_store_map : mp_emit_bc_store_map e = Some e' -> r = sem E_store_map -> outcome base e e' f w r.
Proof.
  intros E Hr. byte_call E (op_store_map (X:=X) (I:=I) (W:=W)) Hr. unfold op_store_map. run_steps. cbn [stack with_stack].
  run_steps.
Qed.

Lemma runs_get_iter : mp_emit_bc_get_iter e false = Some e' -> r = sem (E_get_iter false) -> outcome base e e' f w r.
Proof. intros E Hr. byte_call E (op_get_iter (X:=X) (I:=I) (W:=W) code) Hr. unfold op_get_iter. run_steps. Qed.

Lemma runs_unpack n : mp_emit_bc_unpack_sequence e n = Some e' -> fits n -> r = sem (E_unpack_sequence n) ->
  outcome base e e' f w r.
Proof.
  intros E Hf Hr. eapply runs_uint; [exact E|done|exact Hf|done|reflexivity|]; intros p; rewrite Hr; cbn [call_sem].
  run_steps. intros Hroom. unfold PUSH_ALL, bind. cbn [stack with_stack]. by rewrite (proj2 (Nat.leb_le _ _)).
Qed.

Lemma runs_call_function p k : mp_emit_bc_call_function e p k false = Some e' -> 0 <= p < 256 /\ 0 <= k < 256 ->
  r = sem (E_call_function p k false) -> outcome base e e' f w r.
Proof.
  intros E [Hp Hk] Hr. destruct (packed_args p k Hp Hk) as (Hf & H1 & H2 & H3).
  eapply runs_uint; [exact E|done|exact Hf|done|reflexivity|]; intros q. rewrite Hr, H3. cbn [call_sem].
  apply (executes_items f (with_ip f q) q (p + 2 * k)). intros vs st Hi. rewrite H1, H2. run_steps.
Qed.

Lemma runs_call_method p k : mp_emit_bc_call_method e p k false = Some e' -> 0 <= p < 256 /\ 0 <= k < 256 ->
  r = sem (E_call_method p k false) -> outcome base e e' f w r.
Proof.
  intros E [Hp Hk] Hr. destruct (packed_args p k Hp Hk) as (Hf & H1 & H2 & H3).
  eapply runs_uint; [exact E|done|exact Hf|done|reflexivity|]; intros q. rewrite Hr, H3. cbn [call_sem].
  apply (executes_items f (with_ip f q) q (p + 2 * k)). intros vs st Hi. rewrite H1, H2. run_steps.
Qed.

End one.
(** ** Constants *)

Lemma find_const_ok (l : list (obj F)) o i j : find_const l o i = Some (Some j) ->
  exists c, (i <= j)%nat /\ l !! (j - i)%nat = Some c /\ strictly_equal c o = Some true.
Proof.
  revert i. induction l as [|c l IH]; intros i; cbn; [done|]. destruct (strictly_equal c o) as [[]|] eqn:Ec; cbn; [| |done].
  - intros [= <-]. exists c. by rewrite Nat.sub_diag.
  - intros (c' & Hle & Hl & He)%IH. exists c'. split; [lia|]. split; [|done].
    by replace (j - i)%nat with (S (j - S i)) by lia.
Qed.

(** The constant used for an object has its value. *)
Lemma use_const_ok e o e1 i : Forall const_ok (const_obj_list e) -> const_ok o -> mp_emit_common_use_const_obj e o = Some (e1, i) ->
  exists c cs, e1 = with_common e cs (children e) /\ cs !! i = Some c /\ const_value c = const_value o.
Proof.
  intros Hall Ho. unfold mp_emit_common_use_const_obj. intros ([j|] & E & [= <- <-])%bind_Some.
  - apply find_const_ok in E as (c & _ & Hc & He). rewrite Nat.sub_0_r in Hc. exists c, (const_obj_list e).
    split; [by destruct e|]. split; [done|]. apply (equal_values code consts const_value); [|done..].
    exact (Forall_lookup_1 _ _ _ _ Hall Hc).
  - exists o, (const_obj_list e ++ [o]). split; [done|]. split; [|done]. by rewrite lookup_app_r, Nat.sub_diag.
Qed.

Lemma Forall_prefix_const e : installed e -> Forall const_ok (const_obj_list e).
Proof.
  intros Hin. destruct (i_consts _ _ _ _ _ Hin) as [k Hk]. pose proof (table_ok code consts const_value) as Hall.
  rewrite Hk in Hall. by apply Forall_app in Hall as [? _].
Qed.

Lemma runs_obj e e' f base w o r : installed e -> installed e' -> suppress e = false -> at_state e f ->
  base `suffix_of` stack f -> (forall st s', r = Some (inr st, s') -> Z.of_nat (length st) = cur_stack e') ->
  const_ok o -> emit_write_bytecode_byte_obj e 1 MP_BC_LOAD_CONST_OBJ o = Some e' ->
  r = Some (inr (push (const_value o) (stack f)), (fastn f, w)) -> outcome base e e' f w r.
Proof.
  intros Hin Hin' Hlive [Hip Hd Hi] Hbase Hlen Hok E Hr. unfold emit_write_bytecode_byte_obj in E.
  apply bind_Some in E as ([e1 i] & Eu & E). apply use_const_ok in Eu as (c & cs & -> & Hc & Hv); [|by eapply Forall_prefix_const|done].
  set (e1 := with_common e cs (children e)) in *.
  assert (cs `prefix_of` consts) as Hcs.
  { pose proof (emits_uint e1 _ _ _ _ (i_pass _ _ _ _ _ Hin) E) as [G _ _].
    etransitivity; [exact (g_consts _ _ G)|exact (i_consts _ _ _ _ _ Hin')]. }
  assert (installed e1) as Hin1 by (destruct Hin; by split).
  assert (consts !! i = Some c) as Hci by by eapply prefix_lookup_Some.
  eapply (runs_uint e1 e' f base w r Hin1 Hin' Hlive ltac:(by split) Hbase Hlen); [exact E|done| |done|reflexivity|].
  - pose proof (table_small code consts const_value). apply lookup_lt_Some in Hci. lia.
  - assert (obj_table code !! Z.to_nat (Z.of_nat i) = Some (const_value o)) as Ho.
    { by rewrite (table_values code consts const_value), list_lookup_fmap, Nat2Z.id, Hci, <- Hv. }
    intros p. rewrite Hr, Ho. exact (executes_push f (with_ip f p) p (stack f) (const_value o) w eq_refl).
Qed.

(** ** Sequences *)

Lemma outcome_bind base e e1 e' f w r (k : list slot -> ev (list slot)) :
  pc e <= pc e1 -> pc e1 <= pc e' -> outcome base e e1 f w r ->
  (forall st l w1, r = Some (inr st, (l, w1)) -> outcome base e1 e' (moved f (pc e1) st l) w1 (k st (l, w1))) ->
  outcome base e e' f w ('(r, s) ← r; match r with inl ex => Some (inl ex, s) | inr st => k st s end).
Proof.
  intros Hp1 Hp2 Ho Hk. destruct r as [[[ex|st] [l w1]]|]; cbn in *; [|destruct Ho as (_ & Hst & _)|done].
  - eapply raises_weaken; [reflexivity|..|exact Ho]; lia.
  - specialize (Hk st l w1 eq_refl). unfold VmRun.outcome in Hk |- *.
    destruct (k st (l, w1)) as [[[ex|st'] [l' w']]|]; [| |done].
    + eapply raises_weaken; [reflexivity|exact Hp1|reflexivity|]. by eapply raises_after.
    + destruct Hk as (Hs & Hst' & Hl). split; [done|]. split; [|done]. by eapply steps_trans.
Qed.

Lemma placed_pc e cs e' : placed e cs e' -> pc e <= pc e'.
Proof.
  intros P. pose proof (placed_base _ _ _ _ _ _ _ _ P) as Hb. destruct P as [E Hin _].
  apply emit_calls_emits in E as [G _ _]; [|exact (i_pass _ _ _ _ _ Hin)]. pose proof (g_offset _ _ G). unfold pc. lia.
Qed.

Lemma at_state_moved e f st l : inject_exc f = None -> Z.of_nat (length st) = cur_stack e ->
  at_state e (moved f (pc e) st l).
Proof. intros Hi Hl. by split. Qed.

Lemma runs_source_line e e' line f base w : placed e [E_set_source_line line] e' -> suppress e = false -> at_state e f ->
  outcome base e e' f w (Some (inr (stack f), (fastn f, w))).
Proof.
  intros (E & Hin & _)%placed_one Hs [Hip Hd Hi]. apply source_line_grows in E as [G [S1 S2 S3 S4]]; [|exact (i_pass _ _ _ _ _ Hin)].
  assert (pc e' = ip f) as Hpc by (unfold pc in *; rewrite S3, (g_info _ _ G); done). cbn. rewrite S1, Hpc, S2.
  split; [done|]. split; [|done]. replace (moved f (ip f) (stack f) (fastn f)) with f by by destruct f. apply steps_refl.
Qed.

(** ** Every call *)

Definition negated (c : emit_call F) : bool :=
  match c with E_binary_op op => (op =? MP_BINARY_OP_NOT_IN) || (op =? MP_BINARY_OP_IS_NOT) | _ => false end.

Ltac by_family lem :=
  match goal with
  | Hin : installed ?e, Hin' : installed ?e', Hlive : suppress ?e = false, Hat : at_state ?e ?f, Hbase : _ `suffix_of` stack ?f,
    Hlen : forall st s', ?r = Some (inr st, s') -> _ |- outcome _ _ _ _ ?w _ =>
      eapply (lem e e' f _ w r Hin Hin' Hlive Hat Hbase Hlen); first [eassumption|reflexivity]
  end.

Lemma call_runs_one e c e' f base w : placed e [c] e' -> suppress e = false -> call_fits c -> negated c = false ->
  at_state e f -> base `suffix_of` stack f -> outcome base e e' f w (call_sem const_value c (stack f) (fastn f, w)).
Proof.
  intros P Hlive Hfit Hneg Hat Hbase. pose proof (placed_one _ _ _ _ _ _ _ _ P) as (E & Hin & Hin').
  assert (forall st s', call_sem const_value c (stack f) (fastn f, w) = Some (inr st, s') -> Z.of_nat (length st) = cur_stack e') as Hlen.
  { intros st s' Hc. apply call_sem_length in Hc. rewrite Hc, (at_depth _ _ Hat).
    rewrite (placed_effect _ _ _ _ _ _ _ _ P). unfold effect. cbn [foldr]. lia. }
  set (r := call_sem const_value c (stack f) (fastn f, w)) in *.
  destruct c; cbn [emit_bc call_fits] in *; try exact Logic.I.
  - exact (runs_source_line _ _ _ _ _ _ P Hlive Hat).
  - exact (runs_load_local e e' f base w r Hin Hin' Hlive Hat Hbase Hlen qst n k E Hfit eq_refl).
  - by_family runs_load_global.
  - exact (runs_store_local e e' f base w r Hin Hin' Hlive Hat Hbase Hlen qst n k E Hfit eq_refl).
  - by_family runs_store_global.
  - destruct (decide (tok = MP_TOKEN_ELLIPSIS)) as [->|Ht]; [by eapply (runs_obj e e' f base w O_ELLIPSIS r)|].
    eapply (runs_load_const_tok e e' f base w r Hin Hin' Hlive Hat Hbase Hlen tok Ht E eq_refl).
  - by_family runs_load_const_small_int.
  - by_family runs_load_const_str.
  - by eapply (runs_obj e e' f base w o r).
  - destruct is_super; [exact Logic.I|]. by_family runs_load_method.
  - destruct k; [by_family runs_subscr_load|by_family runs_subscr_store|exact Logic.I].
  - destruct k; [by_family runs_attr_load|by_family runs_attr_store|exact Logic.I].
  - by_family runs_dup_top.
  - by_family runs_dup_top_two.
  - by_family runs_pop_top.
  - by_family runs_rot_two.
  - by_family runs_rot_three.
  - destruct use_stack; [exact Logic.I|]. by_family runs_get_iter.
  - by_family runs_unary_op.
  - unfold negated in Hneg. apply orb_false_iff in Hneg as [H1%Z.eqb_neq H2%Z.eqb_neq].
    unfold mp_emit_bc_binary_op in E. rewrite (proj2 (Z.eqb_neq _ _) H1), (proj2 (Z.eqb_neq _ _) H2) in E.
    apply bind_Some in E as (e1 & E & [= ->]).
    eapply (vm_binary_op e e' f base w r Hin Hin' Hlive Hat Hbase Hlen op E); [|reflexivity]. by destruct Hfit as [|[|]].
  - destruct (decide (k = MP_EMIT_BUILD_SLICE)) as [->|Hk]; [by_family runs_build_slice|].
    eapply (vm_build e e' f base w r Hin Hin' Hlive Hat Hbase Hlen n_args k E Hfit Hk eq_refl).
  - by_family runs_store_map.
  - by_family runs_unpack.
  - destruct star_flags; [exact Logic.I|]. by_family runs_call_function.
  - destruct star_flags; [exact Logic.I|]. by_family runs_call_method.
Qed.

(** A negated operator is an operator and [not]. *)
Lemma placed_negated e op op' e' : (op = MP_BINARY_OP_NOT_IN /\ op' = MP_BINARY_OP_IN \/ op = MP_BINARY_OP_IS_NOT /\ op' = MP_BINARY_OP_IS) ->
  placed e [E_binary_op op] e' -> placed e [E_binary_op op'; E_unary_op MP_UNARY_OP_NOT] e'.
Proof.
  intros Hop [E Hin Hin']. split; [|done..]. cbn in E |- *. destruct Hop as [[-> ->]|[-> ->]]; unfold mp_emit_bc_binary_op in *; cbn in *.
  all: destruct (emit_write_bytecode_byte e _ _) as [e1|]; cbn in *; [|done]; exact E.
Qed.

Lemma negated_sem op op' (st : list slot) s :
  (op = MP_BINARY_OP_NOT_IN /\ op' = MP_BINARY_OP_IN \/ op = MP_BINARY_OP_IS_NOT /\ op' = MP_BINARY_OP_IS) ->
  call_sem const_value (E_binary_op op) st s =
  '(r, s) ← call_sem const_value (E_binary_op op') st s;
  match r with inl ex => Some (inl ex, s) | inr st => call_sem const_value (E_unary_op MP_UNARY_OP_NOT) st s end.
Proof.
  intros Hop. destruct st as [|[|rhs|p|i|] [|[|lhs|p'|i'|] st]]; try done. destruct s as [l w].
  cbn [call_sem]. unfold binary_op. destruct Hop as [[-> ->]|[-> ->]]; cbn; unfold andthen, run, done; cbn.
  all: destruct (rt_binary_op _ lhs rhs w) as [[ex|v] w1]; cbn; [done|].
  all: by destruct (rt_unary_op _ v w1) as [[ex|v'] w2].
Qed.

Lemma binary_suffix op base (st st' : list slot) s s' : call_sem const_value (E_binary_op op) st s = Some (inr st', s') ->
  base `suffix_of` drop 2 st -> base `suffix_of` st'.
Proof.
  destruct st as [|[|rhs|p|i|] [|[|lhs|p'|i'|] st]]; try done. cbn [call_sem drop].
  intros (v & s1 & _ & [= <- <-])%andthen_ok Hs. by apply suffix_cons_r.
Qed.

(** What the emitter writes for a call has the effect of the call. *)
Theorem call_runs e c e' f base w : placed e [c] e' -> suppress e = false -> call_fits c ->
  at_state e f -> base `suffix_of` drop (Z.to_nat (pops c)) (stack f) ->
  outcome base e e' f w (call_sem const_value c (stack f) (fastn f, w)).
Proof.
  intros P Hlive Hfit Hat Hbase.
  assert (base `suffix_of` stack f) as Hb by (etransitivity; [exact Hbase|apply suffix_drop]).
  destruct (negated c) eqn:Hneg; [|by apply call_runs_one].
  destruct c; try done. cbn [negated] in Hneg. apply orb_true_iff in Hneg. rewrite !Z.eqb_eq in Hneg.
  assert (exists op', (op = MP_BINARY_OP_NOT_IN /\ op' = MP_BINARY_OP_IN \/ op = MP_BINARY_OP_IS_NOT /\ op' = MP_BINARY_OP_IS))
    as [op' Hop] by (destruct Hneg; eauto).
  rewrite (negated_sem op op') by done.
  pose proof (placed_negated e op op' e' Hop P) as P2. apply placed_cons in P2 as (e1 & P1 & P2).
  pose proof (placed_pc _ _ _ P1). pose proof (placed_pc _ _ _ P2).
  assert (outcome base e e1 f w (call_sem const_value (E_binary_op op') (stack f) (fastn f, w))) as O1.
  { apply call_runs_one; try done; destruct Hop as [[-> ->]|[-> ->]]; unfold call_fits; try done; by left. }
  apply (outcome_bind base e e1 e'); [done..|]. intros st l w1 Hst. rewrite Hst in O1. destruct O1 as (Hs1 & _ & Hl).
  apply (call_runs_one e1 (E_unary_op MP_UNARY_OP_NOT) e' (moved f (pc e1) st l) base w1 P2 Hs1); [done|done| |].
  - apply at_state_moved; [exact (at_inject _ _ Hat)|done].
  - by eapply binary_suffix.
Qed.
End calls.
