(* ===== verification/Eval.v ===== *)
(** What an expression means: its evaluation from left to right, with the
    operations of the runtime, without code, labels or stack.  The forms are those
    that make no scope of their own; an expression of another form has no
    meaning here. *)

From Stdlib Require Import ZArith Lia.
From stdpp Require Import base option list numbers.
From S2P Require Import Prelude Mpn IntObj Lexer HashMap Qstr Grammar Parse Bytecode Scope EmitBc Compile Vm CallSem.

(** * Definitions *)

(** ** The forms *)

Section forms.
Context {F : Type} {lit : mp_token_kind_t -> Prop}.
Abbreviation node := (parse_node F).
Implicit Types pn : node.

(** The operators between operands, whatever they are, and the operands. *)
Inductive between (operand : node -> Prop) : list node -> Prop :=
  | between_nil : between operand []
  | between_cons op pn nodes : operand pn -> between operand nodes -> between operand (op :: pn :: nodes).

(** So few that their number fits in an instruction. *)
Definition few (bound : Z) (nodes : list node) : Prop := Z.of_nat (length nodes) < bound.

(** The expressions whose tokens are those of [lit]. *)
Inductive expression : node -> Prop :=
  | X_SMALL_INT n : MP_SMALL_INT_MIN <= n <= MP_SMALL_INT_MAX -> expression (PN_SMALL_INT n)
  | X_ID s : expression (PN_ID s)
  | X_STRING s : expression (PN_STRING s)
  | X_CONST line o : const_ok o -> expression (PN_CONST line o)
  | X_TOKEN t : lit t -> expression (PN_TOKEN t)
  | X_or_test line pn nodes : expression pn -> Forall expression nodes -> expression (PN_STRUCT line RULE_or_test (pn :: nodes))
  | X_and_test line pn nodes : expression pn -> Forall expression nodes -> expression (PN_STRUCT line RULE_and_test (pn :: nodes))
  | X_not_test line pn : expression pn -> expression (PN_STRUCT line RULE_not_test_2 [pn])
  | X_test_if line l1 success cond failure : expression success -> expression cond -> expression failure ->
      expression (PN_STRUCT line RULE_test_if_expr [success; PN_STRUCT l1 RULE_test_if_else [cond; failure]])
  | X_namedexpr line q pn : expression pn -> expression (PN_STRUCT line RULE_namedexpr_test [PN_ID q; pn])
  | X_comparison line pn nodes : expression pn -> between expression nodes ->
      expression (PN_STRUCT line RULE_comparison (pn :: nodes))
  | X_binary_op line kind pn nodes : kind = RULE_expr \/ kind = RULE_xor_expr \/ kind = RULE_and_expr ->
      expression pn -> Forall expression nodes -> expression (PN_STRUCT line kind (pn :: nodes))
  | X_term line kind pn nodes : kind = RULE_shift_expr \/ kind = RULE_arith_expr \/ kind = RULE_term ->
      expression pn -> between expression nodes -> expression (PN_STRUCT line kind (pn :: nodes))
  | X_factor line op pn : expression pn -> expression (PN_STRUCT line RULE_factor_2 [op; pn])
  | X_power line lhs rhs : expression lhs -> expression rhs -> expression (PN_STRUCT line RULE_power [lhs; rhs])
  | X_tuple line kind nodes : kind = RULE_testlist \/ kind = RULE_subscriptlist \/ kind = RULE_testlist_star_expr ->
      Forall expression nodes -> few (2 ^ 32) nodes -> expression (PN_STRUCT line kind nodes)
  | X_paren line pn nodes : sequence pn nodes -> expression (PN_STRUCT line RULE_atom_paren [pn])
  | X_bracket line pn nodes : sequence pn nodes -> expression (PN_STRUCT line RULE_atom_bracket [pn])
  | X_bracket_one line pn : expression pn -> expression (PN_STRUCT line RULE_atom_bracket [pn])
  | X_slice line pn : slice_end pn -> expression (PN_STRUCT line RULE_subscript_3 [pn])
  | X_slice_from line l1 start pn : expression start -> slice_end pn ->
      expression (PN_STRUCT line RULE_subscript_2 [start; PN_STRUCT l1 RULE_subscript_3 [pn]])
  | X_atom_expr line subject pn trail : expression subject -> subject <> PN_ID MP_QSTR_super -> trailers pn trail -> Forall trailer trail ->
      expression (PN_STRUCT line RULE_atom_expr_normal [subject; pn])
(** The items of a display, where none is nothing. *)
with sequence : node -> list node -> Prop :=
  | S_none : sequence PN_NULL []
  | S_items line items : Forall expression items -> few (2 ^ 32) items -> sequence (PN_STRUCT line RULE_testlist_comp items) items
(** The end and the step of a slice. *)
with slice_end : node -> Prop :=
  | S_null : slice_end PN_NULL
  | S_stop pn : expression pn -> slice_end pn
  | S_step line pn : optional pn -> slice_end (PN_STRUCT line RULE_subscript_3c [pn])
  | S_stop_step line l1 stop pn : expression stop -> optional pn ->
      slice_end (PN_STRUCT line RULE_subscript_3d [stop; PN_STRUCT l1 RULE_sliceop [pn]])
with optional : node -> Prop :=
  | O_none : optional PN_NULL
  | O_some pn : expression pn -> optional pn
with trailers : node -> list node -> Prop :=
  | T_none : trailers PN_NULL []
  | T_many line trail : trailers (PN_STRUCT line RULE_atom_expr_trailers trail) trail
  | T_one pn : trailer pn -> trailers pn [pn]
with trailer : node -> Prop :=
  | T_paren line pn args : arguments pn args -> Forall argument args -> few 256 args -> trailer (PN_STRUCT line RULE_trailer_paren [pn])
  | T_bracket line pn : expression pn -> trailer (PN_STRUCT line RULE_trailer_bracket [pn])
  | T_period line q : trailer (PN_STRUCT line RULE_trailer_period [PN_ID q])
with arguments : node -> list node -> Prop :=
  | A_none : arguments PN_NULL []
  | A_many line args : arguments (PN_STRUCT line RULE_arglist args) args
  | A_one pn : argument pn -> arguments pn [pn]
with argument : node -> Prop :=
  | A_positional pn : expression pn -> argument pn
  | A_keyword line q pn : expression pn -> argument (PN_STRUCT line RULE_argument [PN_ID q; pn]).

(** The nodes that a function looking at a child of a form does not single out. *)
Definition plain pn : Prop :=
  match pn with
  | PN_NULL => False
  | PN_STRUCT _ (RULE_arglist_star | RULE_arglist_dbl_star | RULE_argument | RULE_argument_3 | RULE_comp_for
                 | RULE_arglist | RULE_subscript_3c | RULE_subscript_3d
                 | RULE_testlist_comp) _ => False
  | _ => True
  end.

Lemma expression_plain pn : expression pn -> plain pn.
Proof. by destruct 1; repeat match goal with H : _ \/ _ |- _ => destruct H end; subst. Qed.

Lemma plain_not_null pn : plain pn -> is_null pn = false.
Proof. by destruct pn. Qed.

End forms.

(** The tokens that are values. *)
Definition literal_token (t : mp_token_kind_t) : Prop :=
  match t with MP_TOKEN_KW_FALSE | MP_TOKEN_KW_NONE | MP_TOKEN_KW_TRUE | MP_TOKEN_ELLIPSIS => True | _ => False end.

(** ** The evaluation *)

Section eval.
Context {F X I W : Type} `{FloatLiterals F} `{QstrNumbers} `{Runtime X I W} (const_value : obj F -> value X) (s : scope_t).
Abbreviation node := (parse_node F).
Abbreviation value := (value X).
Abbreviation ev := (ev (X:=X) (I:=I) (W:=W)).
Local Open Scope ev_scope.
Implicit Types pn : node.

Definition is_true (v : value) : ev bool := run (rt_is_true v).

Definition as_local (x : slot X I) : ev value := match x with S_VAL v => done v | _ => stuck end.

(** A name, by its kind in the scope. *)
Definition load_id (q : Z) : ev value :=
  match snd <$> scope_find s q with
  | Some i =>
      match id_kind i with
      | ID_INFO_KIND_GLOBAL_IMPLICIT | ID_INFO_KIND_GLOBAL_IMPLICIT_ASSIGNED => load_global q MP_EMIT_IDOP_GLOBAL_NAME
      | ID_INFO_KIND_GLOBAL_EXPLICIT => load_global q MP_EMIT_IDOP_GLOBAL_GLOBAL
      | ID_INFO_KIND_LOCAL => x ←e load_local (local_num i) MP_EMIT_IDOP_LOCAL_FAST; as_local x
      | ID_INFO_KIND_CELL | ID_INFO_KIND_FREE => x ←e load_local (local_num i) MP_EMIT_IDOP_LOCAL_DEREF; as_local x
      | ID_INFO_KIND_UNDECIDED => stuck
      end
  | None => stuck
  end.

Definition store_id (q : Z) (v : value) : ev unit :=
  match snd <$> scope_find s q with
  | Some i =>
      match id_kind i with
      | ID_INFO_KIND_GLOBAL_IMPLICIT | ID_INFO_KIND_GLOBAL_IMPLICIT_ASSIGNED => store_global q MP_EMIT_IDOP_GLOBAL_NAME v
      | ID_INFO_KIND_GLOBAL_EXPLICIT => store_global q MP_EMIT_IDOP_GLOBAL_GLOBAL v
      | ID_INFO_KIND_LOCAL => store_local (local_num i) MP_EMIT_IDOP_LOCAL_FAST (S_VAL v)
      | ID_INFO_KIND_CELL | ID_INFO_KIND_FREE => store_local (local_num i) MP_EMIT_IDOP_LOCAL_DEREF (S_VAL v)
      | ID_INFO_KIND_UNDECIDED => stuck
      end
  | None => stuck
  end.

Definition eval_op (op : option Z) (lhs rhs : value) : ev value :=
  match op with Some op => binary_op op lhs rhs | None => stuck end.

Section forms.
Variable eval : node -> ev value.
Variable eval_cond : node -> ev bool.
Variable eval_trailer : value -> node -> ev value.

Fixpoint eval_all (nodes : list node) : ev (list value) :=
  match nodes with [] => done [] | pn :: nodes => v ←e eval pn; vs ←e eval_all nodes; done (v :: vs) end.

(** The first operand whose truth is [stop], or else the last one. *)
Fixpoint eval_logic (stop : bool) pn (nodes : list node) : ev value :=
  v ←e eval pn;
  match nodes with
  | [] => done v
  | pn :: nodes => b ←e is_true v; if Bool.eqb b stop then done v else eval_logic stop pn nodes
  end.

Fixpoint eval_logic_cond (stop : bool) pn (nodes : list node) : ev bool :=
  b ←e eval_cond pn;
  match nodes with
  | [] => done b
  | pn :: nodes => if Bool.eqb b stop then done b else eval_logic_cond stop pn nodes
  end.

(** A chain of comparisons ends with the first that is false. *)
Fixpoint eval_comparison (lhs : value) (nodes : list node) : ev value :=
  match nodes with
  | [op; pn] => rhs ←e eval pn; eval_op (comparison_op op) lhs rhs
  | op :: pn :: nodes =>
      rhs ←e eval pn; v ←e eval_op (comparison_op op) lhs rhs; b ←e is_true v;
      if b then eval_comparison rhs nodes else done v
  | _ => done lhs
  end.

Fixpoint eval_same_op (op : Z) (lhs : value) (nodes : list node) : ev value :=
  match nodes with [] => done lhs | pn :: nodes => rhs ←e eval pn; v ←e binary_op op lhs rhs; eval_same_op op v nodes end.

Definition token_op (pn : node) : option Z :=
  match pn with PN_TOKEN t => op_from tokens_from_dbl_less MP_BINARY_OP_LSHIFT t | _ => None end.

Fixpoint eval_term (lhs : value) (nodes : list node) : ev value :=
  match nodes with
  | op :: pn :: nodes => rhs ←e eval pn; v ←e eval_op (token_op op) lhs rhs; eval_term v nodes
  | _ => done lhs
  end.

Definition eval_slice_end (start : value) pn : ev value :=
  let step (stop : value) pn :=
    if is_null pn then run (mp_obj_new_slice start stop V_NONE)
    else v ←e eval pn; run (mp_obj_new_slice start stop v) in
  match pn with
  | PN_NULL => run (mp_obj_new_slice start V_NONE V_NONE)
  | PN_STRUCT _ RULE_subscript_3c [pn] => step V_NONE pn
  | PN_STRUCT _ RULE_subscript_3d [stop; PN_STRUCT _ _ [pn]] => v ←e eval stop; step v pn
  | _ => v ←e eval pn; run (mp_obj_new_slice start v V_NONE)
  end.

(** The arguments: the numbers of positional ones and of keywords, and the values,
    where a keyword is a name and a value. *)
Fixpoint eval_arguments (args : list node) : ev (Z * Z * list value) :=
  match args with
  | [] => done (0, 0, [])
  | PN_STRUCT _ RULE_argument [PN_ID q; pn] :: args =>
      v ←e eval pn; '(p, k, vs) ←e eval_arguments args; done (p, k + 1, V_QSTR (qst_of q) :: v :: vs)
  | pn :: args => v ←e eval pn; '(p, k, vs) ←e eval_arguments args; done (p + 1, k, v :: vs)
  end.

(** A trailer on its own, and the trailers of a subject, where a method is called on
    the object it was found in. *)
Definition eval_trailer_body (v : value) pn : ev value :=
  match pn with
  | PN_STRUCT _ RULE_trailer_period [PN_ID q] => run (mp_load_attr v (qst_of q))
  | PN_STRUCT _ RULE_trailer_bracket [pn] => index ←e eval pn; run (mp_obj_subscr v index)
  | PN_STRUCT _ RULE_trailer_paren [pn] =>
      '(p, k, args) ←e eval_arguments (mp_parse_node_extract_list pn RULE_arglist);
      run (mp_call_function_n_kw v p k args)
  | _ => stuck
  end.

Fixpoint eval_trailers (v : value) (trail : list node) : ev value :=
  match trail with
  | [] => done v
  | PN_STRUCT _ RULE_trailer_period [PN_ID q] :: PN_STRUCT _ RULE_trailer_paren [pn] :: trail =>
      '(m, self) ←e run (mp_load_method v (qst_of q));
      '(p, k, args) ←e eval_arguments (mp_parse_node_extract_list pn RULE_arglist);
      v ←e run (mp_call_method_n_kw p k m self args); eval_trailers v trail
  | pn :: trail => v ←e eval_trailer v pn; eval_trailers v trail
  end.

Definition eval_sequence pn (make : list value -> rt value) : ev value :=
  match pn with
  | PN_NULL => run (make [])
  | PN_STRUCT _ RULE_testlist_comp items => vs ←e eval_all items; run (make vs)
  | _ => v ←e eval pn; run (make [v])
  end.

Definition eval_body pn : ev value :=
  match pn with
  | PN_SMALL_INT n => done (V_SMALL_INT n)
  | PN_ID t => load_id (qst_of t)
  | PN_STRING t => done (V_QSTR (qst_of t))
  | PN_CONST _ o => done (const_value o)
  | PN_TOKEN t => match token_value const_value t with Some v => done v | None => stuck end
  | PN_STRUCT _ RULE_or_test (pn :: nodes) => eval_logic true pn nodes
  | PN_STRUCT _ RULE_and_test (pn :: nodes) => eval_logic false pn nodes
  | PN_STRUCT _ RULE_not_test_2 [pn] => v ←e eval pn; run (rt_unary_op MP_UNARY_OP_NOT v)
  | PN_STRUCT _ RULE_test_if_expr [success; PN_STRUCT _ _ [cond; failure]] =>
      b ←e eval_cond cond; if b then eval success else eval failure
  | PN_STRUCT _ RULE_namedexpr_test [PN_ID t; pn] => v ←e eval pn; _ ←e store_id (qst_of t) v; done v
  | PN_STRUCT _ RULE_comparison (pn :: nodes) => v ←e eval pn; eval_comparison v nodes
  | PN_STRUCT _ RULE_expr (pn :: nodes) => v ←e eval pn; eval_same_op MP_BINARY_OP_OR v nodes
  | PN_STRUCT _ RULE_xor_expr (pn :: nodes) => v ←e eval pn; eval_same_op MP_BINARY_OP_XOR v nodes
  | PN_STRUCT _ RULE_and_expr (pn :: nodes) => v ←e eval pn; eval_same_op MP_BINARY_OP_AND v nodes
  | PN_STRUCT _ (RULE_shift_expr | RULE_arith_expr | RULE_term) (pn :: nodes) => v ←e eval pn; eval_term v nodes
  | PN_STRUCT _ RULE_factor_2 [PN_TOKEN t; pn] =>
      v ←e eval pn; match unary_op_of_token t with Some op => run (rt_unary_op op v) | None => stuck end
  | PN_STRUCT _ RULE_power [lhs; rhs] => v ←e eval lhs; u ←e eval rhs; binary_op MP_BINARY_OP_POWER v u
  | PN_STRUCT _ (RULE_testlist | RULE_subscriptlist | RULE_testlist_star_expr) nodes =>
      vs ←e eval_all nodes; run (mp_obj_new_tuple vs)
  | PN_STRUCT _ RULE_atom_paren [pn] => eval_sequence pn mp_obj_new_tuple
  | PN_STRUCT _ RULE_atom_bracket [pn] => eval_sequence pn mp_obj_new_list
  | PN_STRUCT _ RULE_subscript_3 [pn] => eval_slice_end V_NONE pn
  | PN_STRUCT _ RULE_subscript_2 [start; PN_STRUCT _ _ [pn]] => v ←e eval start; eval_slice_end v pn
  | PN_STRUCT _ RULE_atom_expr_normal [subject; PN_NULL] => eval subject
  | PN_STRUCT _ RULE_atom_expr_normal [subject; pn] =>
      v ←e eval subject;
      match get_trailers pn with Some trail => eval_trailers v trail | None => stuck end
  | _ => stuck
  end.

(** A condition is not a value: the logical operators test the truth of their
    operands. *)
Definition eval_cond_body pn : ev bool :=
  match pn with
  | PN_STRUCT _ RULE_or_test (pn :: nodes) => eval_logic_cond true pn nodes
  | PN_STRUCT _ RULE_and_test (pn :: nodes) => eval_logic_cond false pn nodes
  | PN_STRUCT _ RULE_not_test_2 [pn] => b ←e eval_cond pn; done (negb b)
  | _ => v ←e eval pn; is_true v
  end.

End forms.

(** The fuel is that of the compiler. *)
Fixpoint eval (fuel : nat) pn {struct fuel} : ev value :=
  match fuel with O => stuck | S fuel => eval_body (eval fuel) (eval_cond fuel) (eval_trailer fuel) pn end
with eval_cond (fuel : nat) pn {struct fuel} : ev bool :=
  match fuel with O => stuck | S fuel => eval_cond_body (eval fuel) (eval_cond fuel) pn end
with eval_trailer (fuel : nat) (v : value) pn {struct fuel} : ev value :=
  match fuel with O => stuck | S fuel => eval_trailer_body (eval fuel) v pn end.

(** What the runtime makes of the truth of the values of literals. *)
Class LiteralTruth := {
  truth_small_int n w : rt_is_true (V_SMALL_INT n) w = (inr (negb (n =? 0)), w);
  truth_qstr t w : rt_is_true (V_QSTR (qst_of t)) w = (inr (negb (length t =? 0)%nat), w);
  truth_none w : rt_is_true V_NONE w = (inr false, w);
  truth_false w : rt_is_true V_FALSE w = (inr false, w);
  truth_true w : rt_is_true V_TRUE w = (inr true, w);
  truth_const o b w : mp_obj_is_true o = inr b -> rt_is_true (const_value o) w = (inr b, w);
  truth_empty_tuple w : exists v, mp_obj_new_tuple [] w = (inr v, w) /\ rt_is_true v w = (inr false, w);
}.

End eval.
