(* ===== verification/CompileShape.v ===== *)
(** What compiling an expression leaves of the compiler and of the stack: the scope
    is not changed, and the calls push one value. *)

From Stdlib Require Import ZArith Lia.
From stdpp Require Import base option list numbers.
From S2P Require Import Prelude Mpn IntObj Lexer HashMap Qstr Grammar Parse Bytecode Scope EmitBc Compile CodeAt Vm CallSem Eval.

Section shape.
Context {F : Type} `{FloatLiterals F} `{QstrNumbers} (opt_level : Z) (s : scope_t).
Context {lit : mp_token_kind_t -> Prop} (lit_newline : forall t, lit t -> t <> MP_TOKEN_NEWLINE).
Abbreviation node := (parse_node F).
Abbreviation expression := (expression (F:=F) (lit:=lit)).
Abbreviation sequence := (sequence (F:=F) (lit:=lit)).
Abbreviation slice_end := (slice_end (F:=F) (lit:=lit)).
Abbreviation optional := (optional (F:=F) (lit:=lit)).
Abbreviation trailer := (trailer (F:=F) (lit:=lit)).
Abbreviation argument := (argument (F:=F) (lit:=lit)).
Abbreviation arguments := (arguments (F:=F) (lit:=lit)).
Abbreviation trailers := (trailers (F:=F) (lit:=lit)).
Abbreviation comp_m := (comp_m (F:=F)).
Implicit Types (pn : node) (m : comp_m) (c : compiler_t).

(** A pass after the first one over the scope [s]. *)
Record scope_ok c : Prop := { ok_scope : scope_cur c = s; ok_pass : comp_pass c <> MP_PASS_SCOPE }.

Definition keeps_at c (d : Z) m : Prop := forall c' cs, m c = Some (c', cs) ->
  scope_ok c' /\ (compile_error c' = None -> compile_error c = None /\ effect cs = d).

(** The calls change the depth of the stack by [d], unless there is an error. *)
Definition keeps (d : Z) m : Prop := forall c, scope_ok c -> keeps_at c d m.

Lemma keeps_fails d : keeps d (fails (F:=F)).
Proof. done. Qed.

Lemma keeps_skip : keeps 0 (skip (F:=F)).
Proof. by intros c Hc c' cs [= <- <-]. Qed.

Lemma keeps_emit e : (forall b, e <> E_yield b) -> keeps (stack_effect e) (emit e).
Proof.
  intros He c Hc c' cs [= <- <-]. assert (emit_effect c e = c) as -> by (destruct e; try done; by destruct (He from)).
  split; [done|]. split; [done|]. unfold effect. cbn [foldr]. lia.
Qed.

Lemma keeps_seq d1 d2 m1 m2 : keeps d1 m1 -> keeps d2 m2 -> keeps (d1 + d2) (seq m1 m2).
Proof.
  intros H1 H2 c Hc c' cs E. unfold seq in E. apply bind_Some in E as ([c1 t1] & E1 & E).
  apply bind_Some in E as ([c2 t2] & E2 & [= <- <-]). destruct (H1 c Hc c1 t1 E1) as [Hc1 K1].
  destruct (H2 c1 Hc1 c2 t2 E2) as [Hc2 K2]. split; [done|]. intros Hn. destruct (K2 Hn) as [Hn1 <-].
  destruct (K1 Hn1) as [Hn0 <-]. by rewrite effect_app.
Qed.

Lemma keeps_eq d d' m : keeps d m -> d = d' -> keeps d' m.
Proof. by intros ? <-. Qed.

Lemma keeps_error d pn : keeps d (compile_syntax_error pn).
Proof.
  intros c [Hs Hp] c' cs [= <- <-]. destruct (compile_error c) eqn:Ee; (split; [by split|]); cbn; congruence.
Qed.

Lemma keeps_next_label d k : (forall l, keeps d (k l)) -> keeps d (comp_next_label k).
Proof.
  intros Hk c [Hs Hp] c' cs E. destruct (Hk _ (with_next_label c (S (next_label c))) ltac:(by split) c' cs E) as [Hc' K].
  split; [done|]. by intros [? ?]%K.
Qed.

Lemma keeps_with_comp d k : (forall c, scope_ok c -> keeps d (k c)) -> keeps d (with_comp k).
Proof. intros Hk c Hc. exact (Hk c Hc c Hc). Qed.

Lemma keeps_each {A} d (f : A -> comp_m) (l : list A) : Forall (fun a => keeps d (f a)) l ->
  keeps (d * Z.of_nat (length l)) (each f l).
Proof.
  induction 1 as [|a l Ha Hl IH]; cbn [each length]; [eapply keeps_eq; [apply keeps_skip|lia]|].
  eapply keeps_eq; [apply keeps_seq; [exact Ha|exact IH]|lia].
Qed.

Lemma keeps_build n k : k <> MP_EMIT_BUILD_MAP -> keeps (1 - n) (emit (E_build n k)).
Proof. intros Hk. eapply keeps_eq; [by apply keeps_emit|]. cbn [stack_effect]. by rewrite bool_decide_eq_false_2. Qed.

Lemma keeps_emit_op o k d : (forall op, keeps d (emit (k op))) -> keeps d (emit_op o k).
Proof. intros Hk. destruct o; [apply Hk|done]. Qed.

Lemma keeps_as_token pn k d : (forall t, keeps d (k t)) -> keeps d (as_token pn k).
Proof. intros Hk. destruct pn; first [apply Hk|apply keeps_fails]. Qed.

Lemma keeps_test r k d : (forall b, keeps d (k b)) -> keeps d (test r k).
Proof. intros Hk. destruct r; [done|apply Hk]. Qed.

Lemma keeps_id_op q l g d : (forall q n k, keeps d (emit (l q n k))) -> (forall q k, keeps d (emit (g q k))) ->
  forall s, keeps d (id_op q l g s).
Proof.
  intros Hl Hg s'. unfold id_op. destruct (scope_find s' q) as [[n i]|]; [|done]. destruct (id_kind i); first [apply Hl|apply Hg|done].
Qed.

Lemma keeps_in_scope_pass get q op d : keeps d (op s) -> keeps d (in_scope_pass get q op).
Proof.
  intros Hop. apply keeps_with_comp. intros c [Hs Hp]. by rewrite bool_decide_eq_false_2, Hs.
Qed.

Lemma keeps_load_id q : keeps 1 (compile_load_id q).
Proof. apply keeps_in_scope_pass, keeps_id_op; intros; by apply keeps_emit. Qed.

Lemma keeps_store_id q : keeps (-1) (compile_store_id q).
Proof. apply keeps_in_scope_pass, keeps_id_op; intros; by apply keeps_emit. Qed.

Lemma keeps_emit_eq e d : (forall b, e <> E_yield b) -> stack_effect e = d -> keeps d (emit e).
Proof. intros He <-. by apply keeps_emit. Qed.

(** A sequence of which the parts are known. *)
Lemma keeps_seq_eq d1 d2 d m1 m2 : keeps d1 m1 -> keeps d2 m2 -> d1 + d2 = d -> keeps d (seq m1 m2).
Proof. intros H1 H2 <-. by apply keeps_seq. Qed.

(** ** The forms *)

Section forms.
Variable compile_node : node -> comp_m.
Variable c_if_cond : node -> bool -> label -> comp_m.
Hypothesis keeps_node : forall pn, expression pn -> keeps 1 (compile_node pn).
Hypothesis keeps_cond : forall pn b l, expression pn -> keeps 0 (c_if_cond pn b l).

(** The parts of a form, where [tac] knows those that are not nodes. *)
Ltac keeps_part tac :=
  lazymatch goal with
  | |- keeps _ (seq _ _) => eapply keeps_seq
  | |- keeps _ (emit_op _ E_binary_op) => apply (keeps_emit_op _ _ (-1)); intros ?
  | |- keeps _ (emit_op _ E_unary_op) => apply (keeps_emit_op _ _ 0); intros ?
  | |- keeps _ (as_token _ _) => apply keeps_as_token; intros ?
  | |- keeps _ (comp_next_label _) => apply keeps_next_label; intros ?
  | |- keeps _ (emit (E_build _ _)) => apply keeps_build; done
  | |- keeps _ (emit _) => eapply keeps_emit_eq; [done|cbn [stack_effect]; reflexivity]
  | |- keeps _ (compile_node _) => apply keeps_node; done
  | |- keeps _ (c_if_cond _ _ _) => apply keeps_cond; done
  | |- keeps _ (compile_load_id _) => apply keeps_load_id
  | |- keeps _ (compile_store_id _) => apply keeps_store_id
  | |- keeps _ _ => first [apply keeps_skip|tac]
  end.
Tactic Notation "keeps_tac" "with" tactic3(tac) := eapply keeps_eq; [repeat keeps_part tac|cbn [stack_effect length]; lia].
Tactic Notation "keeps_tac" := keeps_tac with fail.

Lemma keeps_all nodes : Forall expression nodes -> keeps (Z.of_nat (length nodes)) (each compile_node nodes).
Proof.
  intros Hn. eapply keeps_eq; [apply (keeps_each 1)|lia]. by eapply Forall_impl.
Qed.

Lemma keeps_all_cond (l : label) b nodes : Forall expression nodes -> keeps 0 (each (fun pn => c_if_cond pn b l) nodes).
Proof. intros Hn. eapply keeps_eq; [apply (keeps_each 0)|lia]. eapply Forall_impl; [|exact Hn]. intros pn Hpn. by apply keeps_cond. Qed.

Lemma keeps_unless_error pn d m : keeps d m ->
  keeps d (with_comp (fun c => match compile_error c with Some _ => compile_error_set_line pn | None => m end)).
Proof.
  intros Hm c Hc c' cs. pose proof (Hm c Hc c' cs) as K. unfold with_comp. cbn beta. revert K.
  unfold compile_error_set_line, update. destruct (compile_error c) as [z|] eqn:Ee; [|by intros K; apply K].
  intros _ E. rewrite Ee in E. injection E as <- <-. destruct z as [|p|p], (node_line pn); (split; [by destruct Hc; split|]); cbn; congruence.
Qed.

Lemma keeps_generic nodes : Forall expression nodes -> keeps (Z.of_nat (length nodes)) (compile_generic_all_nodes compile_node nodes).
Proof.
  induction 1 as [|pn nodes Hpn Hn IH]; cbn [compile_generic_all_nodes length]; [apply keeps_skip|].
  keeps_tac with by apply keeps_unless_error.
Qed.

Lemma keeps_or_and cond l nodes pn : expression pn -> Forall expression nodes ->
  keeps 1 (or_and_loop compile_node cond l (pn :: nodes)).
Proof.
  intros Hpn Hn. revert pn Hpn. induction Hn as [|pn' nodes Hpn' Hn IH]; intros pn Hpn; [by apply keeps_node|].
  specialize (IH pn' Hpn'). cbn [or_and_loop]. keeps_tac with exact IH.
Qed.

Lemma keeps_comparison l nodes : between expression nodes -> keeps 0 (comparison_loop compile_node l nodes).
Proof.
  induction 1 as [|op pn nodes Hpn Hn IH]; cbn [comparison_loop]; [apply keeps_skip|]. destruct nodes; keeps_tac with exact IH.
Qed.

Lemma keeps_term nodes : between expression nodes -> keeps 0 (term_loop compile_node nodes).
Proof.
  induction 1 as [|op pn nodes Hpn Hn IH]; cbn [term_loop]; [apply keeps_skip|].
  keeps_tac with exact IH.
Qed.

Lemma keeps_same_op op nodes : Forall expression nodes ->
  keeps 0 (each (fun pn => seq (compile_node pn) (emit (E_binary_op op))) nodes).
Proof.
  intros Hn. eapply keeps_eq; [apply (keeps_each 0)|lia]. eapply Forall_impl; [|exact Hn]. intros pn Hpn. keeps_tac.
Qed.

Lemma keeps_step pn : optional pn ->
  keeps (-1) (if is_null pn then emit (E_build 2 MP_EMIT_BUILD_SLICE) else seq (compile_node pn) (emit (E_build 3 MP_EMIT_BUILD_SLICE))).
Proof. intros Hpn. destruct (is_null pn) eqn:En; [keeps_tac|]. destruct Hpn; [done|]. keeps_tac. Qed.


(** What a plain node is compiled to, where other nodes are singled out. *)
Lemma subscript_3_plain pn : plain pn ->
  compile_subscript_3 compile_node [pn] = seq (compile_node pn) (emit (E_build 2 MP_EMIT_BUILD_SLICE)).
Proof. destruct pn as [| | | | | |line kind nodes]; try done. by destruct kind. Qed.

Lemma argument_plain i pn st k : plain pn ->
  compile_argument compile_node i pn st k =
  if star_double st then compile_syntax_error pn
  else if 0 <? n_keyword st then compile_syntax_error pn
  else
    seq (compile_node pn)
      (k {| n_positional := n_positional st + 1; n_keyword := n_keyword st; star_single := star_single st;
            star_double := star_double st; star_args := star_args st |}).
Proof. destruct pn as [| | | | | |line kind nodes]; try done. by destruct kind. Qed.

Lemma argument_keyword i line q pn st k : plain pn ->
  compile_argument compile_node i (PN_STRUCT line RULE_argument [PN_ID q; pn]) st k =
  seq (emit (E_load_const_str (qst_of q))) (seq (compile_node pn)
    (k {| n_positional := n_positional st; n_keyword := n_keyword st + 1; star_single := star_single st;
          star_double := star_double st; star_args := star_args st |})).
Proof. destruct pn as [| | | | | |l1 kind nodes]; try done. by destruct kind. Qed.

Lemma keeps_slice_end pn : slice_end pn -> keeps 0 (compile_subscript_3 compile_node [pn]).
Proof.
  destruct 1 as [|pn Hpn|line pn Hpn|line l1 stop pn Hstop Hpn].
  - unfold compile_subscript_3, at_node. cbn. unfold load_none. keeps_tac.
  - rewrite subscript_3_plain by by eapply expression_plain. keeps_tac.
  - pose proof (keeps_step pn Hpn) as K. unfold compile_subscript_3, at_node. cbn in K |- *. unfold load_none. keeps_tac with exact K.
  - pose proof (keeps_step pn Hpn) as K. unfold compile_subscript_3, at_node. cbn in K |- *. keeps_tac with exact K.
Qed.


(** No argument is starred. *)
Definition no_star (st : args_state) : Prop := star_single st = false /\ star_double st = false.

Lemma keeps_arguments d args k : Forall argument args ->
  (forall st, no_star st -> keeps (d - (n_positional st + 2 * n_keyword st)) (k st)) -> forall i st,
  no_star st -> keeps (d - (n_positional st + 2 * n_keyword st)) (compile_arguments compile_node i args st k).
Proof.
  intros Ha Hk. induction Ha as [|arg args Harg Hn IH]; intros i st Hst; cbn [compile_arguments]; [by apply Hk|].
  destruct Harg as [pn Hpn|line q pn Hpn].
  - rewrite argument_plain by by eapply expression_plain. rewrite (proj2 Hst).
    destruct (0 <? n_keyword st); [apply keeps_error|].
    eapply keeps_eq; [eapply keeps_seq; [by apply keeps_node|by apply IH; destruct Hst]|cbn; lia].
  - rewrite argument_keyword by by eapply expression_plain.
    eapply keeps_eq; [eapply keeps_seq; [by apply keeps_emit|eapply keeps_seq; [by apply keeps_node|by apply IH; destruct Hst]]|cbn; lia].
Qed.

Lemma extract_arguments pn args : arguments pn args -> Forall argument args -> mp_parse_node_extract_list pn RULE_arglist = args.
Proof.
  destruct 1 as [|line args|pn]; intros Ha; [done| |].
  - cbn. by rewrite bool_decide_eq_true_2.
  - apply Forall_singleton in Ha as [pn' Hpn|line q pn' Hpn]; [|done]. apply expression_plain in Hpn.
    destruct pn' as [| | | | | |line kind nodes]; try done. by destruct kind.
Qed.

Lemma keeps_paren pn args (meth : bool) : arguments pn args -> Forall argument args ->
  keeps (if meth then -1 else 0) (compile_trailer_paren_helper compile_node pn meth 0).
Proof.
  intros Hp Ha. unfold compile_trailer_paren_helper. rewrite (extract_arguments pn args) by done.
  eapply keeps_eq; [apply (keeps_arguments (if meth then -1 else 0)); [done| |done]|by destruct meth].
  intros st [-> ->]. cbn [orb].
  destruct meth; (eapply keeps_eq; [apply keeps_seq; [apply keeps_skip|by apply keeps_emit]|cbn [stack_effect]; lia]).
Qed.

(** The trailers of a subject; the trailers are compiled as nodes. *)
Hypothesis keeps_trailer : forall pn, trailer pn -> keeps 0 (compile_node pn).

Lemma keeps_trailers trail : Forall trailer trail -> keeps 0 (compile_trailers compile_node trail).
Proof.
  remember (length trail) as n eqn:En. revert trail En. induction n as [n IH] using lt_wf_ind. intros trail -> Ht.
  destruct Ht as [|pn trail Hpn Ht]; [apply keeps_skip|]. assert (IH1 := IH _ (Nat.lt_succ_diag_r _) trail eq_refl Ht).
  assert (keeps 0 (seq (compile_node pn) (compile_trailers compile_node trail))) as Hone.
  { eapply keeps_eq; [apply keeps_seq; [by apply keeps_trailer|exact IH1]|done]. }
  destruct Hpn as [line pn args Hp Ha Hf|line pn Hpn|line q]; [exact Hone..|].
  destruct Ht as [|pn trail Hpn Ht]; [exact Hone|]. destruct Hpn as [l2 pn args Hp Ha Hf|l2 pn Hpn|l2 q2]; [|exact Hone..].
  cbn [compile_trailers]. unfold at_node. cbn [lookup list_lookup as_id].
  eapply keeps_eq; [apply keeps_seq; [by apply keeps_emit|apply keeps_seq; [by apply (keeps_paren pn args true)|]]|].
  - apply (IH (length trail)); [cbn; lia|done|done].
  - done.
Qed.


Lemma trailers_list pn trail : trailers pn trail -> Forall trailer trail ->
  is_null pn = true /\ trail = [] \/ is_null pn = false /\ get_trailers pn = Some trail.
Proof.
  destruct 1 as [|line trail|pn Hpn]; intros Ht; [by left|by right|right].
  by destruct Hpn.
Qed.

Lemma not_super sc subject trail : subject <> PN_ID MP_QSTR_super -> is_super_call (F:=F) sc subject trail = false.
Proof.
  intros Hs. unfold is_super_call. destruct (bool_decide (kind sc = SCOPE_FUNCTION)); [|done]. cbn [andb].
  destruct subject as [| |t| | | |]; try done.
  destruct trail as [|[| | | | | |line [] [|[] nodes]] trail]; try done.
  apply bool_decide_eq_false_2. by intros ->.
Qed.

Lemma keeps_atom_expr subject pn trail : expression subject -> subject <> PN_ID MP_QSTR_super -> trailers pn trail ->
  Forall trailer trail -> keeps 1 (compile_atom_expr_normal compile_node [subject; pn]).
Proof.
  intros Hs Hn Hp Ht. unfold compile_atom_expr_normal, at_node. cbn [lookup list_lookup].
  eapply keeps_eq; [apply keeps_seq; [by apply keeps_node|]|apply Z.add_0_r].
  destruct (trailers_list pn trail Hp Ht) as [[-> ->]|[-> ->]]; [apply keeps_skip|].
  apply keeps_with_comp. intros c _. rewrite not_super by done. by apply keeps_trailers.
Qed.

Lemma has_comp_for_items (items : list node) : Forall expression items -> has_comp_for items = false.
Proof.
  intros Hi. destruct items as [|pn [|pn' [|]]]; try done; cbn; [|by destruct pn' as [| | | | | |? [] ?]].
  inversion Hi as [|? ? ? Hi' E]; subst. inversion Hi' as [|? ? Hp ? E]; subst. apply expression_plain in Hp.
  by destruct pn' as [| | | | | |? [] ?].
Qed.

Lemma keeps_tuple nodes : Forall expression nodes -> keeps 1 (compile_generic_tuple compile_node nodes).
Proof.
  intros Hn. eapply keeps_eq; [apply keeps_seq; [by apply keeps_all|by apply keeps_build]|lia].
Qed.

Lemma keeps_atom_paren pn items : sequence pn items -> keeps 1 (compile_atom_paren compile_node [pn]).
Proof.
  unfold compile_atom_paren, at_node. cbn [lookup list_lookup].
  destruct 1 as [|line items Hi Hf]; cbn [is_null as_struct]; [by apply (keeps_build 0)|].
  rewrite bool_decide_eq_true_2, has_comp_for_items by done. by apply keeps_tuple.
Qed.

Lemma keeps_atom_bracket pn items : sequence pn items -> keeps 1 (compile_atom_bracket compile_node [pn]).
Proof.
  unfold compile_atom_bracket, at_node. cbn [lookup list_lookup].
  destruct 1 as [|line items Hi Hf]; cbn [is_null]; [by apply (keeps_build 0)|].
  rewrite has_comp_for_items by done.
  eapply keeps_eq; [apply keeps_seq; [by apply keeps_generic|by apply keeps_build]|lia].
Qed.

Lemma bracket_plain pn : plain pn ->
  compile_atom_bracket compile_node [pn] = seq (compile_node pn) (emit (E_build 1 MP_EMIT_BUILD_LIST)).
Proof. destruct pn as [| | | | | |line kind nodes]; try done. by destruct kind. Qed.

Lemma keeps_if_else line success cond failure : expression success -> expression cond -> expression failure ->
  keeps 1 (compile_test_if_expr compile_node c_if_cond [success; PN_STRUCT line RULE_test_if_else [cond; failure]]).
Proof.
  intros H1 H2 H3. unfold compile_test_if_expr, at_node. cbn [lookup list_lookup as_struct].
  rewrite bool_decide_eq_true_2 by done. cbn [negb]. keeps_tac.
Qed.

Lemma keeps_comparison_chain pn nodes : expression pn -> between expression nodes ->
  keeps 1 (compile_comparison compile_node (pn :: nodes)).
Proof.
  intros Hpn Hn. unfold compile_comparison. eapply keeps_eq; [apply keeps_seq; [by apply keeps_node|]|apply Z.add_0_r].
  destruct (3 <? _)%nat; [|by apply keeps_comparison].
  pose proof (fun l => keeps_comparison l nodes Hn) as K. keeps_tac with apply K.
Qed.

Lemma keeps_logic cond pn nodes : expression pn -> Forall expression nodes ->
  keeps 1 (compile_or_and_test compile_node cond (pn :: nodes)).
Proof.
  intros Hpn Hn. unfold compile_or_and_test. pose proof (fun l => keeps_or_and cond l nodes pn Hpn Hn) as K.
  keeps_tac with apply K.
Qed.

Lemma keeps_namedexpr q pn : expression pn -> keeps 1 (compile_namedexpr compile_node [PN_ID q; pn]).
Proof.
  intros Hpn. unfold compile_namedexpr, at_node, compile_namedexpr_helper. cbn [lookup list_lookup as_id].
  keeps_tac with (apply keeps_with_comp; intros c [_ Hp]; rewrite bool_decide_eq_false_2 by done; apply keeps_store_id).
Qed.

Lemma keeps_subscript line start pn : expression start -> slice_end pn ->
  keeps 1 (compile_subscript compile_node RULE_subscript_2 [start; PN_STRUCT line RULE_subscript_3 [pn]]).
Proof.
  intros Hs Hpn. unfold compile_subscript, at_node. rewrite bool_decide_eq_true_2 by done.
  cbn [lookup list_lookup as_struct]. rewrite bool_decide_eq_true_2 by done. keeps_tac with by apply keeps_slice_end.
Qed.

Variable c_assign : node -> assign_kind_t -> comp_m.
Variable c_del_stmt : node -> comp_m.
Abbreviation compile_function := (compile_function opt_level compile_node c_if_cond c_assign c_del_stmt).

Lemma keeps_binary self kind pn nodes : kind = RULE_expr \/ kind = RULE_xor_expr \/ kind = RULE_and_expr ->
  expression pn -> Forall expression nodes -> keeps 1 (compile_function self kind (pn :: nodes)).
Proof.
  intros Hk Hpn Hn. replace (compile_function self kind (pn :: nodes)) with (compile_binary_op compile_node kind (pn :: nodes))
    by by destruct Hk as [->|[->| ->]].
  unfold compile_binary_op. eapply keeps_eq; [apply keeps_seq; [by apply keeps_node|by apply keeps_same_op]|done].
Qed.

Lemma keeps_shift self kind pn nodes : kind = RULE_shift_expr \/ kind = RULE_arith_expr \/ kind = RULE_term ->
  expression pn -> between expression nodes -> keeps 1 (compile_function self kind (pn :: nodes)).
Proof.
  intros Hk Hpn Hn. replace (compile_function self kind (pn :: nodes)) with (compile_term compile_node (pn :: nodes))
    by by destruct Hk as [->|[->| ->]].
  unfold compile_term. eapply keeps_eq; [apply keeps_seq; [by apply keeps_node|by apply keeps_term]|done].
Qed.

Lemma keeps_list self kind nodes : kind = RULE_testlist \/ kind = RULE_subscriptlist \/ kind = RULE_testlist_star_expr ->
  Forall expression nodes -> keeps 1 (compile_function self kind nodes).
Proof.
  intros Hk Hn. replace (compile_function self kind nodes) with (compile_generic_tuple compile_node nodes)
    by by destruct Hk as [->|[->| ->]].
  by apply keeps_tuple.
Qed.

Lemma keeps_function line kind nodes : expression (PN_STRUCT line kind nodes) ->
  keeps 1 (compile_function (PN_STRUCT line kind nodes) kind nodes).
Proof.
  inversion 1; subst.
  - by apply keeps_logic.
  - by apply keeps_logic.
  - unfold Compile.compile_function, compile_not_test_2, at_node. cbn [lookup list_lookup]. keeps_tac.
  - by apply keeps_if_else.
  - by apply keeps_namedexpr.
  - by apply keeps_comparison_chain.
  - by apply keeps_binary.
  - by apply keeps_shift.
  - unfold Compile.compile_function, compile_factor_2, at_node. cbn [lookup list_lookup]. keeps_tac.
  - unfold Compile.compile_function, compile_power. eapply keeps_eq; [apply keeps_seq; [apply keeps_generic; by repeat constructor|by apply keeps_emit]|done].
  - by apply keeps_list.
  - by eapply keeps_atom_paren.
  - by eapply keeps_atom_bracket.
  - unfold Compile.compile_function. rewrite bracket_plain by by eapply expression_plain. keeps_tac.
  - unfold Compile.compile_function, compile_subscript, load_none. rewrite bool_decide_eq_false_2, bool_decide_eq_true_2 by done.
    keeps_tac with by apply keeps_slice_end.
  - by apply keeps_subscript.
  - by eapply keeps_atom_expr.
Qed.

Lemma keeps_node_body pn : expression pn -> keeps 1 (compile_node_body opt_level compile_node c_if_cond c_assign c_del_stmt pn).
Proof.
  intros Hpn. destruct pn as [|n|q|q|t|line o|line kind nodes]; cbn [compile_node_body].
  - inversion Hpn.
  - by apply keeps_emit.
  - apply keeps_load_id.
  - by apply keeps_emit.
  - inversion Hpn; subst. rewrite bool_decide_eq_false_2 by (by apply lit_newline). by apply keeps_emit.
  - keeps_tac.
  - eapply keeps_eq; [apply keeps_seq; [by apply keeps_emit|by apply keeps_function]|done].
Qed.

Lemma keeps_trailer_body pn : trailer pn -> keeps 0 (compile_node_body opt_level compile_node c_if_cond c_assign c_del_stmt pn).
Proof.
  destruct 1 as [line pn args Hp Ha Hf|line pn Hpn|line q]; cbn [compile_node_body];
    (eapply keeps_eq; [apply keeps_seq; [by apply keeps_emit|]|apply Z.add_0_l]).
  - by eapply (keeps_paren pn args false).
  - unfold Compile.compile_function, compile_trailer_bracket, at_node. cbn [lookup list_lookup]. keeps_tac.
  - by apply keeps_emit.
Qed.

Lemma keeps_around (nodes : list node) b l : Forall expression nodes -> keeps 0 (and_or_logic1 c_if_cond nodes b l).
Proof.
  intros Hn. unfold and_or_logic1. apply keeps_next_label. intros l2. destruct (list.last nodes) as [pn|] eqn:El; [|apply keeps_fails].
  assert (expression pn) as Hpn by (rewrite last_lookup in El; exact (Forall_lookup_1 _ _ _ _ Hn El)).
  pose proof (keeps_all_cond l2 (negb b) (take (length nodes - 1) nodes) (Forall_take _ _ _ Hn)) as K.
  keeps_tac with exact K.
Qed.

Lemma keeps_cond_body pn b l : expression pn -> keeps 0 (c_if_cond_body compile_node c_if_cond pn b l).
Proof.
  intros Hpn. unfold c_if_cond_body. apply keeps_test. intros [|]; [by destruct b; [apply keeps_skip|apply keeps_emit]|].
  apply keeps_test. intros [|]; [by destruct b; [apply keeps_emit|apply keeps_skip]|].
  assert (keeps 0 (seq (compile_node pn) (emit (E_pop_jump_if b l)))) as Hd by keeps_tac.
  destruct Hpn; try exact Hd; try (repeat match goal with H : _ \/ _ |- _ => destruct H end; subst; exact Hd).
  - by destruct b; [apply keeps_all_cond|apply keeps_around]; constructor.
  - by destruct b; [apply keeps_around|apply keeps_all_cond]; constructor.
  - by apply keeps_cond.
Qed.

End forms.

(** An expression pushes a value, and a condition leaves the stack as it is. *)
Theorem compile_keeps fuel :
  (forall pn, expression pn -> keeps 1 (compile_node opt_level fuel pn)) /\
  (forall pn, trailer pn -> keeps 0 (compile_node opt_level fuel pn)) /\
  (forall pn b l, expression pn -> keeps 0 (c_if_cond opt_level fuel pn b l)).
Proof.
  induction fuel as [|fuel (H1 & H2 & H3)]; (split; [intros pn Hpn|split; [intros pn Hpn|intros pn b l Hpn]]); try apply keeps_fails;
    cbn [compile_node c_if_cond].
  - by apply keeps_node_body.
  - by apply keeps_trailer_body.
  - by apply keeps_cond_body.
Qed.

End shape.
