(* ===== verification/CompileRuns.v ===== *)
(** A judgement on what the compiler makes: the code of a part of the tree, executed
    by the interpreter, has the effect of a computation and ends where it should, at
    its end or at the label of a jump. *)

From Stdlib Require Import ZArith Lia.
From stdpp Require Import base option list numbers.
From S2P Require Import Prelude Mpn IntObj Lexer HashMap Qstr Grammar Parse Bytecode BytecodeProps Scope EmitBc Compile Vm CodeAt CallSem VmRun VmCalls Eval CompileShape.

(** * Definitions *)

Section runs.
Context {F X I W : Type} `{FloatLiterals F} `{QstrNumbers} `{ConstFloats F} `{Runtime X I W} (code : vm_code X).
Context (opt_level : Z) (consts : list (obj F)) (labels : list (option Z)) (const_value : obj F -> value X) (s : scope_t).
Context `{!Quiet (X:=X) (I:=I) (W:=W)} `{!Table code consts const_value}.
Abbreviation node := (parse_node F).
Abbreviation comp_m := (comp_m (F:=F)).
Abbreviation value := (value X).
Abbreviation frame := (frame X I).
Abbreviation slot := (slot X I).
Abbreviation ev := (ev (X:=X) (I:=I) (W:=W)).
Abbreviation emit_t := (emit_t F).
Abbreviation installed := (installed (bytecode code) (Z.of_nat (stack_max code)) consts labels).
Abbreviation placed := (placed opt_level (bytecode code) (Z.of_nat (stack_max code)) consts labels).
Implicit Types (f g : frame) (e : emit_t) (c : compiler_t) (m : comp_m) (st : list slot).
Local Open Scope ev_scope.

(** Where code leads: past its end or to a label, with a stack. *)
Inductive exit := FALL (st : list slot) | GOTO (l : label) (st : list slot).

Definition arrives e' f w (x : exit) (l : list slot) w' : Prop :=
  match x with
  | FALL st => suppress e' = false /\ steps code f w (moved f (pc e') st l) w' /\ Z.of_nat (length st) = cur_stack e'
  | GOTO lab st => forall p, target e' lab p -> steps code f w (moved f p st l) w'
  end.

Definition leads {A} (base : list slot) e e' f w (K : A -> exit -> Prop) (r : option ((value + A) * store (X:=X) (I:=I) (W:=W))) : Prop :=
  match r with
  | None => False
  | Some (inl ex, (l, w')) => raises code base f (pc e) (pc e') w ex l w'
  | Some (inr a, (l, w')) => exists x, K a x /\ arrives e' f w x l w'
  end.

(** The code of [m], started with the stack [st], computes [R], which is defined, and
    leads to an exit related by [K] to the answer; exceptions are raised above the
    stack [base]. *)
Definition runs {A} (base st : list slot) m (R : ev A) (K : A -> exit -> Prop) : Prop :=
  forall c c' cs e e' f w, scope_ok s c -> m c = Some (c', cs) -> compile_error c' = None -> placed e cs e' ->
    suppress e = false -> at_state e f -> stack f = st -> leads base e e' f w K (R (fastn f, w)).

(** It falls through with a stack that depends on the answer. *)
Definition falls {A} (g : A -> list slot) : A -> exit -> Prop := fun a x => x = FALL (g a).

(** * Lemmas *)

(** ** Errors are not forgotten *)

Definition tame m : Prop := forall c, scope_ok s c -> forall c' cs, m c = Some (c', cs) ->
  scope_ok s c' /\ (compile_error c' = None -> compile_error c = None).

Lemma keeps_tame d m : keeps s d m -> tame m.
Proof. intros Hm c Hc c' cs E. destruct (Hm c Hc c' cs E) as [Hc' K]. split; [done|]. by intros [? _]%K. Qed.

Lemma tame_seq m1 m2 : tame m1 -> tame m2 -> tame (seq m1 m2).
Proof.
  intros H1' H2' c Hc c' cs E. unfold seq in E. apply bind_Some in E as ([c1 t1] & E1 & E).
  apply bind_Some in E as ([c2 t2] & E2 & [= <- <-]). destruct (H1' c Hc c1 t1 E1) as [Hc1 K1].
  destruct (H2' c1 Hc1 c2 t2 E2) as [Hc2 K2]. split; [done|]. by intros ?%K2%K1.
Qed.

Lemma tame_emit x : (forall b, x <> E_yield b) -> tame (emit x).
Proof. intros Hx. eapply keeps_tame, keeps_emit, Hx. Qed.

Lemma tame_fails : tame (fails (F:=F)).
Proof. done. Qed.

Lemma tame_skip : tame (skip (F:=F)).
Proof. by intros c Hc c' cs [= <- <-]. Qed.

Lemma tame_next_label k : (forall l, tame (k l)) -> tame (comp_next_label k).
Proof.
  intros Hk c [Hs Hp] c' cs E. exact (Hk _ (with_next_label c (S (next_label c))) ltac:(by split) c' cs E).
Qed.

Lemma tame_with_comp k : (forall c, scope_ok s c -> tame (k c)) -> tame (with_comp k).
Proof. intros Hk c Hc. exact (Hk c Hc c Hc). Qed.

Lemma tame_each {A} (f : A -> comp_m) (l : list A) : Forall (fun a => tame (f a)) l -> tame (each f l).
Proof. induction 1; cbn [each]; [apply tame_skip|by apply tame_seq]. Qed.

(** ** The rules *)

(** The same computation and a weaker exit. *)
Lemma runs_conv {A} base st m (R R' : ev A) K (K' : A -> exit -> Prop) : runs base st m R K ->
  (forall x, R' x = R x) -> (forall a x, K a x -> K' a x) -> runs base st m R' K'.
Proof.
  intros Hm HR HK c c' cs e e' f w Hc E Hn P Hs Hat Hst. specialize (Hm c c' cs e e' f w Hc E Hn P Hs Hat Hst).
  rewrite HR. destruct (R _) as [[[ex|a] [l w']]|]; cbn in *; [done| |done].
  destruct Hm as (x & Hx & Ha). exists x. auto.
Qed.

Lemma runs_map {A B} (h : A -> B) base st m (R : ev A) K (K' : B -> exit -> Prop) : runs base st m R K ->
  (forall a x, K a x -> K' (h a) x) -> runs base st m (a ←e R; done (h a)) K'.
Proof.
  intros Hm HK c c' cs e e' f w Hc E Hn P Hs Hat Hst. specialize (Hm c c' cs e e' f w Hc E Hn P Hs Hat Hst). unfold andthen.
  destruct (R _) as [[[ex|a] [l w']]|]; cbn in *; [done| |done]. destruct Hm as (x & Hx & Ha). exists x. auto.
Qed.

Lemma runs_unmap {A B} (h : A -> B) base st m (R : ev A) K : runs base st m (a ←e R; done (h a)) K ->
  runs base st m R (fun a x => K (h a) x).
Proof.
  intros Hm c c' cs e e' f w Hc E Hn P Hs Hat Hst. specialize (Hm c c' cs e e' f w Hc E Hn P Hs Hat Hst). unfold andthen in Hm.
  destruct (R _) as [[[ex|a] [l w']]|]; cbn in *; done.
Qed.

Lemma runs_comp {A} base st m m' (R : ev A) K : (forall c, m c = m' c) -> runs base st m' R K -> runs base st m R K.
Proof. intros Hm Hr c c' cs e e' f w Hc E. rewrite Hm in E. exact (Hr c c' cs e e' f w Hc E). Qed.

Lemma runs_fails {A} base st (R : ev A) K : runs base st fails R K.
Proof. done. Qed.

Lemma runs_skip {A} base st (a : A) (K : A -> exit -> Prop) : K a (FALL st) -> runs base st skip (done a) K.
Proof.
  intros HK c c' cs e e' f w Hc [= <- <-] Hn P Hs [Hip Hd Hi] Hst. apply placed_nil in P as ->. exists (FALL st). split; [done|].
  split; [done|]. rewrite <- Hd, Hst. split; [|done]. replace (moved f (pc e) st (fastn f)) with f; [apply steps_refl|].
  destruct f. cbn in *. by subst.
Qed.

Lemma runs_with_comp {A} base st k (R : ev A) K : (forall c, scope_ok s c -> runs base st (k c) R K) -> runs base st (with_comp k) R K.
Proof. intros Hk c c' cs e e' f w Hc. exact (Hk c Hc c c' cs e e' f w Hc). Qed.

Lemma runs_next_label {A} base st k (R : ev A) K : (forall l, runs base st (k l) R K) -> runs base st (comp_next_label k) R K.
Proof. intros Hk c c' cs e e' f w [Hs Hp]. apply (Hk (next_label c) (with_next_label c (S (next_label c)))). by split. Qed.

(** Two parts, one after the other. *)
Lemma arrives_after e' f g w w1 x l w' : steps code f w g w1 -> exc_stack g = exc_stack f -> inject_exc g = inject_exc f ->
  arrives e' g w1 x l w' -> arrives e' f w x l w'.
Proof.
  intros Hst Hx Hi Ha. assert (forall p st, moved g p st l = moved f p st l) as Hm by (intros; unfold moved; congruence).
  destruct x as [st|lab st]; cbn in *.
  - destruct Ha as (Hs & Ha & Hl). rewrite Hm in Ha. split; [done|]. split; [|done]. by eapply steps_trans.
  - intros p Hp. rewrite <- Hm. eapply steps_trans; [exact Hst|by apply Ha].
Qed.

Lemma runs_seq {A B} base st m1 m2 (R1 : ev A) (R2 : A -> ev B) K1 K2 : tame m1 -> tame m2 -> runs base st m1 R1 K1 ->
  (forall a st', K1 a (FALL st') -> runs base st' m2 (R2 a) K2) ->
  (forall a l st', K1 a (GOTO l st') -> exists b, R2 a = done b /\ K2 b (GOTO l st')) ->
  runs base st (seq m1 m2) (a ←e R1; R2 a) K2.
Proof.
  intros T1 T2 Hm1 Hm2 Hjump c c' cs e e' f w Hc E Hn P Hs Hat Hst.
  unfold seq in E. apply bind_Some in E as ([c1 t1] & E1 & E). apply bind_Some in E as ([c2 t2] & E2 & [= <- <-]).
  apply placed_app in P as (e1 & P1 & P2). pose proof (placed_pc _ _ _ _ _ _ _ P1). pose proof (placed_pc _ _ _ _ _ _ _ P2).
  destruct (T1 c Hc c1 t1 E1) as [Hc1 _]. destruct (T2 c1 Hc1 c2 t2 E2) as [_ Hn1].
  specialize (Hm1 c c1 t1 e e1 f w Hc E1 (Hn1 Hn) P1 Hs Hat Hst). unfold andthen.
  destruct (R1 (fastn f, w)) as [[[ex|a] [l w1]]|]; cbn [leads mbind option_bind] in *; [|destruct Hm1 as (x & Hx & Ha)|done].
  { eapply raises_weaken; [reflexivity|..|exact Hm1]; lia. }
  destruct x as [st'|lab st'].
  - destruct Ha as (Hs1 & Ha & Hl). set (g := moved f (pc e1) st' l) in *.
    assert (at_state e1 g) as Hg by (apply at_state_moved; [exact (at_inject _ _ Hat)|done]).
    specialize (Hm2 a st' Hx c1 c2 t2 e1 e' g w1 Hc1 E2 Hn P2 Hs1 Hg eq_refl). unfold leads in *.
    change (fastn g) with l in Hm2. destruct (R2 a (l, w1)) as [[[ex|b] [l' w']]|]; [| |done].
    + eapply raises_weaken; [reflexivity| |reflexivity|eapply raises_after; [exact Ha|done|exact Hm2]]. lia.
    + destruct Hm2 as (x & Hx2 & Ha2). exists x. split; [done|]. by eapply arrives_after.
  - destruct (Hjump a lab st' Hx) as (b & -> & Hb). cbn. exists (GOTO lab st'). split; [done|]. intros p Hp.
    apply Ha. by eapply target_placed.
Qed.

(** A part that has no answer, then another; a part that leaves an answer as it is. *)
Lemma runs_move_then {A} base st st' m1 m2 (R : ev A) K : tame m1 -> tame m2 ->
  runs base st m1 (done tt) (falls (fun _ => st')) -> runs base st' m2 R K -> runs base st (seq m1 m2) R K.
Proof.
  intros T1 T2 Hm1 Hm2. assert (runs base st (seq m1 m2) (_ ←e done tt; R) K) as Hr; [|exact Hr].
  eapply runs_seq; [done..| |done]. by intros [] st1 [= ->].
Qed.

Lemma runs_seq_done {A} base st m1 m2 (R : ev A) K1 K2 : tame m1 -> tame m2 -> runs base st m1 R K1 ->
  (forall a st', K1 a (FALL st') -> runs base st' m2 (done a) K2) -> (forall a l st', K1 a (GOTO l st') -> K2 a (GOTO l st')) ->
  runs base st (seq m1 m2) R K2.
Proof.
  intros T1 T2 Hm1 Hm2 Hj. assert (runs base st (seq m1 m2) (a ←e R; done a) K2) as Hr.
  { eapply runs_seq; [done..|]. intros a l st' Hx. exists a. split; [done|by apply Hj]. }
  intros c c' cs e e' f w Hc E Hn P Hs Hat Hst. specialize (Hr c c' cs e e' f w Hc E Hn P Hs Hat Hst). revert Hr. unfold andthen.
  by destruct (R _) as [[[ex|a] b]|].
Qed.

(** A part that falls through, then another. *)
Lemma runs_then {A B} (g : A -> list slot) base st m1 m2 (R1 : ev A) (R2 : A -> ev B) K : tame m1 -> tame m2 ->
  runs base st m1 R1 (falls g) -> (forall a, runs base (g a) m2 (R2 a) K) -> runs base st (seq m1 m2) (a ←e R1; R2 a) K.
Proof. intros T1 T2 Hm1 Hm2. eapply runs_seq; [done..| |]; [by intros a st' [= ->]|done]. Qed.

(** The parts of a sequence can be grouped. *)
Lemma seq_assoc m1 m2 m3 c : seq (seq m1 m2) m3 c = seq m1 (seq m2 m3) c.
Proof.
  unfold seq. destruct (m1 c) as [[c1 t1]|]; cbn; [|done]. destruct (m2 c1) as [[c2 t2]|]; cbn; [|done].
  destruct (m3 c2) as [[c3 t3]|]; cbn; [|done]. by rewrite app_assoc.
Qed.

Lemma seq_ext m1 m2 m2' c : (forall c, m2 c = m2' c) -> seq m1 m2 c = seq m1 m2' c.
Proof. intros Hm. unfold seq. destruct (m1 c) as [[c1 t1]|]; [|done]. cbn. by rewrite Hm. Qed.

(** A label made after a part is made at its end. *)
Definition tick : comp_m := fun c => Some (with_next_label c (S (next_label c)), []).

Lemma seq_next_label m k c : seq m (comp_next_label k) c =
  '(c1, t1) ← m c; '(c2, t2) ← k (next_label c1) (with_next_label c1 (S (next_label c1))); Some (c2, t1 ++ t2).
Proof. done. Qed.

Lemma runs_seq_next_label {A} base st m k (R : ev A) K : (forall l, runs base st (seq (seq m tick) (k l)) R K) ->
  runs base st (seq m (comp_next_label k)) R K.
Proof.
  intros Hk c c' cs e e' f w Hc E. rewrite seq_next_label in E. apply bind_Some in E as ([c1 t1] & E1 & E).
  apply (Hk (next_label c1) c c' cs e e' f w Hc). rewrite seq_assoc. unfold seq, tick. rewrite E1. cbn.
  apply bind_Some in E as ([c2 t2] & E2 & E). rewrite E2. exact E.
Qed.

Lemma keeps_tick : keeps s 0 tick.
Proof. by intros c [Hs Hp] c' cs [= <- <-]. Qed.

Lemma runs_tick {A} base st (a : A) (K : A -> exit -> Prop) : K a (FALL st) -> runs base st tick (done a) K.
Proof.
  intros HK c c' cs e e' f w Hc E Hn. injection E as <- <-. by apply (runs_skip base st a K HK c c [] e e' f w Hc eq_refl).
Qed.

(** ** The calls *)

(** Computations that are defined. *)
Definition total {A} (R : ev A) : Prop := forall x, R x <> None.

Lemma total_done {A} (a : A) : total (done a).
Proof. done. Qed.

Lemma total_run {A} (m : rt A) : total (run m).
Proof. intros [l w]. unfold run. by destruct (m w). Qed.

Lemma total_andthen {A B} (R1 : ev A) (R2 : A -> ev B) : total R1 -> (forall a, total (R2 a)) -> total (a ←e R1; R2 a).
Proof. intros T1 T2 x. unfold andthen. specialize (T1 x). destruct (R1 x) as [[[ex|a] x']|]; cbn; [done|apply T2|done]. Qed.

Lemma runs_emit base st x : call_fits x -> base `suffix_of` drop (Z.to_nat (pops x)) st -> total (call_sem const_value x st) ->
  runs base st (emit x) (call_sem const_value x st) (falls (fun st => st)).
Proof.
  intros Hx Hb Ht c c' cs e e' f w Hc [= _ <-] Hn P Hs Hat <-. pose proof (call_runs code opt_level consts labels const_value e x e' f base w P Hs Hx Hat Hb) as Ho.
  specialize (Ht (fastn f, w)). unfold outcome, leads in *.
  destruct (call_sem _ _ _ _) as [[[ex|st] [l w']]|]; [done| |done]. by exists (FALL st).
Qed.

(** A call that makes a value. *)
Lemma runs_call {A} (g : A -> list slot) (R : ev A) base st x : (forall a, (v ←e R; done (g v)) a = call_sem const_value x st a) ->
  total R -> call_fits x -> base `suffix_of` drop (Z.to_nat (pops x)) st -> runs base st (emit x) R (falls g).
Proof.
  intros Hx Ht Hfit Hb. assert (runs base st (emit x) (v ←e R; done (g v)) (falls (fun st => st))) as Hm.
  { eapply runs_conv; [apply runs_emit; [done..|]|done|done]. intros y. rewrite <- Hx.
    apply total_andthen; [done|]. intros a. apply total_done. }
  apply runs_unmap in Hm. exact Hm.
Qed.

Lemma runs_label {A} d base st m l (R : ev A) K (K' : A -> exit -> Prop) : keeps s d m -> runs base st m R K ->
  (forall a st', K a (FALL st') -> K' a (FALL st')) ->
  (forall a l' st', K a (GOTO l' st') -> K' a (GOTO l' st') \/
     l' = l /\ K' a (FALL st') /\ Z.of_nat (length st') = Z.of_nat (length st) + d) ->
  runs base st (seq m (emit (E_label_assign l))) R K'.
Proof.
  intros Hk Hm Hfall Hgoto c c' cs e e' f w Hc E Hn P Hs Hat Hst. unfold seq in E. apply bind_Some in E as ([c1 t1] & E1 & E).
  cbn in E. injection E as <- <-. apply placed_app in P as (e1 & P1 & P2).
  destruct (Hk c Hc c1 t1 E1) as [_ K1]. destruct (K1 Hn) as [_ Heff].
  pose proof (placed_effect _ _ _ _ _ _ _ _ P1) as Hd. rewrite Heff, <- (at_depth _ _ Hat), Hst in Hd.
  destruct (label_placed _ _ _ _ _ _ _ _ P2) as (Hs' & Hpc & Hdep & Ht).
  specialize (Hm c c1 t1 e e1 f w Hc E1 Hn P1 Hs Hat Hst). unfold leads in *.
  destruct (R (fastn f, w)) as [[[ex|a] [l' w']]|]; [| |done].
  { eapply raises_weaken; [reflexivity|..|exact Hm]; lia. }
  destruct Hm as ([st'|lab st'] & Hx & Ha).
  - exists (FALL st'). split; [by apply Hfall|]. destruct Ha as (_ & Ha & Hl). cbn. by rewrite Hpc, Hdep.
  - destruct (Hgoto a lab st' Hx) as [Hx'|(-> & Hx' & Hl)].
    + exists (GOTO lab st'). split; [done|]. intros p Hp. apply Ha. by eapply target_placed.
    + exists (FALL st'). split; [done|]. cbn. split; [done|]. split; [|lia]. apply Ha. by eapply target_placed.
Qed.

(** A label that is only jumped to, where the stack is deeper or less deep than before
    it. *)
Lemma runs_label_adjust {A} d n base st m l (R : ev A) K (K' : A -> exit -> Prop) : keeps s d m -> runs base st m R K ->
  (forall a st', K a (FALL st') -> False) ->
  (forall a l' st', K a (GOTO l' st') -> K' a (GOTO l' st') \/
     l' = l /\ K' a (FALL st') /\ Z.of_nat (length st') = Z.of_nat (length st) + d + n) ->
  runs base st (seq m (seq (emit (E_label_assign l)) (emit (E_adjust_stack_size n)))) R K'.
Proof.
  intros Hk Hm Hfall Hgoto c c' cs e e' f w Hc E Hn P Hs Hat Hst. unfold seq in E. apply bind_Some in E as ([c1 t1] & E1 & E).
  cbn in E. injection E as <- <-. apply placed_app in P as (e1 & P1 & P2). apply placed_cons in P2 as (e2 & P2 & P3).
  destruct (Hk c Hc c1 t1 E1) as [_ K1]. destruct (K1 Hn) as [_ Heff].
  pose proof (placed_effect _ _ _ _ _ _ _ _ P1) as Hd. rewrite Heff, <- (at_depth _ _ Hat), Hst in Hd.
  pose proof (placed_effect _ _ _ _ _ _ _ _ P3) as Hd3. cbn in Hd3.
  destruct (label_placed _ _ _ _ _ _ _ _ P2) as (Hs' & Hpc & Hdep & Ht).
  apply placed_one in P3 as P3'. destruct P3' as (E3 & I2 & _). destruct (adjusted _ _ _ _ _ _ _ I2 E3) as (_ & Hpc3 & Hs3 & _).
  specialize (Hm c c1 t1 e e1 f w Hc E1 Hn P1 Hs Hat Hst). unfold leads in *.
  destruct (R (fastn f, w)) as [[[ex|a] [l' w']]|]; [| |done].
  { eapply raises_weaken; [reflexivity|..|exact Hm]; lia. }
  destruct Hm as ([st'|lab st'] & Hx & Ha); [by destruct (Hfall a st' Hx)|].
  assert (forall q, target e' lab q -> target e1 lab q) as Hback.
  { intros q Hq. eapply target_placed; [exact P2|]. by eapply target_placed. }
  destruct (Hgoto a lab st' Hx) as [Hx'|(-> & Hx' & Hl)].
  - exists (GOTO lab st'). split; [done|]. intros q Hq. apply Ha. by apply Hback.
  - exists (FALL st'). split; [done|]. cbn. split; [congruence|]. split; [|lia]. rewrite Hpc3, Hpc. apply Ha.
    eapply target_placed; [exact P2|]. by rewrite <- Hpc.
Qed.

(** ** The jumps *)

(** The address that an instruction with a label decodes. *)
Definition decode_jump (b : Z) f : vm (X:=X) (W:=W) (Z * frame) := if is_signed_jump b then decode_slabel code f else decode_ulabel code f.

Lemma jump_decodes e d b l e' f w : installed e -> agrees (bytecode code) e' -> overflow e' = false -> suppress e = false ->
  0 <= b < 256 -> emit_write_bytecode_byte_label e d b l = Some e' -> ip f = pc e ->
  suppress e' = false /\ pc e < pc e' /\ byte_at code (ip f) = Some b /\ exists t, target e l t /\
  dispatch code f w = entry code b (entries code) (with_ip f (ip f + 1)) w /\
  decode_jump b (with_ip f (ip f + 1)) w = Some (inr (t - pc e', with_ip f (pc e')), w).
Proof.
  intros Hin Ha Hov Hs Hb E Hip.
  destruct (label_instr _ _ _ _ e d b l e' Hin Ha Hov Hs Hb E) as (lb & t & [[rest Hbytes] Hn Hl] & Ht & Hd).
  rewrite <- Hip in Hbytes. cbn [length app] in *. split; [done|]. split; [lia|].
  split; [by eapply byte_at_bytes|]. exists t. split; [done|]. split; [by eapply dispatch_at|].
  replace (pc e') with (ip f + 1 + Z.of_nat (length lb)) at 2 by lia. unfold decode_jump.
  unfold decode_label in Hd. destruct (is_signed_jump b); by eapply decode_at.
Qed.

Lemma runs_jump {A} base st l (a : A) (K : A -> exit -> Prop) : K a (GOTO l st) -> runs base st (emit (E_jump l)) (done a) K.
Proof.
  intros HK c c' cs e e' f w Hc [= _ <-] Hn P Hs [Hip Hd Hi] Hst. exists (GOTO l st). split; [done|]. intros p Hp.
  pose proof P as P0. apply placed_one in P0 as (E & Hin & Hin'). cbn in E. apply suppressing_Some in E as (e1 & E & ->).
  destruct (jump_decodes e 0 MP_BC_JUMP l e1 f w) as (_ & _ & _ & t & Ht & Hdis & Hdec); try done.
  { exact (i_agrees _ _ _ _ _ Hin'). } { exact (i_overflow _ _ _ _ _ Hin'). }
  assert (p = t) as -> by (eapply target_fun; [eapply target_placed; [exact P|exact Hp]|exact Ht]).
  eapply dispatch_next; [done..|]. right. rewrite Hdis. change (op_jump code (with_ip f (ip f + 1)) w = Some (inr (BRANCH (moved f t st (fastn f))), w)).
  unfold op_jump. rewrite (bind_inr _ _ _ _ _ Hdec). unfold ret. do 4 f_equal. unfold with_ip, moved. cbn. f_equal; [lia|done].
Qed.

(** A jump that depends on the truth of the top: [jumped] and [passed] are the stacks
    at the label and after the instruction. *)
Definition op_test (b : Z) (cond : bool) (keep : bool) f : vm (X:=X) (W:=W) (flow (X:=X) (I:=I)) :=
  bind (decode_jump b f) (fun '(lab, f) => bind (POP_VALUE f) (fun '(v, popped) => bind (call (rt_is_true v)) (fun b =>
  ret (BRANCH (if Bool.eqb b cond then let g := if keep then f else popped in with_ip g (ip g + lab) else popped))))).

Lemma runs_test base st b (cond keep : bool) l v x :
  (forall e, emit_bc opt_level e x = emit_write_bytecode_byte_label e (-1) b l) -> (forall b', x <> E_yield b') -> stack_effect x = -1 ->
  0 <= b < 256 -> plain_opcode b = true -> (forall g w, entry code b (entries code) g w = op_test b cond keep g w) ->
  base `suffix_of` st ->
  runs base (S_VAL v :: st) (emit x) (is_true v)
    (fun t y => y = if Bool.eqb t cond then GOTO l (if keep then S_VAL v :: st else st) else FALL st).
Proof.
  intros Hx Hy Heff Hb Hop Hent Hbase c c' cs e e' f w Hc [= _ <-] Hn P Hs [Hip Hd Hi] Hst.
  pose proof P as P0. apply placed_one in P0 as (E & Hin & Hin'). rewrite Hx in E.
  pose proof (placed_effect _ _ _ _ _ _ _ _ P) as Hdep. unfold effect in Hdep. cbn [foldr] in Hdep. rewrite Heff, <- Hd, Hst in Hdep.
  destruct (jump_decodes e (-1) b l e' f w Hin (i_agrees _ _ _ _ _ Hin') (i_overflow _ _ _ _ _ Hin') Hs Hb E Hip)
    as (Hs' & Hlt & Hbyte & t & Ht & Hdis & Hdec).
  rewrite Hent in Hdis. unfold op_test in Hdis. rewrite (bind_inr _ _ _ _ _ Hdec) in Hdis.
  unfold POP_VALUE, POP in Hdis. cbn [stack with_ip] in Hdis. rewrite Hst in Hdis. cbn in Hdis. unfold bind, call, ret in Hdis. cbn in Hdis.
  unfold is_true, run. destruct (rt_is_true v w) as [[ex|tv] w1]; cbn [leads].
  - apply (raises_weaken code base base f (ip f) (pc e')); [reflexivity|lia|reflexivity|].
    apply (step_raise code base f w b ex w1); try done; [lia|]. rewrite Hst. by apply suffix_cons_r.
  - exists (if Bool.eqb tv cond then GOTO l (if keep then S_VAL v :: st else st) else FALL st). split; [done|].
    destruct (Bool.eqb tv cond).
    + intros p Hp. assert (p = t) as -> by (eapply target_fun; [eapply target_placed; [exact P|exact Hp]|exact Ht]).
      eapply dispatch_next; [done..|]. right. rewrite Hdis.
      destruct keep; unfold with_ip, moved, with_stack; cbn; rewrite ?Hst; by replace (pc e' + (t - pc e')) with t by lia.
    + split; [done|]. split; [|cbn [length] in Hdep; lia]. eapply dispatch_next; [done..|]. right. by rewrite Hdis.
Qed.

Lemma runs_pop_jump_if base st cond l v : base `suffix_of` st ->
  runs base (S_VAL v :: st) (emit (E_pop_jump_if cond l)) (is_true v)
    (fun t y => y = if Bool.eqb t cond then GOTO l st else FALL st).
Proof.
  intros Hb. destruct cond.
  - by apply (runs_test base st MP_BC_POP_JUMP_IF_TRUE true false).
  - by apply (runs_test base st MP_BC_POP_JUMP_IF_FALSE false false).
Qed.

Lemma runs_jump_if_or_pop base st cond l v : base `suffix_of` st ->
  runs base (S_VAL v :: st) (emit (E_jump_if_or_pop cond l)) (is_true v)
    (fun t y => y = if Bool.eqb t cond then GOTO l (S_VAL v :: st) else FALL st).
Proof.
  intros Hb. destruct cond.
  - by apply (runs_test base st MP_BC_JUMP_IF_TRUE_OR_POP true true).
  - by apply (runs_test base st MP_BC_JUMP_IF_FALSE_OR_POP false true).
Qed.

End runs.

Create HintDb total.
#[export] Hint Resolve total_done total_run : total.
#[export] Hint Extern 1 (total (andthen _ _)) => apply total_andthen; [|intros ?] : total.
