(* ===== verification/CompileSound.v ===== *)
(** The code of an expression evaluates it: each form of expression is compiled to
    code that has the effect of its evaluation, and a condition to code that jumps
    when it should. *)

From Stdlib Require Import ZArith Lia.
From stdpp Require Import base option list numbers.
From S2P Require Import Prelude Mpn IntObj Lexer HashMap Qstr Grammar Parse Bytecode BytecodeProps Scope EmitBc Compile Vm CodeAt CallSem VmRun VmCalls Eval CompileShape CompileRuns.

(** The names of a module are not local variables. *)
Definition is_global (i : id_info_t) : Prop :=
  match id_kind i with
  | ID_INFO_KIND_GLOBAL_IMPLICIT | ID_INFO_KIND_GLOBAL_IMPLICIT_ASSIGNED | ID_INFO_KIND_GLOBAL_EXPLICIT => True
  | _ => False
  end.

Lemma literal_newline t : literal_token t -> t <> MP_TOKEN_NEWLINE.
Proof. by destruct t. Qed.

Section sound.
Context {F X I W : Type} `{FloatLiterals F} `{QstrNumbers} `{ConstFloats F} `{Runtime X I W} (code : vm_code X).
Context (opt_level : Z) (consts : list (obj F)) (labels : list (option Z)) (const_value : obj F -> value X) (s : scope_t).
Context `{!Quiet (X:=X) (I:=I) (W:=W)} `{!Table code consts const_value}.
Abbreviation node := (parse_node F).
Abbreviation expression := (expression (F:=F) (lit:=literal_token)).
Abbreviation sequence := (sequence (F:=F) (lit:=literal_token)).
Abbreviation slice_end := (slice_end (F:=F) (lit:=literal_token)).
Abbreviation optional := (optional (F:=F) (lit:=literal_token)).
Abbreviation trailer := (trailer (F:=F) (lit:=literal_token)).
Abbreviation argument := (argument (F:=F) (lit:=literal_token)).
Abbreviation arguments := (arguments (F:=F) (lit:=literal_token)).
Abbreviation trailers := (trailers (F:=F) (lit:=literal_token)).
Abbreviation comp_m := (comp_m (F:=F)).
Abbreviation value := (value X).
Abbreviation slot := (slot X I).
Abbreviation ev := (ev (X:=X) (I:=I) (W:=W)).
Abbreviation runs := (runs (I:=I) (W:=W) code opt_level consts labels s).
Abbreviation tame := (tame (F:=F) s).
Abbreviation keeps := (keeps (F:=F) s).
Abbreviation load_id := (load_id (X:=X) (I:=I) (W:=W) s).
Implicit Types (pn : node) (m : comp_m) (st base : list slot) (v : value).
Local Open Scope ev_scope.

(** The numbers of names fit in an instruction, and the names are global. *)
Context (fits_qst : forall t, fits (qst_of t)) (globals : forall q n i, scope_find s q = Some (n, i) -> is_global i).

Abbreviation pushes st := (falls (fun v => push (X:=X) (I:=I) v st)).
(** A condition jumps to [l] when its truth is [b]. *)
Definition branches st (b : bool) (l : label) (t : bool) (x : exit (X:=X) (I:=I)) : Prop :=
  x = if Bool.eqb t b then GOTO l st else FALL st.

Lemma andthen_done {A} (m : ev A) x : andthen m done x = m x.
Proof. unfold andthen, done. by destruct (m x) as [[[]]|]. Qed.

(** ** Names *)

Lemma runs_in_scope_pass {A} get q op base st (R : ev A) K : runs base st (op s) R K ->
  runs base st (in_scope_pass get q op) R K.
Proof.
  intros Hop. apply runs_with_comp. intros c [Hs Hp]. by rewrite bool_decide_eq_false_2, Hs.
Qed.

Lemma runs_load_id q base st : fits q -> base `suffix_of` st -> runs base st (compile_load_id q) (load_id q) (pushes st).
Proof.
  intros Hq Hb. apply runs_in_scope_pass. unfold id_op, Eval.load_id. destruct (scope_find s q) as [[n i]|] eqn:Ef; [|done].
  pose proof (globals q n i Ef) as Hg. unfold is_global in Hg. cbn [fmap option_fmap option_map snd].
  destruct (id_kind i); try done; apply (runs_call code opt_level consts labels const_value s); try done; apply total_run.
Qed.

Lemma runs_store_id q base st v : fits q -> base `suffix_of` st ->
  runs base (push v st) (compile_store_id q) (store_id s q v) (falls (fun _ => st)).
Proof.
  intros Hq Hb. apply runs_in_scope_pass. unfold id_op, store_id. destruct (scope_find s q) as [[n i]|] eqn:Ef; [|done].
  pose proof (globals q n i Ef) as Hg. unfold is_global in Hg. cbn [fmap option_fmap option_map snd].
  destruct (id_kind i); try done; apply (runs_call code opt_level consts labels const_value s); try done; apply total_run.
Qed.

Lemma tame_load_id q : tame (compile_load_id q).
Proof. eapply keeps_tame, keeps_load_id. Qed.

Lemma tame_store_id q : tame (compile_store_id q).
Proof. eapply keeps_tame, keeps_store_id. Qed.

(** ** The forms *)

Lemma op_from_bounds tokens first t op : op_from tokens first t = Some op -> first <= op < first + Z.of_nat (length tokens).
Proof.
  unfold op_from. intros ([i x] & Hf & [= <-])%bind_Some. apply list_find_Some in Hf as (Hl & _ & _).
  apply lookup_lt_Some in Hl. lia.
Qed.

Lemma comparison_op_fits pn op : comparison_op pn = Some op -> call_fits (F:=F) (E_binary_op op).
Proof.
  unfold comparison_op, call_fits.
  assert (0 <= MP_BINARY_OP_IN < MP_BINARY_OP_NUM_BYTECODE /\ 0 <= MP_BINARY_OP_IS < MP_BINARY_OP_NUM_BYTECODE) as [? ?] by done.
  destruct pn as [| | | |t| |line kind nodes]; try done.
  - destruct (bool_decide _); [intros [= <-]; by left|]. intros E%op_from_bounds.
    change (Z.of_nat (length tokens_from_op_less)) with 6 in E. unfold MP_BINARY_OP_LESS, MP_BINARY_OP_NUM_BYTECODE, MP_BINARY_OP_POWER in *. lia.
  - destruct kind; try done; [intros [= <-]; by right; left|].
    intros (pn & _ & [= <-])%bind_Some. destruct (is_null pn); [by left|by right; right].
Qed.

Lemma token_op_fits pn op : token_op pn = Some op -> call_fits (F:=F) (E_binary_op op).
Proof.
  destruct pn as [| | | |t| |]; try done. cbn [token_op call_fits]. intros E%op_from_bounds.
  change (Z.of_nat (length tokens_from_dbl_less)) with 10 in E. unfold MP_BINARY_OP_LSHIFT, MP_BINARY_OP_NUM_BYTECODE, MP_BINARY_OP_POWER in *. lia.
Qed.

Lemma unary_op_fits t op : unary_op_of_token t = Some op -> call_fits (F:=F) (E_unary_op op).
Proof. by destruct t; try done; intros [= <-]. Qed.

Context `{!LiteralTruth (W:=W) const_value}.

Section forms.
Variable compile_node : node -> comp_m.
Variable c_if_cond : node -> bool -> label -> comp_m.
Variable eval : node -> ev value.
Variable eval_cond : node -> ev bool.
Variable eval_trailer : value -> node -> ev value.
Hypothesis keeps_node : forall pn, expression pn -> keeps 1 (compile_node pn).
Hypothesis keeps_cond : forall pn b l, expression pn -> keeps 0 (c_if_cond pn b l).
Hypothesis keeps_trailer : forall pn, trailer pn -> keeps 0 (compile_node pn).
Hypothesis runs_node : forall pn base st, expression pn -> base `suffix_of` st -> runs base st (compile_node pn) (eval pn) (pushes st).
Hypothesis runs_cond : forall pn b l base st, expression pn -> base `suffix_of` st ->
  runs base st (c_if_cond pn b l) (eval_cond pn) (branches st b l).
Hypothesis runs_trailer : forall pn base st v, trailer pn -> base `suffix_of` st ->
  runs base (push v st) (compile_node pn) (eval_trailer v pn) (pushes st).

Lemma tame_node pn : expression pn -> tame (compile_node pn).
Proof. intros Hpn. eapply keeps_tame. by apply keeps_node. Qed.

Lemma tame_cond pn b l : expression pn -> tame (c_if_cond pn b l).
Proof. intros Hpn. eapply keeps_tame. by apply keeps_cond. Qed.

Lemma tame_emit_op o k : (forall op b, k op <> E_yield b) -> tame (emit_op o k).
Proof. intros Hk. destruct o; [by apply tame_emit|apply tame_fails]. Qed.

Ltac tame_tac := repeat
  match goal with
  | |- CompileRuns.tame _ (seq _ _) => apply tame_seq
  | |- CompileRuns.tame _ (emit _) => apply tame_emit; done
  | |- CompileRuns.tame _ (emit_op _ _) => apply tame_emit_op; done
  | |- CompileRuns.tame _ (compile_node _) => apply tame_node; done
  | |- CompileRuns.tame _ (c_if_cond _ _ _) => apply tame_cond; done
  | |- CompileRuns.tame _ skip => apply tame_skip
  end.

(** The emitter's call for an operation on values. *)
Ltac runs_call_tac := apply (runs_call code opt_level consts labels const_value s); try done; try solve [auto with total].

Lemma suffix_push base st v : base `suffix_of` st -> base `suffix_of` push (I:=I) v st.
Proof. apply suffix_cons_r. Qed.
Hint Resolve suffix_push : core.

(** An expression, then a part that takes its value. *)
Lemma runs_node_then {A} pn m base st (R : value -> ev A) K : expression pn -> base `suffix_of` st -> tame m ->
  (forall v, runs base (push v st) m (R v) K) -> runs base st (seq (compile_node pn) m) (v ←e eval pn; R v) K.
Proof. intros Hpn Hb Hm Hr. eapply runs_then; [by apply tame_node|done|by apply runs_node|done]. Qed.

Lemma runs_all nodes : Forall expression nodes -> forall base st, base `suffix_of` st ->
  runs base st (each compile_node nodes) (eval_all eval nodes)
    (fun vs x => x = FALL (rev (S_VAL <$> vs) ++ st) /\ length vs = length nodes).
Proof.
  induction 1 as [|pn nodes Hpn Hn IH]; intros base st Hb; cbn [each eval_all]; [by apply runs_skip|].
  apply runs_node_then; [done..| |].
  { apply tame_each. eapply Forall_impl; [|exact Hn]. apply tame_node. }
  intros v. eapply runs_map; [apply IH; by apply suffix_push|]. intros vs x [-> Hl]. cbn [fmap list_fmap rev length].
  rewrite <- app_assoc. by rewrite Hl.
Qed.

(** ** Displays *)

Lemma slot_values (vs : list value) : mapM (fun s : slot => match s with S_VAL v => Some v | _ => None end) (S_VAL <$> vs) = Some vs.
Proof. induction vs as [|v vs IH]; [done|]. cbn. cbn in IH. by rewrite IH. Qed.

Lemma items_values vs st n : n = Z.of_nat (length vs) -> items n (rev (S_VAL <$> vs) ++ st) = Some (vs, st).
Proof. intros ->. rewrite items_app by by rewrite length_rev, length_fmap. rewrite rev_involutive. by rewrite slot_values. Qed.

Lemma drop_values (vs : list value) st n : n = Z.of_nat (length vs) -> drop (Z.to_nat n) (rev (S_VAL <$> vs) ++ st) = st.
Proof. intros ->. rewrite Nat2Z.id. apply drop_app_length'. by rewrite length_rev, length_fmap. Qed.

Lemma runs_build base st k n vs : k <> MP_EMIT_BUILD_MAP -> n = Z.of_nat (length vs) -> n < 2 ^ 32 -> base `suffix_of` st ->
  total (build (I:=I) (W:=W) k vs) -> runs base (rev (S_VAL <$> vs) ++ st) (emit (E_build n k)) (build k vs) (pushes st).
Proof.
  intros Hk Hn Hf Hb Ht. runs_call_tac.
  - intros a. cbn [call_sem]. rewrite items_values by done. by destruct k.
  - cbn. unfold fits. lia.
  - cbn [pops]. destruct k; try done; by rewrite drop_values.
Qed.

Lemma runs_display base st k nodes m (make : list value -> rt value) : k <> MP_EMIT_BUILD_MAP -> (forall vs, build k vs = run (make vs)) ->
  Forall expression nodes -> few (2 ^ 32) nodes -> base `suffix_of` st -> 
  (forall c, m c = each compile_node nodes c) ->
  runs base st (seq m (emit (E_build (Z.of_nat (length nodes)) k))) (vs ←e eval_all eval nodes; run (make vs)) (pushes st).
Proof.
  intros Hk Hmake Hn Hf Hb Hm.
  apply (runs_comp _ _ _ _ _ _ _ _ (seq (each compile_node nodes) (emit (E_build (Z.of_nat (length nodes)) k)))).
  { intros c. unfold seq. by rewrite Hm. }
  eapply runs_seq; [|by apply tame_emit|by apply runs_all| |by intros vs l st' [[=] _]].
  { apply tame_each. eapply Forall_impl; [|exact Hn]. apply tame_node. }
  intros vs st' [[= ->] Hl]. rewrite <- Hmake. apply runs_build; [done|by rewrite Hl|exact Hf|done|]. rewrite Hmake. apply total_run.
Qed.

Lemma runs_tuple base st nodes : Forall expression nodes -> few (2 ^ 32) nodes -> base `suffix_of` st ->
  runs base st (compile_generic_tuple compile_node nodes) (vs ←e eval_all eval nodes; run (mp_obj_new_tuple vs)) (pushes st).
Proof. intros Hn Hf Hb. by apply runs_display. Qed.

Lemma runs_atom_paren pn items base st : sequence pn items -> base `suffix_of` st ->
  runs base st (compile_atom_paren compile_node [pn]) (eval_sequence eval pn mp_obj_new_tuple) (pushes st).
Proof.
  intros Hpn Hb. unfold compile_atom_paren, at_node, eval_sequence. cbn [lookup list_lookup].
  destruct Hpn as [|line items Hi Hf]; cbn [is_null as_struct].
  - apply (runs_build base st MP_EMIT_BUILD_TUPLE 0 []); try done. apply total_run.
  - rewrite bool_decide_eq_true_2, has_comp_for_items by done. by apply runs_tuple.
Qed.

Lemma runs_unless_error {A} base st pn m (R : ev A) K : runs base st m R K ->
  runs base st (with_comp (fun c => match compile_error c with Some _ => compile_error_set_line pn | None => m end)) R K.
Proof.
  intros Hm c c' cs e e' f w Hc E Hn. unfold with_comp in E. cbn beta in E.
  destruct (compile_error c) as [z|] eqn:Ee; [|exact (Hm c c' cs e e' f w Hc E Hn)].
  exfalso. unfold compile_error_set_line, update in E. rewrite Ee in E. injection E as <- <-.
  destruct z as [|p|p], (node_line pn); cbn in Hn; congruence.
Qed.

Lemma runs_generic nodes : Forall expression nodes -> forall base st, base `suffix_of` st ->
  runs base st (compile_generic_all_nodes compile_node nodes) (eval_all eval nodes)
    (fun vs x => x = FALL (rev (S_VAL <$> vs) ++ st) /\ length vs = length nodes).
Proof.
  induction 1 as [|pn nodes Hpn Hn IH]; intros base st Hb; cbn [compile_generic_all_nodes eval_all]; [by apply runs_skip|].
  apply runs_node_then; [done..| |].
  { eapply keeps_tame, keeps_unless_error, keeps_generic; [exact keeps_node|done]. }
  intros v. apply runs_unless_error. eapply runs_map; [apply IH; by apply suffix_push|].
  intros vs x [-> Hl]. cbn [fmap list_fmap rev length]. rewrite <- app_assoc. by rewrite Hl.
Qed.

Lemma tame_generic nodes : Forall expression nodes -> tame (compile_generic_all_nodes compile_node nodes).
Proof. intros Hn. eapply keeps_tame, keeps_generic; [exact keeps_node|done]. Qed.

Lemma runs_atom_bracket pn items base st : sequence pn items -> base `suffix_of` st ->
  runs base st (compile_atom_bracket compile_node [pn]) (eval_sequence eval pn mp_obj_new_list) (pushes st).
Proof.
  intros Hpn Hb. unfold compile_atom_bracket, at_node, eval_sequence. cbn [lookup list_lookup].
  destruct Hpn as [|line items Hi Hf]; cbn [is_null].
  - apply (runs_build base st MP_EMIT_BUILD_LIST 0 []); try done. apply total_run.
  - rewrite has_comp_for_items by done.
    eapply runs_seq; [by apply tame_generic|by apply tame_emit|by apply runs_generic| |by intros vs l st' [[=] _]].
    intros vs st' [[= ->] Hl]. apply (runs_build base st MP_EMIT_BUILD_LIST); [done|by rewrite Hl|exact Hf|done|apply total_run].
Qed.

Lemma eval_sequence_plain pn make : plain pn -> eval_sequence eval pn make = (v ←e eval pn; run (make [v])).
Proof. destruct pn as [| | | | | |line kind nodes]; try done. by destruct kind. Qed.

Lemma runs_bracket_one pn base st : expression pn -> base `suffix_of` st ->
  runs base st (compile_atom_bracket compile_node [pn]) (eval_sequence eval pn mp_obj_new_list) (pushes st).
Proof.
  intros Hpn Hb. rewrite bracket_plain, eval_sequence_plain by by eapply expression_plain.
  apply runs_node_then; [done..|by apply tame_emit|]. intros v. apply (runs_build base st MP_EMIT_BUILD_LIST 1 [v]); try done. apply total_run.
Qed.

(** ** Operators *)

Lemma total_binary_op op (lhs rhs : value) : total (binary_op (I:=I) (W:=W) op lhs rhs).
Proof. unfold binary_op. repeat case_match; auto with total. Qed.

Lemma runs_binary op base st lhs rhs : call_fits (F:=F) (E_binary_op op) -> base `suffix_of` st ->
  runs base (push rhs (push lhs st)) (emit (E_binary_op op)) (binary_op op lhs rhs) (pushes st).
Proof. intros Hf Hb. runs_call_tac. apply total_binary_op. Qed.

Lemma runs_op o base st lhs rhs : (forall op, o = Some op -> call_fits (F:=F) (E_binary_op op)) -> base `suffix_of` st ->
  runs base (push rhs (push lhs st)) (emit_op o E_binary_op) (eval_op o lhs rhs) (pushes st).
Proof. intros Hf Hb. destruct o as [op|]; [|done]. apply runs_binary; [by apply Hf|done]. Qed.

Lemma runs_unary op base st v : call_fits (F:=F) (E_unary_op op) -> base `suffix_of` st ->
  runs base (push v st) (emit (E_unary_op op)) (run (rt_unary_op op v)) (pushes st).
Proof. intros Hf Hb. by runs_call_tac. Qed.

Lemma runs_same_op op nodes : call_fits (F:=F) (E_binary_op op) -> Forall expression nodes -> forall base st lhs, base `suffix_of` st ->
  runs base (push lhs st) (each (fun pn => seq (compile_node pn) (emit (E_binary_op op))) nodes) (eval_same_op eval op lhs nodes) (pushes st).
Proof.
  intros Hf. induction 1 as [|pn nodes Hpn Hn IH]; intros base st lhs Hb; cbn [each eval_same_op]; [by apply runs_skip|].
  assert (tame (each (fun pn => seq (compile_node pn) (emit (E_binary_op op))) nodes)) as T.
  { apply tame_each. eapply Forall_impl; [|exact Hn]. intros pn' Hpn'. tame_tac. }
  eapply runs_comp; [intros c; apply seq_assoc|]. apply runs_node_then; [done|by apply suffix_push|tame_tac; exact T|].
  intros rhs. eapply runs_then; [by apply tame_emit|exact T|by apply runs_binary|]. intros v. by apply IH.
Qed.

Lemma runs_token_op op base st lhs rhs : base `suffix_of` st ->
  runs base (push rhs (push lhs st)) (as_token op (fun tok => emit_op (op_from tokens_from_dbl_less MP_BINARY_OP_LSHIFT tok) E_binary_op))
    (eval_op (token_op op) lhs rhs) (pushes st).
Proof. intros Hb. destruct op; try done. apply runs_op; [|done]. intros op Ho. by eapply token_op_fits. Qed.

Lemma tame_as_token pn k : (forall t, tame (k t)) -> tame (as_token pn k).
Proof. intros Hk. destruct pn; first [apply Hk|apply tame_fails]. Qed.

Lemma runs_term nodes : between expression nodes -> forall base st lhs, base `suffix_of` st ->
  runs base (push lhs st) (term_loop compile_node nodes) (eval_term eval lhs nodes) (pushes st).
Proof.
  induction 1 as [|op pn nodes Hpn Hn IH]; intros base st lhs Hb; cbn [term_loop eval_term]; [by apply runs_skip|].
  assert (tame (term_loop compile_node nodes)) as T by (eapply keeps_tame, keeps_term; [exact keeps_node|done]).
  assert (tame (as_token op (fun tok => emit_op (op_from tokens_from_dbl_less MP_BINARY_OP_LSHIFT tok) E_binary_op))) as T'.
  { apply tame_as_token. intros t. by apply tame_emit_op. }
  apply runs_node_then; [done|by apply suffix_push|by apply tame_seq|]. intros rhs.
  eapply runs_then; [done..|by apply runs_token_op|]. intros v. by apply IH.
Qed.

Lemma runs_factor op pn base st : expression pn -> base `suffix_of` st ->
  runs base st (seq (compile_node pn) (as_token op (fun tok => emit_op (unary_op_of_token tok) E_unary_op)))
    (v ←e eval pn; match op with PN_TOKEN t => match unary_op_of_token t with Some op => run (rt_unary_op op v) | None => stuck end | _ => stuck end)
    (pushes st).
Proof.
  intros Hpn Hb. apply runs_node_then; [done..| |].
  { apply tame_as_token. intros t. by apply tame_emit_op. }
  intros v. destruct op as [| | | |t| |]; try done. cbn [as_token]. destruct (unary_op_of_token t) as [op|] eqn:Eo; [|done].
  apply runs_unary; [by eapply unary_op_fits|done].
Qed.

(** ** Logical operators *)

Lemma tame_or_and cond l pn nodes : expression pn -> Forall expression nodes -> tame (or_and_loop compile_node cond l (pn :: nodes)).
Proof. intros Hpn Hn. eapply keeps_tame, keeps_or_and; [exact keeps_node|done..]. Qed.

Lemma runs_or_and_loop cond l nodes : Forall expression nodes -> forall pn base st, expression pn -> base `suffix_of` st ->
  runs base st (or_and_loop compile_node cond l (pn :: nodes)) (eval_logic eval cond pn nodes)
    (fun v x => x = FALL (push v st) \/ x = GOTO l (push v st)).
Proof.
  induction 1 as [|pn' nodes Hpn' Hn IH]; intros pn base st Hpn Hb.
  - eapply runs_conv; [by apply runs_node| |]; [|by intros v x ->; left].
    intros x. cbn [eval_logic]. by rewrite andthen_done.
  - assert (T := tame_or_and cond l pn' nodes Hpn' Hn).
    change (or_and_loop compile_node cond l (pn :: pn' :: nodes)) with
      (seq (compile_node pn) (seq (emit (E_jump_if_or_pop cond l)) (or_and_loop compile_node cond l (pn' :: nodes)))).
    cbn [eval_logic]. apply runs_node_then; [done..|tame_tac; exact T|]. intros v.
    eapply runs_seq; [by apply tame_emit|exact T|by apply runs_jump_if_or_pop|..].
    + intros b st'. cbn beta. destruct (Bool.eqb b cond); [intros [=]|]. intros [= ->]. by apply IH.
    + intros b l' st'. cbn beta. destruct (Bool.eqb b cond); [|intros [=]]. intros [= -> ->]. exists v. split; [done|by right].
Qed.

Lemma runs_logic cond pn nodes base st : expression pn -> Forall expression nodes -> base `suffix_of` st ->
  runs base st (compile_or_and_test compile_node cond (pn :: nodes)) (eval_logic eval cond pn nodes) (pushes st).
Proof.
  intros Hpn Hn Hb. apply runs_next_label. intros l.
  eapply runs_label; [eapply keeps_or_and; [exact keeps_node|done..]|by apply runs_or_and_loop|..].
  - by intros v st' [[= ->]|].
  - intros v l' st' [[=]|[= -> ->]]. right. split; [done|]. split; [done|]. unfold push. cbn [length]. lia.
Qed.

(** ** Comparisons *)

Lemma eval_comparison_cons lhs op pn nodes : nodes <> [] ->
  eval_comparison eval lhs (op :: pn :: nodes) =
  (rhs ←e eval pn; v ←e eval_op (comparison_op op) lhs rhs; b ←e is_true v;
   if b then eval_comparison eval rhs nodes else done v).
Proof. by destruct nodes. Qed.

Lemma comparison_loop_cons l op pn nodes : nodes <> [] ->
  comparison_loop compile_node l (op :: pn :: nodes) =
  seq (compile_node pn) (seq (emit E_dup_top) (seq (emit E_rot_three) (seq (emit_op (comparison_op op) E_binary_op)
    (seq (emit (E_jump_if_or_pop false l)) (comparison_loop compile_node l nodes))))).
Proof. by destruct nodes. Qed.

(** The instructions that only move values. *)
Lemma runs_move {A} base st st' x (a : A) K : (forall b, call_sem (X:=X) (I:=I) (W:=W) const_value x st b = done st' b) ->
  call_fits x -> base `suffix_of` drop (Z.to_nat (pops x)) st -> K a (FALL st') -> runs base st (emit x) (done a) K.
Proof.
  intros Hx Hf Hb HK c c' cs e e' f w Hc E Hn P Hs Hat Hst.
  pose proof (runs_emit code opt_level consts labels const_value s base st x Hf Hb ltac:(intros b; by rewrite Hx) c c' cs e e' f w Hc E Hn P Hs Hat Hst) as Hr.
  rewrite Hx in Hr. destruct Hr as (y & -> & Ha). by exists (FALL st').
Qed.

Ltac runs_move_tac :=
  eapply runs_move_then;
  [tame_tac; try assumption..|eapply runs_move; [intros ?; reflexivity|done| |reflexivity]; cbn; repeat first [done|apply suffix_push]|].

Lemma runs_comparison_loop l nodes : between expression nodes -> forall base st lhs, base `suffix_of` st -> 
  runs base (push lhs st) (comparison_loop compile_node l nodes) (eval_comparison eval lhs nodes)
    (fun v x => x = FALL (push v st) \/ exists r, x = GOTO l (push v (push r st))).
Proof.
  induction 1 as [|op pn nodes Hpn Hn IH]; intros base st lhs Hb; [apply runs_skip; by left|].
  pose proof (comparison_op_fits op) as Hop. destruct (decide (nodes = [])) as [->|Hne].
  - cbn [comparison_loop eval_comparison]. apply runs_node_then; [done|by apply suffix_push|by tame_tac|]. intros rhs.
    eapply runs_conv; [by apply runs_op|done|by intros v x ->; left].
  - rewrite comparison_loop_cons, eval_comparison_cons by done.
    assert (tame (comparison_loop compile_node l nodes)) as T by (eapply keeps_tame, keeps_comparison; [exact keeps_node|done]).
    apply runs_node_then; [done|by apply suffix_push|by tame_tac|]. intros rhs.
    runs_move_tac. runs_move_tac.
    eapply runs_then; [by tame_tac|by tame_tac|by apply runs_op, suffix_push|]. intros v.
    eapply runs_seq; [by tame_tac|exact T|by apply runs_jump_if_or_pop, suffix_push|..].
    + intros b st'. cbn beta. destruct b; [|intros [=]]. intros [= ->]. by apply IH.
    + intros b l' st'. cbn beta. destruct b; [intros [=]|]. intros [= -> ->]. exists v. split; [done|]. right. by exists rhs.
Qed.

(** A sequence grouped in another way. *)
Ltac seq_group := intros ?; rewrite ?seq_assoc; repeat (apply seq_ext; intros ?; rewrite ?seq_assoc); reflexivity.

(** The end of a chain, from its first comparison. *)
Lemma runs_chain_end l_fail l_end nodes base st lhs : between expression nodes -> base `suffix_of` st ->
  runs base (push lhs st)
    (seq (seq (comparison_loop compile_node l_fail nodes) tick)
      (seq (emit (E_jump l_end)) (seq (emit (E_label_assign l_fail)) (seq (emit (E_adjust_stack_size 1))
        (seq (emit E_rot_two) (seq (emit E_pop_top) (emit (E_label_assign l_end))))))))
    (eval_comparison eval lhs nodes) (pushes st).
Proof.
  intros Hn Hb. set (loop := comparison_loop compile_node l_fail nodes). set (R := eval_comparison eval lhs nodes).
  assert (keeps 0 loop) as Kl by (eapply keeps_comparison; [exact keeps_node|done]).
  assert (keeps 0 (seq (seq loop tick) (emit (E_jump l_end)))) as Kj.
  { eapply (keeps_eq s); [apply keeps_seq; [apply keeps_seq; [exact Kl|apply keeps_tick]|by apply keeps_emit]|done]. }
  assert (runs base (push lhs st) (seq (seq loop tick) (emit (E_jump l_end))) R
    (fun v x => x = GOTO l_end (push v st) \/ exists r, x = GOTO l_fail (push v (push r st)))) as Rj.
  { eapply runs_comp; [apply seq_assoc|]. eapply runs_seq_done; [eapply keeps_tame, Kl| |by apply runs_comparison_loop| |].
    - apply tame_seq; [eapply keeps_tame, keeps_tick|by apply tame_emit].
    - intros v st' [[= ->]|[r [=]]]. eapply runs_move_then; [eapply keeps_tame, keeps_tick|by apply tame_emit|by apply runs_tick|].
      apply runs_jump; [done|by left].
    - intros v l st' [[=]|[r [= -> ->]]]. right. by exists r. }
  assert (runs base (push lhs st) (seq (seq (seq loop tick) (emit (E_jump l_end))) (seq (emit (E_label_assign l_fail)) (emit (E_adjust_stack_size 1)))) R
    (fun v x => x = GOTO l_end (push v st) \/ exists r, x = FALL (push v (push r st)))) as Rl.
  { eapply runs_label_adjust; [exact Kj|exact Rj|by intros v st' [[=]|[r [=]]]|].
    intros v l st' [[= -> ->]|[r [= -> ->]]]; [by left; left|right]. split; [done|]. split; [by right; exists r|].
    unfold push. cbn [length]. lia. }
  set (mid := seq (seq (seq loop tick) (emit (E_jump l_end))) (seq (emit (E_label_assign l_fail)) (emit (E_adjust_stack_size 1)))) in *.
  assert (keeps 1 mid) as Km.
  { eapply (keeps_eq s); [apply keeps_seq; [exact Kj|apply keeps_seq; by apply keeps_emit]|done]. }
  assert (runs base (push lhs st) (seq mid (seq (emit E_rot_two) (emit E_pop_top))) R
    (fun v x => x = GOTO l_end (push v st) \/ x = FALL (push v st))) as Rp.
  { eapply runs_seq_done; [eapply keeps_tame, Km|by tame_tac|exact Rl|..].
    - intros v st' [[=]|[r [= ->]]]. runs_move_tac.
      apply (runs_move base _ (push v st)); [done|done|by apply suffix_push|by right].
    - intros v l st' [[= -> ->]|[r [=]]]. by left. }
  apply (runs_comp _ _ _ _ _ _ _ _ (seq (seq mid (seq (emit E_rot_two) (emit E_pop_top))) (emit (E_label_assign l_end)))).
  { subst mid. seq_group. }
  eapply runs_label; [|exact Rp|..].
  - apply keeps_seq; [exact Km|apply keeps_seq; by apply keeps_emit].
  - by intros v st' [[=]|[= ->]].
  - intros v l st' [[= -> ->]|[=]]. right. split; [done|]. split; [done|]. unfold push. cbn [length stack_effect]. lia.
Qed.

Lemma runs_one_comparison nodes base st lhs : between expression nodes -> (length nodes <= 2)%nat -> base `suffix_of` st ->
  runs base (push lhs st) (comparison_loop compile_node 0 nodes) (eval_comparison eval lhs nodes) (pushes st).
Proof.
  intros Hn Hl Hb. destruct Hn as [|op pn nodes Hpn [|op' pn' nodes' _ _]]; [by apply runs_skip| |cbn in Hl; lia].
  pose proof (comparison_op_fits op) as Hop.
  cbn [comparison_loop eval_comparison]. apply runs_node_then; [done|by apply suffix_push|by tame_tac|]. intros rhs. by apply runs_op.
Qed.

Lemma runs_comparison pn nodes base st : expression pn -> between expression nodes -> base `suffix_of` st ->
  runs base st (compile_comparison compile_node (pn :: nodes)) (v ←e eval pn; eval_comparison eval v nodes) (pushes st).
Proof.
  intros Hpn Hn Hb. unfold compile_comparison. destruct (Nat.ltb_spec 3 (length (pn :: nodes))) as [Hlen|Hlen]; cbn [length] in Hlen.
  - apply runs_node_then; [done..| |].
    { eapply keeps_tame. apply keeps_next_label. intros l. pose proof (keeps_comparison s compile_node keeps_node l nodes Hn) as K.
      eapply keeps_seq; [exact K|]. apply (keeps_next_label s 0). intros l'.
      eapply (keeps_eq s); [repeat first [by apply keeps_emit|eapply keeps_seq]|done]. }
    intros lhs. apply runs_next_label. intros l_fail. apply runs_seq_next_label. intros l_end. by apply runs_chain_end.
  - apply runs_node_then; [done..| |].
    { eapply keeps_tame, keeps_comparison; [exact keeps_node|done]. }
    intros lhs. apply runs_one_comparison; [done|lia|done].
Qed.

(** ** Conditional expressions *)

Lemma runs_if_else line success cond failure base st : expression success -> expression cond -> expression failure -> base `suffix_of` st ->
  runs base st (compile_test_if_expr compile_node c_if_cond [success; PN_STRUCT line RULE_test_if_else [cond; failure]])
    (b ←e eval_cond cond; if b then eval success else eval failure) (pushes st).
Proof.
  intros Hsu Hc Hfa Hb. unfold compile_test_if_expr, at_node. cbn [lookup list_lookup as_struct].
  rewrite bool_decide_eq_true_2 by done. cbn [negb]. apply runs_next_label. intros l_fail. apply runs_next_label. intros l_end.
  set (first := seq (c_if_cond cond false l_fail) (seq (compile_node success) (emit (E_jump l_end)))).
  assert (keeps 1 first) as Kf.
  { eapply (keeps_eq s); [apply keeps_seq; [by apply keeps_cond|apply keeps_seq; [by apply keeps_node|by apply keeps_emit]]|done]. }
  assert (runs base st first (b ←e eval_cond cond; if (b : bool) then v ←e eval success; done (Some v) else done None)
    (fun o x => match o with Some v => x = GOTO l_end (push v st) | None => x = GOTO l_fail st end)) as Rf.
  { eapply runs_seq; [by apply tame_cond|by tame_tac|by apply runs_cond|..]; unfold branches.
    - intros b st'. destruct b; [|intros [=]]. intros [= ->]. apply runs_node_then; [done..|by tame_tac|].
      intros v. by apply runs_jump.
    - intros b l st'. destruct b; [intros [=]|]. intros [= -> ->]. by exists None. }
  set (mid := seq first (seq (emit (E_label_assign l_fail)) (emit (E_adjust_stack_size (-1))))).
  assert (keeps 0 mid) as Km.
  { eapply (keeps_eq s); [apply keeps_seq; [exact Kf|apply keeps_seq; by apply keeps_emit]|done]. }
  assert (runs base st mid (b ←e eval_cond cond; if (b : bool) then v ←e eval success; done (Some v) else done None)
    (fun o x => match o with Some v => x = GOTO l_end (push v st) | None => x = FALL st end)) as Rm.
  { eapply runs_label_adjust; [exact Kf|exact Rf|by intros [v|] st'|].
    intros [v|] l st' Hx; [by left|]. injection Hx as -> ->. right. split; [done|]. split; [done|]. lia. }
  apply (runs_comp _ _ _ _ _ _ _ _ (seq (seq mid (compile_node failure)) (emit (E_label_assign l_end)))).
  { subst mid first. seq_group. }
  eapply runs_label; [apply keeps_seq; [exact Km|by apply keeps_node]| | |].
  - eapply runs_conv; [eapply (runs_seq _ _ _ _ _ _ _ _ _ _ (fun o => match o with Some v => done v | None => eval failure end)
        _ (fun v x => x = FALL (push v st) \/ x = GOTO l_end (push v st)))| |intros v x Hx; exact Hx].
    + eapply keeps_tame, Km.
    + by apply tame_node.
    + exact Rm.
    + intros [v|] st' Hx; [done|]. injection Hx as ->. eapply runs_conv; [by apply runs_node|done|by intros v x ->; left].
    + intros [v|] l st' Hx; [|done]. injection Hx as -> ->. exists v. split; [done|by right].
    + intros x. unfold andthen. destruct (eval_cond cond x) as [[[ex|[|]] x']|]; cbn; [done| |done|done].
      by destruct (eval success x') as [[[ex|v] x'']|].
  - by intros v st' [[= ->]|[=]].
  - intros v l st' [[=]|[= -> ->]]. right. split; [done|]. split; [done|]. unfold push. cbn [length]. lia.
Qed.

Lemma runs_namedexpr q pn base st : expression pn -> base `suffix_of` st ->
  runs base st (compile_namedexpr compile_node [PN_ID q; pn]) (v ←e eval pn; _ ←e store_id s (qst_of q) v; done v) (pushes st).
Proof.
  intros Hpn Hb. unfold compile_namedexpr, at_node, compile_namedexpr_helper. cbn [lookup list_lookup as_id].
  set (store := with_comp _). assert (tame store) as T.
  { apply tame_with_comp. intros c [_ Hp]. rewrite bool_decide_eq_false_2 by done. apply tame_store_id. }
  eapply runs_move_then; [apply tame_skip|by tame_tac|by apply runs_skip|].
  apply runs_node_then; [done..|by tame_tac|]. intros v. runs_move_tac.
  apply runs_with_comp. intros c [_ Hp]. rewrite bool_decide_eq_false_2 by done.
  eapply runs_map; [by apply runs_store_id, suffix_push|]. by intros [] x ->.
Qed.

(** ** Slices *)

Lemma runs_slice base st start stop step : base `suffix_of` st ->
  runs base (push step (push stop (push start st))) (emit (E_build 3 MP_EMIT_BUILD_SLICE)) (run (mp_obj_new_slice start stop step)) (pushes st).
Proof. intros Hb. apply (runs_build base st MP_EMIT_BUILD_SLICE 3 [start; stop; step]); try done. apply total_run. Qed.

Lemma runs_slice_2 base st start stop : base `suffix_of` st ->
  runs base (push stop (push start st)) (emit (E_build 2 MP_EMIT_BUILD_SLICE)) (run (mp_obj_new_slice start stop V_NONE)) (pushes st).
Proof. intros Hb. apply (runs_build base st MP_EMIT_BUILD_SLICE 2 [start; stop]); try done. apply total_run. Qed.

Lemma runs_step base st start stop pn : optional pn -> base `suffix_of` st ->
  runs base (push stop (push start st))
    (if is_null pn then emit (E_build 2 MP_EMIT_BUILD_SLICE) else seq (compile_node pn) (emit (E_build 3 MP_EMIT_BUILD_SLICE)))
    (if is_null pn then run (mp_obj_new_slice start stop V_NONE) else v ←e eval pn; run (mp_obj_new_slice start stop v)) (pushes st).
Proof.
  intros Hpn Hb. destruct Hpn as [|pn Hpn]; [by apply runs_slice_2|].
  rewrite plain_not_null by by eapply expression_plain. apply runs_node_then; [done|by do 2 apply suffix_push|by tame_tac|].
  intros step. by apply runs_slice.
Qed.

Lemma eval_slice_plain start pn : plain pn ->
  eval_slice_end eval start pn = (v ←e eval pn; run (mp_obj_new_slice start v V_NONE)).
Proof. destruct pn as [| | | | | |line kind nodes]; try done. by destruct kind. Qed.

Lemma runs_slice_end pn base st start : slice_end pn -> base `suffix_of` st ->
  runs base (push start st) (compile_subscript_3 compile_node [pn]) (eval_slice_end eval start pn) (pushes st).
Proof.
  intros Hpn Hb. destruct Hpn as [|pn Hpn|line pn Hpn|line l1 stop pn Hstop Hpn].
  - unfold compile_subscript_3, at_node, load_none. cbn [lookup list_lookup]. runs_move_tac. by apply runs_slice_2.
  - rewrite subscript_3_plain, eval_slice_plain by by eapply expression_plain.
    apply runs_node_then; [done|by apply suffix_push|by tame_tac|]. intros stop. by apply runs_slice_2.
  - unfold compile_subscript_3, at_node, load_none. cbn [lookup list_lookup].
    eapply runs_move_then; [by tame_tac|eapply keeps_tame; by apply (keeps_step s compile_node keeps_node)|
      eapply runs_move; [intros ?; reflexivity|done|by apply suffix_push|reflexivity]|].
    by apply runs_step.
  - unfold compile_subscript_3, at_node. cbn [lookup list_lookup as_struct]. rewrite bool_decide_eq_true_2 by done. cbn [negb].
    apply runs_node_then; [done|by apply suffix_push|eapply keeps_tame; by apply (keeps_step s compile_node keeps_node)|].
    intros v. by apply runs_step.
Qed.

Lemma tame_slice_end pn : slice_end pn -> tame (compile_subscript_3 compile_node [pn]).
Proof. intros Hpn. eapply keeps_tame. by apply (keeps_slice_end s compile_node keeps_node). Qed.

Lemma runs_subscript line start pn base st : expression start -> slice_end pn -> base `suffix_of` st ->
  runs base st (compile_subscript compile_node RULE_subscript_2 [start; PN_STRUCT line RULE_subscript_3 [pn]])
    (v ←e eval start; eval_slice_end eval v pn) (pushes st).
Proof.
  intros Hs Hpn Hb. unfold compile_subscript, at_node. rewrite bool_decide_eq_true_2 by done.
  cbn [lookup list_lookup as_struct]. rewrite bool_decide_eq_true_2 by done.
  apply runs_node_then; [done..|by apply tame_slice_end|]. intros v. by apply runs_slice_end.
Qed.

Lemma runs_subscript_3 pn base st : slice_end pn -> base `suffix_of` st ->
  runs base st (compile_subscript compile_node RULE_subscript_3 [pn]) (eval_slice_end eval V_NONE pn) (pushes st).
Proof.
  intros Hpn Hb. unfold compile_subscript, load_none. rewrite bool_decide_eq_false_2, bool_decide_eq_true_2 by done.
  eapply runs_move_then; [by tame_tac|by apply tame_slice_end|eapply runs_move; [intros ?; reflexivity|done|done|reflexivity]|].
  by apply runs_slice_end.
Qed.

(** ** Calls *)

Lemma eval_arguments_plain pn args : plain pn ->
  eval_arguments eval (pn :: args) = (v ←e eval pn; '(p, k, vs) ←e eval_arguments eval args; done (p + 1, k, v :: vs)).
Proof. destruct pn as [| | | | | |line kind nodes]; try done. by destruct kind. Qed.

(** The arguments that follow those of [vs], then a part that takes them all. *)
Lemma runs_arguments {A} d base st k (R : Z -> Z -> list value -> ev A) K :
  (forall ast, no_star ast -> keeps (d - (n_positional ast + 2 * n_keyword ast)) (k ast)) ->
  (forall ast vs, no_star ast -> 0 <= n_positional ast < 256 -> 0 <= n_keyword ast < 256 ->
     n_positional ast + 2 * n_keyword ast = Z.of_nat (length vs) ->
     runs base (rev (S_VAL <$> vs) ++ st) (k ast) (R (n_positional ast) (n_keyword ast) vs) K) ->
  base `suffix_of` st -> forall args, Forall argument args -> forall i ast vs, no_star ast -> 0 <= n_positional ast -> 0 <= n_keyword ast ->
  n_positional ast + n_keyword ast + Z.of_nat (length args) < 256 ->
  n_positional ast + 2 * n_keyword ast = Z.of_nat (length vs) ->
  runs base (rev (S_VAL <$> vs) ++ st) (compile_arguments compile_node i args ast k)
    ('(p, kw, vs') ←e eval_arguments eval args; R (n_positional ast + p) (n_keyword ast + kw) (vs ++ vs')) K.
Proof.
  intros Kk Hk Hb args Ha. induction Ha as [|arg args Harg Ha IH]; intros i ast vs Hst Hp Hkw Hf Hl; cbn [length] in Hf.
  - eapply runs_conv; [apply Hk; [done|lia|lia|done]| |done].
    intros x. cbn. by rewrite !Z.add_0_r, app_nil_r.
  - assert (base `suffix_of` rev (S_VAL <$> vs) ++ st) as Hb' by by apply suffix_app_r.
    destruct Harg as [pn Hpn|line q pn Hpn].
    + cbn [compile_arguments]. rewrite argument_plain, eval_arguments_plain by by eapply expression_plain. rewrite (proj2 Hst).
      destruct (0 <? n_keyword ast).
      { intros c c' cs e e' f w Hc E Hn. exfalso. unfold compile_syntax_error, update in E. injection E as <- <-.
        destruct (compile_error c) eqn:Ee; cbn in Hn; congruence. }
      set (ast' := {| n_positional := _ |}). assert (no_star ast') as Hst' by by destruct Hst.
      eapply runs_conv; [apply (runs_node_then pn (compile_arguments compile_node (S i) args ast' k) base _ 
        (fun v => '(p, kw, vs') ←e eval_arguments eval args; R (n_positional ast' + p) (n_keyword ast' + kw) ((vs ++ [v]) ++ vs')) K);
        [done|done| |]| |done].
      * eapply keeps_tame. by apply (keeps_arguments s compile_node keeps_node d).
      * intros v. specialize (IH (S i) ast' (vs ++ [v]) Hst').
        rewrite fmap_app, rev_app_distr in IH. apply IH; subst ast'; cbn [n_positional n_keyword]; rewrite ?length_app; cbn [length]; lia.
      * intros x. unfold andthen. destruct (eval pn x) as [[[ex|v] x']|]; cbn; [done| |done].
        destruct (eval_arguments eval args x') as [[[ex|[[p kw] vs']] x'']|]; cbn; [done| |done].
        rewrite <- app_assoc. cbn. by replace (n_positional ast + 1 + p) with (n_positional ast + (p + 1)) by lia.
    + cbn [compile_arguments eval_arguments]. rewrite argument_keyword by by eapply expression_plain.
      set (ast' := {| n_positional := _ |}). assert (no_star ast') as Hst' by by destruct Hst.
      assert (tame (compile_arguments compile_node (S i) args ast' k)) as T.
      { eapply keeps_tame. by apply (keeps_arguments s compile_node keeps_node d). }
      eapply runs_move_then; [by tame_tac..|eapply runs_move; [intros ?; reflexivity|apply fits_qst|exact Hb'|reflexivity]|].
      eapply runs_conv; [apply (runs_node_then pn (compile_arguments compile_node (S i) args ast' k) base (push (V_QSTR (qst_of q)) (rev (S_VAL <$> vs) ++ st)) 
        (fun v => '(p, kw, vs') ←e eval_arguments eval args; R (n_positional ast' + p) (n_keyword ast' + kw) ((vs ++ [V_QSTR (qst_of q); v]) ++ vs')) K);
        [done|by apply suffix_push|exact T|]| |done].
      * intros v. specialize (IH (S i) ast' (vs ++ [V_QSTR (qst_of q); v]) Hst').
        rewrite fmap_app, rev_app_distr in IH. apply IH; subst ast'; cbn [n_positional n_keyword]; rewrite ?length_app; cbn [length]; lia.
      * intros x. unfold andthen. destruct (eval pn x) as [[[ex|v] x']|]; cbn; [done| |done].
        destruct (eval_arguments eval args x') as [[[ex|[[p kw] vs']] x'']|]; cbn; [done| |done].
        rewrite <- app_assoc. cbn. by replace (n_keyword ast + 1 + kw) with (n_keyword ast + (kw + 1)) by lia.
Qed.

(** The parenthesis of a call, of a function or of a method with the object it was
    found in. *)
Lemma runs_paren pn args (meth : bool) (call : Z -> Z -> list value -> rt value) base st st' : arguments pn args -> Forall argument args -> few 256 args ->
  base `suffix_of` st -> base `suffix_of` st' ->
  (forall p k vs a, p + 2 * k = Z.of_nat (length vs) -> (v ←e run (call p k vs); done (push v st')) a =
     call_sem const_value (if meth then E_call_method (F:=F) p k false else E_call_function p k false) (rev (S_VAL <$> vs) ++ st) a) ->
  (forall p k (vs : list value), p + 2 * k = Z.of_nat (length vs) ->
     drop (Z.to_nat (pops (if meth then E_call_method (F:=F) p k false else E_call_function p k false))) (rev (S_VAL (I:=I) <$> vs) ++ st) = st') ->
  runs base st (compile_trailer_paren_helper compile_node pn meth 0)
    ('(p, k, vs) ←e eval_arguments eval (mp_parse_node_extract_list pn RULE_arglist); run (call p k vs)) (pushes st').
Proof.
  intros Hp Ha Hf Hb Hb' Hcall Hdrop. unfold compile_trailer_paren_helper. rewrite (extract_arguments pn args) by done.
  set (ast := {| n_positional := 0 |}).
  apply (runs_arguments (if meth then -1 else 0) base st _ (fun p k vs => run (call p k vs)) (pushes st')) with (ast := ast) (vs := []) (i := 0%nat); try done.
  - intros ast' [-> ->]. cbn [orb].
    destruct meth; (eapply (keeps_eq s); [apply keeps_seq; [apply keeps_skip|by apply keeps_emit]|]); cbn [stack_effect]; lia.
  - intros ast' vs [-> ->] Hpos Hkw Hl. cbn [orb].
    eapply runs_move_then; [apply tame_skip|destruct meth; by apply tame_emit|by apply runs_skip|].
    runs_call_tac.
    + by destruct meth.
    + by rewrite Hdrop.
Qed.

Lemma runs_function_call pn args base st v : arguments pn args -> Forall argument args -> few 256 args -> base `suffix_of` st ->
  runs base (push v st) (compile_trailer_paren_helper compile_node pn false 0)
    ('(p, k, vs) ←e eval_arguments eval (mp_parse_node_extract_list pn RULE_arglist); run (mp_call_function_n_kw v p k vs)) (pushes st).
Proof.
  intros Hp Ha Hf Hb. eapply (runs_paren pn args false); [done..|by apply suffix_push|done| |].
  - intros p k vs a Hl. cbn [call_sem]. by rewrite items_values.
  - intros p k vs Hl. cbn [pops]. rewrite Z2Nat.inj_add, <- drop_drop by lia. by rewrite drop_values.
Qed.

Lemma runs_method_call pn args base st (fn : value) self : arguments pn args -> Forall argument args -> few 256 args -> base `suffix_of` st ->
  runs base (self :: push fn st) (compile_trailer_paren_helper compile_node pn true 0)
    ('(p, k, vs) ←e eval_arguments eval (mp_parse_node_extract_list pn RULE_arglist); run (mp_call_method_n_kw p k fn self vs)) (pushes st).
Proof.
  intros Hp Ha Hf Hb. eapply (runs_paren pn args true _ _ (self :: push fn st)); [done..|by apply suffix_cons_r, suffix_push|done| |].
  - intros p k vs a Hl. cbn [call_sem]. by rewrite items_values.
  - intros p k vs Hl. cbn [pops]. rewrite Z2Nat.inj_add, <- drop_drop by lia. by rewrite drop_values.
Qed.

Lemma runs_trailers trail : Forall trailer trail -> forall base st v, base `suffix_of` st ->
  runs base (push v st) (compile_trailers compile_node trail) (eval_trailers eval eval_trailer v trail) (pushes st).
Proof.
  remember (length trail) as n eqn:En. revert trail En. induction n as [n IH] using lt_wf_ind. intros trail -> Ht base st v Hb.
  destruct Ht as [|pn trail Hpn Ht]; [by apply runs_skip|]. assert (IH1 := IH _ (Nat.lt_succ_diag_r _) trail eq_refl Ht base st).
  assert (forall trail', Forall trailer trail' -> tame (compile_trailers compile_node trail')) as T.
  { intros trail' Ht'. eapply keeps_tame. by apply (keeps_trailers s compile_node keeps_node keeps_trailer). }
  assert (runs base (push v st) (seq (compile_node pn) (compile_trailers compile_node trail))
    (v ←e eval_trailer v pn; eval_trailers eval eval_trailer v trail) (pushes st)) as Hone.
  { eapply runs_then; [eapply keeps_tame; by apply keeps_trailer|by apply T|by apply runs_trailer|]. intros v'. by apply IH1. }
  destruct Hpn as [line pn args Hp Ha Hf|line pn Hpn|line q]; [exact Hone..|].
  destruct Ht as [|pn trail Hpn Ht]; [exact Hone|]. destruct Hpn as [l2 pn args Hp Ha Hf|l2 pn Hpn|l2 q2]; [|exact Hone..].
  cbn [compile_trailers eval_trailers]. unfold at_node. cbn [lookup list_lookup as_id].
  assert (tame (compile_trailer_paren_helper compile_node pn true 0)) as T'.
  { eapply keeps_tame. by apply (keeps_paren s compile_node keeps_node pn args true). }
  eapply (runs_then _ _ _ _ _ (fun '(fn, self) => self :: push fn st)); [by tame_tac|apply tame_seq; [done|by apply T]| |].
  { runs_call_tac; [|apply fits_qst]. intros a. cbn [call_sem push]. unfold andthen. by destruct (run _ a) as [[[ex|[fn self]] b]|]. }
  intros [fn self].
  eapply runs_conv; [eapply (runs_then _ _ _ _ _ (fun v => push v st)); [exact T'|by apply T|by apply (runs_method_call pn args)|]| |done].
  - intros v'. apply (IH (length trail)); [cbn; lia|done..].
  - intros x. rewrite andthen_assoc. unfold andthen. by destruct (eval_arguments _ _ x) as [[[ex|[[p k] vs]] b]|].
Qed.

Lemma runs_atom_expr subject pn trail base st : expression subject -> subject <> PN_ID MP_QSTR_super -> trailers pn trail ->
  Forall trailer trail -> base `suffix_of` st ->
  runs base st (compile_atom_expr_normal compile_node [subject; pn])
    (if is_null pn then eval subject else
       v ←e eval subject; match get_trailers pn with Some trail => eval_trailers eval eval_trailer v trail | None => stuck end) (pushes st).
Proof.
  intros Hs Hn Hp Ht Hb. unfold compile_atom_expr_normal, at_node. cbn [lookup list_lookup].
  destruct (trailers_list pn trail Hp Ht) as [[-> ->]|[-> ->]].
  - eapply runs_seq_done; [by apply tame_node|apply tame_skip|by apply runs_node| |done]. intros v st' [= ->]. by apply runs_skip.
  - apply runs_node_then; [done..| |].
    + apply tame_with_comp. intros c _. rewrite not_super by done. eapply keeps_tame.
      by apply (keeps_trailers s compile_node keeps_node keeps_trailer).
    + intros v. apply runs_with_comp. intros c _. rewrite not_super by done. by apply runs_trailers.
Qed.

(** A trailer, as a node. *)
Lemma runs_trailer_body ca cd cc pn base st v : trailer pn -> base `suffix_of` st ->
  runs base (push v st) (compile_node_body opt_level compile_node cc ca cd pn) (eval_trailer_body eval v pn) (pushes st).
Proof.
  intros Hpn Hb. destruct Hpn as [line pn args Hp Ha Hf|line pn Hpn|line q]; cbn [compile_node_body];
    (eapply runs_move_then; [by tame_tac| |eapply runs_move; [intros ?; reflexivity|done|by apply suffix_push|reflexivity]|]).
  - eapply keeps_tame. by apply (keeps_paren s compile_node keeps_node pn args false).
  - by apply (runs_function_call pn args).
  - unfold compile_function, compile_trailer_bracket, at_node. cbn [lookup list_lookup]. by tame_tac.
  - unfold compile_function, compile_trailer_bracket, at_node. cbn [lookup list_lookup eval_trailer_body].
    apply runs_node_then; [done|by apply suffix_push|by tame_tac|]. intros index. by runs_call_tac.
  - by apply tame_emit.
  - unfold compile_function, compile_trailer_period, at_node. cbn [lookup list_lookup as_id eval_trailer_body].
    runs_call_tac. apply fits_qst.
Qed.

(** ** Conditions *)

Lemma tame_all_cond l b (nodes : list node) : Forall expression nodes -> tame (each (fun pn => c_if_cond pn b l) nodes).
Proof. intros Hn. apply tame_each. eapply Forall_impl; [|exact Hn]. intros pn Hpn. by apply tame_cond. Qed.

(** Every operand jumps to the label. *)
Lemma runs_and_or_logic2 b l nodes : Forall expression nodes -> forall pn base st, expression pn -> base `suffix_of` st ->
  runs base st (and_or_logic2 c_if_cond (pn :: nodes) b l) (eval_logic_cond eval_cond b pn nodes) (branches st b l).
Proof.
  unfold and_or_logic2, branches. induction 1 as [|pn' nodes Hpn' Hn IH]; intros pn base st Hpn Hb.
  - eapply runs_conv with (R := eval_cond pn); [eapply runs_seq_done; [by apply tame_cond|apply tame_skip|by apply runs_cond|..]| |intros t x Hx; exact Hx];
      unfold branches.
    + intros t st' E. by apply runs_skip.
    + intros t l' st'. by destruct (Bool.eqb t b).
    + intros x. cbn [eval_logic_cond]. by rewrite andthen_done.
  - cbn [eval_logic_cond]. eapply runs_seq; [by apply tame_cond|by apply (tame_all_cond l b (pn' :: nodes)); constructor|by apply runs_cond|..]; unfold branches.
    + intros t st'. destruct (Bool.eqb t b); [intros [=]|]. intros [= ->]. by apply IH.
    + intros t l' st'. destruct (Bool.eqb t b) eqn:Et; [|intros [=]]. intros [= -> ->]. exists t. by rewrite Et.
Qed.

(** Every operand but the last jumps around, to the label [l2]. *)
Lemma runs_around_loop b l l2 last : expression last -> forall nodes pn base st, Forall expression nodes -> expression pn -> base `suffix_of` st ->
  runs base st (seq (each (fun pn => c_if_cond pn (negb b) l2) (pn :: nodes)) (c_if_cond last b l))
    (eval_logic_cond eval_cond (negb b) pn (nodes ++ [last]))
    (fun t x => if Bool.eqb t b then x = GOTO l st else x = FALL st \/ x = GOTO l2 st).
Proof.
  intros Hlast nodes. induction nodes as [|pn' nodes IH]; intros pn base st Hn Hpn Hb;
    (eapply runs_comp; [intros c; cbn [each]; apply seq_assoc|]); cbn [app].
  - change (eval_logic_cond eval_cond (negb b) pn [last]) with
      (t ←e eval_cond pn; if Bool.eqb t (negb b) then done t else t ←e eval_cond last; done t).
    eapply runs_seq; [by apply tame_cond|apply tame_seq; [apply tame_skip|by apply tame_cond]|by apply runs_cond|..]; unfold branches.
    + intros t st'. destruct (Bool.eqb t (negb b)) eqn:Et; [intros [=]|]. intros [= ->].
      eapply runs_move_then; [apply tame_skip|by apply tame_cond|by apply runs_skip|].
      eapply runs_conv; [by apply runs_cond|intros x; by rewrite andthen_done|]. intros t' x ->. destruct (Bool.eqb t' b); [done|by left].
    + intros t l' st'. destruct (Bool.eqb t (negb b)) eqn:Et; [|intros [=]]. intros [= -> ->]. exists t. split; [done|].
      apply eqb_prop in Et as ->. destruct b; by right.
  - inversion_clear Hn as [|? ? Hpn' Hn']. cbn [eval_logic_cond].
    eapply runs_seq; [by apply tame_cond|apply tame_seq; [apply (tame_all_cond l2 (negb b) (pn' :: nodes)); by constructor|by apply tame_cond]|
      by apply runs_cond|..]; unfold branches.
    + intros t st'. destruct (Bool.eqb t (negb b)) eqn:Et; [intros [=]|]. intros [= ->]. by apply IH.
    + intros t l' st'. destruct (Bool.eqb t (negb b)) eqn:Et; [|intros [=]]. intros [= -> ->]. exists t. split; [done|].
      apply eqb_prop in Et as ->. destruct b; by right.
Qed.

Lemma runs_and_or_logic1 b l pn nodes base st : expression pn -> Forall expression nodes -> base `suffix_of` st ->
  runs base st (and_or_logic1 c_if_cond (pn :: nodes) b l) (eval_logic_cond eval_cond (negb b) pn nodes) (branches st b l).
Proof.
  intros Hpn Hn Hb. unfold and_or_logic1. apply runs_next_label. intros l2.
  destruct nodes as [|last nodes _] using rev_ind.
  - cbn. eapply runs_move_then; [apply tame_skip|apply tame_seq; [by apply tame_cond|by apply tame_emit]|by apply runs_skip|].
    eapply runs_label; [by apply keeps_cond|eapply runs_conv; [by apply runs_cond|intros x; by rewrite andthen_done|intros t x Hx; exact Hx]|..].
    + done.
    + intros t l' st' Hx. by left.
  - apply Forall_app in Hn as [Hn Hl]. inversion_clear Hl as [|? ? Hlast _].
    change (pn :: nodes ++ [last]) with ((pn :: nodes) ++ [last]). rewrite last_snoc.
    replace (take _ _) with (pn :: nodes) by by (rewrite length_app, Nat.add_sub; symmetry; apply take_app_length).
    eapply runs_comp; [intros c; symmetry; apply seq_assoc|].
    eapply runs_label; [|by apply runs_around_loop|..].
    + apply keeps_seq; [eapply keeps_all_cond; [exact keeps_cond|by constructor]|by apply keeps_cond].
    + intros t st'. unfold branches. destruct (Bool.eqb t b); [done|]. by intros [Hx|[=]].
    + intros t l' st'. unfold branches. destruct (Bool.eqb t b); [by left|]. intros [Hx|Hx]; [done|]. injection Hx as -> ->.
      right. split; [done|]. split; [done|]. lia.
Qed.

(** The value of a literal does not depend on the evaluation of its parts. *)
Hypothesis eval_literal : forall pn x, mp_parse_node_is_const pn = inr true ->
  eval pn x = eval_body const_value s (fun _ => stuck) (fun _ => stuck) (fun _ _ => stuck) pn x.

Lemma literal_truth pn b x : expression pn -> parse_node_is_const_bool pn b = inr true -> (v ←e eval pn; is_true v) x = Some (inr b, x).
Proof.
  intros Hpn Hc. unfold parse_node_is_const_bool in Hc.
  destruct (mp_parse_node_is_const pn) as [|[|]] eqn:Hlit; [done| |done]. cbn in Hc.
  destruct (mp_parse_node_convert_to_obj pn) as [|o] eqn:Ho; [done|]. cbn in Hc.
  destruct (mp_obj_is_true o) as [|t] eqn:Ht; [done|]. injection Hc as Hc. apply eqb_prop in Hc as ->.
  unfold andthen. rewrite (eval_literal pn x Hlit). destruct x as [l w].
  destruct pn as [|n|q|q|k|line o'|line kind nodes]; try done; cbn.
  - injection Ho as <-. injection Ht as <-. unfold is_true, run. by rewrite (truth_small_int const_value).
  - injection Ho as <-. injection Ht as <-. unfold is_true, run. by rewrite (truth_qstr const_value).
  - destruct k; try done; injection Ho as <-; injection Ht as <-; cbn; unfold is_true, run;
      first [by rewrite (truth_none const_value)|by rewrite (truth_false const_value)|by rewrite (truth_true const_value)
            |by rewrite (truth_const const_value _ true)].
  - injection Ho as <-. unfold is_true, run. by rewrite (truth_const const_value o' b).
  - destruct kind; try done. destruct nodes as [|[| | | | | |] nodes]; try done. injection Ho as <-. injection Ht as <-.
    destruct nodes; [|by inversion Hpn; subst; naive_solver]. cbn. destruct (truth_empty_tuple const_value w) as (v & Hv & Htv).
    rewrite Hv. cbn. unfold is_true, run. by rewrite Htv.
Qed.

(** A condition that is a literal is decided by the compiler. *)
Lemma runs_literal_cond pn b (t : bool) l base st : expression pn -> parse_node_is_const_bool pn t = inr true ->
  runs base st (if Bool.eqb t b then emit (E_jump l) else skip) (v ←e eval pn; is_true v) (branches st b l).
Proof.
  intros Hpn Hc. eapply runs_conv with (R := done t) (K := branches st b l).
  - destruct (Bool.eqb t b) eqn:Et; [apply runs_jump; [done|]|apply runs_skip]; unfold branches; by rewrite Et.
  - intros x. by rewrite (literal_truth pn t).
  - done.
Qed.

Lemma runs_default_cond pn b l base st : expression pn -> base `suffix_of` st ->
  runs base st (seq (compile_node pn) (emit (E_pop_jump_if b l))) (v ←e eval pn; is_true v) (branches st b l).
Proof. intros Hpn Hb. apply runs_node_then; [done..|by tame_tac|]. intros v. by apply runs_pop_jump_if. Qed.

(** The forms of conditions that are not evaluated as values. *)
Definition is_logic pn : bool :=
  match pn with PN_STRUCT _ (RULE_or_test | RULE_and_test | RULE_not_test_2) _ => true | _ => false end.

Lemma literal_not_logic pn b : parse_node_is_const_bool pn b = inr true -> is_logic pn = false.
Proof. destruct pn as [| | | | | |line kind nodes]; try done. by destruct kind. Qed.

Lemma not_logic_cond pn b l : expression pn -> is_logic pn = false ->
  eval_cond_body eval eval_cond pn = (v ←e eval pn; is_true v) /\
  c_if_cond_body compile_node c_if_cond pn b l =
  test (mp_parse_node_is_const_false pn) (fun is_false => if is_false then if b then skip else emit (E_jump l) else
    test (mp_parse_node_is_const_true pn) (fun is_true => if is_true then if b then emit (E_jump l) else skip else
      seq (compile_node pn) (emit (E_pop_jump_if b l)))).
Proof. intros _. destruct pn as [| | | | | |line kind nodes]; try done. by destruct kind. Qed.

Lemma runs_cond_body pn b l base st : expression pn -> base `suffix_of` st ->
  runs base st (c_if_cond_body compile_node c_if_cond pn b l) (eval_cond_body eval eval_cond pn) (branches st b l).
Proof.
  intros Hpn Hb. destruct (is_logic pn) eqn:El.
  - destruct Hpn as [| | | | |line pn nodes Hpn Hn|line pn nodes Hpn Hn|line pn Hpn| | | | | | | | | | | | | |]; try done;
      try (by repeat match goal with H : _ \/ _ |- _ => destruct H end; subst).
    + destruct b; [by apply runs_and_or_logic2|by apply runs_and_or_logic1].
    + destruct b; [by apply runs_and_or_logic1|by apply runs_and_or_logic2].
    + eapply runs_map; [by apply runs_cond|]. unfold branches. intros t x ->. by destruct t, b.
  - destruct (not_logic_cond pn b l Hpn El) as [-> ->]. unfold test.
    assert (forall t, parse_node_is_const_bool pn t = inr true -> runs base st
      (if (t : bool) then if b then emit (E_jump l) else skip else if b then skip else emit (E_jump l)) (v ←e eval pn; is_true v) (branches st b l)) as Hlit.
    { intros t Ht. pose proof (runs_literal_cond pn b t l base st Hpn Ht) as Hr. by destruct t, b. }
    destruct (mp_parse_node_is_const_false pn) as [|[|]] eqn:Ef; [done|exact (Hlit false Ef)|].
    destruct (mp_parse_node_is_const_true pn) as [|[|]] eqn:Et; [done|exact (Hlit true Et)|by apply runs_default_cond].
Qed.

(** ** Nodes *)

Variable c_assign : node -> assign_kind_t -> comp_m.
Variable c_del_stmt : node -> comp_m.
Abbreviation compile_function := (compile_function opt_level compile_node c_if_cond c_assign c_del_stmt).
Abbreviation eval_body := (eval_body const_value s eval eval_cond eval_trailer).

Lemma runs_binary_op self line kind pn nodes base st : kind = RULE_expr \/ kind = RULE_xor_expr \/ kind = RULE_and_expr ->
  expression pn -> Forall expression nodes -> base `suffix_of` st ->
  runs base st (compile_function self kind (pn :: nodes)) (eval_body (PN_STRUCT line kind (pn :: nodes))) (pushes st).
Proof.
  intros Hk Hpn Hn Hb.
  assert (forall op, call_fits (F:=F) (E_binary_op op) -> runs base st
    (seq (compile_node pn) (each (fun pn => seq (compile_node pn) (emit (E_binary_op op))) nodes))
    (v ←e eval pn; eval_same_op eval op v nodes) (pushes st)) as Hop.
  { intros op Hop. apply runs_node_then; [done..| |intros v; by apply runs_same_op].
    apply tame_each. eapply Forall_impl; [|exact Hn]. intros pn' Hpn'. tame_tac. }
  destruct Hk as [->|[->| ->]].
  - apply (Hop MP_BINARY_OP_OR). by left.
  - apply (Hop MP_BINARY_OP_XOR). by left.
  - apply (Hop MP_BINARY_OP_AND). by left.
Qed.

Lemma runs_term_op self line kind pn nodes base st : kind = RULE_shift_expr \/ kind = RULE_arith_expr \/ kind = RULE_term ->
  expression pn -> between expression nodes -> base `suffix_of` st ->
  runs base st (compile_function self kind (pn :: nodes)) (eval_body (PN_STRUCT line kind (pn :: nodes))) (pushes st).
Proof.
  intros Hk Hpn Hn Hb. assert (runs base st (compile_term compile_node (pn :: nodes)) (v ←e eval pn; eval_term eval v nodes) (pushes st)) as Hr.
  { apply runs_node_then; [done..|eapply keeps_tame; by apply (keeps_term s compile_node keeps_node)|]. intros v. by apply runs_term. }
  by destruct Hk as [->|[->| ->]].
Qed.

Lemma runs_power lhs rhs base st : expression lhs -> expression rhs -> base `suffix_of` st ->
  runs base st (compile_power compile_node [lhs; rhs]) (v ←e eval lhs; u ←e eval rhs; binary_op MP_BINARY_OP_POWER v u) (pushes st).
Proof.
  intros Hl Hr Hb. unfold compile_power.
  assert (Forall expression [lhs; rhs]) as Hall by by repeat constructor.
  eapply runs_conv with (R := vs ←e eval_all eval [lhs; rhs]; match vs with [v; u] => binary_op MP_BINARY_OP_POWER v u | _ => stuck end); [|
    |intros v x Hx; exact Hx].
  - eapply runs_seq; [by apply tame_generic|by tame_tac|by apply runs_generic| |by intros vs l st' [[=] _]].
    intros vs st' [[= ->] Hlen]. destruct vs as [|v [|u [|]]]; try done. apply runs_binary; [by left|done].
  - intros x. cbn [eval_all]. unfold andthen. destruct (eval lhs x) as [[[ex|v] x']|]; cbn; [done| |done].
    by destruct (eval rhs x') as [[[ex|u] x'']|].
Qed.

Lemma runs_list self line kind nodes base st : kind = RULE_testlist \/ kind = RULE_subscriptlist \/ kind = RULE_testlist_star_expr ->
  Forall expression nodes -> few (2 ^ 32) nodes -> base `suffix_of` st ->
  runs base st (compile_function self kind nodes) (eval_body (PN_STRUCT line kind nodes)) (pushes st).
Proof. intros Hk Hn Hf Hb. pose proof (runs_tuple base st nodes Hn Hf Hb) as Hr. by destruct Hk as [->|[->| ->]]. Qed.

Lemma runs_function line kind nodes base st : expression (PN_STRUCT line kind nodes) -> base `suffix_of` st ->
  runs base st (compile_function (PN_STRUCT line kind nodes) kind nodes) (eval_body (PN_STRUCT line kind nodes)) (pushes st).
Proof.
  intros Hpn Hb. inversion Hpn; subst.
  - by apply runs_logic.
  - by apply runs_logic.
  - apply runs_node_then; [done..|by tame_tac|]. intros v. by apply runs_unary.
  - by apply runs_if_else.
  - by apply runs_namedexpr.
  - by apply runs_comparison.
  - by apply runs_binary_op.
  - by apply runs_term_op.
  - destruct op as [| | | |t| |];
      try by (intros c c' cs e e' f w Hc E; exfalso; apply bind_Some in E as ([c1 t1] & _ & E)).
    eapply runs_conv; [by apply runs_factor|done|done].
  - by apply runs_power.
  - by apply runs_list.
  - by eapply runs_atom_paren.
  - by eapply runs_atom_bracket.
  - by apply runs_bracket_one.
  - by apply runs_subscript_3.
  - by apply runs_subscript.
  - eapply runs_conv; [by eapply runs_atom_expr| |done]. intros x. by match goal with |- context [get_trailers ?pn] => destruct pn end.
Qed.

Lemma literal_value t : literal_token t -> exists v, token_value const_value t = Some v.
Proof. destruct t; try done; intros _; by eexists. Qed.

Lemma runs_node_body pn base st : expression pn -> base `suffix_of` st ->
  runs base st (compile_node_body opt_level compile_node c_if_cond c_assign c_del_stmt pn) (eval_body pn) (pushes st).
Proof.
  intros Hpn Hb. destruct pn as [|n|q|q|t|line o|line kind nodes]; cbn [compile_node_body].
  - inversion Hpn.
  - inversion Hpn; subst. runs_call_tac. cbn. unfold MP_SMALL_INT_MIN, MP_SMALL_INT_MAX in *. lia.
  - by apply runs_load_id.
  - runs_call_tac. apply fits_qst.
  - inversion Hpn; subst. rewrite bool_decide_eq_false_2 by (by apply literal_newline).
    match goal with Ht : literal_token t |- _ => destruct (literal_value t Ht) as [v Ev] end. cbn [Eval.eval_body]. rewrite Ev.
    runs_call_tac. intros a. cbn [call_sem]. by rewrite Ev.
  - inversion Hpn; subst. runs_move_tac. by runs_call_tac.
  - eapply runs_move_then; [by apply tame_emit|eapply keeps_tame; by apply (keeps_function opt_level s compile_node c_if_cond keeps_node keeps_cond keeps_trailer)|
      eapply runs_move; [intros ?; reflexivity|done|done|reflexivity]|].
    by apply runs_function.
Qed.

End forms.

Lemma fuel_literal fuel pn x : mp_parse_node_is_const pn = inr true ->
  eval const_value s (S fuel) pn x = eval_body (W:=W) const_value s (fun _ => stuck) (fun _ => stuck) (fun _ _ => stuck) pn x.
Proof.
  intros Hc. cbn [eval]. destruct pn as [| | | | | |line kind nodes]; try done.
  destruct kind; try done. by destruct nodes as [|[| | | | | |] [|]].
Qed.

(** What the compiler makes of an expression evaluates it, and of a condition
    branches on its truth; the fuel of the compiler and one step are enough for the
    evaluation. *)
Theorem compile_runs fuel :
  (forall pn base st, expression pn -> base `suffix_of` st ->
     runs base st (compile_node opt_level fuel pn) (eval const_value s (S fuel) pn) (pushes st)) /\
  (forall pn b l base st, expression pn -> base `suffix_of` st ->
     runs base st (c_if_cond opt_level fuel pn b l) (eval_cond const_value s (S fuel) pn) (branches st b l)) /\
  (forall pn base st v, trailer pn -> base `suffix_of` st ->
     runs base (push v st) (compile_node opt_level fuel pn) (eval_trailer const_value s (S fuel) v pn) (pushes st)).
Proof.
  induction fuel as [|fuel (IH1 & IH2 & IH3)]; [split; [|split]; intros; apply runs_fails|].
  destruct (compile_keeps opt_level s literal_newline fuel) as (K1 & K2 & K3). pose proof (fuel_literal fuel) as Hlit.
  split; [|split]; intros; cbn [compile_node c_if_cond].
  - change (eval const_value s (S (S fuel)) pn) with (eval_body const_value s (eval const_value s (S fuel)) (eval_cond const_value s (S fuel)) (eval_trailer const_value s (S fuel)) pn).
    by apply runs_node_body.
  - change (eval_cond const_value s (S (S fuel)) pn) with (eval_cond_body (eval const_value s (S fuel)) (eval_cond const_value s (S fuel)) pn).
    by apply runs_cond_body.
  - change (eval_trailer const_value s (S (S fuel)) v pn) with (eval_trailer_body (eval const_value s (S fuel)) v pn).
    by apply runs_trailer_body.
Qed.

End sound.
