(* ===== verification/Traceback.v ===== *)
(** The prelude of a function in memory: what the start and the end of a pass write
    before and after the source lines is read back by the interpreter when an
    exception leaves the function, with the line of the instruction that raised
    it. *)

From Stdlib Require Import ZArith Lia.
From stdpp Require Import base option list numbers.
From S2P Require Import Prelude Mpn IntObj Lexer Grammar Parse Bytecode BytecodeProps Scope EmitBc Vm CodeAt CodeLines CallSem.

(** * Definitions *)

(** The signature that the emitter writes for a scope. *)
Definition signature (s : scope_t) : prelude_sig :=
  let n := num_locals s + stack_size s in
  {| n_state := if n =? 0 then 1 else n; n_exc_stack := exc_stack_size s; sig_flags := scope_flags s;
     n_pos_args := num_pos_args s; n_kwonly_args := num_kwonly_args s; n_def_pos_args := num_def_pos_args s |}.

(** What the emitter has recorded of the previous pass stands at the end of this one:
    the labels and the sizes in the prelude. *)
Record stable {F} (e e' : emit_t F) : Prop := {
  sb_labels : label_offsets e' = label_offsets e;
  sb_info : n_info e' = n_info e;
  sb_cell : n_cell e' = n_cell e;
}.

(** * Lemmas *)

Lemma encode_digits fuel : forall val bs ds, Forall digit7 bs -> encode_uint_loop fuel val bs = Some ds -> ds <> [] /\ Forall digit7 ds.
Proof.
  induction fuel as [|fuel IH]; intros val bs ds Hb; cbn [encode_uint_loop]; [done|].
  assert (Forall digit7 (Z.land val 127 :: bs)) as Hb'.
  { constructor; [|done]. unfold digit7. rewrite land_127. apply Z.mod_pos_bound. lia. }
  case_match; [by intros [= <-]|by apply IH].
Qed.

(** Whatever integer was encoded, its bytes are skipped. *)
Lemma encoded_skip v bs rest : mp_encode_uint v = Some bs -> mp_decode_uint_skip (bs ++ rest) = Some (length bs).
Proof.
  unfold mp_encode_uint. intros (ds & E & ->)%fmap_Some. apply encode_digits in E as [Hne Hds]; [|constructor].
  eapply decode_skip_ok. unfold DECODE_UINT. rewrite decode_continuation by done. by rewrite length_with_continuation.
Qed.

Section traceback.
Context {F : Type} `{ConstFloats F} (opt_level star : Z).
Abbreviation emit_t := (emit_t F).
Implicit Types e : emit_t.

(** The source information so far. *)
Record info_is e (bs : list Z) : Prop := {
  ii_mid : mid_pass e;
  ii_offset : code_info_offset e = Z.of_nat (length bs);
  ii_bytes : forall i, (i < length bs)%nat -> code_base e !! i = bs !! i;
}.

Lemma info_is_write e bs bs' e' : info_is e bs -> grows e e' -> last_source_line_offset e' <= bytecode_offset e' ->
  code_info_offset e' = code_info_offset e + Z.of_nat (length bs') ->
  (forall i, (i < length bs')%nat -> code_base e' !! Z.to_nat (code_info_offset e + Z.of_nat i) = bs' !! i) ->
  info_is e' (bs ++ bs').
Proof.
  intros [M O B] G Hl O' B'. destruct (g_told _ _ G (mid_info _ M) (mid_offset _ M)) as [_ Hk].
  split; [by eapply mid_pass_grows|rewrite length_app; lia|]. intros i Hi. rewrite length_app in Hi.
  destruct (decide (i < length bs)%nat) as [Hlt|Hge].
  - rewrite lookup_app_l by done. rewrite <- B by done. rewrite <- (Nat2Z.id i). apply Hk. lia.
  - rewrite lookup_app_r by lia. rewrite <- B' by lia. f_equal. lia.
Qed.

Lemma info_is_bytes e bs bs' e' : info_is e bs -> emit_write_code_info_bytes e bs' = Some e' -> info_is e' (bs ++ bs').
Proof.
  intros I E. pose proof (ii_mid _ _ I) as M. destruct (info_bytes_written bs' e e' M E) as (O & B & L & _).
  pose proof (code_info_bytes_grows _ _ _ (mid_pass_is _ M) E) as [G S].
  eapply info_is_write; [done..| |done|done]. rewrite L, (s_offset _ _ S). apply (mid_last _ M).
Qed.

(** What writes of bytes leave alone. *)
Record quiet_write e e' : Prop := {
  qw_lines : last_source_line_offset e' = last_source_line_offset e /\ last_source_line e' = last_source_line e;
  qw_counts : counts e' = counts e;
  qw_offset : bytecode_offset e' = bytecode_offset e;
}.

#[export] Instance quiet_write_preorder : PreOrder quiet_write.
Proof. split; [by split|]. intros e1 e2 e3 [[] ? ?] [[] ? ?]. split; [split|..]; congruence. Qed.

Lemma quiet_bytes e bs e' : mid_pass e -> emit_write_code_info_bytes e bs = Some e' -> quiet_write e e'.
Proof.
  intros M E. destruct (info_bytes_written bs e e' M E) as (_ & _ & L & L' & N).
  pose proof (code_info_bytes_grows _ _ _ (mid_pass_is _ M) E) as [_ S]. split; [done..|exact (s_offset _ _ S)].
Qed.

Lemma info_is_qstr e bs q e' : info_is e bs -> emit_write_code_info_qstr e q = Some e' ->
  exists bs', mp_encode_uint q = Some bs' /\ info_is e' (bs ++ bs') /\ quiet_write e e'.
Proof.
  intros I (bs' & Eq & E)%bind_Some. exists bs'. split; [done|]. pose proof (ii_mid _ _ I) as M.
  pose proof (code_info_grows _ _ _ (mid_pass_is _ M) E) as [G S]. pose proof (s_offset _ _ S) as So.
  unfold emit_get_cur_to_write_code_info in E. rewrite (mid_pass_is _ M) in E. cbn -[Z.of_nat] in E.
  case_match; [|done]. apply bind_Some in E as (base & Eb & [= <-]). apply block_write_ok in Eb as (_ & Hb & _).
  split; [|by split]. eapply info_is_write; [done..| |done|exact Hb]. apply (mid_last _ M).
Qed.

Lemma info_is_tells e bs es e' : info_is e bs -> tells e es e' -> grows e e' -> mid_pass e' -> exists bs',
  line_table (last_source_line_offset e) (last_source_line e) es = Some bs' /\ info_is e' (bs ++ bs').
Proof.
  intros I [(bs' & T & O & B) _ _ _] G M'. exists bs'. split; [done|]. eapply info_is_write; [done..| |done|done]. apply (mid_last _ M').
Qed.

Lemma info_is_counts e bs n k : info_is e bs -> info_is (with_info_counts e n k) bs.
Proof. by intros [[] O B]. Qed.

(** The names of the arguments. *)
Lemma info_is_arguments n : forall e bs i e', info_is e bs -> emit_argument_names e star n i = Some e' ->
  exists bs', info_is e' (bs ++ bs') /\ quiet_write e e' /\ forall rest, skip_uints n (bs' ++ rest) = Some rest.
Proof.
  induction n as [|n IH]; intros e bs i e' I; cbn [emit_argument_names].
  { intros [= <-]. exists []. by rewrite app_nil_r. }
  intros (e1 & E1 & E)%bind_Some. destruct (info_is_qstr _ _ _ _ I E1) as (b1 & Eq & I1 & Q1).
  destruct (IH e1 _ _ _ I1 E) as (b2 & I2 & Q2 & Hs). exists (b1 ++ b2). rewrite <- app_assoc in I2. split; [done|].
  split; [by etransitivity|].
  intros rest. cbn [skip_uints]. rewrite <- app_assoc, (encoded_skip _ _ _ Eq). cbn [mbind option_bind].
  rewrite drop_app_length. apply Hs.
Qed.

(** The numbers of the cells. *)
Lemma info_is_cells ids : forall e bs e', info_is e bs -> emit_cells e ids = Some e' ->
  exists bs', info_is e' (bs ++ bs') /\ counts e' = (n_info e, n_cell e + Z.of_nat (length bs')) /\ bytecode_offset e' = bytecode_offset e.
Proof.
  induction ids as [|id ids IH]; intros e bs e' I; cbn [emit_cells].
  { intros [= <-]. exists []. rewrite app_nil_r. split; [done|]. by rewrite Z.add_0_r. }
  intros (e1 & E1 & E)%bind_Some. case_match; [|injection E1 as <-; by apply IH]. case_match; [|done].
  apply bind_Some in E1 as (e2 & E2 & [= <-]). assert (emit_write_code_info_bytes e [wrapu 8 (local_num id)] = Some e2) as E2'.
  { cbn. by rewrite E2. }
  pose proof (quiet_bytes _ _ _ (ii_mid _ _ I) E2') as [_ Q O]. unfold counts in Q. injection Q as Hi Hc.
  pose proof (info_is_bytes _ _ _ _ I E2') as I2.
  destruct (IH _ _ _ (info_is_counts _ _ (n_info e2) (n_cell e2 + 1) I2) E) as (b & I3 & N3 & O3).
  exists (wrapu 8 (local_num id) :: b). rewrite <- app_assoc in I3. split; [done|].
  cbn [n_info n_cell with_info_counts length bytecode_offset] in *. rewrite N3, Hi, Hc. split; [f_equal; lia|congruence].
Qed.

(** ** The start of the pass *)

(** The state at the start of the pass, with the prelude and the names. *)
Record begun e (s : scope_t) e0 (sig size name args : list Z) : Prop := {
  bg_info : info_is e0 (sig ++ size ++ name ++ args);
  bg_sig : MP_BC_PRELUDE_SIG_ENCODE (signature s) = Some sig;
  bg_size : MP_BC_PRELUDE_SIZE_ENCODE (n_info e) (n_cell e) = Some size;
  bg_name : mp_encode_uint (simple_name s) = Some name;
  bg_args : forall rest, skip_uints (Z.to_nat (num_pos_args s + num_kwonly_args s)) (args ++ rest) = Some rest;
  bg_counts : counts e0 = (Z.of_nat (length (sig ++ size)), n_cell e);
  bg_lines : last_source_line_offset e0 = 0 /\ last_source_line e0 = 1;
  bg_offset : bytecode_offset e0 = 0;
}.

Lemma start_pass_begun e s e0 : 0 <= code_info_size e -> mp_emit_bc_start_pass e star MP_PASS_EMIT s = Some e0 ->
  exists sig size name args, begun e s e0 sig size name args.
Proof.
  intros Hi. unfold mp_emit_bc_start_pass. fold (signature s). set (e1 := {| pass := MP_PASS_EMIT |}).
  intros (sig & Esig & E)%bind_Some. apply bind_Some in E as (e2 & E2 & E).
  assert (info_is e1 []) as I1 by by split; [split|..]; cbn; try lia.
  pose proof (info_is_bytes _ _ _ _ I1 E2) as I2. pose proof (quiet_bytes _ _ _ (ii_mid _ _ I1) E2) as Q2.
  cbn [app pass_number] in *. apply bind_Some in E as (e3 & E3 & E). change (pass_number _ <=? _) with true in E3. cbn iota in E3.
  apply bind_Some in E3 as (size & Esize & E3). pose proof (info_is_bytes _ _ _ _ I2 E3) as I3.
  pose proof (quiet_bytes _ _ _ (ii_mid _ _ I2) E3) as Q3. pose proof (transitivity Q2 Q3) as [[Hlo Hl] Hc Ho].
  pose proof (info_is_counts _ _ (code_info_offset e3) (n_cell e3) I3) as I3'. set (e3' := with_info_counts _ _ _) in *.
  apply bind_Some in E as (e4 & E4 & E). destruct (info_is_qstr _ _ _ _ I3' E4) as (name & Ename & I4 & Q4).
  destruct (info_is_arguments _ _ _ _ _ I4 E) as (args & I5 & Q5 & Hargs). pose proof (transitivity Q4 Q5) as [[Hlo' Hl'] Hc' Ho'].
  exists sig, size, name, args. unfold counts in Hc. injection Hc as Hn Hk.
  assert (n_info e2 = n_info e /\ n_cell e2 = n_cell e) as [En Ek].
  { destruct Q2 as [_ Q2 _]. by injection Q2. }
  split; try done.
  - by rewrite !app_assoc in *.
  - by rewrite <- En, <- Ek.
  - rewrite Hc'. unfold counts. cbn [n_info n_cell e3' with_info_counts]. rewrite (ii_offset _ _ I3). by rewrite Hk.
  - split; [rewrite Hlo'; exact Hlo|rewrite Hl'; exact Hl].
  - rewrite Ho'. exact Ho.
Qed.

(** ** The end of the pass *)

Lemma end_pass_info e bs e' : info_is e bs -> mp_emit_bc_end_pass e = Some (e', PASS_COMPLETE) ->
  exists cells, info_is e' (bs ++ cells) /\ code_info_size e' = Z.of_nat (length (bs ++ cells)) /\
    counts e' = (code_info_offset e - n_info e, Z.of_nat (length cells)) /\ bytecode_offset e' = bytecode_offset e.
Proof.
  intros I. pose proof (mid_pass_is _ (ii_mid _ _ I)) as Hp. unfold mp_emit_bc_end_pass. rewrite Hp.
  rewrite bool_decide_eq_false_2 by done. case_match; [done|]. intros (e2 & E2 & E)%bind_Some.
  destruct (info_is_cells _ _ _ _ (info_is_counts _ _ (code_info_offset e - n_info e) 0 I) E2) as (cells & I2 & Hn & Ho).
  rewrite (mid_pass_is _ (ii_mid _ _ I2)) in E. case_match; [|done]. case_match eqn:En; [done|].
  destruct (overflow e2); [done|]. injection E as <-. apply negb_false_iff, andb_true_iff in En as [Ei%Z.eqb_eq _].
  exists cells. split; [done|]. split; [rewrite <- (ii_offset _ _ I2); congruence|]. by split.
Qed.

(** ** The whole *)

(** What the interpreter reads in a block that begins with the prelude, the names,
    the lines and the cells. *)
Lemma read_prelude {X} (code : vm_code X) (s : scope_t) (sig size name args lines cells rest : list Z) es n_info at_ip :
  bytecode code = (sig ++ size ++ name ++ args) ++ lines ++ cells ++ rest -> sig_ok (signature s) -> fits (simple_name s) ->
  MP_BC_PRELUDE_SIG_ENCODE (signature s) = Some sig -> mp_encode_uint (simple_name s) = Some name ->
  MP_BC_PRELUDE_SIZE_ENCODE n_info (Z.of_nat (length cells)) = Some size -> n_info = Z.of_nat (length (name ++ args ++ lines)) ->
  n_info < 2 ^ 32 -> Z.of_nat (length cells) < 2 ^ 32 ->
  (forall rest, skip_uints (Z.to_nat (num_pos_args s + num_kwonly_args s)) (args ++ rest) = Some rest) ->
  line_table 0 1 es = Some lines -> increasing 0 1 es ->
  let start := Z.of_nat (length (sig ++ size ++ name ++ args ++ lines ++ cells)) in
  start <= at_ip -> traceback_info code at_ip = Some (line_at es (at_ip - start) 1, simple_name s).
Proof.
  intros Hb Hsig Hname Esig Ename Esize -> Hn Hc Hargs Elines Hes start Hip.
  destruct (prelude_sig_ok _ Hsig) as (b & Eb & _ & Dsig). rewrite Esig in Eb. injection Eb as <-.
  destruct (prelude_size_ok (Z.of_nat (length (name ++ args ++ lines))) (Z.of_nat (length cells))) as (b & Eb & _ & Dsize); [lia..|].
  rewrite Esize in Eb. injection Eb as <-.
  destruct (encode_uint_ok _ Hname) as (b & Eb & _ & _ & Dname). rewrite Ename in Eb. injection Eb as <-.
  destruct (line_table_ok es 0 1 Hes) as (b & Eb & _ & Dlines). rewrite Elines in Eb. injection Eb as <-.
  unfold traceback_info. rewrite Hb, <- !app_assoc, Dsig. cbn [mbind option_bind]. rewrite drop_app_length, Dsize.
  cbn [mbind option_bind]. rewrite (app_assoc sig size), drop_app_length' by (by rewrite length_app). rewrite Nat2Z.id.
  assert (name ++ args ++ lines ++ cells ++ rest = (name ++ args ++ lines) ++ cells ++ rest) as -> by (by rewrite <- !app_assoc).
  rewrite take_app_length, Dname. cbn [mbind option_bind].
  destruct Hsig as (_ & _ & _ & Ha & Hk & _). cbn [n_pos_args n_kwonly_args signature] in *.
  replace (Z.to_nat (1 + num_pos_args s + num_kwonly_args s)) with (S (Z.to_nat (num_pos_args s + num_kwonly_args s))) by lia.
  cbn [skip_uints]. rewrite (encoded_skip _ _ _ Ename). cbn [mbind option_bind]. rewrite drop_app_length, Hargs.
  cbn [mbind option_bind]. unfold mp_bytecode_get_source_line. unfold start in *. rewrite !length_app in *.
  match goal with |- context [source_line_loop lines ?off 1] => pose proof (Dlines off ltac:(lia)) as D; rewrite Z.sub_0_r in D; rewrite D end.
  cbn [mbind option_bind]. do 3 f_equal. lia.
Qed.

Lemma info_is_prefix e bs : info_is e bs -> exists rest, code_base e = bs ++ rest.
Proof.
  intros [_ _ B]. exists (drop (length bs) (code_base e)). rewrite <- (take_drop (length bs) (code_base e)) at 1. f_equal.
  apply list_eq. intros i. destruct (decide (i < length bs)%nat) as [Hlt|Hge].
  - rewrite lookup_take_lt by done. by apply B.
  - rewrite lookup_take_ge, lookup_ge_None_2 by lia. done.
Qed.

(** The block of a complete pass that keeps to what the previous one has recorded:
    for every offset in its code the traceback finds the name of the scope and the
    line after the calls that come before the instruction there. *)
Lemma pass_traceback {X} (code : vm_code X) e s cs e0 e1 e' at_ip :
  mp_emit_bc_start_pass e star MP_PASS_EMIT s = Some e0 -> emit_calls opt_level e0 cs = Some e1 ->
  mp_emit_bc_end_pass e1 = Some (e', PASS_COMPLETE) -> stable e e' -> 0 <= code_info_size e -> code_info_size e' < 2 ^ 32 ->
  sig_ok (signature s) -> fits (simple_name s) -> bytecode code = code_base e' ->
  code_info_size e' <= at_ip < code_info_size e' + bytecode_offset e' ->
  exists cs1 c cs2, written_at opt_level e0 cs (at_ip - code_info_size e') cs1 c cs2 /\
    traceback_info code at_ip = Some (line_after opt_level 1 cs1, simple_name s).
Proof.
  intros E0 E1 E' [_ Hni Hnc] Hi Hi' Hsig Hname Hcode Hip.
  destruct (start_pass_begun e s e0 Hi E0) as (sig & size & name & args & [I0 Esig Esize Ename Hargs Hc0 [Hlo Hl] Ho]).
  destruct (calls_tell opt_level cs e0 e1 (ii_mid _ _ I0) E1) as (es & T & M1 & G & _ & Hat). rewrite Hl, Ho in Hat.
  destruct (info_is_tells _ _ _ _ I0 T G M1) as (lines & Elines & I1). rewrite Hlo, Hl in Elines.
  pose proof (tl_increasing _ _ _ T) as Hinc. rewrite Hlo, Hl in Hinc.
  destruct (end_pass_info _ _ _ I1 E') as (cells & I' & Hsize & Hc' & Ho').
  destruct (info_is_prefix _ _ I') as (rest & Hbase). pose proof (tl_counts _ _ _ T) as Hc1. rewrite Hc0 in Hc1.
  unfold counts in Hc1, Hc'. injection Hc1 as Hn1 _. injection Hc' as Hn' Hk'. rewrite (ii_offset _ _ I1), Hn1 in Hn'.
  assert (n_info e' = Z.of_nat (length (name ++ args ++ lines))) as En by (rewrite Hn'; rewrite !length_app; lia).
  rewrite Hni in En. rewrite Hnc in Hk'. rewrite !length_app in Hsize.
  destruct (Hat (at_ip - code_info_size e')) as (cs1 & c & cs2 & Hw & Hline); [lia|]. exists cs1, c, cs2. split; [done|].
  rewrite <- Hline.
  rewrite (read_prelude code s sig size name args lines cells rest es (n_info e) at_ip); try done.
  - do 4 f_equal. rewrite Hsize, !length_app. lia.
  - by rewrite Hcode, Hbase, <- !app_assoc.
  - by rewrite <- Hk'.
  - rewrite En, !length_app. lia.
  - lia.
  - rewrite !length_app. lia.
Qed.

End traceback.
