(* ===== verification/CompileEval.v ===== *)
(** The code of a whole expression, from the pass that writes it to the end of its
    execution: what [compile_scope] and the emitter make of an input for [eval],
    run by the interpreter, returns the value of the expression or raises its
    exception. *)

From Stdlib Require Import ZArith Lia Ascii String.
From stdpp Require Import base option list numbers.
From S2P Require Import Prelude Mpn IntObj Lexer HashMap Qstr Grammar Parse Bytecode BytecodeProps Scope EmitBc Compile Vm CodeAt CodeLines CallSem VmRun VmCalls Eval CompileShape CompileRuns CompileSound Traceback.

(** * Definitions *)

Section loaded.
Context {F X I : Type} (const_value : obj F -> value X).

(** The function of a complete emitter, and its frame when it is called. *)
Definition loaded (e : emit_t F) : vm_code X :=
  {| bytecode := code_base e; obj_table := const_value <$> const_obj_list e;
     stack_max := Z.to_nat (stack_size (scope e)); exc_max := Z.to_nat (exc_stack_size (scope e)) |}.

Definition entry_frame (e : emit_t F) (l : list (slot X I)) : frame X I :=
  {| ip := code_info_size e; stack := []; fastn := l; exc_stack := []; inject_exc := None |}.

End loaded.

(** * Lemmas *)

(** ** The start and the end of the pass that writes *)

Section pass.
Context {F : Type} `{ConstFloats F} (opt_level star : Z).
Abbreviation emit_t := (emit_t F).
Implicit Types e : emit_t.

Lemma qstr_info_grows e q e' : pass e = MP_PASS_EMIT -> emit_write_code_info_qstr e q = Some e' -> grows e e' /\ same_code e e'.
Proof. intros Hp. unfold emit_write_code_info_qstr. intros (bs & _ & E)%bind_Some. by apply code_info_grows in E. Qed.

Lemma argument_names_grows n : forall e i e', pass e = MP_PASS_EMIT -> emit_argument_names e star n i = Some e' ->
  grows e e' /\ same_code e e'.
Proof.
  induction n as [|n IH]; intros e i e' Hp; cbn [emit_argument_names]; [by intros [= <-]|].
  intros (e1 & E1 & E)%bind_Some. apply qstr_info_grows in E1 as [G1 S1]; [|done].
  apply IH in E as [G S]; [|by rewrite (g_pass _ _ G1)]. split; by etransitivity.
Qed.

Lemma with_info_counts_grows e n k : grows e (with_info_counts e n k) /\ same_code e (with_info_counts e n k).
Proof. split; [|by split]. split; try done; try lia. intros Hi _. by split; [cbn in *; lia|]. Qed.

Lemma cells_grow ids : forall e e', pass e = MP_PASS_EMIT -> emit_cells e ids = Some e' -> grows e e' /\ same_code e e'.
Proof.
  induction ids as [|id ids IH]; intros e e' Hp; cbn [emit_cells]; [by intros [= <-]|].
  intros (e1 & E1 & E)%bind_Some. assert (grows e e1 /\ same_code e e1) as [G1 S1].
  { case_match; [|by injection E1 as <-]. case_match; [|done]. apply bind_Some in E1 as (e2 & E2 & [= <-]).
    apply code_info_grows in E2 as [G2 S2]; [|done]. destruct (with_info_counts_grows e2 (n_info e2) (n_cell e2 + 1)).
    split; by etransitivity. }
  apply IH in E as [G S]; [|by rewrite (g_pass _ _ G1)]. split; by etransitivity.
Qed.

(** The state at the start of the pass. *)
Record started e (s : scope_t) e0 : Prop := {
  st_pass : pass e0 = MP_PASS_EMIT;
  st_live : suppress e0 = false;
  st_stack : cur_stack e0 = 0;
  st_info : code_info_size e0 = code_info_size e;
  st_offset : bytecode_offset e0 = 0;
  st_labels : label_offsets e0 = label_offsets e;
  st_size : stack_size s <= stack_size (scope e0);
}.

Lemma start_pass_started e s e0 : mp_emit_bc_start_pass e star MP_PASS_EMIT s = Some e0 -> started e s e0.
Proof.
  unfold mp_emit_bc_start_pass. intros (sig & _ & E)%bind_Some. apply bind_Some in E as (e1 & E1 & E).
  apply code_info_bytes_grows in E1 as [G1 S1]; [|done]. pose proof (g_pass _ _ G1) as Hp1. cbn [pass] in Hp1.
  cbn in E. apply bind_Some in E as (e2 & E2 & E). apply bind_Some in E2 as (bs & _ & E2).
  apply code_info_bytes_grows in E2 as [G2 S2]; [|done].
  apply bind_Some in E as (e3 & E3 & E).
  destruct (with_info_counts_grows e2 (code_info_offset e2) (n_cell e2)) as [G2' S2'].
  pose proof (g_pass _ _ G2) as Hp2. apply qstr_info_grows in E3 as [G3 S3]; [|cbn; congruence].
  pose proof (g_pass _ _ G3) as Hp3. apply argument_names_grows in E as [G4 S4]; [|cbn in *; congruence].
  assert (S := transitivity S1 (transitivity S2 (transitivity S2' (transitivity S3 S4)))).
  assert (G := transitivity G1 (transitivity G2 (transitivity G2' (transitivity G3 G4)))).
  destruct S as [Hs1 Hs2 Hs3 Hs4]. cbn in *.
  split; [rewrite (g_pass _ _ G)|..|]; try done; [exact (g_info _ _ G)|exact (g_stack _ _ G)].
Qed.

(** What a complete pass leaves. *)
Record ended e1 e' : Prop := {
  en_overflow : overflow e1 = false;
  en_empty : cur_stack e1 = 0;
  en_info : code_info_size e' = code_info_size e1;
  en_block : forall i, 0 <= i -> code_info_size e1 <= i < pc e1 -> code_base e' !! Z.to_nat i = code_base e1 !! Z.to_nat i;
  en_stack : stack_size (scope e1) <= stack_size (scope e');
  en_consts : const_obj_list e1 `prefix_of` const_obj_list e';
  en_labels : label_offsets e' = label_offsets e1;
  en_offset : bytecode_offset e' = bytecode_offset e1;
}.

Lemma end_pass_ended e1 e' : pass e1 = MP_PASS_EMIT -> mp_emit_bc_end_pass e1 = Some (e', PASS_COMPLETE) -> ended e1 e'.
Proof.
  intros Hp. unfold mp_emit_bc_end_pass. rewrite Hp. rewrite bool_decide_eq_false_2 by done.
  destruct (Z.eqb_spec (cur_stack e1) 0) as [Hd|]; [|done]. cbn [negb]. intros (e2 & E2 & E)%bind_Some.
  destruct (with_info_counts_grows e1 (code_info_offset e1 - n_info e1) 0) as [G1 S1].
  apply cells_grow in E2 as [G2 S2]; [|done]. pose proof (g_pass _ _ G2) as Hp2. cbn [pass with_info_counts] in Hp2. rewrite Hp2, Hp in E.
  assert (G := transitivity G1 G2). assert (S := transitivity S1 S2). destruct S as [_ _ Hoff Hlab].
  destruct (_ && _); [|done]. destruct (negb _); [done|]. destruct (overflow e2) eqn:Eo; [done|]. injection E as <-.
  split; try done; [|exact (g_info _ _ G)|exact (g_base _ _ G)|exact (g_stack _ _ G)|exact (g_consts _ _ G)].
  destruct (overflow e1) eqn:Eo1; [|done]. by rewrite (g_overflow _ _ G Eo1) in Eo.
Qed.

(** The calls between them are placed in the block. *)
Lemma pass_placed e s cs e0 e1 e' stack_max : started e s e0 -> emit_calls opt_level e0 cs = Some e1 -> ended e1 e' ->
  0 <= stack_size s -> 0 <= code_info_size e -> label_offsets e' = label_offsets e -> stack_size (scope e') <= stack_max ->
  placed opt_level (code_base e') stack_max (const_obj_list e') (label_offsets e') e0 cs e1.
Proof.
  intros S0 E S1 Hs Hi Hl Hmax. pose proof (emit_calls_emits _ _ _ _ (st_pass _ _ _ S0) E) as [G Hd Hk].
  assert (agrees (code_base e') e1) as A.
  { intros i H0 Hr. apply (en_block _ _ S1); [done|]. exact Hr. }
  assert (depth_ok e0) as D0.
  { unfold depth_ok. rewrite (st_stack _ _ _ S0). pose proof (st_size _ _ _ S0). lia. }
  pose proof (st_info _ _ _ S0) as I0. pose proof (st_offset _ _ _ S0) as O0. pose proof (g_info _ _ G). pose proof (g_offset _ _ G).
  split; [exact E|split|split]; try done.
  - exact (st_pass _ _ _ S0).
  - destruct (overflow e0) eqn:Eo; [|done]. rewrite <- (en_overflow _ _ S1). symmetry. exact (g_overflow _ _ G Eo).
  - exact (agrees_back _ _ _ G A).
  - pose proof (g_stack _ _ G). pose proof (en_stack _ _ S1). lia.
  - etransitivity; [exact (g_consts _ _ G)|exact (en_consts _ _ S1)].
  - rewrite Hl. exact (st_labels _ _ _ S0).
  - lia.
  - rewrite (g_pass _ _ G). exact (st_pass _ _ _ S0).
  - exact (en_overflow _ _ S1).
  - pose proof (en_stack _ _ S1). lia.
  - exact (en_consts _ _ S1).
  - symmetry. exact (en_labels _ _ S1).
  - exact (Hk D0).
  - lia.
Qed.

End pass.

(** ** The end of the execution *)

Section execution.
Context {F X I W : Type} `{FloatLiterals F} `{QstrNumbers} `{ConstFloats F} `{Runtime X I W} (code : vm_code X).
Context (opt_level : Z) (consts : list (obj F)) (labels : list (option Z)).
Context `{!Quiet (X:=X) (I:=I) (W:=W)}.
Abbreviation frame := (frame X I).
Abbreviation slot := (slot X I).
Abbreviation value := (value X).
Abbreviation placed := (placed opt_level (bytecode code) (Z.of_nat (stack_max code)) consts labels).
Implicit Types f : frame.

Lemma return_ends (e e' : emit_t F) f w v st : placed e [E_return_value] e' -> suppress e = false -> at_state e f ->
  stack f = S_VAL v :: st -> exc_stack f = [] -> forall k, mp_execute_bytecode code (S k) f w = Some (Some (VM_NORMAL v w)).
Proof.
  intros P Hs [Hip _ Hi] Hst Hx k. apply placed_one in P as (E & Hin & Hin'). cbn in E. apply suppressing_Some in E as (e1 & E & ->).
  destruct (byte_instr _ _ _ _ e (-1) MP_BC_RETURN_VALUE e1 Hin (i_agrees _ _ _ _ _ Hin') Hs ltac:(done) E) as [[rest Hb] _ _].
  rewrite <- Hip in Hb. cbn [mp_execute_bytecode]. rewrite vm_step_dispatch by done.
  rewrite (dispatch_at code f MP_BC_RETURN_VALUE rest w Hb).
  change (entry code MP_BC_RETURN_VALUE (entries code)) with (unwind_return (W:=W) code).
  unfold unwind_return. cbn [stack exc_stack with_ip]. by rewrite Hx, Hst.
Qed.

(** An exception without a block leaves the function, with the line and the name that
    [traced] relates to the offset it was raised at in its traceback. *)
Definition leaves_with (f : frame) w (ex : value) (traced : Z -> Z -> Z -> Prop) w' : Prop :=
  exists n, if is_const_generator_exit ex then mp_execute_bytecode code n f w = Some (Some (VM_EXCEPTION ex w'))
    else exists at_ip line block_name, traced at_ip line block_name /\
      mp_execute_bytecode code n f w = Some (Some (VM_EXCEPTION ex (mp_obj_exception_add_traceback ex line block_name w'))).

Lemma saved_blocks f : exc_stack (saved_frame code f) = exc_stack f.
Proof. unfold saved_frame. by destruct (bool_decide _). Qed.

Lemma raise_leaves base f p q w ex l w' (traced : Z -> Z -> Z -> Prop) : exc_stack f = [] -> raises code base f p q w ex l w' ->
  (forall at_ip, p <= at_ip < q -> exists line name, traced at_ip line name /\ traceback_info code at_ip = Some (line, name)) ->
  leaves_with f w ex traced w'.
Proof.
  intros Hx (n & g & Hn & Hg & Hi & Hl & _ & Hip & op & Hop & Hplain) Ht. rewrite Hx in Hg. exists (n + 1)%nat.
  destruct (Ht (ip g) Hip) as (line & name & Htr & Hinfo).
  set (w2 := if is_const_generator_exit ex then w' else mp_obj_exception_add_traceback ex line name w').
  assert (exception_handler code (saved_frame code g) (ip g) ex w' = Some (UNCAUGHT w2)) as Hh.
  { unfold exception_handler. rewrite Hop. cbn [mbind option_bind].
    unfold plain_opcode in Hplain. apply negb_true_iff in Hplain. rewrite !orb_false_iff in Hplain. destruct Hplain as [[[-> ->] ->] ->].
    rewrite !andb_false_r, !orb_false_r. rewrite saved_blocks, Hg. subst w2. destruct (is_const_generator_exit ex); [done|].
    by rewrite Hinfo. }
  rewrite (Hn 0%nat). unfold raised. rewrite Hh. cbn [mbind option_bind]. subst w2. destruct (is_const_generator_exit ex); [done|].
  by exists (ip g), line, name.
Qed.

End execution.

(** ** The input of [eval] *)

Section input.
Context {F X I W : Type} `{FloatLiterals F} `{QstrNumbers} `{ConstFloats F} `{Runtime X I W}.
Context (opt_level : Z) (const_value : obj F -> value X).
Context `{!Quiet (X:=X) (I:=I) (W:=W)} `{!LiteralTruth (W:=W) const_value}.
Abbreviation value := (value X).
Abbreviation slot := (slot X I).

(** Objects taken for one another have one value, and the numbers of names fit in an
    instruction. *)
Class Values := {
  values_equal : forall a b, const_ok a -> const_ok b -> strictly_equal a b = Some true -> const_value a = const_value b;
  names_fit : forall t, fits (qst_of t);
}.

Lemma find_id_Forall (P : id_info_t -> Prop) ids q k n i : Forall P ids -> find_id ids q k = Some (n, i) -> P i.
Proof.
  intros Hall. revert k. induction Hall as [|id ids Hid Hall IH]; intros k; cbn; [done|].
  case_match; [by intros [= <- <-]|apply IH].
Qed.

(** What the execution makes of an evaluation: the function returns its value, or its
    exception leaves, in either case with its world. *)
Definition implements (code : vm_code X) (f : frame X I) (w : W) (traced : Z -> Z -> Z -> Prop)
    (r : (value + value) * store (X:=X) (I:=I) (W:=W)) : Prop :=
  match r with
  | (inr v, (_, w')) => exists n, mp_execute_bytecode code n f w = Some (Some (VM_NORMAL v w'))
  | (inl ex, (_, w')) => leaves_with code f w ex traced w'
  end.

(** The lines of the instructions that a pass over the scope [s] writes: that at an
    offset of the block is the greatest line that the calls of the compiler have set
    before the call that writes the instruction there, or the first line; the name
    is that of the scope. *)
Definition traced_in (fuel : nat) (c : compiler_t) (e : emit_t F) (s : scope_t) (pn : parse_node F) (at_ip line name : Z) : Prop :=
  exists c' cs e0 cs1 call cs2, compile_scope opt_level fuel c s pn MP_PASS_EMIT = Some (c', cs) /\
    mp_emit_bc_start_pass e (qst_of (bytes "*")) MP_PASS_EMIT s = Some e0 /\
    written_at opt_level e0 cs (at_ip - code_info_size e) cs1 call cs2 /\
    line = line_after opt_level 1 cs1 /\ name = simple_name s.

Lemma loaded_table `{!Values} (e : emit_t F) : Z.of_nat (length (const_obj_list e)) < 2 ^ 32 -> Forall const_ok (const_obj_list e) ->
  Table (loaded const_value e) (const_obj_list e) const_value.
Proof. intros Hl Ho. split; [done|exact Hl|exact Ho|exact values_equal]. Qed.

(** The calls of the pass. *)
Lemma eval_input_calls fuel c s line pn rest c' cs : kind s = SCOPE_MODULE ->
  compile_scope opt_level fuel c s (PN_STRUCT line RULE_eval_input (pn :: rest)) MP_PASS_EMIT = Some (c', cs) ->
  exists t, compile_node opt_level fuel pn (start_pass c MP_PASS_EMIT s) = Some (c', t) /\ cs = t ++ [E_return_value (F:=F)].
Proof.
  intros Hk. unfold compile_scope. intros ([c1 cs1] & E & E1)%bind_Some. destruct (_ =? 0); [|done]. injection E1 as -> ->.
  assert (compile_scope_body opt_level fuel (PN_STRUCT line RULE_eval_input (pn :: rest)) (start_pass c MP_PASS_EMIT s) =
    seq (compile_node opt_level fuel pn) (emit E_return_value) (start_pass c MP_PASS_EMIT s)) as Hb.
  { unfold compile_scope_body, with_comp. cbn [scope_cur start_pass]. rewrite bool_decide_eq_false_2 by done. by rewrite Hk. }
  rewrite Hb in E. unfold seq in E. apply bind_Some in E as ([c2 t] & E2 & E). cbn in E. injection E as <- <-. by exists t.
Qed.

(** What a last pass is given: sizes that fit their fields, and names that are
    global. *)
Record pass_ok (e : emit_t F) (s : scope_t) : Prop := {
  po_kind : kind s = SCOPE_MODULE;
  po_globals : Forall is_global (id_info s);
  po_stack : 0 <= stack_size s;
  po_info : 0 <= code_info_size e < 2 ^ 32;
  po_signature : sig_ok (signature s);
  po_name : fits (simple_name s);
}.

(** The last pass over an expression writes code that evaluates it. *)
Lemma eval_input_ok `{!Values} fuel c e s line pn rest c' e' s' l w :
  pass_ok e s -> expression (lit := literal_token) pn ->
  compile_pass opt_level fuel c e s (PN_STRUCT line RULE_eval_input (pn :: rest)) MP_PASS_EMIT = Some (c', e', s', PASS_COMPLETE) ->
  compile_error c' = None -> stable e e' -> Z.of_nat (length (const_obj_list e')) < 2 ^ 32 -> Forall const_ok (const_obj_list e') ->
  exists r, eval const_value s (S fuel) pn (l, w) = Some r /\
    implements (loaded const_value e') (entry_frame e' l) w (traced_in fuel c e s (PN_STRUCT line RULE_eval_input (pn :: rest))) r.
Proof.
  intros [Hk Hglob Hss Hci Hsig Hname] Hpn E Hn Hst Hconsts Hok'. pose proof (sb_labels _ _ Hst) as Hl.
  unfold compile_pass in E. apply bind_Some in E as ([c2 cs] & Ec & E).
  apply bind_Some in E as ([e2 r] & Ee & E). injection E as -> -> <- ->.
  unfold emit_pass in Ee. apply bind_Some in Ee as (e0 & E0 & Ee). apply bind_Some in Ee as (e1 & E1 & Ee).
  rewrite bool_decide_eq_false_2 in E0 by done.
  assert (forall q n i, scope_find s q = Some (n, i) -> is_global i) as Hglob'.
  { intros q n i Hi. exact (find_id_Forall is_global _ _ _ _ _ Hglob Hi). }
  assert (S0 := start_pass_started _ _ _ _ E0). pose proof (emit_calls_emits _ _ _ _ (st_pass _ _ _ S0) E1) as [G _ _].
  assert (S1 : ended e1 e') by (apply end_pass_ended; [rewrite (g_pass _ _ G); exact (st_pass _ _ _ S0)|done]).
  assert (code_info_size e' = code_info_size e) as Hinfo.
  { rewrite (en_info _ _ S1), (g_info _ _ G). exact (st_info _ _ _ S0). }
  pose proof (fun (code : vm_code X) at_ip => pass_traceback opt_level _ code e s cs e0 e1 e' at_ip E0 E1 Ee Hst (proj1 Hci)
    ltac:(rewrite Hinfo; exact (proj2 Hci)) Hsig Hname) as Htrace. pose proof Ec as Ec0.
  apply eval_input_calls in Ec as (t & Ec & ->); [|done].
  pose proof (loaded_table e' Hconsts Hok') as Htab. set (code := loaded const_value e') in *.
  assert (placed opt_level (bytecode code) (Z.of_nat (stack_max code)) (const_obj_list e') (label_offsets e') e0 (t ++ [E_return_value]) e1) as P.
  { eapply pass_placed; [exact S0|exact E1|exact S1|done|lia|done|]. cbn. pose proof (st_size _ _ _ S0). pose proof (g_stack _ _ G). pose proof (en_stack _ _ S1). lia. }
  apply placed_app in P as (e3 & P1 & P2).
  assert (at_state e0 (entry_frame (X:=X) (I:=I) e' l)) as Hat.
  { split; [|by rewrite (st_stack _ _ _ S0)|done]. unfold pc. rewrite (st_offset _ _ _ S0), (st_info _ _ _ S0). cbn. lia. }
  assert (scope_ok s (start_pass c MP_PASS_EMIT s)) as Hok by by split; [cbn; by rewrite bool_decide_eq_false_2|].
  destruct (compile_runs code opt_level (const_obj_list e') (label_offsets e') const_value s names_fit Hglob' fuel) as (Hrun & _).
  specialize (Hrun pn [] [] Hpn (suffix_nil _) _ c' t e0 e3 (entry_frame e' l) w Hok Ec Hn P1 (st_live _ _ _ S0) Hat eq_refl).
  unfold leads in Hrun. cbn [fastn entry_frame] in Hrun.
  pose proof (placed_pc _ _ _ _ _ _ _ P2). unfold pc in *. rewrite (st_offset _ _ _ S0) in Hrun. rewrite <- (en_offset _ _ S1) in *.
  destruct (eval const_value s (S fuel) pn (l, w)) as [r|]; [|done]. exists r. split; [done|].
  destruct r as [[ex|v] [l' w']].
  - eapply raise_leaves; [done|exact Hrun|]. intros at_ip Hip. pose proof (st_info _ _ _ S0). pose proof (en_info _ _ S1).
    destruct (Htrace code at_ip eq_refl) as (cs1 & call & cs2 & Hw & Hinf); [lia|].
    eexists _, _. split; [|exact Hinf]. rewrite Hinfo in Hw. by exists c', (t ++ [E_return_value]), e0, cs1, call, cs2.
  - destruct Hrun as (x & -> & Hlive & Hsteps & Hlen). destruct Hsteps as [n Hsteps]. exists (n + 1)%nat. rewrite Hsteps.
    by apply (return_ends code opt_level (const_obj_list e') (label_offsets e') e3 e1 _ w' v [] P2 Hlive); [apply at_state_moved|..].
Qed.

End input.
