(* ===== verification/CompileProps.v ===== *)
(** The properties of the compiler and of the interpreter, each with a program for
    which it holds: a small runtime, the source of an expression, and what the
    parser, the passes of the compiler and the interpreter make of it. *)

From Stdlib Require Import ZArith Lia Ascii String.
From stdpp Require Import base option list numbers.
From S2P Require Import Prelude Mpn IntObj IntSpec IntProps Lexer HashMap Qstr Grammar Parse ParseProps Bytecode BytecodeProps Scope EmitBc Compile Vm CodeAt CodeLines CallSem VmRun VmCalls Eval CompileShape CompileRuns CompileSound Traceback CompileEval.

(** * A runtime *)

Module Demo.

#[export] Instance names : QstrNumbers := fun t =>
  match t with [] => 0 | _ => 1 + List.fold_left (fun a c => (a * 7 + c) mod 251) t 0 end.

#[export] Instance floats : FloatLiterals unit := { mp_parse_num_float _ := inr tt; float_is_true _ := true }.

#[export] Instance const_floats : ConstFloats unit := fun _ _ => true.

(** Objects are known by their truth alone; the world holds the names in order of
    assignment. *)
Definition world : Type := list (Z * value bool).

Fixpoint find_name (w : world) (q : Z) : option (value bool) :=
  match w with [] => None | (k, v) :: w => if k =? q then Some v else find_name w q end.

Definition truth (v : value bool) : bool :=
  match v with
  | V_NONE | V_FALSE => false
  | V_TRUE => true
  | V_SMALL_INT n => negb (n =? 0)
  | V_QSTR q => negb (q =? 0)
  | V_PTR b => b
  end.

Definition of_bool (b : bool) : value bool := if b then V_TRUE else V_FALSE.

Definition operator (op : Z) (a b : value bool) : value bool :=
  match a, b with
  | V_SMALL_INT a, V_SMALL_INT b =>
      if op =? MP_BINARY_OP_ADD then V_SMALL_INT (a + b)
      else if op =? MP_BINARY_OP_MULTIPLY then V_SMALL_INT (a * b)
      else if op =? MP_BINARY_OP_LESS then of_bool (a <? b)
      else V_NONE
  | _, _ => V_NONE
  end.

Definition const_value (o : obj unit) : value bool := V_PTR (match mp_obj_is_true o with inr b => b | inl _ => false end).

Definition nothing {A} (w : world) : (value bool + A) * world := (inl V_NONE, w).

Definition load (q : Z) (w : world) : (value bool + value bool) * world :=
  (match find_name w q with Some v => inr v | None => inl (V_QSTR q) end, w).

Definition save (q : Z) (v : value bool) (w : world) : (value bool + unit) * world := (inr tt, (q, v) :: w).

Definition sequence_of (l : list (value bool)) (w : world) : (value bool + value bool) * world :=
  (inr (V_PTR (negb (length l =? 0)%nat)), w).

(** An unknown name raises its own number; a traceback is a line of the world. *)
#[export] Instance runtime : Runtime bool unit world := {|
  mp_load_name := load; mp_load_global := load; mp_store_name := save; mp_store_global := save;
  mp_delete_name _ := nothing; mp_delete_global _ := nothing; mp_obj_cell_get _ := nothing; mp_obj_cell_set _ _ := nothing;
  mp_load_attr _ _ := nothing; mp_store_attr _ _ _ := nothing; mp_load_method _ _ := nothing;
  mp_load_super_method _ _ _ := nothing; mp_load_build_class := nothing; mp_obj_subscr _ _ := nothing;
  mp_obj_subscr_store _ _ _ := nothing;
  rt_is_true v w := (inr (truth v), w);
  rt_unary_op op v w := (inr (of_bool (negb (truth v))), w);
  rt_binary_op op a b w := (inr (operator op a b), w);
  mp_getiter _ := nothing; mp_getiter_buf _ := nothing; mp_iternext_allow_raise _ := nothing; mp_iternext_buf i := nothing;
  mp_obj_new_tuple := sequence_of; mp_obj_new_list := sequence_of; mp_obj_new_dict _ := nothing; mp_obj_new_set := sequence_of;
  mp_obj_new_slice _ _ _ := nothing; mp_obj_dict_store _ _ _ := nothing; mp_obj_list_append _ _ := nothing;
  mp_obj_set_store _ _ := nothing; mp_unpack_sequence _ _ := nothing; mp_unpack_ex _ _ := nothing;
  mp_make_function_from_raw_code _ _ := nothing; mp_make_closure_from_raw_code _ _ _ := nothing;
  mp_call_function_n_kw f p k args w := (inr (List.last args f), w);
  mp_call_method_n_kw_var _ _ _ := nothing; mp_make_raise_obj v w := (inr v, w); mp_obj_new_exception_msg _ := nothing;
  mp_resume _ _ _ := nothing; mp_import_name _ _ _ := nothing; mp_import_from _ _ := nothing; mp_import_all _ := nothing;
  mp_warning w := (inr tt, w); mp_handle_pending w := (inr tt, w); mp_obj_get_type v := v;
  is_stop_iteration _ := false; is_generator_exit _ := false; is_const_generator_exit _ := false; is_exception_instance _ := true;
  mp_obj_exception_get_value v := v;
  mp_obj_exception_add_traceback _ line _ w := (- line, V_NONE) :: w;
  MP_QSTR___exit__ := 1; MP_QSTR___enter__ := 2;
|}.

#[export] Instance quiet : Quiet (X:=bool) (I:=unit) (W:=world).
Proof. done. Qed.

Lemma hash_bounds t : forall a, 0 <= a < 251 -> 0 <= List.fold_left (fun a c => (a * 7 + c) mod 251) t a < 251.
Proof. induction t as [|c t IH]; intros a Ha; [done|]. cbn. apply IH, Z.mod_pos_bound. lia. Qed.

#[export] Instance literal_truth : LiteralTruth (X:=bool) (I:=unit) (W:=world) const_value.
Proof.
  split; try done.
  - intros [|c t] w; [done|]. pose proof (hash_bounds (c :: t) 0). cbn -[List.fold_left].
    rewrite (proj2 (Z.eqb_neq _ 0)); [done|]. lia.
  - intros o b w Hb. unfold const_value. cbn. by rewrite Hb.
  - intros w. by exists (V_PTR false).
Qed.

(** The truth of constants that are taken for one another. *)
Lemma int_truth o : int_ok o -> mp_obj_is_true (F:=unit) (O_INT o) = inr (negb (ival o =? 0)).
Proof.
  intros Ho. destruct o as [v|z]; [done|]. destruct (mp_unary_op_ok OP_BOOL (BIG z) Ho) as (r & E & Hr).
  cbn [mp_obj_is_true]. rewrite E. destruct r; try done. cbn in Hr. by rewrite Hr.
Qed.

Lemma equal_truth (a b : obj unit) : const_ok a -> const_ok b -> strictly_equal a b = Some true -> const_value a = const_value b.
Proof.
  unfold const_value. destruct a as [i| | | | | | | | |la], b as [j| | | | | | | | |lb]; intros Ha Hb E; try done;
    try (cbn in E |- *; injection E as E; apply bool_decide_eq_true in E; by subst).
  - cbn [strictly_equal] in E. rewrite !int_truth by done.
    destruct (mp_binary_op_ok OP_EQUAL i j Ha Hb ltac:(done)) as (r & Er & Hr). cbn [mp_binary_op] in Er. rewrite Er in E.
    destruct r as [|b| |]; try done. injection E as ->. cbn in Hr. symmetry in Hr. apply Z.eqb_eq in Hr. by rewrite Hr.
  - cbn [strictly_equal] in E. destruct (Nat.eqb_spec (length la) (length lb)) as [El|]; [|done]. cbn. by rewrite El.
Qed.

#[export] Instance values : Values const_value.
Proof.
  split; [exact equal_truth|]. intros [|c t]; [done|]. unfold fits, qst_of, names.
  pose proof (hash_bounds (c :: t) 0). lia.
Qed.

(** The passes over the input of [eval], and the state before the last one. *)
Definition parsed (src : string) : option (parse_node unit) :=
  match parse_source 2000 2000 0 (bytes src) [] MP_PARSE_EVAL_INPUT with Some (inr (n, _)) => Some n | _ => None end.

Fixpoint last_pass (passes fuel : nat) (c : compiler_t) (e : emit_t unit) (s : scope_t) pn :=
  match passes with
  | O => None
  | S passes =>
      '(c', e', s', r) ← compile_pass 0 fuel c e s pn MP_PASS_EMIT;
      match r with PASS_AGAIN => last_pass passes fuel c' e' s' pn | _ => Some (c, e, s) end
  end.

Definition before_last (passes fuel : nat) (pn : parse_node unit) : option (compiler_t * emit_t unit * scope_t) :=
  '(c, e, s, _) ← compile_pass 0 fuel (compiler_new false module_scope) (emit_bc_new module_scope [] 0) module_scope pn MP_PASS_SCOPE;
  let s := scope_compute_things (qst_of MP_QSTR___class__) s None in
  '(c, e, s, _) ← compile_pass 0 fuel c (with_label_offsets e (replicate (next_label c) None)) s pn MP_PASS_STACK_SIZE;
  '(c, e, s, _) ← compile_pass 0 fuel c e s pn MP_PASS_CODE_SIZE;
  last_pass passes fuel c e s pn.

Definition source : string := "(x + 2) * 5 if x < 3 < 4 and 1 else f([x, not x], y=0)
"%string.






Definition input : parse_node unit := Eval vm_compute in default PN_NULL (parsed source).

Definition operand : parse_node unit := Eval vm_compute in match input with PN_STRUCT _ _ (pn :: _) => pn | _ => PN_NULL end.

Definition before : compiler_t * emit_t unit * scope_t := Eval vm_compute in
  default (compiler_new false module_scope, emit_bc_new module_scope [] 0, module_scope) (before_last 20 60 input).

Definition after : option (compiler_t * emit_t unit * scope_t * pass_result) := Eval vm_compute in
  let '(c, e, s) := before in compile_pass 0 60 c e s input MP_PASS_EMIT.

(** The code of the last pass. *)
Definition emitted : emit_t unit := Eval vm_compute in match after with Some (_, e, _, _) => e | None => emit_bc_new module_scope [] 0 end.

(** The states of the compiler and of the emitter at the start of the last pass, and
    what an expression makes of them. *)
Definition compiling : compiler_t := Eval vm_compute in start_pass before.1.1 MP_PASS_EMIT before.2.

Definition compiled : compiler_t * list (emit_call unit) := Eval vm_compute in
  default (compiling, []) (compile_node 0 60 operand compiling).

Definition writing : emit_t unit := Eval vm_compute in
  default before.1.2 (mp_emit_bc_start_pass before.1.2 0 MP_PASS_EMIT before.2).

Definition compiled_to : emit_t unit := Eval vm_compute in default writing (emit_calls 0 writing compiled.2).

Ltac expression_tac := repeat
  match goal with
  | |- expression (PN_STRUCT _ RULE_atom_expr_normal _) => eapply X_atom_expr
  | |- expression (PN_STRUCT _ RULE_arith_expr _) => apply X_term
  | |- expression (PN_STRUCT _ RULE_term _) => apply X_term
  | |- expression (PN_STRUCT _ RULE_atom_bracket [PN_STRUCT _ RULE_testlist_comp _]) => eapply X_bracket
  | |- expression _ => constructor
  | |- Forall _ _ => constructor
  | |- between _ _ => constructor
  | |- sequence _ _ => apply S_items
  | |- trailers (PN_STRUCT _ RULE_trailer_paren _) _ => apply T_one
  | |- trailer _ => econstructor
  | |- arguments (PN_STRUCT _ RULE_arglist _) _ => apply A_many
  | |- argument (PN_STRUCT _ RULE_argument _) => apply A_keyword
  | |- argument _ => apply A_positional
  | |- few _ _ => reflexivity
  | |- _ \/ _ => first [left; reflexivity|right; left; reflexivity|right; right; reflexivity]
  | |- _ <= _ <= _ => split; discriminate
  | |- _ <> _ => discriminate
  end.

Lemma operand_expression (lit : mp_token_kind_t -> Prop) : expression (lit := lit) operand.
Proof. unfold operand. expression_tac. Qed.

Lemma before_ok : pass_ok before.1.2 before.2.
Proof. split; [reflexivity|by repeat constructor|..]; vm_compute; repeat split; first [discriminate|reflexivity]. Qed.

Lemma emitted_stable : stable before.1.2 emitted.
Proof. by split; vm_compute. Qed.

End Demo.

(** * Properties *)


(** C2: Compiling an expression keeps the account of the value stack: in any pass but
    the first, the calls made for an expression that is compiled without an error
    leave the scope alone, move the emitter's depth by exactly one at every path, and
    keep it between zero and the size of the stack it reserves. *)
Theorem expression_stack_balanced {F : Type} `{FloatLiterals F} `{QstrNumbers} `{ConstFloats F} (opt_level : Z) fuel (pn : parse_node F)
    c c' cs e e' :
  expression (lit := fun t => t <> MP_TOKEN_NEWLINE) pn -> comp_pass c <> MP_PASS_SCOPE ->
  compile_node opt_level fuel pn c = Some (c', cs) -> compile_error c' = None -> pass e = MP_PASS_EMIT -> depth_ok e -> emit_calls opt_level e cs = Some e' ->
  scope_cur c' = scope_cur c /\ compile_error c = None /\ cur_stack e' = cur_stack e + 1 /\ depth_ok e'.
Proof.
  intros Hpn Hc E Hn Hp Hd Ee. destruct (compile_keeps opt_level (scope_cur c) (fun t Ht => Ht) fuel) as (K & _).
  destruct (K pn Hpn c ltac:(by split) c' cs E) as [[Hs _] Hk]. destruct (Hk Hn) as [Hn0 Heff].
  apply emit_calls_emits in Ee as [_ Hcur Hdep]; [|done]. rewrite Heff in Hcur. auto.
Qed.

(** C3: The operands of instructions and the prelude of a function are read back as
    they were written, whatever follows them: unsigned and signed operands of 32 bits
    in at most five bytes, the packed fields of the signature, and the two interleaved
    sizes. *)
Theorem bytecode_roundtrip val num s n_info n_cell :
  0 <= val < 2 ^ 32 -> - 2 ^ 31 <= num < 2 ^ 31 -> sig_ok s -> 0 <= n_info < 2 ^ 32 -> 0 <= n_cell < 2 ^ 32 ->
  (exists bs, mp_encode_uint val = Some bs /\ (length bs <= MP_ENCODE_UINT_MAX_BYTES)%nat /\
     forall rest, DECODE_UINT (bs ++ rest) = Some (val, length bs) /\ mp_decode_uint_skip (bs ++ rest) = Some (length bs)) /\
  (exists bs, encode_int num = Some bs /\ (length bs <= MP_ENCODE_UINT_MAX_BYTES)%nat /\
     forall rest, DECODE_INT (bs ++ rest) = Some (num, length bs)) /\
  (exists bs, MP_BC_PRELUDE_SIG_ENCODE s = Some bs /\ forall rest, MP_BC_PRELUDE_SIG_DECODE (bs ++ rest) = Some (s, length bs)) /\
  (exists bs, MP_BC_PRELUDE_SIZE_ENCODE n_info n_cell = Some bs /\
     forall rest, MP_BC_PRELUDE_SIZE_DECODE (bs ++ rest) = Some (n_info, n_cell, length bs)).
Proof.
  intros Hv Hn Hs Hi Hc.
  destruct (encode_uint_ok val Hv) as (b1 & E1 & _ & L1 & D1). destruct (encode_int_ok num Hn) as (b2 & E2 & _ & L2 & D2).
  destruct (prelude_sig_ok s Hs) as (b3 & E3 & _ & D3). destruct (prelude_size_ok n_info n_cell Hi Hc) as (b4 & E4 & _ & D4).
  split; [exists b1; split; [done|]; split; [done|]; intros rest; split; [done|by eapply decode_skip_ok]|]. eauto 10.
Qed.

(** C4: The line of a traceback is right: in the table that [mp_emit_bc_set_source_line]
    writes for offsets and lines that do not decrease, [mp_bytecode_get_source_line]
    finds for every offset the line of the last entry at or before it. *)
Theorem line_table_lookup entries off : increasing 0 1 entries -> 0 <= off ->
  exists bs, line_table 0 1 entries = Some bs /\ mp_bytecode_get_source_line bs off = Some (line_at entries off 1).
Proof.
  intros Hi Ho. destruct (line_table_ok entries 0 1 Hi) as (bs & E & _ & Hl). exists bs. split; [done|].
  unfold mp_bytecode_get_source_line. rewrite <- (Z.sub_0_r off) at 1. by apply Hl.
Qed.

(** The numbers of arguments of a call share an operand, eight bits for the positional
    ones: the code of a call of 256 positional arguments is that of a call of one
    keyword argument. *)
Theorem call_of_256_arguments :
  let e := EmitBc.with_stack Demo.writing 300 (with_stack_sizes (scope Demo.writing) 300 0) in
  is_Some (mp_emit_bc_call_function e 256 0 false) /\
  code_base <$> mp_emit_bc_call_function e 256 0 false = code_base <$> mp_emit_bc_call_function e 0 1 false.
Proof. split; [|by vm_compute]. vm_compute. by eexists. Qed.

Import Demo.

(** The size of a jump can grow from one pass to the next.  The code is that of loops
    nested in one another and blocks of exceptions around them, as far as its jumps
    go: [pad] stands for instructions without a label. *)
Definition pad (n : nat) : list (emit_call unit) := replicate n E_rot_two.
Definition near (l : label) : list (emit_call unit) := [E_pop_jump_if true l].
Definition forward (l : label) : list (emit_call unit) := [E_jump_if_or_pop true l].
Definition at_label (l : label) : list (emit_call unit) := [E_label_assign l].

Definition many_jumps : list (emit_call unit) :=
  replicate 80 (E_load_const_tok MP_TOKEN_KW_NONE) ++
  concat ((fun l => pad 1 ++ near l ++ pad 2 ++ at_label l) <$> List.seq 12 50) ++
  forward 0 ++ forward 1 ++ pad 2 ++ forward 2 ++ at_label 1 ++ pad 1 ++ near 3 ++ at_label 4 ++
  pad 1 ++ near 5 ++ near 6 ++ at_label 5 ++ pad 56 ++ at_label 3 ++ pad 1 ++ near 4 ++ pad 3 ++ at_label 6 ++
  concat (replicate 9 (pad 1 ++ near 7)) ++ pad 13 ++ at_label 7 ++ at_label 8 ++ pad 2 ++
  forward 9 ++ at_label 10 ++ pad 1 ++ at_label 2 ++ at_label 9 ++ pad 1 ++ at_label 0 ++ pad 3 ++
  [E_adjust_stack_size (-13)].

(** The bytes of the jump between the labels 1 and 4, after one instruction, in a
    pass. *)
Definition jump_size (e : emit_t unit) : option Z :=
  match label_offsets e !! 1%nat, label_offsets e !! 4%nat with Some (Some a), Some (Some b) => Some (b - a - 1) | _, _ => None end.

Definition emit_sizes : option (option Z * option Z) :=
  let s := module_scope in
  '(e, _) ← emit_pass 0 0 (emit_bc_new s [] 80) MP_PASS_STACK_SIZE s many_jumps;
  '(e, _) ← emit_pass 0 0 e MP_PASS_CODE_SIZE (scope e) many_jumps;
  '(e1, _) ← emit_pass 0 0 e MP_PASS_EMIT (scope e) many_jumps;
  '(e2, _) ← emit_pass 0 0 e1 MP_PASS_EMIT (scope e1) many_jumps;
  Some (jump_size e1, jump_size e2).

Theorem jump_grows : emit_sizes = Some (Some 2, Some 3).
Proof. vm_compute. reflexivity. Qed.

(** ** Witnesses *)

Lemma expression_stack_balanced_witness : cur_stack compiled_to = 1.
Proof.
  refine (proj1 (proj2 (proj2 (expression_stack_balanced 0 60 operand compiling compiled.1 compiled.2 writing compiled_to
    (operand_expression _) _ _ _ _ _ _)))); first [discriminate|vm_compute; reflexivity|vm_compute; split; discriminate].
Defined.

Lemma bytecode_roundtrip_witness : exists bs, mp_encode_uint 300 = Some bs /\ DECODE_UINT (bs ++ [7]) = Some (300, 2%nat).
Proof.
  destruct (bytecode_roundtrip 300 (-65)
    {| n_state := 300; n_exc_stack := 3; sig_flags := 5; n_pos_args := 7; n_kwonly_args := 1; n_def_pos_args := 2 |} 100 1)
    as ((bs & E & _ & D) & _); [lia|lia|by repeat split|lia|lia|].
  exists bs. split; [exact E|]. rewrite (proj1 (D [7])). injection E as <-. reflexivity.
Defined.

Lemma line_table_lookup_witness :
  exists bs, line_table 0 1 [(4, 2); (10, 30)] = Some bs /\ mp_bytecode_get_source_line bs 12 = Some 30.
Proof. apply (line_table_lookup [(4, 2); (10, 30)] 12); [cbn; lia|lia]. Defined.

