(* ===== verification/Gc.v ===== *)
(** The garbage collector: [py/gc.c], as the port compiles it: several heap
    areas, no finalisers, new memory cleared, 32-bit words, one thread.

    Memory outside of the tables and the pools is not modelled.  A read or write
    outside of an allocation table, or an assertion that fails, is [None]. *)

From Stdlib Require Import ZArith Lia.
From stdpp Require Import base option list numbers.
From S2P Require Import Prelude.

(** * Definitions *)

Definition BYTES_PER_BLOCK : Z := 16.
Definition WORDS_PER_BLOCK : nat := 4.
Definition BLOCKS_PER_ATB : nat := 4.
Definition ALLOC_TABLE_GAP_BYTE : Z := 1.
Definition GC_STACK_SIZE : nat := 64.

Definition AT_FREE : Z := 0.
Definition AT_HEAD : Z := 1.
Definition AT_TAIL : Z := 2.
Definition AT_MARK : Z := 3.

(** ** The allocation table, one byte for four blocks *)

Definition BLOCK_SHIFT (block : nat) : Z := 2 * Z.of_nat (block mod BLOCKS_PER_ATB).

Definition byte_kind (a : Z) (block : nat) : Z := Z.land (Z.shiftr a (BLOCK_SHIFT block)) 3.

Definition ATB_GET_KIND (t : list Z) (block : nat) : option Z :=
  a ← t !! (block / BLOCKS_PER_ATB)%nat; Some (byte_kind a block).

Definition atb_update (f : Z -> Z) (t : list Z) (block : nat) : option (list Z) :=
  a ← t !! (block / BLOCKS_PER_ATB)%nat; Some (<[(block / BLOCKS_PER_ATB)%nat := f a]> t).

Definition ATB_ANY_TO_FREE (t : list Z) (block : nat) : option (list Z) :=
  atb_update (fun a => Z.land a (Z.lnot (Z.shiftl AT_MARK (BLOCK_SHIFT block)))) t block.
Definition ATB_FREE_TO_HEAD (t : list Z) (block : nat) : option (list Z) :=
  atb_update (fun a => Z.lor a (Z.shiftl AT_HEAD (BLOCK_SHIFT block))) t block.
Definition ATB_FREE_TO_TAIL (t : list Z) (block : nat) : option (list Z) :=
  atb_update (fun a => Z.lor a (Z.shiftl AT_TAIL (BLOCK_SHIFT block))) t block.
Definition ATB_HEAD_TO_MARK (t : list Z) (block : nat) : option (list Z) :=
  atb_update (fun a => Z.lor a (Z.shiftl AT_MARK (BLOCK_SHIFT block))) t block.
Definition ATB_MARK_TO_HEAD (t : list Z) (block : nat) : option (list Z) :=
  atb_update (fun a => Z.land a (Z.lnot (Z.shiftl AT_TAIL (BLOCK_SHIFT block)))) t block.

(** ** State *)

(** An area; [pool] is the content of its pool, in words. *)
Record mp_state_mem_area := {
  gc_alloc_table : list Z;
  gc_alloc_table_byte_len : nat;
  gc_pool_start : Z;
  gc_pool_end : Z;
  gc_last_free_atb_index : nat;
  gc_last_used_block : nat;
  pool : list Z;
}.

(** [gc_last_free_area] is a position in the list of areas. *)
Record mp_state_mem := {
  areas : list mp_state_mem_area;
  gc_last_free_area : nat;
  gc_lock_depth : Z;
  gc_auto_collect_enabled : bool;
  gc_alloc_threshold : Z;
  gc_alloc_amount : Z;
}.

Definition set_table (a : mp_state_mem_area) (t : list Z) : mp_state_mem_area :=
  {| gc_alloc_table := t; gc_alloc_table_byte_len := gc_alloc_table_byte_len a;
     gc_pool_start := gc_pool_start a; gc_pool_end := gc_pool_end a;
     gc_last_free_atb_index := gc_last_free_atb_index a; gc_last_used_block := gc_last_used_block a;
     pool := pool a |}.

Definition set_last_free (a : mp_state_mem_area) (i : nat) : mp_state_mem_area :=
  {| gc_alloc_table := gc_alloc_table a; gc_alloc_table_byte_len := gc_alloc_table_byte_len a;
     gc_pool_start := gc_pool_start a; gc_pool_end := gc_pool_end a;
     gc_last_free_atb_index := i; gc_last_used_block := gc_last_used_block a; pool := pool a |}.

Definition set_last_used (a : mp_state_mem_area) (b : nat) : mp_state_mem_area :=
  {| gc_alloc_table := gc_alloc_table a; gc_alloc_table_byte_len := gc_alloc_table_byte_len a;
     gc_pool_start := gc_pool_start a; gc_pool_end := gc_pool_end a;
     gc_last_free_atb_index := gc_last_free_atb_index a; gc_last_used_block := b; pool := pool a |}.

Definition set_pool (a : mp_state_mem_area) (p : list Z) : mp_state_mem_area :=
  {| gc_alloc_table := gc_alloc_table a; gc_alloc_table_byte_len := gc_alloc_table_byte_len a;
     gc_pool_start := gc_pool_start a; gc_pool_end := gc_pool_end a;
     gc_last_free_atb_index := gc_last_free_atb_index a; gc_last_used_block := gc_last_used_block a;
     pool := p |}.

Definition with_areas (m : mp_state_mem) (l : list mp_state_mem_area) : mp_state_mem :=
  {| areas := l; gc_last_free_area := gc_last_free_area m; gc_lock_depth := gc_lock_depth m;
     gc_auto_collect_enabled := gc_auto_collect_enabled m; gc_alloc_threshold := gc_alloc_threshold m;
     gc_alloc_amount := gc_alloc_amount m |}.

Definition with_last_free_area (m : mp_state_mem) (i : nat) : mp_state_mem :=
  {| areas := areas m; gc_last_free_area := i; gc_lock_depth := gc_lock_depth m;
     gc_auto_collect_enabled := gc_auto_collect_enabled m; gc_alloc_threshold := gc_alloc_threshold m;
     gc_alloc_amount := gc_alloc_amount m |}.

Definition with_lock_depth (m : mp_state_mem) (d : Z) : mp_state_mem :=
  {| areas := areas m; gc_last_free_area := gc_last_free_area m; gc_lock_depth := d;
     gc_auto_collect_enabled := gc_auto_collect_enabled m; gc_alloc_threshold := gc_alloc_threshold m;
     gc_alloc_amount := gc_alloc_amount m |}.

Definition with_alloc_amount (m : mp_state_mem) (n : Z) : mp_state_mem :=
  {| areas := areas m; gc_last_free_area := gc_last_free_area m; gc_lock_depth := gc_lock_depth m;
     gc_auto_collect_enabled := gc_auto_collect_enabled m; gc_alloc_threshold := gc_alloc_threshold m;
     gc_alloc_amount := n |}.

Definition n_blocks_of (a : mp_state_mem_area) : nat := (gc_alloc_table_byte_len a * BLOCKS_PER_ATB)%nat.

Definition BLOCK_FROM_PTR (a : mp_state_mem_area) (ptr : Z) : nat := Z.to_nat ((ptr - gc_pool_start a) / BYTES_PER_BLOCK).
Definition PTR_FROM_BLOCK (a : mp_state_mem_area) (block : nat) : Z := Z.of_nat block * BYTES_PER_BLOCK + gc_pool_start a.

(** ** Setting up *)

(** [mem] is what the memory of the new pool holds. *)
Definition gc_setup_area (start end_ : Z) (mem : list Z) : mp_state_mem_area :=
  let total_byte_len := end_ - start in
  let byte_len := (total_byte_len - ALLOC_TABLE_GAP_BYTE) / (1 + 8 / 2 * BYTES_PER_BLOCK) in
  let gc_pool_block_len := byte_len * Z.of_nat BLOCKS_PER_ATB in
  {| gc_alloc_table := replicate (Z.to_nat (byte_len + ALLOC_TABLE_GAP_BYTE)) 0;
     gc_alloc_table_byte_len := Z.to_nat byte_len;
     gc_pool_start := end_ - gc_pool_block_len * BYTES_PER_BLOCK;
     gc_pool_end := end_;
     gc_last_free_atb_index := 0; gc_last_used_block := 0; pool := mem |}.

Definition align_end (end_ : Z) : Z := Z.land end_ (Z.lnot (BYTES_PER_BLOCK - 1)).

Definition gc_init (start end_ : Z) (mem : list Z) : mp_state_mem :=
  {| areas := [gc_setup_area start (align_end end_) mem]; gc_last_free_area := 0; gc_lock_depth := 0;
     gc_auto_collect_enabled := true; gc_alloc_threshold := 2 ^ 32 - 1; gc_alloc_amount := 0 |}.

(** The structure of the area is placed at its start. *)
Definition SIZEOF_AREA : Z := 28.

Definition gc_add (m : mp_state_mem) (start end_ : Z) (mem : list Z) : mp_state_mem :=
  with_areas m (areas m ++ [gc_setup_area (start + SIZEOF_AREA) (align_end end_) mem]).

Definition gc_lock (m : mp_state_mem) : mp_state_mem := with_lock_depth m (gc_lock_depth m + 1).
Definition gc_unlock (m : mp_state_mem) : mp_state_mem := with_lock_depth m (gc_lock_depth m - 1).
Definition gc_is_locked (m : mp_state_mem) : bool := negb (gc_lock_depth m =? 0).

(** ** Pointers *)

Definition in_pool (ptr : Z) (a : mp_state_mem_area) : bool := (gc_pool_start a <=? ptr) && (ptr <? gc_pool_end a).

(** The position of the area a pointer belongs to. *)
Definition gc_get_ptr_area (l : list mp_state_mem_area) (ptr : Z) : option nat :=
  if negb (Z.land ptr (BYTES_PER_BLOCK - 1) =? 0) then None
  else fst <$> list_find (fun a => in_pool ptr a) l.

(** The number of blocks of the chain at [block]; [fuel] bounds the turns. *)
Fixpoint chain_length (fuel : nat) (t : list Z) (block n_blocks : nat) : option nat :=
  match fuel with
  | O => None
  | S fuel =>
      let n_blocks := S n_blocks in
      k ← ATB_GET_KIND t (block + n_blocks);
      if k =? AT_TAIL then chain_length fuel t block n_blocks else Some n_blocks
  end.

Definition chain_blocks (a : mp_state_mem_area) (block : nat) : option nat :=
  chain_length (S (length (gc_alloc_table a) * BLOCKS_PER_ATB)) (gc_alloc_table a) block 0.

(** The words of [n] blocks of the pool. *)
Definition block_words (a : mp_state_mem_area) (block n : nat) : list Z :=
  take (n * WORDS_PER_BLOCK) (drop (block * WORDS_PER_BLOCK) (pool a)).

Definition get_kind (l : list mp_state_mem_area) (ai block : nat) : option Z :=
  a ← l !! ai; ATB_GET_KIND (gc_alloc_table a) block.

Definition update_table (f : list Z -> nat -> option (list Z)) (l : list mp_state_mem_area) (ai block : nat)
    : option (list mp_state_mem_area) :=
  a ← l !! ai; t ← f (gc_alloc_table a) block; Some (<[ai := set_table a t]> l).

(** ** Marking *)

Definition total_blocks (l : list mp_state_mem_area) : nat := sum_list (n_blocks_of <$> l).

(** [gc_block_stack] and [gc_area_stack], top first, and
    [gc_stack_overflow]. *)
Record mark_state := {
  m_areas : list mp_state_mem_area;
  m_stack : list (nat * nat);
  gc_stack_overflow : bool;
}.

(** The loop over the words of a chain. *)
Fixpoint mark_children (ptrs : list Z) (s : mark_state) : option mark_state :=
  match ptrs with
  | [] => Some s
  | ptr :: ptrs =>
      match gc_get_ptr_area (m_areas s) ptr with
      | None => mark_children ptrs s
      | Some ptr_area =>
          a ← m_areas s !! ptr_area;
          let ptr_block := BLOCK_FROM_PTR a ptr in
          k ← ATB_GET_KIND (gc_alloc_table a) ptr_block;
          if negb (k =? AT_HEAD) then mark_children ptrs s else
          l ← update_table ATB_HEAD_TO_MARK (m_areas s) ptr_area ptr_block;
          mark_children ptrs
            (if (length (m_stack s) <? GC_STACK_SIZE)%nat
             then {| m_areas := l; m_stack := (ptr_area, ptr_block) :: m_stack s;
                     gc_stack_overflow := gc_stack_overflow s |}
             else {| m_areas := l; m_stack := m_stack s; gc_stack_overflow := true |})
      end
  end.

Fixpoint gc_mark_loop (fuel : nat) (area block : nat) (s : mark_state) : option mark_state :=
  match fuel with
  | O => None
  | S fuel =>
      a ← m_areas s !! area;
      n_blocks ← chain_blocks a block;
      if negb (gc_pool_start a + Z.of_nat (block + n_blocks) * BYTES_PER_BLOCK <=? gc_pool_end a) then None else
      s ← mark_children (block_words a block n_blocks) s;
      match m_stack s with
      | [] => Some s
      | (area, block) :: rest =>
          gc_mark_loop fuel area block
            {| m_areas := m_areas s; m_stack := rest; gc_stack_overflow := gc_stack_overflow s |}
      end
  end.

(** The areas marked, and the overflow flag. *)
Definition gc_mark_subtree (area block : nat) (l : list mp_state_mem_area) (overflow : bool)
    : option (list mp_state_mem_area * bool) :=
  s ← gc_mark_loop (S (total_blocks l)) area block
        {| m_areas := l; m_stack := []; gc_stack_overflow := overflow |};
  Some (m_areas s, gc_stack_overflow s).

(** Every block, in the order of the scan. *)
Definition all_blocks (l : list mp_state_mem_area) : list (nat * nat) :=
  concat (imap (fun ai a => (fun b => (ai, b)) <$> seq 0 (n_blocks_of a)) l).

Fixpoint trace_marked (blocks : list (nat * nat)) (l : list mp_state_mem_area) (overflow : bool)
    : option (list mp_state_mem_area * bool) :=
  match blocks with
  | [] => Some (l, overflow)
  | (area, block) :: blocks =>
      k ← get_kind l area block;
      if k =? AT_MARK
      then '(l, overflow) ← gc_mark_subtree area block l overflow; trace_marked blocks l overflow
      else trace_marked blocks l overflow
  end.

Fixpoint deal_with_stack_overflow (fuel : nat) (l : list mp_state_mem_area) (overflow : bool)
    : option (list mp_state_mem_area) :=
  match fuel with
  | O => None
  | S fuel =>
      if overflow
      then '(l, overflow) ← trace_marked (all_blocks l) l false; deal_with_stack_overflow fuel l overflow
      else Some l
  end.

Definition gc_deal_with_stack_overflow (l : list mp_state_mem_area) (overflow : bool)
    : option (list mp_state_mem_area) :=
  deal_with_stack_overflow (S (S (total_blocks l))) l overflow.

(** The words of the roots are [ptrs]. *)
Fixpoint gc_collect_root (ptrs : list Z) (l : list mp_state_mem_area) (overflow : bool)
    : option (list mp_state_mem_area * bool) :=
  match ptrs with
  | [] => Some (l, overflow)
  | ptr :: ptrs =>
      match gc_get_ptr_area l ptr with
      | None => gc_collect_root ptrs l overflow
      | Some area =>
          a ← l !! area;
          let block := BLOCK_FROM_PTR a ptr in
          k ← ATB_GET_KIND (gc_alloc_table a) block;
          if k =? AT_HEAD then
            l ← update_table ATB_HEAD_TO_MARK l area block;
            '(l, overflow) ← gc_mark_subtree area block l overflow;
            gc_collect_root ptrs l overflow
          else gc_collect_root ptrs l overflow
      end
  end.

(** ** Sweeping *)

(** The loop over the blocks of an area; [n] blocks remain. *)
Fixpoint sweep_blocks (n : nat) (t : list Z) (block : nat) (free_tail : bool) (last_used_block : nat)
    : option (list Z * bool * nat) :=
  match n with
  | O => Some (t, free_tail, last_used_block)
  | S n =>
      k ← ATB_GET_KIND t block;
      if k =? AT_MARK then
        t ← ATB_MARK_TO_HEAD t block;
        sweep_blocks n t (S block) false block
      else if (k =? AT_HEAD) || (k =? AT_TAIL) then
        let free_tail := (k =? AT_HEAD) || free_tail in
        if free_tail
        then t ← ATB_ANY_TO_FREE t block; sweep_blocks n t (S block) free_tail last_used_block
        else sweep_blocks n t (S block) free_tail block
      else sweep_blocks n t (S block) free_tail last_used_block
  end.

Fixpoint gc_sweep (l : list mp_state_mem_area) (free_tail : bool) : option (list mp_state_mem_area) :=
  match l with
  | [] => Some []
  | a :: l =>
      let end_block :=
        if (gc_last_used_block a <? n_blocks_of a)%nat then S (gc_last_used_block a) else n_blocks_of a in
      '(t, free_tail, last_used_block) ← sweep_blocks end_block (gc_alloc_table a) 0 free_tail 0;
      l ← gc_sweep l free_tail;
      Some (set_last_used (set_table a t) last_used_block :: l)
  end.

(** ** Collecting *)

(** [gc_collect_start]: [roots] are the words of the state of the
    interpreter. *)
Definition gc_collect_start (m : mp_state_mem) (roots : list Z) : option (mp_state_mem * bool) :=
  let m := with_alloc_amount (with_lock_depth m (gc_lock_depth m + 1)) 0 in
  '(l, overflow) ← gc_collect_root roots (areas m) false;
  Some (with_areas m l, overflow).

Definition gc_collect_end (m : mp_state_mem) (overflow : bool) : option mp_state_mem :=
  l ← gc_deal_with_stack_overflow (areas m) overflow;
  l ← gc_sweep l false;
  let m := with_last_free_area (with_areas m ((fun a => set_last_free a 0) <$> l)) 0 in
  Some (with_lock_depth m (gc_lock_depth m - 1)).

(** The port's collection: the state, then registers and stack. *)
Definition gc_collect (m : mp_state_mem) (state_roots stack_roots : list Z) : option mp_state_mem :=
  '(m, overflow) ← gc_collect_start m state_roots;
  '(l, overflow) ← gc_collect_root stack_roots (areas m) overflow;
  gc_collect_end (with_areas m l) overflow.

Definition gc_sweep_all (m : mp_state_mem) : option mp_state_mem :=
  gc_collect_end (with_lock_depth m (gc_lock_depth m + 1)) false.

(** ** Statistics *)

Record gc_info_t := {
  info_total : Z; info_used : Z; info_free : Z; info_max_free : Z;
  info_num_1block : Z; info_num_2block : Z; info_max_block : Z;
}.

Definition info0 : gc_info_t :=
  {| info_total := 0; info_used := 0; info_free := 0; info_max_free := 0; info_num_1block := 0;
     info_num_2block := 0; info_max_block := 0 |}.

(** The loop over the blocks; [n] blocks remain after this one. *)
Fixpoint info_blocks (n : nat) (t : list Z) (block : nat) (len len_free : Z) (i : gc_info_t) : option gc_info_t :=
  kind ← ATB_GET_KIND t block;
  let is_used := (kind =? AT_HEAD) || (kind =? AT_TAIL) in
  let free' := info_free i + (if kind =? AT_FREE then 1 else 0) in
  let used' := info_used i + (if is_used then 1 else 0) in
  let len_free := len_free + (if kind =? AT_FREE then 1 else 0) in
  let len := if kind =? AT_FREE then 0 else if kind =? AT_HEAD then 1 else if kind =? AT_TAIL then len + 1 else len in
  let finish := match n with O => true | S _ => false end in
  next ← (if finish then Some kind else ATB_GET_KIND t (S block));
  let flush := finish || (next =? AT_FREE) || (next =? AT_HEAD) in
  let flush_free := flush && (finish || (next =? AT_HEAD)) in
  let i :=
    {| info_total := info_total i; info_used := used'; info_free := free';
       info_max_free := if flush_free then Z.max (info_max_free i) len_free else info_max_free i;
       info_num_1block := info_num_1block i + (if flush && (len =? 1) then 1 else 0);
       info_num_2block := info_num_2block i + (if flush && (len =? 2) then 1 else 0);
       info_max_block := if flush then Z.max (info_max_block i) len else info_max_block i |} in
  let len_free := if flush_free then 0 else len_free in
  match n with
  | O => Some i
  | S n => info_blocks n t (S block) len len_free i
  end.

(** [None] for an area without blocks, where the loop does not end at the last
    block. *)
Fixpoint info_areas (l : list mp_state_mem_area) (i : gc_info_t) : option gc_info_t :=
  match l with
  | [] => Some i
  | a :: l =>
      let i :=
        {| info_total := info_total i + (gc_pool_end a - gc_pool_start a); info_used := info_used i;
           info_free := info_free i; info_max_free := info_max_free i; info_num_1block := info_num_1block i;
           info_num_2block := info_num_2block i; info_max_block := info_max_block i |} in
      match n_blocks_of a with
      | O => None
      | S n => i ← info_blocks n (gc_alloc_table a) 0 0 0 i; info_areas l i
      end
  end.

Definition gc_info (m : mp_state_mem) : option gc_info_t :=
  i ← info_areas (areas m) info0;
  Some {| info_total := info_total i; info_used := info_used i * BYTES_PER_BLOCK;
          info_free := info_free i * BYTES_PER_BLOCK; info_max_free := info_max_free i;
          info_num_1block := info_num_1block i; info_num_2block := info_num_2block i;
          info_max_block := info_max_block i |}.

(** ** Allocating *)

Definition ATB_MASKS : list Z := [0x03; 0x0c; 0x30; 0xc0].

(** The four tests of a byte: the last block and length of the run found, or
    the number of free blocks counted so far. *)
Fixpoint scan_masks (masks : list Z) (a : Z) (block n_free n_blocks : nat) : nat * nat + nat :=
  match masks with
  | [] => inr n_free
  | mask :: masks =>
      if Z.land a mask =? 0 then
        if (n_blocks <=? S n_free)%nat then inl (block, S n_free)
        else scan_masks masks a (S block) (S n_free) n_blocks
      else scan_masks masks a (S block) 0 n_blocks
  end.

(** The bytes from [i] on; [n] remain. *)
Fixpoint scan_table (n : nat) (t : list Z) (i n_free n_blocks : nat) : option (option (nat * nat)) :=
  match n with
  | O => Some None
  | S n =>
      a ← t !! i;
      match scan_masks ATB_MASKS a (i * BLOCKS_PER_ATB) n_free n_blocks with
      | inl r => Some (Some r)
      | inr n_free => scan_table n t (S i) n_free n_blocks
      end
  end.

(** The search in the areas from [area] on: the areas, and the area, last block
    and length of the run found. *)
Fixpoint find_free (l : list mp_state_mem_area) (area n_blocks : nat)
    : option (list mp_state_mem_area * option (nat * nat * nat)) :=
  match l with
  | [] => Some ([], None)
  | a :: l =>
      let i := gc_last_free_atb_index a in
      r ← scan_table (gc_alloc_table_byte_len a - i) (gc_alloc_table a) i 0 n_blocks;
      match r with
      | Some (block, n_free) => Some (a :: l, Some (area, block, n_free))
      | None =>
          let i := Nat.max i (gc_alloc_table_byte_len a) in
          let a := if (n_blocks =? 1)%nat then set_last_free a ((i + 1) / BLOCKS_PER_ATB) else a in
          '(l, r) ← find_free l (S area) n_blocks;
          Some (a :: l, r)
      end
  end.

(** The blocks from [bl] on become tails. *)
Fixpoint make_tails (n : nat) (t : list Z) (bl : nat) : option (list Z) :=
  match n with
  | O => Some t
  | S n => t ← ATB_FREE_TO_TAIL t bl; make_tails n t (S bl)
  end.

(** [memset] of [n] blocks to zero, [memcpy] of whole blocks. *)
Definition write_blocks (a : mp_state_mem_area) (block : nat) (ws : list Z) : mp_state_mem_area :=
  set_pool a (take (block * WORDS_PER_BLOCK) (pool a) ++ ws ++
              drop (block * WORDS_PER_BLOCK + length ws) (pool a)).

Definition clear_blocks (a : mp_state_mem_area) (block n : nat) : mp_state_mem_area :=
  write_blocks a block (replicate (n * WORDS_PER_BLOCK) 0).

(** The part of [gc_alloc] from [found] on. *)
Definition alloc_found (m : mp_state_mem) (area block n_free n_blocks : nat) : option (mp_state_mem * Z) :=
  a ← areas m !! area;
  let end_block := block in
  let start_block := (block + 1 - n_free)%nat in
  let m := if (n_free =? 1)%nat then with_last_free_area m area else m in
  let a := if (n_free =? 1)%nat then set_last_free a ((block + 1) / BLOCKS_PER_ATB) else a in
  let a := set_last_used a (Nat.max (gc_last_used_block a) end_block) in
  t ← ATB_FREE_TO_HEAD (gc_alloc_table a) start_block;
  t ← make_tails (end_block - start_block) t (S start_block);
  let a := clear_blocks (set_table a t) start_block (end_block - start_block + 1) in
  let m := with_alloc_amount (with_areas m (<[area := a]> (areas m)))
             (wrapu 32 (gc_alloc_amount m + Z.of_nat n_blocks)) in
  Some (m, gc_pool_start a + Z.of_nat start_block * BYTES_PER_BLOCK).

Section alloc.
Context (collect : mp_state_mem -> option mp_state_mem).

(** The search; [turns] bounds its repetitions. *)
Fixpoint alloc_loop (turns : nat) (m : mp_state_mem) (n_blocks : nat) (collected : bool) : option (mp_state_mem * Z) :=
  match turns with
  | O => None
  | S turns =>
      '(l, r) ← find_free (drop (gc_last_free_area m) (areas m)) (gc_last_free_area m) n_blocks;
      let m := with_areas m (take (gc_last_free_area m) (areas m) ++ l) in
      match r with
      | Some (area, block, n_free) => alloc_found m area block n_free n_blocks
      | None => if collected then Some (m, 0) else m ← collect m; alloc_loop turns m n_blocks true
      end
  end.

(** The address of the memory, or 0. *)
Definition gc_alloc_with (m : mp_state_mem) (n_bytes : Z) : option (mp_state_mem * Z) :=
  let n_blocks := Z.land (wrapu 32 (n_bytes + BYTES_PER_BLOCK - 1)) (Z.lnot (BYTES_PER_BLOCK - 1)) / BYTES_PER_BLOCK in
  if n_blocks =? 0 then Some (m, 0) else
  if gc_lock_depth m >? 0 then Some (m, 0) else
  let collected := negb (gc_auto_collect_enabled m) in
  if negb collected && (gc_alloc_amount m >=? gc_alloc_threshold m)
  then m ← collect m; alloc_loop 2 m (Z.to_nat n_blocks) true
  else alloc_loop 2 m (Z.to_nat n_blocks) collected.
End alloc.

Definition gc_alloc (m : mp_state_mem) (n_bytes : Z) (state_roots stack_roots : list Z) : option (mp_state_mem * Z) :=
  gc_alloc_with (fun m => gc_collect m state_roots stack_roots) m n_bytes.

(** ** Freeing *)

(** From the head on; [fuel] bounds the turns. *)
Fixpoint free_chain (fuel : nat) (t : list Z) (block : nat) : option (list Z) :=
  match fuel with
  | O => None
  | S fuel =>
      t ← ATB_ANY_TO_FREE t block;
      k ← ATB_GET_KIND t (S block);
      if k =? AT_TAIL then free_chain fuel t (S block) else Some t
  end.

Definition gc_free (m : mp_state_mem) (ptr : Z) : option mp_state_mem :=
  if gc_lock_depth m >? 0 then Some m else
  if ptr =? 0 then Some m else
  area ← gc_get_ptr_area (areas m) ptr;
  a ← areas m !! area;
  let block := BLOCK_FROM_PTR a ptr in
  k ← ATB_GET_KIND (gc_alloc_table a) block;
  if negb (k =? AT_HEAD) then None else
  let m := if (gc_last_free_area m =? area)%nat then m else with_last_free_area m 0 in
  let a := if (block / BLOCKS_PER_ATB <? gc_last_free_atb_index a)%nat
           then set_last_free a (block / BLOCKS_PER_ATB) else a in
  t ← free_chain (S (length (gc_alloc_table a) * BLOCKS_PER_ATB)) (gc_alloc_table a) block;
  Some (with_areas m (<[area := set_table a t]> (areas m))).

Definition gc_nbytes (m : mp_state_mem) (ptr : Z) : option Z :=
  match gc_get_ptr_area (areas m) ptr with
  | None => Some 0
  | Some area =>
      a ← areas m !! area;
      let block := BLOCK_FROM_PTR a ptr in
      k ← ATB_GET_KIND (gc_alloc_table a) block;
      if k =? AT_HEAD
      then n ← chain_blocks a block; Some (Z.of_nat n * BYTES_PER_BLOCK)
      else Some 0
  end.

(** ** Resizing *)

(** The blocks of the chain and the free blocks after it; [n] blocks remain in
    the area. *)
Fixpoint count_blocks (n : nat) (t : list Z) (bl n_blocks n_free new_blocks : nat) : option (nat * nat) :=
  match n with
  | O => Some (n_blocks, n_free)
  | S n =>
      k ← ATB_GET_KIND t bl;
      if k =? AT_TAIL then count_blocks n t (S bl) (S n_blocks) n_free new_blocks
      else if k =? AT_FREE then
        if (new_blocks <=? n_blocks + S n_free)%nat then Some (n_blocks, S n_free)
        else count_blocks n t (S bl) n_blocks (S n_free) new_blocks
      else Some (n_blocks, n_free)
  end.

Fixpoint free_blocks (n : nat) (t : list Z) (bl : nat) : option (list Z) :=
  match n with
  | O => Some t
  | S n => t ← ATB_ANY_TO_FREE t bl; free_blocks n t (S bl)
  end.

(** The free blocks from [bl] on become tails, and are asserted free. *)
Fixpoint expand_tails (n : nat) (t : list Z) (bl : nat) : option (list Z) :=
  match n with
  | O => Some t
  | S n =>
      k ← ATB_GET_KIND t bl;
      if negb (k =? AT_FREE) then None else
      t ← ATB_FREE_TO_TAIL t bl; expand_tails n t (S bl)
  end.

(** Shrinking the chain at [block] of [area]. *)
Definition realloc_shrink (m : mp_state_mem) (area block n_blocks new_blocks : nat) : option mp_state_mem :=
  a ← areas m !! area;
  t ← free_blocks (n_blocks - new_blocks) (gc_alloc_table a) (block + new_blocks);
  let m := if (gc_last_free_area m =? area)%nat then m else with_last_free_area m 0 in
  let a := set_table a t in
  let a := if ((block + new_blocks) / BLOCKS_PER_ATB <? gc_last_free_atb_index a)%nat
           then set_last_free a ((block + new_blocks) / BLOCKS_PER_ATB) else a in
  Some (with_areas m (<[area := a]> (areas m))).

Definition realloc_expand (m : mp_state_mem) (area block n_blocks new_blocks : nat) : option mp_state_mem :=
  a ← areas m !! area;
  let end_block := (block + new_blocks)%nat in
  t ← expand_tails (end_block - (block + n_blocks)) (gc_alloc_table a) (block + n_blocks);
  let a := set_last_used (set_table a t) (Nat.max (gc_last_used_block a) end_block) in
  Some (with_areas m (<[area := clear_blocks a (block + n_blocks) (new_blocks - n_blocks)]> (areas m))).

(** [memcpy] of [n] blocks between two chains. *)
Definition copy_blocks (m : mp_state_mem) (dst src : Z) (n : nat) : option mp_state_mem :=
  sa ← gc_get_ptr_area (areas m) src; s ← areas m !! sa;
  da ← gc_get_ptr_area (areas m) dst; d ← areas m !! da;
  Some (with_areas m (<[da := write_blocks d (BLOCK_FROM_PTR d dst) (block_words s (BLOCK_FROM_PTR s src) n)]> (areas m))).

Section realloc.
Context (collect : mp_state_mem -> option mp_state_mem).

Definition gc_realloc_with (m : mp_state_mem) (ptr_in n_bytes : Z) (allow_move : bool) : option (mp_state_mem * Z) :=
  if ptr_in =? 0 then gc_alloc_with collect m n_bytes else
  if n_bytes =? 0 then m ← gc_free m ptr_in; Some (m, 0) else
  if gc_lock_depth m >? 0 then Some (m, 0) else
  area ← gc_get_ptr_area (areas m) ptr_in;
  a ← areas m !! area;
  let block := BLOCK_FROM_PTR a ptr_in in
  k ← ATB_GET_KIND (gc_alloc_table a) block;
  if negb (k =? AT_HEAD) then None else
  let new_blocks := Z.to_nat (wrapu 32 (n_bytes + BYTES_PER_BLOCK - 1) / BYTES_PER_BLOCK) in
  '(n_blocks, n_free) ← count_blocks (n_blocks_of a - (block + 1)) (gc_alloc_table a) (block + 1) 1 0 new_blocks;
  if (new_blocks =? n_blocks)%nat then Some (m, ptr_in) else
  if (new_blocks <? n_blocks)%nat then m ← realloc_shrink m area block n_blocks new_blocks; Some (m, ptr_in) else
  if (new_blocks <=? n_blocks + n_free)%nat
  then m ← realloc_expand m area block n_blocks new_blocks; Some (m, ptr_in) else
  if negb allow_move then Some (m, 0) else
  '(m, ptr_out) ← gc_alloc_with collect m n_bytes;
  if ptr_out =? 0 then Some (m, 0) else
  m ← copy_blocks m ptr_out ptr_in n_blocks;
  m ← gc_free m ptr_in;
  Some (m, ptr_out).
End realloc.

Definition gc_realloc (m : mp_state_mem) (ptr_in n_bytes : Z) (allow_move : bool) (state_roots stack_roots : list Z)
    : option (mp_state_mem * Z) :=
  gc_realloc_with (fun m => gc_collect m state_roots stack_roots) m ptr_in n_bytes allow_move.
