(* ===== verification/GcTable.v ===== *)
(** The allocation table of [Gc] as a function from blocks to kinds, and the
    chains of blocks it describes. *)

From Stdlib Require Import ZArith Lia.
From stdpp Require Import base option list numbers.
From S2P Require Import Prelude Gc.

(** * Bytes of four kinds *)

Definition byte_ok (a : Z) : Prop := 0 <= a < 256.

Definition bytes : list Z := Z.of_nat <$> seq 0 256.

(** A property of bytes, decided by enumeration. *)
Lemma for_bytes (P : Z -> bool) : forallb P bytes = true -> forall a, byte_ok a -> P a = true.
Proof.
  intros HP a [Hl Hu]. apply (proj1 (forallb_forall P bytes)); [done|]. unfold bytes.
  apply list_elem_of_In, list_elem_of_fmap. exists (Z.to_nat a). rewrite Z2Nat.id by done. split; [done|].
  apply list_elem_of_In, in_seq. lia.
Qed.

Lemma byte_kind_mod a b : byte_kind a b = byte_kind a (b mod BLOCKS_PER_ATB)%nat.
Proof. unfold byte_kind, BLOCK_SHIFT, BLOCKS_PER_ATB. by rewrite Nat.Div0.mod_mod. Qed.

(** The function [f] of the shift and the byte changes one kind of the byte
    by [g]. *)
Definition changes_kind (f : Z -> Z -> Z) (g : Z -> Z) : bool :=
  forallb (fun a => forallb (fun p =>
    (0 <=? f (BLOCK_SHIFT p) a) && (f (BLOCK_SHIFT p) a <? 256) &&
    forallb (fun q => byte_kind (f (BLOCK_SHIFT p) a) q =? (if (p =? q)%nat then g (byte_kind a p) else byte_kind a q))
      (seq 0 4)) (seq 0 4)) bytes.

Lemma changes_kind_spec f g a p q : changes_kind f g = true -> byte_ok a -> (p < 4)%nat -> (q < 4)%nat ->
  byte_ok (f (BLOCK_SHIFT p) a) /\
  byte_kind (f (BLOCK_SHIFT p) a) q = if (p =? q)%nat then g (byte_kind a p) else byte_kind a q.
Proof.
  intros Hc Ha Hp Hq. pose proof (for_bytes _ Hc a Ha) as H1. cbv beta in H1.
  rewrite forallb_forall in H1. specialize (H1 p (proj2 (in_seq 4 0 p) ltac:(lia))).
  apply andb_prop in H1 as [[L%Z.leb_le U%Z.ltb_lt]%andb_prop H2]. split; [done|].
  rewrite forallb_forall in H2. apply Z.eqb_eq, H2, in_seq. lia.
Qed.

(** * Tables *)

(** The kind of a block; beyond the table, free. *)
Definition kd (t : list Z) (b : nat) : Z := default AT_FREE (ATB_GET_KIND t b).

Definition tbl_bytes (t : list Z) : Prop := Forall byte_ok t.

Lemma get_kind_kd t b : (b < length t * BLOCKS_PER_ATB)%nat -> ATB_GET_KIND t b = Some (kd t b).
Proof.
  intros Hb. unfold kd, ATB_GET_KIND.
  destruct (lookup_lt_is_Some_2 t (b / BLOCKS_PER_ATB)%nat) as [a ->]; [|done].
  unfold BLOCKS_PER_ATB in *. apply Nat.Div0.div_lt_upper_bound. lia.
Qed.

Lemma kd_range t b : 0 <= kd t b < 4.
Proof.
  unfold kd, ATB_GET_KIND. destruct (t !! _) as [a|]; cbn; [|unfold AT_FREE; lia].
  unfold byte_kind. change 3 with (Z.ones 2). rewrite Z.land_ones by done. apply Z.mod_pos_bound. done.
Qed.

Lemma kd_cases t b : kd t b = AT_FREE \/ kd t b = AT_HEAD \/ kd t b = AT_TAIL \/ kd t b = AT_MARK.
Proof. pose proof (kd_range t b). unfold AT_FREE, AT_HEAD, AT_TAIL, AT_MARK. lia. Qed.

Lemma block_index b b' : (b / BLOCKS_PER_ATB = b' / BLOCKS_PER_ATB)%nat ->
  (b mod BLOCKS_PER_ATB =? b' mod BLOCKS_PER_ATB)%nat = (b' =? b)%nat.
Proof.
  unfold BLOCKS_PER_ATB. intros E. pose proof (Nat.div_mod_eq b 4). pose proof (Nat.div_mod_eq b' 4).
  destruct (Nat.eqb_spec (b mod 4) (b' mod 4)), (Nat.eqb_spec b' b); try done; subst; lia.
Qed.

(** ** Updates *)

(** [t'] is [t] with the kind of [b] changed by [g]. *)
Definition updated (t t' : list Z) (b : nat) (g : Z -> Z) : Prop :=
  length t' = length t /\ tbl_bytes t' /\ forall b', kd t' b' = if (b' =? b)%nat then g (kd t b) else kd t b'.

Lemma atb_update_spec f g t b :
  changes_kind f g = true -> tbl_bytes t -> (b < length t * BLOCKS_PER_ATB)%nat ->
  exists t', atb_update (f (BLOCK_SHIFT b)) t b = Some t' /\ updated t t' b g.
Proof.
  intros Hc Ht Hb. unfold atb_update.
  assert (b / BLOCKS_PER_ATB < length t)%nat as Hi.
  { unfold BLOCKS_PER_ATB in *. apply Nat.Div0.div_lt_upper_bound. lia. }
  destruct (lookup_lt_is_Some_2 t _ Hi) as [a Ea]. rewrite Ea. cbn [mbind option_bind].
  pose proof (Forall_lookup_1 _ _ _ _ Ht Ea) as Ha.
  assert (BLOCK_SHIFT b = BLOCK_SHIFT (b mod BLOCKS_PER_ATB)) as Es.
  { unfold BLOCK_SHIFT. unfold BLOCKS_PER_ATB. by rewrite Nat.Div0.mod_mod. }
  assert (forall c, (c mod BLOCKS_PER_ATB < 4)%nat) as Hm by (intros c; apply Nat.mod_upper_bound; done).
  eexists. split; [done|]. split; [by rewrite length_insert|]. split.
  - apply Forall_insert; [done|]. rewrite Es. by apply (changes_kind_spec f g a _ 0%nat); [| | |lia].
  - intros b'. unfold kd at 1. unfold ATB_GET_KIND.
    destruct (Nat.eq_dec (b / BLOCKS_PER_ATB)%nat (b' / BLOCKS_PER_ATB)%nat) as [E|E].
    + rewrite <- E, list_lookup_insert_eq by done. cbn [mbind option_bind default].
      rewrite byte_kind_mod, Es. destruct (changes_kind_spec f g a _ _ Hc Ha (Hm b) (Hm b')) as [_ ->].
      rewrite (block_index b b' E), <- !byte_kind_mod. unfold kd, ATB_GET_KIND. by rewrite <- E, Ea.
    + rewrite list_lookup_insert_ne by done. destruct (Nat.eqb_spec b' b) as [->|_]; [done|]. done.
Qed.

Section updates.
Context (t : list Z) (b : nat) (Ht : tbl_bytes t) (Hb : (b < length t * BLOCKS_PER_ATB)%nat).

Lemma any_to_free_spec : exists t', ATB_ANY_TO_FREE t b = Some t' /\ updated t t' b (fun _ => AT_FREE).
Proof. apply (atb_update_spec (fun s a => Z.land a (Z.lnot (Z.shiftl AT_MARK s)))); [vm_compute|..]; done. Qed.

Lemma free_to_head_spec : exists t', ATB_FREE_TO_HEAD t b = Some t' /\ updated t t' b (fun k => Z.lor k AT_HEAD).
Proof. apply (atb_update_spec (fun s a => Z.lor a (Z.shiftl AT_HEAD s))); [vm_compute|..]; done. Qed.

Lemma free_to_tail_spec : exists t', ATB_FREE_TO_TAIL t b = Some t' /\ updated t t' b (fun k => Z.lor k AT_TAIL).
Proof. apply (atb_update_spec (fun s a => Z.lor a (Z.shiftl AT_TAIL s))); [vm_compute|..]; done. Qed.

Lemma head_to_mark_spec : exists t', ATB_HEAD_TO_MARK t b = Some t' /\ updated t t' b (fun _ => AT_MARK).
Proof.
  destruct (atb_update_spec (fun s a => Z.lor a (Z.shiftl AT_MARK s)) (fun _ => AT_MARK) t b) as (t' & ? & ?);
    [vm_compute; done..|]. by exists t'.
Qed.

Lemma mark_to_head_spec : exists t', ATB_MARK_TO_HEAD t b = Some t' /\ updated t t' b (fun k => Z.land k AT_HEAD).
Proof. apply (atb_update_spec (fun s a => Z.land a (Z.lnot (Z.shiftl AT_TAIL s)))); [vm_compute|..]; done. Qed.
End updates.

(** ** The tests of the search *)

Lemma mask_kind k mask a : ATB_MASKS !! k = Some mask -> byte_ok a ->
  (Z.land a mask =? 0) = (byte_kind a k =? AT_FREE).
Proof.
  intros Hk Ha. apply eqb_prop.
  assert (forallb (fun a => Bool.eqb (Z.land a mask =? 0) (byte_kind a k =? AT_FREE)) bytes = true) as Hall.
  { do 4 (destruct k as [|k]; [injection Hk as <-; vm_compute; done|]). done. }
  exact (for_bytes _ Hall a Ha).
Qed.
