(* ===== verification/GcHeap.v ===== *)
(** Well-formed heaps: the invariant of the areas of [Gc], chains of blocks,
    pointers, and what marking may change. *)

From Stdlib Require Import ZArith Lia.
From stdpp Require Import base option list numbers.
From S2P Require Import Prelude Gc GcTable.

Abbreviation kda a := (kd (gc_alloc_table a)).

(** * Chains *)

(** The chain at [b] has [n] blocks. *)
Definition chain (t : list Z) (b n : nat) : Prop :=
  (0 < n)%nat /\ (forall j, (0 < j < n)%nat -> kd t (b + j) = AT_TAIL) /\ kd t (b + n) <> AT_TAIL.

Lemma chain_unique t b n n' : chain t b n -> chain t b n' -> n = n'.
Proof.
  intros (Hn & Ht & He) (Hn' & Ht' & He').
  destruct (Nat.lt_trichotomy n n') as [L|[E|L]]; [|done|].
  - destruct He. apply Ht'. lia.
  - destruct He'. apply Ht. lia.
Qed.

Lemma chain_exists t nb b : (forall c, (nb <= c)%nat -> kd t c <> AT_TAIL) -> (b < nb)%nat ->
  exists n, chain t b n /\ (b + n <= nb)%nat.
Proof.
  intros He. remember (nb - b)%nat as d eqn:Ed. revert b Ed. induction d as [|d IH]; intros b Ed Hb; [lia|].
  destruct (Z.eq_dec (kd t (b + 1)) AT_TAIL) as [Et|Et].
  - assert (b + 1 < nb)%nat as Hb'.
    { destruct (Nat.lt_ge_cases (b + 1) nb); [done|]. by destruct (He (b + 1)%nat). }
    destruct (IH (b + 1)%nat ltac:(lia) Hb') as (n & (Hn & Ht & Hl) & Hle). exists (S n). split; [|lia].
    split; [lia|]. split.
    + intros j Hj. destruct (Nat.eq_dec j 1%nat) as [->|]; [done|].
      replace (b + j)%nat with (b + 1 + (j - 1))%nat by lia. apply Ht. lia.
    + by replace (b + S n)%nat with (b + 1 + n)%nat by lia.
  - exists 1%nat. split; [|lia]. split; [lia|]. split; [lia|done].
Qed.

Lemma chain_length_spec fuel t b n n0 : chain t b n -> (n0 < n)%nat -> (n - n0 <= fuel)%nat ->
  (b + n < length t * BLOCKS_PER_ATB)%nat -> chain_length fuel t b n0 = Some n.
Proof.
  intros (Hn & Ht & He). revert n0. induction fuel as [|fuel IH]; intros n0 H0 Hf Hl; [lia|].
  cbn [chain_length]. rewrite get_kind_kd by lia. cbn [mbind option_bind].
  destruct (Nat.eq_dec (S n0) n) as [E|Hne].
  - rewrite E. by rewrite (proj2 (Z.eqb_neq _ _) He).
  - rewrite Ht by lia. cbn. apply IH; lia.
Qed.

(** * Areas *)

Record area_ok (a : mp_state_mem_area) : Prop := {
  ok_table : length (gc_alloc_table a) = S (gc_alloc_table_byte_len a);
  ok_bytes : tbl_bytes (gc_alloc_table a);
  ok_gap : forall b, (n_blocks_of a <= b)%nat -> kda a b = AT_FREE;
  ok_first : kda a 0 <> AT_TAIL;
  ok_tails : forall b, kda a (S b) = AT_TAIL -> kda a b <> AT_FREE;
  ok_used : forall b, (gc_last_used_block a < b)%nat -> kda a b = AT_FREE;
  ok_last_free : forall b, (b < gc_last_free_atb_index a * BLOCKS_PER_ATB)%nat -> kda a b <> AT_FREE;
  ok_start : 0 < gc_pool_start a /\ gc_pool_start a mod BYTES_PER_BLOCK = 0;
  ok_end : gc_pool_end a = gc_pool_start a + Z.of_nat (n_blocks_of a) * BYTES_PER_BLOCK;
  ok_pool : length (pool a) = (n_blocks_of a * WORDS_PER_BLOCK)%nat;
}.

(** The pools of two areas do not meet. *)
Definition apart (a a' : mp_state_mem_area) : Prop :=
  gc_pool_end a <= gc_pool_start a' \/ gc_pool_end a' <= gc_pool_start a.

Record heap_ok (l : list mp_state_mem_area) : Prop := {
  heap_areas : forall ai a, l !! ai = Some a -> area_ok a;
  heap_apart : forall i j a a', l !! i = Some a -> l !! j = Some a' -> i <> j -> apart a a';
}.

(** Blocks are numbered by area and position. *)
Definition kdl (l : list mp_state_mem_area) (x : nat * nat) : Z :=
  match l !! x.1 with Some a => kda a x.2 | None => AT_FREE end.

Lemma ok_in_table a b : area_ok a -> (b <= n_blocks_of a)%nat -> (b < length (gc_alloc_table a) * BLOCKS_PER_ATB)%nat.
Proof. intros Ha. rewrite (ok_table a Ha). unfold n_blocks_of, BLOCKS_PER_ATB. lia. Qed.

Lemma ok_kind a b : area_ok a -> (b <= n_blocks_of a)%nat -> ATB_GET_KIND (gc_alloc_table a) b = Some (kda a b).
Proof. intros Ha Hb. by apply get_kind_kd, ok_in_table. Qed.

Lemma ok_chain a b : area_ok a -> (b < n_blocks_of a)%nat ->
  exists n, chain_blocks a b = Some n /\ chain (gc_alloc_table a) b n /\ (b + n <= n_blocks_of a)%nat.
Proof.
  intros Ha Hb. destruct (chain_exists (gc_alloc_table a) (n_blocks_of a) b) as (n & Hn & Hle); [|done|].
  - intros c Hc. by rewrite (ok_gap a Ha c Hc).
  - exists n. split; [|done]. pose proof (ok_in_table a (b + n) Ha Hle). unfold chain_blocks.
    apply chain_length_spec; [done|apply Hn|lia|done].
Qed.

(** ** Pointers *)

Definition ptr_block (l : list mp_state_mem_area) (ptr : Z) : option (nat * nat) :=
  ai ← gc_get_ptr_area l ptr; a ← l !! ai; Some (ai, BLOCK_FROM_PTR a ptr).

Lemma land_15 x : Z.land x (BYTES_PER_BLOCK - 1) = x mod BYTES_PER_BLOCK.
Proof. unfold BYTES_PER_BLOCK. change (16 - 1) with (Z.ones 4). by rewrite Z.land_ones. Qed.

Lemma ptr_area_inv l ptr ai : heap_ok l -> gc_get_ptr_area l ptr = Some ai ->
  exists a, l !! ai = Some a /\ area_ok a /\ (BLOCK_FROM_PTR a ptr < n_blocks_of a)%nat /\
    ptr = PTR_FROM_BLOCK a (BLOCK_FROM_PTR a ptr).
Proof.
  intros Hl. unfold gc_get_ptr_area. rewrite land_15. destruct (Z.eqb_spec (ptr mod BYTES_PER_BLOCK) 0) as [Em|]; [|done].
  cbn [negb]. destruct (list_find _ l) as [[i a]|] eqn:E; [|done]. intros [= <-].
  apply list_find_Some in E as (Ea & Hin & _). apply Is_true_true in Hin. unfold in_pool in Hin.
  apply andb_prop in Hin as [L%Z.leb_le U%Z.ltb_lt]. pose proof (heap_areas l Hl i a Ea) as Ha.
  exists a. split; [done|]. split; [done|]. rewrite (ok_end a Ha) in U. destruct (ok_start a Ha) as [Hp Hm].
  unfold BLOCK_FROM_PTR, PTR_FROM_BLOCK. unfold BYTES_PER_BLOCK in *.
  assert ((ptr - gc_pool_start a) mod 16 = 0) as Hd by (rewrite Zminus_mod, Em, Hm; done).
  pose proof (Z.div_mod (ptr - gc_pool_start a) 16 ltac:(done)) as D. rewrite Hd in D.
  pose proof (Z.div_pos (ptr - gc_pool_start a) 16 ltac:(lia) ltac:(lia)). lia.
Qed.

Lemma ptr_area_from_block l ai a b : heap_ok l -> l !! ai = Some a -> (b < n_blocks_of a)%nat ->
  gc_get_ptr_area l (PTR_FROM_BLOCK a b) = Some ai /\ BLOCK_FROM_PTR a (PTR_FROM_BLOCK a b) = b.
Proof.
  intros Hl Ea Hb. pose proof (heap_areas l Hl ai a Ea) as Ha. destruct (ok_start a Ha) as [Hp Hm].
  assert (BLOCK_FROM_PTR a (PTR_FROM_BLOCK a b) = b) as Eb.
  { unfold BLOCK_FROM_PTR, PTR_FROM_BLOCK. rewrite Z.add_simpl_r, Z.div_mul by done. lia. }
  split; [|done]. unfold gc_get_ptr_area. rewrite land_15.
  assert (PTR_FROM_BLOCK a b mod BYTES_PER_BLOCK = 0) as -> by (unfold PTR_FROM_BLOCK; rewrite Z.add_comm, Z.mod_add; done).
  cbn [negb Z.eqb]. assert (in_pool (PTR_FROM_BLOCK a b) a = true) as Hin.
  { unfold in_pool, PTR_FROM_BLOCK. rewrite (ok_end a Ha). unfold BYTES_PER_BLOCK. apply andb_true_intro. split; [apply Z.leb_le|apply Z.ltb_lt]; lia. }
  destruct (list_find _ l) as [[i a']|] eqn:E.
  - apply list_find_Some in E as (Ea' & Hin' & _). apply Is_true_true in Hin'. cbn. f_equal.
    destruct (Nat.eq_dec i ai) as [->|Hne]; [done|]. exfalso.
    pose proof (heap_apart l Hl i ai a' a Ea' Ea Hne) as Hap. unfold in_pool, apart in *.
    apply andb_prop in Hin as [?%Z.leb_le ?%Z.ltb_lt]. apply andb_prop in Hin' as [?%Z.leb_le ?%Z.ltb_lt]. lia.
  - apply list_find_None in E. rewrite Forall_lookup in E. destruct (E ai a Ea). by rewrite Hin.
Qed.

Lemma ptr_not_null a b : area_ok a -> PTR_FROM_BLOCK a b <> 0.
Proof. intros Ha. destruct (ok_start a Ha). unfold PTR_FROM_BLOCK, BYTES_PER_BLOCK. lia. Qed.

(** * What marking changes *)

Record area_marks (a a' : mp_state_mem_area) : Prop := {
  am_same : a' = set_table a (gc_alloc_table a');
  am_length : length (gc_alloc_table a') = length (gc_alloc_table a);
  am_bytes : tbl_bytes (gc_alloc_table a');
  am_kind : forall b, kda a' b = kda a b \/ (kda a b = AT_HEAD /\ kda a' b = AT_MARK);
}.

Definition marks (l l' : list mp_state_mem_area) : Prop :=
  length l' = length l /\ forall ai a, l !! ai = Some a -> exists a', l' !! ai = Some a' /\ area_marks a a'.

Lemma area_marks_refl a : area_ok a -> area_marks a a.
Proof. intros Ha. split; [by destruct a|done|by apply ok_bytes|by left]. Qed.

Lemma area_marks_trans a b c : area_marks a b -> area_marks b c -> area_marks a c.
Proof.
  intros [E1 L1 B1 K1] [E2 L2 B2 K2]. split; [|congruence|done|].
  - rewrite E2, E1. by destruct a.
  - intros x. destruct (K1 x) as [Ea|[H1 H2]], (K2 x) as [Eb|[H3 H4]].
    + left. congruence.
    + right. split; congruence.
    + right. split; congruence.
    + by rewrite H2 in H3.
Qed.

Lemma area_marks_ok a a' : area_ok a -> area_marks a a' -> area_ok a'.
Proof.
  intros [] [E L B Km].
  assert (forall b, kda a' b = AT_FREE <-> kda a b = AT_FREE) as HF.
  { intros b. destruct (Km b) as [->|[-> ->]]; done. }
  assert (forall b, kda a' b = AT_TAIL <-> kda a b = AT_TAIL) as HT.
  { intros b. destruct (Km b) as [->|[-> ->]]; done. }
  assert (n_blocks_of a' = n_blocks_of a /\ gc_last_used_block a' = gc_last_used_block a /\
    gc_last_free_atb_index a' = gc_last_free_atb_index a /\ gc_pool_start a' = gc_pool_start a /\
    gc_pool_end a' = gc_pool_end a /\ pool a' = pool a /\
    gc_alloc_table_byte_len a' = gc_alloc_table_byte_len a) as (E1 & E2 & E3 & E4 & E5 & E6 & E7).
  { rewrite E. by split_and!. }
  clear E. split; rewrite ?E1, ?E2, ?E3, ?E4, ?E5, ?E6, ?E7, ?L; try done.
  - intros b. rewrite HF. apply ok_gap0.
  - by rewrite HT.
  - intros b. rewrite HT, HF. apply ok_tails0.
  - intros b. rewrite HF. apply ok_used0.
  - intros b. rewrite HF. apply ok_last_free0.
Qed.

Lemma marks_lookup l l' ai a' : marks l l' -> l' !! ai = Some a' -> exists a, l !! ai = Some a /\ area_marks a a'.
Proof.
  intros [Hl Hm] E'. destruct (l !! ai) as [a|] eqn:E.
  - destruct (Hm ai a E) as (a2 & E2 & Ha). exists a. split; [done|]. congruence.
  - apply lookup_ge_None in E. apply lookup_lt_Some in E'. lia.
Qed.

Lemma marks_refl l : heap_ok l -> marks l l.
Proof. intros Hl. split; [done|]. intros ai a E. exists a. split; [done|]. by apply area_marks_refl, (heap_areas l Hl ai). Qed.

Lemma marks_trans l1 l2 l3 : marks l1 l2 -> marks l2 l3 -> marks l1 l3.
Proof.
  intros [L1 M1] [L2 M2]. split; [congruence|]. intros ai a E.
  destruct (M1 ai a E) as (a2 & E2 & H2). destruct (M2 ai a2 E2) as (a3 & E3 & H3).
  exists a3. split; [done|]. by eapply area_marks_trans.
Qed.

Lemma marks_ok l l' : heap_ok l -> marks l l' -> heap_ok l'.
Proof.
  intros [Ha Hp] Hm. split.
  - intros ai a' E. destruct (marks_lookup l l' ai a' Hm E) as (a & Ea & Hma). eapply area_marks_ok; eauto.
  - intros i j a a' E E' Hne. destruct (marks_lookup l l' i a Hm E) as (b & Eb & Hb).
    destruct (marks_lookup l l' j a' Hm E') as (b' & Eb' & Hb').
    rewrite (am_same _ _ Hb), (am_same _ _ Hb'). exact (Hp i j b b' Eb Eb' Hne).
Qed.

Lemma marks_kind l l' x : marks l l' -> kdl l' x = kdl l x \/ (kdl l x = AT_HEAD /\ kdl l' x = AT_MARK).
Proof.
  intros Hm. unfold kdl. destruct (l !! x.1) as [a|] eqn:E.
  - destruct Hm as [_ Hm]. destruct (Hm _ _ E) as (a' & -> & Ha). apply (am_kind _ _ Ha).
  - left. apply lookup_ge_None in E. destruct Hm as [L _]. by rewrite (proj2 (lookup_ge_None _ _)) by lia.
Qed.

(** Heads, marked or not. *)
Definition is_head (l : list mp_state_mem_area) (x : nat * nat) : Prop := kdl l x = AT_HEAD \/ kdl l x = AT_MARK.
Definition marked (l : list mp_state_mem_area) (x : nat * nat) : Prop := kdl l x = AT_MARK.

Lemma marks_head l l' x : marks l l' -> is_head l' x <-> is_head l x.
Proof. intros Hm. unfold is_head. destruct (marks_kind l l' x Hm) as [->|[-> ->]]; intuition congruence. Qed.

Lemma marks_marked l l' x : marks l l' -> marked l x -> marked l' x.
Proof. intros Hm. unfold marked. destruct (marks_kind l l' x Hm) as [->|[-> ->]]; done. Qed.
