(* ===== verification/GcMark.v ===== *)
(** The marking phase of [Gc]: it ends, marks only what is reachable, and with
    the overflow of its stack dealt with, everything that is reachable. *)

From Stdlib Require Import ZArith Lia.
From stdpp Require Import base option list numbers.
From S2P Require Import Prelude Gc GcTable GcHeap.

(** * Counting the heads that are left *)

Fixpoint count_heads (t : list Z) (n : nat) : nat :=
  match n with
  | O => 0
  | S n => (if kd t n =? AT_HEAD then 1 else 0) + count_heads t n
  end.

Definition heads_left (l : list mp_state_mem_area) : nat :=
  sum_list ((fun a => count_heads (gc_alloc_table a) (n_blocks_of a)) <$> l).

Lemma count_heads_le t n : (count_heads t n <= n)%nat.
Proof. induction n as [|n IH]; cbn; [done|]. destruct (_ =? _); lia. Qed.

Lemma heads_left_le l : (heads_left l <= total_blocks l)%nat.
Proof.
  unfold heads_left, total_blocks. induction l as [|a l IH]; cbn; [done|].
  pose proof (count_heads_le (gc_alloc_table a) (n_blocks_of a)). lia.
Qed.

Lemma count_heads_updated t t' b n g : updated t t' b g -> kd t b = AT_HEAD -> g AT_HEAD <> AT_HEAD ->
  (count_heads t' n + (if b <? n then 1 else 0) = count_heads t n)%nat.
Proof.
  intros (_ & _ & Hk) Hb Hg. induction n as [|n IH]; [done|]. cbn [count_heads]. rewrite Hk.
  destruct (Nat.eqb_spec n b) as [->|Hne].
  - rewrite Hb, (proj2 (Z.eqb_neq _ _) Hg). rewrite (proj2 (Nat.ltb_lt b (S b))) by lia.
    rewrite Nat.ltb_irrefl in IH. cbn. lia.
  - assert ((b <? S n)%nat = (b <? n)%nat) as -> by (destruct (Nat.ltb_spec b (S n)), (Nat.ltb_spec b n); lia). lia.
Qed.

Lemma sum_list_insert (l : list nat) i x y : l !! i = Some x -> (sum_list (<[i := y]> l) + x = sum_list l + y)%nat.
Proof.
  revert i. induction l as [|z l IH]; intros [|i] E; try done; cbn in E.
  - injection E as ->. cbn. lia.
  - specialize (IH i E). change (<[S i := y]> (z :: l)) with (z :: <[i := y]> l). cbn. lia.
Qed.

(** ** Marking one head *)

Lemma n_blocks_set_table a t : n_blocks_of (set_table a t) = n_blocks_of a.
Proof. done. Qed.

Lemma mark_head_spec l ai a b : heap_ok l -> l !! ai = Some a -> (b < n_blocks_of a)%nat -> kda a b = AT_HEAD ->
  exists l', update_table ATB_HEAD_TO_MARK l ai b = Some l' /\ marks l l' /\
    (forall x, kdl l' x = if bool_decide (x = (ai, b)) then AT_MARK else kdl l x) /\
    S (heads_left l') = heads_left l.
Proof.
  intros Hl Ea Hb Hk. pose proof (heap_areas l Hl ai a Ea) as Ha. unfold update_table. rewrite Ea. cbn [mbind option_bind].
  destruct (head_to_mark_spec (gc_alloc_table a) b (ok_bytes a Ha)) as (t' & -> & Hu);
    [apply ok_in_table; [done|lia]|]. cbn [mbind option_bind]. eexists. split; [done|].
  pose proof Hu as (Hlen & Hby & Hkd). pose proof (lookup_lt_Some _ _ _ Ea) as Hlt. split; [|split].
  - split; [by rewrite length_insert|]. intros i c Ec. destruct (Nat.eq_dec ai i) as [<-|Hne].
    + rewrite Ea in Ec. injection Ec as <-. exists (set_table a t'). rewrite list_lookup_insert_eq by done.
      split; [done|]. split; [done..|]. intros x. cbn. rewrite Hkd. destruct (Nat.eqb_spec x b) as [->|]; auto.
    + exists c. rewrite list_lookup_insert_ne by done. split; [done|]. by apply area_marks_refl, (heap_areas l Hl i).
  - intros [i x]. unfold kdl. cbn [fst snd]. case_bool_decide as E.
    + injection E as -> ->. rewrite list_lookup_insert_eq by done. cbn. by rewrite Hkd, Nat.eqb_refl.
    + destruct (Nat.eq_dec ai i) as [<-|Hne].
      * rewrite list_lookup_insert_eq, Ea by done. cbn. rewrite Hkd.
        destruct (Nat.eqb_spec x b) as [->|]; [by destruct E|done].
      * by rewrite list_lookup_insert_ne.
  - unfold heads_left. rewrite list_fmap_insert.
    assert (((fun a => count_heads (gc_alloc_table a) (n_blocks_of a)) <$> l) !! ai =
      Some (count_heads (gc_alloc_table a) (n_blocks_of a))) as E by (by rewrite list_lookup_fmap, Ea).
    pose proof (sum_list_insert _ _ _ (count_heads (gc_alloc_table (set_table a t')) (n_blocks_of (set_table a t'))) E) as Hs.
    pose proof (count_heads_updated _ _ b (n_blocks_of a) _ Hu Hk ltac:(done)) as Hc.
    rewrite (proj2 (Nat.ltb_lt _ _) Hb) in Hc. rewrite n_blocks_set_table in *. cbn [gc_alloc_table set_table] in *. lia.
Qed.

(** * The graph of the heap *)

Definition words (l : list mp_state_mem_area) (x : nat * nat) : list Z :=
  match l !! x.1 with
  | Some a => match chain_blocks a x.2 with Some n => block_words a x.2 n | None => [] end
  | None => []
  end.

(** The word [w] points to the head [y]. *)
Definition points (l : list mp_state_mem_area) (w : Z) (y : nat * nat) : Prop :=
  ptr_block l w = Some y /\ is_head l y.

Definition edge (l : list mp_state_mem_area) (x y : nat * nat) : Prop := exists w, w ∈ words l x /\ points l w y.

Definition closed (l : list mp_state_mem_area) (x : nat * nat) : Prop := forall y, edge l x y -> marked l y.

(** Reachable from the blocks in [P]. *)
Inductive reach (l : list mp_state_mem_area) (P : nat * nat -> Prop) : nat * nat -> Prop :=
| reach_root x : P x -> reach l P x
| reach_step x y : reach l P x -> edge l x y -> reach l P y.

Lemma reach_mono l (P Q : nat * nat -> Prop) x : (forall y, P y -> reach l Q y) -> reach l P x -> reach l Q x.
Proof. intros HPQ. induction 1 as [y Hy|y z _ IH E]; [by apply HPQ|]. by eapply reach_step. Qed.

Lemma list_find_bool_ext {A} (f g : A -> bool) l l' :
  Forall2 (fun x y => f x = g y) l l' ->
  fst <$> list_find (fun x => f x) l = fst <$> list_find (fun x => g x) l'.
Proof.
  induction 1 as [|x y l l' E _ IH]; [done|]. cbn [list_find]. rewrite E. case_decide; [done|].
  rewrite <- !option_fmap_compose.
  destruct (list_find (fun x => f x) l) as [[i a]|], (list_find (fun x => g x) l') as [[i' a']|]; cbn in *; try done.
  f_equal. cbn. congruence.
Qed.

Section marks.
Context (l l' : list mp_state_mem_area) (Hm : marks l l').

Lemma marks_ptr_area w : gc_get_ptr_area l' w = gc_get_ptr_area l w.
Proof.
  unfold gc_get_ptr_area. destruct (negb _); [done|]. symmetry. apply list_find_bool_ext. destruct Hm as [Hl Hk].
  apply Forall2_same_length_lookup. split; [done|]. intros i a a' E E'.
  destruct (Hk i a E) as (a2 & E2 & Ha). rewrite E' in E2. injection E2 as <-. by rewrite (am_same _ _ Ha).
Qed.

Lemma marks_block w a a' : area_marks a a' -> BLOCK_FROM_PTR a' w = BLOCK_FROM_PTR a w.
Proof. intros [E _ _ _]. by rewrite E. Qed.

Lemma marks_ptr_block w : ptr_block l' w = ptr_block l w.
Proof.
  unfold ptr_block. rewrite marks_ptr_area. destruct (gc_get_ptr_area l w) as [ai|]; [|done]. cbn [mbind option_bind].
  destruct Hm as [Hl Hk]. destruct (l !! ai) as [a|] eqn:E.
  - destruct (Hk ai a E) as (a' & -> & Ha). cbn. by rewrite (marks_block w a a').
  - apply lookup_ge_None in E. by rewrite (proj2 (lookup_ge_None _ _)) by lia.
Qed.

Lemma marks_points w y : points l' w y <-> points l w y.
Proof. unfold points. by rewrite marks_ptr_block, (marks_head l l' y Hm). Qed.

Lemma chain_length_ext fuel t t' b n : length t' = length t ->
  (forall c, kd t' c = AT_TAIL <-> kd t c = AT_TAIL) -> chain_length fuel t' b n = chain_length fuel t b n.
Proof.
  intros L HT. revert n. induction fuel as [|fuel IH]; intros n; [done|]. cbn [chain_length].
  destruct (Nat.lt_ge_cases (b + S n) (length t * BLOCKS_PER_ATB)) as [Lt|Ge].
  - rewrite !get_kind_kd by (rewrite ?L; done). cbn [mbind option_bind].
    assert ((kd t' (b + S n) =? AT_TAIL) = (kd t (b + S n) =? AT_TAIL)) as ->.
    { apply eq_true_iff_eq. rewrite !Z.eqb_eq. apply HT. }
    by rewrite IH.
  - unfold ATB_GET_KIND. rewrite !(proj2 (lookup_ge_None _ _)); [done|..]; rewrite ?L;
      unfold BLOCKS_PER_ATB in *; apply Nat.div_le_lower_bound; lia.
Qed.

Lemma marks_chain a a' b : area_marks a a' -> chain_blocks a' b = chain_blocks a b.
Proof.
  intros [_ L _ Km]. unfold chain_blocks. rewrite L. apply chain_length_ext; [done|].
  intros c. destruct (Km c) as [->|[-> ->]]; done.
Qed.

Lemma marks_words x : words l' x = words l x.
Proof.
  unfold words. destruct Hm as [Hl Hk]. destruct (l !! x.1) as [a|] eqn:E.
  - destruct (Hk _ a E) as (a' & -> & Ha). rewrite (marks_chain a a' x.2 Ha).
    destruct (chain_blocks a x.2); [|done]. unfold block_words. by rewrite (am_same _ _ Ha).
  - apply lookup_ge_None in E. by rewrite (proj2 (lookup_ge_None _ _)) by lia.
Qed.

Lemma marks_edge x y : edge l' x y <-> edge l x y.
Proof. unfold edge. rewrite marks_words. by setoid_rewrite marks_points. Qed.

Lemma marks_closed x : closed l x -> closed l' x.
Proof. intros Hc y E%marks_edge. eapply marks_marked; [done|]. by apply Hc. Qed.

Lemma marks_reach P x : reach l' P x <-> reach l P x.
Proof.
  split; (induction 1 as [y Hy|y z _ IH E]; [by apply reach_root|]); (eapply reach_step; [done|]); by apply marks_edge.
Qed.
End marks.

(** * The children of a chain *)

(** What looking at the words [ws] does: [new] are the blocks pushed. *)
Record children_ok (ws : list Z) (s s' : mark_state) (new : list (nat * nat)) : Prop := {
  ch_marks : marks (m_areas s) (m_areas s');
  ch_stack : m_stack s' = new ++ m_stack s;
  ch_done : forall w y, w ∈ ws -> points (m_areas s) w y -> marked (m_areas s') y;
  ch_only : forall y, marked (m_areas s') y -> marked (m_areas s) y \/
    ((exists w, w ∈ ws /\ points (m_areas s) w y) /\ (y ∈ new \/ gc_stack_overflow s' = true));
  ch_new : forall y, y ∈ new -> exists w, w ∈ ws /\ points (m_areas s) w y;
  ch_overflow : gc_stack_overflow s = true -> gc_stack_overflow s' = true;
  ch_count : (heads_left (m_areas s') + length new <= heads_left (m_areas s))%nat;
  ch_progress : gc_stack_overflow s' = true -> gc_stack_overflow s = true \/
    (heads_left (m_areas s') < heads_left (m_areas s))%nat;
}.

Lemma children_nil s : heap_ok (m_areas s) -> children_ok [] s s [].
Proof.
  intros Hl. split; try done; auto.
  - by apply marks_refl.
  - intros w y Hw. by apply not_elem_of_nil in Hw.
  - intros y Hy. by apply not_elem_of_nil in Hy.
  - cbn. lia.
Qed.

(** A word that makes nothing new. *)
Lemma children_skip w ws s s' new :
  (forall y, points (m_areas s) w y -> marked (m_areas s') y) -> children_ok ws s s' new -> children_ok (w :: ws) s s' new.
Proof.
  intros Hw []. split; try done.
  - intros v y [->|Hv]%elem_of_cons; [apply Hw|by apply ch_done0].
  - intros y Hy. destruct (ch_only0 y Hy) as [?|[(v & Hv & Hp) ?]]; [by left|right]. split; [|done].
    exists v. by rewrite elem_of_cons; auto.
  - intros y Hy. destruct (ch_new0 y Hy) as (v & Hv & Hp). exists v. by rewrite elem_of_cons; auto.
Qed.

(** A word that points to an unmarked head. *)
Lemma children_mark w ws s s1 s' new pushed x :
  marks (m_areas s) (m_areas s1) ->
  (forall y, kdl (m_areas s1) y = if bool_decide (y = x) then AT_MARK else kdl (m_areas s) y) ->
  S (heads_left (m_areas s1)) = heads_left (m_areas s) ->
  points (m_areas s) w x -> (forall y, points (m_areas s) w y -> y = x) ->
  m_stack s1 = pushed ++ m_stack s ->
  (pushed = [x] /\ gc_stack_overflow s1 = gc_stack_overflow s \/ pushed = [] /\ gc_stack_overflow s1 = true) ->
  children_ok ws s1 s' new -> children_ok (w :: ws) s s' (new ++ pushed).
Proof.
  intros Hm Hk Hh Hp Huniq Hst Hpush [].
  assert (marked (m_areas s') x) as Hx.
  { apply (marks_marked _ _ x ch_marks0). unfold marked. rewrite Hk. by rewrite bool_decide_eq_true_2. }
  split.
  - by eapply marks_trans.
  - by rewrite ch_stack0, Hst, app_assoc.
  - intros v y [->|Hv]%elem_of_cons Hy; [by rewrite (Huniq y Hy)|]. eapply ch_done0; [done|].
    by apply (marks_points _ _ Hm).
  - intros y Hy. destruct (ch_only0 y Hy) as [Hy1|[(v & Hv & Hpv) Hn]].
    + unfold marked in Hy1. rewrite Hk in Hy1. case_bool_decide as E; [subst y|by left]. right. split.
      * exists w. by rewrite elem_of_cons; auto.
      * destruct Hpush as [[-> _]|[_ Ho]]; [left; apply elem_of_app; right; by apply list_elem_of_singleton|right; auto].
    + right. split; [|destruct Hn; [left; apply elem_of_app; by left|by right]].
      exists v. rewrite elem_of_cons. split; [by right|]. by apply (marks_points _ _ Hm).
  - intros y [Hy|Hy]%elem_of_app.
    + destruct (ch_new0 y Hy) as (v & Hv & Hpv). exists v. rewrite elem_of_cons. split; [by right|].
      by apply (marks_points _ _ Hm).
    + destruct Hpush as [[-> _]|[-> _]]; [|by apply not_elem_of_nil in Hy].
      apply list_elem_of_singleton in Hy as ->. exists w. by rewrite elem_of_cons; auto.
  - intros Ho. apply ch_overflow0. destruct Hpush as [[_ ->]|[_ ->]]; done.
  - rewrite length_app. destruct Hpush as [[-> _]|[-> _]]; cbn; lia.
  - intros Ho. destruct (ch_progress0 Ho) as [Ho1|Hlt]; [|right; lia].
    destruct Hpush as [[_ E]|[_ _]]; [left; congruence|right; lia].
Qed.

Lemma mark_children_spec ws : forall s, heap_ok (m_areas s) ->
  exists s' new, mark_children ws s = Some s' /\ children_ok ws s s' new.
Proof.
  induction ws as [|w ws IH]; intros s Hl.
  { exists s, []. split; [done|]. by apply children_nil. }
  cbn [mark_children]. destruct (gc_get_ptr_area (m_areas s) w) as [ai|] eqn:Ea.
  2: { destruct (IH s Hl) as (s' & new & E & Hc). exists s', new. split; [done|]. apply children_skip; [|done].
       intros y [Hp _]. unfold ptr_block in Hp. by rewrite Ea in Hp. }
  destruct (ptr_area_inv _ _ _ Hl Ea) as (a & Eai & Ha & Hb & Hw). rewrite Eai. cbn [mbind option_bind].
  set (b := BLOCK_FROM_PTR a w) in *. rewrite (ok_kind a b Ha ltac:(lia)). cbn [mbind option_bind].
  assert (ptr_block (m_areas s) w = Some (ai, b)) as Epb by (unfold ptr_block; rewrite Ea; cbn; by rewrite Eai).
  assert (kdl (m_areas s) (ai, b) = kda a b) as Ekd by (unfold kdl; cbn; by rewrite Eai).
  destruct (Z.eqb_spec (kda a b) AT_HEAD) as [Ek|Ek]; cbn [negb].
  - destruct (mark_head_spec (m_areas s) ai a b Hl Eai Hb Ek) as (l' & -> & Hm & Hk & Hh). cbn [mbind option_bind].
    assert (points (m_areas s) w (ai, b)) as Hpt by (split; [done|left; by rewrite Ekd]).
    assert (forall y, points (m_areas s) w y -> y = (ai, b)) as Hu by (intros y [Hy _]; congruence).
    destruct (length (m_stack s) <? GC_STACK_SIZE)%nat.
    + destruct (IH {| m_areas := l'; m_stack := (ai, b) :: m_stack s; gc_stack_overflow := gc_stack_overflow s |})
        as (s' & new & E & Hc); [by eapply marks_ok|].
      exists s', (new ++ [(ai, b)]). split; [done|]. by refine (children_mark w ws s _ s' new [(ai, b)] (ai, b) _ _ _ _ _ _ _ Hc); auto.
    + destruct (IH {| m_areas := l'; m_stack := m_stack s; gc_stack_overflow := true |})
        as (s' & new & E & Hc); [by eapply marks_ok|].
      exists s', (new ++ []). split; [done|]. by refine (children_mark w ws s _ s' new [] (ai, b) _ _ _ _ _ _ _ Hc); auto.
  - destruct (IH s Hl) as (s' & new & E & Hc). exists s', new. split; [done|]. apply children_skip; [|done].
    intros y [Hy [Hh|Hh]]; rewrite Epb in Hy; injection Hy as <-; [by rewrite Ekd in Hh|].
    by apply (marks_marked _ _ _ (ch_marks _ _ _ _ Hc)).
Qed.

(** * Marking a subtree *)

Definition pending (x : nat * nat) (rest : list (nat * nat)) (y : nat * nat) : Prop := y = x \/ y ∈ rest.

(** What marking from [x], with [rest] on the stack, does. *)
Record subtree_ok (l l' : list mp_state_mem_area) (x : nat * nat) (rest : list (nat * nat)) (o o' : bool) : Prop := {
  st_marks : marks l l';
  st_closed : forall y, pending x rest y -> closed l' y;
  st_new : forall y, marked l' y -> marked l y \/ closed l' y \/ o' = true;
  st_reach : forall y, marked l' y -> marked l y \/ reach l (pending x rest) y;
  st_overflow : o = true -> o' = true;
  st_progress : o' = true -> o = true \/ (heads_left l' < heads_left l)%nat;
  st_count : (heads_left l' <= heads_left l)%nat;
}.

Definition in_heap (l : list mp_state_mem_area) (x : nat * nat) : Prop :=
  exists a, l !! x.1 = Some a /\ (x.2 < n_blocks_of a)%nat.

Lemma in_heap_head l x : heap_ok l -> is_head l x -> in_heap l x.
Proof.
  intros Hl Hh. unfold is_head, kdl in Hh. destruct (l !! x.1) as [a|] eqn:E; [|by destruct Hh].
  exists a. split; [done|]. destruct (Nat.lt_ge_cases x.2 (n_blocks_of a)) as [|Hge]; [done|].
  rewrite (ok_gap a (heap_areas l Hl _ a E) _ Hge) in Hh. by destruct Hh.
Qed.

Lemma marks_in_heap l l' x : marks l l' -> in_heap l x -> in_heap l' x.
Proof.
  intros [_ Hm] (a & E & Hb). destruct (Hm _ a E) as (a' & E' & Ha). exists a'. split; [done|].
  by rewrite (am_same _ _ Ha).
Qed.

Lemma gc_mark_loop_spec fuel : forall l x rest o,
  heap_ok l -> in_heap l x -> (forall y, y ∈ rest -> in_heap l y) ->
  (heads_left l + length rest < fuel)%nat ->
  exists s', gc_mark_loop fuel x.1 x.2 {| m_areas := l; m_stack := rest; gc_stack_overflow := o |} = Some s' /\
    subtree_ok l (m_areas s') x rest o (gc_stack_overflow s').
Proof.
  induction fuel as [|fuel IH]; intros l x rest o Hl Hx Hrest Hf; [lia|]. cbn [gc_mark_loop m_areas].
  destruct Hx as (a & Ea & Hb). pose proof (heap_areas l Hl _ a Ea) as Ha. rewrite Ea. cbn [mbind option_bind].
  destruct (ok_chain a x.2 Ha Hb) as (n & En & Hch & Hle). rewrite En. cbn [mbind option_bind].
  rewrite (ok_end a Ha), (proj2 (Z.leb_le _ _)) by (unfold BYTES_PER_BLOCK; lia). cbn [negb].
  assert (words l x = block_words a x.2 n) as Ew by (unfold words; by rewrite Ea, En).
  destruct (mark_children_spec (block_words a x.2 n) {| m_areas := l; m_stack := rest; gc_stack_overflow := o |} Hl)
    as (s1 & new & -> & Hc). cbn [mbind option_bind].
  pose proof (ch_marks _ _ _ _ Hc) as Hm1. cbn [m_areas] in Hm1.
  assert (closed (m_areas s1) x) as Hx1.
  { intros y (w & Hw & Hp)%(marks_edge _ _ Hm1). rewrite Ew in Hw. by apply (ch_done _ _ _ _ Hc w). }
  assert (forall y, (exists w, w ∈ block_words a x.2 n /\ points l w y) -> reach l (pending x rest) y) as Hreach.
  { intros y (w & Hw & Hp). apply (reach_step l _ x); [apply reach_root; by left|]. exists w. by rewrite Ew. }
  destruct Hc as [_ Hst Hdone Honly Hnew Hov Hcount Hprog]. cbn [m_areas m_stack gc_stack_overflow] in *.
  destruct (m_stack s1) as [|[ta tb] st'] eqn:Es.
  - symmetry in Hst. apply app_eq_nil in Hst as [-> ->]. exists s1. split; [done|]. split; try done; try (cbn in Hcount; lia).
    + intros y [->|Hy]; [done|by apply not_elem_of_nil in Hy].
    + intros y Hy. destruct (Honly y Hy) as [?|[_ [Hn|?]]]; [by left|by apply not_elem_of_nil in Hn|by right; right].
    + intros y Hy. destruct (Honly y Hy) as [?|[Hw _]]; [by left|right; by apply Hreach].
  - assert (forall y, y ∈ new ++ rest -> in_heap (m_areas s1) y) as Hin.
    { intros y [Hy|Hy]%elem_of_app; apply (marks_in_heap l _ y Hm1).
      - destruct (Hnew y Hy) as (w & _ & _ & Hh). by apply in_heap_head.
      - by apply Hrest. }
    assert (length (new ++ rest) = S (length st')) as Elen by (by rewrite <- Hst).
    rewrite length_app in Elen. rewrite <- Hst in Hin.
    destruct (IH (m_areas s1) (ta, tb) st' (gc_stack_overflow s1)) as (s' & E & Hsub);
      [by eapply marks_ok|apply Hin; by apply list_elem_of_here|intros y Hy; apply Hin; by apply list_elem_of_further|lia|].
    exists s'. split; [exact E|]. destruct Hsub as [Hm2 Hcl Hnew2 Hr2 Hov2 Hprog2 Hcnt2].
    assert (forall y, y ∈ new ++ rest -> pending (ta, tb) st' y) as Hpend.
    { intros y Hy. rewrite <- Hst in Hy. by apply elem_of_cons in Hy. }
    assert (forall y, marked (m_areas s1) y -> marked l y \/ closed (m_areas s') y \/ gc_stack_overflow s' = true) as Hstep.
    { intros y Hy. destruct (Honly y Hy) as [?|[_ [Hn|?]]]; [by left| |by right; right; auto].
      right; left. apply Hcl, Hpend, elem_of_app. by left. }
    split.
    + by eapply marks_trans.
    + intros y [->|Hy]; [by apply (marks_closed _ _ Hm2)|]. apply Hcl, Hpend, elem_of_app. by right.
    + intros y Hy. destruct (Hnew2 y Hy) as [?|?]; [by apply Hstep|by right].
    + intros y Hy. destruct (Hr2 y Hy) as [Hy1|Hy1].
      * destruct (Honly y Hy1) as [?|[Hw _]]; [by left|right; by apply Hreach].
      * right. apply (marks_reach _ _ Hm1) in Hy1. eapply reach_mono; [|exact Hy1]. intros z Hz.
        assert (z ∈ new ++ rest) as [Hz'|Hz']%elem_of_app by (rewrite <- Hst; by apply elem_of_cons).
        -- apply Hreach. by apply Hnew.
        -- apply reach_root. by right.
    + auto.
    + intros Ho. destruct (Hprog2 Ho) as [Ho1|]; [|right; lia]. destruct (Hprog Ho1); [by left|right; lia].
    + lia.
Qed.

Lemma gc_mark_subtree_spec l x o : heap_ok l -> in_heap l x ->
  exists l' o', gc_mark_subtree x.1 x.2 l o = Some (l', o') /\ subtree_ok l l' x [] o o'.
Proof.
  intros Hl Hx. unfold gc_mark_subtree. pose proof (heads_left_le l).
  destruct (gc_mark_loop_spec (S (total_blocks l)) l x [] o Hl Hx) as (s' & -> & Hs); [|cbn; lia|].
  - intros y Hy. by apply not_elem_of_nil in Hy.
  - by eexists _, _.
Qed.

(** * Roots *)

Definition root (l : list mp_state_mem_area) (ptrs : list Z) (y : nat * nat) : Prop :=
  exists w, w ∈ ptrs /\ points l w y.

(** What tracing from the blocks in [P] does. *)
Record trace_ok (l l' : list mp_state_mem_area) (P : nat * nat -> Prop) (o o' : bool) : Prop := {
  tr_marks : marks l l';
  tr_new : forall y, marked l' y -> marked l y \/ closed l' y \/ o' = true;
  tr_reach : forall y, marked l' y -> marked l y \/ reach l P y;
  tr_overflow : o = true -> o' = true;
  tr_progress : o' = true -> o = true \/ (heads_left l' < heads_left l)%nat;
  tr_count : (heads_left l' <= heads_left l)%nat;
}.

Lemma trace_refl l P o : heap_ok l -> trace_ok l l P o o.
Proof. intros Hl. split; auto. by apply marks_refl. Qed.

Lemma trace_trans l1 l2 l3 (P Q : nat * nat -> Prop) o1 o2 o3 :
  (forall y, Q y -> reach l1 P y) -> trace_ok l1 l2 P o1 o2 -> trace_ok l2 l3 Q o2 o3 -> trace_ok l1 l3 P o1 o3.
Proof.
  intros HQ [M1 N1 R1 O1 P1 C1] [M2 N2 R2 O2 P2 C2]. split.
  - by eapply marks_trans.
  - intros y Hy. destruct (N2 y Hy) as [Hy2|?]; [|by right]. destruct (N1 y Hy2) as [?|[Hc|Ho]]; [by left| |].
    + right; left. by apply (marks_closed _ _ M2).
    + right; right. auto.
  - intros y Hy. destruct (R2 y Hy) as [Hy2|Hr]; [by apply R1|right].
    apply (marks_reach _ _ M1) in Hr. eapply reach_mono; [|exact Hr]. intros z Hz. by apply HQ.
  - auto.
  - intros Ho. destruct (P2 Ho) as [Ho2|]; [destruct (P1 Ho2); [by left|right; lia]|right; lia].
  - lia.
Qed.

Lemma subtree_trace l l' x o o' : subtree_ok l l' x [] o o' -> trace_ok l l' (fun y => y = x) o o'.
Proof.
  intros []. split; try done. intros y Hy. destruct (st_reach0 y Hy) as [?|Hr]; [by left|right].
  eapply reach_mono; [|exact Hr]. intros z [->|Hz]; [by apply reach_root|by apply not_elem_of_nil in Hz].
Qed.

Lemma trace_weaken l l' (P Q : nat * nat -> Prop) o o' :
  (forall y, P y -> reach l Q y) -> trace_ok l l' P o o' -> trace_ok l l' Q o o'.
Proof.
  intros HPQ []. split; try done. intros y Hy. destruct (tr_reach0 y Hy) as [?|Hr]; [by left|right].
  eapply reach_mono; [|exact Hr]. done.
Qed.

(** Marking a head and then its subtree. *)
Lemma mark_and_trace l l1 l2 x o o' : heap_ok l -> marks l l1 ->
  (forall y, kdl l1 y = if bool_decide (y = x) then AT_MARK else kdl l y) -> S (heads_left l1) = heads_left l ->
  subtree_ok l1 l2 x [] o o' -> trace_ok l l2 (fun y => y = x) o o' /\ marked l2 x.
Proof.
  intros Hl Hm Hk Hh Hs. pose proof (subtree_trace _ _ _ _ _ Hs) as [M N R O P C].
  assert (marked l1 x) as Hx by (unfold marked; rewrite Hk; by rewrite bool_decide_eq_true_2).
  assert (forall y, marked l1 y -> marked l y \/ y = x) as Hold.
  { intros y Hy. unfold marked in Hy. rewrite Hk in Hy. case_bool_decide; [by right|by left]. }
  split; [|by apply (marks_marked _ _ _ M)]. split.
  - by eapply marks_trans.
  - intros y Hy. destruct (N y Hy) as [Hy1|?]; [|by right]. destruct (Hold y Hy1) as [?| ->]; [by left|].
    right; left. apply (st_closed _ _ _ _ _ _ Hs). by left.
  - intros y Hy. destruct (R y Hy) as [Hy1|Hr].
    + destruct (Hold y Hy1) as [?| ->]; [by left|right; by apply reach_root].
    + right. by apply (marks_reach _ _ Hm) in Hr.
  - done.
  - intros Ho. destruct (P Ho); [by left|right; lia].
  - lia.
Qed.

Lemma collect_root_spec ptrs : forall l o, heap_ok l ->
  exists l' o', gc_collect_root ptrs l o = Some (l', o') /\ trace_ok l l' (root l ptrs) o o' /\
    forall y, root l ptrs y -> marked l' y.
Proof.
  induction ptrs as [|w ptrs IH]; intros l o Hl.
  { exists l, o. split; [done|]. split; [by apply trace_refl|]. intros y (w & Hw & _). by apply not_elem_of_nil in Hw. }
  cbn [gc_collect_root].
  assert (forall l1 o1 (Q : nat * nat -> Prop), trace_ok l l1 Q o o1 -> (forall y, Q y -> points l w y) ->
    (forall y, points l w y -> marked l1 y) ->
    exists l' o', gc_collect_root ptrs l1 o1 = Some (l', o') /\ trace_ok l l' (root l (w :: ptrs)) o o' /\
      forall y, root l (w :: ptrs) y -> marked l' y) as Hnext.
  { intros l1 o1 Q Ht HQ Hw. pose proof (tr_marks _ _ _ _ _ Ht) as Hm.
    destruct (IH l1 o1 (marks_ok _ _ Hl Hm)) as (l' & o' & -> & Ht' & Hr). exists l', o'. split; [done|]. split.
    - eapply trace_trans; [|eapply (trace_weaken l l1 Q); [|exact Ht]|exact Ht'].
      + intros y (v & Hv & Hp). apply reach_root. exists v. rewrite elem_of_cons. split; [by right|]. by apply (marks_points _ _ Hm).
      + intros y Hy. apply reach_root. exists w. rewrite elem_of_cons. split; [by left|by apply HQ].
    - intros y (v & [->|Hv]%elem_of_cons & Hp); [by apply (marks_marked _ _ _ (tr_marks _ _ _ _ _ Ht')), Hw|].
      apply Hr. exists v. split; [done|]. by apply (marks_points _ _ Hm). }
  destruct (gc_get_ptr_area l w) as [ai|] eqn:Ea.
  2: { apply (Hnext l o (fun _ => False)); [by apply trace_refl|done|].
       intros y [Hp _]. unfold ptr_block in Hp. by rewrite Ea in Hp. }
  destruct (ptr_area_inv _ _ _ Hl Ea) as (a & Eai & Ha & Hb & Hw). rewrite Eai. cbn [mbind option_bind].
  set (b := BLOCK_FROM_PTR a w) in *. rewrite (ok_kind a b Ha ltac:(lia)). cbn [mbind option_bind].
  assert (ptr_block l w = Some (ai, b)) as Epb by (unfold ptr_block; rewrite Ea; cbn; by rewrite Eai).
  assert (kdl l (ai, b) = kda a b) as Ekd by (unfold kdl; cbn; by rewrite Eai).
  destruct (Z.eqb_spec (kda a b) AT_HEAD) as [Ek|Ek].
  - destruct (mark_head_spec l ai a b Hl Eai Hb Ek) as (l1 & -> & Hm & Hk & Hh). cbn [mbind option_bind].
    assert (in_heap l1 (ai, b)) as Hin by (apply (marks_in_heap l); [done|by exists a]).
    destruct (gc_mark_subtree_spec l1 (ai, b) o (marks_ok _ _ Hl Hm) Hin) as (l2 & o2 & E2 & Hs).
    cbn [fst snd] in E2. rewrite E2. cbn [mbind option_bind].
    destruct (mark_and_trace l l1 l2 (ai, b) o o2 Hl Hm Hk Hh Hs) as [Ht Hx].
    apply (Hnext l2 o2 _ Ht); [intros y ->; split; [done|left; by rewrite Ekd]|].
    intros y [Hy _]. rewrite Epb in Hy. by injection Hy as <-.
  - apply (Hnext l o (fun _ => False)); [by apply trace_refl|done|].
    intros y [Hy [Hh|Hh]]; rewrite Epb in Hy; injection Hy as <-; [by rewrite Ekd in Hh|done].
Qed.

(** * The overflow of the stack *)

Lemma all_blocks_spec l x : x ∈ all_blocks l <-> in_heap l x.
Proof.
  unfold all_blocks, in_heap. rewrite list_elem_of_In, in_concat. split.
  - intros (bs & Hbs & Hx). apply list_elem_of_In, list_elem_of_lookup in Hbs as (ai & E). rewrite list_lookup_imap in E.
    destruct (l !! ai) as [a|] eqn:Ea; [|done]. injection E as <-.
    apply list_elem_of_In, list_elem_of_fmap in Hx as (b & -> & Hb%list_elem_of_In%in_seq). exists a. cbn. split; [done|lia].
  - intros (a & Ea & Hb). exists ((fun b => (x.1, b)) <$> seq 0 (n_blocks_of a)). split.
    + apply list_elem_of_In, list_elem_of_lookup. exists x.1. by rewrite list_lookup_imap, Ea.
    + apply list_elem_of_In, list_elem_of_fmap. exists x.2. split; [by destruct x|]. apply list_elem_of_In, in_seq. lia.
Qed.

Lemma trace_marked_spec (P : nat * nat -> Prop) blocks : forall l o, heap_ok l ->
  (forall x, x ∈ blocks -> in_heap l x) -> (forall y, marked l y -> reach l P y) ->
  exists l' o', trace_marked blocks l o = Some (l', o') /\ trace_ok l l' P o o' /\
    (forall y, marked l y -> y ∈ blocks -> closed l' y).
Proof.
  induction blocks as [|[ai b] blocks IH]; intros l o Hl Hin HP.
  { exists l, o. split; [done|]. split; [by apply trace_refl|]. intros y _ Hy. by apply not_elem_of_nil in Hy. }
  cbn [trace_marked]. destruct (Hin (ai, b) ltac:(apply list_elem_of_here)) as (a & Ea & Hb). cbn [fst snd] in Ea, Hb.
  assert (forall x, x ∈ blocks -> in_heap l x) as Hin' by (intros x Hx; apply Hin; by apply list_elem_of_further).
  assert (kdl l (ai, b) = kda a b) as Ekd by (unfold kdl; cbn; by rewrite Ea).
  unfold get_kind. rewrite Ea. cbn [mbind option_bind].
  rewrite (ok_kind a b (heap_areas l Hl _ _ Ea) ltac:(lia)). cbn [mbind option_bind].
  destruct (Z.eqb_spec (kda a b) AT_MARK) as [Ek|Ek].
  - destruct (gc_mark_subtree_spec l (ai, b) o Hl) as (l1 & o1 & E1 & Hs); [by exists a|].
    cbn [fst snd] in E1. rewrite E1. cbn [mbind option_bind]. pose proof (subtree_trace _ _ _ _ _ Hs) as Ht.
    pose proof (tr_marks _ _ _ _ _ Ht) as Hm.
    assert (reach l P (ai, b)) as Hab by (apply HP; unfold marked; by rewrite Ekd).
    assert (trace_ok l l1 P o o1) as Ht1 by (eapply trace_weaken; [|exact Ht]; by intros y ->).
    destruct (IH l1 o1 (marks_ok _ _ Hl Hm)) as (l' & o' & -> & Ht' & Hc).
    { intros x Hx. apply (marks_in_heap l); auto. }
    { intros y Hy. apply (marks_reach _ _ Hm). destruct (tr_reach _ _ _ _ _ Ht1 y Hy); auto. }
    exists l', o'. split; [done|]. split.
    + eapply trace_trans; [|exact Ht1|exact Ht']. intros y Hy. by apply reach_root.
    + intros y Hy [->|Hyb]%elem_of_cons; [|by apply Hc; [apply (marks_marked _ _ _ Hm)|]].
      apply (marks_closed _ _ (tr_marks _ _ _ _ _ Ht')). apply (st_closed _ _ _ _ _ _ Hs). by left.
  - destruct (IH l o Hl Hin' HP) as (l' & o' & -> & Ht & Hc). exists l', o'. split; [done|]. split; [done|].
    intros y Hy [->|Hyb]%elem_of_cons; [|by apply Hc]. unfold marked in Hy. by rewrite Ekd in Hy.
Qed.

(** Every block reachable from [P] is marked, and no other. *)
Definition marks_exactly (l : list mp_state_mem_area) (P : nat * nat -> Prop) : Prop :=
  forall y, marked l y <-> reach l P y.

Lemma closed_reach l (P : nat * nat -> Prop) : (forall y, P y -> marked l y) -> (forall y, marked l y -> closed l y) ->
  forall y, reach l P y -> marked l y.
Proof. intros HP Hc y. induction 1 as [y Hy|y z _ IH E]; [by apply HP|]. by apply (Hc y IH). Qed.

Lemma overflow_spec (P : nat * nat -> Prop) fuel : forall l (o : bool), heap_ok l ->
  (heads_left l + (if o then 1 else 0) < fuel)%nat ->
  (forall y, P y -> marked l y) -> (forall y, marked l y -> reach l P y) ->
  (o = false -> forall y, marked l y -> closed l y) ->
  exists l', deal_with_stack_overflow fuel l o = Some l' /\ marks l l' /\ marks_exactly l' P.
Proof.
  induction fuel as [|fuel IH]; intros l o Hl Hf HP HR Hc; [destruct o; lia|]. cbn [deal_with_stack_overflow].
  destruct o.
  - destruct (trace_marked_spec P (all_blocks l) l false Hl) as (l1 & o1 & -> & Ht & Hcl); [by intros x ?%all_blocks_spec|done|].
    cbn [mbind option_bind]. pose proof (tr_marks _ _ _ _ _ Ht) as Hm.
    assert (forall y, marked l1 y -> reach l1 P y) as HR1.
    { intros y Hy. apply (marks_reach _ _ Hm). destruct (tr_reach _ _ _ _ _ Ht y Hy); auto. }
    destruct (IH l1 o1 (marks_ok _ _ Hl Hm)) as (l' & -> & Hm' & He).
    + pose proof (tr_count _ _ _ _ _ Ht). destruct o1; [|lia]. destruct (tr_progress _ _ _ _ _ Ht eq_refl); [done|lia].
    + intros y Hy. apply (marks_marked _ _ _ Hm). auto.
    + done.
    + intros -> y Hy. destruct (tr_new _ _ _ _ _ Ht y Hy) as [Hy0|[?|?]]; [|done|done].
      apply Hcl; [done|]. apply all_blocks_spec, in_heap_head; [done|by right].
    + exists l'. split; [done|]. split; [|done]. by eapply marks_trans.
  - exists l. split; [done|]. split; [by apply marks_refl|]. intros y. split; [apply HR|].
    apply closed_reach; auto.
Qed.
