(* ===== verification/GcCollect.v ===== *)
(** Sweeping, and the whole collection of [Gc]: exactly the chains whose heads
    are reachable from the roots survive, with their contents. *)

From Stdlib Require Import ZArith Lia.
From stdpp Require Import base option list numbers.
From S2P Require Import Prelude Gc GcTable GcHeap GcMark.

(** * The sweep, as a function of the kinds *)

(** A block survives when the head of its chain is marked. *)
Fixpoint survives (k : nat -> Z) (b : nat) : bool :=
  (k b =? AT_MARK) || ((k b =? AT_TAIL) && match b with O => false | S b => survives k b end).

Definition swept (k : nat -> Z) (b : nat) : Z :=
  if survives k b then if k b =? AT_MARK then AT_HEAD else AT_TAIL else AT_FREE.

Lemma survives_mark k b : k b = AT_MARK -> survives k b = true.
Proof. intros E. destruct b; cbn; by rewrite E. Qed.

Lemma survives_free k b : k b = AT_FREE -> survives k b = false.
Proof. intros E. destruct b; cbn; by rewrite E. Qed.

Lemma survives_head k b : k b = AT_HEAD -> survives k b = false.
Proof. intros E. destruct b; cbn; by rewrite E. Qed.

Lemma survives_tail k b : k (S b) = AT_TAIL -> survives k (S b) = survives k b.
Proof. intros E. cbn. by rewrite E. Qed.

(** ** The loop over the blocks of an area *)

(** The state of the loop at [block]. *)
Record sweep_inv (k : nat -> Z) (t0 t : list Z) (block : nat) (free_tail : bool) (last_used : nat) : Prop := {
  sw_length : length t = length t0;
  sw_bytes : tbl_bytes t;
  sw_done : forall c, (c < block)%nat -> kd t c = swept k c;
  sw_left : forall c, (block <= c)%nat -> kd t c = k c;
  sw_tail : forall b, block = S b -> k b <> AT_FREE -> free_tail = negb (survives k b);
  sw_used : forall c, (c < block)%nat -> survives k c = true -> (c <= last_used)%nat;
}.

Section sweep.
Context (k : nat -> Z) (t0 : list Z).
Context (Hfirst : k 0%nat <> AT_TAIL) (Htails : forall b, k (S b) = AT_TAIL -> k b <> AT_FREE).

(** One block, whose new kind is [swept]. *)
Lemma sweep_step t t' block free_tail free_tail' lu lu' g :
  sweep_inv k t0 t block free_tail lu ->
  updated t t' block g -> g (k block) = swept k block ->
  (k block <> AT_FREE -> free_tail' = negb (survives k block)) ->
  (lu <= lu' \/ lu' = block)%nat -> (survives k block = true -> lu' = block) ->
  (forall c, (c < block)%nat -> survives k c = true -> (c <= lu')%nat) ->
  sweep_inv k t0 t' (S block) free_tail' lu'.
Proof.
  intros [] (L & B & K) Hg Hft _ Hlu Hold. split; [congruence|done|..].
  - intros c Hc. rewrite K. destruct (Nat.eqb_spec c block) as [->|]; [|apply sw_done0; lia].
    by rewrite sw_left0.
  - intros c Hc. rewrite K. destruct (Nat.eqb_spec c block) as [->|]; [lia|apply sw_left0; lia].
  - intros b [= <-]. done.
  - intros c Hc Hs. destruct (Nat.eq_dec c block) as [->|]; [by rewrite Hlu|]. apply Hold; [lia|done].
Qed.

(** A block left as it is. *)
Lemma updated_same t block g : tbl_bytes t -> g (kd t block) = kd t block -> updated t t block g.
Proof. intros Hb Hg. split; [done|]. split; [done|]. intros c. destruct (Nat.eqb_spec c block) as [->|]; done. Qed.

Lemma sweep_blocks_spec n : forall t block free_tail lu,
  sweep_inv k t0 t block free_tail lu -> (lu <= block)%nat -> (block + n <= length t0 * BLOCKS_PER_ATB)%nat ->
  exists t' ft' lu', sweep_blocks n t block free_tail lu = Some (t', ft', lu') /\
    sweep_inv k t0 t' (block + n) ft' lu'.
Proof.
  induction n as [|n IH]; intros t block ft lu Hi Hlu Hn.
  { exists t, ft, lu. split; [done|]. by rewrite Nat.add_0_r. }
  cbn [sweep_blocks]. pose proof Hi as [L B D Lf T U].
  assert (block < length t * BLOCKS_PER_ATB)%nat as Hb by (rewrite L; lia).
  rewrite get_kind_kd by done. cbn [mbind option_bind]. rewrite Lf by done.
  assert (forall t1 ft1 lu1, sweep_inv k t0 t1 (S block) ft1 lu1 -> (lu1 <= S block)%nat ->
    exists t' ft' lu', sweep_blocks n t1 (S block) ft1 lu1 = Some (t', ft', lu') /\
      sweep_inv k t0 t' (block + S n) ft' lu') as Hnext.
  { intros t1 ft1 lu1 H1 H2. rewrite <- Nat.add_succ_comm. apply IH; try done; lia. }
  assert (kd t block = k block) as Ek by (by apply Lf).
  destruct (Z.eqb_spec (k block) AT_MARK) as [Em|Em].
  { destruct (mark_to_head_spec t block B Hb) as (t' & -> & Hu). cbn [mbind option_bind]. apply Hnext; [|lia].
    eapply (sweep_step t t' block ft false lu block); [done|exact Hu|..]; rewrite ?(survives_mark k block Em); try done.
    - unfold swept. by rewrite (survives_mark k block Em), Em.
    - by right.
    - intros c Hc _. lia. }
  destruct (Z.eqb_spec (k block) AT_HEAD) as [Eh|Eh]; cbn [orb].
  { destruct (any_to_free_spec t block B Hb) as (t' & -> & Hu). cbn [mbind option_bind]. apply Hnext; [|lia].
    eapply (sweep_step t t' block ft true lu lu); [done|exact Hu|..]; rewrite ?(survives_head k block Eh); try done.
    - unfold swept. by rewrite (survives_head k block Eh).
    - by left. }
  destruct (Z.eqb_spec (k block) AT_TAIL) as [Et|Et].
  - destruct block as [|b]; [done|]. pose proof (survives_tail k b Et) as Es.
    specialize (T b eq_refl (Htails b Et)). destruct ft.
    + assert (survives k (S b) = false) as Hs by (rewrite Es; by destruct (survives k b)).
      destruct (any_to_free_spec t (S b) B Hb) as (t' & -> & Hu). cbn [mbind option_bind]. apply Hnext; [|lia].
      eapply (sweep_step t t' (S b) true true lu lu); [done|exact Hu|..]; rewrite ?Hs; try done.
      * unfold swept. by rewrite Hs.
      * by left.
    + assert (survives k (S b) = true) as Hs by (rewrite Es; by destruct (survives k b)).
      apply Hnext; [|lia].
      eapply (sweep_step t t (S b) false false lu (S b)); [done|by apply (updated_same t (S b) id)|..]; rewrite ?Hs; try done.
      * unfold swept. by rewrite Hs, Et.
      * by right.
      * intros c Hc _. lia.
  - assert (k block = AT_FREE) as Ef.
    { pose proof (kd_cases t block). rewrite Ek in *. intuition congruence. }
    apply Hnext; [|lia]. pose proof (survives_free k block Ef) as Hs.
    eapply (sweep_step t t block ft ft lu lu); [done|by apply (updated_same t block id)|..]; rewrite ?Hs; try done.
    + unfold swept. by rewrite Hs, Ef.
    + by left.
Qed.
End sweep.

(** ** The areas *)

Record area_swept (a a' : mp_state_mem_area) : Prop := {
  as_same : a' = set_last_used (set_table a (gc_alloc_table a')) (gc_last_used_block a');
  as_length : length (gc_alloc_table a') = length (gc_alloc_table a);
  as_bytes : tbl_bytes (gc_alloc_table a');
  as_kind : forall b, kda a' b = swept (kda a) b;
  as_used : forall b, (gc_last_used_block a' < b)%nat -> kda a' b = AT_FREE;
}.

Lemma sweep_area a ft : area_ok a ->
  let end_block := if (gc_last_used_block a <? n_blocks_of a)%nat then S (gc_last_used_block a) else n_blocks_of a in
  exists t ft' lu, sweep_blocks end_block (gc_alloc_table a) 0 ft 0 = Some (t, ft', lu) /\
    area_swept a (set_last_used (set_table a t) lu).
Proof.
  intros Ha. cbn zeta. set (e := if (gc_last_used_block a <? n_blocks_of a)%nat then S (gc_last_used_block a) else n_blocks_of a).
  assert (forall b, (e <= b)%nat -> kda a b = AT_FREE) as Hend.
  { intros b. unfold e. destruct (Nat.ltb_spec (gc_last_used_block a) (n_blocks_of a)).
    - intros. apply (ok_used a Ha). lia.
    - intros. by apply (ok_gap a Ha). }
  assert (e <= n_blocks_of a)%nat as He by (unfold e; destruct (Nat.ltb_spec (gc_last_used_block a) (n_blocks_of a)); lia).
  destruct (sweep_blocks_spec (kda a) (gc_alloc_table a) (ok_first a Ha) (ok_tails a Ha) e (gc_alloc_table a) 0 ft 0)
    as (t & ft' & lu & E & [L B D Lf _ U]).
  - split; try done; [by apply ok_bytes|lia|lia].
  - done.
  - pose proof (ok_in_table a (n_blocks_of a) Ha ltac:(lia)). lia.
  - exists t, ft', lu. split; [done|]. cbn [Nat.add] in D, Lf, U.
    assert (forall b, kd t b = swept (kda a) b) as Hk.
    { intros b. destruct (Nat.lt_ge_cases b e) as [Hb|Hb]; [by apply D|]. rewrite Lf by done.
      unfold swept. by rewrite (survives_free _ _ (Hend b Hb)), Hend. }
    split; try done. intros b Hb. cbn in Hb |- *. rewrite Hk. unfold swept. destruct (survives (kda a) b) eqn:Es; [|done].
    assert (b < e)%nat as Hbe.
    { destruct (Nat.lt_ge_cases b e) as [|Hge]; [done|]. by rewrite (survives_free _ _ (Hend b Hge)) in Es. }
    pose proof (U b Hbe Es). lia.
Qed.

Lemma gc_sweep_spec l : forall ft, Forall area_ok l -> exists l', gc_sweep l ft = Some l' /\ Forall2 area_swept l l'.
Proof.
  induction l as [|a l IH]; intros ft Hl; [by exists []|]. apply Forall_cons_1 in Hl as [Ha Hl]. cbn [gc_sweep].
  destruct (sweep_area a ft Ha) as (t & ft' & lu & -> & Hs). cbn [mbind option_bind].
  destruct (IH ft' Hl) as (l' & -> & Hl'). cbn [mbind option_bind]. eexists. split; [done|]. by constructor.
Qed.

(** ** Kinds after the sweep *)

Lemma swept_head k b : swept k b = AT_HEAD <-> k b = AT_MARK.
Proof.
  unfold swept. destruct (Z.eqb_spec (k b) AT_MARK) as [E|E].
  - by rewrite (survives_mark k b E).
  - destruct (survives k b); split; done.
Qed.

Lemma swept_tail k b : swept k (S b) = AT_TAIL <-> k (S b) = AT_TAIL /\ swept k b <> AT_FREE.
Proof.
  unfold swept at 1. destruct (Z.eqb_spec (k (S b)) AT_MARK) as [E|E].
  - rewrite (survives_mark k (S b) E), E. split; [done|by intros [? _]].
  - destruct (Z.eq_dec (k (S b)) AT_TAIL) as [Et|Et].
    + rewrite (survives_tail k b Et). unfold swept. destruct (survives k b), (k b =? AT_MARK); intuition done.
    + assert (survives k (S b) = false) as ->; [|split; [done|by intros [? _]]].
      cbn. by rewrite (proj2 (Z.eqb_neq _ _) E), (proj2 (Z.eqb_neq _ _) Et).
Qed.

Lemma swept_not_mark k b : swept k b <> AT_MARK.
Proof. unfold swept. destruct (survives k b), (k b =? AT_MARK); done. Qed.

Lemma area_swept_ok a a' : area_ok a -> area_swept a a' -> area_ok (set_last_free a' 0).
Proof.
  intros Ha [E L B K U].
  assert (n_blocks_of a' = n_blocks_of a /\ gc_pool_start a' = gc_pool_start a /\ gc_pool_end a' = gc_pool_end a /\
    pool a' = pool a /\ gc_alloc_table_byte_len a' = gc_alloc_table_byte_len a) as (E1 & E2 & E3 & E4 & E5).
  { rewrite E. by split_and!. }
  assert (n_blocks_of (set_last_free a' 0) = n_blocks_of a') as E6 by done.
  destruct Ha as [Hta _ Hgap Hfirst _ _ _ Hst Hen Hpo]. split; cbn [gc_alloc_table gc_alloc_table_byte_len gc_pool_start gc_pool_end gc_last_free_atb_index
    gc_last_used_block pool set_last_free]; rewrite ?E6, ?E1, ?E2, ?E3, ?E4, ?E5, ?L; try done.
  - intros b Hb. rewrite K. unfold swept. by rewrite (survives_free _ _ (Hgap b Hb)).
  - rewrite K. unfold swept. cbn. destruct (Z.eqb_spec (kda a 0) AT_MARK), (Z.eqb_spec (kda a 0) AT_TAIL); done.
  - intros b. rewrite !K. by intros [_ ?]%swept_tail.
  - intros b Hb. lia.
Qed.

(** * The collection *)

Definition no_marks (l : list mp_state_mem_area) : Prop := forall x, kdl l x <> AT_MARK.

(** What a collection with the roots [P] leaves: exactly the reachable chains,
    and every pool as it was. *)
Record collected (P : nat * nat -> Prop) (l l' : list mp_state_mem_area) : Prop := {
  co_length : length l' = length l;
  co_heads : forall x, kdl l' x = AT_HEAD <-> reach l P x;
  co_tails : forall ai b, kdl l' (ai, S b) = AT_TAIL <-> kdl l (ai, S b) = AT_TAIL /\ kdl l' (ai, b) <> AT_FREE;
  co_pools : forall ai a, l !! ai = Some a -> exists a', l' !! ai = Some a' /\ pool a' = pool a /\
    gc_pool_start a' = gc_pool_start a /\ gc_pool_end a' = gc_pool_end a /\
    gc_alloc_table_byte_len a' = gc_alloc_table_byte_len a /\ gc_last_free_atb_index a' = 0%nat;
}.

Definition reset_last_free (l : list mp_state_mem_area) : list mp_state_mem_area :=
  (fun a => set_last_free a 0) <$> l.

Lemma swept_kdl l l' x : Forall2 area_swept l l' -> kdl (reset_last_free l') x = swept (fun b => kdl l (x.1, b)) x.2.
Proof.
  intros Hs. unfold kdl, reset_last_free. rewrite list_lookup_fmap. cbn [fst snd].
  destruct (l !! x.1) as [a|] eqn:E.
  - destruct (Forall2_lookup_l _ _ _ _ _ Hs E) as (a' & -> & Ha). cbn. apply (as_kind _ _ Ha).
  - apply lookup_ge_None in E. rewrite (Forall2_length Hs) in E. rewrite (proj2 (lookup_ge_None l' x.1)) by done.
    cbn. unfold swept. by rewrite survives_free.
Qed.

Lemma sweep_heap l l' : heap_ok l -> Forall2 area_swept l l' -> heap_ok (reset_last_free l') /\ no_marks (reset_last_free l').
Proof.
  intros Hl Hs. split; [split|].
  - intros ai a E. unfold reset_last_free in E. rewrite list_lookup_fmap in E.
    destruct (l' !! ai) as [a'|] eqn:E'; [|done]. injection E as <-.
    destruct (Forall2_lookup_r _ _ _ _ _ Hs E') as (a0 & E0 & Ha). eapply area_swept_ok; [|done]. by apply (heap_areas l Hl ai).
  - intros i j a a' E E' Hne. unfold reset_last_free in E, E'. rewrite list_lookup_fmap in E, E'.
    destruct (l' !! i) as [b|] eqn:Eb; [|done]. destruct (l' !! j) as [b'|] eqn:Eb'; [|done]. injection E as <-. injection E' as <-.
    destruct (Forall2_lookup_r _ _ _ _ _ Hs Eb) as (c & Ec & [Hc _ _ _ _]).
    destruct (Forall2_lookup_r _ _ _ _ _ Hs Eb') as (c' & Ec' & [Hc' _ _ _ _]).
    rewrite Hc, Hc'. exact (heap_apart l Hl i j c c' Ec Ec' Hne).
  - intros x. rewrite (swept_kdl l) by done. apply swept_not_mark.
Qed.

Lemma heap_forall l : heap_ok l -> Forall area_ok l.
Proof. intros Hl. apply Forall_lookup. intros i a. by apply (heap_areas l Hl). Qed.

Lemma root_app l ptrs ptrs' y : root l (ptrs ++ ptrs') y <-> root l ptrs y \/ root l ptrs' y.
Proof. unfold root. setoid_rewrite elem_of_app. firstorder. Qed.

(** Marking, from any state and stack roots. *)
Lemma mark_phase l state_roots stack_roots : heap_ok l -> no_marks l ->
  exists l1 o1 l2 o2 l3, gc_collect_root state_roots l false = Some (l1, o1) /\
    gc_collect_root stack_roots l1 o1 = Some (l2, o2) /\ gc_deal_with_stack_overflow l2 o2 = Some l3 /\
    marks l l3 /\ marks_exactly l3 (root l (state_roots ++ stack_roots)).
Proof.
  intros Hl Hno. set (P := root l (state_roots ++ stack_roots)).
  destruct (collect_root_spec state_roots l false Hl) as (l1 & o1 & E1 & Ht1 & Hr1).
  pose proof (tr_marks _ _ _ _ _ Ht1) as Hm1. pose proof (marks_ok _ _ Hl Hm1) as Hl1.
  destruct (collect_root_spec stack_roots l1 o1 Hl1) as (l2 & o2 & E2 & Ht2 & Hr2).
  pose proof (tr_marks _ _ _ _ _ Ht2) as Hm2. pose proof (marks_ok _ _ Hl1 Hm2) as Hl2.
  pose proof (marks_trans _ _ _ Hm1 Hm2) as Hm.
  assert (trace_ok l l2 P false o2) as Ht.
  { eapply trace_trans; [|eapply trace_weaken; [|exact Ht1]|exact Ht2].
    - intros y (w & Hw & Hp). apply reach_root, root_app. right. exists w. split; [done|]. by apply (marks_points _ _ Hm1).
    - intros y Hy. apply reach_root, root_app. by left. }
  destruct (overflow_spec P (S (S (total_blocks l2))) l2 o2 Hl2) as (l3 & E3 & Hm3 & He).
  - pose proof (heads_left_le l2). destruct o2; lia.
  - intros y [Hy|(w & Hw & Hp)]%root_app; [apply (marks_marked _ _ _ Hm2); auto|].
    apply Hr2. exists w. split; [done|]. by apply (marks_points _ _ Hm1).
  - intros y Hy. apply (marks_reach _ _ Hm). destruct (tr_reach _ _ _ _ _ Ht y Hy) as [Hn|]; [by destruct (Hno y)|done].
  - intros -> y Hy. destruct (tr_new _ _ _ _ _ Ht y Hy) as [Hn|[?|?]]; [by destruct (Hno y)|done|done].
  - exists l1, o1, l2, o2, l3. split_and!; try done. by eapply marks_trans.
Qed.

(** The end of a collection, after the marks of the roots. *)
Lemma sweep_phase l l3 P : heap_ok l -> marks l l3 -> marks_exactly l3 P -> no_marks l ->
  exists l4, gc_sweep l3 false = Some l4 /\ heap_ok (reset_last_free l4) /\ no_marks (reset_last_free l4) /\
    collected P l (reset_last_free l4).
Proof.
  intros Hl Hm He Hno. pose proof (marks_ok _ _ Hl Hm) as Hl3.
  destruct (gc_sweep_spec l3 false (heap_forall l3 Hl3)) as (l4 & E4 & Hs). exists l4. split; [done|].
  destruct (sweep_heap l3 l4 Hl3 Hs) as [Hok Hno']. split; [done|]. split; [done|].
  pose proof (swept_kdl l3 l4) as Hk. split.
  - unfold reset_last_free. rewrite length_fmap, <- (Forall2_length Hs). apply Hm.
  - intros x. rewrite Hk, swept_head by done. replace (x.1, x.2) with x by (by destruct x).
    rewrite <- (marks_reach _ _ Hm). apply He.
  - intros ai b. rewrite !Hk by done. cbn [fst snd]. rewrite swept_tail.
    assert (kdl l3 (ai, S b) = AT_TAIL <-> kdl l (ai, S b) = AT_TAIL) as ->; [|done].
    destruct (marks_kind _ _ (ai, S b) Hm) as [->|[-> ->]]; done.
  - intros ai a E. destruct Hm as [_ Hm]. destruct (Hm ai a E) as (a3 & E3 & H3).
    destruct (Forall2_lookup_l _ _ _ _ _ Hs E3) as (a4 & E4' & H4). exists (set_last_free a4 0).
    unfold reset_last_free. rewrite list_lookup_fmap, E4'. split; [done|].
    rewrite (as_same _ _ H4), (am_same _ _ H3). by split_and!.
Qed.

(** ** The state of the allocator *)

Record mem_ok (m : mp_state_mem) : Prop := {
  mem_heap : heap_ok (areas m);
  mem_marks : no_marks (areas m);
  mem_area : (gc_last_free_area m < length (areas m))%nat;
  mem_full : forall ai a b, (ai < gc_last_free_area m)%nat -> areas m !! ai = Some a -> (b < n_blocks_of a)%nat ->
    kda a b <> AT_FREE;
}.

Lemma gc_collect_ok m state_roots stack_roots : mem_ok m ->
  exists m', gc_collect m state_roots stack_roots = Some m' /\ mem_ok m' /\
    collected (root (areas m) (state_roots ++ stack_roots)) (areas m) (areas m') /\
    gc_lock_depth m' = gc_lock_depth m /\ gc_auto_collect_enabled m' = gc_auto_collect_enabled m.
Proof.
  intros [Hl Hno Ha _]. unfold gc_collect, gc_collect_start. cbn [areas with_alloc_amount with_lock_depth].
  destruct (mark_phase (areas m) state_roots stack_roots Hl Hno) as (l1 & o1 & l2 & o2 & l3 & -> & E2 & E3 & Hm & He).
  cbn [mbind option_bind areas with_areas]. rewrite E2. cbn [mbind option_bind]. unfold gc_collect_end.
  cbn [areas with_areas]. rewrite E3. cbn [mbind option_bind].
  destruct (sweep_phase (areas m) l3 _ Hl Hm He Hno) as (l4 & -> & Hok & Hno4 & Hc). cbn [mbind option_bind].
  eexists. split; [done|]. split; [|split; [exact Hc|split; [cbn; lia|done]]]. split; try done.
  - cbn. change ((fun a => set_last_free a 0) <$> l4) with (reset_last_free l4). rewrite (co_length _ _ _ Hc). lia.
  - intros ai a b L. cbn in L. lia.
Qed.
