(* ===== verification/GcAlloc.v ===== *)
(** Allocating with [Gc]: the search finds the first run of free blocks from
    where it may start, fails only when no area has such a run, and what is
    allocated was free and is cleared. *)

From Stdlib Require Import ZArith Lia.
From stdpp Require Import base option list numbers.
From S2P Require Import Prelude Gc GcTable GcHeap GcMark GcCollect.

(** * Runs of free blocks *)

Definition free_run (k : nat -> Z) (s n : nat) : Prop := forall j, (s <= j < s + n)%nat -> k j = AT_FREE.

(** The search of [gc_alloc], block by block. *)
Fixpoint scan_kinds (n : nat) (k : nat -> Z) (block n_free n_blocks : nat) : option (nat * nat) :=
  match n with
  | O => None
  | S n =>
      if k block =? AT_FREE then
        if (n_blocks <=? S n_free)%nat then Some (block, S n_free) else scan_kinds n k (S block) (S n_free) n_blocks
      else scan_kinds n k (S block) 0 n_blocks
  end.

Lemma byte_kinds t i a j : t !! i = Some a -> (j < 4)%nat -> byte_kind a j = kd t (i * BLOCKS_PER_ATB + j).
Proof.
  intros E Hj. unfold kd, ATB_GET_KIND, BLOCKS_PER_ATB.
  rewrite Nat.div_add_l, (Nat.div_small j 4), Nat.add_0_r, E by done. cbn [mbind option_bind default].
  rewrite (byte_kind_mod a (i * 4 + j)). unfold BLOCKS_PER_ATB.
  by rewrite (Nat.add_comm (i * 4)), Nat.Div0.mod_add, (Nat.mod_small j 4).
Qed.

(** The search, byte by byte, is the search block by block. *)
Lemma scan_table_kinds n : forall t i n_free n_blocks, tbl_bytes t -> (i + n <= length t)%nat ->
  scan_table n t i n_free n_blocks = Some (scan_kinds (n * 4) (kd t) (i * BLOCKS_PER_ATB) n_free n_blocks).
Proof.
  induction n as [|n IH]; intros t i nf nb Ht Hi; [done|]. cbn [scan_table].
  destruct (lookup_lt_is_Some_2 t i ltac:(lia)) as [a Ea]. rewrite Ea. cbn [mbind option_bind].
  pose proof (Forall_lookup_1 _ _ _ _ Ht Ea) as Ha.
  change (S n * 4)%nat with (S (S (S (S (n * 4))))). cbn [scan_kinds ATB_MASKS scan_masks].
  rewrite (mask_kind 0 0x03 a eq_refl Ha), (mask_kind 1 0x0c a eq_refl Ha), (mask_kind 2 0x30 a eq_refl Ha),
    (mask_kind 3 0xc0 a eq_refl Ha).
  rewrite !(byte_kinds t i a) by (done || lia). rewrite Nat.add_0_r.
  replace (S (S (S (S (i * BLOCKS_PER_ATB))))) with (S i * BLOCKS_PER_ATB)%nat by (unfold BLOCKS_PER_ATB; lia).
  replace (i * BLOCKS_PER_ATB + 1)%nat with (S (i * BLOCKS_PER_ATB)) by lia.
  replace (i * BLOCKS_PER_ATB + 2)%nat with (S (S (i * BLOCKS_PER_ATB))) by lia.
  replace (i * BLOCKS_PER_ATB + 3)%nat with (S (S (S (i * BLOCKS_PER_ATB)))) by lia.
  repeat (match goal with |- context [if ?b then _ else _] => destruct b end; try done); by apply IH; [|lia].
Qed.

(** What the search finds from [lo] on. *)
Lemma scan_kinds_spec n k lo n_blocks : forall block n_free,
  (n_free < n_blocks)%nat -> (lo + n_free <= block)%nat ->
  free_run k (block - n_free) n_free ->
  ((block = lo + n_free)%nat \/ (exists c, block = S c + n_free)%nat /\ k (block - S n_free)%nat <> AT_FREE) ->
  (forall s, (lo <= s)%nat -> (s + n_blocks <= block)%nat -> ~ free_run k s n_blocks) ->
  match scan_kinds n k block n_free n_blocks with
  | Some (e, nf) => nf = n_blocks /\ (lo + n_blocks <= S e)%nat /\ (e < block + n)%nat /\
      free_run k (S e - n_blocks) n_blocks /\
      forall s, (lo <= s)%nat -> (s + n_blocks <= e)%nat -> ~ free_run k s n_blocks
  | None => forall s, (lo <= s)%nat -> (s + n_blocks <= block + n)%nat -> ~ free_run k s n_blocks
  end.
Proof.
  induction n as [|n IH]; intros block nf Hnf Hlo Hrun Hmax Hnone.
  { cbn [scan_kinds]. intros s H1 H2. apply Hnone; lia. }
  cbn [scan_kinds]. destruct (Z.eqb_spec (k block) AT_FREE) as [Ef|Ef].
  - assert (free_run k (block - nf) (S nf)) as Hrun'.
    { intros j Hj. destruct (Nat.eq_dec j block) as [->|]; [done|]. apply Hrun. lia. }
    destruct (Nat.leb_spec n_blocks (S nf)) as [L|L].
    + assert (n_blocks = S nf) as -> by lia. split_and!; [done|lia|lia| |exact Hnone].
      by replace (S block - S nf)%nat with (block - nf)%nat by lia.
    + specialize (IH (S block) (S nf) L ltac:(lia)).
      replace (S block - S nf)%nat with (block - nf)%nat in IH by lia.
      replace (S block - S (S nf))%nat with (block - S nf)%nat in IH by lia.
      replace (S block + n)%nat with (block + S n)%nat in IH by lia.
      apply IH; [done| |].
      * destruct Hmax as [Hm|[(c & Hc) Hm]]; [left; lia|right; split; [|done]]. exists c. lia.
      * intros s H1 H2 Hs. destruct (Nat.lt_ge_cases (s + n_blocks) (S block)) as [Lt|Ge]; [by apply (Hnone s); [done|lia|]|].
        destruct Hmax as [Hm|[_ Hm]]; [lia|]. apply Hm, Hs. lia.
  - specialize (IH (S block) 0%nat ltac:(lia) ltac:(lia)).
    replace (S block + n)%nat with (block + S n)%nat in IH by lia. apply IH.
    + intros j Hj. lia.
    + right. split; [exists block; lia|]. by replace (S block - 1)%nat with block by lia.
    + intros s H1 H2 Hs. destruct (Nat.lt_ge_cases (s + n_blocks) (S block)) as [Lt|Ge]; [by apply (Hnone s); [done|lia|]|].
      apply Ef, Hs. lia.
Qed.

(** ** An area *)

Lemma last_free_le a : area_ok a -> (gc_last_free_atb_index a <= gc_alloc_table_byte_len a)%nat.
Proof.
  intros Ha. destruct (Nat.lt_ge_cases (gc_alloc_table_byte_len a) (gc_last_free_atb_index a)) as [L|]; [|done].
  destruct (ok_last_free a Ha (n_blocks_of a)); [unfold n_blocks_of, BLOCKS_PER_ATB; lia|]. by apply (ok_gap a Ha).
Qed.

(** No run starts before the place where the search does. *)
Lemma area_search a n_blocks : area_ok a -> (0 < n_blocks)%nat ->
  exists r, scan_table (gc_alloc_table_byte_len a - gc_last_free_atb_index a) (gc_alloc_table a)
      (gc_last_free_atb_index a) 0 n_blocks = Some r /\
    match r with
    | Some (e, nf) => nf = n_blocks /\ (n_blocks <= S e)%nat /\ (e < n_blocks_of a)%nat /\
        free_run (kda a) (S e - n_blocks) n_blocks /\
        forall s, (s + n_blocks <= e)%nat -> ~ free_run (kda a) s n_blocks
    | None => forall s, (s + n_blocks <= n_blocks_of a)%nat -> ~ free_run (kda a) s n_blocks
    end.
Proof.
  intros Ha Hn. pose proof (last_free_le a Ha) as Hle.
  rewrite scan_table_kinds; [|by apply ok_bytes|rewrite (ok_table a Ha); lia]. eexists. split; [done|].
  set (lo := (gc_last_free_atb_index a * BLOCKS_PER_ATB)%nat).
  assert (forall s, (s < lo)%nat -> ~ free_run (kda a) s n_blocks) as Hlow.
  { intros s Hs Hr. apply (ok_last_free a Ha s Hs). apply Hr. lia. }
  pose proof (scan_kinds_spec ((gc_alloc_table_byte_len a - gc_last_free_atb_index a) * 4) (kda a) lo n_blocks lo 0
    Hn ltac:(lia) ltac:(intros j Hj; lia) ltac:(left; lia) ltac:(intros s H1 H2; lia)) as Hs.
  assert (lo + (gc_alloc_table_byte_len a - gc_last_free_atb_index a) * 4 = n_blocks_of a)%nat as En.
  { unfold lo, n_blocks_of, BLOCKS_PER_ATB. lia. }
  rewrite En in Hs. destruct (scan_kinds _ _ _ _ _) as [[e nf]|].
  - destruct Hs as (E & H1 & H2 & H3 & H4). split_and!; [done|lia|lia|done|].
    intros s Hse. destruct (Nat.lt_ge_cases s lo); [by apply Hlow|by apply H4].
  - intros s Hse. destruct (Nat.lt_ge_cases s lo); [by apply Hlow|by apply Hs].
Qed.

(** * The areas searched *)

(** The same areas, but for where the next search starts. *)
Definition area_alike (a a' : mp_state_mem_area) : Prop :=
  area_ok a' /\ a' = set_last_free a (gc_last_free_atb_index a').

Definition alike (l l' : list mp_state_mem_area) : Prop := Forall2 area_alike l l'.

Lemma area_alike_refl a : area_ok a -> area_alike a a.
Proof. intros Ha. split; [done|by destruct a]. Qed.

Lemma alike_refl l : Forall area_ok l -> alike l l.
Proof. induction 1; constructor; [by apply area_alike_refl|done]. Qed.

Lemma alike_kdl l l' x : alike l l' -> kdl l' x = kdl l x.
Proof.
  intros Hl. unfold kdl. destruct (l !! x.1) as [a|] eqn:E.
  - destruct (Forall2_lookup_l _ _ _ _ _ Hl E) as (a' & -> & _ & Ea). by rewrite Ea.
  - apply lookup_ge_None in E. rewrite (Forall2_length Hl) in E. by rewrite (proj2 (lookup_ge_None l' x.1)).
Qed.

Lemma alike_heap l l' : heap_ok l -> alike l l' -> heap_ok l'.
Proof.
  intros Hl Ha. split.
  - intros ai a E. by destruct (Forall2_lookup_r _ _ _ _ _ Ha E) as (a0 & _ & ? & _).
  - intros i j a a' E E' Hne. destruct (Forall2_lookup_r _ _ _ _ _ Ha E) as (b & Eb & _ & Hb).
    destruct (Forall2_lookup_r _ _ _ _ _ Ha E') as (b' & Eb' & _ & Hb'). rewrite Hb, Hb'.
    exact (heap_apart l Hl i j b b' Eb Eb' Hne).
Qed.

(** An area without free blocks that the next search skips in part. *)
Lemma full_area_ok a : area_ok a -> (forall b, (b < n_blocks_of a)%nat -> kda a b <> AT_FREE) ->
  area_ok (set_last_free a ((Nat.max (gc_last_free_atb_index a) (gc_alloc_table_byte_len a) + 1) / BLOCKS_PER_ATB)).
Proof.
  intros Ha Hfull. pose proof (last_free_le a Ha) as Hle. destruct Ha. split; try done.
  cbn [gc_last_free_atb_index set_last_free gc_alloc_table]. intros b Hb. apply Hfull.
  rewrite Nat.max_r in Hb by done. unfold n_blocks_of, BLOCKS_PER_ATB in *.
  pose proof (Nat.Div0.mul_div_le (gc_alloc_table_byte_len a + 1) 4).
  destruct (gc_alloc_table_byte_len a) as [|len]; [|lia]. cbn in Hb. lia.
Qed.

(** The run found in area [ai]: the first of its length. *)
Record found_run (l : list mp_state_mem_area) (area n_blocks ai e : nat) : Prop := {
  fr_area : (area <= ai)%nat;
  fr_run : exists a, l !! (ai - area)%nat = Some a /\ (n_blocks <= S e)%nat /\ (e < n_blocks_of a)%nat /\
    free_run (kda a) (S e - n_blocks) n_blocks /\
    forall s, (s + n_blocks <= e)%nat -> ~ free_run (kda a) s n_blocks;
  fr_before : forall i a, (i < ai - area)%nat -> l !! i = Some a ->
    forall s, (s + n_blocks <= n_blocks_of a)%nat -> ~ free_run (kda a) s n_blocks;
}.

Lemma find_free_spec n_blocks l : forall area, (0 < n_blocks)%nat -> Forall area_ok l ->
  exists l' r, find_free l area n_blocks = Some (l', r) /\ alike l l' /\
    match r with
    | Some (ai, e, nf) => nf = n_blocks /\ found_run l area n_blocks ai e
    | None => forall i a, l !! i = Some a ->
        forall s, (s + n_blocks <= n_blocks_of a)%nat -> ~ free_run (kda a) s n_blocks
    end.
Proof.
  induction l as [|a l IH]; intros area Hn Hl.
  { exists [], None. split; [done|]. split; [constructor|done]. }
  apply Forall_cons_1 in Hl as [Ha Hl]. cbn [find_free].
  destruct (area_search a n_blocks Ha Hn) as (r & -> & Hr). cbn [mbind option_bind].
  destruct r as [[e nf]|].
  - destruct Hr as (-> & H1 & H2 & H3 & H4). exists (a :: l), (Some (area, e, n_blocks)). split; [done|].
    split; [constructor; [by apply area_alike_refl|by apply alike_refl]|]. split; [done|]. split; [lia| |].
    + exists a. rewrite Nat.sub_diag. by split_and!.
    + intros i b Hi. lia.
  - destruct (IH (S area) Hn Hl) as (l' & r & -> & Hal & Hr'). cbn [mbind option_bind]. eexists _, r. split; [done|].
    split.
    { constructor; [|done]. destruct (Nat.eqb_spec n_blocks 1) as [->|]; [|by apply area_alike_refl].
      split; [|done]. apply full_area_ok; [done|]. intros b Hb Hf. apply (Hr b); [lia|].
      intros j Hj. by replace j with b by lia. }
    destruct r as [[[ai e] nf]|].
    + destruct Hr' as (-> & [Hai (b & Eb & Hb) Hbef]). split; [done|]. split; [lia| |].
      * exists b. replace (ai - area)%nat with (S (ai - S area)) by lia. done.
      * intros [|i] c Hi Ec; [cbn in Ec; by simplify_eq|]. apply (Hbef i c); [lia|done].
    + intros [|i] c Ec; [cbn in Ec; by simplify_eq|]. by apply (Hr' i c).
Qed.

(** * Taking the run *)

Lemma make_tails_spec n : forall t bl, tbl_bytes t -> (bl + n <= length t * BLOCKS_PER_ATB)%nat ->
  free_run (kd t) bl n ->
  exists t', make_tails n t bl = Some t' /\ length t' = length t /\ tbl_bytes t' /\
    forall b, kd t' b = if bool_decide (bl <= b < bl + n)%nat then AT_TAIL else kd t b.
Proof.
  induction n as [|n IH]; intros t bl Ht Hl Hr.
  { exists t. split_and!; try done. intros b. rewrite bool_decide_eq_false_2; [done|lia]. }
  cbn [make_tails]. destruct (free_to_tail_spec t bl Ht ltac:(lia)) as (t1 & -> & L1 & B1 & K1). cbn [mbind option_bind].
  destruct (IH t1 (S bl) B1 ltac:(lia)) as (t' & -> & L' & B' & K').
  { intros j Hj. rewrite K1. destruct (Nat.eqb_spec j bl); [lia|]. apply Hr. lia. }
  exists t'. split; [done|]. split; [congruence|]. split; [done|]. intros b. rewrite K', K1.
  destruct (Nat.eqb_spec b bl) as [->|Hne].
  - rewrite bool_decide_eq_false_2 by lia. rewrite bool_decide_eq_true_2 by lia. by rewrite (Hr bl) by lia.
  - repeat case_bool_decide; try done; lia.
Qed.

(** The word [i] of the pool of area [ai]. *)
Definition word (l : list mp_state_mem_area) (ai i : nat) : option Z := a ← l !! ai; pool a !! i.

(** The kinds after the run of [n] blocks at [s] of area [ai] was taken. *)
Definition taken (k : nat * nat -> Z) (ai s n : nat) (x : nat * nat) : Z :=
  if bool_decide (x.1 = ai /\ (s <= x.2 < s + n)%nat) then if (x.2 =? s)%nat then AT_HEAD else AT_TAIL else k x.

(** Areas with the same bounds. *)
Definition same_bounds (a a' : mp_state_mem_area) : Prop :=
  gc_pool_start a' = gc_pool_start a /\ gc_pool_end a' = gc_pool_end a /\
  gc_alloc_table_byte_len a' = gc_alloc_table_byte_len a /\ length (pool a') = length (pool a).

(** The memory at [ptr] is a run of [n] blocks that was free, and is cleared;
    nothing else changes. *)
Record allocated (l l' : list mp_state_mem_area) (ptr : Z) (n : nat) (ai s : nat) : Prop := {
  al_run : exists a, l !! ai = Some a /\ ptr = PTR_FROM_BLOCK a s /\ (s + n <= n_blocks_of a)%nat /\
    free_run (kda a) s n;
  al_kinds : forall x, kdl l' x = taken (kdl l) ai s n x;
  al_words : forall aj i, word l' aj i =
    if bool_decide (aj = ai /\ (s * WORDS_PER_BLOCK <= i < (s + n) * WORDS_PER_BLOCK)%nat) then Some 0 else word l aj i;
  al_shape : forall aj a, l !! aj = Some a -> exists a', l' !! aj = Some a' /\ same_bounds a a';
}.

Lemma write_blocks_lookup a block ws i : (block * WORDS_PER_BLOCK + length ws <= length (pool a))%nat ->
  pool (write_blocks a block ws) !! i =
    if bool_decide (block * WORDS_PER_BLOCK <= i < block * WORDS_PER_BLOCK + length ws)%nat
    then ws !! (i - block * WORDS_PER_BLOCK)%nat else pool a !! i.
Proof.
  intros Hl. cbn [pool set_pool write_blocks]. set (p := (block * WORDS_PER_BLOCK)%nat) in *.
  assert (length (take p (pool a)) = p) as Ep by (rewrite length_take; lia).
  case_bool_decide as Hi.
  - rewrite lookup_app_r by lia. rewrite Ep. by rewrite lookup_app_l by lia.
  - destruct (Nat.lt_ge_cases i p) as [L|G].
    + rewrite lookup_app_l by lia. by apply lookup_take_lt.
    + rewrite lookup_app_r by lia. rewrite Ep, lookup_app_r by lia. rewrite lookup_drop. f_equal. lia.
Qed.

Lemma write_blocks_length a block ws : (block * WORDS_PER_BLOCK + length ws <= length (pool a))%nat ->
  length (pool (write_blocks a block ws)) = length (pool a).
Proof. intros Hl. cbn [pool set_pool write_blocks]. rewrite !length_app, length_take, length_drop. lia. Qed.

(** ** Replacing an area by one with the same bounds *)

Section replace.
Context (l : list mp_state_mem_area) (ai : nat) (a a' : mp_state_mem_area).
Context (Ea : l !! ai = Some a) (Hb : same_bounds a a').

Lemma replace_lookup aj b : <[ai := a']> l !! aj = Some b -> (aj = ai /\ b = a') \/ (aj <> ai /\ l !! aj = Some b).
Proof.
  destruct (Nat.eq_dec aj ai) as [->|Hne].
  - rewrite list_lookup_insert_eq by (by eapply lookup_lt_Some). intros [= <-]. by left.
  - rewrite list_lookup_insert_ne by done. by right.
Qed.

Lemma replace_heap : heap_ok l -> area_ok a' -> heap_ok (<[ai := a']> l).
Proof.
  intros Hl Ha'. destruct Hb as (Hs & He & _).
  assert (forall aj b, <[ai := a']> l !! aj = Some b ->
    exists c, l !! aj = Some c /\ gc_pool_start b = gc_pool_start c /\ gc_pool_end b = gc_pool_end c) as Hold.
  { intros aj b [[-> ->]|[_ E]]%replace_lookup; [by exists a|by exists b]. }
  split.
  - intros aj b [[_ ->]|[_ E]]%replace_lookup; [done|]. by apply (heap_areas l Hl aj).
  - intros i j b b' Eb Eb' Hij. destruct (Hold i b Eb) as (c & Ec & E1 & E2). destruct (Hold j b' Eb') as (c' & Ec' & E3 & E4).
    unfold apart. rewrite E1, E2, E3, E4. exact (heap_apart l Hl i j c c' Ec Ec' Hij).
Qed.

Lemma replace_kdl x : kdl (<[ai := a']> l) x = if bool_decide (x.1 = ai) then kda a' x.2 else kdl l x.
Proof.
  unfold kdl. case_bool_decide as E.
  - by rewrite E, list_lookup_insert_eq by (by eapply lookup_lt_Some).
  - by rewrite list_lookup_insert_ne.
Qed.

Lemma replace_word aj i : word (<[ai := a']> l) aj i = if bool_decide (aj = ai) then pool a' !! i else word l aj i.
Proof.
  unfold word. case_bool_decide as E.
  - by rewrite E, list_lookup_insert_eq by (by eapply lookup_lt_Some).
  - by rewrite list_lookup_insert_ne.
Qed.

Lemma replace_shape aj b : l !! aj = Some b -> exists b', <[ai := a']> l !! aj = Some b' /\ same_bounds b b'.
Proof.
  intros Eb. destruct (Nat.eq_dec aj ai) as [->|Hne].
  - exists a'. rewrite list_lookup_insert_eq by (by eapply lookup_lt_Some). split; [done|]. congruence.
  - exists b. by rewrite list_lookup_insert_ne.
Qed.
End replace.

(** The kinds of the area a run was taken from. *)
Definition take_kind (k : nat -> Z) (s n b : nat) : Z :=
  if bool_decide (s <= b < s + n)%nat then if (b =? s)%nat then AT_HEAD else AT_TAIL else k b.

Lemma take_table t s n : tbl_bytes t -> (0 < n)%nat -> (s + n <= length t * BLOCKS_PER_ATB)%nat -> free_run (kd t) s n ->
  exists t1 t', ATB_FREE_TO_HEAD t s = Some t1 /\ make_tails (n - 1) t1 (S s) = Some t' /\
    length t' = length t /\ tbl_bytes t' /\ forall b, kd t' b = take_kind (kd t) s n b.
Proof.
  intros Ht Hn Hl Hr. destruct (free_to_head_spec t s Ht ltac:(lia)) as (t1 & E1 & L1 & B1 & K1).
  destruct (make_tails_spec (n - 1) t1 (S s) B1 ltac:(lia)) as (t' & E' & L' & B' & K').
  { intros j Hj. rewrite K1. destruct (Nat.eqb_spec j s); [lia|]. apply Hr. lia. }
  exists t1, t'. split_and!; try done; [congruence|]. intros b. rewrite K', K1. unfold take_kind.
  destruct (Nat.eqb_spec b s) as [->|Hne].
  - rewrite bool_decide_eq_false_2, bool_decide_eq_true_2 by lia. by rewrite (Hr s) by lia.
  - repeat case_bool_decide; try done; lia.
Qed.

Lemma take_kind_cases k s n b : (0 < n)%nat -> free_run k s n ->
  take_kind k s n b <> AT_FREE \/ (take_kind k s n b = AT_FREE /\ k b = AT_FREE /\ ~ (s <= b < s + n)%nat).
Proof.
  intros Hn Hr. unfold take_kind. case_bool_decide as Hb.
  - left. by destruct (b =? s)%nat.
  - destruct (Z.eq_dec (k b) AT_FREE); auto.
Qed.

Lemma taken_area_ok a s n t lf lu p : area_ok a -> (0 < n)%nat -> (s + n <= n_blocks_of a)%nat ->
  free_run (kda a) s n -> length t = length (gc_alloc_table a) -> tbl_bytes t ->
  (forall b, kd t b = take_kind (kda a) s n b) -> length p = length (pool a) ->
  (forall b, (lu < b)%nat -> kda a b = AT_FREE /\ ~ (s <= b < s + n)%nat) ->
  (forall b, (b < lf * BLOCKS_PER_ATB)%nat -> kda a b <> AT_FREE \/ (s <= b < s + n)%nat) ->
  area_ok {| gc_alloc_table := t; gc_alloc_table_byte_len := gc_alloc_table_byte_len a;
             gc_pool_start := gc_pool_start a; gc_pool_end := gc_pool_end a; gc_last_free_atb_index := lf;
             gc_last_used_block := lu; pool := p |}.
Proof.
  intros [Hta _ Hgap Hfi Htl _ _ Hst Hen Hpo] Hn Hsn Hr L B K Lp Hlu Hlf. unfold n_blocks_of in *.
  split; unfold n_blocks_of; cbn [gc_alloc_table gc_alloc_table_byte_len gc_pool_start gc_pool_end
    gc_last_free_atb_index gc_last_used_block pool]; try done; try congruence.
  - intros b Hb. rewrite K. unfold take_kind. rewrite bool_decide_eq_false_2 by lia. by apply Hgap.
  - rewrite K. unfold take_kind. case_bool_decide; [|done]. destruct (Nat.eqb_spec 0 s); [done|lia].
  - intros b. rewrite !K. destruct (take_kind_cases (kda a) s n b Hn Hr) as [|(Ef & Ek & Hb)]; [done|].
    intros Ht _. revert Ht. unfold take_kind. case_bool_decide as Hb'.
    + destruct (Nat.eqb_spec (S b) s); [done|lia].
    + intros Ht. by apply (Htl b).
  - intros b Hb. rewrite K. unfold take_kind. destruct (Hlu b Hb) as [Hf Hnb].
    by rewrite bool_decide_eq_false_2.
  - intros b Hb. rewrite K. destruct (take_kind_cases (kda a) s n b Hn Hr) as [|(_ & Ek & Hnb)]; [done|].
    by destruct (Hlf b Hb).
Qed.

Section found.
Context (m : mp_state_mem) (ai e n : nat) (a : mp_state_mem_area).
Context (Hm : mem_ok m) (Ea : areas m !! ai = Some a).
Context (Hn : (0 < n)%nat) (Hne : (n <= S e)%nat) (He : (e < n_blocks_of a)%nat).
Context (Hrun : free_run (kda a) (S e - n) n).
Context (Hfirst : forall s, (s + n <= e)%nat -> ~ free_run (kda a) s n).
Context (Hbefore : forall aj b c, (gc_last_free_area m <= aj)%nat -> (aj < ai)%nat -> areas m !! aj = Some b ->
  (c + n <= n_blocks_of b)%nat -> ~ free_run (kda b) c n).

Let s := (S e - n)%nat.

Lemma found_last_free lf : lf = (if (n =? 1)%nat then ((e + 1) / BLOCKS_PER_ATB)%nat else gc_last_free_atb_index a) ->
  forall b, (b < lf * BLOCKS_PER_ATB)%nat -> kda a b <> AT_FREE \/ (s <= b < s + n)%nat.
Proof.
  intros -> b Hb. destruct (Nat.eqb_spec n 1) as [E|E].
  - unfold BLOCKS_PER_ATB in Hb. pose proof (Nat.Div0.mul_div_le (e + 1) 4).
    destruct (Nat.eq_dec b e) as [->|]; [right; unfold s; lia|]. left. intros Hf. apply (Hfirst b); [lia|].
    intros j Hj. by replace j with b by lia.
  - left. apply (ok_last_free a); [|done]. by apply (heap_areas _ (mem_heap m Hm) ai).
Qed.

Lemma found_last_used b : (Nat.max (gc_last_used_block a) e < b)%nat -> kda a b = AT_FREE /\ ~ (s <= b < s + n)%nat.
Proof.
  intros Hb. split; [|unfold s; lia]. apply (ok_used a); [|lia]. by apply (heap_areas _ (mem_heap m Hm) ai).
Qed.

(** The area after the run was taken. *)
Definition found_area (t : list Z) : mp_state_mem_area :=
  clear_blocks
    {| gc_alloc_table := t; gc_alloc_table_byte_len := gc_alloc_table_byte_len a;
       gc_pool_start := gc_pool_start a; gc_pool_end := gc_pool_end a;
       gc_last_free_atb_index := if (n =? 1)%nat then ((e + 1) / BLOCKS_PER_ATB)%nat else gc_last_free_atb_index a;
       gc_last_used_block := Nat.max (gc_last_used_block a) e; pool := pool a |} s n.

Lemma found_pool : (s * WORDS_PER_BLOCK + length (replicate (n * WORDS_PER_BLOCK) 0%Z) <= length (pool a))%nat.
Proof.
  rewrite length_replicate, (ok_pool a) by (by apply (heap_areas _ (mem_heap m Hm) ai)).
  unfold WORDS_PER_BLOCK, s. lia.
Qed.

Lemma found_area_ok t : length t = length (gc_alloc_table a) -> tbl_bytes t ->
  (forall b, kd t b = take_kind (kda a) s n b) -> area_ok (found_area t) /\ same_bounds a (found_area t).
Proof.
  intros L B K. pose proof (heap_areas _ (mem_heap m Hm) ai a Ea) as Ha. pose proof found_pool as Hp.
  assert (length (pool (found_area t)) = length (pool a)) as Lp.
  { unfold found_area, clear_blocks. by rewrite write_blocks_length. }
  split; [|by split_and!].
  apply (taken_area_ok a s n t); try done; [unfold s; lia|exact found_last_used|by apply found_last_free].
Qed.

(** The state after the run was taken. *)
Lemma alloc_found_eq : exists t m', alloc_found m ai e n n = Some (m', PTR_FROM_BLOCK a s) /\
  length t = length (gc_alloc_table a) /\ tbl_bytes t /\ (forall b, kd t b = take_kind (kda a) s n b) /\
  areas m' = <[ai := found_area t]> (areas m) /\
  gc_last_free_area m' = (if (n =? 1)%nat then ai else gc_last_free_area m) /\
  gc_lock_depth m' = gc_lock_depth m /\ gc_auto_collect_enabled m' = gc_auto_collect_enabled m.
Proof.
  pose proof (heap_areas _ (mem_heap m Hm) ai a Ea) as Ha.
  destruct (take_table (gc_alloc_table a) s n (ok_bytes a Ha) Hn) as (t1 & t & E1 & E2 & L & B & K); [|exact Hrun|].
  { pose proof (ok_in_table a (s + n) Ha ltac:(unfold s; lia)). lia. }
  unfold alloc_found. rewrite Ea. cbn [mbind option_bind].
  replace (e + 1 - n)%nat with s by (unfold s; lia). replace (e - s)%nat with (n - 1)%nat by (unfold s; lia).
  replace (n - 1 + 1)%nat with n by lia.
  assert (gc_alloc_table (set_last_used (if (n =? 1)%nat then set_last_free a ((e + 1) / BLOCKS_PER_ATB) else a)
    (Nat.max (gc_last_used_block (if (n =? 1)%nat then set_last_free a ((e + 1) / BLOCKS_PER_ATB) else a)) e)) =
    gc_alloc_table a) as -> by (by destruct (n =? 1)%nat).
  rewrite E1. cbn [mbind option_bind]. rewrite E2. cbn [mbind option_bind]. eexists t, _. split; [f_equal; f_equal|].
  - destruct (n =? 1)%nat; cbn; unfold PTR_FROM_BLOCK; lia.
  - split_and!; try done; cbn [areas with_alloc_amount with_areas gc_last_free_area gc_lock_depth gc_auto_collect_enabled];
      unfold found_area; by destruct (n =? 1)%nat.
Qed.

Lemma found_mem_ok m' t : length t = length (gc_alloc_table a) -> tbl_bytes t ->
  (forall b, kd t b = take_kind (kda a) s n b) -> areas m' = <[ai := found_area t]> (areas m) ->
  gc_last_free_area m' = (if (n =? 1)%nat then ai else gc_last_free_area m) -> mem_ok m'.
Proof.
  intros L B K Em El. destruct (found_area_ok t L B K) as [Ha' Hb']. pose proof (lookup_lt_Some _ _ _ Ea) as Hai. split.
  - rewrite Em. exact (replace_heap _ _ a _ Ea Hb' (mem_heap m Hm) Ha').
  - intros x. rewrite Em, (replace_kdl _ _ a _ Ea). case_bool_decide; [|apply (mem_marks m Hm)].
    change (kda (found_area t) x.2) with (kd t x.2). rewrite K. unfold take_kind.
    case_bool_decide; [by destruct (x.2 =? s)%nat|]. pose proof (mem_marks m Hm (ai, x.2)) as Hx.
    unfold kdl in Hx. cbn in Hx. by rewrite Ea in Hx.
  - rewrite El, Em, length_insert. destruct (n =? 1)%nat; [done|]. apply (mem_area m Hm).
  - intros aj b c Hj Eb Hc. rewrite El in Hj. rewrite Em in Eb.
    apply (replace_lookup _ _ a _ Ea) in Eb as [[-> ->]|[Hne' Eb]].
    + destruct (Nat.eqb_spec n 1) as [E|E]; [lia|]. change (kda (found_area t) c) with (kd t c). rewrite K.
      destruct (take_kind_cases (kda a) s n c Hn Hrun) as [|(_ & Ek & _)]; [done|]. by destruct (mem_full m Hm ai a c Hj Ea).
    + destruct (Nat.lt_ge_cases aj (gc_last_free_area m)) as [L'|G]; [by apply (mem_full m Hm aj)|].
      destruct (Nat.eqb_spec n 1) as [E|E]; [|lia]. intros Hf. apply (Hbefore aj b c G Hj Eb); [lia|].
      intros j Hjj. by replace j with c by lia.
Qed.

Lemma alloc_found_spec : exists m', alloc_found m ai e n n = Some (m', PTR_FROM_BLOCK a s) /\ mem_ok m' /\
  allocated (areas m) (areas m') (PTR_FROM_BLOCK a s) n ai s /\
  gc_lock_depth m' = gc_lock_depth m /\ gc_auto_collect_enabled m' = gc_auto_collect_enabled m.
Proof.
  destruct alloc_found_eq as (t & m' & -> & L & B & K & Em & El & Hld & Hau). exists m'. split; [done|].
  split; [by eapply found_mem_ok|]. split; [|done]. destruct (found_area_ok t L B K) as [_ Hb']. split.
  - exists a. split_and!; try done. unfold s. lia.
  - intros [aj b]. rewrite Em, (replace_kdl _ _ a _ Ea). unfold taken. cbn [fst snd]. case_bool_decide as E.
    + subst aj. change (kda (found_area t) b) with (kd t b). rewrite K. unfold take_kind, kdl. cbn [fst snd]. rewrite Ea.
      repeat case_bool_decide; try done; exfalso; intuition lia.
    + by rewrite bool_decide_eq_false_2 by (intros [? _]; done).
  - intros aj i. rewrite Em, (replace_word _ _ a _ Ea). case_bool_decide as E.
    + subst aj. unfold found_area, clear_blocks. rewrite write_blocks_lookup by (exact found_pool).
      rewrite length_replicate. cbn [pool]. unfold word. rewrite Ea. cbn [mbind option_bind].
      replace ((s + n) * WORDS_PER_BLOCK)%nat with (s * WORDS_PER_BLOCK + n * WORDS_PER_BLOCK)%nat by lia.
      repeat case_bool_decide; try done; [|exfalso; intuition lia|exfalso; intuition lia].
      apply lookup_replicate. split; [done|lia].
    + by rewrite bool_decide_eq_false_2 by (intros [? _]; done).
  - intros aj b Eb. rewrite Em. by eapply replace_shape.
Qed.
End found.

(** * The search and the collection *)

Definition no_room (l : list mp_state_mem_area) (n : nat) : Prop :=
  forall ai a s, l !! ai = Some a -> (s + n <= n_blocks_of a)%nat -> ~ free_run (kda a) s n.

Lemma alike_trans l1 l2 l3 : alike l1 l2 -> alike l2 l3 -> alike l1 l3.
Proof.
  intros H1. revert l3. induction H1 as [|a b l1 l2 [_ E1] _ IH]; intros l3 H2; inversion H2 as [|? c ? l3' [Hc E2] H3]; subst.
  - constructor.
  - constructor; [|by apply IH]. split; [done|]. rewrite E2, E1. done.
Qed.

Lemma alike_word l l' ai i : alike l l' -> word l' ai i = word l ai i.
Proof.
  intros Hl. unfold word. destruct (l !! ai) as [a|] eqn:E.
  - destruct (Forall2_lookup_l _ _ _ _ _ Hl E) as (a' & -> & _ & Ea). by rewrite Ea.
  - apply lookup_ge_None in E. rewrite (Forall2_length Hl) in E. by rewrite (proj2 (lookup_ge_None l' ai)).
Qed.

Lemma alike_no_room l l' n : alike l l' -> no_room l n -> no_room l' n.
Proof.
  intros Ha Hn ai a' s E. destruct (Forall2_lookup_r _ _ _ _ _ Ha E) as (a & Ea & _ & Eq). rewrite Eq. exact (Hn ai a s Ea).
Qed.

Lemma allocated_alike l1 l2 l3 ptr n ai s : alike l1 l2 -> allocated l2 l3 ptr n ai s -> allocated l1 l3 ptr n ai s.
Proof.
  intros Ha [(a & Ea & Ep & Hs & Hr) Hk Hw Hsh]. split.
  - destruct (Forall2_lookup_r _ _ _ _ _ Ha Ea) as (b & Eb & _ & Eq). exists b. rewrite Eq in *. done.
  - intros x. rewrite Hk. unfold taken. by rewrite (alike_kdl _ _ _ Ha).
  - intros aj i. by rewrite Hw, (alike_word _ _ _ _ Ha).
  - intros aj b Eb. destruct (Forall2_lookup_l _ _ _ _ _ Ha Eb) as (c & Ec & _ & Eq).
    destruct (Hsh aj c Ec) as (b' & Eb' & Hsb). exists b'. split; [done|]. by rewrite Eq in Hsb.
Qed.

Lemma with_areas_ok m l : mem_ok m -> alike (areas m) l -> mem_ok (with_areas m l).
Proof.
  intros Hm Ha. split; cbn [areas with_areas gc_last_free_area].
  - eapply alike_heap; [apply (mem_heap m Hm)|done].
  - intros x. rewrite (alike_kdl _ _ _ Ha). apply (mem_marks m Hm).
  - rewrite <- (Forall2_length Ha). apply (mem_area m Hm).
  - intros ai a b Hj E. destruct (Forall2_lookup_r _ _ _ _ _ Ha E) as (c & Ec & _ & Eq). rewrite Eq.
    exact (mem_full m Hm ai c b Hj Ec).
Qed.

Lemma search_spec m n : mem_ok m -> (0 < n)%nat ->
  exists l r, find_free (drop (gc_last_free_area m) (areas m)) (gc_last_free_area m) n = Some (l, r) /\
    let l1 := take (gc_last_free_area m) (areas m) ++ l in
    alike (areas m) l1 /\
    match r with
    | Some (ai, e, nf) => exists m' ptr s, alloc_found (with_areas m l1) ai e nf n = Some (m', ptr) /\ mem_ok m' /\
        ptr <> 0 /\ allocated (areas m) (areas m') ptr n ai s /\ gc_lock_depth m' = gc_lock_depth m
    | None => no_room (areas m) n
    end.
Proof.
  intros Hm Hn. set (lf := gc_last_free_area m). pose proof (heap_forall _ (mem_heap m Hm)) as Hall.
  destruct (find_free_spec n (drop lf (areas m)) lf Hn) as (l & r & -> & Hal & Hr); [by apply Forall_drop|].
  exists l, r. split; [done|]. cbn zeta. set (l1 := take lf (areas m) ++ l).
  assert (alike (areas m) l1) as Ha1.
  { unfold alike. rewrite <- (take_drop lf (areas m)) at 1. apply Forall2_app; [|done]. apply alike_refl. by apply Forall_take. }
  split; [done|]. pose proof (with_areas_ok m l1 Hm Ha1) as Hm1.
  assert (forall j a, (lf <= j)%nat -> areas m !! j = Some a -> drop lf (areas m) !! (j - lf)%nat = Some a) as Hdrop.
  { intros j a Hj E. rewrite lookup_drop. by replace (lf + (j - lf))%nat with j by lia. }
  destruct r as [[[ai e] nf]|].
  - destruct Hr as (-> & [Hai (a & Ea & H1 & H2 & H3 & H4) Hbef]). rewrite lookup_drop in Ea.
    replace (lf + (ai - lf))%nat with ai in Ea by lia.
    destruct (Forall2_lookup_l _ _ _ _ _ Ha1 Ea) as (a1 & Ea1 & Hok1 & Eq1).
    assert (kda a1 = kda a /\ n_blocks_of a1 = n_blocks_of a) as [Ek En] by (by rewrite Eq1).
    destruct (alloc_found_spec (with_areas m l1) ai e n a1 Hm1 Ea1 Hn H1) as (m' & E & Hm' & Hal' & Hld & _);
      rewrite ?Ek, ?En; try done.
    + intros aj b c Hj1 Hj2 Eb Hc. cbn [areas with_areas gc_last_free_area] in *.
      destruct (Forall2_lookup_r _ _ _ _ _ Ha1 Eb) as (b0 & Eb0 & _ & Eqb). rewrite Eqb in *.
      apply (Hbef (aj - lf)%nat b0); [lia|by apply Hdrop|done].
    + eexists m', _, _. split; [exact E|]. split; [done|]. split; [by apply ptr_not_null|].
      split; [by eapply allocated_alike|done].
  - intros ai a s Ea Hs Hrun. destruct (Nat.lt_ge_cases ai lf) as [L|G].
    + apply (mem_full m Hm ai a s L Ea); [lia|]. apply Hrun. lia.
    + by apply (Hr (ai - lf)%nat a (Hdrop ai a G Ea) s).
Qed.

(** The heap in which the allocator finds, or does not find, room: the one
    given, or what a collection left of it. *)
Definition prepared (roots : list Z) (collects : bool) (l l' : list mp_state_mem_area) : Prop :=
  heap_ok l' /\ exists l0, alike l l0 /\ (if collects then collected (root l0 roots) l0 l' else l' = l0).

(** What [gc_alloc] does when it may allocate; [collects] when it may also
    collect. *)
Definition alloc_result (roots : list Z) (collects : bool) (m m' : mp_state_mem) (ptr : Z) (n : nat) : Prop :=
  mem_ok m' /\ gc_lock_depth m' = gc_lock_depth m /\
  ((exists c l ai s, prepared roots c (areas m) l /\ (c = true -> collects = true) /\ ptr <> 0 /\
      allocated l (areas m') ptr n ai s) \/
   (exists l, prepared roots collects (areas m) l /\ ptr = 0 /\ no_room l n /\ alike l (areas m'))).

Section loop.
Context (state_roots stack_roots : list Z).
Let roots := state_roots ++ stack_roots.
Let collect m := gc_collect m state_roots stack_roots.

Lemma alloc_after m l0 mc n : alike (areas m) l0 -> mem_ok mc -> gc_lock_depth mc = gc_lock_depth m -> (0 < n)%nat ->
  collected (root l0 roots) l0 (areas mc) ->
  exists m' ptr, alloc_loop collect 1 mc n true = Some (m', ptr) /\ alloc_result roots true m m' ptr n.
Proof.
  intros Ha Hmc Hld Hn Hc. cbn [alloc_loop].
  destruct (search_spec mc n Hmc Hn) as (l & r & -> & Hal & Hr). cbn [mbind option_bind].
  destruct r as [[[ai e] nf]|].
  - destruct Hr as (m' & ptr & s & E & Hm' & Hp & Hall & Hl'). exists m', ptr. split; [exact E|]. split; [done|].
    split; [congruence|]. left. exists true, (areas mc), ai, s. split; [|done]. split; [apply (mem_heap mc Hmc)|]. by exists l0.
  - eexists _, 0. split; [done|]. split; [by apply with_areas_ok|]. split; [done|]. right.
    exists (areas mc). split_and!; try done. split; [apply (mem_heap mc Hmc)|]. by exists l0.
Qed.

(** One turn more than needed changes nothing. *)
Lemma alloc_loop_more turns m n c r : alloc_loop collect turns m n c = Some r -> alloc_loop collect (S turns) m n c = Some r.
Proof.
  revert m c. induction turns as [|turns IH]; intros m c; [done|]. cbn [alloc_loop].
  destruct (find_free _ _ _) as [[l r0]|]; [|done]. cbn [mbind option_bind].
  destruct r0 as [[[ai e] nf]|]; [done|]. destruct c; [done|].
  destruct (collect _) as [m1|]; [|done]. cbn [mbind option_bind]. apply IH.
Qed.

Lemma alloc_loop_spec m n collected : mem_ok m -> (0 < n)%nat ->
  exists m' ptr, alloc_loop collect 2 m n collected = Some (m', ptr) /\ alloc_result roots (negb collected) m m' ptr n.
Proof.
  intros Hm Hn. destruct (search_spec m n Hm Hn) as (l & r & Ef & Hal & Hr).
  cbn [alloc_loop]. rewrite Ef. cbn [mbind option_bind].
  set (l1 := take (gc_last_free_area m) (areas m) ++ l) in *. pose proof (with_areas_ok m l1 Hm Hal) as Hm1.
  destruct r as [[[ai e] nf]|].
  - destruct Hr as (m' & ptr & s & E & Hm' & Hp & Hall & Hl'). exists m', ptr. split; [exact E|]. split; [done|].
    split; [done|]. left. exists false, (areas m), ai, s. split; [|done]. split; [apply (mem_heap m Hm)|].
    exists (areas m). split; [apply alike_refl, heap_forall, (mem_heap m Hm)|done].
  - destruct collected; cbn [negb].
    + eexists _, 0. split; [done|]. split; [done|]. split; [done|]. right. exists l1.
      split; [split; [apply (mem_heap _ Hm1)|by exists l1]|]. split_and!; try done; [by eapply alike_no_room|].
      apply alike_refl, heap_forall, (mem_heap _ Hm1).
    + destruct (gc_collect_ok (with_areas m l1) state_roots stack_roots Hm1) as (mc & Ec & Hmc & Hc & Hld & _).
      unfold collect at 1. rewrite Ec. cbn [mbind option_bind].
      exact (alloc_after m l1 mc n Hal Hmc Hld Hn Hc).
Qed.
End loop.

(** ** Sizes *)

Definition blocks_for (n_bytes : Z) : nat := Z.to_nat ((n_bytes + BYTES_PER_BLOCK - 1) / BYTES_PER_BLOCK).

Lemma round_blocks x : Z.land x (Z.lnot (BYTES_PER_BLOCK - 1)) / BYTES_PER_BLOCK = x / BYTES_PER_BLOCK.
Proof.
  unfold BYTES_PER_BLOCK. change (16 - 1) with (Z.ones 4). rewrite <- Z.ldiff_land, Z.ldiff_ones_r by done.
  rewrite Z.shiftl_mul_pow2, Z.shiftr_div_pow2 by done. change (2 ^ 4) with 16. by rewrite Z.div_mul.
Qed.

Lemma blocks_for_pos n_bytes : 0 < n_bytes -> (0 < blocks_for n_bytes)%nat.
Proof.
  intros Hn. unfold blocks_for, BYTES_PER_BLOCK. pose proof (Z.div_le_lower_bound (n_bytes + 16 - 1) 16 1). lia.
Qed.

Section gc_alloc.
Context (state_roots stack_roots : list Z).

Lemma gc_alloc_ok m n_bytes : mem_ok m -> gc_lock_depth m <= 0 -> 0 < n_bytes -> n_bytes + BYTES_PER_BLOCK <= 2 ^ 32 ->
  exists m' ptr, gc_alloc m n_bytes state_roots stack_roots = Some (m', ptr) /\
    alloc_result (state_roots ++ stack_roots) (gc_auto_collect_enabled m) m m' ptr (blocks_for n_bytes).
Proof.
  intros Hm Hld Hn Hb. pose proof (blocks_for_pos n_bytes Hn) as Hp. unfold gc_alloc, gc_alloc_with.
  rewrite wrapu_small by (unfold BYTES_PER_BLOCK in *; lia). rewrite round_blocks.
  fold (blocks_for n_bytes). rewrite (proj2 (Z.eqb_neq _ 0)) by (unfold blocks_for in Hp; lia).
  assert ((gc_lock_depth m >? 0) = false) as -> by (rewrite Z.gtb_ltb; apply Z.ltb_ge; lia).
  destruct (negb (negb (gc_auto_collect_enabled m)) && (gc_alloc_amount m >=? gc_alloc_threshold m)) eqn:Et.
  - apply andb_prop in Et as [Et _]. rewrite negb_involutive in Et. rewrite Et.
    destruct (gc_collect_ok m state_roots stack_roots Hm) as (mc & -> & Hmc & Hc & Hlc & _). cbn [mbind option_bind].
    destruct (alloc_after state_roots stack_roots m (areas m) mc (blocks_for n_bytes)) as (m' & ptr & E & Hr); try done.
    { apply alike_refl, heap_forall, (mem_heap m Hm). }
    exists m', ptr. split; [|done]. by apply alloc_loop_more.
  - destruct (alloc_loop_spec state_roots stack_roots m (blocks_for n_bytes) (negb (gc_auto_collect_enabled m)) Hm Hp)
      as (m' & ptr & E & Hr). exists m', ptr. split; [done|]. by rewrite negb_involutive in Hr.
Qed.
End gc_alloc.
