(* ===== verification/GcFree.v ===== *)
(** Freeing and resizing with [Gc]: [gc_free] releases exactly one chain, and
    [gc_realloc] keeps the contents of the memory it resizes. *)

From Stdlib Require Import ZArith Lia.
From stdpp Require Import base option list numbers.
From S2P Require Import Prelude Gc GcTable GcHeap GcMark GcCollect GcAlloc.

(** * Releasing blocks *)

Definition freed_kind (k : nat -> Z) (s n b : nat) : Z := if bool_decide (s <= b < s + n)%nat then AT_FREE else k b.

Lemma free_blocks_spec n : forall t bl, tbl_bytes t -> (bl + n <= length t * BLOCKS_PER_ATB)%nat ->
  exists t', free_blocks n t bl = Some t' /\ length t' = length t /\ tbl_bytes t' /\
    forall b, kd t' b = freed_kind (kd t) bl n b.
Proof.
  unfold freed_kind. induction n as [|n IH]; intros t bl Ht Hl.
  { exists t. split_and!; try done. intros b. rewrite bool_decide_eq_false_2; [done|lia]. }
  cbn [free_blocks]. destruct (any_to_free_spec t bl Ht ltac:(lia)) as (t1 & -> & L1 & B1 & K1). cbn [mbind option_bind].
  destruct (IH t1 (S bl) B1 ltac:(lia)) as (t' & -> & L' & B' & K'). exists t'.
  split; [done|]. split; [congruence|]. split; [done|]. intros b. rewrite K', K1.
  destruct (Nat.eqb_spec b bl) as [->|Hne].
  - rewrite bool_decide_eq_false_2, bool_decide_eq_true_2 by lia. done.
  - repeat case_bool_decide; try done; lia.
Qed.

Lemma free_chain_spec n : forall fuel t b, chain t b n -> (n <= fuel)%nat -> tbl_bytes t ->
  (b + n < length t * BLOCKS_PER_ATB)%nat -> free_chain fuel t b = free_blocks n t b.
Proof.
  induction n as [|n IH]; intros fuel t b (Hn & Ht & He) Hf Hb Hl; [lia|]. destruct fuel as [|fuel]; [lia|].
  cbn [free_chain free_blocks]. destruct (any_to_free_spec t b Hb ltac:(lia)) as (t1 & -> & L1 & B1 & K1).
  cbn [mbind option_bind]. rewrite get_kind_kd by (rewrite L1; lia). cbn [mbind option_bind].
  assert (forall c, (c <> b)%nat -> kd t1 c = kd t c) as Hk.
  { intros c Hc. rewrite K1. by rewrite (proj2 (Nat.eqb_neq c b)). }
  rewrite Hk by lia. destruct n as [|n].
  - rewrite Nat.add_1_r in He. by rewrite (proj2 (Z.eqb_neq _ _) He).
  - assert (kd t (S b) = AT_TAIL) as E by (rewrite <- (Ht 1%nat ltac:(lia)); f_equal; lia). rewrite E. cbn [Z.eqb AT_TAIL Pos.eqb].
    apply IH; [|lia|done|rewrite L1; lia]. split; [lia|]. split.
    + intros j Hj. rewrite Hk by lia. replace (S b + j)%nat with (b + S j)%nat by lia. apply Ht. lia.
    + rewrite Hk by lia. by replace (S b + S n)%nat with (b + S (S n))%nat by lia.
Qed.

(** [n] blocks from [s] of area [ai] are free; nothing else changes. *)
Record released (l l' : list mp_state_mem_area) (ai s n : nat) : Prop := {
  re_kinds : forall x, kdl l' x = if bool_decide (x.1 = ai /\ (s <= x.2 < s + n)%nat) then AT_FREE else kdl l x;
  re_words : forall aj i, word l' aj i = word l aj i;
  re_shape : forall aj a, l !! aj = Some a -> exists a', l' !! aj = Some a' /\ same_bounds a a';
}.

(** Where the next search starts after blocks from [s] on were released. *)
Definition release_index (a : mp_state_mem_area) (s : nat) : nat :=
  if (s / BLOCKS_PER_ATB <? gc_last_free_atb_index a)%nat then (s / BLOCKS_PER_ATB)%nat else gc_last_free_atb_index a.

Definition release_area (a : mp_state_mem_area) (t : list Z) (s : nat) : mp_state_mem_area :=
  set_last_free (set_table a t) (release_index a s).

Section release.
Context (a : mp_state_mem_area) (s n : nat) (t : list Z).
Context (Ha : area_ok a) (Hend : kda a (s + n) <> AT_TAIL).
Context (L : length t = length (gc_alloc_table a)) (B : tbl_bytes t) (K : forall b, kd t b = freed_kind (kda a) s n b).

Lemma freed_cases b : kd t b = AT_FREE \/ (kd t b = kda a b /\ ~ (s <= b < s + n)%nat).
Proof. rewrite K. unfold freed_kind. case_bool_decide; auto. Qed.

Lemma freed_of_free b : kda a b = AT_FREE -> kd t b = AT_FREE.
Proof. intros E. destruct (freed_cases b) as [|[-> _]]; done. Qed.

Lemma release_area_ok : area_ok (release_area a t s).
Proof.
  destruct Ha as [Hta _ Hgap Hfi Htl Hus Hlf Hst Hen Hpo].
  split; try done; cbn [gc_alloc_table set_last_free set_table gc_last_free_atb_index gc_last_used_block release_area].
  - by rewrite L.
  - intros b Hb. by apply freed_of_free, Hgap.
  - destruct (freed_cases 0) as [->|[-> _]]; done.
  - intros b Hb. destruct (freed_cases (S b)) as [E|[E Hnb]]; [by rewrite E in Hb|]. rewrite E in Hb.
    rewrite K. unfold freed_kind. case_bool_decide as Hin; [|by apply Htl].
    exfalso. apply Hend. replace (s + n)%nat with (S b) by lia. done.
  - intros b Hb. by apply freed_of_free, Hus.
  - intros b Hb. rewrite K. unfold freed_kind, release_index in *.
    assert ((b < gc_last_free_atb_index a * BLOCKS_PER_ATB)%nat /\ (b < s)%nat) as [H1 H2].
    { unfold BLOCKS_PER_ATB in *. pose proof (Nat.Div0.mul_div_le s 4). pose proof (Nat.div_mod_eq s 4).
      pose proof (Nat.mod_upper_bound s 4 ltac:(done)).
      destruct (Nat.ltb_spec (s / 4) (gc_last_free_atb_index a)); lia. }
    rewrite bool_decide_eq_false_2 by lia. by apply Hlf.
Qed.
End release.

(** The state after blocks of [ai] were released: the next search starts there,
    or in the first area. *)
Lemma release_mem m m' ai a s n t : mem_ok m -> areas m !! ai = Some a -> kda a (s + n) <> AT_TAIL ->
  length t = length (gc_alloc_table a) -> tbl_bytes t -> (forall b, kd t b = freed_kind (kda a) s n b) ->
  areas m' = <[ai := release_area a t s]> (areas m) ->
  gc_last_free_area m' = (if (gc_last_free_area m =? ai)%nat then gc_last_free_area m else 0%nat) ->
  mem_ok m' /\ released (areas m) (areas m') ai s n.
Proof.
  intros Hm Ea Hend L B K Em El. pose proof (heap_areas _ (mem_heap m Hm) ai a Ea) as Ha.
  assert (same_bounds a (release_area a t s)) as Hsb by (by split_and!).
  assert (forall x, kdl (areas m') x =
    if bool_decide (x.1 = ai /\ (s <= x.2 < s + n)%nat) then AT_FREE else kdl (areas m) x) as Hk.
  { intros [aj b]. rewrite Em, (replace_kdl _ _ a _ Ea). cbn [fst snd]. case_bool_decide as E.
    - subst aj. change (kda (release_area a t s) b) with (kd t b). rewrite K. unfold freed_kind, kdl. cbn [fst snd]. rewrite Ea.
      repeat case_bool_decide; try done; exfalso; intuition lia.
    - by rewrite bool_decide_eq_false_2 by (intros [? _]; done). }
  split; [split|split].
  - rewrite Em. exact (replace_heap _ _ a _ Ea Hsb (mem_heap m Hm) (release_area_ok a s n t Ha Hend L B K)).
  - intros x. rewrite Hk. case_bool_decide; [done|]. apply (mem_marks m Hm).
  - rewrite El, Em, length_insert. destruct (gc_last_free_area m =? ai)%nat; [apply (mem_area m Hm)|].
    pose proof (mem_area m Hm). lia.
  - intros aj b c Hj Eb Hc. rewrite El in Hj. destruct (Nat.eqb_spec (gc_last_free_area m) ai) as [E|E]; [|lia].
    rewrite Em in Eb. apply (replace_lookup _ _ a _ Ea) in Eb as [[-> ->]|[_ Eb]]; [lia|]. by apply (mem_full m Hm aj).
  - exact Hk.
  - intros aj i. rewrite Em, (replace_word _ _ a _ Ea). case_bool_decide as E; [|done].
    subst aj. unfold word. by rewrite Ea.
  - intros aj b Eb. rewrite Em. by eapply replace_shape.
Qed.

(** ** [gc_free] *)

(** The chain of [n] blocks at block [b] of area [ai]. *)
Definition chain_at (l : list mp_state_mem_area) (ai b n : nat) : Prop :=
  exists a, l !! ai = Some a /\ (b + n <= n_blocks_of a)%nat /\ kda a b = AT_HEAD /\ chain (gc_alloc_table a) b n.

Definition ptr_to (l : list mp_state_mem_area) (ai b : nat) : Z :=
  match l !! ai with Some a => PTR_FROM_BLOCK a b | None => 0 end.

Lemma gc_free_ok m ai b n : mem_ok m -> gc_lock_depth m <= 0 -> chain_at (areas m) ai b n ->
  exists m', gc_free m (ptr_to (areas m) ai b) = Some m' /\ mem_ok m' /\ released (areas m) (areas m') ai b n /\
    gc_lock_depth m' = gc_lock_depth m.
Proof.
  intros Hm Hld (a & Ea & Hb & Hk & Hc). pose proof (heap_areas _ (mem_heap m Hm) ai a Ea) as Ha.
  unfold ptr_to. rewrite Ea. unfold gc_free. rewrite Z.gtb_ltb, (proj2 (Z.ltb_ge 0 _)) by done.
  rewrite (proj2 (Z.eqb_neq _ 0)) by (by apply ptr_not_null). pose proof Hc as (Hn & _ & Hend).
  destruct (ptr_area_from_block (areas m) ai a b (mem_heap m Hm) Ea ltac:(lia)) as [-> Eb]. cbn [mbind option_bind].
  rewrite Ea. cbn [mbind option_bind]. rewrite Eb, (ok_kind a b Ha) by lia. cbn [mbind option_bind]. rewrite Hk. cbn [Z.eqb negb AT_HEAD Pos.eqb].
  pose proof (ok_in_table a (b + n) Ha Hb) as Hin.
  assert (exists a0, (if (b / BLOCKS_PER_ATB <? gc_last_free_atb_index a)%nat then set_last_free a (b / BLOCKS_PER_ATB) else a) = a0 /\
    gc_alloc_table a0 = gc_alloc_table a /\ forall t, set_table a0 t = release_area a t b) as (a0 & -> & Et & Hrel).
  { eexists. split; [done|]. unfold release_area, release_index. destruct (_ <? _)%nat; split; try done; by destruct a. }
  rewrite !Et, (free_chain_spec n); [|done|lia|by apply ok_bytes|done].
  destruct (free_blocks_spec n (gc_alloc_table a) b (ok_bytes a Ha) ltac:(lia)) as (t & -> & L & B & K).
  cbn [mbind option_bind]. eexists. split; [done|]. rewrite Hrel.
  match goal with |- mem_ok ?m' /\ _ => destruct (release_mem m m' ai a b n t Hm Ea Hend L B K) as [Hm' Hr] end.
  - by destruct (gc_last_free_area m =? ai)%nat.
  - by destruct (gc_last_free_area m =? ai)%nat.
  - split; [done|]. split; [done|]. by destruct (gc_last_free_area m =? ai)%nat.
Qed.

(** * Resizing *)

(** The free blocks that follow the chain. *)
Lemma count_free_spec n : forall t bl nb nf new, (forall b, kd t (S b) = AT_TAIL -> kd t b <> AT_FREE) ->
  kd t (bl - nf) <> AT_TAIL -> (nf <= bl)%nat -> free_run (kd t) (bl - nf) nf ->
  (bl + n < length t * BLOCKS_PER_ATB)%nat ->
  exists nf', count_blocks n t bl nb nf new = Some (nb, nf') /\ free_run (kd t) (bl - nf) nf' /\ (nf' <= nf + n)%nat.
Proof.
  induction n as [|n IH]; intros t bl nb nf new Ht He Hnf Hr Hl.
  { exists nf. split; [done|]. split; [done|lia]. }
  cbn [count_blocks]. rewrite get_kind_kd by lia. cbn [mbind option_bind].
  assert (kd t bl <> AT_TAIL) as Hbl.
  { destruct nf as [|nf]; [by rewrite Nat.sub_0_r in He|]. destruct bl as [|bl]; [lia|]. intros E.
    apply (Ht bl E). apply Hr. lia. }
  rewrite (proj2 (Z.eqb_neq _ _) Hbl). destruct (Z.eqb_spec (kd t bl) AT_FREE) as [Ef|Ef].
  2: { exists nf. split; [done|]. split; [done|lia]. }
  assert (free_run (kd t) (bl - nf) (S nf)) as Hr'.
  { intros j Hj. destruct (Nat.eq_dec j bl) as [->|]; [done|]. apply Hr. lia. }
  destruct (Nat.leb_spec new (nb + S nf)).
  - exists (S nf). split; [done|]. split; [done|lia].
  - destruct (IH t (S bl) nb (S nf) new Ht) as (nf' & E & Hrun & Hle); [done|lia|done|lia|].
    exists nf'. split; [done|]. split; [done|lia].
Qed.

Lemma count_blocks_spec t b n nb j new : chain t b n -> (0 < j <= n)%nat -> (b + n <= nb)%nat ->
  (nb < length t * BLOCKS_PER_ATB)%nat -> (forall c, kd t (S c) = AT_TAIL -> kd t c <> AT_FREE) ->
  exists nf, count_blocks (nb - (b + j)) t (b + j) j 0 new = Some (n, nf) /\ free_run (kd t) (b + n) nf /\
    (b + n + nf <= nb)%nat.
Proof.
  intros (Hn & Ht & He) Hj Hb Hl Htl. remember (n - j)%nat as d eqn:Ed. revert j Ed Hj.
  induction d as [|d IH]; intros j Ed Hj.
  - assert (j = n) as -> by lia.
    destruct (count_free_spec (nb - (b + n)) t (b + n) n 0 new Htl) as (nf & E & Hr & Hle);
      rewrite ?Nat.sub_0_r in *; try done; [lia|intros c Hc; lia|lia|].
    exists nf. split; [done|]. split; [done|lia].
  - replace (nb - (b + j))%nat with (S (nb - (b + S j))) by lia. cbn [count_blocks].
    rewrite get_kind_kd by lia. cbn [mbind option_bind]. rewrite (Ht j) by lia. cbn [Z.eqb AT_TAIL Pos.eqb].
    replace (S (b + j)) with (b + S j)%nat by lia. apply IH; lia.
Qed.

(** ** Shrinking *)

Lemma realloc_shrink_ok m ai a b n new : mem_ok m -> areas m !! ai = Some a -> chain (gc_alloc_table a) b n ->
  (b + n <= n_blocks_of a)%nat -> (0 < new < n)%nat ->
  exists m', realloc_shrink m ai b n new = Some m' /\ mem_ok m' /\ released (areas m) (areas m') ai (b + new) (n - new) /\
    gc_lock_depth m' = gc_lock_depth m.
Proof.
  intros Hm Ea Hc Hb Hnew. pose proof (heap_areas _ (mem_heap m Hm) ai a Ea) as Ha. unfold realloc_shrink. rewrite Ea.
  cbn [mbind option_bind]. pose proof (ok_in_table a (b + n) Ha Hb) as Hin.
  destruct (free_blocks_spec (n - new) (gc_alloc_table a) (b + new) (ok_bytes a Ha) ltac:(lia)) as (t & -> & L & B & K).
  cbn [mbind option_bind]. eexists. split; [done|].
  assert (kda a (b + new + (n - new)) <> AT_TAIL) as Hend.
  { replace (b + new + (n - new))%nat with (b + n)%nat by lia. apply Hc. }
  match goal with |- mem_ok ?m' /\ _ => destruct (release_mem m m' ai a (b + new) (n - new) t Hm Ea Hend L B K) as [Hm' Hr] end.
  - unfold release_area, release_index. cbn [areas with_areas gc_last_free_atb_index set_table].
    destruct (gc_last_free_area m =? ai)%nat, ((b + new) / BLOCKS_PER_ATB <? gc_last_free_atb_index a)%nat; cbn; f_equal; by destruct a.
  - by destruct (gc_last_free_area m =? ai)%nat.
  - split; [done|]. split; [done|]. by destruct (gc_last_free_area m =? ai)%nat.
Qed.

(** ** Growing in place *)

Definition grown_kind (k : nat -> Z) (s n b : nat) : Z := if bool_decide (s <= b < s + n)%nat then AT_TAIL else k b.

Lemma expand_tails_spec n : forall t bl, tbl_bytes t -> (bl + n <= length t * BLOCKS_PER_ATB)%nat ->
  free_run (kd t) bl n ->
  exists t', expand_tails n t bl = Some t' /\ length t' = length t /\ tbl_bytes t' /\
    forall b, kd t' b = grown_kind (kd t) bl n b.
Proof.
  unfold grown_kind. induction n as [|n IH]; intros t bl Ht Hl Hr.
  { exists t. split_and!; try done. intros b. rewrite bool_decide_eq_false_2; [done|lia]. }
  cbn [expand_tails]. rewrite get_kind_kd by lia. cbn [mbind option_bind]. rewrite (Hr bl) by lia. cbn [Z.eqb negb AT_FREE].
  destruct (free_to_tail_spec t bl Ht ltac:(lia)) as (t1 & -> & L1 & B1 & K1). cbn [mbind option_bind].
  destruct (IH t1 (S bl) B1 ltac:(lia)) as (t' & -> & L' & B' & K').
  { intros j Hj. rewrite K1. destruct (Nat.eqb_spec j bl); [lia|]. apply Hr. lia. }
  exists t'. split; [done|]. split; [congruence|]. split; [done|]. intros b. rewrite K', K1.
  destruct (Nat.eqb_spec b bl) as [->|Hne].
  - rewrite bool_decide_eq_false_2, bool_decide_eq_true_2 by lia. by rewrite (Hr bl) by lia.
  - repeat case_bool_decide; try done; lia.
Qed.

(** [n] blocks from [s] of area [ai] became tails and were cleared. *)
Record grown (l l' : list mp_state_mem_area) (ai s n : nat) : Prop := {
  gr_kinds : forall x, kdl l' x = if bool_decide (x.1 = ai /\ (s <= x.2 < s + n)%nat) then AT_TAIL else kdl l x;
  gr_words : forall aj i, word l' aj i =
    if bool_decide (aj = ai /\ (s * WORDS_PER_BLOCK <= i < (s + n) * WORDS_PER_BLOCK)%nat) then Some 0 else word l aj i;
  gr_shape : forall aj a, l !! aj = Some a -> exists a', l' !! aj = Some a' /\ same_bounds a a';
}.

Definition grow_area (a : mp_state_mem_area) (t : list Z) (s n lu : nat) : mp_state_mem_area :=
  clear_blocks (set_last_used (set_table a t) lu) s n.

Lemma grow_area_ok a t s n lu : area_ok a -> (0 < s)%nat -> kda a (s - 1) <> AT_FREE ->
  (s + n <= n_blocks_of a)%nat -> free_run (kda a) s n -> (gc_last_used_block a <= lu)%nat -> (s + n <= lu)%nat ->
  length t = length (gc_alloc_table a) -> tbl_bytes t -> (forall b, kd t b = grown_kind (kda a) s n b) ->
  area_ok (grow_area a t s n lu) /\ same_bounds a (grow_area a t s n lu).
Proof.
  intros Ha Hs Hprev Hsn Hr Hlu1 Hlu2 L B K. unfold grown_kind in K.
  assert (length (pool (grow_area a t s n lu)) = length (pool a)) as Lp.
  { unfold grow_area, clear_blocks. rewrite write_blocks_length; [done|]. cbn [pool set_last_used set_table].
    rewrite length_replicate, (ok_pool a Ha). unfold WORDS_PER_BLOCK. lia. }
  destruct Ha as [Hta _ Hgap Hfi Htl Hus Hlf Hst Hen Hpo]. split; [|by split_and!].
  split; try done; change (kda (grow_area a t s n lu)) with (kd t); change (n_blocks_of (grow_area a t s n lu)) with (n_blocks_of a).
  - change (gc_alloc_table (grow_area a t s n lu)) with t. by rewrite L.
  - intros b Hb. rewrite K, bool_decide_eq_false_2 by lia. by apply Hgap.
  - rewrite K, bool_decide_eq_false_2 by lia. done.
  - intros b. rewrite !K. repeat case_bool_decide; try done.
    + intros _. by replace b with (s - 1)%nat by lia.
    + apply Htl.
  - intros b Hb. change (gc_last_used_block (grow_area a t s n lu)) with lu in Hb.
    rewrite K, bool_decide_eq_false_2 by lia. apply Hus. lia.
  - intros b Hb. rewrite K. case_bool_decide; [done|]. by apply Hlf.
  - by rewrite Lp.
Qed.

Lemma chain_last_used t b n : chain t b n -> kd t b = AT_HEAD -> kd t (b + n - 1) <> AT_FREE.
Proof.
  intros (Hn & Ht & _) Hk. destruct (Nat.eq_dec n 1%nat) as [->|].
  - replace (b + 1 - 1)%nat with b by lia. by rewrite Hk.
  - replace (b + n - 1)%nat with (b + (n - 1))%nat by lia. by rewrite Ht by lia.
Qed.

Lemma realloc_expand_ok m ai a b n nf new : mem_ok m -> areas m !! ai = Some a -> chain (gc_alloc_table a) b n ->
  kda a b = AT_HEAD -> free_run (kda a) (b + n) nf -> (b + n + nf <= n_blocks_of a)%nat -> (n < new <= n + nf)%nat ->
  exists m', realloc_expand m ai b n new = Some m' /\ mem_ok m' /\ grown (areas m) (areas m') ai (b + n) (new - n) /\
    gc_lock_depth m' = gc_lock_depth m.
Proof.
  intros Hm Ea Hc Hk Hr Hb Hnew. pose proof (heap_areas _ (mem_heap m Hm) ai a Ea) as Ha. unfold realloc_expand. rewrite Ea.
  cbn [mbind option_bind]. pose proof (ok_in_table a (b + n + nf) Ha Hb) as Hin. pose proof Hc as (Hn & _ & _).
  replace (b + new - (b + n))%nat with (new - n)%nat by lia.
  destruct (expand_tails_spec (new - n) (gc_alloc_table a) (b + n) (ok_bytes a Ha) ltac:(lia)) as (t & -> & L & B & K).
  { intros j Hj. apply Hr. lia. }
  cbn [mbind option_bind].
  set (lu := Nat.max (gc_last_used_block a) (b + new)).
  destruct (grow_area_ok a t (b + n) (new - n) lu) as [Ha' Hsb]; try done;
    [lia|by apply chain_last_used|lia|intros j Hj; apply Hr; lia|lia|lia|].
  eexists. split; [done|]. fold (grow_area a t (b + n) (new - n) lu). split; [split|split; [split|done]]; cbn [areas with_areas].
  - exact (replace_heap _ _ a _ Ea Hsb (mem_heap m Hm) Ha').
  - intros x. rewrite (replace_kdl _ _ a _ Ea). case_bool_decide as E; [|apply (mem_marks m Hm)].
    change (kda (grow_area a t (b + n) (new - n) lu) x.2) with (kd t x.2). rewrite K. unfold grown_kind.
    case_bool_decide; [done|]. pose proof (mem_marks m Hm (ai, x.2)) as Hx. unfold kdl in Hx. cbn in Hx. by rewrite Ea in Hx.
  - rewrite length_insert. apply (mem_area m Hm).
  - intros aj c d Hj Ec Hd. cbn [gc_last_free_area with_areas] in Hj.
    apply (replace_lookup _ _ a _ Ea) in Ec as [[-> ->]|[_ Ec]]; [|by apply (mem_full m Hm aj)].
    destruct (mem_full m Hm ai a (b + n) Hj Ea); [lia|]. apply Hr. lia.
  - intros [aj c]. rewrite (replace_kdl _ _ a _ Ea). cbn [fst snd]. case_bool_decide as E.
    + subst aj. change (kda (grow_area a t (b + n) (new - n) lu) c) with (kd t c). rewrite K. unfold grown_kind, kdl.
      cbn [fst snd]. rewrite Ea. repeat case_bool_decide; try done; exfalso; intuition lia.
    + by rewrite bool_decide_eq_false_2 by (intros [? _]; done).
  - intros aj i. rewrite (replace_word _ _ a _ Ea). case_bool_decide as E.
    + subst aj. unfold grow_area, clear_blocks. cbn [pool set_last_used set_table].
      rewrite write_blocks_lookup by (cbn [pool set_last_used set_table];
        rewrite length_replicate, (ok_pool a Ha); unfold WORDS_PER_BLOCK; lia).
      rewrite length_replicate. cbn [pool set_last_used set_table]. unfold word. rewrite Ea. cbn [mbind option_bind].
      replace ((b + n + (new - n)) * WORDS_PER_BLOCK)%nat with ((b + n) * WORDS_PER_BLOCK + (new - n) * WORDS_PER_BLOCK)%nat by lia.
      repeat case_bool_decide; try done; [|exfalso; intuition lia|exfalso; intuition lia].
      apply lookup_replicate. split; [done|lia].
    + by rewrite bool_decide_eq_false_2 by (intros [? _]; done).
  - intros aj c Ec. by eapply replace_shape.
Qed.

(** ** Moving *)

Lemma chain_at_kdl l ai b n : chain_at l ai b n <->
  (exists a, l !! ai = Some a /\ (b + n <= n_blocks_of a)%nat) /\ (0 < n)%nat /\ kdl l (ai, b) = AT_HEAD /\
  (forall j, (0 < j < n)%nat -> kdl l (ai, b + j)%nat = AT_TAIL) /\ kdl l (ai, b + n)%nat <> AT_TAIL.
Proof.
  unfold chain_at, chain, kdl. cbn [fst snd]. split.
  - intros (a & -> & Hb & Hk & Hn & Ht & He). split; [by exists a|]. done.
  - intros ((a & Ea & Hb) & Hn & Hk & Ht & He). exists a. rewrite Ea in *. done.
Qed.

(** The shape of the heap as the chains see it. *)
Definition same_shape (l l' : list mp_state_mem_area) : Prop :=
  forall aj a, l !! aj = Some a -> exists a', l' !! aj = Some a' /\ same_bounds a a'.

Lemma same_shape_bound l l' ai b n : same_shape l l' ->
  (exists a, l !! ai = Some a /\ (b + n <= n_blocks_of a)%nat) -> exists a, l' !! ai = Some a /\ (b + n <= n_blocks_of a)%nat.
Proof.
  intros Hs (a & Ea & Hb). destruct (Hs ai a Ea) as (a' & Ea' & _ & _ & E & _). exists a'. unfold n_blocks_of in *. by rewrite E.
Qed.

Lemma same_shape_ptr l l' ai b : same_shape l l' -> (exists a, l !! ai = Some a) -> ptr_to l' ai b = ptr_to l ai b.
Proof.
  intros Hs (a & Ea). destruct (Hs ai a Ea) as (a' & Ea' & E & _). unfold ptr_to, PTR_FROM_BLOCK. by rewrite Ea, Ea', E.
Qed.

Lemma alike_shape l l' : alike l l' -> same_shape l l'.
Proof.
  intros Ha aj a Ea. destruct (Forall2_lookup_l _ _ _ _ _ Ha Ea) as (a' & Ea' & _ & Eq). exists a'.
  split; [done|]. rewrite Eq. by split_and!.
Qed.

Lemma collected_shape P l l' : collected P l l' -> same_shape l l'.
Proof.
  intros Hc aj a Ea. destruct (co_pools _ _ _ Hc aj a Ea) as (a' & Ea' & E1 & E2 & E3 & E4 & _). exists a'.
  split; [done|]. unfold same_bounds. by rewrite E1.
Qed.

Lemma same_shape_trans l1 l2 l3 : same_shape l1 l2 -> same_shape l2 l3 -> same_shape l1 l3.
Proof.
  intros H1 H2 aj a Ea. destruct (H1 aj a Ea) as (b & Eb & E1 & E2 & E3 & E4).
  destruct (H2 aj b Eb) as (c & Ec & E5 & E6 & E7 & E8). exists c. split; [done|]. split_and!; congruence.
Qed.

Lemma collected_word P l l' ai i : collected P l l' -> word l' ai i = word l ai i.
Proof.
  intros Hc. unfold word. destruct (l !! ai) as [a|] eqn:Ea.
  - destruct (co_pools _ _ _ Hc ai a Ea) as (a' & -> & E & _). cbn. by rewrite E.
  - apply lookup_ge_None in Ea. rewrite <- (co_length _ _ _ Hc) in Ea. by rewrite (proj2 (lookup_ge_None _ _)).
Qed.

(** A chain that a root points to survives, with its contents. *)
Lemma chain_collected l l' roots ai b n : heap_ok l -> no_marks l -> collected (root l roots) l l' -> chain_at l ai b n ->
  ptr_to l ai b ∈ roots -> chain_at l' ai b n.
Proof.
  intros Hl Hno Hc Hch Hin. pose proof Hch as (a & Ea & Hb & Hk & _).
  apply chain_at_kdl in Hch as (Hbd & Hn & Hk' & Ht & He). apply chain_at_kdl.
  assert (kdl l' (ai, b) = AT_HEAD) as Hh.
  { apply (co_heads _ _ _ Hc), reach_root. exists (ptr_to l ai b). split; [done|]. split; [|by left].
    unfold ptr_block, ptr_to. rewrite Ea. destruct (ptr_area_from_block l ai a b Hl Ea ltac:(lia)) as [-> Eb]. cbn. by rewrite Ea, <- Eb at 1. }
  split; [by apply (same_shape_bound l); [apply (collected_shape _ _ _ Hc)|]|]. split; [done|]. split; [done|]. split.
  - intros j Hj. induction j as [|j IH]; [lia|]. rewrite Nat.add_succ_r. apply (co_tails _ _ _ Hc). split.
    + rewrite <- Nat.add_succ_r. by apply Ht.
    + destruct j as [|j]; [rewrite Nat.add_0_r; by rewrite Hh|]. by rewrite IH by lia.
  - destruct n as [|n]; [lia|]. rewrite Nat.add_succ_r in *. intros Et. by apply (co_tails _ _ _ Hc) in Et as [Et _].
Qed.

Lemma alike_chain l l' ai b n : alike l l' -> chain_at l ai b n -> chain_at l' ai b n.
Proof.
  intros Ha (Hbd & Hn & Hk & Ht & He)%chain_at_kdl. apply chain_at_kdl.
  split; [by apply (same_shape_bound l); [apply alike_shape|]|]. rewrite !(alike_kdl _ _ _ Ha).
  split; [done|]. split; [done|]. split; [|done]. intros j Hj. rewrite (alike_kdl _ _ _ Ha). by apply Ht.
Qed.

Lemma alike_marks l l' : alike l l' -> no_marks l -> no_marks l'.
Proof. intros Ha Hno x. rewrite (alike_kdl _ _ _ Ha). apply Hno. Qed.

Lemma prepared_chain roots c l l' ai b n : heap_ok l -> no_marks l -> prepared roots c l l' -> chain_at l ai b n ->
  ptr_to l ai b ∈ roots -> chain_at l' ai b n /\ same_shape l l' /\ forall aj i, word l' aj i = word l aj i.
Proof.
  intros Hl Hno (_ & l0 & Ha & Hc) Hch Hin. pose proof (alike_chain _ _ _ _ _ Ha Hch) as Hch0.
  destruct c.
  2: { subst l'. split; [done|]. split; [by apply alike_shape|]. intros. by apply alike_word. }
  - assert (ptr_to l0 ai b = ptr_to l ai b) as Ep.
    { apply same_shape_ptr; [by apply alike_shape|]. destruct Hch as (a & Ea & _). by exists a. }
    split; [|split].
    + eapply chain_collected; [by eapply alike_heap|by eapply alike_marks|done|done|by rewrite Ep].
    + eapply same_shape_trans; [by apply alike_shape|by eapply collected_shape].
    + intros aj i. by rewrite (collected_word _ _ _ _ _ Hc), (alike_word _ _ _ _ Ha).
Qed.

(** An allocation leaves the other chains, and is a chain itself. *)
Lemma allocated_chain l l' ptr new ai' s ai b n : (0 < new)%nat -> heap_ok l -> allocated l l' ptr new ai' s ->
  chain_at l ai b n ->
  chain_at l' ai b n /\ chain_at l' ai' s new /\
  (forall j j', (j < n)%nat -> (j' < new)%nat -> (ai, b + j)%nat <> (ai', s + j')%nat) /\ ptr = ptr_to l' ai' s.
Proof.
  intros Hnew Hl [(a & Ea & Ep & Hs & Hr) Hk Hw Hsh] Hch.
  apply chain_at_kdl in Hch as (Hbd & Hn & Hkb & Ht & He).
  assert (forall j, (j < new)%nat -> kdl l (ai', s + j)%nat = AT_FREE) as Hfree.
  { intros j Hj. unfold kdl. cbn [fst snd]. rewrite Ea. apply Hr. lia. }
  assert (forall j, (j < n)%nat -> kdl l (ai, b + j)%nat <> AT_FREE) as Hused.
  { intros j Hj. destruct j as [|j]; [rewrite Nat.add_0_r; by rewrite Hkb|]. by rewrite Ht by lia. }
  assert (forall j j', (j < n)%nat -> (j' < new)%nat -> (ai, b + j)%nat <> (ai', s + j')%nat) as Hdis.
  { intros j j' Hj Hj' E. apply (Hused j Hj). rewrite E. by apply Hfree. }
  assert (forall x, (forall j, (j < new)%nat -> x <> (ai', s + j)%nat) -> kdl l' x = kdl l x) as Hout.
  { intros [aj c] Hx. rewrite Hk. unfold taken. cbn [fst snd]. rewrite bool_decide_eq_false_2; [done|].
    intros [-> Hc]. apply (Hx (c - s)%nat); [lia|]. f_equal. lia. }
  split; [|split; [|split; [done|]]].
  - apply chain_at_kdl. split; [by apply (same_shape_bound l)|]. split; [done|].
    assert (forall j, (j < n)%nat -> kdl l' (ai, b + j)%nat = kdl l (ai, b + j)%nat) as Hin.
    { intros j Hj. apply Hout. intros j' Hj'. by apply Hdis. }
    split; [|split].
    + specialize (Hin 0%nat Hn). rewrite Nat.add_0_r in Hin. by rewrite Hin.
    + intros j Hj. rewrite Hin by lia. by apply Ht.
    + rewrite Hk. unfold taken. cbn [fst snd]. case_bool_decide as Hc; [|done]. destruct Hc as [-> Hc].
      destruct (Nat.eqb_spec (b + n) s) as [|Hne]; [done|]. exfalso.
      apply (Hdis (n - 1)%nat (b + n - 1 - s)%nat); [lia|lia|f_equal; lia].
  - apply chain_at_kdl. split; [apply (same_shape_bound l); [done|by exists a]|]. split; [done|].
    rewrite !Hk. unfold taken. cbn [fst snd]. split; [|split].
    + rewrite bool_decide_eq_true_2 by (split; [done|lia]). by rewrite Nat.eqb_refl.
    + intros j Hj. rewrite Hk. unfold taken. cbn [fst snd]. rewrite bool_decide_eq_true_2 by (split; [done|lia]).
      by rewrite (proj2 (Nat.eqb_neq (s + j) s)) by lia.
    + rewrite bool_decide_eq_false_2 by lia. unfold kdl. cbn [fst snd]. rewrite Ea.
      pose proof (ok_tails a (heap_areas l Hl ai' a Ea) (s + new - 1)) as Htl. intros E.
      apply Htl; [by replace (S (s + new - 1)) with (s + new)%nat by lia|]. apply Hr. lia.
  - destruct (Hsh ai' a Ea) as (a' & Ea' & E & _). unfold ptr_to, PTR_FROM_BLOCK in *. by rewrite Ea', E.
Qed.

(** [memcpy] between two chains. *)
Record copied (l l' : list mp_state_mem_area) (ai b ai' s n : nat) : Prop := {
  cp_kinds : forall x, kdl l' x = kdl l x;
  cp_words : forall aj i, word l' aj i =
    if bool_decide (aj = ai' /\ (s * WORDS_PER_BLOCK <= i < (s + n) * WORDS_PER_BLOCK)%nat)
    then word l ai (b * WORDS_PER_BLOCK + (i - s * WORDS_PER_BLOCK)) else word l aj i;
  cp_shape : same_shape l l';
}.

Lemma write_blocks_ok a block ws : area_ok a -> (block * WORDS_PER_BLOCK + length ws <= length (pool a))%nat ->
  area_ok (write_blocks a block ws) /\ same_bounds a (write_blocks a block ws).
Proof.
  intros Ha Hl. pose proof (write_blocks_length a block ws Hl) as Lp. destruct Ha. split; [|by split_and!].
  split; try done. by rewrite Lp.
Qed.

Lemma block_words_lookup a b n i : (i < n * WORDS_PER_BLOCK)%nat -> block_words a b n !! i = pool a !! (b * WORDS_PER_BLOCK + i)%nat.
Proof. intros Hi. unfold block_words. by rewrite lookup_take_lt, lookup_drop. Qed.

Lemma block_words_length a b n : area_ok a -> (b + n <= n_blocks_of a)%nat -> length (block_words a b n) = (n * WORDS_PER_BLOCK)%nat.
Proof.
  intros Ha Hb. unfold block_words. rewrite length_take, length_drop, (ok_pool a Ha). unfold WORDS_PER_BLOCK. lia.
Qed.

Lemma copy_blocks_ok m ai b n ai' s new : mem_ok m -> chain_at (areas m) ai b n -> chain_at (areas m) ai' s new ->
  (n <= new)%nat ->
  exists m', copy_blocks m (ptr_to (areas m) ai' s) (ptr_to (areas m) ai b) n = Some m' /\ mem_ok m' /\
    copied (areas m) (areas m') ai b ai' s n /\ gc_lock_depth m' = gc_lock_depth m.
Proof.
  intros Hm (a & Ea & Hb & _ & Hc) (d & Ed & Hs & _ & Hc') Hle. pose proof (mem_heap m Hm) as Hl.
  pose proof (heap_areas _ Hl ai a Ea) as Ha. pose proof (heap_areas _ Hl ai' d Ed) as Hd.
  destruct Hc as (Hn & _). destruct Hc' as (Hn' & _). unfold copy_blocks, ptr_to. rewrite Ea, Ed.
  destruct (ptr_area_from_block _ ai a b Hl Ea ltac:(lia)) as [-> Eb]. cbn [mbind option_bind]. rewrite Ea. cbn [mbind option_bind].
  destruct (ptr_area_from_block _ ai' d s Hl Ed ltac:(lia)) as [-> Es]. cbn [mbind option_bind]. rewrite Ed. cbn [mbind option_bind].
  rewrite Eb, Es.
  pose proof (block_words_length a b n Ha ltac:(lia)) as Lw.
  assert (s * WORDS_PER_BLOCK + length (block_words a b n) <= length (pool d))%nat as Hp.
  { rewrite Lw, (ok_pool d Hd). unfold WORDS_PER_BLOCK. lia. }
  destruct (write_blocks_ok d s _ Hd Hp) as [Hd' Hsb].
  assert (forall x, kdl (<[ai' := write_blocks d s (block_words a b n)]> (areas m)) x = kdl (areas m) x) as Hk.
  { intros x. rewrite (replace_kdl _ _ d _ Ed). case_bool_decide as E; [|done]. unfold kdl. by rewrite E, Ed. }
  eexists. split; [done|]. split; [split|split; [split|done]]; cbn [areas with_areas].
  - exact (replace_heap _ _ d _ Ed Hsb Hl Hd').
  - intros x. rewrite Hk. apply (mem_marks m Hm).
  - rewrite length_insert. apply (mem_area m Hm).
  - intros aj c e Hj Ec He. apply (replace_lookup _ _ d _ Ed) in Ec as [[-> ->]|[_ Ec]]; [|by apply (mem_full m Hm aj)].
    exact (mem_full m Hm ai' d e Hj Ed He).
  - exact Hk.
  - intros aj i. rewrite (replace_word _ _ d _ Ed). case_bool_decide as E.
    + subst aj. rewrite write_blocks_lookup, Lw by done. unfold word. rewrite Ea, Ed. cbn [mbind option_bind].
      replace ((s + n) * WORDS_PER_BLOCK)%nat with (s * WORDS_PER_BLOCK + n * WORDS_PER_BLOCK)%nat by lia.
      repeat case_bool_decide; try done; [|exfalso; intuition lia|exfalso; intuition lia]. apply block_words_lookup. lia.
    + by rewrite bool_decide_eq_false_2 by (intros [? _]; done).
  - intros aj c Ec. by eapply replace_shape.
Qed.

(** The chain at [(ai', b')] of [l'] has [new] blocks, whose words are those
    of the chain of [n] blocks at [(ai, b)] of [l], and zeros. *)
Record resized (l l' : list mp_state_mem_area) (ai b n ai' b' new : nat) : Prop := {
  rs_chain : chain_at l' ai' b' new;
  rs_kept : forall i, (i < Nat.min n new * WORDS_PER_BLOCK)%nat ->
    word l' ai' (b' * WORDS_PER_BLOCK + i) = word l ai (b * WORDS_PER_BLOCK + i);
  rs_zero : forall i, (n * WORDS_PER_BLOCK <= i < new * WORDS_PER_BLOCK)%nat ->
    word l' ai' (b' * WORDS_PER_BLOCK + i) = Some 0;
}.

Lemma resized_same l l' ai b n : chain_at l' ai b n -> (forall aj i, word l' aj i = word l aj i) ->
  resized l l' ai b n ai b n.
Proof. intros Hc Hw. split; [done|intros; apply Hw|unfold WORDS_PER_BLOCK; intros; lia]. Qed.

Lemma resized_shrink l l' ai b n new : (0 < new < n)%nat -> chain_at l ai b n -> released l l' ai (b + new) (n - new) ->
  resized l l' ai b n ai b new.
Proof.
  intros Hnew (Hbd & Hn & Hk & Ht & He)%chain_at_kdl [Rk Rw Rs]. split; [|intros; apply Rw|unfold WORDS_PER_BLOCK; intros; lia].
  assert (forall j, (j < new)%nat -> kdl l' (ai, b + j)%nat = kdl l (ai, b + j)%nat) as Hin.
  { intros j Hj. rewrite Rk. cbn [fst snd]. by rewrite bool_decide_eq_false_2 by lia. }
  apply chain_at_kdl. split; [|split; [lia|split; [|split]]].
  - apply (same_shape_bound l); [done|]. destruct Hbd as (a & Ea & Hb). exists a. split; [done|lia].
  - specialize (Hin 0%nat ltac:(lia)). rewrite Nat.add_0_r in Hin. by rewrite Hin.
  - intros j Hj. rewrite Hin by lia. apply Ht. lia.
  - rewrite Rk. cbn [fst snd]. by rewrite bool_decide_eq_true_2 by lia.
Qed.

Lemma resized_grow l l' ai b n nf new : (n < new <= n + nf)%nat -> chain_at l ai b n -> heap_ok l ->
  (exists a, l !! ai = Some a /\ (b + n + nf <= n_blocks_of a)%nat /\ free_run (kda a) (b + n) nf) ->
  grown l l' ai (b + n) (new - n) -> resized l l' ai b n ai b new.
Proof.
  intros Hnew Hch Hl (a & Ea & Hb & Hr) [Gk Gw Gs]. pose proof (heap_areas l Hl ai a Ea) as Ha.
  apply chain_at_kdl in Hch as (_ & Hn & Hk & Ht & He). split.
  - apply chain_at_kdl. split; [apply (same_shape_bound l); [done|exists a; split; [done|lia]]|]. split; [lia|].
    split; [|split].
    + rewrite Gk. cbn [fst snd]. by rewrite bool_decide_eq_false_2 by lia.
    + intros j Hj. rewrite Gk. cbn [fst snd]. case_bool_decide as Hc; [done|]. apply Ht. lia.
    + rewrite Gk. cbn [fst snd]. rewrite bool_decide_eq_false_2 by lia. unfold kdl. cbn [fst snd]. rewrite Ea.
      intros E. apply (ok_tails a Ha (b + new - 1)); [by replace (S (b + new - 1)) with (b + new)%nat by lia|]. apply Hr. lia.
  - intros i Hi. rewrite Gw. rewrite bool_decide_eq_false_2; [done|]. unfold WORDS_PER_BLOCK in *. lia.
  - intros i Hi. rewrite Gw. rewrite bool_decide_eq_true_2; [done|]. unfold WORDS_PER_BLOCK in *. split; [done|lia].
Qed.

(** ** [gc_realloc] *)

(** The chain keeps its blocks and words. *)
Definition kept (l l' : list mp_state_mem_area) (ai b n : nat) : Prop :=
  chain_at l' ai b n /\ forall i, (i < n * WORDS_PER_BLOCK)%nat ->
    word l' ai (b * WORDS_PER_BLOCK + i) = word l ai (b * WORDS_PER_BLOCK + i).

Section gc_realloc.
Context (state_roots stack_roots : list Z).
Let roots := state_roots ++ stack_roots.

(** What [gc_realloc] did: in place only the blocks of the chain, or those
    after it, change; a move is an allocation and a free. *)
Definition realloc_result (m m' : mp_state_mem) (ai b n new : nat) (ptr : Z) : Prop :=
  mem_ok m' /\ gc_lock_depth m' = gc_lock_depth m /\
  if ptr =? 0 then kept (areas m) (areas m') ai b n
  else exists ai' b', ptr = ptr_to (areas m') ai' b' /\ resized (areas m) (areas m') ai b n ai' b' new /\
    ((ai', b') = (ai, b) \/ kdl (areas m') (ai, b) = AT_FREE).

(** The words of a chain after an allocation of other blocks. *)
Lemma allocated_words l l' ptr new ai' s ai b n i : allocated l l' ptr new ai' s ->
  (forall j j', (j < n)%nat -> (j' < new)%nat -> (ai, b + j)%nat <> (ai', s + j')%nat) ->
  (i < n * WORDS_PER_BLOCK)%nat -> word l' ai (b * WORDS_PER_BLOCK + i) = word l ai (b * WORDS_PER_BLOCK + i).
Proof.
  intros Hal Hdis Hi. rewrite (al_words _ _ _ _ _ _ Hal). rewrite bool_decide_eq_false_2; [done|]. intros [-> Hc].
  unfold WORDS_PER_BLOCK in *. apply (Hdis (i / 4)%nat (b + i / 4 - s)%nat).
  - apply Nat.Div0.div_lt_upper_bound. lia.
  - pose proof (Nat.div_mod_eq i 4). pose proof (Nat.mod_upper_bound i 4 ltac:(done)). lia.
  - pose proof (Nat.div_mod_eq i 4). pose proof (Nat.mod_upper_bound i 4 ltac:(done)). f_equal. lia.
Qed.

Lemma copied_chain l l' ai b ai' s n aj c k : copied l l' ai b ai' s n -> chain_at l aj c k -> chain_at l' aj c k.
Proof.
  intros [Ck _ Cs] (Hbd & Hk0 & Hkk & Ht & He)%chain_at_kdl. apply chain_at_kdl. rewrite !Ck.
  split; [by apply (same_shape_bound l)|]. split; [done|]. split; [done|]. split; [|done]. intros j Hj. rewrite Ck. by apply Ht.
Qed.

Lemma chain_ptr l l' ai b n : same_shape l l' -> chain_at l ai b n -> ptr_to l' ai b = ptr_to l ai b.
Proof. intros Hs (a & Ea & _). apply same_shape_ptr; [done|by exists a]. Qed.

Lemma released_chain l l' ai b n ai' s new : released l l' ai b n -> chain_at l ai' s new ->
  (forall j j', (j < n)%nat -> (j' < new)%nat -> (ai, b + j)%nat <> (ai', s + j')%nat) -> chain_at l' ai' s new.
Proof.
  intros [Rk _ Rs] (Hbd & Hn0 & Hkk & Ht & He)%chain_at_kdl Hdis.
  assert (forall j, (j < new)%nat -> kdl l' (ai', s + j)%nat = kdl l (ai', s + j)%nat) as Hin.
  { intros j Hj. rewrite Rk. cbn [fst snd]. rewrite bool_decide_eq_false_2; [done|]. intros [-> Hc].
    apply (Hdis (s + j - b)%nat j); [lia|done|f_equal; lia]. }
  apply chain_at_kdl. split; [by apply (same_shape_bound l)|]. split; [done|]. split; [|split].
  - specialize (Hin 0%nat Hn0). rewrite Nat.add_0_r in Hin. by rewrite Hin.
  - intros j Hj. rewrite Hin by lia. by apply Ht.
  - rewrite Rk. case_bool_decide; [done|exact He].
Qed.

(** The words of the new chain, after the copy. *)
Lemma moved_words l0 l1 l2 ptr ai b n ai' s new : allocated l0 l1 ptr new ai' s -> copied l1 l2 ai b ai' s n ->
  (forall j j', (j < n)%nat -> (j' < new)%nat -> (ai, b + j)%nat <> (ai', s + j')%nat) -> (n < new)%nat ->
  (forall i, (i < n * WORDS_PER_BLOCK)%nat ->
    word l2 ai' (s * WORDS_PER_BLOCK + i) = word l0 ai (b * WORDS_PER_BLOCK + i)) /\
  forall i, (n * WORDS_PER_BLOCK <= i < new * WORDS_PER_BLOCK)%nat -> word l2 ai' (s * WORDS_PER_BLOCK + i) = Some 0.
Proof.
  intros Hal Hcp Hdis Hnew. split; intros i Hi; rewrite (cp_words _ _ _ _ _ _ _ Hcp).
  - rewrite bool_decide_eq_true_2 by (split; [done|unfold WORDS_PER_BLOCK in *; lia]).
    replace (s * WORDS_PER_BLOCK + i - s * WORDS_PER_BLOCK)%nat with i by lia.
    exact (allocated_words _ _ _ _ _ _ _ _ _ _ Hal Hdis Hi).
  - rewrite bool_decide_eq_false_2 by (unfold WORDS_PER_BLOCK in *; lia). rewrite (al_words _ _ _ _ _ _ Hal).
    rewrite bool_decide_eq_true_2; [done|]. split; [done|unfold WORDS_PER_BLOCK in *; lia].
Qed.

Lemma move_ok m m1 ai b n new c l ai' s ptr : mem_ok m -> mem_ok m1 -> gc_lock_depth m1 <= 0 ->
  gc_lock_depth m1 = gc_lock_depth m -> prepared roots c (areas m) l ->
  allocated l (areas m1) ptr new ai' s -> chain_at (areas m) ai b n -> ptr_to (areas m) ai b ∈ roots -> (n < new)%nat ->
  ptr <> 0 ->
  exists m', (m2 ← copy_blocks m1 ptr (ptr_to (areas m) ai b) n; m3 ← gc_free m2 (ptr_to (areas m) ai b); Some (m3, ptr)) =
      Some (m', ptr) /\ realloc_result m m' ai b n new ptr.
Proof.
  intros Hm Hm1 Hld Hld' Hp Hal Hch Hroot Hnew Hnz.
  destruct (prepared_chain roots c _ _ ai b n (mem_heap m Hm) (mem_marks m Hm) Hp Hch Hroot) as (Hch1 & Hsh1 & Hw1).
  destruct (allocated_chain l (areas m1) ptr new ai' s ai b n ltac:(lia) (proj1 Hp) Hal Hch1) as (Hch2 & Hnew2 & Hdis & Eptr).
  assert (ptr_to (areas m1) ai b = ptr_to (areas m) ai b) as Ep.
  { rewrite <- (chain_ptr _ _ _ _ _ Hsh1 Hch). exact (chain_ptr _ _ _ _ _ (al_shape _ _ _ _ _ _ Hal) Hch1). }
  destruct (copy_blocks_ok m1 ai b n ai' s new Hm1 Hch2 Hnew2 ltac:(lia)) as (m2 & E2 & Hm2 & Hcp & Hld2).
  rewrite <- Eptr, Ep in E2. rewrite E2. cbn [mbind option_bind].
  pose proof (cp_shape _ _ _ _ _ _ _ Hcp) as Hsh2. pose proof (copied_chain _ _ _ _ _ _ _ _ _ _ Hcp Hch2) as Hch3.
  pose proof (copied_chain _ _ _ _ _ _ _ _ _ _ Hcp Hnew2) as Hnew3.
  destruct (gc_free_ok m2 ai b n Hm2 ltac:(lia) Hch3) as (m3 & E3 & Hm3 & Hre & Hld3).
  rewrite (chain_ptr _ _ _ _ _ Hsh2 Hch2), Ep in E3. rewrite E3. cbn [mbind option_bind].
  exists m3. split; [done|]. split; [done|]. split; [lia|]. rewrite (proj2 (Z.eqb_neq _ _) Hnz). exists ai', s.
  destruct (moved_words _ _ _ _ _ _ _ _ _ _ Hal Hcp Hdis Hnew) as [Hkept Hzero]. split; [|split; [split|]].
  - rewrite Eptr. symmetry. rewrite (chain_ptr _ _ _ _ _ (re_shape _ _ _ _ _ Hre) Hnew3). exact (chain_ptr _ _ _ _ _ Hsh2 Hnew2).
  - exact (released_chain _ _ _ _ _ _ _ _ Hre Hnew3 Hdis).
  - intros i Hi. rewrite Nat.min_l in Hi by lia. by rewrite (re_words _ _ _ _ _ Hre), Hkept, Hw1.
  - intros i Hi. rewrite (re_words _ _ _ _ _ Hre). by apply Hzero.
  - right. rewrite (re_kinds _ _ _ _ _ Hre). cbn [fst snd]. pose proof Hch2 as (_ & _ & _ & _ & Hn & _).
    by rewrite bool_decide_eq_true_2 by (split; [done|lia]).
Qed.

(** Not enough room: the chain is still there. *)
Lemma no_move_ok m m1 ai b n new c : mem_ok m -> mem_ok m1 -> gc_lock_depth m1 = gc_lock_depth m ->
  chain_at (areas m) ai b n -> ptr_to (areas m) ai b ∈ roots ->
  (exists l, prepared roots c (areas m) l /\ alike l (areas m1)) -> realloc_result m m1 ai b n new 0.
Proof.
  intros Hm Hm1 Hld Hch Hroot (l & Hp & Ha). split; [done|]. split; [done|]. cbn [Z.eqb].
  destruct (prepared_chain roots c _ _ ai b n (mem_heap m Hm) (mem_marks m Hm) Hp Hch Hroot) as (Hch1 & _ & Hw1).
  split; [by eapply alike_chain|]. intros i _. by rewrite (alike_word _ _ _ _ Ha), Hw1.
Qed.


(** The resizings in place. *)
Lemma realloc_place_ok m ai a b n nf new : mem_ok m -> areas m !! ai = Some a -> chain_at (areas m) ai b n ->
  free_run (kda a) (b + n) nf -> (b + n + nf <= n_blocks_of a)%nat -> (0 < new <= n + nf)%nat ->
  let ptr := ptr_to (areas m) ai b in
  exists m', (if (new =? n)%nat then Some (m, ptr) else
      if (new <? n)%nat then m ← realloc_shrink m ai b n new; Some (m, ptr)
      else m ← realloc_expand m ai b n new; Some (m, ptr)) = Some (m', ptr) /\ realloc_result m m' ai b n new ptr.
Proof.
  intros Hm Ea Hch Hr Hnf Hnew. cbn zeta. pose proof Hch as (a0 & Ea0 & Hb & Hk & Hc). rewrite Ea in Ea0. injection Ea0 as <-.
  assert (ptr_to (areas m) ai b <> 0) as Hnz.
  { unfold ptr_to. rewrite Ea. apply ptr_not_null. by apply (heap_areas _ (mem_heap m Hm) ai). }
  assert (forall m', mem_ok m' -> gc_lock_depth m' = gc_lock_depth m ->
    same_shape (areas m) (areas m') -> resized (areas m) (areas m') ai b n ai b new ->
    realloc_result m m' ai b n new (ptr_to (areas m) ai b)) as Hplace.
  { intros m' Hm' Hl' Hs Hr'. split; [done|]. split; [done|]. rewrite (proj2 (Z.eqb_neq _ 0)) by done.
    exists ai, b. rewrite (chain_ptr _ _ _ _ _ Hs Hch). auto. }
  destruct (Nat.eqb_spec new n) as [E|E]; [|destruct (Nat.ltb_spec new n) as [L|L]].
  - exists m. split; [done|]. apply Hplace; try done; [intros aj c Ec; exists c; by split_and!|rewrite E; by apply resized_same].
  - destruct (realloc_shrink_ok m ai a b n new Hm Ea Hc Hb ltac:(lia)) as (m' & -> & Hm' & Hre & Hl'). cbn [mbind option_bind].
    exists m'. split; [done|]. apply Hplace; try done; [exact (re_shape _ _ _ _ _ Hre)|]. by apply resized_shrink; [lia| |].
  - destruct (realloc_expand_ok m ai a b n nf new Hm Ea Hc Hk Hr Hnf ltac:(lia)) as (m' & -> & Hm' & Hgr & Hl'). cbn [mbind option_bind].
    exists m'. split; [done|]. apply Hplace; try done; [exact (gr_shape _ _ _ _ _ Hgr)|].
    eapply (resized_grow _ _ _ _ _ nf); [lia|done|apply (mem_heap m Hm)|by exists a|done].
Qed.

Lemma gc_realloc_ok m ai b n n_bytes allow_move :
  mem_ok m -> gc_lock_depth m <= 0 -> 0 < n_bytes -> n_bytes + BYTES_PER_BLOCK <= 2 ^ 32 ->
  chain_at (areas m) ai b n -> ptr_to (areas m) ai b ∈ roots ->
  exists m' ptr, gc_realloc m (ptr_to (areas m) ai b) n_bytes allow_move state_roots stack_roots = Some (m', ptr) /\
    realloc_result m m' ai b n (blocks_for n_bytes) ptr.
Proof.
  intros Hm Hld Hnb Hbound Hch Hroot. pose proof Hch as (a & Ea & Hb & Hk & Hc). pose proof (mem_heap m Hm) as Hl.
  pose proof (heap_areas _ Hl ai a Ea) as Ha. pose proof Hc as (Hn & _ & _). pose proof (blocks_for_pos n_bytes Hnb) as Hnew.
  assert (ptr_to (areas m) ai b = PTR_FROM_BLOCK a b) as Ep by (unfold ptr_to; by rewrite Ea).
  assert (PTR_FROM_BLOCK a b <> 0) as Hnz by (by apply ptr_not_null).
  unfold gc_realloc, gc_realloc_with. rewrite Ep, (proj2 (Z.eqb_neq _ 0) Hnz), (proj2 (Z.eqb_neq n_bytes 0)) by lia.
  rewrite Z.gtb_ltb, (proj2 (Z.ltb_ge 0 _)) by done.
  destruct (ptr_area_from_block _ ai a b Hl Ea ltac:(lia)) as [-> Eb]. cbn [mbind option_bind]. rewrite Ea. cbn [mbind option_bind].
  rewrite Eb, (ok_kind a b Ha) by lia. cbn [mbind option_bind]. rewrite Hk. cbn [Z.eqb negb AT_HEAD Pos.eqb].
  rewrite wrapu_small by (unfold BYTES_PER_BLOCK in *; lia). fold (blocks_for n_bytes). set (new := blocks_for n_bytes) in *.
  destruct (count_blocks_spec (gc_alloc_table a) b n (n_blocks_of a) 1 new Hc) as (nf & -> & Hr & Hnf);
    [lia|done|apply ok_in_table; [done|lia]|apply (ok_tails a Ha)|].
  cbn [mbind option_bind]. destruct (Nat.leb_spec new (n + nf)) as [L|L].
  { destruct (realloc_place_ok m ai a b n nf new Hm Ea Hch Hr Hnf ltac:(lia)) as (m' & E' & Hr'). rewrite Ep in E', Hr'.
    by exists m', (PTR_FROM_BLOCK a b). }
  rewrite (proj2 (Nat.eqb_neq new n)), (proj2 (Nat.ltb_ge new n)) by lia. destruct allow_move; cbn [negb].
  2: { exists m, 0. split; [done|]. split; [done|]. split; [done|]. cbn [Z.eqb]. split; [done|]. by intros. }
  destruct (gc_alloc_ok state_roots stack_roots m n_bytes Hm Hld Hnb Hbound) as (m1 & ptr & E1 & Hm1 & Hl1 & Hres).
  unfold gc_alloc in E1. rewrite E1. cbn [mbind option_bind].
  destruct Hres as [(c & l & ai' & s & Hp & _ & Hpz & Hal)|(l & Hp & -> & _ & Hal)].
  - rewrite (proj2 (Z.eqb_neq ptr 0) Hpz), <- Ep.
    destruct (move_ok m m1 ai b n new c l ai' s ptr Hm Hm1 ltac:(lia) Hl1 Hp Hal Hch Hroot ltac:(lia) Hpz) as (m' & E' & Hr').
    by exists m', ptr.
  - exists m1, 0. split; [done|]. eapply no_move_ok; try done. by exists l.
Qed.
End gc_realloc.
