(* ===== verification/GcProps.v ===== *)
(** The properties of the garbage collector: setting up, allocating, freeing,
    resizing and collecting keep the heap well-formed and do what they
    promise. *)

From Stdlib Require Import ZArith Lia.
From stdpp Require Import base option list numbers.
From S2P Require Import Prelude Gc GcTable GcHeap GcMark GcCollect GcAlloc GcFree.

(** * Setting up *)

Lemma kd_zeros n b : kd (replicate n 0) b = AT_FREE.
Proof.
  unfold kd, ATB_GET_KIND. destruct (replicate n 0 !! _) as [a|] eqn:E; [|done].
  apply lookup_replicate in E as [-> _]. cbn. unfold byte_kind. by rewrite Z.shiftr_0_l.
Qed.

Lemma align_end_spec e : align_end e mod BYTES_PER_BLOCK = 0 /\ e - BYTES_PER_BLOCK < align_end e <= e.
Proof.
  unfold align_end, BYTES_PER_BLOCK. change (16 - 1) with (Z.ones 4). rewrite <- Z.ldiff_land, Z.ldiff_ones_r by done.
  rewrite Z.shiftl_mul_pow2, Z.shiftr_div_pow2 by done. change (2 ^ 4) with 16.
  pose proof (Z.div_mod e 16 ltac:(done)). pose proof (Z.mod_pos_bound e 16 ltac:(done)).
  split; [by apply Z.mod_mul|lia].
Qed.

(** The number of blocks of an area, and the room they need. *)
Definition setup_blocks (start e : Z) : nat := n_blocks_of (gc_setup_area start e []).

Lemma setup_area_spec start e mem : 0 < start -> start < e -> e mod BYTES_PER_BLOCK = 0 ->
  length mem = (setup_blocks start e * WORDS_PER_BLOCK)%nat ->
  area_ok (gc_setup_area start e mem) /\
  start + Z.of_nat (length (gc_alloc_table (gc_setup_area start e mem))) <= gc_pool_start (gc_setup_area start e mem) /\
  gc_pool_end (gc_setup_area start e mem) = e.
Proof.
  intros Hs He Hm Hl. set (len := (e - start - 1) / 65).
  pose proof (Z.div_pos (e - start - 1) 65 ltac:(lia) ltac:(done)) as Hlen. fold len in Hlen.
  pose proof (Z.mul_div_le (e - start - 1) 65 ltac:(done)) as Hle. fold len in Hle.
  assert (gc_setup_area start e mem =
    {| gc_alloc_table := replicate (Z.to_nat (len + 1)) 0; gc_alloc_table_byte_len := Z.to_nat len;
       gc_pool_start := e - len * 4 * 16; gc_pool_end := e; gc_last_free_atb_index := 0; gc_last_used_block := 0;
       pool := mem |}) as E by done.
  assert (setup_blocks start e = (Z.to_nat len * 4)%nat) as Eb by done. rewrite Eb in Hl.
  rewrite E. split; [|split; [|done]].
  - split; cbn [gc_alloc_table gc_alloc_table_byte_len gc_pool_start gc_pool_end gc_last_free_atb_index
      gc_last_used_block pool]; unfold n_blocks_of; cbn [gc_alloc_table_byte_len].
    + rewrite length_replicate. lia.
    + apply Forall_replicate. split; done.
    + intros b _. apply kd_zeros.
    + by rewrite kd_zeros.
    + intros b. by rewrite kd_zeros.
    + intros b _. apply kd_zeros.
    + intros b Hb. lia.
    + unfold BYTES_PER_BLOCK in *. split; [lia|]. rewrite Zminus_mod, Hm, Z.mod_mul by done. done.
    + unfold BYTES_PER_BLOCK, BLOCKS_PER_ATB. lia.
    + exact Hl.
  - cbn [gc_alloc_table gc_pool_start]. rewrite length_replicate. lia.
Qed.

Lemma setup_no_marks start e mem b : kda (gc_setup_area start e mem) b <> AT_MARK.
Proof. unfold gc_setup_area. cbn [gc_alloc_table]. by rewrite kd_zeros. Qed.

Lemma gc_init_ok start e mem : 0 < start -> start < align_end e ->
  length mem = (setup_blocks start (align_end e) * WORDS_PER_BLOCK)%nat -> mem_ok (gc_init start e mem).
Proof.
  intros Hs He Hl. destruct (align_end_spec e) as [Hm _].
  destruct (setup_area_spec start (align_end e) mem Hs He Hm Hl) as (Ha & _). split; cbn [areas gc_init gc_last_free_area].
  - split.
    + intros [|ai] a E; [by injection E as <-|done].
    + intros [|i] [|j] a a' E E' Hne; done.
  - intros [[|ai] b]; [apply setup_no_marks|done].
  - cbn. lia.
  - intros ai a b Hj. lia.
Qed.

Lemma gc_add_ok m start e mem : mem_ok m -> 0 < start + SIZEOF_AREA -> start + SIZEOF_AREA < align_end e ->
  length mem = (setup_blocks (start + SIZEOF_AREA) (align_end e) * WORDS_PER_BLOCK)%nat ->
  (forall ai a, areas m !! ai = Some a -> gc_pool_end a <= start \/ e <= gc_pool_start a) ->
  mem_ok (gc_add m start e mem).
Proof.
  intros Hmo Hs He Hl Hap. destruct (align_end_spec e) as [Hm Hae].
  destruct (setup_area_spec (start + SIZEOF_AREA) (align_end e) mem Hs He Hm Hl) as (Ha & Hlo & Hhi).
  set (n := gc_setup_area (start + SIZEOF_AREA) (align_end e) mem) in *.
  assert (forall ai a, areas m !! ai = Some a -> apart a n) as Hn.
  { intros ai a E. unfold apart. rewrite Hhi. destruct (Hap ai a E); [left|right]; unfold SIZEOF_AREA in *; lia. }
  assert (forall ai a, (areas m ++ [n]) !! ai = Some a -> areas m !! ai = Some a \/ (ai = length (areas m) /\ a = n)) as Hcase.
  { intros ai a E. apply lookup_app_Some in E as [E|[Hge E]]; [by left|right].
    apply list_lookup_singleton_Some in E as [E ->]. split; [lia|done]. }
  split; cbn [areas gc_add with_areas gc_last_free_area].
  - split.
    + intros ai a [E|[_ ->]]%Hcase; [by apply (heap_areas _ (mem_heap m Hmo) ai)|done].
    + intros i j a a' [E|[Ei ->]]%Hcase [E'|[Ej ->]]%Hcase Hne.
      * exact (heap_apart _ (mem_heap m Hmo) i j a a' E E' Hne).
      * by apply (Hn i).
      * pose proof (Hn j a' E') as Hj. unfold apart in *. lia.
      * by destruct Hne; subst.
  - intros [ai b]. unfold kdl. fold n. cbn [fst snd]. destruct ((areas m ++ [n]) !! ai) as [a|] eqn:E; [|done].
    apply Hcase in E as [E|[-> ->]]; [|apply setup_no_marks]. pose proof (mem_marks m Hmo (ai, b)) as Hx.
    unfold kdl in Hx. cbn in Hx. by rewrite E in Hx.
  - rewrite length_app. pose proof (mem_area m Hmo). cbn. lia.
  - intros ai a b Hj [E|[-> _]]%Hcase; [by apply (mem_full m Hmo ai)|]. pose proof (mem_area m Hmo). lia.
Qed.

(** * Properties *)

(** [gc_init], [gc_add]: the allocation table and the pool of an area lie
    in the memory given, one after the other, with whole aligned blocks; the
    heap so set up, and extended by memory apart from it, is well-formed. *)
Theorem gc_setup_spec start e mem : 0 < start -> start < align_end e ->
  length mem = (setup_blocks start (align_end e) * WORDS_PER_BLOCK)%nat ->
  mem_ok (gc_init start e mem) /\
  (let a := gc_setup_area start (align_end e) mem in
   start + Z.of_nat (length (gc_alloc_table a)) <= gc_pool_start a /\ gc_pool_end a <= e) /\
  forall start' e' mem', 0 < start' -> start' + SIZEOF_AREA < align_end e' -> e <= start' \/ e' <= start ->
    length mem' = (setup_blocks (start' + SIZEOF_AREA) (align_end e') * WORDS_PER_BLOCK)%nat ->
    mem_ok (gc_add (gc_init start e mem) start' e' mem').
Proof.
  intros Hs He Hl. destruct (align_end_spec e) as [Hm Hae].
  destruct (setup_area_spec start (align_end e) mem Hs He Hm Hl) as (Ha & Hlo & Hhi).
  pose proof (gc_init_ok start e mem Hs He Hl) as Hok. split; [done|]. split; [cbn zeta; lia|].
  intros start' e' mem' Hs' He' Hap Hl'. apply gc_add_ok; try done; [unfold SIZEOF_AREA; lia|].
  intros [|ai] a E; [|done]. injection E as <-. rewrite Hhi. destruct Hap; [left|right]; lia.
Qed.

(** C16: [gc_collect]: the marking ends, however often its stack of 64 blocks
    overflows, and what survives the sweep is exactly every chain whose head is
    reachable from the roots, whole and with its contents. *)
Theorem gc_collect_spec m state_roots stack_roots : mem_ok m ->
  exists m', gc_collect m state_roots stack_roots = Some m' /\ mem_ok m' /\
    collected (root (areas m) (state_roots ++ stack_roots)) (areas m) (areas m').
Proof. intros Hm. destruct (gc_collect_ok m state_roots stack_roots Hm) as (m' & -> & Hm' & Hc & _). by exists m'. Qed.

(** C17: [gc_alloc]: the memory returned was free, is as many blocks as asked
    for, and is cleared, and no other block or word changes; null is returned
    only when no area has such a run of free blocks, after a collection unless
    automatic collection is off. *)
Theorem gc_alloc_spec m n_bytes state_roots stack_roots :
  mem_ok m -> gc_lock_depth m <= 0 -> 0 < n_bytes -> n_bytes + BYTES_PER_BLOCK <= 2 ^ 32 ->
  exists m' ptr, gc_alloc m n_bytes state_roots stack_roots = Some (m', ptr) /\
    alloc_result (state_roots ++ stack_roots) (gc_auto_collect_enabled m) m m' ptr (blocks_for n_bytes).
Proof. apply gc_alloc_ok. Qed.

(** C19: [gc_free], [gc_nbytes]: [gc_nbytes] is the size of the chain a pointer
    heads, and [gc_free] frees exactly that chain, so that later searches find
    its blocks. *)
Theorem gc_free_spec m ai b n : mem_ok m -> gc_lock_depth m <= 0 -> chain_at (areas m) ai b n ->
  gc_nbytes m (ptr_to (areas m) ai b) = Some (Z.of_nat n * BYTES_PER_BLOCK) /\
  exists m', gc_free m (ptr_to (areas m) ai b) = Some m' /\ mem_ok m' /\ released (areas m) (areas m') ai b n.
Proof.
  intros Hm Hld Hch. split.
  - pose proof Hch as (a & Ea & Hb & Hk & Hc). pose proof (heap_areas _ (mem_heap m Hm) ai a Ea) as Ha.
    pose proof Hc as (Hn & _). unfold gc_nbytes, ptr_to. rewrite Ea.
    destruct (ptr_area_from_block (areas m) ai a b (mem_heap m Hm) Ea ltac:(lia)) as [-> Eb]. rewrite Ea. cbn [mbind option_bind].
    rewrite Eb, (ok_kind a b Ha) by lia. cbn [mbind option_bind]. rewrite Hk. cbn [Z.eqb AT_HEAD Pos.eqb].
    destruct (ok_chain a b Ha ltac:(lia)) as (n' & -> & Hc' & _). by rewrite (chain_unique _ _ _ _ Hc' Hc).
  - destruct (gc_free_ok m ai b n Hm Hld Hch) as (m' & -> & Hm' & Hr & _). by exists m'.
Qed.

(** C18: [gc_realloc]: for a chain the roots hold, the memory returned is as many
    blocks as asked for, keeps the words of the chain up to the smaller size
    and has zeros after them; when it moves the old blocks are freed, and when
    null is returned the chain and its words are as before. *)
Theorem gc_realloc_spec m ai b n n_bytes allow_move state_roots stack_roots :
  mem_ok m -> gc_lock_depth m <= 0 -> 0 < n_bytes -> n_bytes + BYTES_PER_BLOCK <= 2 ^ 32 ->
  chain_at (areas m) ai b n -> ptr_to (areas m) ai b ∈ state_roots ++ stack_roots ->
  exists m' ptr, gc_realloc m (ptr_to (areas m) ai b) n_bytes allow_move state_roots stack_roots = Some (m', ptr) /\
    realloc_result m m' ai b n (blocks_for n_bytes) ptr.
Proof. apply gc_realloc_ok. Qed.

(** * A heap of two areas *)

Definition heap0 : mp_state_mem :=
  gc_add (gc_init 4096 4240 (replicate 32 0)) 8192 8360 (replicate 32 0).

Lemma heap0_ok : mem_ok heap0.
Proof.
  unfold heap0. apply gc_add_ok; [apply gc_init_ok|..]; try reflexivity.
  intros [|ai] a E; [|done]. injection E as <-. left. vm_compute. done.
Qed.

Lemma gc_setup_spec_witness :
  mem_ok (gc_init 4096 4240 (replicate 32 0)) /\
  (let a := gc_setup_area 4096 (align_end 4240) (replicate 32 0) in
   4096 + Z.of_nat (length (gc_alloc_table a)) <= gc_pool_start a /\ gc_pool_end a <= 4240) /\
  forall start' e' mem', 0 < start' -> start' + SIZEOF_AREA < align_end e' -> 4240 <= start' \/ e' <= 4096 ->
    length mem' = (setup_blocks (start' + SIZEOF_AREA) (align_end e') * WORDS_PER_BLOCK)%nat ->
    mem_ok (gc_add (gc_init 4096 4240 (replicate 32 0)) start' e' mem').
Proof. apply (gc_setup_spec 4096 4240 (replicate 32 0)); reflexivity. Defined.

(** Two allocations of several blocks, the first of which points to itself. *)
Definition heap1 : mp_state_mem := match gc_alloc heap0 40 [] [] with Some (m, _) => m | None => heap0 end.
Definition heap2 : mp_state_mem := match gc_alloc heap1 100 [] [] with Some (m, _) => m | None => heap1 end.

Lemma alloc_heap_ok m n : mem_ok m -> gc_lock_depth m <= 0 -> 0 < n -> n + BYTES_PER_BLOCK <= 2 ^ 32 ->
  mem_ok (match gc_alloc m n [] [] with Some (m', _) => m' | None => m end) /\
  gc_lock_depth (match gc_alloc m n [] [] with Some (m', _) => m' | None => m end) = gc_lock_depth m.
Proof.
  intros Hm Hd Hn Hb. destruct (gc_alloc_ok [] [] m n Hm Hd Hn Hb) as (m' & ptr & -> & Hm' & Hd' & _). done.
Qed.

Lemma heap2_ok : mem_ok heap2.
Proof.
  unfold heap2. apply alloc_heap_ok; [|by vm_compute..]. unfold heap1. apply alloc_heap_ok; [apply heap0_ok|by vm_compute..].
Qed.

Lemma gc_collect_spec_witness :
  exists m', gc_collect heap2 [4112] [17] = Some m' /\ mem_ok m' /\
    collected (root (areas heap2) ([4112] ++ [17])) (areas heap2) (areas m').
Proof. exact (gc_collect_spec heap2 [4112] [17] heap2_ok). Defined.

Lemma gc_alloc_spec_witness :
  exists m' ptr, gc_alloc heap2 200 [4112] [] = Some (m', ptr) /\
    alloc_result ([4112] ++ []) (gc_auto_collect_enabled heap2) heap2 m' ptr (blocks_for 200).
Proof. apply (gc_alloc_spec heap2 200 [4112] [] heap2_ok); by vm_compute. Defined.

Lemma heap2_chain : chain_at (areas heap2) 0 0 3.
Proof.
  apply chain_at_kdl. split; [eexists; split; [reflexivity|vm_compute; lia]|]. split; [lia|]. split; [reflexivity|].
  split; [|by vm_compute]. intros j Hj. assert (j = 1 \/ j = 2)%nat as [-> | ->] by lia; reflexivity.
Qed.

Lemma gc_free_spec_witness :
  gc_nbytes heap2 (ptr_to (areas heap2) 0 0) = Some (Z.of_nat 3 * BYTES_PER_BLOCK) /\
  exists m', gc_free heap2 (ptr_to (areas heap2) 0 0) = Some m' /\ mem_ok m' /\ released (areas heap2) (areas m') 0 0 3.
Proof. apply (gc_free_spec heap2 0 0 3 heap2_ok); [by vm_compute|exact heap2_chain]. Defined.

Lemma gc_realloc_spec_witness :
  exists m' ptr, gc_realloc heap2 (ptr_to (areas heap2) 0 0) 90 true [4112] [] = Some (m', ptr) /\
    realloc_result heap2 m' 0 0 3 (blocks_for 90) ptr.
Proof.
  apply (gc_realloc_spec heap2 0 0 3 90 true [4112] [] heap2_ok); try (by vm_compute); [exact heap2_chain|].
  apply list_elem_of_here.
Defined.

(** What a collection with one root leaves of [heap2], and a search that failed:
    the comment says the area is marked as filled, the index set counts bytes
    of the table as if they were blocks. *)
Example heap2_collected :
  (fun m => gc_alloc_table <$> areas m) <$> gc_collect heap2 [4112] [] = Some [[0x29; 0; 0]; [0; 0; 0]].
Proof. reflexivity. Qed.

Example full_area_index :
  let full := {| gc_alloc_table := replicate 16 0x55 ++ [0]; gc_alloc_table_byte_len := 16; gc_pool_start := 4112;
                 gc_pool_end := 5136; gc_last_free_atb_index := 16; gc_last_used_block := 63; pool := replicate 256 0 |} in
  match find_free [full] 0 1 with
  | Some (l, _) => gc_last_free_atb_index <$> l = [4%nat]
  | None => False
  end.
Proof. reflexivity. Qed.
